(* ===== verification/_CoqProject ===== *)
-Q . S2P
Prelude.v
ByteStream.v
SysByteorder.v
IOBuffer.v
Codecs.v
IOHandler.v
IOThreads.v
MessageLoop.v
TaskOrder.v
LoopNesting.v
LoopWakeup.v
LoopEnd.v
FdWatcher.v
ZNetPacket.v
HttpTypes.v
HttpUrl.v
HttpParser.v
HttpSafety.v
HttpMessages.v
HttpNames.v
HttpBody.v
HttpQuirks.v
HttpUrlProofs.v
HttpListen.v
Numbers.v
Strings.v
StringsProofs.v
PatternProofs.v
Tokenizer.v
IpPattern.v
UrlEscape.v
HttpServer.v
HttpServerProofs.v
SocketOps.v
Client.v
ClientProofs.v
Server.v
Int128.v
DynamicBitset.v
PriorityQueue.v
Utf8.v
Utf8Proofs.v
Values.v
ValuesProofs.v
JsonWriter.v
JsonParser.v
JsonChecks.v
JsonSafety.v
JsonGrammar.v
JsonComplete.v
JsonRoundtrip.v
Pickle.v
PickleProofs.v
FilePath.v
FilePathProofs.v
Digest.v
Sha1.v
Sha1Proofs.v
Md5.v
Md5Proofs.v
NetAddress.v
NetAddressProofs.v
Messages.v
MessagesProofs.v
WaitableEvent.v
WaitableEventProofs.v
Timer.v
TimerProofs.v
ReadWriteBuffer.v
ConnPool.v
LinkedMaps.v
ObserverList.v
SafeMath.v
