(* ===== verification/Prelude.v ===== *)
(** * zutils: its network engine, its codecs, its HTTP server and its JSON

    zutils is a C++ library of Chromium's base with a network engine of its own.
    This development models that engine from the message loop and the bytes of a
    socket up to the requests an application sees, the string functions it leans
    on, and the values, JSON, pickles, paths and digests of base, and proves what
    the pieces promise each other.  Paths below are under [src/zutils].

    ** The parts and how they meet

    A reactor thread runs a message loop, which runs the tasks posted to it and
    watches sockets through libevent.  [TCPAcceptor] accepts connections and
    [TCPServer] deals them out to reactors; [TCPConnector] and [TCPClient] make
    them.  Each connection is an [IOHandler] with two [IOBuffer]s; what it reads
    it gives to a delegate, a codec, which cuts the stream into messages for the
    application.  There are four codecs: length-prefixed messages, TeamTalk
    packets, ZNet packets and HTTP requests.  Packets are filled and read with a
    [ByteStream]; HTTP requests go through the parser in
    [net/third_party/http_parser].  Beside the engine, trees of values are
    written as JSON and read back, over the conversions of numbers and of UTF-8.

    ** Files

    - [Prelude] (this file): [outcome], which keeps results, failed assertions,
      accesses outside an object and exhausted fuel apart; fixed-width integers
      ([uwrap], [swrap]); bytes, byte strings and their big- and little-endian
      readings; memory blocks indexed by [Z].
    - [ByteStream]: [base2/byte_stream.{h,cc}].  [Alloc], virtual in the source,
      is a parameter of the operations; the laws of an implementation are the
      class [VirtualAlloc], discharged here and by [ZNetPacket].
    - [SysByteorder]: [base/sys_byteorder.h], on a host of either endianness.
    - [IOBuffer]: [net/base/io_buffer.{h,cc}], the representation [io_rep] of a
      byte queue with head room, and a specification machine it refines.
    - [Codecs]: [net/codec/length_header], [teamtalk] and [znet].  They are
      written against the class [ByteQueue], of which [IOBuffer] is an instance.
    - [ZNetPacket]: [net/codec/znet/packet.{h,cc}], packets as streams.
    - [IOHandler]: [net/engine/io_handler.cc], one connection on its loop: the
      read path, the write path as a transition system, and closing.
    - [IOThreads]: the same file's calls from other threads, posted to the loop,
      which is taken to run them in the order they were posted: that is
      [posted_tasks_fifo].
    - [MessageLoop]: [base/message_loop/message_loop.cc], [incoming_task_queue.cc]
      and [base/run_loop.cc], with [message_pump_default.cc] and the engine's pump
      [net/message_loop/message_pump_libevent2.cc], as a step relation between frames of a stack: pumps,
      tasks and the code they run, which may post, quit and nest.  [TaskOrder],
      [LoopNesting], [LoopWakeup] and [LoopEnd] prove what it promises, each with
      an invariant of its own.
    - [FdWatcher]: [WatchFileDescriptor] and what goes with it, over the heap of
      events and the lists of libevent ([third_party/libevent/event.c]).
    - [SocketOps]: [net/engine/socket_ops.cc], POSIX branch, and the error codes
      of [net/base/net_errors_posix.cc], over the kernel's answers.
    - [Client], [ClientProofs]: [net/engine/tcp_connector.cc], [tcp_client.cc]:
      events of the loop, and a specification of six phases; what an application
      that does not wait for the end of an attempt gets is shown there too.
    - [Server]: [net/engine/tcp_acceptor.cc], [reactor_thread_pool.cc] and
      [tcp_server.cc].
    - [HttpTypes], [HttpUrl], [HttpParser]: [net/third_party/http_parser], the
      data, the URL parser and [http_parser_execute] with every case of its
      switch.  Callbacks are a parameter and may fail or pause the parser.
    - [HttpSafety], [HttpMessages], [HttpNames], [HttpBody], [HttpQuirks],
      [HttpUrlProofs]: theorems about it.  [HttpMessages] has the calculus of
      segments (a run of the parser over a known piece of input) that the others
      use; [HttpListen] carries what is proved of an application that records
      its callbacks over to any application whose callbacks answer 0.
    - [HttpServer], [HttpServerProofs]: [net/http], requests, the codec and
      responses.
    - [Numbers]: [base/strings/string_number_conversions.cc].
    - [Strings], [StringsProofs], [PatternProofs]: [base/strings/string_util]
      and [string_split], the instances for [std::string].
    - [Tokenizer]: [base/strings/string_tokenizer.h]; [IpPattern]:
      [net/base/ip_pattern.{h,cc}], which uses it; [UrlEscape]: [net/base/escape.cc].
    - [Int128]: [base2/int128.h]; [DynamicBitset]: [base2/dynamic_bitset.h];
      [PriorityQueue]: [base2/priority_queue.h].
    - [Utf8], [Utf8Proofs]: [base/third_party/icu/icu_utf], and
      [base/strings/utf_string_conversion*] with [IsStringUTF8].  The two
      encodings are instances of the class [Reader].
    - [Values], [ValuesProofs]: [base/values.cc].
    - [JsonWriter]: [base/json/json_writer.cc] and [string_escape.cc];
      [JsonParser]: [json_parser.cc] with the errors of [json_reader.cc].
      [JsonSafety] is about any input, [JsonChecks] about what its [DCHECK]s change;
      [JsonGrammar] says what a text denotes,
      [JsonComplete] that the parser follows it and [JsonRoundtrip] that the
      writer keeps to it.
    - [Pickle], [PickleProofs]: [base/pickle.{h,cc}], over memory and [realloc].
    - [FilePath], [FilePathProofs]: [base/files/file_path.cc], POSIX branch.
    - [Digest]: what SHA-1 and MD5 share, blocks of words and their chaining;
      [Sha1], [Sha1Proofs]: [base/sha1_portable.cc]; [Md5], [Md5Proofs]:
      [base/md5.cc].  The specifications are those of the standards.
    - [NetAddress], [NetAddressProofs]: [net/base/net_util.cc], [ip_endpoint.cc],
      [host_port_pair.cc] and [address_list.cc].
    - [Messages], [MessagesProofs]: [message_pdu], the messages of an application
      and their TeamTalk packets.  What a message class implements is the class
      [MessageClass].
    - [WaitableEvent], [WaitableEventProofs]: [base/synchronization/
      waitable_event_posix.cc], threads that interleave between their locks.
    - [Timer], [TimerProofs]: [base/timer/timer.{h,cc}] and
      [base2/timer_manager.{h,cc}], on the queue of a loop.
    - [ReadWriteBuffer]: [base2/io_buffer2.{h,cc}]; [ConnPool]:
      [db/conn_pool_manager.{h,cc}]; [LinkedMaps]: [base2/linked_hash_map.h] and
      [linked_map.h]; [ObserverList]: [base/observer_list.h], with any number of
      iterators alive; [SafeMath]: [base/numerics], its integer
      types.

    ** How the code is written down

    State is a record with the source's members, an operation a function from
    state to [outcome] of result and state, named as in the source; a loop whose
    recursion is not structural has fuel, and a theorem says that what the
    callers give is enough.  [DCHECK] is compiled in or not by a parameter, but in
    [MessageLoop], where it is always compiled in and the runs are those in which none fails;
    [CHECK], [LOG(FATAL)] and [exit] always end the run.  Times are integers, without the
    overflow of their 64 bits.  What the source gets
    from outside - the kernel, [malloc], the application, host endianness - is a
    parameter: the results of the system calls an operation makes come in as
    arguments.

    ** What the theorems show

    - Serialisation: what is put into a stream comes back, [put_get_roundtrip],
      [packet_stream_roundtrip], [znet_packet_roundtrip], [scalars_roundtrip];
      reading stays in the block whatever it holds, [get_safe]; growing ends,
      with the block asked for unless [malloc] refuses it, exactly below the last page,
      [Alloc_total].
    - Buffer and connection: [io_buffer_refines] its byte queue;
      [fragmentation_independent] and [connection_delivers], each message once
      and in order however the stream is cut; [write_path_fifo] and
      [write_path_drains]; [Read_branches]; [tt_one_packet_per_call];
      [send_error_out_of_bounds], an error of [send] taken for a length;
      [threads_fifo], sending from any thread while the connection is open, and
      [posted_send_after_close].
    - Message loop: [tasks_conserved], no task is lost, made up or run twice;
      [posted_tasks_fifo] and [tasks_in_sequence], their order;
      [non_nestable_not_nested]; [no_lost_wakeup] of a sleeping pump, outermost or
      nested, if callbacks of libevent start no loop, and [nested_in_callback_sleeps] if
      one does; [sleeping_loop_runs_post]; [destroyed_loop_is_empty]; [watch_exact], the
      events a watcher asks libevent for, none leaked and none left on a list.
    - Engine: [client_refines] its phases, [client_connects] in the end,
      [refusal_is_final]; [server_round_robin]; [sockets_leave_nothing] open,
      but [blocking_connect_fails].
    - HTTP parser: [http_parser_execute_safe] and [parser_well_formed] for any
      input, callbacks and pauses; [requests_roundtrip] for pipelined requests,
      [chunked_roundtrip] and [body_fragments] for bodies; the matchers
      recognise what they should, [header_name_exact], [method_exact];
      [content_length_exact] up to the last representable length;
      [url_parts_exact], and [port_read_past_end], a read outside the buffer.
    - HTTP server: [http_server_serves], one call per read with the merged
      headers of the connection; [request_context_exact] for any bytes;
      [response_exact]; [HasHeaderValue_exact].
    - Strings: [StringToNumber_exact], [IntToString_roundtrip]; [words_agree],
      [split_join], [strlcpy_exact]; [MatchPattern_glob].
    - Utilities: [tokenizer_exact]; [ip_pattern_exact]; [escape_roundtrip],
      [unescape_no_bidi]; [uint128_exact];
      [bitset_refines]; [priority_queue_refines].
    - Text and JSON: [utf8_exact] and [utf16_exact], conversion succeeds exactly
      on well-formed text and is undone by the other; [dictionary_paths],
      [equals_exact], [merge_exact] of values; [json_parse_safe] for any input, where
      with [DCHECK]s the only other end is a failed one; [json_accepts] for any text
      of the grammar of [JsonGrammar], which says what it leaves out of the standard; and
      [json_roundtrip], the composition of writer and parser.
    - Pickles: [pickle_roundtrip] of what was written, also after the bytes have
      travelled; [pickle_reads_stay] inside the bytes whatever they are.
    - Paths: [append_parent_exact], [extensions_exact], [components_exact].
    - Digests: [sha1_exact] and [md5_exact], the digests of the standards however
      the message is cut into pieces.
    - Addresses: [sockaddr_roundtrip] through memory, [prefix_exact] bit by bit,
      [contraction_exact] of IPv6 text, [host_port_roundtrip].
    - Messages: [messages_delivered], from one end's object to the other's;
      [array_data_faults], when parsing an array goes wrong.
    - Events: [signals_conserved], none lost or used twice; [waits_safe], and no
      thread sleeps on a signal.
    - Timers: [timers_exact], the closure of the last start and not too early,
      nothing dangling; [timer_manager_exact], one call for each timer set.
    - Buffers, pools and maps: [buffer_values_roundtrip], [buffer_reads_stay] and
      [buffer_bounds_exact], where writing leaves the block; [pool_exclusive], no
      connection for two; [linked_maps_refine] an association list;
      [observers_refine] a queue of names; [checked_exact], which results of checked
      arithmetic are valid.

    ** Bounds and fuel

    [http_parser_execute] runs its loop with fuel 4 times the length of the
    buffer: a byte is looked at again at most three times ([rank]).
    [OnDataReceived] of the length codec has fuel one more than the readable
    bytes, each round taking at least the header.  [MatchPattern] is given 18
    levels, two more than [kMaxDepth].  [ReplaceChars], [Tokenize] and the
    integer printers take the length of their input or buffer.  The JSON
    parser's loops take the length of the input, its functions twice that
    ([parse_fuel]): each call below a structure is at a later character.  The
    loops over paths take the length of the path, those over a message its
    length, the padding of a block 64 steps, the groups of an IPv6 address 8 and
    [IPNumberMatchesPrefix] the two calls it makes of itself.  Erasing a range of a
    linked map has one more than its pairs.  [io_limit] is
    [2^60] bytes, far above what a 64-bit allocator gives; [stream_limit] is
    [2^32 - 4096], the largest request [Alloc] ends on.

    ** Not modelled

    Preemption inside an operation, and locks, but in [WaitableEvent]: an
    operation runs on its own loop to the end; posts of other threads come
    between the steps of the loop, and [IOThreads] interleaves whole calls and
    tasks.  Observers of the loop.  The
    Windows branches.  Reference counts but for those on a handler.  The
    conversions between [double] and text, which are third-party ([dmg_fp]) and
    arguments of the JSON functions.  The hidden roots that keep the input of the
    JSON parser alive, represented by the characters that point into it.  The
    peer address and the clock that go with a request.  The vendored libraries
    (libevent, zlib, Lua, expat, tinyxml), the rest of Chromium's base, the
    database clients, capture and scripting wrappers, and the tests.
    Where a continuation would go: the asynchronous waiters of
    [waitable_event_watcher], the command line and templates of strings in [base]. *)
From Stdlib Require Import ZArith Lia Bool Ascii String.
From stdpp Require Import base list numbers strings.

Open Scope Z_scope.

(** * Outcomes

    A C or C++ statement either finishes with a value or does something the
    language leaves undefined, or fails a run-time assertion.  [outcome] keeps
    the three apart, so that "no fault" is a statement a theorem can make. *)
Inductive fault :=
  | OutOfBounds    (** an access outside the object *)
  | AssertFail     (** a failed assert / DCHECK / CHECK *)
  | OutOfFuel.     (** the loop did not finish within the fuel given *)

Inductive outcome (A : Type) :=
  | Ret (a : A)
  | Fault (f : fault).
Arguments Ret {A} _.
Arguments Fault {A} _.

#[export] Instance outcome_ret : MRet outcome := fun A a => Ret a.
#[export] Instance outcome_bind : MBind outcome :=
  fun A B k m => match m with Ret a => k a | Fault f => Fault f end.

#[export] Instance fault_eq_dec : EqDecision fault.
Proof. solve_decision. Defined.

(** [guard_or b f k]: continue with [k] when [b] holds, fault with [f] otherwise. *)
Definition guard_or {A} (b : bool) (f : fault) (k : outcome A) : outcome A :=
  if b then k else Fault f.

(** [DCHECK(c)], compiled in when [dcheck_on]. *)
Definition DCHECK (dcheck_on : bool) {A} (c : bool) (k : outcome A) : outcome A :=
  guard_or (negb dcheck_on || c) AssertFail k.
Lemma DCHECK_true dcheck_on {A} c (k : outcome A) : c = true -> DCHECK dcheck_on c k = k.
Proof. intros ->. unfold DCHECK, guard_or. by rewrite orb_true_r. Qed.

Definition outcome_ok {A} (m : outcome A) : bool :=
  match m with Ret _ => true | Fault _ => false end.

(** * Fixed-width integers *)
Definition uwrap (w x : Z) : Z := x mod 2 ^ w.
Definition swrap (w x : Z) : Z := (x + 2 ^ (w - 1)) mod 2 ^ w - 2 ^ (w - 1).

Abbreviation u8 := (uwrap 8).
Abbreviation u16 := (uwrap 16).
Abbreviation u32 := (uwrap 32).
Abbreviation u64 := (uwrap 64).
Abbreviation s8 := (swrap 8).
Abbreviation s16 := (swrap 16).
Abbreviation s32 := (swrap 32).
Abbreviation s64 := (swrap 64).

Lemma uwrap_small w x : 0 <= x < 2 ^ w -> uwrap w x = x.
Proof. intros H. unfold uwrap. by apply Z.mod_small. Qed.

Lemma uwrap_range w x : 0 <= w -> 0 <= uwrap w x < 2 ^ w.
Proof. intros Hw. unfold uwrap. apply Z.mod_pos_bound, Z.pow_pos_nonneg; lia. Qed.

Lemma uwrap_idem w x : uwrap w (uwrap w x) = uwrap w x.
Proof. unfold uwrap. apply Zmod_mod. Qed.

Lemma swrap_small w x : 0 < w -> - 2 ^ (w - 1) <= x < 2 ^ (w - 1) -> swrap w x = x.
Proof.
  intros Hw H. unfold swrap.
  assert (2 ^ w = 2 * 2 ^ (w - 1)) as E.
  { rewrite <- Z.pow_succ_r by lia. f_equal; lia. }
  rewrite Z.mod_small by lia. lia.
Qed.

(** The two's-complement reading of a [w]-bit pattern. *)
Lemma swrap_uwrap w x : 0 < w -> swrap w (uwrap w x) = swrap w x.
Proof.
  intros Hw. unfold swrap, uwrap. rewrite Zplus_mod_idemp_l. done.
Qed.

Lemma uwrap_swrap w x : 0 < w -> uwrap w (swrap w x) = uwrap w x.
Proof.
  intros Hw. unfold swrap, uwrap.
  rewrite Zminus_mod_idemp_l. f_equal. lia.
Qed.

(** [lia] with the powers of two the widths introduce evaluated. *)
Ltac powlia :=
  repeat match goal with
    | H : context [2 ^ ?n] |- _ => let v := eval vm_compute in (2 ^ n) in
        lazymatch v with Zpos _ => change (2 ^ n) with v in H end
    | |- context [2 ^ ?n] => let v := eval vm_compute in (2 ^ n) in
        lazymatch v with Zpos _ => change (2 ^ n) with v end
    end; lia.

(** Remove wraps whose argument is in range. *)
Ltac unwrap :=
  repeat match goal with
    | |- context [uwrap ?w ?x] => rewrite (uwrap_small w x) by powlia
    | |- context [swrap ?w ?x] => rewrite (swrap_small w x) by powlia
    end.

(** * Bytes *)
Definition is_byte (b : Z) : Prop := 0 <= b < 256.
Definition byteb (b : Z) : bool := (0 <=? b) && (b <? 256).
Abbreviation bytes := (list Z).
Definition all_bytes (l : bytes) : Prop := Forall is_byte l.

#[export] Instance is_byte_dec b : Decision (is_byte b).
Proof. unfold is_byte. apply _. Defined.

Lemma byteb_spec b : byteb b = true <-> is_byte b.
Proof. unfold byteb, is_byte. rewrite andb_true_iff, Z.leb_le, Z.ltb_lt. done. Qed.

(** A decidable fact about every byte is proved by trying them all. *)
Lemma byte_check (P : Z -> bool) : forallb P (map Z.of_nat (seq 0 256)) = true -> forall c, is_byte c -> P c = true.
Proof.
  intros H c [Hc1 Hc2]. rewrite forallb_forall in H. apply H. apply in_map_iff. exists (Z.to_nat c). split; [lia|].
  apply in_seq. lia.
Qed.

(** The code of a character; [ch#"A"] is the literal 65. *)
Definition chr (a : Ascii.ascii) : Z := Z.of_N (Ascii.N_of_ascii a).
Notation "'ch#' c" := (ltac:(let v := eval vm_compute in (chr c%char) in exact v))
  (at level 1, c at level 0, only parsing).

Fixpoint bytes_of_string (s : string) : bytes :=
  match s with
  | EmptyString => []
  | String a s => Z.of_N (Ascii.N_of_ascii a) :: bytes_of_string s
  end.

Lemma bytes_of_string_bytes s : all_bytes (bytes_of_string s).
Proof.
  induction s as [|a s IH]; simpl; constructor; [|done].
  unfold is_byte. pose proof (Ascii.N_ascii_bounded a). lia.
Qed.

(** * Shifts and masks as arithmetic *)
Lemma land_shiftl_low a b n :
  0 <= n -> 0 <= b < 2 ^ n -> Z.land (Z.shiftl a n) b = 0.
Proof.
  intros Hn Hb. apply Z.bits_inj'. intros i Hi. rewrite Z.land_spec, Z.bits_0.
  destruct (Z.lt_ge_cases i n).
  - rewrite Z.shiftl_spec_low by lia. done.
  - rewrite <- (Z.mod_small b (2 ^ n)) by lia.
    rewrite Z.mod_pow2_bits_high by lia. apply andb_false_r.
Qed.

Lemma lor_shiftl_add a b n :
  0 <= n -> 0 <= b < 2 ^ n -> Z.lor (Z.shiftl a n) b = a * 2 ^ n + b.
Proof.
  intros Hn Hb. pose proof (land_shiftl_low a b n Hn Hb) as HL.
  rewrite <- Z.shiftl_mul_pow2 by lia.
  rewrite Z.add_nocarry_lxor, Z.lxor_lor by done. done.
Qed.

Lemma land_255 x : Z.land x 255 = x mod 256.
Proof. change 255 with (Z.ones 8). by rewrite Z.land_ones by lia. Qed.

Lemma land_255_byte x : is_byte (Z.land x 255).
Proof. rewrite land_255. unfold is_byte. apply Z.mod_pos_bound. lia. Qed.

Lemma land_255_id x : is_byte x -> Z.land x 255 = x.
Proof. intros H. rewrite land_255. by apply Z.mod_small. Qed.

Lemma byte_at_shift x k : 0 <= k -> Z.land (Z.shiftr x k) 255 = (x / 2 ^ k) mod 256.
Proof. intros. by rewrite land_255, Z.shiftr_div_pow2. Qed.

(** The 64-bit integers are those without a bit from 64 on. *)
Lemma high_bits x i : 0 <= x < 2 ^ 64 -> 64 <= i -> Z.testbit x i = false.
Proof. intros Hx Hi. rewrite <- (Z.mod_small x (2 ^ 64)) by done. by apply Z.mod_pow2_bits_high. Qed.
Lemma bits_range x : 0 <= x -> (forall i, 64 <= i -> Z.testbit x i = false) -> 0 <= x < 2 ^ 64.
Proof.
  intros Hx Hb. assert (x = x mod 2 ^ 64) as ->; [|by apply Z.mod_pos_bound].
  apply Z.bits_inj'. intros i Hi. destruct (Z.lt_ge_cases i 64); [by rewrite Z.mod_pow2_bits_low|].
  by rewrite Hb, Z.mod_pow2_bits_high.
Qed.

(** The byte stores and loads the sources spell out with shifts and masks:
    [put_be32 x] is [d[0] = (x >> 24) & 0xff; ...; d[3] = x & 0xff], [get_be32]
    is [((d[0] & 0xff) << 24) | ... | (d[3] & 0xff)] as an unsigned 32-bit value. *)
Definition put_be32 (x : Z) : bytes :=
  [Z.land (Z.shiftr x 24) 255; Z.land (Z.shiftr x 16) 255;
   Z.land (Z.shiftr x 8) 255; Z.land x 255].
Definition put_be16 (x : Z) : bytes := [Z.land (Z.shiftr x 8) 255; Z.land x 255].

Definition get_be32 (a b c d : Z) : Z :=
  u32 (Z.lor (Z.lor (Z.lor (Z.shiftl (Z.land a 255) 24) (Z.shiftl (Z.land b 255) 16))
                    (Z.shiftl (Z.land c 255) 8)) (Z.land d 255)).
Definition get_be16 (a b : Z) : Z :=
  u16 (Z.lor (Z.shiftl (Z.land a 255) 8) (Z.land b 255)).

Lemma put_be32_bytes x : all_bytes (put_be32 x).
Proof. repeat constructor; apply land_255_byte. Qed.
Lemma put_be16_bytes x : all_bytes (put_be16 x).
Proof. repeat constructor; apply land_255_byte. Qed.

Lemma get_be16_val a b : is_byte a -> is_byte b -> get_be16 a b = a * 256 + b.
Proof.
  unfold is_byte. intros. unfold get_be16. rewrite !land_255_id by done.
  rewrite lor_shiftl_add by lia. rewrite uwrap_small; lia.
Qed.

Lemma get_be32_val a b c d :
  is_byte a -> is_byte b -> is_byte c -> is_byte d ->
  get_be32 a b c d = ((a * 256 + b) * 256 + c) * 256 + d.
Proof.
  unfold is_byte. intros. unfold get_be32. rewrite !land_255_id by done.
  rewrite <- !Z.lor_assoc.
  rewrite (lor_shiftl_add c d 8) by lia.
  rewrite (lor_shiftl_add b) by lia.
  rewrite (lor_shiftl_add a) by lia.
  rewrite uwrap_small; lia.
Qed.

(** The base-256 digits of a number reassemble it modulo the width. *)
Lemma mod_split_256 x m : 0 < m -> x mod (m * 256) = (x / 256) mod m * 256 + x mod 256.
Proof. intros. rewrite (Z.mul_comm m), Z.rem_mul_r by lia. lia. Qed.

Lemma get_put_be16 x :
  get_be16 (Z.land (Z.shiftr x 8) 255) (Z.land x 255) = u16 x.
Proof.
  rewrite get_be16_val by apply land_255_byte.
  rewrite byte_at_shift, land_255 by lia.
  change (u16 x) with (x mod (256 * 256)). by rewrite mod_split_256.
Qed.

Lemma get_put_be32 x :
  get_be32 (Z.land (Z.shiftr x 24) 255) (Z.land (Z.shiftr x 16) 255)
           (Z.land (Z.shiftr x 8) 255) (Z.land x 255) = u32 x.
Proof.
  rewrite get_be32_val by apply land_255_byte.
  rewrite !byte_at_shift, land_255 by lia.
  change (u32 x) with (x mod (256 * 256 * 256 * 256)).
  rewrite !mod_split_256 by lia.
  change (2 ^ 8) with 256. change (2 ^ 16) with (256 * 256). change (2 ^ 24) with (256 * 256 * 256).
  by rewrite <- !Z.div_div by lia.
Qed.

#[global] Arguments put_be16 : simpl never.
#[global] Arguments put_be32 : simpl never.

(** * Integers as byte strings, least significant byte first or last *)
Fixpoint le_bytes (n : nat) (x : Z) : bytes :=
  match n with
  | O => []
  | S n => x mod 256 :: le_bytes n (x / 256)
  end.

Fixpoint le_val (l : bytes) : Z :=
  match l with
  | [] => 0
  | b :: l => b + 256 * le_val l
  end.

Definition be_bytes (n : nat) (x : Z) : bytes := reverse (le_bytes n x).
Definition be_val (l : bytes) : Z := le_val (reverse l).

Lemma length_le_bytes n x : length (le_bytes n x) = n.
Proof. revert x. induction n as [|n IH]; intros x; simpl; [done|]. by rewrite IH. Qed.

Lemma length_be_bytes n x : length (be_bytes n x) = n.
Proof. unfold be_bytes. by rewrite length_reverse, length_le_bytes. Qed.

Lemma le_bytes_bytes n x : all_bytes (le_bytes n x).
Proof.
  revert x. induction n as [|n IH]; intros x; simpl; constructor; [|apply IH].
  unfold is_byte. apply Z.mod_pos_bound. lia.
Qed.

Lemma be_bytes_bytes n x : all_bytes (be_bytes n x).
Proof. unfold be_bytes, all_bytes. rewrite Forall_reverse. apply le_bytes_bytes. Qed.

Lemma le_val_bytes n x : le_val (le_bytes n x) = x mod 256 ^ Z.of_nat n.
Proof.
  revert x. induction n as [|n IH]; intros x; cbn [le_bytes le_val].
  - change (256 ^ Z.of_nat 0) with 1. by rewrite Z.mod_1_r.
  - rewrite IH, Nat2Z.inj_succ, Z.pow_succ_r by lia.
    rewrite Z.rem_mul_r; lia.
Qed.

Lemma be_val_bytes n x : be_val (be_bytes n x) = x mod 256 ^ Z.of_nat n.
Proof. unfold be_val, be_bytes. by rewrite reverse_involutive, le_val_bytes. Qed.

Lemma le_val_range l : all_bytes l -> 0 <= le_val l < 256 ^ Z.of_nat (length l).
Proof.
  induction 1 as [|b l Hb Hl IH]; cbn [le_val length]; [done|].
  rewrite Nat2Z.inj_succ, Z.pow_succ_r by lia. unfold is_byte in Hb. lia.
Qed.

Lemma le_bytes_val l : all_bytes l -> le_bytes (length l) (le_val l) = l.
Proof.
  induction 1 as [|b l Hb Hl IH]; cbn [le_val length le_bytes]; [done|]. unfold is_byte in Hb.
  rewrite (Z.mul_comm 256), Z.mod_add, Z.div_add by lia.
  rewrite Z.mod_small, Z.div_small, Z.add_0_l by lia. by f_equal.
Qed.

Lemma all_bytes_reverse l : all_bytes l -> all_bytes (reverse l).
Proof. unfold all_bytes. by rewrite Forall_reverse. Qed.

Lemma be_bytes_val l : all_bytes l -> be_bytes (length l) (be_val l) = l.
Proof.
  intros H. unfold be_bytes, be_val. rewrite <- (length_reverse l).
  rewrite le_bytes_val by by apply all_bytes_reverse. apply reverse_involutive.
Qed.

Lemma forallb_weaken {A} (P Q : A -> bool) l : (forall x, P x = true -> Q x = true) -> forallb P l = true -> forallb Q l = true.
Proof. intros HPQ. rewrite !forallb_forall. eauto. Qed.

(** * Memory blocks: lists of bytes indexed by [Z] *)
Definition zlen {A} (l : list A) : Z := Z.of_nat (length l).
Definition zslice {A} (off n : Z) (l : list A) : list A :=
  take (Z.to_nat n) (drop (Z.to_nat off) l).
Definition zsplice {A} (off : Z) (d l : list A) : list A :=
  take (Z.to_nat off) l ++ d ++ drop (Z.to_nat off + length d) l.
Definition znth (l : bytes) (i : Z) : Z := default 0 (l !! Z.to_nat i).

Definition in_block {A} (m : list A) (off n : Z) : bool :=
  (0 <=? off) && (0 <=? n) && (off + n <=? zlen m).

(** [memcpy] from and to a block; an access outside the block is a fault. *)
Definition mem_read (m : bytes) (off n : Z) : outcome bytes :=
  guard_or (in_block m off n) OutOfBounds (Ret (zslice off n m)).
Definition mem_write (m : bytes) (off : Z) (d : bytes) : outcome bytes :=
  guard_or (in_block m off (zlen d)) OutOfBounds (Ret (zsplice off d m)).

Lemma zlen_nonneg {A} (l : list A) : 0 <= zlen l.
Proof. unfold zlen. lia. Qed.
Lemma zlen_app {A} (l k : list A) : zlen (l ++ k) = zlen l + zlen k.
Proof. unfold zlen. rewrite length_app. lia. Qed.
Lemma zlen_cons {A} (a : A) l : zlen (a :: l) = 1 + zlen l.
Proof. unfold zlen. cbn [length]. lia. Qed.

Lemma in_block_true {A} (m : list A) off n :
  in_block m off n = true <-> 0 <= off /\ 0 <= n /\ off + n <= zlen m.
Proof. unfold in_block. rewrite !andb_true_iff, !Z.leb_le. tauto. Qed.

Lemma zlen_zsplice {A} off (d m : list A) :
  0 <= off -> off + zlen d <= zlen m -> zlen (zsplice off d m) = zlen m.
Proof.
  unfold zlen, zsplice. intros. rewrite !length_app, length_take, length_drop. lia.
Qed.

Lemma zlen_zslice {A} off n (m : list A) :
  0 <= off -> 0 <= n -> off + n <= zlen m -> zlen (zslice off n m) = n.
Proof. unfold zlen, zslice. intros. rewrite length_take, length_drop. lia. Qed.

Lemma mem_read_ok m off n :
  0 <= off -> 0 <= n -> off + n <= zlen m -> mem_read m off n = Ret (zslice off n m).
Proof.
  intros. unfold mem_read, guard_or. by rewrite (proj2 (in_block_true m off n)).
Qed.

Lemma mem_write_ok m off d :
  0 <= off -> off + zlen d <= zlen m -> mem_write m off d = Ret (zsplice off d m).
Proof.
  intros. unfold mem_write, guard_or.
  rewrite (proj2 (in_block_true m off (zlen d))); [done|]. pose proof (zlen_nonneg d). lia.
Qed.

(** Writing at the end of a prefix appends to it. *)
Lemma ztake_splice_end {A} off (d m : list A) :
  0 <= off -> off + zlen d <= zlen m ->
  take (Z.to_nat (off + zlen d)) (zsplice off d m) = take (Z.to_nat off) m ++ d.
Proof.
  unfold zlen, zsplice. intros. rewrite app_assoc, take_app_le.
  - rewrite take_ge; [done|]. rewrite length_app, length_take. lia.
  - rewrite length_app, length_take. lia.
Qed.

Lemma zslice_app_l {A} off n (l k : list A) :
  0 <= off -> 0 <= n -> off + n <= zlen l -> zslice off n (l ++ k) = zslice off n l.
Proof.
  unfold zlen, zslice. intros. rewrite drop_app_le by lia.
  rewrite take_app_le; [done|]. rewrite length_drop. lia.
Qed.

Lemma zslice_take {A} off n k (l : list A) :
  0 <= off -> 0 <= n -> off + n <= k -> zslice off n (take (Z.to_nat k) l) = zslice off n l.
Proof.
  unfold zslice. intros. rewrite skipn_firstn_comm, take_take. f_equal. lia.
Qed.

Lemma zslice_middle {A} (p d s : list A) off n :
  off = zlen p -> n = zlen d -> zslice off n (p ++ d ++ s) = d.
Proof.
  intros -> ->. unfold zslice, zlen. rewrite !Nat2Z.id.
  by rewrite drop_app_length, take_app_length.
Qed.

Lemma zsplice_end {A} (c d t : list A) :
  zsplice (zlen c) d (c ++ t) = c ++ d ++ drop (length d) t.
Proof.
  unfold zsplice, zlen. by rewrite Nat2Z.id, take_app_length, drop_app_add.
Qed.

Lemma znth_app p d k : 0 <= k -> znth (p ++ d) (zlen p + k) = znth d k.
Proof.
  intros. unfold znth, zlen. rewrite Z2Nat.inj_add, Nat2Z.id by lia.
  by rewrite lookup_app_r, Nat.add_sub_swap, Nat.sub_diag by lia.
Qed.

(** The literal bytes of a string constant. *)
Notation "'str#' s" := (ltac:(let v := eval vm_compute in (bytes_of_string s%string) in exact v))
  (at level 1, s at level 0, only parsing).

Create HintDb zutils.
Create Rewrite HintDb zutils.
#[export] Hint Resolve le_bytes_bytes be_bytes_bytes all_bytes_reverse zlen_nonneg land_255_byte put_be16_bytes put_be32_bytes bytes_of_string_bytes : zutils.
#[export] Hint Rewrite @zlen_app @zlen_cons @zlen_zsplice @zlen_zslice using lia : zutils.

(** Run the next bind of an [outcome] whose first part is known. *)
Ltac obind := cbn [mbind outcome_bind].

(** Split a boolean guard of the code into its two cases, with the arithmetic
    facts in the context. *)
Ltac case_cond :=
  match goal with
  | |- context [if ?b then _ else _] => destruct b eqn:?
  | |- context [match ?x with _ => _ end] => destruct x eqn:?
  end; simplify_eq/=.
