(* ===== verification/ByteStream.v ===== *)
(** The serialisation stream of [zutils/base2/byte_stream.h] and
    [byte_stream.cc]: a growable (or caller-supplied) block with one cursor,
    big-endian scalar operators and length-prefixed strings.  The 32-bit
    members wrap as [uint32] does, [malloc] is a parameter that may fail, and an
    access outside the block is a fault. *)
From Stdlib Require Import ZArith Lia Bool.
From stdpp Require Import base list numbers.
From S2P Require Import Prelude.

Open Scope Z_scope.

(** * State *)

(** [class ByteStream]: [buffer_] is [None] for the null pointer. *)
Record byte_stream := ByteStream {
  buffer_ : option bytes;
  is_new_ : bool;
  max_len_ : Z;
  data_len_ : Z;
  current_pos_ : Z;
  failed_ : Z
}.

Definition set_buffer (s : byte_stream) b m :=
  ByteStream b (is_new_ s) m (data_len_ s) (current_pos_ s) (failed_ s).
Definition set_content (s : byte_stream) b :=
  ByteStream (Some b) (is_new_ s) (max_len_ s) (data_len_ s) (current_pos_ s) (failed_ s).
Definition set_pos (s : byte_stream) p :=
  ByteStream (buffer_ s) (is_new_ s) (max_len_ s) (data_len_ s) p (failed_ s).
Definition set_data_len (s : byte_stream) n :=
  ByteStream (buffer_ s) (is_new_ s) (max_len_ s) n (current_pos_ s) (failed_ s).
Definition set_failed (s : byte_stream) f :=
  ByteStream (buffer_ s) (is_new_ s) (max_len_ s) (data_len_ s) (current_pos_ s) f.

(** [ByteStream::ByteStream()] *)
Definition bs_new : byte_stream := ByteStream None true 0 0 0 0.

(** [ByteStream::ByteStream(const void*, uint32)]: the caller's block. *)
Definition bs_wrap (buffer : bytes) (data_len : Z) : byte_stream :=
  ByteStream (Some buffer) false data_len data_len 0 0.

(** The bytes at [buffer_ + off .. buffer_ + off + n). *)
Definition block_read (s : byte_stream) (off n : Z) : outcome bytes :=
  match buffer_ s with
  | Some m => mem_read m off n
  | None => Fault OutOfBounds
  end.

Definition block_write (s : byte_stream) (off : Z) (d : bytes) : outcome byte_stream :=
  match buffer_ s with
  | Some m => m' ← mem_write m off d; Ret (set_content s m')
  | None => Fault OutOfBounds
  end.

(** * Cursor operations *)

(** [ByteStream::Seek] *)
Definition Seek (s : byte_stream) (pos : Z) : Z * byte_stream :=
  if max_len_ s <? pos then (-1, s)
  else (s32 (current_pos_ s), set_failed (set_pos s pos) 0).

(** [ByteStream::Tell], [Length], [Fail] *)
Definition Tell (s : byte_stream) : Z := current_pos_ s.
Definition Length (s : byte_stream) : Z := data_len_ s.
Definition Fail (s : byte_stream) : bool := negb (failed_ s =? 0).

(** [ByteStream::Skip] *)
Definition Skip (s : byte_stream) (pos : Z) : Z * byte_stream :=
  if max_len_ s <? u32 (current_pos_ s + pos) then (-1, s)
  else (0, set_failed (set_pos s (u32 (current_pos_ s + pos))) 0).

(** * Allocation *)

(** The loop [while (new_buffer_size < new_len) new_buffer_size += step] both
    allocators run, with [step] 4096 here. *)
Fixpoint grow (step : Z) (fuel : nat) (size new_len : Z) : outcome Z :=
  if size <? new_len then
    match fuel with
    | O => Fault OutOfFuel
    | S fuel => grow step fuel (u32 (size + step)) new_len
    end
  else Ret size.

(** Enough iterations when the size does not wrap ([grow_spec]). *)
Definition grow_fuel (step size new_len : Z) : nat := Z.to_nat ((new_len - size) / step + 1).

Section Malloc.
(** [malloc n]: null, or a block of [n] bytes with unspecified contents. *)
Context (malloc : Z -> option bytes).

Definition realloc (p : bytes) (n : Z) : option bytes :=
  match malloc n with
  | Some b => Some (take (length b) p ++ drop (length p) b)
  | None => None
  end.

(** [ByteStream::Alloc]: [false] is the null result. *)
Definition Alloc (s : byte_stream) (new_len : Z) : outcome (bool * byte_stream) :=
  if negb (failed_ s =? 0) then Ret (false, s)
  else if negb (is_new_ s) then Ret (false, set_failed s 1)
  else if max_len_ s <? new_len then
    size ← grow 4096 (grow_fuel 4096 (max_len_ s) new_len) (max_len_ s) new_len;
    let p := match buffer_ s with
             | None => malloc size
             | Some b => realloc b size
             end in
    match p with
    | None => Ret (false, set_failed (set_buffer s None (max_len_ s)) 1)
    | Some b => Ret (true, set_buffer s (Some b) size)
    end
  else Ret (bool_decide (is_Some (buffer_ s)), s).
End Malloc.

(** * Raw transfer

    [Alloc] is virtual: the operations below take the override in force. *)
Section Streams.
Context (alloc : byte_stream -> Z -> outcome (bool * byte_stream)).

(** [ByteStream::ReadRawData]: the bytes copied out, with the result code. *)
Definition ReadRawData (s : byte_stream) (data_len : Z) : outcome (Z * bytes * byte_stream) :=
  if negb (failed_ s =? 0) then Ret (-1, [], s)
  else if max_len_ s <? u32 (current_pos_ s + data_len) then Ret (-1, [], set_failed s 1)
  else if data_len =? 0 then Ret (0, [], s)
  else
    d ← block_read s (current_pos_ s) data_len;
    Ret (0, d, set_pos s (u32 (current_pos_ s + data_len))).

(** The copy and the two cursor updates that end [WriteRawData]. *)
Definition store_at_pos (s : byte_stream) (d : bytes) : outcome (Z * byte_stream) :=
  s ← block_write s (current_pos_ s) d;
  let s := set_pos s (u32 (current_pos_ s + zlen d)) in
  Ret (0, if data_len_ s <? current_pos_ s then set_data_len s (current_pos_ s) else s).

(** [ByteStream::WriteRawData], the [data_len] bytes given as the list [d]. *)
Definition WriteRawData (s : byte_stream) (d : bytes) : outcome (Z * byte_stream) :=
  if negb (failed_ s =? 0) then Ret (-1, s)
  else if zlen d =? 0 then Ret (0, s)
  else if max_len_ s <? u32 (current_pos_ s + zlen d) then
    if is_new_ s then
      '(ok, s) ← alloc s (u32 (current_pos_ s + zlen d));
      if (ok : bool) then store_at_pos s d else Ret (-1, s)
    else Ret (-1, s)
  else store_at_pos s d.

(** * Strings *)

(** [ByteStream::WriteString(const std::string&)], and the [const char*] one,
    whose bytes are those before the terminator. *)
Definition WriteString (s : byte_stream) (str : bytes) : outcome (Z * byte_stream) :=
  let len := u32 (zlen str) in
  '(r, s) ← WriteRawData s (put_be32 len);
  if negb (r =? 0) then Ret (-1, s) else WriteRawData s (take (Z.to_nat len) str).

Definition be32_of (ch : bytes) : Z := get_be32 (znth ch 0) (znth ch 1) (znth ch 2) (znth ch 3).
Definition be16_of (ch : bytes) : Z := get_be16 (znth ch 0) (znth ch 1).

Lemma be32_of_put x : be32_of (put_be32 x) = u32 x.
Proof. unfold be32_of, znth, put_be32. simpl. by rewrite get_put_be32. Qed.
Lemma be16_of_put x : be16_of (put_be16 x) = u16 x.
Proof. unfold be16_of, znth, put_be16. simpl. by rewrite get_put_be16. Qed.

(** [ByteStream::ReadString(std::string&)]: [None] leaves the string alone. *)
Definition ReadString (s : byte_stream) : outcome (Z * option bytes * byte_stream) :=
  '(r, ch, s) ← ReadRawData s 4;
  if negb (r =? 0) then Ret (-1, None, s)
  else
    let l := be32_of ch in
    if max_len_ s <? u32 (current_pos_ s + l) then Ret (-1, None, set_failed s 1)
    else
      d ← block_read s (current_pos_ s) l;
      Ret (0, Some d, set_pos s (u32 (current_pos_ s + l))).

(** [ByteStream::ReadString(char*, uint32)]: [dst] is the caller's array. *)
Definition ReadStringC (s : byte_stream) (dst : bytes) (data_len : Z)
    : outcome (Z * bytes * byte_stream) :=
  '(r, ch, s) ← ReadRawData s 4;
  if negb (r =? 0) then Ret (-1, dst, s)
  else
    let l := be32_of ch in
    '(l, dst) ← (if data_len <? l then
                   dst ← mem_write dst (u32 (data_len - 1)) [0]; Ret (data_len, dst)
                 else Ret (l, dst));
    '(r, d, s) ← ReadRawData s l;
    dst ← mem_write dst 0 d;
    Ret (r, dst, s).

(** * The operators *)

(** A value with the operator that carries it. *)
Inductive item :=
  | IBool (b : bool) | IChar (c : Z) | IU8 (c : Z)
  | II16 (n : Z) | IU16 (n : Z) | II32 (n : Z) | IU32 (n : Z) | IStr (str : bytes).

Inductive item_kind := KBool | KChar | KU8 | KI16 | KU16 | KI32 | KU32 | KStr.

Definition kind_of (i : item) : item_kind :=
  match i with
  | IBool _ => KBool | IChar _ => KChar | IU8 _ => KU8 | II16 _ => KI16
  | IU16 _ => KU16 | II32 _ => KI32 | IU32 _ => KU32 | IStr _ => KStr
  end.

(** [operator <<], one clause per overload; the result is discarded. *)
Definition put (s : byte_stream) (i : item) : outcome byte_stream :=
  '(_, s) ← match i with
  | IBool b => WriteRawData s [if b then 1 else 0]
  | IChar c => WriteRawData s [u8 c]
  | IU8 c => WriteRawData s [u8 c]
  | II16 n | IU16 n => WriteRawData s (put_be16 n)
  | II32 n | IU32 n => WriteRawData s (put_be32 n)
  | IStr str => WriteString s str
  end;
  Ret s.

(** The three one-byte overloads of [operator >>]: no test of [failed_], and a sum in
    [size_t]. *)
Definition get_byte (s : byte_stream) : outcome (option Z * byte_stream) :=
  if max_len_ s <? current_pos_ s + 1 then Ret (None, set_failed s 1)
  else
    d ← block_read s (current_pos_ s) 1;
    Ret (Some (znth d 0), set_pos s (u32 (current_pos_ s + 1))).

Definition get_raw (s : byte_stream) (n : Z) (f : bytes -> item)
    : outcome (option item * byte_stream) :=
  '(r, ch, s) ← ReadRawData s n;
  Ret (if r =? 0 then Some (f ch) else None, s).

Definition get_one (s : byte_stream) (f : Z -> item) : outcome (option item * byte_stream) :=
  '(b, s) ← get_byte s;
  Ret (match b with Some b => Some (f b) | None => None end, s).

(** [operator >>], one clause per overload; [None] leaves the variable alone. *)
Definition get (s : byte_stream) (k : item_kind) : outcome (option item * byte_stream) :=
  match k with
  | KBool => get_one s (fun b => IBool (negb (b =? 0)))
  | KChar => get_one s (fun b => IChar (s8 b))
  | KU8 => get_one s (fun b => IU8 b)
  | KI16 => get_raw s 2 (fun ch => II16 (s16 (be16_of ch)))
  | KU16 => get_raw s 2 (fun ch => IU16 (be16_of ch))
  | KI32 => get_raw s 4 (fun ch => II32 (s32 (be32_of ch)))
  | KU32 => get_raw s 4 (fun ch => IU32 (be32_of ch))
  | KStr =>
      '(_, str, s) ← ReadString s;
      Ret (match str with Some d => Some (IStr d) | None => None end, s)
  end.

Fixpoint put_all (s : byte_stream) (l : list item) : outcome byte_stream :=
  match l with
  | [] => Ret s
  | i :: l => s ← put s i; put_all s l
  end.

Fixpoint get_all (s : byte_stream) (l : list item_kind) : outcome (list (option item) * byte_stream) :=
  match l with
  | [] => Ret ([], s)
  | k :: l => '(v, s) ← get s k; '(vs, s) ← get_all s l; Ret (v :: vs, s)
  end.
End Streams.

(** * The allocation loop *)
Lemma grow_step step fuel size n :
  grow step (S fuel) size n = if size <? n then grow step fuel (u32 (size + step)) n else Ret size.
Proof. reflexivity. Qed.

Lemma grow_spec step fuel size n :
  0 < step -> 0 <= size -> n <= 2 ^ 32 - step -> (n - size) / step + 1 <= Z.of_nat fuel ->
  exists k, 0 <= k /\ grow step fuel size n = Ret (size + step * k) /\ n <= size + step * k
            /\ (k = 0 \/ size + step * (k - 1) < n).
Proof.
  intros Hst. revert size. induction fuel as [|fuel IH]; intros size Hs Hn Hf.
  - exists 0. cbn [grow]. assert (n <= size) as Hle.
    { destruct (Z.le_gt_cases n size); [done|]. pose proof (Z.div_pos (n - size) step). lia. }
    rewrite (proj2 (Z.ltb_ge size n)) by done.
    split_and!; [lia|f_equal; lia|lia|by left].
  - rewrite grow_step. destruct (Z.ltb_spec size n) as [Hlt|Hge].
    + rewrite uwrap_small by lia.
      destruct (IH (size + step)) as (k & Hk & -> & Hle & Hm); [lia|lia| |].
      * replace (n - (size + step)) with (n - size + (-1) * step) by lia.
        rewrite Z.div_add by lia. lia.
      * exists (k + 1). split_and!; [lia|f_equal; lia|lia|right; lia].
    + exists 0. split_and!; [lia|f_equal; lia|lia|by left].
Qed.

Lemma grow_fuel_enough step size n :
  0 < step -> 0 <= size -> n <= 2 ^ 32 - step ->
  exists k, 0 <= k /\ grow step (grow_fuel step size n) size n = Ret (size + step * k)
            /\ n <= size + step * k /\ (k = 0 \/ size + step * (k - 1) < n).
Proof.
  intros Hst Hs Hn. apply grow_spec; [done..|]. unfold grow_fuel. lia.
Qed.

(** A request in the last page of the 32-bit range makes the size wrap to zero,
    so no number of iterations reaches it. *)
Lemma grow_wraps fuel j n :
  2 ^ 32 - 4096 < n < 2 ^ 32 -> 0 <= j < 2 ^ 20 -> grow 4096 fuel (4096 * j) n = Fault OutOfFuel.
Proof.
  revert j. induction fuel as [|fuel IH]; intros j Hn Hj; cbn [grow];
    rewrite (proj2 (Z.ltb_lt (4096 * j) n)) by lia; [done|].
  replace (u32 (4096 * j + 4096)) with (4096 * ((j + 1) mod 2 ^ 20)).
  - apply IH; [done|]. apply Z.mod_pos_bound. lia.
  - unfold uwrap. replace (4096 * j + 4096) with (4096 * (j + 1)) by lia.
    change (2 ^ 32) with (4096 * 2 ^ 20). by rewrite Z.mul_mod_distr_l by lia.
Qed.

(** * The writing side: a list of bytes with a successor operation *)

Definition block (s : byte_stream) : bytes := default [] (buffer_ s).
Definition stream_limit : Z := 2 ^ 32 - 4096.

(** [writer_ok slack s c]: an owned stream whose data is exactly [c] and whose
    cursor is at its end; the block is [slack] bytes longer than [max_len_]. *)
Record writer_ok (slack : Z) (s : byte_stream) (c : bytes) : Prop := {
  wo_new : is_new_ s = true;
  wo_good : failed_ s = 0;
  wo_pos : current_pos_ s = zlen c;
  wo_len : data_len_ s = zlen c;
  wo_max : 0 <= max_len_ s < 2 ^ 32;
  wo_tail : exists tail, block s = c ++ tail;
  wo_cap : (buffer_ s = None /\ max_len_ s = 0) \/ zlen (block s) = max_len_ s + slack
}.

(** What an override of [Alloc] promises to the operations that call it; it
    reports a failure only in the circumstances [fails]. *)
Class VirtualAlloc (alloc : byte_stream -> Z -> outcome (bool * byte_stream)) (slack : Z) (fails : Prop) := {
  va_grow s c n :
    writer_ok slack s c -> max_len_ s < n <= stream_limit ->
    exists b s', alloc s n = Ret (b, s') /\
      if (b : bool) then writer_ok slack s' c /\ is_Some (buffer_ s') /\ n <= zlen (block s')
      else failed_ s' = 1 /\ fails
}.

Lemma writer_new slack : writer_ok slack bs_new [].
Proof. split; try done; [by exists []|by left]. Qed.

Lemma store_at_pos_append slack s c d :
  writer_ok slack s c -> is_Some (buffer_ s) -> zlen c + zlen d <= stream_limit ->
  zlen c + zlen d <= zlen (block s) -> zlen d <> 0 ->
  exists s', store_at_pos s d = Ret (0, s') /\ writer_ok slack s' (c ++ d).
Proof.
  intros [Hn Hg Hp Hl Hm [tail Ht] Hc] [m Hb] Hlim Hcap Hd.
  unfold block in *. rewrite Hb in *. simpl in *. subst m.
  unfold store_at_pos, block_write. rewrite Hb, Hp. simpl.
  pose proof (zlen_nonneg c). pose proof (zlen_nonneg d). unfold stream_limit in Hlim.
  rewrite mem_write_ok by (rewrite ?zlen_app in *; lia). simpl.
  rewrite uwrap_small by lia. rewrite Hl.
  rewrite (proj2 (Z.ltb_lt _ _)) by lia.
  eexists. split; [done|].
  split; simpl; rewrite ?Hp, ?zlen_app; try done.
  - exists (drop (length d) tail). unfold block. simpl.
    by rewrite zsplice_end, <- app_assoc.
  - right. unfold block. simpl. rewrite zlen_zsplice; rewrite ?zlen_app in *; [|lia..].
    destruct Hc as [[Hc _]|Hc]; [congruence|]. done.
Qed.

Section Writer.
Context (alloc : byte_stream -> Z -> outcome (bool * byte_stream)) (slack : Z) (fails : Prop).
Context `{!VirtualAlloc alloc slack fails}.

Lemma writer_cap s c : writer_ok slack s c -> 0 <= slack -> zlen c <= zlen (block s).
Proof.
  intros [_ _ _ _ _ [tail ->] _] _. rewrite zlen_app. pose proof (zlen_nonneg tail). lia.
Qed.

Lemma write_failed s d : failed_ s = 1 -> WriteRawData alloc s d = Ret (-1, s).
Proof. intros H. unfold WriteRawData. by rewrite H. Qed.

Lemma WriteRawData_append s c d :
  writer_ok slack s c -> 0 <= slack -> zlen c + zlen d <= stream_limit ->
  exists r s', WriteRawData alloc s d = Ret (r, s') /\
    ((r = 0 /\ writer_ok slack s' (c ++ d)) \/ (r = -1 /\ failed_ s' = 1 /\ fails)).
Proof.
  intros W Hs Hlim. pose proof (zlen_nonneg c). pose proof (zlen_nonneg d).
  unfold WriteRawData. rewrite (wo_good _ _ _ W). simpl.
  destruct (Z.eqb_spec (zlen d) 0) as [E|E].
  { exists 0, s. split; [done|]. left. destruct d; [by rewrite app_nil_r|].
    rewrite zlen_cons in E. pose proof (zlen_nonneg d). lia. }
  rewrite (wo_pos _ _ _ W), uwrap_small by (unfold stream_limit in *; lia).
  destruct (Z.ltb_spec (max_len_ s) (zlen c + zlen d)) as [Hgt|Hle].
  - rewrite (wo_new _ _ _ W).
    destruct (va_grow s c (zlen c + zlen d)) as (b & s' & -> & Hb); [done|lia|].
    simpl. destruct b; [|by eauto 10].
    destruct Hb as (W' & Hsome & Hcap).
    destruct (store_at_pos_append slack s' c d) as (s2 & -> & W2); try done; eauto 10.
  - destruct W as [Hn Hg Hp Hl Hm Ht Hc].
    destruct Hc as [[Hnone Hz]|Hc]; [lia|].
    destruct (store_at_pos_append slack s c d) as (s2 & -> & W2); try done; eauto 10.
    + split; auto.
    + destruct (buffer_ s) eqn:Hb; [by eauto|].
      unfold block in Hc. rewrite Hb in Hc. change (0 = max_len_ s + slack) in Hc. lia.
    + lia.
Qed.

(** The bytes an item takes in the stream. *)
Definition encode (i : item) : bytes :=
  match i with
  | IBool b => [if b then 1 else 0]
  | IChar c | IU8 c => [u8 c]
  | II16 n | IU16 n => put_be16 n
  | II32 n | IU32 n => put_be32 n
  | IStr str => put_be32 (zlen str) ++ str
  end.

Lemma encode_cons_nonempty i l : concat (encode <$> (i :: l)) <> [].
Proof. by destruct i as [[]| | | | | | |]. Qed.

(** The values the C++ types allow. *)
Definition item_ok (i : item) : Prop :=
  match i with
  | IBool _ => True
  | IChar c => - 2 ^ 7 <= c < 2 ^ 7
  | IU8 c => 0 <= c < 2 ^ 8
  | II16 n => - 2 ^ 15 <= n < 2 ^ 15
  | IU16 n => 0 <= n < 2 ^ 16
  | II32 n => - 2 ^ 31 <= n < 2 ^ 31
  | IU32 n => 0 <= n < 2 ^ 32
  | IStr str => zlen str < 2 ^ 32
  end.

Lemma put_append s c i :
  writer_ok slack s c -> 0 <= slack -> item_ok i -> zlen c + zlen (encode i) <= stream_limit ->
  exists s', put alloc s i = Ret s' /\ (writer_ok slack s' (c ++ encode i) \/ (failed_ s' = 1 /\ fails)).
Proof.
  intros W Hs Hi Hlim. unfold put.
  destruct i as [b|x|x|n|n|n|n|str]; cbn [encode] in *;
    try (destruct (WriteRawData_append s c _ W Hs Hlim) as (r & s' & -> & [[_ ?]|[_ ?]]);
         simpl; by eauto).
  unfold WriteString. rewrite zlen_app in Hlim. simpl in Hi.
  pose proof (zlen_nonneg str). rewrite uwrap_small by lia.
  destruct (WriteRawData_append s c (put_be32 (zlen str))) as (r & s' & -> & Hr); [done..|lia|].
  simpl. destruct Hr as [[-> W']|[-> Hf]]; simpl; [|by eauto].
  rewrite take_ge by (unfold zlen; lia).
  destruct (WriteRawData_append s' (c ++ put_be32 (zlen str)) str) as (r2 & s2 & -> & Hr2);
    [done..|rewrite zlen_app; lia|].
  simpl. rewrite <- app_assoc in Hr2. destruct Hr2 as [[-> ?]|[-> ?]]; by eauto.
Qed.

Lemma put_failed s i : failed_ s = 1 -> put alloc s i = Ret s.
Proof.
  intros H. unfold put, WriteString. destruct i; by rewrite write_failed.
Qed.

Lemma put_all_failed s l : failed_ s = 1 -> put_all alloc s l = Ret s.
Proof.
  intros H. induction l as [|i l IH]; simpl; [done|]. by rewrite put_failed.
Qed.

Lemma put_all_append l : forall s c,
  writer_ok slack s c -> 0 <= slack -> Forall item_ok l ->
  zlen c + zlen (concat (encode <$> l)) <= stream_limit ->
  exists s', put_all alloc s l = Ret s' /\
    (writer_ok slack s' (c ++ concat (encode <$> l)) \/ (failed_ s' = 1 /\ fails)).
Proof.
  induction l as [|i l IH]; intros s c W Hs Hl Hlim; rewrite ?fmap_cons in *;
    cbn [put_all concat fmap list_fmap] in *.
  - exists s. rewrite app_nil_r. by eauto.
  - apply Forall_cons_iff in Hl as [Hi Hl]. rewrite zlen_app in Hlim.
    pose proof (zlen_nonneg (concat (encode <$> l))).
    destruct (put_append s c i) as (s1 & -> & [W1|[Hf ?]]); [done..|lia| |]; simpl.
    + destruct (IH s1 (c ++ encode i)) as (s2 & -> & H2); [done..|rewrite zlen_app; lia|].
      rewrite <- app_assoc in H2. by eauto.
    + rewrite put_all_failed by done. by eauto.
Qed.
End Writer.

(** * The reading side *)

(** [reader_ok s pre rest]: the cursor stands between [pre] and [rest], and all
    of both lie below [max_len_]. *)
Record reader_ok (s : byte_stream) (pre rest : bytes) : Prop := {
  ro_good : failed_ s = 0;
  ro_pos : current_pos_ s = zlen pre;
  ro_max : zlen pre + zlen rest <= max_len_ s;
  ro_range : max_len_ s < 2 ^ 32;
  ro_block : exists tail, buffer_ s = Some (pre ++ rest ++ tail)
}.

Lemma block_read_rest s pre d post :
  reader_ok s pre (d ++ post) -> block_read s (current_pos_ s) (zlen d) = Ret d.
Proof.
  intros [Hg Hp Hm Hr [tail Hb]]. unfold block_read. rewrite Hb, Hp.
  pose proof (zlen_nonneg pre). pose proof (zlen_nonneg d).
  pose proof (zlen_nonneg post). pose proof (zlen_nonneg tail).
  rewrite mem_read_ok by (rewrite ?zlen_app; lia).
  f_equal. rewrite <- !app_assoc. by apply zslice_middle.
Qed.

Lemma reader_advance s pre d post :
  reader_ok s pre (d ++ post) ->
  u32 (current_pos_ s + zlen d) = zlen pre + zlen d /\ zlen pre + zlen d <= max_len_ s /\
  reader_ok (set_pos s (zlen pre + zlen d)) (pre ++ d) post.
Proof.
  intros [Hg Hp Hm Hr [tail Hb]]. rewrite zlen_app in Hm.
  pose proof (zlen_nonneg pre). pose proof (zlen_nonneg d). pose proof (zlen_nonneg post).
  split; [rewrite Hp; apply uwrap_small; lia|]. split; [lia|].
  split; simpl; rewrite ?zlen_app; try done; try lia.
  exists tail. by rewrite Hb, <- !app_assoc.
Qed.

Lemma ReadRawData_eq s pre d post :
  reader_ok s pre (d ++ post) -> zlen d <> 0 ->
  ReadRawData s (zlen d) = Ret (0, d, set_pos s (zlen pre + zlen d)).
Proof.
  intros R Hn. destruct (reader_advance s pre d post R) as (E & Hle & R').
  unfold ReadRawData. rewrite (ro_good _ _ _ R), E. simpl.
  rewrite (proj2 (Z.ltb_ge _ _)) by lia. rewrite (proj2 (Z.eqb_neq _ _)) by done.
  by rewrite (block_read_rest s pre d post R).
Qed.

Lemma ReadRawData_next s pre d post n :
  reader_ok s pre (d ++ post) -> n = zlen d -> n <> 0 ->
  exists s', ReadRawData s n = Ret (0, d, s') /\ reader_ok s' (pre ++ d) post.
Proof.
  intros R -> Hn. destruct (reader_advance s pre d post R) as (_ & _ & R').
  rewrite (ReadRawData_eq s pre d post) by done. by eauto.
Qed.

Lemma get_byte_next s pre b post :
  reader_ok s pre ([b] ++ post) ->
  exists s', get_byte s = Ret (Some b, s') /\ reader_ok s' (pre ++ [b]) post.
Proof.
  intros R. destruct (reader_advance s pre [b] post R) as (E & Hle & R').
  pose proof (block_read_rest s pre [b] post R) as Hbr.
  change (zlen [b]) with 1 in *.
  pose proof (ro_pos _ _ _ R). unfold get_byte. rewrite E, (proj2 (Z.ltb_ge _ _)) by lia.
  rewrite Hbr. simpl. by eauto.
Qed.

Lemma ReadString_next s pre str post :
  reader_ok s pre ((put_be32 (zlen str) ++ str) ++ post) -> zlen str < 2 ^ 32 ->
  exists s', ReadString s = Ret (0, Some str, s') /\
    reader_ok s' (pre ++ put_be32 (zlen str) ++ str) post.
Proof.
  intros R Hs. rewrite <- app_assoc in R. pose proof (zlen_nonneg str).
  destruct (ReadRawData_next s pre _ _ 4 R) as (s1 & E1 & R1); [done..|].
  unfold ReadString. rewrite E1. simpl.
  replace (be32_of (put_be32 (zlen str))) with (zlen str);
    [|by rewrite be32_of_put, uwrap_small by lia].
  destruct (reader_advance s1 _ str post R1) as (E & Hle & R2).
  rewrite E, (proj2 (Z.ltb_ge _ _)) by lia.
  rewrite (block_read_rest s1 _ str post R1). simpl.
  rewrite <- app_assoc in R2. by eauto.
Qed.

(** [operator >>] reads back exactly what [operator <<] laid out. *)
Lemma get_next s pre i post :
  reader_ok s pre (encode i ++ post) -> item_ok i ->
  exists s', get s (kind_of i) = Ret (Some i, s') /\ reader_ok s' (pre ++ encode i) post.
Proof.
  intros R Hi.
  destruct i as [b|x|x|n|n|n|n|str]; cbn [encode] in *; simpl in Hi; cbn [get kind_of].
  1-3: destruct (get_byte_next s pre _ post R) as (s' & E & R'); unfold get_one; rewrite E; simpl;
       eexists; split; [|done]; do 4 f_equal.
  - by destruct b.
  - rewrite swrap_uwrap by lia. by apply swrap_small.
  - by apply uwrap_small.
  - unfold get_raw.
    destruct (ReadRawData_next s pre _ _ 2 R) as (s1 & -> & R1); [done..|]. simpl.
    eexists; split; [|done]. do 4 f_equal. 
    rewrite be16_of_put, swrap_uwrap by lia. by apply swrap_small.
  - unfold get_raw.
    destruct (ReadRawData_next s pre _ _ 2 R) as (s1 & -> & R1); [done..|]. simpl.
    eexists; split; [|done]. do 4 f_equal. 
    rewrite be16_of_put. by apply uwrap_small.
  - unfold get_raw.
    destruct (ReadRawData_next s pre _ _ 4 R) as (s1 & -> & R1); [done..|]. simpl.
    eexists; split; [|done]. do 4 f_equal. 
    rewrite be32_of_put, swrap_uwrap by lia. by apply swrap_small.
  - unfold get_raw.
    destruct (ReadRawData_next s pre _ _ 4 R) as (s1 & -> & R1); [done..|]. simpl.
    eexists; split; [|done]. do 4 f_equal. 
    rewrite be32_of_put. by apply uwrap_small.
  - destruct (ReadString_next s pre str post R Hi) as (s' & -> & R'). simpl. by eauto.
Qed.

Lemma get_all_next l : forall s pre post,
  reader_ok s pre (concat (encode <$> l) ++ post) -> Forall item_ok l ->
  exists s', get_all s (kind_of <$> l) = Ret (Some <$> l, s') /\
    reader_ok s' (pre ++ concat (encode <$> l)) post.
Proof.
  induction l as [|i l IH]; intros s pre post R Hl; rewrite ?fmap_cons in *;
    cbn [get_all concat fmap list_fmap] in *.
  - exists s. by rewrite app_nil_r.
  - apply Forall_cons_iff in Hl as [Hi Hl]. rewrite <- app_assoc in R.
    destruct (get_next s pre i _ R Hi) as (s1 & -> & R1). simpl.
    destruct (IH s1 _ _ R1 Hl) as (s2 & -> & R2). simpl.
    rewrite <- app_assoc in R2. by eauto.
Qed.

(** * The heap-backed stream *)
Section Heap.
Context (malloc : Z -> option bytes).
(** [malloc n] returns a block of [n] bytes when it returns one. *)
Context (malloc_length : forall n b, malloc n = Some b -> zlen b = n).

Lemma realloc_spec p n b :
  realloc malloc p n = Some b -> zlen p <= n -> zlen b = n /\ take (length p) b = p.
Proof using malloc_length.
  unfold realloc. destruct (malloc n) as [b0|] eqn:E; [|done]. intros [= <-] Hle.
  apply malloc_length in E. unfold zlen in *.
  rewrite (take_ge p) by lia. split.
  - rewrite length_app, length_drop. lia.
  - by rewrite take_app_length.
Qed.

(** The size [Alloc] arrives at: whole pages are added until the request fits. *)
Definition grown (s : byte_stream) (n : Z) : Z := max_len_ s + 4096 * ((n - max_len_ s + 4095) / 4096).
Lemma Alloc_exact s c n : writer_ok 0 s c -> max_len_ s < n <= stream_limit ->
  n <= grown s n < n + 4096 /\
  match malloc (grown s n) with
  | None => Alloc malloc s n = Ret (false, set_failed (set_buffer s None (max_len_ s)) 1)
  | Some _ => exists s', Alloc malloc s n = Ret (true, s') /\ writer_ok 0 s' c /\ max_len_ s' = grown s n /\ is_Some (buffer_ s') /\ zlen (block s') = grown s n
  end.
Proof using malloc_length.
  intros [Hnew Hg Hp Hl Hm [tail Ht] Hc] Hn. unfold stream_limit in Hn.
  destruct (grow_fuel_enough 4096 (max_len_ s) n) as (k & Hk & Eg & Hge & Hlt); [lia..|].
  assert (grown s n = max_len_ s + 4096 * k) as ->.
  { unfold grown. f_equal. f_equal. symmetry. apply (Z.div_unique_pos _ _ _ (n - max_len_ s + 4095 - 4096 * k)); lia. }
  split; [lia|]. unfold Alloc. rewrite Hg, Hnew, (proj2 (Z.ltb_lt _ _)), Eg by lia. simpl.
  assert (0 <= max_len_ s + 4096 * k < 2 ^ 32) by lia. unfold block in *. destruct (buffer_ s) as [m|] eqn:Hb; simpl in *.
  - unfold realloc. destruct (malloc (max_len_ s + 4096 * k)) as [b0|] eqn:E0; [|done].
    destruct (realloc_spec m (max_len_ s + 4096 * k) (take (length b0) m ++ drop (length m) b0)) as [Hlen Hpre]; [unfold realloc; by rewrite E0|destruct Hc as [[? _]|Hc]; [done|lia]|].
    set (b := take (length b0) m ++ drop (length m) b0) in *. eexists. split; [done|]. simpl. split; [|by eauto].
    split; simpl; try done; [|right; unfold block; simpl; lia]. exists (tail ++ drop (length m) b). unfold block; simpl.
    rewrite app_assoc, <- Ht. rewrite <- (take_drop (length m) b) at 1. by rewrite Hpre.
  - destruct (malloc (max_len_ s + 4096 * k)) as [b|] eqn:E; [|done]. apply malloc_length in E. apply symmetry, app_nil in Ht as [-> ->].
    eexists. split; [done|]. simpl. split; [|by eauto]. split; simpl; try done; [by exists b|right; unfold block; simpl; lia].
Qed.
#[export] Instance heap_alloc : VirtualAlloc (Alloc malloc) 0 (exists n, 0 <= n < 2 ^ 32 /\ malloc n = None).
Proof using malloc_length.
  split. intros s c n W Hn. destruct (Alloc_exact s c n W Hn) as [Hg H]. pose proof (wo_max _ _ _ W). unfold stream_limit in Hn. destruct (malloc (grown s n)) as [b|] eqn:E.
  - destruct H as (s' & -> & W' & _ & Hb & Hl). exists true, s'. split; [done|]. split; [done|]. split; [done|lia].
  - eexists false, _. split; [done|]. split; [done|]. exists (grown s n). split; [lia|done].
Qed.

Lemma writer_to_reader s c :
  writer_ok 0 s c -> c <> [] ->
  reader_ok (snd (Seek s 0)) [] (c ++ []).
Proof.
  intros [Hnew Hg Hp Hl Hm [tail Ht] Hc] Hne. unfold Seek.
  rewrite (proj2 (Z.ltb_ge _ _)) by lia. unfold block in *.
  destruct (buffer_ s) as [m|] eqn:Hb; simpl in *.
  - subst m. destruct Hc as [[? _]|Hc]; [done|]. rewrite app_nil_r.
    pose proof (zlen_nonneg tail). rewrite zlen_app in *.
    split; simpl; rewrite ?zlen_app; try done; try (change (zlen (@nil Z)) with 0); try lia.
    by exists tail.
  - by apply symmetry, app_nil in Ht as [-> ->].
Qed.

(** Any sequence of [<<] on a fresh stream either ends in the failed state or
    can be read back, value for value, by the matching sequence of [>>]. *)
(** C3: the round trip of the serialisation stream.  Writing any list of values
    with [operator <<] to a new heap stream never faults; afterwards either
    [Fail()] reports the allocation failure, or [Seek(0)] and the matching
    [operator >>] calls return exactly the values written and leave the cursor
    at the end of the data. *)
Theorem put_get_roundtrip l :
  Forall item_ok l -> zlen (concat (encode <$> l)) <= stream_limit ->
  exists s, put_all (Alloc malloc) bs_new l = Ret s /\
    ((Fail s = true /\ exists n, 0 <= n < 2 ^ 32 /\ malloc n = None) \/
     exists s', get_all (snd (Seek s 0)) (kind_of <$> l) = Ret (Some <$> l, s') /\
       Fail s' = false /\ Tell s' = Length s).
Proof using malloc_length.
  intros Hl Hlim.
  destruct (put_all_append (Alloc malloc) 0 _ l bs_new []) as (s & E & Hs);
    [apply writer_new|done..|].
  exists s. split; [done|]. destruct Hs as [W|[Hf ?]]; [right|left; unfold Fail; by rewrite Hf].
  destruct l as [|i l].
  { injection E as <-. by eexists. }
  apply writer_to_reader in W as R.
  - apply get_all_next in R as (s' & E' & R'); [|done].
    exists s'. rewrite E'. split; [done|]. destruct R' as [Hg Hp _ _ _].
    unfold Fail, Tell, Length. by rewrite Hg, Hp, (wo_len _ _ _ W).
  - destruct i as [[]| | | | | | |]; done.
Qed.
End Heap.

(** * Safety of reading *)

(** The readable part of the block is allocated and the cursor is inside it. *)
Record read_inv (s : byte_stream) : Prop := {
  ri_pos : 0 <= current_pos_ s <= max_len_ s;
  ri_max : max_len_ s <= stream_limit;
  ri_block : exists m, buffer_ s = Some m /\ max_len_ s <= zlen m
}.

Lemma read_inv_pos s p : read_inv s -> 0 <= p <= max_len_ s -> read_inv (set_pos s p).
Proof. intros [Hp Hm Hb] H. by split. Qed.

Lemma block_read_inv s off n :
  read_inv s -> 0 <= off -> 0 <= n -> off + n <= max_len_ s ->
  exists d, block_read s off n = Ret d.
Proof.
  intros [Hp Hm (m & Hb & Hc)] Ho Hn Hle. unfold block_read. rewrite Hb.
  rewrite mem_read_ok by lia. by eauto.
Qed.

Lemma ReadRawData_safe s n :
  read_inv s -> 0 <= n <= 4095 ->
  exists r d s', ReadRawData s n = Ret (r, d, s') /\ read_inv s' /\ buffer_ s' = buffer_ s /\
    max_len_ s' = max_len_ s /\
    ((r = 0 /\ current_pos_ s' = current_pos_ s + n /\ failed_ s' = 0) \/ (r = -1 /\ Fail s' = true)).
Proof.
  intros I Hn. destruct I as [Hp Hm Hb] eqn:EI. clear EI.
  unfold ReadRawData, stream_limit in *. destruct (Z.eqb_spec (failed_ s) 0) as [Hf|Hf]; simpl.
  2:{ exists (-1), [], s. split_and!; try done. right. split; [done|].
      unfold Fail. by rewrite (proj2 (Z.eqb_neq _ _)). }
  rewrite uwrap_small by lia. destruct (Z.ltb_spec (max_len_ s) (current_pos_ s + n)).
  { eexists (-1), _, _. split; [done|]. split; [by split|]. split_and!; try done. by right. }
  destruct (Z.eqb_spec n 0) as [->|Hnz].
  { exists 0, [], s. split_and!; try done. left. split_and!; [done|lia|done]. }
  destruct (block_read_inv s (current_pos_ s) n) as [d ->]; [done|lia..|]. simpl.
  eexists 0, d, _. split; [done|]. split; [by apply read_inv_pos; [|lia]|].
  split_and!; try done. by left.
Qed.

Lemma get_byte_safe s :
  read_inv s ->
  exists v s', get_byte s = Ret (v, s') /\ read_inv s' /\ buffer_ s' = buffer_ s /\
    (v = None -> Fail s' = true).
Proof.
  intros I. destruct I as [Hp Hm Hb] eqn:EI. clear EI. unfold get_byte, stream_limit in *.
  destruct (Z.ltb_spec (max_len_ s) (current_pos_ s + 1)).
  { eexists None, _. split; [done|]. split; [by split|]. done. }
  destruct (block_read_inv s (current_pos_ s) 1) as [d ->]; [done|lia..|]. simpl. rewrite uwrap_small by lia.
  eexists _, _. split; [done|]. split; [by apply read_inv_pos; [|lia]|]. done.
Qed.

Lemma ReadString_safe s :
  read_inv s ->
  (forall d s', ReadRawData s 4 = Ret (0, d, s') -> current_pos_ s' + be32_of d < 2 ^ 32) ->
  exists r v s', ReadString s = Ret (r, v, s') /\ read_inv s' /\ buffer_ s' = buffer_ s /\
    (v = None -> Fail s' = true).
Proof.
  intros I Hw. unfold ReadString.
  destruct (ReadRawData_safe s 4) as (r & d & s1 & E & I1 & B1 & M1 & [(-> & P1 & F1)|[-> F1]]);
    [done|lia| |]; rewrite E; simpl; [|by eauto 10].
  specialize (Hw _ _ E). pose proof (ri_pos _ I1). pose proof (ri_pos _ I).
  assert (0 <= be32_of d) by (unfold be32_of, get_be32; apply uwrap_range; lia).
  rewrite uwrap_small by lia. destruct (Z.ltb_spec (max_len_ s1) (current_pos_ s1 + be32_of d)).
  { eexists _, None, _. split; [done|]. split; [|by split].
    destruct I1. by split. }
  destruct (block_read_inv s1 (current_pos_ s1) (be32_of d)) as [x ->]; [done|lia..|]. simpl.
  eexists _, (Some x), _. split; [done|].
  split; [by apply read_inv_pos; [|lia]|]. done.
Qed.

Ltac done_result :=
  eexists _, _; split; [reflexivity|]; split; [done|]; split; [done|]; intros; simplify_eq; auto.

Ltac done_byte :=
  match goal with I : read_inv ?s |- _ =>
    destruct (get_byte_safe s I) as ([v|] & s' & -> & I' & B & F); simpl;
    done_result
  end.

Ltac done_raw n :=
  match goal with I : read_inv ?s |- _ =>
    destruct (ReadRawData_safe s n) as (r & d & s' & -> & I' & B & M & [(-> & _ & _)|[-> F]]);
    [done|lia| |]; simpl; done_result
  end.

(** No [operator >>] reads outside the block.  On a stream whose first
    [max_len_] bytes are allocated, every overload returns without a fault,
    leaves the block alone and the cursor inside it, and reports [Fail()]
    whenever it leaves its variable unassigned; for a string this needs the
    length prefix not to carry the cursor past [2^32]. *)
Theorem get_safe s k :
  read_inv s ->
  (k = KStr -> forall d s', ReadRawData s 4 = Ret (0, d, s') ->
     current_pos_ s' + be32_of d < 2 ^ 32) ->
  exists v s', get s k = Ret (v, s') /\ read_inv s' /\ buffer_ s' = buffer_ s /\
    (v = None -> Fail s' = true).
Proof.
  intros I Hw. destruct k; cbn [get]; unfold get_one, get_raw; [done_byte..| | | | |].
  - done_raw 2.
  - done_raw 2.
  - done_raw 4.
  - done_raw 4.
  - destruct (ReadString_safe s I (Hw eq_refl)) as (r & [v|] & s' & -> & I' & B & F); simpl;
      done_result.
Qed.

(** The length check of [ReadString] can wrap.  Whatever follows, a stream
    over [ff ff ff fc] makes [ReadString] copy [2^32 - 4] bytes from a block
    that has no such bytes: the 32-bit sum [current_pos_ + l] is 0. *)
Theorem ReadString_wraps rest :
  zlen rest < 2 ^ 31 ->
  ReadString (bs_wrap ([255; 255; 255; 252] ++ rest) (4 + zlen rest)) = Fault OutOfBounds.
Proof.
  intros H. pose proof (zlen_nonneg rest).
  set (s := bs_wrap _ _). assert (reader_ok s [] ([255; 255; 255; 252] ++ rest)) as R.
  { split; try done; simpl; rewrite ?zlen_cons; change (zlen (@nil Z)) with 0; [lia..|].
    exists []. by rewrite app_nil_r. }
  unfold ReadString. change 4 with (zlen [255; 255; 255; 252]) at 1.
  rewrite (ReadRawData_eq s [] _ rest R) by done. simpl negb. cbn [mbind outcome_bind].
  change (be32_of [255; 255; 255; 252]) with (2 ^ 32 - 4). simpl max_len_. simpl current_pos_.
  change (zlen [] + zlen [255; 255; 255; 252]) with 4.
  change (u32 (4 + (2 ^ 32 - 4))) with 0. rewrite (proj2 (Z.ltb_ge _ _)) by lia.
  unfold block_read, mem_read, in_block, guard_or, set_pos, s, bs_wrap. simpl buffer_. cbn iota beta.
  rewrite (proj2 (Z.leb_gt (4 + (2 ^ 32 - 4)) _)); [done|].
  rewrite ?zlen_app, ?zlen_cons. lia.
Qed.

(** * What the fixed-buffer mode does not report *)

(** An [operator <<] that does not fit a caller-supplied block writes
    nothing and does not set the failure flag, so [Fail()] still answers
    [false]. *)
Theorem fixed_overflow_unreported alloc s d :
  is_new_ s = false -> failed_ s = 0 -> d <> [] ->
  max_len_ s < current_pos_ s + zlen d < 2 ^ 32 -> 0 <= current_pos_ s ->
  WriteRawData alloc s d = Ret (-1, s) /\ Fail s = false.
Proof.
  intros Hn Hf Hd Hlt Hp. unfold WriteRawData, Fail. rewrite Hf, Hn. simpl.
  pose proof (zlen_nonneg d). destruct (Z.eqb_spec (zlen d) 0) as [E|E].
  { destruct d; [done|]. rewrite zlen_cons in E. pose proof (zlen_nonneg d). lia. }
  rewrite uwrap_small by lia. by rewrite (proj2 (Z.ltb_lt _ _)) by lia.
Qed.

(** C32: [Alloc] terminates exactly on requests outside the last page.  A request of up to
    [2^32 - 4096] bytes that the block of a stream does not hold makes one call of [malloc] or
    [realloc], for the least size that is whole pages above the old one and holds it.  If
    there is memory the stream has a block of exactly that size and keeps its data; if there
    is none, and only then, [Alloc] returns null and the stream has failed.  For a request
    above that, on a stream whose size is whole pages, as those of [Alloc] are, the loop never
    ends. *)
Theorem Alloc_total malloc s c n :
  (forall n b, malloc n = Some b -> zlen b = n) ->
  writer_ok 0 s c -> max_len_ s < n ->
  (n <= stream_limit ->
     n <= grown s n < n + 4096 /\
     match malloc (grown s n) with
     | Some _ => exists s', Alloc malloc s n = Ret (true, s') /\ writer_ok 0 s' c /\ max_len_ s' = grown s n /\ zlen (block s') = grown s n
     | None => exists s', Alloc malloc s n = Ret (false, s') /\ Fail s' = true /\ buffer_ s' = None
     end) /\
  (stream_limit < n < 2 ^ 32 -> max_len_ s mod 4096 = 0 ->
     Alloc malloc s n = Fault OutOfFuel /\ forall fuel, grow 4096 fuel (max_len_ s) n = Fault OutOfFuel).
Proof.
  intros Hmalloc W Hlt. split; intros Hn.
  - destruct (Alloc_exact malloc Hmalloc s c n W) as [Hg H]; [done|]. split; [done|]. destruct (malloc (grown s n)).
    + destruct H as (s' & -> & ? & ? & _ & ?). by exists s'.
    + eexists. split; [exact H|done].
  - intros Hmod. pose proof (wo_max _ _ _ W). assert (forall fuel, grow 4096 fuel (max_len_ s) n = Fault OutOfFuel) as Hf.
    { intros fuel. apply Z.mod_divide in Hmod as [j Hj]; [|lia]. rewrite Hj, Z.mul_comm in *. unfold stream_limit in Hn. apply grow_wraps; lia. }
    split; [|exact Hf]. unfold Alloc. rewrite (wo_good _ _ _ W), (wo_new _ _ _ W), (proj2 (Z.ltb_lt _ _)), Hf by lia. done.
Qed.

(** * Witnesses *)
Definition zero_malloc (n : Z) : option bytes := 
  if n <? 0 then None else Some (replicate (Z.to_nat n) 0).

Lemma zero_malloc_length n b : zero_malloc n = Some b -> zlen b = n.
Proof.
  unfold zero_malloc. destruct (Z.ltb_spec n 0); [done|]. intros [= <-].
  unfold zlen. rewrite length_replicate. lia.
Qed.

Lemma put_get_roundtrip_witness :
  exists s, put_all (Alloc zero_malloc) bs_new [IBool true; II16 (-2); IU32 7; IStr [104; 105]] = Ret s /\
    ((Fail s = true /\ exists n, 0 <= n < 2 ^ 32 /\ zero_malloc n = None) \/
     exists s', get_all (snd (Seek s 0)) [KBool; KI16; KU32; KStr]
                  = Ret ([Some (IBool true); Some (II16 (-2)); Some (IU32 7); Some (IStr [104; 105])], s') /\
       Fail s' = false /\ Tell s' = Length s).
Proof.
  apply (put_get_roundtrip zero_malloc zero_malloc_length [IBool true; II16 (-2); IU32 7; IStr [104; 105]]).
  - repeat constructor; simpl; lia.
  - by vm_compute.
Defined.

(** A two-byte block that is too short for a 32-bit value. *)
Lemma get_safe_witness :
  exists v s', get (bs_wrap [1; 2] 2) KI32 = Ret (v, s') /\ read_inv s' /\
    buffer_ s' = Some [1; 2] /\ (v = None -> Fail s' = true).
Proof.
  apply (get_safe (bs_wrap [1; 2] 2) KI32).
  - split; [done..|]. by exists [1; 2].
  - done.
Defined.

Lemma ReadString_wraps_witness :
  ReadString (bs_wrap [255; 255; 255; 252; 65; 66] 6) = Fault OutOfBounds.
Proof. by apply (ReadString_wraps [65; 66]). Defined.

Lemma fixed_overflow_unreported_witness :
  WriteRawData (Alloc zero_malloc) (bs_wrap [0; 0] 2) [1; 2; 3] = Ret (-1, bs_wrap [0; 0] 2) /\
  Fail (bs_wrap [0; 0] 2) = false.
Proof. by apply (fixed_overflow_unreported (Alloc zero_malloc) (bs_wrap [0; 0] 2) [1; 2; 3]). Defined.

Lemma Alloc_total_witness :
  (exists s', Alloc zero_malloc bs_new 5000 = Ret (true, s') /\ max_len_ s' = 8192) /\
  (exists s', Alloc (fun _ => None) bs_new 5000 = Ret (false, s') /\ Fail s' = true) /\
  Alloc zero_malloc bs_new (2 ^ 32 - 1) = Fault OutOfFuel.
Proof.
  split; [|split].
  - destruct (Alloc_total zero_malloc bs_new [] 5000) as [H _]; [apply zero_malloc_length|apply writer_new|done|]. destruct H as [_ H]; [done|]. change (zero_malloc (grown bs_new 5000)) with (Some (replicate (Z.to_nat 8192) 0)) in H.
    cbv iota in H. destruct H as (s' & E & _ & Hm & _). exists s'. by split.
  - destruct (Alloc_total (fun _ => None) bs_new [] 5000) as [H _]; [done|apply writer_new|done|]. destruct H as [_ (s' & E & Hf & _)]; [done|]. exists s'. by split.
  - destruct (Alloc_total zero_malloc bs_new [] (2 ^ 32 - 1)) as [_ H]; [apply zero_malloc_length|apply writer_new|done|]. by apply H.
Defined.
