(* ===== verification/SysByteorder.v ===== *)
(** Byte order conversion, [zutils/base/sys_byteorder.h], on a host of either
    endianness: the swap functions as the header spells them with masks and
    shifts, the conversions selected by [ARCH_CPU_LITTLE_ENDIAN], and what they
    do to the bytes of an integer in memory. *)
From Stdlib Require Import ZArith Lia Bool.
From stdpp Require Import base list numbers.
From S2P Require Import Prelude.

Open Scope Z_scope.

(** [ByteSwap(uint16)], [ByteSwap(uint32)], [ByteSwap(uint64)] *)
Definition ByteSwap16 (x : Z) : Z :=
  u16 (Z.lor (Z.shiftl (Z.land x 0xff) 8) (Z.shiftr (Z.land x 0xff00) 8)).

Definition ByteSwap32 (x : Z) : Z :=
  u32 (Z.lor (Z.lor (Z.lor (Z.shiftl (Z.land x 0xff) 24)
                           (Z.shiftl (Z.land x 0xff00) 8))
                    (Z.shiftr (Z.land x 0xff0000) 8))
             (Z.shiftr (Z.land x 0xff000000) 24)).

Definition ByteSwap64 (x : Z) : Z :=
  u64 (Z.lor (Z.lor (Z.lor (Z.lor (Z.lor (Z.lor (Z.lor
    (Z.shiftl (Z.land x 0xff) 56)
    (Z.shiftl (Z.land x 0xff00) 40))
    (Z.shiftl (Z.land x 0xff0000) 24))
    (Z.shiftl (Z.land x 0xff000000) 8))
    (Z.shiftr (Z.land x 0xff00000000) 8))
    (Z.shiftr (Z.land x 0xff0000000000) 24))
    (Z.shiftr (Z.land x 0xff000000000000) 40))
    (Z.shiftr (Z.land x 0xff00000000000000) 56)).

Definition ByteSwap (k : nat) : Z -> Z :=
  match k with
  | 2%nat => ByteSwap16
  | 4%nat => ByteSwap32
  | 8%nat => ByteSwap64
  | _ => fun x => x
  end.

Section Host.
(** [ARCH_CPU_LITTLE_ENDIAN] *)
Context (little : bool).

(** The bytes of a [k]-byte integer in the host's memory, and back. *)
Definition host_bytes (k : nat) (x : Z) : bytes := if little then le_bytes k x else be_bytes k x.
Definition host_val (l : bytes) : Z := if little then le_val l else be_val l.

(** [HostToNet16/32/64], [NetToHost16/32/64], [ByteSwapToLE16/32/64] *)
Definition HostToNet (k : nat) (x : Z) : Z := if little then ByteSwap k x else x.
Definition NetToHost (k : nat) (x : Z) : Z := if little then ByteSwap k x else x.
Definition ByteSwapToLE (k : nat) (x : Z) : Z := if little then x else ByteSwap k x.
End Host.

(** * What the swaps compute *)
Lemma land_byte_at x k :
  0 <= k -> Z.land x (Z.shiftl 255 k) = Z.shiftl (Z.land (Z.shiftr x k) 255) k.
Proof.
  intros. rewrite Z.shiftl_land, <- Z.ldiff_ones_r by lia.
  apply Z.bits_inj'. intros i Hi. rewrite !Z.land_spec, Z.ldiff_spec.
  destruct (Z.lt_ge_cases i k).
  - rewrite Z.shiftl_spec_low by lia. by rewrite !andb_false_r.
  - rewrite Z.ones_spec_high by lia. by rewrite andb_true_r.
Qed.

Definition byte_at (x k : Z) : Z := Z.land (Z.shiftr x k) 255.

Lemma byte_at_byte x k : is_byte (byte_at x k).
Proof. apply land_255_byte. Qed.

Lemma byte_at_eq x k : 0 <= k -> byte_at x k = (x / 2 ^ k) mod 256.
Proof. apply byte_at_shift. Qed.

Lemma swap_left x m k j n :
  m = Z.shiftl 255 k -> n = k + j -> 0 <= k -> 0 <= j ->
  Z.shiftl (Z.land x m) j = Z.shiftl (byte_at x k) n.
Proof. intros -> -> Hk Hj. rewrite land_byte_at by done. by rewrite Z.shiftl_shiftl. Qed.

Lemma swap_right x m k j n :
  m = Z.shiftl 255 k -> n = k - j -> 0 <= j <= k ->
  Z.shiftr (Z.land x m) j = Z.shiftl (byte_at x k) n.
Proof.
  intros -> -> Hj. rewrite land_byte_at by lia.
  rewrite Z.shiftr_shiftl_l by lia. done.
Qed.

Ltac swap_terms :=
  repeat match goal with
  | |- context [Z.shiftl (Z.land ?x ?m) ?j] =>
      let k := eval vm_compute in (Z.log2 m - 7) in
      let n := eval vm_compute in (k + j) in
      rewrite (swap_left x m k j n) by (reflexivity || lia)
  | |- context [Z.shiftr (Z.land ?x ?m) ?j] =>
      let k := eval vm_compute in (Z.log2 m - 7) in
      let n := eval vm_compute in (k - j) in
      rewrite (swap_right x m k j n) by (reflexivity || lia)
  end.

Lemma ByteSwap16_val x : ByteSwap16 x = be_val (le_bytes 2 x).
Proof.
  unfold ByteSwap16. swap_terms.
  pose proof (byte_at_byte x 0). pose proof (byte_at_byte x 8). unfold is_byte in *.
  rewrite lor_shiftl_add by (rewrite ?Z.shiftl_0_r; lia).
  rewrite Z.shiftl_0_r. rewrite uwrap_small by lia.
  rewrite !byte_at_eq by lia. unfold be_val. simpl.
  rewrite Z.div_1_r. change (2 ^ 8) with 256. lia.
Qed.

(** A disjunction of shifted bytes, most significant first, is Horner's sum. *)
Lemma lor_bytes b n v :
  0 <= n -> is_byte b -> 0 <= v < 2 ^ n ->
  Z.lor (Z.shiftl b n) v = b * 2 ^ n + v /\ 0 <= b * 2 ^ n + v < 2 ^ (n + 8).
Proof.
  intros Hn Hb Hv. split; [by apply lor_shiftl_add|]. unfold is_byte in Hb.
  rewrite Z.pow_add_r by lia. change (2 ^ 8) with 256. nia.
Qed.

Ltac horner x k :=
  let E := fresh "E" in
  match goal with |- context [Z.lor (Z.shiftl (byte_at x ?j) k) ?v] =>
    destruct (lor_bytes (byte_at x j) k v) as [E ?]; [lia|apply byte_at_byte|lia|]; rewrite E; clear E
  end.

Lemma le_bytes_digits n x :
  le_bytes n x = (fun i => byte_at x (8 * Z.of_nat i)) <$> seq 0 n.
Proof.
  revert x. induction n as [|n IH]; intros x; [done|].
  cbn [le_bytes seq]. rewrite <- fmap_S_seq, fmap_cons, <- list_fmap_compose. f_equal.
  - rewrite byte_at_eq by lia. change (2 ^ (8 * Z.of_nat 0)) with 1. by rewrite Z.div_1_r.
  - rewrite IH. apply list_fmap_ext. intros i j _. simpl.
    rewrite !byte_at_eq by lia. rewrite Z.div_div by lia.
    f_equal. f_equal. replace (8 * Z.of_nat (S j)) with (8 + 8 * Z.of_nat j) by lia.
    by rewrite Z.pow_add_r by lia.
Qed.

(** Evaluate the digit positions [8 * i] of [le_bytes_digits]. *)
Ltac digit_positions :=
  rewrite le_bytes_digits; unfold be_val; simpl;
  repeat match goal with |- context [8 * Z.of_nat ?i] =>
    let v := eval vm_compute in (8 * Z.of_nat i) in change (8 * Z.of_nat i) with v
  end; lia.

Lemma ByteSwap32_val x : ByteSwap32 x = be_val (le_bytes 4 x).
Proof.
  unfold ByteSwap32. swap_terms. rewrite <- !Z.lor_assoc.
  rewrite (Z.shiftl_0_r (byte_at x 24)). pose proof (byte_at_byte x 24) as H0. unfold is_byte in H0.
  horner x 8. horner x 16. horner x 24. rewrite uwrap_small by lia.
  digit_positions.
Qed.

Lemma ByteSwap64_val x : ByteSwap64 x = be_val (le_bytes 8 x).
Proof.
  unfold ByteSwap64. swap_terms. rewrite <- !Z.lor_assoc.
  rewrite (Z.shiftl_0_r (byte_at x 56)). pose proof (byte_at_byte x 56) as H0. unfold is_byte in H0.
  horner x 8. horner x 16. horner x 24. horner x 32. horner x 40. horner x 48. horner x 56.
  rewrite uwrap_small by lia.
  digit_positions.
Qed.

(** The widths of the scalar types. *)
Definition scalar_width (k : nat) : Prop := k = 1%nat \/ k = 2%nat \/ k = 4%nat \/ k = 8%nat.

Lemma ByteSwap_val k x :
  scalar_width k -> 0 <= x < 256 ^ Z.of_nat k -> ByteSwap k x = be_val (le_bytes k x).
Proof.
  intros [-> | [-> | [-> | ->]]] Hx; simpl ByteSwap.
  - unfold be_val. simpl. rewrite Z.mod_small; lia.
  - apply ByteSwap16_val.
  - apply ByteSwap32_val.
  - apply ByteSwap64_val.
Qed.

Lemma le_bytes_be_val_le k x : le_bytes k (be_val (le_bytes k x)) = be_bytes k x.
Proof.
  unfold be_val. fold (be_bytes k x).
  rewrite <- (length_be_bytes k x) at 1. apply le_bytes_val, be_bytes_bytes.
Qed.

Lemma le_val_be_val l :
  all_bytes l -> be_val (le_bytes (length l) (le_val l)) = be_val l.
Proof. intros. by rewrite le_bytes_val. Qed.

(** ** The network and little-endian representations do not depend on the host *)
Section HostFacts.
Context (little : bool) (k : nat) (Hk : scalar_width k).

Lemma host_HostToNet x :
  0 <= x < 256 ^ Z.of_nat k -> host_bytes little k (HostToNet little k x) = be_bytes k x.
Proof using Hk.
  intros Hx. unfold host_bytes, HostToNet. destruct little; [|done].
  rewrite ByteSwap_val by done. apply le_bytes_be_val_le.
Qed.

Lemma host_ByteSwapToLE x :
  0 <= x < 256 ^ Z.of_nat k -> host_bytes little k (ByteSwapToLE little k x) = le_bytes k x.
Proof using Hk.
  intros Hx. unfold host_bytes, ByteSwapToLE. destruct little; [done|].
  rewrite ByteSwap_val by done. unfold be_bytes. rewrite le_bytes_be_val_le.
  unfold be_bytes. apply reverse_involutive.
Qed.

Lemma NetToHost_host l :
  length l = k -> all_bytes l -> NetToHost little k (host_val little l) = be_val l.
Proof using Hk.
  intros Hl Hb. unfold NetToHost, host_val. destruct little; [|done].
  rewrite ByteSwap_val; [|done|rewrite <- Hl; by apply le_val_range].
  rewrite <- Hl. by apply le_val_be_val.
Qed.

Lemma ByteSwapToLE_host l :
  length l = k -> all_bytes l -> ByteSwapToLE little k (host_val little l) = le_val l.
Proof using Hk.
  intros Hl Hb. unfold ByteSwapToLE, host_val. destruct little; [done|].
  assert (all_bytes (reverse l)) as Hr by by apply all_bytes_reverse.
  rewrite ByteSwap_val; [|done|].
  - unfold be_val at 2. rewrite <- Hl, <- (length_reverse l), le_bytes_val by done.
    unfold be_val. by rewrite reverse_involutive.
  - unfold be_val. rewrite <- Hl, <- (length_reverse l). by apply le_val_range.
Qed.
End HostFacts.

(** [ByteSwap] is an involution that reverses the bytes, so [HostToNet]
    followed by [NetToHost] is the identity on every host and width. *)
Theorem host_net_roundtrip little k x :
  scalar_width k -> 0 <= x < 256 ^ Z.of_nat k ->
  NetToHost little k (HostToNet little k x) = x /\
  host_bytes little k (HostToNet little k x) = be_bytes k x.
Proof.
  intros Hk Hx. split; [|by apply host_HostToNet].
  unfold NetToHost, HostToNet. destruct little; [|done].
  rewrite (ByteSwap_val k x) by done.
  rewrite ByteSwap_val, le_bytes_be_val_le, be_val_bytes; [by apply Z.mod_small|done|].
  change (be_val (le_bytes k x)) with (le_val (be_bytes k x)).
  rewrite <- (length_be_bytes k x) at 3. apply le_val_range, be_bytes_bytes.
Qed.

Lemma host_net_roundtrip_witness :
  NetToHost true 4 (HostToNet true 4 0x01020304) = 0x01020304 /\
  host_bytes true 4 (HostToNet true 4 0x01020304) = [1; 2; 3; 4].
Proof. apply (host_net_roundtrip true 4 0x01020304); [right; right; by left|done]. Defined.
