(* ===== verification/IOBuffer.v ===== *)
(** The network buffer, [zutils/net/base/io_buffer.h] and the POSIX branch of
    [io_buffer.cc]: a [std::vector<char>] with a reader and a writer index, the
    model of every member function, and the proof that together they implement
    a byte queue with cheap prepends. *)
From Stdlib Require Import ZArith Lia Bool.
From stdpp Require Import base list numbers.
From S2P Require Import Prelude SysByteorder.

Open Scope Z_scope.

(** * State *)

(** [class IOBuffer]; [size_t] is 64 bits wide. *)
Record io_buffer := IOBuffer {
  buffer_ : bytes;
  reader_index_ : Z;
  writer_index_ : Z
}.

Definition kCheapPrepend : Z := 8.
Definition kInitialSize : Z := 1024.

(** [IOBuffer::IOBuffer(size_t)] *)
Definition io_new (initial_size : Z) : io_buffer :=
  IOBuffer (replicate (Z.to_nat (u64 (kCheapPrepend + initial_size))) 0) kCheapPrepend kCheapPrepend.

Definition ReadableBytes (b : io_buffer) : Z := u64 (writer_index_ b - reader_index_ b).
Definition WritableBytes (b : io_buffer) : Z := u64 (zlen (buffer_ b) - writer_index_ b).
Definition PrependableBytes (b : io_buffer) : Z := reader_index_ b.

(** [IOBuffer::Swap] *)
Definition Swap (b rhs : io_buffer) : io_buffer * io_buffer := (rhs, b).

(** The bytes from [Peek()] on: [n] bytes at offset [off] of the readable part. *)
Definition PeekAt (b : io_buffer) (off n : Z) : outcome bytes :=
  mem_read (buffer_ b) (reader_index_ b + off) n.

(** * Searching *)

(** [std::search] for [pat] in [l]: the offset of the first match. *)
Fixpoint search (pat l : bytes) (off : Z) : option Z :=
  if bool_decide (take (length pat) l = pat) then Some off
  else match l with
       | [] => None
       | _ :: l => search pat l (off + 1)
       end.

Definition kCRLF : bytes := [13; 10].

(** [IOBuffer::FindCRLF(start)]: an index into the block, [None] for NULL.  The
    overload without argument starts at [Peek()]. *)
Definition FindCRLF (b : io_buffer) (start : Z) : outcome (option Z) :=
  l ← mem_read (buffer_ b) start (writer_index_ b - start);
  Ret (search kCRLF l start).

(** [IOBuffer::FindEOL(start)], by [memchr]. *)
Definition FindEOL (b : io_buffer) (start : Z) : outcome (option Z) :=
  l ← mem_read (buffer_ b) start (writer_index_ b - start);
  Ret (search [10] l start).

Section Buffer.
(** [DCHECK_IS_ON], and [ARCH_CPU_LITTLE_ENDIAN] of the host. *)
Context (dcheck_on little : bool).

(** * Consuming *)

(** [IOBuffer::RetrieveAll] *)
Definition RetrieveAll (b : io_buffer) : io_buffer :=
  IOBuffer (buffer_ b) kCheapPrepend kCheapPrepend.

(** [IOBuffer::Retrieve]; [RetrieveInt64 .. RetrieveInt8] are its calls with
    the widths 8, 4, 2 and 1. *)
Definition Retrieve (b : io_buffer) (len : Z) : outcome io_buffer :=
  DCHECK dcheck_on (len <=? ReadableBytes b) (
    Ret (if len <? ReadableBytes b
         then IOBuffer (buffer_ b) (u64 (reader_index_ b + len)) (writer_index_ b)
         else RetrieveAll b)).

(** [IOBuffer::RetrieveUntil]: [end_] is an index into the block. *)
Definition RetrieveUntil (b : io_buffer) (end_ : Z) : outcome io_buffer :=
  DCHECK dcheck_on (reader_index_ b <=? end_) (
  DCHECK dcheck_on (end_ <=? writer_index_ b) (
    Retrieve b (u64 (end_ - reader_index_ b)))).

(** [IOBuffer::RetrieveAsString], [RetrieveAllAsString] *)
Definition RetrieveAsString (b : io_buffer) (len : Z) : outcome (bytes * io_buffer) :=
  DCHECK dcheck_on (len <=? ReadableBytes b) (
    result ← PeekAt b 0 len;
    b ← Retrieve b len;
    Ret (result, b)).
Definition RetrieveAllAsString (b : io_buffer) : outcome (bytes * io_buffer) :=
  RetrieveAsString b (ReadableBytes b).

(** [IOBuffer::ToStringPiece]: the length goes through [int]. *)
Definition ToStringPiece (b : io_buffer) : outcome bytes :=
  PeekAt b 0 (u64 (s32 (ReadableBytes b))).

(** * Producing *)

(** [std::vector<char>::resize] *)
Definition resize (m : bytes) (n : Z) : bytes :=
  take (Z.to_nat n) m ++ replicate (Z.to_nat n - length m) 0.

(** [IOBuffer::MakeSpace] *)
Definition MakeSpace (b : io_buffer) (len : Z) : outcome io_buffer :=
  if u64 (WritableBytes b + PrependableBytes b) <? u64 (len + kCheapPrepend) then
    Ret (IOBuffer (resize (buffer_ b) (u64 (writer_index_ b + len)))
                  (reader_index_ b) (writer_index_ b))
  else
    DCHECK dcheck_on (kCheapPrepend <? reader_index_ b) (
      let readable := ReadableBytes b in
      d ← mem_read (buffer_ b) (reader_index_ b) readable;
      m ← mem_write (buffer_ b) kCheapPrepend d;
      let b' := IOBuffer m kCheapPrepend (u64 (kCheapPrepend + readable)) in
      DCHECK dcheck_on (readable =? ReadableBytes b') (Ret b')).

(** [IOBuffer::EnsureWritableBytes] *)
Definition EnsureWritableBytes (b : io_buffer) (len : Z) : outcome io_buffer :=
  b ← (if WritableBytes b <? len then MakeSpace b len else Ret b);
  DCHECK dcheck_on (len <=? WritableBytes b) (Ret b).

(** [IOBuffer::HasWritten], [IOBuffer::Unwrite] *)
Definition HasWritten (b : io_buffer) (len : Z) : outcome io_buffer :=
  DCHECK dcheck_on (len <=? WritableBytes b) (
    Ret (IOBuffer (buffer_ b) (reader_index_ b) (u64 (writer_index_ b + len)))).
Definition Unwrite (b : io_buffer) (len : Z) : outcome io_buffer :=
  DCHECK dcheck_on (len <=? ReadableBytes b) (
    Ret (IOBuffer (buffer_ b) (reader_index_ b) (u64 (writer_index_ b - len)))).

(** [IOBuffer::Write], all overloads: the data as a list. *)
Definition Write (b : io_buffer) (d : bytes) : outcome io_buffer :=
  b ← EnsureWritableBytes b (zlen d);
  m ← mem_write (buffer_ b) (writer_index_ b) d;
  HasWritten (IOBuffer m (reader_index_ b) (writer_index_ b)) (zlen d).

(** [IOBuffer::Prepend] *)
Definition Prepend (b : io_buffer) (d : bytes) : outcome io_buffer :=
  DCHECK dcheck_on (zlen d <=? PrependableBytes b) (
    let r := u64 (reader_index_ b - zlen d) in
    m ← mem_write (buffer_ b) r d;
    Ret (IOBuffer m r (writer_index_ b))).

(** [IOBuffer::Shrink] *)
Definition Shrink (b : io_buffer) (reserve : Z) : outcome io_buffer :=
  other ← EnsureWritableBytes (io_new kInitialSize) (u64 (ReadableBytes b + reserve));
  piece ← ToStringPiece b;
  other ← Write other piece;
  Ret (fst (Swap b other)).

(** * Scalars of [k] bytes *)
Definition bits (k : nat) : Z := 8 * Z.of_nat k.

(** [WriteBigEndianInt64 .. WriteBigEndianUint16] *)
Definition WriteBigEndian (k : nat) (b : io_buffer) (x : Z) : outcome io_buffer :=
  Write b (host_bytes little k (HostToNet little k (uwrap (bits k) x))).

(** [WriteLittleEndianInt64 .. WriteLittleEndianUint16] *)
Definition WriteLittleEndian (k : nat) (b : io_buffer) (x : Z) : outcome io_buffer :=
  Write b (host_bytes little k (ByteSwapToLE little k (uwrap (bits k) x))).

(** [WriteInt8], [WriteUint8] *)
Definition WriteInt8 (b : io_buffer) (x : Z) : outcome io_buffer := Write b [u8 x].

(** The load every peek starts with: [DCHECK] and [memcpy] of [k] bytes. *)
Definition peek_host (k : nat) (b : io_buffer) : outcome Z :=
  DCHECK dcheck_on (Z.of_nat k <=? ReadableBytes b) (
    d ← PeekAt b 0 (Z.of_nat k);
    Ret (host_val little d)).

(** [PeekBigEndianUint64 .. PeekBigEndianUint16] and the signed ones *)
Definition PeekBigEndianUint (k : nat) (b : io_buffer) : outcome Z :=
  v ← peek_host k b; Ret (NetToHost little k v).
Definition PeekBigEndianInt (k : nat) (b : io_buffer) : outcome Z :=
  v ← PeekBigEndianUint k b; Ret (swrap (bits k) v).

(** [PeekLittleEndianUint64 .. PeekLittleEndianUint16] and the signed ones *)
Definition PeekLittleEndianUint (k : nat) (b : io_buffer) : outcome Z :=
  v ← peek_host k b; Ret (ByteSwapToLE little k v).
Definition PeekLittleEndianInt (k : nat) (b : io_buffer) : outcome Z :=
  v ← PeekLittleEndianUint k b; Ret (swrap (bits k) v).

(** [PeekInt8], [PeekUint8] *)
Definition PeekUint8 (b : io_buffer) : outcome Z :=
  DCHECK dcheck_on (1 <=? ReadableBytes b) (d ← PeekAt b 0 1; Ret (znth d 0)).
Definition PeekInt8 (b : io_buffer) : outcome Z := v ← PeekUint8 b; Ret (s8 v).

Definition then_retrieve (peek : io_buffer -> outcome Z) (n : Z) (b : io_buffer)
    : outcome (Z * io_buffer) :=
  v ← peek b; b ← Retrieve b n; Ret (v, b).

(** [ReadBigEndianInt64 .. ReadBigEndianUint16] *)
Definition ReadBigEndianInt (k : nat) := then_retrieve (PeekBigEndianInt k) (Z.of_nat k).
Definition ReadBigEndianUint (k : nat) := then_retrieve (PeekBigEndianUint k) (Z.of_nat k).

(** [ReadLittleEndianInt64 .. ReadLittleEndianInt32] and the unsigned ones *)
Definition ReadLittleEndianInt (k : nat) := then_retrieve (PeekLittleEndianInt k) (Z.of_nat k).
Definition ReadLittleEndianUint (k : nat) := then_retrieve (PeekLittleEndianUint k) (Z.of_nat k).

(** [ReadLittleEndianInt16], which calls [ReadLittleEndianUint16] and then
    [RetrieveInt16]. *)
Definition ReadLittleEndianInt16 (b : io_buffer) : outcome (Z * io_buffer) :=
  '(v, b) ← ReadLittleEndianUint 2 b;
  b ← Retrieve b 2;
  Ret (s16 v, b).

(** [ReadInt8], [ReadUint8] *)
Definition ReadInt8 := then_retrieve PeekInt8 1.
Definition ReadUint8 := then_retrieve PeekUint8 1.

(** [PrependBigEndianInt64 .. PrependBigEndianUint16] *)
Definition PrependBigEndian (k : nat) (b : io_buffer) (x : Z) : outcome io_buffer :=
  Prepend b (host_bytes little k (HostToNet little k (uwrap (bits k) x))).

(** [PrependLittleEndianInt64 .. PrependLittleEndianInt32], [PrependLittleEndianUint16] *)
Definition PrependLittleEndian (k : nat) (b : io_buffer) (x : Z) : outcome io_buffer :=
  Prepend b (host_bytes little k (ByteSwapToLE little k (uwrap (bits k) x))).

(** [PrependLittleEndianInt16], whose body is [PrependBigEndianUint16(x)] *)
Definition PrependLittleEndianInt16 (b : io_buffer) (x : Z) : outcome io_buffer :=
  PrependBigEndian 2 b x.

(** [PrependInt8], [PrependUint8] *)
Definition PrependInt8 (b : io_buffer) (x : Z) : outcome io_buffer := Prepend b [u8 x].

(** * Reading a descriptor *)

(** [IOBuffer::ReadFd], POSIX branch.  [readv] fills the buffers it is given in
    order: [received] are the bytes it delivered, [None] its failure. *)
Definition extrabuf_size : Z := 65536.

Definition ReadFd (b : io_buffer) (readv : Z -> option bytes) : outcome (Z * io_buffer) :=
  let writable := WritableBytes b in
  let total := if writable <? extrabuf_size then writable + extrabuf_size else writable in
  match readv total with
  | None => Ret (-1, b)
  | Some received =>
      let n := zlen received in
      m ← mem_write (buffer_ b) (writer_index_ b) (take (Z.to_nat writable) received);
      let b := IOBuffer m (reader_index_ b) (writer_index_ b) in
      if n <=? writable then
        Ret (s32 n, IOBuffer m (reader_index_ b) (u64 (writer_index_ b + n)))
      else
        b ← Write (IOBuffer m (reader_index_ b) (zlen m)) (drop (Z.to_nat writable) received);
        Ret (s32 n, b)
  end.
End Buffer.

(** * The abstraction: a byte queue *)

Definition io_limit : Z := 2 ^ 60.

(** [io_rep b c g]: the readable bytes of [b] are [c], and at least [g] more can
    be prepended. *)
Record io_rep (b : io_buffer) (c : bytes) (g : Z) : Prop := {
  rep_split : exists pre post, buffer_ b = pre ++ c ++ post /\
    reader_index_ b = zlen pre /\ writer_index_ b = zlen pre + zlen c;
  rep_room : 0 <= g <= reader_index_ b;
  rep_cheap : g <= kCheapPrepend;
  rep_size : kCheapPrepend <= zlen (buffer_ b) <= 2 ^ 62
}.

Lemma rep_indices b c g :
  io_rep b c g ->
  0 <= reader_index_ b <= writer_index_ b /\ writer_index_ b = reader_index_ b + zlen c /\
  writer_index_ b <= zlen (buffer_ b) <= 2 ^ 62 /\
  8 <= zlen (buffer_ b) /\
  ReadableBytes b = zlen c /\ WritableBytes b = zlen (buffer_ b) - writer_index_ b.
Proof.
  intros [(pre & post & E & Hr & Hw) _ _ Hs].
  assert (zlen (buffer_ b) = zlen pre + zlen c + zlen post) as El by (rewrite E, !zlen_app; lia).
  pose proof (zlen_nonneg pre). pose proof (zlen_nonneg c). pose proof (zlen_nonneg post).
  unfold ReadableBytes, WritableBytes, kCheapPrepend in *. rewrite !uwrap_small by lia.
  split_and!; lia.
Qed.

Ltac rep_facts R :=
  let H1 := fresh "Hr0" in let H2 := fresh "Hw" in let H3 := fresh "Hsz" in
  let H4 := fresh "Hread" in let H5 := fresh "Hwrite" in
  let H6 := fresh "H8" in
  destruct (rep_indices _ _ _ R) as (H1 & H2 & H3 & H6 & H4 & H5).

Lemma io_new_rep n : 0 <= n <= 2 ^ 61 -> io_rep (io_new n) [] kCheapPrepend.
Proof.
  intros Hn. unfold io_new. rewrite uwrap_small by (unfold kCheapPrepend; lia).
  split; cbn [buffer_ reader_index_ writer_index_].
  - exists (replicate 8 0), (replicate (Z.to_nat n) 0). split_and!; [|done..].
    rewrite app_nil_l, <- replicate_add. f_equal. unfold kCheapPrepend. lia.
  - unfold kCheapPrepend. lia.
  - done.
  - unfold zlen, kCheapPrepend. rewrite length_replicate. lia.
Qed.

Section Refine.
Context (dcheck_on little : bool).


Lemma PeekAt_rep b c g off n :
  io_rep b c g -> 0 <= off -> 0 <= n -> off + n <= zlen c ->
  PeekAt b off n = Ret (zslice off n c).
Proof.
  intros R Ho Hn Hle. rep_facts R. destruct R as [(pre & post & E & Hr & Hw') _ _ _].
  unfold PeekAt. rewrite mem_read_ok by lia. f_equal. rewrite E, Hr.
  unfold zslice, zlen. rewrite Z2Nat.inj_add, Nat2Z.id by lia.
  rewrite drop_app_add, drop_app_le, take_app_le; [done| |]; rewrite ?length_drop; unfold zlen in *; lia.
Qed.

Lemma RetrieveAll_rep b c g : io_rep b c g -> io_rep (RetrieveAll b) [] kCheapPrepend.
Proof.
  intros R. rep_facts R. pose proof (rep_size _ _ _ R).
  unfold RetrieveAll, kCheapPrepend in *.
  split; cbn [buffer_ reader_index_ writer_index_]; unfold kCheapPrepend; try lia.
  exists (take 8 (buffer_ b)), (drop 8 (buffer_ b)).
  rewrite app_nil_l, take_drop. change (zlen (@nil Z)) with 0.
  unfold zlen in *. rewrite length_take. split_and!; [done|lia..].
Qed.

(** Room left for prepends after consuming [n] of [len] bytes. *)
Definition room_after (g n len : Z) : Z :=
  if n <? len then Z.min kCheapPrepend (g + n) else kCheapPrepend.

Lemma Retrieve_rep b c g n :
  io_rep b c g -> 0 <= n <= zlen c ->
  exists b', Retrieve dcheck_on b n = Ret b' /\
    io_rep b' (drop (Z.to_nat n) c) (room_after g n (zlen c)).
Proof.
  intros R Hn. rep_facts R. unfold Retrieve, room_after. rewrite Hread.
  rewrite DCHECK_true by lia. destruct (Z.ltb_spec n (zlen c)).
  - eexists. split; [done|]. destruct R as [(pre & post & E & Hr & Hw') Hg Hc Hs].
    rewrite uwrap_small by lia.
    split; cbn [buffer_ reader_index_ writer_index_]; try (unfold kCheapPrepend in *; lia).
    exists (pre ++ take (Z.to_nat n) c), post.
    rewrite E, <- app_assoc, (app_assoc (take _ _)), take_drop. split; [done|].
    unfold zlen in *. rewrite length_app, length_take, length_drop. lia.
  - eexists. split; [done|]. rewrite drop_ge by (unfold zlen in *; lia).
    by apply RetrieveAll_rep with c g.
Qed.

Lemma Unwrite_rep b c g n :
  io_rep b c g -> 0 <= n <= zlen c ->
  exists b', Unwrite dcheck_on b n = Ret b' /\ io_rep b' (take (Z.to_nat (zlen c - n)) c) g.
Proof.
  intros R Hn. rep_facts R. unfold Unwrite. rewrite Hread, DCHECK_true by lia.
  eexists. split; [done|]. destruct R as [(pre & post & E & Hr & Hw') Hg Hc Hs].
  rewrite uwrap_small by lia.
  split; cbn [buffer_ reader_index_ writer_index_]; [|done..].
  exists pre, (drop (Z.to_nat (zlen c - n)) c ++ post).
  rewrite E, (app_assoc (take _ _)), take_drop. split; [done|].
  unfold zlen in *. rewrite length_take. lia.
Qed.

Lemma Prepend_rep b c g d :
  io_rep b c g -> zlen d <= g ->
  exists b', Prepend dcheck_on b d = Ret b' /\ io_rep b' (d ++ c) (g - zlen d).
Proof.
  intros R Hd. rep_facts R. pose proof (zlen_nonneg d).
  destruct R as [(pre & post & E & Hr & Hw') Hg Hc Hs].
  unfold Prepend, PrependableBytes. rewrite DCHECK_true by lia.
  rewrite uwrap_small by lia. rewrite mem_write_ok by lia. simpl.
  eexists. split; [done|].
  split; cbn [buffer_ reader_index_ writer_index_]; try lia.
  - exists (take (Z.to_nat (zlen pre - zlen d)) pre), post.
    assert (drop (Z.to_nat (zlen pre - zlen d) + length d) (pre ++ c ++ post) = c ++ post) as Ed.
    { apply drop_app_length'. unfold zlen in *. lia. }
    unfold zsplice. rewrite E, Hr, Ed, <- (app_assoc d). split.
    + f_equal. rewrite take_app_le by (unfold zlen in *; lia). done.
    + unfold zlen in *. rewrite length_take, length_app. lia.
  - rewrite zlen_zsplice by lia. lia.
Qed.

Lemma resize_grow (m : bytes) n :
  zlen m <= n -> resize m n = m ++ replicate (Z.to_nat n - length m) 0.
Proof. unfold resize, zlen. intros. rewrite take_ge by lia. done. Qed.

(** Both branches of [MakeSpace] keep the content and leave room for [len]. *)
Lemma MakeSpace_rep b c g len :
  io_rep b c g -> 0 <= len -> zlen c + len <= io_limit -> WritableBytes b < len ->
  exists b', MakeSpace dcheck_on b len = Ret b' /\ io_rep b' c g /\
    len <= zlen (buffer_ b') - writer_index_ b'.
Proof.
  intros R Hlen Hlim Hlt. rep_facts R. unfold io_limit in Hlim.
  pose proof (zlen_nonneg c).
  unfold MakeSpace, PrependableBytes, kCheapPrepend.
  rewrite !uwrap_small by lia.
  destruct (Z.ltb_spec (WritableBytes b + reader_index_ b) (len + 8)).
  - eexists. split; [done|]. destruct R as [(pre & post & E & Hr & Hw') Hg Hc Hs].
    assert (zlen (resize (buffer_ b) (writer_index_ b + len)) = writer_index_ b + len) as El.
    { rewrite resize_grow by lia. unfold zlen in *. rewrite length_app, length_replicate. lia. }
    cbn [buffer_ reader_index_ writer_index_]. split; [|lia].
    split; cbn [buffer_ reader_index_ writer_index_]; try done; [|unfold kCheapPrepend in *; lia].
    rewrite resize_grow by lia.
    eexists pre, (post ++ _). rewrite E, <- !app_assoc. done.
  - rewrite DCHECK_true by lia. rewrite Hread.
    rewrite mem_read_ok by lia. simpl.
    pose proof (PeekAt_rep b c g 0 (zlen c) R) as HP. unfold PeekAt in HP.
    rewrite Z.add_0_r, mem_read_ok in HP by lia. injection HP as Hz; [|lia..].
    rewrite Hz. replace (zslice 0 (zlen c) c) with c
      by (unfold zslice, zlen; rewrite Nat2Z.id; simpl; by rewrite take_ge).
    rewrite mem_write_ok by lia. simpl.
    assert (io_rep (IOBuffer (zsplice 8 c (buffer_ b)) 8 (8 + zlen c)) c g) as R'.
    { split; cbn [buffer_ reader_index_ writer_index_].
      - eexists (take 8 (buffer_ b)), _. unfold zsplice. split; [done|].
        unfold zlen in *. rewrite length_take. lia.
      - pose proof (rep_room _ _ _ R). pose proof (rep_cheap _ _ _ R). unfold kCheapPrepend in *. lia.
      - by apply (rep_cheap _ _ _ R).
      - rewrite zlen_zsplice by lia. apply (rep_size _ _ _ R). }
    destruct (rep_indices _ _ _ R') as (_ & _ & _ & _ & Hread' & _). rewrite Hread'.
    rewrite DCHECK_true by lia. eexists. split; [done|]. split; [done|].
    cbn [buffer_ writer_index_]. rewrite zlen_zsplice by lia. lia.
Qed.

Lemma EnsureWritableBytes_rep b c g len :
  io_rep b c g -> 0 <= len -> zlen c + len <= io_limit ->
  exists b', EnsureWritableBytes dcheck_on b len = Ret b' /\ io_rep b' c g /\
    len <= zlen (buffer_ b') - writer_index_ b'.
Proof.
  intros R Hlen Hlim. rep_facts R. unfold EnsureWritableBytes.
  destruct (Z.ltb_spec (WritableBytes b) len).
  - destruct (MakeSpace_rep b c g len) as (b' & -> & R' & Hle); [done..|]. simpl.
    destruct (rep_indices _ _ _ R') as (_ & _ & _ & _ & _ & Hwr).
    rewrite DCHECK_true by lia. by eauto.
  - simpl. rewrite DCHECK_true by lia. exists b. split_and!; [done|done|lia].
Qed.

Lemma Write_rep b c g d :
  io_rep b c g -> zlen c + zlen d <= io_limit ->
  exists b', Write dcheck_on b d = Ret b' /\ io_rep b' (c ++ d) g.
Proof.
  intros R Hlim. pose proof (zlen_nonneg d). unfold Write.
  destruct (EnsureWritableBytes_rep b c g (zlen d)) as (b1 & -> & R1 & Hle); [done..|]. simpl.
  rep_facts R1. rewrite mem_write_ok by lia. simpl.
  destruct R1 as [(pre & post & E & Hr & Hw') Hg Hc Hs].
  unfold HasWritten, WritableBytes. cbn [buffer_ reader_index_ writer_index_].
  rewrite zlen_zsplice by lia. rewrite !uwrap_small by lia.
  rewrite DCHECK_true by lia. eexists. split; [done|].
  split; cbn [buffer_ reader_index_ writer_index_]; try done.
  - exists pre, (drop (length d) post). rewrite E, Hw', app_assoc, <- zlen_app, zsplice_end.
    rewrite <- !app_assoc. split; [done|]. rewrite !zlen_app. lia.
  - rewrite zlen_zsplice by lia. done.
Qed.

Lemma Shrink_rep b c g reserve :
  io_rep b c g -> 0 <= reserve -> zlen c < 2 ^ 31 -> reserve <= 2 ^ 59 ->
  exists b', Shrink dcheck_on b reserve = Ret b' /\ io_rep b' c kCheapPrepend.
Proof.
  intros R Hres Hlt Hlim. rep_facts R. pose proof (zlen_nonneg c). unfold Shrink.
  rewrite Hread, uwrap_small by lia.
  destruct (EnsureWritableBytes_rep (io_new kInitialSize) [] kCheapPrepend (zlen c + reserve))
    as (b1 & -> & R1 & Hle); [apply io_new_rep; unfold kInitialSize; lia|lia|
                              unfold io_limit; change (zlen (@nil Z)) with 0; lia|]. simpl.
  unfold ToStringPiece. rewrite Hread, swrap_small, uwrap_small by lia.
  rewrite (PeekAt_rep b c g) by (done || lia). simpl.
  replace (zslice 0 (zlen c) c) with c
    by (unfold zslice, zlen; rewrite Nat2Z.id; simpl; by rewrite take_ge).
  destruct (Write_rep b1 [] kCheapPrepend c) as (b2 & -> & R2);
    [done|unfold io_limit; change (zlen (@nil Z)) with 0; lia|].
  simpl. by eauto.
Qed.
End Refine.

(** * The specification: a byte string with a bounded front room *)
Inductive io_op :=
  | OWrite (d : bytes)
  | OPrepend (d : bytes)
  | ORetrieve (n : Z)
  | ORetrieveAll
  | OUnwrite (n : Z)
  | OShrink (reserve : Z).

(** What each operation does to the content and the front room, where its
    precondition holds. *)
Definition spec_op (st : bytes * Z) (o : io_op) : option (bytes * Z) :=
  let '(c, g) := st in
  match o with
  | OWrite d => if zlen c + zlen d <=? io_limit then Some (c ++ d, g) else None
  | OPrepend d => if zlen d <=? g then Some (d ++ c, g - zlen d) else None
  | ORetrieve n =>
      if (0 <=? n) && (n <=? zlen c)
      then Some (drop (Z.to_nat n) c, room_after g n (zlen c)) else None
  | ORetrieveAll => Some ([], kCheapPrepend)
  | OUnwrite n =>
      if (0 <=? n) && (n <=? zlen c)
      then Some (take (Z.to_nat (zlen c - n)) c, g) else None
  | OShrink r =>
      if (0 <=? r) && (r <=? 2 ^ 59) && (zlen c <? 2 ^ 31) then Some (c, kCheapPrepend) else None
  end.

Fixpoint spec_run (st : bytes * Z) (l : list io_op) : option (bytes * Z) :=
  match l with
  | [] => Some st
  | o :: l => match spec_op st o with Some st => spec_run st l | None => None end
  end.

Definition io_step (dcheck_on : bool) (b : io_buffer) (o : io_op) : outcome io_buffer :=
  match o with
  | OWrite d => Write dcheck_on b d
  | OPrepend d => Prepend dcheck_on b d
  | ORetrieve n => Retrieve dcheck_on b n
  | ORetrieveAll => Ret (RetrieveAll b)
  | OUnwrite n => Unwrite dcheck_on b n
  | OShrink r => Shrink dcheck_on b r
  end.

Fixpoint io_run (dcheck_on : bool) (b : io_buffer) (l : list io_op) : outcome io_buffer :=
  match l with
  | [] => Ret b
  | o :: l => b ← io_step dcheck_on b o; io_run dcheck_on b l
  end.

Lemma io_step_sim dcheck_on b c g o c' g' :
  io_rep b c g -> spec_op (c, g) o = Some (c', g') ->
  exists b', io_step dcheck_on b o = Ret b' /\ io_rep b' c' g'.
Proof.
  intros R. destruct o as [d|d|n| |n|r]; cbn [spec_op io_step];
    repeat case_match; intros [= <- <-];
    rewrite ?andb_true_iff, ?Z.leb_le, ?Z.ltb_lt in *.
  - by apply Write_rep.
  - by apply Prepend_rep.
  - by apply Retrieve_rep.
  - eexists. split; [done|]. by apply RetrieveAll_rep with c g.
  - by apply Unwrite_rep.
  - destruct H as [[? ?] ?]. by apply Shrink_rep with g.
Qed.

Lemma io_run_sim dcheck_on l : forall b c g c' g',
  io_rep b c g -> spec_run (c, g) l = Some (c', g') ->
  exists b', io_run dcheck_on b l = Ret b' /\ io_rep b' c' g'.
Proof.
  induction l as [|o l IH]; intros b c g c' g' R; cbn [spec_run io_run].
  - intros [= <- <-]. by eauto.
  - destruct (spec_op (c, g) o) as [[c1 g1]|] eqn:E; [|done]. intros Hl.
    destruct (io_step_sim dcheck_on b c g o c1 g1 R E) as (b1 & -> & R1). by apply (IH b1 c1 g1).
Qed.

(** C25: [IOBuffer] refines the byte queue.  Any sequence of writes, prepends,
    retrievals, unwrites and shrinks whose preconditions hold runs from a fresh
    buffer of any initial size without a failed [DCHECK] and without an access
    outside the vector, whether or not [DCHECK] is compiled in, and [Peek()]
    then shows exactly the bytes the specification computes. *)
Theorem io_buffer_refines dcheck_on initial_size l c g :
  0 <= initial_size <= 2 ^ 61 -> spec_run ([], kCheapPrepend) l = Some (c, g) ->
  exists b, io_run dcheck_on (io_new initial_size) l = Ret b /\
    ReadableBytes b = zlen c /\ PeekAt b 0 (ReadableBytes b) = Ret c /\ g <= PrependableBytes b.
Proof.
  intros Hn Hl.
  destruct (io_run_sim dcheck_on l _ _ _ _ _ (io_new_rep initial_size Hn) Hl) as (b & E & R).
  exists b. split; [done|]. destruct (rep_indices _ _ _ R) as (_ & _ & _ & _ & Hread & _).
  rewrite Hread. split; [done|]. pose proof (zlen_nonneg c). split.
  - rewrite (PeekAt_rep b c g 0 (zlen c)) by (done || lia). f_equal.
    unfold zslice, zlen. rewrite Nat2Z.id. simpl. by rewrite take_ge.
  - apply (rep_room _ _ _ R).
Qed.

(** * Scalars *)

Definition encode_scalar (big : bool) (k : nat) (x : Z) : bytes :=
  if big then be_bytes k x else le_bytes k x.

Section Scalars.
Context (dcheck_on little : bool) (k : nat) (Hk : scalar_width k).

Lemma bits_pow : 2 ^ bits k = 256 ^ Z.of_nat k.
Proof using. unfold bits. rewrite Z.pow_mul_r by lia. done. Qed.

Lemma bits_pos : 0 < bits k.
Proof using Hk. unfold bits. destruct Hk as [-> | [-> | [-> | ->]]]; lia. Qed.

Lemma uwrap_bits x : 0 <= uwrap (bits k) x < 256 ^ Z.of_nat k.
Proof using Hk. rewrite <- bits_pow. apply uwrap_range. pose proof bits_pos. lia. Qed.

Lemma zlen_encode big x : zlen (encode_scalar big k x) = Z.of_nat k.
Proof using. unfold zlen, encode_scalar. destruct big; by rewrite ?length_be_bytes, ?length_le_bytes. Qed.

Lemma WriteBigEndian_rep b c g x :
  io_rep b c g -> zlen c + Z.of_nat k <= io_limit ->
  exists b', WriteBigEndian dcheck_on little k b x = Ret b' /\
    io_rep b' (c ++ be_bytes k (uwrap (bits k) x)) g.
Proof using Hk.
  intros R Hl. unfold WriteBigEndian. rewrite host_HostToNet by (done || apply uwrap_bits).
  apply Write_rep; [done|]. unfold zlen in *. by rewrite length_be_bytes.
Qed.

Lemma WriteLittleEndian_rep b c g x :
  io_rep b c g -> zlen c + Z.of_nat k <= io_limit ->
  exists b', WriteLittleEndian dcheck_on little k b x = Ret b' /\
    io_rep b' (c ++ le_bytes k (uwrap (bits k) x)) g.
Proof using Hk.
  intros R Hl. unfold WriteLittleEndian. rewrite host_ByteSwapToLE by (done || apply uwrap_bits).
  apply Write_rep; [done|]. unfold zlen in *. by rewrite length_le_bytes.
Qed.

Lemma peek_host_rep b d c g :
  io_rep b (d ++ c) g -> length d = k ->
  peek_host dcheck_on little k b = Ret (host_val little d).
Proof using.
  intros R Hd. rep_facts R. pose proof (zlen_nonneg c). unfold peek_host.
  assert (zlen d = Z.of_nat k) by (unfold zlen; lia).
  rewrite Hread, zlen_app, DCHECK_true by lia.
  rewrite (PeekAt_rep b _ g 0 (Z.of_nat k) R) by (rewrite ?zlen_app; lia). simpl.
  rewrite (zslice_middle [] d c) by done. done.
Qed.

Lemma PeekBigEndianUint_rep b d c g :
  io_rep b (d ++ c) g -> length d = k -> all_bytes d ->
  PeekBigEndianUint dcheck_on little k b = Ret (be_val d).
Proof using Hk.
  intros R Hd Hb. unfold PeekBigEndianUint. rewrite (peek_host_rep b d c g) by done. simpl.
  by rewrite NetToHost_host.
Qed.

Lemma PeekLittleEndianUint_rep b d c g :
  io_rep b (d ++ c) g -> length d = k -> all_bytes d ->
  PeekLittleEndianUint dcheck_on little k b = Ret (le_val d).
Proof using Hk.
  intros R Hd Hb. unfold PeekLittleEndianUint. rewrite (peek_host_rep b d c g) by done. simpl.
  by rewrite ByteSwapToLE_host.
Qed.

Lemma then_retrieve_rep peek v b d c g :
  io_rep b (d ++ c) g -> peek b = Ret v ->
  exists b' g', then_retrieve dcheck_on peek (zlen d) b = Ret (v, b') /\ io_rep b' c g'.
Proof using.
  intros R Hp. unfold then_retrieve. rewrite Hp. simpl.
  pose proof (zlen_nonneg c). pose proof (zlen_nonneg d).
  destruct (Retrieve_rep dcheck_on b (d ++ c) g (zlen d)) as (b' & -> & R');
    [done|rewrite zlen_app; lia|].
  simpl. unfold zlen in R' at 1. rewrite Nat2Z.id, drop_app_length in R'. by eauto.
Qed.
End Scalars.

(** A scalar with the member functions that write and read it. *)
Record scalar := Scalar {
  sc_big : bool;
  sc_width : nat;
  sc_signed : bool;
  sc_val : Z
}.

Definition write_scalar (dcheck_on little : bool) (b : io_buffer) (s : scalar) : outcome io_buffer :=
  if bool_decide (sc_width s = 1%nat) then WriteInt8 dcheck_on b (sc_val s)
  else if sc_big s then WriteBigEndian dcheck_on little (sc_width s) b (sc_val s)
  else WriteLittleEndian dcheck_on little (sc_width s) b (sc_val s).

Definition read_scalar (dcheck_on little : bool) (b : io_buffer) (s : scalar) : outcome (Z * io_buffer) :=
  match sc_width s, sc_big s, sc_signed s with
  | 1%nat, _, true => ReadInt8 dcheck_on b
  | 1%nat, _, false => ReadUint8 dcheck_on b
  | k, true, true => ReadBigEndianInt dcheck_on little k b
  | k, true, false => ReadBigEndianUint dcheck_on little k b
  | 2%nat, false, true => ReadLittleEndianInt16 dcheck_on little b
  | k, false, true => ReadLittleEndianInt dcheck_on little k b
  | k, false, false => ReadLittleEndianUint dcheck_on little k b
  end.

(** The value a reader of this width and signedness can give back. *)
Definition sc_result (s : scalar) : Z :=
  (if sc_signed s then swrap else uwrap) (bits (sc_width s)) (sc_val s).

(** Every scalar but the one [ReadLittleEndianInt16] reads. *)
Definition sc_ok (s : scalar) : Prop :=
  scalar_width (sc_width s) /\ (sc_width s = 2%nat -> sc_signed s = true -> sc_big s = true).

Fixpoint write_scalars (dcheck_on little : bool) (b : io_buffer) (l : list scalar) : outcome io_buffer :=
  match l with
  | [] => Ret b
  | s :: l => b ← write_scalar dcheck_on little b s; write_scalars dcheck_on little b l
  end.

Fixpoint read_scalars (dcheck_on little : bool) (b : io_buffer) (l : list scalar)
    : outcome (list Z * io_buffer) :=
  match l with
  | [] => Ret ([], b)
  | s :: l =>
      '(v, b) ← read_scalar dcheck_on little b s;
      '(vs, b) ← read_scalars dcheck_on little b l;
      Ret (v :: vs, b)
  end.

(** The bytes of a scalar on the wire. *)
Definition wire (s : scalar) : bytes :=
  encode_scalar (sc_big s) (sc_width s) (uwrap (bits (sc_width s)) (sc_val s)).

Section ScalarQueue.
Context (dcheck_on little : bool).

Lemma wire_one s : sc_width s = 1%nat -> wire s = [u8 (sc_val s)].
Proof.
  intros E. unfold wire, encode_scalar, be_bytes. rewrite E. simpl.
  change (bits 1) with 8. pose proof (uwrap_range 8 (sc_val s)).
  rewrite Z.mod_small by lia. by destruct (sc_big s).
Qed.

Lemma wire_length s : length (wire s) = sc_width s.
Proof.
  unfold wire, encode_scalar. destruct (sc_big s); by rewrite ?length_be_bytes, ?length_le_bytes.
Qed.

Lemma write_scalar_rep b c g s :
  scalar_width (sc_width s) -> io_rep b c g -> zlen c + zlen (wire s) <= io_limit ->
  exists b', write_scalar dcheck_on little b s = Ret b' /\ io_rep b' (c ++ wire s) g.
Proof.
  intros Hk R Hl. unfold write_scalar. case_bool_decide as E.
  - unfold WriteInt8. rewrite wire_one in * by done. by apply Write_rep.
  - unfold zlen in Hl at 2. rewrite wire_length in Hl. unfold wire, encode_scalar.
    destruct (sc_big s); [by apply WriteBigEndian_rep|by apply WriteLittleEndian_rep].
Qed.

Lemma wire_vals s :
  scalar_width (sc_width s) -> all_bytes (wire s) /\
  (sc_big s = true -> be_val (wire s) = uwrap (bits (sc_width s)) (sc_val s)) /\
  (sc_big s = false -> le_val (wire s) = uwrap (bits (sc_width s)) (sc_val s)).
Proof.
  intros Hk. pose proof (uwrap_bits (sc_width s) Hk (sc_val s)). unfold wire, encode_scalar.
  destruct (sc_big s); split_and!; try done; auto with zutils; intros _.
  - rewrite be_val_bytes. by apply Z.mod_small.
  - rewrite le_val_bytes. by apply Z.mod_small.
Qed.

(** Each reader's peek on a buffer that starts with the scalar's bytes. *)
Lemma read_scalar_rep b c g s :
  sc_ok s -> io_rep b (wire s ++ c) g ->
  exists b' g', read_scalar dcheck_on little b s = Ret (sc_result s, b') /\ io_rep b' c g'.
Proof.
  intros [Hk H16] R. destruct (wire_vals s Hk) as (Hb & Hbe & Hle).
  assert (zlen (wire s) = Z.of_nat (sc_width s)) as Hz by (unfold zlen; by rewrite wire_length).
  assert (sc_width s = 1%nat -> PeekUint8 dcheck_on b = Ret (u8 (sc_val s))) as P1.
  { intros E. rep_facts R. rewrite wire_one in * by done. pose proof (zlen_nonneg c).
    unfold PeekUint8. rewrite Hread, zlen_app. change (zlen [u8 (sc_val s)]) with 1.
    rewrite DCHECK_true by lia.
    rewrite (PeekAt_rep b _ g 0 1 R) by (rewrite ?zlen_app; change (zlen [u8 (sc_val s)]) with 1; lia).
    simpl. by rewrite (zslice_middle [] [u8 (sc_val s)] c). }
  assert (sc_big s = true ->
    PeekBigEndianUint dcheck_on little (sc_width s) b = Ret (uwrap (bits (sc_width s)) (sc_val s))) as PB.
  { intros E. rewrite (PeekBigEndianUint_rep dcheck_on little _ Hk b (wire s) c g) by (done || apply wire_length).
    by rewrite Hbe. }
  assert (sc_big s = false ->
    PeekLittleEndianUint dcheck_on little (sc_width s) b = Ret (uwrap (bits (sc_width s)) (sc_val s))) as PL.
  { intros E. rewrite (PeekLittleEndianUint_rep dcheck_on little _ Hk b (wire s) c g) by (done || apply wire_length).
    by rewrite Hle. }
  assert (forall peek, peek b = Ret (sc_result s) ->
    exists b' g', then_retrieve dcheck_on peek (Z.of_nat (sc_width s)) b = Ret (sc_result s, b') /\ io_rep b' c g')
    as HT by (intros peek Hp; rewrite <- Hz; by eapply then_retrieve_rep).
  pose proof (bits_pos (sc_width s) Hk).
  unfold read_scalar, sc_result in *.
  destruct s as [big k sg v]; cbn [sc_big sc_width sc_signed sc_val] in *.
  destruct Hk as [-> | [-> | [-> | ->]]], big, sg; try (exfalso; by specialize (H16 eq_refl eq_refl));
    apply HT; unfold PeekInt8, PeekBigEndianInt, PeekLittleEndianInt;
    rewrite ?P1, ?PB, ?PL by done; simpl; rewrite ?swrap_uwrap by done; done.
Qed.

Lemma write_scalars_rep l : forall b c g,
  Forall sc_ok l -> io_rep b c g -> zlen c + zlen (concat (wire <$> l)) <= io_limit ->
  exists b', write_scalars dcheck_on little b l = Ret b' /\ io_rep b' (c ++ concat (wire <$> l)) g.
Proof.
  induction l as [|s l IH]; intros b c g Hs R Hl; rewrite ?fmap_cons in *;
    cbn [write_scalars concat fmap list_fmap] in *.
  - rewrite app_nil_r. by eauto.
  - apply Forall_cons_iff in Hs as [[Hk _] Hs]. rewrite zlen_app in Hl.
    pose proof (zlen_nonneg (concat (wire <$> l))).
    destruct (write_scalar_rep b c g s) as (b1 & -> & R1); [done..|lia|]. simpl.
    destruct (IH b1 _ g Hs R1) as (b2 & -> & R2); [rewrite zlen_app; lia|].
    rewrite <- app_assoc in R2. by eauto.
Qed.

Lemma read_scalars_rep l : forall b c g,
  Forall sc_ok l -> io_rep b (concat (wire <$> l) ++ c) g ->
  exists b' g', read_scalars dcheck_on little b l = Ret (sc_result <$> l, b') /\ io_rep b' c g'.
Proof.
  induction l as [|s l IH]; intros b c g Hs R; rewrite ?fmap_cons in *;
    cbn [read_scalars concat fmap list_fmap] in *.
  - by eauto.
  - apply Forall_cons_iff in Hs as [Hk Hs]. rewrite <- app_assoc in R.
    destruct (read_scalar_rep b _ g s Hk R) as (b1 & g1 & -> & R1). simpl.
    destruct (IH b1 c g1 Hs R1) as (b2 & g2 & -> & R2). simpl. by eauto.
Qed.
End ScalarQueue.

(** Scalars come back in order.  Writing any list of integers of widths 1,
    2, 4 and 8 with [WriteBigEndian*], [WriteLittleEndian*] or [WriteInt8] to an
    empty buffer and reading them with the matching [Read*] functions returns
    each value modulo its width, signed or unsigned as its reader says, and
    leaves the buffer empty, on a host of either endianness.  The little-endian
    signed 16-bit reader is excluded: see C9. *)
Theorem scalars_roundtrip dcheck_on little initial_size l :
  0 <= initial_size <= 2 ^ 61 -> Forall sc_ok l -> zlen (concat (wire <$> l)) <= io_limit ->
  exists b1 b2, write_scalars dcheck_on little (io_new initial_size) l = Ret b1 /\
    read_scalars dcheck_on little b1 l = Ret (sc_result <$> l, b2) /\ ReadableBytes b2 = 0.
Proof.
  intros Hn Hs Hl.
  destruct (write_scalars_rep dcheck_on little l _ _ _ Hs (io_new_rep initial_size Hn)) as (b1 & E1 & R1);
    [done|].
  rewrite app_nil_l, <- (app_nil_r (concat _)) in R1.
  destruct (read_scalars_rep dcheck_on little l b1 [] _ Hs R1) as (b2 & g2 & E2 & R2).
  exists b1, b2. split_and!; [done|done|].
  by destruct (rep_indices _ _ _ R2) as (_ & _ & _ & _ & -> & _).
Qed.

(** [ReadLittleEndianInt16] consumes four bytes.  It returns the value of
    the first two bytes but also drops the two that follow them, so the next
    read starts two bytes late. *)
Theorem ReadLittleEndianInt16_drops dcheck_on little b d e c g :
  io_rep b (d ++ e ++ c) g -> length d = 2%nat -> length e = 2%nat -> all_bytes d ->
  exists b' g', ReadLittleEndianInt16 dcheck_on little b = Ret (s16 (le_val d), b') /\ io_rep b' c g'.
Proof.
  intros R Hd He Hb. unfold ReadLittleEndianInt16, ReadLittleEndianUint.
  destruct (then_retrieve_rep dcheck_on (PeekLittleEndianUint dcheck_on little 2) (le_val d) b d (e ++ c) g)
    as (b1 & g1 & E1 & R1); [done|by apply (PeekLittleEndianUint_rep dcheck_on little 2) with (e ++ c) g; [right; left|..]|].
  unfold zlen in E1. rewrite Hd in E1. rewrite E1. simpl.
  destruct (Retrieve_rep dcheck_on b1 (e ++ c) g1 2) as (b2 & -> & R2).
  - done.
  - rewrite zlen_app. pose proof (zlen_nonneg c). unfold zlen. lia.
  - simpl. rewrite drop_app_length' in R2 by lia. by eauto.
Qed.

(** [PrependLittleEndianInt16] prepends the big-endian bytes, not the
    little-endian ones [PrependLittleEndianUint16] prepends. *)
Theorem PrependLittleEndianInt16_big_endian dcheck_on little b c g x :
  io_rep b c g -> 2 <= g ->
  exists b1 b2,
    PrependLittleEndianInt16 dcheck_on little b x = Ret b1 /\
    PeekAt b1 0 2 = Ret (be_bytes 2 (u16 x)) /\
    PrependLittleEndian dcheck_on little 2 b x = Ret b2 /\
    PeekAt b2 0 2 = Ret (le_bytes 2 (u16 x)).
Proof.
  intros R Hg. assert (scalar_width 2) as Hk by (right; by left).
  unfold PrependLittleEndianInt16, PrependBigEndian, PrependLittleEndian.
  change (bits 2) with 16.
  assert (0 <= u16 x < 256 ^ Z.of_nat 2) as Hx by (change (256 ^ Z.of_nat 2) with (2 ^ 16); apply uwrap_range; lia).
  rewrite host_HostToNet, host_ByteSwapToLE by done.
  destruct (Prepend_rep dcheck_on b c g (be_bytes 2 (u16 x))) as (b1 & -> & R1);
    [done|unfold zlen; rewrite length_be_bytes; lia|].
  destruct (Prepend_rep dcheck_on b c g (le_bytes 2 (u16 x))) as (b2 & -> & R2);
    [done|unfold zlen; rewrite length_le_bytes; lia|].
  pose proof (zlen_nonneg c).
  exists b1, b2. split_and!; [done| |done|].
  - rewrite (PeekAt_rep b1 _ _ 0 2 R1); [|lia..|rewrite zlen_app; unfold zlen at 1; rewrite length_be_bytes; lia].
    done.
  - rewrite (PeekAt_rep b2 _ _ 0 2 R2); [|lia..|rewrite zlen_app; unfold zlen at 1; rewrite length_le_bytes; lia].
    done.
Qed.

(** The room [ReadFd] offers to [readv]. *)
Definition readv_room (b : io_buffer) : Z :=
  if WritableBytes b <? extrabuf_size then WritableBytes b + extrabuf_size else WritableBytes b.

Lemma ReadFd_rep dcheck_on b c g readv received :
  io_rep b c g ->
  readv (readv_room b) = Some received -> zlen received <= readv_room b ->
  zlen received < 2 ^ 31 -> zlen c + zlen received <= io_limit ->
  exists b', ReadFd dcheck_on b readv = Ret (zlen received, b') /\ io_rep b' (c ++ received) g.
Proof.
  intros R Er Hle Hlt Hlim. rep_facts R. pose proof (zlen_nonneg received). pose proof (zlen_nonneg c).
  unfold ReadFd. unfold readv_room in *. rewrite Er.
  set (w := WritableBytes b) in *. clearbody w.
  assert (zlen (take (Z.to_nat w) received) = Z.min w (zlen received)) as Ht
    by (unfold zlen; rewrite length_take; lia).
  rewrite mem_write_ok by lia. simpl. rewrite swrap_small by lia.
  destruct R as [(pre & post & E & Hr & Hw') Hg Hc Hs].
  assert (zsplice (writer_index_ b) (take (Z.to_nat w) received) (buffer_ b) =
          pre ++ (c ++ take (Z.to_nat w) received) ++ drop (length (take (Z.to_nat w) received)) post) as Ez.
  { rewrite Hw', E, (app_assoc pre c), <- zlen_app, zsplice_end. by rewrite <- !app_assoc. }
  destruct (Z.leb_spec (zlen received) w) as [Hfit|Hover].
  - eexists. split; [done|]. rewrite (take_ge received) in * by (unfold zlen in *; lia).
    split; cbn [buffer_ reader_index_ writer_index_]; try done.
    + eexists pre, _. split; [exact Ez|]. rewrite uwrap_small by lia. rewrite zlen_app. lia.
    + rewrite zlen_zsplice by lia. done.
  - set (m := zsplice _ _ _) in *.
    assert (zlen m = zlen (buffer_ b)) as Em by (apply zlen_zsplice; lia).
    destruct (Write_rep dcheck_on (IOBuffer m (reader_index_ b) (zlen m))
               (c ++ take (Z.to_nat w) received) g (drop (Z.to_nat w) received)) as (b' & Eb & R').
    + split; cbn [buffer_ reader_index_ writer_index_]; try done; [|by rewrite Em].
      exists pre, []. split; [|rewrite zlen_app, Em; split; [done|lia]].
      rewrite Ez, drop_ge; [done|]. assert (zlen post = w) by (rewrite E, !zlen_app in Hwrite; lia).
      unfold zlen in *. lia.
    + rewrite zlen_app, Ht. unfold zlen at 3. rewrite length_drop. unfold zlen in *. lia.
    + rewrite Eb. simpl. rewrite <- app_assoc, take_drop in R'. by eauto.
Qed.

(** [ReadFd] appends what the socket delivered: if [readv] returns at most
    the bytes it was offered room for, the content grows by exactly those
    bytes, those that overflowed into [extrabuf] included. *)
Theorem ReadFd_appends dcheck_on b c g readv received :
  io_rep b c g -> readv (readv_room b) = Some received -> zlen received <= readv_room b ->
  zlen received < 2 ^ 31 -> zlen c + zlen received <= io_limit ->
  exists b', ReadFd dcheck_on b readv = Ret (zlen received, b') /\ io_rep b' (c ++ received) g /\
    PeekAt b' (zlen c) (zlen received) = Ret received.
Proof.
  intros R Er Hle H31 Hl. destruct (ReadFd_rep dcheck_on b c g readv received) as (b' & E & R'); [done..|].
  exists b'. split_and!; [done..|]. pose proof (zlen_nonneg c). pose proof (zlen_nonneg received).
  rewrite (PeekAt_rep _ _ _ _ _ R') by (rewrite ?zlen_app; lia).
  pose proof (zslice_middle c received [] _ _ eq_refl eq_refl) as Hm. rewrite app_nil_r in Hm. by rewrite Hm.
Qed.

(** [FindCRLF] finds the first line end: a result is the index of a CR LF
    inside the readable bytes with none before it, and NULL means there is
    none. *)
Theorem FindCRLF_first b c g :
  io_rep b c g ->
  exists r, FindCRLF b (reader_index_ b) = Ret r /\
    match r with
    | Some i => exists p s, c = p ++ kCRLF ++ s /\ i = reader_index_ b + zlen p /\
                  (forall p' s', c = p' ++ kCRLF ++ s' -> zlen p <= zlen p')
    | None => forall p s, c <> p ++ kCRLF ++ s
    end.
Proof.
  intros R. rep_facts R. pose proof (zlen_nonneg c). unfold FindCRLF.
  replace (writer_index_ b - reader_index_ b) with (zlen c) by lia.
  pose proof (PeekAt_rep b c g 0 (zlen c) R) as HP. unfold PeekAt in HP. rewrite Z.add_0_r in HP.
  rewrite HP by lia. simpl.
  replace (zslice 0 (zlen c) c) with c by (unfold zslice, zlen; rewrite Nat2Z.id; simpl; by rewrite take_ge).
  eexists. split; [done|]. clear R HP Hread Hwrite Hw Hsz.
  generalize (reader_index_ b) as off. clear. induction c as [|x c IH]; intros off.
  - simpl. intros [|? ?] s; done.
  - cbn [search]. case_bool_decide as E.
    + exists [], (drop 2 (x :: c)). split_and!.
      * transitivity (take 2 (x :: c) ++ drop 2 (x :: c)); [by rewrite take_drop|]. change (take 2 (x :: c) = kCRLF) in E. by rewrite E.
      * change (zlen (@nil Z)) with 0. lia.
      * intros p' s' _. change (zlen (@nil Z)) with 0. auto with zutils.
    + specialize (IH (off + 1)). destruct (search kCRLF c (off + 1)) as [i|].
      * destruct IH as (p & s & -> & -> & Hmin). exists (x :: p), s. rewrite zlen_cons.
        split_and!; [done|lia|]. intros [|y p'] s' E'; [exfalso; apply E; rewrite E'; done|].
        injection E' as -> E'. apply Hmin in E'. rewrite zlen_cons. lia.
      * intros [|y p] s E'; [exfalso; apply E; rewrite E'; done|]. injection E' as -> E'. by eapply IH.
Qed.

(** * Witnesses *)

Lemma io_buffer_refines_witness :
  exists b, io_run true (io_new 0) [OWrite [1; 2; 3]; ORetrieve 1; OPrepend [9]; OUnwrite 1; OShrink 4] = Ret b /\
    ReadableBytes b = 2 /\ PeekAt b 0 (ReadableBytes b) = Ret [9; 2] /\ kCheapPrepend <= PrependableBytes b.
Proof.
  apply (io_buffer_refines true 0 [OWrite [1; 2; 3]; ORetrieve 1; OPrepend [9]; OUnwrite 1; OShrink 4] [9; 2] 8);
    [done|by vm_compute].
Defined.

Lemma scalars_roundtrip_witness :
  exists b1 b2, write_scalars true true (io_new 0) [Scalar true 4 true (-2); Scalar false 8 false 77] = Ret b1 /\
    read_scalars true true b1 [Scalar true 4 true (-2); Scalar false 8 false 77] = Ret ([-2; 77], b2) /\
    ReadableBytes b2 = 0.
Proof.
  apply (scalars_roundtrip true true 0 [Scalar true 4 true (-2); Scalar false 8 false 77]).
  - done.
  - repeat constructor; simpl; try done; unfold scalar_width; lia.
  - by vm_compute.
Defined.

(** A buffer that holds the given bytes behind the eight spare ones. *)
Definition io_with (c : bytes) : io_buffer := IOBuffer (replicate 8 0 ++ c ++ [0; 0]) 8 (8 + zlen c).

Lemma io_with_rep c : zlen c <= 2 ^ 61 -> io_rep (io_with c) c 8.
Proof.
  intros H. pose proof (zlen_nonneg c). split; cbn [io_with buffer_ reader_index_ writer_index_].
  - by exists (replicate 8 0), [0; 0].
  - lia.
  - done.
  - unfold kCheapPrepend. rewrite !zlen_app. change (zlen (replicate 8 0)) with 8. change (zlen [0; 0]) with 2. lia.
Qed.

Lemma ReadLittleEndianInt16_drops_witness :
  exists b' g', ReadLittleEndianInt16 true true (io_with [1; 2; 3; 4; 5]) = Ret (s16 513, b') /\ io_rep b' [5] g'.
Proof.
  apply (ReadLittleEndianInt16_drops true true (io_with [1; 2; 3; 4; 5]) [1; 2] [3; 4] [5] 8);
    [by apply io_with_rep|done|done|by repeat constructor].
Defined.

Lemma PrependLittleEndianInt16_big_endian_witness :
  exists b1 b2, PrependLittleEndianInt16 true true (io_with []) 258 = Ret b1 /\ PeekAt b1 0 2 = Ret [1; 2] /\
    PrependLittleEndian true true 2 (io_with []) 258 = Ret b2 /\ PeekAt b2 0 2 = Ret [2; 1].
Proof. by apply (PrependLittleEndianInt16_big_endian true true (io_with []) [] 8 258); [apply io_with_rep|]. Defined.

(** Three bytes where the vector has room for two: one goes through [extrabuf]. *)
Lemma ReadFd_appends_witness :
  exists b', ReadFd true (io_with [1]) (fun _ => Some [7; 8; 9]) = Ret (3, b') /\ io_rep b' [1; 7; 8; 9] 8 /\
    PeekAt b' 1 3 = Ret [7; 8; 9].
Proof.
  by apply (ReadFd_appends true (io_with [1]) [1] 8 (fun _ => Some [7; 8; 9]) [7; 8; 9]); [apply io_with_rep|..].
Defined.

Lemma FindCRLF_first_witness :
  exists r, FindCRLF (io_with [13; 65; 13; 10; 13; 10]) 8 = Ret r /\
    match r with
    | Some i => exists p s, [13; 65; 13; 10; 13; 10] = p ++ kCRLF ++ s /\ i = 8 + zlen p /\
                  (forall p' s', [13; 65; 13; 10; 13; 10] = p' ++ kCRLF ++ s' -> zlen p <= zlen p')
    | None => forall p s, [13; 65; 13; 10; 13; 10] <> p ++ kCRLF ++ s
    end.
Proof. by apply (FindCRLF_first (io_with [13; 65; 13; 10; 13; 10]) _ 8); apply io_with_rep. Defined.
