(* ===== verification/Codecs.v ===== *)
(** The three packet codecs of [zutils/net/codec]: the length-prefixed one, the
    TeamTalk one and the ZNet one.  Each consumes the read buffer of a
    connection through the interface [ByteQueue], which [IOBuffer] implements,
    and hands packets to a delegate, which is a parameter. *)
From Stdlib Require Import ZArith Lia Bool.
From stdpp Require Import base list numbers.
From S2P Require Import Prelude SysByteorder IOBuffer.

Open Scope Z_scope.

(** * What the codecs need of a buffer *)
Class ByteQueue (Q : Type) := {
  q_rep : Q -> bytes -> Prop;
  q_readable : Q -> Z;
  q_peek : Q -> Z -> Z -> outcome bytes;
  q_peek_int32 : Q -> outcome Z;
  q_retrieve : Q -> Z -> outcome Q;
  q_write : Q -> bytes -> outcome Q;
  q_readable_rep q c : q_rep q c -> q_readable q = zlen c;
  q_peek_rep q c off n :
    q_rep q c -> 0 <= off -> 0 <= n -> off + n <= zlen c -> q_peek q off n = Ret (zslice off n c);
  q_peek_int32_rep q d c :
    q_rep q (d ++ c) -> length d = 4%nat -> all_bytes d -> q_peek_int32 q = Ret (s32 (be_val d));
  q_retrieve_rep q c n :
    q_rep q c -> 0 <= n <= zlen c ->
    exists q', q_retrieve q n = Ret q' /\ q_rep q' (drop (Z.to_nat n) c);
  q_write_rep q c d :
    q_rep q c -> zlen c + zlen d <= io_limit ->
    exists q', q_write q d = Ret q' /\ q_rep q' (c ++ d)
}.

(** [IOBuffer] is such a queue, in either build and on either host. *)
Section IOBufferQueue.
Context (dcheck_on little : bool).

#[export] Program Instance io_queue : ByteQueue io_buffer := {
  q_rep b c := exists g, io_rep b c g;
  q_readable := ReadableBytes;
  q_peek := PeekAt;
  q_peek_int32 := PeekBigEndianInt dcheck_on little 4;
  q_retrieve := Retrieve dcheck_on;
  q_write := Write dcheck_on
}.
Next Obligation. intros q c [g R]. by destruct (rep_indices _ _ _ R) as (_ & _ & _ & _ & ? & _). Qed.
Next Obligation. intros q c off n [g R]. by apply PeekAt_rep with g. Qed.
Next Obligation.
  intros q d c [g R] Hd Hb. unfold PeekBigEndianInt.
  assert (scalar_width 4) as Hk by (right; right; by left).
  by rewrite (PeekBigEndianUint_rep dcheck_on little 4 Hk q d c g).
Qed.
Next Obligation.
  intros q c n [g R] Hn. destruct (Retrieve_rep dcheck_on q c g n R Hn) as (b' & ? & ?). by eauto.
Qed.
Next Obligation.
  intros q c d [g R] Hl. destruct (Write_rep dcheck_on q c g d R Hl) as (b' & ? & ?). by eauto.
Qed.
End IOBufferQueue.

(** * LengthHeaderCodec *)
Module LengthHeader.
Section Codec.
Context {Q : Type} `{!ByteQueue Q}.
(** The delegate's state and its [OnLengthHeaderDataReceived]. *)
Context {U : Type} (deliver : bytes -> U -> Z * U).

Definition kMaxMessage : Z := 65536.

(** [LengthHeaderCodec::OnDataReceived]: the loop, [ret] so far. *)
Fixpoint OnDataReceived_loop (fuel : nat) (header_len_ : Z) (ret : Z) (data : Q) (u : U)
    : outcome (Z * Q * U) :=
  if header_len_ <=? q_readable data then
    match fuel with
    | O => Fault OutOfFuel
    | S fuel =>
        len ← q_peek_int32 data;
        if (kMaxMessage <? len) || (len <? 0) then Ret (-1, data, u)
        else if u64 (len + header_len_) <=? q_readable data then
          data ← q_retrieve data header_len_;
          message ← q_peek data 0 len;
          let '(ret, u) := deliver message u in
          data ← q_retrieve data len;
          if ret =? -1 then Ret (ret, data, u)
          else OnDataReceived_loop fuel header_len_ ret data u
        else Ret (ret, data, u)
    end
  else Ret (ret, data, u).

Definition OnDataReceived (header_len_ : Z) (data : Q) (u : U) : outcome (Z * Q * U) :=
  OnDataReceived_loop (S (Z.to_nat (q_readable data))) header_len_ 0 data u.

(** A connection: each chunk the socket delivers is appended to the read buffer
    and the codec is called, until it reports an error. *)
Fixpoint feed (header_len_ : Z) (chunks : list bytes) (data : Q) (u : U) : outcome (Z * Q * U) :=
  match chunks with
  | [] => Ret (0, data, u)
  | d :: chunks =>
      data ← q_write data d;
      '(ret, data, u) ← OnDataReceived header_len_ data u;
      if ret =? 0 then feed header_len_ chunks data u else Ret (ret, data, u)
  end.
End Codec.

(** ** The format *)
Definition frame (m : bytes) : bytes := be_bytes 4 (zlen m) ++ m.

Definition message_ok (m : bytes) : Prop := zlen m <= kMaxMessage.

(** No complete message: fewer than four bytes, or a header announcing more than
    is there. *)
Definition incomplete (t : bytes) : Prop :=
  zlen t < 4 \/ exists n r, t = be_bytes 4 n ++ r /\ zlen r < n <= kMaxMessage.

Section Facts.
Context {Q : Type} `{!ByteQueue Q} {U : Type} (deliver : bytes -> U -> Z * U).
(** The delegate keeps accepting. *)
Context (accepts : forall m u, fst (deliver m u) = 0).

Definition deliver_all (ms : list bytes) (u : U) : U := foldl (fun u m => snd (deliver m u)) u ms.

Lemma header_peek q n c :
  q_rep q (be_bytes 4 n ++ c) -> 0 <= n < 2 ^ 31 -> q_peek_int32 q = Ret n.
Proof using.
  intros R Hn. rewrite (q_peek_int32_rep q (be_bytes 4 n) c); [|done|apply length_be_bytes|apply be_bytes_bytes].
  rewrite be_val_bytes. change (256 ^ Z.of_nat 4) with (2 ^ 32).
  rewrite Z.mod_small by lia. by rewrite swrap_small by lia.
Qed.

Lemma zlen_be4 n : zlen (be_bytes 4 n) = 4.
Proof using. unfold zlen. by rewrite length_be_bytes. Qed.

Lemma loop_incomplete fuel q t u :
  q_rep q t -> incomplete t -> (zlen t < 4 \/ (0 < fuel)%nat) ->
  OnDataReceived_loop deliver fuel 4 0 q u = Ret (0, q, u).
Proof using.
  intros R Ht Hf. destruct fuel as [|fuel]; cbn [OnDataReceived_loop];
    rewrite (q_readable_rep q t R); destruct (Z.leb_spec 4 (zlen t)); try done; [lia|].
  destruct Ht as [?|(n & r & -> & Hr)]; [lia|]. unfold kMaxMessage in *.
  pose proof (zlen_nonneg r). rewrite (header_peek q n r R) by lia. obind.
  rewrite (proj2 (Z.ltb_ge _ _)), (proj2 (Z.ltb_ge n 0)) by (unfold kMaxMessage; lia). cbn [orb].
  rewrite zlen_app, zlen_be4, uwrap_small by lia.
  by rewrite (proj2 (Z.leb_gt _ _)) by lia.
Qed.

(** One turn of the loop on a complete message. *)
Lemma loop_message fuel q m c u :
  q_rep q (frame m ++ c) -> message_ok m -> zlen (frame m ++ c) <= io_limit ->
  exists q', q_rep q' c /\
    OnDataReceived_loop deliver (S fuel) 4 0 q u =
      OnDataReceived_loop deliver fuel 4 0 q' (snd (deliver m u)).
Proof using accepts.
  unfold message_ok, kMaxMessage, io_limit. intros R Hm Hl.
  pose proof (zlen_nonneg m). pose proof (zlen_nonneg c).
  cbn [OnDataReceived_loop]. rewrite (q_readable_rep _ _ R).
  unfold frame in *. rewrite !zlen_app, zlen_be4 in *. rewrite (proj2 (Z.leb_le _ _)) by lia.
  rewrite <- app_assoc in R. rewrite (header_peek q (zlen m) _ R) by lia. obind.
  rewrite (proj2 (Z.ltb_ge _ _)), (proj2 (Z.ltb_ge _ 0)) by (unfold kMaxMessage; lia). cbn [orb].
  rewrite uwrap_small by lia. rewrite (proj2 (Z.leb_le _ _)) by lia.
  destruct (q_retrieve_rep q _ 4 R) as (q1 & -> & R1); [rewrite !zlen_app, zlen_be4; lia|]. obind.
  rewrite drop_app_length' in R1 by by rewrite length_be_bytes.
  rewrite (q_peek_rep q1 _ 0 (zlen m) R1) by (rewrite ?zlen_app; lia). obind.
  rewrite (zslice_middle [] m c) by done.
  pose proof (accepts m u) as Ha. destruct (deliver m u) as [r u1]. simpl in Ha. subst r.
  destruct (q_retrieve_rep q1 _ (zlen m) R1) as (q2 & -> & R2); [rewrite zlen_app; lia|]. obind.
  unfold zlen in R2. rewrite Nat2Z.id, drop_app_length in R2. by eauto.
Qed.

Lemma loop_messages ms : forall fuel q t u,
  q_rep q (concat (frame <$> ms) ++ t) -> Forall message_ok ms -> incomplete t ->
  zlen (concat (frame <$> ms) ++ t) <= io_limit -> (length ms < fuel)%nat ->
  exists q', q_rep q' t /\
    OnDataReceived_loop deliver fuel 4 0 q u = Ret (0, q', deliver_all ms u).
Proof using accepts.
  induction ms as [|m ms IH]; intros fuel q t u R Hms Ht Hl Hf; rewrite ?fmap_cons in *;
    cbn [concat fmap list_fmap] in *.
  - exists q. split; [done|]. apply (loop_incomplete _ _ t); [done..|]. simpl in Hf. lia.
  - apply Forall_cons_iff in Hms as [Hm Hms]. rewrite <- app_assoc in *.
    destruct fuel as [|fuel]; [simpl in Hf; lia|].
    destruct (loop_message fuel q m _ u R Hm Hl) as (q1 & R1 & ->).
    destruct (IH fuel q1 t (snd (deliver m u)) R1) as (q2 & R2 & ->); [done..| | |].
    + rewrite zlen_app in Hl. pose proof (zlen_nonneg (frame m)). lia.
    + simpl in Hf. lia.
    + by eauto.
Qed.

Lemma length_messages ms : (length ms <= length (concat (frame <$> ms)))%nat.
Proof using.
  induction ms as [|m ms IH]; [done|]. rewrite fmap_cons. cbn [concat length]. unfold frame at 1.
  rewrite !length_app, length_be_bytes. lia.
Qed.

(** One call of the codec delivers every complete message in the buffer. *)
Lemma OnDataReceived_all ms q t u :
  q_rep q (concat (frame <$> ms) ++ t) -> Forall message_ok ms -> incomplete t ->
  zlen (concat (frame <$> ms) ++ t) <= io_limit ->
  exists q', q_rep q' t /\ OnDataReceived deliver 4 q u = Ret (0, q', deliver_all ms u).
Proof using accepts.
  intros R Hms Ht Hl. apply loop_messages; [done..|].
  rewrite (q_readable_rep _ _ R), zlen_app. pose proof (length_messages ms).
  unfold zlen. lia.
Qed.
End Facts.

(** ** Cutting a stream of messages at any point *)

(** A prefix of a message stream is some whole messages and an incomplete rest. *)
Lemma prefix_decodes ms : forall p s,
  Forall message_ok ms -> p ++ s = concat (frame <$> ms) ->
  exists ms1 ms2 t, ms = ms1 ++ ms2 /\ p = concat (frame <$> ms1) ++ t /\
    t ++ s = concat (frame <$> ms2) /\ incomplete t.
Proof.
  induction ms as [|m ms IH]; intros p s Hms E; rewrite ?fmap_cons in *;
    cbn [concat fmap list_fmap] in *.
  - apply app_nil in E as [-> ->]. exists [], [], []. split_and!; try done. left. done.
  - apply Forall_cons_iff in Hms as [Hm Hms].
    destruct (decide (length (frame m) <= length p)%nat) as [Hle|Hlt].
    + assert (exists p', p = frame m ++ p') as [p' ->].
      { exists (drop (length (frame m)) p). rewrite <- (take_drop (length (frame m)) p) at 1. f_equal.
        apply (f_equal (take (length (frame m)))) in E.
        by rewrite take_app_le, take_app_length in E by done. }
      rewrite <- app_assoc in E. apply app_inv_head in E.
      destruct (IH p' s Hms E) as (ms1 & ms2 & t & -> & -> & Et & Ht).
      exists (m :: ms1), ms2, t. rewrite fmap_cons. cbn [concat]. by rewrite app_assoc.
    + exists [], (m :: ms), p. rewrite fmap_cons. split_and!; [done|done|done|].
      assert (p = take (length p) (frame m)) as Ep.
      { apply (f_equal (take (length p))) in E.
        by rewrite take_app_length, take_app_le in E by lia. }
      unfold incomplete. destruct (Z.lt_ge_cases (zlen p) 4) as [|H4]; [by left|right].
      exists (zlen m), (drop 4 p). unfold message_ok in Hm.
      assert (length (frame m) = (4 + length m)%nat) as El
        by (unfold frame; by rewrite length_app, length_be_bytes).
      split.
      * rewrite <- (take_drop 4 p) at 1. f_equal. rewrite Ep, take_take.
        unfold frame, zlen in *. rewrite take_app_le by (rewrite length_be_bytes; lia).
        rewrite take_ge; [done|]. rewrite length_be_bytes. lia.
      * unfold zlen in *. rewrite length_drop. lia.
Qed.

(** An incomplete rest that is a stream of messages is empty. *)
Lemma incomplete_rest ms t :
  incomplete t -> Forall message_ok ms -> t = concat (frame <$> ms) -> zlen t <= io_limit -> ms = [] /\ t = [].
Proof.
  intros Ht Hms E Hl. destruct ms as [|m ms]; [done|].
  exfalso. rewrite fmap_cons in E. cbn [concat] in E. apply Forall_cons_iff in Hms as [Hm _].
  unfold frame at 1 in E. rewrite <- app_assoc in E. rewrite E in Ht.
  destruct Ht as [Hs|(n & r & E' & Hr)].
  * rewrite zlen_app, zlen_be4 in Hs. pose proof (zlen_nonneg (m ++ concat (frame <$> ms))). lia.
  * apply app_inj_1 in E' as [En <-]; [|by rewrite !length_be_bytes].
    rewrite zlen_app in Hr. unfold message_ok, kMaxMessage in *.
    apply (f_equal be_val) in En. rewrite !be_val_bytes in En.
    change (256 ^ Z.of_nat 4) with (2 ^ 32) in En.
    pose proof (zlen_nonneg m). pose proof (zlen_nonneg (concat (frame <$> ms))).
    rewrite !Z.mod_small in En by lia. lia.
Qed.

Section Stream.
Context {Q : Type} `{!ByteQueue Q} {U : Type} (deliver : bytes -> U -> Z * U).
Context (accepts : forall m u, fst (deliver m u) = 0).

(** One call of the codec on a prefix [p] of a message stream. *)
Lemma stream_step p s ms q u :
  q_rep q p -> Forall message_ok ms -> p ++ s = concat (frame <$> ms) ->
  zlen (concat (frame <$> ms)) <= io_limit ->
  exists ms1 ms2 t q', ms = ms1 ++ ms2 /\ Forall message_ok ms2 /\ q_rep q' t /\ incomplete t /\
    t ++ s = concat (frame <$> ms2) /\ zlen (concat (frame <$> ms2)) <= io_limit /\
    OnDataReceived deliver 4 q u = Ret (0, q', deliver_all deliver ms1 u).
Proof using accepts.
  intros R Hms E Hl.
  destruct (prefix_decodes ms _ _ Hms E) as (ms1 & ms2 & t1 & -> & Ep & E2 & Ht1).
  assert (zlen p <= io_limit) as Hl1.
  { rewrite <- E in Hl. rewrite zlen_app in Hl. pose proof (zlen_nonneg s). lia. }
  rewrite Ep in R, Hl1. apply Forall_app in Hms as [Hms1 Hms2].
  destruct (OnDataReceived_all deliver accepts ms1 q t1 u R Hms1 Ht1 Hl1) as (q2 & R2 & ->).
  exists ms1, ms2, t1, q2. split_and!; try done.
  rewrite fmap_app, concat_app, zlen_app in Hl. pose proof (zlen_nonneg (concat (frame <$> ms1))). lia.
Qed.

Lemma feed_stream chunks : forall ms t q u,
  q_rep q t -> incomplete t -> Forall message_ok ms ->
  t ++ concat chunks = concat (frame <$> ms) -> zlen (concat (frame <$> ms)) <= io_limit ->
  exists q' t', q_rep q' t' /\ incomplete t' /\
    feed deliver 4 chunks q u = Ret (0, q', deliver_all deliver ms u) /\ t' = [].
Proof using accepts.
  induction chunks as [|d chunks IH]; intros ms t q u R Ht Hms E Hl; cbn [concat feed] in *.
  - rewrite app_nil_r in E. destruct (incomplete_rest ms t) as [-> ->]; [done..|by rewrite E|].
    exists q, []. by split_and!.
  - rewrite app_assoc in E.
    assert (zlen (t ++ d) <= io_limit) as Hl1.
    { rewrite <- E in Hl. rewrite zlen_app in Hl. pose proof (zlen_nonneg (concat chunks)). lia. }
    destruct (q_write_rep q t d R) as (q1 & -> & R1); [by rewrite <- zlen_app|]. simpl.
    destruct (stream_step (t ++ d) (concat chunks) ms q1 u R1 Hms E Hl)
      as (ms1 & ms2 & t1 & q2 & -> & Hms2 & R2 & Ht1 & E2 & Hl2 & ->). simpl.
    destruct (IH ms2 t1 q2 (deliver_all deliver ms1 u) R2 Ht1 Hms2 E2 Hl2) as (q3 & t3 & R3 & Ht3 & Ef & ->).
    exists q3, []. split_and!; try done. rewrite Ef. unfold deliver_all. by rewrite foldl_app.
Qed.
End Stream.

(** C21: the length-header codec is independent of how the stream is cut.
    However the socket fragments a stream of messages of at most 65536 bytes,
    feeding the chunks to a connection with an empty [IOBuffer] delivers exactly
    the messages, in order and each once, and leaves the buffer empty, provided
    the delegate keeps accepting. *)
Theorem fragmentation_independent dcheck_on little {U} (deliver : bytes -> U -> Z * U) chunks ms n u :
  (forall m u, fst (deliver m u) = 0) -> 0 <= n <= 2 ^ 61 ->
  Forall message_ok ms -> concat chunks = concat (frame <$> ms) -> zlen (concat chunks) <= io_limit ->
  exists b, @feed _ (io_queue dcheck_on little) _ deliver 4 chunks (io_new n) u
              = Ret (0, b, deliver_all deliver ms u) /\ ReadableBytes b = 0.
Proof.
  intros Ha Hn Hms E Hl.
  destruct (@feed_stream _ (io_queue dcheck_on little) _ deliver Ha chunks ms [] (io_new n) u)
    as (b & t & [g R] & _ & Ef & ->); try done.
  - exists kCheapPrepend. by apply io_new_rep.
  - by left.
  - by rewrite <- E.
  - exists b. split; [done|]. by destruct (rep_indices _ _ _ R) as (_ & _ & _ & _ & -> & _).
Qed.

(** A header announcing more than 65536 bytes, or a negative length, makes
    the codec report -1 at once: nothing is delivered and nothing is consumed. *)
Theorem oversize_rejected {Q} `{!ByteQueue Q} {U} (deliver : bytes -> U -> Z * U) q n c u :
  q_rep q (be_bytes 4 n ++ c) -> kMaxMessage < n < 2 ^ 32 ->
  OnDataReceived deliver 4 q u = Ret (-1, q, u).
Proof.
  intros R Hn. unfold OnDataReceived. cbn [OnDataReceived_loop]. unfold kMaxMessage in Hn.
  rewrite (q_readable_rep q _ R), zlen_app, zlen_be4. pose proof (zlen_nonneg c).
  rewrite (proj2 (Z.leb_le _ _)) by lia.
  rewrite (q_peek_int32_rep q (be_bytes 4 n) c R) by (apply length_be_bytes || apply be_bytes_bytes). obind.
  rewrite be_val_bytes. change (256 ^ Z.of_nat 4) with (2 ^ 32). rewrite Z.mod_small by lia.
  destruct (Z.lt_ge_cases n (2 ^ 31)).
  - rewrite swrap_small by lia. by rewrite (proj2 (Z.ltb_lt _ _)) by (unfold kMaxMessage; lia).
  - replace (s32 n) with (n - 2 ^ 32).
    + rewrite (proj2 (Z.ltb_lt (n - 2 ^ 32) 0)) by lia. by rewrite orb_true_r.
    + unfold swrap. change (32 - 1) with 31. replace (n + 2 ^ 31) with (n - 2 ^ 31 + 1 * 2 ^ 32) by lia.
      rewrite Z.mod_add, Z.mod_small by lia. lia.
Qed.
End LengthHeader.

(** * Packets with a binary header

    Both other codecs build a packet object with [malloc] and hand it over. *)
Definition packet_new (malloc : Z -> option bytes) (size : Z) (head : bytes) : outcome bytes :=
  match malloc size with
  | None => Fault AssertFail
  | Some data => mem_write data 0 head
  end.

Definition head_be32 (d : bytes) (i : Z) : Z := get_be32 (znth d i) (znth d (i + 1)) (znth d (i + 2)) (znth d (i + 3)).
Definition head_be16 (d : bytes) (i : Z) : Z := get_be16 (znth d i) (znth d (i + 1)).

(** A [malloc] that never fails. *)
Definition malloc_total (malloc : Z -> option bytes) : Prop :=
  forall n, 0 <= n < 2 ^ 32 -> exists b, malloc n = Some b /\ zlen b = n.

(** Filling a fresh packet: the header goes first, the body after it. *)
Lemma packet_fill malloc h body n k :
  malloc_total malloc -> k = zlen h -> n = zlen h + zlen body -> n < 2 ^ 32 ->
  exists p, packet_new malloc n h = Ret p /\ mem_write p k body = Ret (h ++ body).
Proof.
  intros HM -> -> Hn. pose proof (zlen_nonneg h). pose proof (zlen_nonneg body).
  destruct (HM (zlen h + zlen body)) as (b & Eb & Hb); [lia|].
  unfold packet_new. rewrite Eb, mem_write_ok by lia.
  rewrite (zsplice_end [] h b : zsplice 0 h b = _).
  eexists. split; [done|]. rewrite app_nil_l.
  assert (zlen (drop (length h) b) = zlen body) as Hd
    by (unfold zlen in *; rewrite length_drop; lia).
  rewrite mem_write_ok by (rewrite ?zlen_app; lia).
  rewrite zsplice_end, (drop_ge (drop _ b)) by (unfold zlen in *; lia). by rewrite app_nil_r.
Qed.

Lemma head_be32_put x p s i :
  i = zlen p -> 0 <= x < 2 ^ 32 -> head_be32 (p ++ put_be32 x ++ s) i = x.
Proof.
  intros -> Hx. unfold head_be32. rewrite <- (Z.add_0_r (zlen p)) at 1. rewrite !znth_app by lia.
  transitivity (u32 x); [apply get_put_be32|by apply uwrap_small].
Qed.

Lemma head_be16_put x p s i :
  i = zlen p -> 0 <= x < 2 ^ 16 -> head_be16 (p ++ put_be16 x ++ s) i = x.
Proof.
  intros -> Hx. unfold head_be16. rewrite <- (Z.add_0_r (zlen p)) at 1. rewrite !znth_app by lia.
  transitivity (u16 x); [apply get_put_be16|by apply uwrap_small].
Qed.

Lemma head_be32_put0 x s : 0 <= x < 2 ^ 32 -> head_be32 (put_be32 x ++ s) 0 = x.
Proof. intros. by apply (head_be32_put x [] s 0). Qed.
Lemma head_be16_put0 x s : 0 <= x < 2 ^ 16 -> head_be16 (put_be16 x ++ s) 0 = x.
Proof. intros. by apply (head_be16_put x [] s 0). Qed.

(** * TeamTalk *)
Module TeamTalk.
Definition kMaxPacketSize : Z := 64 * 1024 * 1024.
Definition kPacketHeaderSize : Z := 12.
Definition kPacketVersion : Z := 1.

(** [TeamTalkPacket::GeneratePacketHeader]: the result and the twelve bytes. *)
Definition header_bytes (message_type reserved body_len : Z) : bytes :=
  put_be32 (u32 (body_len + kPacketHeaderSize)) ++ put_be32 message_type ++
  put_be16 kPacketVersion ++ put_be16 reserved.

Definition GeneratePacketHeader (message_type reserved body_len : Z) : Z * option bytes :=
  if kMaxPacketSize <? body_len then (-1, None)
  else (0, Some (header_bytes message_type reserved body_len)).

(** [TeamTalkPacket::ParsePacketHeader]: result, message type, reserved value
    and, unless it fails, body length. *)
Definition ParsePacketHeader (head_data : bytes) : Z * Z * Z * option Z :=
  let packet_len := head_be32 head_data 0 in
  let message_type := head_be32 head_data 4 in
  let version := head_be16 head_data 8 in
  let reserved := head_be16 head_data 10 in
  if negb (version =? kPacketVersion) || (kMaxPacketSize <? packet_len) || (packet_len <? kPacketHeaderSize)
  then (-1, message_type, reserved, None)
  else if packet_len =? kPacketHeaderSize then (1, message_type, reserved, Some 0)
  else (0, message_type, reserved, Some (u32 (packet_len - kPacketHeaderSize))).

(** [TeamTalkPacket::TeamTalkPacket(uint32, uint16, uint32)] *)
Definition TeamTalkPacket_new (malloc : Z -> option bytes) (message_type reserved body_len : Z) : outcome bytes :=
  packet_new malloc (u32 (body_len + kPacketHeaderSize)) (header_bytes message_type reserved body_len).

(** The accessors of a packet. *)
Definition GetRawdataLength (p : bytes) : Z := head_be32 p 0.
Definition GetMessageType (p : bytes) : Z := head_be32 p 4.
Definition GetVersion (p : bytes) : Z := head_be16 p 8.
Definition GetReserved (p : bytes) : Z := head_be16 p 10.
Definition GetBodyLength (p : bytes) : Z := u32 (GetRawdataLength p - kPacketHeaderSize).
Definition GetBodyData (p : bytes) : bytes := drop 12 p.

Section Codec.
Context {Q : Type} `{!ByteQueue Q} {U : Type} (malloc : Z -> option bytes).
Context (deliver : bytes -> U -> Z * U).

(** [TeamTalkCodec::OnDataReceived].  Every path through the body of its
    [while] returns or breaks, so the loop is a conditional. *)
Definition OnDataReceived (data : Q) (u : U) : outcome (Z * Q * U) :=
  if kPacketHeaderSize <=? q_readable data then
    head ← q_peek data 0 kPacketHeaderSize;
    let '(ret, message_type, reserved, body_len) := ParsePacketHeader head in
    match body_len with
    | None => Ret (ret, data, u)
    | Some body_len =>
        if ret =? 1 then
          p ← TeamTalkPacket_new malloc message_type reserved 0;
          let '(ret, u) := deliver p u in
          data ← q_retrieve data kPacketHeaderSize;
          Ret (ret, data, u)
        else if u64 (s32 (u32 (body_len + kPacketHeaderSize))) <=? q_readable data then
          p ← TeamTalkPacket_new malloc message_type reserved body_len;
          body ← q_peek data kPacketHeaderSize body_len;
          p ← mem_write p kPacketHeaderSize body;
          let '(ret, u) := deliver p u in
          data ← q_retrieve data (u32 (body_len + kPacketHeaderSize));
          Ret (ret, data, u)
        else Ret (0, data, u)
    end
  else Ret (0, data, u).
End Codec.

(** ** Facts *)
Lemma tt_zlen_header mt rsv n : zlen (header_bytes mt rsv n) = kPacketHeaderSize.
Proof. done. Qed.

Lemma tt_parse_header mt rsv n rest :
  0 <= mt < 2 ^ 32 -> 0 <= rsv < 2 ^ 16 -> 0 <= n <= kMaxPacketSize ->
  ParsePacketHeader (header_bytes mt rsv n ++ rest) =
    if n <=? kMaxPacketSize - kPacketHeaderSize
    then (if n =? 0 then 1 else 0, mt, rsv, Some n) else (-1, mt, rsv, None).
Proof.
  unfold kMaxPacketSize. intros Hm Hr Hn.
  set (hdr := header_bytes mt rsv n ++ rest).
  assert (head_be32 hdr 0 = n + 12) as E0.
  { unfold hdr, header_bytes, kPacketHeaderSize. rewrite (uwrap_small 32) by lia. rewrite <- !app_assoc.
    apply head_be32_put0. lia. }
  assert (head_be32 hdr 4 = mt) as E1.
  { unfold hdr, header_bytes. rewrite <- !app_assoc. by apply head_be32_put. }
  assert (head_be16 hdr 8 = kPacketVersion) as E2.
  { unfold hdr, header_bytes. rewrite <- !app_assoc, (app_assoc (put_be32 _)). by apply head_be16_put. }
  assert (head_be16 hdr 10 = rsv) as E3.
  { unfold hdr, header_bytes. rewrite <- !app_assoc, (app_assoc (put_be32 _)), (app_assoc (_ ++ _)).
    by apply head_be16_put. }
  unfold ParsePacketHeader. rewrite E0, E1, E2, E3. unfold kMaxPacketSize, kPacketHeaderSize, kPacketVersion. simpl.
  rewrite (proj2 (Z.ltb_ge (n + 12) 12)), orb_false_r by lia.
  destruct (Z.leb_spec n (64 * 1024 * 1024 - 12)) as [Hle|Hlt].
  - rewrite (proj2 (Z.ltb_ge _ _)) by lia. destruct (Z.eqb_spec n 0) as [->|Hz]; [done|].
    rewrite (proj2 (Z.eqb_neq _ _)), uwrap_small by lia. by rewrite Z.add_simpl_r.
  - by rewrite (proj2 (Z.ltb_lt _ _)) by lia.
Qed.

(** The TeamTalk header round trip.  [GeneratePacketHeader] accepts bodies of
    up to 64 MiB; [ParsePacketHeader] gives back type, reserved value and body
    length of its output, whatever follows, with result 1 for an empty body and
    0 otherwise, exactly when the body is at most 64 MiB less 12 bytes: it
    rejects the headers of the twelve largest sizes the generator accepts. *)
Theorem tt_header_roundtrip mt rsv n rest :
  0 <= mt < 2 ^ 32 -> 0 <= rsv < 2 ^ 16 -> 0 <= n <= kMaxPacketSize ->
  exists hdr, GeneratePacketHeader mt rsv n = (0, Some hdr) /\ zlen hdr = kPacketHeaderSize /\
    ParsePacketHeader (hdr ++ rest) =
      if n <=? kMaxPacketSize - kPacketHeaderSize
      then (if n =? 0 then 1 else 0, mt, rsv, Some n) else (-1, mt, rsv, None).
Proof.
  intros Hm Hr Hn. exists (header_bytes mt rsv n). split_and!; [|done|by apply tt_parse_header].
  unfold GeneratePacketHeader. by rewrite (proj2 (Z.ltb_ge _ _)) by lia.
Qed.

(** A packet as it is on the wire. *)
Record packet := Packet { pk_type : Z; pk_reserved : Z; pk_body : bytes }.
Definition packet_ok (p : packet) : Prop :=
  0 <= pk_type p < 2 ^ 32 /\ 0 <= pk_reserved p < 2 ^ 16 /\
  zlen (pk_body p) <= kMaxPacketSize - kPacketHeaderSize.
Definition packet_bytes (p : packet) : bytes :=
  header_bytes (pk_type p) (pk_reserved p) (zlen (pk_body p)) ++ pk_body p.

Section Facts.
Context {Q : Type} `{!ByteQueue Q} {U : Type} (malloc : Z -> option bytes).
Context (deliver : bytes -> U -> Z * U) (malloc_ok : malloc_total malloc).

(** One call on a buffer that starts with a complete packet. *)
Lemma tt_receive_packet q p c u :
  packet_ok p -> q_rep q (packet_bytes p ++ c) -> zlen c <= io_limit ->
  exists q', q_rep q' c /\
    OnDataReceived malloc deliver q u =
      let '(ret, u) := deliver (packet_bytes p) u in Ret (ret, q', u).
Proof using malloc_ok.
  destruct p as [mt rsv body]. unfold packet_ok, packet_bytes, io_limit. cbn [pk_type pk_reserved pk_body].
  intros (Hm & Hr & Hb) R Hc. pose proof (zlen_nonneg body). pose proof (zlen_nonneg c).
  remember (header_bytes mt rsv (zlen body)) as hdr eqn:Ehdr.
  assert (zlen hdr = 12) as Hh by (rewrite Ehdr; apply tt_zlen_header).
  unfold kMaxPacketSize, kPacketHeaderSize in Hb.
  unfold OnDataReceived, kPacketHeaderSize. rewrite (q_readable_rep q _ R), !zlen_app, Hh.
  rewrite (proj2 (Z.leb_le 12 _)) by lia.
  rewrite (q_peek_rep q _ 0 12 R) by (rewrite ?zlen_app; lia). obind.
  rewrite <- app_assoc in R. rewrite <- app_assoc, (zslice_middle [] hdr (body ++ c)) by done.
  pose proof (tt_parse_header mt rsv (zlen body) [] Hm Hr) as HP. rewrite app_nil_r in HP.
  rewrite <- Ehdr in HP. rewrite HP by (unfold kMaxPacketSize; lia). clear HP.
  rewrite (proj2 (Z.leb_le _ _)) by (unfold kMaxPacketSize, kPacketHeaderSize; lia).
  unfold TeamTalkPacket_new, kPacketHeaderSize.
  destruct (Z.eqb_spec (zlen body) 0) as [Hz|Hz].
  - change (1 =? 1) with true. cbn iota.
    assert (body = []) as -> by (destruct body; [done|rewrite zlen_cons in Hz; pose proof (zlen_nonneg body); lia]).
    change (u32 (0 + 12)) with 12.
    destruct (packet_fill malloc hdr [] 12 12 malloc_ok) as (p & Ep & Ew); [by rewrite ?Hh..|lia|].
    change (zlen []) with 0 in Ehdr. rewrite <- Ehdr, Ep. obind.
    assert (p = hdr ++ []) as ->.
    { unfold mem_write, guard_or in Ew. destruct (in_block p 12 _); [|done].
      injection Ew as <-. unfold zsplice. cbn [length app]. rewrite Nat.add_0_r. by rewrite take_drop. }
    destruct (q_retrieve_rep q _ 12 R) as (q' & Eq & Rq); [rewrite !zlen_app; lia|].
    exists q'. rewrite drop_app_length' in Rq by (unfold zlen in Hh; lia). split; [done|].
    destruct (deliver _ u) as [ret u']. by rewrite Eq.
  - change (0 =? 1) with false. cbn iota.
    rewrite (uwrap_small 32), swrap_small, uwrap_small by lia.
    rewrite (proj2 (Z.leb_le _ _)) by lia.
    destruct (packet_fill malloc hdr body (zlen body + 12) 12 malloc_ok) as (p & Ep & Ew); [by rewrite ?Hh|lia..|].
    rewrite <- Ehdr, Ep. obind.
    rewrite (q_peek_rep q _ 12 (zlen body) R) by (rewrite ?zlen_app; lia). obind.
    rewrite zslice_middle by lia. rewrite Ew. obind.
    destruct (q_retrieve_rep q _ (zlen body + 12) R) as (q' & Eq & Rq); [rewrite !zlen_app; lia|].
    exists q'. rewrite app_assoc, drop_app_length' in Rq by (rewrite length_app; unfold zlen in *; lia).
    split; [done|]. destruct (deliver _ u) as [ret u']. by rewrite Eq.
Qed.

(** One call on a proper prefix of a packet. *)
Lemma tt_receive_partial q p s t u :
  packet_ok p -> q_rep q t -> packet_bytes p = t ++ s -> s <> [] ->
  OnDataReceived malloc deliver q u = Ret (0, q, u).
Proof using.
  destruct p as [mt rsv body]. unfold packet_ok, packet_bytes. cbn [pk_type pk_reserved pk_body].
  intros (Hm & Hr & Hb) R E Hs. unfold kMaxPacketSize, kPacketHeaderSize in Hb.
  assert (zlen t < 12 + zlen body) as Hlt.
  { apply (f_equal zlen) in E. rewrite !zlen_app, tt_zlen_header in E. unfold kPacketHeaderSize in E.
    destruct s; [done|]. rewrite zlen_cons in E. pose proof (zlen_nonneg s). lia. }
  unfold OnDataReceived, kPacketHeaderSize. rewrite (q_readable_rep q t R).
  destruct (Z.leb_spec 12 (zlen t)) as [Hle|]; [|done].
  rewrite (q_peek_rep q t 0 12 R) by lia. obind.
  assert (zslice 0 12 t = header_bytes mt rsv (zlen body)) as ->.
  { apply (f_equal (take 12)) in E. unfold zlen in Hle. rewrite (take_app_le t) in E by lia.
    rewrite take_app_length' in E by done. unfold zslice. by rewrite E. }
  pose proof (tt_parse_header mt rsv (zlen body) [] Hm Hr) as HP. rewrite app_nil_r in HP.
  pose proof (zlen_nonneg body). rewrite HP by (unfold kMaxPacketSize; lia). clear HP.
  rewrite (proj2 (Z.leb_le _ _)) by (unfold kMaxPacketSize, kPacketHeaderSize; lia).
  rewrite (proj2 (Z.eqb_neq (zlen body) 0)) by lia. simpl.
  rewrite (uwrap_small 32), swrap_small, uwrap_small by lia.
  by rewrite (proj2 (Z.leb_gt _ _)) by lia.
Qed.
End Facts.

(** What the accessors give of a packet. *)
Lemma tt_packet_fields p : packet_ok p ->
  GetMessageType (packet_bytes p) = pk_type p /\ GetReserved (packet_bytes p) = pk_reserved p /\
  GetVersion (packet_bytes p) = kPacketVersion /\
  GetBodyLength (packet_bytes p) = zlen (pk_body p) /\ GetBodyData (packet_bytes p) = pk_body p.
Proof.
  intros Hp.
  destruct p as [mt rsv body], Hp as (Hm & Hr & Hb); unfold packet_bytes; cbn [pk_type pk_reserved pk_body] in *.
  unfold kMaxPacketSize, kPacketHeaderSize in Hb. pose proof (zlen_nonneg body).
  unfold header_bytes. rewrite <- !app_assoc. split_and!.
  - unfold GetMessageType. rewrite head_be32_put by (done || lia). done.
  - unfold GetReserved. rewrite (app_assoc (put_be32 _)), (app_assoc (_ ++ _)).
    rewrite head_be16_put by (done || lia). done.
  - unfold GetVersion. rewrite (app_assoc (put_be32 _)). rewrite head_be16_put by (done || lia). done.
  - unfold GetBodyLength, GetRawdataLength, kPacketHeaderSize.
    rewrite (uwrap_small 32 (zlen body + 12)) by lia.
    rewrite head_be32_put0 by lia.
    rewrite uwrap_small; lia.
  - done.
Qed.

(** One call of the TeamTalk codec handles one packet.  If the buffer starts
    with a complete packet, the call hands exactly that packet, header and body
    with every accessor's field, to the delegate, returns the delegate's result
    and leaves the bytes behind it in the buffer, another complete packet
    included; on a proper prefix of a packet it changes nothing and returns 0. *)
Theorem tt_one_packet_per_call {Q} `{!ByteQueue Q} {U} malloc (deliver : bytes -> U -> Z * U) q p c u :
  malloc_total malloc -> packet_ok p ->
  (q_rep q (packet_bytes p ++ c) -> zlen c <= io_limit ->
     exists q', q_rep q' c /\
       OnDataReceived malloc deliver q u =
         (let '(ret, u) := deliver (packet_bytes p) u in Ret (ret, q', u)) /\
       GetMessageType (packet_bytes p) = pk_type p /\ GetReserved (packet_bytes p) = pk_reserved p /\
       GetVersion (packet_bytes p) = kPacketVersion /\
       GetBodyLength (packet_bytes p) = zlen (pk_body p) /\ GetBodyData (packet_bytes p) = pk_body p) /\
  (forall s t, q_rep q t -> packet_bytes p = t ++ s -> s <> [] ->
     OnDataReceived malloc deliver q u = Ret (0, q, u)).
Proof.
  intros HM Hp. split; [intros R Hc|intros s t; by apply tt_receive_partial].
  destruct (tt_receive_packet malloc deliver HM q p c u Hp R Hc) as (q' & R' & E).
  exists q'. split; [done|]. split; [done|]. by apply tt_packet_fields.
Qed.
End TeamTalk.

(** * ZNet *)
Module ZNet.
Definition kMaxPacketSize : Z := 2 * 1024 * 1024.
Definition kPacketHeaderSize : Z := 8.
Definition kPacketVersion : Z := 0.

Definition header_bytes (message_type body_len : Z) : bytes :=
  put_be16 kPacketVersion ++ put_be16 message_type ++ put_be32 body_len.

(** [ZNetPacketHeader::GeneratePacketHeader] *)
Definition GeneratePacketHeader (message_type body_len : Z) : Z * option bytes :=
  if kMaxPacketSize <? body_len then (-1, None)
  else (if 0 <? body_len then 0 else 1, Some (header_bytes message_type body_len)).

(** [ZNetPacketHeader::ParsePacketHeader] *)
Definition ParsePacketHeader (data : bytes) : Z * Z * Z :=
  let message_type := head_be16 data 2 in
  let body_len := head_be32 data 4 in
  (if kMaxPacketSize <? body_len then -1 else if body_len =? 0 then 1 else 0, message_type, body_len).

(** [Packet::Packet(uint16, uint32)] and the member [Packet::ParsePacketHeader],
    which does test the version. *)
Definition Packet_new (malloc : Z -> option bytes) (cmd_type data_len : Z) : outcome bytes :=
  packet_new malloc (u32 (data_len + kPacketHeaderSize)) (header_bytes cmd_type data_len).
Definition Packet_ParsePacketHeader (head_ : bytes) : Z :=
  let version := head_be16 head_ 0 in
  let bodyLen := head_be32 head_ 4 in
  if negb (version =? kPacketVersion) || (kMaxPacketSize <? bodyLen) then -1
  else if bodyLen =? 0 then 1 else 0.

Definition GetVersion (p : bytes) : Z := head_be16 p 0.
Definition GetCmdType (p : bytes) : Z := head_be16 p 2.
Definition GetBodyLength (p : bytes) : Z := head_be32 p 4.
Definition GetRawdataLength (p : bytes) : Z := u32 (GetBodyLength p + kPacketHeaderSize).

(** [CreatePacketData] *)
Definition CreatePacketData (malloc : Z -> option bytes) (cmd_type : Z) (data : bytes) : outcome bytes :=
  p ← Packet_new malloc cmd_type (u32 (zlen data));
  mem_write p kPacketHeaderSize data.

Section Codec.
Context {Q : Type} `{!ByteQueue Q} {U : Type} (malloc : Z -> option bytes).
Context (deliver : bytes -> U -> Z * U).

(** [ZNetCodec::OnDataReceived], a conditional for the same reason. *)
Definition OnDataReceived (data : Q) (u : U) : outcome (Z * Q * U) :=
  if kPacketHeaderSize <=? q_readable data then
    head ← q_peek data 0 kPacketHeaderSize;
    let '(ret, message_type, body_len) := ParsePacketHeader head in
    if ret =? -1 then Ret (ret, data, u)
    else if ret =? 1 then
      p ← Packet_new malloc message_type 0;
      let '(ret, u) := deliver p u in
      data ← q_retrieve data kPacketHeaderSize;
      Ret (ret, data, u)
    else if u64 (s32 (u32 (body_len + kPacketHeaderSize))) <=? q_readable data then
      p ← Packet_new malloc message_type body_len;
      body ← q_peek data kPacketHeaderSize body_len;
      p ← mem_write p kPacketHeaderSize body;
      let '(ret, u) := deliver p u in
      data ← q_retrieve data (u32 (body_len + kPacketHeaderSize));
      Ret (ret, data, u)
    else Ret (0, data, u)
  else Ret (0, data, u).
End Codec.

(** ** Facts *)
Lemma znet_zlen_header mt n : zlen (header_bytes mt n) = kPacketHeaderSize.
Proof. done. Qed.

Lemma header_fields mt n rest :
  0 <= mt < 2 ^ 16 -> 0 <= n < 2 ^ 32 ->
  head_be16 (header_bytes mt n ++ rest) 0 = kPacketVersion /\
  head_be16 (header_bytes mt n ++ rest) 2 = mt /\ head_be32 (header_bytes mt n ++ rest) 4 = n.
Proof.
  intros Hm Hn. unfold header_bytes. rewrite <- !app_assoc. split_and!.
  - by rewrite head_be16_put0.
  - by rewrite head_be16_put.
  - rewrite (app_assoc (put_be16 _)). by rewrite head_be32_put.
Qed.

Lemma znet_parse_header mt n rest :
  0 <= mt < 2 ^ 16 -> 0 <= n <= kMaxPacketSize ->
  ParsePacketHeader (header_bytes mt n ++ rest) = (if n =? 0 then 1 else 0, mt, n).
Proof.
  unfold kMaxPacketSize. intros Hm Hn.
  destruct (header_fields mt n rest) as (_ & E1 & E2); [done|lia|].
  unfold ParsePacketHeader. rewrite E1, E2, (proj2 (Z.ltb_ge kMaxPacketSize _)); [done|].
  unfold kMaxPacketSize. lia.
Qed.

(** The ZNet header round trip.  [ParsePacketHeader] gives back message type
    and body length of every header [GeneratePacketHeader] produces, with the
    same result code, whatever follows; and the codec's parser does not look at
    the version field, which the member [Packet::ParsePacketHeader] checks. *)
Theorem znet_header_roundtrip mt n rest :
  0 <= mt < 2 ^ 16 -> 0 <= n <= kMaxPacketSize ->
  exists r hdr, GeneratePacketHeader mt n = (r, Some hdr) /\ zlen hdr = kPacketHeaderSize /\
    ParsePacketHeader (hdr ++ rest) = (r, mt, n) /\ Packet_ParsePacketHeader (hdr ++ rest) = r /\
    forall v0 v1, ParsePacketHeader (v0 :: v1 :: drop 2 hdr ++ rest) = (r, mt, n).
Proof.
  intros Hm Hn. exists (if n =? 0 then 1 else 0), (header_bytes mt n).
  pose proof (znet_parse_header mt n rest Hm Hn) as HP. split_and!; [|done|done| |done].
  - unfold GeneratePacketHeader. rewrite (proj2 (Z.ltb_ge _ _)) by lia.
    destruct (Z.ltb_spec 0 n), (Z.eqb_spec n 0); by try lia.
  - unfold kMaxPacketSize in Hn.
    destruct (header_fields mt n rest) as (E0 & _ & E2); [done|lia|].
    unfold Packet_ParsePacketHeader. rewrite E0, E2, (proj2 (Z.ltb_ge _ _)); [done|].
    unfold kMaxPacketSize. lia.
Qed.

Record packet := MkPacket { pk_type : Z; pk_body : bytes }.
Definition packet_ok (p : packet) : Prop :=
  0 <= pk_type p < 2 ^ 16 /\ zlen (pk_body p) <= kMaxPacketSize.
Definition packet_bytes (p : packet) : bytes :=
  header_bytes (pk_type p) (zlen (pk_body p)) ++ pk_body p.

Section Facts.
Context {Q : Type} `{!ByteQueue Q} {U : Type} (malloc : Z -> option bytes).
Context (deliver : bytes -> U -> Z * U) (malloc_ok : malloc_total malloc).

Lemma CreatePacketData_bytes p :
  packet_ok p -> CreatePacketData malloc (pk_type p) (pk_body p) = Ret (packet_bytes p).
Proof using malloc_ok.
  destruct p as [mt body]. unfold packet_ok, packet_bytes, kMaxPacketSize, CreatePacketData, Packet_new.
  cbn [pk_type pk_body]. intros [Hm Hb]. pose proof (zlen_nonneg body). unfold kPacketHeaderSize.
  rewrite (uwrap_small 32 (zlen body)), uwrap_small by lia.
  destruct (packet_fill malloc (header_bytes mt (zlen body)) body (zlen body + 8) 8 malloc_ok)
    as (p & -> & E); [done|rewrite znet_zlen_header; unfold kPacketHeaderSize; lia|lia|done].
Qed.

(** One call on a buffer that starts with a complete packet. *)
Lemma znet_receive_packet q p c u :
  packet_ok p -> q_rep q (packet_bytes p ++ c) -> zlen c <= io_limit ->
  exists q', q_rep q' c /\
    OnDataReceived malloc deliver q u =
      let '(ret, u) := deliver (packet_bytes p) u in Ret (ret, q', u).
Proof using malloc_ok.
  intros Hp R Hc. pose proof (CreatePacketData_bytes p Hp) as HC. revert HC R Hp Hc.
  destruct p as [mt body]. unfold packet_ok, packet_bytes, CreatePacketData, io_limit. cbn [pk_type pk_body].
  intros HC R (Hm & Hb) Hc. pose proof (zlen_nonneg body). pose proof (zlen_nonneg c).
  remember (header_bytes mt (zlen body)) as hdr eqn:Ehdr.
  assert (zlen hdr = 8) as Hh by (rewrite Ehdr; apply znet_zlen_header).
  pose proof (znet_parse_header mt (zlen body) [] Hm) as HP. rewrite app_nil_r in HP.
  unfold kMaxPacketSize in Hb. unfold OnDataReceived, kPacketHeaderSize in *.
  rewrite (q_readable_rep q _ R), !zlen_app, Hh, (proj2 (Z.leb_le 8 _)) by lia.
  rewrite (q_peek_rep q _ 0 8 R) by (rewrite ?zlen_app; lia). obind.
  rewrite <- app_assoc in R. rewrite <- app_assoc, (zslice_middle [] hdr (body ++ c)) by done.
  rewrite <- Ehdr in HP. rewrite HP by (unfold kMaxPacketSize; lia). clear HP.
  rewrite (uwrap_small 32 (zlen body)) in HC by lia.
  destruct (Packet_new malloc mt (zlen body)) as [p|] eqn:Ep; [|done]. cbn [mbind outcome_bind] in HC.
  destruct (Z.eqb_spec (zlen body) 0) as [Hz|Hz].
  - change (1 =? 1) with true. change (1 =? -1) with false. cbn iota.
    assert (body = []) as -> by (destruct body; [done|rewrite zlen_cons in Hz; pose proof (zlen_nonneg body); lia]).
    change (zlen []) with 0 in Ep. rewrite Ep. obind.
    assert (p = hdr ++ []) as ->.
    { unfold mem_write, guard_or in HC. destruct (in_block p 8 _); [|done].
      injection HC as <-. unfold zsplice. cbn [length app]. rewrite Nat.add_0_r. by rewrite take_drop. }
    destruct (q_retrieve_rep q _ 8 R) as (q' & Eq & Rq); [rewrite !zlen_app; lia|].
    exists q'. rewrite drop_app_length' in Rq by (unfold zlen in Hh; lia). split; [done|].
    destruct (deliver _ u) as [ret u']. by rewrite Eq.
  - change (0 =? 1) with false. change (0 =? -1) with false. cbn iota.
    rewrite (uwrap_small 32), swrap_small, uwrap_small by lia.
    rewrite (proj2 (Z.leb_le _ _)) by lia. obind.
    rewrite (q_peek_rep q _ 8 (zlen body) R) by (rewrite ?zlen_app; lia). obind.
    rewrite zslice_middle by lia. rewrite HC. obind.
    destruct (q_retrieve_rep q _ (zlen body + 8) R) as (q' & Eq & Rq); [rewrite !zlen_app; lia|].
    exists q'. rewrite app_assoc, drop_app_length' in Rq by (rewrite length_app; unfold zlen in *; lia).
    split; [done|]. destruct (deliver _ u) as [ret u']. by rewrite Eq.
Qed.
End Facts.

(** ZNet packets travel whole.  What [CreatePacketData] builds from a type
    and a body of at most 2 MiB, written to a connection's buffer, is handed to
    the delegate by the next call of the codec as the same block of bytes and
    consumed from the buffer; what lies behind it stays for a later call. *)
Theorem znet_packet_roundtrip {Q} `{!ByteQueue Q} {U} malloc (deliver : bytes -> U -> Z * U) q mt body c u :
  malloc_total malloc -> 0 <= mt < 2 ^ 16 -> zlen body <= kMaxPacketSize -> zlen c <= io_limit ->
  exists raw, CreatePacketData malloc mt body = Ret raw /\
    GetVersion raw = kPacketVersion /\ GetCmdType raw = mt /\ GetBodyLength raw = zlen body /\
    GetRawdataLength raw = zlen raw /\ drop 8 raw = body /\
    (q_rep q (raw ++ c) ->
     exists q', q_rep q' c /\
       OnDataReceived malloc deliver q u = let '(ret, u) := deliver raw u in Ret (ret, q', u)).
Proof.
  intros HM Hm Hb Hc. set (p := MkPacket mt body). assert (packet_ok p) as Hp by done.
  exists (packet_bytes p). split; [by apply (CreatePacketData_bytes malloc HM p)|].
  pose proof (zlen_nonneg body). unfold kMaxPacketSize in Hb.
  destruct (header_fields mt (zlen body) body) as (E0 & E1 & E2); [done|lia|].
  change (header_bytes mt (zlen body) ++ body) with (packet_bytes p) in *.
  unfold GetVersion, GetCmdType, GetRawdataLength, GetBodyLength. rewrite E2. split_and!; try done.
  - unfold packet_bytes. rewrite zlen_app, znet_zlen_header. unfold kPacketHeaderSize. cbn [pk_body p].
    rewrite uwrap_small; lia.
  - intros R. by apply znet_receive_packet.
Qed.
End ZNet.


(** * Witnesses

    The delegate appends what it gets to a list and answers 0. *)
Definition collect (m : bytes) (u : list bytes) : Z * list bytes := (0, u ++ [m]).

Lemma fragmentation_independent_witness :
  exists b, @LengthHeader.feed _ (io_queue true true) _ collect 4
              [[0; 0]; [0; 2; 65]; [66; 0; 0; 0; 0]] (io_new 64) []
            = Ret (0, b, [[65; 66]; []]) /\ ReadableBytes b = 0.
Proof.
  apply (LengthHeader.fragmentation_independent true true collect
           [[0; 0]; [0; 2; 65]; [66; 0; 0; 0; 0]] [[65; 66]; []] 64 []).
  - done.
  - done.
  - by repeat constructor.
  - done.
  - by vm_compute.
Defined.

Lemma oversize_rejected_witness :
  @LengthHeader.OnDataReceived _ (io_queue true true) _ collect 4 (io_with [0; 1; 0; 1; 9]) []
    = Ret (-1, io_with [0; 1; 0; 1; 9], []).
Proof.
  apply (@LengthHeader.oversize_rejected _ (io_queue true true) _ collect (io_with [0; 1; 0; 1; 9]) 65537 [9] []).
  - exists 8. by apply io_with_rep.
  - done.
Defined.

Definition full_malloc (n : Z) : option bytes := Some (replicate (Z.to_nat n) 170).

Lemma full_malloc_total : malloc_total full_malloc.
Proof. intros n Hn. eexists. split; [done|]. unfold zlen. rewrite length_replicate. lia. Qed.

(** One of the twelve sizes that cannot come back. *)
Lemma tt_header_roundtrip_witness :
  exists hdr, TeamTalk.GeneratePacketHeader 5 6 TeamTalk.kMaxPacketSize = (0, Some hdr) /\
    zlen hdr = TeamTalk.kPacketHeaderSize /\ TeamTalk.ParsePacketHeader (hdr ++ [1]) = (-1, 5, 6, None).
Proof. by apply (TeamTalk.tt_header_roundtrip 5 6 TeamTalk.kMaxPacketSize [1]). Defined.

(** Two packets in one buffer. *)
Lemma tt_one_packet_per_call_witness :
  let p := TeamTalk.Packet 5 6 [65] in
  let q := io_with (TeamTalk.packet_bytes p ++ TeamTalk.packet_bytes p) in
  exists q', (exists g, io_rep q' (TeamTalk.packet_bytes p) g) /\
    @TeamTalk.OnDataReceived _ (io_queue true true) _ full_malloc collect q []
      = Ret (0, q', [TeamTalk.packet_bytes p]).
Proof.
  intros p q.
  destruct (@TeamTalk.tt_one_packet_per_call _ (io_queue true true) _ full_malloc collect q p
              (TeamTalk.packet_bytes p) [] full_malloc_total) as [H _]; [by vm_compute|].
  destruct H as (q' & R & E & _); [exists 8; by apply io_with_rep|by vm_compute|].
  by exists q'.
Defined.

Lemma znet_header_roundtrip_witness :
  exists r hdr, ZNet.GeneratePacketHeader 5 9 = (r, Some hdr) /\ zlen hdr = ZNet.kPacketHeaderSize /\
    ZNet.ParsePacketHeader (hdr ++ [1]) = (r, 5, 9) /\ ZNet.Packet_ParsePacketHeader (hdr ++ [1]) = r /\
    forall v0 v1, ZNet.ParsePacketHeader (v0 :: v1 :: drop 2 hdr ++ [1]) = (r, 5, 9).
Proof. by apply (ZNet.znet_header_roundtrip 5 9 [1]). Defined.

Lemma znet_packet_roundtrip_witness :
  exists raw, ZNet.CreatePacketData full_malloc 5 [65; 66] = Ret raw /\ drop 8 raw = [65; 66].
Proof.
  destruct (@ZNet.znet_packet_roundtrip _ (io_queue true true) _ full_malloc collect (io_with []) 5 [65; 66] [] []
              full_malloc_total) as (raw & E & _ & _ & _ & _ & D & _); [by vm_compute..|].
  by exists raw.
Defined.
