(* ===== verification/IOHandler.v ===== *)
(** A TCP connection, [zutils/net/engine/io_handler.cc]: the read path, the write
    path with its buffer and wait states, and closing.  The kernel's side of the
    socket is the result of each [send] and [readv]; what [send] accepted is kept
    as the ghost field [wire]. *)
From Stdlib Require Import ZArith Lia Bool.
From stdpp Require Import base list numbers.
From S2P Require Import Prelude SysByteorder IOBuffer Codecs.

Open Scope Z_scope.

(** [enum WaitState] of [socket_ops.h] *)
Inductive wait_state := NOT_WAITING | WAITING_ACCEPT | WAITING_READ | WAITING_WRITE | WAITING_CLOSE.

#[export] Instance wait_state_eq_dec : EqDecision wait_state.
Proof. solve_decision. Defined.

(** [class IOHandler].  [refs] counts the references the handler holds on itself:
    [Create] takes one, [Close] drops one. *)
Record io_handler := IOHandler {
  socket_ : Z;
  read_wait_state_ : wait_state;
  write_wait_state_ : wait_state;
  read_buf_ : io_buffer;
  write_buf_ : io_buffer;
  watch_read : bool;
  watch_write : bool;
  refs : Z;
  wire : bytes
}.

Definition kInvalidSocket : Z := -1.

(** The constructor *)
Definition handler_new (socket : Z) : io_handler :=
  IOHandler socket NOT_WAITING NOT_WAITING (io_new 64) (io_new 64) false false 0 [].

(** [IOHandler::IsWriting] *)
Definition IsWriting (h : io_handler) : bool := bool_decide (write_wait_state_ h = WAITING_WRITE).

Definition set_write (h : io_handler) (st : wait_state) (watch : bool) (b : io_buffer) (w : bytes) : io_handler :=
  IOHandler (socket_ h) (read_wait_state_ h) st (read_buf_ h) b (watch_read h) watch (refs h) w.
Definition set_read_buf (h : io_handler) (b : io_buffer) : io_handler :=
  IOHandler (socket_ h) (read_wait_state_ h) (write_wait_state_ h) b (write_buf_ h) (watch_read h)
    (watch_write h) (refs h) (wire h).

(** [IOHandler::CloseSocket] and what [Close] does after telling its delegate. *)
Definition CloseSocket (h : io_handler) (s : Z) : io_handler :=
  if negb (s =? 0) && negb (s =? kInvalidSocket) then
    IOHandler (socket_ h) (read_wait_state_ h) (write_wait_state_ h) (read_buf_ h) (write_buf_ h)
      false false (refs h) (wire h)
  else h.
Definition Close (h : io_handler) : io_handler :=
  let h := CloseSocket h (socket_ h) in
  IOHandler kInvalidSocket (read_wait_state_ h) (write_wait_state_ h) (read_buf_ h) (write_buf_ h)
    (watch_read h) (watch_write h) (refs h - 1) (wire h).

(** [IOHandler::OnCreated], after [Create] took the reference: the delegate's
    answer to [OnNewConnection] decides whether the connection stays. *)
Definition OnCreated (h : io_handler) (on_new : Z) : io_handler :=
  let h := IOHandler (socket_ h) WAITING_READ (write_wait_state_ h) (read_buf_ h) (write_buf_ h)
             true (watch_write h) (refs h) (wire h) in
  if negb (on_new =? 0) then Close h else h.
Definition Create (h : io_handler) (on_new : Z) : io_handler :=
  OnCreated (IOHandler (socket_ h) (read_wait_state_ h) (write_wait_state_ h) (read_buf_ h) (write_buf_ h)
               (watch_read h) (watch_write h) (refs h + 1) (wire h)) on_new.

Section Handler.
Context (dcheck_on : bool).

(** What [send] took of [d] when it returned [r]. *)
Definition taken (r : Z) (d : bytes) : bytes := take (Z.to_nat r) d.

(** [IOHandler::SendInternal(const void*, uint32)].  [r] is the result of [send],
    assigned to a [uint32]; [wouldblock] says whether [errno] is [EWOULDBLOCK]
    or [EAGAIN]. *)
Definition SendInternal (h : io_handler) (r : Z) (wouldblock : bool) (data : bytes) (data_len : Z)
    : outcome io_handler :=
  let direct := negb (IsWriting h) && (ReadableBytes (write_buf_ h) =? 0) in
  let '(nwrote, remaining, fault_error) :=
    if direct then
      let nwrote := u32 r in
      if 0 <=? nwrote then (nwrote, u32 (data_len - nwrote), false)
      else (0, data_len, negb wouldblock)
    else (0, data_len, false) in
  let h := if direct then set_write h (write_wait_state_ h) (watch_write h) (write_buf_ h)
                            (wire h ++ taken r (take (Z.to_nat data_len) data))
           else h in
  DCHECK dcheck_on (remaining <=? data_len) (
    if negb fault_error && (0 <? remaining) then
      d ← mem_read data nwrote remaining;
      b ← Write dcheck_on (write_buf_ h) d;
      Ret (if IsWriting h then set_write h (write_wait_state_ h) (watch_write h) b (wire h)
           else set_write h WAITING_WRITE true b (wire h))
    else Ret h).

(** [SendInternal2] and the [StringPiece] overload: the length is narrowed. *)
Definition SendData (h : io_handler) (r : Z) (wouldblock : bool) (data : bytes) : outcome io_handler :=
  SendInternal h r wouldblock data (u32 (zlen data)).

(** [IOHandler::OnWrite]: the result of [send] is assigned to an [int]. *)
Definition OnWrite (h : io_handler) (r : Z) : outcome io_handler :=
  if IsWriting h then
    d ← PeekAt (write_buf_ h) 0 (ReadableBytes (write_buf_ h));
    let n := s32 r in
    let w := wire h ++ taken r d in
    if 0 <? n then
      b ← Retrieve dcheck_on (write_buf_ h) n;
      Ret (if ReadableBytes b =? 0 then set_write h NOT_WAITING false b w
           else set_write h (write_wait_state_ h) (watch_write h) b w)
    else Ret (set_write h (write_wait_state_ h) (watch_write h) (write_buf_ h) w)
  else Ret h.

(** [IOHandler::OnFileCanWriteWithoutBlocking] *)
Definition OnFileCanWrite (h : io_handler) (r : Z) : outcome io_handler :=
  if bool_decide (write_wait_state_ h = WAITING_WRITE) then OnWrite h r else Ret h.

Section Reading.
(** The delegate's [OnDataReceived], a codec for instance, and its state. *)
Context {U : Type} (OnDataReceived : io_buffer -> U -> outcome (Z * io_buffer * U)).

(** [IOHandler::Read] *)
Definition Read (h : io_handler) (readv : Z -> option bytes) (u : U) : outcome (io_handler * U) :=
  '(n, b) ← ReadFd dcheck_on (read_buf_ h) readv;
  let h := set_read_buf h b in
  if 0 <? n then
    '(ret, b, u) ← OnDataReceived (read_buf_ h) u;
    let h := set_read_buf h b in
    Ret (if negb (ret =? 0) then Close h else h, u)
  else if n =? 0 then Ret (Close h, u)
  else Ret (Close h, u).

(** [IOHandler::OnFileCanReadWithoutBlocking] *)
Definition OnFileCanRead (h : io_handler) (readv : Z -> option bytes) (u : U) : outcome (io_handler * U) :=
  if bool_decide (read_wait_state_ h = WAITING_READ) then Read h readv u else Ret (h, u).
End Reading.

(** * The write path as a transition system

    Two events move it: the application submits data, or the event loop reports
    the socket writable.  Each comes with the result of the [send] it makes. *)
Inductive event :=
  | Submit (data : bytes) (r : Z) (wouldblock : bool)
  | Writable (r : Z).

Definition handle (h : io_handler) (e : event) : outcome io_handler :=
  match e with
  | Submit data r wb => SendData h r wb data
  | Writable r => OnFileCanWrite h r
  end.

Definition submitted (e : event) : bytes := match e with Submit d _ _ => d | Writable _ => [] end.

(** [send] on a socket takes a prefix of what it is given, at most
    [0x7ffff000] bytes of it, or fails. *)
Definition max_send : Z := 0x7ffff000.
Definition send_accepts (avail r : Z) : Prop := 0 <= r <= Z.min avail max_send.
Definition send_result (avail r : Z) : Prop := r = -1 \/ send_accepts avail r.

(** An event that may happen in [h].  A [send] that [SendInternal] makes does not
    fail; one that [OnWrite] makes may. *)
Definition may_happen (h : io_handler) (e : event) : Prop :=
  match e with
  | Submit d r _ => zlen d < 2 ^ 32 /\ send_accepts (zlen d) r
  | Writable r => send_result (ReadableBytes (write_buf_ h)) r
  end.

Inductive reachable (s : Z) : io_handler -> bytes -> Prop :=
  | reach_new : reachable s (handler_new s) []
  | reach_step h all e h' :
      reachable s h all -> may_happen h e -> handle h e = Ret h' ->
      reachable s h' (all ++ submitted e).
End Handler.

(** The invariant: what was accepted and what is buffered make up what was
    submitted, and the handler waits for the socket exactly when something is
    buffered. *)
Record write_inv (h : io_handler) (all : bytes) : Prop := {
  wi_split : exists c g, io_rep (write_buf_ h) c g /\ wire h ++ c = all /\
    (c <> [] <-> write_wait_state_ h = WAITING_WRITE) /\
    watch_write h = bool_decide (write_wait_state_ h = WAITING_WRITE)
}.

Section Facts.
Context (dcheck_on : bool).

Lemma zlen_nil_iff {A} (c : list A) : zlen c = 0 <-> c = [].
Proof.
  split; [|by intros ->]. destruct c; [done|]. rewrite zlen_cons. pose proof (zlen_nonneg c). lia.
Qed.

Lemma submit_step h all d r wb :
  write_inv h all -> zlen d < 2 ^ 32 -> send_accepts (zlen d) r -> zlen all + zlen d <= io_limit ->
  exists h', SendData dcheck_on h r wb d = Ret h' /\ write_inv h' (all ++ d).
Proof.
  intros [(c & g & R & <- & Hw & Hwt)] Hd Hr Hl. unfold send_accepts in Hr. rewrite zlen_app in Hl.
  pose proof (zlen_nonneg d). pose proof (zlen_nonneg (wire h)).
  unfold SendData, SendInternal. rewrite (uwrap_small 32 (zlen d)) by lia.
  destruct (rep_indices _ _ _ R) as (_ & _ & _ & _ & Hread & _). rewrite Hread. unfold IsWriting.
  destruct (decide (c = [])) as [->|Hne].
  - assert (write_wait_state_ h <> WAITING_WRITE) as Hnw by (intros E; by apply Hw in E).
    rewrite bool_decide_eq_false_2 by done. rewrite (proj2 (Z.eqb_eq _ _)) by done. cbn [negb andb].
    rewrite (uwrap_small 32 r) by lia. rewrite (proj2 (Z.leb_le _ _)) by lia.
    rewrite uwrap_small by lia. unfold DCHECK, guard_or.
    rewrite (proj2 (Z.leb_le _ _)) by lia. rewrite orb_true_r.
    assert (taken r (take (Z.to_nat (zlen d)) d) = take (Z.to_nat r) d) as ->.
    { unfold taken, zlen in *. rewrite take_take. f_equal. lia. }
    cbn [negb andb write_buf_ write_wait_state_ set_write]. destruct (Z.ltb_spec 0 (zlen d - r)).
    + rewrite mem_read_ok by lia. obind.
      assert (zslice r (zlen d - r) d = drop (Z.to_nat r) d) as ->.
      { unfold zslice. rewrite take_ge; [done|]. unfold zlen. rewrite length_drop. lia. }
      destruct (Write_rep dcheck_on _ [] g (drop (Z.to_nat r) d) R) as (b & -> & Rb).
      { unfold zlen in *. rewrite length_drop. simpl. lia. }
      obind. rewrite bool_decide_eq_false_2 by done. eexists. split; [done|]. split. eexists _, _. split; [exact Rb|].
      cbn. split_and!; [|split; [done|]|done].
      * rewrite app_nil_r, <- app_assoc. by rewrite take_drop.
      * intros _ E. apply (f_equal length) in E. rewrite length_drop in E. unfold zlen in *. simpl in E. lia.
    + eexists. split; [done|]. split. eexists [], g. cbn. split_and!; [done| |done|done].
      rewrite !app_nil_r, take_ge; [done|]. unfold zlen in *. lia.
  - assert (write_wait_state_ h = WAITING_WRITE) as Hww by by apply Hw.
    rewrite bool_decide_eq_true_2 by done. cbn [negb andb].
    unfold DCHECK, guard_or. rewrite Z.leb_refl, orb_true_r.
    destruct (Z.ltb_spec 0 (zlen d)).
    + rewrite mem_read_ok by lia. obind.
      assert (zslice 0 (zlen d) d = d) as -> by (unfold zslice, zlen; rewrite Nat2Z.id; simpl; by rewrite take_ge).
      destruct (Write_rep dcheck_on _ c g d R) as (b & -> & Rb); [lia|]. obind.
      rewrite bool_decide_eq_true_2 by done.
      eexists. split; [done|]. split. exists (c ++ d), g. cbn. split_and!; [done| | |done].
      * by rewrite app_assoc.
      * split; [done|]. intros _ E. by apply app_nil in E as [? _].
    + assert (d = []) as -> by (apply zlen_nil_iff; lia). rewrite app_nil_r.
      eexists. split; [done|]. split. by exists c, g.
Qed.

Lemma writable_step h all r :
  write_inv h all -> zlen all <= io_limit -> send_result (ReadableBytes (write_buf_ h)) r ->
  exists h', OnFileCanWrite dcheck_on h r = Ret h' /\ write_inv h' all /\
    zlen (wire h') = zlen (wire h) + Z.max 0 r.
Proof.
  intros [(c & g & R & <- & Hw & Hwt)] Hl Hr. unfold OnFileCanWrite, OnWrite, IsWriting.
  pose proof (zlen_nonneg c).
  destruct (rep_indices _ _ _ R) as (_ & _ & _ & _ & Hread & _). rewrite Hread in *.
  destruct (decide (write_wait_state_ h = WAITING_WRITE)) as [Hww|Hww].
  2:{ assert (c = []) as -> by (destruct (decide (c = [])) as [|Hc]; [done|]; by apply Hw in Hc).
      rewrite bool_decide_eq_false_2 by done.
    eexists. split; [done|]. split; [split; by exists [], g|].
      unfold send_result, send_accepts in Hr. change (zlen (@nil Z)) with 0 in *. lia. }
  rewrite bool_decide_eq_true_2 by done.
  rewrite (PeekAt_rep _ _ _ 0 (zlen c) R) by lia. obind.
  assert (zslice 0 (zlen c) c = c) as -> by (unfold zslice, zlen; rewrite Nat2Z.id; simpl; by rewrite take_ge).
  unfold send_result, send_accepts, max_send in Hr.
  rewrite swrap_small by lia. destruct (Z.ltb_spec 0 r) as [Hpos|Hneg].
  - destruct Hr as [?|Hr]; [lia|].
    destruct (Retrieve_rep dcheck_on _ c g r R) as (b & -> & Rb); [lia|]. obind.
    destruct (rep_indices _ _ _ Rb) as (_ & _ & _ & _ & -> & _).
    assert (taken r c ++ drop (Z.to_nat r) c = c) as Htd by apply take_drop.
    assert (zlen (taken r c) = r) as Hlt.
    { unfold taken, zlen in *. rewrite length_take. lia. }
    destruct (Z.eqb_spec (zlen (drop (Z.to_nat r) c)) 0) as [Hz|Hz]; eexists; (split; [done|]); split.
    + split. apply zlen_nil_iff in Hz. rewrite Hz in *. eexists [], _. split; [exact Rb|]. cbn.
      rewrite <- app_assoc, Htd. done.
    + cbn. rewrite zlen_app, Hlt. lia.
    + split. eexists _, _. split; [exact Rb|]. cbn. split_and!.
      * by rewrite <- app_assoc, Htd.
      * split; [done|]. intros _ E. by rewrite E in Hz.
      * done.
    + cbn. rewrite zlen_app, Hlt. lia.
  - assert (taken r c = []) as -> by (unfold taken; by replace (Z.to_nat r) with 0%nat by lia).
    rewrite app_nil_r. eexists. split; [done|]. split; [split; by exists c, g|]. cbn. lia.
Qed.

Lemma write_inv_new s : write_inv (handler_new s) [].
Proof. split. exists [], kCheapPrepend. split; [by apply io_new_rep|]. by split_and!. Qed.

Lemma handle_step h all e :
  write_inv h all -> may_happen h e -> zlen all + zlen (submitted e) <= io_limit ->
  exists h', handle dcheck_on h e = Ret h' /\ write_inv h' (all ++ submitted e).
Proof.
  intros I He Hl. destruct e as [d r wb|r]; cbn [handle submitted may_happen] in *.
  - destruct He. by apply submit_step.
  - change (zlen (@nil Z)) with 0 in Hl.
    destruct (writable_step h all r I) as (h' & E & I' & _); [lia|done|].
    exists h'. by rewrite app_nil_r.
Qed.

Lemma reachable_inv s h all : reachable dcheck_on s h all -> zlen all <= io_limit -> write_inv h all.
Proof.
  induction 1 as [|h all e h' R IH He E]; intros Hl; [by apply write_inv_new|].
  rewrite zlen_app in Hl. pose proof (zlen_nonneg (submitted e)).
  destruct (handle_step h all e) as (h2 & E2 & I2); [by apply IH; lia|done..|].
  rewrite E in E2. by injection E2 as ->.
Qed.

Lemma write_inv_buffer h all :
  write_inv h all ->
  exists c, PeekAt (write_buf_ h) 0 (ReadableBytes (write_buf_ h)) = Ret c /\ wire h ++ c = all /\
    zlen c = ReadableBytes (write_buf_ h) /\
    IsWriting h = negb (bool_decide (c = [])) /\ watch_write h = IsWriting h.
Proof.
  intros [(c & g & R & E & Hw & Ht)]. exists c. unfold IsWriting.
  destruct (rep_indices _ _ _ R) as (_ & _ & _ & _ & Hread & _). rewrite Hread. pose proof (zlen_nonneg c).
  split_and!; [|done|done| |done].
  - rewrite (PeekAt_rep _ _ _ _ _ R) by lia. f_equal. unfold zslice, zlen. rewrite Nat2Z.id.
    by apply take_ge.
  - destruct (decide (c = [])) as [->|Hc].
    + rewrite (bool_decide_eq_true_2 ([] = [])) by done. apply bool_decide_eq_false_2. intros Hww.
      by apply Hw in Hww.
    + rewrite (bool_decide_eq_false_2 (c = [])) by done. apply bool_decide_eq_true_2. by apply Hw.
Qed.
End Facts.

(** C9: the write path is a reliable queue.  From a new handler, under any
    interleaving of submissions and writable notifications in which the [send]s
    that [SendInternal] itself makes do not fail: the bytes the socket accepted
    followed by the bytes still buffered are exactly the bytes submitted, in
    order; the handler is in state [WAITING_WRITE], with its write watcher on,
    exactly while something is buffered; and every further such event is
    handled without a fault. *)
Theorem write_path_fifo dcheck_on s h all :
  reachable dcheck_on s h all -> zlen all <= io_limit ->
  (exists c, PeekAt (write_buf_ h) 0 (ReadableBytes (write_buf_ h)) = Ret c /\ wire h ++ c = all /\
     IsWriting h = negb (bool_decide (c = [])) /\ watch_write h = IsWriting h) /\
  (forall e, may_happen h e -> zlen all + zlen (submitted e) <= io_limit ->
     exists h', handle dcheck_on h e = Ret h' /\ reachable dcheck_on s h' (all ++ submitted e)).
Proof.
  intros HR Hl. assert (write_inv h all) as I by by eapply reachable_inv. split.
  - destruct (write_inv_buffer h all I) as (c & ? & ? & _ & ? & ?). by exists c.
  - intros e He Hle. destruct (handle_step dcheck_on h all e I He Hle) as (h' & E & _).
    exists h'. split; [done|]. by eapply reach_step.
Qed.

(** The event loop while the socket stays writable: [accept] is what [send] takes
    of what it is offered. *)
Fixpoint flush (dcheck_on : bool) (accept : Z -> Z) (n : nat) (h : io_handler) : outcome io_handler :=
  match n with
  | O => Ret h
  | S n => h ← OnFileCanWrite dcheck_on h (accept (ReadableBytes (write_buf_ h))); flush dcheck_on accept n h
  end.

Lemma flush_drains dcheck_on accept all n : forall h,
  write_inv h all -> zlen all <= io_limit ->
  (forall a, 0 < a -> 0 < accept a /\ send_accepts a (accept a)) -> accept 0 = 0 ->
  zlen all - zlen (wire h) <= Z.of_nat n ->
  exists h', flush dcheck_on accept n h = Ret h' /\ write_inv h' all /\ zlen (wire h') = zlen all.
Proof.
  induction n as [|n IH]; intros h I Hl Ha H0 Hn; cbn [flush];
    destruct (write_inv_buffer h all I) as (c & _ & E & Ec & _); pose proof (zlen_nonneg c);
    assert (zlen (wire h) + zlen c = zlen all) as El by (by rewrite <- E, zlen_app).
  - exists h. split_and!; [done..|]. lia.
  - rewrite <- Ec. assert (send_result (ReadableBytes (write_buf_ h)) (accept (zlen c))) as Hr.
    { right. rewrite <- Ec. destruct (Z.eq_dec (zlen c) 0) as [Hz|Hz].
      - rewrite Hz, H0. unfold send_accepts, max_send. lia.
      - apply Ha. lia. }
    destruct (writable_step dcheck_on h all _ I Hl Hr) as (h1 & -> & I1 & Hp). obind.
    apply IH; try done. destruct (write_inv_buffer h1 all I1) as (c1 & _ & E1 & _).
    assert (zlen (wire h1) + zlen c1 = zlen all) as El1 by (by rewrite <- E1, zlen_app).
    pose proof (zlen_nonneg c1).
    destruct (Z.eq_dec (zlen c) 0) as [Hz|Hz]; [lia|].
    destruct (Ha (zlen c)); lia.
Qed.

(** Buffered data drains.  Whatever was submitted, if each time the socket
    is writable [send] takes at least one byte when offered some, then after at
    most as many notifications as there are buffered bytes everything submitted
    is on the wire, the buffer is empty and the write watcher is off. *)
Theorem write_path_drains dcheck_on s h all accept n :
  reachable dcheck_on s h all -> zlen all <= io_limit ->
  (forall a, 0 < a -> 0 < accept a /\ send_accepts a (accept a)) -> accept 0 = 0 ->
  ReadableBytes (write_buf_ h) <= Z.of_nat n ->
  exists h', flush dcheck_on accept n h = Ret h' /\ wire h' = all /\
    ReadableBytes (write_buf_ h') = 0 /\ IsWriting h' = false /\ watch_write h' = false.
Proof.
  intros HR Hl Ha H0 Hn. assert (write_inv h all) as I by by eapply reachable_inv.
  destruct (write_inv_buffer h all I) as (c & _ & E & Ec & _).
  destruct (flush_drains dcheck_on accept all n h) as (h' & Ef & I' & Ew); try done.
  { rewrite <- E, zlen_app. lia. }
  exists h'. destruct (write_inv_buffer h' all I') as (c' & _ & E' & Ec' & Hw & Ht).
  assert (c' = []) as -> by (apply zlen_nil_iff; rewrite <- E', zlen_app in Ew; lia).
  rewrite app_nil_r in E'. rewrite Ht, Hw. by split_and!.
Qed.

Lemma send_minus_one dcheck_on h d wb :
  ReadableBytes (write_buf_ h) = 0 -> IsWriting h = false -> 0 < zlen d < 2 ^ 32 - 1 ->
  SendData dcheck_on h (-1) wb d = Fault (if dcheck_on then AssertFail else OutOfBounds).
Proof.
  intros Hr0 Hw0 Hd. unfold SendData, SendInternal. rewrite (uwrap_small 32 (zlen d)) by lia.
  rewrite Hr0, Hw0. cbn [negb andb]. change (u32 (-1)) with (2 ^ 32 - 1).
  change (0 =? 0) with true. cbn iota. change (0 <=? 2 ^ 32 - 1) with true. cbn iota.
  assert (u32 (zlen d - (2 ^ 32 - 1)) = zlen d + 1) as ->.
  { unfold uwrap. replace (zlen d - (2 ^ 32 - 1)) with (zlen d + 1 + (-1) * 2 ^ 32) by lia.
    rewrite Z.mod_add by lia. apply Z.mod_small. lia. }
  unfold DCHECK, guard_or. rewrite (proj2 (Z.leb_gt _ _)) by lia. destruct dcheck_on; [done|]. cbn [negb orb andb].
  rewrite (proj2 (Z.ltb_lt _ _)) by lia. unfold mem_read, guard_or, in_block.
  rewrite (proj2 (Z.leb_gt (2 ^ 32 - 1 + (zlen d + 1)) _)) by lia. by rewrite andb_false_r.
Qed.
Lemma idle_empty h all : write_inv h all -> IsWriting h = false -> ReadableBytes (write_buf_ h) = 0.
Proof.
  intros I Hw. destruct (write_inv_buffer h all I) as (c & _ & _ & Ec & Ew & _). rewrite <- Ec. apply zlen_nil_iff.
  rewrite Ew in Hw. destruct (decide (c = [])) as [|Hc]; [done|]. by rewrite bool_decide_eq_false_2 in Hw.
Qed.
Lemma Close_write h : write_buf_ (Close h) = write_buf_ h /\ write_wait_state_ (Close h) = write_wait_state_ h /\ refs (Close h) = refs h - 1.
Proof. unfold Close, CloseSocket. by destruct (_ && _). Qed.

(** A failing [send] in [SendInternal] is not handled.  The result -1 is
    stored in an unsigned variable, so the test for it never succeeds: a debug
    build stops at its [DCHECK], and a release build copies [data_len + 1] bytes
    from [2^32 - 1] bytes behind the start of the data, for every non-empty
    submission of less than [2^32 - 1] bytes on an idle connection - also after
    [Close], when the socket is invalid and [send] cannot succeed. *)
Theorem send_error_out_of_bounds dcheck_on h all d wb :
  write_inv h all -> IsWriting h = false -> 0 < zlen d < 2 ^ 32 - 1 ->
  SendData dcheck_on h (-1) wb d = Fault (if dcheck_on then AssertFail else OutOfBounds) /\
  SendData dcheck_on (Close h) (-1) wb d = Fault (if dcheck_on then AssertFail else OutOfBounds).
Proof.
  intros I Hw Hd. pose proof (idle_empty h all I Hw) as Hr. destruct (Close_write h) as (E1 & E2 & _).
  split; apply send_minus_one; rewrite ?E1; try done. unfold IsWriting. by rewrite E2.
Qed.

(** * The read path *)

(** The connection under successive readable notifications, each with the bytes
    [readv] delivers; a closed connection gets no more of them. *)
Fixpoint receive (dcheck_on : bool) {U} (OnDataReceived : io_buffer -> U -> outcome (Z * io_buffer * U))
    (chunks : list bytes) (h : io_handler) (u : U) : outcome (io_handler * U) :=
  match chunks with
  | [] => Ret (h, u)
  | d :: chunks =>
      if watch_read h then
        '(h, u) ← OnFileCanRead dcheck_on OnDataReceived h (fun _ => Some d) u;
        receive dcheck_on OnDataReceived chunks h u
      else Ret (h, u)
  end.

Section ReadFacts.
Context (dcheck_on little : bool) {U : Type} (deliver : bytes -> U -> Z * U).
Context (accepts : forall m u, fst (deliver m u) = 0).

(** The length-header codec on the connection's read buffer. *)
Abbreviation codec := (@LengthHeader.OnDataReceived _ (io_queue dcheck_on little) _ deliver 4).

Lemma receive_stream chunks : forall ms t g h u,
  io_rep (read_buf_ h) t g -> LengthHeader.incomplete t -> Forall LengthHeader.message_ok ms ->
  t ++ concat chunks = concat (LengthHeader.frame <$> ms) ->
  zlen (concat (LengthHeader.frame <$> ms)) <= io_limit ->
  Forall (fun d => 0 < zlen d <= extrabuf_size) chunks ->
  read_wait_state_ h = WAITING_READ -> watch_read h = true ->
  exists b, receive dcheck_on codec chunks h u = Ret (set_read_buf h b, LengthHeader.deliver_all deliver ms u) /\
    ReadableBytes b = 0.
Proof using accepts.
  induction chunks as [|d chunks IH]; intros ms t g h u R Ht Hms E Hl Hc Hrw Hwr; cbn [receive concat] in *.
  - rewrite app_nil_r in E. destruct (LengthHeader.incomplete_rest ms t) as [-> ->]; [done..|by rewrite E|].
    exists (read_buf_ h). split; [by destruct h|]. by destruct (rep_indices _ _ _ R) as (_ & _ & _ & _ & -> & _).
  - rewrite Hwr. apply Forall_cons_iff in Hc as [Hd Hc]. rewrite app_assoc in E.
    unfold OnFileCanRead, Read. rewrite bool_decide_eq_true_2 by done.
    assert (zlen t + zlen d <= io_limit) as Hl1.
    { rewrite <- E, !zlen_app in Hl. pose proof (zlen_nonneg (concat chunks)). lia. }
    unfold extrabuf_size in Hd.
    destruct (ReadFd_rep dcheck_on (read_buf_ h) t g (fun _ => Some d) d R) as (b & -> & Rb); [done| |lia..|].
    { destruct (rep_indices _ _ _ R) as (? & _ & ? & _ & _ & ?). unfold readv_room, extrabuf_size.
      destruct (Z.ltb_spec (WritableBytes (read_buf_ h)) 65536); lia. }
    obind. rewrite (proj2 (Z.ltb_lt _ _)) by lia. cbn [read_buf_ set_read_buf].
    destruct (@LengthHeader.stream_step _ (io_queue dcheck_on little) _ deliver accepts
                (t ++ d) (concat chunks) ms b u) as (ms1 & ms2 & t1 & q & -> & Hms2 & [g1 R1] & Ht1 & E2 & Hl2 & ->);
      [by exists g|done..|].
    obind. change (negb (0 =? 0)) with false. cbn iota.
    destruct (IH ms2 t1 g1 (set_read_buf (set_read_buf h b) q) (LengthHeader.deliver_all deliver ms1 u))
      as (b' & -> & Hb'); try done.
    exists b'. split; [|done]. unfold LengthHeader.deliver_all. by rewrite foldl_app.
Qed.
End ReadFacts.

(** C5: a connection delivers its messages.  A handler that [Create] accepted,
    with the length-header codec as delegate, whose socket delivers a stream of
    messages of at most 64 KiB in arbitrary non-empty chunks of at most 64 KiB,
    hands exactly those messages to the application, in order and each once,
    stays open and ends with an empty read buffer, if the application accepts
    them all. *)
Theorem connection_delivers dcheck_on little s {U} (deliver : bytes -> U -> Z * U) chunks ms u :
  (forall m u, fst (deliver m u) = 0) -> Forall LengthHeader.message_ok ms ->
  Forall (fun d => 0 < zlen d <= extrabuf_size) chunks ->
  concat chunks = concat (LengthHeader.frame <$> ms) -> zlen (concat chunks) <= io_limit ->
  exists h, receive dcheck_on (@LengthHeader.OnDataReceived _ (io_queue dcheck_on little) _ deliver 4)
              chunks (Create (handler_new s) 0) u = Ret (h, LengthHeader.deliver_all deliver ms u) /\
    ReadableBytes (read_buf_ h) = 0 /\ socket_ h = s /\ watch_read h = true /\ refs h = 1.
Proof.
  intros Ha Hms Hc E Hl. rewrite E in Hl.
  destruct (receive_stream dcheck_on little deliver Ha chunks ms [] kCheapPrepend
              (Create (handler_new s) 0) u) as (b & -> & Hb); try done.
  - by apply io_new_rep.
  - by left.
  - by exists (set_read_buf (Create (handler_new s) 0) b).
Qed.

(** What [Read] does with a notification.  The connection is closed - the
    socket invalidated, both watchers off, one reference dropped - exactly when
    the peer closed, [readv] failed or the delegate answered non-zero; otherwise
    it stays as it was but for the read buffer.  The delegate sees the buffer with
    the received bytes appended to what it had left there, and only when there
    are some. *)
Theorem Read_branches dcheck_on {U} (on_data : io_buffer -> U -> outcome (Z * io_buffer * U)) h c g readv u :
  io_rep (read_buf_ h) c g -> 0 < socket_ h ->
  (forall d, readv (readv_room (read_buf_ h)) = Some d ->
     zlen d <= readv_room (read_buf_ h) /\ zlen d < 2 ^ 31 /\ zlen c + zlen d <= io_limit) ->
  match readv (readv_room (read_buf_ h)) with
  | Some (x :: d) =>
      exists b, io_rep b (c ++ x :: d) g /\
        Read dcheck_on on_data h readv u =
          ('(ret, b, u) ← on_data b u;
           let h' := set_read_buf h b in Ret (if ret =? 0 then h' else Close h', u))
  | Some [] | None =>
      exists b, io_rep b c g /\ Read dcheck_on on_data h readv u = Ret (Close (set_read_buf h b), u)
  end /\
  (let h' := Close h in
   socket_ h' = kInvalidSocket /\ watch_read h' = false /\ watch_write h' = false /\ refs h' = refs h - 1 /\
   write_buf_ h' = write_buf_ h /\ wire h' = wire h).
Proof.
  intros R Hs Hd. split.
  - unfold Read. destruct (readv (readv_room (read_buf_ h))) as [d|] eqn:Er.
    + destruct (Hd d eq_refl) as (H1 & H2 & H3).
      destruct (ReadFd_rep dcheck_on _ c g readv d R Er) as (b & -> & Rb); [done..|]. obind.
      destruct d as [|x d].
      * exists b. rewrite app_nil_r in Rb. by split.
      * exists b. split; [done|]. rewrite zlen_cons. pose proof (zlen_nonneg d).
        rewrite (proj2 (Z.ltb_lt _ _)) by lia. cbn [read_buf_ set_read_buf].
        destruct (on_data b u) as [[[ret b'] u']|]; [|done]. obind. by destruct (ret =? 0).
    + exists (read_buf_ h). split; [done|]. unfold ReadFd. fold (readv_room (read_buf_ h)). by rewrite Er.
  - unfold Close, CloseSocket, kInvalidSocket.
    rewrite (proj2 (Z.eqb_neq _ _)), (proj2 (Z.eqb_neq _ (-1))) by lia. done.
Qed.

(** * Witnesses *)

(** Three bytes submitted, of which [send] takes one. *)
Definition busy : io_handler :=
  match SendData true (handler_new 7) 1 false [1; 2; 3] with Ret h => h | Fault _ => handler_new 7 end.

Lemma busy_reachable : reachable true 7 busy [1; 2; 3].
Proof.
  apply (reach_step true 7 (handler_new 7) [] (Submit [1; 2; 3] 1 false)); [apply reach_new| |by vm_compute].
  unfold may_happen, send_accepts, max_send. change (zlen [1; 2; 3]) with 3. lia.
Qed.

Lemma write_path_fifo_witness :
  exists c, PeekAt (write_buf_ busy) 0 (ReadableBytes (write_buf_ busy)) = Ret c /\
    wire busy ++ c = [1; 2; 3] /\ IsWriting busy = negb (bool_decide (c = [])) /\
    watch_write busy = IsWriting busy.
Proof. by apply (write_path_fifo true 7 busy [1; 2; 3] busy_reachable). Defined.

Lemma write_path_drains_witness :
  exists h', flush true (fun a => Z.min a 1) 2 busy = Ret h' /\ wire h' = [1; 2; 3] /\
    ReadableBytes (write_buf_ h') = 0 /\ IsWriting h' = false /\ watch_write h' = false.
Proof.
  apply (write_path_drains true 7 busy [1; 2; 3] (fun a => Z.min a 1) 2 busy_reachable).
  - done.
  - intros a Ha. unfold send_accepts, max_send. lia.
  - done.
  - by vm_compute.
Defined.

Lemma send_error_out_of_bounds_witness :
  SendData false (handler_new 7) (-1) true [1; 2; 3] = Fault OutOfBounds /\
  SendData false (Close (handler_new 7)) (-1) true [1; 2; 3] = Fault OutOfBounds.
Proof. by apply (send_error_out_of_bounds false (handler_new 7) [] [1; 2; 3] true); [apply write_inv_new|..]. Defined.

Lemma connection_delivers_witness :
  exists h, receive true (@LengthHeader.OnDataReceived _ (io_queue true true) _ collect 4)
              [[0; 0; 0]; [1; 65; 0; 0]; [0; 0]] (Create (handler_new 7) 0) [] = Ret (h, [[65]; []]) /\
    ReadableBytes (read_buf_ h) = 0 /\ socket_ h = 7 /\ watch_read h = true /\ refs h = 1.
Proof.
  apply (connection_delivers true true 7 collect [[0; 0; 0]; [1; 65; 0; 0]; [0; 0]] [[65]; []] []).
  - done.
  - by repeat constructor.
  - repeat constructor; by vm_compute.
  - done.
  - by vm_compute.
Defined.

(** The peer closes the connection. *)
Lemma Read_branches_witness :
  exists b, io_rep b [] 8 /\
    Read true (fun b (u : unit) => Ret (0, b, u)) (handler_new 7) (fun _ => Some []) tt
      = Ret (Close (set_read_buf (handler_new 7) b), tt).
Proof.
  apply (Read_branches true (fun b (u : unit) => Ret (0, b, u)) (handler_new 7) [] 8 (fun _ => Some []) tt).
  - by apply io_new_rep.
  - done.
  - by intros d [= <-].
Defined.
