(* ===== verification/IOThreads.v ===== *)
(** A connection and its message loop, [zutils/net/engine/io_handler.cc]: the calls
    other threads make are posted to the loop, which runs them in the order they
    came.  A posted task holds a bare pointer to the handler. *)
From Stdlib Require Import ZArith Lia Bool.
From stdpp Require Import base list numbers.
From S2P Require Import Prelude IOBuffer IOHandler.

Open Scope Z_scope.

(** What is bound and posted: [OnCreated], or [SendInternal2] with its own copy of
    the data. *)
Inductive task := RunOnCreated | RunSendInternal2 (data : bytes).

(** The handler, the references others hold on it beside its own ([refs]), whether
    the last one is gone and so the object, and the tasks posted to its loop. *)
Record engine := Engine { e_handler : io_handler; e_held : Z; e_deleted : bool; e_tasks : list task }.

Definition PostTask (t : task) (e : engine) : engine :=
  Engine (e_handler e) (e_held e) (e_deleted e) (e_tasks e ++ [t]).
Definition pop_task (e : engine) : engine := Engine (e_handler e) (e_held e) (e_deleted e) (tail (e_tasks e)).
(** A use of the handler, which must still be there. *)
Definition use {A} (e : engine) (k : outcome A) : outcome A := guard_or (negb (e_deleted e)) OutOfBounds k.

(** The handler after one of its functions ran; if that dropped its own reference,
    and nobody holds another, the object is deleted. *)
Definition with_handler (e : engine) (h : io_handler) : engine :=
  Engine h (e_held e) (e_deleted e || ((refs h <? refs (e_handler e)) && (refs h + e_held e =? 0))) (e_tasks e).
(** Another owner takes the handler; one lets go: [Release], and the destructor if it was
    the last. *)
Definition OwnerRetains (e : engine) : engine := Engine (e_handler e) (e_held e + 1) (e_deleted e) (e_tasks e).
Definition OwnerReleases (e : engine) : engine :=
  Engine (e_handler e) (e_held e - 1) (e_deleted e || (refs (e_handler e) + (e_held e - 1) =? 0)) (e_tasks e).

Section Loop.
Context (dcheck_on : bool).

Definition AddRef (h : io_handler) : io_handler :=
  IOHandler (socket_ h) (read_wait_state_ h) (write_wait_state_ h) (read_buf_ h) (write_buf_ h)
    (watch_read h) (watch_write h) (refs h + 1) (wire h).
(** [IOHandler::Create]; [on_loop] says whether the caller runs on the loop of the
    handler, [on_new] is the answer the delegate gives [OnCreated]. *)
Definition CreateHandler (on_loop : bool) (on_new : Z) (e : engine) : outcome engine :=
  use e (let e := with_handler e (AddRef (e_handler e)) in
         Ret (if on_loop then with_handler e (OnCreated (e_handler e) on_new) else PostTask RunOnCreated e)).

(** [IOHandler::SendData] and [SendStringPiece]; a direct call makes a [send] that
    returns [r]. *)
Definition SendPiece (on_loop : bool) (r : Z) (wouldblock : bool) (data : bytes) (e : engine) : outcome engine :=
  use e (if on_loop then h ← SendData dcheck_on (e_handler e) r wouldblock data; Ret (with_handler e h)
         else Ret (PostTask (RunSendInternal2 data) e)).
(** [SendData] of an [IOBuffer]: a direct call looks at the buffer, a posted one
    takes its content. *)
Definition SendBuffer (on_loop : bool) (r : Z) (wouldblock : bool) (b : io_buffer) (e : engine) : outcome (engine * io_buffer) :=
  use e (if on_loop then
           data ← PeekAt b 0 (ReadableBytes b);
           h ← SendInternal dcheck_on (e_handler e) r wouldblock data (u32 (ReadableBytes b));
           Ret (with_handler e h, b)
         else
           '(data, b) ← RetrieveAllAsString dcheck_on b;
           Ret (PostTask (RunSendInternal2 data) e, b)).

(** The loop runs the task that was posted first. *)
Definition RunTask (r : Z) (wouldblock : bool) (on_new : Z) (e : engine) : outcome engine :=
  match e_tasks e with
  | [] => Ret e
  | t :: _ =>
      let e := pop_task e in
      use e (match t with
             | RunOnCreated => Ret (with_handler e (OnCreated (e_handler e) on_new))
             | RunSendInternal2 data => h ← SendData dcheck_on (e_handler e) r wouldblock data; Ret (with_handler e h)
             end)
  end.
(** The loop reports the socket writable, if it is still watched. *)
Definition Ready (r : Z) (e : engine) : outcome engine :=
  use e (h ← OnFileCanWrite dcheck_on (e_handler e) r; Ret (with_handler e h)).
(** The loop reports that [received] arrived, of which, with what was there before, the
    delegate takes [n] bytes and answers that the connection may stay. *)
Definition TakeData (n : Z) (b : io_buffer) (u : unit) : outcome (Z * io_buffer * unit) :=
  b ← Retrieve dcheck_on b n; Ret (0, b, u).
Definition ReadReady (received : bytes) (n : Z) (e : engine) : outcome engine :=
  use e ('(h, _) ← OnFileCanRead dcheck_on (TakeData n) (e_handler e) (fun _ => Some received) tt; Ret (with_handler e h)).
(** [IOHandler::Close], on the loop. *)
Definition CloseOnLoop (e : engine) : outcome engine := use e (Ret (with_handler e (Close (e_handler e)))).

(** * Threads and the loop, interleaved
    Calls come from the loop's own thread ([None]) or from others, in any order, with bytes
    or a buffer, between the tasks and the events of the loop; a delegate that sends from
    its [OnDataReceived] makes such a call.  Owners come and go. *)
Inductive act :=
  | Call (who : option nat) (data : bytes) (r : Z) (wouldblock : bool)
  | CallBuffer (who : option nat) (b : io_buffer) (data : bytes) (r : Z) (wouldblock : bool)
  | Task (r : Z) (wouldblock : bool) (on_new : Z)
  | Event (r : Z)
  | Arrived (received : bytes) (n : Z)
  | Retain | LetGo.
Definition step (e : engine) (a : act) : outcome engine :=
  match a with
  | Call who data r wb => SendPiece (bool_decide (who = None)) r wb data e
  | CallBuffer who b _ r wb => '(e, _) ← SendBuffer (bool_decide (who = None)) r wb b e; Ret e
  | Task r wb on_new => RunTask r wb on_new e
  | Event r => Ready r e
  | Arrived received n => ReadReady received n e
  | Retain => Ret (OwnerRetains e)
  | LetGo => Ret (OwnerReleases e)
  end.
(** The bytes a call is given, with their author. *)
Definition said_in (a : act) : list (option nat * bytes) :=
  match a with Call who d _ _ | CallBuffer who _ d _ _ => [(who, d)] | _ => [] end.

(** While the connection stays open: sends that succeed, a delegate that takes the
    connection and what arrives, and every owner lets go of what it holds.  A buffer is
    given with its content. *)
Definition possible (e : engine) (a : act) : Prop :=
  match a with
  | Call who d r _ => zlen d < 2 ^ 32 /\ (who = None -> send_accepts (zlen d) r)
  | CallBuffer who b d r _ => (exists g, io_rep b d g) /\ zlen d < 2 ^ 32 /\ (who = None -> send_accepts (zlen d) r)
  | Task r _ on_new =>
      match e_tasks e with
      | RunSendInternal2 d :: _ => send_accepts (zlen d) r
      | RunOnCreated :: _ => on_new = 0
      | [] => True
      end
  | Event r => send_result (ReadableBytes (write_buf_ (e_handler e))) r
  | Arrived received n =>
      let unread := ReadableBytes (read_buf_ (e_handler e)) in
      0 < zlen received <= readv_room (read_buf_ (e_handler e)) /\ zlen received < 2 ^ 31 /\
      unread + zlen received <= io_limit /\ 0 <= n <= unread + zlen received
  | Retain => True
  | LetGo => 0 < e_held e
  end.

(** From a new handler in the hands of its creator, on any thread. *)
Definition new_engine (s : Z) : engine := Engine (handler_new s) 1 false [].
Inductive runs (s : Z) (on_loop : bool) : engine -> list act -> Prop :=
  | runs_created e : CreateHandler on_loop 0 (new_engine s) = Ret e -> runs s on_loop e []
  | runs_step e tr a e' : runs s on_loop e tr -> possible e a -> step e a = Ret e' -> runs s on_loop e' (tr ++ [a]).
End Loop.

(** Everything [who] said, in order. *)
Definition said (who : option nat) (l : list (option nat * bytes)) : bytes :=
  concat (map snd (filter (fun p => fst p = who) l)).
Definition saids (tr : list act) : list (option nat * bytes) := concat (map said_in tr).
Definition data_of (t : task) : bytes := match t with RunOnCreated => [] | RunSendInternal2 d => d end.

Lemma said_app who l k : said who (l ++ k) = said who l ++ said who k.
Proof. unfold said. by rewrite list.filter_app, map_app, concat_app. Qed.
Lemma said_one who w d : said who [(w, d)] = if bool_decide (w = who) then d else [].
Proof.
  unfold said. case_bool_decide as H.
  - rewrite filter_cons_True by done. cbn. by rewrite app_nil_r.
  - by rewrite filter_cons_False.
Qed.
Lemma saids_snoc tr a : saids (tr ++ [a]) = saids tr ++ said_in a.
Proof. unfold saids. rewrite map_app, concat_app. cbn. by rewrite app_nil_r. Qed.

(** The order in which the data reached the handler, and what is still posted. *)
Definition pend (l : list (option nat * task)) : list (option nat * bytes) := map (fun p => (fst p, data_of (snd p))) l.
Record threads_inv (e : engine) (tr : list act) (order : list (option nat * bytes)) (pending : list (option nat * task)) : Prop := {
  ti_tasks : e_tasks e = map snd pending;
  ti_posted : Forall (fun p => fst p <> None \/ data_of (snd p) = []) pending;
  ti_short : Forall (fun p => zlen (data_of (snd p)) < 2 ^ 32) pending;
  ti_alive : e_deleted e = false /\ refs (e_handler e) = 1 /\ 0 <= e_held e;
  ti_read : exists c g, io_rep (read_buf_ (e_handler e)) c g;
  ti_write : write_inv (e_handler e) (concat (map snd order));
  ti_said : forall who, said who order ++ said who (pend pending) = said who (saids tr);
  ti_size : zlen (concat (map snd order)) + zlen (concat (map snd (pend pending))) = zlen (concat (map snd (saids tr)))
}.

Section Facts.
Context (dcheck_on : bool).

(** The reading side, and the references to the handler. *)
Definition same_reading (h h' : io_handler) : Prop := refs h' = refs h /\ read_buf_ h' = read_buf_ h.
Lemma SendData_refs h r wb d h' : SendData dcheck_on h r wb d = Ret h' -> same_reading h h'.
Proof.
  unfold SendData, SendInternal. set (direct := _ && _). destruct direct, (0 <=? u32 r); cbn [negb];
    unfold DCHECK, guard_or; destruct (negb dcheck_on || _); try done; destruct (_ && _); try (by intros [= <-]);
    destruct (mem_read _ _ _); cbn [mbind outcome_bind]; try done; destruct (Write _ _ _); cbn [mbind outcome_bind]; try done; destruct (IsWriting _); by intros [= <-].
Qed.
Lemma OnFileCanWrite_refs h r h' : OnFileCanWrite dcheck_on h r = Ret h' -> same_reading h h'.
Proof.
  unfold OnFileCanWrite, OnWrite. destruct (bool_decide _); [|by intros [= <-]]. destruct (IsWriting h); [|by intros [= <-]].
  destruct (PeekAt _ _ _); cbn [mbind outcome_bind]; [|done]. destruct (0 <? s32 r); [|by intros [= <-]].
  destruct (Retrieve _ _ _); cbn [mbind outcome_bind]; [|done]. destruct (_ =? 0); by intros [= <-].
Qed.
Lemma write_inv_same h h' all : write_buf_ h' = write_buf_ h -> wire h' = wire h -> write_wait_state_ h' = write_wait_state_ h ->
  watch_write h' = watch_write h -> write_inv h all -> write_inv h' all.
Proof. intros E1 E2 E3 E4 [H]. split. by rewrite E1, E2, E3, E4. Qed.
Lemma with_handler_alive e h : e_deleted e = false -> refs h = refs (e_handler e) ->
  with_handler e h = Engine h (e_held e) false (e_tasks e).
Proof. intros Ha Hr. unfold with_handler. by rewrite Ha, Hr, Z.ltb_irrefl. Qed.

Lemma said_cons_nil who w l : said who ((w, []) :: l) = said who l.
Proof. change ((w, []) :: l) with ([(w, [])] ++ l). rewrite said_app, said_one. by case_bool_decide. Qed.
Lemma said_loop_pending pending : Forall (fun p => fst p <> None \/ data_of (snd p) = []) pending -> said None (pend pending) = [].
Proof.
  induction 1 as [|[w t] l [H|H] _ IH]; cbn [pend map fst snd] in *; [done| |by rewrite H, said_cons_nil].
  change ((w, data_of t) :: map _ l) with ([(w, data_of t)] ++ pend l). by rewrite said_app, said_one, bool_decide_eq_false_2, IH.
Qed.
Lemma concat_snoc (l : list (option nat * bytes)) w d : concat (map snd (l ++ [(w, d)])) = concat (map snd l) ++ d.
Proof. rewrite map_app, concat_app. cbn. by rewrite app_nil_r. Qed.

(** Data reaches the handler from its own thread, or is posted by another. *)
Lemma direct_inv e tr order pending d a h' : said_in a = [(None, d)] ->
  threads_inv e tr order pending -> write_inv h' (concat (map snd order) ++ d) -> same_reading (e_handler e) h' ->
  threads_inv (with_handler e h') (tr ++ [a]) (order ++ [(None, d)]) pending.
Proof.
  intros Hs [H1 H2 H3 H4 Hrd H5 H6 H7] Hw [Hr Hb]. pose proof H4 as (Ha & Hrf & Hh). rewrite with_handler_alive by done.
  split; cbn [e_tasks e_deleted e_handler e_held]; try done.
  - by rewrite Hr.
  - by rewrite Hb.
  - by rewrite concat_snoc.
  - intros who. rewrite saids_snoc, Hs, !said_app, <- H6, said_one. case_bool_decide as Hn; [subst who|by rewrite !app_nil_r].
    by rewrite (said_loop_pending pending H2), !app_nil_r.
  - rewrite concat_snoc, saids_snoc, Hs, concat_snoc, !zlen_app. lia.
Qed.
Lemma post_inv e tr order pending t d a : said_in a = [(Some t, d)] ->
  threads_inv e tr order pending -> zlen d < 2 ^ 32 ->
  threads_inv (PostTask (RunSendInternal2 d) e) (tr ++ [a]) order (pending ++ [(Some t, RunSendInternal2 d)]).
Proof.
  intros Hs [H1 H2 H3 H4 Hrd H5 H6 H7] Hd. assert (pend (pending ++ [(Some t, RunSendInternal2 d)]) = pend pending ++ [(Some t, d)]) as Ep
    by (unfold pend; by rewrite map_app).
  split; cbn [PostTask e_tasks e_deleted e_handler e_held]; try done.
  - by rewrite H1, map_app.
  - apply Forall_app. split; [done|]. constructor; [by left|done].
  - apply Forall_app. split; [done|]. by constructor.
  - intros who. by rewrite saids_snoc, Hs, Ep, !said_app, <- H6, app_assoc.
  - rewrite saids_snoc, Hs, Ep, !concat_snoc, !zlen_app. lia.
Qed.
Lemma quiet_inv e e' tr order pending a :
  threads_inv e tr order pending -> said_in a = [] -> e_tasks e' = e_tasks e -> e_deleted e' = false -> 0 <= e_held e' ->
  refs (e_handler e') = refs (e_handler e) -> (exists c g, io_rep (read_buf_ (e_handler e')) c g) ->
  write_inv (e_handler e') (concat (map snd order)) -> threads_inv e' (tr ++ [a]) order pending.
Proof.
  intros [H1 H2 H3 H4 Hrd H5 H6 H7] Ha E1 E2 E3 E4 Hb Hw. destruct H4 as (_ & ? & ?).
  split; rewrite ?saids_snoc, ?Ha, ?app_nil_r, ?E1, ?E2, ?E4; try done.
Qed.

(** A buffer handed over on the loop keeps its content; from another thread it is
    taken. *)
Lemma SendBuffer_content (on_loop : bool) r wb b c g e : io_rep b c g -> e_deleted e = false ->
  if on_loop then
    SendBuffer dcheck_on true r wb b e = (h ← SendInternal dcheck_on (e_handler e) r wb c (u32 (zlen c)); Ret (with_handler e h, b))
  else exists b', SendBuffer dcheck_on false r wb b e = Ret (PostTask (RunSendInternal2 c) e, b') /\ ReadableBytes b' = 0.
Proof.
  intros R Ha. destruct (rep_indices _ _ _ R) as (_ & _ & _ & _ & Hread & _). pose proof (zlen_nonneg c).
  assert (PeekAt b 0 (zlen c) = Ret c) as Hp.
  { rewrite (PeekAt_rep _ _ _ _ _ R) by lia. f_equal. unfold zslice, zlen. rewrite Nat2Z.id. by apply take_ge. }
  destruct on_loop; unfold SendBuffer, use; rewrite Ha; cbn [negb guard_or].
  - by rewrite Hread, Hp.
  - unfold RetrieveAllAsString, RetrieveAsString. rewrite DCHECK_true by lia. rewrite Hread, Hp. cbn [mbind outcome_bind].
    destruct (Retrieve_rep dcheck_on _ c g (zlen c) R) as (b' & Eb & Rb); [lia|]. rewrite Eb. cbn [mbind outcome_bind]. exists b'. split; [done|].
    destruct (rep_indices _ _ _ Rb) as (_ & _ & _ & _ & -> & _). apply zlen_nil_iff. apply drop_ge. unfold zlen. lia.
Qed.
(** What arrives goes to the delegate, and leaves the writing side alone. *)
Lemma Arrived_step h c g received n : io_rep (read_buf_ h) c g -> 0 < zlen received <= readv_room (read_buf_ h) -> zlen received < 2 ^ 31 ->
  zlen c + zlen received <= io_limit -> 0 <= n <= zlen c + zlen received ->
  exists h', OnFileCanRead dcheck_on (TakeData dcheck_on n) h (fun _ => Some received) tt = Ret (h', tt) /\
    refs h' = refs h /\ (exists c g, io_rep (read_buf_ h') c g) /\ forall all, write_inv h all -> write_inv h' all.
Proof.
  intros R H1 H2 H3 H4. unfold OnFileCanRead. case_bool_decide; [|exists h; split_and!; [done..|by exists c, g|done]]. unfold Read.
  destruct (ReadFd_rep dcheck_on (read_buf_ h) c g (fun _ => Some received) received R) as (b & -> & Rb); [done|lia..|]. obind.
  rewrite (proj2 (Z.ltb_lt _ _)) by lia. unfold TakeData. cbn [read_buf_ set_read_buf].
  destruct (Retrieve_rep dcheck_on b _ g n Rb) as (b' & -> & Rb'); [rewrite zlen_app; lia|]. obind. change (negb (0 =? 0)) with false. cbn iota.
  eexists. split; [done|]. split; [done|]. split; [by eexists _, _|]. intros all. by apply write_inv_same.
Qed.

Lemma use_alive {A} (e : engine) (k : outcome A) : e_deleted e = false -> use e k = k.
Proof. intros E. unfold use. by rewrite E. Qed.
(** A call on the loop, with bytes or a buffer. *)
Lemma direct_step e tr order pending a d r wb : said_in a = [(None, d)] ->
  threads_inv e tr order pending -> zlen d < 2 ^ 32 -> send_accepts (zlen d) r -> zlen (concat (map snd (saids (tr ++ [a])))) <= io_limit ->
  exists h', SendData dcheck_on (e_handler e) r wb d = Ret h' /\ threads_inv (with_handler e h') (tr ++ [a]) (order ++ [(None, d)]) pending.
Proof.
  intros Hs I Hd Hr Hl. pose proof I as [_ _ _ _ _ H5 _ H7]. pose proof (zlen_nonneg (concat (map snd (pend pending)))).
  rewrite saids_snoc, Hs, concat_snoc, zlen_app in Hl.
  destruct (submit_step dcheck_on (e_handler e) _ d r wb H5 Hd Hr) as (h' & Eh & Hw); [lia|].
  exists h'. split; [done|]. apply direct_inv; [done..|]. by eapply SendData_refs.
Qed.
(** The task that was posted first. *)
Lemma task_inv e tr order w t pending a h' : threads_inv e tr order ((w, t) :: pending) -> said_in a = [] ->
  same_reading (e_handler e) h' -> write_inv h' (concat (map snd order) ++ data_of t) ->
  threads_inv (with_handler (pop_task e) h') (tr ++ [a]) (order ++ [(w, data_of t)]) pending.
Proof.
  intros [H1 H2 H3 H4 Hrd H5 H6 H7] Hs [Hr Hb] Hw. pose proof H4 as (Ha & Hrf & Hh). apply Forall_cons_1 in H2 as [_ H2], H3 as [_ H3].
  rewrite with_handler_alive by done. cbn [map snd] in H1.
  split; rewrite ?saids_snoc, ?Hs, ?app_nil_r, ?concat_snoc; cbn [e_tasks e_deleted e_handler e_held pop_task]; try done.
  - by rewrite H1.
  - by rewrite Hr.
  - by rewrite Hb.
  - intros who. rewrite <- H6, said_app. change (pend ((w, t) :: pending)) with ([(w, data_of t)] ++ pend pending). by rewrite said_app, app_assoc.
  - cbn [pend map fst snd concat] in H7. fold (pend pending) in H7. rewrite !zlen_app in *. lia.
Qed.
Lemma RunTask_step e tr order pending r wb on_new :
  threads_inv e tr order pending -> possible e (Task r wb on_new) -> zlen (concat (map snd (saids tr))) <= io_limit ->
  exists e' order' pending', RunTask dcheck_on r wb on_new e = Ret e' /\ threads_inv e' (tr ++ [Task r wb on_new]) order' pending'.
Proof.
  intros I Hp Hl. pose proof I as [H1 H2 H3 (Ha & Hrf & Hh) Hrd H5 H6 H7]. cbn [possible] in Hp. unfold RunTask. rewrite H1 in *.
  destruct pending as [|[w t] pending]; cbn [map snd] in *.
  { exists e, order, []. split; [done|]. by apply (quiet_inv e). }
  cbn [pend map fst snd concat] in H7. fold (pend pending) in H7. rewrite zlen_app in H7. pose proof (zlen_nonneg (concat (map snd (pend pending)))).
  rewrite use_alive by done. apply Forall_cons_1 in H3 as [Hw3 _]. cbn [snd] in Hw3. destruct t as [|d]; cbn [data_of] in *.
  - subst on_new. eexists _, _, pending. split; [done|]. apply (task_inv e tr order w RunOnCreated); [done..|]. cbn [data_of]. rewrite app_nil_r.
    by apply (write_inv_same (e_handler e)).
  - destruct (submit_step dcheck_on (e_handler e) _ d r wb H5 Hw3 Hp) as (h' & Eh & Hw); [lia|].
    eexists _, _, pending. change (e_handler (pop_task e)) with (e_handler e). rewrite Eh. split; [done|].
    apply (task_inv e tr order w (RunSendInternal2 d)); [done..| |done]. by eapply SendData_refs.
Qed.

Lemma step_inv e tr order pending a :
  threads_inv e tr order pending -> possible e a -> zlen (concat (map snd (saids (tr ++ [a])))) <= io_limit ->
  exists e' order' pending', step dcheck_on e a = Ret e' /\ threads_inv e' (tr ++ [a]) order' pending'.
Proof.
  intros I Hp Hl. pose proof I as [H1 H2 H3 (Ha & Hrf & Hh) (c & g & Hrd) H5 H6 H7]. pose proof (zlen_nonneg (concat (map snd (pend pending)))) as Hpend.
  destruct a as [[t|] d r wb|[t|] b d r wb|r wb on_new|r|received n| |]; cbn [step possible] in *.
  - exists (PostTask (RunSendInternal2 d) e), order. eexists. unfold SendPiece. rewrite use_alive by done. split; [done|]. apply post_inv; [done..|tauto].
  - destruct Hp as [Hd Hr]. destruct (direct_step e tr order pending (Call None d r wb) d r wb) as (h' & Eh & I'); [done..|by apply Hr|done|].
    eexists _, _, pending. unfold SendPiece. rewrite use_alive by done. rewrite Eh. by split.
  - destruct Hp as ([g' R] & Hd & _). destruct (SendBuffer_content false r wb b d g' e R Ha) as (b' & Eb & _).
    exists (PostTask (RunSendInternal2 d) e), order. eexists. rewrite bool_decide_eq_false_2 by done. rewrite Eb. split; [done|]. by apply post_inv.
  - destruct Hp as ([g' R] & Hd & Hr). destruct (direct_step e tr order pending (CallBuffer None b d r wb) d r wb) as (h' & Eh & I'); [done..|by apply Hr|done|].
    eexists _, _, pending. rewrite bool_decide_eq_true_2 by done. rewrite (SendBuffer_content true r wb b d g' e R Ha).
    fold (SendData dcheck_on (e_handler e) r wb d). rewrite Eh. by split.
  - rewrite saids_snoc in Hl. cbn [said_in] in Hl. rewrite app_nil_r in Hl. by apply (RunTask_step e tr order pending).
  - rewrite saids_snoc in Hl. cbn [said_in] in Hl. rewrite app_nil_r in Hl.
    destruct (writable_step dcheck_on (e_handler e) _ r H5) as (h' & Eh & Hw & _); [lia|done|].
    exists (with_handler e h'), order, pending. unfold Ready. rewrite use_alive by done. rewrite Eh. split; [done|].
    apply OnFileCanWrite_refs in Eh as [Er Eb]. rewrite with_handler_alive by done. apply (quiet_inv e); try done. cbn [e_handler]. rewrite Eb. by exists c, g.
  - destruct (rep_indices _ _ _ Hrd) as (_ & _ & _ & _ & Hu & _). rewrite Hu in Hp. destruct Hp as (Hp1 & Hp2 & Hp3 & Hp4).
    destruct (Arrived_step (e_handler e) c g received n Hrd Hp1 Hp2 Hp3 Hp4) as (h' & Eh & Er & Hb & Hw).
    exists (with_handler e h'), order, pending. unfold ReadReady. rewrite use_alive by done. rewrite Eh. split; [done|].
    rewrite with_handler_alive by done. apply (quiet_inv e); try done. by apply Hw.
  - exists (OwnerRetains e), order, pending. split; [done|]. apply (quiet_inv e); try done; [cbn; lia|by exists c, g].
  - exists (OwnerReleases e), order, pending. split; [done|]. apply (quiet_inv e); try done; [|cbn; lia|by exists c, g].
    cbn. rewrite Ha, Hrf. apply Z.eqb_neq. lia.
Qed.

Lemma created_inv s on_loop e : CreateHandler on_loop 0 (new_engine s) = Ret e -> exists pending, threads_inv e [] [] pending.
Proof.
  assert (exists c g, io_rep (io_new 64) c g) as Hrd by (eexists _, _; by apply io_new_rep).
  intros [= <-]. destruct on_loop.
  - exists []. split; try done. by apply (write_inv_same (handler_new s)); [..|apply write_inv_new].
  - exists [(Some O, RunOnCreated)]. split; try done; [by constructor; [left|]|by constructor| |].
    + by apply (write_inv_same (handler_new s)); [..|apply write_inv_new].
    + intros who. change (said who [] ++ said who ((Some O, []) :: []) = said who []). by rewrite said_cons_nil.
Qed.
Lemma runs_inv s on_loop e tr : runs dcheck_on s on_loop e tr -> zlen (concat (map snd (saids tr))) <= io_limit ->
  exists order pending, threads_inv e tr order pending.
Proof.
  induction 1 as [e Hc|e tr a e' HR IH Hp E]; intros Hl.
  - destruct (created_inv s on_loop e Hc) as [pending H]. by exists [], pending.
  - destruct IH as (order & pending & I).
    { rewrite saids_snoc, map_app, concat_app, zlen_app in Hl. pose proof (zlen_nonneg (concat (map snd (said_in a)))). lia. }
    destruct (step_inv e tr order pending a I Hp Hl) as (e2 & o2 & p2 & E2 & I2). rewrite E in E2. injection E2 as <-. by exists o2, p2.
Qed.
End Facts.

(** C10: sending from any thread, as long as the connection stays open: the delegate
    takes the connection and what arrives, the peer and the application close nothing,
    and the sends of [SendInternal] succeed, in part or in full.  However calls, with bytes or buffers, from the
    loop's own thread and from others interleave with the tasks of the loop, with what
    arrives, with writable notifications, whose sends may fail, and with owners that come
    and go: what the socket took and what is buffered is made of everything that
    reached the handler, in one order; of each thread, what has reached it followed by
    what is still posted is exactly what that thread sent, in the order it sent it; and
    whatever of these may happen next runs without a fault.  What becomes of posted sends
    once the connection closes is [posted_send_after_close]. *)
Theorem threads_fifo (dcheck_on : bool) (s : Z) (on_loop : bool) (e : engine) (tr : list act) :
  runs dcheck_on s on_loop e tr -> zlen (concat (map snd (saids tr))) <= io_limit ->
  (exists order pending c,
     e_tasks e = map snd pending /\
     PeekAt (write_buf_ (e_handler e)) 0 (ReadableBytes (write_buf_ (e_handler e))) = Ret c /\
     wire (e_handler e) ++ c = concat (map snd order) /\
     forall who, said who order ++ said who (pend pending) = said who (saids tr)) /\
  (forall a, possible e a -> zlen (concat (map snd (saids (tr ++ [a])))) <= io_limit ->
     exists e', step dcheck_on e a = Ret e' /\ runs dcheck_on s on_loop e' (tr ++ [a])).
Proof.
  intros HR Hl. destruct (runs_inv dcheck_on s on_loop e tr HR Hl) as (order & pending & I). split.
  - destruct I as [H1 _ _ _ _ H5 H6 _]. destruct (write_inv_buffer (e_handler e) _ H5) as (c & Hc & Ew & _).
    by exists order, pending, c.
  - intros a Hp Ha. destruct (step_inv dcheck_on e tr order pending a I Hp Ha) as (e' & _ & _ & E & _). exists e'.
    split; [done|]. by eapply runs_step.
Qed.

(** A task posted before the connection closes.  [SendInternal2] is bound to the
    bare pointer.  When nobody but the handler itself holds a reference, closing
    deletes it, and the task that is still posted uses an object that is gone; when
    somebody does and the connection is idle, the task makes a [send] on no socket,
    whose failure ends in a failed [DCHECK] or a copy from out of bounds. *)
Theorem posted_send_after_close (dcheck_on : bool) (s : Z) (on_loop : bool) (e : engine) (tr : list act) (d : bytes) (ts : list task) :
  runs dcheck_on s on_loop e tr -> zlen (concat (map snd (saids tr))) <= io_limit ->
  e_tasks e = RunSendInternal2 d :: ts -> 0 < zlen d < 2 ^ 32 - 1 ->
  (exists e', CloseOnLoop (Engine (e_handler e) 0 (e_deleted e) (e_tasks e)) = Ret e' /\ e_deleted e' = true /\
     forall r wb on_new, RunTask dcheck_on r wb on_new e' = Fault OutOfBounds) /\
  (IsWriting (e_handler e) = false -> 0 < e_held e ->
   exists e', CloseOnLoop e = Ret e' /\ e_deleted e' = false /\
     forall wb on_new, RunTask dcheck_on (-1) wb on_new e' = Fault (if dcheck_on then AssertFail else OutOfBounds)).
Proof.
  intros HR Hl Ht Hd. destruct (runs_inv dcheck_on s on_loop e tr HR Hl) as (order & pending & [_ _ _ (Ha & Hrf & Hh) _ H5 _ _]).
  destruct (Close_write (e_handler e)) as (E1 & E2 & E3). unfold CloseOnLoop, use, with_handler. cbn [e_deleted e_handler e_held e_tasks].
  rewrite Ha, E3, Hrf. cbn [negb guard_or]. split.
  - eexists. split; [done|]. split; [done|]. intros. unfold RunTask. cbn [e_tasks]. by rewrite Ht.
  - intros Hw Hheld. eexists. split; [done|]. rewrite (proj2 (Z.eqb_neq (1 - 1 + e_held e) 0)) by lia. rewrite andb_false_r. split; [done|].
    intros. unfold RunTask. cbn [e_tasks]. rewrite Ht. unfold use, pop_task. cbn [e_deleted e_handler e_held e_tasks orb negb guard_or].
    rewrite send_minus_one; [done|rewrite E1; by eapply idle_empty|unfold IsWriting; by rewrite E2|done].
Qed.

(** * Witnesses *)
(** Created and sent to from another thread before its loop ran; then the loop creates
    it, two bytes arrive of which the delegate takes one, the loop sends a buffer, of
    which the socket takes one byte, and an owner comes and goes. *)
Definition started : list act :=
  [Call (Some 2%nat) [1; 2] 0 false; Task 0 false 0; Arrived [8; 9] 1; CallBuffer None (io_with [3; 4]) [3; 4] 1 false; Retain; LetGo].
Definition next (e : engine) (a : act) : engine := match step true e a with Ret e => e | _ => new_engine 7 end.
Definition started_engine : engine :=
  foldl next (match CreateHandler false 0 (new_engine 7) with Ret e => e | _ => new_engine 7 end) started.
Lemma runs_next e tr a : runs true 7 false e tr -> possible e a -> (exists e', step true e a = Ret e') -> runs true 7 false (next e a) (tr ++ [a]).
Proof. intros H Hp [e' E]. unfold next. rewrite E. by eapply runs_step. Qed.
Lemma started_runs : runs true 7 false started_engine started.
Proof.
  change started with (((((([] ++ [Call (Some 2%nat) [1; 2] 0 false]) ++ [Task 0 false 0]) ++ [Arrived [8; 9] 1]) ++
    [CallBuffer None (io_with [3; 4]) [3; 4] 1 false]) ++ [Retain]) ++ [LetGo]).
  unfold started_engine, started. cbn [foldl].
  repeat (apply runs_next; [| |eexists; by vm_compute]).
  - by apply runs_created.
  - by split.
  - done.
  - by vm_compute.
  - split; [exists 8; by apply io_with_rep|]. split; [done|]. intros _. unfold send_accepts, max_send. change (zlen [3; 4]) with 2. lia.
  - done.
  - by vm_compute.
Qed.

(** The later call overtook the earlier thread. *)
Lemma threads_fifo_witness :
  exists order pending c, e_tasks started_engine = map snd pending /\
    PeekAt (write_buf_ (e_handler started_engine)) 0 (ReadableBytes (write_buf_ (e_handler started_engine))) = Ret c /\
    wire (e_handler started_engine) ++ c = concat (map snd order) /\
    forall who, said who order ++ said who (pend pending) = said who (saids started).
Proof. exact (proj1 (threads_fifo true 7 false started_engine started started_runs ltac:(by vm_compute))). Defined.

Lemma posted_send_after_close_witness :
  exists e', CloseOnLoop (Engine (e_handler started_engine) 0 false (e_tasks started_engine)) = Ret e' /\ e_deleted e' = true /\
    forall r wb on_new, RunTask true r wb on_new e' = Fault OutOfBounds.
Proof.
  exact (proj1 (posted_send_after_close true 7 false started_engine started [1; 2] [] started_runs ltac:(by vm_compute) eq_refl ltac:(by vm_compute))).
Defined.
