(* ===== verification/MessageLoop.v ===== *)
(** The message loop of a thread: [zutils/base/message_loop/message_loop.cc],
    [incoming_task_queue.cc], [base/run_loop.cc], [base/pending_task.cc], and the two
    pumps that drive it, [message_pump_default.cc] and
    [net/message_loop/message_pump_libevent2.cc].

    The thread is a stack of frames: the code it runs (its main function, a task, a
    callback of libevent) and the pumps that code has started.  A step is what
    happens between two points where another thread may get in. *)
From Stdlib Require Import ZArith Lia Bool.
From stdpp Require Import base list numbers gmap.
From S2P Require Import Prelude.

Open Scope Z_scope.

(** The pumps of the two message loops: [MessagePumpDefault] of an ordinary thread,
    [MessagePumpLibevent2] of a reactor. *)
Inductive pump_type := PumpDefault | PumpLibevent2.

(** Where a pump is in its [Run]: [DoWork] is three places, since other threads may
    post between them. *)
Inductive pump_pc :=
  | AtDoWork | AtReload | AtPop | AfterDoWork (did_work : bool)
  | AtPoll (did_work : bool) | AfterPoll (did_work : bool)
  | AtDelayed (did_work : bool) | AfterDelayed (did_work : bool)
  | AtIdle | AfterIdle (did_work : bool)
  | AtWait | Blocked (timed : bool) | Dispatching.

Section Loop.
(** Closures, equal as [Callback::Equals] has it. *)
Context {closure : Type} `{EqDecision closure}.

(** [PendingTask]; times are microseconds, 0 is the null time. *)
Record pending_task := PendingTask { task : closure; delayed_run_time : Z; sequence_num : Z; nestable : bool }.

#[export] Instance pending_task_eq_dec : EqDecision pending_task.
Proof. solve_decision. Defined.

(** [PendingTask::operator<]: the greatest is the one to run next. *)
Definition task_lt (a b : pending_task) : bool :=
  if delayed_run_time a <? delayed_run_time b then false
  else if delayed_run_time b <? delayed_run_time a then true
  else 0 <? s32 (sequence_num a - sequence_num b).
Definition is_delayed (t : pending_task) : bool := negb (delayed_run_time t =? 0).

(** [top] and [pop] of the [std::priority_queue]: a greatest element, and the rest. *)
Fixpoint extract_top (q : list pending_task) : option (pending_task * list pending_task) :=
  match q with
  | [] => None
  | t :: q => match extract_top q with
              | None => Some (t, [])
              | Some (m, r) => Some (if task_lt t m then (m, t :: r) else (t, q))
              end
  end.
Definition top (q : list pending_task) : option pending_task := fst <$> extract_top q.

(** What code on the thread does with its loop; [RunLoop]s are named by numbers. *)
Inductive cmd :=
  | DoPost (task : closure) (delay : Z) (nestable : bool)
  | DoQuitNow | DoQuitWhenIdle
  | DoSetNestableTasksAllowed (allowed : bool)
  | DoRun (rl : nat) | DoRunUntilIdle (rl : nat) | DoQuit (rl : nat).

(** A frame of the thread: code, and whether it is a task; or a pump, with the
    [RunLoop] it runs for and what its two [AutoReset]s will restore. *)
Inductive frame :=
  | CodeFrame (is_task : bool) (cmds : list cmd)
  | PumpFrame (rl : nat) (pc : pump_pc) (old_keep_running old_in_run : bool).

Record incoming := IncomingTaskQueue { incoming_queue_ : list pending_task; message_loop_ : bool; next_sequence_num_ : Z }.
(** A [RunLoop]: the one it interrupted, and its flags. *)
Record run_loop := RunLoop {
  previous_run_loop_ : option nat; run_depth_ : Z; run_called_ : bool; quit_called_ : bool; running_ : bool;
  quit_when_idle_received_ : bool }.
Definition new_run_loop : run_loop := RunLoop None 0 false false false false.
(** The pump: [wakeups] is 1 if the event of the default pump is signalled, and the
    number of bytes in the pipe of the other. *)
Record pump := MessagePump {
  keep_running_ : bool; in_run_ : bool; delayed_work_time_ : Z; wakeups : Z; processed_io_events_ : bool }.

Record loop := MessageLoop {
  incoming_task_queue_ : incoming;
  work_queue_ : list pending_task;
  delayed_work_queue_ : list pending_task;
  deferred_non_nestable_work_queue_ : list pending_task;
  nestable_tasks_allowed_ : bool;
  recent_time_ : Z;
  run_loop_ : option nat;
  run_loops : gmap nat run_loop;
  pump_ : pump;
  frames : list frame }.

Definition set_incoming (x : incoming) (l : loop) : loop :=
  MessageLoop x (work_queue_ l) (delayed_work_queue_ l) (deferred_non_nestable_work_queue_ l) (nestable_tasks_allowed_ l)
    (recent_time_ l) (run_loop_ l) (run_loops l) (pump_ l) (frames l).
Definition set_queues (work delayed deferred : list pending_task) (l : loop) : loop :=
  MessageLoop (incoming_task_queue_ l) work delayed deferred (nestable_tasks_allowed_ l)
    (recent_time_ l) (run_loop_ l) (run_loops l) (pump_ l) (frames l).
Definition set_nestable (b : bool) (l : loop) : loop :=
  MessageLoop (incoming_task_queue_ l) (work_queue_ l) (delayed_work_queue_ l) (deferred_non_nestable_work_queue_ l) b
    (recent_time_ l) (run_loop_ l) (run_loops l) (pump_ l) (frames l).
Definition set_recent (t : Z) (l : loop) : loop :=
  MessageLoop (incoming_task_queue_ l) (work_queue_ l) (delayed_work_queue_ l) (deferred_non_nestable_work_queue_ l)
    (nestable_tasks_allowed_ l) t (run_loop_ l) (run_loops l) (pump_ l) (frames l).
Definition set_run_loops (current : option nat) (rls : gmap nat run_loop) (l : loop) : loop :=
  MessageLoop (incoming_task_queue_ l) (work_queue_ l) (delayed_work_queue_ l) (deferred_non_nestable_work_queue_ l)
    (nestable_tasks_allowed_ l) (recent_time_ l) current rls (pump_ l) (frames l).
Definition set_pump (p : pump) (l : loop) : loop :=
  MessageLoop (incoming_task_queue_ l) (work_queue_ l) (delayed_work_queue_ l) (deferred_non_nestable_work_queue_ l)
    (nestable_tasks_allowed_ l) (recent_time_ l) (run_loop_ l) (run_loops l) p (frames l).
Definition set_frames (fs : list frame) (l : loop) : loop :=
  MessageLoop (incoming_task_queue_ l) (work_queue_ l) (delayed_work_queue_ l) (deferred_non_nestable_work_queue_ l)
    (nestable_tasks_allowed_ l) (recent_time_ l) (run_loop_ l) (run_loops l) (pump_ l) fs.
Definition incoming_of (l : loop) : list pending_task := incoming_queue_ (incoming_task_queue_ l).

(** A task was accepted; a task starts, at a time; a task is deleted with its loop. *)
Inductive label := Posted (t : pending_task) | Started (t : pending_task) (now : Z) | Deleted (t : pending_task).

(** What libevent does next in [event_base_loop]: call [OnWakeup], call a watcher,
    whose code is [cmds], let the timer fire, or return. *)
Inductive io_event := IoReturn | IoWakeup | IoCallback (cmds : list cmd) | IoTimer.

(** The kind of pump and the room in its pipe; what the tasks do when they run, and
    what deleting one posts. *)
Context (pump_kind : pump_type) (pipe_capacity : Z) (body : closure -> list cmd)
  (on_delete : closure -> list (closure * Z * bool)).

(** * The pump, as the loop calls it *)
Definition with_wakeups (n : Z) (p : pump) : pump :=
  MessagePump (keep_running_ p) (in_run_ p) (delayed_work_time_ p) n (processed_io_events_ p).
Definition with_processed (b : bool) (p : pump) : pump :=
  MessagePump (keep_running_ p) (in_run_ p) (delayed_work_time_ p) (wakeups p) b.
Definition with_keep_running (keep in_run : bool) (p : pump) : pump :=
  MessagePump keep in_run (delayed_work_time_ p) (wakeups p) (processed_io_events_ p).
(** Signals the event; writes a byte, if the pipe takes it. *)
Definition PumpScheduleWork (p : pump) : pump :=
  with_wakeups (match pump_kind with PumpDefault => 1 | PumpLibevent2 => Z.min pipe_capacity (wakeups p + 1) end) p.
Definition ScheduleDelayedWork (t : Z) (p : pump) : pump :=
  MessagePump (keep_running_ p) (in_run_ p) t (wakeups p) (processed_io_events_ p).
Definition PumpQuit (p : pump) : outcome pump :=
  match pump_kind with
  | PumpDefault => Ret (with_keep_running false (in_run_ p) p)
  | PumpLibevent2 => DCHECK true (in_run_ p) (Ret (PumpScheduleWork (with_keep_running false (in_run_ p) p)))
  end.

(** * Posting *)
Definition CalculateDelayedRuntime (now delay : Z) : outcome Z :=
  if 0 <? delay then Ret (s64 (now + delay)) else DCHECK true (Z.quot delay 1000 =? 0) (Ret 0).
(** [MessageLoop::ScheduleWork]; [AlwaysNotifyPump] is false. *)
Definition ScheduleWork (was_empty : bool) (l : loop) : loop :=
  if was_empty then set_pump (PumpScheduleWork (pump_ l)) l else l.
(** [AddToIncomingQueue] and [PostPendingTask], under the lock. *)
Definition PostPendingTask (t : pending_task) (l : loop) : loop * list label * bool :=
  let q := incoming_task_queue_ l in
  if negb (message_loop_ q) then (l, [], false)
  else
    let t := PendingTask (task t) (delayed_run_time t) (next_sequence_num_ q) (nestable t) in
    let was_empty := match incoming_queue_ q with [] => true | _ => false end in
    let l := set_incoming (IncomingTaskQueue (incoming_queue_ q ++ [t]) true (s32 (next_sequence_num_ q + 1))) l in
    (ScheduleWork was_empty l, [Posted t], true).
Definition AddToIncomingQueue (c : closure) (now delay : Z) (nest : bool) (l : loop) : outcome (loop * list label * bool) :=
  time ← CalculateDelayedRuntime now delay; Ret (PostPendingTask (PendingTask c time 0 nest) l).

(** [MessageLoop::ReloadWorkQueue] with [IncomingTaskQueue::ReloadWorkQueue]. *)
Definition ReloadWorkQueue (l : loop) : loop :=
  match work_queue_ l, incoming_of l with
  | [], (_ :: _) as ts =>
      let q := incoming_task_queue_ l in
      set_queues ts (delayed_work_queue_ l) (deferred_non_nestable_work_queue_ l)
        (set_incoming (IncomingTaskQueue [] (message_loop_ q) (next_sequence_num_ q)) l)
  | _, _ => l
  end.
Definition AddToDelayedWorkQueue (t : pending_task) (l : loop) : loop :=
  set_queues (work_queue_ l) (delayed_work_queue_ l ++ [t]) (deferred_non_nestable_work_queue_ l) l.

(** * Running a task *)
(** The current [RunLoop], which must be there. *)
Definition current (l : loop) : outcome run_loop :=
  match run_loop_ l ≫= (run_loops l !!.) with Some r => Ret r | None => Fault OutOfBounds end.
Definition IsNested (l : loop) : outcome bool := r ← current l; Ret (1 <? run_depth_ r).

(** [RunTask]: the task's code goes on top of the stack; [TaskDone] is what is left
    to do after it. *)
Definition RunTask (t : pending_task) (now : Z) (l : loop) : outcome (loop * list label) :=
  DCHECK true (nestable_tasks_allowed_ l)
    (Ret (set_frames (CodeFrame true (body (task t)) :: frames l) (set_nestable false l), [Started t now])).
Definition TaskDone (l : loop) : loop := set_nestable true l.

Definition DeferOrRunPendingTask (t : pending_task) (now : Z) (l : loop) : outcome (loop * list label * bool) :=
  r ← current l;
  if nestable t || (run_depth_ r =? 1) then '(l, tr) ← RunTask t now l; Ret (l, tr, true)
  else Ret (set_queues (work_queue_ l) (delayed_work_queue_ l) (deferred_non_nestable_work_queue_ l ++ [t]) l, [], false).

Definition ProcessNextDelayedNonNestableTask (now : Z) (l : loop) : outcome (loop * list label * bool) :=
  r ← current l;
  if negb (run_depth_ r =? 1) then Ret (l, [], false)
  else match deferred_non_nestable_work_queue_ l with
       | [] => Ret (l, [], false)
       | t :: ts => '(l, tr) ← RunTask t now (set_queues (work_queue_ l) (delayed_work_queue_ l) ts l); Ret (l, tr, true)
       end.

(** A pump goes on at [pc]. *)
Definition go (pc : pump_pc) (l : loop) : loop :=
  match frames l with PumpFrame rl _ k i :: fs => set_frames (PumpFrame rl pc k i :: fs) l | _ => l end.

(** The body of [DoWork]'s inner loop: the oldest task is run, put in the delayed
    queue or deferred. *)
Definition DoWork_pop (now : Z) (l : loop) : outcome (loop * list label) :=
  match work_queue_ l with
  | [] => Fault OutOfBounds
  | t :: ts =>
      let l := set_queues ts (delayed_work_queue_ l) (deferred_non_nestable_work_queue_ l) l in
      let next := match ts with [] => AtReload | _ => AtPop end in
      if is_delayed t then
        let l := AddToDelayedWorkQueue t l in
        Ret (go next (if bool_decide (task <$> top (delayed_work_queue_ l) = Some (task t))
                      then set_pump (ScheduleDelayedWork (delayed_run_time t) (pump_ l)) l else l), [])
      else
        '(l, tr, ran) ← DeferOrRunPendingTask t now (go (AfterDoWork true) l);
        Ret (if (ran : bool) then l else go next l, tr)
  end.

(** [DoDelayedWork] of a pump that has done work or not, with a time read only when
    the last one is too old. *)
Definition DoDelayedWork (now : Z) (did_work : bool) (l : loop) : outcome (loop * list label) :=
  let after (d : bool) := go (AfterDelayed (did_work || d)) in
  let set_next (t : Z) (l : loop) := set_pump (ScheduleDelayedWork t (pump_ l)) l in
  match nestable_tasks_allowed_ l, extract_top (delayed_work_queue_ l) with
  | true, Some (t, rest) =>
      let next_run_time := delayed_run_time t in
      let l := if recent_time_ l <? next_run_time then set_recent now l else l in
      if recent_time_ l <? next_run_time then Ret (after false (set_next next_run_time l), [])
      else
        let l := set_queues (work_queue_ l) rest (deferred_non_nestable_work_queue_ l) l in
        let l := match top rest with Some t' => set_next (delayed_run_time t') l | None => l end in
        '(l, tr, ran) ← DeferOrRunPendingTask t now (after true l);
        Ret (if (ran : bool) then l else after false l, tr)
  | _, _ => Ret (after false (set_next 0 (set_recent 0 l)), [])
  end.

(** [MessageLoop::QuitNow] and [QuitWhenIdle]; [NOTREACHED] is a failed check. *)
Definition QuitNow (l : loop) : outcome loop :=
  match run_loop_ l with
  | Some _ => p ← PumpQuit (pump_ l); Ret (set_pump p l)
  | None => Fault AssertFail
  end.
Definition QuitWhenIdle (l : loop) : outcome loop :=
  match run_loop_ l with
  | Some id => r ← current l;
      Ret (set_run_loops (run_loop_ l) (<[id := RunLoop (previous_run_loop_ r) (run_depth_ r) (run_called_ r) (quit_called_ r) (running_ r) true]> (run_loops l)) l)
  | None => Fault AssertFail
  end.
Definition SetNestableTasksAllowed (allowed : bool) (l : loop) : loop :=
  set_nestable allowed (if allowed then set_pump (PumpScheduleWork (pump_ l)) l else l).

Definition DoIdleWork (now : Z) (l : loop) : outcome (loop * list label) :=
  '(l, tr, ran) ← ProcessNextDelayedNonNestableTask now (go (AfterIdle true) l);
  if (ran : bool) then Ret (l, tr)
  else
    r ← current l;
    l ← (if quit_when_idle_received_ r then p ← PumpQuit (pump_ l); Ret (set_pump p l) else Ret l);
    Ret (go (AfterIdle false) l, tr).

(** * Run loops *)
Definition run_loop_at (id : nat) (l : loop) : run_loop := default new_run_loop (run_loops l !! id).

(** [RunLoop::BeforeRun]: false if [Quit] came first. *)
Definition BeforeRun (id : nat) (l : loop) : outcome (loop * bool) :=
  let r := run_loop_at id l in
  DCHECK true (negb (run_called_ r)) (
    if quit_called_ r then
      Ret (set_run_loops (run_loop_ l) (<[id := RunLoop (previous_run_loop_ r) (run_depth_ r) true true (running_ r) (quit_when_idle_received_ r)]> (run_loops l)) l, false)
    else
      let depth := match run_loop_ l with Some p => run_depth_ (run_loop_at p l) + 1 | None => 1 end in
      Ret (set_run_loops (Some id) (<[id := RunLoop (run_loop_ l) depth true false true (quit_when_idle_received_ r)]> (run_loops l)) l, true)).
(** The pump's [Run] begins: the default pump checks that nobody quit, the other
    keeps what it will restore. *)
Definition EnterPump (id : nat) (l : loop) : outcome loop :=
  let p := pump_ l in
  match pump_kind with
  | PumpDefault => DCHECK true (keep_running_ p) (Ret (set_frames (PumpFrame id AtDoWork true true :: frames l) l))
  | PumpLibevent2 =>
      Ret (set_frames (PumpFrame id AtDoWork (keep_running_ p) (in_run_ p) :: frames l) (set_pump (with_keep_running true true p) l))
  end.
Definition RunLoopRun (id : nat) (l : loop) : outcome loop :=
  '(l, runs) ← BeforeRun id l; if (runs : bool) then EnterPump id l else Ret l.
Definition RunUntilIdle (id : nat) (l : loop) : outcome loop :=
  let r := run_loop_at id l in
  RunLoopRun id (set_run_loops (run_loop_ l) (<[id := RunLoop (previous_run_loop_ r) (run_depth_ r) (run_called_ r) (quit_called_ r) (running_ r) true]> (run_loops l)) l).
Definition RunLoopQuit (id : nat) (l : loop) : outcome loop :=
  let r := run_loop_at id l in
  let l := set_run_loops (run_loop_ l) (<[id := RunLoop (previous_run_loop_ r) (run_depth_ r) (run_called_ r) true (running_ r) (quit_when_idle_received_ r)]> (run_loops l)) l in
  if running_ r && bool_decide (run_loop_ l = Some id) then QuitNow l else Ret l.
(** [RunLoop::AfterRun] *)
Definition AfterRun (id : nat) (l : loop) : outcome loop :=
  let r := run_loop_at id l in
  let l := set_run_loops (previous_run_loop_ r) (<[id := RunLoop (previous_run_loop_ r) (run_depth_ r) (run_called_ r) (quit_called_ r) false (quit_when_idle_received_ r)]> (run_loops l)) l in
  match previous_run_loop_ r with
  | Some p => if quit_called_ (run_loop_at p l) then QuitNow l else Ret l
  | None => Ret l
  end.
(** The pump's [Run] ends and with it the [RunLoop]'s. *)
Definition LeavePump (id : nat) (old_keep old_in_run : bool) (fs : list frame) (l : loop) : outcome loop :=
  let p := match pump_kind with
           | PumpDefault => with_keep_running true (in_run_ (pump_ l)) (pump_ l)
           | PumpLibevent2 => with_keep_running old_keep old_in_run (pump_ l)
           end in
  AfterRun id (set_frames fs (set_pump p l)).

(** * The pumps *)
(** Between two calls into the loop: go on, or leave. *)
Definition continue_at (pc : pump_pc) (id : nat) (old_keep old_in_run : bool) (fs : list frame) (l : loop) : outcome (loop * list label) :=
  if keep_running_ (pump_ l) then Ret (go pc l, []) else l ← LeavePump id old_keep old_in_run fs l; Ret (l, []).
(** [event_base_loop] calls [OnWakeup] if there is a byte, which ends the loop; a
    watcher; or returns. *)
Definition OnWakeup (l : loop) : loop := set_pump (with_processed true (with_wakeups (wakeups (pump_ l) - 1) (pump_ l))) l.
Definition OnLibeventNotification (cmds : list cmd) (pc : pump_pc) (l : loop) : loop :=
  let l := go pc (set_pump (with_processed true (pump_ l)) l) in set_frames (CodeFrame false cmds :: frames l) l.
Definition event_base_loop (ev : io_event) (again after : pump_pc) (may_return timed : bool) (now : Z) (l : loop) : loop :=
  match ev with
  | IoWakeup => if 0 <? wakeups (pump_ l) then go after (OnWakeup l) else l
  | IoCallback cmds => OnLibeventNotification cmds again l
  | IoTimer => if timed && (delayed_work_time_ (pump_ l) <=? now) then go after l else l
  | IoReturn => if may_return then go after l else l
  end.

Definition pump_step (now : Z) (ev : io_event) (id : nat) (pc : pump_pc) (old_keep old_in_run : bool) (fs : list frame) (l : loop)
    : outcome (loop * list label) :=
  match pc with
  | AtDoWork => Ret (go (if nestable_tasks_allowed_ l then AtReload else AfterDoWork false) l, [])
  | AtReload => let l := ReloadWorkQueue l in Ret (go (match work_queue_ l with [] => AfterDoWork false | _ => AtPop end) l, [])
  | AtPop => DoWork_pop now l
  | AfterDoWork d =>
      continue_at (match pump_kind with PumpDefault => AtDelayed d | PumpLibevent2 => AtPoll d end) id old_keep old_in_run fs l
  | AtPoll d => Ret (event_base_loop ev (AtPoll d) (AfterPoll d) true false now l, [])
  | AfterPoll d =>
      let d := d || processed_io_events_ (pump_ l) in
      continue_at (AtDelayed d) id old_keep old_in_run fs (set_pump (with_processed false (pump_ l)) l)
  | AtDelayed d => DoDelayedWork now d l
  | AfterDelayed d => continue_at (if d then AtDoWork else AtIdle) id old_keep old_in_run fs l
  | AtIdle => DoIdleWork now l
  | AfterIdle d => continue_at (if d then AtDoWork else AtWait) id old_keep old_in_run fs l
  | AtWait =>
      let t := delayed_work_time_ (pump_ l) in
      Ret (if t =? 0 then go (Blocked false) l
           else if now <? t then go (Blocked true) l
           else go AtDoWork (set_pump (ScheduleDelayedWork 0 (pump_ l)) l), [])
  | Blocked timed =>
      Ret (match pump_kind with
           | PumpDefault =>
               if 0 <? wakeups (pump_ l) then go AtDoWork (set_pump (with_wakeups 0 (pump_ l)) l)
               else if timed && (delayed_work_time_ (pump_ l) <=? now) then go AtDoWork l else l
           | PumpLibevent2 => event_base_loop ev Dispatching AtDoWork false timed now l
           end, [])
  | Dispatching => Ret (event_base_loop ev Dispatching AtDoWork true false now l, [])
  end.

(** * The thread *)
Definition code_step (now : Z) (is_task : bool) (cmds : list cmd) (fs : list frame) (l : loop) : outcome (loop * list label) :=
  match cmds with
  | [] => let l := set_frames fs l in Ret (if is_task then TaskDone l else l, [])
  | c :: cmds =>
      let l := set_frames (CodeFrame is_task cmds :: fs) l in
      match c with
      | DoPost c delay nest => '(l, tr, _) ← AddToIncomingQueue c now delay nest l; Ret (l, tr)
      | DoQuitNow => l ← QuitNow l; Ret (l, [])
      | DoQuitWhenIdle => l ← QuitWhenIdle l; Ret (l, [])
      | DoSetNestableTasksAllowed b => Ret (SetNestableTasksAllowed b l, [])
      | DoRun id => l ← RunLoopRun id l; Ret (l, [])
      | DoRunUntilIdle id => l ← RunUntilIdle id l; Ret (l, [])
      | DoQuit id => l ← RunLoopQuit id l; Ret (l, [])
      end
  end.

(** A step of the thread, or a post from another one. *)
Inductive input := Tick (ev : io_event) | Foreign (task : closure) (delay : Z) (nestable : bool).
Definition step (now : Z) (i : input) (l : loop) : outcome (loop * list label) :=
  match i with
  | Foreign c delay nest => '(l, tr, _) ← AddToIncomingQueue c now delay nest l; Ret (l, tr)
  | Tick ev =>
      match frames l with
      | [] => Ret (l, [])
      | CodeFrame is_task cmds :: fs => code_step now is_task cmds fs l
      | PumpFrame id pc k i :: fs => pump_step now ev id pc k i fs l
      end
  end.

(** A new loop, on a thread about to run [main]. *)
Definition new_loop (main : list cmd) : loop :=
  MessageLoop (IncomingTaskQueue [] true 0) [] [] [] true 0 None ∅ (MessagePump true false 0 0 false) [CodeFrame false main].

(** Runs of the thread, by a clock that does not go back. *)
Inductive runs (main : list cmd) : loop -> list label -> Z -> Prop :=
  | runs_new now : 0 <= now -> runs main (new_loop main) [] now
  | runs_step l tr now now' i l' tr' :
      runs main l tr now -> now <= now' ->
      step now' i l = Ret (l', tr') -> runs main l' (tr ++ tr') now'.

(** * The end of a loop *)
(** Deleting a task posts what [on_delete] says. *)
Fixpoint post_all (now : Z) (ps : list (closure * Z * bool)) (l : loop) : outcome (loop * list label) :=
  match ps with
  | [] => Ret (l, [])
  | (c, delay, nest) :: ps =>
      '(l, tr, _) ← AddToIncomingQueue c now delay nest l; '(l, tr') ← post_all now ps l; Ret (l, tr ++ tr')
  end.
Fixpoint delete_all (now : Z) (ts : list pending_task) (l : loop) : outcome (loop * list label) :=
  match ts with
  | [] => Ret (l, [])
  | t :: ts => '(l, tr) ← post_all now (on_delete (task t)) l; '(l, tr') ← delete_all now ts l; Ret (l, Deleted t :: tr ++ tr')
  end.
(** The delayed queue in the order its tasks come off. *)
Fixpoint drain (fuel : nat) (q : list pending_task) : list pending_task :=
  match fuel, extract_top q with S fuel, Some (t, q) => t :: drain fuel q | _, _ => [] end.

Definition DeletePendingTasks (now : Z) (l : loop) : outcome (loop * list label * bool) :=
  let work := work_queue_ l in
  let did_work := match work with [] => false | _ => true end in
  '(l, tr1) ← delete_all now (filter (fun t => is_delayed t = false) work)
    (set_queues [] (delayed_work_queue_ l ++ filter (fun t => is_delayed t = true) work) (deferred_non_nestable_work_queue_ l) l);
  let deferred := deferred_non_nestable_work_queue_ l in
  let did_work := did_work || match deferred with [] => false | _ => true end in
  '(l, tr2) ← delete_all now deferred (set_queues [] (delayed_work_queue_ l) [] l);
  let delayed := delayed_work_queue_ l in
  let did_work := did_work || match delayed with [] => false | _ => true end in
  '(l, tr3) ← delete_all now (drain (length delayed) delayed) (set_queues [] [] [] l);
  Ret (l, tr1 ++ tr2 ++ tr3, did_work).

(** [~MessageLoop]: the loop of at most 100 rounds, which must end with empty
    queues, and [WillDestroyCurrentMessageLoop]. *)
Fixpoint destroy_loop (rounds : nat) (now : Z) (l : loop) : outcome (loop * list label) :=
  match rounds with
  | O => Fault AssertFail
  | S rounds =>
      '(l, tr1, _) ← DeletePendingTasks now l;
      '(l, tr2, did_work) ← DeletePendingTasks now (ReloadWorkQueue l);
      if (did_work : bool) then '(l, tr3) ← destroy_loop rounds now l; Ret (l, tr1 ++ tr2 ++ tr3)
      else Ret (l, tr1 ++ tr2)
  end.
Definition DestroyMessageLoop (now : Z) (l : loop) : outcome (loop * list label) :=
  DCHECK true (bool_decide (run_loop_ l = None)) (
    '(l, tr) ← destroy_loop 100 now l;
    let q := incoming_task_queue_ l in
    Ret (set_incoming (IncomingTaskQueue (incoming_queue_ q) false (next_sequence_num_ q)) l, tr)).
End Loop.
