(* ===== verification/TaskOrder.v ===== *)
(** The order in which a loop runs its tasks. *)
From Stdlib Require Import ZArith Lia Bool Sorting.Permutation Sorting.Sorted.
From stdpp Require Import base list numbers gmap.
From S2P Require Import Prelude MessageLoop.

Open Scope Z_scope.

Lemma bind_Ret {A B} (m : outcome A) (k : A -> outcome B) b : (m ≫= k) = Ret b -> exists a, m = Ret a /\ k a = Ret b.
Proof. destruct m as [a|]; [|done]. intros H. by exists a. Qed.
Lemma DCHECK_Ret dcheck_on {A} c (k : outcome A) a : DCHECK dcheck_on c k = Ret a -> k = Ret a /\ (dcheck_on = true -> c = true).
Proof. unfold DCHECK, guard_or. destruct dcheck_on, c; cbn; intros H; try done. Qed.

(** Take apart a computation that returned. *)
Ltac inv_ret :=
  repeat match goal with
  | H : Ret _ = Ret _ |- _ => injection H as H; simplify_eq
  | H : Fault _ = Ret _ |- _ => discriminate H
  | H : (_ ≫= _) = Ret _ |- _ => apply bind_Ret in H as (? & ? & H)
  | H : DCHECK _ _ _ = Ret _ |- _ => apply DCHECK_Ret in H as [H ?]
  | p : (_ * _)%type |- _ => destruct p
  end; simplify_eq/=.

Section Order.
Context {closure : Type} `{EqDecision closure}.
Abbreviation pending_task := (@pending_task closure).
Abbreviation loop := (@loop closure).
Abbreviation label := (@label closure).
Context (pump_kind : pump_type) (pipe_capacity : Z) (body : closure -> list (@cmd closure)).

(** * What a step may do to the queues *)
Record view := View { v_incoming : @incoming closure; v_work : list pending_task; v_delayed : list pending_task; v_deferred : list pending_task }.
Definition queues (l : loop) : view :=
  View (incoming_task_queue_ l) (work_queue_ l) (delayed_work_queue_ l) (deferred_non_nestable_work_queue_ l).

(** The queues by themselves: a task is posted with the next number, the incoming
    tasks move on when the work queue is empty, its first is run, put off, or
    deferred if this is a nested loop, as is the top of the delayed queue when its
    time has come; the deferred run when the loop is not nested. *)
Inductive move (now : Z) (nested : Prop) : view -> view -> list label -> Prop :=
  | MStay v : move now nested v v []
  | MPost inc n w d f t : sequence_num t = n ->
      move now nested (View (IncomingTaskQueue inc true n) w d f)
        (View (IncomingTaskQueue (inc ++ [t]) true (s32 (n + 1))) w d f) [Posted t]
  | MReload inc b n d f : move now nested (View (IncomingTaskQueue inc b n) [] d f) (View (IncomingTaskQueue [] b n) inc d f) []
  | MPutOff q t w d f : is_delayed t = true -> move now nested (View q (t :: w) d f) (View q w (d ++ [t]) f) []
  | MRun q t w d f : is_delayed t = false -> nestable t = true \/ ~ nested ->
      move now nested (View q (t :: w) d f) (View q w d f) [Started t now]
  | MDefer q t w d f : is_delayed t = false -> nestable t = false -> nested ->
      move now nested (View q (t :: w) d f) (View q w d (f ++ [t])) []
  | MRunDelayed q t w d rest f : extract_top d = Some (t, rest) -> delayed_run_time t <= now -> nestable t = true \/ ~ nested ->
      move now nested (View q w d f) (View q w rest f) [Started t now]
  | MDeferDelayed q t w d rest f : extract_top d = Some (t, rest) -> delayed_run_time t <= now -> nestable t = false -> nested ->
      move now nested (View q w d f) (View q w rest (f ++ [t])) []
  | MRunDeferred q t w d f : ~ nested -> move now nested (View q w d (t :: f)) (View q w d f) [Started t now].

Lemma move_started now nested v v' tr t n : move now nested v v' tr -> Started t n ∈ tr -> nestable t = true \/ ~ nested.
Proof.
  intros M. destruct M; try (by intros ?%elem_of_nil); intros Hs%list_elem_of_singleton; simplify_eq; auto.
Qed.

(** Nested, as the code sees it. *)
Definition in_nested (l : loop) : Prop := ~ exists r, current l = Ret r /\ run_depth_ r = 1.

Lemma queues_go pc (l : loop) : queues (go pc l) = queues l.
Proof. unfold go. by destruct (frames l) as [|[]]. Qed.
Lemma recent_go pc (l : loop) : recent_time_ (go pc l) = recent_time_ l.
Proof. unfold go. by destruct (frames l) as [|[]]. Qed.
Lemma current_go pc (l : loop) : current (go pc l) = current l.
Proof. unfold go. by destruct (frames l) as [|[]]. Qed.

(** Steps that leave the queues alone. *)
Definition quiet (l l' : loop) : Prop := queues l' = queues l /\ recent_time_ l' = recent_time_ l.
#[local] Instance quiet_refl : Reflexive quiet.
Proof. by split. Qed.
#[local] Instance quiet_trans : Transitive quiet.
Proof. intros a b c [H1 H2] [H3 H4]. split; congruence. Qed.
Lemma quiet_go pc (l : loop) : quiet l (go pc l).
Proof. split; [apply queues_go|apply recent_go]. Qed.
Lemma quiet_pump p (l : loop) : quiet l (set_pump p l).
Proof. by split. Qed.

Lemma QuitNow_quiet l l' : QuitNow pump_kind pipe_capacity l = Ret l' -> quiet l l'.
Proof. unfold QuitNow. destruct (run_loop_ l); [|done]. intros H. by inv_ret. Qed.
Lemma QuitWhenIdle_quiet l l' : QuitWhenIdle l = Ret l' -> quiet l l'.
Proof. unfold QuitWhenIdle. destruct (run_loop_ l); [|done]. intros H. by inv_ret. Qed.
Lemma RunLoopRun_quiet id l l' : RunLoopRun pump_kind id l = Ret l' -> quiet l l'.
Proof.
  unfold RunLoopRun, BeforeRun, EnterPump. intros H. inv_ret.
  destruct (quit_called_ _); inv_ret; [done|]. destruct pump_kind; inv_ret; done.
Qed.
Lemma RunLoopQuit_quiet id l l' : RunLoopQuit pump_kind pipe_capacity id l = Ret l' -> quiet l l'.
Proof.
  unfold RunLoopQuit. intros H. destruct (_ && _); [|by inv_ret]. by apply QuitNow_quiet in H.
Qed.
Lemma LeavePump_quiet id k i fs l l' : LeavePump pump_kind pipe_capacity id k i fs l = Ret l' -> quiet l l'.
Proof.
  unfold LeavePump, AfterRun. intros H. destruct (previous_run_loop_ _); [|by inv_ret].
  destruct (quit_called_ _); [|by inv_ret]. by apply QuitNow_quiet in H.
Qed.
Lemma continue_quiet pc id k i fs l l' tr : continue_at pump_kind pipe_capacity pc id k i fs l = Ret (l', tr) -> quiet l l' /\ tr = [].
Proof.
  unfold continue_at. destruct (keep_running_ _); intros H; inv_ret.
  - split; [apply quiet_go|done].
  - by eapply LeavePump_quiet in H0.
Qed.
Lemma base_loop_quiet ev again after may timed now l : quiet l (event_base_loop ev again after may timed now l).
Proof.
  destruct ev; cbn [event_base_loop]; repeat case_match; try done; try apply quiet_go.
  - etrans; [|apply quiet_go]. done.
  - unfold OnLibeventNotification. etrans; [apply (quiet_pump (with_processed true (pump_ l)))|].
    etrans; [apply (quiet_go again)|]. done.
Qed.

(** The moves of the operations. *)
Lemma quiet_move now l l' : recent_time_ l <= now -> quiet l l' -> move now (in_nested l) (queues l) (queues l') [] /\ recent_time_ l' <= now.
Proof. intros Hn [H1 H2]. rewrite H1, H2. split; [constructor|done]. Qed.

Lemma Add_move c now delay nest l l' tr b : recent_time_ l <= now ->
  AddToIncomingQueue pump_kind pipe_capacity c now delay nest l = Ret (l', tr, b) ->
  move now (in_nested l) (queues l) (queues l') tr /\ recent_time_ l' <= now.
Proof.
  unfold AddToIncomingQueue, PostPendingTask. intros Hr H. inv_ret.
  destruct l as [[inc ml n] w d f na rt rl rls p fs]. cbn in *. destruct ml; cbn in H; simplify_eq; [|split; [constructor|done]].
  unfold ScheduleWork. destruct inc as [|t0 inc]; (split; [|done]).
  - by apply (MPost now _ [] n).
  - by apply (MPost now _ (t0 :: inc) n).
Qed.

Lemma DeferOrRun_cases now t l l' tr ran : DeferOrRunPendingTask body t now l = Ret (l', tr, ran) ->
  recent_time_ l' = recent_time_ l /\
  (if ran then tr = [Started t now] /\ queues l' = queues l /\ (nestable t = true \/ ~ in_nested l)
   else tr = [] /\ l' = set_queues (work_queue_ l) (delayed_work_queue_ l) (deferred_non_nestable_work_queue_ l ++ [t]) l /\
        nestable t = false /\ in_nested l).
Proof.
  unfold DeferOrRunPendingTask, RunTask. intros H. inv_ret. rename H0 into Hc.
  destruct (nestable t) eqn:Hn; cbn [orb] in H; [inv_ret; by eauto|].
  destruct (run_depth_ x =? 1) eqn:Hd; inv_ret; (split; [done|]).
  - split_and!; [done..|]. right. intros []. exists x. split; [done|lia].
  - split_and!; [done..|]. intros (r & Hr & ?). rewrite Hc in Hr. simplify_eq. lia.
Qed.
Lemma in_nested_go pc l : in_nested (go pc l) = in_nested l.
Proof. unfold in_nested. by rewrite current_go. Qed.
Lemma in_nested_same l l' : run_loop_ l' = run_loop_ l -> run_loops l' = run_loops l -> in_nested l' = in_nested l.
Proof. intros E1 E2. unfold in_nested, current. by rewrite E1, E2. Qed.
Lemma run_loop_go pc (l : loop) : run_loop_ (go pc l) = run_loop_ l /\ run_loops (go pc l) = run_loops l.
Proof. unfold go. by destruct (frames l) as [|[]]. Qed.


Lemma DoWork_pop_move now l l' tr : recent_time_ l <= now -> DoWork_pop body now l = Ret (l', tr) ->
  move now (in_nested l) (queues l) (queues l') tr /\ recent_time_ l' <= now.
Proof.
  unfold DoWork_pop. destruct (work_queue_ l) as [|t ts] eqn:Ew; [done|]. intros Hr.
  set (l1 := set_queues ts _ _ l). set (next := match ts with [] => AtReload | _ => AtPop end).
  assert (queues l = View (incoming_task_queue_ l) (t :: ts) (delayed_work_queue_ l) (deferred_non_nestable_work_queue_ l)) as Eq
    by (unfold queues; by rewrite Ew).
  rewrite Eq. destruct (is_delayed t) eqn:Hd; intros H.
  - inv_ret. rewrite queues_go, recent_go. destruct (bool_decide _); (split; [by apply MPutOff|done]).
  - apply bind_Ret in H as ([[la tr0] ran] & Hdr & H). inv_ret. apply DeferOrRun_cases in Hdr as [Hrec Hc].
    rewrite recent_go in Hrec. change (recent_time_ l1) with (recent_time_ l) in Hrec. rewrite in_nested_go in Hc. change (in_nested l1) with (in_nested l) in Hc.
    destruct ran; destruct Hc as (-> & Hq & Hn).
    + rewrite Hq, queues_go. split; [by apply MRun|lia].
    + destruct Hn as [Hn1 Hn2]. rewrite queues_go, recent_go. split; [|lia]. subst. unfold go. destruct (frames l1) as [|[]]; by apply MDefer.
Qed.
Lemma DoDelayedWork_move now d l l' tr : recent_time_ l <= now -> 0 <= now -> DoDelayedWork body now d l = Ret (l', tr) ->
  move now (in_nested l) (queues l) (queues l') tr /\ recent_time_ l' <= now.
Proof.
  unfold DoDelayedWork. intros Hr Hnow. set (l0 := set_pump _ (set_recent 0 l)). 
  assert (Ret (go (AfterDelayed (d || false)) l0, []) = Ret (l', tr) ->
    move now (in_nested l) (queues l) (queues l') tr /\ recent_time_ l' <= now) as Hnone.
  { intros H. inv_ret. rewrite queues_go, recent_go. split; [apply MStay|done]. }
  destruct (nestable_tasks_allowed_ l); [|done]. destruct (extract_top (delayed_work_queue_ l)) as [[t rest]|] eqn:Et; [|done].
  set (l1 := if recent_time_ l <? delayed_run_time t then set_recent now l else l).
  assert (recent_time_ l1 <= now /\ quiet l (set_recent (recent_time_ l) l1) /\ in_nested l1 = in_nested l) as (Hr1 & [Hq1 _] & Hi1)
    by (unfold l1; destruct (_ <? _); by split_and!).
  change (queues (set_recent (recent_time_ l) l1)) with (queues l1) in Hq1.
  destruct (recent_time_ l1 <? delayed_run_time t) eqn:Ht; intros H.
  - injection H as <- <-. rewrite queues_go, recent_go. split; [|done]. change (queues (set_pump ?p ?k)) with (queues k). rewrite Hq1. apply MStay.
  - set (l2 := match top rest with Some t' => _ | None => _ end) in H.
    assert (queues l2 = View (incoming_task_queue_ l) (work_queue_ l) rest (deferred_non_nestable_work_queue_ l) /\
      recent_time_ l2 = recent_time_ l1 /\ in_nested l2 = in_nested l) as (Eq2 & Er2 & Ei2).
    { injection Hq1 as E1 E2 E3 E4. unfold l2. destruct (top rest); unfold queues; cbn; rewrite <- ?E1, <- ?E2, <- ?E4; by split_and!. }
    clearbody l2. apply bind_Ret in H as ([[la tr0] ran] & Hdr & H). inv_ret. apply DeferOrRun_cases in Hdr as [Hrec Hc].
    rewrite recent_go in Hrec. rewrite in_nested_go in Hc. rewrite Ei2 in Hc.
    assert (queues l = View (incoming_task_queue_ l) (work_queue_ l) (delayed_work_queue_ l) (deferred_non_nestable_work_queue_ l)) as -> by done.
    destruct ran; destruct Hc as (-> & Hq & Hn).
    + rewrite Hq, queues_go, Eq2. split; [apply MRunDelayed; [done|lia|done]|lia].
    + destruct Hn as [Hn1 Hn2]. rewrite queues_go, recent_go. split; [|lia]. subst. injection Eq2 as E1 E2 E3 E4.
      pose proof (queues_go (AfterDelayed (d || true)) l2) as Eg. injection Eg as G1 G2 G3 G4.
      unfold queues. cbn. rewrite G1, G2, G3, G4, E1, E2, E3, E4. apply MDeferDelayed; [done|lia|done..].
Qed.
Lemma DoIdleWork_move now l l' tr : recent_time_ l <= now -> DoIdleWork pump_kind pipe_capacity body now l = Ret (l', tr) ->
  move now (in_nested l) (queues l) (queues l') tr /\ recent_time_ l' <= now.
Proof.
  unfold DoIdleWork, ProcessNextDelayedNonNestableTask. intros Hr H.
  apply bind_Ret in H as ([[la tr0] ran] & Hp & H). apply bind_Ret in Hp as (r & Hc & Hp). rewrite current_go in Hc. unfold RunTask in Hp.
  assert (deferred_non_nestable_work_queue_ (go (AfterIdle true) l) = deferred_non_nestable_work_queue_ l) as Ed
    by (unfold go; by destruct (frames l) as [|[]]).
  pose proof (queues_go (AfterIdle true) l) as Eg. injection Eg as G1 G2 G3 _.
  destruct (negb (run_depth_ r =? 1)) eqn:Hd; [|destruct (deferred_non_nestable_work_queue_ (go (AfterIdle true) l)) as [|t ts] eqn:Ef].
  3: { inv_ret. unfold set_frames, set_nestable, set_queues. unfold queues. cbn. rewrite G1, G2, G3, <- Ed, recent_go.
       split; [|done]. apply MRunDeferred. intros Hn. apply Hn. exists r. split; [done|]. by apply negb_false_iff, Z.eqb_eq in Hd. }
  all: inv_ret; rewrite queues_go, recent_go; destruct (quit_when_idle_received_ _); inv_ret; cbn; rewrite ?queues_go, ?recent_go; (split; [|done]).
  all: change (queues (set_pump ?p ?l)) with (queues l); rewrite ?queues_go; apply MStay.
Qed.

Lemma pump_step_move now ev id pc k i fs l l' tr : recent_time_ l <= now -> 0 <= now ->
  pump_step pump_kind pipe_capacity body now ev id pc k i fs l = Ret (l', tr) ->
  move now (in_nested l) (queues l) (queues l') tr /\ recent_time_ l' <= now.
Proof.
  intros Hr Hn. assert (forall m, quiet l m -> Ret (m, []) = Ret (l', tr) ->
    move now (in_nested l) (queues l) (queues l') tr /\ recent_time_ l' <= now) as Hq.
  { intros m Hm [= <- <-]. by apply quiet_move. }
  assert (forall pc m, quiet l m -> continue_at pump_kind pipe_capacity pc id k i fs m = Ret (l', tr) ->
    move now (in_nested l) (queues l) (queues l') tr /\ recent_time_ l' <= now) as Hc.
  { intros pc' m Hm [H ->]%continue_quiet. apply quiet_move; [done|]. by etrans. }
  destruct pc; cbn [pump_step].
  - apply Hq, quiet_go.
  - unfold ReloadWorkQueue, incoming_of. destruct (work_queue_ l) as [|t ts] eqn:Ew; [|rewrite Ew; apply Hq, quiet_go].
    destruct (incoming_queue_ (incoming_task_queue_ l)) as [|t ts] eqn:Ei; [rewrite Ew; apply Hq, quiet_go|].
    intros [= <- <-]. rewrite queues_go, recent_go. split; [|done].
    destruct l as [[inc b n] w d f na rt rl rls p fs']. cbn in *. subst. apply MReload.
  - by apply DoWork_pop_move.
  - by apply Hc.
  - apply Hq, base_loop_quiet.
  - apply Hc. done.
  - by apply DoDelayedWork_move.
  - by apply Hc.
  - by apply DoIdleWork_move.
  - by apply Hc.
  - apply Hq. repeat case_match; try apply quiet_go. etrans; [|apply quiet_go]. done.
  - apply Hq. destruct pump_kind; [|apply base_loop_quiet]. repeat case_match; try apply quiet_go; [|done]. etrans; [|apply quiet_go]. done.
  - apply Hq, base_loop_quiet.
Qed.
Lemma code_step_move now is_task cmds fs l l' tr : recent_time_ l <= now ->
  code_step pump_kind pipe_capacity now is_task cmds fs l = Ret (l', tr) ->
  move now (in_nested l) (queues l) (queues l') tr /\ recent_time_ l' <= now.
Proof.
  intros Hr. destruct cmds as [|c cmds]; cbn [code_step].
  - intros [= <- <-]. apply quiet_move; [done|]. by destruct is_task.
  - set (l0 := set_frames _ l). assert (quiet l l0) as H0 by done.
    assert (forall m, quiet l0 m -> move now (in_nested l) (queues l) (queues m) [] /\ recent_time_ m <= now) as Hq
      by (intros m Hm; apply quiet_move; [done|]; by etrans).
    destruct c as [c delay nest| | |b|id|id|id]; intros H; try (apply bind_Ret in H as (m & Hm & [= <- <-])).
    + apply bind_Ret in H as ([[m tr0] b] & Hm & [= <- <-]). by apply Add_move in Hm.
    + by apply Hq, (QuitNow_quiet l0).
    + by apply Hq, (QuitWhenIdle_quiet l0).
    + injection H as <- <-. apply Hq. by destruct b.
    + by eapply Hq, RunLoopRun_quiet.
    + unfold RunUntilIdle in Hm. apply RunLoopRun_quiet in Hm. by apply Hq.
    + by eapply Hq, RunLoopQuit_quiet.
Qed.
(** Whatever a step does, it moves the queues as said above. *)
Lemma step_move now i l l' tr : recent_time_ l <= now -> 0 <= now -> step pump_kind pipe_capacity body now i l = Ret (l', tr) ->
  move now (in_nested l) (queues l) (queues l') tr /\ recent_time_ l' <= now.
Proof.
  intros Hr Hn. destruct i as [ev|c delay nest]; cbn [step].
  - destruct (frames l) as [|[is_task cmds|id pc k i] fs].
    + intros [= <- <-]. by apply quiet_move.
    + by apply code_step_move.
    + by apply pump_step_move.
  - intros H. apply bind_Ret in H as ([[m tr0] b] & Hm & [= <- <-]). by apply Add_move in Hm.
Qed.

(** * The order of tasks *)
Definition posted_in (x : label) : list pending_task := match x with Posted t => [t] | _ => [] end.
Definition started_in (x : label) : list pending_task := match x with Started t _ => [t] | _ => [] end.
Definition posted (tr : list label) : list pending_task := tr ≫= posted_in.
Definition started (tr : list label) : list pending_task := tr ≫= started_in.
#[local] Arguments posted _ : simpl never.
#[local] Arguments started _ : simpl never.

(** [a] was posted before [b], for a time that is not after [b]'s. *)
Definition before (a b : pending_task) : Prop := sequence_num a < sequence_num b /\ delayed_run_time a <= delayed_run_time b.
(** The sequence numbers and the clock have not overflowed. *)
Definition no_overflow (tr : list label) : Prop := zlen (posted tr) < 2 ^ 31 /\ Forall (fun t => 0 <= delayed_run_time t) (posted tr).

Definition waiting (v : view) : list pending_task := v_delayed v ++ v_work v ++ incoming_queue_ (v_incoming v).

Record order_inv (v : view) (tr : list label) : Prop := {
  oi_next : next_sequence_num_ (v_incoming v) = zlen (posted tr);
  oi_seq : forall i t, posted tr !! i = Some t -> sequence_num t = Z.of_nat i;
  oi_perm : Permutation (posted tr) (started tr ++ v_deferred v ++ waiting v);
  oi_sorted : StronglySorted (fun a b => sequence_num a < sequence_num b) (v_work v ++ incoming_queue_ (v_incoming v));
  oi_delayed : forall d, d ∈ v_delayed v -> is_delayed d = true /\
    forall w, w ∈ v_work v ++ incoming_queue_ (v_incoming v) -> sequence_num d < sequence_num w;
  oi_deferred : forall t, t ∈ v_deferred v -> nestable t = false /\ forall p, p ∈ waiting v -> nestable p = true -> ~ before p t;
  oi_started : forall s1 t s2 p, started tr = s1 ++ t :: s2 -> p ∈ posted tr -> nestable p = true -> before p t -> p ∈ s1 }.

Lemma posted_app a b : posted (a ++ b) = posted a ++ posted b.
Proof. apply bind_app. Qed.
Lemma started_app a b : started (a ++ b) = started a ++ started b.
Proof. apply bind_app. Qed.

(** ** The greatest element *)
Definition small (t : pending_task) : Prop := 0 <= sequence_num t < 2 ^ 31.
Lemma task_lt_iff a b : small a -> small b -> task_lt a b = true <->
  delayed_run_time b < delayed_run_time a \/ delayed_run_time b = delayed_run_time a /\ sequence_num b < sequence_num a.
Proof.
  intros [] []. unfold task_lt. destruct (delayed_run_time a <? delayed_run_time b) eqn:?; [split; [done|lia]|].
  destruct (delayed_run_time b <? delayed_run_time a) eqn:?; [split; [lia|done]|].
  rewrite (swrap_small 32) by (change (2 ^ (32 - 1)) with (2 ^ 31); lia). lia.
Qed.
Lemma extract_top_perm (q : list pending_task) t r : extract_top q = Some (t, r) -> Permutation q (t :: r).
Proof.
  revert t r. induction q as [|x q IH]; intros t r; cbn [extract_top]; [done|].
  destruct (extract_top q) as [[m r']|] eqn:E.
  - destruct (task_lt x m); intros [= <- <-]; [|done]. rewrite (IH m r' eq_refl). by constructor.
  - intros [= <- <-]. destruct q as [|y q]; [done|]. cbn in E. by destruct (extract_top q) as [[]|].
Qed.
Lemma extract_top_first (q : list pending_task) t r : Forall small q -> extract_top q = Some (t, r) -> forall x, x ∈ r -> task_lt t x = false.
Proof.
  revert t r. induction q as [|x q IH]; intros t r; cbn [extract_top]; [done|]. intros [Hx Hq]%Forall_cons.
  destruct (extract_top q) as [[m r']|] eqn:E.
  - assert (small m /\ Forall small r') as [Hm Hr'] by (apply Forall_cons; rewrite <- (extract_top_perm _ _ _ E); done).
    rewrite Forall_forall in Hr'. specialize (IH m r' Hq eq_refl). pose proof (task_lt_iff _ _ Hx Hm) as Hxm. pose proof (task_lt_iff _ _ Hm Hx) as Hmx.
    destruct (task_lt x m) eqn:Ex; intros [= <- <-] y.
    + intros [->|Hy]%elem_of_cons; [|by apply IH]. apply not_true_is_false. rewrite Hmx. pose proof (proj1 Hxm eq_refl). lia.
    + rewrite (extract_top_perm _ _ _ E). intros [->|Hy]%elem_of_cons; [done|]. specialize (IH y Hy). specialize (Hr' y Hy).
      apply not_true_is_false. rewrite task_lt_iff by done. apply not_true_iff_false in IH. rewrite task_lt_iff in IH by done. intros Hc.
      assert (~ (delayed_run_time m < delayed_run_time x \/ delayed_run_time m = delayed_run_time x /\ sequence_num m < sequence_num x))
        by (rewrite <- Hxm; done). lia.
  - intros [= <- <-] y. by intros ?%elem_of_nil.
Qed.

(** ** Keeping the order *)
Section Keep.
Context (v : view) (tr : list label) (I : order_inv v tr) (Hok : no_overflow tr).

Lemma posted_small t : t ∈ posted tr -> small t.
Proof.
  intros [i Hi]%list_elem_of_lookup. unfold small. rewrite (oi_seq _ _ I i t Hi). pose proof (lookup_lt_Some _ _ _ Hi).
  destruct Hok as [Hz _]. unfold zlen in Hz. lia.
Qed.
Lemma posted_time t : t ∈ posted tr -> 0 <= delayed_run_time t.
Proof. destruct Hok as [_ H]. rewrite Forall_forall in H. apply H. Qed.
Lemma mem_posted t : t ∈ posted tr <-> t ∈ started tr \/ t ∈ v_deferred v \/ t ∈ waiting v.
Proof. by rewrite (oi_perm _ _ I), !elem_of_app. Qed.

(** A task that no waiting nestable task precedes may start, *)
Lemma start_ok t w : w = started tr ++ [t] -> (forall p, p ∈ waiting v -> nestable p = true -> ~ before p t) ->
  forall s1 t' s2 p, w = s1 ++ t' :: s2 -> p ∈ posted tr -> nestable p = true -> before p t' -> p ∈ s1.
Proof.
  intros -> Hw s1 t' s2 p E Hp Hn Hb. destruct s2 as [|y s2 _] using rev_ind.
  - apply app_inj_tail in E as [<- <-]. apply mem_posted in Hp as [?|[Hp|Hp]]; [done| |by destruct (Hw p)].
    destruct (oi_deferred _ _ I p Hp) as [Hf _]. congruence.
  - rewrite app_comm_cons, app_assoc in E. apply app_inj_tail in E as [E <-]. by eapply (oi_started _ _ I).
Qed.

(** The first of the work queue and the top of the delayed queue are such. *)
Lemma work_head_ok t w p : v_work v = t :: w -> is_delayed t = false -> p ∈ waiting v -> nestable p = true -> ~ before p t.
Proof.
  intros Ew Ht Hp Hn [Hs Htm]. unfold is_delayed in Ht. apply negb_false_iff, Z.eqb_eq in Ht.
  assert (0 <= delayed_run_time p) by (apply posted_time, mem_posted; tauto).
  unfold waiting in Hp. rewrite elem_of_app in Hp. destruct Hp as [Hp|Hp].
  - destruct (oi_delayed _ _ I p Hp) as [Hd _]. unfold is_delayed in Hd. apply negb_true_iff, Z.eqb_neq in Hd. lia.
  - pose proof (oi_sorted _ _ I) as HS. rewrite Ew in HS, Hp. cbn [app] in HS, Hp. apply StronglySorted_inv in HS as [_ HS].
    apply elem_of_cons in Hp as [->|Hp]; [lia|]. rewrite Forall_forall in HS. specialize (HS p Hp). lia.
Qed.
Lemma delayed_top_ok t r p : extract_top (v_delayed v) = Some (t, r) -> p ∈ waiting v -> ~ before p t.
Proof.
  intros Et Hp [Hs Htm]. assert (forall d, d ∈ v_delayed v -> small d) as Hsm
    by (intros d Hd; apply posted_small, mem_posted; unfold waiting; rewrite elem_of_app; tauto).
  pose proof (extract_top_perm _ _ _ Et) as P. assert (t ∈ v_delayed v) as Ht by (rewrite P; left).
  unfold waiting in Hp. rewrite elem_of_app in Hp. destruct Hp as [Hp|Hp].
  - rewrite P in Hp. apply elem_of_cons in Hp as [->|Hp]; [lia|].
    pose proof (extract_top_first _ _ _ ltac:(by apply Forall_forall) Et p Hp) as Hlt. apply not_true_iff_false in Hlt.
    rewrite task_lt_iff in Hlt; [lia|by apply Hsm|apply Hsm; rewrite P; by right].
  - destruct (oi_delayed _ _ I t Ht) as [_ Hw]. specialize (Hw p Hp). lia.
Qed.

(** New tasks come last. *)
Lemma post_ok t : sequence_num t = zlen (posted tr) ->
  forall s1 t' s2 p, started tr = s1 ++ t' :: s2 -> p ∈ posted tr ++ [t] -> nestable p = true -> before p t' -> p ∈ s1.
Proof.
  intros Ht s1 t' s2 p E Hp Hn Hb. apply elem_of_app in Hp as [Hp|Hp]; [by eapply (oi_started _ _ I)|].
  apply list_elem_of_singleton in Hp as ->. destruct Hb as [Hb _]. rewrite Ht in Hb.
  assert (t' ∈ posted tr) as [i Hi]%list_elem_of_lookup by (apply mem_posted; left; rewrite E; set_solver).
  rewrite (oi_seq _ _ I i t' Hi) in Hb. pose proof (lookup_lt_Some _ _ _ Hi). unfold zlen in Hb. lia.
Qed.
Lemma posted_below t : t ∈ posted tr -> sequence_num t < zlen (posted tr).
Proof. intros [i Hi]%list_elem_of_lookup. rewrite (oi_seq _ _ I i t Hi). pose proof (lookup_lt_Some _ _ _ Hi). unfold zlen. lia. Qed.
End Keep.

Lemma StronglySorted_snoc {A} (R : A -> A -> Prop) l x : StronglySorted R l -> Forall (fun y => R y x) l -> StronglySorted R (l ++ [x]).
Proof.
  induction 1 as [|y l H IH Hy]; intros Hx; cbn [app]; [repeat constructor|]. apply Forall_cons in Hx as [Hyx Hx].
  constructor; [auto|]. apply Forall_app. split; [done|]. constructor; [done|]. constructor.
Qed.

Ltac perm := unfold waiting; cbn [v_deferred v_delayed v_work v_incoming incoming_queue_]; rewrite <- ?app_assoc; solve_Permutation.
(** A waiting task that none precedes leaves: it starts, or is deferred if it may not nest. *)
Lemma leave_inv q w d f w' d' t tr now : order_inv (View q w d f) tr -> no_overflow tr ->
  Permutation (d ++ w) (t :: d' ++ w') -> StronglySorted (fun a b => sequence_num a < sequence_num b) (w' ++ incoming_queue_ q) ->
  (forall x, x ∈ d' -> x ∈ d) -> (forall x, x ∈ w' -> x ∈ w) ->
  (forall p, p ∈ waiting (View q w d f) -> nestable p = true -> ~ before p t) ->
  order_inv (View q w' d' f) (tr ++ [Started t now]) /\ (nestable t = false -> order_inv (View q w' d' (f ++ [t])) tr).
Proof.
  intros I Hok P Hs Hd Hw Hb. pose proof (start_ok _ _ I t _ eq_refl Hb) as Hstart. destruct I as [I1 I2 I3 I4 I5 I6 I7]. unfold waiting in *. cbn in *.
  assert (posted (tr ++ [Started t now]) = posted tr) as Ep by (rewrite posted_app; apply app_nil_r).
  assert (started (tr ++ [Started t now]) = started tr ++ [t]) as Es by (by rewrite started_app).
  assert (forall x, x ∈ d' ++ w' ++ incoming_queue_ q -> x ∈ d ++ w ++ incoming_queue_ q) as Hsub by (intros x; rewrite !elem_of_app; intros [?|[?|?]]; auto).
  split; [|intros Hn]; split; unfold waiting; cbn; rewrite ?Ep, ?Es; try done.
  - rewrite I3. rewrite (app_assoc d w), P. solve_Permutation.
  - intros x Hx. destruct (I5 x (Hd x Hx)) as [? Hx']. split; [done|]. intros y Hy. apply Hx'. revert Hy. rewrite !elem_of_app. intros [?|?]; auto.
  - intros x Hx. destruct (I6 x Hx) as [? Hx']. split; [done|]. intros p Hp. by apply Hx', Hsub.
  - rewrite I3. rewrite (app_assoc d w), P. solve_Permutation.
  - intros x Hx. destruct (I5 x (Hd x Hx)) as [? Hx']. split; [done|]. intros y Hy. apply Hx'. revert Hy. rewrite !elem_of_app. intros [?|?]; auto.
  - intros x [Hx|Hx]%elem_of_app.
    + destruct (I6 x Hx) as [? Hx']. split; [done|]. intros p Hp. by apply Hx', Hsub.
    + apply list_elem_of_singleton in Hx as ->. split; [done|]. intros p Hp. by apply Hb, Hsub.
Qed.
Lemma move_inv now nested v tr v' tr' : order_inv v tr -> move now nested v v' tr' -> no_overflow (tr ++ tr') -> order_inv v' (tr ++ tr').
Proof.
  intros I M Hok'. assert (no_overflow tr) as Hok.
  { destruct Hok' as [H1 H2]. rewrite posted_app in H1, H2. rewrite zlen_app in H1. pose proof (zlen_nonneg (posted tr')).
    apply Forall_app in H2 as [H2 _]. split; [lia|done]. }
  destruct M as [v|inc n w d f t Hs|inc b n d f|q t w d f Hd|q t w d f Hd Hn|q t w d f Hd Hn Hnst|q t w d rest f Et Hd Hn|q t w d rest f Et Hd Hn Hnst|q t w d f Hnst];
    rewrite ?app_nil_r in *; try done.
  - (* posted *)
    pose proof (post_ok _ _ I Hok t) as Hpost. pose proof (posted_below _ _ I) as Hbelow. pose proof (mem_posted _ _ I) as Hmem.
    destruct I as [I1 I2 I3 I4 I5 I6 I7]. cbn in *. rewrite I1 in *. clear n I1.
    assert (posted (tr ++ [Posted t]) = posted tr ++ [t]) as Ep by (by rewrite posted_app).
    assert (started (tr ++ [Posted t]) = started tr) as Es by (rewrite started_app; apply app_nil_r).
    split; cbn; rewrite ?Ep, ?Es, ?zlen_app.
    + destruct Hok' as [Hz _]. rewrite Ep, zlen_app in Hz. change (zlen [t]) with 1 in *.
      pose proof (zlen_nonneg (posted tr)). apply swrap_small; [lia|]. change (2 ^ (32 - 1)) with (2 ^ 31). lia.
    + intros i t' [Hi|[Hi Ht']]%lookup_app_Some; [by apply I2|]. apply list_lookup_singleton_Some in Ht' as [Hi0 <-]. rewrite Hs. unfold zlen. lia.
    + rewrite I3. perm.
    + rewrite app_assoc. apply StronglySorted_snoc; [done|]. apply Forall_forall. intros y Hy. rewrite Hs. apply Hbelow, Hmem.
      unfold waiting. cbn. rewrite elem_of_app. tauto.
    + intros x Hx. destruct (I5 x Hx) as [? Hw]. split; [done|]. intros y. rewrite app_assoc, elem_of_app. intros [Hy|Hy]; [by apply Hw|].
      apply list_elem_of_singleton in Hy as ->. rewrite Hs. apply Hbelow, Hmem. unfold waiting. cbn. rewrite !elem_of_app. tauto.
    + intros x Hx. destruct (I6 x Hx) as [? Hw]. split; [done|]. intros p Hp Hnp. unfold waiting in *. cbn in *. rewrite !app_assoc, elem_of_app in Hp.
      destruct Hp as [Hp|Hp]; [rewrite <- app_assoc in Hp; by apply Hw|]. apply list_elem_of_singleton in Hp as ->. intros [Hb _].
      assert (sequence_num x < zlen (posted tr)) by (apply Hbelow, Hmem; tauto). lia.
    + by apply Hpost.
  - (* reloaded *)
    destruct I as [I1 I2 I3 I4 I5 I6 I7]. unfold waiting in *. cbn in *. split; unfold waiting; cbn; rewrite ?app_nil_r; done.
  - (* put off *)
    destruct I as [I1 I2 I3 I4 I5 I6 I7]. unfold waiting in *. cbn in *. apply StronglySorted_inv in I4 as [I4 Ht]. rewrite Forall_forall in Ht.
    split; unfold waiting; cbn; try done.
    + rewrite I3. solve_Permutation.
    + intros x [Hx|Hx]%elem_of_app.
      * destruct (I5 x Hx) as [? Hw]. split; [done|]. intros y Hy. apply Hw. by right.
      * apply list_elem_of_singleton in Hx as ->. by split.
    + intros x Hx. destruct (I6 x Hx) as [? Hw]. split; [done|]. intros p Hp. apply Hw. revert Hp. rewrite !elem_of_app, !elem_of_cons, !elem_of_app, elem_of_nil. tauto.
  - (* run *)
    pose proof (oi_sorted _ _ I) as [HS _]%StronglySorted_inv. eapply leave_inv; [done..|by rewrite Permutation_middle|done|done|by right|].
    intros p Hp Hn'. by eapply (work_head_ok _ _ I).
  - pose proof (oi_sorted _ _ I) as [HS _]%StronglySorted_inv. eapply (leave_inv _ _ _ _ _ _ _ _ now); [done..|by rewrite Permutation_middle|done|done|by right| |done].
    intros p Hp Hn'. by eapply (work_head_ok _ _ I).
  - pose proof (extract_top_perm _ _ _ Et) as P. eapply leave_inv; [done..|by rewrite P|apply (oi_sorted _ _ I)|intros x; rewrite P; by right|done|].
    intros p Hp _. by eapply (delayed_top_ok _ _ I).
  - pose proof (extract_top_perm _ _ _ Et) as P.
    eapply (leave_inv _ _ _ _ _ _ _ _ now); [done..|by rewrite P|apply (oi_sorted _ _ I)|intros x; rewrite P; by right|done| |done].
    intros p Hp _. by eapply (delayed_top_ok _ _ I).
  - (* a deferred one is run *)
    destruct (oi_deferred _ _ I t ltac:(by left)) as [Hnt Hb].
    pose proof (start_ok _ _ I t _ eq_refl Hb) as Hstart. destruct I as [I1 I2 I3 I4 I5 I6 I7]. unfold waiting in *. cbn in *.
    assert (posted (tr ++ [Started t now]) = posted tr) as Ep by (rewrite posted_app; apply app_nil_r).
    assert (started (tr ++ [Started t now]) = started tr ++ [t]) as Es by (by rewrite started_app).
    split; unfold waiting; cbn; rewrite ?Ep, ?Es; try done.
    + rewrite I3. solve_Permutation.
    + intros x Hx. apply I6. by right.
Qed.

(** * Runs of the thread *)
Definition due (v : view) (tr : list label) (now : Z) : Prop :=
  Forall (fun t => delayed_run_time t <= now) (v_deferred v) /\ forall t n, Started t n ∈ tr -> delayed_run_time t <= n.
Lemma move_due now nested v tr v' tr' : 0 <= now -> due v tr now -> move now nested v v' tr' -> due v' (tr ++ tr') now.
Proof.
  intros Hnow [H1 H2] M. unfold due. setoid_rewrite elem_of_app.
  assert (forall t, delayed_run_time t <= now -> forall t' n, Started t' n ∈ tr \/ Started t' n ∈ [Started t now] -> delayed_run_time t' <= n) as Hst
    by (intros t Ht t' n [?|[= -> ->]%list_elem_of_singleton]; [by eapply H2|done]).
  assert (forall t : pending_task, is_delayed t = false -> delayed_run_time t <= now) as Hnull
    by (intros t Ht; unfold is_delayed in Ht; apply negb_false_iff, Z.eqb_eq in Ht; lia).
  destruct M; cbn in *.
  1,3,4: split; [done|]; intros ?? [?|?%elem_of_nil]; [by eapply H2|done].
  - split; [done|]. intros ?? [?|?%list_elem_of_singleton]; [by eapply H2|done].
  - split; [done|]. by apply Hst, Hnull.
  - split; [|intros ?? [?|?%elem_of_nil]; [by eapply H2|done]]. apply Forall_app. split; [done|]. constructor; [by apply Hnull|constructor].
  - split; [done|]. by apply Hst.
  - split; [|intros ?? [?|?%elem_of_nil]; [by eapply H2|done]]. apply Forall_app. split; [done|]. constructor; [done|constructor].
  - apply Forall_cons in H1 as [Ht H1]. split; [done|]. by apply Hst.
Qed.

Context (main : list (@cmd closure)).
Abbreviation reaches := (runs pump_kind pipe_capacity body main).
Lemma reaches_time l tr now : reaches l tr now -> recent_time_ l <= now /\ 0 <= now.
Proof.
  induction 1 as [now Hn|l tr now now' i l' tr' HR IH Hle Hs]; [done|]. destruct IH as [IH1 IH2].
  apply step_move in Hs as [_ Hs]; [|lia..]. split; [done|lia].
Qed.
Lemma no_overflow_app tr tr' : no_overflow (tr ++ tr') -> no_overflow tr.
Proof.
  intros [H1 H2]. rewrite posted_app in H1, H2. rewrite zlen_app in H1. pose proof (zlen_nonneg (posted tr')).
  apply Forall_app in H2 as [H2 _]. split; [lia|done].
Qed.
Lemma reaches_order l tr now : reaches l tr now -> no_overflow tr -> order_inv (queues l) tr.
Proof.
  induction 1 as [now Hn|l tr now now' i l' tr' HR IH Hle Hs]; intros Hok.
  - split; cbn; try done. + constructor. + intros t ?%elem_of_nil. done. + intros t ?%elem_of_nil. done. + by intros [] ???.
  - apply reaches_time in HR as [? ?]. apply step_move in Hs as [Hs _]; [|lia..].
    eapply move_inv; [apply IH; by eapply no_overflow_app|done|done].
Qed.
Lemma reaches_due l tr now : reaches l tr now -> due (queues l) tr now.
Proof.
  induction 1 as [now Hn|l tr now now' i l' tr' HR IH Hle Hs].
  - split; [constructor|]. by intros t n ?%elem_of_nil.
  - apply reaches_time in HR as [? ?]. apply step_move in Hs as [Hs _]; [|lia..]. eapply move_due; [lia| |done].
    destruct IH as [H1 H2]. split; [|done]. eapply Forall_impl; [done|]. cbn. lia.
Qed.

(** ** First in first out *)
Definition immediate (t : pending_task) : Prop := nestable t = true /\ is_delayed t = false.
#[local] Instance immediate_dec t : Decision (immediate t).
Proof. unfold immediate. apply _. Defined.
(** The queue a client of the loop sees that posts nestable tasks without delay. *)
Definition fifo (v : view) : list pending_task := filter immediate (v_work v ++ incoming_queue_ (v_incoming v)).

Lemma filter_out t l : ~ immediate t -> filter immediate (t :: l) = filter immediate l.
Proof. intros. by rewrite filter_cons_False. Qed.
Lemma move_fifo now nested v tr v' tr' : order_inv v tr -> move now nested v v' tr' ->
  fifo v ++ filter immediate (posted tr') = filter immediate (started tr') ++ fifo v'.
Proof.
  intros I M. unfold fifo. destruct M as [v|inc n w d f t Hs|inc b n d f|q t w d f Hd|q t w d f Hd Hn|q t w d f Hd Hn Hnst|q t w d rest f Et Hd Hn|q t w d rest f Et Hd Hn Hnst|q t w d f Hnst];
    unfold posted, started; cbn -[filter]; rewrite ?app_nil_r; try done.
  - by rewrite !list.filter_app, <- app_assoc.
  - rewrite filter_out; [done|]. intros [_ ?]. congruence.
  - by rewrite !filter_cons; case_decide.
  - rewrite filter_out; [done|]. intros [? _]. congruence.
  - rewrite filter_out; [done|]. intros [_ Hi]. pose proof (extract_top_perm _ _ _ Et) as P.
    destruct (oi_delayed _ _ I t) as [? _]; [cbn; rewrite P; by left|congruence].
  - rewrite filter_out; [done|]. intros [Hi _]. destruct (oi_deferred _ _ I t) as [? _]; [by left|congruence].
Qed.

(** C19: whatever is posted from whatever thread, and however the loops of the thread
    are nested, nestable tasks without a delay start in the order in which they were
    posted: those posted are those that started, in the same order, and then those in
    the work queue and the incoming queue. *)
Theorem posted_tasks_fifo l tr now : reaches l tr now -> no_overflow tr ->
  filter immediate (posted tr) = filter immediate (started tr) ++ filter immediate (work_queue_ l ++ incoming_of l).
Proof.
  intros HR. change (filter immediate (work_queue_ l ++ incoming_of l)) with (fifo (queues l)).
  induction HR as [now Hn|l tr now now' i l' tr' HR IH Hle Hs]; intros Hok; [done|].
  assert (no_overflow tr) as Hok0 by (by eapply no_overflow_app). pose proof (reaches_order _ _ _ HR Hok0) as I.
  apply reaches_time in HR as [? ?]. apply step_move in Hs as [Hs _]; [|lia..]. apply (move_fifo _ _ _ _ _ _ I) in Hs.
  by rewrite posted_app, started_app, !list.filter_app, (IH Hok0), <- !app_assoc, Hs.
Qed.

(** C11: of two tasks, the one posted first starts first if its delay is not longer
    and it is nestable: this is what a [SequencedTaskRunner] promises of such tasks,
    and it holds across delays, threads and nested loops. *)
Theorem tasks_in_sequence l tr now p1 t1 p2 t2 s1 s2 : reaches l tr now -> no_overflow tr ->
  posted tr = p1 ++ t1 :: p2 -> t2 ∈ p2 -> nestable t1 = true -> delayed_run_time t1 <= delayed_run_time t2 ->
  started tr = s1 ++ t2 :: s2 -> t1 ∈ s1.
Proof.
  intros HR Hok Hp Ht2 Hn Hle Hs. pose proof (reaches_order _ _ _ HR Hok) as I. eapply (oi_started _ _ I); [done|rewrite Hp; set_solver|done|].
  split; [|done]. apply list_elem_of_lookup in Ht2 as [k Hk].
  rewrite (oi_seq _ _ I (length p1) t1), (oi_seq _ _ I (length p1 + S k)%nat t2); [lia|..]; rewrite Hp, lookup_app_r by lia.
  - replace (length p1 + S k - length p1)%nat with (S k) by lia. done.
  - by rewrite Nat.sub_diag.
Qed.

(** C17: every task that was posted has started exactly once or is in exactly one
    queue of the loop, and none starts before its time. *)
Theorem tasks_conserved l tr now : reaches l tr now -> no_overflow tr ->
  NoDup (posted tr) /\
  Permutation (posted tr) (started tr ++ deferred_non_nestable_work_queue_ l ++ delayed_work_queue_ l ++ work_queue_ l ++ incoming_of l) /\
  forall t n, Started t n ∈ tr -> delayed_run_time t <= n.
Proof.
  intros HR Hok. pose proof (reaches_order _ _ _ HR Hok) as I. split_and!; [|apply (oi_perm _ _ I)|apply (reaches_due _ _ _ HR)].
  apply NoDup_alt. intros i j t Hi Hj. apply (oi_seq _ _ I) in Hi, Hj. lia.
Qed.

(** A run by a list of inputs, one tick of the clock each. *)
Fixpoint exec (ins : list (@input closure)) (now : Z) (l : loop) : outcome (loop * list label) :=
  match ins with
  | [] => Ret (l, [])
  | i :: ins => '(l, tr) ← step pump_kind pipe_capacity body (now + 1) i l; '(l, tr') ← exec ins (now + 1) l; Ret (l, tr ++ tr')
  end.
Lemma exec_reaches ins : forall now l tr l' tr', reaches l tr now -> exec ins now l = Ret (l', tr') -> reaches l' (tr ++ tr') (now + zlen ins).
Proof.
  induction ins as [|i ins IH]; intros now l tr l' tr' HR; cbn [exec].
  - intros [= <- <-]. change (zlen []) with 0. by rewrite Z.add_0_r, app_nil_r.
  - intros H. apply bind_Ret in H as ([m tr1] & Hs & H). apply bind_Ret in H as ([m' tr2] & He & [= <- <-]).
    rewrite app_assoc, zlen_cons, Z.add_assoc. eapply IH, He. eapply runs_step; [done|lia|done].
Qed.
End Order.

(** * Witnesses *)
(** Task 1 lets tasks nest, posts task 6, which may not, and runs a loop in which task
    3, which may not, is deferred and task 4 ends that loop; task 2 is delayed. *)
Definition demo_body (c : nat) : list (@cmd nat) :=
  match c with
  | 1%nat => [DoSetNestableTasksAllowed true; DoRun 1%nat; DoPost 6%nat 0 false]
  | 4%nat => [DoQuit 1%nat]
  | _ => []
  end.
Definition demo_main : list (@cmd nat) :=
  [DoPost 1%nat 0 true; DoPost 2%nat 10 true; DoPost 3%nat 0 false; DoPost 4%nat 0 true; DoPost 5%nat 0 true; DoRun 0%nat].
Definition demo (n : nat) : @loop nat * list (@label nat) :=
  match exec PumpLibevent2 65536 demo_body (replicate n (Tick IoReturn)) 0 (new_loop demo_main) with Ret x => x | Fault _ => (new_loop demo_main, []) end.
Lemma demo_reaches n : (exec PumpLibevent2 65536 demo_body (replicate n (Tick IoReturn)) 0 (new_loop demo_main) = Ret (demo n)) ->
  runs PumpLibevent2 65536 demo_body demo_main (fst (demo n)) (snd (demo n)) (Z.of_nat n).
Proof.
  intros H. destruct (demo n) as [l tr]. replace (Z.of_nat n) with (0 + zlen (replicate n (@Tick nat IoReturn))) by (unfold zlen; rewrite length_replicate; lia).
  by apply (exec_reaches _ _ _ _ _ 0 (new_loop demo_main) []); [constructor|].
Qed.
Lemma demo_ok : no_overflow (snd (demo 60)).
Proof. split; [by vm_compute|]. apply (bool_decide_unpack _). by vm_compute. Qed.
(** The [n]th task of the demonstration. *)
Definition demo_task (c : nat) (time seq : Z) (nest : bool) : @pending_task nat := PendingTask c time seq nest.

Lemma posted_tasks_fifo_witness :
  filter immediate (posted (snd (demo 60))) =
  filter immediate (started (snd (demo 60))) ++ filter immediate (work_queue_ (fst (demo 60)) ++ incoming_of (fst (demo 60))).
Proof. exact (posted_tasks_fifo PumpLibevent2 65536 demo_body demo_main _ _ _ (demo_reaches 60 ltac:(by vm_compute)) demo_ok). Defined.
(** Task 4 starts before task 5, though within task 1. *)
Lemma tasks_in_sequence_witness : demo_task 4 0 3 true ∈ take 3 (started (snd (demo 60))).
Proof.
  refine (tasks_in_sequence PumpLibevent2 65536 demo_body demo_main _ _ _ (take 3 (posted (snd (demo 60)))) (demo_task 4 0 3 true)
    (drop 4 (posted (snd (demo 60)))) (demo_task 5 0 4 true) _ (drop 4 (started (snd (demo 60))))
    (demo_reaches 60 ltac:(by vm_compute)) demo_ok _ _ eq_refl _ _); try by vm_compute.
  apply (bool_decide_unpack _). by vm_compute.
Defined.
Lemma tasks_conserved_witness : NoDup (posted (snd (demo 60))) /\ Permutation (posted (snd (demo 60))) (started (snd (demo 60)) ++
  deferred_non_nestable_work_queue_ (fst (demo 60)) ++ delayed_work_queue_ (fst (demo 60)) ++ work_queue_ (fst (demo 60)) ++ incoming_of (fst (demo 60))) /\
  forall t n, Started t n ∈ snd (demo 60) -> delayed_run_time t <= n.
Proof. exact (tasks_conserved PumpLibevent2 65536 demo_body demo_main _ _ _ (demo_reaches 60 ltac:(by vm_compute)) demo_ok). Defined.

(** The promise of a [SequencedTaskRunner] does not hold for two tasks that may
    not nest: one that was deferred because it came up in a nested loop is overtaken by
    one that was posted later, with the same delay. *)
Theorem non_nestable_overtaken :
  exists l tr now t1 t2 p1 p2 s1 s2, runs PumpLibevent2 65536 demo_body demo_main l tr now /\
    posted tr = p1 ++ t1 :: p2 /\ t2 ∈ p2 /\ nestable t1 = false /\ nestable t2 = false /\ delayed_run_time t1 = delayed_run_time t2 /\
    started tr = s1 ++ t2 :: s2 /\ (t1 ∉ s1) /\ t1 ∈ s2.
Proof.
  exists (fst (demo 60)), (snd (demo 60)), 60, (demo_task 3 0 2 false), (demo_task 6 0 5 false),
    (take 2 (posted (snd (demo 60)))), (drop 3 (posted (snd (demo 60)))), (take 4 (started (snd (demo 60)))), (drop 5 (started (snd (demo 60)))).
  split_and!; [by apply (demo_reaches 60); vm_compute|..]; try by vm_compute.
  all: apply (bool_decide_unpack _); by vm_compute.
Qed.
