(* ===== verification/LoopNesting.v ===== *)
(** Nested loops: who may run inside whom, and when a loop sleeps. *)
From Stdlib Require Import ZArith Lia Bool.
From stdpp Require Import base list numbers gmap.
From S2P Require Import Prelude MessageLoop TaskOrder.

Open Scope Z_scope.

Section Nesting.
Context {closure : Type} `{EqDecision closure}.
Abbreviation loop := (@loop closure).
Abbreviation frame := (@frame closure).
Context (pump_kind : pump_type) (pipe_capacity : Z) (body : closure -> list (@cmd closure)) (main : list (@cmd closure)).
Abbreviation reaches := (runs pump_kind pipe_capacity body main).

(** * The run loops follow the stack *)
Definition pumps (fs : list frame) : list nat := fs ≫= (fun f => match f with PumpFrame id _ _ _ => [id] | _ => [] end).
(** The run loops of the pumps on the stack, innermost first: each knows the one it
    interrupted and how deep it is. *)
Fixpoint chain (rls : gmap nat run_loop) (ids : list nat) : Prop :=
  match ids with
  | [] => True
  | id :: ids' =>
      (exists r, rls !! id = Some r /\ previous_run_loop_ r = head ids' /\ run_depth_ r = zlen ids /\ run_called_ r = true) /\
      (id ∉ ids') /\ chain rls ids'
  end.
(** A task is only ever run by a pump. *)
Fixpoint shaped (fs : list frame) : Prop :=
  match fs with
  | [] => True
  | CodeFrame true _ :: fs => (match fs with PumpFrame _ _ _ _ :: _ => True | _ => False end) /\ shaped fs
  | _ :: fs => shaped fs
  end.
Record nest_inv (l : loop) : Prop := {
  ni_current : run_loop_ l = head (pumps (frames l));
  ni_chain : chain (run_loops l) (pumps (frames l));
  ni_shape : shaped (frames l) }.

(** Changes that keep the nesting of the run loops that are running. *)
Definition same_nest (rls rls' : gmap nat run_loop) : Prop :=
  forall id r, rls !! id = Some r -> run_called_ r = true -> exists r', rls' !! id = Some r' /\
    previous_run_loop_ r' = previous_run_loop_ r /\ run_depth_ r' = run_depth_ r /\ run_called_ r' = true.
#[local] Instance same_nest_refl : Reflexive same_nest.
Proof. intros rls id r H ?. by exists r. Qed.
#[local] Instance same_nest_trans : Transitive same_nest.
Proof. intros a b c H1 H2 id r Hr Hc. destruct (H1 id r Hr Hc) as (r1 & ? & E1 & E2 & ?). destruct (H2 id r1) as (r2 & ? & ? & ? & ?); [done..|]. exists r2. split_and!; congruence. Qed.
Lemma chain_same rls rls' ids : same_nest rls rls' -> chain rls ids -> chain rls' ids.
Proof.
  intros HS. induction ids as [|id ids IH]; [done|]. intros ((r & Hr & E1 & E2 & E3) & Hn & Hc). split_and!; [|done|by apply IH].
  destruct (HS id r Hr E3) as (r' & ? & ? & ? & ?). exists r'. rewrite <- E1, <- E2. by split_and!.
Qed.
Lemma same_nest_insert (rls : gmap nat run_loop) id r' :
  (run_called_ (default new_run_loop (rls !! id)) = true -> run_called_ r' = true) ->
  previous_run_loop_ r' = previous_run_loop_ (default new_run_loop (rls !! id)) ->
  run_depth_ r' = run_depth_ (default new_run_loop (rls !! id)) -> same_nest rls (<[id := r']> rls).
Proof.
  intros H1 H2 H3 id0 r Hr Hc. destruct (decide (id0 = id)) as [->|Hne].
  - exists r'. rewrite lookup_insert_eq. rewrite Hr in *. cbn in *. split_and!; auto.
  - exists r. by rewrite lookup_insert_ne.
Qed.

Record tame (l l' : loop) : Prop := {
  t_pumps : pumps (frames l') = pumps (frames l);
  t_shape : shaped (frames l) -> shaped (frames l');
  t_current : run_loop_ l' = run_loop_ l;
  t_nest : same_nest (run_loops l) (run_loops l') }.
#[local] Instance tame_refl : Reflexive tame.
Proof. by split. Qed.
#[local] Instance tame_trans : Transitive tame.
Proof. intros a b c [A1 A2 A3 A4] [B1 B2 B3 B4]. split; [congruence|auto|congruence|by etrans]. Qed.
Lemma tame_inv l l' : tame l l' -> nest_inv l -> nest_inv l'.
Proof. intros [T1 T2 T3 T4] [N1 N2 N3]. split; [by rewrite T3, T1|rewrite T1; by eapply chain_same|auto]. Qed.

Lemma tame_go pc l : tame l (go pc l).
Proof. unfold go. destruct (frames l) as [|[is_task cmds|id pc0 k i] fs] eqn:E; [done..|]. split; cbn; rewrite ?E; done. Qed.
Lemma tame_mutate (f : loop -> loop) l : frames (f l) = frames l -> run_loop_ (f l) = run_loop_ l -> run_loops (f l) = run_loops l -> tame l (f l).
Proof. intros E1 E2 E3. split; by rewrite ?E1, ?E2, ?E3. Qed.

Lemma QuitNow_tame l l' : QuitNow pump_kind pipe_capacity l = Ret l' -> tame l l'.
Proof. unfold QuitNow. destruct (run_loop_ l); [|done]. intros H. inv_ret. by apply (tame_mutate (set_pump x)). Qed.
Lemma current_default (l : loop) r : current l = Ret r -> exists id, run_loop_ l = Some id /\ run_loops l !! id = Some r.
Proof. unfold current. destruct (run_loop_ l) as [id|]; cbn; [|done]. destruct (run_loops l !! id) eqn:E; [|done]. intros [= <-]. by exists id. Qed.
Lemma QuitWhenIdle_tame l l' : QuitWhenIdle l = Ret l' -> tame l l'.
Proof.
  unfold QuitWhenIdle. destruct (run_loop_ l) as [id|] eqn:E; [|done]. intros H. apply bind_Ret in H as (r & Hr & [= <-]).
  apply current_default in Hr as (id' & E' & Hr). assert (id' = id) as -> by congruence.
  split; cbn; [done|done|done|]. apply same_nest_insert; by rewrite Hr.
Qed.
Lemma RunLoopQuit_tame id l l' : RunLoopQuit pump_kind pipe_capacity id l = Ret l' -> tame l l'.
Proof.
  unfold RunLoopQuit. set (l1 := set_run_loops _ _ l). assert (tame l l1) as H1 by (split; [done..|by apply same_nest_insert]).
  destruct (_ && _); [|by intros [= <-]]. intros H. apply QuitNow_tame in H. by etrans.
Qed.

(** A pump starts, *)
Lemma RunLoopRun_nest id l l' : nest_inv l -> RunLoopRun pump_kind id l = Ret l' -> nest_inv l'.
Proof.
  unfold RunLoopRun, BeforeRun. intros N H. apply bind_Ret in H as ([l1 rn] & Hb & H). apply DCHECK_Ret in Hb as [Hb Hc].
  specialize (Hc eq_refl). apply negb_true_iff in Hc. unfold run_loop_at in *. destruct (quit_called_ _).
  { injection Hb as <- <-. injection H as <-. eapply tame_inv; [|done]. split; [done..|]. apply same_nest_insert; done. }
  injection Hb as <- <-. destruct N as [N1 N2 N3].
  assert (id ∉ pumps (frames l)) as Hin.
  { intros Hin. clear N1 H. revert Hin N2. induction (pumps (frames l)) as [|x ids IH]; [by intros ?%elem_of_nil|].
    intros Hx ((r' & Hr' & _ & _ & Hc') & _ & Hch). apply elem_of_cons in Hx as [<-|Hx]; [|by apply IH]. rewrite Hr' in Hc. cbn in Hc. congruence. }
  set (rl' := RunLoop _ _ _ _ _ _) in H. assert (run_depth_ rl' = zlen (id :: pumps (frames l)) /\ previous_run_loop_ rl' = head (pumps (frames l))) as [Hd Hp].
  { subst rl'. cbn. rewrite N1. split; [|done]. destruct (pumps (frames l)) as [|p ids]; [done|]. cbn. destruct N2 as ((r & Hr & _ & Hdep & _) & _).
    rewrite Hr. cbn. rewrite Hdep, !zlen_cons. lia. }
  assert (chain (<[id := rl']> (run_loops l)) (id :: pumps (frames l))) as Hchain.
  { split_and!; [exists rl'; rewrite lookup_insert_eq; by split_and!|done|]. clear - N2 Hin. revert N2 Hin.
    induction (pumps (frames l)) as [|x ids IH]; [done|]. intros ((r & Hr & Hx) & Hn & Hch) Hin. split_and!; [|done|].
    - exists r. rewrite lookup_insert_ne by (intros ->; apply Hin; by left). by split.
    - apply IH; [done|]. intros ?. apply Hin. by right. }
  unfold EnterPump in H. cbn in H. destruct pump_kind; [apply DCHECK_Ret in H as [H _]|]; injection H as <-; by split.
Qed.
(** and ends. *)
Lemma LeavePump_nest id pc k i fs k' i' l l' : nest_inv l -> frames l = PumpFrame id pc k i :: fs ->
  LeavePump pump_kind pipe_capacity id k' i' fs l = Ret l' -> nest_inv l'.
Proof.
  intros [N1 N2 N3] E. rewrite E in *. cbn in N2. destruct N2 as ((r & Hr & Hp & Hd & Hc) & Hn & Hch). unfold LeavePump, AfterRun. cbv zeta.
  set (l1 := set_frames fs _). unfold run_loop_at. change (run_loops l1) with (run_loops l). rewrite Hr. cbn [default]. change (Datatypes.id r) with r.
  set (l2 := set_run_loops _ _ l1). intros H.
  assert (nest_inv l2) as Hl2.
  { split; cbn; [done| |done]. eapply chain_same; [|exact Hch]. apply same_nest_insert; by rewrite Hr. }
  destruct (previous_run_loop_ r); [|by injection H as <-]. destruct (quit_called_ (default _ _)); [|by injection H as <-].
  apply QuitNow_tame in H. by eapply tame_inv.
Qed.
Lemma continue_nest pc0 pc id k i fs k' i' l l' tr : nest_inv l -> frames l = PumpFrame id pc0 k i :: fs ->
  continue_at pump_kind pipe_capacity pc id k' i' fs l = Ret (l', tr) -> nest_inv l'.
Proof.
  intros N E. unfold continue_at. destruct (keep_running_ _); intros H.
  - injection H as <- <-. by eapply tame_inv, N; apply tame_go.
  - apply bind_Ret in H as (m & Hm & [= <- <-]). by eapply LeavePump_nest.
Qed.

(** * What a step that starts a task does to the stack *)
Lemma frames_go pc id pc0 k i fs (l : loop) : frames l = PumpFrame id pc0 k i :: fs -> frames (go pc l) = PumpFrame id pc k i :: fs.
Proof. intros E. unfold go. by rewrite E. Qed.
Lemma DeferOrRun_frames now t l l' tr (ran : bool) : DeferOrRunPendingTask body t now l = Ret (l', tr, ran) ->
  run_loop_ l' = run_loop_ l /\ run_loops l' = run_loops l /\
  frames l' = (if ran then CodeFrame true (body (task t)) :: frames l else frames l) /\ (ran = false -> tr = []) /\ (ran = true -> tr = [Started t now]).
Proof.
  unfold DeferOrRunPendingTask, RunTask. intros H. inv_ret. destruct (_ || _); inv_ret; by split_and!.
Qed.
(** The stack after one call of the pump into the loop: as before but for where the
    pump is, or with a task on top, which has just started. *)
Definition called (now : Z) (id : nat) (k i : bool) (fs : list frame) (l l' : loop) (tr : list label) : Prop :=
  run_loop_ l' = run_loop_ l /\ run_loops l' = run_loops l /\ exists pc,
    (frames l' = PumpFrame id pc k i :: fs /\ tr = [] \/
     exists t, frames l' = CodeFrame true (body (task t)) :: PumpFrame id pc k i :: fs /\ tr = [Started t now]).

Lemma called_inv now id pc k i fs l l' tr : nest_inv l -> frames l = PumpFrame id pc k i :: fs -> called now id k i fs l l' tr -> nest_inv l'.
Proof.
  intros [N1 N2 N3] E (H1 & H2 & pc' & H). rewrite E in *. destruct H as [[Ef _]|(t & Ef & _)]; split; rewrite ?H1, ?H2, ?Ef; done.
Qed.
Lemma called_quiet now id pc k i fs l m : run_loop_ m = run_loop_ l -> run_loops m = run_loops l -> frames m = PumpFrame id pc k i :: fs ->
  called now id k i fs l m [].
Proof. intros. split_and!; [done..|]. exists pc. by left. Qed.
Lemma called_defer now id pc k i fs l m t l1 tr pc' (ran : bool) :
  run_loop_ m = run_loop_ l -> run_loops m = run_loops l -> frames m = PumpFrame id pc k i :: fs ->
  DeferOrRunPendingTask body t now m = Ret (l1, tr, ran) -> called now id k i fs l (if ran then l1 else go pc' l1) tr.
Proof.
  intros E1 E2 E3 (D1 & D2 & D3 & D4 & D5)%DeferOrRun_frames. rewrite E3 in D3. destruct ran.
  - rewrite D5 by done. split_and!; [congruence..|]. exists pc. right. by exists t.
  - rewrite D4 by done. unfold go. rewrite D3. apply called_quiet with pc'; cbn; congruence.
Qed.

Lemma DoWork_pop_called now id pc k i fs l l' tr : frames l = PumpFrame id pc k i :: fs -> DoWork_pop body now l = Ret (l', tr) ->
  called now id k i fs l l' tr.
Proof.
  intros E. unfold DoWork_pop. destruct (work_queue_ l) as [|t ts]; [done|]. set (next := match ts with [] => AtReload | _ => AtPop end).
  set (l1 := set_queues ts _ _ l). assert (frames l1 = PumpFrame id pc k i :: fs) as E1 by done.
  destruct (is_delayed t); intros H.
  - injection H as <- <-. unfold go. destruct (bool_decide _); cbn; rewrite E; by apply called_quiet with next.
  - apply bind_Ret in H as ([[la tr0] ran] & Hdr & [= <- <-]). eapply called_defer, Hdr; unfold go; by rewrite E1.
Qed.
Lemma DoDelayedWork_called now d id pc k i fs l l' tr : frames l = PumpFrame id pc k i :: fs -> DoDelayedWork body now d l = Ret (l', tr) ->
  called now id k i fs l l' tr.
Proof.
  intros E. assert (forall m dd, run_loop_ m = run_loop_ l -> run_loops m = run_loops l -> frames m = frames l ->
    called now id k i fs l (go (AfterDelayed dd) m) []) as Hgo.
  { intros m dd E1 E2 E3. unfold go. rewrite E3, E. by apply called_quiet with (AfterDelayed dd). }
  assert (forall m, Ret (go (AfterDelayed (d || false)) (set_pump m (set_recent 0 l)), []) = Ret (l', tr) -> called now id k i fs l l' tr) as Hnone
    by (intros m [= <- <-]; by apply Hgo).
  unfold DoDelayedWork. destruct (nestable_tasks_allowed_ l); [|by apply Hnone]. destruct (extract_top _) as [[t rest]|]; [|by apply Hnone].
  cbv zeta. set (l1 := if _ <? _ then set_recent now l else l).
  assert (run_loop_ l1 = run_loop_ l /\ run_loops l1 = run_loops l /\ frames l1 = frames l) as (A1 & A2 & A3) by (unfold l1; by destruct (_ <? _)).
  clearbody l1. destruct (_ <? _); [intros [= <- <-]; by apply Hgo|]. intros H. apply bind_Ret in H as ([[la tr0] ran] & Hdr & [= <- <-]).
  set (l2 := match top rest with Some t' => _ | None => _ end) in Hdr.
  assert (run_loop_ l2 = run_loop_ l /\ run_loops l2 = run_loops l /\ frames l2 = frames l) as (B1 & B2 & B3) by (unfold l2; by destruct (top rest)).
  eapply called_defer, Hdr; unfold go; by rewrite B3, E.
Qed.
Lemma DoIdleWork_called now id pc k i fs l l' tr : frames l = PumpFrame id pc k i :: fs ->
  DoIdleWork pump_kind pipe_capacity body now l = Ret (l', tr) -> called now id k i fs l l' tr.
Proof.
  intros E. unfold DoIdleWork, ProcessNextDelayedNonNestableTask, RunTask. intros H.
  apply bind_Ret in H as ([[la tr0] ran] & Hp & H). apply bind_Ret in Hp as (r & _ & Hp).
  set (l1 := go (AfterIdle true) l) in *. assert (run_loop_ l1 = run_loop_ l /\ run_loops l1 = run_loops l /\ frames l1 = PumpFrame id (AfterIdle true) k i :: fs) as (A1 & A2 & A3)
    by (unfold l1, go; by rewrite E).
  clearbody l1. assert (ran = false /\ la = l1 /\ tr0 = [] \/ ran = true /\ called now id k i fs l la tr0) as [(-> & -> & ->)|[-> Hc]].
  { destruct (negb _); [injection Hp as <- <- <-; by left|]. destruct (deferred_non_nestable_work_queue_ l1) as [|t ts]; [injection Hp as <- <- <-; by left|].
    right. inv_ret. split; [done|]. split_and!; [done..|]. exists (AfterIdle true). right. exists t. cbn. by rewrite A3. }
  - apply bind_Ret in H as (r' & _ & H). apply bind_Ret in H as (m & Hm & [= <- <-]).
    assert (run_loop_ m = run_loop_ l1 /\ run_loops m = run_loops l1 /\ frames m = frames l1) as (B1 & B2 & B3)
      by (destruct (quit_when_idle_received_ r'); inv_ret; done).
    unfold go. rewrite B3, A3. apply called_quiet with (AfterIdle false); cbn; congruence.
  - by injection H as <- <-.
Qed.

(** * Every step keeps the nesting *)
Lemma base_loop_nest ev again after may timed now id pc k i fs l : nest_inv l -> frames l = PumpFrame id pc k i :: fs ->
  nest_inv (event_base_loop ev again after may timed now l).
Proof.
  intros N E. assert (forall p pc', nest_inv (go pc' (set_pump p l))) as Hgo
    by (intros p pc'; eapply tame_inv, N; etrans; [by apply (tame_mutate (set_pump p))|apply tame_go]).
  assert (forall pc', nest_inv (go pc' l)) as Hgo' by (intros pc'; by eapply tame_inv, N; apply tame_go).
  destruct ev; cbn [event_base_loop]; try (case_match; [|done]); try apply Hgo; try apply Hgo'.
  unfold OnLibeventNotification. destruct (Hgo (with_processed true (pump_ l)) again) as [G1 G2 G3]. by split.
Qed.
(** A pump's step starts a task or keeps the nesting without one. *)
Lemma pump_step_nest now ev id pc k i fs l l' tr : nest_inv l -> frames l = PumpFrame id pc k i :: fs ->
  pump_step pump_kind pipe_capacity body now ev id pc k i fs l = Ret (l', tr) ->
  nest_inv l' /\ (tr = [] \/ called now id k i fs l l' tr).
Proof.
  intros N E. assert (called now id k i fs l l' tr -> nest_inv l' /\ (tr = [] \/ called now id k i fs l l' tr)) as Hcalled
    by (intros H; split; [by eapply called_inv|by right]).
  assert (forall m, nest_inv m -> Ret (m, []) = Ret (l', tr) -> nest_inv l' /\ (tr = [] \/ called now id k i fs l l' tr)) as Hquiet
    by (intros m Hm [= <- <-]; split; [done|by left]).
  assert (forall m pc', tame l m -> nest_inv (go pc' m)) as Hgo by (intros m pc' Hm; eapply tame_inv, N; etrans; [done|apply tame_go]).
  assert (forall pc' m, tame l m -> frames m = frames l -> continue_at pump_kind pipe_capacity pc' id k i fs m = Ret (l', tr) ->
    nest_inv l' /\ (tr = [] \/ called now id k i fs l l' tr)) as Hcont.
  { intros pc' m Hm Em H. pose proof (proj2 (continue_quiet _ _ _ _ _ _ _ _ _ _ H)) as ->. split; [|by left].
    eapply continue_nest; [by eapply tame_inv|by rewrite Em|exact H]. }
  destruct pc; cbn [pump_step].
  - by apply Hquiet, Hgo.
  - apply Hquiet, Hgo, (tame_mutate ReloadWorkQueue); unfold ReloadWorkQueue; by destruct (work_queue_ l), (incoming_of l).
  - intros H. by apply Hcalled, (DoWork_pop_called now id AtPop).
  - by apply Hcont.
  - by eapply Hquiet, base_loop_nest.
  - apply Hcont; [|done]. by apply (tame_mutate (set_pump _)).
  - intros H. by eapply Hcalled, DoDelayedWork_called.
  - by apply Hcont.
  - intros H. by eapply Hcalled, DoIdleWork_called.
  - by apply Hcont.
  - apply Hquiet. repeat case_match; by apply Hgo.
  - apply Hquiet. destruct pump_kind; [|by eapply base_loop_nest]. repeat case_match; try apply Hgo; done.
  - by eapply Hquiet, base_loop_nest.
Qed.
Lemma Add_nest c now delay nest l l' tr b : AddToIncomingQueue pump_kind pipe_capacity c now delay nest l = Ret (l', tr, b) ->
  tame l l' /\ forall t n, Started t n ∉ tr.
Proof.
  unfold AddToIncomingQueue, PostPendingTask. intros H. apply bind_Ret in H as (time & _ & H).
  destruct (negb _); [injection H as <- <- <-; split; [done|]; by intros ?? ?%elem_of_nil|].
  injection H as <- <- <-. split; [|by intros ?? ?%list_elem_of_singleton]. unfold ScheduleWork. by destruct (incoming_queue_ _).
Qed.
Lemma code_step_nest now is_task cmds fs l l' tr : nest_inv l -> frames l = CodeFrame is_task cmds :: fs ->
  code_step pump_kind pipe_capacity now is_task cmds fs l = Ret (l', tr) -> nest_inv l' /\ forall t n, Started t n ∉ tr.
Proof.
  intros N E. assert (forall t n, Started t n ∉ (@nil (@label closure))) as Hnil by (by intros ?? ?%elem_of_nil).
  assert (forall cs, nest_inv (set_frames (CodeFrame is_task cs :: fs) l)) as Hcs.
  { intros cs. destruct N as [N1 N2 N3]. rewrite E in *. split; cbn; try done. }
  destruct cmds as [|c cmds]; cbn [code_step].
  - intros [= <- <-]. split; [|done]. destruct N as [N1 N2 N3]. rewrite E in *.
    assert (shaped fs) by (destruct is_task; cbn in N3; tauto). destruct is_task; by split.
  - specialize (Hcs cmds). revert Hcs. set (l0 := set_frames _ l). intros N0.
    assert (forall m, tame l0 m -> nest_inv m) as Ht by (intros m Hm; by eapply tame_inv).
    destruct c as [c delay nest| | |b|id|id|id]; intros H; try (apply bind_Ret in H as (m & Hm & [= <- <-])); (split; [|try done]).
    + apply bind_Ret in H as ([[m tr0] b] & Hm & [= <- <-]). apply Add_nest in Hm as [Hm _]. by apply Ht.
    + apply bind_Ret in H as ([[m tr0] b] & Hm & [= <- <-]). by apply Add_nest in Hm as [_ Hm].
    + by eapply Ht, QuitNow_tame.
    + by eapply Ht, QuitWhenIdle_tame.
    + injection H as <- <-. apply Ht. by destruct b.
    + injection H as <- <-. done.
    + by eapply RunLoopRun_nest.
    + unfold RunUntilIdle in Hm. eapply RunLoopRun_nest, Hm. apply Ht. split; [done..|]. by apply same_nest_insert.
    + by eapply Ht, RunLoopQuit_tame.
Qed.
Lemma step_nest now i l l' tr : nest_inv l -> step pump_kind pipe_capacity body now i l = Ret (l', tr) -> nest_inv l' /\
  forall t n, Started t n ∈ tr -> exists id pc pc' k r fs, frames l = PumpFrame id pc k r :: fs /\
    frames l' = CodeFrame true (body (task t)) :: PumpFrame id pc' k r :: fs.
Proof.
  intros N. destruct i as [ev|c delay nest]; cbn [step].
  - destruct (frames l) as [|[is_task cmds|id pc k r] fs] eqn:E.
    + intros [= <- <-]. split; [done|]. by intros ?? ?%elem_of_nil.
    + intros H. apply code_step_nest in H as [H1 H2]; [|done..]. split; [done|]. intros t n Hs. by apply H2 in Hs.
    + intros H. apply pump_step_nest in H as [H1 H2]; [|done..]. split; [done|]. intros t n Hs.
      destruct H2 as [->|(_ & _ & pc' & [[_ ->]|(t' & Ef & ->)])]; [by apply elem_of_nil in Hs..|].
      apply list_elem_of_singleton in Hs as [= -> ->]. by exists id, pc, pc', k, r, fs.
  - intros H. apply bind_Ret in H as ([[m tr0] b] & Hm & [= <- <-]). apply Add_nest in Hm as [Hm1 Hm2].
    split; [by eapply tame_inv|]. intros t n Hs. by apply Hm2 in Hs.
Qed.
Lemma reaches_nest l tr now : reaches l tr now -> nest_inv l.
Proof.
  induction 1 as [now Hn|l tr now now' i l' tr' HR IH Hle Hs]; [by split|]. by apply step_nest in Hs as [Hs _].
Qed.

Lemma shaped_no_pump fs : shaped fs -> pumps fs = [] -> Forall (fun f => match f with CodeFrame false _ => True | _ => False end) fs.
Proof.
  induction fs as [|[[] cs|id pc k i] fs IH]; cbn; intros Hs Hp; [constructor| |by constructor; [|apply IH]|done].
  destruct Hs as [Hs _]. by destruct fs as [|[|]].
Qed.

(** C18: a task that is not nestable is started by the outermost loop of its thread,
    with no task below it on the stack, however loops are nested in tasks and
    callbacks. *)
Theorem non_nestable_not_nested l tr now now' i l' tr' t n : reaches l tr now -> now <= now' ->
  step pump_kind pipe_capacity body now' i l = Ret (l', tr') -> Started t n ∈ tr' -> nestable t = false ->
  exists cmds id pc k r fs, frames l' = CodeFrame true cmds :: PumpFrame id pc k r :: fs /\
    Forall (fun f => match f with CodeFrame false _ => True | _ => False end) fs.
Proof.
  intros HR Hle Hs Ht Hn. pose proof (reaches_nest _ _ _ HR) as N. pose proof (reaches_time _ _ _ _ _ _ _ HR) as [? ?].
  destruct (step_nest _ _ _ _ _ N Hs) as [_ Hf]. destruct (Hf t n Ht) as (id & pc & pc' & k & r & fs & E & E').
  exists (body (task t)), id, pc', k, r, fs. split; [done|]. destruct N as [N1 N2 N3]. rewrite E in *. apply shaped_no_pump; [done|].
  change (pumps (PumpFrame id pc k r :: fs)) with (id :: pumps fs) in *. destruct N2 as ((rl & Hrl & _ & Hd & _) & _).
  assert (run_depth_ rl = 1) as Hd1.
  { apply step_move in Hs as [Hs _]; [|lia..]. destruct (move_started _ _ _ _ _ _ _ Hs Ht) as [?|Hi]; [congruence|].
    destruct (decide (run_depth_ rl = 1)) as [|Hne]; [done|]. destruct Hi. intros (rl' & Hc & ?). unfold current in Hc. rewrite N1 in Hc. cbn in Hc.
    rewrite Hrl in Hc. by simplify_eq. }
  rewrite Hd1, zlen_cons in Hd. destruct (pumps fs) eqn:Ep; [done|]. rewrite zlen_cons in Hd. pose proof (zlen_nonneg l0). lia.
Qed.
End Nesting.

(** Task 3 of the demonstration starts when the nested loop is gone. *)
Lemma non_nestable_not_nested_witness :
  exists cmds id pc k r fs, [CodeFrame true []; PumpFrame 0%nat (AfterIdle true) true false; CodeFrame false []] =
    CodeFrame true cmds :: PumpFrame id pc k r :: fs /\
    Forall (fun f : @frame nat => match f with CodeFrame false _ => True | _ => False end) fs.
Proof.
  exact (non_nestable_not_nested PumpLibevent2 65536 demo_body demo_main _ _ 52 53 (Tick IoReturn) (fst (demo 53)) [Started (demo_task 3 0 2 false) 53]
    (demo_task 3 0 2 false) 53 (demo_reaches 52 ltac:(by vm_compute)) ltac:(done) ltac:(by vm_compute) ltac:(by left) eq_refl).
Defined.
