(* ===== verification/LoopWakeup.v ===== *)
(** When a loop sleeps: a thread never blocks over a task it could run, however deep its
    tasks nest loops, as long as the callbacks of libevent start none; what happens if one
    does is the example [nested_in_callback_sleeps]. *)
From Stdlib Require Import ZArith Lia Bool.
From stdpp Require Import base list numbers gmap.
From S2P Require Import Prelude MessageLoop TaskOrder LoopNesting.

Open Scope Z_scope.

Section Wakeup.
Context {closure : Type} `{EqDecision closure}.
Abbreviation loop := (@loop closure).
Abbreviation frame := (@frame closure).
Abbreviation cmd := (@cmd closure).
Context (pump_kind : pump_type) (pipe_capacity : Z) (body : closure -> list cmd) (main : list cmd).

(** Code that starts no loop. *)
Definition flat (cmds : list cmd) : Prop := Forall (fun c => match c with DoRun _ | DoRunUntilIdle _ => False | _ => True end) cmds.
Context (Hcap : 0 < pipe_capacity).

(** Runs in which no callback of libevent starts a loop; the thread's main function and its
    tasks may. *)
Inductive flat_runs : loop -> Z -> Prop :=
  | flat_new now : 0 <= now -> flat_runs (new_loop main) now
  | flat_step l now now' i l' tr' : flat_runs l now -> now <= now' ->
      (match i with Tick (IoCallback cmds) => flat cmds | _ => True end) ->
      step pump_kind pipe_capacity body now' i l = Ret (l', tr') -> flat_runs l' now'.

(** ** Where the pump will look at its queues again before it sleeps *)
Definition will_reload (pc : pump_pc) (processed : bool) : bool :=
  match pc with
  | AtDoWork | AtReload | AtPop | Dispatching => true
  | AfterDoWork d | AtDelayed d | AfterDelayed d | AfterIdle d => d
  | AtPoll d | AfterPoll d => d || processed
  | AtIdle | AtWait | Blocked _ => false
  end.
(** The places after [DoDelayedWork] has said when to wake up. *)
Definition timer_set (pc : pump_pc) : bool :=
  match pc with AfterDelayed false | AtIdle | AfterIdle false | AtWait | Blocked _ => true | _ => false end.

Definition nothing_to_do (l : loop) : Prop := work_queue_ l = [] /\ incoming_of l = [].
Definition timer_ok (l : loop) : Prop :=
  delayed_work_queue_ l = [] \/ exists t, top (delayed_work_queue_ l) = Some t /\ delayed_work_time_ (pump_ l) = delayed_run_time t.

(** A pump at [pc], and tasks allowed or not. *)
Record awake (l : loop) (pc : pump_pc) (allowed : bool) : Prop := {
  aw_work : allowed = true -> nothing_to_do l \/ 0 < wakeups (pump_ l) \/ will_reload pc (processed_io_events_ (pump_ l)) = true;
  aw_timer : allowed = true -> timer_set pc = true -> timer_ok l;
  aw_timed : allowed = true -> forall timed, pc = Blocked timed -> delayed_work_queue_ l = [] \/ timed = true }.

(** What is below code that may start a loop: nothing, or the pump that runs the task, which
    will look at its queues again whatever happens above it, and the code that started it. *)
Fixpoint below (fs : list frame) : Prop :=
  match fs with
  | [] => True
  | PumpFrame _ pc _ _ :: CodeFrame _ _ :: fs => will_reload pc false = true /\ timer_set pc = false /\ below fs
  | _ => False
  end.
(** What is below a pump. *)
Definition base (fs : list frame) : Prop := match fs with CodeFrame _ _ :: fs => below fs | _ => False end.
(** What is below a callback of libevent. *)
Definition polled (l : loop) (fs : list frame) : Prop :=
  match fs with PumpFrame _ pc _ _ :: fs => base fs /\ will_reload pc (processed_io_events_ (pump_ l)) = true /\ timer_set pc = false | _ => False end.
Definition stack_ok (l : loop) : Prop :=
  match frames l with
  | [] => True
  | PumpFrame _ pc _ _ :: fs => base fs /\ awake l pc (nestable_tasks_allowed_ l)
  | CodeFrame _ cs :: fs => below fs \/ flat cs /\ polled l fs
  end.
Record wake_inv (l : loop) : Prop := {
  wi_wakeups : 0 <= wakeups (pump_ l);
  wi_delayed : Forall (fun t => is_delayed t = true) (delayed_work_queue_ l);
  wi_stack : stack_ok l }.

(** ** Pieces of the invariant *)
Lemma awake_same l m pc allowed : work_queue_ m = work_queue_ l -> incoming_of m = incoming_of l -> delayed_work_queue_ m = delayed_work_queue_ l ->
  pump_ m = pump_ l -> awake l pc allowed -> awake m pc allowed.
Proof. intros E1 E2 E3 E4 [A1 A2 A3]. split; unfold nothing_to_do, timer_ok; rewrite ?E1, ?E2, ?E3, ?E4; done. Qed.
Lemma go_fields pc (l : loop) : work_queue_ (go pc l) = work_queue_ l /\ incoming_of (go pc l) = incoming_of l /\
  delayed_work_queue_ (go pc l) = delayed_work_queue_ l /\ pump_ (go pc l) = pump_ l /\ nestable_tasks_allowed_ (go pc l) = nestable_tasks_allowed_ l.
Proof. unfold go. by destruct (frames l) as [|[]]. Qed.
Lemma reload_awake l pc allowed : will_reload pc (processed_io_events_ (pump_ l)) = true -> timer_set pc = false -> awake l pc allowed.
Proof. intros H1 H2. split; [auto|intros _ H; congruence|]. intros _ timed ->. done. Qed.

(** The pump is on top at [pc]. *)
Lemma at_pump id pc0 pc k i fs (m : loop) : frames m = PumpFrame id pc0 k i :: fs -> base fs -> awake m pc (nestable_tasks_allowed_ m) ->
  0 <= wakeups (pump_ m) -> Forall (fun t => is_delayed t = true) (delayed_work_queue_ m) -> wake_inv (go pc m).
Proof.
  intros E Hb Ha Hw Hd. destruct (go_fields pc m) as (F1 & F2 & F3 & F4 & F5). split; [by rewrite F4|by rewrite F3|].
  unfold stack_ok. rewrite (frames_go pc _ _ _ _ _ _ E), F5. split; [done|]. by eapply awake_same.
Qed.
Lemma will_reload_more pc b : will_reload pc false = true -> will_reload pc b = true.
Proof. destruct pc as [| | |[]|[]|[]|[]|[]| |[]| | |]; cbn; congruence || by intros _; destruct b. Qed.
(** A task is on top of it, or a callback. *)
Lemma at_task b cs id pc k i fs (m : loop) : frames m = CodeFrame b cs :: PumpFrame id pc k i :: fs -> base fs ->
  will_reload pc false = true -> timer_set pc = false ->
  0 <= wakeups (pump_ m) -> Forall (fun t => is_delayed t = true) (delayed_work_queue_ m) -> wake_inv m.
Proof. intros E Hb Hr Ht Hw Hd. split; [done|done|]. unfold stack_ok. rewrite E. left. by destruct fs as [|[] fs]. Qed.
Lemma at_code b cs id pc k i fs (m : loop) : frames m = CodeFrame b cs :: PumpFrame id pc k i :: fs -> flat cs -> base fs ->
  will_reload pc (processed_io_events_ (pump_ m)) = true -> timer_set pc = false ->
  0 <= wakeups (pump_ m) -> Forall (fun t => is_delayed t = true) (delayed_work_queue_ m) -> wake_inv m.
Proof. intros E Hc Hb Hr Ht Hw Hd. split; [done|done|]. unfold stack_ok. rewrite E. by right. Qed.

Lemma schedule_pos p : 0 <= wakeups p -> 0 < wakeups (PumpScheduleWork pump_kind pipe_capacity p).
Proof. intros. unfold PumpScheduleWork. destruct pump_kind; cbn; lia. Qed.
Lemma PumpQuit_fields p p' : 0 <= wakeups p -> PumpQuit pump_kind pipe_capacity p = Ret p' ->
  0 <= wakeups p' /\ (0 < wakeups p -> 0 < wakeups p') /\ processed_io_events_ p' = processed_io_events_ p /\ delayed_work_time_ p' = delayed_work_time_ p.
Proof.
  intros Hw. unfold PumpQuit. destruct pump_kind; intros H; inv_ret; [done|].
  pose proof (schedule_pos (with_keep_running false (in_run_ p) p) Hw) as Hs. unfold PumpScheduleWork in *. destruct pump_kind; cbn in *; split_and!; (done || lia).
Qed.
(** A post keeps the pump awake. *)
Lemma Add_wake c now delay nest l l' tr b : 0 <= wakeups (pump_ l) -> AddToIncomingQueue pump_kind pipe_capacity c now delay nest l = Ret (l', tr, b) ->
  frames l' = frames l /\ delayed_work_queue_ l' = delayed_work_queue_ l /\ nestable_tasks_allowed_ l' = nestable_tasks_allowed_ l /\
  processed_io_events_ (pump_ l') = processed_io_events_ (pump_ l) /\ 0 <= wakeups (pump_ l') /\
  forall pc allowed, awake l pc allowed -> awake l' pc allowed.
Proof.
  intros Hw H. unfold AddToIncomingQueue in H. apply bind_Ret in H as (time & _ & H). unfold PostPendingTask, ScheduleWork in H.
  destruct l as [[inc ml n] w d f na rt rl rls p fs]. cbn in *. destruct ml; cbn in H; [|by injection H as <- <- <-].
  injection H as <- <- <-. pose proof (schedule_pos p Hw). destruct inc as [|t0 inc]; cbn -[PumpScheduleWork]; split_and!; try (done || lia).
  - intros pc allowed [A1 A2 A3]. split; [intros _; right; by left|exact A2|exact A3].
  - intros pc allowed [A1 A2 A3]. split; [|exact A2|exact A3]. intros Ha. destruct (A1 Ha) as [[_ ?]|?]; [done|by right].
Qed.
Lemma Add_inv c now delay nest l l' tr b : wake_inv l -> AddToIncomingQueue pump_kind pipe_capacity c now delay nest l = Ret (l', tr, b) -> wake_inv l'.
Proof.
  intros [W1 W2 W3] H. destruct (Add_wake _ _ _ _ _ _ _ _ W1 H) as (E1 & E2 & E3 & E4 & E5 & Ha). split; [done|by rewrite E2|].
  unfold stack_ok, polled in *. rewrite E1, E3, E4. destruct (frames l) as [|[b' cs|id pc k i] fs]; try done.
  destruct W3 as [? ?]. split; [done|by apply Ha].
Qed.

(** ** Every step *)
Lemma LeavePump_frames id k i fs (l : loop) l' : 0 <= wakeups (pump_ l) -> LeavePump pump_kind pipe_capacity id k i fs l = Ret l' ->
  frames l' = fs /\ delayed_work_queue_ l' = delayed_work_queue_ l /\ 0 <= wakeups (pump_ l').
Proof.
  intros Hw. unfold LeavePump, AfterRun. set (p := match pump_kind with PumpDefault => _ | PumpLibevent2 => _ end).
  assert (0 <= wakeups p) as Hp by (unfold p; by destruct pump_kind). cbv zeta.
  set (l1 := set_run_loops _ _ _). assert (frames l1 = fs /\ delayed_work_queue_ l1 = delayed_work_queue_ l /\ pump_ l1 = p) as (E1 & E2 & E3) by done.
  clearbody l1. destruct (previous_run_loop_ _); [|intros [= <-]; by rewrite E3]. destruct (quit_called_ _); [|intros [= <-]; by rewrite E3].
  unfold QuitNow. destruct (run_loop_ l1); [|done]. intros H. inv_ret. rewrite E3 in *. by destruct (PumpQuit_fields _ _ Hp H0).
Qed.
Lemma base_stack fs (l : loop) : base fs -> frames l = fs -> 0 <= wakeups (pump_ l) -> Forall (fun t => is_delayed t = true) (delayed_work_queue_ l) -> wake_inv l.
Proof. intros Hb E Hw Hd. split; [done..|]. unfold stack_ok. rewrite E. destruct fs as [|[b cs|] fs]; [done|by left|done]. Qed.

Section Pump.
Context (now : Z) (id : nat) (k i : bool) (fs : list frame) (Hbase : base fs).

(** Going on, or leaving. *)
Lemma continue_wake pc0 pc (m : loop) l' tr : frames m = PumpFrame id pc0 k i :: fs -> 0 <= wakeups (pump_ m) ->
  Forall (fun t => is_delayed t = true) (delayed_work_queue_ m) -> awake m pc (nestable_tasks_allowed_ m) ->
  continue_at pump_kind pipe_capacity pc id k i fs m = Ret (l', tr) -> wake_inv l'.
Proof.
  intros E Hw Hd Ha. unfold continue_at. destruct (keep_running_ _).
  - intros [= <- <-]. by eapply at_pump.
  - intros H. apply bind_Ret in H as (m' & Hm & [= <- <-]). apply LeavePump_frames in Hm as (E1 & E2 & E3); [|done].
    eapply base_stack; [done..|by rewrite E2].
Qed.
(** A pump at [pc] that is kept awake or has its timer set is so at the next place. *)
Lemma awake_weaken (m : loop) pc pc' allowed : awake m pc allowed ->
  (will_reload pc (processed_io_events_ (pump_ m)) = true -> will_reload pc' (processed_io_events_ (pump_ m)) = true) ->
  (timer_set pc' = true -> timer_set pc = true) -> (forall timed, pc' <> Blocked timed) -> awake m pc' allowed.
Proof.
  intros [A1 A2 A3] H1 H2 H3. split; [|auto|].
  - intros Ha. destruct (A1 Ha) as [?|[?|?]]; auto.
  - intros _ timed ->. by destruct (H3 timed).
Qed.

Lemma DeferOrRun_wake t m l1 tr ran : DeferOrRunPendingTask body t now m = Ret (l1, tr, ran) ->
  work_queue_ l1 = work_queue_ m /\ incoming_of l1 = incoming_of m /\ delayed_work_queue_ l1 = delayed_work_queue_ m /\ pump_ l1 = pump_ m /\
  (if ran then frames l1 = CodeFrame true (body (task t)) :: frames m else frames l1 = frames m /\ nestable_tasks_allowed_ l1 = nestable_tasks_allowed_ m).
Proof. unfold DeferOrRunPendingTask, RunTask. intros H. inv_ret. destruct (_ || _); inv_ret; done. Qed.

Lemma DoWork_pop_wake l l' tr : frames l = PumpFrame id AtPop k i :: fs -> wake_inv l -> DoWork_pop body now l = Ret (l', tr) -> wake_inv l'.
Proof.
  intros E [W1 W2 W3]. unfold DoWork_pop. destruct (work_queue_ l) as [|t ts]; [done|]. set (next := match ts with [] => AtReload | _ => AtPop end).
  assert (forall p, will_reload next p = true) as Hn1 by (by destruct ts). assert (timer_set next = false) as Hn2 by (by destruct ts). clearbody next.
  set (l1 := set_queues ts _ _ l). assert (frames l1 = PumpFrame id AtPop k i :: fs) as E1 by done.
  destruct (is_delayed t) eqn:Hd; intros H.
  - injection H as <- <-. assert (Forall (fun t => is_delayed t = true) (delayed_work_queue_ l ++ [t])) by (apply Forall_app; repeat constructor; done).
    destruct (bool_decide _); (eapply at_pump; [done..| |done|done]); by apply reload_awake.
  - apply bind_Ret in H as ([[la tr0] ran] & Hdr & [= <- <-]). apply DeferOrRun_wake in Hdr as (_ & _ & D3 & D4 & D5).
    destruct (go_fields (AfterDoWork true) l1) as (_ & _ & F3 & F4 & F5). rewrite (frames_go _ _ _ _ _ _ _ E1) in D5. rewrite F3 in D3. rewrite F4 in D4. destruct ran.
    + eapply at_task; [done|done|done|done|by rewrite D4|by rewrite D3].
    + destruct D5 as [D5 D6]. eapply at_pump; [done..| |by rewrite D4|by rewrite D3]. apply reload_awake; [apply Hn1|apply Hn2].
Qed.

Lemma top_some (q : list (@pending_task closure)) : q <> [] -> exists t r, extract_top q = Some (t, r) /\ top q = Some t.
Proof. destruct q as [|t q]; [done|]. intros _. unfold top. cbn. destruct (extract_top q) as [[m r]|]; [destruct (task_lt t m)|]; by eauto. Qed.
Lemma DoDelayedWork_wake d l l' tr : frames l = PumpFrame id (AtDelayed d) k i :: fs -> wake_inv l -> awake l (AtDelayed d) (nestable_tasks_allowed_ l) ->
  DoDelayedWork body now d l = Ret (l', tr) -> wake_inv l'.
Proof.
  intros E [W1 W2 _] Ha. unfold DoDelayedWork.
  assert (forall (m : loop) b, frames m = frames l -> nestable_tasks_allowed_ m = nestable_tasks_allowed_ l -> work_queue_ m = work_queue_ l ->
    incoming_of m = incoming_of l -> Forall (fun t => is_delayed t = true) (delayed_work_queue_ m) -> wakeups (pump_ m) = wakeups (pump_ l) ->
    processed_io_events_ (pump_ m) = processed_io_events_ (pump_ l) -> (nestable_tasks_allowed_ l = true -> timer_ok m) ->
    wake_inv (go (AfterDelayed (d || b)) m)) as Hgo.
  { intros m b E1 E2 E3 E4 E5 E6 E7 E8. eapply at_pump; [by rewrite E1, E|done| |lia|done]. rewrite E2. destruct Ha as [A1 A2 A3].
    split; [|auto|done]. intros Hal. destruct (A1 Hal) as [[? ?]|[?|Hr]]; [left; split; congruence|right; left; congruence|right; right].
    cbn in Hr. by subst d. }
  destruct (nestable_tasks_allowed_ l) eqn:En; [|intros [= <- <-]; by apply Hgo].
  destruct (extract_top (delayed_work_queue_ l)) as [[t rest]|] eqn:Et.
  2:{ intros [= <- <-]. apply Hgo; [done..|]. intros _. left. cbn. destruct (delayed_work_queue_ l) eqn:Eq; [done|].
      destruct (top_some (delayed_work_queue_ l)) as (t' & r' & H' & _); congruence. }
  cbv zeta. set (l1 := if recent_time_ l <? delayed_run_time t then set_recent now l else l).
  assert (frames l1 = frames l /\ nestable_tasks_allowed_ l1 = true /\ work_queue_ l1 = work_queue_ l /\ incoming_of l1 = incoming_of l /\
    delayed_work_queue_ l1 = delayed_work_queue_ l /\ pump_ l1 = pump_ l) as (C1 & C2 & C3 & C4 & C5 & C6) by (unfold l1; by destruct (_ <? _)).
  clearbody l1. destruct (_ <? _).
  - intros [= <- <-]. apply Hgo; cbn; rewrite ?C5, ?C6; try done. intros _. right. exists t. cbn. unfold top. rewrite C5, Et. done.
  - intros H. apply bind_Ret in H as ([[la tr0] ran] & Hdr & [= <- <-]).
    assert (Forall (fun t => is_delayed t = true) rest) as Hrest by (pose proof (extract_top_perm _ _ _ Et) as P; rewrite P in W2; apply Forall_cons in W2; tauto).
    set (l2 := match top rest with Some t' => _ | None => _ end) in Hdr.
    assert (frames l2 = frames l /\ nestable_tasks_allowed_ l2 = true /\ work_queue_ l2 = work_queue_ l /\ incoming_of l2 = incoming_of l /\
      delayed_work_queue_ l2 = rest /\ wakeups (pump_ l2) = wakeups (pump_ l) /\ processed_io_events_ (pump_ l2) = processed_io_events_ (pump_ l) /\ timer_ok l2)
      as (B1 & B2 & B3 & B4 & B5 & B6 & B7 & B8).
    { unfold l2. destruct (top rest) as [t'|] eqn:Er; cbn; rewrite ?C6; split_and!; try done.
      - right. exists t'. by cbn.
      - left. cbn. destruct rest as [|t0 rest0] eqn:Eq; [done|]. destruct (top_some rest) as (? & ? & _ & ?); congruence. }
    clearbody l2. apply DeferOrRun_wake in Hdr as (D1 & D2 & D3 & D4 & D5). destruct (go_fields (AfterDelayed (d || true)) l2) as (F1 & F2 & F3 & F4 & F5).
    rewrite orb_true_r in *. assert (frames (go (AfterDelayed true) l2) = PumpFrame id (AfterDelayed true) k i :: fs) as Ef by (eapply frames_go; by rewrite B1, E).
    rewrite Ef in D5. destruct ran.
    + eapply at_task; [done|done|done|done|rewrite D4, F4; lia|by rewrite D3, F3, B5].
    + destruct D5 as [D5 D6]. assert (frames (set_frames (frames l) la) = frames l) as _ by done.
      eapply at_pump; [done|done| |rewrite D4, F4; lia|by rewrite D3, F3, B5].
      destruct Ha as [A1 A2 A3]. rewrite D6, F5, B2. split; [|intros _ _|done].
      * intros _. unfold nothing_to_do. rewrite D1, D2, D4, F1, F2, F4, B3, B4, B6, B7. destruct (A1 eq_refl) as [?|[?|Hr]]; [by left|by right; left|right; right].
        cbn in Hr. by subst d.
      * unfold timer_ok. by rewrite D3, D4, F3, F4.
Qed.
Lemma DoIdleWork_wake l l' tr : frames l = PumpFrame id AtIdle k i :: fs -> wake_inv l -> awake l AtIdle (nestable_tasks_allowed_ l) ->
  DoIdleWork pump_kind pipe_capacity body now l = Ret (l', tr) -> wake_inv l'.
Proof.
  intros E [W1 W2 _] Ha. unfold DoIdleWork, ProcessNextDelayedNonNestableTask, RunTask. intros H.
  apply bind_Ret in H as ([[la tr0] ran] & Hp & H). apply bind_Ret in Hp as (r & _ & Hp).
  set (l1 := go (AfterIdle true) l) in *. assert (frames l1 = PumpFrame id (AfterIdle true) k i :: fs) as E1 by (by eapply frames_go).
  destruct (go_fields (AfterIdle true) l) as (F1 & F2 & F3 & F4 & F5). fold l1 in F1, F2, F3, F4, F5. clearbody l1.
  assert (ran = false /\ la = l1 \/ ran = true /\ wake_inv la) as [[-> ->]|[-> Hw]].
  { destruct (negb _); [injection Hp as <- <- <-; by left|]. destruct (deferred_non_nestable_work_queue_ l1) as [|t ts]; [injection Hp as <- <- <-; by left|].
    right. inv_ret. split; [done|]. eapply (at_task true (body (task t)) id (AfterIdle true)); cbn; [by rewrite E1|done|done|done|by rewrite F4|by rewrite F3]. }
  - apply bind_Ret in H as (r' & _ & H). apply bind_Ret in H as (m & Hm & [= <- <-]).
    assert (frames m = frames l1 /\ delayed_work_queue_ m = delayed_work_queue_ l1 /\ 0 <= wakeups (pump_ m) /\
      forall allowed, awake l1 AtIdle allowed -> awake m AtIdle allowed) as (B1 & B2 & B3 & B4).
    { destruct (quit_when_idle_received_ r'); [|injection Hm as <-; by rewrite F4]. apply bind_Ret in Hm as (p & Hm & [= <-]).
      rewrite F4 in Hm. apply PumpQuit_fields in Hm as (Q1 & Q2 & Q3 & Q4); [|done]. split_and!; [done..|].
      intros allowed [A1 A2 A3]. split; unfold nothing_to_do, timer_ok; cbn; rewrite ?Q3, ?Q4, <- ?F4; rewrite F4 in A1; auto.
      intros Hal. destruct (A1 Hal) as [?|[?|?]]; auto. }
    assert (nestable_tasks_allowed_ m = nestable_tasks_allowed_ l1) as B5 by (destruct (quit_when_idle_received_ r'); inv_ret; done).
    eapply at_pump; [by rewrite B1|done| |done|by rewrite B2, F3]. rewrite B5, F5. eapply awake_weaken; [apply B4; by eapply awake_same|done..].
  - by injection H as <- <-.
Qed.

Lemma base_loop_wake ev again after may timed l pc0 : frames l = PumpFrame id pc0 k i :: fs -> 0 <= wakeups (pump_ l) ->
  Forall (fun t => is_delayed t = true) (delayed_work_queue_ l) -> (match ev with IoCallback cmds => flat cmds | _ => True end) ->
  will_reload again true = true -> timer_set again = false -> timer_set after = false -> will_reload after true = true ->
  wake_inv l -> (may || timed = true -> awake l after (nestable_tasks_allowed_ l)) -> wake_inv (event_base_loop ev again after may timed now l).
Proof.
  intros E Hw Hd Hev Ha1 Ha2 Ht Hr Hl Hmay. destruct ev as [| |cmds|]; cbn [event_base_loop].
  - destruct may; [|done]. by eapply at_pump; [..|apply Hmay| |].
  - destruct (0 <? wakeups (pump_ l)) eqn:Hp; [|done]. eapply (at_pump id pc0); [exact E|done| |cbn; lia|done]. by apply reload_awake.
  - unfold OnLibeventNotification. set (l1 := go again (set_pump _ l)).
    assert (frames l1 = PumpFrame id again k i :: fs) as E1 by (eapply frames_go, E). destruct (go_fields again (set_pump (with_processed true (pump_ l)) l)) as (_ & _ & F3 & F4 & _).
    fold l1 in F3, F4. eapply (at_code false cmds id again); cbn; [by rewrite E1|done|done|by rewrite F4|done|by rewrite F4|by rewrite F3].
  - destruct (timed && _) eqn:Hp; [|done]. apply andb_true_iff in Hp as [-> _]. eapply at_pump; [done|done|apply Hmay, orb_true_r|done|done].
Qed.
Lemma pump_step_wake ev pc l l' tr : frames l = PumpFrame id pc k i :: fs -> wake_inv l ->
  (match ev with IoCallback cmds => flat cmds | _ => True end) ->
  pump_step pump_kind pipe_capacity body now ev id pc k i fs l = Ret (l', tr) -> wake_inv l'.
Proof.
  intros E W Hev. pose proof W as [W1 W2 W3]. assert (awake l pc (nestable_tasks_allowed_ l)) as Ha by (unfold stack_ok in W3; rewrite E in W3; tauto).
  assert (forall pc' (m : loop), frames m = PumpFrame id pc k i :: fs -> awake m pc' (nestable_tasks_allowed_ m) -> 0 <= wakeups (pump_ m) ->
    Forall (fun t => is_delayed t = true) (delayed_work_queue_ m) -> Ret (go pc' m, []) = Ret (l', tr) -> wake_inv l') as Hgo
    by (intros pc' m Hm ??? [= <- <-]; by eapply at_pump).
  destruct pc as [| | |d|d|d|d|d| |d| |timed|]; cbn [pump_step].
  - apply Hgo; [done| |done..]. destruct (nestable_tasks_allowed_ l) eqn:En; [by apply reload_awake|by split].
  - unfold ReloadWorkQueue, incoming_of. destruct (work_queue_ l) as [|t ts] eqn:Ew; [|rewrite Ew; apply Hgo; [done|by apply reload_awake|done..]].
    destruct (incoming_queue_ (incoming_task_queue_ l)) as [|t ts] eqn:Ei; [rewrite Ew|]; apply Hgo; try done; [|by apply reload_awake].
    split; [|done..]. intros _. by left.
  - by apply DoWork_pop_wake.
  - eapply continue_wake; [done..|]. destruct pump_kind; [by eapply awake_weaken|]. eapply awake_weaken; [done| |done..]. cbn. intros ->. done.
  - intros [= <- <-]. eapply base_loop_wake; try done; cbn; try apply orb_true_r. intros _. by eapply awake_weaken.
  - set (m := set_pump _ l). eapply (continue_wake _ _ m); [exact E|done..|]. destruct Ha as [A1 A2 A3]. split; [|done..].
    intros Hal. destruct (A1 Hal) as [?|[?|Hr]]; auto.
  - by apply DoDelayedWork_wake.
  - eapply continue_wake; [done..|]. destruct d; [by apply reload_awake|]. by eapply awake_weaken.
  - by apply DoIdleWork_wake.
  - eapply continue_wake; [done..|]. destruct d; [by apply reload_awake|]. by eapply awake_weaken.
  - intros H. destruct (delayed_work_time_ (pump_ l) =? 0) eqn:E0.
    + eapply (Hgo (Blocked false) l); try done. destruct Ha as [A1 A2 A3]. split; [done..|]. intros Hal timed [= <-]. left.
      destruct (A2 Hal eq_refl) as [?|(t & Ht & Hd)]; [done|]. exfalso. unfold top in Ht. destruct (extract_top _) as [[t' r]|] eqn:Et; [|done].
      cbn in Ht. simplify_eq. pose proof (extract_top_perm _ _ _ Et) as P. rewrite P in W2. apply Forall_cons in W2 as [Hdel _].
      unfold is_delayed in Hdel. apply negb_true_iff, Z.eqb_neq in Hdel. lia.
    + destruct (now <? _); [eapply (Hgo (Blocked true) l); try done|].
      * destruct Ha as [A1 A2 A3]. split; [done..|]. intros Hal timed [= <-]. by right.
      * eapply (Hgo AtDoWork (set_pump (ScheduleDelayedWork 0 (pump_ l)) l)); [exact E|by apply reload_awake|done..].
  - destruct pump_kind eqn:Epk.
    + destruct (0 <? wakeups (pump_ l)); [|destruct (timed && _)]; intros H.
      * eapply (Hgo AtDoWork (set_pump (with_wakeups 0 (pump_ l)) l)); [exact E|by apply reload_awake|cbn; lia|done..].
      * eapply (Hgo AtDoWork l); [exact E|by apply reload_awake|done..].
      * by injection H as <- <-.
    + intros [= <- <-]. eapply base_loop_wake; try done. intros _. by apply reload_awake.
  - intros [= <- <-]. eapply base_loop_wake; try done. intros _. by apply reload_awake.
Qed.
End Pump.

Lemma flat_inv c cs : flat (c :: cs) -> (match c with DoRun _ | DoRunUntilIdle _ => False | _ => True end) /\ flat cs.
Proof. intros H. by inv H. Qed.
(** What code does to the loop other than starting another. *)
Definition keeps (l m : loop) : Prop :=
  frames m = frames l /\ delayed_work_queue_ m = delayed_work_queue_ l /\ processed_io_events_ (pump_ m) = processed_io_events_ (pump_ l) /\ 0 <= wakeups (pump_ m).
Lemma QuitNow_keeps l m : 0 <= wakeups (pump_ l) -> QuitNow pump_kind pipe_capacity l = Ret m -> keeps l m.
Proof.
  intros Hw. unfold QuitNow. destruct (run_loop_ l); [|done]. intros H. inv_ret. apply PumpQuit_fields in H0 as (? & _ & ? & _); [|done]. by split_and!.
Qed.
Lemma keeps_code b cs id pc k i fs (l m : loop) : keeps l m -> frames l = CodeFrame b cs :: PumpFrame id pc k i :: fs -> flat cs -> base fs ->
  will_reload pc (processed_io_events_ (pump_ l)) = true -> timer_set pc = false -> Forall (fun t => is_delayed t = true) (delayed_work_queue_ l) -> wake_inv m.
Proof. intros (K1 & K2 & K3 & K4) E ? ? ? ? ?. eapply at_code; [by rewrite K1|done|done|by rewrite K3|done|done|by rewrite K2]. Qed.
Lemma keeps_below b cs fs (l m : loop) : keeps l m -> frames l = CodeFrame b cs :: fs -> below fs -> Forall (fun t => is_delayed t = true) (delayed_work_queue_ l) -> wake_inv m.
Proof. intros (K1 & K2 & K3 & K4) E Hb ?. eapply (base_stack (CodeFrame b cs :: fs)); [done|by rewrite K1|done|by rewrite K2]. Qed.

(** A step of code. *)
Lemma flat_cmd_keeps now b cs c fs l l' tr : 0 <= wakeups (pump_ l) ->
  (match c with DoRun _ | DoRunUntilIdle _ => False | _ => True end) ->
  code_step pump_kind pipe_capacity now b (c :: cs) fs l = Ret (l', tr) -> keeps (set_frames (CodeFrame b cs :: fs) l) l'.
Proof.
  intros Hw Hc. cbn [code_step]. set (l0 := set_frames _ l). destruct c as [c delay nest| | |a|rl|rl|rl]; intros H; try done.
  - apply bind_Ret in H as ([[m tr0] r] & Hadd & [= <- <-]). apply Add_wake in Hadd as (E1 & E2 & E3 & E4 & E5 & _); [|done]. by split_and!.
  - apply bind_Ret in H as (m & Hq & [= <- <-]). by apply QuitNow_keeps in Hq.
  - apply bind_Ret in H as (m & Hq & [= <- <-]). unfold QuitWhenIdle in Hq. destruct (run_loop_ l0); [|done]. inv_ret. by split_and!.
  - injection H as <- <-. destruct a; [|by split_and!]. pose proof (schedule_pos (pump_ l) Hw). split_and!; [done..|]. cbn -[PumpScheduleWork]. lia.
  - apply bind_Ret in H as (m & Hq & [= <- <-]). unfold RunLoopQuit in Hq. destruct (_ && _); [|injection Hq as <-; by split_and!].
    by apply QuitNow_keeps in Hq.
Qed.
(** Code that is not a callback starts a loop. *)
Lemma RunLoopRun_wake id b cs fs l l' : frames l = CodeFrame b cs :: fs -> below fs -> wake_inv l -> RunLoopRun pump_kind id l = Ret l' -> wake_inv l'.
Proof.
  intros E Hb [W1 W2 _]. unfold RunLoopRun, BeforeRun, EnterPump. intros H. apply bind_Ret in H as ([m r] & Hm & H). apply DCHECK_Ret in Hm as [Hm _].
  assert (keeps l m) as K by (destruct (quit_called_ _); injection Hm as <- <-; by split_and!). destruct r.
  2:{ injection H as <-. by eapply keeps_below. }
  destruct K as (K1 & K2 & K3 & K4).
  assert (forall (p : pump) k i, 0 <= wakeups p -> wake_inv (set_frames (PumpFrame id AtDoWork k i :: frames m) (set_pump p m))) as Hp.
  { intros p k i Hw. split; cbn; [done|by rewrite K2|]. unfold stack_ok. cbn. rewrite K1, E. split; [done|by apply reload_awake]. }
  destruct pump_kind.
  - apply DCHECK_Ret in H as [H _]. injection H as <-. by apply (Hp (pump_ m)).
  - injection H as <-. by apply Hp.
Qed.
(** Code ends: the pump below looks at its queues again. *)
Lemma code_end_wake b fs l : wake_inv l -> below fs \/ polled l fs -> wake_inv (if b : bool then TaskDone (set_frames fs l) else set_frames fs l).
Proof.
  intros [W1 W2 _] Hb. assert (forall m : loop, frames m = fs -> pump_ m = pump_ l -> delayed_work_queue_ m = delayed_work_queue_ l -> wake_inv m) as Hm; [|by destruct b; apply Hm].
  intros m E1 E2 E3. split; [by rewrite E2|by rewrite E3|]. unfold stack_ok. rewrite E1. destruct fs as [|[b' cs'|id pc k i] fs]; [done|by destruct Hb|].
  destruct Hb as [Hb|(Hb & Hr & Ht)].
  - cbn in Hb. destruct fs as [|[b' cs'|] fs]; [done| |done]. destruct Hb as (Hr & Ht & Hb). split; [done|]. apply reload_awake; [by apply will_reload_more|done].
  - split; [done|]. apply reload_awake; [by rewrite E2|done].
Qed.
Lemma code_step_wake now b cmds fs l l' tr : frames l = CodeFrame b cmds :: fs -> wake_inv l ->
  code_step pump_kind pipe_capacity now b cmds fs l = Ret (l', tr) -> wake_inv l'.
Proof.
  intros E W. pose proof W as [W1 W2 W3]. unfold stack_ok in W3. rewrite E in W3. destruct cmds as [|c cmds].
  { cbn [code_step]. intros [= <- <-]. apply code_end_wake; [done|]. destruct W3 as [?|[_ ?]]; [by left|by right]. }
  destruct W3 as [Hb|(Hf & Hb)].
  - intros H. assert (wake_inv (set_frames (CodeFrame b cmds :: fs) l)) as W0 by (by apply (base_stack (CodeFrame b cmds :: fs))).
    destruct c as [c delay nest| | |a|rl|rl|rl]; try (by eapply flat_cmd_keeps in H; [by eapply keeps_below|done..]);
      cbn [code_step] in H; apply bind_Ret in H as (m & Hm & [= <- <-]).
    + by eapply RunLoopRun_wake in Hm.
    + unfold RunUntilIdle in Hm. eapply RunLoopRun_wake in Hm; [done|done|done|]. by apply (base_stack (CodeFrame b cmds :: fs)).
  - intros H. apply flat_inv in Hf as [Hc Hf]. apply flat_cmd_keeps in H; [|done..]. destruct fs as [|[|id pc k i] fs]; [done..|]. destruct Hb as (Hb & Hr & Ht). by eapply keeps_code.
Qed.
Lemma step_wake now i l l' tr : wake_inv l -> (match i with Tick (IoCallback cmds) => flat cmds | _ => True end) ->
  step pump_kind pipe_capacity body now i l = Ret (l', tr) -> wake_inv l'.
Proof.
  intros W Hi. destruct i as [ev|c delay nest]; cbn [step].
  - pose proof (wi_stack _ W) as W3. unfold stack_ok in W3. destruct (frames l) as [|[b cmds|id pc k r] fs] eqn:E.
    + by intros [= <- <-].
    + by apply code_step_wake.
    + apply pump_step_wake; [tauto|done..].
  - intros H. apply bind_Ret in H as ([[m tr0] b] & Hm & [= <- <-]). by apply Add_inv in Hm.
Qed.
Lemma flat_runs_wake l now : flat_runs l now -> wake_inv l.
Proof. induction 1 as [now Hn|l now now' i l' tr' HR IH Hle Hi Hs]; [split; [done|by constructor|by left]|by eapply step_wake]. Qed.

(** C12: on a thread whose callbacks of libevent start no loop, while its tasks may, at any
    depth, a pump that blocks while tasks are allowed, be it the outermost or a nested one,
    has a wake-up waiting for it, or there is no task to run and its timer is set for the
    first delayed one: no posted task is slept over, whoever posted it and when. *)
Theorem no_lost_wakeup l now id timed k i fs : flat_runs l now -> frames l = PumpFrame id (Blocked timed) k i :: fs ->
  nestable_tasks_allowed_ l = true ->
  0 < wakeups (pump_ l) \/
  work_queue_ l = [] /\ incoming_of l = [] /\
  (delayed_work_queue_ l = [] \/
   timed = true /\ exists t, top (delayed_work_queue_ l) = Some t /\ delayed_work_time_ (pump_ l) = delayed_run_time t).
Proof.
  intros HR E Hal. apply flat_runs_wake in HR as [_ _ W]. unfold stack_ok in W. rewrite E in W. destruct W as [_ [A1 A2 A3]].
  destruct (A1 Hal) as [[? ?]|[?|?]]; [right|by left|done]. split_and!; [done..|].
  destruct (A2 Hal eq_refl) as [?|?]; [by left|]. destruct (A3 Hal timed eq_refl); [by left|by right].
Qed.

(** ** What a wake-up is good for *)
Lemma flat_reaches l now : flat_runs l now -> exists tr, runs pump_kind pipe_capacity body main l tr now.
Proof.
  induction 1 as [now Hn|l now now' i l' tr' HR [tr IH] Hle Hi Hs]; [exists []; by constructor|]. exists (tr ++ tr'). by eapply runs_step.
Qed.
Abbreviation exec := (exec pump_kind pipe_capacity body).
Lemma exec_flat ins : forall now l l' tr', flat_runs l now -> Forall (fun i => match i with Tick (IoCallback cmds) => flat cmds | _ => True end) ins ->
  exec ins now l = Ret (l', tr') -> flat_runs l' (now + zlen ins).
Proof.
  induction ins as [|i ins IH]; intros now l l' tr' HR Hins; cbn [TaskOrder.exec].
  - intros [= <- <-]. change (zlen []) with 0. by rewrite Z.add_0_r.
  - intros H. apply Forall_cons in Hins as [Hi Hins]. apply bind_Ret in H as ([m tr1] & Hs & H). apply bind_Ret in H as ([m' tr2] & He & [= <- <-]).
    rewrite zlen_cons, Z.add_assoc. eapply IH, He; [|done]. eapply flat_step; [done|lia|done|done].
Qed.

(** A post to a loop that sleeps with nothing to do wakes it, and the task starts
    four steps later. *)
Theorem sleeping_loop_runs_post l now id timed k i fs c : flat_runs l now -> frames l = PumpFrame id (Blocked timed) k i :: fs ->
  nestable_tasks_allowed_ l = true -> message_loop_ (incoming_task_queue_ l) = true -> work_queue_ l = [] -> incoming_of l = [] ->
  let t := PendingTask c 0 (next_sequence_num_ (incoming_task_queue_ l)) true in
  exists l', exec [Foreign c 0 true; Tick IoWakeup; Tick IoReturn; Tick IoReturn; Tick IoReturn] now l = Ret (l', [Posted t; Started t (now + 5)]) /\
    frames l' = CodeFrame true (body c) :: PumpFrame id (AfterDoWork true) k i :: fs.
Proof.
  intros HR E Hal Hml Hw Hi t. pose proof (flat_runs_wake _ _ HR) as [W1 _ _]. destruct (flat_reaches _ _ HR) as [tr Hr].
  pose proof (reaches_nest _ _ _ _ _ _ _ Hr) as [N1 N2 _]. rewrite E in N1, N2. destruct N2 as ((r & Hrl & _) & _).
  pose proof (schedule_pos (pump_ l) W1) as Hpos. destruct l as [[inc ml n] w d f na rt rl rls p fs']. unfold incoming_of in Hi. cbn -[PumpScheduleWork] in N1, Hi, E, Hal, Hml, Hw, W1, Hpos, Hrl, t. subst.
  set (p1 := PumpScheduleWork pump_kind pipe_capacity p) in *.
  assert (exists l1, step pump_kind pipe_capacity body (now + 1) (Foreign c 0 true) (MessageLoop (IncomingTaskQueue [] true n) [] d f true rt (Some id) rls p (PumpFrame id (Blocked timed) k i :: fs)) = Ret (l1, [Posted t]) /\
    l1 = MessageLoop (IncomingTaskQueue [t] true (s32 (n + 1))) [] d f true rt (Some id) rls p1 (PumpFrame id (Blocked timed) k i :: fs)) as (l1 & E1 & El1) by (eexists; split; [reflexivity|done]).
  cbn [TaskOrder.exec]. rewrite E1. obind. clear E1. subst l1.
  assert (exists p2, step pump_kind pipe_capacity body (now + 1 + 1) (Tick IoWakeup) (MessageLoop (IncomingTaskQueue [t] true (s32 (n + 1))) [] d f true rt (Some id) rls p1 (PumpFrame id (Blocked timed) k i :: fs)) =
    Ret (MessageLoop (IncomingTaskQueue [t] true (s32 (n + 1))) [] d f true rt (Some id) rls p2 (PumpFrame id AtDoWork k i :: fs), [])) as [p2 E2].
  { apply Z.ltb_lt in Hpos. destruct pump_kind; cbn -[PumpScheduleWork Z.ltb]; rewrite Hpos; by eexists. }
  rewrite E2. obind. clear E2. cbn -[lookup]. unfold DeferOrRunPendingTask, current. cbn -[lookup]. rewrite Hrl. cbn -[lookup].
  replace (now + 1 + 1 + 1 + 1 + 1) with (now + 5) by lia. eexists. by split.
Qed.
End Wakeup.

(** * Witnesses *)
(** A thread whose first task runs a loop of its own: the pump of that loop, which is above
    the task, the first pump and the main function, sleeps until the delayed task is due. *)
Definition idle_body (c : nat) : list (@cmd nat) :=
  match c with 1%nat => [DoSetNestableTasksAllowed true; DoRun 1%nat] | _ => [] end.
Definition idle_main : list (@cmd nat) := [DoPost 1%nat 0 true; DoPost 2%nat 1000 true; DoRun 0%nat].
Definition idle_ins : list (@input nat) :=
  replicate 22 (Tick IoReturn) ++ Tick IoWakeup :: replicate 18 (Tick IoReturn) ++ Tick IoWakeup :: replicate 18 (Tick IoReturn).
Definition idle : @loop nat :=
  match exec PumpLibevent2 65536 idle_body idle_ins 0 (new_loop idle_main) with Ret (l, _) => l | Fault _ => new_loop idle_main end.
Definition idle_below : list (@frame nat) := [CodeFrame true []; PumpFrame 0%nat (AfterDoWork true) true false; CodeFrame false []].
Lemma idle_runs : flat_runs PumpLibevent2 65536 idle_body idle_main idle 60.
Proof.
  assert (exists tr, exec PumpLibevent2 65536 idle_body idle_ins 0 (new_loop idle_main) = Ret (idle, tr)) as [tr H] by (eexists; by vm_compute).
  apply (exec_flat _ _ _ _ idle_ins 0 (new_loop idle_main) idle tr); [by constructor| |done]. by repeat constructor.
Qed.
Example idle_asleep : wakeups (pump_ idle) = 0 /\ delayed_work_queue_ idle <> [].
Proof. split; by vm_compute. Qed.
Lemma no_lost_wakeup_witness : 0 < wakeups (pump_ idle) \/ work_queue_ idle = [] /\ incoming_of idle = [] /\
  (delayed_work_queue_ idle = [] \/ true = true /\ exists t, top (delayed_work_queue_ idle) = Some t /\ delayed_work_time_ (pump_ idle) = delayed_run_time t).
Proof.
  exact (no_lost_wakeup PumpLibevent2 65536 idle_body idle_main ltac:(lia) idle 60 1%nat true true true idle_below
    idle_runs ltac:(by vm_compute) ltac:(by vm_compute)).
Defined.
Lemma sleeping_loop_runs_post_witness :
  let t := PendingTask 7%nat 0 2 true in
  exists l', exec PumpLibevent2 65536 idle_body [Foreign 7%nat 0 true; Tick IoWakeup; Tick IoReturn; Tick IoReturn; Tick IoReturn] 60 idle =
    Ret (l', [Posted t; Started t 65]) /\
    frames l' = CodeFrame true [] :: PumpFrame 1%nat (AfterDoWork true) true true :: idle_below.
Proof.
  exact (sleeping_loop_runs_post PumpLibevent2 65536 idle_body idle_main ltac:(lia) idle 60 1%nat true true true idle_below 7%nat
    idle_runs ltac:(by vm_compute) ltac:(by vm_compute) ltac:(by vm_compute) ltac:(by vm_compute) ltac:(by vm_compute)).
Defined.

(** A loop started from a callback of libevent: it takes the wake-up and clears
    [processed_io_events_], which the pump below shares, and quits with a task left in the
    work queue; the pump below then finds that its poll did nothing, and blocks. *)
Definition nested_poll : list (@input nat) :=
  replicate 4 (Tick IoReturn) ++ [Foreign 1%nat 0 true; Foreign 2%nat 0 true; Foreign 3%nat 0 true; Tick (IoCallback [DoRun 1%nat])] ++
  replicate 6 (Tick IoReturn) ++ [Tick IoWakeup] ++ replicate 8 (Tick IoReturn) ++
  [Tick (IoCallback [DoQuit 1%nat])] ++ replicate 2 (Tick IoReturn) ++ [Tick IoWakeup] ++ replicate 9 (Tick IoReturn).
Example nested_in_callback_sleeps : exists l tr, exec PumpLibevent2 65536 (fun _ => []) nested_poll 0 (new_loop [DoRun 0%nat]) = Ret (l, tr) /\
  frames l = [PumpFrame 0%nat (Blocked false) true false; CodeFrame false []] /\ nestable_tasks_allowed_ l = true /\
  wakeups (pump_ l) = 0 /\ map task (work_queue_ l) = [3%nat].
Proof. eexists _, _. split; [vm_compute; reflexivity|]. by vm_compute. Qed.
