(* ===== verification/LoopEnd.v ===== *)
(** The end of a loop: [~MessageLoop] deletes what never ran. *)
From Stdlib Require Import ZArith Lia Bool Sorting.Permutation.
From stdpp Require Import base list numbers gmap.
From S2P Require Import Prelude MessageLoop TaskOrder LoopWakeup.

Open Scope Z_scope.

Section End_.
Context {closure : Type} `{EqDecision closure}.
Abbreviation loop := (@loop closure).
Abbreviation label := (@label closure).
Abbreviation pending_task := (@pending_task closure).
Context (pump_kind : pump_type) (pipe_capacity : Z) (on_delete : closure -> list (closure * Z * bool)).

Definition deleted_in (x : label) : list pending_task := match x with Deleted t => [t] | _ => [] end.
Definition deleted (tr : list label) : list pending_task := tr ≫= deleted_in.
Lemma deleted_app a b : deleted (a ++ b) = deleted a ++ deleted b.
Proof. apply bind_app. Qed.

(** Deleting posts tasks and touches nothing else. *)
Definition posts (l l' : loop) (tr : list label) : Prop :=
  incoming_of l' = incoming_of l ++ posted tr /\ work_queue_ l' = work_queue_ l /\ delayed_work_queue_ l' = delayed_work_queue_ l /\
  deferred_non_nestable_work_queue_ l' = deferred_non_nestable_work_queue_ l /\ run_loop_ l' = run_loop_ l.
Lemma posts_trans a b c tr tr' : posts a b tr -> posts b c tr' -> posts a c (tr ++ tr').
Proof.
  intros (A1 & A2 & A3 & A4 & A5) (B1 & B2 & B3 & B4 & B5). split_and!; [|congruence..]. by rewrite B1, A1, posted_app, app_assoc.
Qed.
Lemma posts_refl l : posts l l [].
Proof. split_and!; [|done..]. by rewrite app_nil_r. Qed.

Lemma post_all_posts now ps : forall l l' tr, post_all pump_kind pipe_capacity now ps l = Ret (l', tr) -> posts l l' tr /\ deleted tr = [].
Proof.
  induction ps as [|[[c delay] nest] ps IH]; intros l l' tr; cbn [post_all].
  - intros [= <- <-]. split; [apply posts_refl|done].
  - intros H. apply bind_Ret in H as ([[m tr1] b] & Ha & H). apply bind_Ret in H as ([m' tr2] & Hb & [= <- <-]). apply IH in Hb as [Hb Hd].
    assert (posts l m tr1 /\ deleted tr1 = []) as [Hm Hd1].
    { unfold AddToIncomingQueue, PostPendingTask in Ha. apply bind_Ret in Ha as (time & _ & Ha).
      destruct (negb _); [injection Ha as <- <- <-; split; [apply posts_refl|done]|]. injection Ha as <- <- <-.
      unfold posts, incoming_of, ScheduleWork. by destruct (incoming_queue_ _). }
    split; [by eapply posts_trans|]. by rewrite deleted_app, Hd1, Hd.
Qed.
Lemma delete_all_posts now ts : forall l l' tr, delete_all pump_kind pipe_capacity on_delete now ts l = Ret (l', tr) -> posts l l' tr /\ deleted tr = ts.
Proof.
  induction ts as [|t ts IH]; intros l l' tr; cbn [delete_all].
  - intros [= <- <-]. split; [apply posts_refl|done].
  - intros H. apply bind_Ret in H as ([m tr1] & Ha & H). apply bind_Ret in H as ([m' tr2] & Hb & [= <- <-]).
    apply post_all_posts in Ha as [Ha Hd]. apply IH in Hb as [Hb Hd']. split; [|cbn].
    + exact (posts_trans _ _ _ (Deleted t :: tr1) tr2 Ha Hb).
    + fold deleted. change (Deleted t :: tr1 ++ tr2) with ([Deleted t] ++ tr1 ++ tr2). by rewrite !deleted_app, Hd, Hd'.
Qed.

Lemma drain_perm (q : list pending_task) : forall fuel, (length q <= fuel)%nat -> Permutation (drain fuel q) q.
Proof.
  intros fuel. revert q. induction fuel as [|fuel IH]; intros q Hf; [by destruct q; [|cbn in Hf; lia]|]. cbn [drain].
  destruct (extract_top q) as [[t r]|] eqn:E.
  - pose proof (extract_top_perm _ _ _ E) as P. rewrite P. constructor. apply IH. apply Permutation_length in P. cbn in P. lia.
  - destruct q as [|x q]; [done|]. cbn in E. by destruct (extract_top q) as [[]|].
Qed.

Definition everything (l : loop) : list pending_task := work_queue_ l ++ deferred_non_nestable_work_queue_ l ++ delayed_work_queue_ l.
Lemma filter_split (l : list pending_task) :
  Permutation l (filter (fun t => is_delayed t = false) l ++ filter (fun t => is_delayed t = true) l).
Proof.
  induction l as [|t l IH]; [done|]. destruct (is_delayed t) eqn:E.
  - rewrite filter_cons_False, filter_cons_True by congruence. by rewrite <- Permutation_middle, <- IH.
  - rewrite filter_cons_True, filter_cons_False by congruence. cbn. by rewrite <- IH.
Qed.
(** One round: the three queues are emptied, and what they held is deleted. *)
Lemma DeletePendingTasks_empties now l l' tr did : DeletePendingTasks pump_kind pipe_capacity on_delete now l = Ret (l', tr, did) ->
  everything l' = [] /\ Permutation (deleted tr) (everything l) /\ incoming_of l' = incoming_of l ++ posted tr /\ run_loop_ l' = run_loop_ l /\
  (did = false -> everything l = [] /\ tr = []).
Proof.
  unfold DeletePendingTasks. intros H. apply bind_Ret in H as ([l1 tr1] & H1 & H). apply bind_Ret in H as ([l2 tr2] & H2 & H).
  apply bind_Ret in H as ([l3 tr3] & H3 & [= <- <- <-]). pose proof H1 as R1. pose proof H2 as R2. pose proof H3 as R3.
  apply delete_all_posts in H1 as [(A1 & A2 & A3 & A4 & A5) D1]. apply delete_all_posts in H2 as [(B1 & B2 & B3 & B4 & B5) D2].
  apply delete_all_posts in H3 as [(C1 & C2 & C3 & C4 & C5) D3]. cbn in A1, A2, A3, A4, A5, B1, B2, B3, B4, B5, C1, C2, C3, C4, C5.
  change (incoming_of (set_queues ?a ?b ?c ?m)) with (incoming_of m) in A1, B1, C1.
  split_and!.
  - unfold everything. by rewrite C2, C3, C4.
  - rewrite !deleted_app, D1, D2, D3, drain_perm by lia. unfold everything. rewrite B3, A3, A4. rewrite (filter_split (work_queue_ l)) at 3. solve_Permutation.
  - by rewrite C1, B1, A1, !posted_app, !app_assoc.
  - congruence.
  - intros Hdid. rewrite B3, A3, A4 in *. apply orb_false_iff in Hdid as [Hdid Hd3]. apply orb_false_iff in Hdid as [Hd1 Hd2]. unfold everything.
    destruct (work_queue_ l); [|done]. destruct (deferred_non_nestable_work_queue_ l); [|done]. destruct (delayed_work_queue_ l); [|done].
    split; [done|]. rewrite ?B3, ?A3, ?A4 in *. injection R1 as <- <-. injection R2 as <- <-. injection R3 as <- <-. done.
Qed.
Lemma Reload_everything (l : loop) : everything l = [] -> everything (ReloadWorkQueue l) = incoming_of l /\ incoming_of (ReloadWorkQueue l) = [] /\
  run_loop_ (ReloadWorkQueue l) = run_loop_ l.
Proof.
  unfold everything. intros He. apply app_nil in He as [Hw He]. apply app_nil in He as [Hf Hd].
  unfold ReloadWorkQueue. rewrite Hw. destruct (incoming_of l) as [|t ts] eqn:Ei; cbn; rewrite ?Hw, ?Hf, ?Hd, ?app_nil_r; done.
Qed.

Lemma destroy_loop_empties now : forall rounds l l' tr, destroy_loop pump_kind pipe_capacity on_delete rounds now l = Ret (l', tr) ->
  everything l' = [] /\ incoming_of l' = [] /\ Permutation (deleted tr) (everything l ++ incoming_of l ++ posted tr) /\ run_loop_ l' = run_loop_ l.
Proof.
  induction rounds as [|rounds IH]; [done|]. intros l l' tr. cbn [destroy_loop]. intros H.
  apply bind_Ret in H as ([[l1 tr1] d1] & H1 & H). apply bind_Ret in H as ([[l2 tr2] d2] & H2 & H).
  apply DeletePendingTasks_empties in H1 as (A1 & A2 & A3 & A4 & _). destruct (Reload_everything l1 A1) as (R1 & R2 & R3).
  apply DeletePendingTasks_empties in H2 as (B1 & B2 & B3 & B4 & B5). rewrite R1 in B2, B5. rewrite R2 in B3. cbn [app] in B3.
  destruct d2.
  - apply bind_Ret in H as ([l3 tr3] & H3 & [= <- <-]). apply IH in H3 as (C1 & C2 & C3 & C4). split_and!; [done..| |congruence].
    rewrite !deleted_app, !posted_app, C3, B1, B3, B2, A2, A3. solve_Permutation.
  - injection H as <- <-. destruct (B5 eq_refl) as [He ->]. rewrite He in A3. symmetry in A3. apply app_nil in A3 as [Hi Hp].
    split_and!; [done|by rewrite B3|by rewrite !app_nil_r, Hi, Hp, A2, !app_nil_r|congruence].
Qed.

(** A loop is destroyed with every task in its queues, and every task those
    deletions post, deleted once; nothing is left behind, and from then on posts are
    refused. *)
Theorem destroyed_loop_is_empty now l l' tr : DestroyMessageLoop pump_kind pipe_capacity on_delete now l = Ret (l', tr) ->
  Permutation (deleted tr) (everything l ++ incoming_of l ++ posted tr) /\
  everything l' = [] /\ incoming_of l' = [] /\
  forall c delay nest t, CalculateDelayedRuntime now delay = Ret t -> AddToIncomingQueue pump_kind pipe_capacity c now delay nest l' = Ret (l', [], false).
Proof.
  unfold DestroyMessageLoop. intros H. apply DCHECK_Ret in H as [H _]. apply bind_Ret in H as ([m tr1] & Hd & [= <- <-]).
  apply destroy_loop_empties in Hd as (A1 & A2 & A3 & A4). split_and!; [done..|]. intros c delay nest t Ht. unfold AddToIncomingQueue. by rewrite Ht.
Qed.
End End_.

(** Task 1 posts task 2 when it is deleted. *)
Definition end_loop : @loop nat :=
  match exec PumpLibevent2 65536 idle_body (replicate 3 (Tick IoReturn)) 0 (new_loop [DoPost 1%nat 0 true; DoPost 3%nat 7 false]) with
  | Ret (l, _) => l | Fault _ => new_loop [] end.
Definition on_end (c : nat) : list (nat * Z * bool) := match c with 1%nat => [(2%nat, 0, true)] | _ => [] end.
Definition ended : @loop nat * list (@label nat) :=
  match DestroyMessageLoop PumpLibevent2 65536 on_end 9 end_loop with Ret x => x | Fault _ => (end_loop, []) end.
Lemma destroyed_loop_is_empty_witness :
  Permutation (deleted (snd ended)) (everything end_loop ++ incoming_of end_loop ++ posted (snd ended)) /\
  everything (fst ended) = [] /\ incoming_of (fst ended) = [] /\
  forall c delay nest t, CalculateDelayedRuntime 9 delay = Ret t ->
    AddToIncomingQueue PumpLibevent2 65536 c 9 delay nest (fst ended) = Ret (fst ended, [], false).
Proof. exact (destroyed_loop_is_empty PumpLibevent2 65536 on_end 9 end_loop (fst ended) (snd ended) ltac:(by vm_compute)). Defined.
