(* ===== verification/FdWatcher.v ===== *)
(** Watching a descriptor, [MessagePumpLibevent2::WatchFileDescriptor] and its
    [FileDescriptorWatcher], in [net/message_loop/message_pump_libevent2.cc], over the heap
    of events and the lists of libevent ([third_party/libevent/event.c]), which hold bare
    pointers to them.  What the kernel answers libevent comes in as arguments. *)
From Stdlib Require Import ZArith Lia Bool.
From stdpp Require Import base list numbers gmap.
From S2P Require Import Prelude.

Open Scope Z_scope.

Definition EV_READ : Z := 2.
Definition EV_WRITE : Z := 4.
Definition EV_PERSIST : Z := 16.
Definition WATCH_READ : Z := 1.
Definition WATCH_WRITE : Z := 2.
Definition WATCH_READ_WRITE : Z := Z.lor WATCH_READ WATCH_WRITE.

(** * libevent
    [struct event], with the two bits of [ev_flags] an event without a timeout has, and
    whether [ev_base] is set; the events allocated, and the list of inserted and that of
    active events of the base. *)
Record event := Event { ev_fd : Z; ev_events : Z; ev_base : bool; EVLIST_INSERTED : bool; EVLIST_ACTIVE : bool }.
Record event_base := EventBase { heap : gmap nat event; eventqueue : gset nat; activequeue : gset nat }.

(** A use of an event, and [delete], which frees it whatever list it is on. *)
Definition with_event {A} (p : nat) (b : event_base) (k : event -> outcome A) : outcome A :=
  match heap b !! p with Some e => k e | None => Fault OutOfBounds end.
Definition set_event (p : nat) (e : event) (b : event_base) : event_base := EventBase (<[p := e]> (heap b)) (eventqueue b) (activequeue b).
Definition delete_event (p : nat) (b : event_base) : outcome event_base :=
  with_event p b (fun _ => Ret (EventBase (base.delete p (heap b)) (eventqueue b) (activequeue b))).
(** [new event]: at an address that is free, with any content. *)
Definition new_event (junk : event) (b : event_base) : nat * event_base :=
  let p := fresh (dom (heap b)) in (p, set_event p junk b).

(** [current_base] is null: the pump's base comes from [event_base_new]. *)
Definition event_set (fd events : Z) (p : nat) (b : event_base) : outcome event_base :=
  with_event p b (fun _ => Ret (set_event p (Event fd events false false false) b)).
Definition event_base_set (p : nat) (b : event_base) : outcome (bool * event_base) :=
  with_event p b (fun e =>
    if EVLIST_INSERTED e || EVLIST_ACTIVE e then Ret (false, b)
    else Ret (true, set_event p (Event (ev_fd e) (ev_events e) true false false) b)).
(** [add_ok] is what [evsel->add] answers; there is no timeout. *)
Definition event_add (add_ok : bool) (p : nat) (b : event_base) : outcome (bool * event_base) :=
  with_event p b (fun e =>
    guard_or (ev_base e) OutOfBounds (
    if negb (Z.land (ev_events e) (Z.lor EV_READ EV_WRITE) =? 0) && negb (EVLIST_INSERTED e || EVLIST_ACTIVE e) then
      if add_ok then
        let b := set_event p (Event (ev_fd e) (ev_events e) true true (EVLIST_ACTIVE e)) b in
        Ret (true, EventBase (heap b) ({[p]} ∪ eventqueue b) (activequeue b))
      else Ret (false, b)
    else Ret (true, b))).
(** [del_ok] is what [evsel->del] answers. *)
Definition event_del (del_ok : bool) (p : nat) (b : event_base) : outcome (bool * event_base) :=
  with_event p b (fun e =>
    if negb (ev_base e) then Ret (false, b)
    else
      let activequeue' := if EVLIST_ACTIVE e then activequeue b ∖ {[p]} else activequeue b in
      let eventqueue' := if EVLIST_INSERTED e then eventqueue b ∖ {[p]} else eventqueue b in
      let e' := Event (ev_fd e) (ev_events e) true false false in
      Ret (if EVLIST_INSERTED e then del_ok else true, EventBase (<[p := e']> (heap b)) eventqueue' activequeue')).

(** * [FileDescriptorWatcher]; delegates are named by numbers. *)
Record fd_watcher := FileDescriptorWatcher { event_ : option nat; watcher_ : option nat; pump_set : bool }.
Definition new_watcher : fd_watcher := FileDescriptorWatcher None None false.
Definition ReleaseEvent (c : fd_watcher) : option nat * fd_watcher := (event_ c, FileDescriptorWatcher None (watcher_ c) (pump_set c)).

Section Watch.
Context (dcheck_on : bool).

Definition Init (e : nat) (c : fd_watcher) : outcome fd_watcher :=
  DCHECK dcheck_on (bool_decide (event_ c = None)) (Ret (FileDescriptorWatcher (Some e) (watcher_ c) (pump_set c))).

(** [StopWatchingFileDescriptor] *)
Definition StopWatchingFileDescriptor (del_ok : bool) (b : event_base) (c : fd_watcher) : outcome (bool * event_base * fd_watcher) :=
  match ReleaseEvent c with
  | (None, c) => Ret (true, b, c)
  | (Some e, c) =>
      '(rv, b) ← event_del del_ok e b;
      b ← delete_event e b;
      Ret (rv, b, FileDescriptorWatcher (event_ c) None false)
  end.

Definition mask_of (persistent : bool) (mode : Z) : Z :=
  let event_mask := if persistent then EV_PERSIST else 0 in
  let event_mask := if negb (Z.land mode WATCH_READ =? 0) then Z.lor event_mask EV_READ else event_mask in
  if negb (Z.land mode WATCH_WRITE =? 0) then Z.lor event_mask EV_WRITE else event_mask.

(** [return false]: the [scoped_ptr] deletes the event. *)
Definition watch_fails (evt : nat) (b : event_base) (c : fd_watcher) : outcome (bool * event_base * fd_watcher) :=
  b ← delete_event evt b; Ret (false, b, c).
(** [WatchFileDescriptor] from [event_set] on. *)
Definition arm (add_ok : bool) (fd event_mask : Z) (evt : nat) (b : event_base) (c : fd_watcher) (delegate : nat)
    : outcome (bool * event_base * fd_watcher) :=
  b ← event_set fd event_mask evt b;
  '(ok, b) ← event_base_set evt b;
  if negb ok then watch_fails evt b c
  else
    '(ok, b) ← event_add add_ok evt b;
    if negb ok then watch_fails evt b c
    else c ← Init evt c; Ret (true, b, FileDescriptorWatcher (event_ c) (Some delegate) true).
Definition WatchFileDescriptor (del_ok add_ok : bool) (junk : event) (fd : Z) (persistent : bool) (mode : Z) (b : event_base) (c : fd_watcher) (delegate : nat)
    : outcome (bool * event_base * fd_watcher) :=
  DCHECK dcheck_on (0 <=? fd) (
  DCHECK dcheck_on ((mode =? WATCH_READ) || (mode =? WATCH_WRITE) || (mode =? WATCH_READ_WRITE)) (
    let event_mask := mask_of persistent mode in
    match ReleaseEvent c with
    | (None, c) => let '(evt, b) := new_event junk b in arm add_ok fd event_mask evt b c delegate
    | (Some evt, c) =>
        with_event evt b (fun e =>
          let old_interest_mask := Z.land (ev_events e) (Z.lor (Z.lor EV_READ EV_WRITE) EV_PERSIST) in
          let event_mask := Z.lor event_mask old_interest_mask in
          '(_, b) ← event_del del_ok evt b;
          if negb (ev_fd e =? fd) then DCHECK dcheck_on false (watch_fails evt b c)
          else arm add_ok fd event_mask evt b c delegate)
    end)).

(** The destructor *)
Definition DestroyWatcher (del_ok : bool) (b : event_base) (c : fd_watcher) : outcome event_base :=
  match event_ c with
  | Some _ => '(_, b, _) ← StopWatchingFileDescriptor del_ok b c; Ret b
  | None => Ret b
  end.

(** ** Events *)
Inductive io_call := CanRead (delegate : nat) (fd : Z) | CanWrite (delegate : nat) (fd : Z).

(** [OnFileCanReadWithoutBlocking] and [OnFileCanWriteWithoutBlocking]: what the
    delegate does with the watcher, which it may delete ([None]), is [react]. *)
Definition OnFileCanReadWithoutBlocking (react : fd_watcher -> option fd_watcher) (fd : Z) (c : fd_watcher) : option fd_watcher * list io_call :=
  match watcher_ c with None => (Some c, []) | Some d => (react c, [CanRead d fd]) end.
Definition OnFileCanWriteWithoutBlocking (react : fd_watcher -> option fd_watcher) (fd : Z) (c : fd_watcher) : outcome (option fd_watcher * list io_call) :=
  match watcher_ c with None => Fault AssertFail | Some d => Ret (react c, [CanWrite d fd]) end.
(** [OnLibeventNotification]: the write first, and the read if the watcher is still
    there. *)
Definition OnLibeventNotification (on_write on_read : fd_watcher -> option fd_watcher) (fd flags : Z) (c : fd_watcher)
    : outcome (option fd_watcher * list io_call) :=
  '(oc, calls) ← (if negb (Z.land flags EV_WRITE =? 0) then OnFileCanWriteWithoutBlocking on_write fd c else Ret (Some c, []));
  match oc with
  | Some c => if negb (Z.land flags EV_READ =? 0) then let '(oc, calls') := OnFileCanReadWithoutBlocking on_read fd c in Ret (oc, calls ++ calls')
              else Ret (Some c, calls)
  | None => Ret (None, calls)
  end.
End Watch.

(** * What a watcher watches *)
(** The lists hold exactly the allocated events that say they are on them: no pointer
    dangles. *)
Definition well_linked (b : event_base) : Prop :=
  (forall p, p ∈ eventqueue b <-> exists e, heap b !! p = Some e /\ EVLIST_INSERTED e = true) /\
  (forall p, p ∈ activequeue b <-> exists e, heap b !! p = Some e /\ EVLIST_ACTIVE e = true).
(** The event of a watcher is allocated, and its fields set. *)
Definition owns (c : fd_watcher) (b : event_base) : Prop :=
  match event_ c with Some p => exists e, heap b !! p = Some e /\ ev_base e = true | None => True end.
(** The base without the event of a watcher: it is freed and on no list; the others are as
    they were. *)
Definition without_event (c : fd_watcher) (b : event_base) : event_base :=
  match event_ c with
  | Some p => EventBase (base.delete p (heap b)) (eventqueue b ∖ {[p]}) (activequeue b ∖ {[p]})
  | None => b
  end.
(** The base in which the watcher's event [p] is inserted, for [mask]. *)
Definition with_armed (p : nat) (fd mask : Z) (b : event_base) : event_base :=
  EventBase (<[p := Event fd mask true true false]> (heap b)) ({[p]} ∪ eventqueue b) (activequeue b ∖ {[p]}).
Definition the_event (c : fd_watcher) (b : event_base) : option event := p ← event_ c; heap b !! p.
Definition interest (c : fd_watcher) (b : event_base) : Z :=
  match the_event c b with Some e => Z.land (ev_events e) (Z.lor (Z.lor EV_READ EV_WRITE) EV_PERSIST) | None => 0 end.
Definition same_fd (c : fd_watcher) (b : event_base) (fd : Z) : bool := match the_event c b with Some e => ev_fd e =? fd | None => true end.
Definition good_mode (mode : Z) : Prop := mode = WATCH_READ \/ mode = WATCH_WRITE \/ mode = WATCH_READ_WRITE.

Lemma base_eq b h q a : h = heap b -> q = eventqueue b -> a = activequeue b -> EventBase h q a = b.
Proof. destruct b. by intros -> -> ->. Qed.
(** Whatever the kernel answers, an event that is deleted leaves the lists. *)
Lemma event_del_exact del_ok p b e : well_linked b -> heap b !! p = Some e -> ev_base e = true ->
  exists b', event_del del_ok p b = Ret (if EVLIST_INSERTED e then del_ok else true, b') /\
    b' = EventBase (<[p := Event (ev_fd e) (ev_events e) true false false]> (heap b)) (eventqueue b ∖ {[p]}) (activequeue b ∖ {[p]}).
Proof.
  intros [HI HA] He Hb. unfold event_del, with_event. rewrite He, Hb. cbn [negb]. eexists. split; [done|]. f_equal.
  - destruct (EVLIST_INSERTED e) eqn:E; [done|]. apply leibniz_equiv. assert (p ∉ eventqueue b); [|set_solver]. rewrite HI. intros (e' & H & ?). congruence.
  - destruct (EVLIST_ACTIVE e) eqn:E; [done|]. apply leibniz_equiv. assert (p ∉ activequeue b); [|set_solver]. rewrite HA. intros (e' & H & ?). congruence.
Qed.
Lemma well_linked_without c b : well_linked b -> well_linked (without_event c b).
Proof.
  intros [HI HA]. unfold without_event. destruct (event_ c) as [p|]; [|done]. split; intros q; cbn; rewrite elem_of_difference, elem_of_singleton.
  - rewrite HI. split; [intros [(e & H & ?) Hn]; exists e; by rewrite lookup_delete_ne|]. intros (e & H & ?). apply lookup_delete_Some in H as [Hn H]. split; [by exists e|done].
  - rewrite HA. split; [intros [(e & H & ?) Hn]; exists e; by rewrite lookup_delete_ne|]. intros (e & H & ?). apply lookup_delete_Some in H as [Hn H]. split; [by exists e|done].
Qed.
Lemma well_linked_armed p fd mask b : well_linked b -> well_linked (with_armed p fd mask b).
Proof.
  intros [HI HA]. split; intros q; cbn; destruct (decide (q = p)) as [->|Hn]; rewrite ?lookup_insert_eq, ?lookup_insert_ne by done.
  - split; [intros _; by eexists|set_solver].
  - rewrite <- HI. set_solver.
  - split; [set_solver|]. by intros (e & [= <-] & ?).
  - rewrite <- HA. set_solver.
Qed.
(** From [event_set] on, for an event that is on no list. *)
Lemma arm_exact dcheck_on add_ok fd mask p b c d : is_Some (heap b !! p) -> event_ c = None -> negb (Z.land mask (Z.lor EV_READ EV_WRITE) =? 0) = true ->
  p ∉ activequeue b ->
  arm dcheck_on add_ok fd mask p b c d =
    if add_ok then Ret (true, with_armed p fd mask b, FileDescriptorWatcher (Some p) (Some d) true)
    else Ret (false, EventBase (base.delete p (heap b)) (eventqueue b) (activequeue b), c).
Proof.
  intros [e He] Hc Hm Ha. unfold arm, event_set, event_base_set, event_add, watch_fails, delete_event, with_event, set_event. rewrite He. cbn. repeat (rewrite lookup_insert_eq; cbn). rewrite Hm. cbn.
  destruct add_ok; cbn; repeat (rewrite lookup_insert_eq; cbn).
  - unfold Init. rewrite Hc. rewrite DCHECK_true by done. cbn. unfold with_armed. do 2 f_equal. f_equal. f_equal; [by rewrite !insert_insert_eq|apply leibniz_equiv; set_solver].
  - do 3 f_equal. by rewrite !delete_insert_eq.
Qed.
Lemma mask_reads (persistent : bool) mode m : good_mode mode -> negb (Z.land (Z.lor (mask_of persistent mode) m) (Z.lor EV_READ EV_WRITE) =? 0) = true.
Proof.
  intros Hm. apply negb_true_iff, Z.eqb_neq. intros E. rewrite Z.land_lor_distr_l in E. apply Z.lor_eq_0_iff in E as [E _].
  revert E. destruct persistent, Hm as [->|[->| ->]]; vm_compute; discriminate.
Qed.
Lemma StopWatching_exact del_ok b c : well_linked b -> owns c b ->
  StopWatchingFileDescriptor del_ok b c =
    Ret (match the_event c b with Some e => if EVLIST_INSERTED e then del_ok else true | None => true end, without_event c b,
         match event_ c with Some _ => new_watcher | None => c end).
Proof.
  intros Hw Ho. unfold StopWatchingFileDescriptor, ReleaseEvent, owns, the_event, without_event in *. destruct c as [[p|] w ps]; cbn in *; [|done]. destruct Ho as (e & He & Hb). rewrite He.
  destruct (event_del_exact del_ok p b e Hw He Hb) as (b' & -> & ->). cbn. unfold delete_event, with_event. cbn. rewrite lookup_insert_eq. cbn. by rewrite delete_insert_eq.
Qed.

(** C20: watching a descriptor, whatever the kernel answers, from lists without a dangling
    pointer.  A watch that succeeds is cumulative: exactly one event is the watcher's, the
    one it had or a new one, it is inserted for what the watcher was interested in and what
    is asked for, and the watcher has the new delegate.  A watch that fails, because libevent
    cannot add the event or the watcher is on another descriptor (a failed assertion where
    they are compiled in), frees the event the watcher had and takes it off every list;
    stopping and destroying the watcher do the same, also when the kernel refuses to delete.
    No other event is touched, none is leaked, and in every case the lists hold exactly the
    allocated events that are on them. *)
Theorem watch_exact dcheck_on del_ok add_ok junk fd persistent mode b c d : 0 <= fd -> good_mode mode -> well_linked b -> owns c b ->
  let r := WatchFileDescriptor dcheck_on del_ok add_ok junk fd persistent mode b c d in
  (same_fd c b fd = true -> add_ok = true ->
     exists p, (event_ c = Some p \/ event_ c = None /\ heap b !! p = None) /\
       let b' := with_armed p fd (Z.lor (mask_of persistent mode) (interest c b)) b in
       let c' := FileDescriptorWatcher (Some p) (Some d) true in
       r = Ret (true, b', c') /\ well_linked b' /\ owns c' b') /\
  (same_fd c b fd = true -> add_ok = false -> r = Ret (false, without_event c b, FileDescriptorWatcher None (watcher_ c) (pump_set c))) /\
  (same_fd c b fd = false ->
     r = if dcheck_on then Fault AssertFail else Ret (false, without_event c b, FileDescriptorWatcher None (watcher_ c) (pump_set c))) /\
  (exists rv c', StopWatchingFileDescriptor del_ok b c = Ret (rv, without_event c b, c') /\ event_ c' = None) /\
  DestroyWatcher del_ok b c = Ret (without_event c b) /\
  well_linked (without_event c b).
Proof.
  intros Hfd Hmode Hw Ho r. assert ((mode =? WATCH_READ) || (mode =? WATCH_WRITE) || (mode =? WATCH_READ_WRITE) = true) as Hm by (by destruct Hmode as [->|[->| ->]]).
  split; [|split; [|split; [|split; [|split]]]]; [| | | | |by apply well_linked_without].
  4: { eexists _, _. split; [by apply StopWatching_exact|]. by destruct c as [[]]. }
  4: { unfold DestroyWatcher. rewrite StopWatching_exact by done. destruct c as [[]]; done. }
  all: unfold r, WatchFileDescriptor; rewrite (DCHECK_true _ (0 <=? fd)) by lia; rewrite (DCHECK_true _ _ _ Hm); clear r.
  - intros Hs ->. unfold same_fd, interest, the_event, owns in *. destruct c as [[p|] w ps]; cbn in *.
    + exists p. split; [by left|]. destruct Ho as (e & He & Hb). unfold with_event. rewrite He in *. destruct (event_del_exact del_ok p b e Hw He Hb) as (b1 & -> & ->). cbn. rewrite Hs. cbn.
      rewrite arm_exact; cbn; [|rewrite lookup_insert_eq; by eexists|done|by apply mask_reads|set_solver]. split; [|split; [by apply well_linked_armed|eexists; by rewrite lookup_insert_eq]].
      unfold with_armed. cbn. do 3 f_equal. f_equal; [by rewrite insert_insert_eq|apply leibniz_equiv|apply leibniz_equiv; set_solver].
      intros q. rewrite !elem_of_union, elem_of_difference, elem_of_singleton. destruct (decide (q = p)); tauto.
    + exists (fresh (dom (heap b))). set (p := fresh (dom (heap b))). assert (heap b !! p = None) as Hp by (apply not_elem_of_dom, is_fresh). split; [by right|].
      rewrite Z.lor_0_r. unfold new_event. fold p. pose proof (mask_reads persistent mode 0 Hmode) as Hr. rewrite Z.lor_0_r in Hr. assert (p ∉ activequeue b) as Ha by (destruct Hw as [_ HA]; rewrite HA; intros (e & H & _); congruence).
      rewrite arm_exact; cbn; [|rewrite lookup_insert_eq; by eexists|done|done|done]. split; [|split; [by apply well_linked_armed|eexists; by rewrite lookup_insert_eq]].
      unfold with_armed. cbn. by rewrite insert_insert_eq.
  - intros Hs ->. unfold same_fd, without_event, the_event, owns in *. destruct c as [[p|] w ps]; cbn in *.
    + destruct Ho as (e & He & Hb). unfold with_event. rewrite He in *. destruct (event_del_exact del_ok p b e Hw He Hb) as (b1 & -> & ->). cbn. rewrite Hs. cbn.
      rewrite arm_exact; cbn; [|rewrite lookup_insert_eq; by eexists|done|by apply mask_reads|set_solver]. by rewrite delete_insert_eq.
    + unfold new_event. set (p := fresh (dom (heap b))). assert (heap b !! p = None) as Hp by (apply not_elem_of_dom, is_fresh).
      pose proof (mask_reads persistent mode 0 Hmode) as Hr. rewrite Z.lor_0_r in Hr. assert (p ∉ activequeue b) as Ha by (destruct Hw as [_ HA]; rewrite HA; intros (e & H & _); congruence).
      rewrite arm_exact; cbn; [|rewrite lookup_insert_eq; by eexists|done|done|done]. do 3 f_equal. apply base_eq; [|done|done]. rewrite delete_insert_eq. by apply delete_id.
  - intros Hs. unfold same_fd, without_event, the_event, owns in *. destruct c as [[p|] w ps]; cbn in *; [|done].
    destruct Ho as (e & He & Hb). unfold with_event. rewrite He in *. destruct (event_del_exact del_ok p b e Hw He Hb) as (b1 & -> & ->). cbn. rewrite Hs. cbn. unfold DCHECK. destruct dcheck_on; cbn; [done|].
    unfold watch_fails, delete_event, with_event. cbn. rewrite lookup_insert_eq. cbn. by rewrite delete_insert_eq.
Qed.
(** A watcher that reads, next to one of somebody else; watching for writing fails, and
    succeeds. *)
Definition reading : fd_watcher := FileDescriptorWatcher (Some 3%nat) (Some 1%nat) true.
Definition two_events : event_base :=
  EventBase {[3%nat := Event 5 (Z.lor EV_PERSIST EV_READ) true true true; 4%nat := Event 6 EV_READ true true false]} {[3%nat; 4%nat]} {[3%nat]}.
Lemma two_events_linked : well_linked two_events.
Proof.
  split; intros p; cbn.
  - rewrite elem_of_union, !elem_of_singleton. split; [intros [->| ->]; by eexists|]. intros (e & H & _). apply lookup_insert_Some in H as [[-> _]|[_ H]]; [by left|]. apply lookup_singleton_Some in H as [-> _]. by right.
  - rewrite elem_of_singleton. split; [intros ->; by eexists|]. intros (e & H & Ha). apply lookup_insert_Some in H as [[-> _]|[_ H]]; [done|]. apply lookup_singleton_Some in H as [_ <-]. done.
Qed.
Lemma watch_exact_witness :
  WatchFileDescriptor true false false (Event 0 0 false false false) 5 true WATCH_WRITE two_events reading 2%nat =
    Ret (false, without_event reading two_events, FileDescriptorWatcher None (Some 1%nat) true) /\
  without_event reading two_events = EventBase {[4%nat := Event 6 EV_READ true true false]} {[4%nat]} ∅ /\
  WatchFileDescriptor true true true (Event 0 0 false false false) 5 true WATCH_WRITE two_events reading 2%nat =
    Ret (true, with_armed 3 5 22 two_events, FileDescriptorWatcher (Some 3%nat) (Some 2%nat) true).
Proof.
  assert (owns reading two_events) as Ho by (by eexists). split; [|split].
  - destruct (watch_exact true false false (Event 0 0 false false false) 5 true WATCH_WRITE two_events reading 2%nat ltac:(done) ltac:(by right; left) two_events_linked Ho) as (_ & H & _). by apply H.
  - vm_compute. reflexivity.
  - destruct (watch_exact true true true (Event 0 0 false false false) 5 true WATCH_WRITE two_events reading 2%nat ltac:(done) ltac:(by right; left) two_events_linked Ho) as (H & _).
    destruct (H eq_refl eq_refl) as (p & Hp & E & _). destruct Hp as [[= <-]|[? _]]; [|discriminate]. exact E.
Defined.
