(* ===== verification/ZNetPacket.v ===== *)
(** ZNet packets as streams, [OutPacketStream] and [InPacketStream] of
    [zutils/net/codec/znet/packet.{h,cc}]: a [ByteStream] whose override of
    [Alloc] keeps eight bytes in front of the data for the packet header. *)
From Stdlib Require Import ZArith Lia Bool.
From stdpp Require Import base list numbers.
From S2P Require Import Prelude ByteStream SysByteorder IOBuffer Codecs.

Open Scope Z_scope.

(** [class OutPacketStream].  [buffer_] of the base class points eight bytes into
    the block [data_]; those eight bytes are indeterminate until [GetPacket]
    fills them, so the block is kept as [buffer_] alone. *)
Record out_packet_stream := OutPacketStream {
  base : byte_stream;
  is_transfered_ : bool;
  cmd_type_ : Z
}.

Section Out.
Context (malloc : Z -> option bytes).

Definition head_room : bytes := replicate 8 0.

(** [OutPacketStream::Alloc]: the [CHECK] precedes the test for null. *)
Definition Alloc (s : byte_stream) (new_len : Z) : outcome (bool * byte_stream) :=
  if negb (failed_ s =? 0) then Ret (false, s)
  else if max_len_ s <? new_len then
    size ← grow ZNet.kPacketHeaderSize (grow_fuel ZNet.kPacketHeaderSize (max_len_ s) new_len)
             (max_len_ s) new_len;
    let data_ := match ByteStream.buffer_ s with
                 | None => malloc (u32 (size + ZNet.kPacketHeaderSize))
                 | Some b => realloc malloc (head_room ++ b) (u32 (size + ZNet.kPacketHeaderSize))
                 end in
    match data_ with
    | None => Fault AssertFail
    | Some data_ => Ret (true, set_buffer s (Some (drop 8 data_)) (u32 (size - ZNet.kPacketHeaderSize)))
    end
  else Ret (bool_decide (is_Some (ByteStream.buffer_ s)), s).

(** [OutPacketStream::OutPacketStream(uint16)] *)
Definition out_new (cmd_type : Z) : outcome out_packet_stream :=
  '(_, s) ← Alloc bs_new ZNet.kPacketHeaderSize;
  Ret (OutPacketStream s false cmd_type).

(** The inherited [operator <<]s, with the override in force. *)
Fixpoint put_items (s : out_packet_stream) (l : list item) : outcome out_packet_stream :=
  match l with
  | [] => Ret s
  | i :: l =>
      b ← put Alloc (base s) i;
      put_items (OutPacketStream b (is_transfered_ s) (cmd_type_ s)) l
  end.
End Out.

(** [OutPacketStream::GetPacket], with the [Packet] constructor it calls, which
    writes the header over the first eight bytes of [data_]. *)
Definition GetPacket (s : out_packet_stream) : outcome (bytes * out_packet_stream) :=
  guard_or (negb (is_transfered_ s)) AssertFail (
    match ByteStream.buffer_ (base s) with
    | None => Fault OutOfBounds
    | Some b =>
        data_ ← mem_write (head_room ++ b) 0 (ZNet.header_bytes (cmd_type_ s) (Tell (base s)));
        let base' := ByteStream (Some b) false (max_len_ (base s)) (data_len_ (base s))
                       (current_pos_ (base s)) (failed_ (base s)) in
        Ret (data_, OutPacketStream base' true (cmd_type_ s))
    end).

(** The bytes of a packet that go on the wire: [GetRawdataLength()] bytes from
    [GetRawdataConstBuffer()] on. *)
Definition raw (p : bytes) : bytes := take (Z.to_nat (ZNet.GetRawdataLength p)) p.

(** [InPacketStream::InPacketStream] *)
Definition in_new (p : bytes) : byte_stream := bs_wrap (drop 8 p) (ZNet.GetBodyLength p).

(** * Facts *)
Section Facts.
Context (malloc : Z -> option bytes) (malloc_ok : malloc_total malloc).

Lemma malloc_some n : 0 <= n < 2 ^ 32 -> exists b, malloc n = Some b /\ zlen b = n.
Proof using malloc_ok. apply malloc_ok. Qed.

(** The override keeps the promise of [ByteStream::Alloc], eight bytes beyond
    [max_len_], and never reports a failure. *)
#[export] Instance packet_alloc : VirtualAlloc (Alloc malloc) 8 False.
Proof using malloc_ok.
  split. intros s c n W Hn. unfold Alloc, ZNet.kPacketHeaderSize.
  destruct W as [Hnew Hg Hp Hl Hm [tail Ht] Hc]. rewrite Hg. cbn [negb Z.eqb].
  rewrite (proj2 (Z.ltb_lt _ _)) by lia. unfold stream_limit in Hn.
  destruct (grow_fuel_enough 8 (max_len_ s) n) as (k & Hk & -> & Hge & Hlt); [lia..|]. obind.
  assert (1 <= k) as Hk1 by lia. set (size := max_len_ s + 8 * k) in *.
  destruct (malloc_some (size + 8)) as (b0 & Eb0 & Hb0); [lia|]. rewrite !uwrap_small by lia.
  set (data_ := match ByteStream.buffer_ s with None => _ | Some b => _ end).
  assert (exists data, data_ = Some data /\ zlen data = size + 8 /\ exists t, drop 8 data = block s ++ t)
    as (data & -> & Hd & t & Et).
  { unfold data_, block. destruct (ByteStream.buffer_ s) as [b|] eqn:Hb; [|by eauto].
    unfold realloc. rewrite Eb0. eexists. split; [done|].
    assert (zlen (head_room ++ b) <= zlen b0) as Hle.
    { destruct Hc as [[? _]|Hc]; [done|]. unfold block in Hc. rewrite Hb in Hc. simpl in Hc.
      rewrite zlen_app. change (zlen head_room) with 8. lia. }
    rewrite take_ge by (unfold zlen in *; lia). split.
    - unfold zlen in *. rewrite length_app, length_drop. lia.
    - rewrite <- app_assoc. exists (drop (length (head_room ++ b)) b0). by apply (drop_app_length head_room). }
  assert (zlen (drop 8 data) = size) as Hdl by (unfold zlen in *; rewrite length_drop; lia).
  eexists true, _. split; [done|]. cbn iota.
  split; [|split; [by eexists|unfold block; cbn [ByteStream.buffer_ set_buffer]; simpl; lia]].
  split; cbn [set_buffer is_new_ failed_ current_pos_ data_len_ max_len_ ByteStream.buffer_]; try done; [lia| |].
  - exists (tail ++ t). unfold block at 1. cbn [set_buffer ByteStream.buffer_ default]. 
    rewrite app_assoc, <- Ht. exact Et.
  - right. unfold block. cbn [set_buffer ByteStream.buffer_ default id]. simpl. lia.
Qed.

Lemma put_items_all l : forall s s',
  put_all (Alloc malloc) (base s) l = Ret s' ->
  put_items malloc s l = Ret (OutPacketStream s' (is_transfered_ s) (cmd_type_ s)).
Proof using.
  induction l as [|i l IH]; intros s s' E; cbn [put_all put_items] in *.
  - injection E as <-. by destruct s.
  - destruct (put _ _ _); [|done]. cbn [mbind outcome_bind] in *.
    by apply (IH (OutPacketStream _ _ _)).
Qed.

Lemma out_new_ok cmd :
  exists s, out_new malloc cmd = Ret (OutPacketStream s false cmd) /\ writer_ok 8 s [] /\
    is_Some (ByteStream.buffer_ s).
Proof using malloc_ok.
  destruct (va_grow (slack := 8) bs_new [] 8) as (b & s & E & H); [apply writer_new|done|].
  unfold out_new. fold ZNet.kPacketHeaderSize in E. rewrite E. obind.
  destruct b; [|by destruct H]. destruct H as (W & Hs & _). by eauto.
Qed.
End Facts.

Lemma GetPacket_ok s cmd c :
  writer_ok 8 s c -> is_Some (ByteStream.buffer_ s) ->
  exists t s', GetPacket (OutPacketStream s false cmd) = Ret (ZNet.header_bytes cmd (zlen c) ++ c ++ t, s') /\
    GetPacket s' = Fault AssertFail.
Proof.
  intros [Hnew Hg Hp Hl Hm [tail Ht] Hc] [b Hb]. unfold GetPacket. cbn [base is_transfered_ cmd_type_ negb guard_or].
  rewrite Hb. unfold Tell. rewrite Hp. unfold block in Ht. rewrite Hb in Ht. simpl in Ht. subst b.
  rewrite mem_write_ok; [|done|rewrite ZNet.znet_zlen_header, zlen_app; change (zlen head_room) with 8;
                            unfold ZNet.kPacketHeaderSize; pose proof (zlen_nonneg (c ++ tail)); lia].
  obind. exists tail. unfold zsplice.
  change (Z.to_nat 0 + length (ZNet.header_bytes cmd (zlen c)))%nat with 8%nat. simpl (Z.to_nat 0).
  rewrite take_0, app_nil_l, (drop_app_length head_room). by eexists.
Qed.

(** C4: a packet carries its values from end to end.  Values written with
    [operator <<] to an [OutPacketStream], up to 2 MiB of them, become with
    [GetPacket] a packet that a peer's ZNet codec hands to its delegate as
    the same bytes, however much follows in its buffer, and whose
    [InPacketStream] gives the same values back with [operator >>]; a second
    [GetPacket] on the stream fails its [CHECK]. *)
Theorem packet_stream_roundtrip {Q} `{!ByteQueue Q} {U} malloc (deliver : bytes -> U -> Z * U) cmd l q c u :
  malloc_total malloc -> 0 <= cmd < 2 ^ 16 -> Forall item_ok l ->
  zlen (concat (encode <$> l)) <= ZNet.kMaxPacketSize -> zlen c <= io_limit ->
  exists s0 s p s',
    out_new malloc cmd = Ret s0 /\ put_items malloc s0 l = Ret s /\
    GetPacket s = Ret (p, s') /\ GetPacket s' = Fault AssertFail /\
    ZNet.GetCmdType p = cmd /\
    (q_rep q (raw p ++ c) -> exists q', q_rep q' c /\
       ZNet.OnDataReceived malloc deliver q u = let '(ret, u) := deliver (raw p) u in Ret (ret, q', u)) /\
    exists r, get_all (in_new (raw p)) (kind_of <$> l) = Ret (Some <$> l, r) /\ Fail r = false.
Proof.
  intros HM Hcmd Hl Hlim Hc. set (body := concat (encode <$> l)) in *. unfold ZNet.kMaxPacketSize in Hlim.
  pose proof (zlen_nonneg body).
  destruct (out_new_ok malloc HM cmd) as (s0 & E0 & W0 & Hs0).
  destruct (@put_all_append _ _ _ (packet_alloc malloc HM) l s0 [] W0) as (s1 & E1 & [W1|[_ []]]);
    [done|done|fold body; unfold stream_limit; change (zlen (@nil Z)) with 0; lia|].
  assert (is_Some (ByteStream.buffer_ s1)) as Hs1.
  { destruct l as [|i l]; [by injection E1 as <-|].
    destruct (ByteStream.buffer_ s1) eqn:Hb; [done|]. exfalso.
    destruct (wo_tail _ _ _ W1) as [tail Ht]. unfold block in Ht. rewrite Hb in Ht.
    apply symmetry, app_nil in Ht as [Ht _]. by apply (encode_cons_nonempty i l). }
  destruct (GetPacket_ok s1 cmd body W1 Hs1) as (t & s' & E2 & E3).
  eexists _, _, _, s'. split; [exact E0|]. split; [by apply put_items_all; exact E1|]. split; [exact E2|].
  split; [done|]. destruct (ZNet.header_fields cmd (zlen body) (body ++ t)) as (_ & F1 & F2); [done|lia|].
  assert (raw (ZNet.header_bytes cmd (zlen body) ++ body ++ t) = ZNet.packet_bytes (ZNet.MkPacket cmd body)) as ->.
  { unfold raw, ZNet.GetRawdataLength, ZNet.GetBodyLength. rewrite F2. unfold ZNet.kPacketHeaderSize.
    rewrite uwrap_small by lia. unfold ZNet.packet_bytes. cbn [ZNet.pk_type ZNet.pk_body].
    rewrite app_assoc. apply take_app_length'. rewrite length_app. unfold zlen.
    change (length (ZNet.header_bytes cmd (Z.of_nat (length body)))) with 8%nat. lia. }
  split; [done|]. split.
  - intros R. apply ZNet.znet_receive_packet; [done| |done..]. unfold ZNet.packet_ok, ZNet.kMaxPacketSize. cbn. lia.
  - destruct (ZNet.header_fields cmd (zlen body) body) as (_ & _ & F3); [done|lia|].
    unfold in_new, ZNet.GetBodyLength, ZNet.packet_bytes. cbn [ZNet.pk_type ZNet.pk_body].
    rewrite F3, (drop_app_length' (ZNet.header_bytes _ _)) by done.
    destruct (get_all_next l (bs_wrap body (zlen body)) [] []) as (r & Er & Rr); [|done|].
    + split; try done; rewrite ?app_nil_r; unfold bs_wrap; cbn [max_len_ ByteStream.buffer_];
        change (zlen (@nil Z)) with 0; [unfold body; lia|lia|]. exists []. by rewrite !app_nil_r.
    + exists r. split; [done|]. unfold Fail. by rewrite (ro_good _ _ _ Rr).
Qed.

(** * Witness *)
Lemma packet_stream_roundtrip_witness :
  exists s0 s p s',
    out_new full_malloc 9 = Ret s0 /\ put_items full_malloc s0 [II16 (-3); IStr [65; 66]] = Ret s /\
    GetPacket s = Ret (p, s') /\
    exists r, get_all (in_new (raw p)) [KI16; KStr] = Ret ([Some (II16 (-3)); Some (IStr [65; 66])], r) /\
      Fail r = false.
Proof.
  destruct (@packet_stream_roundtrip _ (io_queue true true) _ full_malloc collect 9
              [II16 (-3); IStr [65; 66]] (io_with []) [] [] full_malloc_total)
    as (s0 & s & p & s' & E0 & E1 & E2 & _ & _ & _ & H); [done|by repeat constructor|by vm_compute..|].
  by exists s0, s, p, s'.
Defined.
