(* ===== verification/HttpTypes.v ===== *)
(** The data of [zutils/net/third_party/http_parser]: methods, error codes, states,
    the parser record with its bit-field widths, the character tables and
    classes, and the parser's own small functions.  [HTTP_PARSER_STRICT] is 1,
    its default. *)
From Stdlib Require Import ZArith Lia Bool Ascii String.
From stdpp Require Import base list numbers strings.
From S2P Require Import Prelude.

Open Scope Z_scope.

(** * Enumerations *)

(** [enum http_method] *)
Inductive http_method :=
  | HTTP_DELETE | HTTP_GET | HTTP_HEAD | HTTP_POST | HTTP_PUT | HTTP_CONNECT | HTTP_OPTIONS
  | HTTP_TRACE | HTTP_COPY | HTTP_LOCK | HTTP_MKCOL | HTTP_MOVE | HTTP_PROPFIND | HTTP_PROPPATCH
  | HTTP_SEARCH | HTTP_UNLOCK | HTTP_REPORT | HTTP_MKACTIVITY | HTTP_CHECKOUT | HTTP_MERGE
  | HTTP_MSEARCH | HTTP_NOTIFY | HTTP_SUBSCRIBE | HTTP_UNSUBSCRIBE | HTTP_PATCH | HTTP_PURGE
  | HTTP_MKCALENDAR.

(** [method_strings], by [HTTP_METHOD_MAP] *)
Definition method_string (m : http_method) : bytes :=
  match m with
  | HTTP_DELETE => str#"DELETE"
  | HTTP_GET => str#"GET"
  | HTTP_HEAD => str#"HEAD"
  | HTTP_POST => str#"POST"
  | HTTP_PUT => str#"PUT"
  | HTTP_CONNECT => str#"CONNECT"
  | HTTP_OPTIONS => str#"OPTIONS"
  | HTTP_TRACE => str#"TRACE"
  | HTTP_COPY => str#"COPY"
  | HTTP_LOCK => str#"LOCK"
  | HTTP_MKCOL => str#"MKCOL"
  | HTTP_MOVE => str#"MOVE"
  | HTTP_PROPFIND => str#"PROPFIND"
  | HTTP_PROPPATCH => str#"PROPPATCH"
  | HTTP_SEARCH => str#"SEARCH"
  | HTTP_UNLOCK => str#"UNLOCK"
  | HTTP_REPORT => str#"REPORT"
  | HTTP_MKACTIVITY => str#"MKACTIVITY"
  | HTTP_CHECKOUT => str#"CHECKOUT"
  | HTTP_MERGE => str#"MERGE"
  | HTTP_MSEARCH => str#"M-SEARCH"
  | HTTP_NOTIFY => str#"NOTIFY"
  | HTTP_SUBSCRIBE => str#"SUBSCRIBE"
  | HTTP_UNSUBSCRIBE => str#"UNSUBSCRIBE"
  | HTTP_PATCH => str#"PATCH"
  | HTTP_PURGE => str#"PURGE"
  | HTTP_MKCALENDAR => str#"MKCALENDAR"
  end.

Definition all_methods : list http_method :=
  [ HTTP_DELETE; HTTP_GET; HTTP_HEAD; HTTP_POST; HTTP_PUT; HTTP_CONNECT; HTTP_OPTIONS;
    HTTP_TRACE; HTTP_COPY; HTTP_LOCK; HTTP_MKCOL; HTTP_MOVE; HTTP_PROPFIND; HTTP_PROPPATCH;
    HTTP_SEARCH; HTTP_UNLOCK; HTTP_REPORT; HTTP_MKACTIVITY; HTTP_CHECKOUT; HTTP_MERGE; HTTP_MSEARCH;
    HTTP_NOTIFY; HTTP_SUBSCRIBE; HTTP_UNSUBSCRIBE; HTTP_PATCH; HTTP_PURGE; HTTP_MKCALENDAR ].

(** The numbers of the methods, as [HTTP_METHOD_MAP] gives them. *)
Definition method_num (m : http_method) : Z :=
  match m with
  | HTTP_DELETE => 0 | HTTP_GET => 1 | HTTP_HEAD => 2 | HTTP_POST => 3
  | HTTP_PUT => 4 | HTTP_CONNECT => 5 | HTTP_OPTIONS => 6 | HTTP_TRACE => 7
  | HTTP_COPY => 8 | HTTP_LOCK => 9 | HTTP_MKCOL => 10 | HTTP_MOVE => 11
  | HTTP_PROPFIND => 12 | HTTP_PROPPATCH => 13 | HTTP_SEARCH => 14 | HTTP_UNLOCK => 15
  | HTTP_REPORT => 16 | HTTP_MKACTIVITY => 17 | HTTP_CHECKOUT => 18 | HTTP_MERGE => 19
  | HTTP_MSEARCH => 20 | HTTP_NOTIFY => 21 | HTTP_SUBSCRIBE => 22 | HTTP_UNSUBSCRIBE => 23
  | HTTP_PATCH => 24 | HTTP_PURGE => 25 | HTTP_MKCALENDAR => 26
  end.

#[export] Instance http_method_eq_dec : EqDecision http_method.
Proof. solve_decision. Defined.

(** [enum http_parser_type] *)
Inductive http_parser_type := HTTP_REQUEST | HTTP_RESPONSE | HTTP_BOTH.

#[export] Instance http_parser_type_eq_dec : EqDecision http_parser_type.
Proof. solve_decision. Defined.

(** [enum http_errno] *)
Inductive http_errno :=
  | HPE_OK | HPE_CB_message_begin | HPE_CB_url | HPE_CB_header_field | HPE_CB_header_value
  | HPE_CB_headers_complete | HPE_CB_body | HPE_CB_message_complete | HPE_CB_status
  | HPE_INVALID_EOF_STATE | HPE_HEADER_OVERFLOW | HPE_CLOSED_CONNECTION | HPE_INVALID_VERSION
  | HPE_INVALID_STATUS | HPE_INVALID_METHOD | HPE_INVALID_URL | HPE_INVALID_HOST | HPE_INVALID_PORT
  | HPE_INVALID_PATH | HPE_INVALID_QUERY_STRING | HPE_INVALID_FRAGMENT | HPE_LF_EXPECTED
  | HPE_INVALID_HEADER_TOKEN | HPE_INVALID_CONTENT_LENGTH | HPE_INVALID_CHUNK_SIZE
  | HPE_INVALID_CONSTANT | HPE_INVALID_INTERNAL_STATE | HPE_STRICT | HPE_PAUSED | HPE_UNKNOWN.

#[export] Instance http_errno_eq_dec : EqDecision http_errno.
Proof. solve_decision. Defined.

(** [enum state]; the numbers start at 1. *)
Inductive state :=
  | s_dead | s_start_req_or_res | s_res_or_resp_H | s_start_res | s_res_H | s_res_HT | s_res_HTT
  | s_res_HTTP | s_res_first_http_major | s_res_http_major | s_res_first_http_minor
  | s_res_http_minor | s_res_first_status_code | s_res_status_code | s_res_status_start
  | s_res_status | s_res_line_almost_done | s_start_req | s_req_method | s_req_spaces_before_url
  | s_req_schema | s_req_schema_slash | s_req_schema_slash_slash | s_req_server_start
  | s_req_server | s_req_server_with_at | s_req_path | s_req_query_string_start
  | s_req_query_string | s_req_fragment_start | s_req_fragment | s_req_http_start | s_req_http_H
  | s_req_http_HT | s_req_http_HTT | s_req_http_HTTP | s_req_first_http_major | s_req_http_major
  | s_req_first_http_minor | s_req_http_minor | s_req_line_almost_done | s_header_field_start
  | s_header_field | s_header_value_discard_ws | s_header_value_discard_ws_almost_done
  | s_header_value_discard_lws | s_header_value_start | s_header_value | s_header_value_lws
  | s_header_almost_done | s_chunk_size_start | s_chunk_size | s_chunk_parameters
  | s_chunk_size_almost_done | s_headers_almost_done | s_headers_done | s_chunk_data
  | s_chunk_data_almost_done | s_chunk_data_done | s_body_identity | s_body_identity_eof
  | s_message_done.

Definition state_num (s : state) : Z :=
  match s with
  | s_dead => 1 | s_start_req_or_res => 2 | s_res_or_resp_H => 3
  | s_start_res => 4 | s_res_H => 5 | s_res_HT => 6
  | s_res_HTT => 7 | s_res_HTTP => 8 | s_res_first_http_major => 9
  | s_res_http_major => 10 | s_res_first_http_minor => 11 | s_res_http_minor => 12
  | s_res_first_status_code => 13 | s_res_status_code => 14 | s_res_status_start => 15
  | s_res_status => 16 | s_res_line_almost_done => 17 | s_start_req => 18
  | s_req_method => 19 | s_req_spaces_before_url => 20 | s_req_schema => 21
  | s_req_schema_slash => 22 | s_req_schema_slash_slash => 23 | s_req_server_start => 24
  | s_req_server => 25 | s_req_server_with_at => 26 | s_req_path => 27
  | s_req_query_string_start => 28 | s_req_query_string => 29 | s_req_fragment_start => 30
  | s_req_fragment => 31 | s_req_http_start => 32 | s_req_http_H => 33
  | s_req_http_HT => 34 | s_req_http_HTT => 35 | s_req_http_HTTP => 36
  | s_req_first_http_major => 37 | s_req_http_major => 38 | s_req_first_http_minor => 39
  | s_req_http_minor => 40 | s_req_line_almost_done => 41 | s_header_field_start => 42
  | s_header_field => 43 | s_header_value_discard_ws => 44 | s_header_value_discard_ws_almost_done => 45
  | s_header_value_discard_lws => 46 | s_header_value_start => 47 | s_header_value => 48
  | s_header_value_lws => 49 | s_header_almost_done => 50 | s_chunk_size_start => 51
  | s_chunk_size => 52 | s_chunk_parameters => 53 | s_chunk_size_almost_done => 54
  | s_headers_almost_done => 55 | s_headers_done => 56 | s_chunk_data => 57
  | s_chunk_data_almost_done => 58 | s_chunk_data_done => 59 | s_body_identity => 60
  | s_body_identity_eof => 61 | s_message_done => 62
  end.

(** [PARSING_HEADER(state)] *)
Definition PARSING_HEADER (s : state) : bool := state_num s <=? state_num s_headers_done.

(** [enum header_states] *)
Inductive header_states :=
  | h_general | h_C | h_CO | h_CON | h_matching_connection | h_matching_proxy_connection
  | h_matching_content_length | h_matching_transfer_encoding | h_matching_upgrade | h_connection
  | h_content_length | h_transfer_encoding | h_upgrade | h_matching_transfer_encoding_chunked
  | h_matching_connection_token_start | h_matching_connection_keep_alive
  | h_matching_connection_close | h_matching_connection_upgrade | h_matching_connection_token
  | h_transfer_encoding_chunked | h_connection_keep_alive | h_connection_close
  | h_connection_upgrade.

(** [enum flags]; the field that holds them is six bits wide. *)
Definition F_CHUNKED : Z := 1.
Definition F_CONNECTION_KEEP_ALIVE : Z := 2.
Definition F_CONNECTION_CLOSE : Z := 4.
Definition F_CONNECTION_UPGRADE : Z := 8.
Definition F_TRAILING : Z := 16.
Definition F_UPGRADE : Z := 32.
Definition F_SKIPBODY : Z := 64.

Definition HTTP_MAX_HEADER_SIZE : Z := 80 * 1024.
Definition ULLONG_MAX : Z := 2 ^ 64 - 1.

(** * The parser *)

(** [struct http_parser], without the application's [data] pointer. *)
Record http_parser := HttpParser {
  type : http_parser_type;
  flags : Z;
  pstate : state;
  header_state : header_states;
  index : Z;
  nread : Z;
  content_length : Z;
  http_major : Z;
  http_minor : Z;
  status_code : Z;
  method : http_method;
  errno : http_errno;
  upgrade : bool
}.

(** Assignments to the fields, each narrowed to the width of its field. *)
Definition set_type (v : http_parser_type) (r : http_parser) : http_parser :=
  HttpParser v (flags r) (pstate r) (header_state r) (index r) (nread r) (content_length r) (http_major r) (http_minor r) (status_code r) (method r) (errno r) (upgrade r).
Definition set_flags (v : Z) (r : http_parser) : http_parser :=
  HttpParser (type r) (Z.land v 63) (pstate r) (header_state r) (index r) (nread r) (content_length r) (http_major r) (http_minor r) (status_code r) (method r) (errno r) (upgrade r).
Definition set_pstate (v : state) (r : http_parser) : http_parser :=
  HttpParser (type r) (flags r) v (header_state r) (index r) (nread r) (content_length r) (http_major r) (http_minor r) (status_code r) (method r) (errno r) (upgrade r).
Definition set_header_state (v : header_states) (r : http_parser) : http_parser :=
  HttpParser (type r) (flags r) (pstate r) v (index r) (nread r) (content_length r) (http_major r) (http_minor r) (status_code r) (method r) (errno r) (upgrade r).
Definition set_index (v : Z) (r : http_parser) : http_parser :=
  HttpParser (type r) (flags r) (pstate r) (header_state r) (u8 v) (nread r) (content_length r) (http_major r) (http_minor r) (status_code r) (method r) (errno r) (upgrade r).
Definition set_nread (v : Z) (r : http_parser) : http_parser :=
  HttpParser (type r) (flags r) (pstate r) (header_state r) (index r) (u32 v) (content_length r) (http_major r) (http_minor r) (status_code r) (method r) (errno r) (upgrade r).
Definition set_content_length (v : Z) (r : http_parser) : http_parser :=
  HttpParser (type r) (flags r) (pstate r) (header_state r) (index r) (nread r) (u64 v) (http_major r) (http_minor r) (status_code r) (method r) (errno r) (upgrade r).
Definition set_http_major (v : Z) (r : http_parser) : http_parser :=
  HttpParser (type r) (flags r) (pstate r) (header_state r) (index r) (nread r) (content_length r) (u16 v) (http_minor r) (status_code r) (method r) (errno r) (upgrade r).
Definition set_http_minor (v : Z) (r : http_parser) : http_parser :=
  HttpParser (type r) (flags r) (pstate r) (header_state r) (index r) (nread r) (content_length r) (http_major r) (u16 v) (status_code r) (method r) (errno r) (upgrade r).
Definition set_status_code (v : Z) (r : http_parser) : http_parser :=
  HttpParser (type r) (flags r) (pstate r) (header_state r) (index r) (nread r) (content_length r) (http_major r) (http_minor r) (u16 v) (method r) (errno r) (upgrade r).
Definition set_method (v : http_method) (r : http_parser) : http_parser :=
  HttpParser (type r) (flags r) (pstate r) (header_state r) (index r) (nread r) (content_length r) (http_major r) (http_minor r) (status_code r) v (errno r) (upgrade r).
Definition set_errno (v : http_errno) (r : http_parser) : http_parser :=
  HttpParser (type r) (flags r) (pstate r) (header_state r) (index r) (nread r) (content_length r) (http_major r) (http_minor r) (status_code r) (method r) v (upgrade r).
Definition set_upgrade (v : bool) (r : http_parser) : http_parser :=
  HttpParser (type r) (flags r) (pstate r) (header_state r) (index r) (nread r) (content_length r) (http_major r) (http_minor r) (status_code r) (method r) (errno r) v.

(** [flags |= f] and [flags & f] *)
Definition or_flags (f : Z) (r : http_parser) : http_parser := set_flags (Z.lor (flags r) f) r.
Definition has_flag (f : Z) (r : http_parser) : bool := negb (Z.land (flags r) f =? 0).

(** [http_parser_init] *)
Definition http_parser_init (t : http_parser_type) : http_parser :=
  HttpParser t 0
    (match t with HTTP_REQUEST => s_start_req | HTTP_RESPONSE => s_start_res | HTTP_BOTH => s_start_req_or_res end)
    h_general 0 0 0 0 0 0 HTTP_DELETE HPE_OK false.

(** [http_parser_pause] *)
Definition http_parser_pause (r : http_parser) (paused : bool) : outcome http_parser :=
  match errno r with
  | HPE_OK | HPE_PAUSED => Ret (set_errno (if paused then HPE_PAUSED else HPE_OK) r)
  | _ => Fault AssertFail
  end.

(** [http_body_is_final] *)
Definition http_body_is_final (r : http_parser) : bool :=
  match pstate r with s_message_done => true | _ => false end.

(** [http_message_needs_eof] *)
Definition http_message_needs_eof (r : http_parser) : bool :=
  match type r with
  | HTTP_REQUEST => false
  | _ =>
      if (status_code r / 100 =? 1) || (status_code r =? 204) || (status_code r =? 304) || has_flag F_SKIPBODY r
      then false
      else if has_flag F_CHUNKED r || negb (content_length r =? ULLONG_MAX) then false
      else true
  end.

(** [http_should_keep_alive] *)
Definition http_should_keep_alive (r : http_parser) : bool :=
  if (0 <? http_major r) && (0 <? http_minor r) then
    if has_flag F_CONNECTION_CLOSE r then false else negb (http_message_needs_eof r)
  else
    if negb (has_flag F_CONNECTION_KEEP_ALIVE r) then false else negb (http_message_needs_eof r).

(** [start_state] and [NEW_MESSAGE()] *)
Definition start_state (r : http_parser) : state :=
  match type r with HTTP_REQUEST => s_start_req | _ => s_start_res end.
Definition NEW_MESSAGE (r : http_parser) : state :=
  if http_should_keep_alive r then start_state r else s_dead.

(** [http_parser_version]: 2.3.0 *)
Definition http_parser_version : Z := 2 * 0x10000 + 3 * 0x100 + 0.

(** [http_method_str] *)
Definition http_method_str (m : Z) : bytes :=
  match all_methods !! Z.to_nat (u32 m) with
  | Some m => method_string m
  | None => str#"<unknown>"
  end.

(** * Characters *)
Definition CR : Z := 13.
Definition LF : Z := 10.
Definition LOWER (c : Z) : Z := Z.lor c 32.
Definition IS_ALPHA (c : Z) : bool := (ch#"a" <=? LOWER c) && (LOWER c <=? ch#"z").
Definition IS_NUM (c : Z) : bool := (ch#"0" <=? c) && (c <=? ch#"9").
Definition IS_ALPHANUM (c : Z) : bool := IS_ALPHA c || IS_NUM c.
Definition IS_HEX (c : Z) : bool := IS_NUM c || ((ch#"a" <=? LOWER c) && (LOWER c <=? ch#"f")).
Definition IS_MARK (c : Z) : bool :=
  (c =? ch#"-") || (c =? ch#"_") || (c =? ch#".") || (c =? ch#"!") || (c =? ch#"~") || (c =? ch#"*") ||
  (c =? ch#"'") || (c =? ch#"(") || (c =? ch#")").
Definition IS_USERINFO_CHAR (c : Z) : bool :=
  IS_ALPHANUM c || IS_MARK c || (c =? ch#"%") || (c =? ch#";") || (c =? ch#":") || (c =? ch#"&") ||
  (c =? ch#"=") || (c =? ch#"+") || (c =? ch#"$") || (c =? ch#",").

(** A C array of which the first elements are given: the others are 0. *)
Definition elem (a : list Z) (i : Z) : Z := default 0 (a !! Z.to_nat i).

(** [tokens], of 256 elements *)
Definition tokens : list Z :=
   [ 0; 0; 0; 0; 0; 0; 0; 0; 0; 0; 0; 0; 0; 0; 0; 0
   ; 0; 0; 0; 0; 0; 0; 0; 0; 0; 0; 0; 0; 0; 0; 0; 0
   ; 0; 33; 0; 35; 36; 37; 38; 39; 0; 0; 42; 43; 0; 45; 46; 0
   ; 48; 49; 50; 51; 52; 53; 54; 55; 56; 57; 0; 0; 0; 0; 0; 0
   ; 0; 97; 98; 99; 100; 101; 102; 103; 104; 105; 106; 107; 108; 109; 110; 111
   ; 112; 113; 114; 115; 116; 117; 118; 119; 120; 121; 122; 0; 0; 0; 94; 95
   ; 96; 97; 98; 99; 100; 101; 102; 103; 104; 105; 106; 107; 108; 109; 110; 111
   ; 112; 113; 114; 115; 116; 117; 118; 119; 120; 121; 122; 0; 124; 0; 126; 0 ].

(** [unhex], of 256 elements: only 128 initialisers are written. *)
Definition unhex : list Z :=
   [ -1; -1; -1; -1; -1; -1; -1; -1; -1; -1; -1; -1; -1; -1; -1; -1
   ; -1; -1; -1; -1; -1; -1; -1; -1; -1; -1; -1; -1; -1; -1; -1; -1
   ; -1; -1; -1; -1; -1; -1; -1; -1; -1; -1; -1; -1; -1; -1; -1; -1
   ; 0; 1; 2; 3; 4; 5; 6; 7; 8; 9; -1; -1; -1; -1; -1; -1
   ; -1; 10; 11; 12; 13; 14; 15; -1; -1; -1; -1; -1; -1; -1; -1; -1
   ; -1; -1; -1; -1; -1; -1; -1; -1; -1; -1; -1; -1; -1; -1; -1; -1
   ; -1; 10; 11; 12; 13; 14; 15; -1; -1; -1; -1; -1; -1; -1; -1; -1
   ; -1; -1; -1; -1; -1; -1; -1; -1; -1; -1; -1; -1; -1; -1; -1; -1 ].

(** [normal_url_char], of 32 elements *)
Definition normal_url_char : list Z :=
   [ 0; 0; 0; 0; 246; 255; 255; 127; 255; 255; 255; 255; 255; 255; 255; 127 ].

(** [BIT_AT] *)
Definition BIT_AT (a : list Z) (i : Z) : bool :=
  negb (Z.land (elem a (Z.shiftr i 3)) (Z.shiftl 1 (Z.land i 7)) =? 0).

Definition STRICT_TOKEN (c : Z) : Z := elem tokens c.
Definition TOKEN (c : Z) : Z := elem tokens c.
Definition IS_URL_CHAR (c : Z) : bool := BIT_AT normal_url_char c.
Definition IS_HOST_CHAR (c : Z) : bool := IS_ALPHANUM c || (c =? ch#".") || (c =? ch#"-").
