(* ===== verification/HttpUrl.v ===== *)
(** The URL part of [zutils/net/third_party/http_parser/http_parser.c]: the
    character automaton shared with the parser, and [http_parser_parse_url] with
    its host parser.  The fields of [struct http_parser_url] have their 16 bits
    and start with whatever the caller's memory holds. *)
From Stdlib Require Import ZArith Lia Bool Ascii String.
From stdpp Require Import base list numbers strings.
From S2P Require Import Prelude HttpTypes.

Open Scope Z_scope.

(** The three kinds of state the automaton treats alike. *)
Definition url_server (ch : Z) : state :=
  if ch =? ch#"/" then s_req_path
  else if ch =? ch#"?" then s_req_query_string_start
  else if ch =? ch#"@" then s_req_server_with_at
  else if IS_USERINFO_CHAR ch || (ch =? ch#"[") || (ch =? ch#"]") then s_req_server
  else s_dead.

(** [parse_url_char] *)
Definition parse_url_char (s : state) (ch : Z) : state :=
  if (ch =? ch#" ") || (ch =? CR) || (ch =? LF) then s_dead
  else if (ch =? 9) || (ch =? 12) then s_dead
  else
    match s with
    | s_req_spaces_before_url =>
        if (ch =? ch#"/") || (ch =? ch#"*") then s_req_path
        else if IS_ALPHA ch then s_req_schema
        else s_dead
    | s_req_schema =>
        if IS_ALPHA ch then s else if ch =? ch#":" then s_req_schema_slash else s_dead
    | s_req_schema_slash => if ch =? ch#"/" then s_req_schema_slash_slash else s_dead
    | s_req_schema_slash_slash => if ch =? ch#"/" then s_req_server_start else s_dead
    | s_req_server_with_at => if ch =? ch#"@" then s_dead else url_server ch
    | s_req_server_start | s_req_server => url_server ch
    | s_req_path =>
        if IS_URL_CHAR ch then s
        else if ch =? ch#"?" then s_req_query_string_start
        else if ch =? ch#"#" then s_req_fragment_start
        else s_dead
    | s_req_query_string_start | s_req_query_string =>
        if IS_URL_CHAR ch then s_req_query_string
        else if ch =? ch#"?" then s_req_query_string
        else if ch =? ch#"#" then s_req_fragment_start
        else s_dead
    | s_req_fragment_start =>
        if IS_URL_CHAR ch then s_req_fragment
        else if ch =? ch#"?" then s_req_fragment
        else if ch =? ch#"#" then s
        else s_dead
    | s_req_fragment =>
        if IS_URL_CHAR ch then s
        else if (ch =? ch#"?") || (ch =? ch#"#") then s
        else s_dead
    | _ => s_dead
    end.

(** * Hosts *)

(** [enum http_host_state] *)
Inductive http_host_state :=
  | s_http_host_dead | s_http_userinfo_start | s_http_userinfo | s_http_host_start
  | s_http_host_v6_start | s_http_host | s_http_host_v6 | s_http_host_v6_end
  | s_http_host_port_start | s_http_host_port.

#[export] Instance http_host_state_eq_dec : EqDecision http_host_state.
Proof. solve_decision. Defined.

(** [http_parse_host_char] *)
Definition http_parse_host_char (s : http_host_state) (ch : Z) : http_host_state :=
  match s with
  | s_http_userinfo | s_http_userinfo_start =>
      if ch =? ch#"@" then s_http_host_start
      else if IS_USERINFO_CHAR ch then s_http_userinfo
      else s_http_host_dead
  | s_http_host_start =>
      if ch =? ch#"[" then s_http_host_v6_start
      else if IS_HOST_CHAR ch then s_http_host
      else s_http_host_dead
  | s_http_host =>
      if IS_HOST_CHAR ch then s_http_host
      else if ch =? ch#":" then s_http_host_port_start
      else s_http_host_dead
  | s_http_host_v6_end => if ch =? ch#":" then s_http_host_port_start else s_http_host_dead
  | s_http_host_v6 =>
      if ch =? ch#"]" then s_http_host_v6_end
      else if IS_HEX ch || (ch =? ch#":") || (ch =? ch#".") then s_http_host_v6
      else s_http_host_dead
  | s_http_host_v6_start =>
      if IS_HEX ch || (ch =? ch#":") || (ch =? ch#".") then s_http_host_v6 else s_http_host_dead
  | s_http_host_port | s_http_host_port_start => if IS_NUM ch then s_http_host_port else s_http_host_dead
  | s_http_host_dead => s_http_host_dead
  end.

(** * The result structure *)

(** [enum http_parser_url_fields] *)
Inductive url_field := UF_SCHEMA | UF_HOST | UF_PORT | UF_PATH | UF_QUERY | UF_FRAGMENT | UF_USERINFO.

#[export] Instance url_field_eq_dec : EqDecision url_field.
Proof. solve_decision. Defined.

Definition UF_num (f : url_field) : Z :=
  match f with
  | UF_SCHEMA => 0 | UF_HOST => 1 | UF_PORT => 2 | UF_PATH => 3 | UF_QUERY => 4 | UF_FRAGMENT => 5
  | UF_USERINFO => 6
  end.

(** [struct http_parser_url]: [field_data f] is the pair of offset and length. *)
Record http_parser_url := HttpParserUrl {
  field_set : Z;
  port : Z;
  field_data : url_field -> Z * Z
}.

Definition off (u : http_parser_url) (f : url_field) : Z := fst (field_data u f).
Definition flen (u : http_parser_url) (f : url_field) : Z := snd (field_data u f).

(** Assignments, narrowed to 16 bits. *)
Definition set_field (f : url_field) (o n : Z) (u : http_parser_url) : http_parser_url :=
  HttpParserUrl (field_set u) (port u)
    (fun g => if bool_decide (g = f) then (u16 o, u16 n) else field_data u g).
Definition set_len (f : url_field) (n : Z) (u : http_parser_url) : http_parser_url := set_field f (off u f) n u.
Definition set_off (f : url_field) (o : Z) (u : http_parser_url) : http_parser_url := set_field f o (flen u f) u.
Definition incr_len (f : url_field) (u : http_parser_url) : http_parser_url := set_len f (flen u f + 1) u.
Definition mark_field (f : url_field) (u : http_parser_url) : http_parser_url :=
  HttpParserUrl (u16 (Z.lor (field_set u) (Z.shiftl 1 (UF_num f)))) (port u) (field_data u).
Definition has_field (f : url_field) (u : http_parser_url) : bool :=
  negb (Z.land (field_set u) (Z.shiftl 1 (UF_num f)) =? 0).

(** The body of the loop of [http_parse_host] when the automaton moves from [s]
    to [new_s] at offset [p]. *)
Definition host_step (s new_s : http_host_state) (p : Z) (u : http_parser_url) : http_parser_url :=
  match new_s with
  | s_http_host =>
      incr_len UF_HOST (if bool_decide (s = s_http_host) then u else set_off UF_HOST p u)
  | s_http_host_v6 =>
      incr_len UF_HOST (if bool_decide (s = s_http_host_v6) then u else set_off UF_HOST p u)
  | s_http_host_port =>
      incr_len UF_PORT (if bool_decide (s = s_http_host_port) then u else mark_field UF_PORT (set_field UF_PORT p 0 u))
  | s_http_userinfo =>
      incr_len UF_USERINFO
        (if bool_decide (s = s_http_userinfo) then u else mark_field UF_USERINFO (set_field UF_USERINFO p 0 u))
  | _ => u
  end.

Section Url.
(** The memory from [buf] on: at least the [buflen] bytes the caller passes. *)
Context (buf : bytes).

(** The loop of [http_parse_host] over [n] bytes from offset [p]; [None] is the
    early [return 1]. *)
Fixpoint host_loop (n : nat) (p : Z) (s : http_host_state) (u : http_parser_url)
    : outcome (option http_host_state * http_parser_url) :=
  match n with
  | O => Ret (Some s, u)
  | S n =>
      c ← mem_read buf p 1;
      let new_s := http_parse_host_char s (znth c 0) in
      match new_s with
      | s_http_host_dead => Ret (None, u)
      | _ => host_loop n (p + 1) new_s (host_step s new_s p u)
      end
  end.

(** [http_parse_host] *)
Definition http_parse_host (u : http_parser_url) (found_at : bool) : outcome (Z * http_parser_url) :=
  let start := off u UF_HOST in
  let n := Z.to_nat (flen u UF_HOST) in
  let s := if found_at then s_http_userinfo_start else s_http_host_start in
  '(s, u) ← host_loop n start s (set_len UF_HOST 0 u);
  match s with
  | None => Ret (1, u)
  | Some (s_http_host_start | s_http_host_v6_start | s_http_host_v6 | s_http_host_port_start
         | s_http_userinfo | s_http_userinfo_start) => Ret (1, u)
  | Some _ => Ret (0, u)
  end.

(** The field a state belongs to: [None] for the delimiters. *)
Definition field_of (s : state) : outcome (option url_field) :=
  match s with
  | s_req_schema_slash | s_req_schema_slash_slash | s_req_server_start
  | s_req_query_string_start | s_req_fragment_start => Ret None
  | s_req_schema => Ret (Some UF_SCHEMA)
  | s_req_server_with_at | s_req_server => Ret (Some UF_HOST)
  | s_req_path => Ret (Some UF_PATH)
  | s_req_query_string => Ret (Some UF_QUERY)
  | s_req_fragment => Ret (Some UF_FRAGMENT)
  | _ => Fault AssertFail
  end.

(** The loop of [http_parser_parse_url]; [None] is the early [return 1]. *)
Fixpoint url_loop (n : nat) (p : Z) (s : state) (old_uf : option url_field) (found_at : bool)
    (u : http_parser_url) : outcome (option bool * http_parser_url) :=
  match n with
  | O => Ret (Some found_at, u)
  | S n =>
      c ← mem_read buf p 1;
      let s := parse_url_char s (znth c 0) in
      match s with
      | s_dead => Ret (None, u)
      | _ =>
          uf ← field_of s;
          let found_at := match s with s_req_server_with_at => true | _ => found_at end in
          match uf with
          | None => url_loop n (p + 1) s old_uf found_at u
          | Some f =>
              if bool_decide (old_uf = Some f) then url_loop n (p + 1) s old_uf found_at (incr_len f u)
              else url_loop n (p + 1) s (Some f) found_at (mark_field f (set_field f p 1 u))
          end
      end
  end.

(** [strtoul(buf + p, NULL, 10)] on a digit: it reads digits up to the first other
    character, wherever that is, and saturates. *)
Fixpoint strtoul (n : nat) (p acc : Z) : outcome Z :=
  match n with
  | O => Fault OutOfFuel
  | S n =>
      c ← mem_read buf p 1;
      if IS_NUM (znth c 0) then strtoul n (p + 1) (Z.min ULLONG_MAX (acc * 10 + (znth c 0 - ch#"0")))
      else Ret acc
  end.

(** [http_parser_parse_url] *)
Definition http_parser_parse_url (buflen : Z) (is_connect : bool) (u : http_parser_url)
    : outcome (Z * http_parser_url) :=
  let u := HttpParserUrl 0 0 (field_data u) in
  let s := if is_connect then s_req_server_start else s_req_spaces_before_url in
  '(found_at, u) ← url_loop (Z.to_nat buflen) 0 s None false u;
  match found_at with
  | None => Ret (1, u)
  | Some found_at =>
      '(r, u) ← (if has_field UF_SCHEMA u || has_field UF_HOST u then http_parse_host u found_at else Ret (0, u));
      if negb (r =? 0) then Ret (1, u)
      else if is_connect && negb (field_set u =? Z.lor (Z.shiftl 1 (UF_num UF_HOST)) (Z.shiftl 1 (UF_num UF_PORT)))
      then Ret (1, u)
      else if has_field UF_PORT u then
        v ← strtoul (S (length buf)) (off u UF_PORT) 0;
        if 0xffff <? v then Ret (1, u) else Ret (0, HttpParserUrl (field_set u) (u16 v) (field_data u))
      else Ret (0, u)
  end.
End Url.
