(* ===== verification/HttpParser.v ===== *)
(** [http_parser_execute] of [zutils/net/third_party/http_parser/http_parser.c]:
    one definition per case of its switch, with the macros as functions, the
    callbacks as a parameter that may fail or pause the parser, and its
    assertions and reads as possible faults. *)
From Stdlib Require Import ZArith Lia Bool Ascii String.
From stdpp Require Import base list numbers strings.
From S2P Require Import Prelude HttpTypes HttpUrl.

Open Scope Z_scope.

(** * Callbacks *)

Inductive data_cb := D_url | D_status | D_header_field | D_header_value | D_body.
Inductive notify_cb := N_message_begin | N_headers_complete | N_message_complete.

#[export] Instance data_cb_eq_dec : EqDecision data_cb.
Proof. solve_decision. Defined.

(** What a callback does: its result, whether it called [http_parser_pause], and
    its effect on the application's state. *)
Record reply (U : Type) := Reply { code : Z; paused : bool; user : U }.
Arguments Reply {U} _ _ _.
Arguments code {U} _.
Arguments paused {U} _.
Arguments user {U} _.

(** [http_parser_settings]: [None] is the null pointer.  A data callback is given
    the bytes its [at] and [length] arguments delimit. *)
Record settings (U : Type) := Settings {
  on_notify : notify_cb -> option (http_parser -> U -> reply U);
  on_data : data_cb -> option (http_parser -> bytes -> U -> reply U)
}.
Arguments Settings {U} _ _.
Arguments on_notify {U} _ _.
Arguments on_data {U} _ _.

Definition notify_errno (k : notify_cb) : http_errno :=
  match k with
  | N_message_begin => HPE_CB_message_begin
  | N_headers_complete => HPE_CB_headers_complete
  | N_message_complete => HPE_CB_message_complete
  end.
Definition data_errno (k : data_cb) : http_errno :=
  match k with
  | D_url => HPE_CB_url | D_status => HPE_CB_status | D_header_field => HPE_CB_header_field
  | D_header_value => HPE_CB_header_value | D_body => HPE_CB_body
  end.

(** * The local variables of one call *)

(** The five marks, offsets into the buffer. *)
Record marks := Marks {
  url_mark : option Z;
  status_mark : option Z;
  header_field_mark : option Z;
  header_value_mark : option Z;
  body_mark : option Z
}.
Definition no_marks : marks := Marks None None None None None.

Definition get_mark (k : data_cb) (m : marks) : option Z :=
  match k with
  | D_url => url_mark m | D_status => status_mark m | D_header_field => header_field_mark m
  | D_header_value => header_value_mark m | D_body => body_mark m
  end.
Definition put_mark (k : data_cb) (v : option Z) (m : marks) : marks :=
  match m with Marks a b c d e =>
    match k with
    | D_url => Marks v b c d e | D_status => Marks a v c d e | D_header_field => Marks a b v d e
    | D_header_value => Marks a b c v e | D_body => Marks a b c d v
    end
  end.

(** [pr] is [*parser], [st] is [p_state], [pos] is [p - data]. *)
Record exec (U : Type) := Exec { pr : http_parser; st : state; pos : Z; mk : marks; usr : U }.
Arguments Exec {U} _ _ _ _ _.
Arguments pr {U} _.
Arguments st {U} _.
Arguments pos {U} _.
Arguments mk {U} _.
Arguments usr {U} _.

(** A piece of the function goes on, returns from the function, or faults. *)
Inductive result (U A : Type) :=
  | Go (a : A)
  | Return (n : Z) (r : http_parser) (u : U)
  | Crash (f : fault).
Arguments Go {U A} _.
Arguments Return {U A} _ _ _.
Arguments Crash {U A} _.

#[export] Instance result_ret U : MRet (result U) := fun A a => Go a.
#[export] Instance result_bind U : MBind (result U) :=
  fun A B k m => match m with Go a => k a | Return n r u => Return n r u | Crash f => Crash f end.

Definition lift {U A} (m : outcome A) : result U A :=
  match m with Ret a => Go a | Fault f => Crash f end.

(** Offset of the first [c] in [l], [memchr]. *)
Fixpoint memchr (c : Z) (l : bytes) (off : Z) : option Z :=
  match l with
  | [] => None
  | x :: l => if x =? c then Some off else memchr c l (off + 1)
  end.

(** [parser->index > sizeof(WORD)-1 || c != WORD[parser->index]] *)
Definition mismatch (word : bytes) (index c : Z) : bool :=
  (zlen word <? index) || negb (c =? znth (word ++ [0]) index).

Definition is_ok (e : http_errno) : bool := bool_decide (e = HPE_OK).

Section Execute.
Context {U : Type} (cfg : settings U) (data : bytes).

Definition len : Z := zlen data.

(** ** Macros *)
Definition with_pr (f : http_parser -> http_parser) (e : exec U) : exec U :=
  Exec (f (pr e)) (st e) (pos e) (mk e) (usr e).
(** [UPDATE_STATE] *)
Definition UPDATE_STATE (s : state) (e : exec U) : exec U := Exec (pr e) s (pos e) (mk e) (usr e).
Definition set_pos (p : Z) (e : exec U) : exec U := Exec (pr e) (st e) p (mk e) (usr e).
Definition with_mk (f : marks -> marks) (e : exec U) : exec U := Exec (pr e) (st e) (pos e) (f (mk e)) (usr e).

(** [RETURN(V)], the label [error:], and [SET_ERRNO] with a jump to it. *)
Definition RETURN {A} (v : Z) (e : exec U) : result U A := Return v (set_pstate (st e) (pr e)) (usr e).
Definition goto_error {A} (e : exec U) : result U A :=
  RETURN (pos e) (if is_ok (errno (pr e)) then with_pr (set_errno HPE_UNKNOWN) e else e).
Definition error {A} (err : http_errno) (e : exec U) : result U A := goto_error (with_pr (set_errno err) e).

Definition assert_ {A} (b : bool) (k : result U A) : result U A := if b then k else Crash AssertFail.

(** [COUNT_HEADER_SIZE(V)], [STRICT_CHECK], [REEXECUTE], [MARK] *)
Definition COUNT_HEADER_SIZE (v : Z) (e : exec U) : result U (exec U) :=
  let e := with_pr (fun r => set_nread (nread r + v) r) e in
  if HTTP_MAX_HEADER_SIZE <? nread (pr e) then error HPE_HEADER_OVERFLOW e else Go e.
Definition STRICT_CHECK (cond : bool) (e : exec U) (k : result U (exec U)) : result U (exec U) :=
  if cond then error HPE_STRICT e else k.
Definition REEXECUTE (e : exec U) : result U (exec U) := Go (set_pos (pos e - 1) e).
Definition MARK (k : data_cb) (e : exec U) : exec U :=
  match get_mark k (mk e) with
  | None => with_mk (put_mark k (Some (pos e))) e
  | Some _ => e
  end.

(** What both callback macros do around the call; [er] is the value returned
    when the callback fails or pauses. *)
Definition after_callback (er : Z) (err : http_errno) (rep : reply U) (e : exec U) : result U (exec U) :=
  let r := set_pstate (st e) (pr e) in
  let r := if paused rep then set_errno HPE_PAUSED r else r in
  let r := if negb (code rep =? 0) then set_errno err r else r in
  if is_ok (errno r) then Go (Exec r (pstate r) (pos e) (mk e) (user rep))
  else Return er r (user rep).

(** [CALLBACK_NOTIFY_(FOR, ER)] *)
Definition CALLBACK_NOTIFY_ (k : notify_cb) (er : Z) (e : exec U) : result U (exec U) :=
  assert_ (is_ok (errno (pr e)))
    match on_notify cfg k with
    | None => Go e
    | Some f => after_callback er (notify_errno k) (f (set_pstate (st e) (pr e)) (usr e)) e
    end.
Definition CALLBACK_NOTIFY (k : notify_cb) (e : exec U) := CALLBACK_NOTIFY_ k (pos e + 1) e.
Definition CALLBACK_NOTIFY_NOADVANCE (k : notify_cb) (e : exec U) := CALLBACK_NOTIFY_ k (pos e) e.

(** [CALLBACK_DATA_(FOR, LEN, ER)]; [n] is [LEN] as a function of the mark. *)
Definition CALLBACK_DATA_ (k : data_cb) (n : Z -> Z) (er : Z) (e : exec U) : result U (exec U) :=
  assert_ (is_ok (errno (pr e)))
    match get_mark k (mk e) with
    | None => Go e
    | Some m =>
        e ← match on_data cfg k with
            | None => Go e
            | Some f =>
                d ← lift (mem_read data m (n m));
                after_callback er (data_errno k) (f (set_pstate (st e) (pr e)) d (usr e)) e
            end;
        Go (with_mk (put_mark k None) e)
    end.
Definition CALLBACK_DATA (k : data_cb) (e : exec U) := CALLBACK_DATA_ k (fun m => pos e - m) (pos e + 1) e.
Definition CALLBACK_DATA_NOADVANCE (k : data_cb) (e : exec U) := CALLBACK_DATA_ k (fun m => pos e - m) (pos e) e.

(** ** Start of a message *)

(** [case s_dead] *)
Definition on_dead (e : exec U) (ch : Z) : result U (exec U) :=
  if (ch =? CR) || (ch =? LF) then Go e else error HPE_CLOSED_CONNECTION e.

Definition reset_message (r : http_parser) : http_parser := set_content_length ULLONG_MAX (set_flags 0 r).

(** [case s_start_req_or_res] *)
Definition on_start_req_or_res (e : exec U) (ch : Z) : result U (exec U) :=
  if (ch =? CR) || (ch =? LF) then Go e
  else
    let e := with_pr reset_message e in
    if ch =? ch#"H" then CALLBACK_NOTIFY N_message_begin (UPDATE_STATE s_res_or_resp_H e)
    else REEXECUTE (UPDATE_STATE s_start_req (with_pr (set_type HTTP_REQUEST) e)).

(** [case s_res_or_resp_H] *)
Definition on_res_or_resp_H (e : exec U) (ch : Z) : result U (exec U) :=
  if ch =? ch#"T" then Go (UPDATE_STATE s_res_HT (with_pr (set_type HTTP_RESPONSE) e))
  else if negb (ch =? ch#"E") then error HPE_INVALID_CONSTANT e
  else Go (UPDATE_STATE s_req_method
             (with_pr (fun r => set_index 2 (set_method HTTP_HEAD (set_type HTTP_REQUEST r))) e)).

(** [case s_start_res] *)
Definition on_start_res (e : exec U) (ch : Z) : result U (exec U) :=
  let e := with_pr reset_message e in
  if ch =? ch#"H" then CALLBACK_NOTIFY N_message_begin (UPDATE_STATE s_res_H e)
  else if (ch =? CR) || (ch =? LF) then CALLBACK_NOTIFY N_message_begin e
  else error HPE_INVALID_CONSTANT e.

(** The cases that expect one character, in strict mode:
    [s_res_H .. s_res_HTTP], [s_req_http_H .. s_req_http_HTTP],
    [s_res_line_almost_done], [s_header_almost_done],
    [s_header_value_discard_ws_almost_done]. *)
Definition expect (c : Z) (next : state) (e : exec U) (ch : Z) : result U (exec U) :=
  STRICT_CHECK (negb (ch =? c)) e (Go (UPDATE_STATE next e)).

(** ** Versions *)

(** [case s_res_first_http_major], [s_res_first_http_minor],
    [s_req_first_http_minor]; a request's major version starts with 1 to 9. *)
Definition on_res_first_http_major (e : exec U) (ch : Z) : result U (exec U) :=
  if (ch <? ch#"0") || (ch#"9" <? ch) then error HPE_INVALID_VERSION e
  else Go (UPDATE_STATE s_res_http_major (with_pr (set_http_major (ch - ch#"0")) e)).
Definition on_req_first_http_major (e : exec U) (ch : Z) : result U (exec U) :=
  if (ch <? ch#"1") || (ch#"9" <? ch) then error HPE_INVALID_VERSION e
  else Go (UPDATE_STATE s_req_http_major (with_pr (set_http_major (ch - ch#"0")) e)).

(** The common part of [s_res_http_major] and [s_req_http_major]. *)
Definition http_major_digit (e : exec U) (ch : Z) : result U (exec U) :=
  if negb (IS_NUM ch) then error HPE_INVALID_VERSION e
  else
    let e := with_pr (fun r => set_http_major (http_major r * 10) r) e in
    let e := with_pr (fun r => set_http_major (http_major r + (ch - ch#"0")) r) e in
    if 999 <? http_major (pr e) then error HPE_INVALID_VERSION e else Go e.
Definition on_res_http_major (e : exec U) (ch : Z) : result U (exec U) :=
  if ch =? ch#"." then Go (UPDATE_STATE s_res_first_http_minor e) else http_major_digit e ch.
Definition on_req_http_major (e : exec U) (ch : Z) : result U (exec U) :=
  if ch =? ch#"." then Go (UPDATE_STATE s_req_first_http_minor e) else http_major_digit e ch.

Definition on_first_http_minor (next : state) (e : exec U) (ch : Z) : result U (exec U) :=
  if negb (IS_NUM ch) then error HPE_INVALID_VERSION e
  else Go (UPDATE_STATE next (with_pr (set_http_minor (ch - ch#"0")) e)).

Definition http_minor_digit (e : exec U) (ch : Z) : result U (exec U) :=
  if negb (IS_NUM ch) then error HPE_INVALID_VERSION e
  else
    let e := with_pr (fun r => set_http_minor (http_minor r * 10) r) e in
    let e := with_pr (fun r => set_http_minor (http_minor r + (ch - ch#"0")) r) e in
    if 999 <? http_minor (pr e) then error HPE_INVALID_VERSION e else Go e.
Definition on_res_http_minor (e : exec U) (ch : Z) : result U (exec U) :=
  if ch =? ch#" " then Go (UPDATE_STATE s_res_first_status_code e) else http_minor_digit e ch.
Definition on_req_http_minor (e : exec U) (ch : Z) : result U (exec U) :=
  if ch =? CR then Go (UPDATE_STATE s_req_line_almost_done e)
  else if ch =? LF then Go (UPDATE_STATE s_header_field_start e)
  else http_minor_digit e ch.

(** ** Status line *)

(** [case s_res_first_status_code] *)
Definition on_res_first_status_code (e : exec U) (ch : Z) : result U (exec U) :=
  if negb (IS_NUM ch) then
    if ch =? ch#" " then Go e else error HPE_INVALID_STATUS e
  else Go (UPDATE_STATE s_res_status_code (with_pr (set_status_code (ch - ch#"0")) e)).

(** [case s_res_status_code] *)
Definition on_res_status_code (e : exec U) (ch : Z) : result U (exec U) :=
  if negb (IS_NUM ch) then
    if ch =? ch#" " then Go (UPDATE_STATE s_res_status_start e)
    else if ch =? CR then Go (UPDATE_STATE s_res_line_almost_done e)
    else if ch =? LF then Go (UPDATE_STATE s_header_field_start e)
    else error HPE_INVALID_STATUS e
  else
    let e := with_pr (fun r => set_status_code (status_code r * 10) r) e in
    let e := with_pr (fun r => set_status_code (status_code r + (ch - ch#"0")) r) e in
    if 999 <? status_code (pr e) then error HPE_INVALID_STATUS e else Go e.

(** [case s_res_status_start] *)
Definition on_res_status_start (e : exec U) (ch : Z) : result U (exec U) :=
  if ch =? CR then Go (UPDATE_STATE s_res_line_almost_done e)
  else if ch =? LF then Go (UPDATE_STATE s_header_field_start e)
  else Go (with_pr (set_index 0) (UPDATE_STATE s_res_status (MARK D_status e))).

(** [case s_res_status] *)
Definition on_res_status (e : exec U) (ch : Z) : result U (exec U) :=
  if ch =? CR then CALLBACK_DATA D_status (UPDATE_STATE s_res_line_almost_done e)
  else if ch =? LF then CALLBACK_DATA D_status (UPDATE_STATE s_header_field_start e)
  else Go e.

(** ** Request line *)

(** The switch over the first letter in [case s_start_req]. *)
Definition first_method (ch : Z) : option http_method :=
  if ch =? ch#"C" then Some HTTP_CONNECT
  else if ch =? ch#"D" then Some HTTP_DELETE
  else if ch =? ch#"G" then Some HTTP_GET
  else if ch =? ch#"H" then Some HTTP_HEAD
  else if ch =? ch#"L" then Some HTTP_LOCK
  else if ch =? ch#"M" then Some HTTP_MKCOL
  else if ch =? ch#"N" then Some HTTP_NOTIFY
  else if ch =? ch#"O" then Some HTTP_OPTIONS
  else if ch =? ch#"P" then Some HTTP_POST
  else if ch =? ch#"R" then Some HTTP_REPORT
  else if ch =? ch#"S" then Some HTTP_SUBSCRIBE
  else if ch =? ch#"T" then Some HTTP_TRACE
  else if ch =? ch#"U" then Some HTTP_UNLOCK
  else None.

(** [case s_start_req] *)
Definition on_start_req (e : exec U) (ch : Z) : result U (exec U) :=
  if (ch =? CR) || (ch =? LF) then Go e
  else
    let e := with_pr reset_message e in
    if negb (IS_ALPHA ch) then error HPE_INVALID_METHOD e
    else
      let e := with_pr (fun r => set_index 1 (set_method HTTP_DELETE r)) e in
      match first_method ch with
      | None => error HPE_INVALID_METHOD e
      | Some m => CALLBACK_NOTIFY N_message_begin (UPDATE_STATE s_req_method (with_pr (set_method m) e))
      end.

(** The chain of tests of [case s_req_method] after the first two: the method the
    recogniser switches to when the letter is not the one it expects. *)
Definition switch_method (m : http_method) (index ch : Z) : option http_method :=
  if bool_decide (m = HTTP_CONNECT) then
    if (index =? 1) && (ch =? ch#"H") then Some HTTP_CHECKOUT
    else if (index =? 2) && (ch =? ch#"P") then Some HTTP_COPY
    else None
  else if bool_decide (m = HTTP_MKCOL) then
    if (index =? 1) && (ch =? ch#"O") then Some HTTP_MOVE
    else if (index =? 1) && (ch =? ch#"E") then Some HTTP_MERGE
    else if (index =? 1) && (ch =? ch#"-") then Some HTTP_MSEARCH
    else if (index =? 2) && (ch =? ch#"A") then Some HTTP_MKACTIVITY
    else if (index =? 3) && (ch =? ch#"A") then Some HTTP_MKCALENDAR
    else None
  else if bool_decide (m = HTTP_SUBSCRIBE) then
    if (index =? 1) && (ch =? ch#"E") then Some HTTP_SEARCH else None
  else if (index =? 1) && bool_decide (m = HTTP_POST) then
    if ch =? ch#"R" then Some HTTP_PROPFIND
    else if ch =? ch#"U" then Some HTTP_PUT
    else if ch =? ch#"A" then Some HTTP_PATCH
    else None
  else if index =? 2 then
    if bool_decide (m = HTTP_PUT) then
      if ch =? ch#"R" then Some HTTP_PURGE else None
    else if bool_decide (m = HTTP_UNLOCK) then
      if ch =? ch#"S" then Some HTTP_UNSUBSCRIBE else None
    else None
  else if (index =? 4) && bool_decide (m = HTTP_PROPFIND) && (ch =? ch#"P") then Some HTTP_PROPPATCH
  else None.

(** [case s_req_method]: [matcher[parser->index]] may lie outside the string. *)
Definition on_req_method (e : exec U) (ch : Z) : result U (exec U) :=
  if ch =? 0 then error HPE_INVALID_METHOD e
  else
    let next e := Go (with_pr (fun r => set_index (index r + 1) r) e) in
    m ← lift (mem_read (method_string (method (pr e)) ++ [0]) (index (pr e)) 1);
    let m := znth m 0 in
    if (ch =? ch#" ") && (m =? 0) then next (UPDATE_STATE s_req_spaces_before_url e)
    else if ch =? m then next e
    else
      match switch_method (method (pr e)) (index (pr e)) ch with
      | Some m => next (with_pr (set_method m) e)
      | None => error HPE_INVALID_METHOD e
      end.

(** [UPDATE_STATE(parse_url_char(CURRENT_STATE(), ch))] with the test after it. *)
Definition url_char (e : exec U) (ch : Z) : result U (exec U) :=
  let s := parse_url_char (st e) ch in
  let e := UPDATE_STATE s e in
  match s with s_dead => error HPE_INVALID_URL e | _ => Go e end.

(** [case s_req_spaces_before_url] *)
Definition on_req_spaces_before_url (e : exec U) (ch : Z) : result U (exec U) :=
  if ch =? ch#" " then Go e
  else
    let e := MARK D_url e in
    let e := match method (pr e) with HTTP_CONNECT => UPDATE_STATE s_req_server_start e | _ => e end in
    url_char e ch.

(** [case s_req_schema] to [s_req_server_start] *)
Definition on_req_schema (e : exec U) (ch : Z) : result U (exec U) :=
  if (ch =? ch#" ") || (ch =? CR) || (ch =? LF) then error HPE_INVALID_URL e else url_char e ch.

(** [case s_req_server] to [s_req_fragment] *)
Definition on_req_url (e : exec U) (ch : Z) : result U (exec U) :=
  if ch =? ch#" " then CALLBACK_DATA D_url (UPDATE_STATE s_req_http_start e)
  else if (ch =? CR) || (ch =? LF) then
    let e := with_pr (fun r => set_http_minor 9 (set_http_major 0 r)) e in
    CALLBACK_DATA D_url (UPDATE_STATE (if ch =? CR then s_req_line_almost_done else s_header_field_start) e)
  else url_char e ch.

(** [case s_req_http_start] *)
Definition on_req_http_start (e : exec U) (ch : Z) : result U (exec U) :=
  if ch =? ch#"H" then Go (UPDATE_STATE s_req_http_H e)
  else if ch =? ch#" " then Go e
  else error HPE_INVALID_CONSTANT e.

(** [case s_req_line_almost_done] *)
Definition on_req_line_almost_done (e : exec U) (ch : Z) : result U (exec U) :=
  if negb (ch =? LF) then error HPE_LF_EXPECTED e else Go (UPDATE_STATE s_header_field_start e).

(** ** Header fields *)

(** [case s_header_field_start] *)
Definition first_header_state (c : Z) : header_states :=
  if c =? ch#"c" then h_C
  else if c =? ch#"p" then h_matching_proxy_connection
  else if c =? ch#"t" then h_matching_transfer_encoding
  else if c =? ch#"u" then h_matching_upgrade
  else h_general.

Definition on_header_field_start (e : exec U) (ch : Z) : result U (exec U) :=
  if ch =? CR then Go (UPDATE_STATE s_headers_almost_done e)
  else if ch =? LF then REEXECUTE (UPDATE_STATE s_headers_almost_done e)
  else
    let c := TOKEN ch in
    if c =? 0 then error HPE_INVALID_HEADER_TOKEN e
    else
      let e := MARK D_header_field e in
      let e := UPDATE_STATE s_header_field (with_pr (set_index 0) e) in
      Go (with_pr (set_header_state (first_header_state c)) e).

(** The matchers of a header name: [word] is the name, [next] its state once
    matched. *)
Definition match_name (word : bytes) (next : header_states) (c : Z) (r : http_parser) : http_parser :=
  let r := set_index (index r + 1) r in
  if mismatch word (index r) c then set_header_state h_general r
  else if index r =? zlen word - 1 then set_header_state next r
  else r.

(** The switch inside the loop of [case s_header_field]; [ch] is the byte, [c] its
    token. *)
Definition header_field_char (r : http_parser) (ch c : Z) : outcome http_parser :=
  match header_state r with
  | h_general => Ret r
  | h_C =>
      let r := set_index (index r + 1) r in
      Ret (set_header_state (if c =? ch#"o" then h_CO else h_general) r)
  | h_CO =>
      let r := set_index (index r + 1) r in
      Ret (set_header_state (if c =? ch#"n" then h_CON else h_general) r)
  | h_CON =>
      let r := set_index (index r + 1) r in
      Ret (set_header_state (if c =? ch#"n" then h_matching_connection
                             else if c =? ch#"t" then h_matching_content_length
                             else h_general) r)
  | h_matching_connection => Ret (match_name str#"connection" h_connection c r)
  | h_matching_proxy_connection => Ret (match_name str#"proxy-connection" h_connection c r)
  | h_matching_content_length => Ret (match_name str#"content-length" h_content_length c r)
  | h_matching_transfer_encoding => Ret (match_name str#"transfer-encoding" h_transfer_encoding c r)
  | h_matching_upgrade => Ret (match_name str#"upgrade" h_upgrade c r)
  | h_connection | h_content_length | h_transfer_encoding | h_upgrade =>
      Ret (if negb (ch =? ch#" ") then set_header_state h_general r else r)
  | _ => Fault AssertFail
  end.

(** The loop of [case s_header_field] over the rest of the buffer: where it stops,
    the last byte read, and the parser. *)
Fixpoint header_field_loop (rest : bytes) (p ch : Z) (r : http_parser) : outcome (Z * Z * http_parser) :=
  match rest with
  | [] => Ret (p, ch, r)
  | x :: rest =>
      let c := TOKEN x in
      if c =? 0 then Ret (p, x, r)
      else r ← header_field_char r x c; header_field_loop rest (p + 1) x r
  end.

(** [case s_header_field] *)
Definition on_header_field (e : exec U) (ch : Z) : result U (exec U) :=
  let start := pos e in
  '(p, ch, r) ← lift (header_field_loop (drop (Z.to_nat start) data) start ch (pr e));
  e ← COUNT_HEADER_SIZE (p - start) (with_pr (fun _ => r) (set_pos p e));
  if p =? len then Go (set_pos (p - 1) e)
  else if ch =? ch#":" then CALLBACK_DATA D_header_field (UPDATE_STATE s_header_value_discard_ws e)
  else error HPE_INVALID_HEADER_TOKEN e.

(** ** Header values *)

(** [case s_header_value_start] *)
Definition on_header_value_start (e : exec U) (ch : Z) : result U (exec U) :=
  let e := MARK D_header_value e in
  let e := with_pr (set_index 0) (UPDATE_STATE s_header_value e) in
  let c := LOWER ch in
  let to h e := Go (with_pr (set_header_state h) e) in
  match header_state (pr e) with
  | h_upgrade => to h_general (with_pr (or_flags F_UPGRADE) e)
  | h_transfer_encoding => to (if ch#"c" =? c then h_matching_transfer_encoding_chunked else h_general) e
  | h_content_length =>
      if negb (IS_NUM ch) then error HPE_INVALID_CONTENT_LENGTH e
      else Go (with_pr (set_content_length (ch - ch#"0")) e)
  | h_connection =>
      to (if c =? ch#"k" then h_matching_connection_keep_alive
          else if c =? ch#"c" then h_matching_connection_close
          else if c =? ch#"u" then h_matching_connection_upgrade
          else h_matching_connection_token) e
  | h_matching_connection_token_start => Go e
  | _ => to h_general e
  end.

(** [case s_header_value_discard_ws], which falls through. *)
Definition on_header_value_discard_ws (e : exec U) (ch : Z) : result U (exec U) :=
  if (ch =? ch#" ") || (ch =? 9) then Go e
  else if ch =? CR then Go (UPDATE_STATE s_header_value_discard_ws_almost_done e)
  else if ch =? LF then Go (UPDATE_STATE s_header_value_discard_lws e)
  else on_header_value_start e ch.

(** The [h_general] case of the loop: where the next CR or LF is, or the end of
    the buffer when there is none within [HTTP_MAX_HEADER_SIZE] bytes. *)
Definition skip_general (p : Z) : Z :=
  let l := take (Z.to_nat (Z.min (len - p) HTTP_MAX_HEADER_SIZE)) (drop (Z.to_nat p) data) in
  match memchr CR l p, memchr LF l p with
  | Some p_cr, Some p_lf => if p_lf <=? p_cr then p_lf else p_cr
  | Some p_cr, None => p_cr
  | None, Some p_lf => p_lf
  | None, None => len
  end.

(** The matchers of a header value; [otherwise] is the state on a mismatch. *)
Definition match_value (word : bytes) (next otherwise h : header_states) (c : Z) (e : exec U)
    : result U (header_states * exec U) :=
  let e := with_pr (fun r => set_index (index r + 1) r) e in
  Go (if mismatch word (index (pr e)) c then otherwise
      else if index (pr e) =? zlen word - 1 then next else h, e).

(** The digits of a Content-Length in the loop of [case s_header_value]. *)
Definition content_length_char (h : header_states) (e : exec U) (ch : Z) : result U (header_states * exec U) :=
  if ch =? ch#" " then Go (h, e)
  else
    let e_h := with_pr (fun r => set_header_state h r) in
    if negb (IS_NUM ch) then error HPE_INVALID_CONTENT_LENGTH (e_h e)
    else
      let t := u64 (u64 (content_length (pr e) * 10) + (ch - ch#"0")) in
      if (ULLONG_MAX - 10) / 10 <? content_length (pr e) then error HPE_INVALID_CONTENT_LENGTH (e_h e)
      else Go (h, with_pr (set_content_length t) e).

(** The flag a completed token of a Connection header sets. *)
Definition connection_flag (h : header_states) : Z :=
  match h with
  | h_connection_keep_alive => F_CONNECTION_KEEP_ALIVE
  | h_connection_close => F_CONNECTION_CLOSE
  | h_connection_upgrade => F_CONNECTION_UPGRADE
  | _ => 0
  end.

(** The switch inside the loop of [case s_header_value]; [h] is [h_state]. *)
Definition header_value_char (h : header_states) (e : exec U) (ch : Z) : result U (header_states * exec U) :=
  let c := LOWER ch in
  match h with
  | h_general => Go (h, set_pos (skip_general (pos e) - 1) e)
  | h_connection | h_transfer_encoding => Crash AssertFail
  | h_content_length => content_length_char h e ch
  | h_matching_transfer_encoding_chunked =>
      match_value str#"chunked" h_transfer_encoding_chunked h_general h c e
  | h_matching_connection_token_start =>
      Go (if c =? ch#"k" then h_matching_connection_keep_alive
          else if c =? ch#"c" then h_matching_connection_close
          else if c =? ch#"u" then h_matching_connection_upgrade
          else if negb (STRICT_TOKEN c =? 0) then h_matching_connection_token
          else h_general, e)
  | h_matching_connection_keep_alive =>
      match_value str#"keep-alive" h_connection_keep_alive h_matching_connection_token h c e
  | h_matching_connection_close =>
      match_value str#"close" h_connection_close h_matching_connection_token h c e
  | h_matching_connection_upgrade =>
      match_value str#"upgrade" h_connection_upgrade h_matching_connection_token h c e
  | h_matching_connection_token =>
      Go (if ch =? ch#"," then (h_matching_connection_token_start, with_pr (set_index 0) e) else (h, e))
  | h_transfer_encoding_chunked => Go (if negb (ch =? ch#" ") then h_general else h, e)
  | h_connection_keep_alive | h_connection_close | h_connection_upgrade =>
      Go (if ch =? ch#"," then
            (h_matching_connection_token_start, with_pr (fun r => set_index 0 (or_flags (connection_flag h) r)) e)
          else if negb (ch =? ch#" ") then (h_matching_connection_token, e)
          else (h, e))
  | _ => Go (h_general, UPDATE_STATE s_header_value e)
  end.

(** The loop of [case s_header_value].  On LF, [REEXECUTE] leaves this loop and
    not the switch, so what follows the loop runs as well. *)
Fixpoint header_value_loop (fuel : nat) (start : Z) (h : header_states) (e : exec U)
    : result U (header_states * exec U) :=
  if pos e =? len then Go (h, e)
  else
    match fuel with
    | O => Crash OutOfFuel
    | S fuel =>
        c ← lift (mem_read data (pos e) 1);
        let ch := znth c 0 in
        if ch =? CR then
          let e := with_pr (set_header_state h) (UPDATE_STATE s_header_almost_done e) in
          e ← CALLBACK_DATA D_header_value e;
          Go (h, e)
        else if ch =? LF then
          e ← COUNT_HEADER_SIZE (pos e - start) (UPDATE_STATE s_header_almost_done e);
          e ← CALLBACK_DATA_NOADVANCE D_header_value (with_pr (set_header_state h) e);
          Go (h, set_pos (pos e - 1) e)
        else
          '(h, e) ← header_value_char h e ch;
          header_value_loop fuel start h (set_pos (pos e + 1) e)
    end.

(** [case s_header_value] *)
Definition on_header_value (e : exec U) (ch : Z) : result U (exec U) :=
  let start := pos e in
  '(h, e) ← header_value_loop (length data) start (header_state (pr e)) e;
  e ← COUNT_HEADER_SIZE (pos e - start) (with_pr (set_header_state h) e);
  Go (if pos e =? len then set_pos (pos e - 1) e else e).

(** The flag a completed header sets, at the end of the header. *)
Definition finish_flag (h : header_states) : Z :=
  match h with
  | h_transfer_encoding_chunked => F_CHUNKED
  | _ => connection_flag h
  end.
Definition finish_header (r : http_parser) : http_parser :=
  match finish_flag (header_state r) with
  | 0 => r
  | f => or_flags f r
  end.

(** [case s_header_value_lws] *)
Definition on_header_value_lws (e : exec U) (ch : Z) : result U (exec U) :=
  if (ch =? ch#" ") || (ch =? 9) then REEXECUTE (UPDATE_STATE s_header_value_start e)
  else REEXECUTE (UPDATE_STATE s_header_field_start (with_pr finish_header e)).

(** [case s_header_value_discard_lws] *)
Definition on_header_value_discard_lws (e : exec U) (ch : Z) : result U (exec U) :=
  if (ch =? ch#" ") || (ch =? 9) then Go (UPDATE_STATE s_header_value_discard_ws e)
  else
    let e := MARK D_header_value (with_pr finish_header e) in
    e ← CALLBACK_DATA_NOADVANCE D_header_value (UPDATE_STATE s_header_field_start e);
    REEXECUTE e.

(** ** End of the headers *)

(** [case s_headers_almost_done]: [on_headers_complete] is called outside the
    macros; its result 1 asks for [F_SKIPBODY]. *)
Definition on_headers_almost_done (e : exec U) (ch : Z) : result U (exec U) :=
  STRICT_CHECK (negb (ch =? LF)) e (
    if has_flag F_TRAILING (pr e) then
      CALLBACK_NOTIFY N_message_complete (UPDATE_STATE (NEW_MESSAGE (pr e)) e)
    else
      let e := UPDATE_STATE s_headers_done e in
      let both := Z.lor F_UPGRADE F_CONNECTION_UPGRADE in
      let up := (Z.land (flags (pr e)) both =? both) || bool_decide (method (pr e) = HTTP_CONNECT) in
      let e := with_pr (set_upgrade up) e in
      e ← match on_notify cfg N_headers_complete with
          | None => Go e
          | Some f =>
              let rep := f (pr e) (usr e) in
              let r := if paused rep then set_errno HPE_PAUSED (pr e) else pr e in
              let e := Exec r (st e) (pos e) (mk e) (user rep) in
              if code rep =? 0 then Go e
              else if code rep =? 1 then Go (with_pr (or_flags F_SKIPBODY) e)
              else RETURN (pos e) (with_pr (set_errno HPE_CB_headers_complete) e)
          end;
      if is_ok (errno (pr e)) then REEXECUTE e else RETURN (pos e) e).

(** [UPDATE_STATE(NEW_MESSAGE()); CALLBACK_NOTIFY(message_complete);] *)
Definition complete (e : exec U) : result U (exec U) :=
  CALLBACK_NOTIFY N_message_complete (UPDATE_STATE (NEW_MESSAGE (pr e)) e).

(** [case s_headers_done] *)
Definition on_headers_done (e : exec U) (ch : Z) : result U (exec U) :=
  STRICT_CHECK (negb (ch =? LF)) e (
    let e := with_pr (set_nread 0) e in
    if upgrade (pr e) then e ← complete e; RETURN (pos e + 1) e
    else if has_flag F_SKIPBODY (pr e) then complete e
    else if has_flag F_CHUNKED (pr e) then Go (UPDATE_STATE s_chunk_size_start e)
    else if content_length (pr e) =? 0 then complete e
    else if negb (content_length (pr e) =? ULLONG_MAX) then Go (UPDATE_STATE s_body_identity e)
    else if bool_decide (type (pr e) = HTTP_REQUEST) || negb (http_message_needs_eof (pr e)) then complete e
    else Go (UPDATE_STATE s_body_identity_eof e)).

(** ** Bodies *)

Definition body_length_ok (r : http_parser) : bool :=
  negb (content_length r =? 0) && negb (content_length r =? ULLONG_MAX).

(** The common part of [s_body_identity] and [s_chunk_data]: the mark, the
    remaining length, and [p] on the last byte of the body at hand. *)
Definition take_body (e : exec U) : exec U :=
  let to_read := Z.min (content_length (pr e)) (len - pos e) in
  let e := MARK D_body e in
  set_pos (pos e + (to_read - 1)) (with_pr (fun r => set_content_length (content_length r - to_read) r) e).

(** [case s_body_identity] *)
Definition on_body_identity (e : exec U) (ch : Z) : result U (exec U) :=
  assert_ (body_length_ok (pr e)) (
    let e := take_body e in
    if content_length (pr e) =? 0 then
      e ← CALLBACK_DATA_ D_body (fun m => pos e - m + 1) (pos e) (UPDATE_STATE s_message_done e);
      REEXECUTE e
    else Go e).

(** [case s_body_identity_eof], [case s_message_done] *)
Definition on_body_identity_eof (e : exec U) (ch : Z) : result U (exec U) :=
  Go (set_pos (len - 1) (MARK D_body e)).
Definition on_message_done (e : exec U) (ch : Z) : result U (exec U) := complete e.

(** ** Chunks *)

(** [case s_chunk_size_start] *)
Definition on_chunk_size_start (e : exec U) (ch : Z) : result U (exec U) :=
  assert_ (nread (pr e) =? 1) (
  assert_ (has_flag F_CHUNKED (pr e)) (
    let unhex_val := elem unhex ch in
    if unhex_val =? -1 then error HPE_INVALID_CHUNK_SIZE e
    else Go (UPDATE_STATE s_chunk_size (with_pr (set_content_length unhex_val) e)))).

(** [case s_chunk_size] *)
Definition on_chunk_size (e : exec U) (ch : Z) : result U (exec U) :=
  assert_ (has_flag F_CHUNKED (pr e)) (
    if ch =? CR then Go (UPDATE_STATE s_chunk_size_almost_done e)
    else
      let unhex_val := elem unhex ch in
      if unhex_val =? -1 then
        if (ch =? ch#";") || (ch =? ch#" ") then Go (UPDATE_STATE s_chunk_parameters e)
        else error HPE_INVALID_CHUNK_SIZE e
      else
        let t := u64 (u64 (content_length (pr e) * 16) + unhex_val) in
        if (ULLONG_MAX - 16) / 16 <? content_length (pr e) then error HPE_INVALID_CONTENT_LENGTH e
        else Go (with_pr (set_content_length t) e)).

(** [case s_chunk_parameters] *)
Definition on_chunk_parameters (e : exec U) (ch : Z) : result U (exec U) :=
  assert_ (has_flag F_CHUNKED (pr e))
    (if ch =? CR then Go (UPDATE_STATE s_chunk_size_almost_done e) else Go e).

(** [case s_chunk_size_almost_done] *)
Definition on_chunk_size_almost_done (e : exec U) (ch : Z) : result U (exec U) :=
  assert_ (has_flag F_CHUNKED (pr e)) (
    STRICT_CHECK (negb (ch =? LF)) e (
      let e := with_pr (set_nread 0) e in
      if content_length (pr e) =? 0 then
        Go (UPDATE_STATE s_header_field_start (with_pr (or_flags F_TRAILING) e))
      else Go (UPDATE_STATE s_chunk_data e))).

(** [case s_chunk_data] *)
Definition on_chunk_data (e : exec U) (ch : Z) : result U (exec U) :=
  assert_ (has_flag F_CHUNKED (pr e)) (
  assert_ (body_length_ok (pr e)) (
    let e := take_body e in
    Go (if content_length (pr e) =? 0 then UPDATE_STATE s_chunk_data_almost_done e else e))).

(** [case s_chunk_data_almost_done] *)
Definition on_chunk_data_almost_done (e : exec U) (ch : Z) : result U (exec U) :=
  assert_ (has_flag F_CHUNKED (pr e)) (
  assert_ (content_length (pr e) =? 0) (
    STRICT_CHECK (negb (ch =? CR)) e (CALLBACK_DATA D_body (UPDATE_STATE s_chunk_data_done e)))).

(** [case s_chunk_data_done] *)
Definition on_chunk_data_done (e : exec U) (ch : Z) : result U (exec U) :=
  assert_ (has_flag F_CHUNKED (pr e)) (
    STRICT_CHECK (negb (ch =? LF)) e (Go (UPDATE_STATE s_chunk_size_start (with_pr (set_nread 0) e)))).

(** * The loop *)

(** The switch over [CURRENT_STATE()]. *)
Definition dispatch (e : exec U) (ch : Z) : result U (exec U) :=
  match st e with
  | s_dead => on_dead e ch
  | s_start_req_or_res => on_start_req_or_res e ch
  | s_res_or_resp_H => on_res_or_resp_H e ch
  | s_start_res => on_start_res e ch
  | s_res_H => expect ch#"T" s_res_HT e ch
  | s_res_HT => expect ch#"T" s_res_HTT e ch
  | s_res_HTT => expect ch#"P" s_res_HTTP e ch
  | s_res_HTTP => expect ch#"/" s_res_first_http_major e ch
  | s_res_first_http_major => on_res_first_http_major e ch
  | s_res_http_major => on_res_http_major e ch
  | s_res_first_http_minor => on_first_http_minor s_res_http_minor e ch
  | s_res_http_minor => on_res_http_minor e ch
  | s_res_first_status_code => on_res_first_status_code e ch
  | s_res_status_code => on_res_status_code e ch
  | s_res_status_start => on_res_status_start e ch
  | s_res_status => on_res_status e ch
  | s_res_line_almost_done => expect LF s_header_field_start e ch
  | s_start_req => on_start_req e ch
  | s_req_method => on_req_method e ch
  | s_req_spaces_before_url => on_req_spaces_before_url e ch
  | s_req_schema | s_req_schema_slash | s_req_schema_slash_slash | s_req_server_start => on_req_schema e ch
  | s_req_server | s_req_server_with_at | s_req_path | s_req_query_string_start | s_req_query_string
  | s_req_fragment_start | s_req_fragment => on_req_url e ch
  | s_req_http_start => on_req_http_start e ch
  | s_req_http_H => expect ch#"T" s_req_http_HT e ch
  | s_req_http_HT => expect ch#"T" s_req_http_HTT e ch
  | s_req_http_HTT => expect ch#"P" s_req_http_HTTP e ch
  | s_req_http_HTTP => expect ch#"/" s_req_first_http_major e ch
  | s_req_first_http_major => on_req_first_http_major e ch
  | s_req_http_major => on_req_http_major e ch
  | s_req_first_http_minor => on_first_http_minor s_req_http_minor e ch
  | s_req_http_minor => on_req_http_minor e ch
  | s_req_line_almost_done => on_req_line_almost_done e ch
  | s_header_field_start => on_header_field_start e ch
  | s_header_field => on_header_field e ch
  | s_header_value_discard_ws => on_header_value_discard_ws e ch
  | s_header_value_discard_ws_almost_done => expect LF s_header_value_discard_lws e ch
  | s_header_value_discard_lws => on_header_value_discard_lws e ch
  | s_header_value_start => on_header_value_start e ch
  | s_header_value => on_header_value e ch
  | s_header_value_lws => on_header_value_lws e ch
  | s_header_almost_done => expect LF s_header_value_lws e ch
  | s_chunk_size_start => on_chunk_size_start e ch
  | s_chunk_size => on_chunk_size e ch
  | s_chunk_parameters => on_chunk_parameters e ch
  | s_chunk_size_almost_done => on_chunk_size_almost_done e ch
  | s_headers_almost_done => on_headers_almost_done e ch
  | s_headers_done => on_headers_done e ch
  | s_chunk_data => on_chunk_data e ch
  | s_chunk_data_almost_done => on_chunk_data_almost_done e ch
  | s_chunk_data_done => on_chunk_data_done e ch
  | s_body_identity => on_body_identity e ch
  | s_body_identity_eof => on_body_identity_eof e ch
  | s_message_done => on_message_done e ch
  end.

(** One round of the loop, its [p++] included. *)
Definition round (e : exec U) : result U (exec U) :=
  c ← lift (mem_read data (pos e) 1);
  e ← (if PARSING_HEADER (st e) then COUNT_HEADER_SIZE 1 e else Go e);
  e ← dispatch e (znth c 0);
  Go (set_pos (pos e + 1) e).

Fixpoint loop (fuel : nat) (e : exec U) : result U (exec U) :=
  if pos e =? len then Go e
  else match fuel with
       | O => Crash OutOfFuel
       | S fuel => e ← round e; loop fuel e
       end.

(** The marks a call starts with. *)
Definition initial_marks (s : state) : marks :=
  match s with
  | s_header_field => put_mark D_header_field (Some 0) no_marks
  | s_header_value => put_mark D_header_value (Some 0) no_marks
  | s_req_path | s_req_schema | s_req_schema_slash | s_req_schema_slash_slash | s_req_server_start
  | s_req_server | s_req_server_with_at | s_req_query_string_start | s_req_query_string
  | s_req_fragment_start | s_req_fragment => put_mark D_url (Some 0) no_marks
  | s_res_status => put_mark D_status (Some 0) no_marks
  | _ => no_marks
  end.

Definition mark_count (m : marks) : Z :=
  let n o := match o : option Z with Some _ => 1 | None => 0 end in
  n (header_field_mark m) + n (header_value_mark m) + n (url_mark m) + n (body_mark m) + n (status_mark m).

(** The callbacks for the marks left at the end of the buffer. *)
Definition flush_marks (e : exec U) : result U (exec U) :=
  assert_ (mark_count (mk e) <=? 1) (
    e ← CALLBACK_DATA_NOADVANCE D_header_field e;
    e ← CALLBACK_DATA_NOADVANCE D_header_value e;
    e ← CALLBACK_DATA_NOADVANCE D_url e;
    e ← CALLBACK_DATA_NOADVANCE D_body e;
    CALLBACK_DATA_NOADVANCE D_status e).

(** A byte takes at most four rounds: the last header line's, the end of the
    headers', and the two of the empty line. *)
Definition loop_fuel : nat := 4 * length data.

Definition execute_body (r : http_parser) (u : U) : result U (exec U) :=
  let e := Exec r (pstate r) 0 (initial_marks (pstate r)) u in
  if negb (is_ok (errno r)) then Return 0 r u
  else if len =? 0 then
    match pstate r with
    | s_body_identity_eof =>
        e ← CALLBACK_NOTIFY_NOADVANCE N_message_complete e;
        Return 0 (pr e) (usr e)
    | s_dead | s_start_req_or_res | s_start_res | s_start_req => Return 0 r u
    | _ => Return 1 (set_errno HPE_INVALID_EOF_STATE r) u
    end
  else
    e ← loop loop_fuel e;
    e ← flush_marks e;
    RETURN len e.
End Execute.

(** [http_parser_execute]: the number it returns, the parser and the
    application's state. *)
Definition http_parser_execute {U} (cfg : settings U) (r : http_parser) (data : bytes) (u : U)
    : outcome (Z * http_parser * U) :=
  match execute_body cfg data r u with
  | Return n r u => Ret (n, r, u)
  | Crash f => Fault f
  | Go e => Ret (len data, pr e, usr e)
  end.
