(* ===== verification/HttpSafety.v ===== *)
(** What [http_parser_execute] never does: fail one of its assertions, read
    outside the buffer or its tables, run on, or report more than it was given.
    The invariant of its loop, and the preservation of it by every case. *)
From Stdlib Require Import ZArith Lia Bool Ascii String.
From stdpp Require Import base list numbers strings.
From S2P Require Import Prelude HttpTypes HttpUrl HttpParser.

Open Scope Z_scope.

(** * The invariant *)

Definition is_field_state (h : header_states) : bool :=
  match h with
  | h_general | h_C | h_CO | h_CON | h_matching_connection | h_matching_proxy_connection
  | h_matching_content_length | h_matching_transfer_encoding | h_matching_upgrade
  | h_connection | h_content_length | h_transfer_encoding | h_upgrade => true
  | _ => false
  end.

Definition is_value_state (h : header_states) : bool :=
  match h with h_connection | h_transfer_encoding => false | _ => true end.

(** What a state demands of the parser; [n] is the value of [nread] at the start
    of a chunk size. *)
Definition state_ok (n : Z) (s : state) (r : http_parser) : Prop :=
  match s with
  | s_header_field => is_field_state (header_state r) = true
  | s_header_value => is_value_state (header_state r) = true
  | s_req_method => 0 <= index r <= zlen (method_string (method r))
  | s_chunk_size_start => has_flag F_CHUNKED r = true /\ nread r = n
  | s_chunk_size | s_chunk_parameters | s_chunk_size_almost_done =>
      has_flag F_CHUNKED r = true /\ content_length r < ULLONG_MAX
  | s_chunk_data => has_flag F_CHUNKED r = true /\ 0 < content_length r < ULLONG_MAX
  | s_chunk_data_almost_done => has_flag F_CHUNKED r = true /\ content_length r = 0
  | s_chunk_data_done => has_flag F_CHUNKED r = true
  | s_body_identity => 0 < content_length r < ULLONG_MAX
  | _ => True
  end.

(** The ranges of the 64-bit length and of the header counter. *)
Definition widths_ok (r : http_parser) : Prop :=
  0 <= content_length r <= ULLONG_MAX /\ 0 <= nread r <= HTTP_MAX_HEADER_SIZE.

(** In which states a mark may be set. *)
Definition mark_state (k : data_cb) (s : state) : bool :=
  match k, s with
  | D_url, (s_req_schema | s_req_schema_slash | s_req_schema_slash_slash | s_req_server_start | s_req_server
           | s_req_server_with_at | s_req_path | s_req_query_string_start | s_req_query_string
           | s_req_fragment_start | s_req_fragment) => true
  | D_status, s_res_status => true
  | D_header_field, s_header_field => true
  | D_header_value, s_header_value => true
  | D_body, (s_body_identity | s_chunk_data | s_chunk_data_almost_done | s_body_identity_eof) => true
  | _, _ => false
  end.

Definition marks_ok (m : marks) (p : Z) (s : state) : Prop :=
  forall k v, get_mark k m = Some v -> 0 <= v <= p /\ mark_state k s = true.

(** How often a state may look at its byte again. *)
Definition rank (s : state) : Z :=
  match s with
  | s_header_value_lws | s_header_value_discard_lws => 3
  | s_header_field_start => 2
  | s_headers_almost_done | s_header_value | s_body_identity | s_start_req_or_res => 1
  | _ => 0
  end.

(** What a parser looks like between calls, unless it is in error. *)
Definition parser_ok (r : http_parser) : Prop :=
  errno r = HPE_OK \/ errno r = HPE_PAUSED -> widths_ok r /\ state_ok 0 (pstate r) r.

Section Safety.
Context {U : Type} (cfg : settings U) (data : bytes).
Abbreviation len := (len data).

Definition inv (n : Z) (e : exec U) : Prop :=
  errno (pr e) = HPE_OK /\ widths_ok (pr e) /\ state_ok n (st e) (pr e) /\
  marks_ok (mk e) (pos e) (st e) /\ 0 <= pos e <= len.

Definition safe {A} (Q : A -> Prop) (m : result U A) : Prop :=
  match m with
  | Go a => Q a
  | Return n r _ => 0 <= n <= len /\ parser_ok r
  | Crash _ => False
  end.

(** What a case leaves to the [p++] of the loop: the invariant holds there, and
    either [p] advanced or the state's rank dropped. *)
Definition post (p : Z) (s : state) (e : exec U) : Prop :=
  inv 0 (set_pos (pos e + 1) e) /\ (p <= pos e \/ (pos e + 1 = p /\ rank (st e) < rank s)).

Lemma safe_bind {A B} (P : A -> Prop) (Q : B -> Prop) (m : result U A) (k : A -> result U B) :
  safe P m -> (forall a, P a -> safe Q (k a)) -> safe Q (m ≫= k).
Proof. destruct m; simpl; auto. Qed.

Lemma safe_mono {A} (P Q : A -> Prop) (m : result U A) : safe P m -> (forall a, P a -> Q a) -> safe Q m.
Proof. destruct m; simpl; auto. Qed.

Lemma is_ok_true r : errno r = HPE_OK -> is_ok (errno r) = true.
Proof. intros ->. done. Qed.

(** ** The macros *)
Definition fatal (err : http_errno) : bool := match err with HPE_OK | HPE_PAUSED => false | _ => true end.

Lemma safe_error {A} (Q : A -> Prop) err (e : exec U) :
  fatal err = true -> 0 <= pos e <= len -> safe Q (error err e).
Proof.
  intros He Hp. unfold error, goto_error, RETURN, with_pr. cbn [pr st pos mk usr].
  assert (is_ok (errno (set_errno err (pr e))) = false) as -> by (by destruct err).
  cbn [safe pr st pos]. split; [done|]. unfold parser_ok. cbn. intros [->| ->]; done.
Qed.

Lemma safe_count v (e : exec U) :
  widths_ok (pr e) ->
  (HTTP_MAX_HEADER_SIZE < u32 (nread (pr e) + v) -> 0 <= pos e <= len) ->
  safe (fun e' => e' = with_pr (fun r => set_nread (nread r + v) r) e /\ widths_ok (pr e')) (COUNT_HEADER_SIZE v e).
Proof.
  intros Hw Hp. unfold COUNT_HEADER_SIZE. cbn [with_pr pr set_nread nread].
  destruct (Z.ltb_spec HTTP_MAX_HEADER_SIZE (u32 (nread (pr e) + v))).
  - apply safe_error; [done|]. by apply Hp.
  - cbn [safe]. split; [done|]. destruct Hw. split; cbn; [done|].
    pose proof (uwrap_range 32 (nread (pr e) + v)). lia.
Qed.

Lemma widths_set_pstate s r : widths_ok (set_pstate s r) = widths_ok r.
Proof. done. Qed.
Lemma state_ok_set_pstate n s s' r : state_ok n s (set_pstate s' r) = state_ok n s r.
Proof. by destruct s. Qed.

(** What a callback may change of the call's state. *)
Definition same (e e' : exec U) : Prop :=
  st e' = st e /\ pos e' = pos e /\ mk e' = mk e /\ exists s, pr e' = set_pstate s (pr e).

Lemma same_refl e : same e e.
Proof. split_and!; [done..|]. exists (pstate (pr e)). by destruct (pr e). Qed.

Lemma safe_after_callback er err rep (e : exec U) :
  fatal err = true -> errno (pr e) = HPE_OK -> widths_ok (pr e) -> state_ok 0 (st e) (pr e) ->
  0 <= er <= len -> safe (same e) (after_callback er err rep e).
Proof.
  intros Hf Ho Hw Hs Her. unfold after_callback.
  set (r1 := set_pstate (st e) (pr e)).
  set (r2 := if paused rep then set_errno HPE_PAUSED r1 else r1).
  set (r3 := if negb (code rep =? 0) then set_errno err r2 else r2).
  assert (exists x, r3 = set_errno x r1 /\ (x = HPE_OK \/ x = HPE_PAUSED \/ fatal x = true)) as (x & -> & Hx).
  { assert (set_errno HPE_OK r1 = r1) as E1 by (unfold r1; destruct (pr e); simpl in *; by subst).
    unfold r3, r2. destruct (negb _), (paused rep); [exists err|exists err|exists HPE_PAUSED|exists HPE_OK];
      (split; [done|]); auto. }
  destruct (is_ok _) eqn:E.
  - unfold is_ok in E. apply bool_decide_eq_true in E. simpl in E. subst x. cbn [safe].
    split_and!; [done..|]. exists (st e). unfold r1. cbn [pr]. destruct (pr e); simpl in *. by subst.
  - cbn [safe]. split; [done|]. intros _. split; [done|].
    change (pstate (set_errno x r1)) with (st e). unfold r1. by destruct (st e).
Qed.

Lemma safe_notify k er (e : exec U) :
  errno (pr e) = HPE_OK -> widths_ok (pr e) -> state_ok 0 (st e) (pr e) ->
  0 <= er <= len -> safe (same e) (CALLBACK_NOTIFY_ cfg k er e).
Proof.
  intros Ho Hw Hs Her. unfold CALLBACK_NOTIFY_, assert_. rewrite is_ok_true by done.
  destruct (on_notify cfg k); [|apply same_refl]. apply safe_after_callback; try done. by destruct k.
Qed.

Lemma safe_data k n er (e : exec U) :
  errno (pr e) = HPE_OK -> widths_ok (pr e) -> state_ok 0 (st e) (pr e) ->
  0 <= er <= len -> (forall m, get_mark k (mk e) = Some m -> 0 <= m /\ 0 <= n m /\ m + n m <= len) ->
  safe (fun e' => same (with_mk (put_mark k None) e) e') (CALLBACK_DATA_ cfg data k n er e).
Proof.
  intros Ho Hw Hs Her Hm. unfold CALLBACK_DATA_, assert_. rewrite is_ok_true by done.
  destruct (get_mark k (mk e)) as [m|] eqn:Em.
  - destruct (Hm m eq_refl) as (H1 & H2 & H3).
    apply (safe_bind (same e)).
    + destruct (on_data cfg k); [|apply same_refl]. rewrite mem_read_ok by done.
      cbn [lift mbind result_bind]. apply safe_after_callback; try done. by destruct k.
    + intros e' (E1 & E2 & E3 & s & E4). cbn [safe]. split_and!; cbn; rewrite ?E1, ?E2, ?E3; try done. by exists s.
  - cbn [safe]. assert (with_mk (put_mark k None) e = e) as ->; [|apply same_refl].
    destruct e as [r s p [a b c d f] u]. by destruct k; simpl in *; subst.
Qed.

(** ** Establishing the invariant after a case *)
Lemma post_advance s0 (e : exec U) :
  errno (pr e) = HPE_OK -> widths_ok (pr e) -> state_ok 0 (st e) (pr e) ->
  marks_ok (mk e) (pos e + 1) (st e) -> -1 <= pos e < len -> post (pos e) s0 e.
Proof.
  intros. split; [|left; lia]. split_and!; cbn; try done; lia.
Qed.

Lemma marks_none m p s p' s' :
  marks_ok m p s -> (forall k, mark_state k s = false) -> marks_ok m p' s'.
Proof. intros H Hk k v E. apply H in E as [_ E]. by rewrite Hk in E. Qed.

Lemma marks_move m p s p' s' :
  marks_ok m p s -> (forall k, mark_state k s = true -> mark_state k s' = true) -> p <= p' ->
  marks_ok m p' s'.
Proof. intros H Hk Hle k v E. apply H in E as [? E]. split; [lia|]. by apply Hk. Qed.

Lemma marks_mark k m p s p' s' :
  marks_ok m p s -> (forall k, mark_state k s = true -> mark_state k s' = true) ->
  mark_state k s' = true -> 0 <= p <= p' ->
  marks_ok (match get_mark k m with None => put_mark k (Some p) m | Some _ => m end) p' s'.
Proof.
  intros H Hk Hs Hp. destruct (get_mark k m) eqn:E; [by apply (marks_move m p s); try lia|].
  intros k' v E'. destruct (decide (k' = k)) as [->|Hne].
  - assert (v = p) as -> by (destruct m, k; simpl in *; congruence). by split; [lia|].
  - assert (get_mark k' m = Some v) as E2 by (destruct m, k, k'; simpl in *; congruence).
    apply H in E2 as [? E2]. split; [lia|]. by apply Hk.
Qed.

(** A cleared mark leaves none. *)
Lemma marks_cleared k m p s p' s' :
  marks_ok m p s -> (forall k', mark_state k' s = true -> k' = k) ->
  marks_ok (put_mark k None m) p' s'.
Proof.
  intros H Hk k' v E. assert (k' <> k /\ get_mark k' m = Some v) as [Hne E2].
  { split; [intros ->|]; destruct m, k; try destruct k'; simpl in *; congruence. }
  apply H in E2 as [_ E2]. by apply Hk in E2.
Qed.

Lemma MARK_eq k (e : exec U) :
  MARK k e = Exec (pr e) (st e) (pos e)
    (match get_mark k (mk e) with None => put_mark k (Some (pos e)) (mk e) | Some _ => mk e end) (usr e).
Proof. unfold MARK. destruct e; cbn. by destruct (get_mark k _). Qed.

(** ** The cases *)
Definition pre (e : exec U) : Prop :=
  inv 1 e /\ pos e < len /\ (PARSING_HEADER (st e) = true -> 1 <= nread (pr e)).

Lemma widths_set_content_length v r : widths_ok r -> widths_ok (set_content_length v r).
Proof.
  intros [_ H]. split; [|done]. cbn. pose proof (uwrap_range 64 v). unfold ULLONG_MAX. lia.
Qed.
Lemma widths_set_nread_0 r : widths_ok r -> widths_ok (set_nread 0 r).
Proof. intros [H _]. split; [done|]. cbn. unfold HTTP_MAX_HEADER_SIZE. change (u32 0) with 0. lia. Qed.

Lemma post_callback (e e' : exec U) p s :
  same e e' -> errno (pr e) = HPE_OK -> widths_ok (pr e) -> state_ok 0 (st e) (pr e) ->
  marks_ok (mk e) (p + 1) (st e) -> pos e = p -> -1 <= p < len -> post p s e'.
Proof.
  intros (E1 & E2 & E3 & x & E4) Ho Hw Hs Hm Hp Hl. split; [|left; lia].
  split_and!; cbn; rewrite ?E1, ?E2, ?E3, ?E4; try done; try lia.
  by rewrite Hp.
Qed.

Ltac open_pre H Hs :=
  destruct H as [(Ho & Hw & Hst & Hm & Hp) [Hlt Hnr]]; rewrite Hs in Hst, Hm; cbn in Hst.

(** Side conditions: widths, the state's demand, the marks. *)
Ltac side :=
  cbn; try match goal with E : st _ = _ |- _ => rewrite !E end; cbn; try done; try lia;
  repeat (apply widths_set_content_length || apply widths_set_nread_0); try done;
  try (eapply marks_none; [eassumption|by intros []]);
  try (eapply marks_move; [eassumption|by intros []|lia]);
  try (first [eapply (marks_mark D_url) | eapply (marks_mark D_status) | eapply (marks_mark D_header_field)
             | eapply (marks_mark D_header_value) | eapply (marks_mark D_body)];
       [eassumption|by intros []|done|lia]).

Ltac leaf :=
  lazymatch goal with
  | |- safe _ (error _ _) => apply safe_error; side
  | |- safe _ (Go ?e) => apply (post_advance _ e); side
  end.

Ltac cases :=
  repeat match goal with
    | |- safe _ (if ?b then _ else _) => destruct b eqn:?
    end.

Section Cases.
Context (e : exec U) (ch : Z) (H : pre e).

Lemma expect_safe c next s :
  st e = s -> (forall k, mark_state k s = false) -> state_ok 0 next (pr e) ->
  safe (post (pos e) s) (expect c next e ch).
Proof using H.
  intros Hs Hk Hn. open_pre H Hs. unfold expect, STRICT_CHECK. cases; [leaf|].
  apply (post_advance _ (UPDATE_STATE next e)); side.
Qed.

Lemma dead_safe : st e = s_dead -> safe (post (pos e) s_dead) (on_dead e ch).
Proof using H. intros Hs. open_pre H Hs. unfold on_dead. cases; leaf. Qed.

Lemma reset_widths r : widths_ok r -> widths_ok (reset_message r).
Proof using. intros. by apply widths_set_content_length. Qed.

Lemma start_req_or_res_safe :
  st e = s_start_req_or_res -> safe (post (pos e) s_start_req_or_res) (on_start_req_or_res cfg e ch).
Proof using H.
  intros Hs. open_pre H Hs. unfold on_start_req_or_res. cases.
  - leaf.
  - unfold CALLBACK_NOTIFY. eapply safe_mono; [apply safe_notify; side|].
    intros e' Hsame. eapply post_callback; [exact Hsame|side..].
  - unfold REEXECUTE. cbn [safe]. split; [|right; cbn; lia].
    split_and!; cbn; try done; try lia; side. 
Qed.

Lemma res_or_resp_H_safe :
  st e = s_res_or_resp_H -> safe (post (pos e) s_res_or_resp_H) (on_res_or_resp_H e ch).
Proof using H. intros Hs. open_pre H Hs. unfold on_res_or_resp_H. cases; leaf. Qed.

(** A leaf that runs a notify callback. *)
Ltac notify_leaf :=
  unfold CALLBACK_NOTIFY, CALLBACK_NOTIFY_NOADVANCE; eapply safe_mono; [apply safe_notify; side|];
  let e' := fresh "e'" in let Hsame := fresh "Hsame" in
  intros e' Hsame; eapply post_callback; [exact Hsame|side..].

Lemma start_res_safe : st e = s_start_res -> safe (post (pos e) s_start_res) (on_start_res cfg e ch).
Proof using H.
  intros Hs. open_pre H Hs. unfold on_start_res. cases; [| |leaf]; notify_leaf.
Qed.

Lemma res_first_http_major_safe :
  st e = s_res_first_http_major -> safe (post (pos e) s_res_first_http_major) (on_res_first_http_major e ch).
Proof using H. intros Hs. open_pre H Hs. unfold on_res_first_http_major. cases; leaf. Qed.

Lemma req_first_http_major_safe :
  st e = s_req_first_http_major -> safe (post (pos e) s_req_first_http_major) (on_req_first_http_major e ch).
Proof using H. intros Hs. open_pre H Hs. unfold on_req_first_http_major. cases; leaf. Qed.

Lemma major_safe s :
  st e = s -> s = s_res_http_major \/ s = s_req_http_major -> safe (post (pos e) s) (http_major_digit e ch).
Proof using H.
  intros Hs [-> | ->]; open_pre H Hs; unfold http_major_digit; cases; leaf.
Qed.

Lemma res_http_major_safe :
  st e = s_res_http_major -> safe (post (pos e) s_res_http_major) (on_res_http_major e ch).
Proof using H.
  intros Hs. unfold on_res_http_major. cases; [|by apply major_safe; auto]. open_pre H Hs. leaf.
Qed.
Lemma req_http_major_safe :
  st e = s_req_http_major -> safe (post (pos e) s_req_http_major) (on_req_http_major e ch).
Proof using H.
  intros Hs. unfold on_req_http_major. cases; [|by apply major_safe; auto]. open_pre H Hs. leaf.
Qed.

Lemma first_http_minor_safe s next :
  st e = s -> (forall k, mark_state k s = false) -> next = s_res_http_minor \/ next = s_req_http_minor ->
  safe (post (pos e) s) (on_first_http_minor next e ch).
Proof using H.
  intros Hs Hk [-> | ->]; open_pre H Hs; unfold on_first_http_minor; cases; leaf.
Qed.

Lemma minor_safe s :
  st e = s -> s = s_res_http_minor \/ s = s_req_http_minor -> safe (post (pos e) s) (http_minor_digit e ch).
Proof using H.
  intros Hs [-> | ->]; open_pre H Hs; unfold http_minor_digit; cases; leaf.
Qed.
Lemma res_http_minor_safe :
  st e = s_res_http_minor -> safe (post (pos e) s_res_http_minor) (on_res_http_minor e ch).
Proof using H.
  intros Hs. unfold on_res_http_minor. cases; [|by apply minor_safe; auto]. open_pre H Hs. leaf.
Qed.
Lemma req_http_minor_safe :
  st e = s_req_http_minor -> safe (post (pos e) s_req_http_minor) (on_req_http_minor e ch).
Proof using H.
  intros Hs. unfold on_req_http_minor. cases; [| |by apply minor_safe; auto]; open_pre H Hs; leaf.
Qed.

Lemma res_first_status_code_safe :
  st e = s_res_first_status_code -> safe (post (pos e) s_res_first_status_code) (on_res_first_status_code e ch).
Proof using H. intros Hs. open_pre H Hs. unfold on_res_first_status_code. cases; leaf. Qed.

Lemma res_status_code_safe :
  st e = s_res_status_code -> safe (post (pos e) s_res_status_code) (on_res_status_code e ch).
Proof using H. intros Hs. open_pre H Hs. unfold on_res_status_code. cases; leaf. Qed.

Lemma res_status_start_safe :
  st e = s_res_status_start -> safe (post (pos e) s_res_status_start) (on_res_status_start e ch).
Proof using H.
  intros Hs. open_pre H Hs. unfold on_res_status_start. rewrite MARK_eq. cases; leaf.
Qed.

(** A leaf that runs a data callback: the mark is at or before [p]. *)
Lemma data_leaf k e1 s :
  errno (pr e1) = HPE_OK -> widths_ok (pr e1) -> state_ok 0 (st e1) (pr e1) ->
  marks_ok (mk e1) (pos e1) s -> (forall k', mark_state k' s = true -> k' = k) ->
  pos e1 = pos e -> safe (post (pos e) (st e)) (CALLBACK_DATA cfg data k e1).
Proof using H.
  intros Ho1 Hw1 Hs1 Hm1 Hk Hpe. destruct H as [(Ho & Hw & Hst & Hm & Hp) [Hlt Hnr]].
  unfold CALLBACK_DATA. eapply safe_mono; [apply safe_data; try done; try lia|].
  - intros m E. apply Hm1 in E as [? _]. lia.
  - intros e' Hsame. eapply post_callback; [exact Hsame|..]; try done; try (cbn; lia).
    cbn. by eapply marks_cleared.
Qed.

Lemma res_status_safe : st e = s_res_status -> safe (post (pos e) s_res_status) (on_res_status cfg data e ch).
Proof using H.
  intros Hs. pose proof H as H'. open_pre H' Hs. unfold on_res_status. rewrite <- Hs. cases.
  - apply (data_leaf _ _ s_res_status); try done. by intros [].
  - apply (data_leaf _ _ s_res_status); try done. by intros [].
  - apply (post_advance _ e); side.
Qed.

Lemma start_req_safe : st e = s_start_req -> safe (post (pos e) s_start_req) (on_start_req cfg e ch).
Proof using H.
  intros Hs. open_pre H Hs. unfold on_start_req. cases; [leaf|leaf|].
  destruct (first_method ch) as [m|] eqn:Em; [|leaf].
  assert (0 <= 1 <= zlen (method_string m)) as Hl by (by destruct m).
  notify_leaf.
Qed.

Lemma switch_method_length m i : 0 <= i -> forall m',
  switch_method m i ch = Some m' -> i + 1 <= zlen (method_string m').
Proof using.
  intros Hi m'. unfold switch_method.
  repeat match goal with |- context [if ?b then _ else _] => destruct b eqn:? end;
    intros [= <-]; rewrite ?andb_true_iff, ?Z.eqb_eq in *; destruct_and?; subst i; by vm_compute.
Qed.

Lemma method_length m : zlen (method_string m) <= 11.
Proof using. by destruct m. Qed.

Lemma req_method_safe : st e = s_req_method -> safe (post (pos e) s_req_method) (on_req_method e ch).
Proof using H.
  intros Hs. open_pre H Hs. unfold on_req_method. destruct (Z.eqb_spec ch 0) as [|Hz]; [leaf|].
  pose proof (method_length (method (pr e))).
  rewrite mem_read_ok by (rewrite ?zlen_app; change (zlen [0]) with 1; lia).
  cbn [lift mbind result_bind].
  set (i := index (pr e)) in *. set (m := znth (zslice i 1 _) 0).
  destruct (_ && _).
  { leaf. }
  destruct (Z.eqb_spec ch m) as [Hm1|].
  { assert (i <> zlen (method_string (method (pr e)))) as Hi.
    { intros Hi. apply Hz. rewrite Hm1. unfold m. rewrite Hi.
      rewrite <- (app_nil_r (_ ++ [0])), <- app_assoc. by rewrite zslice_middle. }
    apply (post_advance _ (with_pr (fun r => set_index (index r + 1) r) e)); side.
    fold i. rewrite uwrap_small by lia. lia. }
  destruct (switch_method _ i ch) as [m'|] eqn:E; [|leaf].
  apply switch_method_length in E; [|lia]. pose proof (method_length m').
  apply (post_advance _ (with_pr (fun r => set_index (index r + 1) r) (with_pr (set_method m') e))); side.
  fold i. rewrite uwrap_small by lia. lia.
Qed.

(** ** URLs *)
Definition url_state (s : state) : bool := mark_state D_url s.

Lemma parse_url_char_state s c : url_state (parse_url_char s c) = true \/ parse_url_char s c = s_dead.
Proof using.
  unfold parse_url_char, url_server.
  destruct s; repeat match goal with |- context [if ?b then _ else _] => destruct b end; by auto.
Qed.

Lemma url_char_safe s e1 :
  errno (pr e1) = HPE_OK -> widths_ok (pr e1) -> pos e1 = pos e ->
  marks_ok (mk e1) (pos e1) s -> (forall k, mark_state k s = true -> k = D_url) ->
  safe (post (pos e) (st e)) (url_char e1 ch).
Proof using H.
  intros Ho1 Hw1 Hpe Hm1 Hk. destruct H as [(Ho & Hw & Hst & Hm & Hp) [Hlt Hnr]]. unfold url_char.
  destruct (parse_url_char_state (st e1) ch) as [Hu|Hd].
  - assert (safe (post (pos e) (st e)) (Go (UPDATE_STATE (parse_url_char (st e1) ch) e1) : result U (exec U))).
    { rewrite <- Hpe. apply (post_advance _ (UPDATE_STATE _ e1)); cbn; try done; try lia.
      - by destruct (parse_url_char _ _).
      - eapply marks_move; [exact Hm1| |lia]. intros k E. by rewrite (Hk k E). }
    by destruct (parse_url_char _ _).
  - rewrite Hd. apply safe_error; [done|cbn; lia].
Qed.

Lemma req_spaces_before_url_safe :
  st e = s_req_spaces_before_url -> safe (post (pos e) s_req_spaces_before_url) (on_req_spaces_before_url e ch).
Proof using H.
  intros Hs. pose proof H as H'. open_pre H' Hs. unfold on_req_spaces_before_url. cases; [leaf|].
  rewrite <- Hs. set (e2 := match method _ with HTTP_CONNECT => _ | _ => _ end).
  assert (pr e2 = pr e /\ pos e2 = pos e /\ mk e2 = mk (MARK D_url e)) as (E1 & E2 & E3).
  { unfold e2. rewrite MARK_eq. cbn. by destruct (method (pr e)). }
  apply (url_char_safe s_req_path); rewrite ?E1, ?E2, ?E3; try done.
  - rewrite MARK_eq. cbn [mk]. eapply (marks_mark D_url); [exact Hm|by intros []|done|lia].
  - by intros [].
Qed.

Lemma marks_url s : st e = s -> url_state s = true -> marks_ok (mk e) (pos e) s_req_path.
Proof using H.
  intros Hs Hu. destruct H as [(Ho & Hw & Hst & Hm & Hp) [Hlt Hnr]]. rewrite Hs in Hm.
  eapply marks_move; [exact Hm| |lia]. by destruct s; try done; intros [].
Qed.

Lemma req_schema_safe s : st e = s -> url_state s = true -> safe (post (pos e) s) (on_req_schema e ch).
Proof using H.
  intros Hs Hu. pose proof (marks_url s Hs Hu). pose proof H as [(Ho & Hw & Hst & Hm & Hp) [Hlt Hnr]].
  unfold on_req_schema. cases; [leaf|]. rewrite <- Hs.
  apply (url_char_safe s_req_path); try done. by intros [].
Qed.

Lemma req_url_safe s : st e = s -> url_state s = true -> safe (post (pos e) s) (on_req_url cfg data e ch).
Proof using H.
  intros Hs Hu. pose proof (marks_url s Hs Hu). pose proof H as [(Ho & Hw & Hst & Hm & Hp) [Hlt Hnr]].
  unfold on_req_url. rewrite <- Hs. cases.
  - apply (data_leaf _ _ s_req_path); try done. by intros [].
  - apply (data_leaf _ _ s_req_path); try done; [by cbn; destruct (ch =? CR)|by intros []].
  - apply (url_char_safe s_req_path); try done. by intros [].
Qed.

Lemma req_http_start_safe : st e = s_req_http_start -> safe (post (pos e) s_req_http_start) (on_req_http_start e ch).
Proof using H. intros Hs. open_pre H Hs. unfold on_req_http_start. cases; leaf. Qed.

Lemma req_line_almost_done_safe :
  st e = s_req_line_almost_done -> safe (post (pos e) s_req_line_almost_done) (on_req_line_almost_done e ch).
Proof using H. intros Hs. open_pre H Hs. unfold on_req_line_almost_done. cases; leaf. Qed.

(** ** Header fields *)
Lemma reexecute_safe s next e1 :
  errno (pr e1) = HPE_OK -> widths_ok (pr e1) -> state_ok 0 next (pr e1) -> st e1 = next -> pos e1 = pos e ->
  marks_ok (mk e1) (pos e) next -> rank next < rank s -> safe (post (pos e) s) (REEXECUTE e1).
Proof using H.
  intros Ho1 Hw1 Hs1 Hst1 Hp1 Hm1 Hr. destruct H as [(Ho & Hw & Hst & Hm & Hp) [Hlt Hnr]].
  unfold REEXECUTE. cbn [safe]. split; [|right; cbn; rewrite Hst1; lia].
  split_and!; cbn; try done; try lia; rewrite ?Hst1; [done|].
  by replace (pos e1 - 1 + 1) with (pos e) by lia.
Qed.

Lemma header_field_start_safe :
  st e = s_header_field_start -> safe (post (pos e) s_header_field_start) (on_header_field_start e ch).
Proof using H.
  intros Hs. pose proof H as H'. open_pre H' Hs. unfold on_header_field_start. rewrite MARK_eq. cases.
  - leaf.
  - by apply (reexecute_safe _ s_headers_almost_done); side.
  - leaf.
  - leaf.
    unfold first_header_state. by repeat match goal with |- context [if ?b then _ else _] => destruct b end.
Qed.

Lemma match_name_widths word next c r : widths_ok r -> widths_ok (match_name word next c r).
Proof using. intros Hw. unfold match_name. by repeat case_match. Qed.

Lemma header_field_char_ok r x c :
  is_field_state (header_state r) = true -> errno r = HPE_OK -> widths_ok r ->
  exists r', header_field_char r x c = Ret r' /\ is_field_state (header_state r') = true /\
    errno r' = HPE_OK /\ widths_ok r' /\ nread r' = nread r.
Proof using.
  intros Hf Ho Hw. unfold header_field_char, match_name.
  destruct (header_state r) eqn:E; try done; eexists; (split; [reflexivity|]);
    repeat match goal with |- context [if ?b then _ else _] => destruct b end; split_and!; try done;
    cbn; rewrite ?E; done.
Qed.

Lemma header_field_loop_ok rest : forall p x r,
  is_field_state (header_state r) = true -> errno r = HPE_OK -> widths_ok r ->
  exists p' x' r', header_field_loop rest p x r = Ret (p', x', r') /\
    is_field_state (header_state r') = true /\ errno r' = HPE_OK /\ widths_ok r' /\
    p <= p' <= p + zlen rest.
Proof using.
  induction rest as [|y rest IH]; intros p x r Hf Ho Hw; cbn [header_field_loop].
  - exists p, x, r. change (zlen (@nil Z)) with 0. split_and!; try done; lia.
  - rewrite zlen_cons. pose proof (zlen_nonneg rest). destruct (TOKEN y =? 0).
    + exists p, y, r. split_and!; try done; lia.
    + destruct (header_field_char_ok r y (TOKEN y) Hf Ho Hw) as (r1 & -> & Hf1 & Ho1 & Hw1 & _). obind.
      destruct (IH (p + 1) y r1 Hf1 Ho1 Hw1) as (p' & x' & r' & -> & ? & ? & ? & ?).
      exists p', x', r'. split_and!; try done; lia.
Qed.

Lemma zlen_rest p : 0 <= p <= len -> p + zlen (drop (Z.to_nat p) data) = len.
Proof using. unfold HttpParser.len, zlen. intros. rewrite length_drop. lia. Qed.

Lemma header_field_safe : st e = s_header_field -> safe (post (pos e) s_header_field) (on_header_field cfg data e ch).
Proof using H.
  intros Hs. pose proof H as H'. open_pre H' Hs. unfold on_header_field.
  destruct (header_field_loop_ok (drop (Z.to_nat (pos e)) data) (pos e) ch (pr e) Hst Ho Hw)
    as (p & x & r & -> & Hf & Ho1 & Hw1 & Hp1). cbn [lift mbind result_bind].
  pose proof (zlen_rest (pos e) Hp).
  eapply safe_bind; [apply safe_count; cbn; [done|lia]|].
  intros e1 [-> Hw2]. cbn in Hw2. destruct (Z.eqb_spec p len) as [Hpl|Hpl].
  - cbn [safe]. split; [|left; cbn; lia].
    split_and!; cbn; rewrite ?Hs; try done; try lia.
    eapply marks_move; [exact Hm|by intros []|lia].
  - destruct (x =? _).
    + unfold CALLBACK_DATA. eapply safe_mono; [apply safe_data; cbn; try done; try lia|].
      * intros m E. destruct (Hm D_header_field m E). lia.
      * intros e' Hsame. split.
        -- destruct Hsame as (E1 & E2 & E3 & s & E4). split_and!; cbn; rewrite ?E1, ?E2, ?E3, ?E4; cbn; try done; try lia.
           eapply (marks_cleared D_header_field); [exact Hm|by intros []].
        -- left. destruct Hsame as (_ & E2 & _). rewrite E2. cbn. lia.
    + apply safe_error; cbn; [done|lia].
Qed.

(** ** Header values *)
Lemma header_value_start_safe s :
  st e = s -> (forall k, mark_state k s = false) -> safe (post (pos e) s) (on_header_value_start e ch).
Proof using H.
  intros Hs Hk. open_pre H Hs. unfold on_header_value_start. rewrite MARK_eq. cbn zeta.
  pose proof (marks_mark D_header_value (mk e) (pos e) s (pos e + 1) s_header_value Hm
    (fun k E => False_ind _ (eq_true_false_abs _ E (Hk k))) eq_refl ltac:(lia)) as Hm'.
  set (m' := match get_mark D_header_value (mk e) with None => _ | Some _ => _ end) in *. clearbody m'.
  cbn [with_pr UPDATE_STATE pr header_state set_index].
  destruct (header_state (pr e)) eqn:Eh; cases; leaf;
    repeat match goal with |- context [if ?b then _ else _] => destruct b end; try done; by rewrite ?Eh.
Qed.

Lemma header_value_discard_ws_safe :
  st e = s_header_value_discard_ws -> safe (post (pos e) s_header_value_discard_ws) (on_header_value_discard_ws e ch).
Proof using H.
  intros Hs. unfold on_header_value_discard_ws. cases; [| | |apply header_value_start_safe; [done|by intros []]];
    open_pre H Hs; leaf.
Qed.
End Cases.

Lemma memchr_range c l : forall off q, memchr c l off = Some q -> off <= q < off + zlen l.
Proof.
  induction l as [|x l IH]; intros off q; cbn [memchr]; [done|]. rewrite zlen_cons.
  pose proof (zlen_nonneg l). case_match; [intros [= <-]; lia|]. intros E. apply IH in E. lia.
Qed.

(** The byte at [p]. *)
Lemma data_at p : 0 <= p < len ->
  exists rest, drop (Z.to_nat p) data = znth (zslice p 1 data) 0 :: rest.
Proof.
  intros Hp. unfold HttpParser.len, zlen in Hp. unfold zslice, znth.
  destruct (drop (Z.to_nat p) data) as [|x rest] eqn:E.
  - apply (f_equal length) in E. rewrite length_drop in E. simpl in E. lia.
  - exists rest. done.
Qed.

Lemma skip_general_range p :
  0 <= p < len -> znth (zslice p 1 data) 0 <> CR -> znth (zslice p 1 data) 0 <> LF ->
  p < skip_general data p <= len.
Proof.
  intros Hp Hcr Hlf. destruct (data_at p Hp) as [rest E].
  assert (zlen (take (Z.to_nat (Z.min (len - p) HTTP_MAX_HEADER_SIZE)) (drop (Z.to_nat p) data)) <= len - p) as Hl.
  { unfold HttpParser.len, zlen in *. rewrite length_take, length_drop. lia. }
  unfold skip_general. revert Hl. rewrite E.
  assert (1 <= Z.min (len - p) HTTP_MAX_HEADER_SIZE) as Hmin by (unfold HTTP_MAX_HEADER_SIZE; lia).
  destruct (Z.to_nat (Z.min (len - p) HTTP_MAX_HEADER_SIZE)) as [|n] eqn:En; [lia|].
  cbn [take memchr]. rewrite zlen_cons. intros Hl.
  rewrite (proj2 (Z.eqb_neq _ CR)), (proj2 (Z.eqb_neq _ LF)) by done.
  destruct (memchr CR _ _) eqn:E1; destruct (memchr LF _ _) eqn:E2;
    repeat match goal with E : memchr _ _ _ = Some _ |- _ => apply memchr_range in E end;
    try case_match; lia.
Qed.

(** What the loop over a header value keeps. *)
Definition value_inv (start : Z) (e : exec U) : Prop :=
  errno (pr e) = HPE_OK /\ widths_ok (pr e) /\ st e = s_header_value /\
  marks_ok (mk e) (pos e) s_header_value /\ 0 <= start <= pos e.

Lemma match_value_safe start word next otherwise h c e :
  value_inv start e -> pos e < len -> is_value_state next = true -> is_value_state otherwise = true ->
  is_value_state h = true ->
  safe (fun '(h', e') => value_inv start e' /\ pos e <= pos e' < len /\ is_value_state h' = true)
    (match_value word next otherwise h c e).
Proof.
  intros (Ho & Hw & Hs & Hm & Hp) Hlt H1 H2 H3. unfold match_value. cbn [safe].
  split_and!; cbn; try done; try lia. by repeat case_match.
Qed.

Lemma content_length_char_safe start h e ch :
  value_inv start e -> pos e < len -> is_value_state h = true ->
  safe (fun '(h', e') => value_inv start e' /\ pos e <= pos e' < len /\ is_value_state h' = true)
    (content_length_char h e ch).
Proof.
  intros (Ho & Hw & Hs & Hm & Hp) Hlt H3. unfold content_length_char. cases.
  - cbn [safe]. by split_and!; try lia.
  - apply safe_error; cbn; [done|lia].
  - apply safe_error; cbn; [done|lia].
  - cbn [safe]. unfold value_inv. split_and!; cbn; try done; try lia. by apply widths_set_content_length.
Qed.

Lemma header_value_char_safe start h e :
  value_inv start e -> pos e < len -> is_value_state h = true ->
  znth (zslice (pos e) 1 data) 0 <> CR -> znth (zslice (pos e) 1 data) 0 <> LF ->
  safe (fun '(h', e') => value_inv start e' /\ pos e <= pos e' < len /\ is_value_state h' = true)
    (header_value_char data h e (znth (zslice (pos e) 1 data) 0)).
Proof.
  intros Hv Hlt Hh Hcr Hlf. pose proof Hv as (Ho & Hw & Hs & Hm & Hp).
  set (ch := znth _ 0) in *. unfold header_value_char.
  destruct h; try done; try (by apply match_value_safe); try (by apply content_length_char_safe);
    cbn [safe]; repeat match goal with |- context [if ?b then _ else _] => destruct b end;
    unfold value_inv; try (split_and!; cbn; try done; lia).
  pose proof (skip_general_range (pos e) ltac:(lia) Hcr Hlf) as Hskip.
  unfold value_inv. split_and!; cbn; try done; try lia. eapply marks_move; [exact Hm|done|lia].
Qed.

Lemma header_value_loop_safe start fuel : forall h e,
  value_inv start e -> pos e <= len -> is_value_state h = true -> len - pos e <= Z.of_nat fuel ->
  safe (fun '(h', e') =>
          errno (pr e') = HPE_OK /\ widths_ok (pr e') /\ is_value_state h' = true /\
          ((st e' = s_header_value /\ pos e' = len /\ marks_ok (mk e') len s_header_value) \/
           (st e' = s_header_almost_done /\ pos e - 1 <= pos e' < len /\ (forall p s, marks_ok (mk e') p s) /\
            (pos e' < start -> nread (pr e') = nread (pr e)))))
    (header_value_loop cfg data fuel start h e).
Proof.
  induction fuel as [|fuel IH]; intros h e Hv Hle Hh Hf; pose proof Hv as (Ho & Hw & Hs & Hm & Hp);
    cbn [header_value_loop]; destruct (Z.eqb_spec (pos e) len) as [Hl|Hl].
  1, 3: cbn [safe]; split_and!; try done; left; rewrite <- Hl; done.
  { lia. }
  rewrite mem_read_ok by (unfold HttpParser.len in *; lia). cbn [lift mbind result_bind].
  destruct (Z.eqb_spec (znth (zslice (pos e) 1 data) 0) CR) as [Hcr|Hcr].
  - eapply safe_bind; [apply safe_data; cbn; try done; try lia|].
    + intros m E. destruct (Hm D_header_value m E). lia.
    + intros e' (E1 & E2 & E3 & s & E4). cbn [safe]. rewrite E1, E2, E3, E4. cbn.
      split_and!; try done. right. split_and!; try done; try lia. intros p s'.
      eapply (marks_cleared D_header_value); [exact Hm|by intros []].
  - destruct (Z.eqb_spec (znth (zslice (pos e) 1 data) 0) LF) as [Hlf|Hlf].
    + eapply safe_bind; [apply safe_count; cbn; [done|lia]|].
      intros e1 [-> Hw2]. cbn in Hw2.
      eapply safe_bind; [apply safe_data; cbn; try done; try lia|].
      * intros m E. destruct (Hm D_header_value m E). lia.
      * intros e' (E1 & E2 & E3 & s & E4). cbn [safe]. cbn. rewrite E1, E2, E3, E4. cbn.
        split_and!; try done.
        right. split_and!; try done; try lia.
        -- intros p s'. eapply (marks_cleared D_header_value); [exact Hm|by intros []].
        -- intros Hstart. cbn in Hstart. replace (pos e - start) with 0 by lia. rewrite Z.add_0_r.
           apply uwrap_small. destruct Hw as [_ Hn]. unfold HTTP_MAX_HEADER_SIZE in Hn. lia.
    + eapply safe_bind; [by apply (header_value_char_safe start); [done|lia|..]|].
      intros [h' e'] ((Ho' & Hw' & Hs' & Hm' & Hp') & Hr & Hh').
      eapply safe_mono; [apply IH; cbn; try done; try lia|].
      * unfold value_inv. split_and!; cbn; try done; try lia. eapply marks_move; [exact Hm'|done|lia].
      * intros [h2 e2] (H1 & H2 & H3 & H4). split_and!; try done.
        destruct H4 as [?|(? & Hp2 & ? & _)]; [by left|right]. cbn in Hp2. split_and!; try done; lia.
Qed.

Section Cases2.
Context (e : exec U) (ch : Z) (H : pre e).

Lemma header_value_safe : st e = s_header_value -> safe (post (pos e) s_header_value) (on_header_value cfg data e ch).
Proof using H.
  intros Hs. pose proof H as H'. open_pre H' Hs. unfold on_header_value.
  eapply safe_bind; [apply (header_value_loop_safe (pos e) (length data)); try done; try lia|].
  { split_and!; try done; lia. }
  { unfold HttpParser.len, zlen in *. lia. }
  intros [h' e'] (Ho' & Hw' & Hh' & Hcase).
  eapply safe_bind; [apply safe_count; cbn; [done|]|].
  { destruct Hcase as [(? & -> & ?)|(? & ? & ? & Hn)]; [lia|]. intros Hover. split; [|lia].
    destruct (Z.lt_ge_cases (pos e') 0) as [Hneg|]; [|done]. exfalso.
    rewrite (Hn ltac:(lia)) in Hover. specialize (Hnr ltac:(by rewrite Hs)). destruct Hw as [_ Hw].
    unfold HTTP_MAX_HEADER_SIZE in *. rewrite uwrap_small in Hover; lia. }
  intros e1 [-> Hw2]. cbn in Hw2. cbn [with_pr pos safe].
  destruct Hcase as [(Es & Ep & Em)|(Es & Ep & Em & _)].
  - rewrite Ep in *. rewrite Z.eqb_refl. split; [|left; cbn; lia].
    split_and!; cbn; rewrite ?Es; try done; try lia.
    eapply marks_move; [exact Em|done|lia].
  - rewrite (proj2 (Z.eqb_neq _ _)) by lia. split.
    + split_and!; cbn; rewrite ?Es; try done; try lia.
    + cbn. rewrite Es. destruct (Z.eq_dec (pos e' + 1) (pos e)); [right; cbn; lia|left; lia].
Qed.

(** A header's flag is set at its end. *)
Lemma finish_header_ok r :
  errno (finish_header r) = errno r /\ (widths_ok r -> widths_ok (finish_header r)) /\
  content_length (finish_header r) = content_length r /\ nread (finish_header r) = nread r.
Proof using. unfold finish_header. by destruct (finish_flag _). Qed.

Lemma header_value_lws_safe :
  st e = s_header_value_lws -> safe (post (pos e) s_header_value_lws) (on_header_value_lws e ch).
Proof using H.
  intros Hs. pose proof H as H'. open_pre H' Hs. unfold on_header_value_lws.
  destruct (finish_header_ok (pr e)) as (Ef & Wf & _). cases.
  - eapply (reexecute_safe e H _ s_header_value_start); side.
  - eapply (reexecute_safe e H _ s_header_field_start); side; [by rewrite Ef|by apply Wf].
Qed.

Lemma header_value_discard_lws_safe :
  st e = s_header_value_discard_lws ->
  safe (post (pos e) s_header_value_discard_lws) (on_header_value_discard_lws cfg data e ch).
Proof using H.
  intros Hs. pose proof H as H'. open_pre H' Hs. unfold on_header_value_discard_lws.
  destruct (finish_header_ok (pr e)) as (Ef & Wf & _). cases; [leaf|].
  rewrite MARK_eq. cbn zeta. cbn [with_pr pr st pos mk usr].
  set (m := match get_mark D_header_value (mk e) with None => _ | Some _ => _ end).
  assert (marks_ok m (pos e) s_header_value) as Hm1.
  { eapply (marks_mark D_header_value); [exact Hm|by intros []|done|lia]. }
  clearbody m. unfold CALLBACK_DATA_NOADVANCE.
  eapply safe_bind; [apply safe_data; cbn; [by rewrite Ef|by apply Wf|done|lia|]|].
  - intros x E. destruct (Hm1 D_header_value x E). lia.
  - intros e1 (E1 & E2 & E3 & s & E4).
    eapply (reexecute_safe e H _ s_header_field_start); rewrite ?E1, ?E2, ?E3, ?E4; cbn; try done.
    + by rewrite Ef.
    + by apply Wf.
    + eapply (marks_cleared D_header_value); [exact Hm1|by intros []].
Qed.

(** ** The end of a message *)
Lemma new_message_ok n r r' : state_ok n (NEW_MESSAGE r) r'.
Proof using. unfold NEW_MESSAGE, start_state. destruct (http_should_keep_alive r), (type r); done. Qed.

Lemma complete_same (e1 : exec U) :
  errno (pr e1) = HPE_OK -> widths_ok (pr e1) -> 0 <= pos e1 < len ->
  safe (same (UPDATE_STATE (NEW_MESSAGE (pr e1)) e1)) (complete cfg e1).
Proof using.
  intros Ho Hw Hp. unfold complete, CALLBACK_NOTIFY. apply safe_notify; cbn; try done; try lia.
  apply new_message_ok.
Qed.

Lemma complete_leaf s (e1 : exec U) :
  errno (pr e1) = HPE_OK -> widths_ok (pr e1) -> pos e1 = pos e -> mk e1 = mk e -> st e = s ->
  (forall k, mark_state k s = false) -> safe (post (pos e) s) (complete cfg e1).
Proof using H.
  intros Ho1 Hw1 Hp1 Hm1 Hs Hk. destruct H as [(Ho & Hw & Hst & Hm & Hp) [Hlt Hnr]].
  eapply safe_mono; [apply complete_same; try done; lia|]. intros e' Hsame.
  eapply post_callback; [exact Hsame|..]; cbn; try done; try lia.
  - apply new_message_ok.
  - rewrite Hm1. eapply marks_none; [exact Hm|]. by rewrite Hs.
Qed.

Lemma headers_complete_reply_safe (e1 : exec U) (r : http_parser) (u : U) :
  st e1 = s_headers_done -> widths_ok r -> 0 <= pos e1 < len -> errno r = HPE_OK \/ errno r = HPE_PAUSED ->
  marks_ok (mk e1) (pos e) s_headers_done -> pos e1 = pos e -> st e = s_headers_almost_done ->
  safe (post (pos e) s_headers_almost_done)
    (let e2 := Exec r (st e1) (pos e1) (mk e1) u in
     if is_ok (errno r) then REEXECUTE e2 else RETURN (pos e2) e2).
Proof using H.
  intros Hs1 Hw1 Hp1 He Hm1 Hpe Hs. cbn zeta. destruct He as [He|He]; rewrite He; cbn.
  - split; [|right; cbn; rewrite Hs1; cbn; lia]. split_and!; cbn; rewrite ?Hs1; try done; try lia.
    by replace (pos e1 - 1 + 1) with (pos e) by lia.
  - split; [lia|]. intros _. by rewrite Hs1.
Qed.

Lemma headers_almost_done_safe :
  st e = s_headers_almost_done ->
  safe (post (pos e) s_headers_almost_done) (on_headers_almost_done cfg e ch).
Proof using H.
  intros Hs. pose proof H as H'. open_pre H' Hs. unfold on_headers_almost_done, STRICT_CHECK. cases.
  - leaf.
  - apply (complete_leaf _ e); try done. by intros [].
  - cbn zeta. set (e1 := with_pr _ _).
    assert (marks_ok (mk e1) (pos e) s_headers_done) as Hm1.
    { eapply marks_none; [exact Hm|by intros []]. }
    destruct (on_notify cfg N_headers_complete) as [f|].
    + cbn zeta. set (rep := f _ _).
      set (r1 := if paused rep then set_errno HPE_PAUSED (pr e1) else pr e1).
      assert (widths_ok r1 /\ (errno r1 = HPE_OK \/ errno r1 = HPE_PAUSED)) as [Hw1 Ho1].
      { unfold r1. destruct (paused rep); (split; [exact Hw|]); auto. }
      destruct (code rep =? 0); [|destruct (code rep =? 1)].
      * cbn [mbind result_bind].
        apply (headers_complete_reply_safe e1 r1 (user rep)); try done; cbn; lia.
      * cbn [mbind result_bind].
        apply (headers_complete_reply_safe e1 (or_flags F_SKIPBODY r1) (user rep)); try done; cbn; lia.
      * cbn. split; [lia|]. by intros [|].
    + cbn [mbind result_bind].
      apply (headers_complete_reply_safe e1 (pr e1) (usr e)); try done; cbn; try lia. by left.
Qed.

Lemma headers_done_safe :
  st e = s_headers_done -> safe (post (pos e) s_headers_done) (on_headers_done cfg e ch).
Proof using H.
  intros Hs. pose proof H as H'. open_pre H' Hs. unfold on_headers_done, STRICT_CHECK.
  pose proof (widths_set_nread_0 _ Hw) as Hw0. destruct (negb (ch =? LF)); [leaf|]. cbn zeta.
  set (e1 := with_pr (set_nread 0) e). destruct (upgrade (pr e1)).
  { eapply safe_bind; [apply complete_same; [done|done|cbn; lia]|].
    intros e2 (E1 & E2 & E3 & s & E4). cbn [safe RETURN]. unfold RETURN. rewrite E2. split; [cbn; lia|].
    intros _. rewrite E1, E4. cbn. split; [done|]. apply new_message_ok. }
  destruct (has_flag F_SKIPBODY (pr e1)); [by apply (complete_leaf _ e1); try done; intros []|].
  destruct (has_flag F_CHUNKED (pr e1)) eqn:Ec.
  { apply (post_advance _ (UPDATE_STATE s_chunk_size_start e1)); side. }
  destruct (Z.eqb_spec (content_length (pr e1)) 0) as [|Hz]; [by apply (complete_leaf _ e1); try done; intros []|].
  destruct (Z.eqb_spec (content_length (pr e1)) ULLONG_MAX) as [|Hu].
  - destruct (_ || _); [by apply (complete_leaf _ e1); try done; intros []|].
    apply (post_advance _ (UPDATE_STATE s_body_identity_eof e1)); side.
  - apply (post_advance _ (UPDATE_STATE s_body_identity e1)); side.
    destruct Hw as [Hc _]. cbn in Hz, Hu. unfold ULLONG_MAX in *. lia.
Qed.

(** ** Bodies *)

(** The bytes of a body at hand: [p] stays inside the buffer and the remaining
    length does not wrap. *)
Lemma take_body_ok s s' :
  st e = s -> 0 < content_length (pr e) < ULLONG_MAX -> s = s_body_identity \/ s = s_chunk_data ->
  mark_state D_body s' = true ->
  let e1 := take_body data e in
  errno (pr e1) = HPE_OK /\ widths_ok (pr e1) /\ st e1 = s /\ pos e <= pos e1 < len /\
  has_flag F_CHUNKED (pr e1) = has_flag F_CHUNKED (pr e) /\
  0 <= content_length (pr e1) < ULLONG_MAX /\ (content_length (pr e1) <> 0 -> pos e1 = len - 1) /\
  marks_ok (mk e1) (pos e1 + 1) s'.
Proof using H.
  intros Hs Hc Hss Hs' e1. destruct H as [(Ho & Hw & Hst & Hm & Hp) [Hlt Hnr]].
  unfold e1, take_body. rewrite MARK_eq. cbn [with_pr set_pos pr st pos mk usr].
  set (t := Z.min (content_length (pr e)) (HttpParser.len data - pos e)).
  assert (1 <= t <= content_length (pr e) /\ t <= len - pos e) as [Ht1 Ht2] by (unfold t; lia).
  assert (uwrap 64 (content_length (pr e) - t) = content_length (pr e) - t) as Ew.
  { apply uwrap_small. destruct Hw as [Hw _]. unfold ULLONG_MAX in *. lia. }
  split_and!; try done; try lia; cbn; rewrite ?Ew; try lia.
  - destruct Hw as [_ ?]. split; cbn; rewrite ?Ew; [lia|done].
  - rewrite Hs in Hm. eapply (marks_mark D_body); [exact Hm| |done|lia].
    destruct Hss as [-> | ->]; intros []; done.
Qed.

Lemma body_length_true r : widths_ok r -> 0 < content_length r < ULLONG_MAX -> body_length_ok r = true.
Proof using. intros _ Hc. unfold body_length_ok. rewrite !(proj2 (Z.eqb_neq _ _)); [done|lia..]. Qed.

Lemma body_identity_safe :
  st e = s_body_identity -> safe (post (pos e) s_body_identity) (on_body_identity cfg data e ch).
Proof using H.
  intros Hs. pose proof H as H'. open_pre H' Hs. unfold on_body_identity.
  rewrite body_length_true by done. cbn [assert_].
  destruct (take_body_ok s_body_identity s_body_identity Hs Hst) as (Ho1 & Hw1 & Hs1 & Hp1 & _ & Hc1 & Hl1 & Hm1); auto.
  set (e1 := take_body data e) in *. clearbody e1. cbn zeta. destruct (Z.eqb_spec (content_length (pr e1)) 0) as [Hz|Hz].
  - eapply safe_bind; [apply safe_data; cbn; try done; try lia|].
    + intros m E. destruct (Hm1 D_body m E). lia.
    + intros e2 (E1 & E2 & E3 & s & E4). unfold REEXECUTE. cbn [safe].
      split.
      * split_and!; cbn; rewrite ?E1, ?E2, ?E3, ?E4; cbn; try done; try lia.
        eapply (marks_cleared D_body); [exact Hm1|by intros []].
      * cbn. rewrite E1, E2. cbn. destruct (Z.eq_dec (pos e1) (pos e)); [right; lia|left; lia].
  - cbn [safe]. split; [|left; lia]. split_and!; cbn; rewrite ?Hs1; try done; cbn; lia.
Qed.

Lemma body_identity_eof_safe :
  st e = s_body_identity_eof -> safe (post (pos e) s_body_identity_eof) (on_body_identity_eof data e ch).
Proof using H.
  intros Hs. pose proof H as H'. open_pre H' Hs. unfold on_body_identity_eof. rewrite MARK_eq. cbn [safe].
  split; [|left; cbn; lia]. split_and!; cbn; rewrite ?Hs; try done; try lia.
  eapply (marks_mark D_body); [exact Hm|by intros []|done|lia].
Qed.

Lemma message_done_safe :
  st e = s_message_done -> safe (post (pos e) s_message_done) (on_message_done cfg e ch).
Proof using H.
  intros Hs. pose proof H as H'. open_pre H' Hs. apply (complete_leaf _ e); try done. by intros [].
Qed.

(** ** Chunks *)
Lemma unhex_range c : -1 <= elem unhex c <= 15.
Proof using.
  unfold elem. assert (Forall (fun x => -1 <= x <= 15) unhex) as Hf by (by apply (bool_decide_unpack _); vm_compute).
  destruct (unhex !! Z.to_nat c) as [x|] eqn:E; [|simpl; lia].
  rewrite Forall_forall in Hf. apply Hf. by eapply list_elem_of_lookup_2.
Qed.

Lemma chunk_size_start_safe :
  st e = s_chunk_size_start -> safe (post (pos e) s_chunk_size_start) (on_chunk_size_start e ch).
Proof using H.
  intros Hs. pose proof H as H'. open_pre H' Hs. destruct Hst as [Hc Hn]. unfold on_chunk_size_start.
  rewrite Hn, Hc. cbn [Z.eqb Pos.eqb assert_]. pose proof (unhex_range ch).
  destruct (Z.eqb_spec (elem unhex ch) (-1)); [leaf|].
  apply (post_advance _ (UPDATE_STATE s_chunk_size (with_pr (set_content_length (elem unhex ch)) e))); side.
  split; [exact Hc|]. rewrite uwrap_small; unfold ULLONG_MAX; lia.
Qed.

Lemma chunk_size_safe : st e = s_chunk_size -> safe (post (pos e) s_chunk_size) (on_chunk_size e ch).
Proof using H.
  intros Hs. pose proof H as H'. open_pre H' Hs. destruct Hst as [Hc Hn]. unfold on_chunk_size.
  rewrite Hc. cbn [assert_]. pose proof (unhex_range ch) as Hu. destruct (ch =? CR); [leaf|].
  cbn zeta. destruct (Z.eqb_spec (elem unhex ch) (-1)); cases; [leaf..|].
  match goal with |- safe _ (Go ?x) => apply (post_advance _ x) end; side.
  split; [exact Hc|]. apply Z.ltb_ge in Heqb. destruct Hw as [Hw _].
  change ((ULLONG_MAX - 16) / 16) with 1152921504606846974 in Heqb. unfold ULLONG_MAX.
  rewrite (uwrap_small 64 (content_length (pr e) * 16)) by lia.
  rewrite (uwrap_small 64 (content_length (pr e) * 16 + elem unhex ch)) by lia.
  rewrite uwrap_small by lia. lia.
Qed.

Lemma chunk_parameters_safe :
  st e = s_chunk_parameters -> safe (post (pos e) s_chunk_parameters) (on_chunk_parameters e ch).
Proof using H.
  intros Hs. pose proof H as H'. open_pre H' Hs. destruct Hst as [Hc Hn]. unfold on_chunk_parameters.
  rewrite Hc. cbn [assert_]. cases; leaf.
Qed.

Lemma chunk_size_almost_done_safe :
  st e = s_chunk_size_almost_done -> safe (post (pos e) s_chunk_size_almost_done) (on_chunk_size_almost_done e ch).
Proof using H.
  intros Hs. pose proof H as H'. open_pre H' Hs. destruct Hst as [Hc Hn]. unfold on_chunk_size_almost_done, STRICT_CHECK.
  rewrite Hc. cbn [assert_]. cbn zeta. pose proof (widths_set_nread_0 _ Hw) as Hw0. cases; [leaf| |].
  - match goal with |- safe _ (Go ?x) => apply (post_advance _ x) end; side.
  - apply Z.eqb_neq in Heqb0. cbn in Heqb0. destruct Hw as [Hw1 _].
    match goal with |- safe _ (Go ?x) => apply (post_advance _ x) end; side. split; [done|lia].
Qed.

Lemma chunk_data_safe : st e = s_chunk_data -> safe (post (pos e) s_chunk_data) (on_chunk_data data e ch).
Proof using H.
  intros Hs. pose proof H as H'. open_pre H' Hs. destruct Hst as [Hc Hn]. unfold on_chunk_data.
  rewrite Hc, body_length_true by done. cbn [assert_]. cbn zeta.
  destruct (take_body_ok s_chunk_data s_chunk_data Hs Hn) as (Ho1 & Hw1 & Hs1 & Hp1 & Hf1 & Hc1 & Hl1 & Hm1); auto.
  set (e1 := take_body data e) in *. clearbody e1. rewrite Hc in Hf1.
  destruct (Z.eqb_spec (content_length (pr e1)) 0) as [Hz|Hz]; cbn [safe]; (split; [|left; cbn; lia]);
    split_and!; cbn; rewrite ?Hs1; try done; try lia.
  split; [done|lia].
Qed.

Lemma chunk_data_almost_done_safe :
  st e = s_chunk_data_almost_done ->
  safe (post (pos e) s_chunk_data_almost_done) (on_chunk_data_almost_done cfg data e ch).
Proof using H.
  intros Hs. pose proof H as H'. open_pre H' Hs. destruct Hst as [Hc Hn].
  unfold on_chunk_data_almost_done, STRICT_CHECK. rewrite Hc, Hn. cbn [assert_ Z.eqb].
  destruct (negb (ch =? CR)); [leaf|]. rewrite <- Hs.
  apply (data_leaf e H _ _ s_chunk_data_almost_done); try done. by intros [].
Qed.

Lemma chunk_data_done_safe :
  st e = s_chunk_data_done -> safe (post (pos e) s_chunk_data_done) (on_chunk_data_done e ch).
Proof using H.
  intros Hs. pose proof H as H'. open_pre H' Hs. unfold on_chunk_data_done, STRICT_CHECK.
  rewrite Hst. cbn [assert_]. pose proof (widths_set_nread_0 _ Hw) as Hw0. cases; [leaf|].
  match goal with |- safe _ (Go ?x) => apply (post_advance _ x) end; side.
Qed.

(** ** The switch *)
Lemma dispatch_safe : safe (post (pos e) (st e)) (dispatch cfg data e ch).
Proof using H.
  unfold dispatch. destruct (st e) eqn:Hs;
    first
      [ by apply dead_safe | by apply start_req_or_res_safe | by apply res_or_resp_H_safe | by apply start_res_safe
      | by apply res_first_http_major_safe | by apply res_http_major_safe | by apply res_http_minor_safe
      | by apply res_first_status_code_safe | by apply res_status_code_safe | by apply res_status_start_safe
      | by apply res_status_safe | by apply start_req_safe | by apply req_method_safe
      | by apply req_spaces_before_url_safe | by apply req_schema_safe | by apply req_url_safe
      | by apply req_http_start_safe | by apply req_first_http_major_safe | by apply req_http_major_safe
      | by apply req_http_minor_safe | by apply req_line_almost_done_safe | by apply header_field_start_safe
      | by apply header_field_safe | by apply header_value_discard_ws_safe | by apply header_value_discard_lws_safe
      | by apply header_value_safe | by apply header_value_lws_safe | by apply chunk_size_start_safe
      | by apply chunk_size_safe | by apply chunk_parameters_safe | by apply chunk_size_almost_done_safe
      | by apply headers_almost_done_safe | by apply headers_done_safe | by apply chunk_data_safe
      | by apply chunk_data_almost_done_safe | by apply chunk_data_done_safe | by apply body_identity_safe
      | by apply body_identity_eof_safe | by apply message_done_safe
      | apply header_value_start_safe; [done|done|by intros []]
      | apply first_http_minor_safe; [done|done|by intros []|by auto]
      | apply expect_safe; [done|done|by intros []|done] ].
Qed.
End Cases2.

(** ** The loop *)
Lemma state_ok_01 s r : s <> s_chunk_size_start -> state_ok 0 s r -> state_ok 1 s r.
Proof. by destruct s. Qed.
Lemma state_ok_count s r :
  u32 (nread r + 1) = nread r + 1 -> state_ok 0 s r -> state_ok 1 s (set_nread (nread r + 1) r).
Proof. intros E. destruct s; try done. cbn. intros [? Hn]. by rewrite E, Hn. Qed.

Lemma count_safe (e : exec U) :
  inv 0 e -> pos e < len ->
  safe (fun e' => pre e' /\ st e' = st e /\ pos e' = pos e)
    (if PARSING_HEADER (st e) then COUNT_HEADER_SIZE 1 e else Go e).
Proof.
  intros (Ho & Hw & Hst & Hm & Hp) Hlt. destruct (PARSING_HEADER (st e)) eqn:Eh.
  - eapply safe_mono; [apply safe_count; [done|lia]|]. intros e1 [-> Hw1].
    assert (u32 (nread (pr e) + 1) = nread (pr e) + 1) as Ew.
    { apply uwrap_small. destruct Hw as [_ Hn]. unfold HTTP_MAX_HEADER_SIZE in Hn. lia. }
    unfold pre, inv. split_and!; try done; cbn [with_pr pr st pos mk]; try lia.
    + by apply state_ok_count.
    + intros _. cbn. rewrite Ew. destruct Hw. lia.
  - cbn [safe]. unfold pre, inv. split_and!; try done; try lia; [|by rewrite Eh].
    apply state_ok_01; [|done]. intros Hs. by rewrite Hs in Eh.
Qed.

Lemma round_safe (e : exec U) :
  inv 0 e -> pos e < len ->
  safe (fun e' => inv 0 e' /\ (pos e + 1 <= pos e' \/ (pos e' = pos e /\ rank (st e') < rank (st e))))
    (round cfg data e).
Proof.
  intros Hi Hlt. pose proof Hi as (_ & _ & _ & _ & Hp). unfold round.
  rewrite mem_read_ok by (unfold HttpParser.len in *; lia). cbn [lift mbind result_bind].
  eapply safe_bind; [by apply count_safe|]. intros e1 (Hpre & Hs1 & Hp1).
  eapply safe_bind; [by apply dispatch_safe|]. intros e2 [Hi2 Hpos]. cbn [safe]. split; [done|].
  rewrite Hs1, Hp1 in Hpos. cbn. lia.
Qed.

Lemma loop_safe fuel : forall e : exec U,
  inv 0 e -> pos e = len \/ 4 * (len - pos e) - 3 + rank (st e) <= Z.of_nat fuel ->
  safe (fun e' => inv 0 e' /\ pos e' = len) (loop cfg data fuel e).
Proof.
  assert (forall s, 0 <= rank s <= 3) as Hrank by (by intros []).
  induction fuel as [|fuel IH]; intros e Hi Hf; pose proof Hi as (_ & _ & _ & _ & Hp); cbn [loop];
    destruct (Z.eqb_spec (pos e) len) as [Hl|Hl]; try done.
  - destruct Hf; [done|]. specialize (Hrank (st e)). lia.
  - destruct Hf as [|Hf]; [done|]. eapply safe_bind; [apply round_safe; [done|lia]|]. intros e1 [Hi1 Hp1].
    apply IH; [done|]. pose proof Hi1 as (_ & _ & _ & _ & Hp2).
    pose proof (Hrank (st e)). pose proof (Hrank (st e1)).
    destruct (Z.eq_dec (pos e1) len); [by left|right; lia].
Qed.

(** ** The end of a call *)
Lemma mark_count_ok m p s : marks_ok m p s -> mark_count m <= 1.
Proof.
  intros H. destruct m as [a b c d f]. unfold mark_count. cbn.
  pose proof (H D_url) as H1. pose proof (H D_status) as H2. pose proof (H D_header_field) as H3.
  pose proof (H D_header_value) as H4. pose proof (H D_body) as H5. cbn in *.
  destruct a, b, c, d, f; try lia;
    repeat match goal with H : forall v, Some ?x = Some v -> _ |- _ => destruct (H x eq_refl) as [_ ?]; clear H end;
    by destruct s.
Qed.

Lemma flush_one_safe k (e : exec U) :
  inv 0 e -> pos e = len ->
  safe (fun e' => inv 0 e' /\ pos e' = len) (CALLBACK_DATA_NOADVANCE cfg data k e).
Proof.
  intros (Ho & Hw & Hst & Hm & Hp) Hl. unfold CALLBACK_DATA_NOADVANCE.
  eapply safe_mono; [apply safe_data; try done|].
  - intros m E. apply Hm in E as [? _]. lia.
  - intros e' (E1 & E2 & E3 & s & E4). cbn in E2. split; [|lia].
    split_and!; rewrite ?E1, ?E2, ?E3, ?E4; try done; cbn; try lia.
    intros k' v E. apply Hm. destruct (mk e) as [a b c d f], k, k'; simpl in *; congruence.
Qed.

Lemma flush_marks_safe (e : exec U) :
  inv 0 e -> pos e = len -> safe (fun e' => inv 0 e' /\ pos e' = len) (flush_marks cfg data e).
Proof.
  intros Hi Hl. pose proof Hi as (_ & _ & _ & Hm & _). unfold flush_marks.
  apply mark_count_ok in Hm. rewrite (proj2 (Z.leb_le _ _)) by done. cbn [assert_]. clear Hm.
  do 4 (eapply safe_bind; [by apply flush_one_safe|]; clear e Hi Hl; intros e [Hi Hl]).
  by apply flush_one_safe.
Qed.

Lemma initial_marks_ok s : marks_ok (initial_marks s) 0 s.
Proof. intros k v. destruct s; destruct k; intros [= <-]; done. Qed.

(** * A whole call *)
Lemma notify_pstate k er (e e' : exec U) :
  CALLBACK_NOTIFY_ cfg k er e = Go e' -> pstate (pr e) = st e -> pstate (pr e') = st e.
Proof.
  unfold CALLBACK_NOTIFY_, assert_, after_callback. repeat case_match; try done; intros [= <-]; cbn; try done.
Qed.

Lemma execute_body_safe r u :
  parser_ok r ->
  match execute_body cfg data r u with
  | Return n r' _ =>
      parser_ok r' /\ 0 <= n /\ (n <= len \/ (len = 0 /\ n = 1 /\ errno r' = HPE_INVALID_EOF_STATE))
  | _ => False
  end.
Proof.
  intros Hok. unfold execute_body. destruct (is_ok (errno r)) eqn:Eo; cbn [negb].
  2: { split; [done|]. unfold HttpParser.len. pose proof (zlen_nonneg data). lia. }
  unfold is_ok in Eo. apply bool_decide_eq_true in Eo. destruct (Hok (or_introl Eo)) as [Hw Hst].
  assert (0 <= len) as Hlen by apply zlen_nonneg. destruct (Z.eqb_spec len 0) as [Hl|Hl].
  - assert (forall x, parser_ok x -> parser_ok x /\ 0 <= 0 /\
      (0 <= len \/ (len = 0 /\ 0 = 1 /\ errno x = HPE_INVALID_EOF_STATE))) as H0 by (intros; split_and!; auto; lia).
    assert (parser_ok (set_errno HPE_INVALID_EOF_STATE r)) as H1 by (intros [E|E]; discriminate E).
    destruct (pstate r) eqn:Es; try (by apply H0);
      try (split_and!; [exact H1|lia|right; by split_and!]).
    set (e := Exec r _ 0 _ u).
    pose proof (safe_notify N_message_complete 0 e Eo Hw I ltac:(lia)) as Hs.
    unfold CALLBACK_NOTIFY_NOADVANCE. change (pos e) with 0.
    destruct (CALLBACK_NOTIFY_ cfg N_message_complete 0 e) as [e1|n r1 u1|] eqn:Ec; cbn [mbind result_bind]; cbn [safe] in Hs.
    + apply H0. destruct Hs as (_ & _ & _ & s & E). apply notify_pstate in Ec; [|done].
      intros _. rewrite Ec, E. done.
    + destruct Hs as [Hn ?]. split; [done|]. lia.
    + done.
  - set (e := Exec r (pstate r) 0 (initial_marks (pstate r)) u).
    assert (inv 0 e) as Hi.
    { split_and!; try done; cbn; try lia. apply initial_marks_ok. }
    assert (forall s, rank s <= 3) as Hrank by (by intros []).
    pose proof (loop_safe (loop_fuel data) e Hi) as Hs. specialize (Hrank (pstate r)).
    destruct (loop cfg data (loop_fuel data) e) as [e1|n r1 u1|]; cbn [mbind result_bind]; cbn [safe] in Hs.
    + destruct Hs as [Hi1 Hp1].
      { right. unfold loop_fuel, HttpParser.len, zlen in *. cbn. lia. }
      pose proof (flush_marks_safe e1 Hi1 Hp1) as Hs.
      destruct (flush_marks cfg data e1) as [e2|n r2 u2|]; cbn [mbind result_bind]; cbn [safe] in Hs.
      * destruct Hs as [(Ho2 & Hw2 & Hst2 & _ & _) _]. cbn. split; [|lia].
        intros _. split; [done|]. by rewrite state_ok_set_pstate.
      * destruct Hs. split; [done|]. lia.
      * done.
    + destruct Hs as [Hn ?]; [right; unfold loop_fuel, HttpParser.len, zlen in *; cbn; lia|]. split; [done|]. lia.
    + apply Hs. right. unfold loop_fuel, HttpParser.len, zlen in *. cbn. lia.
Qed.
End Safety.

(** * Any sequence of calls *)

(** The parsers an application can hold: initialised, then driven by calls with
    any callbacks and any bytes, and paused or resumed in between. *)
Inductive reachable : http_parser -> Prop :=
  | R_init t : reachable (http_parser_init t)
  | R_pause r paused r' : reachable r -> http_parser_pause r paused = Ret r' -> reachable r'
  | R_execute U (cfg : settings U) r data u n r' u' :
      reachable r -> http_parser_execute cfg r data u = Ret (n, r', u') -> reachable r'.

Lemma execute_ok {U} (cfg : settings U) r data u :
  parser_ok r ->
  exists n r' u', http_parser_execute cfg r data u = Ret (n, r', u') /\ parser_ok r' /\ 0 <= n /\
    (n <= zlen data \/ (data = [] /\ n = 1 /\ errno r' = HPE_INVALID_EOF_STATE)).
Proof.
  intros Hok. pose proof (execute_body_safe cfg data r u Hok) as H. unfold http_parser_execute.
  destruct (execute_body cfg data r u) as [|n r' u'|]; try done.
  exists n, r', u'. destruct H as (? & ? & Hn). split_and!; try done.
  destruct Hn as [?|(Hl & ? & ?)]; [by left|right]. split_and!; try done.
  apply length_zero_iff_nil. unfold len, zlen in Hl. lia.
Qed.

Lemma init_ok t : parser_ok (http_parser_init t).
Proof. intros _. destruct t; split; try done; split; cbn; unfold ULLONG_MAX, HTTP_MAX_HEADER_SIZE; lia. Qed.

Lemma pause_ok r b r' : parser_ok r -> http_parser_pause r b = Ret r' -> parser_ok r'.
Proof.
  intros Hok. unfold http_parser_pause. destruct (errno r) eqn:E; intros [= <-]; intros _;
    destruct Hok as [Hw Hs]; rewrite ?E; auto; (split; [exact Hw|]); cbn; by destruct (pstate r).
Qed.

Lemma reachable_ok r : reachable r -> parser_ok r.
Proof.
  induction 1 as [t|r b r' _ IH E|U cfg r data u n r' u' _ IH E]; [apply init_ok|by eapply pause_ok|].
  destruct (execute_ok cfg r data u IH) as (? & ? & ? & E' & ? & _). rewrite E' in E. by injection E as _ <- _.
Qed.

Definition silent : settings () := Settings (fun _ => None) (fun _ => None).

(** C2: from any parser reached by initialising, executing on any bytes with any
    callbacks and pausing, [http_parser_execute] returns: it fails none of its
    assertions, reads only the bytes it was given, reports at most that many
    (1 on an unexpected end of stream), and keeps [nread] within
    [HTTP_MAX_HEADER_SIZE] unless it is in error. *)
Theorem http_parser_execute_safe {U} (cfg : settings U) (r : http_parser) (data : bytes) (u : U) :
  reachable r ->
  exists n r' u',
    http_parser_execute cfg r data u = Ret (n, r', u') /\ reachable r' /\
    0 <= n /\ (n <= zlen data \/ (data = [] /\ n = 1 /\ errno r' = HPE_INVALID_EOF_STATE)) /\
    (errno r' = HPE_OK \/ errno r' = HPE_PAUSED -> 0 <= nread r' <= HTTP_MAX_HEADER_SIZE).
Proof.
  intros Hr. destruct (execute_ok cfg r data u (reachable_ok r Hr)) as (n & r' & u' & E & Hok & Hn).
  exists n, r', u'. destruct Hn. split_and!; try done; [by eapply R_execute|]. intros He. by apply Hok in He as [[_ ?] _].
Qed.

Lemma http_parser_execute_safe_witness :
  let r := http_parser_init HTTP_BOTH in
  let data := str#"HTTP/1.1 200 OK" ++ [CR; LF] ++ str#"Connection: Close" in
  reachable r /\
  exists n r' u', http_parser_execute silent r data () = Ret (n, r', u') /\ reachable r' /\
    0 <= n /\ (n <= zlen data \/ (data = [] /\ n = 1 /\ errno r' = HPE_INVALID_EOF_STATE)) /\
    (errno r' = HPE_OK \/ errno r' = HPE_PAUSED -> 0 <= nread r' <= HTTP_MAX_HEADER_SIZE).
Proof.
  intros r data. split; [apply R_init|]. apply (http_parser_execute_safe silent r data ()). apply R_init.
Defined.

(** C22: between calls a parser is well formed.  Whatever it was fed and however
    it was paused, a parser that is not in error has its lengths in range and is
    in a state its fields agree with: the method matcher has an index in the
    method's name, a header name is matched by a name state and a value by a
    value state, a chunk has the chunked flag, and a body has a length that is
    neither 0 nor unknown. *)
Theorem parser_well_formed (r : http_parser) :
  reachable r -> errno r = HPE_OK \/ errno r = HPE_PAUSED ->
  widths_ok r /\
  match pstate r with
  | s_req_method => 0 <= index r <= zlen (method_string (method r))
  | s_header_field => is_field_state (header_state r) = true
  | s_header_value => is_value_state (header_state r) = true
  | s_chunk_size_start => has_flag F_CHUNKED r = true /\ nread r = 0
  | s_chunk_size | s_chunk_parameters | s_chunk_size_almost_done =>
      has_flag F_CHUNKED r = true /\ content_length r < ULLONG_MAX
  | s_chunk_data => has_flag F_CHUNKED r = true /\ 0 < content_length r < ULLONG_MAX
  | s_chunk_data_almost_done => has_flag F_CHUNKED r = true /\ content_length r = 0
  | s_chunk_data_done => has_flag F_CHUNKED r = true
  | s_body_identity => 0 < content_length r < ULLONG_MAX
  | _ => True
  end.
Proof. intros Hr He. destruct (reachable_ok r Hr He) as [Hw Hs]. split; [exact Hw|]. by destruct (pstate r). Qed.

(** A parser in the middle of a chunk. *)
Definition in_chunk : http_parser :=
  match http_parser_execute silent (http_parser_init HTTP_REQUEST)
    (str#"PUT / HTTP/1.1" ++ [CR; LF] ++ str#"Transfer-Encoding: chunked" ++ [CR; LF; CR; LF] ++ str#"a" ++ [CR; LF] ++ str#"abc") () with
  | Ret (_, r, _) => r
  | Fault _ => http_parser_init HTTP_REQUEST
  end.

Lemma parser_well_formed_witness :
  pstate in_chunk = s_chunk_data /\ widths_ok in_chunk /\ has_flag F_CHUNKED in_chunk = true /\ 0 < content_length in_chunk < ULLONG_MAX.
Proof.
  assert (reachable in_chunk) as Hr.
  { set (data := str#"PUT / HTTP/1.1" ++ [CR; LF] ++ str#"Transfer-Encoding: chunked" ++ [CR; LF; CR; LF] ++ str#"a" ++ [CR; LF] ++ str#"abc").
    apply (R_execute () silent (http_parser_init HTTP_REQUEST) data () (zlen data) in_chunk ()); [apply R_init|by vm_compute]. }
  split; [by vm_compute|]. exact (parser_well_formed in_chunk Hr ltac:(left; vm_compute; reflexivity)).
Defined.
