(* ===== verification/HttpMessages.v ===== *)
(** Whole messages through [http_parser_execute]: requests written by a
    serialiser come back as the callbacks that describe them, one or many in a
    buffer, and a body of announced length is delivered exactly. *)
From Stdlib Require Import ZArith Lia Bool Ascii String.
From stdpp Require Import base list numbers strings.
From S2P Require Import Prelude HttpTypes HttpUrl HttpParser HttpSafety.

Open Scope Z_scope.

(** * Rounds of the loop as a big-step relation *)
Section Runs.
Context {U : Type} (cfg : settings U) (data : bytes).

Inductive runs : exec U -> result U (exec U) -> Prop :=
  | run_end e : pos e = len data -> runs e (Go e)
  | run_step e e1 m : pos e <> len data -> round cfg data e = Go e1 -> runs e1 m -> runs e m
  | run_return e n r u : pos e <> len data -> round cfg data e = Return n r u -> runs e (Return n r u).

(** [e'] is where the loop gets from [e]. *)
Definition reaches (e e' : exec U) : Prop := forall m, runs e' m -> runs e m.

Lemma reaches_refl e : reaches e e.
Proof. by intros m. Qed.
Lemma reaches_trans e1 e2 e3 : reaches e1 e2 -> reaches e2 e3 -> reaches e1 e3.
Proof. intros H1 H2 m Hm. by apply H1, H2. Qed.

Lemma loop_more fuel e : forall k m, loop cfg data fuel e = m -> m <> Crash OutOfFuel -> loop cfg data (fuel + k) e = m.
Proof.
  revert e. induction fuel as [|fuel IH]; intros e k m; cbn [loop].
  - destruct (Z.eqb_spec (pos e) (len data)) as [Hl|]; [|by intros <-].
    intros <- _. destruct k; cbn [loop Nat.add]; by rewrite (proj2 (Z.eqb_eq _ _) Hl).
  - cbn [Nat.add loop]. destruct (pos e =? len data); [done|]. destruct (round cfg data e); cbn [mbind result_bind]; try done.
    intros. by apply IH.
Qed.

Lemma runs_loop e m : runs e m -> exists fuel, loop cfg data fuel e = m /\ m <> Crash OutOfFuel.
Proof.
  induction 1 as [e Hl|e e1 m Hl Hr _ (fuel & E & Hm)|e n r u Hl Hr].
  - exists O. cbn [loop]. by rewrite (proj2 (Z.eqb_eq _ _) Hl).
  - exists (S fuel). cbn [loop]. rewrite (proj2 (Z.eqb_neq _ _) Hl), Hr. done.
  - exists 1%nat. cbn [loop]. rewrite (proj2 (Z.eqb_neq _ _) Hl), Hr. done.
Qed.

(** The loop's own fuel gives what the relation gives. *)
Lemma execute_runs r u m :
  errno r = HPE_OK -> parser_ok r -> data <> [] ->
  runs (Exec r (pstate r) 0 (initial_marks (pstate r)) u) m ->
  http_parser_execute cfg r data u =
    match m ≫= (fun e => e ← flush_marks cfg data e; RETURN (len data) e) : result U (exec U) with
    | Return n r u => Ret (n, r, u)
    | Crash f => Fault f
    | Go e => Ret (len data, pr e, usr e)
    end.
Proof.
  intros He Hok Hd Hr. unfold http_parser_execute, execute_body. rewrite is_ok_true by done. cbn [negb].
  assert (len data <> 0) as Hl.
  { intros Hl. apply Hd. apply length_zero_iff_nil. unfold len, zlen in Hl. lia. }
  rewrite (proj2 (Z.eqb_neq _ _) Hl). set (e := Exec r _ 0 _ u) in *.
  assert (loop cfg data (loop_fuel data) e = m) as ->; [|by destruct m].
  destruct (Hok (or_introl He)) as [Hw Hst].
  assert (inv data 0 e) as Hi.
  { split_and!; try done; cbn; [apply initial_marks_ok|apply zlen_nonneg]. }
  assert (loop cfg data (loop_fuel data) e <> Crash OutOfFuel) as Hsafe.
  { intros E. pose proof (loop_safe cfg data (loop_fuel data) e Hi) as Hs. rewrite E in Hs. apply Hs. right.
    assert (rank (pstate r) <= 3) by (by destruct (pstate r)).
    change (pos e) with 0. change (st e) with (pstate r). unfold loop_fuel, len, zlen in *. lia. }
  apply runs_loop in Hr as (fuel & E & Hm).
  rewrite <- (loop_more (loop_fuel data) e fuel _ eq_refl Hsafe).
  rewrite Nat.add_comm. by apply loop_more.
Qed.

(** ** The rest of the input *)
Definition rest (p : Z) (l : bytes) : Prop := 0 <= p /\ drop (Z.to_nat p) data = l.

Lemma rest_start : rest 0 data.
Proof. done. Qed.

Lemma rest_app p w l : rest p (w ++ l) -> rest (p + zlen w) l.
Proof.
  intros [Hp E]. pose proof (zlen_nonneg w). split; [lia|].
  rewrite Z2Nat.inj_add, <- drop_drop, E by lia. unfold zlen. rewrite Nat2Z.id. by rewrite drop_app_length.
Qed.
Lemma rest_cons p c l : rest p (c :: l) -> rest (p + 1) l.
Proof. apply (rest_app p [c] l). Qed.

Lemma rest_end p l : rest p l -> l <> [] \/ p <= len data -> p + zlen l = len data.
Proof.
  intros [Hp E] Hl. unfold len, zlen in *. rewrite <- E in *. rewrite length_drop.
  destruct Hl as [Hl|]; [|lia]. destruct (Nat.le_gt_cases (length data) (Z.to_nat p)); [|lia].
  rewrite drop_ge in Hl by done. done.
Qed.

Lemma rest_end_cons p c l : rest p (c :: l) -> p + 1 + zlen l = len data.
Proof.
  intros H. assert (p + zlen (c :: l) = len data) as Hl by (apply rest_end; [done|by left]).
  rewrite zlen_cons in Hl. lia.
Qed.

Lemma rest_slice p w l : rest p (w ++ l) -> w <> [] \/ p <= len data -> mem_read data p (zlen w) = Ret w.
Proof.
  intros H Hw. pose proof (zlen_nonneg w). pose proof (zlen_nonneg l).
  assert (p + zlen (w ++ l) = len data) as Hl.
  { apply rest_end; [done|]. destruct Hw as [Hw|]; [left|by right]. by destruct w. }
  destruct H as [Hp E]. rewrite zlen_app in Hl. unfold len in Hl. rewrite mem_read_ok by lia. f_equal.
  unfold zslice. rewrite E. unfold zlen. rewrite Nat2Z.id. by rewrite take_app_length.
Qed.
Lemma rest_read p c l : rest p (c :: l) -> mem_read data p 1 = Ret [c].
Proof. intros H. apply (rest_slice p [c] l H). by left. Qed.

(** ** One round *)
Lemma round_reaches e e1 c l :
  rest (pos e) (c :: l) ->
  (e ← (if PARSING_HEADER (st e) then COUNT_HEADER_SIZE 1 e else Go e); dispatch cfg data e c) = Go e1 ->
  reaches e (set_pos (pos e1 + 1) e1).
Proof.
  intros Hr E m Hm. pose proof (rest_end_cons _ _ _ Hr) as Hl. pose proof (zlen_nonneg l).
  eapply run_step; [lia| |exact Hm]. unfold round. rewrite (rest_read _ _ _ Hr). cbn [lift mbind result_bind].
  change (znth [c] 0) with c. revert E. cbn [mbind result_bind].
  destruct (if PARSING_HEADER _ then _ else _); cbn [mbind result_bind]; try done. by intros ->.
Qed.

Lemma round_return e n r u c l :
  rest (pos e) (c :: l) ->
  (e ← (if PARSING_HEADER (st e) then COUNT_HEADER_SIZE 1 e else Go e); dispatch cfg data e c) = Return n r u ->
  runs e (Return n r u).
Proof.
  intros Hr E. pose proof (rest_end_cons _ _ _ Hr) as Hl. pose proof (zlen_nonneg l).
  eapply run_return; [lia|]. unfold round. rewrite (rest_read _ _ _ Hr). cbn [lift mbind result_bind].
  change (znth [c] 0) with c. revert E. cbn [mbind result_bind].
  destruct (if PARSING_HEADER _ then _ else _); cbn [mbind result_bind]; try done. by intros ->.
Qed.
End Runs.

(** * The callbacks of a call, in order *)
Inductive event :=
  | Notify (k : notify_cb)
  | Data (k : data_cb) (d : bytes).

(** An application that writes its callbacks down. *)
Definition recorder : settings (list event) :=
  Settings (fun k => Some (fun _ u => Reply 0 false (u ++ [Notify k])))
           (fun k => Some (fun _ d u => Reply 0 false (u ++ [Data k d]))).

(** What the rest of a message can still see of the parser. *)
Definition fields (r : http_parser) :=
  (type r, flags r, content_length r, http_major r, http_minor r, method r, errno r).
Definition bump (k : Z) (r : http_parser) : http_parser := set_nread (nread r + k) r.

Definition room (k : Z) (r : http_parser) : Prop := 0 <= nread r /\ nread r + k <= HTTP_MAX_HEADER_SIZE.

Lemma nread_bump k r : room k r -> 0 <= k -> nread (bump k r) = nread r + k.
Proof. intros [? ?] ?. cbn. apply uwrap_small. unfold HTTP_MAX_HEADER_SIZE in *. lia. Qed.

Lemma count_ok {U} k (e : exec U) :
  room k (pr e) -> 0 <= k -> COUNT_HEADER_SIZE k e = Go (with_pr (bump k) e).
Proof.
  intros Hr Hk. unfold COUNT_HEADER_SIZE. change (nread (pr (with_pr _ e))) with (nread (bump k (pr e))).
  rewrite nread_bump by done. destruct Hr. by rewrite (proj2 (Z.ltb_ge _ _)).
Qed.

Lemma record_notify k er (e : exec (list event)) :
  errno (pr e) = HPE_OK ->
  CALLBACK_NOTIFY_ recorder k er e =
    Go (Exec (set_pstate (st e) (pr e)) (st e) (pos e) (mk e) (usr e ++ [Notify k])).
Proof.
  intros Ho. unfold CALLBACK_NOTIFY_, assert_, after_callback. rewrite is_ok_true by done. cbn.
  by rewrite is_ok_true.
Qed.

Lemma record_data data k n er m d (e : exec (list event)) :
  errno (pr e) = HPE_OK -> get_mark k (mk e) = Some m -> mem_read data m (n m) = Ret d ->
  CALLBACK_DATA_ recorder data k n er e =
    Go (Exec (set_pstate (st e) (pr e)) (st e) (pos e) (put_mark k None (mk e)) (usr e ++ [Data k d])).
Proof.
  intros Ho Hm Hd. unfold CALLBACK_DATA_, assert_, after_callback. rewrite is_ok_true, Hm by done. cbn.
  rewrite Hd. cbn. by rewrite is_ok_true.
Qed.

Section Segments.
Context (data : bytes).
Abbreviation reaches := (reaches recorder data).
Abbreviation rest := (rest data).
Abbreviation exec := (exec (list event)).
Implicit Types (r : http_parser) (u : list event) (p : Z) (l : bytes).

Lemma step_header r s p mk u c l e1 :
  PARSING_HEADER s = true -> rest p (c :: l) -> room 1 r ->
  dispatch recorder data (Exec (bump 1 r) s p mk u) c = Go e1 ->
  reaches (Exec r s p mk u) (set_pos (pos e1 + 1) e1).
Proof.
  intros Hs Hr Hn E. eapply round_reaches; [exact Hr|]. cbn [st pr]. rewrite Hs, count_ok by (done || lia). exact E.
Qed.

(** The same, for a case that stays on its byte. *)
Lemma step_at r s p mk u c l r' s' mk' u' :
  rest p (c :: l) -> PARSING_HEADER s = true -> room 1 r ->
  dispatch recorder data (Exec (bump 1 r) s p mk u) c = Go (Exec r' s' p mk' u') ->
  reaches (Exec r s p mk u) (Exec r' s' (p + 1) mk' u').
Proof. intros Hr Hs Hn E. exact (step_header _ _ _ _ _ _ _ _ Hs Hr Hn E). Qed.

(** ** Methods *)

(** The recogniser as a function of the method and the index. *)
Definition method_next (m : http_method) (i c : Z) : option (state * http_method * Z) :=
  let x := znth (method_string m ++ [0]) i in
  if (c =? 32) && (x =? 0) then Some (s_req_spaces_before_url, m, i + 1)
  else if c =? x then Some (s_req_method, m, i + 1)
  else option_map (fun m' => (s_req_method, m', i + 1)) (switch_method m i c).

Fixpoint method_run (s : state) (m : http_method) (i : Z) (w : bytes) : option (state * http_method * Z) :=
  match w with
  | [] => Some (s, m, i)
  | c :: w =>
      match s with
      | s_req_method =>
          if (0 <=? i) && (i <=? zlen (method_string m)) && negb (c =? 0)
          then '(s, m, i) ← method_next m i c; method_run s m i w
          else None
      | _ => None
      end
  end.

Lemma method_step r p mk u c l s m i :
  errno r = HPE_OK -> 0 <= index r <= zlen (method_string (method r)) -> c <> 0 ->
  method_next (method r) (index r) c = Some (s, m, i) -> rest p (c :: l) -> room 1 r ->
  exists r', reaches (Exec r s_req_method p mk u) (Exec r' s (p + 1) mk u) /\
    fields r' = (type r, flags r, content_length r, http_major r, http_minor r, m, HPE_OK) /\
    index r' = i /\ nread r' = nread r + 1.
Proof.
  intros Ho Hi Hc Hm Hr Hn. pose proof (method_length (method r)) as Hlen.
  assert (u8 (index r + 1) = index r + 1) as Ew by (apply uwrap_small; lia).
  pose proof (nread_bump 1 r Hn ltac:(lia)) as Hb.
  exists (set_index (index r + 1) (set_method m (bump 1 r))). split.
  - apply (step_at _ _ _ _ _ c l); [done..|].
    cbn [dispatch st]. unfold on_req_method. rewrite (proj2 (Z.eqb_neq _ _) Hc).
    change (method (pr _)) with (method r). change (index (pr _)) with (index r).
    rewrite mem_read_ok by (rewrite ?zlen_app; change (zlen [0]) with 1; lia). cbn [lift mbind result_bind].
    change (znth (zslice (index r) 1 (method_string (method r) ++ [0])) 0) with
      (default 0 (take 1 (drop (Z.to_nat (index r)) (method_string (method r) ++ [0])) !! 0%nat)).
    rewrite lookup_take_lt, lookup_drop, Nat.add_0_r by lia.
    change (default 0 ((method_string (method r) ++ [0]) !! Z.to_nat (index r))) with
      (znth (method_string (method r) ++ [0]) (index r)).
    revert Hm. unfold method_next. cbn zeta.
    destruct (_ && _); [intros [= <- <- <-]; reflexivity|].
    destruct (c =? _); [intros [= <- <- <-]; reflexivity|].
    destruct (switch_method _ _ _); intros [= <- <- <-]. reflexivity.
  - split_and!; [unfold fields; cbn; by rewrite Ho| |done]. change (u8 (index r + 1) = i). rewrite Ew. revert Hm. unfold method_next.
    cbn zeta. repeat case_match; try (by intros [= <- <- <-]). destruct (switch_method _ _ _); by intros [= <- <- <-].
Qed.

Lemma room_le k j r : room k r -> j <= k -> room j r.
Proof. intros [? ?] ?. split; lia. Qed.
Lemma room_after k j i r r' : room k r -> nread r' = nread r + j -> 0 <= j -> i + j <= k -> room i r'.
Proof. intros [? ?] E ??. split; lia. Qed.

Lemma method_steps w : forall r s p mk u l s' m i,
  errno r = HPE_OK -> method_run s (method r) (index r) w = Some (s', m, i) -> rest p (w ++ l) -> room (zlen w) r ->
  exists r', reaches (Exec r s p mk u) (Exec r' s' (p + zlen w) mk u) /\
    fields r' = (type r, flags r, content_length r, http_major r, http_minor r, m, HPE_OK) /\
    nread r' = nread r + zlen w.
Proof.
  induction w as [|c w IH]; intros r s p mk u l s' m i Ho Hm Hr Hn.
  - injection Hm as <- <- <-. exists r. change (zlen (@nil Z)) with 0. rewrite !Z.add_0_r.
    split_and!; [apply reaches_refl| |done]. unfold fields. by rewrite Ho.
  - rewrite zlen_cons in *. pose proof (zlen_nonneg w). cbn [method_run] in Hm. destruct s; try done.
    destruct ((0 <=? index r) && _ && _) eqn:Eb; [|done]. rewrite !andb_true_iff, negb_true_iff, Z.eqb_neq in Eb.
    destruct Eb as [[Hi1 Hi2] Hc]. apply Z.leb_le in Hi1, Hi2.
    destruct (method_next (method r) (index r) c) as [[[s1 m1] i1]|] eqn:E1; [|done].
    destruct (method_step r p mk u c (w ++ l) s1 m1 i1 Ho ltac:(lia) Hc E1 Hr) as (r1 & Hstep & Hf1 & Hi & Hn1).
    { eapply room_le; [done|lia]. }
    injection Hf1 as Ht Hfl Hcl Hmj Hmn Hme He. rewrite <- Hme, <- Hi in Hm. cbn in Hm.
    destruct (IH r1 s1 (p + 1) mk u l s' m i He Hm (rest_cons data p c _ Hr)) as (r2 & Hsteps & Hf2 & Hn2).
    { eapply room_after; [done..|lia|lia]. }
    exists r2. split_and!.
    + eapply reaches_trans; [exact Hstep|]. by rewrite Z.add_assoc.
    + by rewrite Hf2, Ht, Hfl, Hcl, Hmj, Hmn.
    + lia.
Qed.

(** Every method's name, and the space after it, takes the recogniser to it. *)
Lemma method_recognised m :
  exists c w m0 i, method_string m ++ [32] = c :: w /\ (c =? CR) || (c =? LF) = false /\ IS_ALPHA c = true /\ first_method c = Some m0 /\
    method_run s_req_method m0 1 w = Some (s_req_spaces_before_url, m, i).
Proof.
  destruct m; do 4 eexists; (split; [vm_compute; reflexivity|]); repeat split; vm_compute; reflexivity.
Qed.

Lemma method_segment m r p u l :
  errno r = HPE_OK -> rest p (method_string m ++ 32 :: l) -> room (zlen (method_string m) + 1) r ->
  exists r', reaches (Exec r s_start_req p no_marks u)
      (Exec r' s_req_spaces_before_url (p + zlen (method_string m) + 1) no_marks (u ++ [Notify N_message_begin])) /\
    fields r' = (type r, 0, ULLONG_MAX, http_major r, http_minor r, m, HPE_OK) /\
    nread r' = nread r + zlen (method_string m) + 1.
Proof.
  intros Ho Hr Hn. destruct (method_recognised m) as (c & w & m0 & i & Ew & Hcr & Ha & Hf & Hrun).
  assert (zlen (method_string m) + 1 = zlen w + 1) as El.
  { rewrite (Z.add_comm (zlen w)), <- (zlen_cons c w), <- Ew, zlen_app. done. }
  assert (rest p (c :: w ++ l)) as Hr1.
  { change (c :: w ++ l) with ((c :: w) ++ l). rewrite <- Ew, <- app_assoc. done. }
  pose proof (zlen_nonneg w). rewrite <- !Z.add_assoc, El in *.
  set (r0 := set_pstate s_req_method (set_method m0 (set_index 1 (set_method HTTP_DELETE (reset_message (bump 1 r)))))).
  assert (nread r0 = nread r + 1) as Hn0 by (apply nread_bump; [eapply room_le; [done|lia]|lia]).
  assert (reaches (Exec r s_start_req p no_marks u)
    (Exec r0 s_req_method (p + 1) no_marks (u ++ [Notify N_message_begin]))) as H0.
  { eapply step_at; [exact Hr1|done|eapply room_le; [done|lia]|].
    cbn [dispatch st]. unfold on_start_req.
    rewrite Hcr, Ha, Hf. cbn [negb]. unfold CALLBACK_NOTIFY. by rewrite record_notify. }
  destruct (method_steps w r0 s_req_method (p + 1) no_marks (u ++ [Notify N_message_begin]) l
    s_req_spaces_before_url m i) as (r' & H1 & Hf' & Hn').
  - unfold r0. cbn. done.
  - exact Hrun.
  - by eapply rest_cons.
  - eapply (room_after _ 1); [done|exact Hn0|lia..].
  - exists r'. split_and!.
    + eapply reaches_trans; [exact H0|]. by rewrite (Z.add_comm (zlen w)), Z.add_assoc.
    + rewrite Hf'. done.
    + lia.
Qed.

(** ** URLs *)

(** The states in which a URL may end. *)
Definition url_end (s : state) : bool :=
  match s with
  | s_req_server | s_req_server_with_at | s_req_path | s_req_query_string_start | s_req_query_string
  | s_req_fragment_start | s_req_fragment => true
  | _ => false
  end.
Definition url_ok (w : bytes) : bool := url_end (fold_left parse_url_char w s_req_spaces_before_url).

Lemma url_dead w : fold_left parse_url_char w s_dead = s_dead.
Proof.
  induction w as [|c w IH]; [done|]. cbn [fold_left].
  assert (parse_url_char s_dead c = s_dead) as -> by (unfold parse_url_char; by repeat case_match). exact IH.
Qed.

Lemma url_char_not_blank s c :
  parse_url_char s c <> s_dead -> (c =? 32) = false /\ (c =? CR) = false /\ (c =? LF) = false.
Proof. unfold parse_url_char. destruct ((c =? 32) || _ || _) eqn:E; [done|]. rewrite !orb_false_iff in E. tauto. Qed.

Lemma url_dispatch r s p mk u c :
  url_state s = true -> parse_url_char s c <> s_dead ->
  dispatch recorder data (Exec r s p mk u) c = Go (Exec r (parse_url_char s c) p mk u).
Proof.
  intros Hs Hd. destruct (url_char_not_blank _ _ Hd) as (E1 & E2 & E3).
  assert (url_char (Exec r s p mk u) c = Go (Exec r (parse_url_char s c) p mk u)) as E.
  { unfold url_char. cbn [st UPDATE_STATE pr pos usr]. by destruct (parse_url_char s c). }
  destruct s; try done; cbn [dispatch st]; unfold on_req_schema, on_req_url;
    change ch#" " with 32; rewrite E1, E2, E3; exact E.
Qed.

Lemma url_steps w : forall r s p mk u l,
  url_state s = true -> url_end (fold_left parse_url_char w s) = true -> rest p (w ++ l) -> room (zlen w) r ->
  exists r', reaches (Exec r s p mk u) (Exec r' (fold_left parse_url_char w s) (p + zlen w) mk u) /\
    fields r' = fields r /\ nread r' = nread r + zlen w.
Proof.
  induction w as [|c w IH]; intros r s p mk u l Hs He Hr Hn.
  - exists r. change (zlen (@nil Z)) with 0. rewrite !Z.add_0_r. split_and!; [apply reaches_refl|done..].
  - rewrite zlen_cons in *. pose proof (zlen_nonneg w). cbn [fold_left] in *.
    assert (parse_url_char s c <> s_dead) as Hd by (intros E; by rewrite E, url_dead in He).
    assert (nread (bump 1 r) = nread r + 1) as Hb by (apply nread_bump; [eapply room_le; [done|lia]|lia]).
    destruct (IH (bump 1 r) (parse_url_char s c) (p + 1) mk u l) as (r' & H1 & Hf & Hn').
    + by destruct (parse_url_char_state s c).
    + done.
    + by eapply rest_cons.
    + eapply room_after; [done..|lia|lia].
    + exists r'. split_and!; [|done|lia]. eapply reaches_trans; [|rewrite Z.add_assoc; exact H1].
      eapply step_at; [exact Hr|by destruct s|eapply room_le; [done|lia]|]. by apply url_dispatch.
Qed.

(** A data callback that ends at its byte: what it is given. *)
Lemma data_here k m w c l r s p u :
  errno r = HPE_OK -> rest m (w ++ c :: l) -> p = m + zlen w ->
  CALLBACK_DATA recorder data k (Exec r s p (put_mark k (Some m) no_marks) u) =
    Go (Exec (set_pstate s r) s p no_marks (u ++ [Data k w])).
Proof.
  intros Ho Hr ->. unfold CALLBACK_DATA. rewrite (record_data _ _ _ _ m w); [by destruct k|done|by destruct k|].
  cbn [pos]. replace (m + zlen w - m) with (zlen w) by lia. eapply rest_slice; [exact Hr|right].
  apply rest_app, rest_end_cons in Hr. pose proof (zlen_nonneg l). pose proof (zlen_nonneg w). lia.
Qed.

Lemma url_segment w r p u l :
  errno r = HPE_OK -> method r <> HTTP_CONNECT -> url_ok w = true ->
  rest p (w ++ 32 :: l) -> room (zlen w + 1) r ->
  exists r', reaches (Exec r s_req_spaces_before_url p no_marks u)
      (Exec r' s_req_http_start (p + zlen w + 1) no_marks (u ++ [Data D_url w])) /\
    fields r' = fields r /\ nread r' = nread r + zlen w + 1.
Proof.
  intros Ho Hm Hu Hr Hn. destruct w as [|c w]; [done|]. rewrite zlen_cons in *. pose proof (zlen_nonneg w).
  unfold url_ok in Hu. cbn [fold_left] in Hu.
  assert (nread (bump 1 r) = nread r + 1) as Hb by (apply nread_bump; [eapply room_le; [done|lia]|lia]).
  set (s := parse_url_char s_req_spaces_before_url c) in *.
  assert (s <> s_dead) as Hd by (intros E; by rewrite E, url_dead in Hu).
  destruct (url_steps w (bump 1 r) s (p + 1) (put_mark D_url (Some p) no_marks) u (32 :: l)) as (r1 & H1 & Hf1 & Hn1).
  - by destruct (parse_url_char_state s_req_spaces_before_url c).
  - done.
  - by eapply rest_cons.
  - eapply room_after; [done..|lia|lia].
  - injection Hf1 as Ht Hfl Hcl Hmj Hmn Hme He.
    exists (set_pstate s_req_http_start (bump 1 r1)).
    assert (nread (bump 1 r1) = nread r1 + 1) as Hb1.
    { apply nread_bump; [eapply (room_after _ (1 + zlen w)); [done|lia..]|lia]. }
    split_and!; [|unfold fields; cbn in *; by rewrite Ht, Hfl, Hcl, Hmj, Hmn, Hme, He|cbn in *; lia].
    eapply reaches_trans; [|eapply reaches_trans; [exact H1|]].
    + eapply step_at; [exact Hr|done|eapply room_le; [done|lia]|].
      destruct (url_char_not_blank _ _ Hd) as (E1 & _ & _). cbn [dispatch st]. unfold on_req_spaces_before_url.
      change ch#" " with 32. rewrite E1. cbn. fold s. destruct (method r); try done; unfold url_char; cbn; fold s;
        by destruct s.
    + replace (p + (1 + zlen w) + 1) with (p + 1 + zlen w + 1) by lia.
      assert (rest (p + 1 + zlen w) (32 :: l)) as Hr2 by (apply rest_app; by eapply rest_cons).
      eapply step_at; [exact Hr2|by destruct (fold_left _ _ _)|eapply (room_after _ (1 + zlen w)); [done|lia..]|].
      assert (forall e : exec, url_end (st e) = true -> dispatch recorder data e 32 = on_req_url recorder data e 32) as Hdis.
      { intros e. unfold dispatch. by destruct (st e). }
      rewrite Hdis by done. unfold on_req_url. cbn [Z.eqb]. change (32 =? ch#" ") with true. unfold UPDATE_STATE. cbn [pr st pos mk usr].
      apply (data_here D_url p (c :: w) 32 l); [by cbn; rewrite He|done|rewrite zlen_cons; lia].
Qed.

(** ** The version *)
Lemma room_bump k r : room (1 + k) r -> 0 <= k -> room k (bump 1 r).
Proof. intros Hr Hk. eapply (room_after (1 + k) 1); [done|apply nread_bump; [eapply room_le; [done|lia]|]|..]; lia. Qed.

(** One byte of a fixed string, on the way to a place described by [E] and [Q]. *)
Lemma walk k r s p mk u c l r' s' mk' u' (E : http_parser -> exec) (Q : http_parser -> Prop) :
  rest p (c :: l) -> PARSING_HEADER s = true -> room (1 + k) r -> 0 <= k ->
  dispatch recorder data (Exec (bump 1 r) s p mk u) c = Go (Exec r' s' p mk' u') ->
  nread r' = nread (bump 1 r) ->
  (forall q, rest (p + 1) l -> room k q -> nread q = nread r + 1 -> fields q = fields r' ->
   header_state q = header_state r' -> exists rn, reaches (Exec q s' (p + 1) mk' u') (E rn) /\ Q rn) ->
  exists rn, reaches (Exec r s p mk u) (E rn) /\ Q rn.
Proof.
  intros Hr Hs Hn Hk Ed Hnr H.
  assert (nread r' = nread r + 1) as Hn' by (rewrite Hnr; apply nread_bump; [eapply room_le; [done|lia]|lia]).
  destruct (H r') as (rn & Hm & HQ); try done.
  - by eapply rest_cons.
  - eapply room_after; [done..|lia|lia].
  - exists rn. split; [|done]. eapply reaches_trans; [eapply step_at; [exact Hr|done| |exact Ed]|exact Hm].
    eapply room_le; [done|lia].
Qed.

Definition version : bytes := str#"HTTP/1.1" ++ [CR; LF].

Ltac walk_to k Hr Hn :=
  eapply (walk k); [exact Hr|done|exact Hn|done|reflexivity|reflexivity|];
  clear Hr Hn; let q := fresh "q" in intros q Hr Hn ? ? ?.

Lemma version_segment r p u l :
  errno r = HPE_OK -> rest p (version ++ l) -> room 10 r ->
  exists r', reaches (Exec r s_req_http_start p no_marks u) (Exec r' s_header_field_start (p + 10) no_marks u) /\
    (fields r' = (type r, flags r, content_length r, 1, 1, method r, HPE_OK) /\ nread r' = nread r + 10).
Proof.
  intros Ho Hr Hn. change (rest p (72 :: 84 :: 84 :: 80 :: 47 :: 49 :: 46 :: 49 :: 13 :: 10 :: l)) in Hr.
  walk_to 9 Hr Hn. walk_to 8 Hr Hn. walk_to 7 Hr Hn. walk_to 6 Hr Hn. walk_to 5 Hr Hn.
  walk_to 4 Hr Hn. walk_to 3 Hr Hn. walk_to 2 Hr Hn. walk_to 1 Hr Hn. walk_to 0 Hr Hn.
  replace (p + 10) with (p + 1 + 1 + 1 + 1 + 1 + 1 + 1 + 1 + 1 + 1) by lia.
  eexists. split; [apply reaches_refl|]. split; [|lia].
  unfold fields in *; cbn in *. change (u16 (49 - 48)) with 1 in *. congruence.
Qed.

(** ** Header names *)

(** A header name's state depends on nothing but its letters. *)
Definition same_name r q : Prop := header_state r = header_state q /\ index r = index q.

Lemma header_field_char_same r q x c :
  same_name r q ->
  match header_field_char r x c, header_field_char q x c with
  | Ret r', Ret q' => same_name r' q' /\ fields q' = fields q /\ nread q' = nread q
  | Fault f, Fault g => f = g
  | _, _ => False
  end.
Proof.
  intros [E1 E2]. unfold header_field_char, match_name. rewrite E1.
  destruct (header_state q) eqn:Eq; try done; cbn [header_state index set_index set_header_state]; rewrite ?E2;
    repeat match goal with |- context [if ?b then _ else _] => destruct b end;
    unfold same_name; split_and!; try done; cbn; congruence.
Qed.

Lemma header_field_loop_same w l x1 y : forall p x p1 r q r',
  same_name r q -> header_field_loop w p1 x1 r = Ret (p1 + zlen w, y, r') ->
  forallb (fun c => negb (TOKEN c =? 0)) w = true ->
  exists q', header_field_loop (w ++ 58 :: l) p x q = Ret (p + zlen w, 58, q') /\
    same_name r' q' /\ fields q' = fields q /\ nread q' = nread q.
Proof.
  revert x1. induction w as [|c w IH]; intros x1 p x p1 r q r' Hs E Hw.
  - exists q. cbn [app header_field_loop]. change (TOKEN 58 =? 0) with true. cbn match.
    change (zlen (@nil Z)) with 0. rewrite Z.add_0_r. cbn in E. injection E as _ _ <-. by split_and!.
  - cbn [forallb] in Hw. rewrite andb_true_iff, negb_true_iff in Hw. destruct Hw as [Hc Hw].
    cbn [app header_field_loop] in *. rewrite Hc in *. rewrite zlen_cons in *.
    pose proof (header_field_char_same r q c (TOKEN c) Hs) as Hch.
    destruct (header_field_char r c (TOKEN c)) as [r1|]; [|done].
    destruct (header_field_char q c (TOKEN c)) as [q1|]; [|done].
    destruct Hch as (Hs1 & Hf1 & Hn1). cbn [mbind outcome_bind] in *.
    replace (p1 + (1 + zlen w)) with (p1 + 1 + zlen w) in E by lia.
    destruct (IH c (p + 1) c (p1 + 1) r1 q1 r' Hs1 E Hw) as (q' & Eq & Hsq & Hfq & Hnq).
    exists q'. rewrite Z.add_assoc. split_and!; congruence.
Qed.

(** The state a name leads to. *)
Definition name_start (c : Z) (r : http_parser) : http_parser :=
  set_header_state (first_header_state (TOKEN c)) (set_index 0 r).
Definition name_state (name : bytes) : header_states :=
  match name with
  | [] => h_general
  | c :: w =>
      match header_field_loop w 0 c (name_start c (http_parser_init HTTP_REQUEST)) with
      | Ret (_, _, r) => header_state r
      | Fault _ => h_general
      end
  end.
Definition token (name : bytes) : bool := forallb (fun c => negb (TOKEN c =? 0)) name.

Lemma name_start_ok c w :
  token w = true ->
  exists r y, header_field_loop w 0 c (name_start c (http_parser_init HTTP_REQUEST)) = Ret (0 + zlen w, y, r) /\
    is_field_state (header_state r) = true.
Proof.
  intros Hw.
  assert (forall w p x r, token w = true -> is_field_state (header_state r) = true ->
    exists r' y, header_field_loop w p x r = Ret (p + zlen w, y, r') /\ is_field_state (header_state r') = true) as H.
  { clear. induction w as [|c w IH]; intros p x r Hw Hf; cbn [header_field_loop].
    - exists r, x. change (zlen (@nil Z)) with 0. by rewrite Z.add_0_r.
    - cbn [token forallb] in Hw. rewrite andb_true_iff, negb_true_iff in Hw. destruct Hw as [Hc Hw]. rewrite Hc, zlen_cons.
      assert (exists r1, header_field_char r c (TOKEN c) = Ret r1 /\ is_field_state (header_state r1) = true) as (r1 & -> & Hf1).
      { unfold header_field_char, match_name. destruct (header_state r) eqn:E; try done; eexists; (split; [reflexivity|]);
          repeat match goal with |- context [if ?b then _ else _] => destruct b end; cbn; by rewrite ?E. }
      obind. rewrite Z.add_assoc. by apply IH. }
  apply H; [done|]. cbn. unfold first_header_state. by repeat case_match.
Qed.

Lemma token_not_crlf c : (TOKEN c =? 0) = false -> (c =? CR) = false /\ (c =? LF) = false.
Proof.
  intros H. split; apply Z.eqb_neq; intros ->; done.
Qed.

(** A name with its colon, from the start of a header line. *)
Lemma name_segment name r p u l :
  errno r = HPE_OK -> name <> [] -> token name = true -> rest p (name ++ 58 :: l) -> room (zlen name + 1) r ->
  exists r', reaches (Exec r s_header_field_start p no_marks u)
      (Exec r' s_header_value_discard_ws (p + zlen name + 1) no_marks (u ++ [Data D_header_field name])) /\
    (header_state r' = name_state name /\ fields r' = fields r /\ nread r' = nread r + zlen name + 1).
Proof.
  intros Ho Hne Ht Hr Hn. destruct name as [|c w]; [done|]. cbn [token forallb] in Ht.
  rewrite andb_true_iff, negb_true_iff in Ht. destruct Ht as [Hc Hw]. rewrite zlen_cons in *.
  pose proof (zlen_nonneg w). destruct (token_not_crlf c Hc) as [Hcr Hlf].
  assert (room (zlen w + 1) (bump 1 r) /\ nread (bump 1 r) = nread r + 1) as [Hn1 Hb1].
  { split; [apply room_bump; [eapply room_le; [done|lia]|lia]|apply nread_bump; [eapply room_le; [done|lia]|lia]]. }
  set (r1 := name_start c (bump 1 r)).
  assert (reaches (Exec r s_header_field_start p no_marks u)
            (Exec r1 s_header_field (p + 1) (put_mark D_header_field (Some p) no_marks) u)) as H1.
  { eapply step_at; [exact Hr|done|eapply room_le; [done|lia]|].
    cbn [dispatch st]. unfold on_header_field_start. by rewrite Hcr, Hlf, Hc. }
  change (rest p (c :: (w ++ 58 :: l))) in Hr. apply rest_cons in Hr as Hr1.
  destruct (name_start_ok c w Hw) as (ra & y & Ea & Hfa).
  assert (nread (bump 1 r1) = nread r1 + 1 /\ room (zlen w) (bump 1 r1)) as [Hb2 Hn2].
  { split; [apply nread_bump; [eapply room_le; [exact Hn1|lia]|lia]|]. apply room_bump; [|lia].
    eapply room_le; [exact Hn1|lia]. }
  assert (same_name (name_start c (http_parser_init HTTP_REQUEST)) (bump 1 r1)) as Hsame by done.
  pose proof (zlen_nonneg l).
  assert (exists x0 l0, (w ++ 58 :: l) = x0 :: l0 /\ PARSING_HEADER s_header_field = true) as (x0 & l0 & Ex & _).
  { destruct w; simpl; eauto. }
  destruct (header_field_loop_same w l c y (p + 1) x0 0 _ (bump 1 r1) ra Hsame Ea Hw) as (q & Eq & Hsq & Hfq & Hnq).
  exists (set_pstate s_header_value_discard_ws (bump (zlen w) q)).
  assert (nread (bump (zlen w) q) = nread q + zlen w) as Hb3.
  { apply nread_bump; [|lia]. eapply room_after; [exact Hn2|rewrite Hnq, Z.add_0_r; reflexivity|lia..]. }
  split_and!.
  2: { cbn. by destruct Hsq as [<- _]; rewrite Ea. }
  2: { exact Hfq. }
  2: { change (nread (bump (zlen w) q) = nread r + (1 + zlen w) + 1). rewrite Hb3, Hnq, Hb2.
       change (nread r1) with (nread (bump 1 r)). lia. }
  eapply reaches_trans; [exact H1|]. rewrite Ex in Hr1.
  replace (p + (1 + zlen w) + 1) with (p + 1 + zlen w + 1) by lia.
  apply (step_header _ _ _ _ _ x0 l0 (Exec (set_pstate s_header_value_discard_ws (bump (zlen w) q))
    s_header_value_discard_ws (p + 1 + zlen w) no_marks (u ++ [Data D_header_field (c :: w)])));
    [done|exact Hr1|eapply room_le; [exact Hn1|lia]|].
  cbn [dispatch st]. unfold on_header_field. cbn [pos pr]. destruct Hr1 as [Hp1 Hd1]. unfold HttpMessages.rest in *. rewrite Hd1, <- Ex, Eq.
  cbn [lift mbind result_bind]. replace (p + 1 + zlen w - (p + 1)) with (zlen w) by lia.
  rewrite count_ok; [|cbn; eapply room_after; [exact Hn2|rewrite Hnq, Z.add_0_r; reflexivity|lia..]|lia].
  cbn [mbind result_bind with_pr set_pos pr st pos mk usr].
  assert (p + 1 + zlen w <> len data) as Hl.
  { apply (rest_app data p (c :: w) (58 :: l)), rest_end_cons in Hr. rewrite zlen_cons in Hr. lia. }
  rewrite (proj2 (Z.eqb_neq _ _) Hl). change (58 =? ch#":") with true. cbn match. unfold UPDATE_STATE. cbn [pr st pos mk usr].
  apply (data_here D_header_field p (c :: w) 58 l); [|exact Hr|rewrite zlen_cons; lia].
  apply (f_equal (fun x => snd x)) in Hfq. cbn in Hfq. cbn. by rewrite Hfq.
Qed.

(** ** Header values *)
Definition line_char (c : Z) : bool := negb (c =? CR) && negb (c =? LF).
Definition value_ok (v : bytes) : bool :=
  match v with
  | [] => false
  | c :: _ => negb (c =? 32) && negb (c =? 9) && forallb line_char v
  end.

Lemma memchr_first c w : forall l n off,
  forallb (fun x => negb (x =? c)) w = true -> (length w < n)%nat ->
  memchr c (take n (w ++ c :: l)) off = Some (off + zlen w).
Proof.
  induction w as [|x w IH]; intros l n off Hw Hn; (destruct n as [|n]; [simpl in Hn; lia|]); cbn [app take memchr].
  - rewrite Z.eqb_refl. change (zlen (@nil Z)) with 0. by rewrite Z.add_0_r.
  - cbn [forallb] in Hw. rewrite andb_true_iff, negb_true_iff in Hw. destruct Hw as [-> Hw].
    simpl in Hn. rewrite IH by (done || lia). rewrite zlen_cons. f_equal. lia.
Qed.
Lemma memchr_later c d w : forall l n off q,
  forallb (fun x => negb (x =? c)) w = true -> (d =? c) = false ->
  memchr c (take n (w ++ d :: l)) off = Some q -> off + zlen w < q.
Proof.
  induction w as [|x w IH]; intros l n off q Hw Hd; (destruct n as [|n]; [done|]); cbn [app take memchr].
  - rewrite Hd. intros E. apply memchr_range in E. change (zlen (@nil Z)) with 0. lia.
  - cbn [forallb] in Hw. rewrite andb_true_iff, negb_true_iff in Hw. destruct Hw as [-> Hw].
    intros E. apply IH in E; [|done..]. rewrite zlen_cons. lia.
Qed.

Lemma line_chars w : forallb line_char w = true ->
  forallb (fun x => negb (x =? CR)) w = true /\ forallb (fun x => negb (x =? LF)) w = true.
Proof.
  induction w as [|x w IH]; [done|]. cbn [forallb]. unfold line_char at 1. rewrite !andb_true_iff. tauto.
Qed.

Lemma skip_general_spec p w l :
  rest p (w ++ CR :: l) -> forallb line_char w = true -> zlen w < HTTP_MAX_HEADER_SIZE ->
  skip_general data p = p + zlen w.
Proof.
  intros Hr Hw Hn. apply line_chars in Hw as [Hcr Hlf]. pose proof Hr as [Hp E].
  pose proof (rest_app _ _ _ _ Hr) as Hr2. apply rest_end_cons in Hr2. pose proof (zlen_nonneg l).
  unfold skip_general. unfold HttpMessages.rest in E. rewrite E.
  assert (length w < Z.to_nat (Z.min (len data - p) HTTP_MAX_HEADER_SIZE))%nat as Hl by (unfold zlen in *; lia).
  rewrite memchr_first by done. destruct (memchr LF _ p) as [q|] eqn:Eq; [|done].
  apply memchr_later in Eq; [|done..]. by rewrite (proj2 (Z.leb_gt _ _)).
Qed.

(** The CR that ends a value. *)
Lemma value_cr fuel start h r p m u w l :
  errno r = HPE_OK -> rest m (w ++ CR :: l) -> p = m + zlen w -> (0 < fuel)%nat ->
  header_value_loop recorder data fuel start h (Exec r s_header_value p (put_mark D_header_value (Some m) no_marks) u) =
    Go (h, Exec (set_pstate s_header_almost_done (set_header_state h r)) s_header_almost_done p no_marks
          (u ++ [Data D_header_value w])).
Proof.
  intros Ho Hr -> Hf. destruct fuel as [|fuel]; [lia|]. pose proof (rest_app _ _ _ _ Hr) as Hr2.
  pose proof (rest_end_cons _ _ _ _ Hr2). pose proof (zlen_nonneg l). cbn [header_value_loop pos].
  rewrite (proj2 (Z.eqb_neq _ _)) by lia. rewrite (rest_read _ _ _ _ Hr2). cbn [lift mbind result_bind].
  change (znth [CR] 0 =? CR) with true. cbn match. unfold with_pr, UPDATE_STATE. cbn [pr st pos mk usr].
  by rewrite (data_here D_header_value m w CR l).
Qed.

Lemma value_general fuel start r p m u v w l :
  errno r = HPE_OK -> rest m (v ++ w ++ CR :: l) -> p = m + zlen v -> (1 < fuel)%nat ->
  forallb line_char w = true -> zlen w < HTTP_MAX_HEADER_SIZE ->
  exists r', header_value_loop recorder data fuel start h_general
      (Exec r s_header_value p (put_mark D_header_value (Some m) no_marks) u) =
    Go (h_general, Exec r' s_header_almost_done (p + zlen w) no_marks (u ++ [Data D_header_value (v ++ w)])) /\
    fields r' = fields r /\ nread r' = nread r.
Proof.
  intros Ho Hr Hp Hf Hw Hn. eexists. split; [|split; [|]].
  - destruct w as [|c w].
    + rewrite app_nil_r. change (zlen (@nil Z)) with 0. rewrite Z.add_0_r. apply (value_cr _ _ _ _ _ _ _ _ l); done || lia.
    + destruct fuel as [|fuel]; [lia|]. pose proof (rest_app _ _ _ _ Hr) as Hr2. rewrite <- Hp in Hr2.
      change (rest p (c :: (w ++ CR :: l))) in Hr2. pose proof (rest_end_cons _ _ _ _ Hr2). pose proof (zlen_nonneg l).
      pose proof (zlen_nonneg (w ++ CR :: l)). cbn [header_value_loop pos].
      rewrite (proj2 (Z.eqb_neq _ _)) by lia. rewrite (rest_read _ _ _ _ Hr2). cbn [lift mbind result_bind].
      change (znth [c] 0) with c. pose proof Hw as Hw'. cbn [forallb] in Hw'. unfold line_char in Hw' at 1.
      rewrite !andb_true_iff, !negb_true_iff in Hw'. destruct Hw' as [[-> ->] _].
      cbn [header_value_char mbind result_bind pos set_pos pr st mk usr].
      rewrite (skip_general_spec p (c :: w) l Hr2 Hw Hn).
      replace (p + zlen (c :: w) - 1 + 1) with (p + zlen (c :: w)) by lia.
      apply (value_cr _ _ _ _ _ _ _ _ l); try done; [by rewrite <- app_assoc|rewrite zlen_app; lia|lia].
  - done.
  - done.
Qed.

(** What the loop over a value makes of [w] takes the parser to the next line. *)
Lemma value_line r p m u w l h r' u' :
  rest p (w ++ CR :: LF :: l) -> room (zlen w + 2) r ->
  header_value_loop recorder data (length data) p (header_state r)
    (Exec (bump 1 r) s_header_value p (put_mark D_header_value (Some m) no_marks) u) =
    Go (h, Exec r' s_header_almost_done (p + zlen w) no_marks u') ->
  nread r' = nread (bump 1 r) ->
  exists q, reaches (Exec r s_header_value p (put_mark D_header_value (Some m) no_marks) u)
      (Exec q s_header_value_lws (p + zlen w + 2) no_marks u') /\
    (header_state q = h /\ fields q = fields r' /\ nread q = nread r + zlen w + 2).
Proof.
  intros Hr Hn El Hnr. pose proof (zlen_nonneg w).
  assert (nread (bump 1 r) = nread r + 1) as Hb by (apply nread_bump; [eapply room_le; [done|lia]|lia]).
  set (q1 := bump (zlen w) (set_header_state h r')).
  assert (room (zlen w + 1) r') as Hn1 by (eapply room_after; [exact Hn|rewrite Hnr; exact Hb|lia..]).
  assert (nread q1 = nread r' + zlen w) as Hb1.
  { apply (nread_bump (zlen w) (set_header_state h r')); [|lia]. eapply room_le; [exact Hn1|lia]. }
  assert (room 1 q1) as Hn2 by (eapply room_after; [exact Hn1|exact Hb1|lia..]).
  exists (bump 1 q1). split_and!.
  2: done.
  2: done.
  2: { rewrite nread_bump by (done || lia). lia. }
  destruct (rest_app _ _ _ _ Hr) as [Hp2 Hd2]. pose proof (rest_end_cons _ _ _ _ (conj Hp2 Hd2)) as Hlen.
  rewrite zlen_cons in Hlen. pose proof (zlen_nonneg l).
  assert (exists x0 l0, w ++ CR :: LF :: l = x0 :: l0) as (x0 & l0 & Ex) by (destruct w; simpl; eauto).
  pose proof Hr as Hr0. rewrite Ex in Hr0.
  eapply reaches_trans.
  - apply (step_header _ _ _ _ _ x0 l0 (Exec q1 s_header_almost_done (p + zlen w) no_marks u'));
      [done|exact Hr0|eapply room_le; [exact Hn|lia]|].
    cbn [dispatch st]. unfold on_header_value. cbn [pos pr]. change (header_state (bump 1 r)) with (header_state r).
    rewrite El. cbn [mbind result_bind with_pr pr st pos mk usr].
    replace (p + zlen w - p) with (zlen w) by lia.
    rewrite count_ok; [|eapply room_le; [exact Hn1|lia]|lia]. cbn [mbind result_bind with_pr pr st pos mk usr].
    by rewrite (proj2 (Z.eqb_neq _ _)) by lia.
  - unfold set_pos. cbn [pr st pos mk usr]. replace (p + zlen w + 2) with (p + zlen w + 1 + 1) by lia.
    eapply (step_at _ _ _ _ _ LF l); [apply (rest_cons _ _ CR); exact (conj Hp2 Hd2)|done|done|reflexivity].
Qed.

Definition plain_state (h : header_states) : bool :=
  match h with h_connection | h_content_length | h_transfer_encoding | h_upgrade => false | _ => is_field_state h end.

(** A blank, the value of a header without special meaning, and its line end. *)
Lemma value_segment v r p u l :
  errno r = HPE_OK -> plain_state (header_state r) = true -> value_ok v = true ->
  rest p (32 :: v ++ CR :: LF :: l) -> room (zlen v + 3) r ->
  exists q, reaches (Exec r s_header_value_discard_ws p no_marks u)
      (Exec q s_header_value_lws (p + zlen v + 3) no_marks (u ++ [Data D_header_value v])) /\
    (header_state q = h_general /\ fields q = fields r /\ nread q = nread r + zlen v + 3).
Proof.
  intros Ho Hh Hv Hr Hn. destruct v as [|c w]; [done|]. cbn [value_ok] in Hv.
  rewrite !andb_true_iff, !negb_true_iff in Hv. destruct Hv as [[Hc1 Hc2] Hv]. pose proof Hv as Hv0.
  cbn [forallb] in Hv. unfold line_char in Hv at 1. rewrite !andb_true_iff, !negb_true_iff in Hv.
  destruct Hv as [[Hcr Hlf] Hw]. rewrite zlen_cons in *. pose proof (zlen_nonneg w).
  apply (walk (zlen w + 3) _ _ _ _ _ 32 ((c :: w) ++ CR :: LF :: l) (bump 1 r) s_header_value_discard_ws no_marks u);
    [exact Hr|done|by replace (1 + (zlen w + 3)) with (1 + zlen w + 3) by lia|lia|done|done|].
  clear Hr. intros q0 Hr Hn0 Hq0 Hf0 Hh0. change (rest (p + 1) (c :: (w ++ CR :: LF :: l))) in Hr.
  apply (walk (zlen w + 2) _ _ _ _ _ c (w ++ CR :: LF :: l) (set_header_state h_general (set_index 0 (bump 1 q0)))
    s_header_value (put_mark D_header_value (Some (p + 1)) no_marks) u); [exact Hr|done| |lia| |done|].
  { by replace (1 + (zlen w + 2)) with (zlen w + 3) by lia. }
  { cbn [dispatch st]. unfold on_header_value_discard_ws. change ch#" " with 32. rewrite Hc1, Hc2, Hcr, Hlf.
    unfold on_header_value_start. cbn. rewrite Hh0. cbn. by destruct (header_state r). }
  intros q1 Hr1 Hn1 Hq1 Hf1 Hh1. cbn in Hh1.
  assert (errno q1 = HPE_OK) as Ho1 by (unfold fields in Hf0, Hf1; cbn in Hf0, Hf1; congruence).
  pose proof (rest_app _ _ _ _ Hr1) as Hr2. apply rest_end_cons in Hr2. rewrite zlen_cons in Hr2.
  pose proof (zlen_nonneg l). destruct Hr1 as [Hp1 Hd1]. pose proof (conj Hp1 Hd1) as Hr1.
  assert (nread (bump 1 q1) = nread q1 + 1) as Hb by (apply nread_bump; [eapply room_le; [done|lia]|lia]).
  destruct (value_general (length data) (p + 1 + 1) (bump 1 q1) (p + 1 + 1) (p + 1) u [c] w (LF :: l)) as (r' & El & Hf & Hnr).
  - exact Ho1.
  - exact Hr.
  - done.
  - destruct Hr as [Hp Hd]. unfold len, zlen in *. lia.
  - done.
  - destruct Hn1. lia.
  - destruct (value_line q1 (p + 1 + 1) (p + 1) u w l h_general r' (u ++ [Data D_header_value (c :: w)])) as (q & Hq & Hhq & Hfq & Hnq).
    + exact Hr1.
    + done.
    + rewrite Hh1. exact El.
    + done.
    + exists q. replace (p + (1 + zlen w) + 3) with (p + 1 + 1 + zlen w + 2) by lia. split_and!; [exact Hq|done| |lia].
      rewrite Hfq, Hf. change (fields (bump 1 q1)) with (fields q1). rewrite Hf1. exact Hf0.
Qed.

(** ** Content-Length *)

(** The number a string of digits denotes. *)
Definition dec (v : Z) (ds : bytes) : Z := fold_left (fun v d => v * 10 + (d - 48)) ds v.
Definition digits (ds : bytes) : bool := forallb IS_NUM ds.
(** The largest length the parser takes. *)
Definition MAX_CONTENT_LENGTH : Z := 18446744073709551609.

Lemma IS_NUM_range c : IS_NUM c = true -> 48 <= c <= 57.
Proof. unfold IS_NUM. rewrite andb_true_iff, !Z.leb_le. done. Qed.
Lemma dec_mono ds : forall v, 0 <= v -> digits ds = true -> v <= dec v ds.
Proof.
  induction ds as [|d ds IH]; intros v Hv Hd; cbn [dec fold_left]; [lia|].
  cbn [digits forallb] in Hd. apply andb_true_iff in Hd as [Hd1 Hd]. apply IS_NUM_range in Hd1.
  specialize (IH (v * 10 + (d - 48)) ltac:(lia) Hd). unfold dec in IH. lia.
Qed.

Lemma IS_NUM_line c : IS_NUM c = true -> (c =? 32) = false /\ (c =? 9) = false /\ (c =? CR) = false /\ (c =? LF) = false.
Proof. intros H. apply IS_NUM_range in H. unfold CR, LF. rewrite !Z.eqb_neq. lia. Qed.

(** One digit in the loop. *)
Lemma length_digit r s p mk u d :
  IS_NUM d = true -> 0 <= content_length r <= ULLONG_MAX ->
  content_length_char h_content_length (Exec r s p mk u) d =
    (if content_length r * 10 + (d - 48) <=? MAX_CONTENT_LENGTH
     then Go (h_content_length, Exec (set_content_length (content_length r * 10 + (d - 48)) r) s p mk u)
     else error HPE_INVALID_CONTENT_LENGTH (Exec (set_header_state h_content_length r) s p mk u)).
Proof.
  intros Hd Hc. destruct (IS_NUM_line d Hd) as (E & _). unfold content_length_char. change ch#" " with 32.
  rewrite E, Hd. apply IS_NUM_range in Hd. cbn [negb pr]. change ch#"0" with 48.
  change ((ULLONG_MAX - 10) / 10) with 1844674407370955160. unfold MAX_CONTENT_LENGTH, ULLONG_MAX in *. cbn zeta.
  destruct (Z.leb_spec (content_length r * 10 + (d - 48)) 18446744073709551609).
  - rewrite (proj2 (Z.ltb_ge _ _)) by lia.
    rewrite (uwrap_small 64 (content_length r * 10)), (uwrap_small 64 (_ + _)) by lia. done.
  - by rewrite (proj2 (Z.ltb_lt _ _)) by lia.
Qed.

Definition with_length (v : Z) r := (type r, flags r, v, http_major r, http_minor r, method r, errno r).

Lemma value_digits w : forall fuel start r p m u v l,
  errno r = HPE_OK -> 0 <= content_length r <= ULLONG_MAX -> rest m (v ++ w ++ CR :: l) -> p = m + zlen v ->
  digits w = true -> (length w < fuel)%nat ->
  if dec (content_length r) w <=? MAX_CONTENT_LENGTH then
    exists r', header_value_loop recorder data fuel start h_content_length
        (Exec r s_header_value p (put_mark D_header_value (Some m) no_marks) u) =
      Go (h_content_length, Exec r' s_header_almost_done (p + zlen w) no_marks (u ++ [Data D_header_value (v ++ w)])) /\
      fields r' = with_length (dec (content_length r) w) r /\ nread r' = nread r
  else
    w <> [] -> exists n r', header_value_loop recorder data fuel start h_content_length
        (Exec r s_header_value p (put_mark D_header_value (Some m) no_marks) u) = Return n r' u /\
      errno r' = HPE_INVALID_CONTENT_LENGTH.
Proof.
  induction w as [|d w IH]; intros fuel start r p m u v l Ho Hc Hr Hp Hw Hf.
  - cbn [dec fold_left]. destruct (_ <=? _); [|done]. eexists. split; [|split].
    + rewrite app_nil_r. change (zlen (@nil Z)) with 0. rewrite Z.add_0_r. apply (value_cr _ _ _ _ _ _ _ _ l); try done.
    + done.
    + done.
  - destruct fuel as [|fuel]; [simpl in Hf; lia|]. cbn [length] in Hf. cbn [digits forallb] in Hw.
    apply andb_true_iff in Hw as [Hd Hw]. pose proof (rest_app _ _ _ _ Hr) as Hr2. rewrite <- Hp in Hr2.
    change (rest p (d :: (w ++ CR :: l))) in Hr2. pose proof (rest_end_cons _ _ _ _ Hr2).
    pose proof (zlen_nonneg (w ++ CR :: l)). cbn [header_value_loop pos].
    rewrite (proj2 (Z.eqb_neq _ _)) by lia. rewrite (rest_read _ _ _ _ Hr2). cbn [lift mbind result_bind].
    change (znth [d] 0) with d. destruct (IS_NUM_line d Hd) as (_ & _ & -> & ->).
    cbn [header_value_char]. rewrite length_digit by done. pose proof (IS_NUM_range d Hd) as Hdr.
    cbn [dec fold_left]. change (fold_left _ w ?x) with (dec x w).
    set (v' := content_length r * 10 + (d - 48)).
    assert (v' <= dec v' w) as Hmono by (apply dec_mono; [lia|done]).
    destruct (Z.leb_spec v' MAX_CONTENT_LENGTH) as [Hle|Hgt].
    + cbn [mbind result_bind]. unfold set_pos. cbn [pr st pos mk usr]. set (r1 := set_content_length v' r).
      assert (content_length r1 = v') as Hc1 by (cbn; apply uwrap_small; unfold MAX_CONTENT_LENGTH in Hle; lia).
      specialize (IH fuel start r1 (p + 1) m u (v ++ [d]) l Ho). rewrite Hc1 in IH.
      unfold MAX_CONTENT_LENGTH, ULLONG_MAX in *.
      specialize (IH ltac:(lia) ltac:(rewrite <- app_assoc; exact Hr) ltac:(rewrite zlen_app; change (zlen [d]) with 1; lia) Hw ltac:(lia)).
      destruct (dec v' w <=? _) eqn:El.
      * destruct IH as (r' & E & Hf' & Hn'). exists r'. rewrite E, <- app_assoc, zlen_cons, Z.add_assoc. split_and!; try done.
      * intros _. destruct w as [|d2 w]; [|apply IH; done]. cbn in El. apply Z.leb_gt in El. lia.
    + rewrite (proj2 (Z.leb_gt _ _)) by lia. intros _. do 2 eexists. split; [reflexivity|]. done.
Qed.

(** A blank, a length the parser can hold, and the line end. *)
Lemma length_segment ds r p u l :
  errno r = HPE_OK -> header_state r = h_content_length -> ds <> [] -> digits ds = true ->
  dec 0 ds <= MAX_CONTENT_LENGTH -> rest p (32 :: ds ++ CR :: LF :: l) -> room (zlen ds + 3) r ->
  exists q, reaches (Exec r s_header_value_discard_ws p no_marks u)
      (Exec q s_header_value_lws (p + zlen ds + 3) no_marks (u ++ [Data D_header_value ds])) /\
    (header_state q = h_content_length /\ fields q = with_length (dec 0 ds) r /\ nread q = nread r + zlen ds + 3).
Proof.
  intros Ho Hh Hne Hds Hmax Hr Hn. destruct ds as [|c w]; [done|]. cbn [digits forallb] in Hds.
  apply andb_true_iff in Hds as [Hc Hw]. destruct (IS_NUM_line c Hc) as (Hc1 & Hc2 & Hcr & Hlf).
  pose proof (IS_NUM_range c Hc). rewrite zlen_cons in *. pose proof (zlen_nonneg w).
  apply (walk (zlen w + 3) _ _ _ _ _ 32 ((c :: w) ++ CR :: LF :: l) (bump 1 r) s_header_value_discard_ws no_marks u);
    [exact Hr|done|by replace (1 + (zlen w + 3)) with (1 + zlen w + 3) by lia|lia|done|done|].
  clear Hr. intros q0 Hr Hn0 Hq0 Hf0 Hh0. change (rest (p + 1) (c :: (w ++ CR :: LF :: l))) in Hr.
  apply (walk (zlen w + 2) _ _ _ _ _ c (w ++ CR :: LF :: l) (set_content_length (c - 48) (set_index 0 (bump 1 q0)))
    s_header_value (put_mark D_header_value (Some (p + 1)) no_marks) u); [exact Hr|done| |lia| |done|].
  { by replace (1 + (zlen w + 2)) with (zlen w + 3) by lia. }
  { cbn [dispatch st]. unfold on_header_value_discard_ws. change ch#" " with 32. rewrite Hc1, Hc2, Hcr, Hlf.
    unfold on_header_value_start. cbn. rewrite Hh0. cbn. rewrite Hh. by rewrite Hc. }
  intros q1 Hr1 Hn1 Hq1 Hf1 Hh1. cbn in Hh1. rewrite Hh0 in Hh1. cbn in Hh1. rewrite Hh in Hh1.
  assert (u64 (c - 48) = c - 48) as Ew by (apply uwrap_small; lia).
  assert (errno q1 = HPE_OK /\ content_length q1 = c - 48) as [Ho1 Hcl1].
  { unfold fields in Hf0, Hf1. cbn in Hf0, Hf1. rewrite Ew in Hf1. split; congruence. }
  pose proof (rest_app _ _ _ _ Hr1) as Hr2. apply rest_end_cons in Hr2. rewrite zlen_cons in Hr2.
  pose proof (zlen_nonneg l). destruct Hr1 as [Hp1 Hd1]. pose proof (conj Hp1 Hd1) as Hr1.
  cbn [dec fold_left] in Hmax. change (0 * 10 + (c - 48)) with (c - 48) in Hmax. fold (dec (c - 48) w) in Hmax.
  pose proof (value_digits w (length data) (p + 1 + 1) (bump 1 q1) (p + 1 + 1) (p + 1) u [c] (LF :: l)) as Hv.
  change (content_length (bump 1 q1)) with (content_length q1) in Hv. rewrite Hcl1 in Hv.
  rewrite (proj2 (Z.leb_le _ _) Hmax) in Hv. destruct Hv as (r' & El & Hf & Hnr).
  - exact Ho1.
  - unfold ULLONG_MAX. lia.
  - exact Hr.
  - done.
  - done.
  - destruct Hr as [Hp Hd]. unfold len, zlen in *. lia.
  - destruct (value_line q1 (p + 1 + 1) (p + 1) u w l h_content_length r' (u ++ [Data D_header_value (c :: w)])) as (q & Hq & Hhq & Hfq & Hnq).
    + exact Hr1.
    + done.
    + rewrite Hh1. exact El.
    + done.
    + exists q. replace (p + (1 + zlen w) + 3) with (p + 1 + 1 + zlen w + 2) by lia. split_and!; [exact Hq|done| |lia].
      rewrite Hfq, Hf. unfold fields, with_length in *. cbn in Hf0, Hf1 |- *. rewrite Z.add_0_l in *. 
      change (0 * 10 + (c - 48)) with (c - 48). change (fold_left _ w (c - 48)) with (dec (c - 48) w). congruence.
Qed.

(** ** From one header line to the next *)
Lemma next_line r p u c l :
  finish_flag (header_state r) = 0 -> (c =? 32) || (c =? 9) = false -> rest p (c :: l) -> room 1 r ->
  exists q, reaches (Exec r s_header_value_lws p no_marks u) (Exec q s_header_field_start p no_marks u) /\
    (fields q = fields r /\ nread q = nread r + 1).
Proof.
  intros Hf Hc Hr Hn. exists (bump 1 r). split; [|split; [done|by apply nread_bump]].
  replace (Exec (bump 1 r) s_header_field_start p no_marks u) with
    (set_pos (p - 1 + 1) (Exec (bump 1 r) s_header_field_start (p - 1) no_marks u)) by (unfold set_pos; cbn; f_equal; lia).
  eapply (step_header _ _ _ _ _ c l (Exec (bump 1 r) s_header_field_start (p - 1) no_marks u)); [done|exact Hr|done|].
  cbn [dispatch st]. unfold on_header_value_lws. change ch#" " with 32. rewrite Hc.
  unfold finish_header, with_pr. cbn [pr st pos mk usr]. change (header_state (bump 1 r)) with (header_state r). by rewrite Hf.
Qed.

(** ** The end of a message *)
Lemma step_body r s p mk u c l e1 :
  PARSING_HEADER s = false -> rest p (c :: l) -> dispatch recorder data (Exec r s p mk u) c = Go e1 ->
  reaches (Exec r s p mk u) (set_pos (pos e1 + 1) e1).
Proof. intros Hs Hr E. eapply round_reaches; [exact Hr|]. cbn [st]. by rewrite Hs. Qed.

(** A request of a persistent connection: the next message is another request. *)
Lemma next_request r : type r = HTTP_REQUEST -> http_major r = 1 -> http_minor r = 1 -> flags r = 0 ->
  NEW_MESSAGE r = s_start_req.
Proof.
  intros Ht Hj Hn Hf. unfold NEW_MESSAGE, http_should_keep_alive, http_message_needs_eof, has_flag, start_state.
  by rewrite Ht, Hj, Hn, Hf.
Qed.

Definition in_request (cl : Z) (m : http_method) r : Prop :=
  fields r = (HTTP_REQUEST, 0, cl, 1, 1, m, HPE_OK).

Lemma headers_end cl m r p u l :
  in_request cl m r -> m <> HTTP_CONNECT -> rest p (CR :: LF :: l) -> room 3 r ->
  exists q, reaches (Exec r s_header_field_start p no_marks u)
      (Exec q s_headers_done (p + 1) no_marks (u ++ [Notify N_headers_complete])) /\
    (in_request cl m q /\ upgrade q = false /\ room 1 q).
Proof.
  intros Hf Hm Hr Hn. unfold in_request in *.
  apply (walk 2 _ _ _ _ _ CR (LF :: l) (bump 1 r) s_headers_almost_done no_marks u); try done.
  clear Hr Hn. intros q Hr Hn _ Hq _. change (fields (bump 1 r)) with (fields r) in Hq. rewrite Hf in Hq. clear Hf.
  unfold fields in Hq. injection Hq as Ht Hfl Hcl Hmj Hmn Hme He.
  set (q1 := set_upgrade false (bump 1 q)). exists q1.
  assert (nread (bump 1 q) = nread q + 1) as Hb by (apply nread_bump; [eapply room_le; [done|lia]|lia]).
  split; [|split_and!; [unfold fields, q1; cbn; congruence|done|eapply (room_after 2 1); [exact Hn|exact Hb|lia..]]].
  replace (Exec q1 s_headers_done (p + 1) no_marks (u ++ [Notify N_headers_complete])) with
    (set_pos (p + 1 - 1 + 1) (Exec q1 s_headers_done (p + 1 - 1) no_marks (u ++ [Notify N_headers_complete])))
    by (unfold set_pos; cbn; f_equal; lia).
  eapply (step_header _ _ _ _ _ LF l (Exec q1 s_headers_done (p + 1 - 1) no_marks _)); [done|exact Hr|eapply room_le; [done|lia]|].
  cbn [dispatch st]. unfold on_headers_almost_done, STRICT_CHECK. change (negb (LF =? LF)) with false. cbn match.
  unfold has_flag. cbn [pr]. change (flags (bump 1 q)) with (flags q). rewrite Hfl. cbn [Z.land Z.eqb negb].
  unfold with_pr, UPDATE_STATE. cbn [pr st pos mk usr flags method]. change (method (bump 1 q)) with (method q).
  change (flags (bump 1 q)) with (flags q). rewrite Hfl, Hme.
  rewrite (bool_decide_eq_false_2 (m = HTTP_CONNECT)) by done. cbn [orb Z.land Z.eqb Z.lor F_UPGRADE F_CONNECTION_UPGRADE Pos.lor].
  cbn. rewrite is_ok_true; [done|]. exact He.
Qed.

Lemma headers_done_end cl m r p u l :
  in_request cl m r -> cl = 0 \/ cl = ULLONG_MAX -> upgrade r = false -> rest p (LF :: l) -> room 1 r ->
  exists q, reaches (Exec r s_headers_done p no_marks u)
      (Exec q s_start_req (p + 1) no_marks (u ++ [Notify N_message_complete])) /\
    (errno q = HPE_OK /\ type q = HTTP_REQUEST /\ nread q = 0).
Proof.
  intros Hf Hcl' Hup Hr Hn. unfold in_request, fields in Hf. injection Hf as Ht Hfl Hcl Hmj Hmn Hme He.
  set (r0 := set_nread 0 (bump 1 r)).
  exists (set_pstate s_start_req r0). split; [|done].
  assert (NEW_MESSAGE r0 = s_start_req) as Hnew by by apply next_request.
  assert (complete recorder (Exec r0 s_headers_done p no_marks u) =
    Go (Exec (set_pstate s_start_req r0) s_start_req p no_marks (u ++ [Notify N_message_complete]))) as Hcomp.
  { unfold complete, CALLBACK_NOTIFY, UPDATE_STATE. cbn [pr st pos mk usr]. rewrite Hnew, record_notify by exact He. done. }
  eapply (step_at _ _ _ _ _ LF l); [exact Hr|done|done|].
  cbn [dispatch st]. unfold on_headers_done, STRICT_CHECK. change (negb (LF =? LF)) with false. cbn match.
  cbn zeta. unfold with_pr. cbn [pr st pos mk usr]. fold r0. change (upgrade r0) with (upgrade r). rewrite Hup.
  unfold has_flag. change (flags r0) with (flags r). rewrite Hfl. cbn [Z.land Z.eqb negb].
  change (content_length r0) with (content_length r). change (type r0) with (type r). rewrite Hcl, Ht.
  destruct Hcl' as [-> | ->]; exact Hcomp.
Qed.

(** The whole of a body at hand. *)
Lemma whole_body r p u body l :
  errno r = HPE_OK -> content_length r = zlen body -> 0 < zlen body < ULLONG_MAX -> rest p (body ++ l) ->
  exists q, on_body_identity recorder data (Exec r s_body_identity p no_marks u) (znth body 0) =
      Go (Exec q s_message_done (p + zlen body - 2) no_marks (u ++ [Data D_body body])) /\
    fields q = (type r, flags r, 0, http_major r, http_minor r, method r, HPE_OK) /\ nread q = nread r.
Proof.
  intros Ho Hcl Hb Hr.
  assert (p + zlen body + zlen l = len data) as Hlen.
  { rewrite <- (rest_end data p (body ++ l)); [rewrite zlen_app; lia|done|left]. intros [-> _]%app_eq_nil.
    change (zlen (@nil Z)) with 0 in Hb. lia. }
  pose proof (zlen_nonneg l). unfold on_body_identity, body_length_ok. cbn [pr]. rewrite Hcl.
  rewrite (proj2 (Z.eqb_neq _ _)), (proj2 (Z.eqb_neq _ _)) by lia. cbn [negb andb assert_]. cbn zeta.
  set (r1 := set_content_length (zlen body - zlen body) r).
  assert (take_body data (Exec r s_body_identity p no_marks u) =
    Exec r1 s_body_identity (p + (zlen body - 1)) (put_mark D_body (Some p) no_marks) u) as ->.
  { unfold take_body. cbn [pr pos]. rewrite Hcl, Z.min_l by lia. unfold r1, with_pr, set_pos. cbn. by rewrite Hcl. }
  assert (content_length r1 = 0) as Hc1 by (unfold r1; cbn; by rewrite Z.sub_diag).
  cbn [pr]. rewrite Hc1. cbn [Z.eqb]. unfold UPDATE_STATE. cbn [pr st pos mk usr].
  rewrite (record_data data D_body _ _ p body); [|exact Ho|done|].
  - cbn [mbind result_bind pr st pos mk usr]. unfold REEXECUTE, set_pos. cbn [pr st pos mk usr].
    exists (set_pstate s_message_done r1). split; [|split; [|done]].
    + do 2 f_equal. lia.
    + unfold fields. cbn. by rewrite Ho, Z.sub_diag.
  - replace (p + (zlen body - 1) - p + 1) with (zlen body) by lia. eapply rest_slice; [exact Hr|].
    left. intros ->. change (zlen (@nil Z)) with 0 in Hb. lia.
Qed.

(** The body, in one piece. *)
Lemma body_segment m body r p u l :
  in_request (zlen body) m r -> upgrade r = false -> 0 < zlen body < ULLONG_MAX ->
  rest p (LF :: body ++ l) -> room 1 r ->
  exists q, reaches (Exec r s_headers_done p no_marks u)
      (Exec q s_start_req (p + 1 + zlen body) no_marks (u ++ [Data D_body body; Notify N_message_complete])) /\
    (errno q = HPE_OK /\ type q = HTTP_REQUEST /\ nread q = 0).
Proof.
  intros Hf Hup Hb Hr Hn. unfold in_request, fields in Hf. injection Hf as Ht Hfl Hcl Hmj Hmn Hme He.
  set (r0 := set_nread 0 (bump 1 r)).
  assert (reaches (Exec r s_headers_done p no_marks u) (Exec r0 s_body_identity (p + 1) no_marks u)) as H1.
  { eapply (step_at _ _ _ _ _ LF _); [exact Hr|done|done|].
    cbn [dispatch st]. unfold on_headers_done, STRICT_CHECK. change (negb (LF =? LF)) with false. cbn match.
    cbn zeta. unfold with_pr. cbn [pr st pos mk usr]. fold r0. change (upgrade r0) with (upgrade r). rewrite Hup.
    unfold has_flag. change (flags r0) with (flags r). rewrite Hfl. cbn [Z.land Z.eqb negb].
    change (content_length r0) with (content_length r). rewrite Hcl.
    rewrite (proj2 (Z.eqb_neq (zlen body) 0)), (proj2 (Z.eqb_neq (zlen body) ULLONG_MAX)) by lia. done. }
  apply rest_cons in Hr.
  assert (exists c w, body = c :: w) as (c & w & Eb).
  { destruct body; [change (zlen (@nil Z)) with 0 in Hb; lia|by eauto]. }
  assert (p + 1 + zlen body + zlen l = len data) as Hlen.
  { rewrite <- (rest_end data (p + 1) (body ++ l)); [rewrite zlen_app; lia|done|left; by rewrite Eb]. }
  destruct (whole_body r0 (p + 1) u body l He Hcl Hb Hr) as (q & Hbody & Hfq & Hnq).
  unfold fields in Hfq. injection Hfq as Ht2 Hfl2 Hcl2 Hmj2 Hmn2 Hme2 He2.
  assert (znth body 0 = c) as Ec by by rewrite Eb.
  assert (rest (p + 1) (c :: (w ++ l))) as Hr1 by (by rewrite Eb in Hr).
  pose proof (step_body r0 s_body_identity (p + 1) no_marks u c (w ++ l) _ eq_refl Hr1
    ltac:(cbn [dispatch st]; rewrite <- Ec; exact Hbody)) as H2.
  unfold set_pos in H2. cbn [pr st pos mk usr] in H2.
  assert (NEW_MESSAGE q = s_start_req) as Hnew by (apply next_request; unfold r0 in *; cbn in *; congruence).
  exists (set_pstate s_start_req q). split; [|split_and!; [exact He2|cbn; rewrite Ht2; exact Ht|cbn; by rewrite Hnq]].
  eapply reaches_trans; [exact H1|]. eapply reaches_trans; [exact H2|].
  assert (0 <= p + 1) as Hp0 by apply Hr. pose proof (zlen_nonneg l).
  set (pe := p + 1 + zlen body - 2 + 1) in *. destruct (data_at data pe) as [l' El]; [lia|].
  assert (rest pe (znth (zslice pe 1 data) 0 :: l')) as Hr2 by (by split; [lia|]).
  replace (p + 1 + zlen body) with (pe + 1) by (unfold pe; lia).
  eapply (step_body q s_message_done _ no_marks _ _ l'
    (Exec (set_pstate s_start_req q) s_start_req pe no_marks _)); [done|exact Hr2|].
  cbn [dispatch st]. unfold on_message_done, complete, CALLBACK_NOTIFY, UPDATE_STATE. cbn [pr st pos mk usr].
  rewrite Hnew, record_notify by exact He2. cbn. by rewrite <- app_assoc.
Qed.

(** ** Header lines *)
Definition header_line (h : bytes * bytes) : bytes := h.1 ++ 58 :: 32 :: h.2 ++ [CR; LF].
Definition header_events (h : bytes * bytes) : list event := [Data D_header_field h.1; Data D_header_value h.2].
Definition header_ok (h : bytes * bytes) : bool :=
  negb (bool_decide (h.1 = [])) && token h.1 && plain_state (name_state h.1) && value_ok h.2.
Definition blank (c : Z) : bool := (c =? 32) || (c =? 9).

Lemma token_not_blank c : (TOKEN c =? 0) = false -> blank c = false.
Proof. intros H. apply orb_false_iff. split; apply Z.eqb_neq; intros ->; done. Qed.

Lemma zlen_header_line h : zlen (header_line h) = zlen h.1 + zlen h.2 + 4.
Proof. unfold header_line. rewrite !zlen_app, !zlen_cons, zlen_app. change (zlen [CR; LF]) with 2. lia. Qed.

Lemma header_segment cl m h r p u c l :
  in_request cl m r -> header_ok h = true -> blank c = false ->
  rest p (header_line h ++ c :: l) -> room (zlen (header_line h) + 1) r ->
  exists q, reaches (Exec r s_header_field_start p no_marks u)
      (Exec q s_header_field_start (p + zlen (header_line h)) no_marks (u ++ header_events h)) /\
    (in_request cl m q /\ nread q = nread r + zlen (header_line h) + 1).
Proof.
  destruct h as [n v]. intros Hf Hh Hc Hr Hn. unfold header_ok in Hh. cbn [fst snd] in Hh.
  rewrite !andb_true_iff, negb_true_iff in Hh. destruct Hh as [[[Hne Ht] Hp] Hv]. apply bool_decide_eq_false in Hne.
  rewrite zlen_header_line in *. cbn [fst snd] in *. pose proof (zlen_nonneg n). pose proof (zlen_nonneg v).
  unfold header_line in Hr. cbn [fst snd] in Hr. rewrite <- app_assoc in Hr. cbn [app] in Hr.
  rewrite <- app_assoc in Hr. cbn [app] in Hr.
  assert (errno r = HPE_OK) as Ho by (unfold in_request, fields in Hf; congruence).
  destruct (name_segment n r p u (32 :: v ++ CR :: LF :: c :: l) Ho Hne Ht Hr) as (r1 & H1 & Hh1 & Hf1 & Hn1).
  { eapply room_le; [done|lia]. }
  assert (in_request cl m r1) as Hi1 by (unfold in_request in *; congruence).
  assert (errno r1 = HPE_OK) as Ho1 by (unfold in_request, fields in Hi1; congruence).
  assert (rest (p + zlen n + 1) (32 :: v ++ CR :: LF :: c :: l)) as Hr1.
  { eapply rest_cons, rest_app. exact Hr. }
  destruct (value_segment v r1 (p + zlen n + 1) (u ++ [Data D_header_field n]) (c :: l)) as (r2 & H2 & Hh2 & Hf2 & Hn2);
    [done|by rewrite Hh1|done|done|eapply (room_after _ (zlen n + 1)); [done|lia..]|].
  assert (rest (p + zlen n + 1 + zlen v + 3) (c :: l)) as Hr2.
  { apply rest_cons, rest_app in Hr1. do 2 apply rest_cons in Hr1.
    by replace (p + zlen n + 1 + zlen v + 3) with (p + zlen n + 1 + 1 + zlen v + 1 + 1) by lia. }
  destruct (next_line r2 (p + zlen n + 1 + zlen v + 3) ((u ++ [Data D_header_field n]) ++ [Data D_header_value v]) c l)
    as (r3 & H3 & Hf3 & Hn3); [by rewrite Hh2|done|done|eapply (room_after _ (zlen n + 1 + zlen v + 3)); [done|lia..]|].
  exists r3. split; [|split; [unfold in_request in *; congruence|lia]].
  rewrite <- app_assoc in *. replace (p + (zlen n + zlen v + 4)) with (p + zlen n + 1 + zlen v + 3) by lia.
  eapply reaches_trans; [exact H1|]. eapply reaches_trans; [exact H2|exact H3].
Qed.

Lemma headers_segment cl m hs : forall r p u c l,
  in_request cl m r -> forallb header_ok hs = true -> blank c = false ->
  rest p (concat (map header_line hs) ++ c :: l) -> room (zlen (concat (map header_line hs)) + zlen hs) r ->
  exists q, reaches (Exec r s_header_field_start p no_marks u)
      (Exec q s_header_field_start (p + zlen (concat (map header_line hs))) no_marks (u ++ concat (map header_events hs))) /\
    (in_request cl m q /\ nread q = nread r + zlen (concat (map header_line hs)) + zlen hs).
Proof.
  induction hs as [|h hs IH]; intros r p u c l Hf Hh Hc Hr Hn; cbn [map concat forallb] in *.
  - exists r. change (zlen (@nil Z)) with 0. change (zlen (@nil (bytes * bytes))) with 0.
    rewrite app_nil_r, !Z.add_0_r. split; [apply reaches_refl|done].
  - apply andb_true_iff in Hh as [Hh Hhs]. rewrite <- app_assoc in Hr. rewrite zlen_app, zlen_cons in *.
    pose proof (zlen_nonneg (concat (map header_line hs))). pose proof (zlen_nonneg hs). pose proof (zlen_nonneg (header_line h)).
    assert (exists c2 l2, concat (map header_line hs) ++ c :: l = c2 :: l2 /\ blank c2 = false) as (c2 & l2 & E2 & Hc2).
    { destruct hs as [|[[|c2 n] v] hs]; [by eexists _, _|done|]. cbn. eexists _, _. split; [reflexivity|].
      cbn [forallb] in Hhs. unfold header_ok, token in Hhs. cbn [fst forallb] in Hhs.
      rewrite !andb_true_iff, !negb_true_iff in Hhs. apply token_not_blank. tauto. }
    rewrite E2 in Hr. destruct (header_segment cl m h r p u c2 l2 Hf Hh Hc2 Hr) as (r1 & Hm1 & Hi1 & Hn1).
    { eapply room_le; [done|lia]. }
    apply rest_app in Hr. rewrite <- E2 in Hr.
    destruct (IH r1 (p + zlen (header_line h)) (u ++ header_events h) c l Hi1 Hhs Hc Hr) as (q & Hm2 & Hi2 & Hn2).
    { eapply (room_after _ (zlen (header_line h) + 1)); [done|lia..]. }
    exists q. split; [|split; [done|lia]]. rewrite app_assoc, Z.add_assoc. by eapply reaches_trans.
Qed.

Definition content_length_header (ds : bytes) : bytes * bytes := (str#"Content-Length", ds).

Lemma length_line cl m ds r p u c l :
  in_request cl m r -> ds <> [] -> digits ds = true -> dec 0 ds <= MAX_CONTENT_LENGTH -> blank c = false ->
  rest p (header_line (content_length_header ds) ++ c :: l) ->
  room (zlen (header_line (content_length_header ds)) + 1) r ->
  exists q, reaches (Exec r s_header_field_start p no_marks u)
      (Exec q s_header_field_start (p + zlen (header_line (content_length_header ds))) no_marks
        (u ++ header_events (content_length_header ds))) /\
    (in_request (dec 0 ds) m q /\ nread q = nread r + zlen (header_line (content_length_header ds)) + 1).
Proof.
  intros Hf Hne Hds Hmax Hc Hr Hn. rewrite zlen_header_line in *. unfold content_length_header in *. cbn [fst snd] in *.
  pose proof (zlen_nonneg ds). set (n := str#"Content-Length") in *. assert (zlen n = 14) as Hl by done.
  unfold header_line in Hr. cbn [fst snd] in Hr. rewrite <- app_assoc in Hr. cbn [app] in Hr.
  rewrite <- app_assoc in Hr. cbn [app] in Hr.
  assert (errno r = HPE_OK) as Ho by (unfold in_request, fields in Hf; congruence).
  assert (name_state n = h_content_length) as Hns by (vm_compute; reflexivity).
  destruct (name_segment n r p u (32 :: ds ++ CR :: LF :: c :: l) Ho ltac:(done) ltac:(by vm_compute) Hr) as (r1 & H1 & Hh1 & Hf1 & Hn1).
  { eapply room_le; [done|lia]. }
  assert (in_request cl m r1) as Hi1 by (unfold in_request in *; congruence).
  assert (errno r1 = HPE_OK) as Ho1 by (unfold in_request, fields in Hi1; congruence).
  assert (rest (p + zlen n + 1) (32 :: ds ++ CR :: LF :: c :: l)) as Hr1.
  { eapply rest_cons, rest_app. exact Hr. }
  destruct (length_segment ds r1 (p + zlen n + 1) (u ++ [Data D_header_field n]) (c :: l)) as (r2 & H2 & Hh2 & Hf2 & Hn2);
    [done|by rewrite Hh1|done..|eapply (room_after _ (zlen n + 1)); [done|lia..]|].
  assert (rest (p + zlen n + 1 + zlen ds + 3) (c :: l)) as Hr2.
  { apply rest_cons, rest_app in Hr1. do 2 apply rest_cons in Hr1.
    by replace (p + zlen n + 1 + zlen ds + 3) with (p + zlen n + 1 + 1 + zlen ds + 1 + 1) by lia. }
  destruct (next_line r2 (p + zlen n + 1 + zlen ds + 3) ((u ++ [Data D_header_field n]) ++ [Data D_header_value ds]) c l)
    as (r3 & H3 & Hf3 & Hn3); [by rewrite Hh2|done|done|eapply (room_after _ (zlen n + 1 + zlen ds + 3)); [done|lia..]|].
  exists r3. split; [|split; [|lia]].
  - rewrite <- app_assoc in *. replace (p + (zlen n + zlen ds + 4)) with (p + zlen n + 1 + zlen ds + 3) by lia.
    eapply reaches_trans; [exact H1|]. eapply reaches_trans; [exact H2|exact H3].
  - unfold in_request in *. rewrite Hf3, Hf2. unfold with_length, fields in *. congruence.
Qed.

(** ** Requests *)
Record request := Request {
  rq_method : http_method;
  rq_url : bytes;
  rq_headers : list (bytes * bytes);
  rq_length : option bytes;
  rq_body : bytes
}.

Definition rq_all_headers (q : request) : list (bytes * bytes) :=
  rq_headers q ++ match rq_length q with Some ds => [content_length_header ds] | None => [] end.
Definition rq_head (q : request) : bytes :=
  method_string (rq_method q) ++ 32 :: rq_url q ++ 32 :: version ++
  concat (map header_line (rq_all_headers q)) ++ [CR; LF].
Definition serialize (q : request) : bytes := rq_head q ++ rq_body q.

(** The callbacks a request stands for. *)
Definition request_events (q : request) : list event :=
  [Notify N_message_begin; Data D_url (rq_url q)] ++ concat (map header_events (rq_all_headers q)) ++
  [Notify N_headers_complete] ++ (match rq_body q with [] => [] | d => [Data D_body d] end) ++
  [Notify N_message_complete].

(** A request of HTTP/1.1 whose headers have no special meaning but its length. *)
Definition request_ok (q : request) : bool :=
  negb (bool_decide (rq_method q = HTTP_CONNECT)) && url_ok (rq_url q) && forallb header_ok (rq_headers q) &&
  match rq_length q with
  | Some ds => negb (bool_decide (ds = [])) && digits ds && (dec 0 ds =? zlen (rq_body q)) && (dec 0 ds <=? MAX_CONTENT_LENGTH)
  | None => bool_decide (rq_body q = [])
  end && (zlen (rq_head q) + zlen (rq_all_headers q) + 1 <=? HTTP_MAX_HEADER_SIZE).

Definition fresh r : Prop := errno r = HPE_OK /\ type r = HTTP_REQUEST /\ nread r = 0.

Lemma all_headers_segment q m r p u l :
  in_request ULLONG_MAX m r -> forallb header_ok (rq_headers q) = true ->
  match rq_length q with
  | Some ds => negb (bool_decide (ds = [])) && digits ds && (dec 0 ds =? zlen (rq_body q)) && (dec 0 ds <=? MAX_CONTENT_LENGTH)
  | None => bool_decide (rq_body q = [])
  end = true ->
  rest p (concat (map header_line (rq_all_headers q)) ++ CR :: l) ->
  room (zlen (concat (map header_line (rq_all_headers q))) + zlen (rq_all_headers q)) r ->
  exists q', reaches (Exec r s_header_field_start p no_marks u)
      (Exec q' s_header_field_start (p + zlen (concat (map header_line (rq_all_headers q)))) no_marks
        (u ++ concat (map header_events (rq_all_headers q)))) /\
    (in_request (match rq_length q with Some _ => zlen (rq_body q) | None => ULLONG_MAX end) m q' /\
     nread q' = nread r + zlen (concat (map header_line (rq_all_headers q))) + zlen (rq_all_headers q)).
Proof.
  intros Hf Hh Hlen Hr Hn. unfold rq_all_headers in *. destruct (rq_length q) as [ds|].
  - rewrite !andb_true_iff, negb_true_iff in Hlen. destruct Hlen as [[[Hne Hds] Hdec] Hmax].
    apply bool_decide_eq_false in Hne. apply Z.eqb_eq in Hdec. apply Z.leb_le in Hmax.
    rewrite !map_app, !concat_app, !zlen_app in *. cbn [map concat] in *. rewrite !app_nil_r in *.
    change (zlen [content_length_header ds]) with 1 in *. rewrite <- app_assoc in Hr.
    pose proof (zlen_nonneg (header_line (content_length_header ds))). pose proof (zlen_nonneg (rq_headers q)).
    pose proof (zlen_nonneg (concat (map header_line (rq_headers q)))).
    destruct (headers_segment ULLONG_MAX m (rq_headers q) r p u ch#"C" (str#"ontent-Length" ++ 58 :: 32 :: ds ++ CR :: LF :: CR :: l) Hf Hh eq_refl)
      as (r1 & Hm1 & Hi1 & Hn1).
    + unfold header_line at 2 in Hr. cbn [content_length_header fst snd] in Hr. rewrite <- !app_assoc in Hr. 
      cbn [app] in Hr. rewrite <- app_assoc in Hr. exact Hr.
    + eapply room_le; [done|lia].
    + apply rest_app in Hr.
      destruct (length_line ULLONG_MAX m ds r1 _ (u ++ concat (map header_events (rq_headers q))) CR l Hi1 Hne Hds Hmax eq_refl Hr)
        as (r2 & Hm2 & Hi2 & Hn2).
      { eapply (room_after _ (zlen (concat (map header_line (rq_headers q))) + zlen (rq_headers q))); [done|lia..]. }
      exists r2. split; [|split; [by rewrite <- Hdec|lia]]. rewrite app_assoc, Z.add_assoc. by eapply reaches_trans.
  - rewrite app_nil_r in *. by apply (headers_segment _ _ _ _ _ _ CR l).
Qed.

Lemma request_segment q r p u l :
  fresh r -> request_ok q = true -> rest p (serialize q ++ l) ->
  exists r', reaches (Exec r s_start_req p no_marks u)
      (Exec r' s_start_req (p + zlen (serialize q)) no_marks (u ++ request_events q)) /\ fresh r'.
Proof.
  intros (Ho & Ht & Hnr) Hq Hr. unfold request_ok in Hq. rewrite !andb_true_iff, negb_true_iff in Hq.
  destruct Hq as [[[[Hm Hu] Hh] Hlen] Hroom]. apply bool_decide_eq_false in Hm. apply Z.leb_le in Hroom.
  set (hs := concat (map header_line (rq_all_headers q))). set (nh := zlen (rq_all_headers q)) in *.
  assert (zlen (rq_head q) = zlen (method_string (rq_method q)) + zlen (rq_url q) + zlen hs + 14) as Hl.
  { unfold rq_head. rewrite !zlen_app, !zlen_cons, !zlen_app, !zlen_cons, !zlen_app. fold hs.
    change (zlen version) with 10. change (zlen [CR; LF]) with 2. lia. }
  pose proof (zlen_nonneg (method_string (rq_method q))). pose proof (zlen_nonneg (rq_url q)). pose proof (zlen_nonneg hs).
  assert (0 <= nh) as Hnh by apply zlen_nonneg. rewrite Hl in Hroom.
  assert (room (zlen (method_string (rq_method q)) + zlen (rq_url q) + zlen hs + 15 + nh) r) as Hn by (split; lia).
  assert (rest p (method_string (rq_method q) ++ 32 :: rq_url q ++ 32 :: version ++ hs ++ CR :: LF :: rq_body q ++ l)) as Hr0.
  { unfold serialize, rq_head in Hr. rewrite <- !app_assoc in Hr. cbn [app] in Hr. rewrite <- !app_assoc in Hr.
    cbn [app] in Hr. rewrite <- !app_assoc in Hr. exact Hr. }
  clear Hr. rename Hr0 into Hr.
  destruct (method_segment (rq_method q) r p u _ Ho Hr) as (r1 & Hm1 & Hf1 & Hn1); [eapply room_le; [done|lia]|].
  apply rest_app, rest_cons in Hr.
  assert (errno r1 = HPE_OK /\ method r1 = rq_method q) as [Ho1 Hme1] by (unfold fields in Hf1; split; congruence).
  destruct (url_segment (rq_url q) r1 _ (u ++ [Notify N_message_begin]) _ Ho1 ltac:(by rewrite Hme1) Hu Hr) as (r2 & Hm2 & Hf2 & Hn2).
  { eapply (room_after _ (zlen (method_string (rq_method q)) + 1)); [done|lia..]. }
  apply rest_app, rest_cons in Hr.
  assert (errno r2 = HPE_OK) as Ho2 by (unfold fields in Hf1, Hf2; congruence).
  destruct (version_segment r2 _ ((u ++ [Notify N_message_begin]) ++ [Data D_url (rq_url q)]) _ Ho2 Hr) as (r3 & Hm3 & Hf3 & Hn3).
  { eapply (room_after _ (zlen (method_string (rq_method q)) + 1 + zlen (rq_url q) + 1)); [done|lia..]. }
  apply rest_app in Hr. change (zlen version) with 10 in Hr.
  assert (in_request ULLONG_MAX (rq_method q) r3) as Hi3 by (unfold in_request, fields in *; congruence).
  destruct (all_headers_segment q _ r3 _ ((u ++ [Notify N_message_begin]) ++ [Data D_url (rq_url q)]) _ Hi3 Hh Hlen Hr)
    as (r4 & Hm4 & Hi4 & Hn4).
  { fold hs nh. eapply (room_after _ (zlen (method_string (rq_method q)) + 1 + zlen (rq_url q) + 1 + 10)); [done|lia..]. }
  apply rest_app in Hr.
  destruct (headers_end _ _ r4 _ (((u ++ [Notify N_message_begin]) ++ [Data D_url (rq_url q)]) ++
    concat (map header_events (rq_all_headers q))) _ Hi4 Hm Hr) as (r5 & Hm5 & Hi5 & Hup5 & Hn5).
  { fold hs nh in Hn4. eapply (room_after _ (zlen (method_string (rq_method q)) + 1 + zlen (rq_url q) + 1 + 10 + zlen hs + nh));
      [done|lia..]. }
  apply rest_cons in Hr. fold hs in Hr, Hm4, Hm5. unfold serialize. rewrite zlen_app, Hl.
  pose proof (reaches_trans _ _ _ _ _ Hm1 (reaches_trans _ _ _ _ _ Hm2 (reaches_trans _ _ _ _ _ Hm3
    (reaches_trans _ _ _ _ _ Hm4 Hm5)))) as Hmid. clear Hm1 Hm2 Hm3 Hm4 Hm5.
  destruct (rq_body q) as [|b body] eqn:Eb.
  - destruct (headers_done_end _ _ r5 _ ((((u ++ [Notify N_message_begin]) ++ [Data D_url (rq_url q)]) ++
      concat (map header_events (rq_all_headers q))) ++ [Notify N_headers_complete]) _ Hi5
      ltac:(destruct (rq_length q); [left; reflexivity|by right]) Hup5 Hr Hn5) as (r6 & Hm6 & Hf6).
    exists r6. split; [|exact Hf6]. eapply reaches_trans; [exact Hmid|].
    unfold request_events. rewrite Eb. rewrite <- !app_assoc in *. cbn [app] in *. 
    change (zlen (@nil Z)) with 0. match goal with Hm6 : HttpMessages.reaches _ _ (Exec _ _ ?a _ _) (Exec _ _ ?b _ _) |- HttpMessages.reaches _ _ _ (Exec _ _ ?c _ _) =>
      replace c with b by lia end. exact Hm6.
  - rewrite <- Eb in *. assert (0 < zlen (rq_body q)) as Hpos by (rewrite Eb, zlen_cons; pose proof (zlen_nonneg body); lia).
    destruct (rq_length q) as [ds|] eqn:Ed; [|by rewrite bool_decide_eq_true, Eb in Hlen].
    rewrite !andb_true_iff, Z.eqb_eq, Z.leb_le in Hlen. destruct Hlen as [[_ Hdec] Hmax].
    destruct (body_segment (rq_method q) (rq_body q) r5 _ ((((u ++ [Notify N_message_begin]) ++ [Data D_url (rq_url q)]) ++
      concat (map header_events (rq_all_headers q))) ++ [Notify N_headers_complete]) _ Hi5 Hup5
      ltac:(unfold MAX_CONTENT_LENGTH, ULLONG_MAX in *; lia) Hr Hn5) as (r6 & Hm6 & Hf6).
    exists r6. split; [|exact Hf6]. eapply reaches_trans; [exact Hmid|].
    unfold request_events. rewrite Eb in *. rewrite <- !app_assoc in *. cbn [app] in *.
    match goal with Hm6 : HttpMessages.reaches _ _ (Exec _ _ ?a _ _) (Exec _ _ ?b _ _) |- HttpMessages.reaches _ _ _ (Exec _ _ ?c _ _) =>
      replace c with b by lia end. exact Hm6.
Qed.
End Segments.

(** * The theorems *)
Definition idle (r : http_parser) : Prop := reachable r /\ fresh r /\ pstate r = s_start_req.

Lemma requests_segment data qs : forall r p u l,
  fresh r -> forallb request_ok qs = true -> rest data p (concat (map serialize qs) ++ l) ->
  exists r', reaches recorder data (Exec r s_start_req p no_marks u)
      (Exec r' s_start_req (p + zlen (concat (map serialize qs))) no_marks (u ++ concat (map request_events qs))) /\ fresh r'.
Proof.
  induction qs as [|q qs IH]; intros r p u l Hf Hq Hr; cbn [map concat forallb] in *.
  - exists r. change (zlen (@nil Z)) with 0. rewrite Z.add_0_r, app_nil_r. split; [apply reaches_refl|done].
  - apply andb_true_iff in Hq as [Hq Hqs]. rewrite <- app_assoc in Hr.
    destruct (request_segment data q r p u _ Hf Hq Hr) as (r1 & H1 & Hf1). apply rest_app in Hr.
    destruct (IH r1 _ (u ++ request_events q) l Hf1 Hqs Hr) as (r2 & H2 & Hf2).
    exists r2. split; [|done]. rewrite zlen_app, Z.add_assoc, app_assoc. by eapply reaches_trans.
Qed.

Lemma execute_requests (qs : list request) (r : http_parser) (u : list event) :
  idle r -> forallb request_ok qs = true ->
  exists r', http_parser_execute recorder r (concat (map serialize qs)) u =
      Ret (zlen (concat (map serialize qs)), r', u ++ concat (map request_events qs)) /\ idle r'.
Proof.
  intros (Hreach & Hf & Hs) Hq. set (data := concat (map serialize qs)).
  assert (exists r', http_parser_execute recorder r data u =
      Ret (zlen data, r', u ++ concat (map request_events qs)) /\ fresh r' /\ pstate r' = s_start_req) as (r' & E & Hf' & Hs').
  { destruct (decide (data = [])) as [Hd|Hd].
    - assert (qs = []) as ->.
      { destruct qs as [|q qs]; [done|]. exfalso. unfold data, serialize, rq_head in Hd. cbn [map concat] in Hd.
        rewrite <- !app_assoc in Hd. by destruct (rq_method q). }
      exists r. destruct Hf as (Ho & Ht & Hn). split; [|split; [by split_and!|done]]. rewrite Hd.
      unfold http_parser_execute, execute_body. rewrite is_ok_true by done. cbn. by rewrite Hs, app_nil_r.
    - destruct (requests_segment data qs r 0 u [] Hf Hq) as (r' & H & Hf').
      { rewrite app_nil_r. apply rest_start. }
      exists (set_pstate s_start_req r').
      assert (runs recorder data (Exec r (pstate r) 0 (initial_marks (pstate r)) u)
        (Go (Exec r' s_start_req (0 + zlen data) no_marks (u ++ concat (map request_events qs))))) as Hruns.
      { rewrite Hs. apply H. by apply run_end. }
      split; [|by destruct Hf' as (? & ? & ?)].
      rewrite (execute_runs recorder data r u _ ltac:(apply Hf) (reachable_ok r Hreach) Hd Hruns).
      cbn. unfold flush_marks, CALLBACK_DATA_NOADVANCE, CALLBACK_DATA_, assert_. cbn.
      repeat (rewrite is_ok_true by apply Hf'; cbn). done. }
  exists r'. split; [exact E|]. split; [by eapply R_execute|done].
Qed.

(** C1: requests written one after another into a buffer come back, from a parser
    that waits for a request, as the callbacks that describe them, in order and
    with the bytes of every URL, header and body; the parser takes the whole
    buffer and waits for a request again. *)
Theorem requests_roundtrip (qs : list request) (r : http_parser) (u : list event) :
  idle r -> forallb request_ok qs = true ->
  exists r', http_parser_execute recorder r (concat (map serialize qs)) u =
      Ret (zlen (concat (map serialize qs)), r', u ++ concat (map request_events qs)) /\ idle r'.
Proof. apply execute_requests. Qed.

Definition sample_requests : list request :=
  [Request HTTP_GET str#"/index.html?q=1#top" [(str#"Host", str#"example.org"); (str#"Accept", str#"*/*")] None [];
   Request HTTP_POST str#"http://example.org/form" [(str#"Contents", str#"x")] (Some str#"005") str#"a=1&b"].

Lemma requests_roundtrip_witness :
  idle (http_parser_init HTTP_REQUEST) /\ forallb request_ok sample_requests = true /\
  exists r', http_parser_execute recorder (http_parser_init HTTP_REQUEST) (concat (map serialize sample_requests)) [] =
      Ret (zlen (concat (map serialize sample_requests)), r', [] ++ concat (map request_events sample_requests)) /\ idle r'.
Proof.
  assert (idle (http_parser_init HTTP_REQUEST)) as Hi by (split; [apply R_init|done]).
  assert (forallb request_ok sample_requests = true) as Hq by (vm_compute; reflexivity).
  split; [exact Hi|]. split; [exact Hq|]. exact (requests_roundtrip sample_requests _ [] Hi Hq).
Defined.

(** The value of a Content-Length header, and what follows from it. *)
Lemma length_value ds r u :
  errno r = HPE_OK -> header_state r = h_content_length -> ds <> [] -> digits ds = true -> room (zlen ds + 2) r ->
  let data := ds ++ [CR; LF] in
  let e := Exec r s_header_value_discard_ws 0 no_marks u in
  if dec 0 ds <=? MAX_CONTENT_LENGTH then
    exists q, runs recorder data e (Go (Exec q s_header_value_lws (zlen data) no_marks (u ++ [Data D_header_value ds]))) /\
      content_length q = dec 0 ds /\ errno q = HPE_OK
  else exists n q, runs recorder data e (Return n q u) /\ errno q = HPE_INVALID_CONTENT_LENGTH.
Proof.
  intros Ho Hh Hne Hds Hn data e. destruct ds as [|c w]; [done|]. cbn [digits forallb] in Hds.
  apply andb_true_iff in Hds as [Hc Hw]. destruct (IS_NUM_line c Hc) as (Hc1 & Hc2 & Hcr & Hlf).
  pose proof (IS_NUM_range c Hc). rewrite zlen_cons in *. pose proof (zlen_nonneg w).
  pose proof (rest_start data) as Hr. change (rest data 0 (c :: w ++ [CR; LF])) in Hr.
  assert (nread (bump 1 r) = nread r + 1) as Hb0 by (apply nread_bump; [eapply room_le; [done|lia]|lia]).
  set (q1 := set_content_length (c - 48) (set_index 0 (bump 1 r))).
  assert (reaches recorder data e (Exec q1 s_header_value 1 (put_mark D_header_value (Some 0) no_marks) u)) as H1.
  { apply (step_at data r s_header_value_discard_ws 0 no_marks u c (w ++ [CR; LF])); [exact Hr|done|eapply room_le; [done|lia]|].
    cbn [dispatch st]. unfold on_header_value_discard_ws. change ch#" " with 32. rewrite Hc1, Hc2, Hcr, Hlf.
    unfold on_header_value_start. cbn. rewrite Hh. by rewrite Hc. }
  assert (content_length (bump 1 q1) = c - 48) as Hcl1 by (apply uwrap_small; lia).
  assert (room (zlen w + 2) q1) as Hn1 by (eapply room_after; [exact Hn|exact Hb0|lia..]).
  cbn [dec fold_left]. change (0 * 10 + (c - 48)) with (c - 48). change (fold_left _ w (c - 48)) with (dec (c - 48) w).
  pose proof (value_digits data w (length data) 1 (bump 1 q1) 1 0 u [c] [LF]) as Hv. rewrite Hcl1 in Hv.
  specialize (Hv Ho ltac:(unfold ULLONG_MAX; lia) Hr eq_refl Hw ltac:(unfold data; rewrite length_app; simpl; lia)).
  apply rest_cons in Hr. change (0 + 1) with 1 in Hr.
  destruct (Z.leb_spec (dec (c - 48) w) MAX_CONTENT_LENGTH) as [Hle|Hgt].
  - destruct Hv as (r' & El & Hf & Hnr).
    destruct (value_line data q1 1 0 u w [] h_content_length r' (u ++ [Data D_header_value (c :: w)])) as (q & Hq & _ & Hfq & _);
      [exact Hr|done|cbn; rewrite Hh; exact El|done|].
    exists q. rewrite Hf in Hfq. unfold fields, with_length in Hfq. cbn in Hfq. split; [|split; congruence].
    apply H1, Hq. replace (1 + zlen w + 2) with (zlen data); [by apply run_end|].
    unfold data. rewrite zlen_app, zlen_cons. change (zlen [CR; LF]) with 2. lia.
  - destruct Hv as (n & r' & El & Herr).
    { intros ->. cbn in Hgt. unfold MAX_CONTENT_LENGTH in Hgt. lia. }
    exists n, r'. split; [|done]. apply H1.
    assert (exists x0 l0, w ++ [CR; LF] = x0 :: l0) as (x0 & l0 & Ex) by (destruct w; simpl; eauto). rewrite Ex in Hr.
    eapply round_return; [exact Hr|]. cbn [st pr]. rewrite count_ok; [|eapply room_le; [done|lia]|lia].
    unfold with_pr. cbn [pr st pos mk usr]. change (PARSING_HEADER s_header_value) with true. cbn [mbind result_bind dispatch st].
    unfold on_header_value. cbn [pos pr st mk usr]. change (header_state (bump 1 q1)) with (header_state r).
    rewrite Hh. by rewrite El.
Qed.

(** C33: a Content-Length value of decimal digits, in a header of that name, gives
    the parser exactly the number it denotes when that is at most 2^64 - 7, and is
    refused as [HPE_INVALID_CONTENT_LENGTH] when it is larger: no length wraps. *)
Theorem content_length_exact (ds : bytes) (r : http_parser) (u : list event) :
  parser_ok r -> errno r = HPE_OK -> pstate r = s_header_value_discard_ws -> header_state r = h_content_length ->
  ds <> [] -> digits ds = true -> room (zlen ds + 2) r ->
  exists n r' u', http_parser_execute recorder r (ds ++ [CR; LF]) u = Ret (n, r', u') /\
    if dec 0 ds <=? MAX_CONTENT_LENGTH
    then n = zlen ds + 2 /\ errno r' = HPE_OK /\ content_length r' = dec 0 ds /\ u' = u ++ [Data D_header_value ds]
    else errno r' = HPE_INVALID_CONTENT_LENGTH /\ u' = u.
Proof.
  intros Hok Ho Hs Hh Hne Hds Hn. pose proof (length_value ds r u Ho Hh Hne Hds Hn) as H. cbn zeta in H.
  assert (ds ++ [CR; LF] <> []) as Hd by by destruct ds.
  destruct (_ <=? _).
  - destruct H as (q & Hruns & Hc & He).
    rewrite (execute_runs recorder _ r u _ Ho Hok Hd ltac:(rewrite Hs; exact Hruns)).
    do 3 eexists. split.
    + cbn. unfold flush_marks, CALLBACK_DATA_NOADVANCE, CALLBACK_DATA_, assert_. cbn.
      repeat (rewrite is_ok_true by done; cbn). reflexivity.
    + split_and!; try done. unfold len. by rewrite zlen_app.
  - destruct H as (n & q & Hruns & He).
    rewrite (execute_runs recorder _ r u _ Ho Hok Hd ltac:(rewrite Hs; exact Hruns)).
    do 3 eexists. split; [reflexivity|done].
Qed.

(** A parser in the middle of a Content-Length header. *)
Definition at_length : http_parser :=
  match http_parser_execute recorder (http_parser_init HTTP_REQUEST)
    (str#"GET / HTTP/1.1" ++ [CR; LF] ++ str#"content-length:") [] with
  | Ret (_, r, _) => r
  | Fault _ => http_parser_init HTTP_REQUEST
  end.

Lemma content_length_exact_witness :
  exists n r' u', http_parser_execute recorder at_length (str#"18446744073709551610" ++ [CR; LF]) [] = Ret (n, r', u') /\
    if dec 0 str#"18446744073709551610" <=? MAX_CONTENT_LENGTH
    then n = zlen str#"18446744073709551610" + 2 /\ errno r' = HPE_OK /\
         content_length r' = dec 0 str#"18446744073709551610" /\ u' = [] ++ [Data D_header_value str#"18446744073709551610"]
    else errno r' = HPE_INVALID_CONTENT_LENGTH /\ u' = [].
Proof.
  apply (content_length_exact str#"18446744073709551610" at_length []); vm_compute; done.
Defined.
