(* ===== verification/HttpNames.v ===== *)
(** Which header names and methods [http_parser_execute] recognises: the
    letter-by-letter matchers accept exactly the names they stand for. *)
From Stdlib Require Import ZArith Lia Bool Ascii String.
From stdpp Require Import base list numbers strings.
From S2P Require Import Prelude HttpTypes HttpUrl HttpParser HttpSafety HttpMessages.

Open Scope Z_scope.

(** * Header names *)

#[local] Instance header_states_eq_dec : EqDecision header_states.
Proof. solve_decision. Defined.

(** The names with a meaning, in lower case. *)
Definition special_names : list (bytes * header_states) :=
  [(str#"connection", h_connection); (str#"proxy-connection", h_connection);
   (str#"content-length", h_content_length); (str#"transfer-encoding", h_transfer_encoding);
   (str#"upgrade", h_upgrade)].

(** What a name stands for; [TOKEN] makes the comparison blind to case. *)
Fixpoint meaning_in (l : list (bytes * header_states)) (t : bytes) : option header_states :=
  match l with
  | [] => None
  | (w, h) :: l => if bool_decide (t = w) then Some h else meaning_in l t
  end.
Definition name_meaning (name : bytes) : option header_states := meaning_in special_names (map TOKEN name).

(** The reader of a name, from its first letter. *)
Definition start0 (c : Z) : http_parser := name_start c (http_parser_init HTTP_REQUEST).
Definition read_name (c : Z) (w : bytes) : outcome http_parser :=
  '(_, _, r) ← header_field_loop w 0 c (start0 c); Ret r.

Lemma header_field_loop_snoc w c : forall p x r,
  token w = true -> (TOKEN c =? 0) = false ->
  ('(_, _, r) ← header_field_loop (w ++ [c]) p x r; Ret r) =
  (r ← ('(_, _, r) ← header_field_loop w p x r; Ret r); header_field_char r c (TOKEN c)).
Proof.
  induction w as [|y w IH]; intros p x r Hw Hc; cbn [app header_field_loop].
  - rewrite Hc. cbn [mbind outcome_bind]. by destruct (header_field_char r c (TOKEN c)).
  - cbn [token forallb] in Hw. rewrite andb_true_iff, negb_true_iff in Hw. destruct Hw as [-> Hw].
    destruct (header_field_char r y (TOKEN y)); cbn [mbind outcome_bind]; [|done]. by apply IH.
Qed.

(** All non-empty beginnings of the special names. *)
Definition beginnings : list bytes :=
  concat (map (fun s => map (fun k => take (S k) s.1) (seq 0 (length s.1))) special_names).
Definition is_beginning (t : bytes) : bool := existsb (fun s => bool_decide (s = t)) beginnings.

Definition state_of (m : outcome http_parser) : option header_states :=
  match m with Ret r => Some (header_state r) | Fault _ => None end.
Definition head_tail (t : bytes) : Z * bytes := match t with [] => (0, []) | c :: w => (c, w) end.
Definition read_token (t : bytes) : outcome http_parser := read_name (head_tail t).1 (head_tail t).2.

Definition all_bytes : bytes := map Z.of_nat (seq 0 256).

(** A letter that leaves the beginnings leads to [h_general]. *)
Definition leaves_ok (t : bytes) (c : Z) : bool :=
  (TOKEN c =? 0) || is_beginning (t ++ [TOKEN c]) ||
  bool_decide (state_of (r ← read_token t; header_field_char r c (TOKEN c)) = Some h_general).
(** Inside the beginnings the letter's case does not matter. *)
Definition name_eqb (r q : outcome http_parser) : bool :=
  match r, q with
  | Ret r, Ret q => bool_decide (header_state r = header_state q) && (index r =? index q)
  | _, _ => false
  end.
Definition stays_ok (t : bytes) (c : Z) : bool :=
  (TOKEN c =? 0) || negb (is_beginning (t ++ [TOKEN c])) ||
  name_eqb (r ← read_token t; header_field_char r c (TOKEN c)) (read_token (t ++ [TOKEN c])).
Definition start_ok (c : Z) : bool :=
  (TOKEN c =? 0) ||
  if is_beginning [TOKEN c] then name_eqb (Ret (start0 c)) (read_token [TOKEN c])
  else bool_decide (header_state (start0 c) = h_general).
Definition final_ok (t : bytes) : bool :=
  match state_of (read_token t), meaning_in special_names t with
  | Some h, Some h' => bool_decide (h = h')
  | Some h, None => plain_state h
  | None, _ => false
  end.


Lemma checked_letters :
  forallb (fun t => forallb (fun c => leaves_ok t c && stays_ok t c) all_bytes) beginnings = true.
Proof. vm_compute. reflexivity. Qed.
Lemma checked_starts : forallb start_ok all_bytes = true.
Proof. vm_compute. reflexivity. Qed.
Lemma checked_finals : forallb final_ok beginnings = true.
Proof. vm_compute. reflexivity. Qed.
Lemma checked_prefixes :
  forallb (fun t => bool_decide (length t <= 1)%nat || is_beginning (removelast t)) beginnings = true.
Proof. vm_compute. reflexivity. Qed.

Lemma is_beginning_spec t : is_beginning t = true <-> In t beginnings.
Proof.
  unfold is_beginning. rewrite existsb_exists. split.
  - intros (s & Hs & E%bool_decide_eq_true). by subst.
  - intros H. exists t. split; [done|]. by apply bool_decide_eq_true.
Qed.

Lemma token_byte c : (TOKEN c =? 0) = false -> In c all_bytes.
Proof.
  intros H. apply Z.eqb_neq in H. unfold TOKEN, elem in H.
  destruct (tokens !! Z.to_nat c) as [x|] eqn:E; [|done]. pose proof E as E0.
  apply lookup_lt_Some in E. assert (length tokens <= 256)%nat as Hl by (apply Nat.leb_le; vm_compute; reflexivity).
  assert (0 <= c) as Hc.
  { destruct c as [|q|q]; try lia. change (Some 0 = Some x) in E0. by injection E0 as <-. }
  apply in_map_iff. exists (Z.to_nat c). split; [lia|]. apply in_seq. lia.
Qed.

Lemma checked_letter t c :
  is_beginning t = true -> (TOKEN c =? 0) = false -> leaves_ok t c = true /\ stays_ok t c = true.
Proof.
  intros Ht Hc. pose proof checked_letters as H.
  rewrite forallb_forall in H. apply is_beginning_spec in Ht. specialize (H t Ht). rewrite forallb_forall in H.
  apply andb_true_iff. exact (H c (token_byte c Hc)).
Qed.
Lemma checked_start c : (TOKEN c =? 0) = false -> start_ok c = true.
Proof.
  intros Hc. pose proof checked_starts as H.
  rewrite forallb_forall in H. exact (H c (token_byte c Hc)).
Qed.
Lemma checked_final t : is_beginning t = true -> final_ok t = true.
Proof.
  intros Ht. pose proof checked_finals as H.
  rewrite forallb_forall in H. exact (H t (proj1 (is_beginning_spec t) Ht)).
Qed.
Lemma beginning_shorter t c : t <> [] -> is_beginning (t ++ [c]) = true -> is_beginning t = true.
Proof.
  intros Hne Ht. pose proof checked_prefixes as H.
  rewrite forallb_forall in H. apply is_beginning_spec in Ht. specialize (H _ Ht). clear Ht. rename H into Ht.
  rewrite removelast_last in Ht.
  apply orb_true_iff in Ht as [Hl%bool_decide_eq_true|]; [|done]. rewrite length_app in Hl.
  destruct t; [done|]. simpl in Hl. lia.
Qed.

Lemma name_eqb_true m q : name_eqb m q = true -> exists r r', m = Ret r /\ q = Ret r' /\ same_name r r'.
Proof.
  destruct m as [r|], q as [r'|]; try done. cbn. rewrite andb_true_iff, bool_decide_eq_true, Z.eqb_eq.
  intros [? ?]. by exists r, r'.
Qed.

(** The reader knows which beginning it has read, or that there is none. *)
Lemma name_tracks c w :
  token (c :: w) = true ->
  exists r, read_name c w = Ret r /\
    if is_beginning (map TOKEN (c :: w))
    then exists q, read_token (map TOKEN (c :: w)) = Ret q /\ same_name r q
    else header_state r = h_general.
Proof.
  induction w as [|d w IH] using rev_ind; intros Ht.
  - cbn [token forallb] in Ht. rewrite andb_true_r, negb_true_iff in Ht. exists (start0 c). split; [done|].
    pose proof (checked_start c Ht) as H. unfold start_ok in H. rewrite Ht in H. cbn [orb map] in *.
    destruct (is_beginning [TOKEN c]).
    + apply name_eqb_true in H as (r & r' & [= <-] & E & Hs). by exists r'.
    + by apply bool_decide_eq_true in H.
  - rewrite app_comm_cons in Ht. unfold token in Ht. rewrite forallb_app in Ht.
    apply andb_true_iff in Ht as [Hcw Hd]. cbn [forallb] in Hd. rewrite andb_true_r, negb_true_iff in Hd.
    destruct (IH Hcw) as (r & Er & Hr). rewrite app_comm_cons, map_app. cbn [map].
    assert (token w = true) as Hw by (cbn [forallb] in Hcw; by apply andb_true_iff in Hcw as [_ ?]).
    assert (read_name c (w ++ [d]) = header_field_char r d (TOKEN d)) as ->.
    { unfold read_name in *. rewrite header_field_loop_snoc, Er by done. done. }
    destruct (is_beginning (map TOKEN (c :: w))) eqn:Eb.
    + destruct Hr as (q & Eq & Hs). destruct (checked_letter _ d Eb Hd) as [Hl Hst].
      pose proof (header_field_char_same r q d (TOKEN d) Hs) as Hsame.
      unfold leaves_ok, stays_ok in Hl, Hst. rewrite Eq, Hd in Hl, Hst. cbn [mbind outcome_bind orb] in Hl, Hst.
      change (TOKEN c :: map TOKEN w) with (map TOKEN (c :: w)) in *.
      destruct (is_beginning (map TOKEN (c :: w) ++ [TOKEN d])).
      * cbn [negb orb] in Hst. apply name_eqb_true in Hst as (q1 & q2 & E1 & E2 & Hs2). rewrite E1 in Hsame.
        destruct (header_field_char r d (TOKEN d)) as [r1|]; [|done]. exists r1. split; [done|]. exists q2. split; [done|].
        destruct Hsame as ([? ?] & _), Hs2. split; congruence.
      * cbn [orb] in Hl. apply bool_decide_eq_true in Hl.
        destruct (header_field_char q d (TOKEN d)) as [q1|]; [|done].
        destruct (header_field_char r d (TOKEN d)) as [r1|]; [|done]. exists r1. split; [done|].
        cbn in Hl. injection Hl as Hl. destruct Hsame as ([-> _] & _). done.
    + exists r. split; [unfold header_field_char; by rewrite Hr|].
      change (TOKEN c :: map TOKEN w) with (map TOKEN (c :: w)) in *.
      destruct (is_beginning (map TOKEN (c :: w) ++ [TOKEN d])) eqn:E2; [|done].
      apply beginning_shorter in E2; [congruence|done].
Qed.

Lemma meaning_beginning t h : meaning_in special_names t = Some h -> is_beginning t = true.
Proof.
  unfold special_names, meaning_in.
  repeat (destruct (bool_decide _) eqn:E; [apply bool_decide_eq_true in E as ->; intros _; vm_compute; reflexivity|clear E]).
  done.
Qed.

Lemma name_state_meaning n :
  n <> [] -> token n = true ->
  match name_meaning n with Some h => name_state n = h | None => plain_state (name_state n) = true end.
Proof.
  intros Hne Ht. destruct n as [|c w]; [done|]. destruct (name_tracks c w Ht) as (r & Er & Hr).
  assert (name_state (c :: w) = header_state r) as ->.
  { unfold name_state, read_name, start0 in *. destruct (header_field_loop _ _ _ _) as [[[? ?] r']|]; [|done].
    cbn in Er. by injection Er as ->. }
  unfold name_meaning. set (t := map TOKEN (c :: w)) in *. destruct (is_beginning t) eqn:Eb.
  - destruct Hr as (q & Eq & Hs & _). apply checked_final in Eb. unfold final_ok in Eb. rewrite Eq in Eb. cbn [state_of] in Eb.
    rewrite Hs. destruct (meaning_in special_names t); [by apply bool_decide_eq_true in Eb|done].
  - destruct (meaning_in special_names t) eqn:Em; [|by rewrite Hr]. apply meaning_beginning in Em. congruence.
Qed.

(** A header name, up to its colon, is taken for one with a meaning exactly
    when it is that name in some mixture of cases, whatever other names begin
    with it or it begins with; its letters go to the callback as they are. *)
Theorem header_name_exact (n : bytes) (r : http_parser) (u : list event) :
  parser_ok r -> errno r = HPE_OK -> pstate r = s_header_field_start ->
  n <> [] -> token n = true -> room (zlen n + 1) r ->
  exists r', http_parser_execute recorder r (n ++ str#":") u = Ret (zlen n + 1, r', u ++ [Data D_header_field n]) /\
    errno r' = HPE_OK /\
    match name_meaning n with Some h => header_state r' = h | None => plain_state (header_state r') = true end.
Proof.
  intros Hok Ho Hs Hne Ht Hn. pose proof (name_state_meaning n Hne Ht) as Hm. set (data := n ++ str#":").
  destruct (name_segment data n r 0 u [] Ho Hne Ht (rest_start data) Hn) as (q & Hq & Hh & Hf & _).
  assert (errno q = HPE_OK) as Hoq by (unfold fields in Hf; congruence).
  assert (data <> []) as Hd by (unfold data; by destruct n).
  assert (len data = zlen n + 1) as Hl by (unfold data, len; by rewrite zlen_app).
  assert (runs recorder data (Exec r (pstate r) 0 (initial_marks (pstate r)) u)
    (Go (Exec q s_header_value_discard_ws (0 + zlen n + 1) no_marks (u ++ [Data D_header_field n])))) as Hruns.
  { rewrite Hs. apply Hq, run_end. cbn [pos]. lia. }
  rewrite (execute_runs recorder data r u _ Ho Hok Hd Hruns).
  exists (set_pstate s_header_value_discard_ws q). split.
  - cbn. unfold flush_marks, CALLBACK_DATA_NOADVANCE, CALLBACK_DATA_, assert_. cbn.
    repeat (rewrite is_ok_true by done; cbn). by rewrite Hl.
  - split; [done|]. cbn. by rewrite Hh.
Qed.

(** A parser at the start of a header line. *)
Definition at_header : http_parser :=
  match http_parser_execute recorder (http_parser_init HTTP_REQUEST) (str#"GET / HTTP/1.1" ++ [CR; LF]) [] with
  | Ret (_, r, _) => r
  | Fault _ => http_parser_init HTTP_REQUEST
  end.

Lemma header_name_exact_witness :
  exists r', http_parser_execute recorder at_header (str#"Content-Lengths" ++ str#":") [] =
      Ret (zlen str#"Content-Lengths" + 1, r', [] ++ [Data D_header_field str#"Content-Lengths"]) /\
    errno r' = HPE_OK /\
    match name_meaning str#"Content-Lengths" with
    | Some h => header_state r' = h
    | None => plain_state (header_state r') = true
    end.
Proof. apply (header_name_exact str#"Content-Lengths" at_header []); vm_compute; done. Defined.

(** * Methods *)
Definition method_of (w : bytes) : option http_method :=
  snd <$> list_find (fun m => method_string m = w) all_methods.

Lemma method_of_some w m : method_of w = Some m -> method_string m = w.
Proof.
  unfold method_of. destruct (list_find _ _) as [[i m']|] eqn:E; [|done]. cbn. intros [= ->].
  by apply list_find_Some in E as (_ & ? & _).
Qed.
Lemma method_of_none w m : method_of w = None -> method_string m <> w.
Proof.
  unfold method_of. destruct (list_find _ _) as [|] eqn:E; [done|]. intros _. apply list_find_None in E.
  rewrite Forall_forall in E. apply E. destruct m; apply (bool_decide_unpack _); vm_compute; done.
Qed.

(** The recogniser only moves between methods that begin alike. *)
Lemma first_method_begins c m : first_method c = Some m -> take 1 (method_string m) = [c].
Proof.
  unfold first_method.
  repeat match goal with |- context [if ?b then _ else _] => destruct b eqn:? end; intros [= <-];
    rewrite ?Z.eqb_eq in *; by subst c.
Qed.
Lemma switch_method_begins m i c m' :
  switch_method m i c = Some m' ->
  0 <= i /\ take (Z.to_nat i) (method_string m) ++ [c] = take (S (Z.to_nat i)) (method_string m').
Proof.
  unfold switch_method.
  repeat match goal with |- context [if ?b then _ else _] => destruct b eqn:? end; intros [= <-];
    rewrite ?andb_true_iff, ?bool_decide_eq_true, ?Z.eqb_eq in *; destruct_and?; subst; split; done.
Qed.

Definition begins (r : http_parser) (pre : bytes) : Prop :=
  take (Z.to_nat (index r)) (method_string (method r)) = pre /\ 0 <= index r <= zlen (method_string (method r)).

Lemma method_next_begins m i c s m' i' pre :
  take (Z.to_nat i) (method_string m) = pre -> 0 <= i <= zlen (method_string m) -> c <> 0 -> c <> 32 ->
  method_next m i c = Some (s, m', i') ->
  s = s_req_method /\ take (Z.to_nat i') (method_string m') = pre ++ [c] /\ 0 <= i' <= zlen (method_string m').
Proof.
  intros Hp Hi Hc Hsp. unfold method_next. rewrite (proj2 (Z.eqb_neq c 32)) by done. cbn [andb]. cbn zeta.
  destruct (Z.eqb_spec c (znth (method_string m ++ [0]) i)) as [Ec|_].
  - intros [= <- <- <-]. split; [done|]. unfold znth in Ec.
    assert (Z.to_nat i < length (method_string m))%nat as Hlt.
    { destruct (Nat.lt_ge_cases (Z.to_nat i) (length (method_string m))) as [|Hge]; [done|]. exfalso. apply Hc.
      rewrite Ec, lookup_app_r by done. unfold zlen in Hi. by replace (Z.to_nat i - length (method_string m))%nat with 0%nat by lia. }
    rewrite lookup_app_l in Ec by done. destruct (lookup_lt_is_Some_2 _ _ Hlt) as [x Ex]. rewrite Ex in Ec. cbn in Ec. subst x.
    replace (Z.to_nat (i + 1)) with (S (Z.to_nat i)) by lia. rewrite (take_S_r _ _ _ Ex), Hp. unfold zlen. split; [done|lia].
  - destruct (switch_method m i c) as [m1|] eqn:E; [|done]. cbn. intros [= <- <- <-]. split; [done|].
    apply switch_method_begins in E as [_ E]. rewrite Hp in E. replace (Z.to_nat (i + 1)) with (S (Z.to_nat i)) by lia.
    split; [done|]. apply (f_equal length) in E. rewrite length_app, length_take in E. change (length [c]) with 1%nat in E.
    assert (length pre = Z.to_nat i) as Hl by (rewrite <- Hp, length_take; unfold zlen in Hi; lia).
    unfold zlen. lia.
Qed.

Lemma method_letters m : Forall (fun c => c <> 0 /\ c <> 32) (method_string m).
Proof. destruct m; apply (bool_decide_unpack _); vm_compute; done. Qed.

(** A space ends a method's name, and only a whole one. *)
Lemma method_next_space m i s m' i' :
  0 <= i <= zlen (method_string m) -> method_next m i 32 = Some (s, m', i') ->
  s = s_req_spaces_before_url /\ m' = m /\ i = zlen (method_string m).
Proof.
  intros Hi. unfold method_next. change (32 =? 32) with true. cbn [andb]. cbn zeta.
  pose proof (method_letters m) as Hl. rewrite Forall_forall in Hl.
  assert (i < zlen (method_string m) -> In (znth (method_string m ++ [0]) i) (method_string m)) as Hin.
  { intros Hlt. unfold znth. rewrite lookup_app_l by (unfold zlen in Hlt; lia).
    destruct (lookup_lt_is_Some_2 (method_string m) (Z.to_nat i)) as [x Ex]; [unfold zlen in Hlt; lia|].
    rewrite Ex. apply list_elem_of_In. by eapply list_elem_of_lookup_2. }
  destruct (Z.eqb_spec (znth (method_string m ++ [0]) i) 0) as [E0|_].
  - intros [= <- <- <-]. split_and!; try done. destruct (Z.lt_ge_cases i (zlen (method_string m))) as [Hlt|]; [|lia].
    exfalso. apply Hin in Hlt. apply list_elem_of_In, Hl in Hlt. tauto.
  - destruct (Z.eqb_spec 32 (znth (method_string m ++ [0]) i)) as [E32|_].
    + exfalso. destruct (Z.lt_ge_cases i (zlen (method_string m))) as [Hlt|Hge].
      * apply Hin in Hlt. apply list_elem_of_In, Hl in Hlt. by destruct Hlt.
      * revert E32. unfold znth. rewrite lookup_app_r by (unfold zlen in Hge; lia).
        unfold zlen in *. by replace (Z.to_nat i - length (method_string m))%nat with 0%nat by lia.
    + destruct (switch_method m i 32) as [m1|] eqn:E; [|done]. exfalso. apply switch_method_begins in E as [_ E].
      pose proof (method_letters m1) as Hl1. rewrite Forall_forall in Hl1.
      assert (In 32 (method_string m1)) as Hbad.
      { rewrite <- (take_drop (S (Z.to_nat i)) (method_string m1)), <- E. apply in_app_iff. left. apply in_app_iff. right. by left. }
      apply list_elem_of_In, Hl1 in Hbad. tauto.
Qed.

(** A letter no method goes on with ends the call. *)
Lemma method_stop data r p u c l :
  errno r = HPE_OK -> 0 <= index r <= zlen (method_string (method r)) ->
  c = 0 \/ method_next (method r) (index r) c = None -> rest data p (c :: l) -> room 1 r ->
  exists n q, runs recorder data (Exec r s_req_method p no_marks u) (Return n q u) /\ errno q = HPE_INVALID_METHOD.
Proof.
  intros Ho Hi Hc Hr Hn. do 2 eexists. split.
  - eapply round_return; [exact Hr|]. cbn [st pr]. rewrite count_ok by (done || lia).
    unfold with_pr. cbn [pr st pos mk usr PARSING_HEADER state_num]. change (PARSING_HEADER s_req_method) with true.
    cbn [mbind result_bind dispatch st]. unfold on_req_method. cbn [pr].
    destruct (Z.eqb_spec c 0) as [|Hz]; [reflexivity|]. destruct Hc as [|Hc]; [done|].
    change (method (bump 1 r)) with (method r). change (index (bump 1 r)) with (index r).
    rewrite mem_read_ok by (rewrite ?zlen_app; change (zlen [0]) with 1; lia). cbn [lift mbind result_bind].
    change (znth (zslice (index r) 1 (method_string (method r) ++ [0])) 0) with
      (default 0 (take 1 (drop (Z.to_nat (index r)) (method_string (method r) ++ [0])) !! 0%nat)).
    rewrite lookup_take_lt, lookup_drop, Nat.add_0_r by lia.
    change (default 0 ((method_string (method r) ++ [0]) !! Z.to_nat (index r))) with
      (znth (method_string (method r) ++ [0]) (index r)).
    unfold method_next in Hc. cbn zeta in Hc. change ch#" " with 32.
    destruct ((c =? 32) && _); [done|]. destruct (c =? znth _ _); [done|].
    destruct (switch_method _ _ _); [done|]. reflexivity.
  - done.
Qed.

(** The rest of a method's name. *)
Lemma method_rest data w : forall r p u pre,
  errno r = HPE_OK -> begins r pre -> forallb (fun c => negb (c =? 32)) w = true ->
  rest data p (w ++ [32]) -> room (zlen w + 1) r ->
  (exists q, runs recorder data (Exec r s_req_method p no_marks u) (Go (Exec q s_req_spaces_before_url (len data) no_marks u)) /\
     method_string (method q) = pre ++ w) \/
  (exists n q, runs recorder data (Exec r s_req_method p no_marks u) (Return n q u) /\ errno q = HPE_INVALID_METHOD).
Proof.
  induction w as [|c w IH]; intros r p u pre Ho [Hpre Hi] Hw Hr Hn.
  - cbn [app] in Hr. change (zlen (@nil Z) + 1) with 1 in Hn.
    destruct (method_next (method r) (index r) 32) as [[[s m] i]|] eqn:E.
    2: { right. eapply method_stop; [done|done|by right|exact Hr|done]. }
    destruct (method_next_space _ _ _ _ _ Hi E) as (-> & -> & Hlen).
    assert (method_string (method r) = pre) as Hm.
    { rewrite <- Hpre. symmetry. apply take_ge. unfold zlen in Hlen. lia. }
    left. destruct (method_step data r p no_marks u 32 [] s_req_spaces_before_url (method r) i Ho Hi ltac:(done) E Hr Hn) as (q & Hq & Hf & _).
    exists q. split; [|rewrite app_nil_r; unfold fields in Hf; injection Hf as _ _ _ _ _ Hme _; by rewrite Hme].
    apply Hq. apply rest_end_cons in Hr. change (zlen (@nil Z)) with 0 in Hr.
    replace (p + 1) with (len data) by lia. by apply run_end.
  - cbn [forallb] in Hw. rewrite andb_true_iff, negb_true_iff, Z.eqb_neq in Hw. destruct Hw as [Hc Hw].
    rewrite zlen_cons in Hn. pose proof (zlen_nonneg w). change (rest data p (c :: (w ++ [32]))) in Hr.
    assert (room 1 r) as Hn1 by (eapply room_le; [done|lia]).
    destruct (Z.eq_dec c 0) as [Hz|Hz]; [right; eapply method_stop; [done|done|by left|exact Hr|done]|].
    destruct (method_next (method r) (index r) c) as [[[s m] i]|] eqn:E.
    2: { right. eapply method_stop; [done|done|by right|exact Hr|done]. }
    destruct (method_next_begins _ _ _ _ _ _ _ Hpre Hi Hz Hc E) as (-> & Hpre2 & Hi2).
    destruct (method_step data r p no_marks u c _ s_req_method m i Ho Hi Hz E Hr Hn1) as (q1 & Hq1 & Hf1 & Hi1 & Hnr1).
    unfold fields in Hf1. injection Hf1 as _ _ _ _ _ Hm1 Ho1.
    destruct (IH q1 (p + 1) u (pre ++ [c]) Ho1) as [(q & Hq & Hm)|(n & q & Hq & He)].
    + split; by rewrite Hm1, Hi1.
    + done.
    + by eapply rest_cons.
    + eapply room_after; [exact Hn|exact Hnr1|lia..].
    + left. exists q. split; [by apply Hq1|by rewrite Hm, <- app_assoc].
    + right. exists n, q. split; [by apply Hq1|done].
Qed.

Lemma method_refused w r u :
  fresh r -> w <> [] -> forallb (fun c => negb (c =? 32) && line_char c) w = true -> room (zlen w + 1) r ->
  method_of w = None ->
  exists n q u', runs recorder (w ++ str#" ") (Exec r s_start_req 0 no_marks u) (Return n q u') /\
    errno q = HPE_INVALID_METHOD.
Proof.
  intros (Ho & _) Hne Hw Hn Hm. destruct w as [|c w]; [done|]. cbn [forallb] in Hw. unfold line_char at 1 in Hw.
  rewrite !andb_true_iff, !negb_true_iff in Hw. destruct Hw as [[Hsp [Hcr Hlf]] Hw]. set (data := (c :: w) ++ str#" ").
  rewrite zlen_cons in Hn. pose proof (zlen_nonneg w).
  pose proof (rest_start data) as Hr. change (rest data 0 (c :: (w ++ [32]))) in Hr.
  assert (room 1 r) as Hn1 by (eapply room_le; [done|lia]).
  assert (forall q, errno q = HPE_INVALID_METHOD ->
    dispatch recorder data (Exec (bump 1 r) s_start_req 0 no_marks u) c = Return 0 q u ->
    exists n q u', runs recorder data (Exec r s_start_req 0 no_marks u) (Return n q u') /\ errno q = HPE_INVALID_METHOD) as Hstop.
  { intros q Hq E. exists 0, q, u. split; [|done]. eapply round_return; [exact Hr|]. cbn [st pr].
    rewrite count_ok by (done || lia). exact E. }
  destruct (IS_ALPHA c) eqn:Ea.
  2: { eapply Hstop; [|cbn [dispatch st]; unfold on_start_req; rewrite Hcr, Hlf, Ea; reflexivity]. done. }
  destruct (first_method c) as [m0|] eqn:Ef.
  2: { eapply Hstop; [|cbn [dispatch st]; unfold on_start_req; rewrite Hcr, Hlf, Ea, Ef; reflexivity]. done. }
  set (r0 := set_pstate s_req_method (set_method m0 (set_index 1 (set_method HTTP_DELETE (reset_message (bump 1 r)))))).
  assert (reaches recorder data (Exec r s_start_req 0 no_marks u)
    (Exec r0 s_req_method (0 + 1) no_marks (u ++ [Notify N_message_begin]))) as H0.
  { eapply step_at; [exact Hr|done|done|]. cbn [dispatch st]. unfold on_start_req.
    rewrite Hcr, Hlf, Ea, Ef. cbn [negb orb]. unfold CALLBACK_NOTIFY. by rewrite record_notify. }
  assert (nread r0 = nread r + 1) as Hn0 by (apply nread_bump; [done|lia]).
  assert (begins r0 [c]) as Hb.
  { split; [cbn; by apply first_method_begins|]. cbn. by destruct m0. }
  destruct (method_rest data w r0 (0 + 1) (u ++ [Notify N_message_begin]) [c] Ho Hb) as [(q & _ & Hq)|(n & q & Hq & He)].
  - apply forallb_forall. intros x Hx. rewrite forallb_forall in Hw. apply Hw, andb_true_iff in Hx as [? _]. done.
  - by eapply rest_cons.
  - eapply room_after; [exact Hn|exact Hn0|lia..].
  - exfalso. by apply (method_of_none (c :: w) (method q)).
  - exists n, q, (u ++ [Notify N_message_begin]). split; [by apply H0|done].
Qed.

(** The word before the first space is taken for a method exactly when it is
    the name of one, and any other word of at least one byte is refused as
    [HPE_INVALID_METHOD]: the chain of letter-by-letter guesses loses no method
    and accepts no other word. *)
Theorem method_exact (w : bytes) (r : http_parser) (u : list event) :
  idle r -> w <> [] -> forallb (fun c => negb (c =? 32) && line_char c) w = true ->
  zlen w + 1 <= HTTP_MAX_HEADER_SIZE ->
  exists n r' u', http_parser_execute recorder r (w ++ str#" ") u = Ret (n, r', u') /\
    match method_of w with
    | Some m => n = zlen w + 1 /\ errno r' = HPE_OK /\ pstate r' = s_req_spaces_before_url /\ method r' = m
    | None => errno r' = HPE_INVALID_METHOD
    end.
Proof.
  intros (Hreach & (Ho & Ht & Hnr) & Hs) Hne Hw Hmax. set (data := w ++ str#" ").
  assert (data <> []) as Hd by (unfold data; by destruct w).
  assert (len data = zlen w + 1) as Hl by (unfold data, len; by rewrite zlen_app).
  assert (room (zlen w + 1) r) as Hn by (split; lia).
  destruct (method_of w) as [m|] eqn:Em.
  - apply method_of_some in Em. destruct (method_segment data m r 0 u [] Ho) as (q & Hq & Hf & _).
    { rewrite Em. apply rest_start. }
    { by rewrite Em. }
    rewrite Em in Hq.
    assert (runs recorder data (Exec r (pstate r) 0 (initial_marks (pstate r)) u)
      (Go (Exec q s_req_spaces_before_url (0 + zlen w + 1) no_marks (u ++ [Notify N_message_begin])))) as Hruns.
    { rewrite Hs. apply Hq, run_end. cbn [pos]. lia. }
    rewrite (execute_runs recorder data r u _ Ho (reachable_ok r Hreach) Hd Hruns).
    unfold fields in Hf. injection Hf as _ _ _ _ _ Hme Hoq. do 3 eexists. split.
    + cbn. unfold flush_marks, CALLBACK_DATA_NOADVANCE, CALLBACK_DATA_, assert_. cbn.
      repeat (rewrite is_ok_true by done; cbn). reflexivity.
    + by split_and!.
  - assert (exists n q u', runs recorder data (Exec r (pstate r) 0 (initial_marks (pstate r)) u) (Return n q u') /\
      errno q = HPE_INVALID_METHOD) as (n & q & u' & Hruns & He).
    { rewrite Hs. by apply (method_refused w r u). }
    rewrite (execute_runs recorder data r u _ Ho (reachable_ok r Hreach) Hd Hruns).
    do 3 eexists. split; [reflexivity|done].
Qed.

Lemma method_exact_witness :
  exists n r' u', http_parser_execute recorder (http_parser_init HTTP_REQUEST) (str#"UNSUBSCRIBED" ++ str#" ") [] = Ret (n, r', u') /\
    match method_of str#"UNSUBSCRIBED" with
    | Some m => n = zlen str#"UNSUBSCRIBED" + 1 /\ errno r' = HPE_OK /\ pstate r' = s_req_spaces_before_url /\ method r' = m
    | None => errno r' = HPE_INVALID_METHOD
    end.
Proof.
  apply (method_exact str#"UNSUBSCRIBED" (http_parser_init HTTP_REQUEST) []); try (vm_compute; done).
  split; [apply R_init|done].
Defined.
