(* ===== verification/HttpBody.v ===== *)
(** Message bodies through [http_parser_execute]: chunked ones, and ones of
    announced length that arrive in pieces. *)
From Stdlib Require Import ZArith Lia Bool Ascii String.
From stdpp Require Import base list numbers strings.
From S2P Require Import Prelude HttpTypes HttpUrl HttpParser HttpSafety HttpMessages.

Open Scope Z_scope.

(** * Chunk sizes *)
Definition hex_digit (c : Z) : Z := if IS_NUM c then c - 48 else LOWER c - 87.
Definition hex (v : Z) (ds : bytes) : Z := fold_left (fun v d => v * 16 + hex_digit d) ds v.
Definition hex_digits (ds : bytes) : bool := forallb (fun d => (0 <=? d) && (d <? 256) && IS_HEX d) ds.
(** The largest chunk size the parser takes. *)
Definition MAX_CHUNK_SIZE : Z := 18446744073709551599.

Lemma unhex_checked :
  forallb (fun d => negb (IS_HEX d) ||
      ((elem unhex d =? hex_digit d) && (0 <=? hex_digit d) && (hex_digit d <=? 15) && negb (d =? CR)))
    (map Z.of_nat (seq 0 256)) = true.
Proof. vm_compute. reflexivity. Qed.

Lemma unhex_digit d :
  (0 <=? d) && (d <? 256) && IS_HEX d = true ->
  elem unhex d = hex_digit d /\ 0 <= hex_digit d <= 15 /\ (d =? CR) = false.
Proof.
  rewrite !andb_true_iff, Z.leb_le, Z.ltb_lt. intros [[H0 H1] Hd]. pose proof unhex_checked as H.
  rewrite forallb_forall in H.
  assert (In d (map Z.of_nat (seq 0 256))) as Hin.
  { apply in_map_iff. exists (Z.to_nat d). split; [lia|]. apply in_seq. lia. }
  specialize (H d Hin). rewrite Hd in H. cbn [negb orb] in H.
  rewrite !andb_true_iff, Z.eqb_eq, !Z.leb_le, negb_true_iff in H. tauto.
Qed.

Lemma hex_mono ds : forall v, 0 <= v -> hex_digits ds = true -> v <= hex v ds.
Proof.
  induction ds as [|d ds IH]; intros v Hv Hd; cbn [hex fold_left]; [lia|].
  cbn [hex_digits forallb] in Hd. apply andb_true_iff in Hd as [Hd1 Hd]. apply unhex_digit in Hd1 as (_ & ? & _).
  specialize (IH (v * 16 + hex_digit d) ltac:(lia) Hd). unfold hex in IH. lia.
Qed.

Section Chunks.
Context (data : bytes).
Abbreviation reaches := (reaches recorder data).
Abbreviation rest := (rest data).
Abbreviation runs := (runs recorder data).
Implicit Types (r : http_parser) (u : list event) (p : Z) (l : bytes).

(** The fields a chunk keeps. *)
Definition chunked_with (cl : Z) r q : Prop :=
  fields q = (type r, flags r, cl, http_major r, http_minor r, method r, HPE_OK).

(** One more digit. *)
Lemma chunk_digit r p u d :
  has_flag F_CHUNKED r = true -> 0 <= content_length r <= ULLONG_MAX -> (0 <=? d) && (d <? 256) && IS_HEX d = true ->
  on_chunk_size (Exec r s_chunk_size p no_marks u) d =
    if content_length r * 16 + hex_digit d <=? MAX_CHUNK_SIZE
    then Go (Exec (set_content_length (content_length r * 16 + hex_digit d) r) s_chunk_size p no_marks u)
    else error HPE_INVALID_CONTENT_LENGTH (Exec r s_chunk_size p no_marks u).
Proof.
  intros Hf Hc Hd. destruct (unhex_digit d Hd) as (E & Hr & Hcr). unfold on_chunk_size. cbn [pr].
  rewrite Hf, Hcr, E. cbn [assert_]. cbn zeta. rewrite (proj2 (Z.eqb_neq (hex_digit d) (-1))) by lia.
  change ((ULLONG_MAX - 16) / 16) with 1152921504606846974. unfold MAX_CHUNK_SIZE, ULLONG_MAX in *.
  destruct (Z.leb_spec (content_length r * 16 + hex_digit d) 18446744073709551599).
  - rewrite (proj2 (Z.ltb_ge _ _)) by lia.
    rewrite (uwrap_small 64 (content_length r * 16)), (uwrap_small 64 (_ + _)) by lia. done.
  - by rewrite (proj2 (Z.ltb_lt _ _)) by lia.
Qed.

(** The digits after the first. *)
Lemma chunk_digits w : forall r p u l,
  errno r = HPE_OK -> has_flag F_CHUNKED r = true -> 0 <= content_length r <= ULLONG_MAX ->
  hex_digits w = true -> rest p (w ++ l) -> room (zlen w) r ->
  if hex (content_length r) w <=? MAX_CHUNK_SIZE then
    exists q, reaches (Exec r s_chunk_size p no_marks u) (Exec q s_chunk_size (p + zlen w) no_marks u) /\
      chunked_with (hex (content_length r) w) r q /\ nread q = nread r + zlen w
  else
    w <> [] -> exists n q, runs (Exec r s_chunk_size p no_marks u) (Return n q u) /\ errno q = HPE_INVALID_CONTENT_LENGTH.
Proof.
  induction w as [|d w IH]; intros r p u l Ho Hf Hc Hw Hr Hn.
  - cbn [hex fold_left]. destruct (_ <=? _); [|done]. exists r. change (zlen (@nil Z)) with 0. rewrite !Z.add_0_r.
    split_and!; [apply reaches_refl| |done]. unfold chunked_with, fields. by rewrite Ho.
  - cbn [hex_digits forallb] in Hw. apply andb_true_iff in Hw as [Hd Hw]. rewrite zlen_cons in *.
    pose proof (zlen_nonneg w). destruct (unhex_digit d Hd) as (_ & Hdr & _).
    assert (room 1 r) as Hn1 by (eapply room_le; [done|lia]).
    assert (nread (bump 1 r) = nread r + 1) as Hb by (apply nread_bump; [done|lia]).
    pose proof (chunk_digit (bump 1 r) p u d Hf Hc Hd) as Hch.
    change (content_length (bump 1 r)) with (content_length r) in Hch.
    cbn [hex fold_left]. change (fold_left _ w ?x) with (hex x w). set (v := content_length r * 16 + hex_digit d) in *.
    assert (v <= hex v w) as Hmono by (apply hex_mono; [lia|done]).
    change (rest p (d :: (w ++ l))) in Hr. destruct (Z.leb_spec v MAX_CHUNK_SIZE) as [Hle|Hgt].
    + set (r1 := set_content_length v (bump 1 r)) in *.
      assert (content_length r1 = v) as Hc1 by (apply uwrap_small; unfold MAX_CHUNK_SIZE in Hle; lia).
      assert (reaches (Exec r s_chunk_size p no_marks u) (Exec r1 s_chunk_size (p + 1) no_marks u)) as H1.
      { eapply step_at; [exact Hr|done|done|exact Hch]. }
      specialize (IH r1 (p + 1) u l Ho Hf). rewrite Hc1 in IH. unfold MAX_CHUNK_SIZE, ULLONG_MAX in *.
      specialize (IH ltac:(lia) Hw (rest_cons _ _ _ _ Hr) ltac:(eapply room_after; [exact Hn|exact Hb|lia..])).
      destruct (hex v w <=? _) eqn:El.
      * destruct IH as (q & Hq & Hfq & Hnq). exists q. split_and!; [|exact Hfq|change (nread r1) with (nread (bump 1 r)) in Hnq; lia].
        eapply reaches_trans; [exact H1|]. by rewrite Z.add_assoc.
      * intros _. destruct w as [|d2 w]; [cbn in El; apply Z.leb_gt in El; lia|].
        destruct IH as (n & q & Hq & He); [done|]. exists n, q. split; [by apply H1|done].
    + rewrite (proj2 (Z.leb_gt _ _)) by lia. intros _. do 2 eexists. split.
      * eapply round_return; [exact Hr|]. cbn [st pr]. rewrite count_ok by (done || lia). exact Hch.
      * done.
Qed.

(** ** The line before a chunk *)
Definition ext_ok (x : bytes) : bool :=
  match x with
  | [] => true
  | c :: _ => ((c =? ch#";") || (c =? ch#" ")) && forallb (fun c => negb (c =? CR)) x
  end.

Lemma chunk_ext w : forall r p u l,
  has_flag F_CHUNKED r = true -> forallb (fun c => negb (c =? CR)) w = true ->
  rest p (w ++ l) -> room (zlen w) r ->
  exists q, reaches (Exec r s_chunk_parameters p no_marks u) (Exec q s_chunk_parameters (p + zlen w) no_marks u) /\
    fields q = fields r /\ nread q = nread r + zlen w.
Proof.
  induction w as [|c w IH]; intros r p u l Hf Hw Hr Hn.
  - exists r. change (zlen (@nil Z)) with 0. rewrite !Z.add_0_r. split_and!; [apply reaches_refl|done..].
  - cbn [forallb] in Hw. rewrite andb_true_iff, negb_true_iff in Hw. destruct Hw as [Hc Hw]. rewrite zlen_cons in *.
    pose proof (zlen_nonneg w). change (rest p (c :: (w ++ l))) in Hr.
    assert (room 1 r) as Hn1 by (eapply room_le; [done|lia]).
    assert (nread (bump 1 r) = nread r + 1) as Hb by (apply nread_bump; [done|lia]).
    destruct (IH (bump 1 r) (p + 1) u l Hf Hw (rest_cons _ _ _ _ Hr)) as (q & Hq & Hfq & Hnq).
    { eapply room_after; [exact Hn|exact Hb|lia..]. }
    exists q. split_and!; [|exact Hfq|lia]. eapply reaches_trans; [|rewrite Z.add_assoc; exact Hq].
    eapply step_at; [exact Hr|done|done|]. cbn [dispatch st]. unfold on_chunk_parameters. cbn [pr].
    change (has_flag F_CHUNKED (bump 1 r)) with (has_flag F_CHUNKED r). by rewrite Hf, Hc.
Qed.

(** From the digits, with or without parameters, to the line feed. *)
Lemma chunk_line_end x r p u l :
  errno r = HPE_OK -> has_flag F_CHUNKED r = true -> ext_ok x = true -> rest p (x ++ CR :: l) -> room (zlen x + 1) r ->
  exists q, reaches (Exec r s_chunk_size p no_marks u) (Exec q s_chunk_size_almost_done (p + zlen x + 1) no_marks u) /\
    fields q = fields r /\ nread q = nread r + zlen x + 1.
Proof.
  intros Ho Hf Hx Hr Hn. destruct x as [|c w].
  - change (zlen (@nil Z)) with 0 in *. rewrite !Z.add_0_r. exists (bump 1 r).
    split_and!; [|done|by apply nread_bump]. eapply step_at; [exact Hr|done|done|].
    cbn [dispatch st]. unfold on_chunk_size. cbn [pr].
    change (has_flag F_CHUNKED (bump 1 r)) with (has_flag F_CHUNKED r). by rewrite Hf.
  - cbn [ext_ok] in Hx. apply andb_true_iff in Hx as [Hc Hw]. cbn [forallb] in Hw.
    rewrite andb_true_iff, negb_true_iff in Hw. destruct Hw as [Hcr Hw]. rewrite zlen_cons in *. pose proof (zlen_nonneg w).
    change (rest p (c :: (w ++ CR :: l))) in Hr.
    assert (room 1 r) as Hn1 by (eapply room_le; [done|lia]).
    assert (nread (bump 1 r) = nread r + 1) as Hb by (apply nread_bump; [done|lia]).
    destruct (chunk_ext w (bump 1 r) (p + 1) u (CR :: l) Hf Hw (rest_cons _ _ _ _ Hr)) as (q & Hq & Hfq & Hnq).
    { eapply room_after; [exact Hn|exact Hb|lia..]. }
    assert (nread (bump 1 q) = nread q + 1) as Hb2.
    { apply nread_bump; [eapply (room_after _ (1 + zlen w)); [exact Hn|lia..]|lia]. }
    exists (bump 1 q). split_and!; [|exact Hfq|lia].
    eapply reaches_trans; [|eapply reaches_trans; [exact Hq|]].
    + eapply step_at; [exact Hr|done|done|]. cbn [dispatch st]. unfold on_chunk_size. cbn [pr].
      change (has_flag F_CHUNKED (bump 1 r)) with (has_flag F_CHUNKED r). rewrite Hf, Hcr. cbn [assert_]. cbn zeta.
      assert (elem unhex c = -1) as ->.
      { apply orb_true_iff in Hc as [->%Z.eqb_eq| ->%Z.eqb_eq]; vm_compute; reflexivity. }
      change (-1 =? -1) with true. cbn match. by rewrite Hc.
    + apply rest_cons, rest_app in Hr. replace (p + (1 + zlen w) + 1) with (p + 1 + zlen w + 1) by lia.
      eapply step_at; [exact Hr|done|eapply (room_after _ (1 + zlen w)); [exact Hn|lia..]|].
      cbn [dispatch st]. unfold on_chunk_parameters. cbn [pr].
      assert (has_flag F_CHUNKED (bump 1 q) = true) as ->; [|done].
      unfold has_flag in *. unfold fields in Hfq. injection Hfq as _ Hfl _ _ _ _ _. cbn in Hfl |- *. by rewrite Hfl.
Qed.

Lemma has_flag_fields f r q : fields q = fields r -> has_flag f q = has_flag f r.
Proof. unfold fields, has_flag. intros [= _ -> _ _ _ _ _]. done. Qed.

Definition chunk_line (size ext : bytes) : bytes := size ++ ext ++ [CR; LF].
Definition size_ok (size ext : bytes) : bool :=
  negb (bool_decide (size = [])) && hex_digits size && ext_ok ext && (hex 0 size <=? MAX_CHUNK_SIZE) &&
  (zlen (chunk_line size ext) <=? HTTP_MAX_HEADER_SIZE).

(** The end of a chunk's line, once its size is read. *)
Lemma chunk_line_finish ext r p u l :
  errno r = HPE_OK -> has_flag F_CHUNKED r = true -> ext_ok ext = true -> rest p (ext ++ CR :: LF :: l) ->
  room (zlen ext + 2) r ->
  exists q, reaches (Exec r s_chunk_size p no_marks u)
      (Exec q (if content_length r =? 0 then s_header_field_start else s_chunk_data) (p + zlen ext + 2) no_marks u) /\
    nread q = 0 /\
    fields q = (type r, (if content_length r =? 0 then flags (or_flags F_TRAILING r) else flags r), content_length r,
                http_major r, http_minor r, method r, HPE_OK).
Proof.
  intros Ho Hf Hx Hr Hn. pose proof (zlen_nonneg ext).
  destruct (chunk_line_end ext r p u (LF :: l) Ho Hf Hx Hr) as (r3 & H3 & Hf3 & Hn3); [eapply room_le; [exact Hn|lia]|].
  apply rest_app, rest_cons in Hr. pose proof (has_flag_fields F_CHUNKED _ _ Hf3) as Hfl3. rewrite Hf in Hfl3.
  unfold fields in Hf3. injection Hf3 as E1 E2 E3 E4 E5 E6 E7. rewrite Ho in E7.
  set (r4 := set_nread 0 (bump 1 r3)). assert (content_length r4 = content_length r) as Hc4 by exact E3.
  exists (if content_length r =? 0 then or_flags F_TRAILING r4 else r4). split_and!.
  - replace (p + zlen ext + 2) with (p + zlen ext + 1 + 1) by lia. eapply reaches_trans; [exact H3|].
    eapply step_at; [exact Hr|done|eapply (room_after _ (zlen ext + 1)); [exact Hn|lia..]|].
    cbn [dispatch st]. unfold on_chunk_size_almost_done, STRICT_CHECK. cbn [pr].
    change (has_flag F_CHUNKED (bump 1 r3)) with (has_flag F_CHUNKED r3). rewrite Hfl3.
    change (negb (LF =? LF)) with false. cbn [assert_]. cbn match. cbn zeta. unfold with_pr, UPDATE_STATE. cbn [pr st pos mk usr].
    fold r4. rewrite Hc4. by destruct (_ =? 0).
  - by destruct (_ =? 0).
  - unfold fields. destruct (_ =? 0); cbn; rewrite ?E1, ?E2, ?E3, ?E4, ?E5, ?E6, ?E7; done.
Qed.

(** A chunk's line, from where the parser waits for a size. *)
Lemma chunk_line_segment size ext r p u l :
  errno r = HPE_OK -> has_flag F_CHUNKED r = true -> nread r = 0 -> size_ok size ext = true ->
  rest p (chunk_line size ext ++ l) ->
  exists q, reaches (Exec r s_chunk_size_start p no_marks u)
      (Exec q (if hex 0 size =? 0 then s_header_field_start else s_chunk_data) (p + zlen (chunk_line size ext)) no_marks u) /\
    nread q = 0 /\
    fields q = (type r, (if hex 0 size =? 0 then flags (or_flags F_TRAILING r) else flags r), hex 0 size,
                http_major r, http_minor r, method r, HPE_OK).
Proof.
  intros Ho Hf Hnr Hok Hr. unfold size_ok in Hok. rewrite !andb_true_iff, negb_true_iff in Hok.
  destruct Hok as [[[[Hne Hd] Hx] Hmax] Hroom]. apply bool_decide_eq_false in Hne. apply Z.leb_le in Hmax, Hroom.
  unfold chunk_line in *. rewrite <- !app_assoc in Hr. cbn [app] in Hr. rewrite !zlen_app in *. change (zlen [CR; LF]) with 2 in *.
  destruct size as [|d w]; [done|]. cbn [hex_digits forallb] in Hd. apply andb_true_iff in Hd as [Hd Hw].
  rewrite zlen_cons in *. pose proof (zlen_nonneg w). pose proof (zlen_nonneg ext).
  destruct (unhex_digit d Hd) as (Eu & Hdr & _). cbn [hex fold_left] in *. change (0 * 16 + hex_digit d) with (hex_digit d) in *.
  change (fold_left _ w (hex_digit d)) with (hex (hex_digit d) w) in *.
  change (rest p (d :: (w ++ ext ++ CR :: LF :: l))) in Hr.
  assert (room (1 + zlen w + zlen ext + 2) r) as Hn by (split; lia).
  assert (room 1 r) as Hn1 by (eapply room_le; [exact Hn|lia]).
  assert (nread (bump 1 r) = nread r + 1) as Hb by (apply nread_bump; [done|lia]).
  set (r1 := set_content_length (hex_digit d) (bump 1 r)).
  assert (content_length r1 = hex_digit d) as Hc1 by (apply uwrap_small; lia).
  assert (reaches (Exec r s_chunk_size_start p no_marks u) (Exec r1 s_chunk_size (p + 1) no_marks u)) as H1.
  { eapply step_at; [exact Hr|done|done|]. cbn [dispatch st]. unfold on_chunk_size_start. cbn [pr].
    rewrite Hb, Hnr. change (has_flag F_CHUNKED (bump 1 r)) with (has_flag F_CHUNKED r). rewrite Hf, Eu.
    change (0 + 1 =? 1) with true. cbn [assert_]. cbn zeta. by rewrite (proj2 (Z.eqb_neq (hex_digit d) (-1))) by lia. }
  apply rest_cons in Hr.
  pose proof (chunk_digits w r1 (p + 1) u (ext ++ CR :: LF :: l) Ho Hf) as H2. rewrite Hc1 in H2.
  specialize (H2 ltac:(unfold ULLONG_MAX; lia) Hw Hr ltac:(eapply room_after; [exact Hn|exact Hb|lia..])).
  rewrite (proj2 (Z.leb_le _ _) Hmax) in H2. destruct H2 as (r2 & H2 & Hf2 & Hn2).
  change (nread r1) with (nread (bump 1 r)) in Hn2. unfold chunked_with in Hf2.
  assert (errno r2 = HPE_OK /\ has_flag F_CHUNKED r2 = true) as [Ho2 Hfl2].
  { unfold fields in Hf2. injection Hf2 as _ E2 _ _ _ _ E. split; [done|]. unfold has_flag in *. by rewrite E2. }
  apply rest_app in Hr.
  destruct (chunk_line_finish ext r2 (p + 1 + zlen w) u l Ho2 Hfl2 Hx Hr) as (r3 & H3 & Hn3 & Hf3).
  { eapply (room_after _ (1 + zlen w)); [exact Hn|lia..]. }
  unfold fields in Hf2. injection Hf2 as E1 E2 E3 E4 E5 E6 E7. rewrite E3 in *.
  exists r3. split_and!; [|exact Hn3|].
  - replace (p + (1 + zlen w + (zlen ext + 2))) with (p + 1 + zlen w + zlen ext + 2) by lia.
    eapply reaches_trans; [exact H1|]. eapply reaches_trans; [exact H2|exact H3].
  - rewrite Hf3. unfold r1 in *. cbn in *. rewrite E1, E2, E4, E5, E6. done.
Qed.

(** ** The bytes of a chunk *)
Lemma chunk_data_segment d r p u l :
  errno r = HPE_OK -> has_flag F_CHUNKED r = true -> content_length r = zlen d -> 0 < zlen d < ULLONG_MAX ->
  rest p (d ++ CR :: LF :: l) ->
  exists q, reaches (Exec r s_chunk_data p no_marks u)
      (Exec q s_chunk_size_start (p + zlen d + 2) no_marks (u ++ [Data D_body d])) /\
    nread q = 0 /\ fields q = (type r, flags r, 0, http_major r, http_minor r, method r, HPE_OK).
Proof.
  intros Ho Hf Hcl Hd Hr. pose proof (rest_app _ _ _ _ Hr) as Hr2. pose proof (rest_end_cons _ _ _ _ Hr2) as Hlen.
  rewrite zlen_cons in Hlen. pose proof (zlen_nonneg l).
  assert (exists c w, d = c :: w) as (c & w & Ed).
  { destruct d; [change (zlen (@nil Z)) with 0 in Hd; lia|by eauto]. }
  set (r1 := set_content_length (zlen d - zlen d) r).
  assert (content_length r1 = 0) as Hc1 by (unfold r1; cbn; by rewrite Z.sub_diag).
  assert (reaches (Exec r s_chunk_data p no_marks u)
    (Exec r1 s_chunk_data_almost_done (p + zlen d) (put_mark D_body (Some p) no_marks) u)) as H1.
  { assert (rest p (c :: (w ++ CR :: LF :: l))) as Hr1 by (by rewrite Ed in Hr).
    replace (Exec r1 s_chunk_data_almost_done (p + zlen d) (put_mark D_body (Some p) no_marks) u) with
      (set_pos (p + (zlen d - 1) + 1) (Exec r1 s_chunk_data_almost_done (p + (zlen d - 1)) (put_mark D_body (Some p) no_marks) u))
      by (unfold set_pos; cbn; f_equal; lia).
    eapply (step_body data r s_chunk_data p no_marks u c (w ++ CR :: LF :: l)
      (Exec r1 s_chunk_data_almost_done (p + (zlen d - 1)) (put_mark D_body (Some p) no_marks) u)); [done|exact Hr1|].
    cbn [dispatch st]. unfold on_chunk_data, body_length_ok. cbn [pr]. rewrite Hf, Hcl.
    rewrite (proj2 (Z.eqb_neq (zlen d) 0)), (proj2 (Z.eqb_neq (zlen d) ULLONG_MAX)) by lia. cbn [negb andb assert_]. cbn zeta.
    assert (take_body data (Exec r s_chunk_data p no_marks u) =
      Exec r1 s_chunk_data (p + (zlen d - 1)) (put_mark D_body (Some p) no_marks) u) as ->.
    { unfold take_body. cbn [pr pos]. rewrite Hcl, Z.min_l by lia. unfold r1, with_pr, set_pos. cbn. by rewrite Hcl. }
    cbn [pr]. by rewrite Hc1. }
  set (r2 := set_pstate s_chunk_data_done r1).
  assert (reaches (Exec r1 s_chunk_data_almost_done (p + zlen d) (put_mark D_body (Some p) no_marks) u)
    (Exec r2 s_chunk_data_done (p + zlen d + 1) no_marks (u ++ [Data D_body d]))) as H2.
  { eapply (step_body data r1 s_chunk_data_almost_done _ _ u CR (LF :: l)
      (Exec r2 s_chunk_data_done (p + zlen d) no_marks (u ++ [Data D_body d]))); [done|exact Hr2|].
    cbn [dispatch st]. unfold on_chunk_data_almost_done, STRICT_CHECK. cbn [pr].
    change (has_flag F_CHUNKED r1) with (has_flag F_CHUNKED r). rewrite Hf, Hc1.
    change (negb (CR =? CR)) with false. cbn [assert_ Z.eqb]. cbn match. unfold UPDATE_STATE. cbn [pr st pos mk usr].
    by apply (data_here data D_body p d CR (LF :: l)). }
  exists (set_nread 0 r2). split_and!; [|done|].
  - replace (p + zlen d + 2) with (p + zlen d + 1 + 1) by lia.
    eapply reaches_trans; [exact H1|]. eapply reaches_trans; [exact H2|].
    eapply (step_body data r2 s_chunk_data_done _ _ _ LF l
      (Exec (set_nread 0 r2) s_chunk_size_start (p + zlen d + 1) no_marks _)); [done|by apply rest_cons in Hr2|].
    cbn [dispatch st]. unfold on_chunk_data_done, STRICT_CHECK. cbn [pr].
    change (has_flag F_CHUNKED r2) with (has_flag F_CHUNKED r). rewrite Hf. done.
  - unfold fields. cbn. by rewrite Ho, Z.sub_diag.
Qed.

(** ** Chunked bodies *)
Record chunk := Chunk { ch_size : bytes; ch_ext : bytes; ch_data : bytes }.
Definition chunk_bytes (c : chunk) : bytes := chunk_line (ch_size c) (ch_ext c) ++ ch_data c ++ [CR; LF].
Definition chunk_ok (c : chunk) : bool :=
  size_ok (ch_size c) (ch_ext c) && (hex 0 (ch_size c) =? zlen (ch_data c)) && negb (bool_decide (ch_data c = [])).

Lemma chunk_segment c r p u l :
  errno r = HPE_OK -> has_flag F_CHUNKED r = true -> nread r = 0 -> chunk_ok c = true -> rest p (chunk_bytes c ++ l) ->
  exists q, reaches (Exec r s_chunk_size_start p no_marks u)
      (Exec q s_chunk_size_start (p + zlen (chunk_bytes c)) no_marks (u ++ [Data D_body (ch_data c)])) /\
    errno q = HPE_OK /\ has_flag F_CHUNKED q = true /\ nread q = 0.
Proof.
  intros Ho Hf Hn Hok Hr. unfold chunk_ok in Hok. rewrite !andb_true_iff, negb_true_iff in Hok.
  destruct Hok as [[Hs Hl] Hne]. apply Z.eqb_eq in Hl. apply bool_decide_eq_false in Hne.
  unfold chunk_bytes in *. rewrite <- !app_assoc in Hr. cbn [app] in Hr.
  assert (0 < zlen (ch_data c) < ULLONG_MAX) as Hd.
  { unfold size_ok in Hs. rewrite !andb_true_iff, !Z.leb_le in Hs. unfold MAX_CHUNK_SIZE, ULLONG_MAX in *.
    destruct (ch_data c) as [|x w]; [done|]. rewrite zlen_cons in *. pose proof (zlen_nonneg w). lia. }
  destruct (chunk_line_segment _ _ r p u _ Ho Hf Hn Hs Hr) as (r1 & H1 & Hn1 & Hf1).
  rewrite Hl, (proj2 (Z.eqb_neq _ _)) in * by lia. unfold fields in Hf1. injection Hf1 as E1 E2 E3 E4 E5 E6 E7.
  apply rest_app in Hr.
  destruct (chunk_data_segment (ch_data c) r1 (p + zlen (chunk_line (ch_size c) (ch_ext c))) u l E7) as (r2 & H2 & Hn2 & Hf2); [|done|done|exact Hr|].
  { unfold has_flag in *. by rewrite E2. }
  exists r2. unfold fields in Hf2. injection Hf2 as _ F2 _ _ _ _ F7. split_and!; [|done| |done].
  - rewrite zlen_app, zlen_app. change (zlen [CR; LF]) with 2.
    replace (p + (zlen (chunk_line (ch_size c) (ch_ext c)) + (zlen (ch_data c) + 2))) with
      (p + zlen (chunk_line (ch_size c) (ch_ext c)) + zlen (ch_data c) + 2) by lia.
    by eapply reaches_trans.
  - unfold has_flag in *. by rewrite F2, E2.
Qed.

Lemma chunks_segment cs : forall r p u l,
  errno r = HPE_OK -> has_flag F_CHUNKED r = true -> nread r = 0 -> forallb chunk_ok cs = true ->
  rest p (concat (map chunk_bytes cs) ++ l) ->
  exists q, reaches (Exec r s_chunk_size_start p no_marks u)
      (Exec q s_chunk_size_start (p + zlen (concat (map chunk_bytes cs))) no_marks
        (u ++ map (fun c => Data D_body (ch_data c)) cs)) /\
    errno q = HPE_OK /\ has_flag F_CHUNKED q = true /\ nread q = 0.
Proof.
  induction cs as [|c cs IH]; intros r p u l Ho Hf Hn Hok Hr; cbn [map concat forallb] in *.
  - exists r. change (zlen (@nil Z)) with 0. rewrite Z.add_0_r, app_nil_r. split_and!; [apply reaches_refl|done..].
  - apply andb_true_iff in Hok as [Hc Hcs]. rewrite <- app_assoc in Hr.
    destruct (chunk_segment c r p u _ Ho Hf Hn Hc Hr) as (r1 & H1 & Ho1 & Hf1 & Hn1). apply rest_app in Hr.
    destruct (IH r1 (p + zlen (chunk_bytes c)) (u ++ [Data D_body (ch_data c)]) l Ho1 Hf1 Hn1 Hcs Hr) as (q & H2 & Hq).
    exists q. split; [|done]. rewrite zlen_app, Z.add_assoc. rewrite <- app_assoc in H2. by eapply reaches_trans.
Qed.

Lemma trailing_set r : has_flag F_TRAILING (or_flags F_TRAILING r) = true.
Proof.
  unfold has_flag. unfold or_flags, set_flags. cbn [flags]. unfold F_TRAILING.
  apply negb_true_iff, Z.eqb_neq. intros E. apply (f_equal (fun x => Z.testbit x 4)) in E.
  rewrite !Z.land_spec, Z.lor_spec, Z.bits_0 in E. by destruct (Z.testbit (flags r) 4).
Qed.

(** The empty line after the last chunk. *)
Lemma trailer_end r p u l :
  errno r = HPE_OK -> has_flag F_TRAILING r = true -> nread r = 0 -> rest p (CR :: LF :: l) ->
  exists q, reaches (Exec r s_header_field_start p no_marks u)
      (Exec q (NEW_MESSAGE q) (p + 2) no_marks (u ++ [Notify N_message_complete])) /\ errno q = HPE_OK.
Proof.
  intros Ho Htr Hn Hr. assert (room 2 r) as Hr1 by (split; unfold HTTP_MAX_HEADER_SIZE; lia).
  set (r2 := bump 1 (bump 1 r)). exists (set_pstate (NEW_MESSAGE r2) r2). split; [|exact Ho].
  change (NEW_MESSAGE (set_pstate (NEW_MESSAGE r2) r2)) with (NEW_MESSAGE r2).
  replace (p + 2) with (p + 1 + 1) by lia. eapply reaches_trans.
  - eapply (step_at data r s_header_field_start _ no_marks u CR (LF :: l) (bump 1 r) s_headers_almost_done no_marks u);
      [exact Hr|done|eapply room_le; [exact Hr1|lia]|done].
  - assert (nread (bump 1 r) = nread r + 1) as Hb by (apply nread_bump; [eapply room_le; [exact Hr1|lia]|lia]).
    apply rest_cons in Hr. eapply step_at; [exact Hr|done|eapply room_after; [exact Hr1|exact Hb|lia..]|].
    cbn [dispatch st]. unfold on_headers_almost_done, STRICT_CHECK. change (negb (LF =? LF)) with false. cbn match. cbn [pr].
    change (has_flag F_TRAILING (bump 1 (bump 1 r))) with (has_flag F_TRAILING r). rewrite Htr.
    unfold CALLBACK_NOTIFY. by rewrite record_notify.
Qed.

(** The last chunk and the empty line. *)
Lemma last_chunk_segment size ext r p u l :
  errno r = HPE_OK -> has_flag F_CHUNKED r = true -> nread r = 0 -> size_ok size ext = true -> hex 0 size = 0 ->
  rest p (chunk_line size ext ++ CR :: LF :: l) ->
  exists q, reaches (Exec r s_chunk_size_start p no_marks u)
      (Exec q (NEW_MESSAGE q) (p + zlen (chunk_line size ext) + 2) no_marks (u ++ [Notify N_message_complete])) /\
    errno q = HPE_OK.
Proof.
  intros Ho Hf Hn Hs Hz Hr. destruct (chunk_line_segment size ext r p u _ Ho Hf Hn Hs Hr) as (r1 & H1 & Hn1 & Hf1).
  rewrite Hz in *. change (0 =? 0) with true in *. cbn match in *.
  unfold fields in Hf1. injection Hf1 as E1 E2 E3 E4 E5 E6 E7. apply rest_app in Hr.
  assert (has_flag F_TRAILING r1 = true) as Htr.
  { unfold has_flag in *. rewrite E2. apply (trailing_set r). }
  destruct (trailer_end r1 (p + zlen (chunk_line size ext)) u l E7 Htr Hn1 Hr) as (q & H2 & Hq).
  exists q. split; [|exact Hq]. by eapply reaches_trans.
Qed.
End Chunks.

(** C34: chunks written one after another into a buffer, with sizes in hexadecimal
    of either case, leading zeros and parameters, then a chunk of size zero, give
    [on_body] the bytes of each chunk and nothing else, and end the message. *)
Theorem chunked_roundtrip (cs : list chunk) (size ext : bytes) (r : http_parser) (u : list event) :
  parser_ok r -> errno r = HPE_OK -> pstate r = s_chunk_size_start ->
  forallb chunk_ok cs = true -> size_ok size ext = true -> hex 0 size = 0 ->
  let data := concat (map chunk_bytes cs) ++ chunk_line size ext ++ [CR; LF] in
  exists r', http_parser_execute recorder r data u =
      Ret (zlen data, r', u ++ map (fun c => Data D_body (ch_data c)) cs ++ [Notify N_message_complete]) /\
    errno r' = HPE_OK /\ pstate r' = NEW_MESSAGE r'.
Proof.
  intros Hok Ho Hs Hcs Hsz Hz data. destruct (Hok (or_introl Ho)) as [_ Hst]. rewrite Hs in Hst. destruct Hst as [Hf Hn].
  destruct (chunks_segment data cs r 0 u _ Ho Hf Hn Hcs (rest_start data)) as (r1 & H1 & Ho1 & Hf1 & Hn1).
  assert (rest data (0 + zlen (concat (map chunk_bytes cs))) (chunk_line size ext ++ CR :: LF :: [])) as Hr.
  { apply rest_app, rest_start. }
  destruct (last_chunk_segment data size ext r1 _ (u ++ map (fun c => Data D_body (ch_data c)) cs) [] Ho1 Hf1 Hn1 Hsz Hz Hr)
    as (q & H2 & Hoq).
  assert (len data = 0 + zlen (concat (map chunk_bytes cs)) + zlen (chunk_line size ext) + 2) as Hl.
  { unfold len, data. rewrite !zlen_app. change (zlen [CR; LF]) with 2. lia. }
  assert (data <> []) as Hd.
  { intros Hd. unfold data in Hd. by apply app_eq_nil in Hd as [_ [_ ?]%app_eq_nil]. }
  assert (runs recorder data (Exec r (pstate r) 0 (initial_marks (pstate r)) u)
    (Go (Exec q (NEW_MESSAGE q) (len data) no_marks
      ((u ++ map (fun c => Data D_body (ch_data c)) cs) ++ [Notify N_message_complete])))) as Hruns.
  { rewrite Hs. apply H1, H2. rewrite <- Hl. by apply run_end. }
  rewrite (execute_runs recorder data r u _ Ho Hok Hd Hruns). exists (set_pstate (NEW_MESSAGE q) q). split; [|done].
  cbn. unfold flush_marks, CALLBACK_DATA_NOADVANCE, CALLBACK_DATA_, assert_. cbn.
  repeat (rewrite is_ok_true by done; cbn). by rewrite <- app_assoc.
Qed.

(** A parser in front of a chunked body. *)
Definition at_chunks : http_parser :=
  match http_parser_execute recorder (http_parser_init HTTP_RESPONSE)
    (str#"HTTP/1.1 200 OK" ++ [CR; LF] ++ str#"Transfer-Encoding: Chunked" ++ [CR; LF; CR; LF]) [] with
  | Ret (_, r, _) => r
  | Fault _ => http_parser_init HTTP_RESPONSE
  end.
Definition sample_chunks : list chunk :=
  [Chunk str#"5" [] str#"hello"; Chunk str#"000B" str#";name=value" str#"hello world"].

Lemma chunked_roundtrip_witness :
  let data := concat (map chunk_bytes sample_chunks) ++ chunk_line str#"00" [] ++ [CR; LF] in
  exists r', http_parser_execute recorder at_chunks data [] =
      Ret (zlen data, r', [] ++ map (fun c => Data D_body (ch_data c)) sample_chunks ++ [Notify N_message_complete]) /\
    errno r' = HPE_OK /\ pstate r' = NEW_MESSAGE r'.
Proof. apply (chunked_roundtrip sample_chunks str#"00" [] at_chunks []); vm_compute; done. Defined.

(** * Bodies of announced length, in pieces *)

(** What a connection does with the pieces it receives: it stops at a call that
    takes less than it was given. *)
Fixpoint feed {U} (cfg : settings U) (r : http_parser) (u : U) (ds : list bytes) : outcome (Z * http_parser * U) :=
  match ds with
  | [] => Ret (0, r, u)
  | d :: ds =>
      '(n, r, u) ← http_parser_execute cfg r d u;
      if n =? zlen d then '(m, r, u) ← feed cfg r u ds; Ret (n + m, r, u) else Ret (n, r, u)
  end.

(** A piece that does not end the body. *)
Lemma part_execute d r u :
  parser_ok r -> errno r = HPE_OK -> pstate r = s_body_identity -> d <> [] -> zlen d < content_length r ->
  exists q, http_parser_execute recorder r d u = Ret (zlen d, q, u ++ [Data D_body d]) /\
    errno q = HPE_OK /\ pstate q = s_body_identity /\ content_length q = content_length r - zlen d.
Proof.
  intros Hok Ho Hs Hd Hl. destruct (Hok (or_introl Ho)) as [_ Hst]. rewrite Hs in Hst. cbn in Hst.
  assert (exists c w, d = c :: w) as (c & w & Ed) by (destruct d; [done|by eauto]).
  set (cl := content_length r) in *. set (r1 := set_content_length (cl - zlen d) r). pose proof (zlen_nonneg d).
  assert (content_length r1 = cl - zlen d) as Hc1 by (unfold r1; cbn; apply uwrap_small; unfold ULLONG_MAX in Hst; lia).
  assert (runs recorder d (Exec r (pstate r) 0 (initial_marks (pstate r)) u)
    (Go (Exec r1 s_body_identity (len d) (put_mark D_body (Some 0) no_marks) u))) as Hruns.
  { rewrite Hs.
    assert (rest d 0 (c :: w)) as Hr by (rewrite <- Ed; apply rest_start).
    pose proof (step_body d r s_body_identity 0 no_marks u c w
      (Exec r1 s_body_identity (0 + (zlen d - 1)) (put_mark D_body (Some 0) no_marks) u) eq_refl Hr) as H1.
    unfold set_pos in H1. cbn [pr st pos mk usr] in H1. unfold len.
    replace (0 + (zlen d - 1) + 1) with (zlen d) in H1 by lia. apply H1; [|by apply run_end].
    cbn [dispatch st]. unfold on_body_identity, body_length_ok. cbn [pr]. fold cl.
    rewrite (proj2 (Z.eqb_neq cl 0)), (proj2 (Z.eqb_neq cl ULLONG_MAX)) by lia. cbn [negb andb assert_]. cbn zeta.
    assert (take_body d (Exec r s_body_identity 0 no_marks u) =
      Exec r1 s_body_identity (0 + (zlen d - 1)) (put_mark D_body (Some 0) no_marks) u) as ->.
    { unfold take_body, len. cbn [pr pos]. fold cl. rewrite Z.sub_0_r, Z.min_r by lia. unfold r1, with_pr, set_pos. cbn. by fold cl. }
    cbn [pr]. by rewrite Hc1, (proj2 (Z.eqb_neq _ _)) by lia. }
  rewrite (execute_runs recorder d r u _ Ho Hok Hd Hruns). exists (set_pstate s_body_identity (set_pstate s_body_identity r1)).
  split; [|by split_and!]. cbn. unfold flush_marks, CALLBACK_DATA_NOADVANCE.
  change (mark_count _) with 1. cbn [assert_ Z.leb Z.compare Pos.compare Pos.compare_cont].
  set (e := Exec r1 s_body_identity (len d) (put_mark D_body (Some 0) no_marks) u).
  assert (forall k er, get_mark k (mk e) = None -> CALLBACK_DATA_ recorder d k (fun m => pos e - m) er e = Go e) as Hskip.
  { intros k er E. unfold CALLBACK_DATA_, assert_. rewrite is_ok_true by exact Ho. by rewrite E. }
  rewrite (Hskip D_header_field) by done. cbn [mbind result_bind].
  rewrite (Hskip D_header_value) by done. cbn [mbind result_bind].
  rewrite (Hskip D_url) by done. cbn [mbind result_bind].
  rewrite (record_data d D_body _ _ 0 d e); [|exact Ho|done|].
  - cbn. unfold CALLBACK_DATA_, assert_. cbn. rewrite is_ok_true by exact Ho. done.
  - unfold e. cbn [pos]. rewrite Z.sub_0_r. unfold len. apply (rest_slice d 0 d []); [|by left].
    rewrite app_nil_r. apply rest_start.
Qed.

(** The piece that ends it. *)
Lemma last_execute d r u :
  parser_ok r -> errno r = HPE_OK -> pstate r = s_body_identity -> d <> [] -> zlen d = content_length r ->
  exists q, http_parser_execute recorder r d u = Ret (zlen d, q, u ++ [Data D_body d; Notify N_message_complete]) /\
    errno q = HPE_OK /\ pstate q = NEW_MESSAGE q.
Proof.
  intros Hok Ho Hs Hd Hl. destruct (Hok (or_introl Ho)) as [_ Hst]. rewrite Hs in Hst. cbn in Hst.
  assert (rest d 0 (d ++ [])) as Hr by (rewrite app_nil_r; apply rest_start).
  destruct (whole_body d r 0 u d [] Ho (eq_sym Hl) ltac:(lia) Hr) as (q & Hb & Hfq & _).
  assert (exists c w, d = c :: w) as (c & w & Ed) by (destruct d; [done|by eauto]).
  assert (znth d 0 = c) as Ec by by rewrite Ed.
  assert (rest d 0 (c :: w)) as Hr1 by (by rewrite <- Ed; apply rest_start).
  pose proof (step_body d r s_body_identity 0 no_marks u c w _ eq_refl Hr1
    ltac:(cbn [dispatch st]; rewrite <- Ec; exact Hb)) as H1.
  unfold set_pos in H1. cbn [pr st pos mk usr] in H1.
  unfold fields in Hfq. injection Hfq as _ _ _ _ _ _ Hoq.
  destruct (data_at d (zlen d - 1)) as [l' El]; [unfold len; lia|].
  assert (rest d (zlen d - 1) (znth (zslice (zlen d - 1) 1 d) 0 :: l')) as Hr2 by (by split; [lia|]).
  set (q2 := set_pstate (NEW_MESSAGE q) q).
  pose proof (step_body d q s_message_done (zlen d - 1) no_marks (u ++ [Data D_body d]) _ l'
    (Exec q2 (NEW_MESSAGE q) (zlen d - 1) no_marks ((u ++ [Data D_body d]) ++ [Notify N_message_complete])) eq_refl Hr2) as H2.
  assert (runs recorder d (Exec r (pstate r) 0 (initial_marks (pstate r)) u)
    (Go (Exec q2 (NEW_MESSAGE q) (len d) no_marks (u ++ [Data D_body d; Notify N_message_complete])))) as Hruns.
  { rewrite Hs. apply H1. replace (0 + zlen d - 2 + 1) with (zlen d - 1) by lia. rewrite <- app_assoc in H2. cbn [app] in H2.
    apply H2.
    - cbn [dispatch st]. unfold on_message_done, complete, CALLBACK_NOTIFY, UPDATE_STATE. cbn [pr st pos mk usr].
      rewrite record_notify by exact Hoq. cbn. by rewrite <- app_assoc.
    - unfold set_pos. cbn [pr st pos mk usr]. replace (zlen d - 1 + 1) with (len d) by (unfold len; lia). by apply run_end. }
  rewrite (execute_runs recorder d r u _ Ho Hok Hd Hruns). exists (set_pstate (NEW_MESSAGE q) q2).
  split; [|by split_and!]. cbn. unfold flush_marks, CALLBACK_DATA_NOADVANCE, CALLBACK_DATA_, assert_. cbn.
  by repeat (rewrite is_ok_true by done; cbn).
Qed.

(** A body of announced length that arrives in any pieces is given to
    [on_body] piece by piece, all of it and in order; the message ends with its
    last byte, and no call takes less than it was given. *)
Theorem body_fragments (ds : list bytes) : forall (r : http_parser) (u : list event),
  parser_ok r -> errno r = HPE_OK -> pstate r = s_body_identity ->
  Forall (fun d => d <> []) ds -> zlen (concat ds) = content_length r ->
  exists r', feed recorder r u ds =
      Ret (zlen (concat ds), r', u ++ map (Data D_body) ds ++ [Notify N_message_complete]) /\
    errno r' = HPE_OK /\ pstate r' = NEW_MESSAGE r'.
Proof.
  induction ds as [|d ds IH]; intros r u Hok Ho Hs Hne Hl; cbn [concat] in *.
  - destruct (Hok (or_introl Ho)) as [_ Hst]. rewrite Hs in Hst. cbn in Hst. change (zlen (@nil Z)) with 0 in Hl. lia.
  - apply Forall_cons_iff in Hne as [Hd Hne]. rewrite zlen_app in Hl |- *. cbn [feed].
    destruct ds as [|d2 ds].
    + cbn [concat] in *. change (zlen (@nil Z)) with 0 in *.
      destruct (last_execute d r u Hok Ho Hs Hd ltac:(lia)) as (q & E & Hq). rewrite E. obind.
      rewrite Z.eqb_refl. exists q. split; [done|done].
    + pose proof (zlen_nonneg (concat ds)).
      assert (0 < zlen (concat (d2 :: ds))) as Hpos.
      { apply Forall_cons_iff in Hne as [Hd2 _]. cbn [concat]. rewrite zlen_app. destruct d2 as [|x d2]; [done|].
        rewrite zlen_cons. pose proof (zlen_nonneg d2). lia. }
      destruct (part_execute d r u Hok Ho Hs Hd ltac:(lia)) as (q & E & Hoq & Hsq & Hcq). rewrite E. obind.
      rewrite Z.eqb_refl. destruct (execute_ok recorder r d u Hok) as (n & q' & u' & E' & Hokq & _).
      rewrite E in E'. injection E' as <- <- <-.
      destruct (IH q (u ++ [Data D_body d]) Hokq Hoq Hsq Hne ltac:(lia)) as (r' & Ef & Hr'). rewrite Ef. obind.
      exists r'. split; [|done]. by rewrite <- app_assoc.
Qed.

(** A parser in front of a body of seven bytes. *)
Definition at_body : http_parser :=
  match http_parser_execute recorder (http_parser_init HTTP_REQUEST)
    (str#"POST / HTTP/1.1" ++ [CR; LF] ++ str#"Content-Length: 7" ++ [CR; LF; CR; LF]) [] with
  | Ret (_, r, _) => r
  | Fault _ => http_parser_init HTTP_REQUEST
  end.

Lemma body_fragments_witness :
  exists r', feed recorder at_body [] [str#"a"; str#"=42"; str#"&b="] =
      Ret (zlen (concat [str#"a"; str#"=42"; str#"&b="]), r',
           [] ++ map (Data D_body) [str#"a"; str#"=42"; str#"&b="] ++ [Notify N_message_complete]) /\
    errno r' = HPE_OK /\ pstate r' = NEW_MESSAGE r'.
Proof.
  apply (body_fragments [str#"a"; str#"=42"; str#"&b="] at_body []); try (vm_compute; done).
  repeat constructor; discriminate.
Defined.
