(* ===== verification/HttpQuirks.v ===== *)
(** Where the HTTP parser does not do what its comments and its users expect:
    facts of the code, each with the input that shows it. *)
From Stdlib Require Import ZArith Lia Bool Ascii String.
From stdpp Require Import base list numbers strings.
From S2P Require Import Prelude HttpTypes HttpUrl HttpParser HttpSafety HttpMessages HttpBody.

Open Scope Z_scope.

(** * The flag for bodies to skip *)

(** [cfg] with [on_headers_complete] answering [code] as well. *)
Definition with_code {U} (c : Z) (f : http_parser -> U -> reply U) (r : http_parser) (u : U) : reply U :=
  Reply c (paused (f r u)) (user (f r u)).
Definition answering {U} (c : Z) (cfg : settings U) : settings U :=
  Settings (fun k => match k with
                     | N_headers_complete => with_code c <$> on_notify cfg k
                     | _ => on_notify cfg k
                     end) (on_data cfg).

(** The flags fit their field. *)
Definition flags_ok (r : http_parser) : Prop := Z.land (flags r) 63 = flags r.

Lemma or_skipbody r : flags_ok r -> or_flags F_SKIPBODY r = r.
Proof.
  unfold flags_ok. destruct r. unfold or_flags, set_flags, F_SKIPBODY. cbn. intros E. f_equal.
  rewrite Z.land_lor_distr_l, E. change (Z.land 64 63) with 0. apply Z.lor_0_r.
Qed.

(** [F_SKIPBODY] is the seventh flag of a six-bit field: the answer 1 of
    [on_headers_complete], by which an application says that a response to HEAD
    has no body, has the effect of the answer 0. *)
Theorem skip_body_lost {U} (cfg : settings U) (e : exec U) (ch : Z) :
  flags_ok (pr e) -> on_headers_almost_done (answering 1 cfg) e ch = on_headers_almost_done (answering 0 cfg) e ch.
Proof.
  intros Hf. unfold on_headers_almost_done, STRICT_CHECK. destruct (negb (ch =? LF)); [done|].
  destruct (has_flag F_TRAILING (pr e)); [done|]. cbn zeta. cbn [answering on_notify].
  destruct (on_notify cfg N_headers_complete) as [f|]; cbn [fmap option_fmap option_map]; [|done].
  unfold with_code. cbn [code paused user]. change (0 =? 0) with true. change (1 =? 0) with false.
  change (1 =? 1) with true. cbn match. cbn [mbind result_bind].
  match goal with |- context [with_pr (or_flags F_SKIPBODY) ?x] => replace (with_pr (or_flags F_SKIPBODY) x) with x end; [done|].
  unfold with_pr. cbn [pr st pos mk usr]. f_equal. symmetry. apply or_skipbody. by destruct (paused _).
Qed.

Lemma skip_body_lost_witness :
  flags_ok (http_parser_init HTTP_RESPONSE) /\
  (let e := Exec (http_parser_init HTTP_RESPONSE) s_headers_almost_done 0 no_marks [] in
   on_headers_almost_done (answering 1 recorder) e LF = on_headers_almost_done (answering 0 recorder) e LF).
Proof.
  split; [reflexivity|].
  apply (skip_body_lost recorder (Exec (http_parser_init HTTP_RESPONSE) s_headers_almost_done 0 no_marks []) LF). reflexivity.
Defined.

(** * Line ends before a response *)
Lemma step_crlf data r p u c l :
  errno r = HPE_OK -> c = CR \/ c = LF -> rest data p (c :: l) -> room 1 r ->
  exists q, reaches recorder data (Exec r s_start_res p no_marks u)
      (Exec q s_start_res (p + 1) no_marks (u ++ [Notify N_message_begin])) /\
    errno q = HPE_OK /\ nread q = nread r + 1.
Proof.
  intros Ho Hc Hr Hn. exists (set_pstate s_start_res (reset_message (bump 1 r))).
  split; [|split; [exact Ho|apply nread_bump; [exact Hn|lia]]].
  eapply (step_at data r s_start_res p no_marks u c l); [exact Hr|done|done|].
  cbn [dispatch st]. unfold on_start_res, CALLBACK_NOTIFY, with_pr. cbn [pr st pos mk usr].
  destruct Hc as [-> | ->]; [change (CR =? ch#"H") with false|change (LF =? ch#"H") with false];
    cbn [Z.eqb CR LF Pos.eqb orb]; by rewrite record_notify.
Qed.

Lemma steps_crlf data w : forall r p u,
  errno r = HPE_OK -> Forall (fun c => c = CR \/ c = LF) w -> rest data p w -> room (zlen w) r ->
  exists q, reaches recorder data (Exec r s_start_res p no_marks u)
      (Exec q s_start_res (p + zlen w) no_marks (u ++ map (fun _ => Notify N_message_begin) w)) /\ errno q = HPE_OK.
Proof.
  induction w as [|c w IH]; intros r p u Ho Hw Hr Hn.
  - exists r. change (zlen (@nil Z)) with 0. rewrite Z.add_0_r, app_nil_r. split; [apply reaches_refl|done].
  - apply Forall_cons_iff in Hw as [Hc Hw]. rewrite zlen_cons in *. pose proof (zlen_nonneg w).
    destruct (step_crlf data r p u c w Ho Hc Hr) as (r1 & H1 & Ho1 & Hn1); [eapply room_le; [exact Hn|lia]|].
    destruct (IH r1 (p + 1) (u ++ [Notify N_message_begin]) Ho1 Hw) as (q & H2 & Hq).
    + by eapply rest_cons.
    + eapply room_after; [exact Hn|exact Hn1|lia..].
    + exists q. split; [|done]. cbn [map]. rewrite Z.add_assoc. rewrite <- app_assoc in H2. by eapply reaches_trans.
Qed.

(** A parser of responses takes empty lines before a status line, and calls
    [on_message_begin] for every byte of them, although no message begins: a
    parser of requests, or of either, does not. *)
Theorem blank_lines_begin_messages (w : bytes) :
  Forall (fun c => c = CR \/ c = LF) w -> zlen w <= HTTP_MAX_HEADER_SIZE ->
  exists r', http_parser_execute recorder (http_parser_init HTTP_RESPONSE) w [] =
    Ret (zlen w, r', map (fun _ => Notify N_message_begin) w).
Proof.
  intros Hw Hn. set (r := http_parser_init HTTP_RESPONSE).
  destruct (decide (w = [])) as [->|Hne]; [by exists r|].
  destruct (steps_crlf w w r 0 [] eq_refl Hw (rest_start w)) as (q & Hq & Ho); [split; [done|exact Hn]|].
  assert (runs recorder w (Exec r (pstate r) 0 (initial_marks (pstate r)) [])
    (Go (Exec q s_start_res (0 + zlen w) no_marks ([] ++ map (fun _ => Notify N_message_begin) w)))) as Hruns.
  { apply Hq, run_end. done. }
  rewrite (execute_runs recorder w r [] _ eq_refl (init_ok _) Hne Hruns). exists (set_pstate s_start_res q).
  cbn. unfold flush_marks, CALLBACK_DATA_NOADVANCE, CALLBACK_DATA_, assert_. cbn.
  by repeat (rewrite is_ok_true by done; cbn).
Qed.

Lemma blank_lines_begin_messages_witness :
  Forall (fun c => c = CR \/ c = LF) [CR; LF; CR; LF] /\
  exists r', http_parser_execute recorder (http_parser_init HTTP_RESPONSE) [CR; LF; CR; LF] [] =
    Ret (4, r', map (fun _ => Notify N_message_begin) [CR; LF; CR; LF]).
Proof.
  assert (Forall (fun c => c = CR \/ c = LF) [CR; LF; CR; LF]) as Hw by (repeat constructor; auto).
  split; [exact Hw|]. apply (blank_lines_begin_messages [CR; LF; CR; LF] Hw). vm_compute. discriminate.
Defined.

(** * Digits that are none *)

(** The table [unhex] has entries for 128 of its 256 characters, so that any
    byte from 128 up is a hexadecimal digit zero: alone on a line it ends a
    chunked body. *)
Theorem high_byte_is_digit (c : Z) (r : http_parser) (u : list event) :
  128 <= c < 256 -> parser_ok r -> errno r = HPE_OK -> pstate r = s_chunk_size_start ->
  exists r', http_parser_execute recorder r [c; CR; LF; CR; LF] u = Ret (5, r', u ++ [Notify N_message_complete]) /\
    errno r' = HPE_OK.
Proof.
  intros Hc Hok Ho Hs. destruct (Hok (or_introl Ho)) as [_ Hst]. rewrite Hs in Hst. destruct Hst as [Hf Hn].
  set (data := [c; CR; LF; CR; LF]). set (r1 := set_content_length 0 (bump 1 r)).
  assert (elem unhex c = 0) as Eu.
  { unfold elem. rewrite lookup_ge_None_2; [done|]. change (length unhex) with 128%nat. lia. }
  assert (nread (bump 1 r) = 1) as Hb by (cbn; by rewrite Hn).
  assert (reaches recorder data (Exec r s_chunk_size_start 0 no_marks u) (Exec r1 s_chunk_size (0 + 1) no_marks u)) as H1.
  { eapply (step_at data r _ 0 no_marks u c [CR; LF; CR; LF]); [apply rest_start|done|split; rewrite Hn; done|].
    cbn [dispatch st]. unfold on_chunk_size_start. cbn [pr].
    change (has_flag F_CHUNKED (bump 1 r)) with (has_flag F_CHUNKED r). rewrite Hb, Hf, Eu. done. }
  assert (has_flag F_CHUNKED r1 = true /\ content_length r1 = 0 /\ nread r1 = 1) as (Hf1 & Hc1 & Hn1) by done.
  assert (rest data (0 + 1) ([] ++ CR :: LF :: [CR; LF])) as Hr1 by (apply (rest_cons data 0 c), rest_start).
  destruct (chunk_line_finish data [] r1 (0 + 1) u [CR; LF] Ho Hf1 eq_refl Hr1) as (r2 & H2 & Hn2 & Hf2).
  { split; rewrite Hn1; done. }
  rewrite Hc1 in *. change (0 =? 0) with true in *. unfold fields in Hf2. injection Hf2 as _ E2 _ _ _ _ E7.
  assert (has_flag F_TRAILING r2 = true) as Htr by (unfold has_flag in *; rewrite E2; apply (trailing_set r1)).
  assert (rest data (0 + 1 + zlen (@nil Z) + 2) (CR :: LF :: [])) as Hr2.
  { by split. }
  destruct (trailer_end data r2 _ u [] E7 Htr Hn2 Hr2) as (q & H3 & Hq).
  assert (runs recorder data (Exec r (pstate r) 0 (initial_marks (pstate r)) u)
    (Go (Exec q (NEW_MESSAGE q) (0 + 1 + zlen (@nil Z) + 2 + 2) no_marks (u ++ [Notify N_message_complete])))) as Hruns.
  { rewrite Hs. apply H1, H2, H3, run_end. done. }
  rewrite (execute_runs recorder data r u _ Ho Hok ltac:(done) Hruns). exists (set_pstate (NEW_MESSAGE q) q). split; [|done].
  cbn. unfold flush_marks, CALLBACK_DATA_NOADVANCE, CALLBACK_DATA_, assert_. cbn.
  by repeat (rewrite is_ok_true by done; cbn).
Qed.

Lemma high_byte_is_digit_witness :
  exists r', http_parser_execute recorder at_chunks [200; CR; LF; CR; LF] [] = Ret (5, r', [] ++ [Notify N_message_complete]) /\
    errno r' = HPE_OK.
Proof. apply (high_byte_is_digit 200 at_chunks []); vm_compute; done || (split; [discriminate|reflexivity]). Defined.
