(* ===== verification/HttpUrlProofs.v ===== *)
(** [http_parser_parse_url]: the parts of a well-formed URL are found where they
    are, and where the function relies on memory it was not given. *)
From Stdlib Require Import ZArith Lia Bool Ascii String.
From stdpp Require Import base list numbers strings.
From S2P Require Import Prelude HttpTypes HttpUrl HttpParser HttpSafety HttpMessages.

Open Scope Z_scope.

(** * The result structure, field by field *)
Definition url_is (u : http_parser_url) (fs : Z) (fd : url_field -> Z * Z) : Prop :=
  field_set u = fs /\ forall g, field_data u g = fd g.
Definition upd (fd : url_field -> Z * Z) (f : url_field) (v : Z * Z) : url_field -> Z * Z :=
  fun g => if bool_decide (g = f) then v else fd g.
Definition bit (f : url_field) : Z := Z.shiftl 1 (UF_num f).

Lemma upd_same fd f v : upd fd f v f = v.
Proof. unfold upd. by rewrite bool_decide_eq_true_2. Qed.

Lemma url_is_mark u fs fd f : url_is u fs fd -> url_is (mark_field f u) (u16 (Z.lor fs (bit f))) fd.
Proof. intros [<- Hd]. by split. Qed.
Lemma url_is_set u fs fd f o n : url_is u fs fd -> url_is (set_field f o n u) fs (upd fd f (u16 o, u16 n)).
Proof. intros [<- Hd]. split; [done|]. intros g. unfold upd, set_field. cbn. by destruct (bool_decide (g = f)). Qed.
Lemma url_is_ext u fs fd fd' : (forall g, fd g = fd' g) -> url_is u fs fd -> url_is u fs fd'.
Proof. intros H [? Hd]. split; [done|]. intros g. by rewrite Hd. Qed.
Lemma url_is_incr u fs fd f o n :
  url_is u fs (upd fd f (o, n)) -> 0 <= o < 65536 -> 0 <= n < 65535 -> url_is (incr_len f u) fs (upd fd f (o, n + 1)).
Proof.
  intros Hu Ho Hn. pose proof Hu as [_ Hd]. unfold incr_len, set_len, off, flen. rewrite Hd, upd_same. cbn [fst snd].
  eapply url_is_ext; [|by apply url_is_set]. intros g. unfold upd. rewrite !uwrap_small by lia. by destruct (bool_decide (g = f)).
Qed.

Section Loop.
Context (buf : bytes).
Abbreviation rest := (rest buf).
Abbreviation url_loop := (url_loop buf).

Definition steady (s : state) (f : url_field) : Prop :=
  field_of s = Ret (Some f) /\ s <> s_dead /\ s <> s_req_server_with_at.

Lemma url_loop_step n p s old fa u c l :
  rest p (c :: l) ->
  url_loop (S n) p s old fa u =
    let s := parse_url_char s c in
    match s with
    | s_dead => Ret (None, u)
    | _ =>
        uf ← field_of s;
        let fa := match s with s_req_server_with_at => true | _ => fa end in
        match uf with
        | None => url_loop n (p + 1) s old fa u
        | Some f =>
            if bool_decide (old = Some f) then url_loop n (p + 1) s old fa (incr_len f u)
            else url_loop n (p + 1) s (Some f) fa (mark_field f (set_field f p 1 u))
        end
    end.
Proof. intros Hr. cbn [HttpUrl.url_loop]. by rewrite (rest_read buf _ _ _ Hr). Qed.

(** A delimiter. *)
Lemma url_loop_skip n p s s' old fa u c l :
  rest p (c :: l) -> parse_url_char s c = s' -> field_of s' = Ret None ->
  url_loop (S n) p s old fa u = url_loop n (p + 1) s' old fa u.
Proof. intros Hr <- Hf. rewrite (url_loop_step _ _ _ _ _ _ _ _ Hr). cbn zeta. rewrite Hf. by destruct (parse_url_char s c). Qed.

(** More of the field at hand. *)
Lemma url_loop_more w : forall n p s f fa u l fs fd o k,
  steady s f -> Forall (fun c => parse_url_char s c = s) w -> rest p (w ++ l) ->
  url_is u fs (upd fd f (o, k)) -> 0 <= o < 65536 -> 0 <= k -> k + zlen w < 65536 ->
  exists u', url_loop (length w + n) p s (Some f) fa u = url_loop n (p + zlen w) s (Some f) fa u' /\
    url_is u' fs (upd fd f (o, k + zlen w)).
Proof.
  induction w as [|c w IH]; intros n p s f fa u l fs fd o k Hs Hw Hr Hu Ho Hk Hl.
  - exists u. change (zlen (@nil Z)) with 0 in *. by rewrite !Z.add_0_r.
  - apply Forall_cons_iff in Hw as [Hc Hw]. rewrite zlen_cons in *. pose proof (zlen_nonneg w).
    change (rest p (c :: (w ++ l))) in Hr. cbn [length Nat.add]. rewrite (url_loop_step _ _ _ _ _ _ _ _ Hr). cbn zeta.
    rewrite Hc. destruct Hs as (Hf & Hd & Ha).
    destruct (IH n (p + 1) s f fa (incr_len f u) l fs fd o (k + 1)) as (u' & E & Hu'); try done.
    + by eapply rest_cons.
    + apply url_is_incr; [done|lia..].
    + lia.
    + lia.
    + exists u'. rewrite !Z.add_assoc in *. split; [|done]. rewrite <- E. rewrite Hf. obind.
      rewrite bool_decide_eq_true_2 by done. by destruct s.
Qed.

(** A whole field. *)
Lemma url_loop_field w n p s0 s f old fa u l fs fd c :
  steady s f -> parse_url_char s0 c = s -> Forall (fun c => parse_url_char s c = s) w -> old <> Some f ->
  rest p (c :: w ++ l) -> url_is u fs fd -> p + 1 + zlen w < 65536 ->
  exists u', url_loop (length (c :: w) + n) p s0 old fa u = url_loop n (p + zlen (c :: w)) s (Some f) fa u' /\
    url_is u' (u16 (Z.lor fs (bit f))) (upd fd f (p, zlen (c :: w))).
Proof.
  intros Hs Hc Hw Hold Hr Hu Hl. rewrite zlen_cons. pose proof (zlen_nonneg w). cbn [length Nat.add].
  rewrite (url_loop_step _ _ _ _ _ _ _ _ Hr). cbn zeta. rewrite Hc. pose proof Hs as (Hf & Hd & Ha).
  assert (0 <= p) as Hp by apply Hr.
  destruct (url_loop_more w n (p + 1) s f fa (mark_field f (set_field f p 1 u)) l (u16 (Z.lor fs (bit f))) fd p 1 Hs Hw)
    as (u' & E & Hu').
  - by eapply rest_cons.
  - apply url_is_mark. pose proof (url_is_set u fs fd f p 1 Hu) as H1. by rewrite !uwrap_small in H1 by lia.
  - lia.
  - lia.
  - lia.
  - exists u'. rewrite Z.add_assoc. split; [|done]. rewrite <- E, Hf. obind.
    rewrite bool_decide_eq_false_2 by done. by destruct s.
Qed.

(** ** The host and the port *)
Abbreviation host_loop := (host_loop buf).
Definition host_char (c : Z) : bool := IS_HOST_CHAR c.

Lemma host_loop_step n p s u c l :
  rest p (c :: l) -> http_parse_host_char s c <> s_http_host_dead ->
  host_loop (S n) p s u = host_loop n (p + 1) (http_parse_host_char s c) (host_step s (http_parse_host_char s c) p u).
Proof.
  intros Hr Hd. cbn [HttpUrl.host_loop]. rewrite (rest_read buf _ _ _ Hr). obind. change (znth [c] 0) with c.
  by destruct (http_parse_host_char s c).
Qed.

Lemma host_start c : IS_HOST_CHAR c = true ->
  http_parse_host_char s_http_host_start c = s_http_host /\ http_parse_host_char s_http_host c = s_http_host.
Proof.
  intros H. unfold http_parse_host_char. rewrite H. split; [|done].
  destruct (Z.eqb_spec c ch#"[") as [->|]; [vm_compute in H; discriminate H|done].
Qed.

(** The rest of a field of the host part: [s] stays, [f] grows. *)
Lemma host_loop_more f s w : forall n p u l fs fd o k,
  (s = s_http_host /\ f = UF_HOST \/ s = s_http_host_port /\ f = UF_PORT) ->
  Forall (fun c => http_parse_host_char s c = s) w -> rest p (w ++ l) ->
  url_is u fs (upd fd f (o, k)) -> 0 <= o < 65536 -> 0 <= k -> k + zlen w < 65536 ->
  exists u', host_loop (length w + n) p s u = host_loop n (p + zlen w) s u' /\
    url_is u' fs (upd fd f (o, k + zlen w)).
Proof.
  induction w as [|c w IH]; intros n p u l fs fd o k Hs Hw Hr Hu Ho Hk Hl.
  - exists u. change (zlen (@nil Z)) with 0 in *. by rewrite !Z.add_0_r.
  - apply Forall_cons_iff in Hw as [Hc Hw]. rewrite zlen_cons in *. pose proof (zlen_nonneg w).
    change (rest p (c :: (w ++ l))) in Hr. cbn [length Nat.add].
    rewrite (host_loop_step _ _ _ _ _ _ Hr) by (rewrite Hc; destruct Hs as [[-> _]|[-> _]]; done). rewrite Hc.
    assert (host_step s s p u = incr_len f u) as -> by (destruct Hs as [[-> ->]|[-> ->]]; done).
    destruct (IH n (p + 1) (incr_len f u) l fs fd o (k + 1)) as (u' & E & Hu'); try done.
    + by eapply rest_cons.
    + apply url_is_incr; [done|lia..].
    + lia.
    + lia.
    + exists u'. by rewrite !Z.add_assoc in *.
Qed.

Lemma host_loop_host c w n p u l fs fd :
  Forall (fun c => IS_HOST_CHAR c = true) (c :: w) -> rest p (c :: w ++ l) ->
  url_is u fs fd -> snd (fd UF_HOST) = 0 -> p + 1 + zlen w < 65536 ->
  exists u', host_loop (length (c :: w) + n) p s_http_host_start u = host_loop n (p + zlen (c :: w)) s_http_host u' /\
    url_is u' fs (upd fd UF_HOST (p, zlen (c :: w))).
Proof.
  intros Hw Hr Hu H0 Hl. apply Forall_cons_iff in Hw as [Hc Hw]. rewrite zlen_cons. pose proof (zlen_nonneg w).
  assert (0 <= p) as Hp by apply Hr. destruct (host_start c Hc) as [E _]. cbn [length Nat.add].
  rewrite (host_loop_step _ _ _ _ _ _ Hr) by (by rewrite E). rewrite E. cbn [host_step].
  rewrite bool_decide_eq_false_2 by done.
  destruct (host_loop_more UF_HOST s_http_host w n (p + 1) (incr_len UF_HOST (set_off UF_HOST p u)) l fs fd p 1) as (u' & E' & Hu').
  - by left.
  - eapply Forall_impl; [exact Hw|]. intros x Hx. by apply host_start.
  - by eapply rest_cons.
  - apply (url_is_incr _ _ _ _ _ 0); [|lia..]. unfold set_off, flen. destruct Hu as [Hs Hd]. rewrite Hd, H0.
    pose proof (url_is_set u fs fd UF_HOST p 0 (conj Hs Hd)) as H1. by rewrite !uwrap_small in H1 by lia.
  - lia.
  - lia.
  - lia.
  - exists u'. by rewrite Z.add_assoc.
Qed.

Lemma host_loop_port c w n p u l fs fd :
  Forall (fun c => IS_NUM c = true) (c :: w) -> rest p (ch#":" :: c :: w ++ l) ->
  url_is u fs fd -> p + 2 + zlen w < 65536 ->
  exists u', host_loop (S (length (c :: w)) + n) p s_http_host u = host_loop n (p + 1 + zlen (c :: w)) s_http_host_port u' /\
    url_is u' (u16 (Z.lor fs (bit UF_PORT))) (upd fd UF_PORT (p + 1, zlen (c :: w))).
Proof.
  intros Hw Hr Hu Hl. apply Forall_cons_iff in Hw as [Hc Hw]. rewrite zlen_cons. pose proof (zlen_nonneg w).
  assert (0 <= p) as Hp by apply Hr. cbn [length Nat.add].
  assert (http_parse_host_char s_http_host ch#":" = s_http_host_port_start) as E0 by (vm_compute; reflexivity).
  rewrite (host_loop_step _ _ _ _ _ _ Hr) by (by rewrite E0). rewrite E0. cbn [host_step]. apply rest_cons in Hr.
  assert (http_parse_host_char s_http_host_port_start c = s_http_host_port) as E1 by (cbn; by rewrite Hc).
  rewrite (host_loop_step _ _ _ _ _ _ Hr) by (by rewrite E1). rewrite E1. cbn [host_step].
  rewrite bool_decide_eq_false_2 by done.
  destruct (host_loop_more UF_PORT s_http_host_port w n (p + 1 + 1)
    (incr_len UF_PORT (mark_field UF_PORT (set_field UF_PORT (p + 1) 0 u))) l (u16 (Z.lor fs (bit UF_PORT))) fd (p + 1) 1) as (u' & E' & Hu').
  - by right.
  - eapply Forall_impl; [exact Hw|]. intros x Hx. cbn. by rewrite Hx.
  - by eapply rest_cons.
  - apply (url_is_incr _ _ _ _ _ 0); [|lia..]. apply url_is_mark.
    pose proof (url_is_set u fs fd UF_PORT (p + 1) 0 Hu) as H1. by rewrite !uwrap_small in H1 by lia.
  - lia.
  - lia.
  - lia.
  - exists u'. by rewrite Z.add_assoc.
Qed.

(** ** The port's number *)
Lemma strtoul_dec w : forall n p v c l,
  Forall (fun c => IS_NUM c = true) w -> rest p (w ++ c :: l) -> IS_NUM c = false -> (length w < n)%nat ->
  0 <= v -> dec v w <= 65535 -> strtoul buf n p v = Ret (dec v w).
Proof.
  induction w as [|x w IH]; intros n p v c l Hw Hr Hc Hn Hv Hmax; (destruct n as [|n]; [simpl in Hn; lia|]).
  - cbn [app] in Hr. cbn [strtoul]. rewrite (rest_read buf _ _ _ Hr). obind. change (znth [c] 0) with c. by rewrite Hc.
  - apply Forall_cons_iff in Hw as [Hx Hw]. change (rest p (x :: (w ++ c :: l))) in Hr. cbn [strtoul].
    rewrite (rest_read buf _ _ _ Hr). obind. change (znth [x] 0) with x. rewrite Hx. change ch#"0" with 48.
    pose proof (IS_NUM_range x Hx). cbn [dec fold_left] in *. change (fold_left _ w ?y) with (dec y w) in *.
    assert (digits w = true) as Hdw by (apply forallb_forall; intros y Hy; rewrite Forall_forall in Hw; by apply Hw, list_elem_of_In).
    assert (v * 10 + (x - 48) <= dec (v * 10 + (x - 48)) w) as Hm by (apply dec_mono; [lia|done]).
    rewrite Z.min_r by (unfold ULLONG_MAX; lia). simpl in Hn.
    apply (IH n (p + 1) _ c l); [done|by eapply rest_cons|done|lia|lia|done].
Qed.

(** ** Stretches of the loop, composed *)
Definition advances (w : bytes) (p : Z) (s : state) (old : option url_field) (fs : Z) (fd : url_field -> Z * Z)
    (s' : state) (old' : option url_field) (fs' : Z) (fd' : url_field -> Z * Z) : Prop :=
  forall n u l, rest p (w ++ l) -> url_is u fs fd ->
  exists u', url_loop (length w + n) p s old false u = url_loop n (p + zlen w) s' old' false u' /\ url_is u' fs' fd'.

Lemma advances_app w1 w2 p s old fs fd s1 old1 fs1 fd1 s2 old2 fs2 fd2 :
  advances w1 p s old fs fd s1 old1 fs1 fd1 -> advances w2 (p + zlen w1) s1 old1 fs1 fd1 s2 old2 fs2 fd2 ->
  advances (w1 ++ w2) p s old fs fd s2 old2 fs2 fd2.
Proof.
  intros H1 H2 n u l Hr Hu. rewrite <- app_assoc in Hr. destruct (H1 (length w2 + n)%nat u (w2 ++ l) Hr Hu) as (u1 & E1 & Hu1).
  apply rest_app in Hr. destruct (H2 n u1 l Hr Hu1) as (u2 & E2 & Hu2). exists u2. split; [|done].
  rewrite length_app, zlen_app, Z.add_assoc, <- Nat.add_assoc. by rewrite E1.
Qed.

Lemma advances_skip c p s s' old fs fd :
  parse_url_char s c = s' -> field_of s' = Ret None -> advances [c] p s old fs fd s' old fs fd.
Proof. intros Hc Hf n u l Hr Hu. exists u. split; [|done]. exact (url_loop_skip n p s s' old false u c l Hr Hc Hf). Qed.

Lemma advances_field c w p s0 s f old fs fd :
  steady s f -> parse_url_char s0 c = s -> Forall (fun c => parse_url_char s c = s) w -> old <> Some f ->
  p + zlen (c :: w) < 65536 ->
  advances (c :: w) p s0 old fs fd s (Some f) (u16 (Z.lor fs (bit f))) (upd fd f (p, zlen (c :: w))).
Proof.
  intros Hs Hc Hw Ho Hp n u l Hr Hu. rewrite zlen_cons in Hp.
  apply (url_loop_field w n p s0 s f old false u l fs fd c Hs Hc Hw Ho Hr Hu). lia.
Qed.

(** ** The parts after the server *)
(** A part announced by a delimiter, where there is one. *)
Definition part (d : Z) (w : option bytes) : bytes := match w with Some w => d :: w | None => [] end.
Definition marked (f : url_field) (w : option bytes) (fs : Z) : Z := if w is Some _ then u16 (Z.lor fs (bit f)) else fs.
Definition placed (f : url_field) (p : Z) (w : option bytes) (fd : url_field -> Z * Z) : url_field -> Z * Z :=
  match w with Some w => upd fd f (p, zlen w) | None => fd end.

Lemma advances_part d sd s' f w p s old fs fd :
  steady s' f -> (w <> None -> parse_url_char s d = sd) -> field_of sd = Ret None -> old <> Some f ->
  match w with
  | Some (c :: w) => parse_url_char sd c = s' /\ Forall (fun c => parse_url_char s' c = s') w
  | Some [] => False
  | None => True
  end ->
  p + zlen (part d w) < 65536 ->
  advances (part d w) p s old fs fd (if w is Some _ then s' else s) (if w is Some _ then Some f else old)
    (marked f w fs) (placed f (p + 1) w fd).
Proof.
  intros Hs Hd Hf Hold Hw Hp. destruct w as [[|c w]|]; [done| |].
  - destruct Hw as [Hc Hw]. cbn [part] in *. rewrite zlen_cons in Hp. change (d :: c :: w) with ([d] ++ c :: w).
    eapply advances_app; [by apply (advances_skip _ _ _ sd); [apply Hd|]|]. apply (advances_field c w (p + 1) sd); try done. lia.
  - intros n u l _ Hu. exists u. cbn [part length Nat.add]. change (zlen (@nil Z)) with 0. by rewrite Z.add_0_r.
Qed.

(** Digits up to the end of the block. *)
Lemma strtoul_past_end w : forall n p v,
  Forall (fun c => IS_NUM c = true) w -> rest p w -> (length w < n)%nat -> strtoul buf n p v = Fault OutOfBounds.
Proof.
  induction w as [|x w IH]; intros n p v Hw Hr Hn; (destruct n as [|n]; [simpl in Hn; lia|]).
  - cbn [strtoul]. unfold mem_read, guard_or. destruct Hr as [Hp Hr]. destruct (in_block buf p 1) eqn:E; [|done].
    apply in_block_true in E. apply (f_equal length) in Hr. rewrite length_drop in Hr. cbn in Hr. unfold zlen in E. lia.
  - apply Forall_cons_iff in Hw as [Hx Hw]. cbn [strtoul]. rewrite (rest_read buf _ _ _ Hr). obind. change (znth [x] 0) with x.
    rewrite Hx. simpl in Hn. apply IH; [done|by eapply rest_cons|lia].
Qed.
End Loop.

(** * Well-formed URLs *)
Record url_parts := UrlParts {
  u_schema : bytes; u_host : bytes; u_port : option bytes; u_path : option bytes;
  u_query : option bytes; u_fragment : option bytes
}.

Definition authority (q : url_parts) : bytes := u_host q ++ part ch#":" (u_port q).
Definition url_bytes (q : url_parts) : bytes :=
  u_schema q ++ str#"://" ++ authority q ++ part ch#"/" (u_path q) ++ part ch#"?" (u_query q) ++ part ch#"#" (u_fragment q).

Definition nonempty_all (p : Z -> bool) (w : bytes) : bool := match w with [] => false | _ => forallb p w end.
Definition option_all (P : bytes -> bool) (w : option bytes) : bool := match w with Some w => P w | None => true end.

Definition url_ok (q : url_parts) : bool :=
  nonempty_all IS_ALPHA (u_schema q) && nonempty_all IS_HOST_CHAR (u_host q) &&
  option_all (fun ds => nonempty_all IS_NUM ds && (dec 0 ds <=? 65535)) (u_port q) &&
  option_all (forallb IS_URL_CHAR) (u_path q) &&
  option_all (nonempty_all (fun c => IS_URL_CHAR c || (c =? ch#"?"))) (u_query q) &&
  option_all (nonempty_all (fun c => IS_URL_CHAR c || (c =? ch#"?"))) (u_fragment q) &&
  (match u_fragment q with Some _ => if u_path q is Some _ then true else if u_query q is Some _ then true else false | None => true end) &&
  (zlen (url_bytes q) <=? 65535) && forallb byteb (url_bytes q).

(** The text of a field, as the structure is documented. *)
Definition field_text (q : url_parts) (f : url_field) : option bytes :=
  match f with
  | UF_SCHEMA => Some (u_schema q)
  | UF_HOST => Some (u_host q)
  | UF_PORT => u_port q
  | UF_PATH => option_map (cons ch#"/") (u_path q)
  | UF_QUERY => u_query q
  | UF_FRAGMENT => u_fragment q
  | UF_USERINFO => None
  end.
Definition field_reads (buf : bytes) (u : http_parser_url) (f : url_field) : option bytes :=
  if has_field f u then Some (zslice (off u f) (flen u f) buf) else None.

(** ** The automaton on the characters of each part *)
#[export] Instance state_eq_dec : EqDecision state.
Proof. solve_decision. Defined.

Definition class_ok (P : Z -> bool) (s s' : state) : bool :=
  forallb (fun c => negb (P c) || bool_decide (parse_url_char s c = s')) (map Z.of_nat (seq 0 256)).
Definition query_char (c : Z) : bool := IS_URL_CHAR c || (c =? ch#"?").
Definition authority_char (c : Z) : bool := IS_HOST_CHAR c || IS_NUM c || (c =? ch#":").

Lemma class_step P s s' c : class_ok P s s' = true -> is_byte c -> P c = true -> parse_url_char s c = s'.
Proof.
  intros H Hc HP. pose proof (byte_check _ H c Hc) as E. cbn beta in E. rewrite HP in E. cbn [negb orb] in E.
  by apply bool_decide_eq_true in E.
Qed.
Lemma class_steps P s s' w :
  class_ok P s s' = true -> all_bytes w -> forallb P w = true -> Forall (fun c => parse_url_char s c = s') w.
Proof.
  intros H Hw HP. apply Forall_forall. intros c Hc. unfold all_bytes in Hw. rewrite Forall_forall in Hw. rewrite forallb_forall in HP.
  apply (class_step P); [done|by apply Hw|by apply HP, list_elem_of_In].
Qed.

Lemma nonempty_all_cons p w : nonempty_all p w = true -> exists c l, w = c :: l /\ p c = true /\ forallb p l = true.
Proof. destruct w as [|c l]; [done|]. cbn. intros H. apply andb_true_iff in H as [? ?]. by exists c, l. Qed.
Lemma authority_chars q ds :
  u_port q = ds -> nonempty_all IS_HOST_CHAR (u_host q) = true -> option_all (nonempty_all IS_NUM) ds = true ->
  nonempty_all authority_char (authority q) = true.
Proof.
  intros <- Hh Hp. unfold authority. apply nonempty_all_cons in Hh as (c & l & -> & Hc & Hl). cbn [app nonempty_all forallb].
  rewrite forallb_app. unfold authority_char at 1. rewrite Hc. cbn [orb andb].
  rewrite (forallb_weaken IS_HOST_CHAR) by (done || (intros x Hx; unfold authority_char; by rewrite Hx)).
  destruct (u_port q) as [ds|]; [|done]. cbn in Hp. apply nonempty_all_cons in Hp as (d & k & -> & Hd & Hk). cbn.
  unfold authority_char. rewrite Hd, !orb_true_r. cbn.
  apply (forallb_weaken IS_NUM); [|done]. intros x Hx. by rewrite Hx, orb_true_r.
Qed.

(** ** The whole loop *)
Definition url_marks (q : url_parts) : Z :=
  marked UF_FRAGMENT (u_fragment q) (marked UF_QUERY (u_query q) (marked UF_PATH (u_path q) 3)).
Definition at_authority (q : url_parts) : Z := zlen (u_schema q) + 3.
Definition at_path (q : url_parts) : Z := at_authority q + zlen (authority q).
Definition at_query (q : url_parts) : Z := at_path q + zlen (part ch#"/" (u_path q)).
Definition at_fragment (q : url_parts) : Z := at_query q + zlen (part ch#"?" (u_query q)).
Definition url_places (q : url_parts) (fd : url_field -> Z * Z) : url_field -> Z * Z :=
  placed UF_FRAGMENT (at_fragment q + 1) (u_fragment q)
    (placed UF_QUERY (at_query q + 1) (u_query q)
      (placed UF_PATH (at_path q) (option_map (cons ch#"/") (u_path q))
        (upd (upd fd UF_SCHEMA (0, zlen (u_schema q))) UF_HOST (at_authority q, zlen (authority q))))).

Ltac class := solve [vm_compute; reflexivity | unfold steady; split_and!; done].

Section Whole.
Context (q : url_parts) (buf : bytes) (fd : url_field -> Z * Z) (Hq : url_ok q = true).
Abbreviation advances := (advances buf).

Lemma url_ok_parts :
  nonempty_all IS_ALPHA (u_schema q) = true /\ nonempty_all IS_HOST_CHAR (u_host q) = true /\
  nonempty_all authority_char (authority q) = true /\
  option_all (fun ds => nonempty_all IS_NUM ds && (dec 0 ds <=? 65535)) (u_port q) = true /\
  option_all (forallb IS_URL_CHAR) (u_path q) = true /\
  option_all (nonempty_all query_char) (u_query q) = true /\
  option_all (nonempty_all query_char) (u_fragment q) = true /\
  (u_fragment q = None \/ u_path q <> None \/ u_query q <> None).
Proof.
  unfold url_ok in Hq. rewrite !andb_true_iff in Hq.
  destruct Hq as ((((((((? & ?) & Hp) & ?) & ?) & ?) & Hf) & _) & _). split_and!; try done.
  - apply (authority_chars q (u_port q)); [done|done|]. destruct (u_port q); [|done]. cbn in Hp |- *. by apply andb_true_iff in Hp as [? _].
  - destruct (u_fragment q); [|by left]. right. destruct (u_path q); [by left|]. right. by destruct (u_query q).
Qed.
Lemma url_ok_bytes : all_bytes (url_bytes q).
Proof.
  unfold url_ok in Hq. apply andb_true_iff in Hq as [_ Hb].
  apply Forall_forall. intros x Hx. rewrite forallb_forall in Hb. by apply byteb_spec, Hb, list_elem_of_In.
Qed.
Lemma url_ok_sizes :
  at_fragment q + zlen (part ch#"#" (u_fragment q)) <= 65535 /\ at_fragment q + zlen (part ch#"#" (u_fragment q)) = zlen (url_bytes q) /\
  0 <= zlen (part ch#"/" (u_path q)) /\ 0 <= zlen (part ch#"?" (u_query q)) /\ 0 <= zlen (part ch#"#" (u_fragment q)) /\
  0 <= zlen (u_schema q) /\ 0 <= zlen (authority q).
Proof.
  assert (at_fragment q + zlen (part ch#"#" (u_fragment q)) = zlen (url_bytes q)) as E.
  { unfold at_fragment, at_query, at_path, at_authority, url_bytes. rewrite !zlen_app. change (zlen str#"://") with 3. lia. }
  unfold url_ok in Hq. apply andb_true_iff in Hq as [Hq' _]. apply andb_true_iff in Hq' as [_ Hl]. apply Z.leb_le in Hl.
  split_and!; try apply zlen_nonneg; lia.
Qed.

Lemma class_field P w p s0 s f old fs fd' :
  steady s f -> class_ok P s0 s = true -> class_ok P s s = true -> nonempty_all P w = true -> all_bytes w ->
  old <> Some f -> p + zlen w < 65536 ->
  advances w p s0 old fs fd' s (Some f) (u16 (Z.lor fs (bit f))) (upd fd' f (p, zlen w)).
Proof.
  intros Hs H0 H1 Hw Hb Ho Hp. apply nonempty_all_cons in Hw as (c & k & -> & Hc & Hk). apply Forall_cons_iff in Hb as [Hbc Hbk].
  apply advances_field; try done; [by apply (class_step P)|by apply (class_steps P)].
Qed.
Lemma class_part P d w s sd s' p f old fs fd' :
  steady s' f -> (w <> None -> parse_url_char s d = sd) -> field_of sd = Ret None -> class_ok P sd s' = true -> class_ok P s' s' = true ->
  option_all (nonempty_all P) w = true -> all_bytes (part d w) -> old <> Some f -> p + zlen (part d w) < 65536 ->
  advances (part d w) p s old fs fd' (if w is Some _ then s' else s) (if w is Some _ then Some f else old)
    (marked f w fs) (placed f (p + 1) w fd').
Proof.
  intros Hs Hd Hf H0 H1 Hw Hb Ho Hp. apply (advances_part buf d sd); try done. destruct w as [w|]; [|done].
  cbn in Hw. apply nonempty_all_cons in Hw as (c & k & -> & Hc & Hk). apply Forall_cons_iff in Hb as [_ Hb].
  apply Forall_cons_iff in Hb as [Hbc Hbk]. split; [by apply (class_step P)|by apply (class_steps P)].
Qed.

(** A schema, its delimiter, the host with its port: the loop takes the port for
    a part of the host. *)
Lemma server_advances :
  advances (u_schema q ++ str#"://" ++ authority q) 0 s_req_spaces_before_url None 0 fd s_req_server (Some UF_HOST) 3
    (upd (upd fd UF_SCHEMA (0, zlen (u_schema q))) UF_HOST (at_authority q, zlen (authority q))).
Proof.
  destruct url_ok_parts as (Hs & _ & Ha & _). pose proof url_ok_bytes as Hb. unfold all_bytes, url_bytes in Hb.
  rewrite !Forall_app in Hb. destruct Hb as (Hb1 & _ & Hb2 & _). pose proof url_ok_sizes as Hz.
  unfold at_fragment, at_query, at_path, at_authority in *.
  eapply advances_app; [apply (class_field IS_ALPHA _ 0 s_req_spaces_before_url s_req_schema UF_SCHEMA); try done; first [class|lia]|].
  change (str#"://" ++ authority q) with ([ch#":"] ++ [ch#"/"] ++ [ch#"/"] ++ authority q).
  eapply advances_app; [apply (advances_skip _ _ _ _ s_req_schema_slash); class|].
  eapply advances_app; [apply (advances_skip _ _ _ _ s_req_schema_slash_slash); class|].
  eapply advances_app; [apply (advances_skip _ _ _ _ s_req_server_start); class|].
  change (zlen [_]) with 1.
  replace (zlen (u_schema q) + 3) with (0 + zlen (u_schema q) + 1 + 1 + 1) by lia.
  apply (class_field authority_char _ _ s_req_server_start s_req_server UF_HOST); try done; first [class|lia].
Qed.

Lemma path_advances :
  advances (part ch#"/" (u_path q)) (at_path q) s_req_server (Some UF_HOST) 3
    (upd (upd fd UF_SCHEMA (0, zlen (u_schema q))) UF_HOST (at_authority q, zlen (authority q)))
    (if u_path q is Some _ then s_req_path else s_req_server) (Some (if u_path q is Some _ then UF_PATH else UF_HOST))
    (marked UF_PATH (u_path q) 3) (placed UF_PATH (at_path q) (option_map (cons ch#"/") (u_path q))
        (upd (upd fd UF_SCHEMA (0, zlen (u_schema q))) UF_HOST (at_authority q, zlen (authority q)))).
Proof.
  destruct url_ok_parts as (_ & _ & _ & _ & Hp & _). pose proof url_ok_bytes as Hb. unfold all_bytes, url_bytes in Hb.
  rewrite !Forall_app in Hb. destruct Hb as (_ & _ & _ & Hb & _). pose proof url_ok_sizes as Hz. unfold at_fragment, at_query in Hz.
  destruct (u_path q) as [w|].
  - cbn [part option_map placed marked] in *. apply Forall_cons_iff in Hb as [_ Hb]. apply advances_field; try done; [|lia].
    by apply (class_steps IS_URL_CHAR); [class|..].
  - intros n u l _ Hu. exists u. cbn [part length Nat.add]. change (zlen (@nil Z)) with 0. by rewrite Z.add_0_r.
Qed.

(** The loop finds every part. *)
Lemma url_loop_parts u l :
  buf = url_bytes q ++ l -> url_is u 0 fd ->
  exists u', url_loop buf (Z.to_nat (zlen (url_bytes q))) 0 s_req_spaces_before_url None false u = Ret (Some false, u') /\
    url_is u' (url_marks q) (url_places q fd).
Proof.
  intros Hbuf Hu. destruct url_ok_parts as (_ & _ & _ & _ & _ & Hqu & Hf & Hfr). pose proof url_ok_bytes as Hb.
  unfold all_bytes, url_bytes in Hb. rewrite !Forall_app in Hb. destruct Hb as (_ & _ & _ & _ & Hb4 & Hb5).
  pose proof url_ok_sizes as Hz.
  assert (exists s' old', advances (url_bytes q) 0 s_req_spaces_before_url None 0 fd s' old' (url_marks q) (url_places q fd))
    as (s' & old' & H).
  { replace (url_bytes q) with ((u_schema q ++ str#"://" ++ authority q) ++ part ch#"/" (u_path q) ++ part ch#"?" (u_query q) ++
      part ch#"#" (u_fragment q)) by (unfold url_bytes; by rewrite <- !app_assoc).
    eexists _, _. eapply advances_app; [apply server_advances|].
    replace (0 + _) with (at_path q) by (unfold at_path, at_authority; rewrite !zlen_app; change (zlen str#"://") with 3; lia).
    eapply advances_app; [apply path_advances|].
    eapply advances_app.
    - apply (class_part query_char _ _ _ s_req_query_string_start s_req_query_string _ UF_QUERY); try done;
        first [class|by destruct (u_path q)|unfold at_fragment, at_query in Hz; lia].
    - apply (class_part query_char _ _ _ s_req_fragment_start s_req_fragment _ UF_FRAGMENT); try done;
        first [class|by destruct (u_query q), (u_path q)|by (intros; destruct Hfr as [|[|]]; destruct (u_query q), (u_path q))|unfold at_fragment, at_query in Hz; lia]. }
  destruct (H 0%nat u l) as (u' & E & Hu'); [by rewrite <- Hbuf; apply rest_start|done|].
  exists u'. split; [|done]. unfold zlen at 1. rewrite Nat2Z.id. by rewrite Nat.add_0_r in E.
Qed.
End Whole.

(** ** The host and the port *)
Section HostPart.
Context (q : url_parts) (l : bytes) (fd : url_field -> Z * Z) (Hq : url_ok q = true).
Let buf : bytes := url_bytes q ++ l.

Lemma host_parts u fs :
  url_is u fs (url_places q fd) ->
  exists u', http_parse_host buf u false = Ret (0, u') /\
    url_is u' (marked UF_PORT (u_port q) fs)
      (placed UF_PORT (at_authority q + zlen (u_host q) + 1) (u_port q) (upd (url_places q fd) UF_HOST (at_authority q, zlen (u_host q)))).
Proof.
  intros Hu. destruct (url_ok_parts q Hq) as (_ & Hh & _ & Hp & _). pose proof (url_ok_sizes q Hq) as Hz.
  unfold at_fragment, at_query, at_path, authority in Hz. rewrite zlen_app in Hz. pose proof (zlen_nonneg (u_host q)).
  assert (url_places q fd UF_HOST = (at_authority q, zlen (authority q))) as Eh
    by (unfold url_places; destruct (u_fragment q), (u_query q), (u_path q); reflexivity).
  unfold http_parse_host, off, flen. destruct Hu as [Hfs Hfd]. rewrite Hfd, Eh. cbn [fst snd]. unfold zlen at 1. rewrite Nat2Z.id.
  assert (url_is (set_len UF_HOST 0 u) fs (upd (url_places q fd) UF_HOST (at_authority q, 0))) as Hu1.
  { unfold set_len, off. rewrite Hfd, Eh. cbn [fst]. pose proof (url_is_set u fs (url_places q fd) UF_HOST (at_authority q) 0 (conj Hfs Hfd)) as H1.
    rewrite !uwrap_small in H1 by (unfold at_authority in *; lia). exact H1. }
  assert (rest buf (at_authority q) (u_host q ++ part ch#":" (u_port q) ++
    part ch#"/" (u_path q) ++ part ch#"?" (u_query q) ++ part ch#"#" (u_fragment q) ++ l)) as Hr.
  { replace (at_authority q) with (0 + zlen (u_schema q ++ str#"://")) by (rewrite zlen_app; reflexivity).
    apply rest_app. unfold buf, url_bytes, authority. rewrite <- !app_assoc. apply rest_start. }
  apply nonempty_all_cons in Hh as (h & w & Eh' & Hhc & Hw). unfold authority. rewrite Eh' in *. rewrite zlen_cons in *.
  pose proof (zlen_nonneg w). assert (0 <= zlen (part ch#":" (u_port q))) as Hp0 by apply zlen_nonneg.
  destruct (host_loop_host buf h w (length (part ch#":" (u_port q))) (at_authority q) (set_len UF_HOST 0 u) _ fs _
    ltac:(by constructor; [|apply Forall_forall; intros x Hx; rewrite forallb_forall in Hw; apply Hw, list_elem_of_In]) Hr Hu1
    ltac:(by rewrite upd_same) ltac:(unfold at_authority in *; lia)) as (u1 & E1 & Hu1').
  apply (url_is_ext _ _ _ (upd (url_places q fd) UF_HOST (at_authority q, 1 + zlen w))) in Hu1';
    [|intros g; unfold upd; rewrite zlen_cons; by destruct (bool_decide (g = UF_HOST))].
  rewrite length_app, E1. rewrite <- Eh' in Hr. apply rest_app in Hr. rewrite Eh' in Hr at 1. rewrite zlen_cons in *.
  destruct (u_port q) as [ds|].
  - cbn [option_all] in Hp. apply andb_true_iff in Hp as [Hp _]. apply nonempty_all_cons in Hp as (d & k & -> & Hd & Hk).
    cbn [part marked placed] in *. rewrite !zlen_cons in *. pose proof (zlen_nonneg k).
    destruct (host_loop_port buf d k 0 (at_authority q + (1 + zlen w)) u1 _ fs _
      ltac:(by constructor; [|apply Forall_forall; intros x Hx; rewrite forallb_forall in Hk; apply Hk, list_elem_of_In]) Hr Hu1'
      ltac:(unfold at_authority in *; lia)) as (u2 & E2 & Hu2).
    assert (host_loop buf (length (ch#":" :: d :: k)) (at_authority q + (1 + zlen w)) s_http_host u1 =
      Ret (Some s_http_host_port, u2)) as E3 by (rewrite <- (Nat.add_0_r (length _)); exact E2).
    exists u2. rewrite E3. split; [done|]. by rewrite zlen_cons in Hu2.
  - exists u1. done.
Qed.
End HostPart.

(** ** The result, read back *)
Definition final_places (q : url_parts) (fd : url_field -> Z * Z) : url_field -> Z * Z :=
  placed UF_PORT (at_authority q + zlen (u_host q) + 1) (u_port q) (upd (url_places q fd) UF_HOST (at_authority q, zlen (u_host q))).

Lemma zslice_at (a w b : bytes) : zslice (zlen a) (zlen w) (a ++ w ++ b) = w.
Proof. unfold zslice, zlen. rewrite !Nat2Z.id. by rewrite drop_app_length, take_app_length. Qed.

Lemma final_place q fd f w :
  field_text q f = Some w ->
  exists a b, url_bytes q = a ++ w ++ b /\ final_places q fd f = (zlen a, zlen w).
Proof.
  destruct q as [S Hh O P Q F]. unfold url_bytes, authority, final_places, url_places, at_fragment, at_query, at_path, at_authority, authority.
  cbn [u_schema u_host u_port u_path u_query u_fragment field_text].
  destruct f; intros Hf; cbn [field_text u_schema u_host u_port u_path u_query u_fragment] in Hf; try discriminate.
  - exists [], (str#"://" ++ (Hh ++ part ch#":" O) ++ part ch#"/" P ++ part ch#"?" Q ++ part ch#"#" F). injection Hf as <-.
    split; [done|]. destruct O, P, Q, F; reflexivity.
  - exists (S ++ str#"://"), (part ch#":" O ++ part ch#"/" P ++ part ch#"?" Q ++ part ch#"#" F). injection Hf as <-.
    rewrite <- !app_assoc, !zlen_app. split; [done|]. destruct O, P, Q, F; reflexivity.
  - subst O. exists (S ++ str#"://" ++ Hh ++ [ch#":"]), (part ch#"/" P ++ part ch#"?" Q ++ part ch#"#" F). cbn [part placed].
    rewrite !zlen_app, <- !app_assoc. split; [done|]. rewrite upd_same. f_equal. change (zlen [_]) with 1.
    change (zlen str#"://") with 3. lia.
  - destruct P as [p|]; [|done]. injection Hf as <-. exists (S ++ str#"://" ++ Hh ++ part ch#":" O), (part ch#"?" Q ++ part ch#"#" F).
    rewrite !zlen_app, <- !app_assoc. split; [done|]. change (zlen str#"://") with 3.
    rewrite !Z.add_assoc. destruct O, Q, F; reflexivity.
  - subst Q. exists (S ++ str#"://" ++ Hh ++ part ch#":" O ++ part ch#"/" P ++ [ch#"?"]), (part ch#"#" F).
    rewrite !zlen_app, <- !app_assoc. split; [done|]. change (zlen str#"://") with 3. change (zlen [_]) with 1.
    rewrite !Z.add_assoc. destruct O, P, F; reflexivity.
  - subst F. exists (S ++ str#"://" ++ Hh ++ part ch#":" O ++ part ch#"/" P ++ part ch#"?" Q ++ [ch#"#"]), [].
    rewrite !zlen_app, <- !app_assoc, app_nil_r. split; [done|]. change (zlen str#"://") with 3.
    change (zlen [_]) with 1. rewrite !Z.add_assoc. destruct O, P, Q; reflexivity.
Qed.

(** Which parts are marked. *)
Definition final_marks (q : url_parts) : Z := marked UF_PORT (u_port q) (url_marks q).
Lemma final_marks_field q u f :
  field_set u = final_marks q -> has_field f u = if field_text q f is Some _ then true else false.
Proof.
  unfold has_field. intros ->. unfold final_marks, url_marks.
  destruct f; cbn [field_text]; destruct (u_port q), (u_path q), (u_query q), (u_fragment q); vm_compute; reflexivity.
Qed.
Lemma url_marks_schema q u : field_set u = url_marks q -> has_field UF_SCHEMA u = true.
Proof. unfold has_field. intros ->. unfold url_marks. destruct (u_path q), (u_query q), (u_fragment q); vm_compute; reflexivity. Qed.

(** The loops leave the port alone. *)
Lemma host_step_port s s' p u : port (host_step s s' p u) = port u.
Proof. destruct s'; cbn [host_step]; try destruct (bool_decide _); reflexivity. Qed.
Lemma host_loop_port_kept buf n : forall p s u r u', host_loop buf n p s u = Ret (r, u') -> port u' = port u.
Proof.
  induction n as [|n IH]; intros p s u r u' H; cbn [host_loop] in H; [by injection H as _ <-|].
  destruct (mem_read buf p 1) as [ch|]; [|done]. cbn [mbind outcome_bind] in H. cbn zeta in H.
  destruct (http_parse_host_char s (znth ch 0)); try (by injection H as _ <-); rewrite (IH _ _ _ _ _ H); apply host_step_port.
Qed.
Lemma url_loop_port_kept buf n : forall p s old fa u r u', url_loop buf n p s old fa u = Ret (r, u') -> port u' = port u.
Proof.
  induction n as [|n IH]; intros p s old fa u r u' H; cbn [url_loop] in H; [by injection H as _ <-|].
  destruct (mem_read buf p 1) as [ch|]; [|done]. cbn [mbind outcome_bind] in H. cbn zeta in H.
  destruct (parse_url_char s (znth ch 0)) eqn:Es; try (by injection H as _ <-); cbn [field_of mbind outcome_bind] in H; try done;
    try (destruct (bool_decide _)); rewrite (IH _ _ _ _ _ _ _ H); done.
Qed.
Lemma http_parse_host_port buf u fa r u' : http_parse_host buf u fa = Ret (r, u') -> port u' = port u.
Proof.
  unfold http_parse_host. cbn zeta. destruct (host_loop _ _ _ _ _) as [[s v]|] eqn:E; [|done].
  apply host_loop_port_kept in E. intros H. cbn [mbind outcome_bind] in H.
  destruct s as [[]|]; injection H as _ <-; by rewrite E.
Qed.

(** What follows the digits of a port is not a digit. *)
Lemma after_port (q : url_parts) c l :
  IS_NUM c = false ->
  exists x k, part ch#"/" (u_path q) ++ part ch#"?" (u_query q) ++ part ch#"#" (u_fragment q) ++ c :: l = x :: k /\ IS_NUM x = false.
Proof.
  intros Hc. destruct (u_path q); [by eexists _, _|]. destruct (u_query q); [by eexists _, _|].
  destruct (u_fragment q); [by eexists _, _|]. by exists c, l.
Qed.

(** Everything but the port's number, whatever follows the URL in memory. *)
Definition at_port (q : url_parts) : Z := at_authority q + zlen (u_host q) + 1.
Lemma url_parts_found (q : url_parts) (l : bytes) (u : http_parser_url) :
  url_ok q = true ->
  let buf := url_bytes q ++ l in
  exists u', (forall v, field_set v = field_set u' -> field_data v = field_data u' -> forall f, field_reads buf v f = field_text q f) /\
    port u' = 0 /\
    http_parser_parse_url buf (zlen (url_bytes q)) false u =
      match u_port q with
      | None => Ret (0, u')
      | Some _ =>
          v ← strtoul buf (S (length buf)) (at_port q) 0;
          if 0xffff <? v then Ret (1, u') else Ret (0, HttpParserUrl (field_set u') (u16 v) (field_data u'))
      end.
Proof.
  intros Hq buf.
  destruct (url_loop_parts q buf (field_data u) Hq (HttpParserUrl 0 0 (field_data u)) l eq_refl) as (u1 & E1 & Hu1); [done|].
  destruct (host_parts q l (field_data u) Hq u1 _ Hu1) as (u2 & E2 & Hu2). fold buf in E2.
  fold (at_port q) in Hu2. fold (final_marks q) in Hu2. destruct Hu2 as [Hfs Hfd].
  change (forall g, field_data u2 g = final_places q (field_data u) g) in Hfd. exists u2. split_and!.
  - intros v Hv1 Hv2 f. unfold field_reads. rewrite (final_marks_field q v f) by congruence.
    destruct (field_text q f) as [w|] eqn:Ef; [|done]. destruct (final_place q (field_data u) f w Ef) as (a & b & Eb & Ep).
    unfold off, flen. rewrite Hv2, Hfd, Ep. cbn [fst snd]. unfold buf. rewrite Eb, <- !app_assoc. by rewrite zslice_at.
  - apply http_parse_host_port in E2. apply url_loop_port_kept in E1. rewrite E2, E1. reflexivity.
  - unfold http_parser_parse_url. cbn [field_data]. cbn zeta. rewrite E1. obind.
    rewrite (url_marks_schema q u1) by apply Hu1. cbn [orb]. rewrite E2. obind. cbn [andb negb Z.eqb].
    rewrite (final_marks_field q u2 UF_PORT Hfs). cbn [field_text]. destruct (u_port q) as [ds|] eqn:Eo; [|done].
    unfold off. rewrite Hfd. unfold final_places. rewrite Eo. cbn [placed]. by rewrite upd_same.
Qed.

Lemma rest_port (q : url_parts) (ds l : bytes) :
  u_port q = Some ds ->
  rest (url_bytes q ++ l) (at_port q) (ds ++ part ch#"/" (u_path q) ++ part ch#"?" (u_query q) ++ part ch#"#" (u_fragment q) ++ l).
Proof.
  intros Eo. replace (at_port q) with (0 + zlen (u_schema q ++ str#"://" ++ u_host q ++ [ch#":"])).
  - apply rest_app. unfold url_bytes, authority. rewrite Eo. cbn [part]. rewrite <- !app_assoc. apply rest_start.
  - rewrite !zlen_app. unfold at_port, at_authority. change (zlen [_]) with 1. change (zlen str#"://") with 3. lia.
Qed.
Lemma url_ok_port (q : url_parts) ds : url_ok q = true -> u_port q = Some ds -> Forall (fun c => IS_NUM c = true) ds /\ 0 <= dec 0 ds <= 65535.
Proof.
  intros Hq Eo. destruct (url_ok_parts q Hq) as (_ & _ & _ & Hp & _). rewrite Eo in Hp. cbn [option_all] in Hp.
  apply andb_true_iff in Hp as [Hp Hmax]. apply Z.leb_le in Hmax. apply nonempty_all_cons in Hp as (d & m & -> & Hd & Hm).
  assert (digits (d :: m) = true) as Hds by (cbn; by rewrite Hd).
  split; [|split; [by apply dec_mono|done]]. apply Forall_forall. unfold digits in Hds. rewrite forallb_forall in Hds.
  intros y Hy. by apply Hds, list_elem_of_In.
Qed.

(** C35: the parts of a well-formed URL of at most 65535 bytes, in any memory
    where it is followed by something other than a digit, are found exactly:
    each field of the result marks the bytes of its part, the parts that are
    absent are not marked, and the port is the number its digits denote. *)
Theorem url_parts_exact (q : url_parts) (c : Z) (l : bytes) (u : http_parser_url) :
  url_ok q = true -> IS_NUM c = false ->
  let buf := url_bytes q ++ c :: l in
  exists u', http_parser_parse_url buf (zlen (url_bytes q)) false u = Ret (0, u') /\
    (forall f, field_reads buf u' f = field_text q f) /\
    port u' = match u_port q with Some ds => dec 0 ds | None => 0 end.
Proof.
  intros Hq Hc buf. destruct (url_parts_found q (c :: l) u Hq) as (v & Hread & Hp & E). fold buf in Hread, E. rewrite E. clear E.
  destruct (u_port q) as [ds|] eqn:Eo; [|exists v; split_and!; [done|by apply Hread|done]].
  destruct (url_ok_port q ds Hq Eo) as [Hds Hmax]. destruct (after_port q c l Hc) as (x & k & Ek & Hx).
  pose proof (rest_port q ds (c :: l) Eo) as Hr. rewrite Ek in Hr.
  assert (length ds < S (length buf))%nat as Hlen.
  { unfold buf, url_bytes, authority. rewrite Eo. cbn [part]. rewrite !length_app. cbn [length]. lia. }
  rewrite (strtoul_dec buf ds _ _ 0 x k Hds Hr Hx Hlen) by lia. obind.
  destruct (Z.ltb_spec 0xffff (dec 0 ds)); [lia|]. eexists. split; [done|]. cbn [port].
  split; [by apply Hread|]. apply uwrap_small. lia.
Qed.

Lemma url_parts_exact_witness :
  let q := UrlParts str#"http" str#"a.b" (Some str#"8080") (Some str#"x/y") (Some str#"k=v") (Some str#"top") in
  url_bytes q = str#"http://a.b:8080/x/y?k=v#top" /\
  exists u', http_parser_parse_url (url_bytes q ++ [0]) (zlen (url_bytes q)) false (HttpParserUrl 9 9 (fun _ => (7, 7))) = Ret (0, u') /\
    (forall f, field_reads (url_bytes q ++ [0]) u' f = field_text q f) /\ port u' = 8080.
Proof.
  split; [vm_compute; reflexivity|].
  exact (url_parts_exact (UrlParts str#"http" str#"a.b" (Some str#"8080") (Some str#"x/y") (Some str#"k=v") (Some str#"top"))
    0 [] (HttpParserUrl 9 9 (fun _ => (7, 7))) ltac:(vm_compute; reflexivity) ltac:(vm_compute; reflexivity)).
Defined.

(** The port of a URL that ends with it is read by [strtoul] without regard to
    the length that was passed: digits that follow the URL in memory become part
    of the number, and where nothing follows the read leaves the block. *)
Theorem port_read_past_end (q : url_parts) (ds more : bytes) (u : http_parser_url) :
  url_ok q = true -> u_port q = Some ds -> u_path q = None -> u_query q = None ->
  forallb IS_NUM more = true -> dec 0 (ds ++ more) <= 65535 ->
  (exists u', http_parser_parse_url (url_bytes q ++ more ++ [0]) (zlen (url_bytes q)) false u = Ret (0, u') /\
    field_reads (url_bytes q ++ more ++ [0]) u' UF_PORT = Some ds /\ port u' = dec 0 (ds ++ more)) /\
  http_parser_parse_url (url_bytes q ++ more) (zlen (url_bytes q)) false u = Fault OutOfBounds.
Proof.
  intros Hq Eo Epa Equ Hm Hmax. destruct (url_ok_port q ds Hq Eo) as [Hds _].
  assert (u_fragment q = None) as Efr by (destruct (url_ok_parts q Hq) as (_ & _ & _ & _ & _ & _ & _ & [|[|]]); congruence).
  assert (Forall (fun c => IS_NUM c = true) (ds ++ more)) as Hall.
  { apply Forall_app. split; [done|]. apply Forall_forall. rewrite forallb_forall in Hm. intros y Hy. by apply Hm, list_elem_of_In. }
  assert (forall l, rest (url_bytes q ++ more ++ l) (at_port q) ((ds ++ more) ++ l)) as Hr.
  { intros l. pose proof (rest_port q ds (more ++ l) Eo) as Hr. rewrite Epa, Equ, Efr in Hr. cbn [part app] in Hr.
    by rewrite <- app_assoc. }
  assert (forall l, length (ds ++ more) < S (length (url_bytes q ++ more ++ l)))%nat as Hlen.
  { intros l. unfold url_bytes, authority. rewrite Eo. cbn [part]. rewrite !length_app. cbn [length]. lia. }
  assert (digits (ds ++ more) = true) as Hdig.
  { apply forallb_forall. intros y Hy. rewrite Forall_forall in Hall. by apply Hall, list_elem_of_In. }
  split.
  - destruct (url_parts_found q (more ++ [0]) u Hq) as (v & Hread & Hp & ->). rewrite Eo.
    rewrite (strtoul_dec _ (ds ++ more) _ _ 0 0 [] Hall (Hr [0])) by (done || lia). obind.
    destruct (Z.ltb_spec 0xffff (dec 0 (ds ++ more))); [lia|]. eexists. split; [done|]. split; [|].
    + rewrite Hread by done. exact Eo.
    + cbn [port]. apply uwrap_small. split; [by apply dec_mono|lia].
  - destruct (url_parts_found q more u Hq) as (v & Hread & Hp & ->). rewrite Eo.
    pose proof (Hr []) as Hr0. rewrite !app_nil_r in Hr0. pose proof (Hlen []) as Hl0. rewrite app_nil_r in Hl0.
    by rewrite (strtoul_past_end _ (ds ++ more) _ _ 0 Hall Hr0 Hl0).
Qed.

Lemma port_read_past_end_witness :
  let q := UrlParts str#"http" str#"h" (Some str#"80") None None None in
  (exists u', http_parser_parse_url (url_bytes q ++ str#"9" ++ [0]) (zlen (url_bytes q)) false (HttpParserUrl 0 0 (fun _ => (0, 0))) = Ret (0, u') /\
    field_reads (url_bytes q ++ str#"9" ++ [0]) u' UF_PORT = Some str#"80" /\ port u' = 809) /\
  http_parser_parse_url (url_bytes q ++ str#"9") (zlen (url_bytes q)) false (HttpParserUrl 0 0 (fun _ => (0, 0))) = Fault OutOfBounds.
Proof.
  exact (port_read_past_end (UrlParts str#"http" str#"h" (Some str#"80") None None None) str#"80" str#"9"
    (HttpParserUrl 0 0 (fun _ => (0, 0))) ltac:(vm_compute; reflexivity) eq_refl eq_refl eq_refl ltac:(vm_compute; reflexivity)
    ltac:(vm_compute; discriminate)).
Defined.
