(* ===== verification/HttpListen.v ===== *)
(** A program of callbacks that all answer 0 sees of a call of
    [http_parser_execute] what the recorder of events sees: what it computes is
    its own fold over the recorded events, and the parser is the same. *)
From Stdlib Require Import ZArith Lia Bool Ascii String.
From stdpp Require Import base list numbers strings.
From S2P Require Import Prelude HttpTypes HttpUrl HttpParser HttpMessages.

Open Scope Z_scope.

Section Listen.
Context {U : Type} (cfg : settings U) (act : U -> event -> U) (u0 : U).

(** [cfg] has the effect [act], and neither fails nor pauses. *)
Definition listens : Prop :=
  (forall k, match on_notify cfg k with
             | Some f => forall r u, f r u = Reply 0 false (act u (Notify k))
             | None => forall u, act u (Notify k) = u
             end) /\
  (forall k, match on_data cfg k with
             | Some f => forall r d u, f r d u = Reply 0 false (act u (Data k d))
             | None => forall u d, act u (Data k d) = u
             end).

Hypothesis Hlistens : listens.

Definition heard (evs : list event) : U := fold_left act evs u0.

Lemma heard_snoc evs ev : heard (evs ++ [ev]) = act (heard evs) ev.
Proof. unfold heard. by rewrite fold_left_app. Qed.

(** A null callback leaves [parser->state] alone, which no step reads: the two
    runs differ in it between callbacks. *)
Definition hear (s : state) (e : exec (list event)) : exec U :=
  Exec (set_pstate s (pr e)) (st e) (pos e) (mk e) (heard (usr e)).
Definition alike (e : exec (list event)) (e' : exec U) : Prop := exists s, e' = hear s e.

(** [y] is what [x] is, with what was heard in the place of what was recorded;
    nothing is said where the recorder faults. *)
Definition follows {A B} (R : A -> B -> Prop) (x : result (list event) A) (y : result U B) : Prop :=
  match x with
  | Go a => exists b, y = Go b /\ R a b
  | Return n r evs => y = Return n r (heard evs)
  | Crash _ => True
  end.
Definition alike2 {A} (x : A * exec (list event)) (y : A * exec U) : Prop := x.1 = y.1 /\ alike x.2 y.2.

Lemma follows_bind {A B A' B'} (R : A -> B -> Prop) (R' : A' -> B' -> Prop) x y k k' :
  follows R x y -> (forall a b, R a b -> follows R' (k a) (k' b)) -> follows R' (x ≫= k) (y ≫= k').
Proof. intros H Hk. destruct x; cbn in *; [destruct H as (b & -> & H); by apply Hk|by subst y|done]. Qed.
Lemma follows_lift {A A' B'} (R' : A' -> B' -> Prop) (m : outcome A) k k' :
  (forall a, follows R' (k a) (k' a)) -> follows R' (lift m ≫= k) (lift m ≫= k').
Proof. intros H. destruct m; cbn; [apply H|done]. Qed.

Lemma follows_go s e e' : e' = hear s e -> follows alike (Go e) (Go e').
Proof. intros ->. by eexists; split; [|exists s]. Qed.
Lemma follows_go2 {A} s (a : A) e e' : e' = hear s e -> follows alike2 (Go (a, e)) (Go (a, e')).
Proof. intros ->. by eexists; split; [|split; [|exists s]]. Qed.
Lemma follows_RETURN {A B} (R : A -> B -> Prop) v s e e' : e' = hear s e -> follows R (RETURN v e) (RETURN v e').
Proof. by intros ->. Qed.
Lemma follows_goto_error {A B} (R : A -> B -> Prop) s e e' : e' = hear s e -> follows R (goto_error e) (goto_error e').
Proof. intros ->. unfold goto_error. cbn [hear pr set_pstate errno]. by destruct (is_ok _). Qed.
Lemma follows_error {A B} (R : A -> B -> Prop) err s e e' : e' = hear s e -> follows R (error err e) (error err e').
Proof. intros ->. by apply (follows_goto_error R s (with_pr (set_errno err) e)). Qed.
Lemma follows_count v s e e' : e' = hear s e -> follows alike (COUNT_HEADER_SIZE v e) (COUNT_HEADER_SIZE v e').
Proof.
  intros ->. unfold COUNT_HEADER_SIZE. cbn zeta. cbn [with_pr hear pr set_pstate set_nread nread].
  destruct (_ <? _); [by apply (follows_error alike _ s)|by apply (follows_go s)].
Qed.
Lemma follows_assert {A B} (R : A -> B -> Prop) b k k' : follows R k k' -> follows R (assert_ b k) (assert_ b k').
Proof. by destruct b. Qed.

Lemma follows_if {A B} (R : A -> B -> Prop) (b : bool) x y x' y' :
  follows R x x' -> follows R y y' -> follows R (if b then x else y) (if b then x' else y').
Proof. by destruct b. Qed.

Lemma follows_notify_state k er s e :
  follows (fun a b => exists s', b = hear s' a /\ (s' = s \/ s' = st e))
    (CALLBACK_NOTIFY_ recorder k er e) (CALLBACK_NOTIFY_ cfg k er (hear s e)).
Proof.
  unfold CALLBACK_NOTIFY_, assert_. cbn [hear pr set_pstate errno]. destruct (is_ok (errno (pr e))) eqn:Ho; [|done].
  destruct Hlistens as [Hn _]. specialize (Hn k). cbn [on_notify recorder].
  unfold after_callback at 1. cbn [code paused user negb Z.eqb set_pstate errno]. rewrite Ho.
  destruct (on_notify cfg k) as [f|].
  - rewrite Hn. unfold after_callback. cbn [code paused user negb Z.eqb set_pstate errno hear pr st]. rewrite Ho.
    eexists. split; [done|]. exists (st e). split; [|by right]. unfold hear. cbn [pr st pos mk usr set_pstate with_mk]. by rewrite heard_snoc.
  - eexists. split; [done|]. exists s. split; [|by left]. unfold hear. cbn [pr st pos mk usr set_pstate with_mk]. by rewrite heard_snoc, Hn.
Qed.
Lemma follows_notify k er s e e' :
  e' = hear s e -> follows alike (CALLBACK_NOTIFY_ recorder k er e) (CALLBACK_NOTIFY_ cfg k er e').
Proof.
  intros ->. pose proof (follows_notify_state k er s e) as H. destruct (CALLBACK_NOTIFY_ recorder k er e); [|done..].
  destruct H as (b & E & s' & Hb & _). exists b. split; [done|]. by exists s'.
Qed.

Section Buffer.
Context (data : bytes).

Lemma follows_data k n er s e e' :
  e' = hear s e -> follows alike (CALLBACK_DATA_ recorder data k n er e) (CALLBACK_DATA_ cfg data k n er e').
Proof.
  intros ->. unfold CALLBACK_DATA_, assert_. cbn [hear pr set_pstate errno mk]. destruct (is_ok (errno (pr e))) eqn:Ho; [|done].
  destruct (get_mark k (mk e)) as [m|]; [|by apply (follows_go s)].
  destruct Hlistens as [_ Hd]. specialize (Hd k). cbn [on_data recorder].
  destruct (mem_read data m (n m)) as [d|]; [|done]. cbn [lift mbind result_bind].
  unfold after_callback at 1. cbn [code paused user negb Z.eqb set_pstate errno]. rewrite Ho.
  destruct (on_data cfg k) as [f|]; cbn [mbind result_bind].
  - rewrite Hd. unfold after_callback. cbn [code paused user negb Z.eqb set_pstate errno hear pr st mbind result_bind]. rewrite Ho.
    eexists. split; [done|]. exists (st e). unfold hear. cbn [pr st pos mk usr set_pstate with_mk]. by rewrite heard_snoc.
  - eexists. split; [done|]. exists s. unfold hear. cbn [pr st pos mk usr set_pstate with_mk]. by rewrite heard_snoc, Hd.
Qed.

(** ** The cases of the switch *)
Lemma hear_pr f s e : (forall r, f (set_pstate s r) = set_pstate s (f r)) -> with_pr f (hear s e) = hear s (with_pr f e).
Proof. intros H. unfold with_pr, hear. cbn [pr st pos mk usr]. by rewrite H. Qed.
Lemma hear_state s' s e : UPDATE_STATE s' (hear s e) = hear s (UPDATE_STATE s' e).
Proof. done. Qed.
Lemma hear_set_pos p s e : set_pos p (hear s e) = hear s (set_pos p e).
Proof. done. Qed.
Lemma hear_mark k s e : MARK k (hear s e) = hear s (MARK k e).
Proof. unfold MARK. cbn [hear mk]. by destruct (get_mark k (mk e)). Qed.
Lemma hear_finish s e : with_pr finish_header (hear s e) = hear s (with_pr finish_header e).
Proof.
  apply hear_pr. intros r. unfold finish_header. change (header_state (set_pstate s r)) with (header_state r).
  by destruct (finish_flag _).
Qed.
Lemma hear_st s e : st (hear s e) = st e.
Proof. done. Qed.
Lemma hear_pos s e : pos (hear s e) = pos e.
Proof. done. Qed.
Lemma hear_field {B} (g : http_parser -> B) s e : (forall r, g (set_pstate s r) = g r) -> g (pr (hear s e)) = g (pr e).
Proof. intros H. apply H. Qed.
(** Moves [hear] to the outside. *)
Ltac field g := rewrite (hear_field g) by reflexivity.
Ltac norm :=
  cbn zeta;
  repeat first
    [ rewrite hear_state | rewrite hear_set_pos | rewrite hear_mark | rewrite hear_finish | rewrite hear_pr by reflexivity
    | rewrite hear_st | rewrite hear_pos
    | field errno | field index | field nread | field content_length | field http_major | field http_minor
    | field status_code | field method | field upgrade | field header_state | field body_length_ok | field NEW_MESSAGE
    | field (has_flag F_CHUNKED) | field (has_flag F_TRAILING) | field http_message_needs_eof ].
Ltac leaf s :=
  lazymatch goal with
  | |- follows _ (Crash _) _ => exact I
  | |- follows alike2 (Go _) _ => apply (follows_go2 s); reflexivity
  | |- follows _ (Go _) _ => apply (follows_go s); reflexivity
  | |- follows _ (error _ _) _ => apply (follows_error _ _ s); reflexivity
  | |- follows _ (RETURN _ _) _ => apply (follows_RETURN _ _ s); reflexivity
  | |- follows _ (CALLBACK_NOTIFY_ _ _ _ _) _ => apply (follows_notify _ _ s); reflexivity
  | |- follows _ (CALLBACK_NOTIFY _ _ _) _ => apply (follows_notify _ _ s); reflexivity
  | |- follows _ (CALLBACK_DATA_ _ _ _ _ _ _) _ => apply (follows_data _ _ _ s); reflexivity
  | |- follows _ (CALLBACK_DATA _ _ _ _) _ => apply (follows_data _ _ _ s); reflexivity
  | |- follows _ (COUNT_HEADER_SIZE _ _) _ => apply (follows_count _ s); reflexivity
  | |- follows _ (REEXECUTE _) _ => apply (follows_go s); reflexivity
  end.
Ltac follow s :=
  repeat first
    [ progress cbn zeta
    | lazymatch goal with
      | |- follows _ (assert_ ?b _) _ => destruct b; [|exact I]
      | |- follows _ (Go (if ?b then _ else _)) _ => destruct b
      | |- follows _ (if ?b then _ else _) _ => destruct b
      | |- follows _ (match ?x with _ => _ end) _ => destruct x
      end; norm
    | leaf s ].
Ltac open_case :=
  unfold on_dead, on_start_req_or_res, on_res_or_resp_H, on_start_res, expect, STRICT_CHECK, on_res_first_http_major,
    on_req_first_http_major, http_major_digit, on_res_http_major, on_req_http_major, on_first_http_minor, http_minor_digit,
    on_res_http_minor, on_req_http_minor, on_res_first_status_code, on_res_status_code, on_res_status_start, on_res_status,
    on_start_req, url_char, on_req_spaces_before_url, on_req_schema, on_req_url, on_req_http_start, on_req_line_almost_done,
    on_header_field_start, on_header_value_start, on_header_value_discard_ws, on_header_value_lws,
    on_body_identity_eof, on_message_done, on_chunk_size_start, on_chunk_size, on_chunk_parameters, on_chunk_size_almost_done,
    on_chunk_data, on_chunk_data_almost_done, on_chunk_data_done, complete, take_body, CALLBACK_NOTIFY, CALLBACK_NOTIFY_NOADVANCE,
    CALLBACK_DATA, CALLBACK_DATA_NOADVANCE, REEXECUTE, assert_.

Lemma follows_url_char s e ch : follows alike (url_char e ch) (url_char (hear s e) ch).
Proof. unfold url_char. norm. destruct (parse_url_char _ _); leaf s. Qed.
Lemma follows_spaces_before_url s e ch :
  follows alike (on_req_spaces_before_url e ch) (on_req_spaces_before_url (hear s e) ch).
Proof.
  unfold on_req_spaces_before_url. norm. apply follows_if; [leaf s|].
  destruct (method _); norm; apply (follows_url_char s).
Qed.

Lemma follows_req_method s e ch : follows alike (on_req_method e ch) (on_req_method (hear s e) ch).
Proof.
  unfold on_req_method. norm. destruct (ch =? 0); [leaf s|]. apply follows_lift. intros m. follow s.
Qed.

Lemma header_field_char_hear s r ch c :
  header_field_char (set_pstate s r) ch c = (r' ← header_field_char r ch c; Ret (set_pstate s r')).
Proof.
  destruct r as [ty fl ps hs ix nr cl ma mi sc me er up]. unfold header_field_char, match_name, set_pstate, set_index, set_header_state.
  cbn [type flags pstate header_state index nread content_length http_major http_minor status_code method errno upgrade].
  destruct hs; cbn [mbind outcome_bind]; try done; repeat case_match; reflexivity.
Qed.
Lemma header_field_loop_hear s l : forall p ch r,
  header_field_loop l p ch (set_pstate s r) = ('(p, ch, r) ← header_field_loop l p ch r; Ret (p, ch, set_pstate s r)).
Proof.
  induction l as [|x l IH]; intros p ch r; cbn [header_field_loop]; [done|]. destruct (TOKEN x =? 0); [done|].
  rewrite header_field_char_hear. destruct (header_field_char r x (TOKEN x)); [|done]. cbn [mbind outcome_bind]. apply IH.
Qed.
Lemma follows_header_field s e ch : follows alike (on_header_field recorder data e ch) (on_header_field cfg data (hear s e) ch).
Proof.
  unfold on_header_field. cbn zeta. cbn [hear pr pos]. rewrite header_field_loop_hear.
  destruct (header_field_loop _ _ _ (pr e)) as [[[p c] r]|]; [|done]. cbn [mbind outcome_bind result_bind lift].
  eapply follows_bind; [by apply (follows_count _ s)|]. intros e1 e2 (s1 & ->). norm. follow s1.
Qed.

Lemma follows_value_char s h e ch :
  follows alike2 (header_value_char data h e ch) (header_value_char data h (hear s e) ch).
Proof.
  unfold header_value_char, match_value, content_length_char. norm. destruct h; try done; follow s.
Qed.
Lemma follows_value_loop fuel start : forall s h e,
  follows alike2 (header_value_loop recorder data fuel start h e) (header_value_loop cfg data fuel start h (hear s e)).
Proof.
  induction fuel as [|fuel IH]; intros s h e; cbn [header_value_loop]; cbn [hear pos].
  - destruct (pos e =? len data); [|done]. by apply (follows_go2 s).
  - destruct (pos e =? len data); [by apply (follows_go2 s)|]. apply follows_lift. intros c. cbn zeta.
    destruct (znth c 0 =? CR); [|destruct (znth c 0 =? LF)].
    + eapply follows_bind; [by apply (follows_data _ _ _ s)|]. intros e1 e2 (s1 & ->). by apply (follows_go2 s1).
    + eapply follows_bind; [by apply (follows_count _ s)|]. intros e1 e2 (s1 & ->).
      eapply follows_bind; [by apply (follows_data _ _ _ s1)|]. intros e3 e4 (s2 & ->). by apply (follows_go2 s2).
    + eapply follows_bind; [apply follows_value_char|]. intros [h1 e1] [h2 e2] [Hh (s1 & He)]. cbn in Hh, He. subst. apply (IH s1).
Qed.
Lemma follows_header_value s e ch : follows alike (on_header_value recorder data e ch) (on_header_value cfg data (hear s e) ch).
Proof.
  unfold on_header_value. cbn zeta. eapply follows_bind; [apply follows_value_loop|].
  intros [h1 e1] [h2 e2] [Hh (s1 & He)]. cbn in Hh, He. subst.
  eapply follows_bind; [by apply (follows_count _ s1)|]. intros e3 e4 (s2 & ->). cbn [hear pos].
  destruct (pos e3 =? len data); by apply (follows_go s2).
Qed.
Lemma follows_discard_lws s e ch :
  follows alike (on_header_value_discard_lws recorder data e ch) (on_header_value_discard_lws cfg data (hear s e) ch).
Proof.
  unfold on_header_value_discard_lws. cbn zeta. destruct (_ || _); [by apply (follows_go s)|].
  rewrite hear_finish, hear_mark, hear_state.
  eapply follows_bind; [by apply (follows_data _ _ _ s)|]. intros e1 e2 (s1 & ->). by apply (follows_go s1).
Qed.
Lemma follows_complete s e : follows alike (complete recorder e) (complete cfg (hear s e)).
Proof. unfold complete. by apply (follows_notify _ _ s). Qed.
Lemma follows_headers_almost_done s e ch :
  follows alike (on_headers_almost_done recorder e ch) (on_headers_almost_done cfg (hear s e) ch).
Proof.
  unfold on_headers_almost_done, STRICT_CHECK. destruct (negb _); [leaf s|].
  change (has_flag F_TRAILING (pr (hear s e))) with (has_flag F_TRAILING (pr e)).
  destruct (has_flag F_TRAILING (pr e)); [leaf s|]. cbn zeta.
  destruct Hlistens as [Hn _]. specialize (Hn N_headers_complete). cbn [on_notify recorder].
  eapply (follows_bind alike).
  - destruct (on_notify cfg N_headers_complete) as [f|].
    + rewrite Hn. cbn [code paused user]. change (0 =? 0) with true. cbn iota. eexists. split; [done|]. exists s.
      unfold hear. cbn [pr st pos mk usr UPDATE_STATE with_pr]. by rewrite heard_snoc.
    + cbn [code paused user]. change (0 =? 0) with true. cbn iota. eexists. split; [done|]. exists s.
      unfold hear. cbn [pr st pos mk usr UPDATE_STATE with_pr]. by rewrite heard_snoc, Hn.
  - intros e1 e2 (s1 & ->). cbn [hear pr set_pstate errno]. destruct (is_ok _); leaf s1.
Qed.
Lemma follows_headers_done s e ch : follows alike (on_headers_done recorder e ch) (on_headers_done cfg (hear s e) ch).
Proof.
  unfold on_headers_done, STRICT_CHECK. destruct (negb _); [leaf s|]. cbn zeta.
  change (with_pr (set_nread 0) (hear s e)) with (hear s (with_pr (set_nread 0) e)). set (e1 := with_pr (set_nread 0) e).
  apply (follows_if alike (upgrade (pr e1))).
  { eapply follows_bind; [apply (follows_complete s)|]. intros e2 e3 (s1 & ->). done. }
  apply (follows_if alike (has_flag F_SKIPBODY (pr e1))); [apply (follows_complete s)|].
  apply (follows_if alike (has_flag F_CHUNKED (pr e1))); [leaf s|].
  apply (follows_if alike (content_length (pr e1) =? 0)); [apply (follows_complete s)|].
  apply (follows_if alike (negb (content_length (pr e1) =? ULLONG_MAX))); [leaf s|].
  apply (follows_if alike (bool_decide (type (pr e1) = HTTP_REQUEST) || negb (http_message_needs_eof (pr e1))));
    [apply (follows_complete s)|leaf s].
Qed.
Lemma follows_body_identity s e ch : follows alike (on_body_identity recorder data e ch) (on_body_identity cfg data (hear s e) ch).
Proof.
  unfold on_body_identity. apply follows_assert. cbn zeta.
  assert (take_body data (hear s e) = hear s (take_body data e)) as ->.
  { unfold take_body. norm. done. }
  set (e1 := take_body data e). cbn [hear pr set_pstate content_length]. destruct (content_length (pr e1) =? 0); [|leaf s].
  eapply follows_bind; [by apply (follows_data _ _ _ s)|]. intros e2 e3 (s1 & ->). by apply (follows_go s1).
Qed.

Lemma follows_dispatch s e ch : follows alike (dispatch recorder data e ch) (dispatch cfg data (hear s e) ch).
Proof.
  unfold dispatch. change (st (hear s e)) with (st e).
  destruct (st e);
    lazymatch goal with
    | |- follows _ (on_req_method _ _) _ => apply follows_req_method
    | |- follows _ (on_header_field _ _ _ _) _ => apply follows_header_field
    | |- follows _ (on_header_value _ _ _ _) _ => apply follows_header_value
    | |- follows _ (on_header_value_discard_lws _ _ _ _) _ => apply follows_discard_lws
    | |- follows _ (on_headers_almost_done _ _ _) _ => apply follows_headers_almost_done
    | |- follows _ (on_headers_done _ _ _) _ => apply follows_headers_done
    | |- follows _ (on_body_identity _ _ _ _) _ => apply follows_body_identity
    | |- follows _ (on_message_done _ _ _) _ => apply follows_complete
    | |- follows _ (on_req_spaces_before_url _ _) _ => apply follows_spaces_before_url
    | |- follows _ ?x _ => open_case; open_case; norm; follow s
    end.
Qed.

Lemma follows_loop fuel : forall s e, follows alike (loop recorder data fuel e) (loop cfg data fuel (hear s e)).
Proof.
  induction fuel as [|fuel IH]; intros s e; cbn [loop]; rewrite hear_pos; apply follows_if; try (by apply (follows_go s)); [done|].
  eapply (follows_bind alike); [|intros e1 e2 (s1 & ->); apply IH]. unfold round. rewrite hear_pos, hear_st.
  apply follows_lift. intros c. eapply follows_bind.
  { apply (follows_if alike); [by apply (follows_count _ s)|by apply (follows_go s)]. }
  intros e1 e2 (s1 & ->). eapply follows_bind; [apply follows_dispatch|]. intros e3 e4 (s2 & ->). by apply (follows_go s2).
Qed.

Lemma follows_flush s e : follows alike (flush_marks recorder data e) (flush_marks cfg data (hear s e)).
Proof.
  unfold flush_marks. apply follows_assert.
  eapply follows_bind; [by apply (follows_data _ _ _ s)|]. intros e1 x1 (s1 & ->).
  eapply follows_bind; [by apply (follows_data _ _ _ s1)|]. intros e2 x2 (s2 & ->).
  eapply follows_bind; [by apply (follows_data _ _ _ s2)|]. intros e3 x3 (s3 & ->).
  eapply follows_bind; [by apply (follows_data _ _ _ s3)|]. intros e4 x4 (s4 & ->).
  by apply (follows_data _ _ _ s4).
Qed.

(** What [http_parser_execute] gives the recorder determines what it gives [cfg]. *)
Lemma execute_heard r evs n r' evs' :
  http_parser_execute recorder r data evs = Ret (n, r', evs') ->
  http_parser_execute cfg r data (heard evs) = Ret (n, r', heard evs').
Proof.
  set (e := Exec r (pstate r) 0 (initial_marks (pstate r)) evs).
  assert (hear (pstate r) e = Exec r (pstate r) 0 (initial_marks (pstate r)) (heard evs)) as He by (unfold hear, e; by destruct r).
  unfold http_parser_execute, execute_body. cbn zeta. fold e. rewrite <- He.
  destruct (is_ok (errno r)) eqn:Ho; [|by intros [= -> -> ->]]. cbn [negb]. destruct (len data =? 0).
  - destruct (pstate r) eqn:Es; try (by intros [= -> -> ->]).
    pose proof (follows_notify_state N_message_complete 0 (pstate r) e) as H. cbn [e st] in H. rewrite Es in H.
    unfold CALLBACK_NOTIFY_NOADVANCE. change (pos e) with 0. change (pos (hear _ e)) with 0.
    assert (forall e1, CALLBACK_NOTIFY_ recorder N_message_complete 0 e = Go e1 -> pr e1 = set_pstate s_body_identity_eof r) as Hr.
    { unfold CALLBACK_NOTIFY_, assert_, after_callback. cbn [e pr set_pstate errno on_notify recorder code paused user negb Z.eqb].
      rewrite Ho. by intros e1 [= <-]. }
    destruct (CALLBACK_NOTIFY_ recorder N_message_complete 0 e) as [e1|n1 r1 u1|]; cbn [follows] in H; cbn [mbind result_bind]; [| |done].
    + destruct H as (e2 & -> & s1 & -> & Hs). assert (s1 = s_body_identity_eof) as -> by tauto. cbn [mbind result_bind].
      intros [= <- <- <-]. cbn [hear pr usr]. by rewrite (Hr e1 eq_refl).
    + rewrite H. by intros [= -> -> ->].
  - pose proof (follows_loop (loop_fuel data) (pstate r) e) as H.
    destruct (loop recorder data (loop_fuel data) e) as [e1|n1 r1 u1|]; cbn [follows] in H; cbn [mbind result_bind]; [| |done].
    + destruct H as (e2 & -> & (s1 & ->)). cbn [mbind result_bind]. pose proof (follows_flush s1 e1) as H.
      destruct (flush_marks recorder data e1) as [e2|n2 r2 u2|]; cbn [follows] in H; cbn [mbind result_bind]; [| |done].
      * destruct H as (e3 & -> & (s2 & ->)). cbn [mbind result_bind]. unfold RETURN. cbn. by intros [= <- <- <-].
      * rewrite H. by intros [= -> -> ->].
    + rewrite H. by intros [= -> -> ->].
Qed.
End Buffer.
End Listen.
