(* ===== verification/Numbers.v ===== *)
(** Numbers and strings, [zutils/base/strings/string_number_conversions.cc]: the
    integer printers and parsers, generic in their width, signedness and base as
    the templates are, and the hexadecimal codecs.  The conversions of [double]
    call a third-party library and are left out. *)
From Stdlib Require Import ZArith Lia Bool Ascii String.
From stdpp Require Import base list numbers strings.
From S2P Require Import Prelude.

Open Scope Z_scope.

(** * Printing *)
Section Printing.
Context (dcheck_on : bool).

(** The loop of [IntToStringT::IntToString]: [it] is the offset of the iterator
    in [outbuf], [out] what is behind it. *)
Fixpoint IntToString_loop (fuel : nat) (it res : Z) (out : bytes) : outcome (Z * bytes) :=
  match fuel with
  | O => Fault OutOfFuel
  | S fuel =>
      let it := it - 1 in
      DCHECK dcheck_on (negb (it =? 0)) (
      guard_or (0 <=? it) OutOfBounds (
        let out := u8 (res mod 10 + ch#"0") :: out in
        let res := res / 10 in
        if res =? 0 then Ret (it, out) else IntToString_loop fuel it res out))
  end.

(** [IntToStringT<STR, INT, UINT, NEG>::IntToString], [INT] of [w] bits. *)
Definition IntToStringT (w : Z) (NEG : bool) (value : Z) : outcome bytes :=
  let kOutputBufSize := 3 * (w / 8) + 1 in
  let is_neg := NEG && (value <? 0) in
  let res := uwrap w (if NEG && (value <? 0) then - value else value) in
  '(it, out) ← IntToString_loop (Z.to_nat kOutputBufSize) kOutputBufSize res [];
  if is_neg then
    let it := it - 1 in
    DCHECK dcheck_on (negb (it =? 0)) (guard_or (0 <=? it) OutOfBounds (Ret (ch#"-" :: out)))
  else Ret out.

Definition IntToString := IntToStringT 32 true.
Definition UintToString := IntToStringT 32 false.
Definition Int64ToString := IntToStringT 64 true.
Definition Uint64ToString := IntToStringT 64 false.
Definition SizeTToString := IntToStringT 64 false.
End Printing.

(** * Parsing *)

(** [BaseCharToDigit] and [CharToDigit] *)
Definition CharToDigit (BASE c : Z) : option Z :=
  if BASE <=? 10 then
    if (ch#"0" <=? c) && (c <? ch#"0" + BASE) then Some (c - ch#"0") else None
  else if (ch#"0" <=? c) && (c <=? ch#"9") then Some (c - ch#"0")
  else if (ch#"a" <=? c) && (c <? ch#"a" + BASE - 10) then Some (c - ch#"a" + 10)
  else if (ch#"A" <=? c) && (c <? ch#"A" + BASE - 10) then Some (c - ch#"A" + 10)
  else None.

(** [LocalIsWhitespace]: [isspace] of the C locale. *)
Definition LocalIsWhitespace (c : Z) : bool := (c =? 32) || ((9 <=? c) && (c <=? 13)).

(** [BaseIteratorRangeToNumberTraits]: the limits of [value_type] and the base. *)
Record traits := Traits { is_signed : bool; width : Z; kBase : Z }.
Definition t_min (t : traits) : Z := if is_signed t then - 2 ^ (width t - 1) else 0.
Definition t_max (t : traits) : Z := if is_signed t then 2 ^ (width t - 1) - 1 else 2 ^ width t - 1.
(** Assignment to a [value_type]. *)
Definition to_value (t : traits) (v : Z) : Z := if is_signed t then swrap (width t) v else uwrap (width t) v.

Inductive sign := Positive | Negative.

(** [CheckBounds]: the digit does not fit. *)
Definition out_of_bounds (t : traits) (s : sign) (output new_digit : Z) : bool :=
  match s with
  | Positive =>
      (t_max t / kBase t <? output) || ((output =? t_max t / kBase t) && (t_max t mod kBase t <? new_digit))
  | Negative =>
      (output <? Z.quot (t_min t) (kBase t)) ||
      ((output =? Z.quot (t_min t) (kBase t)) && (0 - Z.rem (t_min t) (kBase t) <? new_digit))
  end.
Definition limit (t : traits) (s : sign) : Z := match s with Positive => t_max t | Negative => t_min t end.
Definition Increment (t : traits) (s : sign) (increment output : Z) : Z :=
  to_value t (match s with Positive => output + increment | Negative => output - increment end).

(** The loop of [Base::Invoke] over the characters that are left. *)
Fixpoint Base_loop (t : traits) (s : sign) (first : bool) (l : bytes) (output : Z) : bool * Z :=
  match l with
  | [] => (true, output)
  | c :: l =>
      match CharToDigit (kBase t) c with
      | None => (false, output)
      | Some d =>
          if first then Base_loop t s false l (Increment t s d output)
          else if out_of_bounds t s output d then (false, limit t s)
          else Base_loop t s false l (Increment t s d (to_value t (output * kBase t)))
      end
  end.

(** [*begin == '0' && ( *(begin + 1) == 'x' || ...)] with [end - begin > 2] *)
Definition hex_prefix (l : bytes) : bool :=
  match l with c :: x :: _ :: _ => (c =? ch#"0") && ((x =? ch#"x") || (x =? ch#"X")) | _ => false end.

(** [Base<Sign>::Invoke] *)
Definition Base_Invoke (t : traits) (s : sign) (l : bytes) : bool * Z :=
  match l with
  | [] => (false, 0)
  | _ => Base_loop t s true (if (kBase t =? 16) && hex_prefix l then drop 2 l else l) 0
  end.

Fixpoint skip_whitespace (l : bytes) : bool * bytes :=
  match l with
  | c :: k => if LocalIsWhitespace c then (false, snd (skip_whitespace k)) else (true, l)
  | [] => (true, [])
  end.

(** [IteratorRangeToNumber::Invoke]; [output] is what the caller's variable holds. *)
Definition Invoke (t : traits) (input : bytes) (output : Z) : bool * Z :=
  let '(valid, l) := skip_whitespace input in
  match l with
  | c :: k =>
      if c =? ch#"-" then
        if negb (is_signed t) then (false, output)
        else let '(b, v) := Base_Invoke t Negative k in (valid && b, v)
      else
        let '(b, v) := Base_Invoke t Positive (if c =? ch#"+" then k else l) in (valid && b, v)
  | [] => let '(b, v) := Base_Invoke t Positive [] in (valid && b, v)
  end.

Definition StringToInt := Invoke (Traits true 32 10).
Definition StringToUint := Invoke (Traits false 32 10).
Definition StringToInt64 := Invoke (Traits true 64 10).
Definition StringToUint64 := Invoke (Traits false 64 10).
Definition StringToSizeT := Invoke (Traits false 64 10).
Definition HexStringToInt := Invoke (Traits true 32 16).
Definition HexStringToUInt := Invoke (Traits false 32 16).
Definition HexStringToInt64 := Invoke (Traits true 64 16).
Definition HexStringToUInt64 := Invoke (Traits false 64 16).

(** * Bytes in hexadecimal *)
Definition kHexChars : bytes := str#"0123456789ABCDEF".

(** [HexEncode] *)
Definition HexEncode (l : bytes) : bytes :=
  concat (map (fun b => [znth kHexChars (Z.land (Z.shiftr b 4) 15); znth kHexChars (Z.land b 15)]) l).

(** The loop of [HexStringToBytesT]: [None] is [return false]. *)
Fixpoint HexStringToBytes_loop (l : bytes) (output : bytes) : bool * bytes :=
  match l with
  | m :: n :: l =>
      match CharToDigit 16 m, CharToDigit 16 n with
      | Some msb, Some lsb => HexStringToBytes_loop l (output ++ [u8 (Z.lor (Z.shiftl msb 4) lsb)])
      | _, _ => (false, output)
      end
  | _ => (true, output)
  end.

(** [HexStringToBytesT] *)
Definition HexStringToBytes (dcheck_on : bool) (input output : bytes) : outcome (bool * bytes) :=
  DCHECK dcheck_on (zlen output =? 0) (
    let count := zlen input in
    if (count =? 0) || negb (count mod 2 =? 0) then Ret (false, output)
    else Ret (HexStringToBytes_loop input output)).

(** * What a number denotes *)
Definition is_digit (base c : Z) : bool := match CharToDigit base c with Some _ => true | None => false end.
Definition digit (base c : Z) : Z := default 0 (CharToDigit base c).
Definition number (base v : Z) (ds : bytes) : Z := fold_left (fun v c => v * base + digit base c) ds v.
(** [l] does not go on with a digit. *)
Definition ends (base : Z) (l : bytes) : Prop := match l with c :: _ => is_digit base c = false | [] => True end.

Record traits_ok (t : traits) : Prop := { ok_width : 8 <= width t; ok_base : 2 <= kBase t <= 36 }.
Definition sg (s : sign) : Z := match s with Positive => 1 | Negative => -1 end.
Definition magnitude (t : traits) (s : sign) : Z := sg s * limit t s.

Lemma digit_range base c : 2 <= base <= 36 -> is_digit base c = true -> 0 <= digit base c < base.
Proof.
  unfold is_digit, digit, CharToDigit. intros Hb. destruct (Z.leb_spec base 10).
  - destruct (Z.leb_spec 48 c), (Z.ltb_spec c (48 + base)); cbn; try done; lia.
  - destruct (Z.leb_spec 48 c), (Z.leb_spec c 57); cbn; try lia;
      destruct (Z.leb_spec 97 c), (Z.ltb_spec c (97 + base - 10)); cbn; try lia;
      destruct (Z.leb_spec 65 c), (Z.ltb_spec c (65 + base - 10)); cbn; try done; lia.
Qed.

Lemma number_mono base ds : forall v, 2 <= base <= 36 -> 0 <= v -> forallb (is_digit base) ds = true -> v <= number base v ds.
Proof.
  induction ds as [|d ds IH]; intros v Hb Hv Hd; cbn [number fold_left]; [lia|].
  cbn [forallb] in Hd. apply andb_true_iff in Hd as [Hd1 Hd]. pose proof (digit_range base d Hb Hd1).
  specialize (IH (v * base + digit base d) Hb ltac:(nia) Hd). unfold number in IH. nia.
Qed.

Lemma pow_pos k : 0 <= k -> 0 < 2 ^ k.
Proof. intros. apply Z.pow_pos_nonneg; lia. Qed.

Section Bounds.
Context (t : traits) (s : sign) (Hok : traits_ok t) (Hs : s = Negative -> is_signed t = true).

Lemma magnitude_pos : 127 <= magnitude t s.
Proof.
  destruct Hok as [Hw _]. unfold magnitude, limit, t_min, t_max.
  assert (2 ^ 7 <= 2 ^ (width t - 1)) by (apply Z.pow_le_mono_r; lia).
  assert (2 ^ 8 <= 2 ^ width t) by (apply Z.pow_le_mono_r; lia).
  destruct s; cbn [sg]; [|rewrite Hs by done]; try destruct (is_signed t); powlia.
Qed.

Lemma to_value_fits a : 0 <= a <= magnitude t s -> to_value t (sg s * a) = sg s * a.
Proof.
  destruct Hok as [Hw _]. unfold magnitude, limit, to_value, t_min, t_max. intros Ha.
  pose proof (pow_pos (width t - 1) ltac:(lia)). pose proof (pow_pos (width t) ltac:(lia)).
  destruct s; cbn [sg] in *; [destruct (is_signed t)|rewrite Hs in * by done].
  - apply swrap_small; lia.
  - apply uwrap_small; lia.
  - apply swrap_small; lia.
Qed.

Lemma out_of_bounds_spec a d :
  0 <= d < kBase t -> out_of_bounds t s (sg s * a) d = (magnitude t s <? a * kBase t + d).
Proof.
  destruct Hok as [_ Hb]. intros Hd. pose proof magnitude_pos as HM. unfold out_of_bounds.
  assert (forall M, 0 <= M -> (M / kBase t <? a) || ((a =? M / kBase t) && (M mod kBase t <? d)) = (M <? a * kBase t + d)) as Hcore.
  { intros M _. pose proof (Z.div_mod M (kBase t) ltac:(lia)). pose proof (Z.mod_pos_bound M (kBase t) ltac:(lia)).
    set (q := M / kBase t) in *. set (r := M mod kBase t) in *.
    destruct (Z.ltb_spec q a), (Z.eqb_spec a q), (Z.ltb_spec r d), (Z.ltb_spec M (a * kBase t + d)); cbn; try done; nia. }
  destruct s; cbn [sg] in *.
  - unfold magnitude, limit in *. cbn [sg] in *. rewrite !Z.mul_1_l in *. apply Hcore. lia.
  - unfold magnitude, limit in *. cbn [sg] in *. rewrite <- Hcore by lia. set (m := -1 * t_min t) in *.
    replace (t_min t) with (- m) by lia. rewrite Z.quot_opp_l, Z.rem_opp_l by lia.
    rewrite Z.quot_div_nonneg, Z.rem_mod_nonneg by lia. f_equal; [|f_equal].
    + destruct (Z.ltb_spec (-1 * a) (- (m / kBase t))), (Z.ltb_spec (m / kBase t) a); lia.
    + destruct (Z.eqb_spec (-1 * a) (- (m / kBase t))), (Z.eqb_spec a (m / kBase t)); lia.
    + f_equal. lia.
Qed.

Lemma Increment_fits a d : 0 <= a -> 0 <= d -> a + d <= magnitude t s -> Increment t s d (sg s * a) = sg s * (a + d).
Proof.
  intros. unfold Increment. rewrite <- (to_value_fits (a + d)) by lia. f_equal. destruct s; cbn [sg]; lia.
Qed.

Lemma Base_loop_rest rest v first : ends (kBase t) rest -> Base_loop t s first rest v = (bool_decide (rest = []), v).
Proof.
  destruct rest as [|c rest]; [done|]. cbn [ends Base_loop]. unfold is_digit. by destruct (CharToDigit (kBase t) c).
Qed.

Lemma Base_loop_number ds : forall a rest,
  forallb (is_digit (kBase t)) ds = true -> ends (kBase t) rest -> 0 <= a <= magnitude t s ->
  Base_loop t s false (ds ++ rest) (sg s * a) =
    if number (kBase t) a ds <=? magnitude t s then (bool_decide (rest = []), sg s * number (kBase t) a ds)
    else (false, limit t s).
Proof.
  pose proof Hok as [_ Hb].
  induction ds as [|d ds IH]; intros a rest Hd Hr Ha.
  - cbn [app number fold_left]. rewrite Base_loop_rest by done. by rewrite (proj2 (Z.leb_le _ _)) by lia.
  - cbn [forallb] in Hd. apply andb_true_iff in Hd as [Hd1 Hd]. pose proof (digit_range _ d Hb Hd1) as Hr1.
    cbn [app Base_loop number fold_left]. unfold digit in *. unfold is_digit in Hd1.
    destruct (CharToDigit (kBase t) d) as [x|]; [|done]. cbn [from_option id] in *. rewrite out_of_bounds_spec by done.
    destruct (Z.ltb_spec (magnitude t s) (a * kBase t + x)) as [Hov|Hin].
    + rewrite (proj2 (Z.leb_gt _ _)); [done|]. pose proof (number_mono (kBase t) ds (a * kBase t + x) Hb ltac:(nia) Hd).
      unfold number, digit in *. lia.
    + replace (sg s * a * kBase t) with (sg s * (a * kBase t)) by lia.
      rewrite to_value_fits by nia. rewrite (Increment_fits (a * kBase t) x) by nia. apply IH; [done|done|nia].
Qed.

Lemma Base_loop_first d ds rest :
  forallb (is_digit (kBase t)) (d :: ds) = true -> ends (kBase t) rest ->
  Base_loop t s true ((d :: ds) ++ rest) 0 =
    if number (kBase t) 0 (d :: ds) <=? magnitude t s then (bool_decide (rest = []), sg s * number (kBase t) 0 (d :: ds))
    else (false, limit t s).
Proof.
  pose proof Hok as [_ Hb]. pose proof magnitude_pos. intros Hd Hr. cbn [forallb] in Hd. apply andb_true_iff in Hd as [Hd1 Hd].
  pose proof (digit_range _ d Hb Hd1) as Hr1. cbn [app Base_loop number fold_left]. unfold digit in *. unfold is_digit in Hd1.
  destruct (CharToDigit (kBase t) d) as [x|]; [|done]. cbn [from_option id] in *.
  replace (Increment t s x 0) with (sg s * (0 * kBase t + x)).
  2: { rewrite <- (Z.mul_0_r (sg s)) at 2. rewrite Increment_fits by lia. f_equal; lia. }
  apply Base_loop_number; [done|done|lia].
Qed.
End Bounds.

(** * Texts of numbers *)
(** A sign, a prefix in base 16, digits, and what follows them. *)
Record number_text := NumberText { nt_space : bytes; nt_sign : bytes; nt_prefix : bytes; nt_digits : bytes; nt_rest : bytes }.
Definition nt_bytes (n : number_text) : bytes := nt_space n ++ nt_sign n ++ nt_prefix n ++ nt_digits n ++ nt_rest n.
Definition nt_negative (n : number_text) : bool := bool_decide (nt_sign n = [ch#"-"]).
Definition nt_value (base : Z) (n : number_text) : Z :=
  (if nt_negative n then -1 else 1) * number base 0 (nt_digits n).
Definition nt_ok (base : Z) (n : number_text) : bool :=
  forallb LocalIsWhitespace (nt_space n) &&
  bool_decide (nt_sign n = [] \/ nt_sign n = [ch#"-"] \/ nt_sign n = [ch#"+"]) &&
  (if base =? 16 then
     bool_decide (nt_prefix n = str#"0x" \/ nt_prefix n = str#"0X") ||
     bool_decide (nt_prefix n = []) && negb (hex_prefix (nt_digits n ++ nt_rest n))
   else bool_decide (nt_prefix n = [])) &&
  negb (bool_decide (nt_digits n = [])) && forallb (is_digit base) (nt_digits n) &&
  match nt_rest n with c :: _ => negb (is_digit base c) | [] => true end.

Definition clamp (t : traits) (v : Z) : Z := Z.max (t_min t) (Z.min (t_max t) v).
Definition in_range (t : traits) (v : Z) : bool := (t_min t <=? v) && (v <=? t_max t).

Lemma skip_whitespace_app w l :
  forallb LocalIsWhitespace w = true -> match l with c :: _ => LocalIsWhitespace c = false | [] => True end ->
  skip_whitespace (w ++ l) = (bool_decide (w = []), l).
Proof.
  induction w as [|c w IH]; intros Hw Hl.
  - cbn [app]. destruct l as [|c l]; [done|]. cbn [skip_whitespace]. by rewrite Hl.
  - cbn [forallb] in Hw. apply andb_true_iff in Hw as [Hc Hw]. cbn [app skip_whitespace]. rewrite Hc, IH by done. done.
Qed.

Lemma digit_not_special base c :
  2 <= base <= 36 -> is_digit base c = true -> LocalIsWhitespace c = false /\ (c =? ch#"-") = false /\ (c =? ch#"+") = false.
Proof.
  intros Hb H. assert (48 <= c) as Hc.
  { unfold is_digit, CharToDigit in H. repeat (case_match; try done); lia. }
  unfold LocalIsWhitespace. split_and!; [|lia|lia]. apply orb_false_iff. split; [lia|]. apply andb_false_iff. lia.
Qed.

Lemma clamp_number t s v :
  traits_ok t -> (s = Negative -> is_signed t = true) -> 0 <= v ->
  (if v <=? magnitude t s then (true, sg s * v) else (false, limit t s)) =
  (in_range t (sg s * v), clamp t (sg s * v)).
Proof.
  intros Hok Hs Hv. pose proof (magnitude_pos t s Hok Hs) as HM. unfold magnitude, limit, in_range, clamp in *.
  assert (t_min t <= 0 <= t_max t) as Hb.
  { destruct Hok as [Hw _]. unfold t_min, t_max. pose proof (pow_pos (width t - 1) ltac:(lia)). pose proof (pow_pos (width t) ltac:(lia)).
    destruct (is_signed t); lia. }
  destruct s; cbn [sg] in *.
  - destruct (Z.leb_spec v (1 * t_max t)).
    + f_equal; [|lia]. symmetry. apply andb_true_iff. lia.
    + f_equal; [|lia]. symmetry. apply andb_false_iff. lia.
  - destruct (Z.leb_spec v (-1 * t_min t)).
    + f_equal; [|lia]. symmetry. apply andb_true_iff. lia.
    + f_equal; [|lia]. symmetry. apply andb_false_iff. lia.
Qed.

(** [Base::Invoke] on the digits with their prefix. *)
Lemma Base_Invoke_text t s n :
  traits_ok t -> (s = Negative -> is_signed t = true) -> nt_ok (kBase t) n = true ->
  Base_Invoke t s (nt_prefix n ++ nt_digits n ++ nt_rest n) =
    (bool_decide (nt_rest n = []) && in_range t (sg s * number (kBase t) 0 (nt_digits n)),
     clamp t (sg s * number (kBase t) 0 (nt_digits n))).
Proof.
  intros Hok Hs Hn. unfold nt_ok in Hn. rewrite !andb_true_iff in Hn. destruct Hn as (((((_ & _) & Hp) & Hne) & Hd) & Hr).
  destruct n as [sp sn px ds rest]. cbn [nt_prefix nt_digits nt_rest] in *. destruct ds as [|d ds]; [done|]. clear Hne.
  assert (ends (kBase t) rest) as Hr' by (destruct rest; [done|]; by apply negb_true_iff in Hr).
  assert (Base_Invoke t s (px ++ (d :: ds) ++ rest) = Base_loop t s true ((d :: ds) ++ rest) 0) as ->.
  { unfold Base_Invoke. destruct (kBase t =? 16) eqn:E16; cbn [andb].
    - apply orb_true_iff in Hp as [Hp|Hp].
      + apply bool_decide_eq_true in Hp as [-> | ->]; reflexivity.
      + apply andb_true_iff in Hp as [Hp Hx]. apply bool_decide_eq_true in Hp as ->. apply negb_true_iff in Hx.
        cbn [app] in *. by rewrite Hx.
    - apply bool_decide_eq_true in Hp as ->. reflexivity. }
  rewrite Base_loop_first by done. pose proof (clamp_number t s (number (kBase t) 0 (d :: ds)) Hok Hs) as Hc.
  assert (0 <= number (kBase t) 0 (d :: ds)) as H0 by (apply number_mono; [apply Hok|lia|done]).
  specialize (Hc H0). destruct (_ <=? magnitude t s); apply pair_equal_spec in Hc as [Hc1 Hc2]; rewrite <- Hc1, <- Hc2; [by rewrite andb_true_r|by rewrite andb_false_r].
Qed.

Lemma Invoke_text (t : traits) (n : number_text) (output : Z) :
  traits_ok t -> nt_ok (kBase t) n = true ->
  Invoke t (nt_bytes n) output =
    if nt_negative n && negb (is_signed t) then (false, output)
    else (bool_decide (nt_space n = []) && (bool_decide (nt_rest n = []) && in_range t (nt_value (kBase t) n)),
          clamp t (nt_value (kBase t) n)).
Proof.
  intros Hok Hn. pose proof Hn as Hn'. unfold nt_ok in Hn'. rewrite !andb_true_iff in Hn'.
  destruct Hn' as (((((Hsp & Hsg) & Hp) & Hne) & Hd) & Hr). apply bool_decide_eq_true in Hsg.
  unfold Invoke, nt_bytes, nt_value, nt_negative.
  assert (exists c l, nt_prefix n ++ nt_digits n ++ nt_rest n = c :: l /\
    LocalIsWhitespace c = false /\ (c =? ch#"-") = false /\ (c =? ch#"+") = false) as (c & l & El & Hc1 & Hc2 & Hc3).
  { destruct (nt_digits n) as [|d ds]; [done|]. cbn [forallb] in Hd. apply andb_true_iff in Hd as [Hd _].
    destruct (digit_not_special _ _ (ok_base _ Hok) Hd) as (? & ? & ?).
    destruct (kBase t =? 16); [apply orb_true_iff in Hp as [Hp|Hp]|].
    - apply bool_decide_eq_true in Hp as [-> | ->]; by eexists _, _.
    - apply andb_true_iff in Hp as [Hp _]. apply bool_decide_eq_true in Hp as ->. by exists d, (ds ++ nt_rest n).
    - apply bool_decide_eq_true in Hp as ->. by exists d, (ds ++ nt_rest n). }
  rewrite skip_whitespace_app; [|done|destruct Hsg as [-> |[-> | ->]]; [by rewrite El|done|done]].
  destruct Hsg as [E|[E|E]]; rewrite E; cbn [app].
  - rewrite El, Hc2, Hc3. rewrite <- El, (Base_Invoke_text t Positive n Hok) by done.
    rewrite (bool_decide_eq_false_2 ([] = [ch#"-"])) by done. done.
  - change (ch#"-" =? ch#"-") with true. rewrite (bool_decide_eq_true_2 ([ch#"-"] = [ch#"-"])) by done. cbn [andb].
    destruct (is_signed t) eqn:Es; cbn [negb]; [|done]. rewrite (Base_Invoke_text t Negative n Hok) by done. done.
  - change (ch#"+" =? ch#"-") with false. change (ch#"+" =? ch#"+") with true. cbn iota.
    rewrite (Base_Invoke_text t Positive n Hok) by done.
    rewrite (bool_decide_eq_false_2 ([ch#"+"] = [ch#"-"])) by done. done.
Qed.

(** A text of optional blanks, sign, prefix [0x] in base 16 and digits gives
    exactly the number it denotes, limited to the range of the result's type;
    the answer is [true] exactly when there is no blank, nothing follows the
    digits and the number is in range.  A minus sign before an unsigned number is
    refused and the output left as it is. *)
Theorem StringToNumber_exact (t : traits) (n : number_text) (output : Z) :
  traits_ok t -> nt_ok (kBase t) n = true ->
  Invoke t (nt_bytes n) output =
    if nt_negative n && negb (is_signed t) then (false, output)
    else (bool_decide (nt_space n = []) && (bool_decide (nt_rest n = []) && in_range t (nt_value (kBase t) n)),
          clamp t (nt_value (kBase t) n)).
Proof. apply Invoke_text. Qed.

Lemma StringToNumber_exact_witness :
  StringToInt str#"-2147483649x" 7 = (false, -2147483648) /\ HexStringToUInt str#" 0xfF" 7 = (false, 255) /\
  StringToUint str#"-1" 7 = (false, 7) /\ StringToInt64 str#"9223372036854775807" 7 = (true, 9223372036854775807).
Proof.
  split; [|split; [|split]].
  - exact (StringToNumber_exact (Traits true 32 10) (NumberText [] str#"-" [] str#"2147483649" str#"x") 7
      ltac:(by split) eq_refl).
  - exact (StringToNumber_exact (Traits false 32 16) (NumberText str#" " [] str#"0x" str#"fF" []) 7
      ltac:(by split) eq_refl).
  - exact (StringToNumber_exact (Traits false 32 10) (NumberText [] str#"-" [] str#"1" []) 7 ltac:(by split) eq_refl).
  - exact (StringToNumber_exact (Traits true 64 10) (NumberText [] [] [] str#"9223372036854775807" []) 7
      ltac:(by split) eq_refl).
Defined.

(** * Printing and parsing again *)
Lemma number_snoc base v ds d : number base v (ds ++ [d]) = number base v ds * base + digit base d.
Proof. unfold number. by rewrite fold_left_app. Qed.
Lemma number_app base ds : forall v ds', number base v (ds ++ ds') = number base (number base v ds) ds'.
Proof. intros. unfold number. by rewrite fold_left_app. Qed.

Lemma decimal_digit x : 0 <= x < 10 -> is_digit 10 (x + ch#"0") = true /\ digit 10 (x + ch#"0") = x.
Proof.
  intros H. unfold is_digit, digit, CharToDigit. change (10 <=? 10) with true. cbn iota.
  rewrite (proj2 (Z.leb_le _ _)) by lia. rewrite (proj2 (Z.ltb_lt _ _)) by lia. cbn. split; [done|lia].
Qed.

(** No zero is in front of other digits. *)
Definition canonical (ds : bytes) (v : Z) : Prop := if v =? 0 then ds = [ch#"0"] else exists d ds', ds = d :: ds' /\ d <> ch#"0".
(** With room for more digits than the number has, the loop writes it. *)
Lemma IntToString_loop_digits dcheck_on fuel : forall it res out k,
  0 <= res < 10 ^ Z.of_nat k -> (0 < k)%nat -> Z.of_nat k < it -> (k <= fuel)%nat ->
  exists ds, IntToString_loop dcheck_on fuel it res out = Ret (it - zlen ds, ds ++ out) /\
    forallb (is_digit 10) ds = true /\ ds <> [] /\ number 10 0 ds = res /\ zlen ds <= Z.of_nat k /\ canonical ds res.
Proof.
  induction fuel as [|fuel IH]; intros it res out k Hres Hk Hit Hf; [lia|]. cbn [IntToString_loop].
  rewrite DCHECK_true by lia. unfold guard_or. rewrite (proj2 (Z.leb_le _ _)) by lia.
  pose proof (Z.mod_pos_bound res 10 ltac:(lia)) as Hm. pose proof (Z.div_mod res 10 ltac:(lia)) as Hdm.
  destruct (decimal_digit (res mod 10) Hm) as [Hd1 Hd2]. rewrite uwrap_small by powlia.
  destruct (Z.eqb_spec (res / 10) 0) as [Hz|Hz].
  - exists [res mod 10 + ch#"0"]. split; [done|]. cbn [forallb]. rewrite Hd1. split_and!; [done|done| |unfold zlen; cbn; lia|].
    + unfold number. cbn [fold_left]. rewrite Hd2. lia.
    + unfold canonical. destruct (Z.eqb_spec res 0) as [-> |]; [done|]. eexists _, []. split; [done|lia].
  - assert (0 <= res / 10) by (apply Z.div_pos; lia).
    destruct k as [|k]; [lia|]. rewrite Nat2Z.inj_succ, Z.pow_succ_r in Hres by lia.
    assert (res / 10 < 10 ^ Z.of_nat k) by (apply Z.div_lt_upper_bound; lia).
    destruct k as [|k]; [cbn in *; lia|].
    destruct (IH (it - 1) (res / 10) ((res mod 10 + ch#"0") :: out) (S k)) as (ds & E & H1 & H2 & H3 & H4 & H5); [lia..|].
    exists (ds ++ [res mod 10 + ch#"0"]). rewrite E, zlen_app, <- app_assoc. change (zlen [_]) with 1. cbn [app].
    split; [f_equal; f_equal; lia|]. rewrite forallb_app, H1. cbn [forallb]. rewrite Hd1. split_and!; [done|by destruct ds| |lia|].
    + rewrite number_snoc, Hd2, H3. lia.
    + unfold canonical in *. destruct (Z.eqb_spec (res / 10) 0); [lia|]. destruct (Z.eqb_spec res 0) as [-> |]; [done|].
      destruct H5 as (d & ds' & -> & Hd). by eexists _, _.
Qed.

(** The text a number is printed as. *)
Lemma IntToStringT_text dcheck_on w neg v :
  w = 32 \/ w = 64 -> in_range (Traits neg w 10) v = true ->
  exists ds, IntToStringT dcheck_on w neg v = Ret ((if v <? 0 then [ch#"-"] else []) ++ ds) /\
    forallb (is_digit 10) ds = true /\ ds <> [] /\ number 10 0 ds = Z.abs v /\ canonical ds (Z.abs v).
Proof.
  intros Hw Hv. unfold in_range, t_min, t_max in Hv. cbn [is_signed width] in Hv. apply andb_true_iff in Hv as [Hv1 Hv2].
  apply Z.leb_le in Hv1, Hv2.
  set (k := if w =? 32 then 10%nat else 20%nat).
  assert (Z.abs v < 10 ^ Z.of_nat k /\ Z.abs v < 2 ^ w /\ (v < 0 -> neg = true)) as (Hk & Hu & Hneg).
  { destruct Hw as [-> | ->], neg; change (Z.of_nat k) with 10 || change (Z.of_nat k) with 20; split_and!; powlia || (intros; powlia) || done. }
  unfold IntToStringT. cbn zeta.
  assert ((if neg && (v <? 0) then - v else v) = Z.abs v) as ->.
  { destruct (Z.ltb_spec v 0); [rewrite Hneg by done; cbn; lia|rewrite andb_false_r; lia]. }
  rewrite uwrap_small by lia.
  destruct (IntToString_loop_digits dcheck_on (Z.to_nat (3 * (w / 8) + 1)) (3 * (w / 8) + 1) (Z.abs v) [] k) as (ds & E & H1 & H2 & H3 & H4 & H5).
  { lia. } { unfold k. destruct (w =? 32); lia. } { unfold k. by destruct Hw as [-> | ->]. } { unfold k. destruct Hw as [-> | ->]; vm_compute; lia. }
  exists ds. rewrite E. obind. rewrite app_nil_r. split; [|done].
  assert (3 * (w / 8) + 1 - zlen ds - 1 >= 1) as Hroom.
  { unfold k in H4. destruct Hw as [-> | ->]; [change (3 * (32 / 8) + 1) with 13; cbn in H4|change (3 * (64 / 8) + 1) with 25; cbn in H4]; lia. }
  destruct (Z.ltb_spec v 0).
  - rewrite Hneg by done. cbn [andb]. rewrite DCHECK_true by lia. unfold guard_or. by rewrite (proj2 (Z.leb_le _ _)) by lia.
  - by rewrite andb_false_r.
Qed.

(** Printing never leaves the buffer of [IntToStringT] nor fails its
    [DCHECK]s, and parsing what was printed gives the number back, for every
    integer type the file instantiates and every value of it, the least one
    included. *)
Theorem IntToString_roundtrip (dcheck_on : bool) (w : Z) (neg : bool) (v output : Z) :
  w = 32 \/ w = 64 -> in_range (Traits neg w 10) v = true ->
  exists s, IntToStringT dcheck_on w neg v = Ret s /\ Invoke (Traits neg w 10) s output = (true, v).
Proof.
  intros Hw Hv. destruct (IntToStringT_text dcheck_on w neg v Hw Hv) as (ds & E & H1 & H2 & H3 & _).
  eexists. split; [exact E|]. set (t := Traits neg w 10) in *.
  set (n := NumberText [] (if v <? 0 then [ch#"-"] else []) [] ds []).
  assert (nt_negative n = (v <? 0)) as Hneg by (unfold nt_negative, n; cbn [nt_sign]; by destruct (v <? 0)).
  assert (v < 0 -> neg = true) as Hneg'.
  { intros. unfold in_range, t, t_min in Hv. cbn [is_signed] in Hv. destruct neg; [done|]. apply andb_true_iff in Hv as [Hv _]. lia. }
  assert (nt_value 10 n = v) as Hval.
  { unfold nt_value. rewrite Hneg. cbn [n nt_digits]. rewrite H3. destruct (Z.ltb_spec v 0); lia. }
  replace ((if v <? 0 then [ch#"-"] else []) ++ ds) with (nt_bytes n) by (unfold nt_bytes, n; cbn; by rewrite app_nil_r).
  assert (traits_ok t) as Ht by (split; cbn; destruct Hw as [-> | ->]; lia).
  rewrite (Invoke_text t n output Ht).
  2: { unfold nt_ok. cbn. rewrite H1. destruct ds; [done|]. by destruct (v <? 0). }
  change (kBase t) with 10. rewrite Hval, Hneg. destruct (Z.ltb_spec v 0) as [Hlt|].
  - cbn [is_signed t]. rewrite (Hneg' Hlt). cbn [andb negb].
    unfold clamp. rewrite Hv. f_equal. unfold in_range in Hv. apply andb_true_iff in Hv. lia.
  - cbn [andb]. unfold clamp. rewrite Hv. f_equal. unfold in_range in Hv. apply andb_true_iff in Hv. lia.
Qed.

Lemma IntToString_roundtrip_witness :
  exists s, IntToStringT true 64 true (-9223372036854775808) = Ret s /\
    Invoke (Traits true 64 10) s 0 = (true, -9223372036854775808).
Proof. exact (IntToString_roundtrip true 64 true (-9223372036854775808) 0 (or_intror eq_refl) eq_refl). Defined.

(** * Hexadecimal *)
Lemma hex_digits_of_byte b :
  is_byte b -> CharToDigit 16 (znth kHexChars (Z.land (Z.shiftr b 4) 15)) = Some (Z.shiftr b 4) /\
    CharToDigit 16 (znth kHexChars (Z.land b 15)) = Some (Z.land b 15) /\
    u8 (Z.lor (Z.shiftl (Z.shiftr b 4) 4) (Z.land b 15)) = b.
Proof.
  intros Hb. set (P := fun b =>
    bool_decide (CharToDigit 16 (znth kHexChars (Z.land (Z.shiftr b 4) 15)) = Some (Z.shiftr b 4)) &&
    (bool_decide (CharToDigit 16 (znth kHexChars (Z.land b 15)) = Some (Z.land b 15)) &&
     (u8 (Z.lor (Z.shiftl (Z.shiftr b 4) 4) (Z.land b 15)) =? b))).
  assert (P b = true) as H by (apply byte_check; [vm_compute; reflexivity|done]). unfold P in H.
  apply andb_true_iff in H as [H1 H]. apply andb_true_iff in H as [H2 H3].
  apply bool_decide_eq_true in H1, H2. by apply Z.eqb_eq in H3.
Qed.

Lemma HexStringToBytes_loop_encode l : forall out,
  all_bytes l -> HexStringToBytes_loop (HexEncode l) out = (true, out ++ l).
Proof.
  induction l as [|b l IH]; intros out Hl; [by rewrite app_nil_r|]. apply Forall_cons_iff in Hl as [Hb Hl].
  destruct (hex_digits_of_byte b Hb) as (E1 & E2 & E3).
  change (HexEncode (b :: l)) with (znth kHexChars (Z.land (Z.shiftr b 4) 15) :: znth kHexChars (Z.land b 15) :: HexEncode l).
  cbn [HexStringToBytes_loop]. rewrite E1, E2, E3, IH by done. by rewrite <- app_assoc.
Qed.

Lemma zlen_HexEncode l : zlen (HexEncode l) = 2 * zlen l.
Proof.
  induction l as [|b l IH]; [done|]. rewrite zlen_cons. unfold HexEncode in *. cbn [map concat]. rewrite zlen_app, IH.
  change (zlen [_; _]) with 2. lia.
Qed.

(** Bytes written in hexadecimal come back from [HexStringToBytes], except
    that no bytes at all do not: the empty string is refused. *)
Theorem HexEncode_roundtrip (dcheck_on : bool) (l : bytes) :
  all_bytes l -> HexStringToBytes dcheck_on (HexEncode l) [] = Ret (negb (bool_decide (l = [])), l).
Proof.
  intros Hl. unfold HexStringToBytes. rewrite DCHECK_true by done. rewrite zlen_HexEncode.
  destruct (decide (l = [])) as [->|Hne]; [done|]. rewrite bool_decide_eq_false_2 by done.
  assert (0 < zlen l) by (destruct l; [done|rewrite zlen_cons; pose proof (zlen_nonneg l); lia]).
  rewrite (proj2 (Z.eqb_neq _ _)) by lia. rewrite Z.mul_comm, Z_mod_mult. cbn. by rewrite HexStringToBytes_loop_encode.
Qed.

Lemma HexEncode_roundtrip_witness :
  HexEncode [0; 175; 255] = str#"00AFFF" /\ HexStringToBytes true (HexEncode [0; 175; 255]) [] = Ret (true, [0; 175; 255]).
Proof. split; [reflexivity|]. exact (HexEncode_roundtrip true [0; 175; 255] ltac:(repeat constructor; done)). Defined.
