(* ===== verification/Strings.v ===== *)
(** Strings, [zutils/base/strings/string_util.{h,cc}] and [string_split.cc], the
    instances for [std::string]: a string is the list of its bytes.  The UTF-8
    functions, which walk a string by a third-party decoder, are left out, but
    the pattern matcher takes the decoder as a parameter, as its template does. *)
From Stdlib Require Import ZArith Lia Bool Ascii String.
From stdpp Require Import base list numbers strings.
From S2P Require Import Prelude.

Open Scope Z_scope.

(** * What the code uses of [std::string] and the C library *)
Definition is_in (set : bytes) (c : Z) : bool := existsb (Z.eqb c) set.

(** The offset, from [off] on, of the first character with [p]; [None] is [npos]. *)
Fixpoint find_if (p : Z -> bool) (l : bytes) (off : Z) : option Z :=
  match l with
  | [] => None
  | c :: l => if p c then Some off else find_if p l (off + 1)
  end.
Definition find_from (p : Z -> bool) (s : bytes) (pos : Z) : option Z := find_if p (drop (Z.to_nat pos) s) pos.
Definition find_first_of (s set : bytes) (pos : Z) : option Z := find_from (is_in set) s pos.
Definition find_first_not_of (s set : bytes) (pos : Z) : option Z := find_from (fun c => negb (is_in set c)) s pos.
Fixpoint find_last_if (p : Z -> bool) (l : bytes) (off : Z) : option Z :=
  match l with
  | [] => None
  | c :: l => match find_last_if p l (off + 1) with Some i => Some i | None => if p c then Some off else None end
  end.
Definition find_last_not_of (s set : bytes) : option Z := find_last_if (fun c => negb (is_in set c)) s 0.
Definition substr (s : bytes) (pos n : Z) : bytes := zslice pos n s.
Definition substr_from (s : bytes) (pos : Z) : bytes := drop (Z.to_nat pos) s.
(** [s.replace(pos, n, with)] *)
Definition replace (s : bytes) (pos n : Z) (w : bytes) : bytes :=
  take (Z.to_nat pos) s ++ w ++ drop (Z.to_nat (pos + n)) s.
Fixpoint is_prefix (a l : bytes) : bool :=
  match a, l with
  | [], _ => true
  | x :: a, y :: l => (x =? y) && is_prefix a l
  | _, [] => false
  end.
(** [s.find(a, pos)] *)
Fixpoint find_if_at (a l : bytes) (off : Z) : option Z :=
  if is_prefix a l then Some off
  else match l with [] => None | _ :: l => find_if_at a l (off + 1) end.
Definition find (s a : bytes) (pos : Z) : option Z :=
  if zlen s <? pos then None else find_if_at a (drop (Z.to_nat pos) s) pos.
(** [tolower] of the C locale. *)
Definition tolower (c : Z) : Z := if (ch#"A" <=? c) && (c <=? ch#"Z") then c + 32 else c.

(** * Characters *)
Definition ToLowerASCII (c : Z) : Z := if (ch#"A" <=? c) && (c <=? ch#"Z") then c + (ch#"a" - ch#"A") else c.
Definition ToUpperASCII (c : Z) : Z := if (ch#"a" <=? c) && (c <=? ch#"z") then c + (ch#"A" - ch#"a") else c.
Definition CaseInsensitiveCompare (x y : Z) : bool := tolower x =? tolower y.
Definition CaseInsensitiveCompareASCII (x y : Z) : bool := ToLowerASCII x =? ToLowerASCII y.
Definition StringToLowerASCII (s : bytes) : bytes := map ToLowerASCII s.
Definition StringToUpperASCII (s : bytes) : bytes := map ToUpperASCII s.
Definition IsAsciiWhitespace (c : Z) : bool := (c =? 32) || (c =? 13) || (c =? 10) || (c =? 9).
Definition IsAsciiAlpha (c : Z) : bool := ((ch#"A" <=? c) && (c <=? ch#"Z")) || ((ch#"a" <=? c) && (c <=? ch#"z")).
Definition IsAsciiDigit (c : Z) : bool := (ch#"0" <=? c) && (c <=? ch#"9").
Definition IsHexDigit (c : Z) : bool :=
  ((ch#"0" <=? c) && (c <=? ch#"9")) || ((ch#"A" <=? c) && (c <=? ch#"F")) || ((ch#"a" <=? c) && (c <=? ch#"f")).
Definition HexDigitToInt (dcheck_on : bool) (c : Z) : outcome Z :=
  DCHECK dcheck_on (IsHexDigit c) (
    Ret (if (ch#"0" <=? c) && (c <=? ch#"9") then c - ch#"0"
         else if (ch#"A" <=? c) && (c <=? ch#"F") then c - ch#"A" + 10
         else if (ch#"a" <=? c) && (c <=? ch#"f") then c - ch#"a" + 10
         else 0)).

Definition kWhitespaceASCII : bytes := [9; 10; 11; 12; 13; 32].
Definition kWhitespaceWide : list Z :=
  [9; 10; 11; 12; 13; 32; 133; 160; 5760; 8192; 8193; 8194; 8195; 8196; 8197; 8198; 8199; 8200; 8201; 8202; 8232; 8233;
   8239; 8287; 12288].
(** [IsWhitespace]: [wcschr] finds the terminator too. *)
Definition IsWhitespace (c : Z) : bool := (c =? 0) || is_in kWhitespaceWide c.

(** * Replacing and removing *)

(** The loop of [ReplaceCharsT]. *)
Fixpoint ReplaceChars_loop (fuel : nat) (replace_chars replace_with : bytes) (found : option Z) (removed : bool)
    (output : bytes) : outcome (bool * bytes) :=
  match found with
  | None => Ret (removed, output)
  | Some f =>
      match fuel with
      | O => Fault OutOfFuel
      | S fuel =>
          let output := replace output f 1 replace_with in
          ReplaceChars_loop fuel replace_chars replace_with
            (find_first_of output replace_chars (f + zlen replace_with)) true output
      end
  end.
(** [ReplaceCharsT] *)
Definition ReplaceChars (input replace_chars replace_with : bytes) : outcome (bool * bytes) :=
  ReplaceChars_loop (length input) replace_chars replace_with (find_first_of input replace_chars 0) false input.
Definition RemoveChars (input remove_chars : bytes) : outcome (bool * bytes) := ReplaceChars input remove_chars [].

(** * Trimming *)
Definition TRIM_NONE : Z := 0.
Definition TRIM_LEADING : Z := 1.
Definition TRIM_TRAILING : Z := 2.
Definition TRIM_ALL : Z := Z.lor TRIM_LEADING TRIM_TRAILING.

(** [TrimStringT]: where it trimmed, and the output. *)
Definition TrimStringT (input trim_chars : bytes) (positions : Z) : Z * bytes :=
  let last_char := u64 (zlen input - 1) in
  let first_good_char :=
    if negb (Z.land positions TRIM_LEADING =? 0) then find_first_not_of input trim_chars 0 else Some 0 in
  let last_good_char :=
    if negb (Z.land positions TRIM_TRAILING =? 0) then find_last_not_of input trim_chars else Some last_char in
  match input, first_good_char, last_good_char with
  | _ :: _, Some first_good_char, Some last_good_char =>
      (Z.lor (if first_good_char =? 0 then TRIM_NONE else TRIM_LEADING)
             (if last_good_char =? last_char then TRIM_NONE else TRIM_TRAILING),
       substr input first_good_char (u64 (last_good_char - first_good_char + 1)))
  | [], _, _ => (TRIM_NONE, [])
  | _, _, _ => (positions, [])
  end.
Definition TrimString (input trim_chars : bytes) : bool * bytes :=
  let '(r, output) := TrimStringT input trim_chars TRIM_ALL in (negb (r =? TRIM_NONE), output).
Definition TrimWhitespaceASCII (input : bytes) (positions : Z) : Z * bytes :=
  TrimStringT input kWhitespaceASCII positions.
Definition TrimWhitespace (input : bytes) (positions : Z) : Z * bytes := TrimWhitespaceASCII input positions.

(** One round of [CollapseWhitespaceT]: [result] is the part of the output that
    is written, [size] its allocated length.  A [char] is widened with its sign. *)
Definition collapse_put (size c : Z) (result : bytes) : outcome bytes :=
  guard_or (zlen result <? size) OutOfBounds (Ret (result ++ [c])).
Definition collapse_back (result : bytes) : outcome bytes :=
  match result with [] => Fault OutOfBounds | _ => Ret (removelast result) end.
Definition collapse_step (size : Z) (breaks : bool) (c : Z) (st : bool * bool * bytes) : outcome (bool * bool * bytes) :=
  let '(in_whitespace, already_trimmed, result) := st in
  if IsWhitespace (u32 (s8 c)) then
    result ← (if negb in_whitespace then collapse_put size 32 result else Ret result);
    if breaks && negb already_trimmed && ((c =? 10) || (c =? 13)) then
      result ← collapse_back result; Ret (true, true, result)
    else Ret (true, already_trimmed, result)
  else result ← collapse_put size c result; Ret (false, false, result).
Fixpoint collapse_loop (size : Z) (breaks : bool) (l : bytes) (st : bool * bool * bytes) : outcome (bool * bool * bytes) :=
  match l with
  | [] => Ret st
  | c :: l => st ← collapse_step size breaks c st; collapse_loop size breaks l st
  end.
(** [CollapseWhitespaceT] *)
Definition CollapseWhitespaceASCII (text : bytes) (trim_sequences_with_line_breaks : bool) : outcome bytes :=
  '(in_whitespace, already_trimmed, result) ←
    collapse_loop (zlen text) trim_sequences_with_line_breaks text (true, true, []);
  if in_whitespace && negb already_trimmed then collapse_back result else Ret result.

(** * Tests *)
Definition ContainsOnlyChars (input characters : bytes) : bool :=
  match find_first_not_of input characters 0 with None => true | Some _ => false end.
Fixpoint IsStringASCII (str : bytes) : bool :=
  match str with [] => true | c :: str => if 0x7F <? u8 c then false else IsStringASCII str end.

(** [DoLowerCaseEqualsASCII]; [b] is a C string, without its terminator. *)
Fixpoint LowerCaseEqualsASCII (a b : bytes) : bool :=
  match a, b with
  | [], [] => true
  | [], _ :: _ => false
  | _ :: _, [] => false
  | x :: a, y :: b => if negb (ToLowerASCII x =? y) then false else LowerCaseEqualsASCII a b
  end.

(** [strncasecmp(a, b, n) == 0] on the C strings of [a] and [b]. *)
Fixpoint strncasecmp_eq (a b : bytes) (n : nat) : bool :=
  match n with
  | O => true
  | S n =>
      match a, b with
      | x :: a, y :: b => (tolower x =? tolower y) && ((x =? 0) || strncasecmp_eq a b n)
      | [], [] => true
      | x :: _, [] => x =? 0
      | [], y :: _ => y =? 0
      end
  end.
(** [StartsWithASCII]: [compare] takes at most the length of [search]. *)
Definition StartsWithASCII (str search : bytes) (case_sensitive : bool) : bool :=
  if case_sensitive then bool_decide (take (length search) str = search)
  else strncasecmp_eq str search (length search).

(** [EndsWithT] *)
Definition EndsWith (str search : bytes) (case_sensitive : bool) : bool :=
  let str_length := zlen str in
  let search_length := zlen search in
  if str_length <? search_length then false
  else
    let tail := substr str (str_length - search_length) search_length in
    if case_sensitive then bool_decide (tail = search)
    else forallb (fun '(x, y) => CaseInsensitiveCompare x y) (combine search tail).

(** * Substrings *)

(** The loop of [DoReplaceSubstringsAfterOffset]. *)
Fixpoint DoReplace_loop (fuel : nat) (str find_this replace_with : bytes) (replace_all : bool) (offs : option Z) : outcome bytes :=
  match offs with
  | None => Ret str
  | Some offs =>
      match fuel with
      | O => Fault OutOfFuel
      | S fuel =>
          let str := replace str offs (zlen find_this) replace_with in
          let offs := offs + zlen replace_with in
          if negb replace_all then Ret str
          else DoReplace_loop fuel str find_this replace_with replace_all (find str find_this offs)
      end
  end.
Definition DoReplaceSubstringsAfterOffset (dcheck_on : bool) (str : bytes) (start_offset : Z) (find_this replace_with : bytes)
    (replace_all : bool) : outcome bytes :=
  if zlen str <=? start_offset then Ret str
  else DCHECK dcheck_on (negb (bool_decide (find_this = [])))
    (DoReplace_loop (S (length str)) str find_this replace_with replace_all (find str find_this start_offset)).

(** The loop of [TokenizeT]. *)
Fixpoint Tokenize_loop (fuel : nat) (str delimiters : bytes) (start : option Z) (tokens : list bytes) : outcome (list bytes) :=
  match start with
  | None => Ret tokens
  | Some start =>
      match fuel with
      | O => Fault OutOfFuel
      | S fuel =>
          match find_first_of str delimiters (start + 1) with
          | None => Ret (tokens ++ [substr_from str start])
          | Some end_ =>
              Tokenize_loop fuel str delimiters (find_first_not_of str delimiters (end_ + 1))
                (tokens ++ [substr str start (end_ - start)])
          end
      end
  end.
(** [TokenizeT]: the tokens; their number is what the function returns. *)
Definition Tokenize (str delimiters : bytes) : outcome (list bytes) :=
  Tokenize_loop (S (length str)) str delimiters (find_first_not_of str delimiters 0) [].

(** [JoinStringT] *)
Definition JoinString (parts : list bytes) (sep : bytes) : bytes :=
  match parts with
  | [] => []
  | p :: parts => fold_left (fun result part => (result ++ sep) ++ part) parts p
  end.

(** [std::lower_bound] by [CompareParameter], and the insertion there. *)
Fixpoint insert_offset (r : Z * Z) (l : list (Z * Z)) : list (Z * Z) :=
  match l with
  | [] => [r]
  | x :: k => if fst x <? fst r then x :: insert_offset r k else r :: l
  end.

Fixpoint dollars (l : bytes) : nat * bytes :=
  match l with
  | c :: k => if c =? ch#"$" then let '(n, k) := dollars k in (S n, k) else (O, l)
  | [] => (O, [])
  end.
(** The digits of a placeholder: [index] is an unsigned machine word. *)
Fixpoint placeholder_index (l : bytes) (index : Z) : Z * bytes :=
  match l with
  | c :: k => if (ch#"0" <=? c) && (c <=? ch#"9") then placeholder_index k (u64 (u64 (index * 10) + (c - ch#"0"))) else (index, l)
  | [] => (index, [])
  end.

(** The loop of [DoReplaceStringPlaceholders] over what is left of the format. *)
Fixpoint placeholders_loop (dcheck_on : bool) (fuel : nat) (l : bytes) (subst : list bytes) (formatted : bytes)
    (r_offsets : list (Z * Z)) : outcome (bytes * list (Z * Z)) :=
  match l with
  | [] => Ret (formatted, r_offsets)
  | c :: k =>
      match fuel with
      | O => Fault OutOfFuel
      | S fuel =>
          if c =? ch#"$" then
            match k with
            | [] => Ret (formatted, r_offsets)
            | d :: _ =>
                DCHECK dcheck_on ((d =? ch#"$") || (ch#"1" <=? s8 d)) (
                if d =? ch#"$" then
                  let '(n, k) := dollars k in
                  placeholders_loop dcheck_on fuel k subst (formatted ++ replicate n ch#"$") r_offsets
                else
                  let '(index, k) := placeholder_index k 0 in
                  let index := u64 (index - 1) in
                  placeholders_loop dcheck_on fuel k subst
                    (if index <? zlen subst then formatted ++ default [] (subst !! Z.to_nat index) else formatted)
                    (insert_offset (index, s32 (zlen formatted)) r_offsets))
            end
          else placeholders_loop dcheck_on fuel k subst (formatted ++ [c]) r_offsets
      end
  end.
(** [DoReplaceStringPlaceholders], with a vector for the offsets. *)
Definition ReplaceStringPlaceholders (dcheck_on : bool) (format_string : bytes) (subst : list bytes) : outcome (bytes * list Z) :=
  '(formatted, r_offsets) ← placeholders_loop dcheck_on (length format_string) format_string subst [] [];
  Ret (formatted, map snd r_offsets).

(** * Patterns *)
Section Patterns.
(** [NEXT]: the code point at the front of a string that is not empty, and what
    is behind it. *)
Context (next : bytes -> Z * bytes).
Definition CBU_SENTINEL : Z := -1.
Definition IsWildcard (c : Z) : bool := (c =? ch#"*") || (c =? ch#"?").

(** [EatSameChars]; [escape] is the pattern at the pending backslash. *)
Fixpoint EatSameChars (fuel : nat) (pattern string : bytes) (escape : option bytes) : outcome (bytes * bytes) :=
  match fuel with
  | O => Fault OutOfFuel
  | S fuel =>
      match pattern, string with
      | p :: _, _ :: _ =>
          if (if escape is Some _ then false else true) && IsWildcard p then Ret (pattern, string)
          else if (if escape is Some _ then false else true) && (p =? ch#"\") then
            EatSameChars fuel (snd (next pattern)) string (Some pattern)
          else
            let '(pattern_char, pattern_next) := next pattern in
            let '(string_char, string_next) := next string in
            if (pattern_char =? string_char) && negb (pattern_char =? CBU_SENTINEL) then
              EatSameChars fuel pattern_next string_next None
            else Ret (default pattern escape, string)
      | _, _ => Ret (pattern, string)
      end
  end.

(** [EatWildcard] *)
Fixpoint EatWildcard (fuel : nat) (pattern : bytes) : outcome bytes :=
  match pattern with
  | [] => Ret []
  | p :: _ =>
      match fuel with
      | O => Fault OutOfFuel
      | S fuel => if negb (IsWildcard p) then Ret pattern else EatWildcard fuel (snd (next pattern))
      end
  end.

Definition kMaxDepth : Z := 16.

(** [MatchPatternT]; [levels] is the fuel of the recursion, which [depth] bounds. *)
Fixpoint MatchPatternT (levels : nat) (eval pattern : bytes) (depth : Z) : outcome bool :=
  match levels with
  | O => Fault OutOfFuel
  | S levels =>
      if kMaxDepth <? depth then Ret false
      else
        '(pattern, eval) ← EatSameChars (S (length pattern)) pattern eval None;
        match eval, pattern with
        | [], _ => rest ← EatWildcard (length pattern) pattern; Ret (bool_decide (rest = []))
        | _, [] => Ret false
        | _ :: _, p :: _ =>
            let next_pattern := snd (next pattern) in
            found ← (if p =? ch#"?" then
                       b ← MatchPatternT levels eval next_pattern (depth + 1);
                       if b : bool then Ret true else MatchPatternT levels (snd (next eval)) next_pattern (depth + 1)
                     else Ret false);
            if found : bool then Ret true
            else if p =? ch#"*" then
              next_pattern ← EatWildcard (length pattern) next_pattern;
              (fix tails (eval : bytes) : outcome bool :=
                 match eval with
                 | [] => rest ← EatWildcard (length pattern) pattern; Ret (bool_decide (rest = []))
                 | _ :: eval' =>
                     b ← MatchPatternT levels eval next_pattern (depth + 1);
                     if b : bool then Ret true else tails eval'
                 end) eval
            else Ret false
        end
  end.
Definition MatchPattern (eval pattern : bytes) : outcome bool := MatchPatternT 18 eval pattern 0.
End Patterns.

(** * [strlcpy] *)

(** The first loop of [lcpyT]: [None] when it runs off [dst_size]. *)
Fixpoint lcpy_loop (n : nat) (i : Z) (dst src : bytes) : outcome (option Z * bytes) :=
  match n with
  | O => Ret (None, dst)
  | S n =>
      c ← mem_read src i 1;
      dst ← mem_write dst i c;
      if znth c 0 =? 0 then Ret (Some i, dst) else lcpy_loop n (i + 1) dst src
  end.
(** [while (src[dst_size]) ++dst_size;] *)
Fixpoint lcpy_rest (fuel : nat) (src : bytes) (i : Z) : outcome Z :=
  match fuel with
  | O => Fault OutOfFuel
  | S fuel => c ← mem_read src i 1; if znth c 0 =? 0 then Ret i else lcpy_rest fuel src (i + 1)
  end.
(** [lcpyT]: [dst] is the whole block behind the pointer. *)
Definition lcpyT (dst src : bytes) (dst_size : Z) : outcome (Z * bytes) :=
  '(stop, dst) ← lcpy_loop (Z.to_nat dst_size) 0 dst src;
  match stop with
  | Some i => Ret (i, dst)
  | None =>
      dst ← (if negb (dst_size =? 0) then mem_write dst (dst_size - 1) [0] else Ret dst);
      n ← lcpy_rest (S (length src)) src dst_size;
      Ret (n, dst)
  end.

(** * Splitting *)

(** [SplitStringT]: the loop over [i], at [i] = offset of the list's head. *)
Fixpoint SplitString_loop (str : bytes) (s : Z) (trim_whitespace : bool) (l : bytes) (i last : Z) (r : list bytes) : list bytes :=
  let cut :=
    let tmp := substr str last (i - last) in
    let tmp := if trim_whitespace then snd (TrimWhitespace tmp TRIM_ALL) else tmp in
    if negb (i =? zlen str) || negb (bool_decide (r = [])) || negb (bool_decide (tmp = [])) then r ++ [tmp] else r in
  match l with
  | [] => cut
  | c :: l => if c =? s then SplitString_loop str s trim_whitespace l (i + 1) (i + 1) cut
              else SplitString_loop str s trim_whitespace l (i + 1) last r
  end.
Definition SplitStringT (str : bytes) (s : Z) (trim_whitespace : bool) : list bytes :=
  SplitString_loop str s trim_whitespace str 0 0 [].
(** [SplitString]; [c] is a [char], negative from 128 up. *)
Definition SplitString (dcheck_on : bool) (str : bytes) (c : Z) : outcome (list bytes) :=
  DCHECK dcheck_on (0 <=? s8 c) (DCHECK dcheck_on (s8 c <? 0x7F) (Ret (SplitStringT str c true))).
(** [SplitStringDontTrim], where its argument is UTF-8 as it checks. *)
Definition SplitStringDontTrim (dcheck_on : bool) (str : bytes) (c : Z) : outcome (list bytes) :=
  DCHECK dcheck_on (0 <=? s8 c) (DCHECK dcheck_on (s8 c <? 0x7F) (Ret (SplitStringT str c false))).

(** [SplitStringIntoKeyValue] *)
Definition SplitStringIntoKeyValue (line : bytes) (key_value_delimiter : Z) : bool * bytes * bytes :=
  match find_first_of line [key_value_delimiter] 0 with
  | None => (false, [], [])
  | Some end_key_pos =>
      let key := substr line 0 end_key_pos in
      let remains := substr line end_key_pos (zlen line - end_key_pos) in
      match find_first_not_of remains [key_value_delimiter] 0 with
      | None => (false, key, [])
      | Some begin_value_pos => (true, key, substr remains begin_value_pos (zlen remains - begin_value_pos))
      end
  end.
(** [SplitStringIntoKeyValuePairs] *)
Definition SplitStringIntoKeyValuePairs (dcheck_on : bool) (line : bytes) (key_value_delimiter key_value_pair_delimiter : Z)
    : outcome (bool * list (bytes * bytes)) :=
  pairs ← SplitString dcheck_on line key_value_pair_delimiter;
  Ret (fold_left (fun '(success, key_value_pairs) pair =>
         if bool_decide (pair = []) then (success, key_value_pairs)
         else
           let '(b, key, value) := SplitStringIntoKeyValue pair key_value_delimiter in
           (success && b, key_value_pairs ++ [(key, value)])) pairs (true, [])).

(** The loop of [SplitStringUsingSubstrT]; an empty [s] is found for ever. *)
Fixpoint SplitSubstr_loop (fuel : nat) (str s : bytes) (begin_index : Z) (r : list bytes) : outcome (list bytes) :=
  match fuel with
  | O => Fault OutOfFuel
  | S fuel =>
      match find str s begin_index with
      | None => Ret (r ++ [snd (TrimWhitespace (substr_from str begin_index) TRIM_ALL)])
      | Some end_index =>
          SplitSubstr_loop fuel str s (end_index + zlen s)
            (r ++ [snd (TrimWhitespace (substr str begin_index (end_index - begin_index)) TRIM_ALL)])
      end
  end.
Definition SplitStringUsingSubstr (fuel : nat) (str s : bytes) : outcome (list bytes) := SplitSubstr_loop fuel str s 0 [].

(** The loop of [SplitStringAlongWhitespaceT]. *)
Fixpoint along_whitespace_loop (str l : bytes) (i : Z) (last_was_ws : bool) (last_non_ws_start : Z) (result : list bytes)
    : list bytes :=
  match l with
  | [] => if last_was_ws then result else result ++ [substr str last_non_ws_start (zlen str - last_non_ws_start)]
  | c :: l =>
      if is_in kWhitespaceASCII c then
        if last_was_ws then along_whitespace_loop str l (i + 1) true last_non_ws_start result
        else along_whitespace_loop str l (i + 1) true last_non_ws_start
               (if 0 <? i then result ++ [substr str last_non_ws_start (i - last_non_ws_start)] else result)
      else along_whitespace_loop str l (i + 1) false (if last_was_ws then i else last_non_ws_start) result
  end.
Definition SplitStringAlongWhitespace (str : bytes) : list bytes :=
  match str with [] => [] | _ => along_whitespace_loop str str 0 false 0 [] end.
