(* ===== verification/StringsProofs.v ===== *)
(** What the string functions compute: the four ways to cut a string into words
    agree with one definition, trimming, splitting and joining, replacing
    characters and placeholders, and the bounds of [strlcpy]. *)
From Stdlib Require Import ZArith Lia Bool Ascii String.
From stdpp Require Import base list numbers strings.
From S2P Require Import Prelude Strings.

Open Scope Z_scope.

(** * Searching *)
Lemma find_if_spec p l : forall off,
  match find_if p l off with
  | Some i => exists a c b, l = a ++ c :: b /\ forallb (fun x => negb (p x)) a = true /\ p c = true /\ i = off + zlen a
  | None => forallb (fun x => negb (p x)) l = true
  end.
Proof.
  induction l as [|c l IH]; intros off; cbn [find_if]; [done|]. destruct (p c) eqn:Hc.
  - exists [], c, l. split_and!; [done..|]. change (zlen (@nil Z)) with 0. lia.
  - specialize (IH (off + 1)). destruct (find_if p l (off + 1)) as [i|].
    + destruct IH as (a & x & b & -> & Ha & Hx & ->). exists (c :: a), x, b. cbn [app forallb]. rewrite Hc, zlen_cons.
      split_and!; [done..|lia].
    + cbn [forallb]. by rewrite Hc.
Qed.

Lemma find_last_if_spec p l : forall off,
  match find_last_if p l off with
  | Some i => exists a c b, l = a ++ c :: b /\ forallb (fun x => negb (p x)) b = true /\ p c = true /\ i = off + zlen a
  | None => forallb (fun x => negb (p x)) l = true
  end.
Proof.
  induction l as [|c l IH]; intros off; cbn [find_last_if]; [done|]. specialize (IH (off + 1)).
  destruct (find_last_if p l (off + 1)) as [i|].
  - destruct IH as (a & x & b & -> & Hb & Hx & ->). exists (c :: a), x, b. rewrite zlen_cons. split_and!; [done..|lia].
  - destruct (p c) eqn:Hc.
    + exists [], c, l. split_and!; [done..|]. change (zlen (@nil Z)) with 0. lia.
    + cbn [forallb]. by rewrite Hc.
Qed.

Lemma drop_at {A} (s a b : list A) pos : 0 <= pos -> drop (Z.to_nat pos) s = a ++ b -> drop (Z.to_nat (pos + zlen a)) s = b.
Proof.
  intros Hp E. unfold zlen. rewrite Z2Nat.inj_add, Nat2Z.id, <- drop_drop, E by lia. by rewrite drop_app_length.
Qed.
Lemma drop_at_cons {A} (s : list A) c b pos : 0 <= pos -> drop (Z.to_nat pos) s = c :: b -> drop (Z.to_nat (pos + 1)) s = b.
Proof. apply (drop_at s [c] b pos). Qed.
Lemma substr_at (s a b : bytes) pos n : n = zlen a -> drop (Z.to_nat pos) s = a ++ b -> substr s pos n = a.
Proof. intros -> E. unfold substr, zslice. rewrite E. unfold zlen. rewrite Nat2Z.id. by rewrite take_app_length. Qed.

Lemma negb_not_in d l : forallb (fun x => negb (negb (is_in d x))) l = forallb (is_in d) l.
Proof. induction l as [|x l IH]; cbn [forallb]; [done|]. by rewrite negb_involutive, IH. Qed.

(** * Words *)
(** The word at the front of a string, and the words behind it. *)
Fixpoint words_at (d : Z -> bool) (l : bytes) : bytes * list bytes :=
  match l with
  | [] => ([], [])
  | c :: l =>
      let '(w, ws) := words_at d l in
      if d c then ([], match w with [] => ws | _ => w :: ws end) else (c :: w, ws)
  end.
Definition words (d : Z -> bool) (l : bytes) : list bytes :=
  let '(w, ws) := words_at d l in match w with [] => ws | _ => w :: ws end.

Lemma words_delimiter d c l : d c = true -> words d (c :: l) = words d l.
Proof. intros Hc. unfold words. cbn [words_at]. destruct (words_at d l). by rewrite Hc. Qed.
Lemma words_delimiters d a l : forallb d a = true -> words d (a ++ l) = words d l.
Proof.
  induction a as [|c a IH]; [done|]. cbn [forallb app]. intros H. apply andb_true_iff in H as [Hc H].
  rewrite words_delimiter by done. by apply IH.
Qed.
Lemma words_at_word d w c l :
  forallb (fun x => negb (d x)) w = true -> d c = true -> words_at d (w ++ c :: l) = (w, words d l).
Proof.
  intros Hw Hc. induction w as [|x w IH]; cbn [app words_at forallb] in *.
  - unfold words. destruct (words_at d l). by rewrite Hc.
  - apply andb_true_iff in Hw as [Hx Hw]. rewrite (IH Hw). apply negb_true_iff in Hx. by rewrite Hx.
Qed.
Lemma words_at_end d w : forallb (fun x => negb (d x)) w = true -> words_at d w = (w, []).
Proof.
  induction w as [|x w IH]; cbn [words_at forallb]; [done|]. intros Hw. apply andb_true_iff in Hw as [Hx Hw].
  rewrite (IH Hw). apply negb_true_iff in Hx. by rewrite Hx.
Qed.
Lemma words_word d x w c l :
  forallb (fun x => negb (d x)) (x :: w) = true -> d c = true -> words d ((x :: w) ++ c :: l) = (x :: w) :: words d l.
Proof. intros Hw Hc. unfold words at 1. by rewrite words_at_word. Qed.
Lemma words_end d x w : forallb (fun x => negb (d x)) (x :: w) = true -> words d (x :: w) = [x :: w].
Proof. intros Hw. unfold words. by rewrite words_at_end. Qed.

Lemma Tokenize_loop_words str d fuel : forall pos toks,
  0 <= pos -> (length (drop (Z.to_nat pos) str) < fuel)%nat ->
  Tokenize_loop fuel str d (find_first_not_of str d pos) toks = Ret (toks ++ words (is_in d) (drop (Z.to_nat pos) str)).
Proof.
  induction fuel as [|fuel IH]; intros pos toks Hp Hf; [lia|].
  unfold find_first_not_of at 1, find_from. pose proof (find_if_spec (fun c => negb (is_in d c)) (drop (Z.to_nat pos) str) pos) as H.
  destruct (find_if _ _ pos) as [i|]; cbn [Tokenize_loop].
  2: { rewrite negb_not_in in H. rewrite <- (app_nil_r (drop _ _)), words_delimiters by done. by rewrite app_nil_r. }
  destruct H as (a & c & b & E & Ha & Hc & ->). rewrite negb_not_in in Ha. pose proof (zlen_nonneg a).
  assert (drop (Z.to_nat (pos + zlen a)) str = c :: b) as Ei by (by apply (drop_at str a)).
  rewrite E, words_delimiters by done.
  unfold find_first_of, find_from. rewrite (drop_at_cons str c b) by (done || lia).
  pose proof (find_if_spec (is_in d) b (pos + zlen a + 1)) as H1. destruct (find_if _ b _) as [j|].
  - destruct H1 as (w & x & k & -> & Hw & Hx & ->). pose proof (zlen_nonneg w).
    assert (drop (Z.to_nat (pos + zlen a + 1 + zlen w + 1)) str = k) as Ek.
    { apply (drop_at_cons str x); [lia|]. apply (drop_at str w); [lia|]. apply (drop_at_cons str c); [lia|done]. }
    rewrite IH; [|lia|rewrite Ek; rewrite E, !length_app in Hf; cbn [length] in Hf; rewrite length_app in Hf; cbn [length] in Hf; lia].
    rewrite Ek. rewrite (substr_at str (c :: w) (x :: k)) by (done || rewrite zlen_cons; lia).
    change (c :: w ++ x :: k) with ((c :: w) ++ x :: k). rewrite words_word; [by rewrite <- app_assoc| |done].
    cbn [forallb]. by rewrite Hc.
  - unfold substr_from. rewrite Ei, words_end; [done|]. cbn [forallb]. by rewrite Hc.
Qed.

Lemma Tokenize_words str d : Tokenize str d = Ret (words (is_in d) str).
Proof.
  unfold Tokenize. rewrite Tokenize_loop_words; [done|lia|]. change (drop (Z.to_nat 0) str) with str. lia.
Qed.

(** ** Along whitespace *)
Lemma substr_end (s w : bytes) pos : 0 <= pos -> drop (Z.to_nat pos) s = w -> w <> [] -> substr s pos (zlen s - pos) = w.
Proof.
  intros Hp E Hw. rewrite <- (app_nil_r w) in E. apply (substr_at s w [] pos); [|done].
  apply (f_equal length) in E. rewrite app_nil_r, length_drop in E. destruct w; [done|]. unfold zlen. cbn [length] in *. lia.
Qed.

Lemma along_whitespace_words str l : forall i (last_was_ws : bool) start result w,
  0 <= start <= i -> drop (Z.to_nat i) str = l ->
  (if last_was_ws then w = [] else drop (Z.to_nat start) str = w ++ l /\ i = start + zlen w /\
     forallb (fun x => negb (is_in kWhitespaceASCII x)) w = true /\ (w = [] -> i = 0 /\ l <> [])) ->
  along_whitespace_loop str l i last_was_ws start result = result ++ words (is_in kWhitespaceASCII) (w ++ l).
Proof.
  induction l as [|c l IH]; intros i last start result w Hi El Hw; cbn [along_whitespace_loop].
  - destruct last; [by rewrite Hw, app_nil_r|]. destruct Hw as (E & -> & Hw & Hne). rewrite app_nil_r in *.
    destruct w as [|x w]; [by destruct (Hne eq_refl)|]. rewrite (substr_end str (x :: w)) by (done || lia). by rewrite words_end.
  - pose proof (drop_at_cons str c l i ltac:(lia) El) as El'. destruct (is_in kWhitespaceASCII c) eqn:Hc.
    + destruct last.
      * subst w. rewrite (IH (i + 1) true start result []) by (done || lia). cbn [app]. by rewrite words_delimiter.
      * destruct Hw as (E & -> & Hw & Hne). rewrite (IH (start + zlen w + 1) true start _ []) by (done || lia).
        destruct w as [|x w].
        { destruct (Hne eq_refl) as [H0 _]. change (zlen (@nil Z)) with 0 in *. rewrite (proj2 (Z.ltb_ge _ _)) by lia.
          cbn [app]. by rewrite words_delimiter. }
        rewrite zlen_cons in *. pose proof (zlen_nonneg w). rewrite (proj2 (Z.ltb_lt _ _)) by lia.
        rewrite (substr_at str (x :: w) (c :: l)) by (done || rewrite zlen_cons; lia).
        rewrite words_word by done. cbn [app]. by rewrite <- app_assoc.
    + destruct last.
      * subst w. rewrite (IH (i + 1) false i result [c]); [done|lia|done|]. split_and!; [done|done| |done].
        cbn [forallb]. by rewrite Hc.
      * destruct Hw as (E & -> & Hw & Hne). rewrite (IH (start + zlen w + 1) false start result (w ++ [c])).
        -- by rewrite <- app_assoc.
        -- lia.
        -- done.
        -- rewrite <- app_assoc, zlen_app, forallb_app, Hw. change (zlen [c]) with 1. cbn [app forallb]. rewrite Hc.
           split_and!; [done|lia|done|]. by destruct w.
Qed.

Lemma SplitStringAlongWhitespace_words str : SplitStringAlongWhitespace str = words (is_in kWhitespaceASCII) str.
Proof.
  unfold SplitStringAlongWhitespace. destruct str as [|c str]; [done|].
  by rewrite (along_whitespace_words (c :: str) (c :: str) 0 false 0 [] []).
Qed.

(** ** Collapsing *)
Definition collapse_space (c : Z) : bool := IsWhitespace (u32 (s8 c)).

Lemma JoinString_snoc ws w sep : ws <> [] -> JoinString (ws ++ [w]) sep = (JoinString ws sep ++ sep) ++ w.
Proof. destruct ws as [|x ws]; [done|]. intros _. cbn [app JoinString]. by rewrite fold_left_app. Qed.
Lemma JoinString_grow ws w x sep : JoinString (ws ++ [w ++ [x]]) sep = JoinString (ws ++ [w]) sep ++ [x].
Proof.
  destruct ws as [|y ws]; [done|]. rewrite !JoinString_snoc by done. by rewrite app_assoc.
Qed.

Definition joined (ws : list bytes) : bytes := match ws with [] => [] | _ => JoinString ws [32] ++ [32] end.
Lemma joined_snoc ws w : joined (ws ++ [w]) = JoinString (ws ++ [w]) [32] ++ [32].
Proof. unfold joined. by destruct ws. Qed.

(** What is written after the whole words [ws] and, in a word, its part [w]. *)
Definition collapsed (ws : list bytes) (w : option bytes) : bool * bool * bytes :=
  match w with
  | Some w => (false, false, JoinString (ws ++ [w]) [32])
  | None => (true, bool_decide (ws = []), joined ws)
  end.

Lemma collapse_loop_words size l : forall ws (w : option bytes),
  (match w with Some w => w <> [] | None => True end) ->
  zlen (collapsed ws w).2 + zlen l <= size ->
  exists ws' w', collapse_loop size false l (collapsed ws w) = Ret (collapsed ws' w') /\
    ws' ++ (match w' with Some w' => [w'] | None => [] end) =
    ws ++ (match w with Some w => let '(a, v) := words_at collapse_space l in (w ++ a) :: v | None => words collapse_space l end).
Proof.
  induction l as [|c l IH]; intros ws w Hw Hs; cbn [collapse_loop].
  - exists ws, w. split; [done|]. destruct w; [|done]. cbn [words_at]. by rewrite app_nil_r.
  - rewrite zlen_cons in Hs. pose proof (zlen_nonneg l). unfold collapse_step. fold (collapse_space c). cbn [words_at].
    destruct w as [w|]; cbn [collapsed]; cbn [collapsed snd] in Hs.
    + destruct (collapse_space c) eqn:Hc; cbn [negb andb].
      * unfold collapse_put, guard_or. rewrite (proj2 (Z.ltb_lt _ _)) by lia. obind.
        destruct (IH (ws ++ [w]) None) as (ws' & w' & E & El); [done| |].
        { cbn [collapsed snd]. rewrite joined_snoc, zlen_app. change (zlen [32]) with 1. lia. }
        exists ws', w'. cbn [collapsed] in E. rewrite bool_decide_eq_false_2 in E by (intros Ew; by apply app_nil in Ew as [_ ?]).
        rewrite joined_snoc in E. rewrite E. split; [done|].
        rewrite El, <- app_assoc. unfold words. destruct (words_at collapse_space l). by rewrite app_nil_r.
      * unfold collapse_put, guard_or. rewrite (proj2 (Z.ltb_lt _ _)) by lia. obind.
        destruct (IH ws (Some (w ++ [c]))) as (ws' & w' & E & El); [by destruct w| |].
        { cbn [collapsed snd]. rewrite JoinString_grow, zlen_app. change (zlen [c]) with 1. lia. }
        exists ws', w'. cbn [collapsed] in E. rewrite JoinString_grow in E. rewrite E. split; [done|]. rewrite El.
        destruct (words_at collapse_space l). by rewrite <- app_assoc.
    + destruct (collapse_space c) eqn:Hc; cbn [negb andb mbind outcome_bind].
      * destruct (IH ws None) as (ws' & w' & E & El); [done|cbn [collapsed snd]; lia|].
        exists ws', w'. cbn [collapsed] in E. rewrite E. split; [done|]. rewrite El. by rewrite words_delimiter.
      * unfold collapse_put, guard_or. rewrite (proj2 (Z.ltb_lt _ _)) by lia. obind.
        assert (JoinString (ws ++ [[c]]) [32] = joined ws ++ [c]) as Ej.
        { unfold joined. destruct ws; [done|]. by rewrite JoinString_snoc. }
        destruct (IH ws (Some [c])) as (ws' & w' & E & El); [done| |].
        { cbn [collapsed snd]. rewrite Ej, zlen_app. change (zlen [c]) with 1. lia. }
        exists ws', w'. cbn [collapsed] in E. rewrite <- Ej, E. split; [done|]. rewrite El. f_equal.
        unfold words. cbn [words_at]. rewrite Hc. by destruct (words_at collapse_space l).
Qed.

Lemma CollapseWhitespace_words text :
  CollapseWhitespaceASCII text false = Ret (JoinString (words collapse_space text) [32]).
Proof.
  unfold CollapseWhitespaceASCII.
  destruct (collapse_loop_words (zlen text) text [] None) as (ws & w & E & El); [done|change (0 + zlen text <= zlen text); lia|].
  change (true, true, @nil Z) with (collapsed [] None). rewrite E. cbn [app] in El. rewrite <- El.
  destruct w as [w|]; cbn [collapsed mbind outcome_bind andb]; [done|]. rewrite app_nil_r.
  destruct ws as [|x ws]; cbn [negb andb]; [done|]. rewrite bool_decide_eq_false_2 by done. cbn [negb].
  unfold joined, collapse_back. destruct (JoinString (x :: ws) [32] ++ [32]) eqn:Ej; [by apply app_nil in Ej as [_ ?]|].
  rewrite <- Ej. by rewrite removelast_last.
Qed.

(** The three functions that cut a string at blanks or delimiters cut it into
    the same words.  [Tokenize] gives the maximal runs without a delimiter and
    never runs out of them, [SplitStringAlongWhitespace] the runs without HTML
    white space, and [CollapseWhitespaceASCII] stays inside its buffer and joins
    the runs without Unicode white space, for which a zero byte counts too. *)
Theorem words_agree (str delimiters : bytes) :
  Tokenize str delimiters = Ret (words (is_in delimiters) str) /\
  SplitStringAlongWhitespace str = words (is_in kWhitespaceASCII) str /\
  CollapseWhitespaceASCII str false = Ret (JoinString (words (fun c => IsWhitespace (u32 (s8 c))) str) [32]).
Proof. split_and!; [apply Tokenize_words|apply SplitStringAlongWhitespace_words|apply CollapseWhitespace_words]. Qed.

(** * Trimming *)
Lemma find_if_app p a c b : forall off,
  forallb (fun x => negb (p x)) a = true -> p c = true -> find_if p (a ++ c :: b) off = Some (off + zlen a).
Proof.
  induction a as [|x a IH]; intros off Ha Hc; cbn [app find_if].
  - rewrite Hc. change (zlen (@nil Z)) with 0. by rewrite Z.add_0_r.
  - cbn [forallb] in Ha. apply andb_true_iff in Ha as [Hx Ha]. apply negb_true_iff in Hx. rewrite Hx, IH by done.
    rewrite zlen_cons. f_equal. lia.
Qed.
Lemma find_if_none p l : forall off, forallb (fun x => negb (p x)) l = true -> find_if p l off = None.
Proof.
  induction l as [|x l IH]; intros off H; cbn [find_if]; [done|]. cbn [forallb] in H. apply andb_true_iff in H as [Hx H].
  apply negb_true_iff in Hx. by rewrite Hx, IH.
Qed.
Lemma find_last_if_none p l : forall off, forallb (fun x => negb (p x)) l = true -> find_last_if p l off = None.
Proof.
  induction l as [|x l IH]; intros off H; cbn [find_last_if]; [done|]. cbn [forallb] in H. apply andb_true_iff in H as [Hx H].
  apply negb_true_iff in Hx. by rewrite IH, Hx.
Qed.
Lemma find_last_if_app p a c b : forall off,
  forallb (fun x => negb (p x)) b = true -> p c = true -> find_last_if p (a ++ c :: b) off = Some (off + zlen a).
Proof.
  induction a as [|x a IH]; intros off Hb Hc; cbn [app find_last_if].
  - rewrite find_last_if_none, Hc by done. change (zlen (@nil Z)) with 0. by rewrite Z.add_0_r.
  - rewrite IH, zlen_cons by done. f_equal. lia.
Qed.

(** [m] has nothing to trim at either end. *)
Definition trimmed (set m : bytes) : Prop :=
  exists x y, head m = Some x /\ last m = Some y /\ is_in set x = false /\ is_in set y = false.
Definition leading (positions : Z) : bool := negb (Z.land positions TRIM_LEADING =? 0).
Definition trailing (positions : Z) : bool := negb (Z.land positions TRIM_TRAILING =? 0).

Lemma trimmed_head set m : trimmed set m -> exists x k, m = x :: k /\ is_in set x = false.
Proof. intros (x & y & Hx & _ & H & _). destruct m as [|z m]; [done|]. injection Hx as ->. by exists x, m. Qed.
Lemma trimmed_last set m : trimmed set m -> exists k y, m = k ++ [y] /\ is_in set y = false.
Proof. intros (x & y & _ & Hy & _ & H). apply last_Some in Hy as (k & ->). by exists k, y. Qed.

Lemma TrimStringT_exact (a m b set : bytes) (positions : Z) :
  forallb (is_in set) a = true -> forallb (is_in set) b = true -> trimmed set m -> zlen (a ++ m ++ b) < 2 ^ 64 ->
  TrimStringT (a ++ m ++ b) set positions =
    (Z.lor (if leading positions && negb (bool_decide (a = [])) then TRIM_LEADING else TRIM_NONE)
           (if trailing positions && negb (bool_decide (b = [])) then TRIM_TRAILING else TRIM_NONE),
     (if leading positions then [] else a) ++ m ++ (if trailing positions then [] else b)).
Proof.
  intros Ha Hb Hm Hl. destruct (trimmed_head set m Hm) as (x & k & Em & Hx). destruct (trimmed_last set m Hm) as (k' & y & Em' & Hy).
  assert (find_first_not_of (a ++ m ++ b) set 0 = Some (zlen a)) as Hf.
  { unfold find_first_not_of, find_from. change (drop (Z.to_nat 0) (a ++ m ++ b)) with (a ++ m ++ b). rewrite Em. cbn [app].
    rewrite find_if_app; [done|by rewrite negb_not_in|by rewrite Hx]. }
  assert (find_last_not_of (a ++ m ++ b) set = Some (zlen a + zlen m - 1)) as Hg.
  { unfold find_last_not_of. rewrite Em', <- app_assoc, app_assoc. cbn [app].
    rewrite find_last_if_app; [|by rewrite negb_not_in|by rewrite Hy]. rewrite !zlen_app. change (zlen [y]) with 1. f_equal. lia. }
  pose proof (zlen_nonneg a). pose proof (zlen_nonneg b). pose proof (zlen_nonneg k). rewrite !zlen_app in Hl.
  assert (zlen m = 1 + zlen k) as Hlm by (rewrite Em; apply zlen_cons).
  assert (forall l : bytes, bool_decide (l = []) = (zlen l =? 0)) as Hnil.
  { intros l. destruct l; [done|]. rewrite zlen_cons. pose proof (zlen_nonneg l). rewrite bool_decide_eq_false_2 by done. symmetry. apply Z.eqb_neq. lia. }
  unfold TrimStringT. rewrite Hf, Hg, !Hnil. fold (leading positions) (trailing positions).
  assert (exists c l, a ++ m ++ b = c :: l) as (c & l & Ecl) by (rewrite Em; destruct a; by eexists _, _). rewrite Ecl at 1.
  rewrite !zlen_app, uwrap_small by lia.
  assert (forall (x y z : bytes), x ++ y ++ z = a ++ m ++ b -> substr (a ++ m ++ b) (zlen x) (zlen y) = y) as Hsub.
  { intros x1 y1 z1 <-. apply (substr_at _ y1 z1); [done|]. unfold zlen. rewrite Nat2Z.id. by rewrite drop_app_length. }
  destruct (leading positions), (trailing positions); cbn [andb negb app].
  - rewrite uwrap_small by lia. f_equal.
    + f_equal; [by destruct (zlen a =? 0)|]. destruct (Z.eqb_spec (zlen b) 0), (Z.eqb_spec (zlen a + zlen m - 1) (zlen a + (zlen m + zlen b) - 1)); try done; lia.
    + rewrite app_nil_r. replace (zlen a + zlen m - 1 - zlen a + 1) with (zlen m) by lia. by apply (Hsub a m b).
  - rewrite uwrap_small by lia. f_equal.
    + f_equal; [by destruct (zlen a =? 0)|]. by rewrite Z.eqb_refl.
    + replace (_ - zlen a + 1) with (zlen (m ++ b)) by (rewrite zlen_app; lia). apply (Hsub a (m ++ b) []). by rewrite app_nil_r.
  - rewrite uwrap_small by lia. f_equal.
    + destruct (Z.eqb_spec (zlen b) 0), (Z.eqb_spec (zlen a + zlen m - 1) (zlen a + (zlen m + zlen b) - 1)); try done; lia.
    + rewrite app_nil_r. replace (zlen a + zlen m - 1 - 0 + 1) with (zlen (a ++ m)) by (rewrite zlen_app; lia).
      apply (Hsub [] (a ++ m) b). cbn [app]. by rewrite <- app_assoc.
  - rewrite uwrap_small by lia. f_equal; [by rewrite !Z.eqb_refl|].
    replace (_ - 0 + 1) with (zlen (a ++ m ++ b)) by (rewrite !zlen_app; lia). apply (Hsub [] (a ++ m ++ b) []). by rewrite app_nil_r.
Qed.

Lemma TrimStringT_all (l set : bytes) (positions : Z) :
  forallb (is_in set) l = true -> leading positions || trailing positions = true ->
  TrimStringT l set positions = (if bool_decide (l = []) then TRIM_NONE else positions, []).
Proof.
  intros Hl Hp. unfold TrimStringT. fold (leading positions) (trailing positions). destruct l as [|c l]; [done|].
  rewrite bool_decide_eq_false_2 by done.
  assert (find_first_not_of (c :: l) set 0 = None) as ->.
  { unfold find_first_not_of, find_from. apply find_if_none. by rewrite negb_not_in. }
  assert (find_last_not_of (c :: l) set = None) as -> by (apply find_last_if_none; by rewrite negb_not_in).
  destruct (leading positions), (trailing positions); done.
Qed.

Lemma trim_parts (set l : bytes) :
  exists a m b, l = a ++ m ++ b /\ forallb (is_in set) a = true /\ forallb (is_in set) b = true /\
    (trimmed set m \/ m = [] /\ b = []).
Proof.
  pose proof (find_if_spec (fun c => negb (is_in set c)) l 0) as H. destruct (find_if _ l 0) as [i|].
  2: { exists l, [], []. rewrite negb_not_in in H. rewrite !app_nil_r. split_and!; [done..|by right]. }
  destruct H as (a & x & r & -> & Ha & Hx & _). rewrite negb_not_in in Ha.
  pose proof (find_last_if_spec (fun c => negb (is_in set c)) (x :: r) 0) as H. destruct (find_last_if _ (x :: r) 0) as [j|].
  2: { cbn [forallb] in H. by rewrite Hx in H. }
  destruct H as (k & y & b & Er & Hb & Hy & _). rewrite negb_not_in in Hb. apply negb_true_iff in Hx, Hy.
  exists a, (k ++ [y]), b. rewrite <- app_assoc. cbn [app]. rewrite <- Er. split_and!; [done..|]. left.
  exists x, y. split_and!; [|by rewrite last_snoc|done..]. destruct k as [|z k]; injection Er as -> _; done.
Qed.

(** Trimming takes exactly the characters of the set at both ends, whatever
    stands between them, and says whether it took any. *)
Theorem TrimString_exact (input set : bytes) :
  zlen input < 2 ^ 64 ->
  exists a m b, input = a ++ m ++ b /\ forallb (is_in set) a = true /\ forallb (is_in set) b = true /\
    (trimmed set m \/ m = [] /\ b = []) /\
    TrimString input set = (negb (bool_decide (a = []) && bool_decide (b = [])), m).
Proof.
  intros Hl. destruct (trim_parts set input) as (a & m & b & -> & Ha & Hb & Hm). exists a, m, b. split_and!; [done..|].
  unfold TrimString. destruct Hm as [Hm|[-> ->]].
  - rewrite TrimStringT_exact by done. change (leading TRIM_ALL) with true. change (trailing TRIM_ALL) with true. cbn [andb app].
    rewrite app_nil_r. by destruct (bool_decide (a = [])), (bool_decide (b = [])).
  - rewrite !app_nil_r, TrimStringT_all by done. by destruct a.
Qed.

Lemma TrimString_exact_witness :
  zlen str#" a b " < 2 ^ 64 /\
  exists a m b, str#" a b " = a ++ m ++ b /\ forallb (is_in [32]) a = true /\ forallb (is_in [32]) b = true /\
    (trimmed [32] m \/ m = [] /\ b = []) /\
    TrimString str#" a b " [32] = (negb (bool_decide (a = []) && bool_decide (b = [])), m).
Proof. split; [done|]. exact (TrimString_exact str#" a b " [32] eq_refl). Defined.

(** * Fields *)
(** The parts of a string between the separators, at least one. *)
Fixpoint fields (s : Z) (l : bytes) : list bytes :=
  match l with
  | [] => [[]]
  | c :: l => if c =? s then [] :: fields s l
              else match fields s l with f :: fs => (c :: f) :: fs | [] => [[c]] end
  end.

Lemma fields_not_nil s l : fields s l <> [].
Proof. destruct l as [|c l]; cbn [fields]; [done|]. destruct (c =? s); [done|]. by destruct (fields s l). Qed.
Lemma fields_word s w l : forallb (fun c => negb (c =? s)) w = true -> fields s (w ++ s :: l) = w :: fields s l.
Proof.
  induction w as [|c w IH]; cbn [app fields forallb]; [by rewrite Z.eqb_refl|]. intros H. apply andb_true_iff in H as [Hc H].
  apply negb_true_iff in Hc. by rewrite Hc, IH.
Qed.
Lemma fields_end s w : forallb (fun c => negb (c =? s)) w = true -> fields s w = [w].
Proof.
  induction w as [|c w IH]; cbn [fields forallb]; [done|]. intros H. apply andb_true_iff in H as [Hc H].
  apply negb_true_iff in Hc. by rewrite Hc, IH.
Qed.

Lemma JoinString_cons p q ps sep : JoinString (p :: q :: ps) sep = p ++ sep ++ JoinString (q :: ps) sep.
Proof.
  cbn [JoinString fold_left]. generalize q. clear q. revert p.
  assert (forall ps p q, fold_left (fun r x => (r ++ sep) ++ x) ps (p ++ q) = p ++ fold_left (fun r x => (r ++ sep) ++ x) ps q) as H.
  { clear ps. induction ps as [|x ps IH]; intros p q; [done|]. cbn [fold_left]. rewrite <- IH. f_equal. by rewrite !app_assoc. }
  intros p q. rewrite app_assoc. apply H.
Qed.

Lemma join_fields s l : JoinString (fields s l) [s] = l.
Proof.
  induction l as [|c l IH]; cbn [fields]; [done|]. destruct (Z.eqb_spec c s) as [->|Hc].
  - destruct (fields s l) as [|f fs] eqn:E; [by apply fields_not_nil in E|]. rewrite JoinString_cons. cbn [app]. by rewrite IH.
  - destruct (fields s l) as [|f fs] eqn:E; [by apply fields_not_nil in E|]. destruct fs as [|g fs].
    + cbn [JoinString fold_left] in *. by rewrite IH.
    + rewrite JoinString_cons in *. cbn [app] in *. by rewrite IH.
Qed.
Lemma fields_join s ps :
  ps <> [] -> forallb (forallb (fun c => negb (c =? s))) ps = true -> fields s (JoinString ps [s]) = ps.
Proof.
  intros Hne. induction ps as [|p ps IH]; [done|]. cbn [forallb]. intros H. apply andb_true_iff in H as [Hp H].
  destruct ps as [|q ps]; [by apply fields_end|]. rewrite JoinString_cons. cbn [app]. rewrite fields_word by done. f_equal. by apply IH.
Qed.

(** What [SplitStringT] does to a field. *)
Definition cut_field (trim : bool) (w : bytes) : bytes := if trim then snd (TrimWhitespace w TRIM_ALL) else w.
Definition drop_single_empty (l : list bytes) : list bytes := match l with [[]] => [] | _ => l end.

Lemma SplitString_loop_fields str s trim l : forall i last w r,
  0 <= last -> drop (Z.to_nat last) str = w ++ l -> i = last + zlen w -> forallb (fun c => negb (c =? s)) w = true ->
  zlen str = i + zlen l ->
  SplitString_loop str s trim l i last r =
    match r with
    | [] => drop_single_empty (map (cut_field trim) (fields s (w ++ l)))
    | _ => r ++ map (cut_field trim) (fields s (w ++ l))
    end.
Proof.
  induction l as [|c l IH]; intros i last w r Hlast E -> Hw Hl; cbn [SplitString_loop]; pose proof (zlen_nonneg w).
  - change (zlen (@nil Z)) with 0 in Hl. rewrite (proj2 (Z.eqb_eq _ _)) by lia. cbn [negb orb].
    rewrite (substr_at str w [] last) by (done || lia). fold (cut_field trim w). rewrite app_nil_r, fields_end by done. cbn [map].
    destruct r; [|done]. cbn [orb bool_decide negb]. unfold drop_single_empty. by destruct (cut_field trim w).
  - rewrite zlen_cons in Hl. pose proof (zlen_nonneg l). rewrite (proj2 (Z.eqb_neq (last + zlen w) _)) by lia. cbn [negb orb].
    rewrite (substr_at str w (c :: l) last) by (done || lia). fold (cut_field trim w).
    assert (drop (Z.to_nat (last + zlen w + 1)) str = l) as El.
    { apply (drop_at_cons str c); [lia|]. by apply (drop_at str w). }
    destruct (Z.eqb_spec c s) as [->|Hc].
    + rewrite (IH _ (last + zlen w + 1) []) by (done || (change (zlen (@nil Z)) with 0; lia) || lia). cbn [app].
      rewrite fields_word by done. cbn [map]. destruct r as [|x r]; cbn [app].
      * unfold drop_single_empty. destruct (fields s l) eqn:Ef; [by apply fields_not_nil in Ef|]. by destruct (cut_field trim w).
      * by rewrite <- app_assoc.
    + rewrite (IH _ last (w ++ [c])); [by rewrite <- app_assoc|done|by rewrite <- app_assoc| | |lia].
      * rewrite zlen_app. change (zlen [c]) with 1. lia.
      * rewrite forallb_app, Hw. cbn. apply Z.eqb_neq in Hc. by rewrite Hc.
Qed.

Lemma SplitStringT_fields str s trim : SplitStringT str s trim = drop_single_empty (map (cut_field trim) (fields s str)).
Proof. unfold SplitStringT. by rewrite (SplitString_loop_fields str s trim str 0 0 [] []). Qed.

(** Splitting and joining are inverse: a string split without trimming and
    joined again is the string, and parts without the separator that are joined
    and split come back, trimmed, except that a single part that is empty after
    trimming gives no part. *)
Theorem split_join (s : Z) (str : bytes) (parts : list bytes) :
  parts <> [] -> forallb (forallb (fun c => negb (c =? s))) parts = true ->
  JoinString (SplitStringT str s false) [s] = str /\
  SplitStringT (JoinString parts [s]) s true = drop_single_empty (map (fun w => snd (TrimWhitespace w TRIM_ALL)) parts).
Proof.
  intros Hne Hp. split.
  - rewrite SplitStringT_fields. replace (map (cut_field false) (fields s str)) with (fields s str).
    + transitivity (JoinString (fields s str) [s]); [|apply join_fields]. unfold drop_single_empty.
      destruct (fields s str) as [|[|c f] [|g fs]]; done.
    + symmetry. apply map_id.
  - by rewrite SplitStringT_fields, fields_join.
Qed.

Lemma split_join_witness :
  JoinString (SplitStringT str#"a,,b" ch#"," false) str#"," = str#"a,,b" /\
  SplitStringT (JoinString [str#" x"; []; str#"y "] str#",") ch#"," true = [str#"x"; []; str#"y"].
Proof. exact (split_join ch#"," str#"a,,b" [str#" x"; []; str#"y "] ltac:(done) eq_refl). Defined.

(** * Replacing characters *)
Definition replaced (chars w l : bytes) : bytes := concat (map (fun c => if is_in chars c then w else [c]) l).

Lemma replaced_none chars w a : forallb (fun x => negb (is_in chars x)) a = true -> replaced chars w a = a.
Proof.
  induction a as [|c a IH]; [done|]. cbn [forallb]. intros H. apply andb_true_iff in H as [Hc H]. apply negb_true_iff in Hc.
  unfold replaced in *. cbn [map concat]. by rewrite Hc, IH.
Qed.
Lemma replaced_app chars w a b : replaced chars w (a ++ b) = replaced chars w a ++ replaced chars w b.
Proof. unfold replaced. by rewrite map_app, concat_app. Qed.
Lemma existsb_none {A} (p : A -> bool) l : forallb (fun x => negb (p x)) l = true -> existsb p l = false.
Proof. induction l as [|c l IH]; [done|]. cbn. intros H. apply andb_true_iff in H as [Hc H]. apply negb_true_iff in Hc. by rewrite Hc, IH. Qed.

Lemma replace_at (a b w : bytes) c : replace (a ++ c :: b) (zlen a) 1 w = a ++ w ++ b.
Proof.
  unfold replace, zlen. rewrite Nat2Z.id, take_app_length. do 2 f_equal.
  replace (Z.to_nat (Z.of_nat (length a) + 1)) with (length a + 1)%nat by lia. rewrite <- drop_drop, drop_app_length. done.
Qed.

Lemma ReplaceChars_loop_replaced chars w fuel : forall rest front removed,
  (length rest <= fuel)%nat ->
  ReplaceChars_loop fuel chars w (find_first_of (front ++ rest) chars (zlen front)) removed (front ++ rest) =
    Ret (removed || existsb (is_in chars) rest, front ++ replaced chars w rest).
Proof.
  induction fuel as [|fuel IH]; intros rest front removed Hf; unfold find_first_of, find_from;
    (replace (drop (Z.to_nat (zlen front)) (front ++ rest)) with rest by (unfold zlen; rewrite Nat2Z.id; by rewrite drop_app_length));
    pose proof (find_if_spec (is_in chars) rest (zlen front)) as H; destruct (find_if _ rest _) as [i|]; cbn [ReplaceChars_loop].
  1: destruct H as (a & c & b & -> & _); rewrite length_app in Hf; cbn in Hf; lia.
  1, 3: by rewrite replaced_none, existsb_none, orb_false_r.
  destruct H as (a & c & b & -> & Ha & Hc & ->).
  replace (replace _ _ 1 w) with ((front ++ a ++ w) ++ b).
  2: { rewrite (app_assoc front a (c :: b)), <- zlen_app, replace_at. by rewrite <- !app_assoc. }
  replace (zlen front + zlen a + zlen w) with (zlen (front ++ a ++ w)) by (rewrite !zlen_app; lia).
  rewrite IH by (rewrite length_app in Hf; cbn in Hf; lia). cbn [orb].
  rewrite existsb_app, replaced_app, (replaced_none _ _ a) by done. cbn [existsb]. rewrite Hc, !orb_true_r.
  change (replaced chars w (c :: b)) with ((if is_in chars c then w else [c]) ++ replaced chars w b). rewrite Hc.
  by rewrite <- !app_assoc.
Qed.

(** [ReplaceChars] replaces every character of the set, each once, even when
    the replacement contains characters of the set itself, and it ends. *)
Theorem ReplaceChars_exact (input chars w : bytes) :
  ReplaceChars input chars w =
    Ret (existsb (is_in chars) input, concat (map (fun c => if is_in chars c then w else [c]) input)).
Proof. apply (ReplaceChars_loop_replaced chars w (length input) input [] false). done. Qed.

(** * Copying *)
Lemma lcpy_loop_copy n : forall (done rest dst src tail : bytes) j,
  src = done ++ rest ++ 0 :: tail -> j = zlen done -> forallb (fun c => negb (c =? 0)) rest = true ->
  take (Z.to_nat j) dst = done -> j + Z.of_nat n <= zlen dst ->
  lcpy_loop n j dst src =
    if (length rest <? n)%nat
    then Ret (Some (zlen (done ++ rest)), done ++ rest ++ 0 :: drop (S (length (done ++ rest))) dst)
    else Ret (None, done ++ take n rest ++ drop (length done + n) dst).
Proof.
  induction n as [|n IH]; intros front rest dst src tail j Es Ej Hr Ht Hn; cbn [lcpy_loop].
  - rewrite (proj2 (Nat.ltb_ge _ _)) by lia. do 2 f_equal. rewrite Nat.add_0_r. subst j. unfold zlen in Ht. rewrite Nat2Z.id in Ht.
    transitivity (take (length front) dst ++ drop (length front) dst); [by rewrite take_drop|by rewrite Ht].
  - pose proof (zlen_nonneg front) as H0.
    assert (length front <= length dst)%nat as Hlen by (unfold zlen in *; lia).
    destruct rest as [|c rest].
    + cbn [app] in Es. rewrite (proj2 (Nat.ltb_lt _ _)) by (cbn; lia).
      rewrite mem_read_ok by (subst; rewrite ?zlen_app, ?zlen_cons; pose proof (zlen_nonneg tail); lia).
      assert (zslice j 1 src = [0]) as ->.
      { apply (substr_at src [0] tail); [done|]. subst. unfold zlen. rewrite Nat2Z.id. by rewrite drop_app_length. }
      obind. rewrite mem_write_ok by (change (zlen [0]) with 1; lia). obind. cbn [znth lookup list_lookup default].
      change (znth [0] 0 =? 0) with true. cbn iota. rewrite !app_nil_r. do 3 f_equal; [by subst j|].
      unfold zsplice. rewrite Ht. cbn [app length]. do 2 f_equal. subst j. unfold zlen. rewrite Nat2Z.id. f_equal. lia.
    + cbn [forallb] in Hr. apply andb_true_iff in Hr as [Hc Hr]. apply negb_true_iff in Hc.
      assert (zlen src = zlen front + (1 + zlen (rest ++ 0 :: tail))) as Els by (rewrite Es, zlen_app; cbn [app]; by rewrite zlen_cons).
      pose proof (zlen_nonneg (rest ++ 0 :: tail)). rewrite mem_read_ok by lia.
      assert (zslice j 1 src = [c]) as ->.
      { apply (substr_at src [c] (rest ++ 0 :: tail)); [done|]. subst. unfold zlen. rewrite Nat2Z.id. by rewrite drop_app_length. }
      obind. rewrite mem_write_ok by (change (zlen [c]) with 1; lia). obind. change (znth [c] 0) with c. rewrite Hc.
      rewrite (IH (front ++ [c]) rest (zsplice j [c] dst) src tail (j + 1)).
      * cbn [length]. change (S (length rest) <? S n)%nat with (length rest <? n)%nat.
        rewrite <- !app_assoc. cbn [app]. rewrite !length_app. cbn [length take].
        assert (forall k, (length front < k)%nat -> drop k (zsplice j [c] dst) = drop k dst) as Hd.
        { intros k Hk. unfold zsplice. rewrite Ht. change ([c] ++ drop (Z.to_nat j + length [c]) dst) with (c :: drop (Z.to_nat j + 1) dst).
          subst j. unfold zlen. rewrite Nat2Z.id. replace k with (length front + (1 + (k - length front - 1)))%nat at 1 by lia.
          rewrite <- drop_drop, drop_app_length. cbn [drop Nat.add]. rewrite drop_drop. f_equal. lia. }
        replace (length front + 1 + n)%nat with (length front + S n)%nat by lia.
        destruct (_ <? _)%nat; by rewrite Hd by lia.
      * subst src. rewrite <- app_assoc. done.
      * rewrite zlen_app. change (zlen [c]) with 1. lia.
      * done.
      * change (j + 1) with (j + zlen [c]). rewrite (ztake_splice_end j [c] dst) by (change (zlen [c]) with 1; lia). by rewrite Ht.
      * rewrite zlen_zsplice by (change (zlen [c]) with 1; lia). lia.
Qed.

Lemma lcpy_rest_stop src tail : forall w fuel i,
  0 <= i -> drop (Z.to_nat i) src = w ++ 0 :: tail -> forallb (fun c => negb (c =? 0)) w = true -> (length w < fuel)%nat ->
  lcpy_rest fuel src i = Ret (i + zlen w).
Proof.
  induction w as [|c w IH]; intros fuel i Hi E Hw Hf; (destruct fuel as [|fuel]; [cbn in Hf; lia|]); cbn [lcpy_rest];
    assert (zlen src = i + zlen (drop (Z.to_nat i) src)) as Hl by
      (unfold zlen; rewrite length_drop; apply (f_equal length) in E; rewrite length_drop in E; rewrite ?length_app in E; cbn in E; lia);
    rewrite E in Hl; rewrite ?zlen_app, !zlen_cons in Hl; pose proof (zlen_nonneg tail).
  - change (zlen (@nil Z)) with 0 in *. rewrite mem_read_ok by lia. assert (zslice i 1 src = [0]) as -> by (by apply (substr_at src [0] tail)).
    obind. change (znth [0] 0 =? 0) with true. cbn iota. by rewrite Z.add_0_r.
  - cbn [forallb] in Hw. apply andb_true_iff in Hw as [Hc Hw]. apply negb_true_iff in Hc. pose proof (zlen_nonneg w). rewrite mem_read_ok by lia.
    assert (zslice i 1 src = [c]) as -> by (by apply (substr_at src [c] (w ++ 0 :: tail))).
    obind. change (znth [c] 0) with c. rewrite Hc. cbn in Hf. rewrite IH; [by rewrite zlen_cons, Z.add_assoc|lia| |done|lia].
    by apply (drop_at_cons src c).
Qed.

(** [strlcpy] reads nothing behind the terminator of its source and writes
    nothing outside the [dst_size] bytes it was given; it returns the length of
    the source, and leaves in the buffer as much of it as fits with a
    terminator. *)
Theorem strlcpy_exact (s tail dst : bytes) (dst_size : Z) :
  forallb (fun c => negb (c =? 0)) s = true -> 0 <= dst_size <= zlen dst ->
  lcpyT dst (s ++ 0 :: tail) dst_size =
    Ret (zlen s, if dst_size =? 0 then dst
                 else take (Z.to_nat (dst_size - 1)) s ++ 0 :: drop (Z.to_nat (Z.min dst_size (zlen s + 1))) dst).
Proof.
  intros Hs Hd. unfold lcpyT. pose proof (zlen_nonneg s).
  rewrite (lcpy_loop_copy (Z.to_nat dst_size) [] s dst (s ++ 0 :: tail) tail 0) by (done || lia). cbn [app length].
  destruct (Nat.ltb_spec (length s) (Z.to_nat dst_size)) as [Hfit|Hcut]; obind.
  - rewrite (proj2 (Z.eqb_neq _ _)) by lia. rewrite take_ge by lia. do 4 f_equal. apply (f_equal (fun k => drop k dst)). unfold zlen. lia.
  - destruct (Z.eqb_spec dst_size 0) as [->|Hne]; cbn [negb].
    + obind. rewrite (lcpy_rest_stop _ tail s) by (done || (rewrite length_app; lia)). obind. by rewrite Z.add_0_l.
    + assert (zlen (take (Z.to_nat dst_size) s ++ drop (Z.to_nat dst_size) dst) = zlen dst) as Hlen.
      { unfold zlen. rewrite length_app, length_take, length_drop. unfold zlen in *. lia. }
      rewrite Nat.add_0_l. rewrite mem_write_ok by (rewrite ?Hlen; change (zlen [0]) with 1; lia). obind.
      assert (drop (Z.to_nat dst_size) (s ++ 0 :: tail) = drop (Z.to_nat dst_size) s ++ 0 :: tail) as Ed by (rewrite drop_app_le; [done|lia]).
      rewrite (lcpy_rest_stop _ tail (drop (Z.to_nat dst_size) s)); [|lia|done| |rewrite length_drop, length_app; lia].
      2: { rewrite forallb_forall in Hs |- *. intros x Hx. apply Hs. rewrite <- (take_drop (Z.to_nat dst_size) s). apply in_or_app. by right. }
      obind. f_equal. f_equal; [unfold zlen in *; rewrite length_drop; lia|]. unfold zsplice. cbn [length].
      rewrite take_app_le by (rewrite length_take; lia). rewrite take_take. replace (_ `min` _)%nat with (Z.to_nat (dst_size - 1)) by lia.
      cbn [app]. do 2 f_equal. rewrite drop_app_ge by (rewrite length_take; lia). rewrite length_take, drop_drop.
      apply (f_equal (fun k => drop k dst)). unfold zlen in *. lia.
Qed.

Lemma strlcpy_exact_witness :
  lcpyT [9; 9; 9; 9] str#"abcdef" 0 = Fault OutOfBounds /\
  lcpyT [9; 9; 9; 9; 9] (str#"abcdef" ++ [0; 7]) 4 = Ret (6, [97; 98; 99; 0; 9]) /\
  lcpyT [9; 9; 9; 9; 9] (str#"ab" ++ [0; 7]) 4 = Ret (2, [97; 98; 0; 9; 9]).
Proof.
  split; [reflexivity|]. split.
  - exact (strlcpy_exact str#"abcdef" [7] [9; 9; 9; 9; 9] 4 eq_refl ltac:(split; discriminate)).
  - exact (strlcpy_exact str#"ab" [7] [9; 9; 9; 9; 9] 4 eq_refl ltac:(split; discriminate)).
Defined.
