(* ===== verification/PatternProofs.v ===== *)
(** [MatchPattern] of [zutils/base/strings/string_util.cc] is the glob its header
    describes: what [*], [?] and the backslash mean is defined here, and the
    function computes it for patterns of up to sixteen wildcards. *)
From Stdlib Require Import ZArith Lia Bool Ascii String.
From stdpp Require Import base list numbers strings.
From S2P Require Import Prelude Strings.

Open Scope Z_scope.

(** * Globs *)
Inductive item := Lit (c : Z) | Maybe | Star | Never.

(** The items of a pattern; a backslash at its end matches nothing. *)
Fixpoint items (pattern : bytes) : list item :=
  match pattern with
  | [] => []
  | c :: k =>
      if c =? ch#"*" then Star :: items k
      else if c =? ch#"?" then Maybe :: items k
      else if c =? ch#"\" then match k with [] => [Never] | d :: k => Lit d :: items k end
      else Lit c :: items k
  end.

(** [?] is zero or one character, [*] zero or more. *)
Fixpoint glob (p : list item) (s : bytes) : bool :=
  match p with
  | [] => match s with [] => true | _ => false end
  | Lit c :: p => match s with x :: s => (c =? x) && glob p s | [] => false end
  | Maybe :: p => glob p s || match s with _ :: s => glob p s | [] => false end
  | Star :: p => (fix tails (s : bytes) : bool := glob p s || match s with [] => false | _ :: s => tails s end) s
  | Never :: _ => false
  end.

Fixpoint wildcards (p : list item) : Z :=
  match p with
  | [] => 0
  | (Maybe | Star) :: p => 1 + wildcards p
  | _ :: p => wildcards p
  end.

Lemma wildcards_nonneg p : 0 <= wildcards p.
Proof. induction p as [|[c| | |] p IH]; cbn [wildcards]; lia. Qed.

Lemma glob_star p x s : glob (Star :: p) (x :: s) = glob p (x :: s) || glob (Star :: p) s.
Proof. done. Qed.
Lemma glob_star_nil p : glob (Star :: p) [] = glob p [].
Proof. cbn. by rewrite orb_false_r. Qed.

Section Ascii.
Context (next : bytes -> Z * bytes).
(** The decoder takes an ASCII character for itself. *)
Hypothesis next_ascii : forall c l, 0 <= c < 128 -> next (c :: l) = (c, l).
Definition ascii (l : bytes) : Prop := Forall (fun c => 0 <= c < 128) l.

Lemma IsWildcard_items c k : IsWildcard c = true -> items (c :: k) = (if c =? ch#"*" then Star else Maybe) :: items k.
Proof.
  unfold IsWildcard. cbn [items]. destruct (c =? ch#"*"); [done|]. destruct (c =? ch#"?"); done.
Qed.
Lemma not_wildcard_items c k :
  IsWildcard c = false ->
  items (c :: k) = if c =? ch#"\" then match k with [] => [Never] | d :: k => Lit d :: items k end else Lit c :: items k.
Proof. unfold IsWildcard. intros H. apply orb_false_iff in H as [H1 H2]. cbn [items]. by rewrite H1, H2. Qed.

(** Only wildcards match the empty string. *)
Lemma glob_empty p : glob (items p) [] = forallb IsWildcard p.
Proof.
  induction p as [|c k IH]; [done|]. destruct (IsWildcard c) eqn:Hc.
  - rewrite IsWildcard_items by done. cbn [forallb]. rewrite Hc. cbn [andb]. rewrite <- IH.
    destruct (c =? ch#"*"); [apply glob_star_nil|]. cbn [glob]. by rewrite orb_false_r.
  - rewrite not_wildcard_items by done. cbn [forallb]. rewrite Hc. destruct (c =? ch#"\"), k; done.
Qed.

Lemma EatWildcard_spec fuel : forall p,
  ascii p -> (length p <= fuel)%nat ->
  exists a b, p = a ++ b /\ forallb IsWildcard a = true /\ match b with c :: _ => IsWildcard c = false | [] => True end /\
    EatWildcard next fuel p = Ret b.
Proof.
  induction fuel as [|fuel IH]; intros p Hp Hl; (destruct p as [|c k]; [by exists [], []|]); [cbn in Hl; lia|].
  cbn [EatWildcard]. destruct (IsWildcard c) eqn:Hc; cbn [negb]; [|by exists [], (c :: k)].
  apply Forall_cons_iff in Hp as [Hpc Hp]. rewrite next_ascii by done. cbn [snd]. cbn in Hl.
  destruct (IH k Hp ltac:(lia)) as (a & b & -> & Ha & Hb & E). exists (c :: a), b. cbn [forallb app]. by rewrite Hc.
Qed.
Lemma EatWildcard_empty fuel p :
  ascii p -> (length p <= fuel)%nat ->
  exists r, EatWildcard next fuel p = Ret r /\ bool_decide (r = []) = glob (items p) [].
Proof.
  intros Hp Hl. destruct (EatWildcard_spec fuel p Hp Hl) as (a & b & -> & Ha & Hb & E). exists b. split; [done|].
  rewrite glob_empty, forallb_app, Ha. destruct b as [|c b]; [done|]. cbn [forallb]. by rewrite Hb.
Qed.

(** Wildcards behind a star change nothing. *)
Lemma star_absorbs a b s : forallb IsWildcard a = true -> glob (Star :: items (a ++ b)) s = glob (Star :: items b) s.
Proof.
  revert s. induction a as [|c a IH]; intros s Ha; [done|]. cbn [forallb] in Ha. apply andb_true_iff in Ha as [Hc Ha].
  cbn [app]. rewrite IsWildcard_items by done. rewrite <- (IH s Ha). set (p := items (a ++ b)). clear IH.
  destruct (c =? ch#"*").
  - induction s as [|x s IHs].
    + rewrite !glob_star_nil. done.
    + rewrite glob_star, IHs, glob_star. by destruct (glob p (x :: s)), (glob (Star :: p) s).
  - induction s as [|x s IHs].
    + rewrite !glob_star_nil. cbn [glob]. by rewrite orb_false_r.
    + rewrite glob_star, IHs, (glob_star p). change (glob (Maybe :: p) (x :: s)) with (glob p (x :: s) || glob p s).
      assert (glob p s = true -> glob (Star :: p) s = true) as H by (intros H; destruct s; [by rewrite glob_star_nil|by rewrite glob_star, H]).
      destruct (glob p (x :: s)), (glob p s); cbn [orb]; try done; by rewrite H.
Qed.
Lemma wildcards_app a b : forallb IsWildcard a = true -> wildcards (items b) <= wildcards (items (a ++ b)).
Proof.
  induction a as [|c a IH]; intros Ha; [done|]. cbn [forallb] in Ha. apply andb_true_iff in Ha as [Hc Ha].
  cbn [app]. rewrite IsWildcard_items by done. specialize (IH Ha). destruct (c =? ch#"*"); cbn [wildcards]; lia.
Qed.

(** ** The characters both begin with *)
Definition stuck (p s : bytes) : Prop :=
  match s, p with
  | [], _ | _, [] => True
  | x :: _, c :: _ => IsWildcard c = true \/ IsWildcard c = false /\ glob (items p) s = false
  end.

Lemma EatSameChars_spec n : forall fuel p s,
  (length p <= n)%nat -> (length p < fuel)%nat -> ascii p -> ascii s ->
  exists p' s', EatSameChars next fuel p s None = Ret (p', s') /\ glob (items p) s = glob (items p') s' /\
    stuck p' s' /\ ascii p' /\ ascii s' /\ wildcards (items p') <= wildcards (items p).
Proof.
  induction n as [|n IH]; intros fuel p s Hn Hf Hp Hs; (destruct fuel as [|fuel]; [lia|]); cbn [EatSameChars].
  - destruct p; [|cbn in Hn; lia]. exists [], s. split_and!; try done. by destruct s.
  - destruct p as [|c k]; [exists [], s; split_and!; try done; by destruct s|].
    destruct s as [|x s]; [by exists (c :: k), []|].
    destruct (IsWildcard c) eqn:Hc; cbn [andb].
    { exists (c :: k), (x :: s). split_and!; try done. by left. }
    pose proof Hp as Hp0. pose proof Hs as Hs0. apply Forall_cons_iff in Hp as [Hpc Hp]. apply Forall_cons_iff in Hs as [Hsx Hs].
    cbn in Hn, Hf. rewrite not_wildcard_items by done. destruct (Z.eqb_spec c ch#"\") as [->|Hb].
    + rewrite next_ascii by done. cbn [snd]. destruct fuel as [|fuel]; [lia|]. cbn [EatSameChars].
      destruct k as [|d k]; [by exists [], (x :: s)|]. cbn [andb]. cbn in Hn, Hf.
      apply Forall_cons_iff in Hp as [Hpd Hp]. rewrite !next_ascii by done. cbn [glob wildcards].
      destruct (Z.eqb_spec d x) as [->|Hd].
      * rewrite (proj2 (Z.eqb_neq x CBU_SENTINEL)) by (unfold CBU_SENTINEL; lia). cbn [negb andb].
        apply IH; [lia|lia|done|done].
      * exists (ch#"\" :: d :: k), (x :: s). split_and!; try done.
        -- rewrite not_wildcard_items by done. cbn [glob]. change (ch#"\" =? ch#"\") with true. cbn iota. cbn [glob].
           by rewrite (proj2 (Z.eqb_neq d x)).
        -- right. split; [done|]. rewrite not_wildcard_items by done. change (ch#"\" =? ch#"\") with true. cbn iota. cbn [glob].
           by rewrite (proj2 (Z.eqb_neq d x)).
    + rewrite !next_ascii by done. cbn [glob wildcards]. destruct (Z.eqb_spec c x) as [->|Hd].
      * rewrite (proj2 (Z.eqb_neq x CBU_SENTINEL)) by (unfold CBU_SENTINEL; lia). cbn [negb andb].
        apply IH; [lia|lia|done|done].
      * exists (c :: k), (x :: s). rewrite not_wildcard_items by done. rewrite (proj2 (Z.eqb_neq c ch#"\")) by done. cbn [default from_option id].
        split_and!; try done.
        -- cbn [glob]. by rewrite (proj2 (Z.eqb_neq c x)).
        -- right. split; [done|]. rewrite not_wildcard_items by done. rewrite (proj2 (Z.eqb_neq c ch#"\")) by done. cbn [glob].
           by rewrite (proj2 (Z.eqb_neq c x)).
Qed.

(** ** The function *)
Lemma MatchPatternT_glob levels : forall eval p depth,
  ascii eval -> ascii p -> wildcards (items p) < Z.of_nat levels -> depth + wildcards (items p) <= kMaxDepth ->
  MatchPatternT next levels eval p depth = Ret (glob (items p) eval).
Proof.
  induction levels as [|levels IH]; intros eval p depth He Hp Hw Hd; pose proof (wildcards_nonneg (items p)); [lia|].
  cbn [MatchPatternT]. rewrite (proj2 (Z.ltb_ge _ _)) by lia.
  destruct (EatSameChars_spec (length p) (S (length p)) p eval ltac:(lia) ltac:(lia) Hp He) as (q & s & E & Eg & Hst & Hq & Hs & Hwq).
  rewrite E, Eg. obind. clear E Eg. destruct s as [|x s].
  { destruct (EatWildcard_empty (length q) q Hq ltac:(lia)) as (r & Er & Hr). rewrite Er. obind. by rewrite Hr. }
  destruct q as [|c k]; [done|]. cbn [stuck] in Hst.
  pose proof Hq as Hq0. apply Forall_cons_iff in Hq as [Hqc Hq]. pose proof Hs as Hs0. apply Forall_cons_iff in Hs as [Hsx Hs].
  rewrite !next_ascii by done. cbn [snd]. destruct Hst as [Hc|[Hc Hg]].
  2: { assert ((c =? ch#"?") = false /\ (c =? ch#"*") = false) as [H1 H2].
       { unfold IsWildcard in Hc. apply orb_false_iff in Hc as [? ?]. done. }
       rewrite H1, H2, Hg. done. }
  rewrite IsWildcard_items in Hwq |- * by done. destruct (Z.eqb_spec c ch#"*") as [->|Hne].
  - change (ch#"*" =? ch#"?") with false. cbn iota. obind. cbn [wildcards] in Hwq.
    destruct (EatWildcard_spec (length (ch#"*" :: k)) k Hq ltac:(cbn; lia)) as (a & b & -> & Ha & Hb & E). rewrite E. obind. clear E.
    rewrite star_absorbs by done. assert (ascii b) as Hbb by (by apply Forall_app in Hq as [_ ?]).
    pose proof (wildcards_app a b Ha).
    destruct (EatWildcard_empty (length (ch#"*" :: a ++ b)) (ch#"*" :: a ++ b) Hq0 ltac:(lia)) as (r & Er & Hr).
    rewrite IsWildcard_items in Hr by done. change (ch#"*" =? ch#"*") with true in Hr. cbn iota in Hr. rewrite star_absorbs in Hr by done.
    rewrite (IH (x :: s) b) by (done || lia). obind. rewrite glob_star. destruct (glob (items b) (x :: s)); [done|]. cbn [orb].
    clear x Hsx Hs0. induction s as [|x s IHs]; [rewrite Er; obind; by rewrite Hr|].
    rewrite (IH (x :: s) b) by (done || lia). obind. rewrite glob_star. destruct (glob (items b) (x :: s)); [done|]. cbn [orb].
    apply IHs. by apply Forall_cons_iff in Hs as [_ ?].
  - assert (c = ch#"?") as ->.
    { unfold IsWildcard in Hc. apply orb_true_iff in Hc as [Hc|Hc]; apply Z.eqb_eq in Hc; [done|done]. }
    change (ch#"?" =? ch#"?") with true. cbn iota. cbn [wildcards] in Hwq.
    rewrite (IH (x :: s) k) by (done || lia). obind. cbn [glob]. destruct (glob (items k) (x :: s)); [done|].
    rewrite (IH s k) by (done || lia). obind. cbn [orb]. by destruct (glob (items k) s).
Qed.
End Ascii.

(** For ASCII strings and patterns of at most sixteen wildcards,
    [MatchPattern] ends and computes the glob: a star any characters, a question
    mark one or none, a backslash the character behind it as it is. *)
Theorem MatchPattern_glob (next : bytes -> Z * bytes) (eval pattern : bytes) :
  (forall c l, 0 <= c < 128 -> next (c :: l) = (c, l)) -> ascii eval -> ascii pattern -> wildcards (items pattern) <= 16 ->
  MatchPattern next eval pattern = Ret (glob (items pattern) eval).
Proof. intros Hn He Hp Hw. apply MatchPatternT_glob; [done|done|done|lia|unfold kMaxDepth; lia]. Qed.

(** A decoder of single bytes. *)
Definition next_byte (l : bytes) : Z * bytes := match l with c :: l => (c, l) | [] => (-1, []) end.

Lemma MatchPattern_glob_witness :
  MatchPattern next_byte str#"www.ba?du.com" str#"*.ba\?u.*" = Ret false /\
  MatchPattern next_byte str#"www.ba?du.com" str#"*.ba\?d?u.*" = Ret true /\
  MatchPattern next_byte str#"a" (concat (replicate 17 str#"?a")) = Ret false.
Proof.
  assert (forall l, forallb (fun c => (0 <=? c) && (c <? 128)) l = true -> ascii l) as Ha.
  { intros l H. apply Forall_forall. intros c Hc. rewrite forallb_forall in H.
    assert ((0 <=? c) && (c <? 128) = true) as E by (by apply H, list_elem_of_In). apply andb_true_iff in E. lia. }
  split; [|split; [|vm_compute; reflexivity]].
  - exact (MatchPattern_glob next_byte str#"www.ba?du.com" str#"*.ba\?u.*" (fun c l _ => eq_refl)
      (Ha str#"www.ba?du.com" eq_refl) (Ha str#"*.ba\?u.*" eq_refl)
      ltac:(vm_compute; discriminate)).
  - exact (MatchPattern_glob next_byte str#"www.ba?du.com" str#"*.ba\?d?u.*" (fun c l _ => eq_refl)
      (Ha str#"www.ba?du.com" eq_refl) (Ha str#"*.ba\?d?u.*" eq_refl)
      ltac:(vm_compute; discriminate)).
Defined.
