(* ===== verification/Tokenizer.v ===== *)
(** [zutils/base/strings/string_tokenizer.h], the instance for [std::string]:
    cutting a string at delimiters, with quotes and with the delimiters returned. *)
From Stdlib Require Import ZArith Lia Bool Ascii String.
From stdpp Require Import base list numbers strings.
From S2P Require Import Prelude Strings StringsProofs.

Open Scope Z_scope.

Definition RETURN_DELIMS : Z := 1.

(** [StringTokenizerT]: its iterators are offsets into [t_string]. *)
Record tokenizer := Tokenizer {
  t_string : bytes; delims_ : bytes; quotes_ : bytes; options_ : Z;
  token_begin_ : Z; token_end_ : Z; token_is_delim_ : bool }.
Definition Init (string delims : bytes) : tokenizer := Tokenizer string delims [] 0 0 0 false.
Definition set_options (options : Z) (t : tokenizer) : tokenizer :=
  Tokenizer (t_string t) (delims_ t) (quotes_ t) options (token_begin_ t) (token_end_ t) (token_is_delim_ t).
Definition set_quote_chars (quotes : bytes) (t : tokenizer) : tokenizer :=
  Tokenizer (t_string t) (delims_ t) quotes (options_ t) (token_begin_ t) (token_end_ t) (token_is_delim_ t).
Definition Reset (t : tokenizer) : tokenizer :=
  Tokenizer (t_string t) (delims_ t) (quotes_ t) (options_ t) (token_begin_ t) 0 (token_is_delim_ t).
Definition token (t : tokenizer) : bytes := substr (t_string t) (token_begin_ t) (token_end_ t - token_begin_ t).

(** The state behind a call of [GetNext], and what is left of the string. *)
Definition at_token (t : tokenizer) (b e : Z) (is_delim : bool) : tokenizer :=
  Tokenizer (t_string t) (delims_ t) (quotes_ t) (options_ t) b e is_delim.
Definition remaining (t : tokenizer) : bytes := drop (Z.to_nat (token_end_ t)) (t_string t).

Definition IsDelim (t : tokenizer) (c : Z) : bool := is_in (delims_ t) c.
Definition IsQuote (t : tokenizer) (c : Z) : bool := is_in (quotes_ t) c.

(** The loops of [QuickGetNext]; [l] is the string from [token_end_] on. *)
Fixpoint quick_skip (t : tokenizer) (l : bytes) (token_end_ : Z) : option (Z * bytes) :=
  match l with
  | [] => None
  | c :: l => if IsDelim t c then quick_skip t l (token_end_ + 1) else Some (token_end_, l)
  end.
Fixpoint quick_word (t : tokenizer) (l : bytes) (token_end_ : Z) : Z :=
  match l with
  | [] => token_end_
  | c :: l => if IsDelim t c then token_end_ else quick_word t l (token_end_ + 1)
  end.
Definition QuickGetNext (t : tokenizer) : bool * tokenizer :=
  match quick_skip t (remaining t) (token_end_ t) with
  | None => (false, at_token t (zlen (t_string t)) (zlen (t_string t)) false)
  | Some (b, l) => (true, at_token t b (quick_word t l (b + 1)) false)
  end.

(** [AdvanceState] and [AdvanceOne] *)
Record advance_state := AdvanceState { in_quote : bool; in_escape : bool; quote_char : Z }.
Definition fresh : advance_state := AdvanceState false false 0.
Definition AdvanceOne (t : tokenizer) (st : advance_state) (c : Z) : bool * advance_state :=
  if in_quote st then
    (true,
     if in_escape st then AdvanceState true false (quote_char st)
     else if c =? 92 then AdvanceState true true (quote_char st)
     else if c =? quote_char st then AdvanceState false (in_escape st) (quote_char st)
     else st)
  else if IsDelim t c then (false, st)
  else (true, AdvanceState (IsQuote t c) (in_escape st) c).

(** The loops of [FullGetNext]; the first ends at a delimiter to return ([inl]), or
    behind the first character of a word ([inr]). *)
Fixpoint full_skip (t : tokenizer) (l : bytes) (st : advance_state) (token_end_ : Z)
    : option (Z + Z * bytes * advance_state) :=
  match l with
  | [] => None
  | c :: l =>
      let '(word, st) := AdvanceOne t st c in
      if word : bool then Some (inr (token_end_, l, st))
      else if negb (Z.land (options_ t) RETURN_DELIMS =? 0) then Some (inl token_end_)
      else full_skip t l st (token_end_ + 1)
  end.
Fixpoint full_word (t : tokenizer) (l : bytes) (st : advance_state) (token_end_ : Z) : Z :=
  match l with
  | [] => token_end_
  | c :: l =>
      let '(word, st) := AdvanceOne t st c in
      if word : bool then full_word t l st (token_end_ + 1) else token_end_
  end.
Definition FullGetNext (t : tokenizer) : bool * tokenizer :=
  match full_skip t (remaining t) fresh (token_end_ t) with
  | None => (false, at_token t (zlen (t_string t)) (zlen (t_string t)) false)
  | Some (inl b) => (true, at_token t b (b + 1) true)
  | Some (inr (b, l, st)) => (true, at_token t b (full_word t l st (b + 1)) false)
  end.
Definition GetNext (t : tokenizer) : bool * tokenizer :=
  if bool_decide (quotes_ t = []) && (options_ t =? 0) then QuickGetNext t else FullGetNext t.

(** * All tokens of a string
    [while (t.GetNext()) ... t.token() ... t.token_is_delim()] *)
Fixpoint all_tokens (fuel : nat) (t : tokenizer) : outcome (list (bool * bytes)) :=
  match fuel with
  | O => Fault OutOfFuel
  | S fuel =>
      let '(more, t) := GetNext t in
      if more : bool then ts ← all_tokens fuel t; Ret ((token_is_delim_ t, token t) :: ts) else Ret []
  end.

(** ** One token *)
(** The rest of a word from a state on, and what follows it. *)
Fixpoint run (t : tokenizer) (st : advance_state) (l : bytes) : bytes * bytes :=
  match l with
  | [] => ([], [])
  | c :: l' =>
      let '(word, st) := AdvanceOne t st c in
      if word : bool then let '(w, r) := run t st l' in (c :: w, r) else ([], l)
  end.

Lemma full_word_run t l : forall st e, full_word t l st e = e + zlen (fst (run t st l)).
Proof.
  induction l as [|c l IH]; intros st e; cbn [full_word run]; [change (zlen (fst ([] : bytes, [] : bytes))) with 0; lia|].
  destruct (AdvanceOne t st c) as [[] st']; [|change (zlen (fst ([] : bytes, c :: l))) with 0; lia].
  rewrite IH. destruct (run t st' l). cbn [fst]. rewrite zlen_cons. lia.
Qed.
Lemma run_app t l : forall st, fst (run t st l) ++ snd (run t st l) = l.
Proof.
  induction l as [|c l IH]; intros st; cbn [run]; [done|]. destruct (AdvanceOne t st c) as [[] st']; [|done].
  specialize (IH st'). destruct (run t st' l). cbn [fst snd app] in *. by rewrite IH.
Qed.
Lemma AdvanceOne_fresh t c : AdvanceOne t fresh c = if IsDelim t c then (false, fresh) else (true, AdvanceState (IsQuote t c) false c).
Proof. done. Qed.

(** Without quotes nothing is ever quoted, so the quick functions do the same. *)
Lemma AdvanceOne_unquoted t st c :
  quotes_ t = [] -> in_quote st = false -> exists st', AdvanceOne t st c = (negb (IsDelim t c), st') /\ in_quote st' = false.
Proof.
  intros Hq Hs. unfold AdvanceOne. rewrite Hs. destruct (IsDelim t c); [by eexists|]. eexists. split; [done|].
  cbn. unfold IsQuote. by rewrite Hq.
Qed.
Lemma quick_word_full t l : quotes_ t = [] -> forall st e, in_quote st = false -> full_word t l st e = quick_word t l e.
Proof.
  intros Hq. induction l as [|c l IH]; intros st e Hs; cbn [full_word quick_word]; [done|].
  destruct (AdvanceOne_unquoted t st c Hq Hs) as (st' & -> & Hs'). destruct (IsDelim t c); cbn [negb]; [done|]. by apply IH.
Qed.
Lemma quick_skip_full t l : quotes_ t = [] -> options_ t = 0 -> forall st e, in_quote st = false ->
  match quick_skip t l e with
  | None => full_skip t l st e = None
  | Some (b, r) => exists st', full_skip t l st e = Some (inr (b, r, st')) /\ in_quote st' = false
  end.
Proof.
  intros Hq Ho. induction l as [|c l IH]; intros st e Hs; cbn [full_skip quick_skip]; [done|].
  destruct (AdvanceOne_unquoted t st c Hq Hs) as (st' & -> & Hs'). destruct (IsDelim t c); cbn [negb].
  - rewrite Ho. cbn [negb]. by apply IH.
  - by exists st'.
Qed.
Lemma quick_full t : quotes_ t = [] -> options_ t = 0 -> QuickGetNext t = FullGetNext t.
Proof.
  intros Hq Ho. unfold QuickGetNext, FullGetNext. pose proof (quick_skip_full t (remaining t) Hq Ho fresh (token_end_ t) eq_refl) as H.
  destruct (quick_skip _ _ _) as [[b r]|]; [|by rewrite H]. destruct H as (st' & -> & Hs). by rewrite (quick_word_full t r Hq).
Qed.
Lemma GetNext_full t : GetNext t = FullGetNext t.
Proof.
  unfold GetNext. destruct (bool_decide_reflect (quotes_ t = [])) as [Hq|]; [|done]. destruct (Z.eqb_spec (options_ t) 0); [|done].
  by apply quick_full.
Qed.

Definition returns_delims (t : tokenizer) : bool := negb (Z.land (options_ t) RETURN_DELIMS =? 0).
(** What a call does, by the character that comes next. *)
Lemma next_nil t : remaining t = [] -> fst (FullGetNext t) = false.
Proof. intros E. unfold FullGetNext. by rewrite E. Qed.
Lemma next_delim t c l : remaining t = c :: l -> IsDelim t c = true -> returns_delims t = true ->
  FullGetNext t = (true, at_token t (token_end_ t) (token_end_ t + 1) true).
Proof.
  intros E Hc Hr. unfold FullGetNext. rewrite E. cbn [full_skip]. rewrite AdvanceOne_fresh, Hc. unfold returns_delims in Hr. by rewrite Hr.
Qed.
Lemma full_skip_at t b e d l : forall st i, full_skip (at_token t b e d) l st i = full_skip t l st i.
Proof.
  induction l as [|c l IH]; intros st i; cbn [full_skip]; [done|]. change (AdvanceOne (at_token t b e d) st c) with (AdvanceOne t st c).
  destruct (AdvanceOne t st c) as [[] st']; [done|]. by rewrite IH.
Qed.
Lemma full_word_at t b e d l : forall st i, full_word (at_token t b e d) l st i = full_word t l st i.
Proof.
  induction l as [|c l IH]; intros st i; cbn [full_word]; [done|]. change (AdvanceOne (at_token t b e d) st c) with (AdvanceOne t st c).
  destruct (AdvanceOne t st c) as [[] st']; [|done]. by rewrite IH.
Qed.
Lemma next_skip t c l b d : 0 <= token_end_ t -> remaining t = c :: l -> IsDelim t c = true -> returns_delims t = false ->
  FullGetNext t = FullGetNext (at_token t b (token_end_ t + 1) d).
Proof.
  intros He E Hc Hr. unfold FullGetNext. rewrite E. cbn [full_skip]. rewrite AdvanceOne_fresh, Hc. unfold returns_delims in Hr.
  rewrite Hr. unfold remaining at 1. cbn [at_token t_string token_end_]. unfold remaining in E. rewrite (drop_at_cons _ _ _ _ He E).
  rewrite full_skip_at. destruct (full_skip t l fresh (token_end_ t + 1)) as [[|[[? ?] ?]]|]; [done| |done]. by rewrite full_word_at.
Qed.
Lemma next_word t c l : remaining t = c :: l -> IsDelim t c = false ->
  FullGetNext t = (true, at_token t (token_end_ t) (token_end_ t + 1 + zlen (fst (run t (AdvanceState (IsQuote t c) false c) l))) false).
Proof.
  intros E Hc. unfold FullGetNext. rewrite E. cbn [full_skip]. rewrite AdvanceOne_fresh, Hc. cbn match. by rewrite full_word_run.
Qed.

(** ** The pieces of a string
    Delimiters one by one, and words: a character that is no delimiter and what
    runs on from it without one, quoted delimiters apart. *)
Inductive pieces (t : tokenizer) : bytes -> list (bool * bytes) -> Prop :=
  | pieces_nil : pieces t [] []
  | pieces_delim c l ps : IsDelim t c = true -> pieces t l ps -> pieces t (c :: l) ((true, [c]) :: ps)
  | pieces_word c l w r ps : IsDelim t c = false -> run t (AdvanceState (IsQuote t c) false c) l = (w, r) ->
      pieces t r ps -> pieces t (c :: l) ((false, c :: w) :: ps).

Lemma pieces_exist t n : forall l, (length l <= n)%nat -> exists ps, pieces t l ps.
Proof.
  induction n as [|n IH]; intros l Hl; (destruct l as [|c l]; [exists []; constructor|]); cbn [length] in Hl; [lia|].
  destruct (IsDelim t c) eqn:Hc.
  - destruct (IH l ltac:(lia)) as [ps Hp]. exists ((true, [c]) :: ps). by constructor.
  - destruct (run t (AdvanceState (IsQuote t c) false c) l) as [w r] eqn:Er. pose proof (run_app t l (AdvanceState (IsQuote t c) false c)) as Ha.
    rewrite Er in Ha. apply (f_equal length) in Ha. rewrite length_app in Ha. destruct (IH r ltac:(cbn in Ha; lia)) as [ps Hp].
    eexists. by eapply pieces_word.
Qed.

(** [t'] scans the string of [t] with its delimiters and quotes. *)
Definition same_text (t t' : tokenizer) : Prop :=
  t_string t' = t_string t /\ delims_ t' = delims_ t /\ quotes_ t' = quotes_ t /\ 0 <= token_end_ t'.
Lemma run_same t t' : same_text t t' -> forall l st, run t' st l = run t st l.
Proof.
  intros (_ & Hd & Hq & _). induction l as [|c l IH]; intros st; cbn [run]; [done|].
  assert (AdvanceOne t' st c = AdvanceOne t st c) as -> by (unfold AdvanceOne, IsDelim, IsQuote; by rewrite Hd, Hq).
  destruct (AdvanceOne t st c) as [[] st']; [|done]. by rewrite IH.
Qed.

(** What the loop over [GetNext] gives: the pieces, or the words among them. *)
Lemma all_tokens_pieces t l ps : pieces t l ps -> forall fuel t', same_text t t' -> remaining t' = l -> (length l < fuel)%nat ->
  all_tokens fuel t' = Ret (if returns_delims t' then ps else filter (fun p => fst p = false) ps).
Proof.
  induction 1 as [|c l ps Hc Hp IH|c l w r ps Hc Er Hp IH]; intros fuel t' Hs El Hf; (destruct fuel as [|fuel]; [cbn in Hf; lia|]).
  - cbn [all_tokens]. rewrite GetNext_full. pose proof (next_nil t' El) as H. destruct (FullGetNext t') as [b t'']. cbn [fst] in H. subst b.
    by destruct (returns_delims t').
  - pose proof Hs as (H1 & H2 & H3 & H4). assert (IsDelim t' c = true) as Hc' by (unfold IsDelim in *; by rewrite H2).
    assert (forall b d, remaining (at_token t' b (token_end_ t' + 1) d) = l) as Hr by (intros; by apply (drop_at_cons _ c)).
    assert (forall b d, same_text t (at_token t' b (token_end_ t' + 1) d)) as Hs' by (intros; split_and!; cbn; done || lia).
    cbn [length] in Hf. destruct (returns_delims t') eqn:Ed.
    + cbn [all_tokens]. rewrite GetNext_full, (next_delim t' c l) by done.
      rewrite (IH fuel _ (Hs' _ _) (Hr _ _)) by lia. change (returns_delims (at_token t' (token_end_ t') (token_end_ t' + 1) true)) with (returns_delims t').
      rewrite Ed. cbn. unfold token. cbn [at_token t_string token_begin_ token_end_]. rewrite (substr_at _ [c] l) by (done || (change (zlen [c]) with 1; lia)). done.
    + assert (all_tokens (S fuel) t' = all_tokens (S fuel) (at_token t' 0 (token_end_ t' + 1) false)) as ->.
      { cbn [all_tokens]. rewrite !GetNext_full. by rewrite (next_skip t' c l 0 false). }
      rewrite (IH (S fuel) _ (Hs' _ _) (Hr _ _)) by lia. change (returns_delims (at_token t' 0 (token_end_ t' + 1) false)) with (returns_delims t').
      by rewrite Ed.
  - pose proof Hs as (H1 & H2 & H3 & H4). assert (IsDelim t' c = false) as Hc' by (unfold IsDelim in *; by rewrite H2).
    assert (IsQuote t' c = IsQuote t c) as Hq' by (unfold IsQuote; by rewrite H3).
    pose proof (run_app t l (AdvanceState (IsQuote t c) false c)) as Ha. rewrite Er in Ha. cbn [fst snd] in Ha. subst l.
    cbn [all_tokens]. rewrite GetNext_full, (next_word t' c (w ++ r)) by done. rewrite Hq', (run_same t t' Hs), Er. cbn [fst].
    pose proof (zlen_nonneg w). set (t'' := at_token t' _ _ _).
    assert (remaining t'' = r) as Hr.
    { unfold t'', remaining. cbn [at_token t_string token_end_]. apply (drop_at _ w); [lia|]. by apply (drop_at_cons _ c). }
    rewrite (IH fuel t''); [|split_and!; cbn; done || lia|done|cbn [length] in Hf; rewrite length_app in Hf; lia].
    change (returns_delims t'') with (returns_delims t').
    assert (token t'' = c :: w) as ->; [|by destruct (returns_delims t')].
    unfold token, t''. cbn [at_token t_string token_begin_ token_end_]. apply (substr_at _ (c :: w) r); [rewrite zlen_cons; lia|done].
Qed.

(** ** What the pieces are *)
Definition is_piece (t : tokenizer) (p : bool * bytes) : Prop :=
  match p with
  | (true, w) => exists c, w = [c] /\ IsDelim t c = true
  | (false, w) => exists c k, w = c :: k /\ IsDelim t c = false /\ run t (AdvanceState (IsQuote t c) false c) k = (k, [])
  end.
(** No two words in a row. *)
Fixpoint apart (ps : list (bool * bytes)) : bool :=
  match ps with
  | (false, _) :: ((false, _) :: _) => false
  | _ :: ps => apart ps
  | [] => true
  end.

Lemma run_again t l : forall st w r, run t st l = (w, r) -> run t st w = (w, []) /\ (r = [] \/ exists c k, r = c :: k /\ IsDelim t c = true).
Proof.
  induction l as [|c l IH]; intros st w r; cbn [run].
  - intros [= <- <-]. split; [done|by left].
  - destruct (AdvanceOne t st c) as [[] st'] eqn:Ea.
    + destruct (run t st' l) as [w' r'] eqn:Er. intros [= <- <-]. destruct (IH _ _ _ Er) as [H1 H2]. cbn [run]. by rewrite Ea, H1.
    + intros [= <- <-]. split; [done|right]. exists c, l. split; [done|]. unfold AdvanceOne in Ea. destruct (in_quote st); [done|].
      by destruct (IsDelim t c).
Qed.
Lemma pieces_shape t l ps : pieces t l ps ->
  concat (map snd ps) = l /\ Forall (is_piece t) ps /\ apart ps = true /\
  (forall c k w qs, l = c :: k -> IsDelim t c = true -> ps <> (false, w) :: qs).
Proof.
  induction 1 as [|c l ps Hc Hp (IH1 & IH2 & IH3 & _)|c l w r ps Hc Er Hp (IH1 & IH2 & IH3 & IH4)].
  - split_and!; done.
  - split_and!; cbn; [by rewrite IH1|constructor; [by exists c|done]|done|]. intros. done.
  - destruct (run_again _ _ _ _ _ Er) as [Hw Hr]. pose proof (run_app t l (AdvanceState (IsQuote t c) false c)) as Ha.
    rewrite Er in Ha. cbn [fst snd] in Ha. split_and!; cbn [map concat snd app].
    + by rewrite IH1, Ha.
    + constructor; [|done]. by exists c, w.
    + cbn [apart]. destruct ps as [|[[] w'] ps]; [done|done|]. exfalso. destruct Hr as [->|(d & k & -> & Hd)]; [inversion Hp|].
      by apply (IH4 d k w' ps).
    + intros c' k w' qs [= <- <-] Hc'. congruence.
Qed.

Lemma run_words t l : quotes_ t = [] -> forall st, in_quote st = false -> forall w r, run t st l = (w, r) ->
  forallb (fun x => negb (IsDelim t x)) w = true.
Proof.
  intros Hq. induction l as [|c l IH]; intros st Hs w r; cbn [run]; [by intros [= <- <-]|].
  destruct (AdvanceOne_unquoted t st c Hq Hs) as (st' & -> & Hs'). destruct (IsDelim t c) eqn:Hc; cbn [negb]; [by intros [= <- <-]|].
  destruct (run t st' l) as [w' r'] eqn:Er. intros [= <- <-]. cbn [forallb]. by rewrite Hc, (IH _ Hs' _ _ Er).
Qed.
Lemma pieces_words t l ps : quotes_ t = [] -> pieces t l ps ->
  filter (fun p => fst p = false) ps = map (pair false) (words (IsDelim t) l).
Proof.
  intros Hq. induction 1 as [|c l ps Hc Hp IH|c l w r ps Hc Er Hp IH]; [done| |].
  - rewrite words_delimiter by done. by rewrite filter_cons_False.
  - rewrite filter_cons_True by done. assert (in_quote (AdvanceState (IsQuote t c) false c) = false) as Hs by (unfold IsQuote; cbn; by rewrite Hq).
    pose proof (run_words t l Hq _ Hs w r Er) as Hw. destruct (run_again _ _ _ _ _ Er) as [_ Hr].
    pose proof (run_app t l (AdvanceState (IsQuote t c) false c)) as Ha. rewrite Er in Ha. cbn [fst snd] in Ha. subst l.
    rewrite IH. destruct Hr as [->|(d & k & -> & Hd)].
    + rewrite app_nil_r, words_end; [done|]. cbn [forallb]. by rewrite Hc.
    + change (c :: w ++ d :: k) with ((c :: w) ++ d :: k). rewrite words_word; [by rewrite (words_delimiter _ d)| |done].
      cbn [forallb]. by rewrite Hc.
Qed.

(** Tokens.  The loop over [GetNext] ends, whatever the string, the delimiters
    and the quotes.  With [RETURN_DELIMS] it yields the whole string cut into
    single delimiters and words, no two words in a row, where a word begins with
    no delimiter and runs on across everything but an unquoted delimiter; without
    the option it yields the words alone; and without quotes these are the words
    [Tokenize] finds. *)
Theorem tokenizer_exact (string delims quotes : bytes) :
  let t := set_quote_chars quotes (Init string delims) in
  let fuel := S (length string) in
  (exists ps,
    all_tokens fuel (set_options RETURN_DELIMS t) = Ret ps /\
    all_tokens fuel t = Ret (filter (fun p => fst p = false) ps) /\
    concat (map snd ps) = string /\ Forall (is_piece t) ps /\ apart ps = true) /\
  all_tokens fuel (Init string delims) = Ret (map (pair false) (words (is_in delims) string)).
Proof.
  intros t fuel. split.
  - destruct (pieces_exist t (length string) string (le_n _)) as [ps Hp]. exists ps.
    assert (forall o, same_text t (set_options o t)) as Hs by done.
    destruct (pieces_shape t string ps Hp) as (H1 & H2 & H3 & _). split_and!; [|apply (all_tokens_pieces t string ps Hp); [done..|subst fuel; lia]|done..].
    by rewrite (all_tokens_pieces t string ps Hp fuel (set_options RETURN_DELIMS t)) by (done || (subst fuel; lia)).
  - destruct (pieces_exist (Init string delims) (length string) string (le_n _)) as [ps Hp].
    rewrite (all_tokens_pieces (Init string delims) string ps Hp fuel (Init string delims)) by (done || (subst fuel; lia)).
    change (returns_delims (Init string delims)) with false. cbn match. by rewrite (pieces_words (Init string delims) string ps eq_refl Hp).
Qed.
