(* ===== verification/IpPattern.v ===== *)
(** Patterns of IP addresses, [zutils/net/base/ip_pattern.{h,cc}]: parsing them and
    matching addresses. *)
From Stdlib Require Import ZArith Lia Bool Ascii String.
From stdpp Require Import base list numbers strings.
From S2P Require Import Prelude Numbers Strings StringsProofs Tokenizer.

Open Scope Z_scope.

(** * [IPPattern] *)
(** [ComponentPattern::Range] and the [ranges_] of a [ComponentPattern] *)
Record range := Range { minimum : Z; maximum : Z }.
Abbreviation component_pattern := (list range).
Definition AppendRange (ranges_ : component_pattern) (min max : Z) : component_pattern := ranges_ ++ [Range min max].
Definition ComponentMatch (ranges_ : component_pattern) (value : Z) : bool :=
  existsb (fun r => (value <=? maximum r) && (minimum r <=? value)) ranges_.

Record ip_pattern := IPPattern {
  is_ipv4_ : bool; ip_mask_ : list bool; component_values_ : list Z; component_patterns_ : list component_pattern }.
Definition new_pattern : ip_pattern := IPPattern true [] [] [].

(** [v[i]] of a [std::vector], undefined outside it. *)
Definition at_ {A} (v : list A) (i : Z) : outcome A :=
  match v !! Z.to_nat i with Some x => Ret x | None => Fault OutOfBounds end.

Definition kIPv4AddressSize : Z := 4.

(** The loop of [Match]; [pattern_it] is the rest of [component_patterns_]. *)
Fixpoint Match_loop (p : ip_pattern) (address : bytes) (mask : list bool) (pattern_it : list component_pattern)
    (fixed_value_index address_index : Z) : outcome bool :=
  match mask with
  | [] => Ret true
  | fixed :: mask =>
      b0 ← at_ address address_index;
      '(value_to_test, address_index) ←
        (if is_ipv4_ p then Ret (b0, address_index + 1)
         else b1 ← at_ address (address_index + 1); Ret (u32 (u32 (Z.shiftl b0 8) + b1), address_index + 2));
      if fixed : bool then
        value ← at_ (component_values_ p) fixed_value_index;
        if negb (value =? value_to_test) then Ret false
        else Match_loop p address mask pattern_it (fixed_value_index + 1) address_index
      else
        match pattern_it with
        | [] => Fault OutOfBounds
        | c :: pattern_it =>
            if negb (ComponentMatch c value_to_test) then Ret false
            else Match_loop p address mask pattern_it fixed_value_index address_index
        end
  end.
Definition Match (p : ip_pattern) (address : bytes) : outcome bool :=
  if bool_decide (ip_mask_ p = []) then Ret false
  else
    let address_is_ipv4 := zlen address =? kIPv4AddressSize in
    if negb (Bool.eqb address_is_ipv4 (is_ipv4_ p)) then Ret false
    else Match_loop p address (ip_mask_ p) (component_patterns_ p) 0 0.

(** [ValueTextToInt], with the new content of [*output] *)
Definition ValueTextToInt (p : ip_pattern) (input : bytes) (output : Z) : bool * Z :=
  let '(ok, output) := if is_ipv4_ p then StringToUint input output else HexStringToUInt input output in
  if negb ok then (false, output)
  else if is_ipv4_ p && (255 <? output) then (false, output)
  else if negb (is_ipv4_ p) && (0xFFFF <? output) then (false, output)
  else (ok, output).

(** The body and the loop of [ParseComponentPattern]; [None] is the answer [false]. *)
Definition parse_range (p : ip_pattern) (range : bytes) : option (Z * Z) :=
  let range_pair := Init range str#"-" in
  let '(_, range_pair) := GetNext range_pair in
  let '(ok, min) := ValueTextToInt p (token range_pair) 0 in
  if negb ok then None
  else
    let '(next, range_pair) := GetNext range_pair in
    let '(ok, max) := if next : bool then ValueTextToInt p (token range_pair) min else (true, min) in
    if negb ok then None
    else
      let '(next, _) := GetNext range_pair in
      if next : bool then None else Some (min, max).
Fixpoint parse_ranges (p : ip_pattern) (ranges : list bytes) (pattern : component_pattern) : bool * component_pattern :=
  match ranges with
  | [] => (true, pattern)
  | range :: ranges =>
      match parse_range p range with
      | None => (false, pattern)
      | Some (min, max) => parse_ranges p ranges (AppendRange pattern min max)
      end
  end.
Definition ParseComponentPattern (dcheck_on : bool) (p : ip_pattern) (text : bytes) (pattern : component_pattern)
    : outcome (bool * component_pattern) :=
  ranges ← SplitString dcheck_on text ch#",";
  Ret (parse_ranges p ranges pattern).

(** One round of the loop of [ParsePattern].  A value that is not initialised is
    read only after a conversion that succeeded, which sets it. *)
Definition parse_component (dcheck_on : bool) (p : ip_pattern) (component : bytes) : outcome (bool * ip_pattern) :=
  if bool_decide (component = []) then Ret (false, p)
  else
    let star := bool_decide (component = str#"*") in
    let component := if star then (if is_ipv4_ p then str#"[0-255]" else str#"[0-FFFF]") else component in
    c0 ← at_ component 0;
    if negb star && negb (c0 =? ch#"[") then
      let '(ok, value) := ValueTextToInt p component 0 in
      if negb ok then Ret (false, p)
      else Ret (true, IPPattern (is_ipv4_ p) (ip_mask_ p ++ [true]) (component_values_ p ++ [value]) (component_patterns_ p))
    else
      last ← at_ component (zlen component - 1);
      if negb (last =? ch#"]") then Ret (false, p)
      else if zlen component =? 2 then Ret (false, p)
      else
        '(ok, component_pattern) ← ParseComponentPattern dcheck_on p (substr component 1 (zlen component - 2)) [];
        if negb ok then Ret (false, p)
        else Ret (true, IPPattern (is_ipv4_ p) (ip_mask_ p ++ [false]) (component_values_ p) (component_patterns_ p ++ [component_pattern])).
Fixpoint parse_components (dcheck_on : bool) (components : list bytes) (p : ip_pattern) : outcome (bool * ip_pattern) :=
  match components with
  | [] => Ret (true, p)
  | c :: components =>
      '(ok, p) ← parse_component dcheck_on p c;
      if ok : bool then parse_components dcheck_on components p else Ret (false, p)
  end.
Definition ParsePattern (dcheck_on : bool) (pattern : bytes) (p : ip_pattern) : outcome (bool * ip_pattern) :=
  DCHECK dcheck_on (bool_decide (ip_mask_ p = []))
    (let p := if is_in pattern ch#":" then IPPattern false (ip_mask_ p) (component_values_ p) (component_patterns_ p) else p in
     components ← SplitString dcheck_on pattern (if is_ipv4_ p then ch#"." else ch#":");
     if negb (zlen components =? (if is_ipv4_ p then 4 else 8)) then Ret (false, p)
     else parse_components dcheck_on components p).

(** * What a pattern says *)
(** The component of a pattern: a number, anything, or a list of numbers and ranges. *)
Inductive component :=
  | Exact (ds : bytes)
  | Any
  | OneOf (ranges : list (bytes * option bytes)).

Definition the_base (v4 : bool) : Z := if v4 then 10 else 16.
Definition the_max (v4 : bool) : Z := if v4 then 255 else 0xFFFF.
Definition sep (v4 : bool) : Z := if v4 then ch#"." else ch#":".
Definition number_ok (v4 : bool) (ds : bytes) : bool :=
  negb (bool_decide (ds = [])) && forallb (is_digit (the_base v4)) ds && (number (the_base v4) 0 ds <=? the_max v4).

Definition range_text (r : bytes * option bytes) : bytes := fst r ++ match snd r with None => [] | Some b => ch#"-" :: b end.
Definition component_text (c : component) : bytes :=
  match c with
  | Exact ds => ds
  | Any => str#"*"
  | OneOf rs => ch#"[" :: JoinString (map range_text rs) str#"," ++ str#"]"
  end.
Definition range_ok (v4 : bool) (r : bytes * option bytes) : bool :=
  number_ok v4 (fst r) && match snd r with None => true | Some b => number_ok v4 b end.
Definition component_ok (v4 : bool) (c : component) : bool :=
  match c with
  | Exact ds => number_ok v4 ds
  | Any => true
  | OneOf rs => negb (bool_decide (rs = [])) && forallb (range_ok v4) rs
  end.

(** The numbers a component lets through. *)
Definition range_of (v4 : bool) (r : bytes * option bytes) : range :=
  Range (number (the_base v4) 0 (fst r)) (number (the_base v4) 0 (default (fst r) (snd r))).
Definition accepts (v4 : bool) (c : component) (v : Z) : bool :=
  match c with
  | Exact ds => v =? number (the_base v4) 0 ds
  | Any => true
  | OneOf rs => existsb (fun r => (minimum (range_of v4 r) <=? v) && (v <=? maximum (range_of v4 r))) rs
  end.
Fixpoint accepts_all (v4 : bool) (cs : list component) (vs : list Z) : bool :=
  match cs, vs with
  | c :: cs, v :: vs => accepts v4 c v && accepts_all v4 cs vs
  | _, _ => true
  end.
(** The numbers of an address: its bytes, or its pairs of bytes. *)
Fixpoint pairs (l : bytes) : list Z := match l with a :: b :: l => (a * 256 + b) :: pairs l | _ => [] end.
Definition numbers_of (v4 : bool) (address : bytes) : list Z := if v4 then address else pairs address.

(** ** Numbers *)
Lemma digit_char v4 c : is_digit (the_base v4) c = true -> 48 <= c <= 57 \/ 65 <= c <= 70 \/ 97 <= c <= 102.
Proof. unfold is_digit, CharToDigit. destruct v4; cbn [the_base]; repeat (case_match; try done); lia. Qed.
Lemma number_ok_spec v4 ds : number_ok v4 ds = true -> exists d k, ds = d :: k /\
  forallb (is_digit (the_base v4)) ds = true /\ 0 <= number (the_base v4) 0 ds <= the_max v4.
Proof.
  unfold number_ok. rewrite !andb_true_iff. intros [[Hn Hd] Hm]. destruct ds as [|d k]; [done|]. exists d, k.
  split_and!; [done|done| |lia]. apply number_mono; [destruct v4; cbn; lia|lia|done].
Qed.
Lemma ValueTextToInt_digits p ds output : number_ok (is_ipv4_ p) ds = true ->
  ValueTextToInt p ds output = (true, number (the_base (is_ipv4_ p)) 0 ds).
Proof.
  intros H. destruct (number_ok_spec _ _ H) as (d & k & Ed & Hd & Hm). unfold ValueTextToInt.
  set (v := number (the_base (is_ipv4_ p)) 0 ds) in *. set (t := Traits false 32 (the_base (is_ipv4_ p))).
  assert ((if is_ipv4_ p then StringToUint ds output else HexStringToUInt ds output) = Invoke t ds output) as ->
    by (unfold t; by destruct (is_ipv4_ p)).
  assert (ds = nt_bytes (NumberText [] [] [] ds [])) as E by (unfold nt_bytes; cbn; by rewrite app_nil_r). rewrite E at 1.
  assert (traits_ok t) as Ht by (split; cbn; destruct (is_ipv4_ p); cbn; lia).
  rewrite (Invoke_text t _ output Ht).
  - change (nt_value (kBase t) (NumberText [] [] [] ds [])) with (1 * v). rewrite Z.mul_1_l. unfold nt_negative. cbn [nt_sign nt_space nt_rest].
    rewrite (bool_decide_eq_false_2 ([] = [ch#"-"])), !bool_decide_eq_true_2 by done. cbn [andb].
    unfold in_range, clamp, t, t_min, t_max. cbn [is_signed width]. change (2 ^ 32 - 1) with 4294967295.
    destruct (is_ipv4_ p); cbn [the_max] in *; rewrite ?(proj2 (Z.leb_le _ _)) by lia; cbn [andb negb];
      rewrite (proj2 (Z.ltb_ge _ _)) by lia; f_equal; lia.
  - assert (hex_prefix ds = false) as Hx.
    { unfold hex_prefix. rewrite Ed in *. destruct k as [|x [|y k]]; [done..|]. cbn [forallb] in Hd. rewrite !andb_true_iff in Hd.
      destruct Hd as (_ & Hx & _). pose proof (digit_char _ x Hx). apply andb_false_iff. right. apply orb_false_iff. lia. }
    unfold nt_ok. cbn [nt_space nt_sign nt_prefix nt_digits nt_rest forallb]. rewrite app_nil_r, Hx. change (kBase t) with (the_base (is_ipv4_ p)).
    rewrite !andb_true_iff. split_and!; [done|apply bool_decide_eq_true; by left|by destruct (is_ipv4_ p)|by rewrite Ed|done|done].
Qed.

(** ** Ranges *)
Lemma run_plain t w r : quotes_ t = [] -> forallb (fun x => negb (IsDelim t x)) w = true ->
  (r = [] \/ exists c k, r = c :: k /\ IsDelim t c = true) -> forall st, in_quote st = false -> run t st (w ++ r) = (w, r).
Proof.
  intros Hq. induction w as [|c w IH]; intros Hw Hr st Hs; cbn [app].
  - destruct Hr as [->|(c & k & -> & Hc)]; [done|]. cbn [run]. destruct (AdvanceOne_unquoted t st c Hq Hs) as (st' & -> & _). by rewrite Hc.
  - cbn [forallb] in Hw. apply andb_true_iff in Hw as [Hc Hw]. cbn [run]. destruct (AdvanceOne_unquoted t st c Hq Hs) as (st' & -> & Hs').
    rewrite Hc. by rewrite (IH Hw Hr st' Hs').
Qed.
(** The next token of an unquoted text is the word it begins with. *)
Lemma GetNext_word t w r : quotes_ t = [] -> w <> [] -> forallb (fun x => negb (IsDelim t x)) w = true ->
  (r = [] \/ exists c k, r = c :: k /\ IsDelim t c = true) -> remaining t = w ++ r ->
  exists t', GetNext t = (true, t') /\ token t' = w /\ t' = at_token t (token_end_ t) (token_end_ t + zlen w) false.
Proof.
  intros Hq Hne Hw Hr E. destruct w as [|c w]; [done|]. cbn [forallb] in Hw. apply andb_true_iff in Hw as [Hc Hw]. apply negb_true_iff in Hc.
  rewrite GetNext_full, (next_word t c (w ++ r)) by done.
  rewrite (run_plain t w r Hq Hw Hr) by (unfold IsQuote; cbn; by rewrite Hq). cbn [fst].
  eexists. split; [done|]. rewrite zlen_cons. split; [|f_equal; lia].
  unfold token. cbn [at_token t_string token_begin_ token_end_]. apply (substr_at _ (c :: w) r); [rewrite zlen_cons; lia|done].
Qed.

Definition no_hyphen (w : bytes) : Prop := forallb (fun x => negb (is_in str#"-" x)) w = true.
Lemma digits_not v4 ds c : forallb (is_digit (the_base v4)) ds = true -> is_digit (the_base v4) c = false ->
  forallb (fun x => negb (x =? c)) ds = true.
Proof.
  intros Hd Hc. apply forallb_forall. intros x Hx. rewrite forallb_forall in Hd. specialize (Hd x Hx).
  destruct (Z.eqb_spec x c) as [->|]; [congruence|done].
Qed.
Lemma digits_no_hyphen v4 ds : forallb (is_digit (the_base v4)) ds = true -> no_hyphen ds.
Proof.
  intros Hd. apply (digits_not v4 ds ch#"-") in Hd; [|by destruct v4]. unfold no_hyphen. apply forallb_forall. intros x Hx.
  rewrite forallb_forall in Hd. specialize (Hd x Hx). cbn [is_in existsb]. by rewrite orb_false_r.
Qed.

Lemma parse_range_text p r : range_ok (is_ipv4_ p) r = true ->
  parse_range p (range_text r) = Some (minimum (range_of (is_ipv4_ p) r), maximum (range_of (is_ipv4_ p) r)).
Proof.
  destruct r as [a o]. unfold range_ok, range_of. cbn [fst snd]. intros H. apply andb_true_iff in H as [Ha Ho].
  destruct (number_ok_spec _ _ Ha) as (d & k & Ed & Hd & _). set (t := Init (range_text (a, o)) str#"-").
  destruct (GetNext_word t a (match o with None => [] | Some b => ch#"-" :: b end)) as (t1 & E1 & T1 & S1);
    [done|by rewrite Ed|by apply (digits_no_hyphen (is_ipv4_ p))|destruct o as [b|]; [right; by exists ch#"-", b|by left]|done|].
  unfold parse_range. fold t. rewrite E1, T1, ValueTextToInt_digits by done. cbn [negb].
  assert (remaining t1 = match o with None => [] | Some b => ch#"-" :: b end) as R1.
  { rewrite S1. change (token_end_ t) with 0. by apply (drop_at _ a). }
  destruct o as [b|]; cbn [default].
  - destruct (number_ok_spec _ _ Ho) as (d' & k' & Ed' & Hd' & _).
    assert (GetNext t1 = GetNext (at_token t1 0 (token_end_ t1 + 1) false)) as ->.
    { rewrite !GetNext_full. apply (next_skip t1 ch#"-" b); [rewrite S1; cbn; pose proof (zlen_nonneg a); lia|done|by rewrite S1|by rewrite S1]. }
    set (t2 := at_token t1 0 _ false). assert (remaining t2 = b ++ []) as R2.
    { rewrite app_nil_r. unfold t2, remaining. cbn [at_token t_string token_end_]. apply (drop_at_cons _ ch#"-"); [|done].
      rewrite S1. cbn. pose proof (zlen_nonneg a). lia. }
    destruct (GetNext_word t2 b []) as (t3 & E3 & T3 & S3); [by unfold t2; rewrite S1|by rewrite Ed'| |by left|done|].
    { unfold t2. rewrite S1. by apply (digits_no_hyphen (is_ipv4_ p)). }
    rewrite E3, T3, ValueTextToInt_digits by done. cbn [negb].
    assert (remaining t3 = []) as R3.
    { rewrite S3. unfold remaining. cbn [at_token t_string token_end_]. apply (drop_at _ b); [|done]. unfold t2. rewrite S1. cbn. pose proof (zlen_nonneg a). lia. }
    rewrite GetNext_full. pose proof (next_nil t3 R3) as Hn. destruct (FullGetNext t3) as [n t4]. cbn [fst] in Hn. by subst n.
  - rewrite GetNext_full. pose proof (next_nil t1 R1) as Hn. destruct (FullGetNext t1) as [n t4] eqn:Ef. cbn [fst] in Hn. subst n. cbn [negb].
    assert (t4 = at_token t1 (zlen (t_string t1)) (zlen (t_string t1)) false) as ->.
    { unfold FullGetNext in Ef. rewrite R1 in Ef. cbn [full_skip] in Ef. by injection Ef as <-. }
    rewrite GetNext_full. set (t5 := at_token _ _ _ _). pose proof (next_nil t5) as Hn5.
    destruct (FullGetNext t5) as [n t6]. cbn [fst] in Hn5. rewrite Hn5; [done|].
    unfold t5, remaining. cbn [at_token t_string token_end_]. apply (drop_at (t_string t1) (t_string t1) [] 0); [done|]. by rewrite app_nil_r.
Qed.

(** ** Splitting *)
Lemma JoinString_in (ps : list bytes) (s p : bytes) : In p ps -> zlen p <= zlen (JoinString ps s).
Proof.
  induction ps as [|q ps IH]; [done|]. destruct ps as [|r ps]; [intros [->|[]]; cbn; lia|].
  rewrite JoinString_cons, !zlen_app. pose proof (zlen_nonneg s). pose proof (zlen_nonneg q). pose proof (zlen_nonneg (JoinString (r :: ps) s)).
  intros [->|Hp]; [lia|]. specialize (IH Hp). lia.
Qed.
Lemma forallb_join (P : Z -> bool) ps s : forallb (forallb P) ps = true -> forallb P s = true -> forallb P (JoinString ps s) = true.
Proof.
  intros Hps Hs. induction ps as [|p ps IH]; [done|]. cbn [forallb] in Hps. apply andb_true_iff in Hps as [Hp Hps].
  destruct ps as [|q ps]; [done|]. rewrite JoinString_cons, !forallb_app, Hp, Hs. cbn [andb]. by apply IH.
Qed.

Lemma trimmed_plain w : w <> [] -> forallb (fun c => 32 <? c) w = true -> trimmed kWhitespaceASCII w.
Proof.
  intros Hne Hw. assert (forall c, (32 <? c) = true -> is_in kWhitespaceASCII c = false) as Hc.
  { intros c Hc. unfold is_in, kWhitespaceASCII. cbn [existsb]. rewrite !(proj2 (Z.eqb_neq _ _)) by lia. done. }
  rewrite forallb_forall in Hw. destruct (exists_last Hne) as (k & y & E). destruct w as [|x w]; [done|].
  exists x, y. rewrite E at 2. rewrite last_snoc. split_and!; [done|done|apply Hc, Hw; by left|apply Hc, Hw].
  rewrite E. apply in_or_app. right. by left.
Qed.
Lemma split_plain s ps : ps <> [] -> forallb (forallb (fun c => negb (c =? s))) ps = true ->
  forallb (fun w => negb (bool_decide (w = [])) && forallb (fun c => 32 <? c) w) ps = true -> zlen (JoinString ps [s]) < 2 ^ 64 ->
  SplitStringT (JoinString ps [s]) s true = ps.
Proof.
  intros Hne Hs Hp Hl. rewrite SplitStringT_fields, fields_join by done.
  assert (map (cut_field true) ps = ps) as ->.
  { rewrite <- (map_id ps) at 2. apply map_ext_in. intros w Hw. rewrite forallb_forall in Hp. specialize (Hp w Hw).
    apply andb_true_iff in Hp as [Hw1 Hw2]. apply negb_true_iff, bool_decide_eq_false in Hw1. pose proof (JoinString_in ps [s] w Hw).
    unfold cut_field, TrimWhitespace, TrimWhitespaceASCII.
    pose proof (TrimStringT_exact [] w [] kWhitespaceASCII TRIM_ALL eq_refl eq_refl (trimmed_plain w Hw1 Hw2)) as HT.
    rewrite app_nil_r in HT. cbn [app] in HT. rewrite HT by lia. cbn [snd]. change (trailing TRIM_ALL) with true. cbn. by rewrite app_nil_r. }
  destruct ps as [|[|c w] ps]; [done|done|]. by destruct w.
Qed.

(** ** Components *)
Definition ranges_of (v4 : bool) (c : component) : component_pattern :=
  match c with Exact _ => [] | Any => [Range 0 (the_max v4)] | OneOf rs => map (range_of v4) rs end.
Definition is_exact (c : component) : bool := match c with Exact _ => true | _ => false end.
Definition values_of (v4 : bool) (cs : list component) : list Z :=
  concat (map (fun c => match c with Exact ds => [number (the_base v4) 0 ds] | _ => [] end) cs).
Definition patterns_of (v4 : bool) (cs : list component) : list component_pattern :=
  concat (map (fun c => if is_exact c then [] else [ranges_of v4 c]) cs).
(** The pattern some components make. *)
Definition pattern_of (v4 : bool) (cs : list component) : ip_pattern :=
  IPPattern v4 (map is_exact cs) (values_of v4 cs) (patterns_of v4 cs).

Definition component_char (v4 : bool) (c : Z) : bool := is_digit (the_base v4) c || is_in str#"*[],-" c.
Lemma component_char_plain v4 c : component_char v4 c = true -> (32 <? c) = true /\ (c =? ch#".") = false /\ (c =? ch#":") = false.
Proof.
  unfold component_char. intros H. apply orb_true_iff in H as [H|H]; [pose proof (digit_char v4 c H); lia|].
  unfold is_in in H. cbn [existsb] in H. lia.
Qed.
Definition range_char (v4 : bool) (c : Z) : bool := is_digit (the_base v4) c || (c =? ch#"-").
Lemma range_char_plain v4 c : range_char v4 c = true -> component_char v4 c = true /\ (32 <? c) = true /\ (c =? ch#",") = false.
Proof.
  unfold range_char, component_char. intros H. apply orb_true_iff in H as [H|H].
  - pose proof (digit_char v4 c H). rewrite H. split_and!; [done|lia..].
  - apply Z.eqb_eq in H as ->. by rewrite orb_true_r.
Qed.
Lemma range_text_chars v4 r : range_ok v4 r = true -> range_text r <> [] /\ forallb (range_char v4) (range_text r) = true.
Proof.
  destruct r as [a o]. unfold range_ok, range_text. cbn [fst snd]. intros H. apply andb_true_iff in H as [Ha Ho].
  assert (forall ds, number_ok v4 ds = true -> forallb (range_char v4) ds = true) as Hn.
  { intros ds H. destruct (number_ok_spec _ _ H) as (_ & _ & _ & Hd & _). revert Hd. apply forallb_weaken. intros x Hx. unfold range_char. by rewrite Hx. }
  destruct (number_ok_spec _ _ Ha) as (d & k & Ed & _). split; [by rewrite Ed|]. rewrite forallb_app, (Hn a Ha). cbn [andb].
  destruct o as [b|]; [|done]. cbn [forallb]. rewrite (Hn b Ho). unfold range_char. change (ch#"-" =? ch#"-") with true. by rewrite orb_true_r.
Qed.
Lemma ranges_text_chars v4 rs : forallb (range_ok v4) rs = true ->
  forallb (forallb (range_char v4)) (map range_text rs) = true.
Proof.
  intros H. apply forallb_forall. intros w Hw. apply in_map_iff in Hw as (r & <- & Hr). rewrite forallb_forall in H.
  by apply range_text_chars, H.
Qed.
Lemma component_text_chars v4 c : component_ok v4 c = true -> component_text c <> [] /\ forallb (component_char v4) (component_text c) = true.
Proof.
  destruct c as [ds| |rs]; cbn [component_ok component_text]; intros H.
  - destruct (number_ok_spec _ _ H) as (d & k & Ed & Hd & _). split; [by rewrite Ed|]. revert Hd. apply forallb_weaken. intros x Hx.
    unfold component_char. by rewrite Hx.
  - split; [done|]. by destruct v4.
  - apply andb_true_iff in H as [_ H]. split; [done|]. cbn [forallb]. rewrite forallb_app.
    assert (component_char v4 ch#"[" = true) as -> by (by destruct v4).
    assert (forallb (component_char v4) str#"]" = true) as -> by (by destruct v4). rewrite andb_true_r. cbn [andb].
    apply forallb_join; [|by destruct v4]. apply ranges_text_chars in H. revert H. apply forallb_weaken. intros w. apply forallb_weaken.
    intros x Hx. by apply range_char_plain.
Qed.

Lemma parse_ranges_text p rs : forallb (range_ok (is_ipv4_ p)) rs = true -> forall acc,
  parse_ranges p (map range_text rs) acc = (true, acc ++ map (range_of (is_ipv4_ p)) rs).
Proof.
  induction rs as [|r rs IH]; intros H acc; cbn [map parse_ranges forallb] in *; [by rewrite app_nil_r|].
  apply andb_true_iff in H as [Hr H]. rewrite parse_range_text, IH by done. unfold AppendRange. by rewrite <- app_assoc.
Qed.
Lemma ParseComponentPattern_text dcheck_on p rs : rs <> [] -> forallb (range_ok (is_ipv4_ p)) rs = true ->
  zlen (JoinString (map range_text rs) str#",") < 2 ^ 64 ->
  ParseComponentPattern dcheck_on p (JoinString (map range_text rs) str#",") [] = Ret (true, map (range_of (is_ipv4_ p)) rs).
Proof.
  intros Hne H Hl. unfold ParseComponentPattern, SplitString. rewrite !DCHECK_true by done. cbn [mbind outcome_bind].
  pose proof (ranges_text_chars _ _ H) as Hc. rewrite split_plain; [by rewrite parse_ranges_text|by destruct rs| | |done].
  - revert Hc. apply forallb_weaken. intros w. apply forallb_weaken. intros x Hx. destruct (range_char_plain _ _ Hx) as (_ & _ & E). by rewrite E.
  - apply forallb_forall. intros w Hw. apply in_map_iff in Hw as (r & <- & Hr). rewrite forallb_forall in H. apply H, range_text_chars in Hr as [Hn Hr].
    rewrite bool_decide_eq_false_2 by done. cbn [negb andb]. revert Hr. apply forallb_weaken. intros x Hx. by destruct (range_char_plain _ _ Hx) as (_ & ? & _).
Qed.

(** The pattern with one more component. *)
Definition add_component (c : component) (p : ip_pattern) : ip_pattern :=
  IPPattern (is_ipv4_ p) (ip_mask_ p ++ [is_exact c])
    (component_values_ p ++ match c with Exact ds => [number (the_base (is_ipv4_ p)) 0 ds] | _ => [] end)
    (component_patterns_ p ++ if is_exact c then [] else [ranges_of (is_ipv4_ p) c]).
Lemma pattern_of_snoc v4 cs c : pattern_of v4 (cs ++ [c]) = add_component c (pattern_of v4 cs).
Proof.
  unfold pattern_of, add_component, values_of, patterns_of. cbn [is_ipv4_ ip_mask_ component_values_ component_patterns_].
  rewrite !map_app, !concat_app. cbn [map concat]. by rewrite !app_nil_r.
Qed.

(** A bracketed component, or the one ["*"] is replaced by. *)
Lemma parse_bracketed dcheck_on p rs : rs <> [] -> forallb (range_ok (is_ipv4_ p)) rs = true ->
  let component := ch#"[" :: JoinString (map range_text rs) str#"," ++ str#"]" in
  zlen component < 2 ^ 64 ->
  exists last, at_ component (zlen component - 1) = Ret last /\ (last =? ch#"]") = true /\ (zlen component =? 2) = false /\
    ParseComponentPattern dcheck_on p (substr component 1 (zlen component - 2)) [] = Ret (true, map (range_of (is_ipv4_ p)) rs).
Proof.
  intros Hne H. cbv zeta. set (j := JoinString (map range_text rs) str#","). intros Hl. exists ch#"]".
  rewrite zlen_cons, zlen_app in *. change (zlen str#"]") with 1 in *. pose proof (zlen_nonneg j).
  assert (0 < zlen j) as Hj.
  { unfold j. destruct rs as [|r rs]; [done|]. cbn [forallb] in H. apply andb_true_iff in H as [Hr _]. destruct (range_text_chars _ _ Hr) as [Hn _].
    pose proof (JoinString_in (map range_text (r :: rs)) str#"," (range_text r) ltac:(by left)) as Hi.
    destruct (range_text r); [done|]. rewrite zlen_cons in Hi. pose proof (zlen_nonneg l). lia. }
  split_and!.
  - unfold at_. replace (Z.to_nat (1 + (zlen j + 1) - 1)) with (S (length j)) by (unfold zlen; lia).
    change ((ch#"[" :: j ++ str#"]") !! S (length j)) with ((j ++ str#"]") !! length j). by rewrite lookup_app_r, Nat.sub_diag by lia.
  - done.
  - apply Z.eqb_neq. lia.
  - rewrite (substr_at _ j str#"]") by (done || lia). apply ParseComponentPattern_text; [done..|]. fold j. lia.
Qed.

Lemma parse_component_text dcheck_on p c : component_ok (is_ipv4_ p) c = true -> zlen (component_text c) < 2 ^ 64 ->
  parse_component dcheck_on p (component_text c) = Ret (true, add_component c p).
Proof.
  intros H Hl. destruct (component_text_chars _ c H) as [Hne _]. unfold parse_component. rewrite bool_decide_eq_false_2 by done.
  destruct c as [ds| |rs]; cbn [component_ok component_text] in *.
  - destruct (number_ok_spec _ _ H) as (d & k & Ed & Hd & _).
    assert (is_digit (the_base (is_ipv4_ p)) d = true) as Hd1 by (rewrite Ed in Hd; cbn [forallb] in Hd; by apply andb_true_iff in Hd as [? _]).
    pose proof (digit_char _ d Hd1). rewrite bool_decide_eq_false_2 by (rewrite Ed; intros [= -> _]; lia).
    assert (at_ ds 0 = Ret d) as -> by (by rewrite Ed). cbn [mbind outcome_bind negb andb].
    rewrite (proj2 (Z.eqb_neq d _)) by lia. cbn [negb]. rewrite ValueTextToInt_digits by done. cbn [negb]. unfold add_component.
    by rewrite app_nil_r.
  - rewrite bool_decide_eq_true_2 by done.
    set (rs := [(str#"0", Some (if is_ipv4_ p then str#"255" else str#"FFFF"))]).
    assert ((if is_ipv4_ p then str#"[0-255]" else str#"[0-FFFF]") = ch#"[" :: JoinString (map range_text rs) str#"," ++ str#"]") as ->
      by (unfold rs; by destruct (is_ipv4_ p)).
    destruct (parse_bracketed dcheck_on p rs) as (l & E1 & E2 & E3 & E4); [done|unfold rs; by destruct (is_ipv4_ p)..|].
    cbn [negb andb]. change (at_ (ch#"[" :: _) 0) with (Ret (A:=Z) ch#"["). cbn [mbind outcome_bind].
    rewrite E1. cbn [mbind outcome_bind]. rewrite E2, E3. cbn [negb]. rewrite E4. cbn [mbind outcome_bind negb].
    assert (map (range_of (is_ipv4_ p)) rs = ranges_of (is_ipv4_ p) Any) as -> by (unfold rs; by destruct (is_ipv4_ p)).
    unfold add_component. by rewrite app_nil_r.
  - apply andb_true_iff in H as [Hn H]. apply negb_true_iff, bool_decide_eq_false in Hn.
    destruct (parse_bracketed dcheck_on p rs Hn H Hl) as (l & E1 & E2 & E3 & E4).
    rewrite bool_decide_eq_false_2 by done.
    cbn [negb andb]. change (at_ (ch#"[" :: _) 0) with (Ret (A:=Z) ch#"["). cbn [mbind outcome_bind]. change (ch#"[" =? ch#"[") with true. cbn [negb].
    rewrite E1. cbn [mbind outcome_bind]. rewrite E2, E3. cbn [negb]. rewrite E4. cbn [mbind outcome_bind negb]. unfold add_component. by rewrite app_nil_r.
Qed.

Lemma parse_components_text dcheck_on v4 cs : forall done_,
  forallb (component_ok v4) cs = true -> forallb (fun c => zlen (component_text c) <? 2 ^ 64) cs = true ->
  parse_components dcheck_on (map component_text cs) (pattern_of v4 done_) = Ret (true, pattern_of v4 (done_ ++ cs)).
Proof.
  induction cs as [|c cs IH]; intros done_ H Hl; cbn [map parse_components forallb] in *; [by rewrite app_nil_r|].
  apply andb_true_iff in H as [Hc H], Hl as [Hlc Hl]. rewrite (parse_component_text dcheck_on (pattern_of v4 done_) c Hc) by lia.
  cbn [mbind outcome_bind]. rewrite <- pattern_of_snoc, IH by done. by rewrite <- app_assoc.
Qed.

(** ** Matching *)
Definition numbers_ok (v4 : bool) (vs : list Z) : Prop := Forall (fun v => 0 <= v <= the_max v4) vs.
Lemma pairs_ok l : all_bytes l -> numbers_ok false (pairs l).
Proof.
  intros H. assert (forall n l, (length l <= n)%nat -> all_bytes l -> numbers_ok false (pairs l)) as Hn; [|by apply (Hn (length l))].
  clear l H. induction n as [|n IH]; intros [|a [|b l]] Hl H; cbn [pairs length] in *; try constructor; try lia.
  - inversion_clear H as [|? ? Ha Hb']. inversion_clear Hb' as [|? ? Hb _]. unfold is_byte in *. cbn [the_max]. lia.
  - apply IH; [lia|]. inversion_clear H as [|? ? _ Hb']. by inversion_clear Hb'.
Qed.
Lemma numbers_of_ok v4 l : all_bytes l -> numbers_ok v4 (numbers_of v4 l).
Proof.
  intros H. destruct v4; [|by apply pairs_ok]. apply (Forall_impl _ _ _ H). unfold is_byte. cbn. lia.
Qed.

Lemma ComponentMatch_ranges v4 c v : is_exact c = false -> 0 <= v <= the_max v4 -> ComponentMatch (ranges_of v4 c) v = accepts v4 c v.
Proof.
  intros Hc Hv. unfold ComponentMatch. destruct c as [ds| |rs]; cbn [ranges_of accepts]; [done| |].
  - cbn [existsb minimum maximum]. lia.
  - clear Hc. induction rs as [|r rs IH]; [done|]. cbn [map existsb]. rewrite IH. by rewrite andb_comm.
Qed.

Definition step (v4 : bool) : nat := if v4 then 1 else 2.
Lemma Match_loop_accepts v4 p address cs : is_ipv4_ p = v4 -> all_bytes address -> forall pre k n,
  component_values_ p = pre ++ values_of v4 cs -> 0 <= k -> n = zlen pre ->
  length (drop (Z.to_nat k) address) = (step v4 * length cs)%nat ->
  Match_loop p address (map is_exact cs) (patterns_of v4 cs) n k =
    Ret (accepts_all v4 cs (numbers_of v4 (drop (Z.to_nat k) address))).
Proof.
  intros Hp Ha. induction cs as [|c cs IH]; intros pre k n Hv Hk -> Hl; cbn [map Match_loop]; [done|].
  set (rest := drop (Z.to_nat (k + Z.of_nat (step v4))) address).
  assert (exists v, numbers_of v4 (drop (Z.to_nat k) address) = v :: numbers_of v4 rest /\ 0 <= v <= the_max v4 /\
    forall A (f : Z * Z -> outcome A),
      (b0 ← at_ address k;
       r ← (if v4 then Ret (b0, k + 1) else b1 ← at_ address (k + 1); Ret (u32 (u32 (Z.shiftl b0 8) + b1), k + 2)); f r) =
      f (v, k + Z.of_nat (step v4))) as (v & En & Hvr & Hf).
  { assert (forall i, 0 <= i -> at_ address i = match drop (Z.to_nat i) address with b :: _ => Ret b | [] => Fault OutOfBounds end) as Hat.
    { intros i Hi. unfold at_. rewrite <- (Nat.add_0_r (Z.to_nat i)), <- lookup_drop, Nat.add_0_r. by destruct (drop (Z.to_nat i) address). }
    pose proof (Forall_drop is_byte (Z.to_nat k) address Ha) as Hd. destruct (drop (Z.to_nat k) address) as [|b0 l] eqn:E0; [destruct v4; cbn in Hl; lia|].
    pose proof (drop_at_cons address b0 l k Hk E0) as E1. inversion_clear Hd as [|? ? Hb0 Hd']. unfold is_byte in *. destruct v4.
    - exists b0. unfold rest. cbn [step numbers_of the_max]. change (Z.of_nat 1) with 1. rewrite E1. split_and!; [done|lia|lia|]. intros A f. by rewrite Hat, E0.
    - destruct l as [|b1 l]; [cbn in Hl; lia|]. inversion_clear Hd' as [|? ? Hb1 _]. exists (b0 * 256 + b1). unfold rest. cbn [step numbers_of the_max pairs].
      change (Z.of_nat 2) with 2. replace (k + 2) with (k + 1 + 1) by lia. rewrite (drop_at_cons address b1 l (k + 1)) by (done || lia).
      split_and!; [done|lia|lia|]. intros A f. rewrite !Hat, E0, E1 by lia. cbn [mbind outcome_bind]. rewrite Z.shiftl_mul_pow2 by lia.
      change (2 ^ 8) with 256. rewrite (uwrap_small 32 (b0 * 256)), (uwrap_small 32 (_ + _)) by (change (2 ^ 32) with 4294967296; lia). done. }
  rewrite En. cbn [accepts_all]. rewrite Hp, Hf.
  assert (length rest = (step v4 * length cs)%nat) as Hr.
  { unfold rest. rewrite length_drop in *. cbn [length] in Hl. lia. }
  destruct c as [ds| |rs]; cbn [is_exact].
  - assert (at_ (component_values_ p) (zlen pre) = Ret (number (the_base v4) 0 ds)) as ->.
    { unfold at_. rewrite Hv. unfold zlen. rewrite Nat2Z.id. cbn [values_of map concat app]. by rewrite lookup_app_r, Nat.sub_diag by lia. }
    cbn [mbind outcome_bind accepts]. rewrite (Z.eqb_sym v). destruct (Z.eqb_spec (number (the_base v4) 0 ds) v); cbn [negb andb]; [|done].
    apply (IH (pre ++ [number (the_base v4) 0 ds])); [by rewrite Hv, <- app_assoc|lia|by rewrite zlen_app|done].
  - change (patterns_of v4 (Any :: cs)) with (ranges_of v4 Any :: patterns_of v4 cs). cbn iota beta. rewrite ComponentMatch_ranges by done. cbn [accepts negb andb].
    by apply (IH pre); [|lia|..].
  - change (patterns_of v4 (OneOf rs :: cs)) with (ranges_of v4 (OneOf rs) :: patterns_of v4 cs). cbn iota beta. rewrite ComponentMatch_ranges by done.
    destruct (accepts v4 (OneOf rs) v); cbn [negb andb]; [|done]. by apply (IH pre); [|lia|..].
Qed.

Lemma is_in_true set c : In c set -> is_in set c = true.
Proof. intros H. apply existsb_exists. exists c. split; [done|apply Z.eqb_refl]. Qed.

(** Address patterns.  A pattern of four components with dots between them, or
    of eight with colons - numbers, stars and lists of numbers and ranges in
    brackets, none above 255 or FFFF - is parsed, and then matches an address of
    its family exactly when every number of the address is one its component
    names, and no address of the other. *)
Theorem ip_pattern_exact (dcheck_on v4 : bool) (cs : list component) :
  zlen cs = (if v4 then 4 else 8) -> forallb (component_ok v4) cs = true ->
  zlen (JoinString (map component_text cs) [sep v4]) < 2 ^ 64 ->
  exists p, ParsePattern dcheck_on (JoinString (map component_text cs) [sep v4]) new_pattern = Ret (true, p) /\
    forall address, all_bytes address ->
      (zlen address = (if v4 then 4 else 16) -> Match p address = Ret (accepts_all v4 cs (numbers_of v4 address))) /\
      ((zlen address =? 4) = negb v4 -> Match p address = Ret false).
Proof.
  intros Hn Hok Hl. set (text := JoinString _ _) in *. exists (pattern_of v4 cs).
  assert (forall c, In c cs -> component_ok v4 c = true) as Hok' by (by apply forallb_forall).
  assert (forallb (fun w => negb (bool_decide (w = [])) && forallb (component_char v4) w) (map component_text cs) = true) as Hchars.
  { apply forallb_forall. intros w Hw. apply in_map_iff in Hw as (c & <- & Hc). apply Hok', component_text_chars in Hc as [Hne Hc].
    by rewrite bool_decide_eq_false_2, Hc. }
  assert (map component_text cs <> []) as Hne by (destruct cs; [by destruct v4|done]).
  split.
  - unfold ParsePattern. rewrite DCHECK_true by done.
    assert (is_in text ch#":" = negb v4) as ->.
    { destruct v4; cbn [negb].
      - apply not_true_is_false. intros H. apply existsb_exists in H as (x & Hx & Ex). apply Z.eqb_eq in Ex as <-.
        assert (forallb (fun c => negb (c =? ch#":")) text = true) as Ht; [|rewrite forallb_forall in Ht; by apply Ht in Hx].
        apply forallb_join; [|done]. revert Hchars. apply forallb_weaken. intros w Hw. apply andb_true_iff in Hw as [_ Hw]. revert Hw.
        apply forallb_weaken. intros x Hxc. destruct (component_char_plain _ _ Hxc) as (_ & _ & E). by rewrite E.
      - apply is_in_true. unfold text. destruct cs as [|c1 [|c2 cs]]; [done..|]. cbn [map]. rewrite JoinString_cons.
        apply in_or_app. right. by left. }
    assert ((if negb v4 then IPPattern false [] [] [] else new_pattern) = pattern_of v4 []) as Ep by (by destruct v4).
    change (IPPattern false (ip_mask_ new_pattern) _ _) with (IPPattern false [] [] []). rewrite Ep. cbn [pattern_of is_ipv4_ map].
    unfold SplitString. rewrite !DCHECK_true by (by destruct v4). cbn [mbind outcome_bind].
    change (if v4 then 46 else 58) with (sep v4). unfold text. rewrite split_plain; [|done| | |done].
    + unfold zlen in Hn |- *. rewrite length_map, Hn, Z.eqb_refl. cbn [negb].
      change (IPPattern v4 [] (values_of v4 []) (patterns_of v4 [])) with (pattern_of v4 []).
      rewrite (parse_components_text dcheck_on v4 cs []); [done|done|]. apply forallb_forall. intros c Hc. apply Z.ltb_lt.
      pose proof (JoinString_in (map component_text cs) [sep v4] (component_text c) (in_map _ _ _ Hc)). unfold text in Hl. lia.
    + revert Hchars. apply forallb_weaken. intros w Hw. apply andb_true_iff in Hw as [_ Hw]. revert Hw. apply forallb_weaken.
      intros x Hx. destruct (component_char_plain _ _ Hx) as (_ & E1 & E2). unfold sep. destruct v4; [by rewrite E1|by rewrite E2].
    + revert Hchars. apply forallb_weaken. intros w Hw. apply andb_true_iff in Hw as [-> Hw]. revert Hw. apply forallb_weaken.
      intros x Hx. by destruct (component_char_plain _ _ Hx) as (? & _ & _).
  - intros address Ha.
    assert (bool_decide (ip_mask_ (pattern_of v4 cs) = []) = false) as Hm by (destruct cs; [by destruct v4|done]).
    unfold Match. rewrite Hm. cbn [pattern_of is_ipv4_]. change kIPv4AddressSize with 4. split.
    + intros Hz. assert ((zlen address =? 4) = v4) as -> by (rewrite Hz; by destruct v4). rewrite eqb_reflx. cbn [negb].
      apply (Match_loop_accepts v4 (pattern_of v4 cs) address cs eq_refl Ha [] 0 0); [done|lia|done|].
      change (drop (Z.to_nat 0) address) with address. unfold zlen in *. destruct v4; cbn [step]; lia.
    + intros ->. by destruct v4.
Qed.

(** 10.[1-3,7].*.255 *)
Lemma ip_pattern_exact_witness :
  let cs := [Exact str#"10"; OneOf [(str#"1", Some str#"3"); (str#"7", None)]; Any; Exact str#"255"] in
  let text := JoinString (map component_text cs) [sep true] in
  text = str#"10.[1-3,7].*.255" /\
  exists p, ParsePattern true text new_pattern = Ret (true, p) /\
    Match p [10; 2; 9; 255] = Ret true /\ Match p [10; 7; 0; 255] = Ret true /\ Match p [10; 4; 9; 255] = Ret false.
Proof.
  intros cs text. split; [reflexivity|].
  destruct (ip_pattern_exact true true cs eq_refl eq_refl eq_refl) as (p & Hp & Hm). exists p. split; [exact Hp|].
  assert (forall a b, (byteb a && byteb b)%bool = true -> all_bytes [10; a; b; 255]) as Hb.
  { intros a b H. apply andb_true_iff in H as [Ha Hb]. apply byteb_spec in Ha, Hb. repeat constructor; unfold is_byte in *; lia. }
  split_and!.
  - etransitivity; [exact (proj1 (Hm _ (Hb 2 9 eq_refl)) eq_refl)|reflexivity].
  - etransitivity; [exact (proj1 (Hm _ (Hb 7 0 eq_refl)) eq_refl)|reflexivity].
  - etransitivity; [exact (proj1 (Hm _ (Hb 4 9 eq_refl)) eq_refl)|reflexivity].
Defined.
