(* ===== verification/UrlEscape.v ===== *)
(** Escaping for URLs and HTML, [zutils/net/base/escape.cc], the instances for
    [std::string]; [UnescapeForHTML] is the same text for [string16]. *)
From Stdlib Require Import ZArith Lia Bool Ascii String.
From stdpp Require Import base list numbers strings.
From S2P Require Import Prelude Strings StringsProofs.

Open Scope Z_scope.

Section Escaping.
Context (dcheck_on : bool).

(** * Escaping *)
Definition kHexString : bytes := str#"0123456789ABCDEF".
Definition IntToHex (i : Z) : outcome Z :=
  DCHECK dcheck_on (0 <=? i) (DCHECK dcheck_on (i <=? 15) (Ret (znth kHexString i))).

(** [Charmap]: 256 bits in eight words. *)
Definition charmap := list Z.
Definition Contains (map_ : charmap) (c : Z) : bool :=
  negb (Z.land (znth map_ (Z.shiftr c 5)) (u32 (Z.shiftl 1 (Z.land c 31))) =? 0).
Definition kQueryCharmap : charmap :=
  [0xffffffff; 0xfc00987d; 0x78000001; 0xb8000001; 0xffffffff; 0xffffffff; 0xffffffff; 0xffffffff].
Definition kPathCharmap : charmap :=
  [0xffffffff; 0xd400002d; 0x78000000; 0xb8000001; 0xffffffff; 0xffffffff; 0xffffffff; 0xffffffff].
Definition kUrlEscape : charmap :=
  [0xffffffff; 0xf80008fd; 0x78000001; 0xb8000001; 0xffffffff; 0xffffffff; 0xffffffff; 0xffffffff].
Definition kNonASCIICharmap : charmap := [0; 0; 0; 0; 0xffffffff; 0xffffffff; 0xffffffff; 0xffffffff].
Definition kExternalHandlerCharmap : charmap :=
  [0xffffffff; 0x5000080d; 0x68000000; 0xb8000001; 0xffffffff; 0xffffffff; 0xffffffff; 0xffffffff].

(** The loop of [Escape]; its [unsigned] counter reaches every index of a text
    shorter than [2^32]. *)
Fixpoint Escape_loop (text : bytes) (map_ : charmap) (use_plus : bool) (escaped : bytes) : outcome bytes :=
  match text with
  | [] => Ret escaped
  | c :: text =>
      if use_plus && (c =? 32) then Escape_loop text map_ use_plus (escaped ++ str#"+")
      else if Contains map_ c then
        h ← IntToHex (Z.shiftr c 4);
        l ← IntToHex (Z.land c 15);
        Escape_loop text map_ use_plus (((escaped ++ str#"%") ++ [h]) ++ [l])
      else Escape_loop text map_ use_plus (escaped ++ [c])
  end.
Definition Escape (text : bytes) (map_ : charmap) (use_plus : bool) : outcome bytes := Escape_loop text map_ use_plus [].

Definition EscapeQueryParamValue (text : bytes) (use_plus : bool) := Escape text kQueryCharmap use_plus.
Definition EscapePath (path : bytes) := Escape path kPathCharmap false.
Definition EscapeUrlEncodedData (path : bytes) (use_plus : bool) := Escape path kUrlEscape use_plus.
Definition EscapeNonASCII (input : bytes) := Escape input kNonASCIICharmap false.
Definition EscapeExternalHandlerValue (text : bytes) := Escape text kExternalHandlerCharmap false.

(** * Unescaping *)
(** [UnescapeRule] *)
Definition NONE : Z := 0.
Definition NORMAL : Z := 1.
Definition SPACES : Z := 2.
Definition URL_SPECIAL_CHARS : Z := 4.
Definition CONTROL_CHARS : Z := 8.
Definition REPLACE_PLUS_WITH_SPACE : Z := 16.
Definition has (rules flag : Z) : bool := negb (Z.land rules flag =? 0).

Definition kUrlUnescape : list Z :=
  [0; 0; 0; 0; 0; 0; 0; 0; 0; 0; 0; 0; 0; 0; 0; 0;
   0; 0; 0; 0; 0; 0; 0; 0; 0; 0; 0; 0; 0; 0; 0; 0;
   0; 0; 1; 0; 0; 0; 0; 0; 0; 0; 0; 0; 0; 1; 0; 0;
   1; 1; 1; 1; 1; 1; 1; 1; 1; 1; 0; 0; 1; 0; 1; 0;
   0; 1; 1; 1; 1; 1; 1; 1; 1; 1; 1; 1; 1; 1; 1; 1;
   1; 1; 1; 1; 1; 1; 1; 1; 1; 1; 1; 0; 0; 0; 0; 1;
   0; 1; 1; 1; 1; 1; 1; 1; 1; 1; 1; 1; 1; 1; 1; 1;
   1; 1; 1; 1; 1; 1; 1; 1; 1; 1; 1; 0; 0; 0; 1; 0].

(** A character of the text; outside it the access is undefined. *)
Definition char_at (text : bytes) (i : Z) : outcome Z :=
  match text !! Z.to_nat i with Some c => Ret c | None => Fault OutOfBounds end.

(** [UnescapeUnsignedCharAtIndex]: the value, if unescaping succeeds. *)
Definition UnescapeUnsignedCharAtIndex (escaped_text : bytes) (index : Z) : outcome (option Z) :=
  if zlen escaped_text <=? index + 2 then Ret None
  else
    c ← char_at escaped_text index;
    if negb (c =? ch#"%") then Ret None
    else
      most_sig_digit ← char_at escaped_text (index + 1);
      least_sig_digit ← char_at escaped_text (index + 2);
      if IsHexDigit most_sig_digit && IsHexDigit least_sig_digit then
        h ← HexDigitToInt dcheck_on most_sig_digit;
        l ← HexDigitToInt dcheck_on least_sig_digit;
        Ret (Some (u8 (h * 16 + l)))
      else Ret None.

(** [OffsetAdjuster::Adjustment] *)
Record adjustment := Adjustment { original_offset : Z; original_length : Z; output_length : Z }.

(** The two checks for BiDi control characters: how many characters to keep. *)
Definition is_second (v : option Z) (p : Z -> bool) : bool := match v with Some b => p b | None => false end.
Definition bidi_length (escaped_text : bytes) (i first_byte : Z) : outcome (option Z) :=
  alm ← (if first_byte =? 0xD8 then
           second ← UnescapeUnsignedCharAtIndex escaped_text (i + 3);
           Ret (is_second second (fun b => b =? 0x9c))
         else Ret false);
  if alm : bool then Ret (Some 6)
  else if first_byte =? 0xE2 then
    second ← UnescapeUnsignedCharAtIndex escaped_text (i + 3);
    match second with
    | None => Ret None
    | Some second_byte =>
        if (second_byte =? 0x80) || (second_byte =? 0x81) then
          third ← UnescapeUnsignedCharAtIndex escaped_text (i + 6);
          Ret (if is_second third (fun b =>
                    if second_byte =? 0x80 then (b =? 0x8E) || (b =? 0x8F) || ((0xAA <=? b) && (b <=? 0xAE))
                    else (0xA6 <=? b) && (b <=? 0xA9)) then Some 9 else None)
        else Ret None
    end
  else Ret None.

(** Whether a byte below 128 is shown as itself. *)
Definition unescapable (rules first_byte : Z) : outcome bool :=
  t ← char_at kUrlUnescape first_byte;
  Ret (negb (t =? 0) || ((first_byte =? 32) && has rules SPACES) || ((32 <? first_byte) && has rules URL_SPECIAL_CHARS) ||
       ((first_byte <? 32) && has rules CONTROL_CHARS)).

(** The loop of [UnescapeURLWithAdjustmentsImpl] *)
Fixpoint Unescape_loop (fuel : nat) (escaped_text : bytes) (rules i : Z) (result : bytes) (adjustments : list adjustment)
    : outcome (bytes * list adjustment) :=
  if negb (i <? zlen escaped_text) then Ret (result, adjustments)
  else
    match fuel with
    | O => Fault OutOfFuel
    | S fuel =>
        c ← char_at escaped_text i;
        if 128 <=? c then Unescape_loop fuel escaped_text rules (i + 1) (result ++ [c]) adjustments
        else
          first ← UnescapeUnsignedCharAtIndex escaped_text i;
          match first with
          | Some first_byte =>
              kept ← bidi_length escaped_text i first_byte;
              match kept with
              | Some n => Unescape_loop fuel escaped_text rules (i + n) (result ++ substr escaped_text i n) adjustments
              | None =>
                  ok ← (if 0x80 <=? first_byte then Ret true else unescapable rules first_byte);
                  if ok : bool then
                    Unescape_loop fuel escaped_text rules (i + 3) (result ++ [first_byte]) (adjustments ++ [Adjustment i 3 1])
                  else Unescape_loop fuel escaped_text rules (i + 1) (result ++ str#"%") adjustments
              end
          | None =>
              if has rules REPLACE_PLUS_WITH_SPACE && (c =? ch#"+") then
                Unescape_loop fuel escaped_text rules (i + 1) (result ++ [32]) adjustments
              else Unescape_loop fuel escaped_text rules (i + 1) (result ++ [c]) adjustments
          end
    end.
Definition UnescapeURLWithAdjustmentsImpl (escaped_text : bytes) (rules : Z) : outcome (bytes * list adjustment) :=
  if rules =? NONE then Ret (escaped_text, [])
  else Unescape_loop (length escaped_text) escaped_text rules 0 [] [].
Definition UnescapeURLComponent (escaped_text : bytes) (rules : Z) : outcome bytes :=
  '(result, _) ← UnescapeURLWithAdjustmentsImpl escaped_text rules; Ret result.

(** * HTML *)
Definition kCharsToEscape : list (Z * bytes) :=
  [(ch#"<", str#"&lt;"); (ch#">", str#"&gt;"); (ch#"&", str#"&amp;"); (34, str#"&quot;"); (39, str#"&#39;")].
Definition AppendEscapedCharForHTML (c : Z) (output : bytes) : bytes :=
  match List.find (fun p => c =? fst p) kCharsToEscape with
  | Some (_, p) => output ++ p
  | None => output ++ [c]
  end.
Definition EscapeForHTML (input : bytes) : bytes := fold_left (fun result c => AppendEscapedCharForHTML c result) input [].

(** [UnescapeForHTML]: the loop over the entities at an ampersand, and the loop
    over the text. *)
Definition kEscapeToChars : list (bytes * Z) :=
  [(str#"&lt;", ch#"<"); (str#"&gt;", ch#">"); (str#"&amp;", ch#"&"); (str#"&quot;", 34); (str#"&#39;", 39)].
Fixpoint replace_entity (codes : list (bytes * Z)) (text : bytes) (index : Z) : bytes :=
  match codes with
  | [] => text
  | (code, r) :: codes =>
      if bool_decide (find text code index = Some index) then replace text index (zlen code) [r]
      else replace_entity codes text index
  end.
Fixpoint UnescapeHTML_loop (fuel : nat) (text : bytes) (index : Z) : outcome bytes :=
  match text !! Z.to_nat index with
  | None => Ret text
  | Some c =>
      match fuel with
      | O => Fault OutOfFuel
      | S fuel => UnescapeHTML_loop fuel (if c =? ch#"&" then replace_entity kEscapeToChars text index else text) (index + 1)
      end
  end.
Definition UnescapeForHTML (input : bytes) : outcome bytes :=
  match find input str#"&" 0 with
  | None => Ret input
  | Some _ => UnescapeHTML_loop (length input) input 0
  end.

(** * What one character becomes *)
Definition hex_char (i : Z) : Z := znth kHexString i.
Definition escapes (map_ : charmap) (use_plus : bool) (c : Z) : bool := negb (use_plus && (c =? 32)) && Contains map_ c.
Definition esc (map_ : charmap) (use_plus : bool) (c : Z) : bytes :=
  if escapes map_ use_plus c then [ch#"%"; hex_char (Z.shiftr c 4); hex_char (Z.land c 15)]
  else if use_plus && (c =? 32) then str#"+" else [c].
Definition escaped (map_ : charmap) (use_plus : bool) (text : bytes) : bytes := concat (map (esc map_ use_plus) text).

Lemma nibbles c : is_byte c -> 0 <= Z.shiftr c 4 <= 15 /\ 0 <= Z.land c 15 <= 15.
Proof.
  unfold is_byte. intros H. rewrite Z.shiftr_div_pow2 by lia. change 15 with (Z.ones 4). rewrite Z.land_ones by lia. change (2 ^ 4) with 16.
  pose proof (Z.mod_pos_bound c 16 ltac:(lia)). change (Z.ones 4) with 15. split; [|lia].
  split; [apply Z.div_pos; lia|]. apply Z.lt_succ_r, Z.div_lt_upper_bound; lia.
Qed.
Lemma IntToHex_ok i : 0 <= i <= 15 -> IntToHex i = Ret (hex_char i).
Proof. intros H. unfold IntToHex. by rewrite !DCHECK_true by lia. Qed.
Lemma Escape_loop_escaped map_ use_plus text : all_bytes text -> forall acc,
  Escape_loop text map_ use_plus acc = Ret (acc ++ escaped map_ use_plus text).
Proof.
  induction 1 as [|c text Hc Ht IH]; intros acc; cbn [Escape_loop]; [by rewrite app_nil_r|].
  unfold escaped. cbn [map concat]. fold (escaped map_ use_plus text). unfold esc, escapes. destruct (use_plus && (c =? 32)); cbn [negb andb].
  - by rewrite IH, <- app_assoc.
  - destruct (Contains map_ c); [|by rewrite IH, <- app_assoc]. destruct (nibbles c Hc). rewrite !IntToHex_ok by done. cbn [mbind outcome_bind].
    rewrite IH. by rewrite <- !app_assoc.
Qed.

(** * What the unescaper sees
    The value of an escape at the front of a text. *)
Definition hex_value (c : Z) : Z :=
  if (ch#"0" <=? c) && (c <=? ch#"9") then c - ch#"0"
  else if (ch#"A" <=? c) && (c <=? ch#"F") then c - ch#"A" + 10
  else if (ch#"a" <=? c) && (c <=? ch#"f") then c - ch#"a" + 10 else 0.
Definition unhex_at (l : bytes) : option Z :=
  match l with
  | a :: b :: c :: _ => if (a =? ch#"%") && (IsHexDigit b && IsHexDigit c) then Some (u8 (hex_value b * 16 + hex_value c)) else None
  | _ => None
  end.

Lemma char_at_drop text i : 0 <= i -> char_at text i = match drop (Z.to_nat i) text with c :: _ => Ret c | [] => Fault OutOfBounds end.
Proof.
  intros Hi. unfold char_at. revert text. induction (Z.to_nat i) as [|n IH]; intros [|c text]; try done. apply IH.
Qed.
Lemma char_at_past text i l : 0 <= i -> forall j c r, 0 <= j -> drop (Z.to_nat i) text = l -> drop (Z.to_nat j) l = c :: r -> char_at text (i + j) = Ret c.
Proof.
  intros Hi j c r Hj El E. rewrite char_at_drop by lia. rewrite Z2Nat.inj_add by lia. rewrite <- drop_drop, El, E. done.
Qed.
Lemma zlen_drop {A} (l : list A) i : 0 <= i -> i <= zlen l -> zlen (drop (Z.to_nat i) l) = zlen l - i.
Proof. intros H1 H2. unfold zlen in *. rewrite length_drop. lia. Qed.
Lemma drop_past {A} (l : list A) i : zlen l <= i -> drop (Z.to_nat i) l = [].
Proof. intros H. apply drop_ge. unfold zlen in H. lia. Qed.

Lemma HexDigit_value c : IsHexDigit c = true -> HexDigitToInt dcheck_on c = Ret (hex_value c).
Proof. intros H. unfold HexDigitToInt. by rewrite DCHECK_true. Qed.
Lemma unescape_at text i : 0 <= i -> UnescapeUnsignedCharAtIndex text i = Ret (unhex_at (drop (Z.to_nat i) text)).
Proof.
  intros Hi. unfold UnescapeUnsignedCharAtIndex. destruct (Z.leb_spec (zlen text) (i + 2)) as [Hs|Hs].
  - assert (zlen (drop (Z.to_nat i) text) <= 2) as H.
    { destruct (Z.le_gt_cases i (zlen text)); [rewrite zlen_drop by done; lia|]. rewrite drop_past by lia. done. }
    destruct (drop (Z.to_nat i) text) as [|a [|b [|c l]]]; [done..|]. rewrite !zlen_cons in H. pose proof (zlen_nonneg l). lia.
  - pose proof (zlen_drop text i Hi ltac:(lia)) as Hz. destruct (drop (Z.to_nat i) text) as [|a [|b [|c l]]] eqn:E;
      rewrite ?zlen_cons in Hz; try change (zlen (@nil Z)) with 0 in Hz; try lia.
    rewrite <- (Z.add_0_r i) at 1. rewrite (char_at_past text i _ Hi 0 a (b :: c :: l)) by done. cbn [mbind outcome_bind unhex_at].
    destruct (a =? 37); cbn [negb andb]; [|done].
    rewrite (char_at_past text i _ Hi 1 b (c :: l)), (char_at_past text i _ Hi 2 c l) by done. cbn [mbind outcome_bind].
    destruct (IsHexDigit b) eqn:Hb, (IsHexDigit c) eqn:Hc; cbn [andb]; try done. by rewrite !HexDigit_value.
Qed.
Lemma unhex_at_byte l v : unhex_at l = Some v -> is_byte v.
Proof.
  destruct l as [|a [|b [|c l]]]; [done..|]. cbn [unhex_at]. destruct (_ && _); [|done]. intros [= <-]. unfold is_byte.
  apply (uwrap_range 8). lia.
Qed.
Lemma unhex_esc c r : is_byte c -> unhex_at ([ch#"%"; hex_char (Z.shiftr c 4); hex_char (Z.land c 15)] ++ r) = Some c.
Proof.
  intros Hc. pose proof (byte_check (fun c => match unhex_at [ch#"%"; hex_char (Z.shiftr c 4); hex_char (Z.land c 15)] with
    Some v => v =? c | None => false end) ltac:(by vm_compute) c Hc) as H. cbv beta in H.
  cbn [app unhex_at] in *. destruct (_ && _); [|done]. apply Z.eqb_eq in H. by rewrite H.
Qed.

(** ** One round of the loop *)
Definition bidi_kept (l : bytes) (first : Z) : option Z :=
  let second := unhex_at (drop 3 l) in
  if (first =? 0xD8) && is_second second (fun b => b =? 0x9c) then Some 6
  else if (first =? 0xE2) &&
    is_second second (fun b => ((b =? 0x80) || (b =? 0x81)) &&
      is_second (unhex_at (drop 6 l)) (fun d => if b =? 0x80 then (d =? 0x8E) || (d =? 0x8F) || ((0xAA <=? d) && (d <=? 0xAE))
                                                else (0xA6 <=? d) && (d <=? 0xA9)))
  then Some 9 else None.
Definition shown (rules c : Z) : bool :=
  (0x80 <=? c) || negb (znth kUrlUnescape c =? 0) || ((c =? 32) && has rules SPACES) || ((32 <? c) && has rules URL_SPECIAL_CHARS) ||
  ((c <? 32) && has rules CONTROL_CHARS).
(** What a round writes, how many characters it takes, and whether it is an
    adjustment. *)
Definition round (rules : Z) (l : bytes) : bytes * Z * bool :=
  match l with
  | [] => ([], 0, false)
  | c :: _ =>
      if 128 <=? c then ([c], 1, false)
      else match unhex_at l with
           | Some v => match bidi_kept l v with
                       | Some n => (take (Z.to_nat n) l, n, false)
                       | None => if shown rules v then ([v], 3, true) else (str#"%", 1, false)
                       end
           | None => (if has rules REPLACE_PLUS_WITH_SPACE && (c =? ch#"+") then [32] else [c], 1, false)
           end
  end.
Fixpoint rounds (fuel : nat) (rules i : Z) (l : bytes) : bytes * list adjustment :=
  match fuel, l with
  | S fuel, _ :: _ =>
      let '(o, n, adjusts) := round rules l in
      let '(r, a) := rounds fuel rules (i + n) (drop (Z.to_nat n) l) in
      (o ++ r, (if adjusts : bool then [Adjustment i 3 1] else []) ++ a)
  | _, _ => ([], [])
  end.

Lemma bidi_at text i v : 0 <= i -> bidi_length text i v = Ret (bidi_kept (drop (Z.to_nat i) text) v).
Proof.
  intros Hi. unfold bidi_length, bidi_kept. rewrite !unescape_at, !drop_drop by lia.
  replace (Z.to_nat (i + 3)) with (Z.to_nat i + 3)%nat by lia. replace (Z.to_nat (i + 6)) with (Z.to_nat i + 6)%nat by lia.
  destruct (v =? 216), (v =? 226); cbn [mbind outcome_bind andb]; try done;
    destruct (unhex_at (drop (Z.to_nat i + 3) text)) as [b|]; cbn [is_second mbind outcome_bind andb]; try done;
    try (destruct (b =? 156); done); destruct ((b =? 128) || (b =? 129)); cbn [mbind outcome_bind andb]; try done;
    destruct (b =? 156); done.
Qed.
Lemma unescapable_shown rules c : 0 <= c < 0x80 -> unescapable rules c = Ret (shown rules c).
Proof.
  intros Hc. unfold unescapable, shown, char_at, znth. rewrite (proj2 (Z.leb_gt 128 c)) by lia. cbn [orb].
  destruct (kUrlUnescape !! Z.to_nat c) as [t|] eqn:E; [done|]. apply lookup_ge_None in E. cbn in E. lia.
Qed.
Lemma round_bounds rules l : l <> [] -> 1 <= snd (fst (round rules l)) <= zlen l.
Proof.
  destruct l as [|c l]; [done|]. intros _. rewrite zlen_cons. pose proof (zlen_nonneg l).
  assert (forall k v, unhex_at k = Some v -> 3 <= zlen k) as Hlen.
  { intros [|x [|y [|z k]]] v; [done..|]. intros _. rewrite !zlen_cons. pose proof (zlen_nonneg k). lia. }
  unfold round. destruct (128 <=? c); [cbn; lia|]. destruct (unhex_at (c :: l)) as [v|] eqn:E; [|cbn; lia].
  pose proof (Hlen _ _ E) as H3. rewrite zlen_cons in H3.
  assert (forall n v', unhex_at (drop n (c :: l)) = Some v' -> Z.of_nat n + 3 <= 1 + zlen l) as Hd.
  { intros n v' Hv. pose proof (Hlen _ _ Hv) as H'. unfold zlen in *. rewrite length_drop in H'. cbn [length] in H'. lia. }
  destruct (bidi_kept (c :: l) v) as [n|] eqn:Eb; [|destruct (shown rules v); cbn; lia]. cbn [fst snd].
  unfold bidi_kept in Eb. destruct (unhex_at (drop 3 (c :: l))) as [b|] eqn:E2; [|cbn [is_second] in Eb; by rewrite !andb_false_r in Eb].
  pose proof (Hd _ _ E2). cbn [is_second] in Eb. destruct ((v =? 216) && _); [injection Eb as <-; lia|].
  destruct (unhex_at (drop 6 (c :: l))) as [d|] eqn:E3; [|cbn [is_second] in Eb; by rewrite !andb_false_r in Eb].
  pose proof (Hd _ _ E3). destruct (_ && _); [injection Eb as <-; lia|done].
Qed.

Lemma Unescape_rounds text rules fuel : forall i result adjs,
  0 <= i -> (length (drop (Z.to_nat i) text) <= fuel)%nat -> all_bytes text ->
  Unescape_loop fuel text rules i result adjs =
    Ret (result ++ fst (rounds fuel rules i (drop (Z.to_nat i) text)), adjs ++ snd (rounds fuel rules i (drop (Z.to_nat i) text))).
Proof.
  induction fuel as [|fuel IH]; intros i result adjs Hi Hf Hb; cbn [Unescape_loop].
  - destruct (Z.ltb_spec i (zlen text)) as [Hl|Hl]; cbn [negb rounds fst snd]; [|by rewrite !app_nil_r].
    pose proof (zlen_drop text i Hi ltac:(lia)) as Hz. unfold zlen in *. lia.
  - destruct (Z.ltb_spec i (zlen text)) as [Hl|Hl]; cbn [negb]; [|rewrite drop_past by done; cbn; by rewrite !app_nil_r].
    pose proof (zlen_drop text i Hi ltac:(lia)) as Hz. destruct (drop (Z.to_nat i) text) as [|c l] eqn:E; [change (zlen (@nil Z)) with 0 in Hz; lia|].
    rewrite (char_at_drop text i Hi), E. cbn [mbind outcome_bind rounds].
    assert (forall n r a, 1 <= n -> Unescape_loop fuel text rules (i + n) (result ++ r) (adjs ++ a) =
      Ret (result ++ r ++ fst (rounds fuel rules (i + n) (drop (Z.to_nat n) (c :: l))), adjs ++ a ++ snd (rounds fuel rules (i + n) (drop (Z.to_nat n) (c :: l))))) as Hgo.
    { intros n r a Hn. assert (drop (Z.to_nat (i + n)) text = drop (Z.to_nat n) (c :: l)) as Ed by (rewrite <- E, drop_drop; f_equal; lia).
      rewrite IH, Ed; [by rewrite <- !app_assoc|lia| |done]. rewrite Ed, length_drop. cbn [length] in *. lia. }
    assert (forall n r, 1 <= n -> Unescape_loop fuel text rules (i + n) (result ++ r) adjs =
      Ret (result ++ r ++ fst (rounds fuel rules (i + n) (drop (Z.to_nat n) (c :: l))), adjs ++ snd (rounds fuel rules (i + n) (drop (Z.to_nat n) (c :: l))))) as Hgo0.
    { intros n r Hn. pose proof (Hgo n r [] Hn) as H. by rewrite app_nil_r in H. }
    pose proof (round_bounds rules (c :: l) ltac:(done)) as Hr. unfold round in *.
    assert (forall r n a, (let '(o, n0, adjusts) := (r, n, a) : bytes * Z * bool in
      let '(r0, a0) := rounds fuel rules (i + n0) (drop (Z.to_nat n0) (c :: l)) in
      (o ++ r0, (if adjusts : bool then [Adjustment i 3 1] else []) ++ a0)) =
      (r ++ fst (rounds fuel rules (i + n) (drop (Z.to_nat n) (c :: l))),
       (if a then [Adjustment i 3 1] else []) ++ snd (rounds fuel rules (i + n) (drop (Z.to_nat n) (c :: l))))) as Hround
      by (intros r n a; by destruct (rounds _ _ _ _)).
    destruct (128 <=? c) eqn:Hc; [rewrite (Hround [c] 1 false); by rewrite (Hgo0 1 [c]) by lia|].
    rewrite unescape_at, E by done. cbn [mbind outcome_bind].
    destruct (unhex_at (c :: l)) as [v|] eqn:Ev.
    + rewrite bidi_at, E by done. cbn [mbind outcome_bind]. destruct (bidi_kept (c :: l) v) as [n|]; cbn [fst snd] in Hr.
      * rewrite (Hround (take (Z.to_nat n) (c :: l)) n false). unfold substr, zslice. rewrite E. by rewrite (Hgo0 n) by lia.
      * pose proof (unhex_at_byte _ _ Ev) as Hv. unfold is_byte in Hv.
        assert ((if 128 <=? v then Ret true else unescapable rules v) = Ret (shown rules v)) as ->.
        { destruct (Z.leb_spec 128 v); [|apply unescapable_shown; lia]. unfold shown. by rewrite (proj2 (Z.leb_le _ _)) by lia. }
        cbn [mbind outcome_bind]. destruct (shown rules v).
        -- rewrite (Hround [v] 3 true). by rewrite (Hgo 3 [v] [Adjustment i 3 1]) by lia.
        -- rewrite (Hround str#"%" 1 false). by rewrite (Hgo0 1 str#"%") by lia.
    + destruct (has rules REPLACE_PLUS_WITH_SPACE && (c =? 43)).
      * rewrite (Hround [32] 1 false). by rewrite (Hgo0 1 [32]) by lia.
      * rewrite (Hround [c] 1 false). by rewrite (Hgo0 1 [c]) by lia.
Qed.

(** What [UnescapeURLComponent] gives, and its adjustments. *)
Definition unescaped (rules : Z) (l : bytes) : bytes := fst (rounds (length l) rules 0 l).
Lemma rounds_enough rules fuel : forall fuel' i i' l, (length l <= fuel)%nat -> (length l <= fuel')%nat ->
  fst (rounds fuel rules i l) = fst (rounds fuel' rules i' l).
Proof.
  induction fuel as [|fuel IH]; intros fuel' i i' l H1 H2; [destruct l; [by destruct fuel'|cbn in H1; lia]|].
  destruct l as [|c l]; [by destruct fuel'|]. destruct fuel' as [|fuel']; [cbn in H2; lia|]. cbn [rounds].
  pose proof (round_bounds rules (c :: l) ltac:(done)) as Hr. destruct (round rules (c :: l)) as [[o n] a]. cbn [fst snd] in Hr.
  specialize (IH fuel' (i + n) (i' + n) (drop (Z.to_nat n) (c :: l))). rewrite length_drop in IH. cbn [length] in *.
  specialize (IH ltac:(lia) ltac:(lia)). destruct (rounds fuel _ _ _), (rounds fuel' _ _ _). cbn [fst] in *. by rewrite IH.
Qed.
Lemma unescaped_round rules l : l <> [] ->
  unescaped rules l = fst (fst (round rules l)) ++ unescaped rules (drop (Z.to_nat (snd (fst (round rules l)))) l).
Proof.
  intros Hne. pose proof (round_bounds rules l Hne) as Hr. unfold unescaped at 1. destruct l as [|c l]; [done|]. cbn [length rounds].
  destruct (round rules (c :: l)) as [[o n] a]. cbn [fst snd] in *.
  pose proof (rounds_enough rules (length l) (length (drop (Z.to_nat n) (c :: l))) (0 + n) 0 (drop (Z.to_nat n) (c :: l))) as H.
  rewrite length_drop in H. cbn [length] in H. specialize (H ltac:(lia) ltac:(lia)). unfold unescaped. rewrite length_drop. cbn [length].
  destruct (rounds (length l) _ _ _). cbn [fst] in *. by rewrite H.
Qed.
Lemma Unescape_unescaped text rules : all_bytes text ->
  exists adjs, UnescapeURLWithAdjustmentsImpl text rules = Ret (if rules =? NONE then text else unescaped rules text, adjs).
Proof.
  intros Hb. unfold UnescapeURLWithAdjustmentsImpl. destruct (rules =? NONE); [by exists []|].
  rewrite (Unescape_rounds text rules (length text) 0 [] []) by done. by eexists.
Qed.

(** * BiDi control characters, in UTF-8 *)
Definition bidi_front (l : bytes) : bool :=
  match l with
  | a :: b :: l' =>
      (a =? 0xD8) && (b =? 0x9c) ||
      (a =? 0xE2) && ((b =? 0x80) || (b =? 0x81)) &&
      match l' with
      | d :: _ => if b =? 0x80 then (d =? 0x8E) || (d =? 0x8F) || ((0xAA <=? d) && (d <=? 0xAE)) else (0xA6 <=? d) && (d <=? 0xA9)
      | [] => false
      end
  | _ => false
  end.
Fixpoint has_bidi (l : bytes) : bool := match l with [] => false | _ :: l' => bidi_front l || has_bidi l' end.

Lemma bidi_front_ascii c l : c < 128 -> bidi_front (c :: l) = false.
Proof. intros Hc. destruct l as [|b l]; [done|]. cbn [bidi_front]. by rewrite !(proj2 (Z.eqb_neq c _)) by lia. Qed.
Lemma has_bidi_ascii a l : forallb (fun c => c <? 128) a = true -> has_bidi (a ++ l) = has_bidi l.
Proof.
  induction a as [|c a IH]; [done|]. cbn [forallb app has_bidi]. intros H. apply andb_true_iff in H as [Hc H].
  rewrite bidi_front_ascii by lia. by apply IH.
Qed.

(** ** Round trip *)
Section Trip.
Context (map_ : charmap) (use_plus : bool) (rules : Z).
Hypothesis map_percent : Contains map_ ch#"%" = true.
Hypothesis all_shown : has rules SPACES && has rules URL_SPECIAL_CHARS && has rules CONTROL_CHARS = true.
Hypothesis plus_flag : use_plus = true -> has rules REPLACE_PLUS_WITH_SPACE = true.
Hypothesis plus_escaped : has rules REPLACE_PLUS_WITH_SPACE = true -> Contains map_ ch#"+" = true.

Lemma shown_all c : 0 <= c -> shown rules c = true.
Proof using all_shown.
  clear - all_shown. apply andb_true_iff in all_shown as [H H3]. apply andb_true_iff in H as [H1 H2]. intros Hc. unfold shown. rewrite H1, H2, H3.
  destruct (Z.lt_trichotomy c 32) as [H|[->|H]]; [rewrite (proj2 (Z.ltb_lt c 32)) by lia|done|rewrite (proj2 (Z.ltb_lt 32 c)) by lia];
    cbn [andb]; rewrite ?orb_true_r; done.
Qed.
(** An escape at the front of an escaped text is that of its first character. *)
Lemma unhex_escaped text v : all_bytes text -> unhex_at (escaped map_ use_plus text) = Some v ->
  exists t, text = v :: t /\ drop 3 (escaped map_ use_plus text) = escaped map_ use_plus t.
Proof using map_percent.
  intros Hb. destruct text as [|c t]; [done|]. inversion_clear Hb as [|? ? Hc _]. unfold escaped. cbn [map concat]. fold (escaped map_ use_plus t).
  unfold esc. destruct (escapes map_ use_plus c) eqn:Ee.
  - rewrite unhex_esc by done. intros [= <-]. by exists t.
  - intros H. exfalso. assert (exists d k, (if use_plus && (c =? 32) then str#"+" else [c]) ++ escaped map_ use_plus t = d :: k /\ d <> ch#"%") as (d & k & E & Hd).
    { unfold escapes in Ee. destruct (use_plus && (c =? 32)) eqn:Ep; [by eexists _, _|]. cbn [negb andb] in Ee. eexists _, _. split; [done|]. intros ->. congruence. }
    rewrite E in H. destruct k as [|x [|y k]]; [done..|]. cbn [unhex_at] in H. by rewrite (proj2 (Z.eqb_neq d _)) in H.
Qed.
Lemma escape_trip text : all_bytes text -> has_bidi text = false -> unescaped rules (escaped map_ use_plus text) = text.
Proof using All.
  induction 1 as [|c t Hc Ht IH]; [done|]. intros Hbidi. cbn [has_bidi] in Hbidi. apply orb_false_iff in Hbidi as [Hfront Hbidi]. specialize (IH Hbidi).
  pose proof Hc as Hc'. unfold is_byte in Hc'. set (e := escaped map_ use_plus (c :: t)).
  assert (e = esc map_ use_plus c ++ escaped map_ use_plus t) as Ee by done.
  assert (e <> []) as Hne by (rewrite Ee; unfold esc; destruct (escapes _ _ _); [done|]; by destruct (use_plus && (c =? 32))).
  rewrite (unescaped_round rules e Hne).
  assert (round rules e = ([c], zlen (esc map_ use_plus c), escapes map_ use_plus c)) as Hround.
  { rewrite Ee. unfold esc. destruct (escapes map_ use_plus c) eqn:Es; [|destruct (use_plus && (c =? 32)) eqn:Ep].
    - set (l := [ch#"%"; _; _] ++ _). assert (unhex_at l = Some c) as Hu by (by apply unhex_esc). assert (drop 3 l = escaped map_ use_plus t) as Hd by done.
      assert (bidi_kept l c = None) as Hk.
      { unfold bidi_kept. rewrite Hd. destruct (unhex_at (escaped map_ use_plus t)) as [b|] eqn:Eb; [|cbn [is_second]; by rewrite !andb_false_r].
        destruct (unhex_escaped t b Ht Eb) as (t2 & -> & Hd2). assert (drop 6 l = escaped map_ use_plus t2) as -> by (rewrite <- Hd2, <- Hd; by rewrite drop_drop).
        cbn [bidi_front] in Hfront. apply orb_false_iff in Hfront as [Hf1 Hf2]. cbn [is_second]. rewrite Hf1.
        destruct (unhex_at (escaped map_ use_plus t2)) as [d|] eqn:Ed; [|cbn [is_second]; by rewrite !andb_false_r].
        inversion_clear Ht as [|? ? _ Ht2]. destruct (unhex_escaped t2 d Ht2 Ed) as (t3 & -> & _). cbn [is_second]. by rewrite andb_assoc, Hf2. }
      unfold round. change l with (ch#"%" :: tail l) at 1. cbn match. change (128 <=? 37) with false. rewrite Hu, Hk, shown_all by lia. done.
    - apply andb_true_iff in Ep as [Ep Ec]. apply Z.eqb_eq in Ec as ->. cbn [app round]. change (128 <=? 43) with false. cbn match.
      rewrite (plus_flag Ep). destruct (escaped map_ use_plus t) as [|x [|y k]]; reflexivity.
    - unfold escapes in Es. rewrite Ep in Es. cbn [negb andb] in Es. cbn [app round]. destruct (Z.leb_spec 128 c); [done|].
      assert (c <> ch#"%") as H37 by (intros ->; congruence).
      assert (unhex_at (c :: escaped map_ use_plus t) = None) as ->.
      { destruct (escaped map_ use_plus t) as [|x [|y k]]; [done..|]. cbn [unhex_at]. by rewrite (proj2 (Z.eqb_neq c _)). }
      destruct (has rules REPLACE_PLUS_WITH_SPACE) eqn:Er; [|done]. specialize (plus_escaped eq_refl).
      assert (c <> ch#"+") as H43 by (intros ->; congruence). by rewrite (proj2 (Z.eqb_neq c _)). }
  rewrite Hround. cbn [fst snd app]. rewrite Ee. unfold zlen. rewrite Nat2Z.id, drop_app_length, IH. done.
Qed.
End Trip.

Lemma escaped_bytes map_ use_plus text : all_bytes text -> all_bytes (escaped map_ use_plus text).
Proof.
  induction 1 as [|c t Hc Ht IH]; [constructor|]. unfold escaped. cbn [map concat]. apply Forall_app. split; [|exact IH].
  assert (forall i, 0 <= i <= 15 -> is_byte (hex_char i)) as Hh.
  { intros i Hi. pose proof (byte_check (fun i => (15 <? i) || byteb (hex_char i)) ltac:(by vm_compute) i ltac:(unfold is_byte; lia)) as H.
    cbv beta in H. apply orb_true_iff in H as [H|H]; [lia|by apply byteb_spec]. }
  destruct (nibbles c Hc). unfold esc. destruct (escapes _ _ _); [|destruct (_ && _)]; repeat constructor; try done; try (by apply Hh); unfold is_byte in *; lia.
Qed.

(** ** No BiDi controls from ASCII *)
Lemma ascii_lead rules l b r : forallb (fun c => c <? 128) l = true -> unescaped rules l = b :: r -> 128 <= b ->
  unhex_at l = Some b /\ bidi_kept l b = None /\ r = unescaped rules (drop 3 l).
Proof.
  intros Ha E Hb. destruct l as [|c l]; [done|]. rewrite unescaped_round in E by done. cbn [forallb] in Ha. apply andb_true_iff in Ha as [Hc Ha].
  apply Z.ltb_lt in Hc. pose proof (round_bounds rules (c :: l) ltac:(done)) as Hr. unfold round in *. rewrite (proj2 (Z.leb_gt 128 c)) in * by lia.
  destruct (unhex_at (c :: l)) as [v|] eqn:Ev.
  - destruct (bidi_kept (c :: l) v) as [n|] eqn:Ek; cbn [fst snd] in *.
    + exfalso. destruct (Z.to_nat n) as [|m] eqn:En; [lia|]. cbn [take app] in E. injection E as -> _. lia.
    + destruct (shown rules v); cbn [fst snd app] in E; injection E as <- <-; [|lia]. done.
  - destruct (_ && _); cbn [fst snd app] in E; injection E as <- _; lia.
Qed.
Lemma forallb_drop {A} (p : A -> bool) n l : forallb p l = true -> forallb p (drop n l) = true.
Proof. rewrite <- (take_drop n l) at 1. rewrite forallb_app. intros H. by apply andb_true_iff in H as [_ H]. Qed.
Lemma forallb_take {A} (p : A -> bool) n l : forallb p l = true -> forallb p (take n l) = true.
Proof. rewrite <- (take_drop n l) at 1. rewrite forallb_app. intros H. by apply andb_true_iff in H as [H _]. Qed.
Lemma ascii_no_bidi rules n : forall l, (length l <= n)%nat -> forallb (fun c => c <? 128) l = true -> has_bidi (unescaped rules l) = false.
Proof.
  induction n as [|n IH]; intros [|c l] Hn Ha; try done; cbn [length] in Hn; [lia|].
  pose proof (ascii_lead rules (c :: l)) as Hlead. pose proof (unescaped_round rules (c :: l) ltac:(done)) as E.
  pose proof (round_bounds rules (c :: l) ltac:(done)) as Hr. assert (c < 128) as Hc by (cbn [forallb] in Ha; apply andb_true_iff in Ha as [Ha _]; lia).
  set (k := Z.to_nat (snd (fst (round rules (c :: l))))) in *.
  assert (has_bidi (unescaped rules (drop k (c :: l))) = false) as Hrest.
  { apply IH; [rewrite length_drop; cbn [length]; lia|by apply forallb_drop]. }
  assert (forallb (fun c => c <? 128) (fst (fst (round rules (c :: l)))) = true \/ exists b, unescaped rules (c :: l) = b :: unescaped rules (drop 3 (c :: l)) /\ 128 <= b /\ k = 3%nat) as [Ho|(b & Eb & Hb & Hk)].
  { subst k. clear Hlead Hr Hrest IH. unfold round in *. rewrite (proj2 (Z.leb_gt 128 c)) in * by lia. destruct (unhex_at (c :: l)) as [v|].
    - destruct (bidi_kept (c :: l) v) as [m|]; [left; by apply forallb_take|]. destruct (shown rules v); [|by left].
      destruct (Z.lt_ge_cases v 128); [left; cbn; rewrite andb_true_r; lia|right]. by exists v.
    - left. destruct (_ && _); [done|]. cbn. rewrite andb_true_r. lia. }
  - rewrite E. by rewrite has_bidi_ascii.
  - rewrite Hk in Hrest. rewrite Eb. cbn [has_bidi]. rewrite Hrest, orb_false_r. destruct (Hlead b _ Ha Eb Hb) as (_ & Hkept & _).
    destruct (unescaped rules (drop 3 (c :: l))) as [|b2 r2] eqn:E2; [done|]. cbn [bidi_front]. unfold bidi_kept in Hkept.
    destruct (Z.lt_ge_cases b2 128) as [Hb2|Hb2]; [by rewrite !(proj2 (Z.eqb_neq b2 _)), !andb_false_r by lia|].
    destruct (ascii_lead rules (drop 3 (c :: l)) b2 r2) as (Hu2 & _ & Hr2); [by apply forallb_drop|done|done|].
    rewrite Hu2 in Hkept. cbn [is_second] in Hkept. destruct ((b =? 216) && (b2 =? 156)); [done|]. cbn [orb].
    destruct r2 as [|d r3]; [by rewrite andb_false_r|]. destruct (Z.lt_ge_cases d 128) as [Hd|Hd].
    { assert ((if b2 =? 128 then (d =? 142) || (d =? 143) || (170 <=? d) && (d <=? 174) else (166 <=? d) && (d <=? 169)) = false) as ->; [|by rewrite andb_false_r].
      destruct (b2 =? 128); lia. }
    destruct (ascii_lead rules (drop 3 (drop 3 (c :: l))) d r3) as (Hu3 & _ & _); [by apply forallb_drop, forallb_drop|done|done|].
    rewrite drop_drop in Hu3. change (3 + 3)%nat with 6%nat in Hu3. rewrite Hu3 in Hkept. cbn [is_second] in Hkept. rewrite <- andb_assoc. by destruct (_ && _).
Qed.

(** * HTML and back *)
Definition html (c : Z) : bytes := AppendEscapedCharForHTML c [].
Definition html_text (l : bytes) : bytes := concat (map html l).
Lemma AppendEscaped_app c acc : AppendEscapedCharForHTML c acc = acc ++ html c.
Proof. unfold html, AppendEscapedCharForHTML. by destruct (List.find _ _) as [[? ?]|]. Qed.
Lemma EscapeForHTML_text l : EscapeForHTML l = html_text l.
Proof.
  unfold EscapeForHTML. assert (forall acc, fold_left (fun result c => AppendEscapedCharForHTML c result) l acc = acc ++ html_text l) as H; [|apply H].
  induction l as [|c l IH]; intros acc; cbn [fold_left]; [by rewrite app_nil_r|]. rewrite IH, AppendEscaped_app. unfold html_text. cbn [map concat].
  by rewrite app_assoc.
Qed.
(** A special character and the code it is written as, or a character that stands
    for itself. *)
Lemma html_cases c : (exists code, In (code, c) kEscapeToChars /\ html c = code) \/ html c = [c] /\ c <> ch#"&".
Proof.
  unfold html, AppendEscapedCharForHTML, kCharsToEscape. cbn [List.find fst].
  repeat match goal with |- context [?a =? ?b] => destruct (Z.eqb_spec a b) as [->|] end;
    try (left; eexists; split; [|reflexivity]; cbn; tauto). right. by split.
Qed.

Lemma find_if_at_here a l off : find_if_at a l off = Some off <-> is_prefix a l = true.
Proof.
  assert (forall l off i, find_if_at a l off = Some i -> off <= i) as Hle.
  { clear. induction l as [|c l IH]; intros off i; cbn [find_if_at]; destruct (is_prefix a _); intros H; try (injection H as <-; lia); [done|].
    apply IH in H. lia. }
  destruct l as [|c l]; cbn [find_if_at]; destruct (is_prefix a _) eqn:E; try (split; done).
  split; [|done]. intros H. apply Hle in H. lia.
Qed.
Lemma find_here (text a : bytes) (index : Z) : 0 <= index <= zlen text ->
  bool_decide (find text a index = Some index) = is_prefix a (drop (Z.to_nat index) text).
Proof.
  intros Hi. unfold find. rewrite (proj2 (Z.ltb_ge _ _)) by lia. destruct (is_prefix a _) eqn:E.
  - apply bool_decide_eq_true. by apply find_if_at_here.
  - apply bool_decide_eq_false. intros H. apply find_if_at_here in H. congruence.
Qed.
Lemma replace_at_front (front code rest : bytes) r : replace (front ++ code ++ rest) (zlen front) (zlen code) [r] = (front ++ [r]) ++ rest.
Proof.
  unfold replace. rewrite Z2Nat.inj_add by (unfold zlen; lia). unfold zlen. rewrite !Nat2Z.id, take_app_length, <- drop_drop, !drop_app_length.
  by rewrite <- app_assoc.
Qed.
(** At an entity the loop finds its own code and no other. *)
Lemma replace_entity_here front code c rest : In (code, c) kEscapeToChars ->
  replace_entity kEscapeToChars (front ++ code ++ rest) (zlen front) = (front ++ [c]) ++ rest.
Proof.
  intros Hin. rewrite <- replace_at_front with (code := code).
  assert (forall a, bool_decide (find (front ++ code ++ rest) a (zlen front) = Some (zlen front)) = is_prefix a (code ++ rest)) as Hf.
  { intros a. rewrite find_here by (rewrite !zlen_app; pose proof (zlen_nonneg front); pose proof (zlen_nonneg code); pose proof (zlen_nonneg rest); lia).
    unfold zlen. by rewrite Nat2Z.id, drop_app_length. }
  unfold kEscapeToChars in *. cbn [replace_entity]. rewrite !Hf. cbn [In] in Hin.
  destruct Hin as [[= <- <-]|[[= <- <-]|[[= <- <-]|[[= <- <-]|[[= <- <-]|[]]]]]]; reflexivity.
Qed.
Lemma UnescapeHTML_text l : forall fuel front, (length (html_text l) <= fuel)%nat ->
  UnescapeHTML_loop fuel (front ++ html_text l) (zlen front) = Ret (front ++ l).
Proof.
  induction l as [|c l IH]; intros fuel front Hf.
  - destruct fuel; cbn [UnescapeHTML_loop]; change (html_text []) with (@nil Z); rewrite app_nil_r; unfold zlen; rewrite Nat2Z.id, lookup_ge_None_2 by lia; done.
  - assert (html_text (c :: l) = html c ++ html_text l) as E by done. rewrite E in *.
    assert (forall front' : bytes, zlen (front' ++ [c]) = zlen front' + 1) as Hz by (intros; by rewrite zlen_app).
    destruct (html_cases c) as [(code & Hin & Hc)|[Hc Hne]]; rewrite Hc in *.
    + assert (exists k, code = ch#"&" :: k) as [k Ek].
      { unfold kEscapeToChars in Hin. cbn [In] in Hin. destruct Hin as [[= <- _]|[[= <- _]|[[= <- _]|[[= <- _]|[[= <- _]|[]]]]]]; by eexists. }
      rewrite length_app in Hf. rewrite Ek in Hf. cbn [length] in Hf. destruct fuel as [|fuel]; [lia|]. cbn [UnescapeHTML_loop].
      assert ((front ++ code ++ html_text l) !! Z.to_nat (zlen front) = Some ch#"&") as ->.
      { unfold zlen. rewrite Nat2Z.id, Ek. by rewrite lookup_app_r, Nat.sub_diag by lia. }
      change (ch#"&" =? ch#"&") with true. cbn match. rewrite (replace_entity_here front code c) by done. rewrite <- Hz, IH by lia. by rewrite <- app_assoc.
    + rewrite length_app in Hf. cbn [length] in Hf. destruct fuel as [|fuel]; [lia|]. cbn [UnescapeHTML_loop].
      assert ((front ++ [c] ++ html_text l) !! Z.to_nat (zlen front) = Some c) as ->.
      { unfold zlen. rewrite Nat2Z.id. by rewrite lookup_app_r, Nat.sub_diag by lia. }
      rewrite (proj2 (Z.eqb_neq c _)) by done. rewrite app_assoc, <- Hz, IH by lia. by rewrite <- app_assoc.
Qed.
Lemma html_plain l off : find_if_at str#"&" (html_text l) off = None -> html_text l = l.
Proof.
  revert off. induction l as [|c l IH]; intros off; [done|]. unfold html_text. cbn [map concat]. fold (html_text l).
  destruct (html_cases c) as [(code & Hin & ->)|[-> Hne]].
  - unfold kEscapeToChars in Hin. cbn [In] in Hin. destruct Hin as [[= <- _]|[[= <- _]|[[= <- _]|[[= <- _]|[[= <- _]|[]]]]]]; done.
  - cbn [app find_if_at is_prefix]. destruct (_ && _); [done|]. intros H. by rewrite (IH _ H).
Qed.
Lemma html_trip l : UnescapeForHTML (html_text l) = Ret l.
Proof.
  unfold UnescapeForHTML. destruct (find (html_text l) str#"&" 0) eqn:E.
  - by apply (UnescapeHTML_text l (length (html_text l)) []).
  - unfold find in E. rewrite (proj2 (Z.ltb_ge _ _)) in E by (pose proof (zlen_nonneg (html_text l)); lia). by rewrite (html_plain l 0).
Qed.

(** Escaping and back.  A text escaped with any map that escapes the percent
    sign comes back from [UnescapeURLComponent] with spaces, special and control
    characters unescaped, unless it holds a BiDi control character, which stays
    escaped; with spaces written as plus signs it comes back when these are
    replaced, and replacing them does no harm if the map escapes the plus sign too.
    A text escaped for HTML comes back from [UnescapeForHTML] whatever it holds. *)
Theorem escape_roundtrip (map_ : charmap) (use_plus : bool) (rules : Z) (text : bytes) :
  all_bytes text -> has_bidi text = false -> Contains map_ ch#"%" = true ->
  has rules SPACES && has rules URL_SPECIAL_CHARS && has rules CONTROL_CHARS = true ->
  (use_plus = true -> has rules REPLACE_PLUS_WITH_SPACE = true) ->
  (has rules REPLACE_PLUS_WITH_SPACE = true -> Contains map_ ch#"+" = true) ->
  (e ← Escape text map_ use_plus; UnescapeURLComponent e rules) = Ret text /\
  UnescapeForHTML (EscapeForHTML text) = Ret text.
Proof.
  intros Hb Hbidi H1 H2 H3 H4. split; [|by rewrite EscapeForHTML_text, html_trip].
  unfold Escape. rewrite Escape_loop_escaped by done. cbn [mbind outcome_bind app]. unfold UnescapeURLComponent.
  destruct (Unescape_unescaped (escaped map_ use_plus text) rules) as [adjs ->]; [by apply escaped_bytes|]. cbn [mbind outcome_bind].
  assert ((rules =? NONE) = false) as -> by (apply Z.eqb_neq; intros ->; done). by rewrite (escape_trip map_ use_plus rules).
Qed.

(** No hidden direction changes.  [UnescapeURLComponent] ends without an access
    outside the text, whatever the text and the rules, and what it makes of an
    ASCII text has no BiDi control character in UTF-8. *)
Theorem unescape_no_bidi (rules : Z) (text : bytes) :
  all_bytes text ->
  exists result, UnescapeURLComponent text rules = Ret result /\
    (forallb (fun c => c <? 128) text = true -> has_bidi result = false).
Proof.
  intros Hb. unfold UnescapeURLComponent. destruct (Unescape_unescaped text rules Hb) as [adjs ->]. eexists. split; [done|]. intros Ha.
  destruct (rules =? NONE); [|by apply (ascii_no_bidi rules (length text))]. rewrite <- (app_nil_r text). by rewrite has_bidi_ascii.
Qed.
End Escaping.

(** Where the maps and the comments on them part. *)
Lemma charmap_quirks :
  Contains kUrlEscape ch#"!" = false /\ Contains kExternalHandlerCharmap ch#"+" = true /\ Contains kExternalHandlerCharmap 92 = false.
Proof. by vm_compute. Qed.

Lemma escape_roundtrip_witness :
  (e ← Escape true str#"a+b = 100%/~" kQueryCharmap true; UnescapeURLComponent true e 31) = Ret str#"a+b = 100%/~" /\
  UnescapeForHTML (EscapeForHTML str#"a+b = 100%/~") = Ret str#"a+b = 100%/~".
Proof.
  apply (escape_roundtrip true kQueryCharmap true 31 str#"a+b = 100%/~"); try reflexivity.
  apply (bytes_of_string_bytes "a+b = 100%/~").
Defined.
Lemma unescape_no_bidi_witness :
  exists result, UnescapeURLComponent true str#"%E2%80%8E%e9" 15 = Ret result /\
    (forallb (fun c => c <? 128) str#"%E2%80%8E%e9" = true -> has_bidi result = false).
Proof. apply (unescape_no_bidi true 15 str#"%E2%80%8E%e9"). apply (bytes_of_string_bytes "%E2%80%8E%e9"). Defined.
