(* ===== verification/HttpServer.v ===== *)
(** The HTTP server side, [zutils/net/http]: the request a connection's parser
    fills in ([http_request_context], [http_server_request_info]), the codec that
    hands it to the application ([http_request_codec]), and the response it sends
    ([http_server_response_info], [http_status_code]). *)
From Stdlib Require Import ZArith Lia Bool Ascii String.
From stdpp Require Import base list numbers strings gmap.
From S2P Require Import Prelude IOBuffer IOHandler HttpTypes HttpParser HttpSafety HttpMessages HttpListen Strings StringsProofs.

Open Scope Z_scope.

(** * The request *)

(** [HeadersMap]: [std::map], whose [insert] leaves a key that is there alone. *)
Abbreviation headers_map := (gmap bytes bytes).
Definition map_insert (k v : bytes) (m : headers_map) : headers_map :=
  match m !! k with Some _ => m | None => <[k := v]> m end.

(** [HttpServerRequestInfo], but for the peer's address. *)
Record request_info := RequestInfo {
  ri_method : bytes;
  ri_path : bytes;
  ri_data : bytes;
  ri_headers : headers_map
}.

Definition new_request_info : request_info := RequestInfo [] [] [] ∅.

(** [HttpServerRequestInfo::GetHeaderValue] *)
Definition GetHeaderValue (dcheck_on : bool) (q : request_info) (header_name : bytes) : outcome bytes :=
  DCHECK dcheck_on (bool_decide (StringToLowerASCII header_name = header_name)) (
    Ret (match ri_headers q !! header_name with Some v => v | None => [] end)).

(** The loop of [HasHeaderValue] over the items. *)
Fixpoint has_item (items : list bytes) (header_value : bytes) : bool :=
  match items with
  | [] => false
  | it :: items =>
      let '(_, it) := TrimString it (str#" " ++ [9]) in
      if bool_decide (it = header_value) then true else has_item items header_value
  end.

(** [HttpServerRequestInfo::HasHeaderValue] *)
Definition HasHeaderValue (dcheck_on : bool) (q : request_info) (header_name header_value : bytes) : outcome bool :=
  DCHECK dcheck_on (bool_decide (StringToLowerASCII header_value = header_value)) (
    complete_value ← GetHeaderValue dcheck_on q header_name;
    let complete_value := StringToLowerASCII complete_value in
    value_items ← Tokenize complete_value str#",";
    Ret (has_item value_items header_value)).

(** * [HttpRequestContext] *)

(** What the callbacks reach through [parser->data]. *)
Record request_state := RequestState {
  http_request_ : request_info;
  tmp_header_field_ : bytes;
  done_ : bool
}.
Record request_context := RequestContext { http_parser_ : http_parser; members : request_state }.

(** The constructor; it leaves [done_] as the memory was. *)
Definition new_context (memory : bool) : request_context :=
  RequestContext (http_parser_init HTTP_REQUEST) (RequestState new_request_info [] memory).

(** [HttpRequestContext::Reset] *)
Definition Reset (c : request_context) : request_context :=
  RequestContext (http_parser_init HTTP_REQUEST) (members c).

Definition DoUrl (d : bytes) (u : request_state) : Z * request_state :=
  let q := http_request_ u in
  (0, RequestState (RequestInfo (ri_method q) d (ri_data q) (ri_headers q)) (tmp_header_field_ u) (done_ u)).
Definition DoHeaderField (d : bytes) (u : request_state) : Z * request_state :=
  (0, RequestState (http_request_ u) d (done_ u)).
Definition DoHeaderValue (d : bytes) (u : request_state) : Z * request_state :=
  let q := http_request_ u in
  (0, RequestState (RequestInfo (ri_method q) (ri_path q) (ri_data q)
                      (map_insert (tmp_header_field_ u) d (ri_headers q))) [] (done_ u)).
Definition DoHeadersComplete (u : request_state) : Z * request_state := (0, u).
Definition DoBody (d : bytes) (u : request_state) : Z * request_state := (0, u).
Definition DoMessageComplete (u : request_state) : Z * request_state :=
  (0, RequestState (http_request_ u) (tmp_header_field_ u) true).

(** The static callbacks, which call the member, and [http_parser_settings_]:
    [on_message_begin] and [on_status] stay null. *)
Definition on_member (f : request_state -> Z * request_state) (u : request_state) : reply request_state :=
  let '(r, u) := f u in Reply r false u.
Definition http_parser_settings_ : settings request_state :=
  Settings
    (fun k => match k with
              | N_message_begin => None
              | N_headers_complete => Some (fun _ u => on_member DoHeadersComplete u)
              | N_message_complete => Some (fun _ u => on_member DoMessageComplete u)
              end)
    (fun k => match k with
              | D_url => Some (fun _ d u => on_member (DoUrl d) u)
              | D_status => None
              | D_header_field => Some (fun _ d u => on_member (DoHeaderField d) u)
              | D_header_value => Some (fun _ d u => on_member (DoHeaderValue d) u)
              | D_body => Some (fun _ d u => on_member (DoBody d) u)
              end).

Section Codec.
Context (dcheck_on : bool).

(** [HttpRequestContext::OnHttpDataParse].  Both branches of the test on the
    parser's method assign the same text. *)
Definition OnHttpDataParse (c : request_context) (data : io_buffer) : outcome (Z * io_buffer * request_context) :=
  bytes ← PeekAt data 0 (ReadableBytes data);
  '(n, r, u) ← http_parser_execute http_parser_settings_ (http_parser_ c) bytes (members c);
  let n := s32 n in
  if 0 <? n then
    data ← Retrieve dcheck_on data n;
    if done_ u then
      let q := http_request_ u in
      let q := if method_num (method r) =? ch#"G"
               then RequestInfo str#"GET" (ri_path q) (ri_data q) (ri_headers q)
               else RequestInfo str#"GET" (ri_path q) (ri_data q) (ri_headers q) in
      Ret (0, data, RequestContext r (RequestState q (tmp_header_field_ u) (done_ u)))
    else Ret (1, data, RequestContext r u)
  else Ret (-1, data, RequestContext r u).

(** [HttpRequestCodec], on a connection: the delegate's answers and its state. *)
Context {V : Type} (OnHttpConnection : V -> V) (OnHttpRequest : request_info -> V -> Z * V)
  (OnHttpConnectionClosed : V -> V).

Definition OnNewConnection (memory : bool) (v : V) : Z * (request_context * V) :=
  (0, (new_context memory, OnHttpConnection v)).

Definition OnDataReceived (data : io_buffer) (u : request_context * V) : outcome (Z * io_buffer * (request_context * V)) :=
  let '(ctx, v) := u in
  '(r, data, ctx) ← OnHttpDataParse ctx data;
  let '(r, v) := if 0 =? r then OnHttpRequest (http_request_ (members ctx)) v else (r, v) in
  Ret (r, data, (ctx, v)).

Definition OnConnectionClosed (u : request_context * V) : Z * V := (0, OnHttpConnectionClosed (snd u)).
End Codec.

(** * The response *)

(** [http_status_code_list.h]: the enumerators of [HttpStatusCode] and their phrases. *)
Definition status_list : list (Z * bytes) :=
  [ (100, str#"Continue"); (101, str#"Switching Protocols");
    (200, str#"OK"); (201, str#"Created"); (202, str#"Accepted"); (203, str#"Non-Authoritative Information");
    (204, str#"No Content"); (205, str#"Reset Content"); (206, str#"Partial Content");
    (300, str#"Multiple Choices"); (301, str#"Moved Permanently"); (302, str#"Found"); (303, str#"See Other");
    (304, str#"Not Modified"); (305, str#"Use Proxy"); (307, str#"Temporary Redirect"); (308, str#"Permanent Redirect");
    (400, str#"Bad Request"); (401, str#"Unauthorized"); (402, str#"Payment Required"); (403, str#"Forbidden");
    (404, str#"Not Found"); (405, str#"Method Not Allowed"); (406, str#"Not Acceptable");
    (407, str#"Proxy Authentication Required"); (408, str#"Request Timeout"); (409, str#"Conflict"); (410, str#"Gone");
    (411, str#"Length Required"); (412, str#"Precondition Failed"); (413, str#"Request Entity Too Large");
    (414, str#"Request-URI Too Long"); (415, str#"Unsupported Media Type"); (416, str#"Requested Range Not Satisfiable");
    (417, str#"Expectation Failed");
    (500, str#"Internal Server Error"); (501, str#"Not Implemented"); (502, str#"Bad Gateway");
    (503, str#"Service Unavailable"); (504, str#"Gateway Timeout"); (505, str#"HTTP Version Not Supported") ].
Definition HTTP_OK : Z := 200.
Definition HTTP_NOT_FOUND : Z := 404.
Definition HTTP_INTERNAL_SERVER_ERROR : Z := 500.

(** [GetHttpReasonPhrase]; [NOTREACHED()] is a failing [DCHECK]. *)
Definition GetHttpReasonPhrase (dcheck_on : bool) (code : Z) : outcome bytes :=
  match List.find (fun p => fst p =? code) status_list with
  | Some (_, reason) => Ret reason
  | None => DCHECK dcheck_on false (Ret [])
  end.

(** What [StringPrintf] makes of [%d] and of [%zu]. *)
Fixpoint decimal_digits (fuel : nat) (v : Z) (out : bytes) : bytes :=
  match fuel with
  | O => out
  | S fuel => if v <? 10 then (ch#"0" + v) :: out else decimal_digits fuel (v / 10) ((ch#"0" + v mod 10) :: out)
  end.
Definition decimal (v : Z) : bytes :=
  if v <? 0 then ch#"-" :: decimal_digits (S (Z.to_nat (Z.log2 (- v)))) (- v) []
  else decimal_digits (S (Z.to_nat (Z.log2 v))) v [].

(** [HttpServerResponseInfo] *)
Record response_info := ResponseInfo {
  status_code_ : Z;
  headers_ : list (bytes * bytes);
  body_ : bytes
}.
Definition new_response_info (status_code : Z) : response_info := ResponseInfo status_code [] [].

Definition AddHeader (r : response_info) (name value : bytes) : response_info :=
  ResponseInfo (status_code_ r) (headers_ r ++ [(name, value)]) (body_ r).

Definition kContentLength : bytes := str#"Content-Length".
Definition kContentType : bytes := str#"Content-Type".

Definition SetBody (dcheck_on : bool) (r : response_info) (body content_type : bytes) : outcome response_info :=
  DCHECK dcheck_on (bool_decide (body_ r = [])) (
    let r := ResponseInfo (status_code_ r) (headers_ r) body in
    let r := AddHeader r kContentLength (decimal (zlen body)) in
    Ret (AddHeader r kContentType content_type)).

Definition CreateFor404 (dcheck_on : bool) : outcome response_info :=
  SetBody dcheck_on (new_response_info HTTP_NOT_FOUND) [] str#"text/html".
Definition CreateFor500 (dcheck_on : bool) (body : bytes) : outcome response_info :=
  SetBody dcheck_on (new_response_info HTTP_INTERNAL_SERVER_ERROR) body str#"text/html".

(** The loop of [Serialize] over the headers. *)
Fixpoint serialize_headers (hs : list (bytes * bytes)) (response : bytes) : bytes :=
  match hs with
  | [] => response
  | (name, value) :: hs => serialize_headers hs (response ++ (name ++ str#":" ++ value ++ [13; 10]))
  end.
Definition Serialize (dcheck_on : bool) (r : response_info) : outcome bytes :=
  reason ← GetHttpReasonPhrase dcheck_on (status_code_ r);
  let response := str#"HTTP/1.1 " ++ decimal (status_code_ r) ++ str#" " ++ reason ++ [13; 10] in
  Ret (serialize_headers (headers_ r) response ++ [13; 10] ++ body_ r).

(** [HttpRequestCodec::SendResponse], [Send404] and [Send500]; [r] and [wouldblock]
    are the result of the [send] they make. *)
Definition SendResponse (dcheck_on : bool) (ih : io_handler) (r : Z) (wouldblock : bool) (response : response_info)
    : outcome io_handler :=
  d ← Serialize dcheck_on response;
  SendData dcheck_on ih r wouldblock d.
Definition Send404 (dcheck_on : bool) (ih : io_handler) (r : Z) (wouldblock : bool) : outcome io_handler :=
  response ← CreateFor404 dcheck_on; SendResponse dcheck_on ih r wouldblock response.
Definition Send500 (dcheck_on : bool) (ih : io_handler) (r : Z) (wouldblock : bool) (message : bytes) : outcome io_handler :=
  response ← CreateFor500 dcheck_on message; SendResponse dcheck_on ih r wouldblock response.
