(* ===== verification/HttpServerProofs.v ===== *)
(** What a connection of the HTTP server does with the bytes it reads, and with
    the headers it collects. *)
From Stdlib Require Import ZArith Lia Bool Ascii String.
From stdpp Require Import base list numbers strings gmap.
From S2P Require Import Prelude IOBuffer IOHandler HttpTypes HttpParser HttpSafety HttpMessages HttpListen Strings StringsProofs HttpServer.

Open Scope Z_scope.

(** * The context listens to its parser *)
Definition hears (u : request_state) (ev : event) : request_state :=
  match ev with
  | Data D_url d => snd (DoUrl d u)
  | Data D_header_field d => snd (DoHeaderField d u)
  | Data D_header_value d => snd (DoHeaderValue d u)
  | Notify N_message_complete => snd (DoMessageComplete u)
  | _ => u
  end.

Lemma settings_listen : listens http_parser_settings_ hears.
Proof. split; intros k; by destruct k. Qed.

(** What the callbacks of a call say: the last request line's target, the
    headers, and whether a message was completed. *)
Fixpoint last_url (path : bytes) (evs : list event) : bytes :=
  match evs with
  | [] => path
  | Data D_url d :: evs => last_url d evs
  | _ :: evs => last_url path evs
  end.
Fixpoint header_pairs (name : bytes) (evs : list event) : list (bytes * bytes) :=
  match evs with
  | [] => []
  | Data D_header_field d :: evs => header_pairs d evs
  | Data D_header_value d :: evs => (name, d) :: header_pairs [] evs
  | _ :: evs => header_pairs name evs
  end.
Definition is_complete (ev : event) : bool := match ev with Notify N_message_complete => true | _ => false end.

(** [map_insert] keeps what is there, as a union from the left does. *)
Lemma map_insert_union (k v : bytes) (m : headers_map) : map_insert k v m = m ∪ <[k := v]> ∅.
Proof.
  unfold map_insert. apply map_eq. intros i. rewrite lookup_union. destruct (decide (i = k)) as [->|Hi].
  - rewrite lookup_insert_eq. destruct (m !! k) as [x|] eqn:E; [by rewrite E|by rewrite lookup_insert_eq].
  - rewrite (lookup_insert_ne ∅), lookup_empty by done.
    assert (forall o : option bytes, o ∪ None = o) as -> by (by intros []).
    destruct (m !! k); [done|]. by rewrite lookup_insert_ne.
Qed.

Lemma hears_all evs : forall u,
  let u' := fold_left hears evs u in
  ri_method (http_request_ u') = ri_method (http_request_ u) /\ ri_data (http_request_ u') = ri_data (http_request_ u) /\
  ri_path (http_request_ u') = last_url (ri_path (http_request_ u)) evs /\
  ri_headers (http_request_ u') = ri_headers (http_request_ u) ∪ list_to_map (header_pairs (tmp_header_field_ u) evs) /\
  done_ u' = done_ u || existsb is_complete evs.
Proof.
  induction evs as [|ev evs IH]; intros u u'.
  - subst u'. cbn. split_and!; try done; [by rewrite (right_id_L ∅ (∪))|by rewrite orb_false_r].
  - subst u'. cbn [fold_left]. destruct (IH (hears u ev)) as (-> & -> & -> & -> & ->).
    destruct ev as [[]|[] d]; cbn; split_and!; try done.
    + by rewrite orb_true_r.
    + rewrite map_insert_union, <- (assoc_L (∪)). f_equal. rewrite <- insert_union_l. by rewrite (left_id_L ∅ (∪)).
Qed.

(** * One read *)
(** The request as [OnHttpDataParse] leaves it after a call whose callbacks were [evs]. *)
Definition heard_request (u : request_state) (evs : list event) (q : request_info) : Prop :=
  ri_data q = ri_data (http_request_ u) /\
  ri_path q = last_url (ri_path (http_request_ u)) evs /\
  ri_headers q = ri_headers (http_request_ u) ∪ list_to_map (header_pairs (tmp_header_field_ u) evs).

Lemma parse_heard dcheck_on ctx data c g n r' evs :
  io_rep data c g -> c <> [] -> zlen c < 2 ^ 31 ->
  http_parser_execute recorder (http_parser_ ctx) c [] = Ret (n, r', evs) -> 0 <= n <= zlen c ->
  exists code data' u' g',
    OnHttpDataParse dcheck_on ctx data = Ret (code, data', RequestContext r' u') /\
    io_rep data' (drop (Z.to_nat n) c) g' /\ heard_request (members ctx) evs (http_request_ u') /\
    done_ u' = done_ (members ctx) || existsb is_complete evs /\
    (code = if n =? 0 then -1 else if done_ u' then 0 else 1) /\
    (code = 0 -> ri_method (http_request_ u') = str#"GET").
Proof.
  intros R Hc Hl E Hn. pose proof (zlen_nonneg c).
  destruct (rep_indices _ _ _ R) as (_ & _ & _ & _ & Hread & _).
  pose proof (execute_heard http_parser_settings_ hears (members ctx) settings_listen c _ _ _ _ _ E) as E'.
  change (heard hears (members ctx) []) with (members ctx) in E'. unfold heard in E'.
  destruct (hears_all evs (members ctx)) as (Hm & Hd & Hp & Hh & Hdone).
  set (u' := fold_left hears evs (members ctx)) in *.
  unfold OnHttpDataParse. rewrite Hread, (PeekAt_rep _ _ _ 0 (zlen c) R) by lia. obind.
  assert (zslice 0 (zlen c) c = c) as -> by (unfold zslice, zlen; rewrite Nat2Z.id; simpl; by rewrite take_ge).
  rewrite E'. obind. rewrite swrap_small by lia. destruct (Z.eqb_spec n 0) as [->|Hn0].
  - change (0 <? 0) with false. cbn iota. eexists (-1), data, u', g. split_and!; done.
  - rewrite (proj2 (Z.ltb_lt _ _)) by lia. destruct (Retrieve_rep dcheck_on data c g n R Hn) as (b & -> & Rb). obind.
    destruct (done_ u') eqn:Hdu.
    + eexists 0, b, (RequestState _ (tmp_header_field_ u') true), _. split.
      { by destruct (method_num (HttpTypes.method r') =? 71). }
      split_and!; done.
    + eexists 1, b, u', _. split_and!; try done; by rewrite Hdu.
Qed.

(** What the server makes of a read.  Whatever bytes arrive, the context
    answers; it takes from the buffer what its parser took, sets the request's
    path to the last request target and adds the headers, a name that the
    connection has seen before keeping the value it had.  It answers -1 when the
    parser took nothing and 1 when no message has been completed since the
    connection began, both of which close the connection, and otherwise 0 with
    the method [GET], whatever the method was. *)
Theorem request_context_exact dcheck_on ctx data c g :
  HttpSafety.reachable (http_parser_ ctx) -> io_rep data c g -> c <> [] -> zlen c < 2 ^ 31 ->
  exists n r' evs code data' u' g',
    http_parser_execute recorder (http_parser_ ctx) c [] = Ret (n, r', evs) /\ 0 <= n <= zlen c /\
    OnHttpDataParse dcheck_on ctx data = Ret (code, data', RequestContext r' u') /\ HttpSafety.reachable r' /\
    io_rep data' (drop (Z.to_nat n) c) g' /\ heard_request (members ctx) evs (http_request_ u') /\
    done_ u' = done_ (members ctx) || existsb is_complete evs /\
    (code = if n =? 0 then -1 else if done_ u' then 0 else 1) /\
    (code = 0 -> ri_method (http_request_ u') = str#"GET").
Proof.
  intros Hr R Hc Hl. destruct (execute_ok recorder _ c [] (reachable_ok _ Hr)) as (n & r' & evs & E & _ & Hn0 & Hn).
  assert (0 <= n <= zlen c) as Hnc by (destruct Hn as [?|[? _]]; [lia|done]).
  destruct (parse_heard dcheck_on ctx data c g n r' evs R Hc Hl E Hnc) as (code & data' & u' & g' & H & H').
  exists n, r', evs, code, data', u', g'. split_and!; try apply H'; try lia; try done. by eapply HttpSafety.R_execute.
Qed.

(** * Whole requests *)
Lemma last_url_app evs evs' : forall path, last_url path (evs ++ evs') = last_url (last_url path evs) evs'.
Proof. induction evs as [|ev evs IH]; intros path; [done|]. destruct ev as [k|[] d]; apply IH. Qed.
Lemma last_url_headers hs : forall path, last_url path (concat (map header_events hs)) = path.
Proof. induction hs as [|h hs IH]; intros path; [done|]. cbn [map concat]. rewrite last_url_app. apply IH. Qed.
Lemma header_pairs_headers hs : forall name evs,
  header_pairs name (concat (map header_events hs) ++ evs) = hs ++ header_pairs (match hs with [] => name | _ => [] end) evs.
Proof.
  induction hs as [|[n v] hs IH]; intros name evs; [done|]. cbn [map concat header_events fst snd app header_pairs].
  rewrite IH. by destruct hs.
Qed.

Lemma request_last_url q path : last_url path (request_events q) = rq_url q.
Proof.
  unfold request_events. cbn [app last_url]. rewrite last_url_app, last_url_headers. by destruct (rq_body q).
Qed.
Lemma request_header_pairs q name evs : exists name',
  header_pairs name (request_events q ++ evs) = rq_all_headers q ++ header_pairs name' evs.
Proof.
  unfold request_events. cbn [app header_pairs]. rewrite <- app_assoc, header_pairs_headers. eexists. f_equal.
  cbn [app header_pairs]. by destruct (rq_body q).
Qed.

Lemma requests_last_url qs : forall path,
  last_url path (concat (map request_events qs)) = fold_left (fun _ q => rq_url q) qs path.
Proof. induction qs as [|q qs IH]; intros path; [done|]. cbn [map concat]. by rewrite last_url_app, request_last_url, IH. Qed.
Lemma requests_header_pairs qs : forall name,
  header_pairs name (concat (map request_events qs)) = concat (map rq_all_headers qs).
Proof.
  induction qs as [|q qs IH]; intros name; [done|]. cbn [map concat].
  destruct (request_header_pairs q name (concat (map request_events qs))) as (name' & ->). by rewrite IH.
Qed.
Lemma requests_complete qs : qs <> [] -> existsb is_complete (concat (map request_events qs)) = true.
Proof.
  destruct qs as [|q qs]; [done|]. intros _. cbn [map concat]. unfold request_events.
  rewrite !existsb_app. cbn [existsb is_complete]. by rewrite !orb_true_r.
Qed.

(** * A connection of the server *)
Section Serve.
Context (dcheck_on : bool) {V : Type} (OnHttpRequest : request_info -> V -> Z * V).
Context (accepts : forall q v, fst (OnHttpRequest q v) = 0).

(** The request the application is given for a read that holds [qs], when the
    connection has collected [seen] before. *)
Definition merged_request (seen : headers_map) (qs : list request) : request_info :=
  RequestInfo str#"GET" (fold_left (fun _ q => rq_url q) qs []) [] (seen ∪ list_to_map (concat (map rq_all_headers qs))).

(** The calls of the application, one for each read. *)
Fixpoint served (seen : headers_map) (reads : list (list request)) (v : V) : V :=
  match reads with
  | [] => v
  | qs :: reads => served (ri_headers (merged_request seen qs)) reads (snd (OnHttpRequest (merged_request seen qs) v))
  end.

Definition read_bytes (qs : list request) : bytes := concat (map serialize qs).

Lemma last_url_any qs path : qs <> [] -> fold_left (fun _ q => rq_url q) qs path = fold_left (fun _ q => rq_url q) qs [].
Proof. by destruct qs. Qed.

Lemma read_bytes_size qs : 0 < zlen (read_bytes qs) -> qs <> [].
Proof. by intros H ->. Qed.

Abbreviation codec := (OnDataReceived dcheck_on OnHttpRequest).

Lemma serve_step h g seen ctx v qs :
  io_rep (read_buf_ h) [] g -> qs <> [] -> forallb request_ok qs = true -> 0 < zlen (read_bytes qs) <= extrabuf_size ->
  read_wait_state_ h = WAITING_READ ->
  idle (http_parser_ ctx) -> ri_headers (http_request_ (members ctx)) = seen -> ri_data (http_request_ (members ctx)) = [] ->
  exists b g' ctx',
    OnFileCanRead dcheck_on codec h (fun _ => Some (read_bytes qs)) (ctx, v) =
      Ret (set_read_buf h b, (ctx', snd (OnHttpRequest (merged_request seen qs) v))) /\
    io_rep b [] g' /\ idle (http_parser_ ctx') /\ http_request_ (members ctx') = merged_request seen qs.
Proof using accepts.
  intros R Hq Hok Hl Hw Hi Hseen Hdata. unfold extrabuf_size in Hl.
  destruct (ReadFd_rep dcheck_on (read_buf_ h) [] g (fun _ => Some (read_bytes qs)) (read_bytes qs) R) as (b & E & Rb); [done| |lia| |].
  { destruct (rep_indices _ _ _ R) as (? & _ & ? & _ & _ & ?). unfold readv_room, extrabuf_size.
    destruct (Z.ltb_spec (WritableBytes (read_buf_ h)) 65536); lia. }
  { change (zlen (@nil Z)) with 0. unfold io_limit. lia. }
  cbn [app] in Rb. unfold OnFileCanRead, Read. rewrite bool_decide_eq_true_2 by done. rewrite E. obind.
  rewrite (proj2 (Z.ltb_lt _ _)) by lia. cbn [read_buf_ set_read_buf].
  destruct (execute_requests qs _ [] Hi Hok) as (r' & Ee & Hi'). cbn [app] in Ee. fold (read_bytes qs) in Ee.
  destruct (parse_heard dcheck_on ctx b (read_bytes qs) g _ r' _ Rb ltac:(intros Hnil; rewrite Hnil in Hl; change (zlen (@nil Z)) with 0 in Hl; lia) ltac:(lia) Ee ltac:(lia))
    as (code & b' & u' & g' & Ep & Rb' & (Hd & Hp & Hh) & Hdone & Hcode & Hget).
  rewrite requests_complete, orb_true_r in Hdone by done. rewrite Hdone, (proj2 (Z.eqb_neq _ _)) in Hcode by lia. subst code.
  assert (http_request_ u' = merged_request seen qs) as Hu.
  { specialize (Hget eq_refl). rewrite requests_last_url, last_url_any in Hp by done. rewrite requests_header_pairs, Hseen in Hh.
    rewrite Hdata in Hd. destruct (http_request_ u'). cbn in *. subst. done. }
  unfold OnDataReceived. rewrite Ep. obind. change (0 =? 0) with true. cbn iota. cbn [members]. rewrite Hu.
  pose proof (accepts (merged_request seen qs) v) as Ha. destruct (OnHttpRequest (merged_request seen qs) v) as [ret v'].
  cbn [fst snd] in *. subst ret. obind. change (negb (0 =? 0)) with false. cbn iota.
  exists b', g', (RequestContext r' u'). split_and!; try done.
  unfold zlen in Rb'. by rewrite Nat2Z.id, drop_all in Rb'.
Qed.

Lemma serve_all reads : forall h g seen ctx v,
  io_rep (read_buf_ h) [] g -> Forall (fun qs => qs <> [] /\ forallb request_ok qs = true /\ 0 < zlen (read_bytes qs) <= extrabuf_size) reads ->
  read_wait_state_ h = WAITING_READ -> watch_read h = true ->
  idle (http_parser_ ctx) -> ri_headers (http_request_ (members ctx)) = seen -> ri_data (http_request_ (members ctx)) = [] ->
  exists b ctx',
    receive dcheck_on codec (map read_bytes reads) h (ctx, v) = Ret (set_read_buf h b, (ctx', served seen reads v)) /\
    ReadableBytes b = 0.
Proof using accepts.
  induction reads as [|qs reads IH]; intros h g seen ctx v R Hall Hw Hwr Hi Hseen Hdata; cbn [map receive served].
  - exists (read_buf_ h), ctx. split; [by destruct h|]. by destruct (rep_indices _ _ _ R) as (_ & _ & _ & _ & -> & _).
  - apply Forall_cons_iff in Hall as [(Hq & Hok & Hl) Hall]. rewrite Hwr.
    destruct (serve_step h g seen ctx v qs R Hq Hok Hl Hw Hi Hseen Hdata) as (b & g' & ctx' & -> & Rb & Hi' & Hu). obind.
    destruct (IH (set_read_buf h b) g' (ri_headers (merged_request seen qs)) ctx' (snd (OnHttpRequest (merged_request seen qs) v)))
      as (b' & ctx2 & -> & Hb'); try done; try (by rewrite Hu).
    exists b', ctx2. by split.
Qed.
End Serve.

(** C8: what the application of an HTTP server sees.  A connection that the
    server accepted, and that at each read delivers one or more whole requests,
    calls the application once for every read, in order: with the target of the
    read's last request and the headers of all requests of the connection so far,
    each name with the first value it ever had.  The connection stays open and
    its buffer is empty, if the application accepts. *)
Theorem http_server_serves dcheck_on s {V} (OnHttpConnection : V -> V) (OnHttpRequest : request_info -> V -> Z * V)
    (memory : bool) (reads : list (list request)) (v : V) :
  (forall q v, fst (OnHttpRequest q v) = 0) ->
  Forall (fun qs => qs <> [] /\ forallb request_ok qs = true /\ 0 < zlen (read_bytes qs) <= extrabuf_size) reads ->
  let '(ret, u) := OnNewConnection OnHttpConnection memory v in
  exists h ctx, receive dcheck_on (OnDataReceived dcheck_on OnHttpRequest) (map read_bytes reads)
                  (Create (handler_new s) ret) u = Ret (h, (ctx, served OnHttpRequest ∅ reads (OnHttpConnection v))) /\
    ReadableBytes (read_buf_ h) = 0 /\ socket_ h = s /\ watch_read h = true /\ refs h = 1.
Proof.
  intros Ha Hreads. cbn [OnNewConnection].
  destruct (serve_all dcheck_on OnHttpRequest Ha reads (Create (handler_new s) 0) kCheapPrepend ∅ (new_context memory) (OnHttpConnection v))
    as (b & ctx & -> & Hb); try done.
  - by apply io_new_rep.
  - split; [apply HttpSafety.R_init|done].
  - by exists (set_read_buf (Create (handler_new s) 0) b), ctx.
Qed.

(** Two requests on a connection, the second with its own cookie; two more in
    one read. *)
Definition cookie_request (path cookie : bytes) : request := Request HTTP_POST path [(str#"Cookie", cookie)] (Some str#"2") str#"ok".
Definition sample_reads : list (list request) :=
  [[cookie_request str#"/a" str#"alice"]; [cookie_request str#"/b" str#"bob"];
   [cookie_request str#"/c" str#"carol"; Request HTTP_GET str#"/d" [(str#"Host", str#"x")] None []]].
Definition log_request (q : request_info) (l : list request_info) : Z * list request_info := (0, l ++ [q]).

Lemma http_server_serves_witness :
  let '(ret, u) := OnNewConnection (fun l : list request_info => l) true [] in
  exists h ctx, receive true (OnDataReceived true log_request) (map read_bytes sample_reads)
                  (Create (handler_new 5) ret) u = Ret (h, (ctx, served log_request ∅ sample_reads [])) /\
    ReadableBytes (read_buf_ h) = 0 /\ socket_ h = 5 /\ watch_read h = true /\ refs h = 1.
Proof.
  apply (http_server_serves true 5 (fun l => l) log_request true sample_reads []); [done|].
  repeat constructor; vm_compute; done.
Defined.

(** Bob's request reaches the application with Alice's cookie, every method is
    [GET], and the request for [/c] is not seen at all. *)
Example served_sample :
  map (fun q => (ri_method q, ri_path q, ri_headers q !! (str#"Cookie"))) (served log_request ∅ sample_reads []) =
  [ (str#"GET", str#"/a", Some str#"alice"); (str#"GET", str#"/b", Some str#"alice"); (str#"GET", str#"/d", Some str#"alice") ].
Proof. vm_compute. reflexivity. Qed.

Lemma request_context_exact_witness :
  let ctx := new_context false in let c := str#"GET /x HTTP/1.1" ++ [13; 10] in
  exists n r' evs code data' u' g',
    http_parser_execute recorder (http_parser_ ctx) c [] = Ret (n, r', evs) /\ 0 <= n <= zlen c /\
    OnHttpDataParse true ctx (io_with c) = Ret (code, data', RequestContext r' u') /\ HttpSafety.reachable r' /\
    io_rep data' (drop (Z.to_nat n) c) g' /\ heard_request (members ctx) evs (http_request_ u') /\
    done_ u' = done_ (members ctx) || existsb is_complete evs /\
    (code = if n =? 0 then -1 else if done_ u' then 0 else 1) /\
    (code = 0 -> ri_method (http_request_ u') = str#"GET").
Proof.
  intros ctx c. apply (request_context_exact true ctx (io_with c) c 8); [apply HttpSafety.R_init| |done|done].
  apply io_with_rep. vm_compute. discriminate.
Defined.

(** * Header values *)

(** What is left of a string without the characters of the set at its ends. *)
Fixpoint strip_front (set l : bytes) : bytes :=
  match l with
  | [] => []
  | c :: l' => if is_in set c then strip_front set l' else l
  end.
Definition strip (set l : bytes) : bytes := reverse (strip_front set (reverse (strip_front set l))).

Lemma strip_front_app set a m : forallb (is_in set) a = true -> strip_front set (a ++ m) = strip_front set m.
Proof. induction a as [|c a IH]; [done|]. cbn [forallb app strip_front]. intros [Hc Ha]%andb_true_iff. rewrite Hc. by apply IH. Qed.
Lemma forallb_reverse {A} (p : A -> bool) l : forallb p (reverse l) = forallb p l.
Proof.
  induction l as [|x l IH]; [done|]. rewrite reverse_cons, forallb_app, IH. cbn. by rewrite andb_true_r, andb_comm.
Qed.
Lemma strip_parts set a m b :
  forallb (is_in set) a = true -> forallb (is_in set) b = true -> trimmed set m -> strip set (a ++ m ++ b) = m.
Proof.
  intros Ha Hb Hm. destruct (trimmed_head set m Hm) as (x & k & Em & Hx). destruct (trimmed_last set m Hm) as (k' & y & Em' & Hy).
  unfold strip. rewrite strip_front_app by done.
  assert (strip_front set (m ++ b) = m ++ b) as -> by (rewrite Em; cbn; by rewrite Hx).
  rewrite reverse_app, strip_front_app by by rewrite forallb_reverse.
  assert (strip_front set (reverse m) = reverse m) as -> by (rewrite Em', reverse_snoc; cbn; by rewrite Hy).
  apply reverse_involutive.
Qed.
Lemma TrimString_strip set l : zlen l < 2 ^ 64 -> (TrimString l set).2 = strip set l.
Proof.
  intros Hl. destruct (trim_parts set l) as (a & m & b & -> & Ha & Hb & Hm). unfold TrimString. destruct Hm as [Hm|[-> ->]].
  - rewrite TrimStringT_exact by done. change (leading TRIM_ALL) with true. change (trailing TRIM_ALL) with true. cbn [andb app snd].
    by rewrite app_nil_r, strip_parts.
  - rewrite !app_nil_r, TrimStringT_all by done. unfold strip. rewrite <- (app_nil_r a), strip_front_app by done. done.
Qed.

Lemma words_at_size d l : let '(w, ws) := words_at d l in
  Forall (fun x => (length x <= length l)%nat) (w :: ws).
Proof.
  induction l as [|c l IH]; cbn [words_at].
  - by repeat constructor.
  - destruct (words_at d l) as [w ws]. apply Forall_cons_iff in IH as [Hw Hws].
    assert (Forall (fun x => (length x <= length (c :: l))%nat) ws) as Hws' by (eapply Forall_impl; [exact Hws|]; cbn; lia).
    destruct (d c); [|by constructor; [cbn; lia|]]. constructor; [cbn; lia|]. destruct w; [done|]. constructor; [cbn in *; lia|done].
Qed.
Lemma words_size d l : Forall (fun x => zlen x <= zlen l) (words d l).
Proof.
  pose proof (words_at_size d l) as H. unfold words. destruct (words_at d l) as [w ws]. unfold zlen.
  apply Forall_cons_iff in H as [Hw Hws].
  assert (Forall (fun x => Z.of_nat (length x) <= Z.of_nat (length l)) ws) by (eapply Forall_impl; [exact Hws|]; cbn; lia).
  destruct w; [done|]. constructor; [lia|done].
Qed.

(** Looking for an item of a comma-separated header.  The answer is whether
    one of the items between the commas of the header's lower-cased value is the
    text asked for, once the blanks at its ends are off; a header that is absent
    has no items.  The text and the name must be lower case, which a debug build
    insists on. *)
Theorem HasHeaderValue_exact (dcheck_on : bool) (q : request_info) (name value : bytes) :
  let v := default [] (ri_headers q !! name) in
  zlen v < 2 ^ 64 ->
  HasHeaderValue dcheck_on q name value =
    if dcheck_on && negb (bool_decide (StringToLowerASCII value = value) && bool_decide (StringToLowerASCII name = name))
    then Fault AssertFail
    else Ret (existsb (fun it => bool_decide (strip [32; 9] it = value)) (words (is_in [44]) (StringToLowerASCII v))).
Proof.
  intros v Hv. unfold HasHeaderValue, GetHeaderValue, DCHECK, guard_or.
  destruct (bool_decide (StringToLowerASCII value = value)), (bool_decide (StringToLowerASCII name = name)), dcheck_on; try done;
    cbn [negb andb orb]; obind;
    (rewrite Tokenize_words; obind; f_equal;
     change (match ri_headers q !! name with Some v => v | None => [] end) with v;
     pose proof (words_size (is_in str#",") (StringToLowerASCII v)) as Hs;
     assert (zlen (StringToLowerASCII v) = zlen v) as El by (unfold zlen, StringToLowerASCII; by rewrite length_map);
     induction Hs as [|it items Hit Hs IH]; [done|];
     cbn [has_item existsb]; rewrite <- (TrimString_strip [32; 9]) by lia;
     change (str#" " ++ [9]) with [32; 9] in *; destruct (TrimString it [32; 9]) as [r t]; cbn [snd];
     destruct (bool_decide (t = value)); [done|exact IH]).
Qed.

Definition keep_alive_request : request_info := RequestInfo [] [] [] {[ str#"connection" := str#"Upgrade, 	Keep-Alive ,x" ]}.
Lemma HasHeaderValue_exact_witness :
  zlen str#"Upgrade, 	Keep-Alive ,x" < 2 ^ 64 /\
  HasHeaderValue true keep_alive_request str#"connection" str#"keep-alive" = Ret true.
Proof.
  split; [done|]. rewrite (HasHeaderValue_exact true keep_alive_request str#"connection" str#"keep-alive") by (vm_compute; reflexivity).
  vm_compute. reflexivity.
Defined.

(** * Responses *)
Lemma decimal_digits_spec fuel : forall v out, 0 <= v < 2 ^ Z.of_nat fuel -> exists ds,
  decimal_digits fuel v out = ds ++ out /\ (fuel <> O -> ds <> []) /\ digits ds = true /\ dec 0 ds = v.
Proof.
  induction fuel as [|fuel IH]; intros v out Hv; cbn [decimal_digits].
  - exists []. split_and!; try done. change (2 ^ Z.of_nat 0) with 1 in Hv. cbn. lia.
  - rewrite Nat2Z.inj_succ, Z.pow_succ_r in Hv by lia. destruct (Z.ltb_spec v 10).
    + exists [ch#"0" + v]. split_and!; [done..| |cbn; lia].
      unfold digits, IS_NUM. cbn [forallb]. rewrite !(proj2 (Z.leb_le _ _)) by lia. done.
    + assert (v = 10 * (v / 10) + v mod 10 /\ 0 <= v mod 10 < 10) as [Ev Hm] by (split; [apply Z.div_mod|apply Z.mod_pos_bound]; lia).
      destruct (IH (v / 10) ((ch#"0" + v mod 10) :: out)) as (ds & -> & _ & Hd & Hdec).
      { split; [apply Z.div_pos; lia|apply Z.div_lt_upper_bound; lia]. }
      exists (ds ++ [ch#"0" + v mod 10]). split_and!.
      * by rewrite <- app_assoc.
      * intros _ E. by destruct ds.
      * unfold digits in *. rewrite forallb_app, Hd. unfold IS_NUM. cbn [forallb andb].
        rewrite !(proj2 (Z.leb_le _ _)) by lia. done.
      * unfold dec in *. rewrite fold_left_app. cbn [fold_left]. rewrite Hdec. lia.
Qed.
Lemma decimal_spec v : 0 <= v -> decimal v <> [] /\ digits (decimal v) = true /\ dec 0 (decimal v) = v.
Proof.
  intros Hv. unfold decimal. rewrite (proj2 (Z.ltb_ge _ _)) by lia.
  destruct (decimal_digits_spec (S (Z.to_nat (Z.log2 v))) v []) as (ds & -> & Hne & Hd & Hdec).
  - split; [done|]. rewrite Nat2Z.inj_succ, Z2Nat.id by apply Z.log2_nonneg.
    destruct (Z.eq_dec v 0) as [->|]; [done|]. by apply Z.log2_spec; lia.
  - rewrite app_nil_r. split_and!; [by apply Hne|done..].
Qed.

Definition response_line (h : bytes * bytes) : bytes := h.1 ++ str#":" ++ h.2 ++ [13; 10].
Lemma serialize_headers_lines hs : forall response, serialize_headers hs response = response ++ concat (map response_line hs).
Proof.
  induction hs as [|[n v] hs IH]; intros response; cbn [serialize_headers map concat]; [by rewrite app_nil_r|].
  by rewrite IH, <- app_assoc.
Qed.

(** [AddHeader] for each of a list. *)
Definition add_headers (r : response_info) (hs : list (bytes * bytes)) : response_info :=
  fold_left (fun r h => AddHeader r h.1 h.2) hs r.
Lemma add_headers_spec hs : forall r, add_headers r hs = ResponseInfo (status_code_ r) (headers_ r ++ hs) (body_ r).
Proof.
  induction hs as [|h hs IH]; intros r; [rewrite app_nil_r; by destruct r|].
  unfold add_headers in *. cbn [fold_left]. rewrite IH. unfold AddHeader. cbn. rewrite <- app_assoc. by destruct h.
Qed.

(** What a response looks like.  The application makes one for a status the
    list knows, adds headers, sets a body and adds headers again; the text that
    is sent is the status line, the headers in the order they were added with
    the two that describe the body in their place, a blank line and the body; and
    the digits of the Content-Length header are the number of the body's bytes.
    A body set twice stops a debug build. *)
Theorem response_exact (dcheck_on : bool) (code : Z) (reason body content_type : bytes) (before after : list (bytes * bytes)) :
  (code, reason) ∈ status_list ->
  exists ds r, digits ds = true /\ dec 0 ds = zlen body /\
    SetBody dcheck_on (add_headers (new_response_info code) before) body content_type = Ret r /\
    Serialize dcheck_on (add_headers r after) =
      Ret (str#"HTTP/1.1 " ++ decimal code ++ [32] ++ reason ++ [13; 10] ++
           concat (map response_line (before ++ [(kContentLength, ds); (kContentType, content_type)] ++ after)) ++
           [13; 10] ++ body) /\
    (body <> [] -> SetBody true (add_headers r after) body content_type = Fault AssertFail).
Proof.
  intros Hin. assert (GetHttpReasonPhrase dcheck_on code = Ret reason) as Hreason.
  { unfold status_list in Hin. repeat (apply elem_of_cons in Hin as [[= -> ->]|Hin]; [done|]). by apply elem_of_nil in Hin. }
  destruct (decimal_spec (zlen body) (zlen_nonneg _)) as (_ & Hd & Hdec).
  exists (decimal (zlen body)). rewrite (add_headers_spec before). unfold SetBody. rewrite DCHECK_true by done. eexists. split_and!; [done..| |].
  - rewrite add_headers_spec. unfold Serialize, AddHeader. cbn [status_code_ headers_ body_ new_response_info app]. rewrite Hreason. obind. f_equal.
    rewrite serialize_headers_lines, <- !app_assoc. cbn [app]. by repeat (rewrite <- !app_assoc; cbn [app]).
  - intros Hb. rewrite add_headers_spec. unfold DCHECK, guard_or. cbn. by rewrite bool_decide_eq_false_2.
Qed.

Lemma response_exact_witness :
  exists ds r, digits ds = true /\ dec 0 ds = zlen str#"body" /\
    SetBody true (add_headers (new_response_info 200) [(str#"A", str#"1")]) str#"body" str#"type" = Ret r /\
    Serialize true (add_headers r []) =
      Ret (str#"HTTP/1.1 " ++ decimal 200 ++ [32] ++ str#"OK" ++ [13; 10] ++
           concat (map response_line ([(str#"A", str#"1")] ++ [(kContentLength, ds); (kContentType, str#"type")] ++ [])) ++
           [13; 10] ++ str#"body") /\
    (str#"body" <> [] -> SetBody true (add_headers r []) str#"body" str#"type" = Fault AssertFail).
Proof.
  apply (response_exact true 200 str#"OK" str#"body" str#"type" [(str#"A", str#"1")] []).
  apply list_elem_of_In. vm_compute. tauto.
Defined.

(** The repository's own unit tests of responses. *)
Definition serialized (r : outcome response_info) : outcome bytes := r ← r; Serialize true r.
Example Headers :
  serialized (Ret (AddHeader (AddHeader (new_response_info HTTP_OK) str#"A" str#"1") str#"A" str#"2")) =
  Ret (str#"HTTP/1.1 200 OK" ++ [13; 10] ++ str#"A:1" ++ [13; 10] ++ str#"A:2" ++ [13; 10; 13; 10]).
Proof. vm_compute. reflexivity. Qed.
Example Test404 :
  serialized (CreateFor404 true) =
  Ret (str#"HTTP/1.1 404 Not Found" ++ [13; 10] ++ str#"Content-Length:0" ++ [13; 10] ++ str#"Content-Type:text/html" ++ [13; 10; 13; 10]).
Proof. vm_compute. reflexivity. Qed.
Example Test500 :
  serialized (CreateFor500 true str#"mess") =
  Ret (str#"HTTP/1.1 500 Internal Server Error" ++ [13; 10] ++ str#"Content-Length:4" ++ [13; 10] ++
       str#"Content-Type:text/html" ++ [13; 10; 13; 10] ++ str#"mess").
Proof. vm_compute. reflexivity. Qed.
