(* ===== verification/SocketOps.v ===== *)
(** The socket functions of [zutils/net/engine/socket_ops.cc], POSIX branch, over
    the kernel's answers, and the error codes of [zutils/net/base/net_errors_posix.cc].
    The descriptors that are open are kept in a set, so that what a function
    leaves behind can be stated. *)
From Stdlib Require Import ZArith Lia Bool.
From stdpp Require Import base list numbers gmap.
From S2P Require Import Prelude IOHandler.

Open Scope Z_scope.

(** * System errors *)

(** [errno] on Linux. *)
Definition EPERM : Z := 1.
Definition ENOENT : Z := 2.
Definition E2BIG : Z := 7.
Definition EBADF : Z := 9.
Definition EAGAIN : Z := 11.
Definition ENOMEM : Z := 12.
Definition EACCES : Z := 13.
Definition EFAULT : Z := 14.
Definition EBUSY : Z := 16.
Definition EEXIST : Z := 17.
Definition ENODEV : Z := 19.
Definition ENOTDIR : Z := 20.
Definition EISDIR : Z := 21.
Definition EINVAL : Z := 22.
Definition ENFILE : Z := 23.
Definition EMFILE : Z := 24.
Definition ETXTBSY : Z := 26.
Definition EFBIG : Z := 27.
Definition ENOSPC : Z := 28.
Definition EROFS : Z := 30.
Definition EPIPE : Z := 32.
Definition EDEADLK : Z := 35.
Definition ENAMETOOLONG : Z := 36.
Definition ENOLCK : Z := 37.
Definition ENOSYS : Z := 38.
Definition EUSERS : Z := 87.
Definition EMSGSIZE : Z := 90.
Definition ENOTSUP : Z := 95.
Definition EAFNOSUPPORT : Z := 97.
Definition EADDRINUSE : Z := 98.
Definition EADDRNOTAVAIL : Z := 99.
Definition ENETDOWN : Z := 100.
Definition ENETUNREACH : Z := 101.
Definition ENETRESET : Z := 102.
Definition ECONNABORTED : Z := 103.
Definition ECONNRESET : Z := 104.
Definition ENOBUFS : Z := 105.
Definition EISCONN : Z := 106.
Definition ENOTCONN : Z := 107.
Definition ETIMEDOUT : Z := 110.
Definition ECONNREFUSED : Z := 111.
Definition EHOSTDOWN : Z := 112.
Definition EHOSTUNREACH : Z := 113.
Definition EALREADY : Z := 114.
Definition EINPROGRESS : Z := 115.
Definition EDQUOT : Z := 122.
Definition ECANCELED : Z := 125.

(** [enum Error], the values the two functions below give. *)
Definition OK : Z := 0.
Definition ERR_IO_PENDING : Z := -1.
Definition ERR_FAILED : Z := -2.
Definition ERR_ABORTED : Z := -3.
Definition ERR_INVALID_ARGUMENT : Z := -4.
Definition ERR_INVALID_HANDLE : Z := -5.
Definition ERR_FILE_NOT_FOUND : Z := -6.
Definition ERR_TIMED_OUT : Z := -7.
Definition ERR_FILE_TOO_BIG : Z := -8.
Definition ERR_ACCESS_DENIED : Z := -10.
Definition ERR_NOT_IMPLEMENTED : Z := -11.
Definition ERR_INSUFFICIENT_RESOURCES : Z := -12.
Definition ERR_OUT_OF_MEMORY : Z := -13.
Definition ERR_SOCKET_NOT_CONNECTED : Z := -15.
Definition ERR_FILE_EXISTS : Z := -16.
Definition ERR_FILE_PATH_TOO_LONG : Z := -17.
Definition ERR_FILE_NO_SPACE : Z := -18.
Definition ERR_SOCKET_IS_CONNECTED : Z := -23.
Definition ERR_CONNECTION_RESET : Z := -101.
Definition ERR_CONNECTION_REFUSED : Z := -102.
Definition ERR_CONNECTION_ABORTED : Z := -103.
Definition ERR_CONNECTION_FAILED : Z := -104.
Definition ERR_INTERNET_DISCONNECTED : Z := -106.
Definition ERR_ADDRESS_INVALID : Z := -108.
Definition ERR_ADDRESS_UNREACHABLE : Z := -109.
Definition ERR_CONNECTION_TIMED_OUT : Z := -118.
Definition ERR_NETWORK_ACCESS_DENIED : Z := -138.
Definition ERR_MSG_TOO_BIG : Z := -142.
Definition ERR_ADDRESS_IN_USE : Z := -147.

(** The cases of the switch of [MapSystemError]. *)
Definition system_errors : list (list Z * Z) :=
  [ ([EAGAIN], ERR_IO_PENDING);
    ([EACCES], ERR_ACCESS_DENIED);
    ([ENETDOWN], ERR_INTERNET_DISCONNECTED);
    ([ETIMEDOUT], ERR_TIMED_OUT);
    ([ECONNRESET; ENETRESET; EPIPE], ERR_CONNECTION_RESET);
    ([ECONNABORTED], ERR_CONNECTION_ABORTED);
    ([ECONNREFUSED], ERR_CONNECTION_REFUSED);
    ([EHOSTUNREACH; EHOSTDOWN; ENETUNREACH; EAFNOSUPPORT], ERR_ADDRESS_UNREACHABLE);
    ([EADDRNOTAVAIL], ERR_ADDRESS_INVALID);
    ([EMSGSIZE], ERR_MSG_TOO_BIG);
    ([ENOTCONN], ERR_SOCKET_NOT_CONNECTED);
    ([EISCONN], ERR_SOCKET_IS_CONNECTED);
    ([EINVAL], ERR_INVALID_ARGUMENT);
    ([EADDRINUSE], ERR_ADDRESS_IN_USE);
    ([E2BIG], ERR_INVALID_ARGUMENT);
    ([EBADF], ERR_INVALID_HANDLE);
    ([EBUSY], ERR_INSUFFICIENT_RESOURCES);
    ([ECANCELED], ERR_ABORTED);
    ([EDEADLK], ERR_INSUFFICIENT_RESOURCES);
    ([EDQUOT], ERR_FILE_NO_SPACE);
    ([EEXIST], ERR_FILE_EXISTS);
    ([EFAULT], ERR_INVALID_ARGUMENT);
    ([EFBIG], ERR_FILE_TOO_BIG);
    ([EISDIR], ERR_ACCESS_DENIED);
    ([ENAMETOOLONG], ERR_FILE_PATH_TOO_LONG);
    ([ENFILE], ERR_INSUFFICIENT_RESOURCES);
    ([ENOBUFS], ERR_OUT_OF_MEMORY);
    ([ENODEV], ERR_INVALID_ARGUMENT);
    ([ENOENT], ERR_FILE_NOT_FOUND);
    ([ENOLCK], ERR_INSUFFICIENT_RESOURCES);
    ([ENOMEM], ERR_OUT_OF_MEMORY);
    ([ENOSPC], ERR_FILE_NO_SPACE);
    ([ENOSYS], ERR_NOT_IMPLEMENTED);
    ([ENOTDIR], ERR_FILE_NOT_FOUND);
    ([ENOTSUP], ERR_NOT_IMPLEMENTED);
    ([EPERM], ERR_ACCESS_DENIED);
    ([EROFS], ERR_ACCESS_DENIED);
    ([ETXTBSY], ERR_ACCESS_DENIED);
    ([EUSERS], ERR_INSUFFICIENT_RESOURCES);
    ([EMFILE], ERR_INSUFFICIENT_RESOURCES);
    ([0], OK) ].
Fixpoint switch_on (os_error : Z) (cases : list (list Z * Z)) (default : Z) : Z :=
  match cases with
  | [] => default
  | (labels, result) :: cases => if existsb (Z.eqb os_error) labels then result else switch_on os_error cases default
  end.
Definition MapSystemError (os_error : Z) : Z := switch_on os_error system_errors ERR_FAILED.

(** [MapConnectError] of [tcp_connector.cc] *)
Definition MapConnectError (os_error : Z) : Z :=
  if os_error =? EACCES then ERR_NETWORK_ACCESS_DENIED
  else if os_error =? ETIMEDOUT then ERR_CONNECTION_TIMED_OUT
  else let net_error := MapSystemError os_error in
       if net_error =? ERR_FAILED then ERR_CONNECTION_FAILED else net_error.

(** * Sockets *)

(** The kernel's answers to the system calls that one of the functions makes. *)
Record answers := Answers {
  getaddrinfo_rc : Z;
  socket_rc : Z;          (** [socket] or [accept] *)
  fcntl_getfl : Z;
  fcntl_setfl : Z;
  reuseaddr_rc : Z;
  nodelay_rc : Z;
  bind_rc : Z;
  bind_errno : Z;
  close_rcs : list Z;     (** the calls of [close] in a retry loop; then 0 *)
  listen_rc : Z;
  connect_rc : Z;
  connect_errno : Z;
  select_rc : Z;
  fd_isset : bool;
  getsockopt_rc : Z;
  so_error : Z
}.

Abbreviation descriptors := (gset Z).
Definition O_NONBLOCK : Z := 2048.

Section Ops.
Context (dcheck_on : bool).

(** [SetNonBlocking]; [CHECK] stops every build. *)
Definition SetNonBlocking {A} (a : answers) (s : Z) (k : outcome A) : outcome A :=
  DCHECK dcheck_on (0 <=? s) (
  guard_or (negb (fcntl_getfl a =? -1)) AssertFail (
  if negb (Z.land (fcntl_getfl a) O_NONBLOCK =? 0) then k
  else guard_or (negb (fcntl_setfl a =? -1)) AssertFail k)).

(** [SetDisableNagle]; [LOG(FATAL)] stops every build. *)
Definition SetDisableNagle (a : answers) : outcome Z :=
  if nodelay_rc a <? 0 then Fault AssertFail else Ret 1.

(** [CloseSocket]: the result, [*s] and the descriptors. *)
Fixpoint CloseSocket (tries : nat) (rcs : list Z) (s : Z) (fds : descriptors) : bool * Z * descriptors :=
  match tries with
  | O => (false, s, fds)
  | S tries =>
      match rcs with
      | [] => (true, kInvalidSocket, fds ∖ {[s]})
      | rc :: rcs => if rc =? 0 then (true, kInvalidSocket, fds ∖ {[s]}) else CloseSocket tries rcs s fds
      end
  end.

(** [CreateTCPListeningSocket]: the result, [*listen_socket] and the descriptors.
    [exit] ends the process, as a failed [CHECK] does. *)
Definition CreateTCPListeningSocket (a : answers) (fds : descriptors) : outcome (Z * Z * descriptors) :=
  if negb (getaddrinfo_rc a =? 0) then Ret (-1, kInvalidSocket, fds)
  else
    let sock := socket_rc a in
    if sock =? kInvalidSocket then Ret (-1, kInvalidSocket, fds)
    else
      let fds := {[sock]} ∪ fds in
      if reuseaddr_rc a <? 0 then Fault AssertFail
      else if bind_rc a <? 0 then
        let '(closed, _, fds) := CloseSocket 100 (close_rcs a) sock fds in
        if closed then
          if bind_errno a =? EADDRNOTAVAIL then Ret (-3, kInvalidSocket, fds) else Ret (-2, kInvalidSocket, fds)
        else Fault AssertFail
      else
        r ← SetDisableNagle a;
        if r =? 0 then Ret (-1, kInvalidSocket, fds)
        else if listen_rc a <? 0 then
          let '(closed, _, fds) := CloseSocket 100 (close_rcs a) sock fds in
          if closed then Ret (-1, kInvalidSocket, fds) else Fault AssertFail
        else Ret (0, sock, fds).

(** [CreateTCPConnectedSocket]: -1 failed, 1 connected, 0 in progress. *)
Definition CreateTCPConnectedSocket (a : answers) (fds : descriptors) : outcome (Z * Z * descriptors) :=
  if negb (getaddrinfo_rc a =? 0) then Ret (-1, kInvalidSocket, fds)
  else
    let sock := socket_rc a in
    if sock =? kInvalidSocket then Ret (-1, kInvalidSocket, fds)
    else
      let fds := {[sock]} ∪ fds in
      SetNonBlocking a sock (
        r ← SetDisableNagle a;
        if r =? 0 then Ret (-1, kInvalidSocket, fds)
        else if connect_rc a =? -1 then
          if negb (connect_errno a =? EINPROGRESS) then Ret (-1, kInvalidSocket, fds ∖ {[sock]})
          else Ret (0, sock, fds)
        else Ret (1, sock, fds)).

(** [CreateBlockingTCPConnectedSocket]: whether it connected, [*connect_socket]
    and the descriptors. *)
Definition CreateBlockingTCPConnectedSocket (a : answers) (fds : descriptors) : outcome (bool * Z * descriptors) :=
  '(ret_val, sock, fds) ← CreateTCPConnectedSocket a fds;
  if ret_val =? 0 then
    let rv := select_rc a in
    if (0 <? rv) && fd_isset a then
      if getsockopt_rc a <? 0 then Ret (false, kInvalidSocket, fds)
      else if negb (so_error a =? 0) then Ret (false, kInvalidSocket, fds)
      else Ret (true, sock, fds)
    else Ret (false, kInvalidSocket, fds ∖ {[sock]})
  else if ret_val =? -1 then Ret (false, kInvalidSocket, fds)
  else Ret (true, kInvalidSocket, fds).

(** [Accept] *)
Definition Accept (a : answers) (fds : descriptors) : outcome (Z * Z * descriptors) :=
  let conn := socket_rc a in
  if conn =? kInvalidSocket then Ret (-1, kInvalidSocket, fds)
  else
    let fds := {[conn]} ∪ fds in
    SetNonBlocking a conn (
      r ← SetDisableNagle a;
      if r =? 0 then Ret (-1, kInvalidSocket, fds) else Ret (0, conn, fds)).
End Ops.

(** * What they leave behind *)

(** A kernel that hands out descriptors that are not open, and none of the
    calls whose failure the code takes for fatal fails. *)
Record answers_ok (a : answers) (fds : descriptors) : Prop := {
  ok_socket : socket_rc a = -1 \/ 0 < socket_rc a /\ socket_rc a ∉ fds;
  ok_fcntl : fcntl_getfl a <> -1 /\ fcntl_setfl a <> -1;
  ok_options : 0 <= reuseaddr_rc a /\ 0 <= nodelay_rc a;
  ok_close : close_rcs a = []
}.

Lemma fresh_closed (s : Z) (fds : descriptors) : s ∉ fds -> ({[s]} ∪ fds) ∖ {[s]} = fds.
Proof. intros Hs. apply set_eq. intros x. rewrite elem_of_difference, elem_of_union, elem_of_singleton. split; [tauto|]. intros Hx. split; [by right|]. by intros ->. Qed.

Lemma set_non_blocking_ok dcheck_on {A} a fds s (k : outcome A) :
  answers_ok a fds -> 0 < s -> SetNonBlocking dcheck_on a s k = k.
Proof.
  intros [_ [Hg Hs] _ _] Hpos. unfold SetNonBlocking. rewrite DCHECK_true by lia.
  rewrite (proj2 (Z.eqb_neq (fcntl_getfl a) _)), (proj2 (Z.eqb_neq (fcntl_setfl a) _)) by done. unfold guard_or. cbn [negb].
  by destruct (_ =? 0).
Qed.
Lemma set_disable_nagle_ok a fds : answers_ok a fds -> SetDisableNagle a = Ret 1.
Proof. intros [_ _ [_ Hn] _]. unfold SetDisableNagle. by rewrite (proj2 (Z.ltb_ge _ _)) by lia. Qed.

(** A call either succeeds and leaves one more descriptor open, the one it
    reports, or fails and leaves the descriptors as they were. *)
Definition opens_one (success : Z -> bool) (m : outcome (Z * Z * descriptors)) (fds : descriptors) (s : Z) : Prop :=
  exists r out fds', m = Ret (r, out, fds') /\
    ((success r = true /\ out = s /\ 0 < s /\ (s ∉ fds) /\ fds' = {[s]} ∪ fds) \/
     (success r = false /\ out = kInvalidSocket /\ fds' = fds)).

Lemma connected_opens dcheck_on a fds : answers_ok a fds ->
  opens_one (fun r => negb (r =? -1)) (CreateTCPConnectedSocket dcheck_on a fds) fds (socket_rc a) /\
  (forall r out fds', CreateTCPConnectedSocket dcheck_on a fds = Ret (r, out, fds') -> r = -1 \/ r = 0 \/ r = 1).
Proof.
  intros Ha. unfold opens_one, CreateTCPConnectedSocket, kInvalidSocket.
  destruct (getaddrinfo_rc a =? 0); cbn [negb]; [|split; [|intros ??? [= <- <- <-]; auto]; eexists (-1), _, _; split; [done|by right]].
  destruct (ok_socket _ _ Ha) as [Hs|[Hs Hf]].
  { rewrite Hs. split; [|intros ??? [= <- <- <-]; auto]. eexists (-1), _, _. split; [done|by right]. }
  rewrite (proj2 (Z.eqb_neq _ (-1))) by lia. rewrite (set_non_blocking_ok _ _ fds), (set_disable_nagle_ok _ fds) by done. obind.
  change (1 =? 0) with false. cbn iota. destruct (connect_rc a =? -1); [destruct (connect_errno a =? EINPROGRESS)|]; cbn [negb].
  - split; [|intros ??? [= <- <- <-]; auto]. eexists 0, _, _. split; [done|by left].
  - split; [|intros ??? [= <- <- <-]; auto]. eexists (-1), _, _. split; [done|right]. by rewrite fresh_closed.
  - split; [|intros ??? [= <- <- <-]; auto]. eexists 1, _, _. split; [done|by left].
Qed.

Lemma accept_opens dcheck_on a fds : answers_ok a fds ->
  opens_one (Z.eqb 0) (Accept dcheck_on a fds) fds (socket_rc a).
Proof.
  intros Ha. unfold opens_one, Accept, kInvalidSocket. destruct (ok_socket _ _ Ha) as [Hs|[Hs Hf]].
  { rewrite Hs. eexists (-1), _, _. split; [done|by right]. }
  rewrite (proj2 (Z.eqb_neq _ (-1))) by lia. rewrite (set_non_blocking_ok _ _ fds), (set_disable_nagle_ok _ fds) by done. obind.
  eexists 0, _, _. split; [done|by left].
Qed.

Lemma listening_opens a fds : answers_ok a fds ->
  opens_one (Z.eqb 0) (CreateTCPListeningSocket a fds) fds (socket_rc a).
Proof.
  intros Ha. unfold opens_one, CreateTCPListeningSocket, kInvalidSocket.
  destruct (getaddrinfo_rc a =? 0); cbn [negb]; [|eexists (-1), _, _; split; [done|by right]].
  destruct (ok_socket _ _ Ha) as [Hs|[Hs Hf]].
  { rewrite Hs. eexists (-1), _, _. split; [done|by right]. }
  rewrite (proj2 (Z.eqb_neq _ (-1))) by lia. rewrite (ok_close _ _ Ha), (set_disable_nagle_ok _ fds) by done.
  rewrite (proj2 (Z.ltb_ge (reuseaddr_rc a) 0)) by apply Ha. cbn [CloseSocket]. obind. change (1 =? 0) with false. cbn iota.
  rewrite (fresh_closed _ _ Hf).
  destruct (bind_rc a <? 0); [destruct (bind_errno a =? EADDRNOTAVAIL)|destruct (listen_rc a <? 0)];
    eexists _, _, _; (split; [reflexivity|]); (by right) || (by left).
Qed.

(** The socket functions leave no descriptor behind.  Opening a connection,
    opening a listening socket and accepting each return, and either report
    success with a descriptor that was not open and is now, or failure with the
    descriptors as they were - if none of the calls fails whose failure the code
    takes for fatal. *)
Theorem sockets_leave_nothing (dcheck_on : bool) (a : answers) (fds : descriptors) :
  answers_ok a fds ->
  opens_one (fun r => negb (r =? -1)) (CreateTCPConnectedSocket dcheck_on a fds) fds (socket_rc a) /\
  opens_one (Z.eqb 0) (CreateTCPListeningSocket a fds) fds (socket_rc a) /\
  opens_one (Z.eqb 0) (Accept dcheck_on a fds) fds (socket_rc a).
Proof. intros Ha. split_and!; [by apply connected_opens|by apply listening_opens|by apply accept_opens]. Qed.

(** Descriptor 7, a refused connection, an address in use. *)
Definition refused : answers := Answers 0 7 0 0 0 0 (-1) EADDRINUSE [] 0 (-1) ECONNREFUSED 0 false 0 0.

Lemma sockets_leave_nothing_witness :
  opens_one (fun r => negb (r =? -1)) (CreateTCPConnectedSocket true refused {[3]}) {[3]} (socket_rc refused) /\
  opens_one (Z.eqb 0) (CreateTCPListeningSocket refused {[3]}) {[3]} (socket_rc refused) /\
  opens_one (Z.eqb 0) (Accept true refused {[3]}) {[3]} (socket_rc refused).
Proof.
  apply (sockets_leave_nothing true refused {[3]}). split; [|done|done|done]. right. cbn. split; [lia|set_solver].
Defined.

(** The blocking connect never connects.  [select] is asked about no
    descriptor, its first argument being 0, so it never reports one; a
    connection that is not made at once is then closed and reported as failed,
    and one that is made at once is reported as a success whose socket is the
    invalid one, while the open descriptor is lost. *)
Theorem blocking_connect_fails (dcheck_on : bool) (a : answers) (fds : descriptors) :
  answers_ok a fds -> select_rc a <= 0 ->
  exists ok fds', CreateBlockingTCPConnectedSocket dcheck_on a fds = Ret (ok, kInvalidSocket, fds') /\
    fds' = if ok then {[socket_rc a]} ∪ fds else fds.
Proof.
  intros Ha Hsel. destruct (connected_opens dcheck_on a fds Ha) as [(r & out & fds' & E & Hr) Hv].
  specialize (Hv _ _ _ E). unfold CreateBlockingTCPConnectedSocket. rewrite E. obind.
  destruct Hr as [(Hr & -> & Hs & Hf & ->)|(Hr & -> & ->)].
  - destruct Hv as [->|[->| ->]]; [done|..].
    + exists false, fds. split; [|done]. rewrite (proj2 (Z.ltb_ge _ _)) by lia. cbn. by rewrite fresh_closed.
    + by eexists true, _.
  - destruct Hv as [->|[->| ->]]; [|done..]. by exists false, fds.
Qed.

(** A connection that is made at once, on descriptor 7. *)
Definition at_once : answers := Answers 0 7 0 0 0 0 0 0 [] 0 0 0 0 false 0 0.
Lemma blocking_connect_fails_witness :
  exists ok fds', CreateBlockingTCPConnectedSocket true at_once {[3]} = Ret (ok, kInvalidSocket, fds') /\
    fds' = if ok then {[socket_rc at_once]} ∪ {[3]} else {[3]}.
Proof.
  apply (blocking_connect_fails true at_once {[3]}); [|done]. split; [|done|done|done]. right. cbn. split; [lia|set_solver].
Defined.

(** Only 0 is no error. *)
Lemma switch_on_label os_error cases default :
  switch_on os_error cases default = default \/
  exists labels, In (labels, switch_on os_error cases default) cases /\ existsb (Z.eqb os_error) labels = true.
Proof.
  induction cases as [|[labels r] cases IH]; cbn [switch_on]; [by left|].
  destruct (existsb (Z.eqb os_error) labels) eqn:E; [right; exists labels; split; [by left|done]|].
  destruct IH as [|(labels' & Hin & He)]; [by left|right]. exists labels'. split; [by right|done].
Qed.

Lemma MapConnectError_OK os_error : MapConnectError os_error = OK <-> os_error = 0.
Proof.
  split; [|by intros ->]. unfold MapConnectError. destruct (Z.eqb_spec os_error EACCES), (Z.eqb_spec os_error ETIMEDOUT); try done.
  destruct (Z.eqb_spec (MapSystemError os_error) ERR_FAILED); [done|]. unfold MapSystemError.
  destruct (switch_on_label os_error system_errors ERR_FAILED) as [->|(labels & Hin & He)]; [done|]. intros E. rewrite E in Hin.
  assert (forallb (fun c => negb (c.2 =? OK) || bool_decide (c.1 = [0])) system_errors = true) as Hall by (vm_compute; done).
  rewrite forallb_forall in Hall. specialize (Hall _ Hin). cbn in Hall. apply bool_decide_eq_true in Hall. subst labels.
  cbn in He. rewrite orb_false_r in He. by apply Z.eqb_eq in He.
Qed.
