(* ===== verification/Client.v ===== *)
(** The TCP client, [zutils/net/engine/tcp_connector.{h,cc}] and [tcp_client.cc]:
    the state machine of a connection attempt and its retries, on one message
    loop, with the connections it makes.  The kernel's answers, the readiness of
    sockets and the application's calls come in as events. *)
From Stdlib Require Import ZArith Lia Bool.
From stdpp Require Import base list numbers gmap.
From S2P Require Import Prelude IOBuffer IOHandler SocketOps.

Open Scope Z_scope.

(** [TCPConnector::ConnectState] *)
Inductive connect_state :=
  | kConnectStateInvalid | kConnectStateConnecting | kConnectStateConnectComplete | kConnectStateConnected.

#[export] Instance connect_state_eq_dec : EqDecision connect_state.
Proof. solve_decision. Defined.

(** [TCPConnector::ConnAddrInfo], but for the strings handed to [getaddrinfo]. *)
Record conn_addr_info := ConnAddrInfo {
  is_inited : bool;
  is_numeric_host_address : bool;
  is_reconnect : bool;
  reconnect_time : Z
}.

(** What is posted to the message loop. *)
Inductive task := ReConnectTask | DoCloseTask (from_me : bool).

(** [TCPConnector]; [watcher_] holds the descriptor it is armed for. *)
Record connector := Connector {
  connect_state_ : connect_state;
  connector_ : Z;
  conn_addr_info_ : conn_addr_info;
  watcher_ : option Z
}.

(** [TCPClient] and what it shares: [io_handler_] points into [handlers], all the
    [IOHandler]s that were made; the tasks of the loop, in order; the delayed
    tasks with their delay; and the descriptors that are open. *)
Record client := Client {
  conn_ : connector;
  io_handler_ : option nat;
  handlers : list io_handler;
  tasks : list task;
  timers : list (Z * task);
  fds : descriptors
}.

Definition set_conn (k : connector) (c : client) : client :=
  Client k (io_handler_ c) (handlers c) (tasks c) (timers c) (fds c).
Definition set_io_handler (i : option nat) (c : client) : client :=
  Client (conn_ c) i (handlers c) (tasks c) (timers c) (fds c).
Definition set_handlers (l : list io_handler) (c : client) : client :=
  Client (conn_ c) (io_handler_ c) l (tasks c) (timers c) (fds c).
Definition set_fds (f : descriptors) (c : client) : client :=
  Client (conn_ c) (io_handler_ c) (handlers c) (tasks c) (timers c) f.
Definition PostTask (t : task) (c : client) : client :=
  Client (conn_ c) (io_handler_ c) (handlers c) (tasks c ++ [t]) (timers c) (fds c).
Definition PostDelayedTask (t : task) (delay : Z) (c : client) : client :=
  Client (conn_ c) (io_handler_ c) (handlers c) (tasks c) (timers c ++ [(delay, t)]) (fds c).

Definition SetConnState (s : connect_state) (c : client) : client :=
  let k := conn_ c in set_conn (Connector s (connector_ k) (conn_addr_info_ k) (watcher_ k)) c.
Definition set_connector (s : Z) (c : client) : client :=
  let k := conn_ c in set_conn (Connector (connect_state_ k) s (conn_addr_info_ k) (watcher_ k)) c.
Definition set_watcher (w : option Z) (c : client) : client :=
  let k := conn_ c in set_conn (Connector (connect_state_ k) (connector_ k) (conn_addr_info_ k) w) c.

(** The constructors. *)
Definition client_new (open : descriptors) : client :=
  Client (Connector kConnectStateInvalid kInvalidSocket (ConnAddrInfo false true false 0) None) None [] [] [] open.

(** [TCPConnector::DoConnect] *)
Definition DoConnect (reconnect_time : Z) (c : client) : client :=
  if reconnect_time =? 0 then PostTask ReConnectTask c else PostDelayedTask ReConnectTask reconnect_time c.

(** [TCPConnector::Connect] *)
Definition Connect (is_numeric_host_address : bool) (c : client) : bool * client :=
  let k := conn_ c in
  if negb (bool_decide (connect_state_ k = kConnectStateInvalid)) then (false, c)
  else
    let info := ConnAddrInfo true is_numeric_host_address true 10 in
    (true, DoConnect 0 (set_conn (Connector (connect_state_ k) (connector_ k) info (watcher_ k)) c)).

(** [TCPClient::OnDestroyConnection] *)
Definition OnDestroyConnection (c : client) : bool :=
  match io_handler_ c with None => true | Some _ => false end.

(** [TCPConnector::DoClose] *)
Definition DoClose (from_me : bool) (c : client) : client :=
  let c := if from_me then
             if negb (OnDestroyConnection c) then set_fds (fds c ∖ {[connector_ (conn_ c)]}) c else c
           else c in
  SetConnState kConnectStateInvalid (set_connector kInvalidSocket c).

(** [TCPConnector::DisConnect], as it is written. *)
Definition DisConnect (c : client) : bool * client :=
  if negb (bool_decide (connect_state_ (conn_ c) = kConnectStateInvalid)) then (false, c)
  else (true, PostTask (DoCloseTask true) c).

(** [TCPClient::OnConnectionClosed], which [IOHandler::Close] calls first; then
    [IOHandler::Close] itself on the handler [i]. *)
Definition OnConnectionClosed (c : client) : client := DoClose false (set_io_handler None c).
Definition close_descriptor (s : Z) (c : client) : client :=
  if negb (s =? 0) && negb (s =? kInvalidSocket) then set_fds (fds c ∖ {[s]}) c else c.
Definition CloseHandler (i : nat) (c : client) : client :=
  let c := OnConnectionClosed c in
  match handlers c !! i with
  | Some h => set_handlers (<[i := Close h]> (handlers c)) (close_descriptor (socket_ h) c)
  | None => c
  end.

(** [TCPClient::OnCreateConnection]: the client runs on the loop it gives to the
    new handler, so [Create] runs [OnCreated] at once, and the application's
    answer [on_new] to [OnNewConnection] may close it before it is stored. *)
Definition OnCreateConnection (s on_new : Z) (c : client) : bool * client :=
  let ih := length (handlers c) in
  let c := set_handlers (handlers c ++ [Create (handler_new s) on_new]) c in
  let c := if negb (on_new =? 0) then close_descriptor s (OnConnectionClosed c) else c in
  (true, set_io_handler (Some ih) c).

(** [TCPConnector::OnNewConnection] *)
Definition OnNewConnection (s on_new : Z) (c : client) : client :=
  let '(created, c) := OnCreateConnection s on_new c in
  if created then SetConnState kConnectStateConnected c else c.

Section Steps.
Context (dcheck_on : bool).

(** [TCPConnector::OnConnecting]: [WatchFileDescriptor] refuses a watcher that
    holds another descriptor, and drops that one. *)
Definition OnConnecting (c : client) : outcome client :=
  match watcher_ (conn_ c) with
  | Some fd =>
      if fd =? connector_ (conn_ c) then Ret c
      else DCHECK dcheck_on false (Ret (set_watcher None c))
  | None => Ret (set_watcher (Some (connector_ (conn_ c))) c)
  end.

(** [TCPConnector::ReConnect] *)
Definition ReConnect (a : answers) (on_new : Z) (c : client) : outcome client :=
  '(ret, sock, open) ← CreateTCPConnectedSocket dcheck_on a (fds c);
  let c := set_connector sock (set_fds open c) in
  if ret =? -1 then Ret (DoConnect (reconnect_time (conn_addr_info_ (conn_ c))) c)
  else if ret =? 1 then Ret (OnNewConnection (connector_ (conn_ c)) on_new c)
  else OnConnecting (SetConnState kConnectStateConnecting c).

(** [TCPConnector::OnConnected]; [os_error] is what [getsockopt] gives. *)
Definition OnConnected (os_error on_new : Z) (c : client) : outcome client :=
  if negb (bool_decide (connect_state_ (conn_ c) = kConnectStateConnecting)) then Ret c
  else if (os_error =? EINPROGRESS) || (os_error =? EALREADY) then DCHECK dcheck_on false (Ret c)
  else
    let c := set_watcher None c in
    let result := MapConnectError os_error in
    if result =? OK then Ret (OnNewConnection (connector_ (conn_ c)) on_new c)
    else
      let c := if is_reconnect (conn_addr_info_ (conn_ c))
               then DoConnect (reconnect_time (conn_addr_info_ (conn_ c))) c else c in
      Ret (DoClose true c).

(** [TCPConnector::OnFileCanWriteWithoutBlocking] *)
Definition OnFileCanWriteWithoutBlocking (os_error on_new : Z) (c : client) : outcome client :=
  if bool_decide (connect_state_ (conn_ c) = kConnectStateConnecting) then OnConnected os_error on_new c else Ret c.

Definition run_task (t : task) (a : answers) (on_new : Z) (c : client) : outcome client :=
  match t with
  | ReConnectTask => ReConnect a on_new c
  | DoCloseTask from_me => Ret (DoClose from_me c)
  end.

(** What can happen to a client: the application connects or disconnects, the
    loop runs its first task or a delayed task that is due, the socket it
    watches becomes writable, a connection reads its end or an error. *)
Inductive event :=
  | EConnect (is_numeric_host_address : bool)
  | EDisConnect
  | ETask (a : answers) (on_new : Z)
  | ETimer (a : answers) (on_new : Z)
  | EWritable (os_error on_new : Z)
  | EClosed (i : nat).

Definition handler_open (c : client) (i : nat) : bool :=
  match handlers c !! i with Some h => negb (socket_ h =? kInvalidSocket) | None => false end.

(** An event that cannot happen leaves the client as it is. *)
Definition client_step (c : client) (ev : event) : outcome client :=
  match ev with
  | EConnect numeric => Ret (snd (Connect numeric c))
  | EDisConnect => Ret (snd (DisConnect c))
  | ETask a on_new =>
      match tasks c with
      | [] => Ret c
      | t :: ts => run_task t a on_new (Client (conn_ c) (io_handler_ c) (handlers c) ts (timers c) (fds c))
      end
  | ETimer a on_new =>
      match timers c with
      | [] => Ret c
      | (_, t) :: ts => run_task t a on_new (Client (conn_ c) (io_handler_ c) (handlers c) (tasks c) ts (fds c))
      end
  | EWritable os_error on_new =>
      match watcher_ (conn_ c) with
      | Some _ => OnFileCanWriteWithoutBlocking os_error on_new c
      | None => Ret c
      end
  | EClosed i => Ret (if handler_open c i then CloseHandler i c else c)
  end.
Fixpoint client_run (c : client) (evs : list event) : outcome client :=
  match evs with
  | [] => Ret c
  | ev :: evs => c ← client_step c ev; client_run c evs
  end.
End Steps.

(** * The specification: one attempt at a time *)
Inductive phase :=
  | Idle (n : nat)                    (** nothing is going on but [n] disconnects are posted *)
  | Attempt (n : nat)                 (** an attempt is posted, behind [n] disconnects *)
  | Waiting                           (** the last attempt failed, the next one is due later *)
  | Connecting (s : Z)                (** an attempt is in progress *)
  | Connected (i : nat) (s : Z)       (** the [i]th connection is open *)
  | Refused (i : nat).                (** the application refused the [i]th connection *)

(** The phase, the number of connections that were made, the open descriptors. *)
Record spec_state := SpecState { ph : phase; made : nat; open : descriptors }.

(** What comes of an attempt: no socket, one that connects at once, one in progress. *)
Inductive attempt := Failed | AtOnce | InProgress.
Definition attempt_of (a : answers) : attempt :=
  if negb (getaddrinfo_rc a =? 0) || (socket_rc a =? kInvalidSocket) then Failed
  else if connect_rc a =? -1 then if connect_errno a =? EINPROGRESS then InProgress else Failed
  else AtOnce.

Definition spec_made (s on_new : Z) (st : spec_state) : spec_state :=
  if on_new =? 0 then SpecState (Connected (made st) s) (S (made st)) ({[s]} ∪ open st)
  else SpecState (Refused (made st)) (S (made st)) (open st ∖ {[s]}).
Definition spec_attempt (a : answers) (on_new : Z) (st : spec_state) : spec_state :=
  match attempt_of a with
  | Failed => SpecState Waiting (made st) (open st)
  | InProgress => SpecState (Connecting (socket_rc a)) (made st) ({[socket_rc a]} ∪ open st)
  | AtOnce => spec_made (socket_rc a) on_new st
  end.
Definition spec_step (st : spec_state) (ev : event) : spec_state :=
  match ph st, ev with
  | Idle n, EConnect _ => SpecState (Attempt n) (made st) (open st)
  | Idle n, EDisConnect => SpecState (Idle (S n)) (made st) (open st)
  | Idle n, ETask _ _ => SpecState (Idle (pred n)) (made st) (open st)
  | Attempt n, ETask a on_new =>
      match n with O => spec_attempt a on_new st | S n => SpecState (Attempt n) (made st) (open st) end
  | Waiting, ETimer a on_new => spec_attempt a on_new st
  | Connecting s, EWritable os_error on_new =>
      if os_error =? 0 then spec_made s on_new st else SpecState Waiting (made st) (open st)
  | Connected i s, EClosed j =>
      if bool_decide (j = i) then SpecState (Idle 0) (made st) (open st ∖ {[s]}) else st
  | _, _ => st
  end.

(** An application that waits: it neither connects nor disconnects while an attempt is
    posted or due; and a kernel that keeps its promises ([answers_ok]) and calls a socket
    writable only when its connection is made or failed. *)
Definition allowed (st : spec_state) (ev : event) : Prop :=
  match ph st, ev with
  | (Attempt _ | Waiting), (EConnect _ | EDisConnect) => False
  | Attempt n, ETask a _ => n = O -> answers_ok a (open st)
  | Waiting, ETimer a _ => answers_ok a (open st)
  | Connecting _, EWritable os_error _ => os_error <> EINPROGRESS /\ os_error <> EALREADY
  | _, _ => True
  end.
Fixpoint allowed_all (st : spec_state) (evs : list event) : Prop :=
  match evs with [] => True | ev :: evs => allowed st ev /\ allowed_all (spec_step st ev) evs end.

(** The client is in the phase. *)
Definition retries (c : client) : Prop :=
  is_reconnect (conn_addr_info_ (conn_ c)) = true /\ reconnect_time (conn_addr_info_ (conn_ c)) = 10.
Definition control (c : client) :=
  (connect_state_ (conn_ c), io_handler_ c, tasks c, timers c, watcher_ (conn_ c)).
Definition in_phase (p : phase) (c : client) : Prop :=
  match p with
  | Idle n => control c = (kConnectStateInvalid, None, replicate n (DoCloseTask true), [], None)
  | Attempt n => control c = (kConnectStateInvalid, None, replicate n (DoCloseTask true) ++ [ReConnectTask], [], None) /\ retries c
  | Waiting => control c = (kConnectStateInvalid, None, [], [(10, ReConnectTask)], None) /\ retries c
  | Connecting s =>
      control c = (kConnectStateConnecting, None, [], [], Some s) /\ connector_ (conn_ c) = s /\ 0 < s /\ s ∈ fds c /\ retries c
  | Connected i s =>
      control c = (kConnectStateConnected, Some i, [], [], None) /\ 0 < s /\
      exists h, handlers c !! i = Some h /\ socket_ h = s /\ watch_read h = true
  | Refused i => control c = (kConnectStateConnected, Some i, [], [], None)
  end.
Definition is_connection (p : phase) (i : nat) : bool :=
  match p with Connected j _ => bool_decide (j = i) | _ => false end.
Record implements (st : spec_state) (c : client) : Prop := {
  im_fds : fds c = open st;
  im_made : length (handlers c) = made st;
  im_closed : forall i h, handlers c !! i = Some h -> is_connection (ph st) i = false -> socket_ h = kInvalidSocket;
  im_phase : in_phase (ph st) c
}.

Lemma implements_new fds : implements (SpecState (Idle 0) 0 fds) (client_new fds).
Proof. by split. Qed.

Lemma create_accepted s : socket_ (Create (handler_new s) 0) = s /\ watch_read (Create (handler_new s) 0) = true.
Proof. done. Qed.
Lemma create_refused s on_new : on_new <> 0 -> socket_ (Create (handler_new s) on_new) = kInvalidSocket.
Proof. intros H. unfold Create, OnCreated. by rewrite (proj2 (Z.eqb_neq _ _)). Qed.

(** A new connection, on a client whose descriptors hold it. *)
Lemma new_connection st c s on_new :
  fds c = {[s]} ∪ open st -> length (handlers c) = made st -> 0 < s ->
  (forall i h, handlers c !! i = Some h -> socket_ h = kInvalidSocket) ->
  tasks c = [] -> timers c = [] -> watcher_ (conn_ c) = None ->
  implements (spec_made s on_new st) (OnNewConnection s on_new c).
Proof.
  intros Hf Hm Hs Hc Ht Htm Hw. unfold OnNewConnection, OnCreateConnection, spec_made.
  destruct (Z.eqb_spec on_new 0) as [->|Hn]; cbn [negb].
  - split; cbn; [done|rewrite length_app, Hm; cbn; lia| |].
    + intros i h Hi Hne. apply bool_decide_eq_false in Hne. apply lookup_snoc_Some in Hi as [[_ Hi]|[Hi _]]; [by eapply Hc|lia].
    + rewrite <- Hm. split; [unfold control; cbn; by rewrite Ht, Htm, Hw|]. split; [done|]. eexists. by rewrite lookup_app_r, Nat.sub_diag.
  - unfold close_descriptor, kInvalidSocket. rewrite (proj2 (Z.eqb_neq s 0)), (proj2 (Z.eqb_neq s (-1))) by lia. cbn [negb andb].
    split; cbn.
    + rewrite Hf. apply set_eq. intros x. rewrite !elem_of_difference, elem_of_union. tauto.
    + rewrite length_app, Hm. cbn. lia.
    + intros i h Hi _. apply lookup_snoc_Some in Hi as [[_ Hi]|[_ <-]]; [by eapply Hc|by apply create_refused].
    + unfold control. cbn. by rewrite Ht, Htm, Hw, Hm.
Qed.

Lemma attempt_result dcheck_on a fds : answers_ok a fds ->
  CreateTCPConnectedSocket dcheck_on a fds =
    Ret (match attempt_of a with
         | Failed => (-1, kInvalidSocket, fds)
         | InProgress => (0, socket_rc a, {[socket_rc a]} ∪ fds)
         | AtOnce => (1, socket_rc a, {[socket_rc a]} ∪ fds)
         end) /\ (attempt_of a <> Failed -> 0 < socket_rc a /\ socket_rc a ∉ fds).
Proof.
  intros Ha. unfold CreateTCPConnectedSocket, attempt_of, kInvalidSocket.
  destruct (getaddrinfo_rc a =? 0); cbn [negb orb]; [|done]. destruct (ok_socket _ _ Ha) as [Hs|[Hs Hf]]; [by rewrite Hs|].
  rewrite (proj2 (Z.eqb_neq _ (-1))) by lia. rewrite (set_non_blocking_ok _ _ fds), (set_disable_nagle_ok _ fds) by done. obind.
  change (1 =? 0) with false. cbn iota. destruct (connect_rc a =? -1); [destruct (connect_errno a =? EINPROGRESS)|]; cbn [negb]; try done.
  by rewrite fresh_closed.
Qed.

(** An attempt, from either phase that makes one. *)
Lemma attempt_step dcheck_on st c a on_new :
  answers_ok a (open st) -> fds c = open st -> length (handlers c) = made st ->
  (forall i h, handlers c !! i = Some h -> socket_ h = kInvalidSocket) ->
  control c = (kConnectStateInvalid, None, [], [], None) -> retries c ->
  exists c', ReConnect dcheck_on a on_new c = Ret c' /\ implements (spec_attempt a on_new st) c'.
Proof.
  intros Ha Hf Hm Hc Hk Hr. unfold ReConnect, spec_attempt. rewrite Hf.
  destruct (attempt_result dcheck_on a (open st) Ha) as [-> Hfresh]. unfold control in Hk. injection Hk as Hst Hih Ht Htm Hw.
  destruct (attempt_of a); obind.
  - eexists. split; [done|]. unfold DoConnect. cbn. destruct Hr as [Hr1 Hr2]. rewrite Hr2. cbn.
    split; cbn; [done|done|by intros; eapply Hc|]. split; [|done]. unfold control. cbn. by rewrite Hst, Hih, Ht, Htm, Hw.
  - destruct Hfresh as [Hs Hfr]; [done|]. eexists. split; [done|]. by apply new_connection.
  - destruct Hfresh as [Hs Hfr]; [done|]. unfold OnConnecting. cbn. rewrite Hw. eexists. split; [done|].
    split; cbn; [done|done|by intros; eapply Hc|]. split_and!; try done; [unfold control; cbn; by rewrite Hih, Ht, Htm|].
    apply elem_of_union_l. by apply elem_of_singleton.
Qed.

(** A posted disconnect, when nothing is open: nothing to close. *)
Lemma close_task_step st st' c ts :
  implements st c -> io_handler_ c = None -> watcher_ (conn_ c) = None ->
  made st' = made st -> open st' = open st -> (forall i, is_connection (ph st) i = false) ->
  (forall c', control c' = (kConnectStateInvalid, None, ts, [], None) -> (retries c -> retries c') -> in_phase (ph st') c') ->
  implements st' (DoClose true (Client (conn_ c) (io_handler_ c) (handlers c) ts [] (fds c))).
Proof.
  intros [Hf Hm Hc _] Hih Hw Em Eo Hn Hp. unfold DoClose, OnDestroyConnection. cbn. rewrite Hih. cbn.
  split; cbn; [by rewrite Eo|by rewrite Em|by intros; eapply Hc|]. apply Hp; [|done]. unfold control. cbn. by rewrite Hw.
Qed.

(** The steps of the specification, one by one. *)
Lemma step_implements dcheck_on st c ev :
  implements st c -> allowed st ev ->
  exists c', client_step dcheck_on c ev = Ret c' /\ implements (spec_step st ev) c'.
Proof.
  intros [Hf Hm Hc Hp] Ha. destruct st as [p m o]. cbn in *.
  assert (implements (SpecState p m o) c) as Him by by split.
  assert (forall c', c = c' -> exists c'', Ret c' = Ret c'' /\ implements (SpecState p m o) c'') as Hsame by (intros c' <-; eauto).
  assert (is_connection p 0 = is_connection p 0) as _ by done.
  assert (forall i, is_connection p i = false -> handler_open c i = false) as Hclosed.
  { intros i Hi. unfold handler_open. destruct (handlers c !! i) as [h|] eqn:E; [|done]. by rewrite (Hc i h E Hi). }
  destruct p as [n|n| |s|i s|i]; cbn [in_phase] in Hp; unfold allowed in Ha; cbn [ph] in Ha; unfold spec_step; cbn [ph made open].
  - injection Hp as Hst Hih Ht Htm Hw. destruct ev as [numeric| |a on_new|a on_new|e on_new|j]; cbn [client_step]; try done;
      rewrite ?Ht, ?Htm, ?Hw; try (by apply Hsame); [| | |rewrite (Hclosed j) by done; by apply Hsame].
    + eexists. split; [done|]. unfold Connect. rewrite bool_decide_eq_true_2 by done. cbn.
      split; cbn; [done|done|by intros; eapply Hc|]. split; [|done]. unfold control. cbn. by rewrite Hst, Hih, Ht, Htm, Hw.
    + eexists. split; [done|]. unfold DisConnect. rewrite bool_decide_eq_true_2 by done. cbn.
      split; cbn; [done|done|by intros; eapply Hc|]. unfold control. cbn. by rewrite Hst, Hih, Ht, Htm, Hw, replicate_cons_app.
    + destruct n as [|n]; cbn [replicate]; [by apply Hsame|]. eexists. split; [done|].
      apply (close_task_step (SpecState (Idle (S n)) m o)); try done.
  - destruct Hp as [Hp Hr]. injection Hp as Hst Hih Ht Htm Hw. destruct ev as [numeric| |a on_new|a on_new|e on_new|j]; cbn [client_step]; try done;
      rewrite ?Ht, ?Htm, ?Hw; try (by apply Hsame); [|rewrite (Hclosed j) by done; by apply Hsame].
    destruct n as [|n]; cbn [replicate app].
    + apply (attempt_step _ (SpecState (Attempt 0) m o)); try done; [by apply Ha|by intros; eapply Hc|]. unfold control. cbn. by rewrite Hst, Hih, ?Htm, Hw.
    + eexists. split; [done|]. apply (close_task_step (SpecState (Attempt (S n)) m o)); try done. intros c' E Hr'. split; [done|by apply Hr'].
  - destruct Hp as [Hp Hr]. injection Hp as Hst Hih Ht Htm Hw. destruct ev as [numeric| |a on_new|a on_new|e on_new|j]; cbn [client_step]; try done;
      rewrite ?Ht, ?Htm, ?Hw; try (by apply Hsame); [|rewrite (Hclosed j) by done; by apply Hsame].
    apply (attempt_step _ (SpecState Waiting m o)); try done; [by intros; eapply Hc|]. unfold control. cbn. by rewrite Hst, Hih, ?Ht, Hw.
  - destruct Hp as (Hp & Hk & Hs & Hin & Hr). injection Hp as Hst Hih Ht Htm Hw.
    destruct ev as [numeric| |a on_new|a on_new|e on_new|j]; cbn [client_step]; rewrite ?Ht, ?Htm, ?Hw; try (by apply Hsame).
    + unfold Connect. rewrite Hst. by apply Hsame.
    + unfold DisConnect. rewrite Hst. by apply Hsame.
    + destruct Ha as [Ha1 Ha2]. unfold OnFileCanWriteWithoutBlocking, OnConnected. rewrite !(bool_decide_eq_true_2 (connect_state_ (conn_ c) = _)) by done.
      rewrite (proj2 (Z.eqb_neq e EINPROGRESS)), (proj2 (Z.eqb_neq e EALREADY)) by done. cbn [negb orb].
      pose proof (MapConnectError_OK e) as Hok. destruct (Z.eqb_spec (MapConnectError e) OK) as [E|E].
      * rewrite (proj1 Hok E). eexists. split; [done|]. cbn [Z.eqb]. change (connector_ (conn_ (set_watcher None c))) with (connector_ (conn_ c)). rewrite Hk.
        apply (new_connection (SpecState (Connecting s) m o)); try done; [|by intros; eapply Hc].
        cbn. rewrite Hf in *. apply set_eq. intros x. rewrite elem_of_union, elem_of_singleton. split; [by right|]. by intros [->|?].
      * rewrite (proj2 (Z.eqb_neq e 0)) by tauto. destruct Hr as [Hr1 Hr2]. eexists. split; [done|]. cbn. rewrite Hr1, Hr2. cbn.
        unfold DoClose, OnDestroyConnection. cbn. rewrite Hih. cbn.
        split; cbn; [done|done|by intros; eapply Hc|]. split; [|done]. unfold control. cbn. by rewrite Hih, Ht, Htm.
    + rewrite (Hclosed j) by done. by apply Hsame.
  - destruct Hp as (Hp & Hs & h & Hh & Hsock & _). injection Hp as Hst Hih Ht Htm Hw.
    destruct ev as [numeric| |a on_new|a on_new|e on_new|j]; cbn [client_step]; rewrite ?Ht, ?Htm, ?Hw; try (by apply Hsame).
    + unfold Connect. rewrite Hst. by apply Hsame.
    + unfold DisConnect. rewrite Hst. by apply Hsame.
    + destruct (bool_decide_reflect (j = i)) as [->|Hne].
      2:{ rewrite (Hclosed j) by (apply bool_decide_eq_false_2; congruence). by apply Hsame. }
      unfold handler_open. rewrite Hh, Hsock. unfold kInvalidSocket at 1. rewrite (proj2 (Z.eqb_neq s (-1))) by lia. cbn [negb].
      eexists. split; [done|]. unfold CloseHandler. cbn. rewrite Hh. cbn. rewrite Hsock. unfold close_descriptor, kInvalidSocket.
      rewrite (proj2 (Z.eqb_neq s 0)), (proj2 (Z.eqb_neq s (-1))) by lia. cbn [negb andb]. split; cbn.
      * by rewrite Hf.
      * by rewrite length_insert.
      * intros j h' Hj _. destruct (decide (i = j)) as [<-|Hne].
        -- rewrite list_lookup_insert_eq in Hj by (by eapply lookup_lt_Some). by injection Hj as <-.
        -- rewrite list_lookup_insert_ne in Hj by done. apply (Hc j); [done|]. by apply bool_decide_eq_false_2.
      * unfold control. cbn. by rewrite Ht, Htm, Hw.
  - injection Hp as Hst Hih Ht Htm Hw.
    destruct ev as [numeric| |a on_new|a on_new|e on_new|j]; cbn [client_step]; rewrite ?Ht, ?Htm, ?Hw; try (by apply Hsame).
    + unfold Connect. rewrite Hst. by apply Hsame.
    + unfold DisConnect. rewrite Hst. by apply Hsame.
    + rewrite (Hclosed j) by done. by apply Hsame.
Qed.

Lemma run_implements dcheck_on evs : forall st c,
  implements st c -> allowed_all st evs ->
  exists c', client_run dcheck_on c evs = Ret c' /\ implements (fold_left spec_step evs st) c'.
Proof.
  induction evs as [|ev evs IH]; intros st c Hi Ha; cbn [client_run fold_left]; [by exists c|].
  destruct Ha as [Ha Hall]. destruct (step_implements dcheck_on st c ev Hi Ha) as (c' & -> & Hi'). obind. by apply IH.
Qed.
