(* ===== verification/ClientProofs.v ===== *)
(** What the TCP client does over time: it follows its specification, it connects
    in the end, and a refused connection is its last. *)
From Stdlib Require Import ZArith Lia Bool.
From stdpp Require Import base list numbers gmap.
From S2P Require Import Prelude IOBuffer IOHandler SocketOps Client.

Open Scope Z_scope.

(** C16: the client keeps one attempt at a time.  From a new client, as long as the
    application neither connects nor disconnects while an attempt is posted or due, and
    the kernel keeps its promises - it hands out descriptors that are not open, none of the
    calls whose failure the code takes for fatal ([fcntl], [setsockopt]) fails, and a socket
    it calls writable does not say that its connection is still in progress - whatever else
    the kernel answers and the loop reports, in any order: the client runs without a fault
    through the phases of the specification - idle, attempt, waiting, connecting, connected,
    refused - with exactly the posted tasks, timers and watchers of the phase, one
    connection open in the connected phase and none in the others, and the descriptors the
    specification says: those of attempts that failed late are still open, and a disconnect
    in any later phase does nothing.  [disconnect_while_attempt_posted] and
    [disconnect_closes_twice] are what becomes of an application that does not wait. *)
Theorem client_refines (dcheck_on : bool) (fds : descriptors) (evs : list event) :
  allowed_all (SpecState (Idle 0) 0 fds) evs ->
  exists c, client_run dcheck_on (client_new fds) evs = Ret c /\
    implements (fold_left spec_step evs (SpecState (Idle 0) 0 fds)) c.
Proof. apply run_implements, implements_new. Qed.

(** Attempts that fail at once or late, a connection, its end. *)
Definition answer (s connect_rc connect_errno : Z) : answers :=
  Answers 0 s 0 0 0 0 0 0 [] 0 connect_rc connect_errno 0 false 0 0.
Definition sample_events : list event :=
  [EDisConnect; EConnect true; ETask (answer 0 0 0) 0; ETask (answer (-1) 0 0) 0; ETimer (answer 7 (-1) EINPROGRESS) 0; EWritable ECONNREFUSED 0;
   ETimer (answer 8 (-1) EINPROGRESS) 0; EDisConnect; EWritable 0 0; EDisConnect; EConnect true; EClosed 0; EDisConnect; EConnect false].

Lemma answer_ok s r e (open : descriptors) : s = -1 \/ (0 < s /\ s ∉ open) -> answers_ok (answer s r e) open.
Proof. by split. Qed.

Lemma sample_allowed : allowed_all (SpecState (Idle 0) 0 ∅) sample_events.
Proof. repeat split; try (cbn; (tauto || discriminate)); apply answer_ok; (by left) || (right; split; [lia|set_solver]). Qed.

Lemma client_refines_witness :
  exists c, client_run true (client_new ∅) sample_events = Ret c /\
    implements (fold_left spec_step sample_events (SpecState (Idle 0) 0 ∅)) c.
Proof. exact (client_refines true ∅ sample_events sample_allowed). Defined.

(** * It connects in the end *)

(** A failed attempt: what the kernel answered, and the error its socket reported
    if the connection was in progress. *)
Record failure := Failure { f_answers : answers; f_error : Z }.
Definition failure_ok (f : failure) : bool :=
  match attempt_of (f_answers f) with Failed => true | InProgress => negb (f_error f =? 0) | AtOnce => false end.
Definition made_by (first : bool) (a : answers) : event := if first then ETask a 0 else ETimer a 0.
Definition failure_events (first : bool) (f : failure) : list event :=
  made_by first (f_answers f) :: match attempt_of (f_answers f) with InProgress => [EWritable (f_error f) 0] | _ => [] end.
Definition lost (f : failure) : descriptors :=
  match attempt_of (f_answers f) with InProgress => {[socket_rc (f_answers f)]} | _ => ∅ end.

Definition success_events (first : bool) (a : answers) : list event :=
  made_by first a :: match attempt_of a with InProgress => [EWritable 0 0] | _ => [] end.
Fixpoint attempts (first : bool) (fs : list failure) (a : answers) : list event :=
  match fs with
  | [] => success_events first a
  | f :: fs => failure_events first f ++ attempts false fs a
  end.

Lemma attempts_spec fs a : forall first m open,
  forallb failure_ok fs = true -> attempt_of a <> Failed ->
  fold_left spec_step (attempts first fs a) (SpecState (if first then Attempt 0 else Waiting) m open) =
    SpecState (Connected m (socket_rc a)) (S m) ({[socket_rc a]} ∪ (⋃ (lost <$> reverse fs) ∪ open)).
Proof.
  induction fs as [|f fs IH]; intros first m open Hfs Ha; cbn [attempts].
  - assert (⋃ (lost <$> reverse []) ∪ open = open) as -> by (cbn; apply (left_id_L ∅ (∪))). unfold success_events, made_by.
    destruct first; cbn [fold_left]; unfold spec_step at 2 || unfold spec_step at 1; cbn [ph made SocketOps.getaddrinfo_rc Client.open];
      unfold spec_attempt; destruct (attempt_of a); try done; cbn; f_equal; by rewrite (assoc_L (∪)), (idemp_L (∪)).
  - cbn [forallb] in Hfs. apply andb_true_iff in Hfs as [Hf Hfs]. rewrite fold_left_app.
    assert (fold_left spec_step (failure_events first f) (SpecState (if first then Attempt 0 else Waiting) m open) =
      SpecState Waiting m (lost f ∪ open)) as ->.
    { unfold failure_events, made_by, lost, failure_ok in *.
      destruct first; cbn [fold_left]; unfold spec_step at 2 || unfold spec_step at 1; cbn [ph made Client.open]; unfold spec_attempt;
        destruct (attempt_of (f_answers f)); try done; cbn [fold_left]; rewrite ?(left_id_L ∅ (∪)); try done;
        unfold spec_step; cbn [ph made Client.open]; apply negb_true_iff in Hf; by rewrite Hf. }
    rewrite (IH false m (lost f ∪ open) Hfs Ha). f_equal. f_equal.
    rewrite reverse_cons, fmap_app, union_list_app_L, <- (assoc_L (∪)). f_equal. cbn. by rewrite (right_id_L ∅ (∪)).
Qed.

(** C30: a client connects in the end.  After [Connect], however many attempts
    fail, at once or late, the first one that succeeds leaves the client
    connected: its handler is open on the new socket, watched for input, nothing
    is posted or due; but the socket of every attempt that failed late is still
    open. *)
Theorem client_connects (dcheck_on numeric : bool) (fds : descriptors) (fs : list failure) (a : answers) :
  forallb failure_ok fs = true -> attempt_of a <> Failed ->
  allowed_all (SpecState (Idle 0) 0 fds) (EConnect numeric :: attempts true fs a) ->
  exists c i h, client_run dcheck_on (client_new fds) (EConnect numeric :: attempts true fs a) = Ret c /\
    connect_state_ (conn_ c) = kConnectStateConnected /\ io_handler_ c = Some i /\ handlers c !! i = Some h /\
    socket_ h = socket_rc a /\ watch_read h = true /\ tasks c = [] /\ timers c = [] /\
    Client.fds c = {[socket_rc a]} ∪ (⋃ (lost <$> fs) ∪ fds).
Proof.
  intros Hfs Ha Hall. destruct (run_implements dcheck_on _ _ _ (implements_new fds) Hall) as (c & E & [Hf _ _ Hp]).
  cbn [fold_left] in Hf, Hp. change (spec_step (SpecState (Idle 0) 0 fds) (EConnect numeric)) with (SpecState (Attempt 0) 0 fds) in Hf, Hp.
  rewrite (attempts_spec fs a true 0 fds Hfs Ha) in Hf, Hp. cbn in Hf, Hp. destruct Hp as (Hk & _ & h & Hh & Hs & Hw).
  injection Hk as Hst Hih Ht Htm _. exists c, 0%nat, h. rewrite <- (union_list_reverse_L (lost <$> fs)), <- fmap_reverse. by split_and!.
Qed.

Lemma client_connects_witness :
  let fs := [Failure (answer (-1) 0 0) 0; Failure (answer 7 (-1) EINPROGRESS) ECONNREFUSED] in
  let a := answer 8 (-1) EINPROGRESS in
  exists c i h, client_run true (client_new ∅) (EConnect true :: attempts true fs a) = Ret c /\
    connect_state_ (conn_ c) = kConnectStateConnected /\ io_handler_ c = Some i /\ handlers c !! i = Some h /\
    socket_ h = socket_rc a /\ watch_read h = true /\ tasks c = [] /\ timers c = [] /\
    Client.fds c = {[socket_rc a]} ∪ (⋃ (lost <$> fs) ∪ ∅).
Proof.
  apply (client_connects true true ∅ [Failure (answer (-1) 0 0) 0; Failure (answer 7 (-1) EINPROGRESS) ECONNREFUSED]
           (answer 8 (-1) EINPROGRESS)); [done|done|].
  repeat split; try (cbn; (tauto || discriminate)); apply answer_ok; (by left) || (right; split; [lia|set_solver]).
Defined.

(** A refused connection is the client's last.  If the application answers
    the first connection's [OnNewConnection] with anything but 0, the connection
    is closed, and the client, which then stores the closed handler and takes
    itself for connected, refuses every call: nothing that can happen changes it
    any more. *)
Theorem refusal_is_final (dcheck_on numeric : bool) (fds : descriptors) (a : answers) (on_new : Z) :
  answers_ok a fds -> attempt_of a = AtOnce -> on_new <> 0 ->
  exists c h, client_run dcheck_on (client_new fds) [EConnect numeric; ETask a on_new] = Ret c /\
    connect_state_ (conn_ c) = kConnectStateConnected /\ handlers c = [h] /\ socket_ h = kInvalidSocket /\
    io_handler_ c = Some 0%nat /\ Client.fds c = fds /\
    (forall numeric', Connect numeric' c = (false, c)) /\ DisConnect c = (false, c) /\
    forall evs, client_run dcheck_on c evs = Ret c.
Proof.
  intros Ha Hat Hn. assert (allowed_all (SpecState (Idle 0) 0 fds) [EConnect numeric; ETask a on_new]) as Hall by (split; [done|split; [intros _; done|done]]).
  destruct (attempt_result dcheck_on a fds Ha) as [_ Hfresh]. rewrite Hat in Hfresh. destruct Hfresh as [Hs Hfr]; [done|].
  destruct (run_implements dcheck_on _ _ _ (implements_new fds) Hall) as (c & E & [Hf Hm Hc Hp]).
  cbn [fold_left] in Hf, Hm, Hc, Hp. unfold spec_step in Hf, Hm, Hc, Hp. cbn [ph made open] in Hf, Hm, Hc, Hp.
  unfold spec_attempt, spec_made in Hf, Hm, Hc, Hp. rewrite Hat, (proj2 (Z.eqb_neq _ _) Hn) in Hf, Hm, Hc, Hp.
  cbn in Hf, Hm, Hc, Hp. injection Hp as Hst Hih Ht Htm Hw.
  destruct (handlers c) as [|h [|h2 l]] eqn:Eh; try done. exists c, h.
  assert (handler_open c 0 = false) as Ho0 by (unfold handler_open; rewrite Eh; cbn; by rewrite (Hc 0%nat h)).
  assert (forall i, handler_open c i = false) as Hopen.
  { intros [|i]; [done|]. unfold handler_open. by rewrite Eh. }
  assert (forall numeric', Connect numeric' c = (false, c)) as Hconn by (intros; unfold Connect; by rewrite Hst).
  assert (DisConnect c = (false, c)) as Hdis by (unfold DisConnect; by rewrite Hst).
  split_and!; try done.
  - by apply (Hc 0%nat).
  - rewrite Hf. apply set_eq. intros x. rewrite elem_of_difference, elem_of_singleton. split; [tauto|]. intros Hx. split; [done|]. by intros ->.
  - induction evs as [|ev evs IH]; [done|]. cbn [client_run].
    assert (client_step dcheck_on c ev = Ret c) as ->; [|exact IH].
    destruct ev; cbn [client_step]; rewrite ?Hconn, ?Hdis, ?Ht, ?Htm, ?Hw, ?Hopen; done.
Qed.

Lemma refusal_is_final_witness :
  exists c h, client_run true (client_new {[3]}) [EConnect true; ETask (answer 7 0 0) 1] = Ret c /\
    connect_state_ (conn_ c) = kConnectStateConnected /\ handlers c = [h] /\ socket_ h = kInvalidSocket /\
    io_handler_ c = Some 0%nat /\ Client.fds c = {[3]} /\
    (forall numeric', Connect numeric' c = (false, c)) /\ DisConnect c = (false, c) /\
    forall evs, client_run true c evs = Ret c.
Proof.
  apply (refusal_is_final true true {[3]} (answer 7 0 0) 1); [|done|done].
  apply answer_ok. right. split; [lia|set_solver].
Defined.

(** Two calls of [Connect] before the first attempt has run are both accepted, and
    the connection of the first is forgotten by the client. *)
Example connect_twice :
  match client_run true (client_new ∅) [EConnect true; EConnect true; ETask (answer 7 0 0) 0; ETask (answer 8 0 0) 0] with
  | Ret c => map socket_ (handlers c) = [7; 8] /\ io_handler_ c = Some 1%nat
  | Fault _ => False
  end.
Proof. vm_compute. done. Qed.

(** A disconnect while an attempt is posted is run after it.  The attempt is in progress by
    then: its descriptor stays open and its watcher armed, and the next attempt that is in
    progress hits [NOTREACHED] in [WatchFileDescriptor], or, in a release build, is not
    watched, so that the client stays connecting. *)
Definition disconnected_early : list event :=
  [EConnect true; EDisConnect; ETask (answer 7 (-1) EINPROGRESS) 0; ETask (answer 0 0 0) 0; EConnect true; ETask (answer 8 (-1) EINPROGRESS) 0].
Example disconnect_while_attempt_posted :
  client_run true (client_new ∅) disconnected_early = Fault AssertFail /\
  match client_run false (client_new ∅) disconnected_early with
  | Ret c => connect_state_ (conn_ c) = kConnectStateConnecting /\ watcher_ (conn_ c) = None /\ tasks c = [] /\ timers c = [] /\
      bool_decide (fds c = {[7; 8]})
  | Fault _ => False
  end.
Proof. vm_compute. done. Qed.

(** If the attempt connects at once, the disconnect behind it closes the descriptor of the
    connection, which its handler still holds and closes again when the connection ends. *)
Example disconnect_closes_twice :
  match client_run true (client_new ∅) [EConnect true; EDisConnect; ETask (answer 7 0 0) 0; ETask (answer 0 0 0) 0] with
  | Ret c => fds c = ∅ /\ map socket_ (handlers c) = [7] /\ io_handler_ c = Some 0%nat /\ connect_state_ (conn_ c) = kConnectStateInvalid
  | Fault _ => False
  end.
Proof. vm_compute. done. Qed.
