(* ===== verification/Server.v ===== *)
(** The TCP server, [zutils/net/engine/tcp_acceptor.cc], [reactor_thread_pool.cc]
    and [tcp_server.cc]: the listening socket, the threads that serve connections
    and how accepted connections are dealt out to them. *)
From Stdlib Require Import ZArith Lia Bool.
From stdpp Require Import base list numbers gmap.
From S2P Require Import Prelude IOBuffer IOHandler SocketOps.

Open Scope Z_scope.

(** A message loop: the server's own, or that of the reactor thread with this number. *)
Inductive loop := Own | Reactor (reactor_id : Z).

#[export] Instance loop_eq_dec : EqDecision loop.
Proof. solve_decision. Defined.

(** * [ReactorThreadPool]: its reactors are kept as their numbers. *)
Record reactor_pool := ReactorPool { reactor_pool_ : list Z; next_reactor_ : Z }.

Definition pool_new (reactor_pool_size : Z) : reactor_pool :=
  let reactor_pool_size := if reactor_pool_size <? 0 then 0 else reactor_pool_size in
  ReactorPool (map Z.of_nat (seq 0 (Z.to_nat reactor_pool_size))) 0.

Definition IsEmpty (p : reactor_pool) : bool := bool_decide (reactor_pool_ p = []).

Definition Shutdown (p : reactor_pool) : reactor_pool := ReactorPool [] (next_reactor_ p).

(** [Start]: [starts i] says whether the [i]th thread starts. *)
Definition Start (starts : Z -> bool) (p : reactor_pool) : bool * reactor_pool :=
  if forallb starts (reactor_pool_ p) then (true, p) else (false, Shutdown p).

(** [GetNextMessageLoop]: the null pointer is [None]. *)
Definition GetNextMessageLoop (p : reactor_pool) : outcome (option loop * reactor_pool) :=
  if IsEmpty p then Ret (None, p)
  else
    let next := if next_reactor_ p =? zlen (reactor_pool_ p) then 0 else next_reactor_ p in
    match reactor_pool_ p !! Z.to_nat next with
    | Some id => Ret (Some (Reactor id), ReactorPool (reactor_pool_ p) (u64 (next + 1)))
    | None => Fault OutOfBounds
    end.

(** * [TCPAcceptor] *)
Record acceptor := Acceptor {
  acceptor_ : Z;
  wait_state_ : wait_state;
  watched : bool
}.

(** * [TCPServer]: [created] lists the connections it made, each with the loop it
    was given and its handler. *)
Record server := Server {
  acc_ : acceptor;
  pool_ : reactor_pool;
  created : list (loop * io_handler);
  fds : descriptors
}.

(** The constructors; the acceptor's leaves [wait_state_] as the memory was. *)
Definition server_new (reactor_pool_size : Z) (memory : wait_state) (open : descriptors) : server :=
  Server (Acceptor kInvalidSocket memory false) (pool_new reactor_pool_size) [] open.

Definition set_acc (a : acceptor) (s : server) : server := Server a (pool_ s) (created s) (fds s).

(** [TCPAcceptor::WatchSocket] and [TCPAcceptor::OnCreated] *)
Definition WatchSocket (state : wait_state) (a : acceptor) : acceptor := Acceptor (acceptor_ a) state true.
Definition UnwatchSocket (a : acceptor) : acceptor := Acceptor (acceptor_ a) (wait_state_ a) false.
Definition OnCreated (a : acceptor) : acceptor := WatchSocket WAITING_ACCEPT a.

(** [TCPAcceptor::Create], [TCPAcceptor::Close] *)
Definition AcceptorCreate (a : answers) (s : server) : outcome (bool * server) :=
  '(ret, sock, open) ← CreateTCPListeningSocket a (fds s);
  let acc := Acceptor sock (wait_state_ (acc_ s)) (watched (acc_ s)) in
  if negb (ret =? 0) then Ret (false, Server acc (pool_ s) (created s) open)
  else Ret (true, Server (OnCreated acc) (pool_ s) (created s) open).
Definition AcceptorClose (a : acceptor) : acceptor :=
  if bool_decide (wait_state_ a = WAITING_CLOSE) then a else Acceptor (acceptor_ a) WAITING_CLOSE (watched a).

(** [TCPServer::Create] *)
Definition Create (a : answers) (starts : Z -> bool) (s : server) : outcome (bool * server) :=
  '(ret, s) ← AcceptorCreate a s;
  if ret && negb (IsEmpty (pool_ s)) then
    let '(ret, p) := Start starts (pool_ s) in
    Ret (ret, Server (acc_ s) p (created s) (fds s))
  else Ret (ret, s).

(** [TCPServer::OnCreateConnection]: the handler is made here; its [Create] runs
    on the loop it was given. *)
Definition OnCreateConnection (conn : Z) (s : server) : outcome (bool * server) :=
  '(message_loop, p) ← (if negb (IsEmpty (pool_ s)) then GetNextMessageLoop (pool_ s) else Ret (Some Own, pool_ s));
  match message_loop with
  | None => Fault OutOfBounds
  | Some l => Ret (true, Server (acc_ s) p (created s ++ [(l, handler_new conn)]) (fds s))
  end.

Section Accepting.
Context (dcheck_on : bool).

(** [TCPAcceptor::Accept] and [TCPAcceptor::OnFileCanReadWithoutBlocking] *)
Definition AcceptorAccept (a : answers) (s : server) : outcome server :=
  '(ret, conn, open) ← Accept dcheck_on a (fds s);
  let s := Server (acc_ s) (pool_ s) (created s) open in
  if negb (ret =? -1) then '(_, s) ← OnCreateConnection conn s; Ret s else Ret s.
Definition OnFileCanReadWithoutBlocking (a : answers) (s : server) : outcome server :=
  if bool_decide (wait_state_ (acc_ s) = WAITING_ACCEPT) then AcceptorAccept a s else Ret s.

(** The event loop: the listening socket is readable, again and again. *)
Fixpoint serve (l : list answers) (s : server) : outcome server :=
  match l with
  | [] => Ret s
  | a :: l => s ← (if watched (acc_ s) then OnFileCanReadWithoutBlocking a s else Ret s); serve l s
  end.
End Accepting.

(** * How connections are dealt out *)

(** The loop of the [i]th connection of a server with [n] reactors. *)
Definition loop_of (n i : nat) : loop := match n with O => Own | _ => Reactor (Z.of_nat (i mod n)) end.

(** The kernel's answers along a run: fresh descriptors or none. *)
Fixpoint answers_all_ok (l : list answers) (open : descriptors) : Prop :=
  match l with
  | [] => True
  | a :: l => answers_ok a open /\ answers_all_ok l (if socket_rc a =? -1 then open else {[socket_rc a]} ∪ open)
  end.
Definition accepted (l : list answers) : list Z := List.filter (fun s => negb (s =? -1)) (map socket_rc l).

Definition pool_at (n i : nat) : reactor_pool :=
  ReactorPool (map Z.of_nat (seq 0 n)) (match n, i with O, _ | _, O => 0 | S _, S i => Z.of_nat (i mod n) + 1 end).

Lemma pool_at_next n i : (n <> 0)%nat -> Z.of_nat n < 2 ^ 63 ->
  GetNextMessageLoop (pool_at n i) = Ret (Some (loop_of n i), pool_at n (S i)).
Proof.
  intros Hn Hb. unfold GetNextMessageLoop, IsEmpty, pool_at. cbn [reactor_pool_ next_reactor_].
  rewrite bool_decide_eq_false_2 by (intros E; apply (f_equal length) in E; rewrite length_map, length_seq in E; by destruct n).
  unfold zlen. rewrite length_map, length_seq. destruct n as [|n]; [done|].
  assert (forall i, (i mod S n < S n)%nat) as Hmod by (intros; by apply Nat.mod_upper_bound).
  assert ((if (match i with O => 0 | S i => Z.of_nat (i mod S n) + 1 end) =? Z.of_nat (S n) then 0
           else match i with O => 0 | S i => Z.of_nat (i mod S n) + 1 end) = Z.of_nat (i mod S n)) as ->.
  { destruct i as [|i]; [by rewrite Nat.Div0.mod_0_l|]. specialize (Hmod i).
    assert ((S i mod S n)%nat = (if (S (i mod S n) =? S n)%nat then 0%nat else S (i mod S n)%nat)) as Es.
    { replace (S i) with (i + 1)%nat at 1 by lia. rewrite <- Nat.Div0.add_mod_idemp_l. destruct (Nat.eqb_spec (S (i mod S n)) (S n)) as [E|E].
      - rewrite Nat.add_1_r, E. apply Nat.Div0.mod_same.
      - rewrite Nat.add_1_r. apply Nat.mod_small. lia. }
    rewrite Es. destruct (Nat.eqb_spec (S (i mod S n)) (S n)), (Z.eqb_spec (Z.of_nat (i mod S n) + 1) (Z.of_nat (S n))); lia. }
  rewrite Nat2Z.id. specialize (Hmod i).
  assert (map Z.of_nat (seq 0 (S n)) !! (i mod S n)%nat = Some (Z.of_nat (i mod S n))) as ->.
  { change (map Z.of_nat (seq 0 (S n))) with (Z.of_nat <$> seq 0 (S n)). by rewrite list_lookup_fmap, lookup_seq_lt. }
  unfold loop_of. rewrite uwrap_small by lia. done.
Qed.

(** A server that has dealt out [i] connections. *)
Definition server_at (n : nat) (acc : acceptor) (i : nat) (s : server) : Prop :=
  acc_ s = acc /\ wait_state_ acc = WAITING_ACCEPT /\ watched acc = true /\ pool_ s = pool_at n i /\
  length (created s) = i.

Lemma serve_round_robin dcheck_on n acc l : forall i s,
  Z.of_nat n < 2 ^ 63 -> server_at n acc i s -> answers_all_ok l (fds s) ->
  exists s', serve dcheck_on l s = Ret s' /\ server_at n acc (i + length (accepted l)) s' /\
    created s' = created s ++ imap (fun k conn => (loop_of n (i + k), handler_new conn)) (accepted l) /\
    fds s' = list_to_set (accepted l) ∪ fds s.
Proof.
  induction l as [|a l IH]; intros i s Hn Hs Ha; cbn [serve].
  - exists s. rewrite Nat.add_0_r, app_nil_r. split_and!; try done. cbn. by rewrite (left_id_L ∅ (∪)).
  - destruct Ha as [Ha Hall]. destruct Hs as (Hacc & Hw & Hwd & Hp & Hc). rewrite Hacc, Hwd.
    unfold OnFileCanReadWithoutBlocking, AcceptorAccept. rewrite Hacc, bool_decide_eq_true_2 by done.
    unfold accepted. cbn [map List.filter]. fold (accepted l). unfold Accept, kInvalidSocket.
    destruct (Z.eqb_spec (socket_rc a) (-1)) as [E|E]; cbn [negb]; obind.
    + change (negb (-1 =? -1)) with false. cbn iota. obind.
      destruct (IH i (Server (acc_ s) (pool_ s) (created s) (fds s)) Hn) as (s' & E' & H'); [done|done|].
      exists s'. rewrite Hacc in E'. by split.
    + assert (0 < socket_rc a) as Hpos by (destruct (ok_socket _ _ Ha); [done|tauto]).
      rewrite (set_non_blocking_ok _ _ (fds s)), (set_disable_nagle_ok _ (fds s)) by done. obind. change (1 =? 0) with false. cbn iota. obind.
      change (negb (0 =? -1)) with true. cbn iota. unfold OnCreateConnection. cbn [pool_]. rewrite Hp.
      assert ((if negb (IsEmpty (pool_at n i)) then GetNextMessageLoop (pool_at n i) else Ret (Some Own, pool_at n i)) =
        Ret (Some (loop_of n i), pool_at n (S i))) as ->.
      { destruct n as [|n]; [by destruct i|]. by rewrite <- pool_at_next. }
      obind. cbn [acc_ created fds].
      destruct (IH (S i) (Server acc (pool_at n (S i)) (created s ++ [(loop_of n i, handler_new (socket_rc a))]) ({[socket_rc a]} ∪ fds s)) Hn)
        as (s' & E' & H' & Hcr & Hfd); [|done|].
      { split_and!; try done. cbn. rewrite length_app, Hc. cbn. lia. }
      exists s'. split; [done|]. cbn [length]. rewrite Nat.add_succ_r. split; [done|]. split.
      * rewrite Hcr. cbn [created imap]. rewrite <- app_assoc, Nat.add_0_r. cbn [app]. f_equal. f_equal.
        apply imap_ext. intros k conn _. cbn. by rewrite Nat.add_succ_r.
      * rewrite Hfd. cbn. rewrite (assoc_L (∪)). f_equal. apply (comm_L (∪)).
Qed.

(** Connections are dealt out in turn.  A server with [n] reactors that could
    listen and whose threads all started gives the [k]th connection it accepts to
    reactor [k mod n], or to its own loop when it has none, however many failed
    accepts come in between; it keeps accepting, and the descriptors it opens are
    the listening socket and the accepted ones. *)
Theorem server_round_robin (dcheck_on : bool) (reactor_pool_size : Z) (memory : wait_state) (open : descriptors)
    (a : answers) (starts : Z -> bool) (l : list answers) :
  let n := Z.to_nat reactor_pool_size in
  reactor_pool_size < 2 ^ 31 -> answers_ok a open ->
  getaddrinfo_rc a = 0 /\ socket_rc a <> -1 /\ 0 <= bind_rc a /\ 0 <= listen_rc a ->
  (forall i, starts i = true) -> answers_all_ok l ({[socket_rc a]} ∪ open) ->
  exists s s', Create a starts (server_new reactor_pool_size memory open) = Ret (true, s) /\
    serve dcheck_on l s = Ret s' /\
    created s' = imap (fun k conn => (loop_of n k, handler_new conn)) (accepted l) /\
    fds s' = list_to_set (accepted l) ∪ ({[socket_rc a]} ∪ open) /\
    acceptor_ (acc_ s') = socket_rc a /\ wait_state_ (acc_ s') = WAITING_ACCEPT /\ watched (acc_ s') = true.
Proof.
  intros n Hn Ha (Hg & Hsock & Hb & Hl) Hst Hall.
  assert (pool_new reactor_pool_size = pool_at n 0) as Hp.
  { unfold pool_new, pool_at, n. destruct (Z.ltb_spec reactor_pool_size 0).
    - by replace (Z.to_nat reactor_pool_size) with 0%nat by lia.
    - by destruct (Z.to_nat reactor_pool_size). }
  assert (Create a starts (server_new reactor_pool_size memory open) =
    Ret (true, Server (Acceptor (socket_rc a) WAITING_ACCEPT true) (pool_at n 0) [] ({[socket_rc a]} ∪ open))) as Hc.
  { unfold Create, AcceptorCreate, CreateTCPListeningSocket, server_new, kInvalidSocket. rewrite Hg, Hp. cbn [fds negb].
    change (0 =? 0) with true. cbn [negb]. rewrite (proj2 (Z.eqb_neq (socket_rc a) (-1))) by done.
    rewrite (proj2 (Z.ltb_ge (reuseaddr_rc a) 0)) by apply Ha. rewrite (proj2 (Z.ltb_ge (bind_rc a) 0)) by done.
    rewrite (set_disable_nagle_ok _ open) by done. obind. rewrite (proj2 (Z.ltb_ge (listen_rc a) 0)) by done. obind.
    change (1 =? 0) with false. cbn. change (0 =? 0) with true. cbn. unfold Start. cbn [pool_].
    assert (forallb starts (reactor_pool_ (pool_at n 0)) = true) as -> by (apply forallb_forall; auto).
    by destruct (IsEmpty _). }
  set (acc := Acceptor (socket_rc a) WAITING_ACCEPT true) in *.
  set (s := Server acc (pool_at n 0) [] ({[socket_rc a]} ∪ open)) in *.
  assert (server_at n acc 0 s) as Hs by (unfold server_at; by split_and!).
  destruct (serve_round_robin dcheck_on n acc l 0 s ltac:(lia) Hs Hall) as (s' & E & (Hacc & _) & Hcr & Hfd).
  exists s, s'. rewrite Hcr, Hfd, Hacc. by split_and!.
Qed.

(** Two reactors, four connections and a failed accept. *)
Definition connection (s : Z) : answers := Answers 0 s 0 0 0 0 0 0 [] 0 0 0 0 false 0 0.
Definition sample_accepts : list answers := map connection [5; 6; -1; 7; 8].

Lemma server_round_robin_witness :
  exists s s', Create (connection 4) (fun _ => true) (server_new 2 NOT_WAITING {[3]}) = Ret (true, s) /\
    serve true sample_accepts s = Ret s' /\
    created s' = imap (fun k conn => (loop_of 2 k, handler_new conn)) (accepted sample_accepts) /\
    fds s' = list_to_set (accepted sample_accepts) ∪ ({[4]} ∪ {[3]}) /\
    acceptor_ (acc_ s') = 4 /\ wait_state_ (acc_ s') = WAITING_ACCEPT /\ watched (acc_ s') = true.
Proof.
  apply (server_round_robin true 2 NOT_WAITING {[3]} (connection 4) (fun _ => true) sample_accepts); try done.
  - split; try done. right. cbn. split; [lia|set_solver].
  - cbn. repeat split; try done; (by left) || (right; split; [done|set_solver]).
Defined.

Example dealt_out :
  match Create (connection 4) (fun _ => true) (server_new 2 NOT_WAITING ∅) with
  | Ret (_, s) => match serve true sample_accepts s with
                  | Ret s => map (fun c => (fst c, socket_ (snd c))) (created s)
                  | Fault _ => []
                  end
  | Fault _ => []
  end = [(Reactor 0, 5); (Reactor 1, 6); (Reactor 0, 7); (Reactor 1, 8)].
Proof. vm_compute. reflexivity. Qed.
