(* ===== verification/Int128.v ===== *)
(** Unsigned 128-bit integers, [zutils/base2/int128.h]: two 64-bit halves, and
    operators that compute with them as a 128-bit machine would. *)
From Stdlib Require Import ZArith Lia Bool.
From stdpp Require Import base list numbers.
From S2P Require Import Prelude.

Open Scope Z_scope.

(** [class uint128] *)
Record uint128 := Uint128 { hi_ : Z; lo_ : Z }.

(** The constructors from [uint64], [uint32] and [int], whose [lo_(bottom)]
    extends the sign. *)
Definition of_uint64 (bottom : Z) : uint128 := Uint128 0 bottom.
Definition of_int (bottom : Z) : uint128 := Uint128 (if bottom <? 0 then u64 (0 - 1) else 0) (u64 bottom).

(** C++'s operators on [uint64]; a shift has [0 <= n < 64]. *)
Definition not64 (x : Z) : Z := u64 (Z.lnot x).
Definition shl64 (x n : Z) : Z := u64 (Z.shiftl x n).
Definition shr64 (x n : Z) : Z := Z.shiftr x n.

Definition eq128 (l r : uint128) : bool := (lo_ l =? lo_ r) && (hi_ l =? hi_ r).
(** [CMP128(op)] *)
Definition cmp128 (op : Z -> Z -> bool) (l r : uint128) : bool :=
  if hi_ l =? hi_ r then op (lo_ l) (lo_ r) else op (hi_ l) (hi_ r).

(** Unary minus, [!] and [~]. *)
Definition neg128 (v : uint128) : uint128 :=
  let hi_flip := not64 (hi_ v) in
  let lo_flip := not64 (lo_ v) in
  let lo_add := u64 (lo_flip + 1) in
  if lo_add <? lo_flip then Uint128 (u64 (hi_flip + 1)) lo_add else Uint128 hi_flip lo_add.
Definition lnot128 (v : uint128) : bool := (hi_ v =? 0) && (lo_ v =? 0).
Definition not128 (v : uint128) : uint128 := Uint128 (not64 (hi_ v)) (not64 (lo_ v)).

(** [LOGIC128(op)] and [LOGICASSIGN128(op)] *)
Definition logic128 (op : Z -> Z -> Z) (l r : uint128) : uint128 := Uint128 (op (hi_ l) (hi_ r)) (op (lo_ l) (lo_ r)).

(** [operator<<] and [operator>>] *)
Definition shl128 (v : uint128) (amount : Z) : uint128 :=
  if amount <? 64 then
    if amount =? 0 then v
    else Uint128 (Z.lor (shl64 (hi_ v) amount) (shr64 (lo_ v) (64 - amount))) (shl64 (lo_ v) amount)
  else if amount <? 128 then Uint128 (shl64 (lo_ v) (amount - 64)) 0
  else Uint128 0 0.
Definition shr128 (v : uint128) (amount : Z) : uint128 :=
  if amount <? 64 then
    if amount =? 0 then v
    else Uint128 (shr64 (hi_ v) amount) (Z.lor (shr64 (lo_ v) amount) (shl64 (hi_ v) (64 - amount)))
  else if amount <? 128 then Uint128 0 (shr64 (hi_ v) (amount - 64))
  else Uint128 0 0.

(** [operator<<=] and [operator>>=], assignment by assignment. *)
Definition shl_assign (v : uint128) (amount : Z) : uint128 :=
  if amount <? 64 then
    if negb (amount =? 0) then
      let v := Uint128 (Z.lor (shl64 (hi_ v) amount) (shr64 (lo_ v) (64 - amount))) (lo_ v) in
      Uint128 (hi_ v) (shl64 (lo_ v) amount)
    else v
  else if amount <? 128 then
    let v := Uint128 (shl64 (lo_ v) (amount - 64)) (lo_ v) in Uint128 (hi_ v) 0
  else Uint128 0 0.
Definition shr_assign (v : uint128) (amount : Z) : uint128 :=
  if amount <? 64 then
    if negb (amount =? 0) then
      let v := Uint128 (hi_ v) (Z.lor (shr64 (lo_ v) amount) (shl64 (hi_ v) (64 - amount))) in
      Uint128 (shr64 (hi_ v) amount) (lo_ v)
    else v
  else if amount <? 128 then
    let v := Uint128 0 (lo_ v) in Uint128 (hi_ v) (shr64 (hi_ v) (amount - 64))
  else Uint128 0 0.

(** [operator+=], [operator-=], [operator*=]; [+], [-] and [*] copy and call them,
    [++] and [--] add and subtract 1. *)
Definition add_assign (v b : uint128) : uint128 :=
  let hi := u64 (hi_ v + hi_ b) in
  let lolo := u64 (lo_ v + lo_ b) in
  let hi := if lolo <? lo_ v then u64 (hi + 1) else hi in
  Uint128 hi lolo.
Definition sub_assign (v b : uint128) : uint128 :=
  let hi := u64 (hi_ v - hi_ b) in
  let hi := if lo_ v <? lo_ b then u64 (hi - 1) else hi in
  Uint128 hi (u64 (lo_ v - lo_ b)).
Definition mul_assign (v b : uint128) : uint128 :=
  let a96 := shr64 (hi_ v) 32 in
  let a64 := Z.land (hi_ v) 0xffffffff in
  let a32 := shr64 (lo_ v) 32 in
  let a00 := Z.land (lo_ v) 0xffffffff in
  let b96 := shr64 (hi_ b) 32 in
  let b64 := Z.land (hi_ b) 0xffffffff in
  let b32 := shr64 (lo_ b) 32 in
  let b00 := Z.land (lo_ b) 0xffffffff in
  let c96 := u64 (a96 * b00 + a64 * b32 + a32 * b64 + a00 * b96) in
  let c64 := u64 (a64 * b00 + a32 * b32 + a00 * b64) in
  let v := Uint128 (u64 (shl64 c96 32 + c64)) 0 in
  let v := add_assign v (shl128 (of_uint64 (u64 (a32 * b00))) 32) in
  let v := add_assign v (shl128 (of_uint64 (u64 (a00 * b32))) 32) in
  add_assign v (of_uint64 (u64 (a00 * b00))).
Definition increment (v : uint128) : uint128 := add_assign v (of_int 1).
Definition decrement (v : uint128) : uint128 := sub_assign v (of_int 1).

(** * The numbers they stand for *)
Definition value (v : uint128) : Z := hi_ v * 2 ^ 64 + lo_ v.
Definition wf (v : uint128) : Prop := 0 <= hi_ v < 2 ^ 64 /\ 0 <= lo_ v < 2 ^ 64.
(** [v] stands for [x], up to multiples of [2^128]. *)
Definition means (v : uint128) (x : Z) : Prop := wf v /\ value v = x mod 2 ^ 128.

Lemma pow64 : 2 ^ 64 = 18446744073709551616.
Proof. reflexivity. Qed.
Lemma pow128 : 2 ^ 128 = 2 ^ 64 * 2 ^ 64.
Proof. reflexivity. Qed.

Lemma u64_range x : 0 <= u64 x < 2 ^ 64.
Proof. by apply uwrap_range. Qed.
Lemma u64_split x : x = 2 ^ 64 * (x / 2 ^ 64) + u64 x.
Proof. unfold uwrap. by apply Z.div_mod. Qed.

Lemma means_intro v x k : wf v -> value v + k * 2 ^ 128 = x -> means v x.
Proof.
  intros Hw <-. split; [exact Hw|]. rewrite Z.mod_add by lia. symmetry. apply Z.mod_small.
  destruct Hw. unfold value. rewrite pow128 in *. lia.
Qed.
Lemma means_value v : wf v -> means v (value v).
Proof. intros Hw. apply (means_intro v _ 0); [done|lia]. Qed.
Lemma means_mod v x y : means v x -> x mod 2 ^ 128 = y mod 2 ^ 128 -> means v y.
Proof. intros [Hw Hv] E. split; [done|]. by rewrite Hv. Qed.
Lemma means_witness v x : means v x -> exists k, x = value v + k * 2 ^ 128.
Proof. intros [_ Hv]. exists (x / 2 ^ 128). rewrite Hv. rewrite (Z.div_mod x (2 ^ 128)) at 1 by lia. lia. Qed.

Lemma of_uint64_means x : 0 <= x < 2 ^ 64 -> means (of_uint64 x) x.
Proof. intros Hx. apply (means_intro _ _ 0); [split; cbn; lia|unfold value; cbn; lia]. Qed.
Lemma of_int_means x : - 2 ^ 31 <= x < 2 ^ 31 -> means (of_int x) x.
Proof.
  intros Hx. unfold of_int. destruct (Z.ltb_spec x 0).
  - apply (means_intro _ _ (-1)); [split; cbn [hi_ lo_]; apply u64_range|]. unfold value. cbn [hi_ lo_].
    pose proof (u64_split x). assert (x / 2 ^ 64 = -1) as E by (symmetry; apply (Z.div_unique x (2 ^ 64) (-1) (x + 2 ^ 64)); lia).
    change (u64 (0 - 1)) with (2 ^ 64 - 1). rewrite pow128. lia.
  - apply (means_intro _ _ 0); [split; cbn [hi_ lo_]; [lia|apply u64_range]|]. unfold value. cbn [hi_ lo_].
    rewrite uwrap_small by lia. lia.
Qed.

Lemma add_means v b x y : means v x -> means b y -> means (add_assign v b) (x + y).
Proof.
  intros Hv Hb. destruct (means_witness v x Hv) as (k & ->), (means_witness b y Hb) as (l & ->). destruct Hv as [Hv _], Hb as [Hb _].
  unfold add_assign. destruct Hv, Hb.
  pose proof (u64_split (lo_ v + lo_ b)) as El. pose proof (u64_split (hi_ v + hi_ b)) as Eh.
  pose proof (u64_range (lo_ v + lo_ b)). pose proof (u64_range (hi_ v + hi_ b)).
  assert ((lo_ v + lo_ b) / 2 ^ 64 = if u64 (lo_ v + lo_ b) <? lo_ v then 1 else 0) as Ec.
  { destruct (Z.ltb_spec (u64 (lo_ v + lo_ b)) (lo_ v)); nia. }
  destruct (Z.ltb_spec (u64 (lo_ v + lo_ b)) (lo_ v)).
  - pose proof (u64_split (u64 (hi_ v + hi_ b) + 1)) as Eh2.
    apply (means_intro _ _ (k + l + (hi_ v + hi_ b) / 2 ^ 64 + (u64 (hi_ v + hi_ b) + 1) / 2 ^ 64)); [split; cbn [hi_ lo_]; apply u64_range|].
    unfold value. cbn [hi_ lo_]. rewrite pow128. nia.
  - apply (means_intro _ _ (k + l + (hi_ v + hi_ b) / 2 ^ 64)); [split; cbn [hi_ lo_]; apply u64_range|].
    unfold value. cbn [hi_ lo_]. rewrite pow128. nia.
Qed.
Lemma sub_means v b x y : means v x -> means b y -> means (sub_assign v b) (x - y).
Proof.
  intros Hv Hb. destruct (means_witness v x Hv) as (k & ->), (means_witness b y Hb) as (l & ->). destruct Hv as [Hv _], Hb as [Hb _].
  unfold sub_assign. destruct Hv, Hb.
  pose proof (u64_split (lo_ v - lo_ b)) as El. pose proof (u64_split (hi_ v - hi_ b)) as Eh.
  pose proof (u64_range (lo_ v - lo_ b)). pose proof (u64_range (hi_ v - hi_ b)).
  assert ((lo_ v - lo_ b) / 2 ^ 64 = if lo_ v <? lo_ b then -1 else 0) as Ec.
  { destruct (Z.ltb_spec (lo_ v) (lo_ b)); nia. }
  destruct (Z.ltb_spec (lo_ v) (lo_ b)).
  - pose proof (u64_split (u64 (hi_ v - hi_ b) - 1)) as Eh2.
    apply (means_intro _ _ (k - l + (hi_ v - hi_ b) / 2 ^ 64 + (u64 (hi_ v - hi_ b) - 1) / 2 ^ 64)); [split; cbn [hi_ lo_]; apply u64_range|].
    unfold value. cbn [hi_ lo_]. rewrite pow128. nia.
  - apply (means_intro _ _ (k - l + (hi_ v - hi_ b) / 2 ^ 64)); [split; cbn [hi_ lo_]; apply u64_range|].
    unfold value. cbn [hi_ lo_]. rewrite pow128. nia.
Qed.

(** ** Shifts *)
Lemma means_shift v x y k : means v x -> x = y + k * 2 ^ 128 -> means v y.
Proof. intros Hv ->. apply (means_mod v _ y Hv). by rewrite Z.mod_add. Qed.

Lemma pow_split n : 0 <= n <= 64 -> 2 ^ 64 = 2 ^ (64 - n) * 2 ^ n /\ 0 < 2 ^ n /\ 0 < 2 ^ (64 - n).
Proof. intros Hn. split; [rewrite <- Z.pow_add_r by lia; f_equal; lia|]. split; apply Z.pow_pos_nonneg; lia. Qed.
Lemma shl64_spec x n : 0 <= n <= 64 -> shl64 x n = x mod 2 ^ (64 - n) * 2 ^ n.
Proof.
  intros Hn. destruct (pow_split n Hn) as (E & ? & ?). unfold shl64, uwrap. rewrite Z.shiftl_mul_pow2 by lia.
  rewrite E. apply Zmult_mod_distr_r.
Qed.
Lemma lor_add a b n : 0 <= n -> 0 <= b < 2 ^ n -> Z.lor (a * 2 ^ n) b = a * 2 ^ n + b.
Proof. intros Hn Hb. rewrite <- lor_shiftl_add by done. by rewrite Z.shiftl_mul_pow2. Qed.

Lemma shr64_spec x n : 0 <= n -> shr64 x n = x / 2 ^ n.
Proof. intros. by apply Z.shiftr_div_pow2. Qed.
Lemma div_range x p q : 0 < p -> 0 < q -> 0 <= x < p * q -> 0 <= x / p < q.
Proof. intros. split; [apply Z.div_pos; lia|apply Z.div_lt_upper_bound; lia]. Qed.

Lemma shl_means v n : wf v -> 0 <= n -> means (shl128 v n) (value v * 2 ^ n).
Proof.
  intros Hw Hn. unfold shl128. destruct Hw as [Hh Hl]. destruct (Z.ltb_spec n 64) as [H64|H64]; [destruct (Z.eqb_spec n 0) as [->|Hn0]|destruct (Z.ltb_spec n 128)].
  - rewrite Z.mul_1_r. by apply means_value.
  - destruct (pow_split n ltac:(lia)) as (E & Hq & Hp). rewrite !shl64_spec, shr64_spec by lia.
    set (P := 2 ^ (64 - n)) in *. set (Q := 2 ^ n) in *.
    pose proof (Z.div_mod (hi_ v) P ltac:(lia)) as Eh. pose proof (Z.mod_pos_bound (hi_ v) P ltac:(lia)).
    pose proof (Z.div_mod (lo_ v) P ltac:(lia)) as El. pose proof (Z.mod_pos_bound (lo_ v) P ltac:(lia)).
    assert (0 <= lo_ v / P < Q) by (apply div_range; lia).
    unfold Q at 1. rewrite lor_add by (fold Q; lia). fold Q.
    apply (means_intro _ _ (hi_ v / P)).
    + split; cbn [hi_ lo_]; rewrite E; nia.
    + unfold value. cbn [hi_ lo_]. rewrite pow128, E. nia.
  - destruct (pow_split (n - 64) ltac:(lia)) as (E & Hq & Hp). rewrite shl64_spec by lia.
    assert (2 ^ n = 2 ^ 64 * 2 ^ (n - 64)) as -> by (rewrite <- Z.pow_add_r by lia; f_equal; lia).
    set (P := 2 ^ (64 - (n - 64))) in *. set (Q := 2 ^ (n - 64)) in *.
    pose proof (Z.div_mod (lo_ v) P ltac:(lia)) as El. pose proof (Z.mod_pos_bound (lo_ v) P ltac:(lia)).
    apply (means_intro _ _ (hi_ v * Q + lo_ v / P)).
    + split; cbn [hi_ lo_]; [rewrite E; nia|lia].
    + unfold value. cbn [hi_ lo_]. rewrite pow128.
      transitivity ((hi_ v * 2 ^ 64 + (P * (lo_ v / P) + lo_ v mod P)) * (2 ^ 64 * Q)); [rewrite E; ring|by rewrite <- El].
  - assert (2 ^ n = 2 ^ (n - 128) * 2 ^ 128) as -> by (rewrite <- Z.pow_add_r by lia; f_equal; lia).
    apply (means_intro _ _ (value v * 2 ^ (n - 128))); [by split|]. unfold value at 1. cbn [hi_ lo_]. ring.
Qed.

Lemma shr_means v n : wf v -> 0 <= n -> means (shr128 v n) (value v / 2 ^ n).
Proof.
  intros Hw Hn. pose proof Hw as [Hh Hl]. unfold shr128. destruct (Z.ltb_spec n 64) as [H64|H64]; [destruct (Z.eqb_spec n 0) as [->|Hn0]|destruct (Z.ltb_spec n 128)].
  - rewrite Z.div_1_r. by apply means_value.
  - destruct (pow_split n ltac:(lia)) as (E & Hq & Hp). rewrite !shr64_spec, shl64_spec by lia.
    replace (64 - (64 - n)) with n by lia. rewrite Z.lor_comm.
    set (P := 2 ^ (64 - n)) in *. set (Q := 2 ^ n) in *.
    pose proof (Z.div_mod (hi_ v) Q ltac:(lia)) as Eh. pose proof (Z.mod_pos_bound (hi_ v) Q ltac:(lia)).
    assert (0 <= lo_ v / Q < P) by (apply div_range; lia). assert (0 <= hi_ v / Q < P) by (apply div_range; lia).
    unfold P at 1. rewrite lor_add by (fold P; lia). fold P.
    apply (means_intro _ _ 0).
    + split; cbn [hi_ lo_]; rewrite E; nia.
    + unfold value. cbn [hi_ lo_]. rewrite E. replace (hi_ v * (P * Q) + lo_ v) with (hi_ v * P * Q + lo_ v) by ring.
      rewrite Z.div_add_l by lia. nia.
  - rewrite shr64_spec by lia.
    assert (2 ^ n = 2 ^ 64 * 2 ^ (n - 64)) as -> by (rewrite <- Z.pow_add_r by lia; f_equal; lia).
    assert (0 < 2 ^ (n - 64)) by (apply Z.pow_pos_nonneg; lia).
    rewrite <- Z.div_div by lia. unfold value at 1. rewrite Z.div_add_l, (Z.div_small (lo_ v)) by lia. rewrite Z.add_0_r.
    apply (means_intro _ _ 0); [|unfold value; cbn [hi_ lo_]; lia]. split; cbn [hi_ lo_]; [lia|].
    apply div_range; [lia..|]. nia.
  - assert (2 ^ 128 <= 2 ^ n) by (apply Z.pow_le_mono_r; lia).
    rewrite Z.div_small by (unfold value; rewrite pow128 in *; lia). by apply (means_intro _ _ 0).
Qed.

(** ** Multiplication *)
Lemma mul_means v b : wf v -> wf b -> means (mul_assign v b) (value v * value b).
Proof.
  intros Hv Hb. unfold mul_assign. rewrite !shr64_spec by lia.
  assert (forall x, Z.land x 0xffffffff = x mod 2 ^ 32) as Hland by (intros; by apply (Z.land_ones x 32)). rewrite !Hland. clear Hland.
  assert (forall x, 0 <= x < 2 ^ 64 -> x = 2 ^ 32 * (x / 2 ^ 32) + x mod 2 ^ 32 /\ 0 <= x / 2 ^ 32 < 2 ^ 32 /\ 0 <= x mod 2 ^ 32 < 2 ^ 32) as Hsplit.
  { intros x Hx. split; [by apply Z.div_mod|]. split; [by apply div_range|by apply Z.mod_pos_bound]. }
  destruct Hv as [Hvh Hvl], Hb as [Hbh Hbl].
  destruct (Hsplit _ Hvh) as (E1 & R1 & R2), (Hsplit _ Hvl) as (E2 & R3 & R4), (Hsplit _ Hbh) as (E3 & R5 & R6), (Hsplit _ Hbl) as (E4 & R7 & R8).
  clear Hsplit. unfold value.
  revert E1 R1 R2 E2 R3 R4 E3 R5 R6 E4 R7 R8. generalize (hi_ v / 2 ^ 32) (hi_ v mod 2 ^ 32) (lo_ v / 2 ^ 32) (lo_ v mod 2 ^ 32)
    (hi_ b / 2 ^ 32) (hi_ b mod 2 ^ 32) (lo_ b / 2 ^ 32) (lo_ b mod 2 ^ 32).
  intros a96 a64 a32 a00 b96 b64 b32 b00 E1 R1 R2 E2 R3 R4 E3 R5 R6 E4 R7 R8.
  assert (0 <= a32 * b00 < 2 ^ 64 /\ 0 <= a00 * b32 < 2 ^ 64 /\ 0 <= a00 * b00 < 2 ^ 64) as (P1 & P2 & P3) by nia.
  rewrite !(uwrap_small 64 (a32 * b00)), (uwrap_small 64 (a00 * b32)), (uwrap_small 64 (a00 * b00)) by done.
  set (x96 := a96 * b00 + a64 * b32 + a32 * b64 + a00 * b96). set (x64 := a64 * b00 + a32 * b32 + a00 * b64).
  assert (means (Uint128 (u64 (shl64 (u64 x96) 32 + u64 x64)) 0) (x96 * 2 ^ 96 + x64 * 2 ^ 64)) as H0.
  { unfold shl64. rewrite Z.shiftl_mul_pow2 by lia.
    pose proof (u64_split x96). pose proof (u64_split x64). pose proof (u64_split (u64 x96 * 2 ^ 32)).
    pose proof (u64_split (u64 (u64 x96 * 2 ^ 32) + u64 x64)).
    apply (means_intro _ _ ((x96 / 2 ^ 64) * 2 ^ 32 + x64 / 2 ^ 64 + u64 x96 * 2 ^ 32 / 2 ^ 64 + (u64 (u64 x96 * 2 ^ 32) + u64 x64) / 2 ^ 64)).
    - split; cbn [hi_ lo_]; [apply u64_range|lia].
    - unfold value. cbn [hi_ lo_]. rewrite pow128. change (2 ^ 96) with (2 ^ 32 * 2 ^ 64). lia. }
  assert (forall m, 0 <= m < 2 ^ 64 -> means (shl128 (of_uint64 m) 32) (m * 2 ^ 32)) as Hshl.
  { intros m Hm. pose proof (shl_means (of_uint64 m) 32 ltac:(split; cbn; lia) ltac:(lia)) as H. unfold value in H. cbn [hi_ lo_ of_uint64] in H. 
    by rewrite Z.mul_0_l, Z.add_0_l in H. }
  pose proof (add_means _ _ _ _ (add_means _ _ _ _ (add_means _ _ _ _ H0 (Hshl _ P1)) (Hshl _ P2)) (of_uint64_means _ P3)) as H.
  apply (means_shift _ _ _ (- (a96 * (b96 * 2 ^ 64 + b64 * 2 ^ 32 + b32) + a64 * (b96 * 2 ^ 32 + b64) + a32 * b96)) H).
  unfold x96, x64. rewrite E1, E2, E3, E4. change (2 ^ 96) with (2 ^ 32 * 2 ^ 64). rewrite pow128. change (2 ^ 64) with (2 ^ 32 * 2 ^ 32). ring.
Qed.

(** ** Minus, complement, logic and comparison *)
Lemma not64_spec x : 0 <= x < 2 ^ 64 -> not64 x = 2 ^ 64 - 1 - x.
Proof.
  intros Hx. unfold not64, uwrap, Z.lnot. symmetry. apply (Z.mod_unique _ _ (-1)); lia.
Qed.
Lemma neg_means v : wf v -> means (neg128 v) (- value v).
Proof.
  intros [Hh Hl]. unfold neg128. rewrite !not64_spec by done.
  pose proof (u64_split (2 ^ 64 - 1 - lo_ v + 1)). pose proof (u64_range (2 ^ 64 - 1 - lo_ v + 1)).
  pose proof (u64_split (2 ^ 64 - 1 - hi_ v + 1)). pose proof (u64_range (2 ^ 64 - 1 - hi_ v + 1)).
  unfold value. destruct (Z.ltb_spec (u64 (2 ^ 64 - 1 - lo_ v + 1)) (2 ^ 64 - 1 - lo_ v)).
  - assert (lo_ v = 0) by nia.
    apply (means_intro _ _ ((2 ^ 64 - 1 - hi_ v + 1) / 2 ^ 64 - 1)); [split; cbn [hi_ lo_]; apply u64_range|].
    unfold value. cbn [hi_ lo_]. rewrite pow128. nia.
  - apply (means_intro _ _ (-1)); [split; cbn [hi_ lo_]; lia|]. unfold value. cbn [hi_ lo_]. rewrite pow128. nia.
Qed.
Lemma not_means v : wf v -> means (not128 v) (- value v - 1).
Proof.
  intros [Hh Hl]. unfold not128. rewrite !not64_spec by done.
  apply (means_intro _ _ (-1)); [split; cbn [hi_ lo_]; lia|]. unfold value. cbn [hi_ lo_]. rewrite pow128. lia.
Qed.

Lemma value_testbit v i : wf v -> 0 <= i -> Z.testbit (value v) i = if i <? 64 then Z.testbit (lo_ v) i else Z.testbit (hi_ v) (i - 64).
Proof.
  intros [Hh Hl] Hi. unfold value. rewrite <- lor_shiftl_add, Z.lor_spec by lia. destruct (Z.ltb_spec i 64).
  - by rewrite Z.shiftl_spec_low by lia.
  - rewrite Z.shiftl_spec by lia. assert (Z.testbit (lo_ v) i = false) as ->; [|by rewrite orb_false_r].
    rewrite <- (Z.mod_small (lo_ v) (2 ^ 64)) by lia. by apply Z.mod_pow2_bits_high.
Qed.

Section Logic.
Context (op : Z -> Z -> Z) (f : bool -> bool -> bool).
Hypothesis op_spec : forall a b i, Z.testbit (op a b) i = f (Z.testbit a i) (Z.testbit b i).
Hypothesis op_nonneg : forall a b, 0 <= a -> 0 <= b -> 0 <= op a b.
Hypothesis f_false : f false false = false.

Lemma op_range a b : 0 <= a < 2 ^ 64 -> 0 <= b < 2 ^ 64 -> 0 <= op a b < 2 ^ 64.
Proof using op_spec op_nonneg f_false.
  intros Ha Hb. apply bits_range; [apply op_nonneg; lia|]. intros i Hi. by rewrite op_spec, !high_bits.
Qed.
Lemma logic_means l r : wf l -> wf r -> means (logic128 op l r) (op (value l) (value r)).
Proof using op_spec op_nonneg f_false.
  intros Hl Hr. assert (wf (logic128 op l r)) as Hw by (destruct Hl, Hr; split; cbn; by apply op_range).
  assert (value (logic128 op l r) = op (value l) (value r)) as <-; [|by apply means_value].
  apply Z.bits_inj'. intros i Hi. rewrite op_spec, !value_testbit by done. cbn [logic128 hi_ lo_].
  destruct (i <? 64); by rewrite op_spec.
Qed.
End Logic.

Lemma shl_assign_same v n : shl_assign v n = shl128 v n.
Proof. unfold shl_assign, shl128. destruct (n <? 64), (n =? 0), (n <? 128); cbn; try done; by destruct v. Qed.
Lemma shr_assign_same v n : shr_assign v n = if (64 <=? n) && (n <? 128) then Uint128 0 0 else shr128 v n.
Proof.
  unfold shr_assign, shr128. destruct (Z.ltb_spec n 64).
  - rewrite (proj2 (Z.leb_gt 64 n)) by lia. destruct (n =? 0); cbn; by destruct v.
  - rewrite (proj2 (Z.leb_le 64 n)) by lia. destruct (n <? 128); [|done]. cbn. unfold shr64. by rewrite Z.shiftr_0_l.
Qed.

Lemma cmp_means l r op : wf l -> wf r ->
  (forall a b c d, 0 <= b < 2 ^ 64 -> 0 <= d < 2 ^ 64 -> op (a * 2 ^ 64 + b) (c * 2 ^ 64 + d) = if a =? c then op b d else op a c) ->
  cmp128 op l r = op (value l) (value r).
Proof. intros [_ Hl] [_ Hr] Hop. unfold cmp128, value. by rewrite Hop. Qed.

(** 128-bit arithmetic.  Every operator on two halves is the operation on the
    128-bit number they stand for: sums, differences, products, minus and
    complement modulo [2^128], the logical operators bit by bit, comparisons of
    the numbers, and shifts by any amount from 0 on - with the exception of
    [operator>>=], which for amounts from 64 to 127 clears the high half before
    it moves it down, and so gives 0. *)
Theorem uint128_exact (a b : uint128) (n : Z) :
  wf a -> wf b -> 0 <= n ->
  let x := value a in let y := value b in
  (means (add_assign a b) (x + y) /\ means (sub_assign a b) (x - y) /\ means (mul_assign a b) (x * y) /\
   means (increment a) (x + 1) /\ means (decrement a) (x - 1) /\ means (neg128 a) (- x) /\ means (not128 a) (Z.lnot x)) /\
  (means (logic128 Z.lor a b) (Z.lor x y) /\ means (logic128 Z.land a b) (Z.land x y) /\ means (logic128 Z.lxor a b) (Z.lxor x y)) /\
  (eq128 a b = (x =? y) /\ cmp128 Z.ltb a b = (x <? y) /\ cmp128 Z.gtb a b = (x >? y) /\
   cmp128 Z.geb a b = (x >=? y) /\ cmp128 Z.leb a b = (x <=? y) /\ lnot128 a = (x =? 0)) /\
  (means (shl128 a n) (Z.shiftl x n) /\ shl_assign a n = shl128 a n /\ means (shr128 a n) (Z.shiftr x n) /\
   shr_assign a n = if (64 <=? n) && (n <? 128) then Uint128 0 0 else shr128 a n).
Proof.
  intros Ha Hb Hn x y. pose proof (means_value a Ha) as Ma. pose proof (means_value b Hb) as Mb. fold x in Ma. fold y in Mb.
  pose proof (of_int_means 1 ltac:(lia)) as M1. split; [|split; [|split]].
  - split_and!; [by apply add_means|by apply sub_means|by apply mul_means|by apply add_means|by apply sub_means|by apply neg_means|].
    unfold Z.lnot. rewrite <- Z.sub_1_r. by apply not_means.
  - split_and!.
    + apply (logic_means _ orb); [apply Z.lor_spec|intros; by apply Z.lor_nonneg|done..].
    + apply (logic_means _ andb); [apply Z.land_spec|intros; apply Z.land_nonneg; by left|done..].
    + apply (logic_means _ xorb); [apply Z.lxor_spec|intros; apply Z.lxor_nonneg; tauto|done..].
  - split_and!; try (apply cmp_means; [done..|]; intros; repeat case_match; lia).
    + unfold eq128. destruct Ha, Hb. unfold x, y, value. lia.
    + unfold lnot128. destruct Ha. unfold x, value. lia.
  - rewrite Z.shiftl_mul_pow2, Z.shiftr_div_pow2 by done.
    split_and!; [by apply shl_means|apply shl_assign_same|by apply shr_means|apply shr_assign_same].
Qed.

Lemma uint128_exact_witness :
  wf (Uint128 3 (2 ^ 64 - 1)) /\ means (mul_assign (Uint128 3 (2 ^ 64 - 1)) (Uint128 0 16)) ((2 ^ 66 - 1) * 16) /\
  shr_assign (Uint128 3 (2 ^ 64 - 1)) 64 = Uint128 0 0 /\ shr128 (Uint128 3 (2 ^ 64 - 1)) 64 = Uint128 0 3.
Proof.
  assert (wf (Uint128 3 (2 ^ 64 - 1))) as Ha by (split; cbn; lia). assert (wf (Uint128 0 16)) as Hb by (split; cbn; lia).
  destruct (uint128_exact (Uint128 3 (2 ^ 64 - 1)) (Uint128 0 16) 64 Ha Hb ltac:(lia)) as ((_ & _ & Hm & _) & _ & _ & (_ & _ & _ & Hs)).
  split_and!; [exact Ha|exact Hm|exact Hs|reflexivity].
Defined.
