(* ===== verification/DynamicBitset.v ===== *)
(** [zutils/base2/dynamic_bitset.h]: a set of indices in 64-bit cells, on a host
    whose [size_t] has 64 bits. *)
From Stdlib Require Import ZArith Lia Bool.
From stdpp Require Import base list numbers.
From S2P Require Import Prelude.

Open Scope Z_scope.

(** [DynamicBitset]; the default constructor leaves [size_] uninitialised, so its
    content is an argument. *)
Record bitset := Bitset { bitset_ : list Z; size_ : Z }.
Definition cell_bit_size_ : Z := 64.
Definition new_bitset (garbage : Z) : bitset := Bitset [] garbage.

(** [bitset_[index / cell_bit_size_]], read and written; undefined outside. *)
Definition cell (b : bitset) (index : Z) : outcome Z :=
  match bitset_ b !! Z.to_nat (index / cell_bit_size_) with Some x => Ret x | None => Fault OutOfBounds end.
Definition set_cell (b : bitset) (index x : Z) : bitset :=
  Bitset (<[Z.to_nat (index / cell_bit_size_) := x]> (bitset_ b)) (size_ b).
(** [size_t(1) << (index % cell_bit_size_)] *)
Definition bit (index : Z) : Z := u64 (Z.shiftl 1 (index mod cell_bit_size_)).

Definition fill (b : bitset) (x : Z) : bitset := Bitset (map (fun _ => x) (bitset_ b)) (size_ b).
Definition clear (b : bitset) : bitset := fill b 0.
Definition empty (b : bitset) : bool := bool_decide (bitset_ b = []).
Definition reset_all (b : bitset) : bitset := fill b 0.
Definition reset (b : bitset) (index : Z) : outcome bitset :=
  x ← cell b index; Ret (set_cell b index (Z.land x (u64 (Z.lnot (bit index))))).
Definition reset_block (b : bitset) (index : Z) : outcome bitset :=
  _ ← cell b index; Ret (set_cell b index 0).
(** [std::vector::resize] drops cells at the end or appends zero cells. *)
Definition resize (b : bitset) (size : Z) : bitset :=
  let n := Z.to_nat (size / cell_bit_size_ + 1) in
  Bitset (take n (bitset_ b) ++ replicate (n - length (bitset_ b)) 0) size.
Definition set (b : bitset) (index : Z) : outcome bitset :=
  x ← cell b index; Ret (set_cell b index (Z.lor x (bit index))).
Definition set_all (b : bitset) : bitset := fill b 0xffffffff.
Definition size (b : bitset) : Z := size_ b.
Definition test (b : bitset) (index : Z) : outcome bool :=
  x ← cell b index; Ret (negb (Z.land x (bit index) =? 0)).
(** The constructor with a size *)
Definition sized_bitset (garbage n : Z) : bitset := reset_all (resize (new_bitset garbage) n).

(** * A run of operations, and the set they make *)
Inductive bitset_op := OSet (i : Z) | OReset (i : Z) | OResetBlock (i : Z) | OResetAll | OSetAll | OResize (n : Z).
Definition apply_op (b : bitset) (o : bitset_op) : outcome bitset :=
  match o with
  | OSet i => set b i
  | OReset i => reset b i
  | OResetBlock i => reset_block b i
  | OResetAll => Ret (reset_all b)
  | OSetAll => Ret (set_all b)
  | OResize n => Ret (resize b n)
  end.
Fixpoint apply_ops (b : bitset) (os : list bitset_op) : outcome bitset :=
  match os with [] => Ret b | o :: os => b ← apply_op b o; apply_ops b os end.

(** The specification: the size, and which indices are in. *)
Record bits := Bits { b_size : Z; b_in : Z -> bool }.
Definition spec_op (s : bits) (o : bitset_op) : bits :=
  match o with
  | OSet i => Bits (b_size s) (fun j => (j =? i) || b_in s j)
  | OReset i => Bits (b_size s) (fun j => negb (j =? i) && b_in s j)
  | OResetBlock i => Bits (b_size s) (fun j => negb (j / 64 =? i / 64) && b_in s j)
  | OResetAll => Bits (b_size s) (fun _ => false)
  | OSetAll => Bits (b_size s) (fun j => j mod 64 <? 32)
  | OResize n => Bits n (fun j => (j / 64 <=? b_size s / 64) && (j / 64 <=? n / 64) && b_in s j)
  end.
(** The indices an operation may be given: up to the end of the last cell. *)
Definition allowed (s : bits) (o : bitset_op) : bool :=
  match o with
  | OSet i | OReset i | OResetBlock i => (0 <=? i) && (i / 64 <=? b_size s / 64)
  | OResetAll | OSetAll => true
  | OResize n => (0 <=? n) && (n <? 2 ^ 64)
  end.
Fixpoint all_allowed (s : bits) (os : list bitset_op) : bool :=
  match os with [] => true | o :: os => allowed s o && all_allowed (spec_op s o) os end.

(** ** The cells of a set *)
Definition rep (b : bitset) (s : bits) : Prop :=
  0 <= b_size s < 2 ^ 64 /\ size_ b = b_size s /\ zlen (bitset_ b) = b_size s / 64 + 1 /\
  forall k x, bitset_ b !! k = Some x -> 0 <= x < 2 ^ 64 /\
    forall i, 0 <= i < 64 -> Z.testbit x i = b_in s (Z.of_nat k * 64 + i).

Lemma bit_testbit i j : 0 <= j -> Z.testbit (bit i) j = (j =? i mod 64).
Proof.
  intros Hj. pose proof (Z.mod_pos_bound i 64 ltac:(lia)). unfold bit, cell_bit_size_. rewrite Z.shiftl_1_l, uwrap_small.
  - rewrite Z.pow2_bits_eqb by lia. apply Z.eqb_sym.
  - split; [lia|]. apply Z.pow_lt_mono_r; lia.
Qed.
Lemma bit_range i : 0 <= bit i < 2 ^ 64.
Proof. apply uwrap_range. lia. Qed.
Lemma land_bit x i : negb (Z.land x (bit i) =? 0) = Z.testbit x (i mod 64).
Proof.
  pose proof (Z.mod_pos_bound i 64 ltac:(lia)). destruct (Z.testbit x (i mod 64)) eqn:E.
  - apply negb_true_iff, Z.eqb_neq. intros H0. apply (f_equal (fun z => Z.testbit z (i mod 64))) in H0.
    rewrite Z.land_spec, E, bit_testbit, Z.eqb_refl, Z.bits_0 in H0 by lia. done.
  - apply negb_false_iff, Z.eqb_eq, Z.bits_inj'. intros n Hn. rewrite Z.land_spec, bit_testbit, Z.bits_0 by lia.
    destruct (Z.eqb_spec n (i mod 64)) as [->|]; [by rewrite E|apply andb_false_r].
Qed.

Lemma cell_index i n : 0 <= i -> 0 <= n -> i / 64 <= n / 64 -> (Z.to_nat (i / 64) < Z.to_nat (n / 64 + 1))%nat.
Proof. intros Hi Hn H. pose proof (Z.div_pos i 64 Hi ltac:(lia)). lia. Qed.
Lemma rep_cell b s i : rep b s -> 0 <= i -> i / 64 <= b_size s / 64 -> exists x, cell b i = Ret x /\
  bitset_ b !! Z.to_nat (i / 64) = Some x.
Proof.
  intros (Hs & _ & Hl & _) Hi H. unfold cell, cell_bit_size_. pose proof (cell_index i (b_size s) Hi ltac:(lia) H).
  destruct (lookup_lt_is_Some_2 (bitset_ b) (Z.to_nat (i / 64))) as [x Hx]; [unfold zlen in Hl; lia|]. exists x. by rewrite Hx.
Qed.
Lemma index_split i k r : 0 <= i -> 0 <= r < 64 -> Z.of_nat k * 64 + r = i <-> k = Z.to_nat (i / 64) /\ r = i mod 64.
Proof.
  intros Hi Hr. pose proof (Z.div_mod i 64 ltac:(lia)). pose proof (Z.mod_pos_bound i 64 ltac:(lia)). pose proof (Z.div_pos i 64 Hi ltac:(lia)).
  split; [|lia]. intros E. assert (i / 64 = Z.of_nat k /\ i mod 64 = r); [|lia].
  rewrite <- E. rewrite Z.div_add_l, Z.div_small by lia. rewrite (Z.add_comm (_ * 64)), Z.mod_add, Z.mod_small by lia. lia.
Qed.
Lemma index_block k r : 0 <= r < 64 -> (Z.of_nat k * 64 + r) / 64 = Z.of_nat k.
Proof. intros Hr. rewrite Z.div_add_l, Z.div_small by lia. lia. Qed.

(** Replacing the cell of an index. *)
Lemma rep_set_cell b s i x y f : rep b s -> 0 <= i -> bitset_ b !! Z.to_nat (i / 64) = Some x -> 0 <= y < 2 ^ 64 ->
  (forall r, 0 <= r < 64 -> Z.testbit y r = f (Z.of_nat (Z.to_nat (i / 64)) * 64 + r)) ->
  (forall k r, k <> Z.to_nat (i / 64) -> 0 <= r < 64 -> f (Z.of_nat k * 64 + r) = b_in s (Z.of_nat k * 64 + r)) ->
  rep (set_cell b i y) (Bits (b_size s) f).
Proof.
  intros (Hs & Hz & Hl & Hc) Hi Hx Hy Hf Hg. unfold rep, set_cell, cell_bit_size_. cbn [bitset_ size_ b_size b_in].
  split_and!; [lia|lia|done|unfold zlen; rewrite length_insert; exact Hl|]. intros k z Hk.
  destruct (decide (k = Z.to_nat (i / 64))) as [->|Hne].
  - rewrite list_lookup_insert_eq in Hk by (by eapply lookup_lt_Some). injection Hk as <-. done.
  - rewrite list_lookup_insert_ne in Hk by done. destruct (Hc k z Hk) as [Hz' Hb]. split; [done|]. intros r Hr. by rewrite Hg, Hb.
Qed.

(** ** Every operation *)
Lemma rep_fill b s y f : rep b s -> 0 <= y < 2 ^ 64 -> (forall k r, 0 <= r < 64 -> Z.testbit y r = f (Z.of_nat k * 64 + r)) ->
  rep (fill b y) (Bits (b_size s) f).
Proof.
  intros (Hs & Hz & Hl & Hc) Hy Hf. unfold rep, fill. cbn [bitset_ size_ b_size b_in].
  split_and!; [lia|lia|done|unfold zlen; rewrite length_map; exact Hl|]. intros k z Hk.
  rewrite list_lookup_fmap in Hk. destruct (bitset_ b !! k); [|done]. injection Hk as <-. split; [done|]. intros. by apply Hf.
Qed.
Lemma mask_testbit i r : 0 <= r < 64 -> Z.testbit (u64 (Z.lnot (bit i))) r = negb (r =? i mod 64).
Proof. intros Hr. unfold uwrap. rewrite Z.mod_pow2_bits_low, Z.lnot_spec, bit_testbit by lia. done. Qed.
Lemma index_eqb i k r : 0 <= i -> 0 <= r < 64 -> (Z.of_nat k * 64 + r =? i) = bool_decide (k = Z.to_nat (i / 64)) && (r =? i mod 64).
Proof.
  intros Hi Hr. apply eq_true_iff_eq. rewrite Z.eqb_eq, andb_true_iff, bool_decide_eq_true, Z.eqb_eq. by apply index_split.
Qed.

Lemma apply_op_rep b s o : rep b s -> allowed s o = true -> exists b', apply_op b o = Ret b' /\ rep b' (spec_op s o).
Proof.
  intros Hrep Ho. assert (forall i, (0 <=? i) && (i / 64 <=? b_size s / 64) = true -> 0 <= i /\
    exists x, cell b i = Ret x /\ bitset_ b !! Z.to_nat (i / 64) = Some x /\ 0 <= x < 2 ^ 64 /\
      forall r, 0 <= r < 64 -> Z.testbit x r = b_in s (Z.of_nat (Z.to_nat (i / 64)) * 64 + r)) as Hcell.
  { intros i H. apply andb_true_iff in H as [Hi H]. apply Z.leb_le in Hi, H. split; [done|].
    destruct (rep_cell b s i Hrep Hi H) as (x & Hx & Hk). exists x. destruct Hrep as (_ & _ & _ & Hc). destruct (Hc _ _ Hk). done. }
  destruct o as [i|i|i| | |n]; cbn [allowed apply_op spec_op] in *.
  - destruct (Hcell i Ho) as (Hi & x & Hx & Hk & Hr & Hb). unfold set. rewrite Hx. eexists. split; [done|].
    apply (rep_set_cell b s i x _ _ Hrep Hi Hk).
    + apply bits_range; [apply Z.lor_nonneg; pose proof (bit_range i); lia|]. intros r Hr'. rewrite Z.lor_spec, (high_bits x), bit_testbit by lia.
      pose proof (Z.mod_pos_bound i 64 ltac:(lia)). lia.
    + intros r Hr'. rewrite Z.lor_spec, bit_testbit, Hb, index_eqb, bool_decide_eq_true_2 by (done || lia). apply orb_comm.
    + intros k r Hne Hr'. by rewrite index_eqb, bool_decide_eq_false_2.
  - destruct (Hcell i Ho) as (Hi & x & Hx & Hk & Hr & Hb). unfold reset. rewrite Hx. eexists. split; [done|].
    apply (rep_set_cell b s i x _ _ Hrep Hi Hk).
    + apply bits_range; [apply Z.land_nonneg; lia|]. intros r Hr'. by rewrite Z.land_spec, (high_bits x) by lia.
    + intros r Hr'. rewrite Z.land_spec, mask_testbit, Hb, index_eqb, bool_decide_eq_true_2 by (done || lia). apply andb_comm.
    + intros k r Hne Hr'. by rewrite index_eqb, bool_decide_eq_false_2.
  - destruct (Hcell i Ho) as (Hi & x & Hx & Hk & Hr & Hb). unfold reset_block. rewrite Hx. eexists. split; [done|].
    pose proof (Z.div_pos i 64 Hi ltac:(lia)). apply (rep_set_cell b s i x _ _ Hrep Hi Hk); [lia| |].
    + intros r Hr'. rewrite Z.bits_0, index_block, Z2Nat.id, Z.eqb_refl by lia. done.
    + intros k r Hne Hr'. rewrite index_block, (proj2 (Z.eqb_neq _ _)) by lia. done.
  - eexists. split; [done|]. apply rep_fill; [done|lia|]. intros. apply Z.bits_0.
  - eexists. split; [done|]. apply rep_fill; [done|lia|]. intros k r Hr. change 0xffffffff with (Z.ones 32).
    rewrite (Z.add_comm (_ * 64)), Z.mod_add, Z.mod_small by lia. destruct (Z.ltb_spec r 32); [by rewrite Z.ones_spec_low by lia|by rewrite Z.ones_spec_high by lia].
  - eexists. split; [done|]. apply andb_true_iff in Ho as [Hn1 Hn2]. destruct Hrep as (Hs & Hz & Hl & Hc).
    pose proof (Z.div_pos n 64 ltac:(lia) ltac:(lia)). pose proof (Z.div_pos (b_size s) 64 ltac:(lia) ltac:(lia)).
    unfold rep, resize, cell_bit_size_. cbn [bitset_ size_ b_size b_in]. set (m := Z.to_nat (n / 64 + 1)).
    assert (Z.of_nat (length (bitset_ b)) = b_size s / 64 + 1) as Hl' by exact Hl.
    split_and!; [lia|lia|done| |].
    { unfold zlen. rewrite length_app, length_take, length_replicate. lia. }
    intros k x Hk. destruct (Nat.lt_ge_cases k (length (take m (bitset_ b)))) as [Hlt|Hge].
    + rewrite lookup_app_l, lookup_take in Hk by done. case_decide as Hkm; [|done]. destruct (Hc k x Hk) as [Hx Hb]. split; [done|].
      intros r Hr. rewrite length_take in Hlt. rewrite index_block, Hb by done. rewrite !(proj2 (Z.leb_le _ _)) by lia. done.
    + rewrite lookup_app_r in Hk by done. apply lookup_replicate in Hk as [-> Hk]. split; [lia|]. intros r Hr.
      rewrite length_take in Hge, Hk. rewrite Z.bits_0, index_block by done.
      destruct (Z.leb_spec (Z.of_nat k) (b_size s / 64)); [|done]. cbn [andb]. rewrite (proj2 (Z.leb_gt _ _)); [done|lia].
Qed.

Lemma apply_ops_rep os : forall b s, rep b s -> all_allowed s os = true ->
  exists b', apply_ops b os = Ret b' /\ rep b' (fold_left spec_op os s).
Proof.
  induction os as [|o os IH]; intros b s Hrep H; cbn [apply_ops all_allowed fold_left] in *; [by exists b|].
  apply andb_true_iff in H as [Ho H]. destruct (apply_op_rep b s o Hrep Ho) as (b' & -> & Hb'). by apply IH.
Qed.
Lemma rep_test b s i : rep b s -> 0 <= i -> i / 64 <= b_size s / 64 -> test b i = Ret (b_in s i).
Proof.
  intros Hrep Hi H. destruct (rep_cell b s i Hrep Hi H) as (x & Hx & Hk). unfold test. rewrite Hx. cbn [mbind outcome_bind].
  pose proof (Z.mod_pos_bound i 64 ltac:(lia)). destruct Hrep as (_ & _ & _ & Hc). destruct (Hc _ _ Hk) as [_ Hb]. rewrite land_bit, Hb by done.
  do 2 f_equal. by apply (index_split i).
Qed.
Lemma rep_sized garbage n : 0 <= n < 2 ^ 64 -> rep (sized_bitset garbage n) (Bits n (fun _ => false)).
Proof.
  intros Hn. pose proof (Z.div_pos n 64 ltac:(lia) ltac:(lia)). unfold rep, sized_bitset, reset_all, fill, resize, new_bitset, cell_bit_size_. cbn [bitset_ size_ b_size b_in].
  split_and!; [lia|lia|done| |].
  - unfold zlen. rewrite length_map, length_app, length_take, length_replicate. cbn [length]. lia.
  - intros k x Hk. rewrite list_lookup_fmap in Hk. destruct (_ !! k); [|done]. injection Hk as <-. split; [lia|]. intros. apply Z.bits_0.
Qed.

(** Bit sets.  From a set of [n] bits, any operations with indices up to the end
    of the last cell stay inside the cells, and leave the size and the indices of
    their specification: [set] and [reset] change one index, [reset_block] empties
    the block of 64 around it, and [resize] keeps what both sizes have room for and
    adds nothing.  [set_all], however, takes in only the lower half of every 64. *)
Theorem bitset_refines (garbage n : Z) (os : list bitset_op) :
  0 <= n < 2 ^ 64 -> all_allowed (Bits n (fun _ => false)) os = true ->
  exists b, apply_ops (sized_bitset garbage n) os = Ret b /\
    let s := fold_left spec_op os (Bits n (fun _ => false)) in
    size b = b_size s /\ empty b = false /\
    forall i, 0 <= i -> i / 64 <= b_size s / 64 -> test b i = Ret (b_in s i).
Proof.
  intros Hn H. destruct (apply_ops_rep os _ _ (rep_sized garbage n Hn) H) as (b & Hb & Hr). exists b. split; [done|].
  cbv zeta. split_and!; [by destruct Hr as (_ & ? & _)| |intros; by apply rep_test].
  unfold empty. destruct Hr as (Hs & _ & Hl & _). pose proof (Z.div_pos _ 64 (proj1 Hs) ltac:(lia)).
  apply bool_decide_eq_false. intros E. rewrite E in Hl. change (zlen (@nil Z)) with 0 in Hl. lia.
Qed.

Lemma bitset_refines_witness :
  exists b, apply_ops (sized_bitset 7 100) [OSet 70; OSet 3; OResetBlock 3; OSet 99] = Ret b /\
    size b = 100 /\ test b 70 = Ret true /\ test b 3 = Ret false /\ test b 99 = Ret true.
Proof.
  destruct (bitset_refines 7 100 [OSet 70; OSet 3; OResetBlock 3; OSet 99] ltac:(lia) eq_refl) as (b & Hb & Hs & _ & Ht).
  exists b. split; [exact Hb|]. split; [exact Hs|].
  split_and!; (etransitivity; [apply Ht; vm_compute; congruence|reflexivity]).
Defined.
