(* ===== verification/PriorityQueue.v ===== *)
(** [zutils/base2/priority_queue.h], a debug build: a list of values for each
    priority, and pointers into them that are checked before they are used. *)
From Stdlib Require Import ZArith Lia Bool.
From stdpp Require Import base list numbers gmap.
From S2P Require Import Prelude.

Open Scope Z_scope.

Section Queue.
Context {T : Type}.

(** A node of a [std::list<std::pair<unsigned, T>>]: the address it was allocated
    at, the id and the value. *)
Record node := Node { n_addr : nat; n_id : Z; n_value : T }.

(** [PriorityQueue]; [next_addr] is the address the next node gets, one that no
    node had before. *)
Record queue := Queue { next_id_ : Z; valid_ids_ : gset Z; lists_ : list (list node); size_ : Z; next_addr : nat }.

(** [PriorityQueue::Pointer]: an iterator is the address of a node, or the end of a
    list. *)
Record pointer := Pointer { priority_ : Z; iterator_ : option nat; id_ : Z }.
Definition kNullPriority : Z := u32 (-1).
Definition null_pointer : pointer := Pointer kNullPriority None (u32 (-1)).
Definition is_null (p : pointer) : bool := priority_ p =? kNullPriority.
Definition Equals (p q : pointer) : bool := (priority_ p =? priority_ q) && bool_decide (iterator_ p = iterator_ q).
(** [Pointer(priority, iterator)] reads the id of its node. *)
Definition node_pointer (priority : Z) (x : node) : pointer := Pointer (u32 priority) (Some (n_addr x)) (n_id x).

Definition new_queue (num_priorities : Z) : queue := Queue 0 ∅ (replicate (Z.to_nat num_priorities) []) 0 0.
Definition list_at (q : queue) (priority : Z) : outcome (list node) :=
  match lists_ q !! Z.to_nat priority with Some l => Ret l | None => Fault OutOfBounds end.
Definition find_node (l : list node) (a : nat) : option (nat * node) := list_find (fun x => n_addr x = a) l.

(** [Insert] and [InsertAtFront] *)
Definition insert_node (front : bool) (value : T) (priority : Z) (q : queue) : outcome (pointer * queue) :=
  DCHECK true (priority <? zlen (lists_ q)) (
    l ← list_at q priority;
    let x := Node (next_addr q) (next_id_ q) value in
    Ret (node_pointer priority x,
         Queue (u32 (next_id_ q + 1)) ({[next_id_ q]} ∪ valid_ids_ q)
           (<[Z.to_nat priority := if front then x :: l else l ++ [x]]> (lists_ q)) (u64 (size_ q + 1)) (S (next_addr q)))).
Definition Insert := insert_node false.
Definition InsertAtFront := insert_node true.

(** [Erase]: the last check reads the node behind the iterator, and erasing takes it
    out of the list. *)
Definition Erase (p : pointer) (q : queue) : outcome queue :=
  DCHECK true (priority_ p <? zlen (lists_ q)) (
  DCHECK true (0 <? size_ q) (
  DCHECK true (bool_decide (id_ p ∈ valid_ids_ q)) (
    l ← list_at q (priority_ p);
    match iterator_ p ≫= find_node l with
    | None => Fault OutOfBounds
    | Some (i, x) =>
        DCHECK true (n_id x =? id_ p)
          (Ret (Queue (next_id_ q) (valid_ids_ q ∖ {[id_ p]}) (<[Z.to_nat (priority_ p) := delete i l]> (lists_ q))
                  (u64 (size_ q - 1)) (next_addr q)))
    end))).

(** The loops of [FirstMin] and [LastMin] ([pick] chooses [begin] or [--end]), up
    from [i], and of [FirstMax] and [LastMax], down to it. *)
Fixpoint min_loop (pick : list node -> option node) (ls : list (list node)) (i : Z) : pointer :=
  match ls with
  | [] => null_pointer
  | l :: ls => match pick l with Some x => node_pointer i x | None => min_loop pick ls (i + 1) end
  end.
Definition FirstMin (q : queue) : pointer := min_loop head (lists_ q) 0.
Definition LastMin (q : queue) : pointer := min_loop last (lists_ q) 0.
Fixpoint max_loop (pick : list node -> option node) (rev_ls : list (list node)) (i : Z) : pointer :=
  match rev_ls with
  | [] => null_pointer
  | l :: ls => let index := i - 1 in match pick l with Some x => node_pointer index x | None => max_loop pick ls index end
  end.
Definition FirstMax (q : queue) : pointer := max_loop head (reverse (lists_ q)) (zlen (lists_ q)).
Definition LastMax (q : queue) : pointer := max_loop last (reverse (lists_ q)) (zlen (lists_ q)).

(** [GetNextTowardsLastMin]: behind the node, and if that is the end of its list,
    the first node of the lists below; [below] is what is below, nearest first. *)
Definition GetNextTowardsLastMin (p : pointer) (q : queue) : outcome pointer :=
  DCHECK true (negb (is_null p)) (
  DCHECK true (priority_ p <? zlen (lists_ q)) (
    l ← list_at q (priority_ p);
    match iterator_ p with
    | None => Fault AssertFail
    | Some a =>
        match find_node l a with
        | None => Fault OutOfBounds
        | Some (i, _) =>
            Ret (match l !! S i with
                 | Some x => node_pointer (priority_ p) x
                 | None => max_loop head (reverse (take (Z.to_nat (priority_ p)) (lists_ q))) (priority_ p)
                 end)
        end
    end)).

Definition Clear (q : queue) : queue := Queue (next_id_ q) ∅ (map (fun _ => []) (lists_ q)) 0 (next_addr q).
Definition num_priorities (q : queue) : Z := zlen (lists_ q).
Definition empty (q : queue) : bool := size_ q =? 0.
Definition size (q : queue) : Z := size_ q.

(** * The order of a queue: falling priorities, and of one priority first in first *)
Fixpoint flat (ls : list (list node)) (i : Z) : list (Z * node) :=
  match ls with [] => [] | l :: ls => flat ls (i + 1) ++ map (pair i) l end.
Definition order (q : queue) : list (Z * node) := flat (lists_ q) 0.
Definition pointer_to (e : option (Z * node)) : pointer :=
  match e with None => null_pointer | Some (p, x) => node_pointer p x end.

(** ** Its pieces *)
Lemma flat_app ls ks : forall i, flat (ls ++ ks) i = flat ks (i + zlen ls) ++ flat ls i.
Proof.
  induction ls as [|l ls IH]; intros i; cbn [app flat].
  - change (zlen []) with 0. by rewrite Z.add_0_r, app_nil_r.
  - rewrite IH, zlen_cons, <- app_assoc. do 2 f_equal. lia.
Qed.
Lemma flat_range ls : forall i, Forall (fun e => i <= fst e < i + zlen ls) (flat ls i).
Proof.
  induction ls as [|l ls IH]; intros i; cbn [flat]; [done|]. rewrite zlen_cons. pose proof (zlen_nonneg ls). apply Forall_app. split.
  - eapply Forall_impl; [apply IH|]. cbn. lia.
  - apply Forall_forall. intros e He. apply list_elem_of_fmap in He as (x & -> & _). cbn. lia.
Qed.
(** The queue around the list of a priority. *)
Lemma flat_split ls k l : ls !! k = Some l -> exists above below,
  flat ls 0 = above ++ map (pair (Z.of_nat k)) l ++ below /\
  Forall (fun e => Z.of_nat k < fst e) above /\ Forall (fun e => fst e < Z.of_nat k) below /\
  below = flat (take k ls) 0 /\
  forall l', flat (<[k := l']> ls) 0 = above ++ map (pair (Z.of_nat k)) l' ++ below.
Proof.
  intros H. pose proof (lookup_lt_Some _ _ _ H) as Hk. exists (flat (drop (S k) ls) (Z.of_nat k + 1)), (flat (take k ls) 0).
  assert (zlen (take k ls) = Z.of_nat k) as Hz by (unfold zlen; rewrite length_take; lia).
  assert (forall l', flat (take k ls ++ l' :: drop (S k) ls) 0 =
    flat (drop (S k) ls) (Z.of_nat k + 1) ++ map (pair (Z.of_nat k)) l' ++ flat (take k ls) 0) as Hf.
  { intros l'. rewrite flat_app, Hz. cbn [flat]. by rewrite Z.add_0_l, <- app_assoc. }
  split_and!.
  - rewrite <- Hf. by rewrite take_drop_middle.
  - eapply Forall_impl; [apply flat_range|]. cbn. lia.
  - eapply Forall_impl; [apply flat_range|]. cbn. rewrite Hz. lia.
  - done.
  - intros l'. by rewrite insert_take_drop, Hf by done.
Qed.
Lemma filter_all {A} (P : A -> Prop) `{forall x, Decision (P x)} l : Forall P l -> filter P l = l.
Proof. induction 1; [done|]. rewrite filter_cons_True by done. by f_equal. Qed.
Lemma filter_no {A} (P : A -> Prop) `{forall x, Decision (P x)} l : Forall (fun x => ~ P x) l -> filter P l = [].
Proof. induction 1; [done|]. by rewrite filter_cons_False. Qed.
Lemma Forall_level (P : Z * node -> Prop) k (l : list node) : (forall x, P (k, x)) -> Forall P (map (pair k) l).
Proof. intros HP. apply Forall_forall. intros e He. apply list_elem_of_fmap in He as (x & -> & _). apply HP. Qed.

(** ** The first and the last *)
Lemma max_head ls : max_loop head (reverse ls) (zlen ls) = pointer_to (head (flat ls 0)).
Proof.
  induction ls as [|l ls IH] using rev_ind; [done|]. rewrite reverse_snoc, zlen_app, flat_app. change (zlen [l]) with 1.
  cbn [max_loop flat]. replace (zlen ls + 1 - 1) with (zlen ls) by lia. rewrite Z.add_0_l. destruct l as [|x l]; [by apply IH|done].
Qed.
Lemma min_last ls : forall i, min_loop last ls i = pointer_to (last (flat ls i)).
Proof.
  induction ls as [|l ls IH]; intros i; [done|]. cbn [min_loop flat]. rewrite last_app, IH. rewrite fmap_last. by destruct (last l).
Qed.
Lemma min_head ls : forall i, min_loop head ls i =
  pointer_to (last (flat ls i) ≫= fun e => head (filter (fun e' => fst e' = fst e) (flat ls i))).
Proof.
  induction ls as [|l ls IH]; intros i; [done|]. cbn [min_loop flat]. rewrite last_app, fmap_last.
  assert (Forall (fun e : Z * node => fst e <> i) (flat ls (i + 1))) as Hne by (eapply Forall_impl; [apply flat_range|]; cbn; lia).
  destruct l as [|x l].
  - cbn [head last fmap option_fmap option_map map]. rewrite app_nil_r. apply IH.
  - destruct (last (x :: l)) as [y|] eqn:Ey; [|by destruct l using rev_ind; rewrite ?app_comm_cons, ?last_snoc in Ey].
    cbn [fmap option_fmap option_map mbind option_bind fst head]. rewrite list.filter_app, filter_no, filter_all; [done| |done].
    by apply Forall_level.
Qed.
Lemma max_last ls : max_loop last (reverse ls) (zlen ls) =
  pointer_to (head (flat ls 0) ≫= fun e => last (filter (fun e' => fst e' = fst e) (flat ls 0))).
Proof.
  induction ls as [|l ls IH] using rev_ind; [done|]. rewrite reverse_snoc, zlen_app, flat_app. change (zlen [l]) with 1.
  cbn [max_loop flat]. replace (zlen ls + 1 - 1) with (zlen ls) by lia. rewrite Z.add_0_l. cbn [app].
  assert (Forall (fun e : Z * node => fst e <> zlen ls) (flat ls 0)) as Hne by (eapply Forall_impl; [apply flat_range|]; cbn; lia).
  destruct l as [|x l]; [by apply IH|]. cbn [map app head mbind option_bind fst].
  change ((zlen ls, x) :: map (pair (zlen ls)) l ++ flat ls 0) with (map (pair (zlen ls)) (x :: l) ++ flat ls 0).
  rewrite list.filter_app, filter_all, filter_no, app_nil_r, fmap_last by (done || by apply Forall_level).
  destruct (last (x :: l)) as [y|] eqn:Ey; [done|]. by destruct l using rev_ind; rewrite ?app_comm_cons, ?last_snoc in Ey.
Qed.

(** * Keeping the order *)
(** A queue that made fewer than [2^32] nodes: their ids are their addresses, the
    valid ids are those of the nodes that are in it. *)
Record good (q : queue) : Prop := {
  g_ids : next_id_ q = Z.of_nat (next_addr q) /\ next_id_ q < 2 ^ 32;
  g_nodes : Forall (fun e => n_id (snd e) = Z.of_nat (n_addr (snd e)) /\ (n_addr (snd e) < next_addr q)%nat) (order q);
  g_distinct : NoDup (map (fun e => n_addr (snd e)) (order q));
  g_valid : forall i, i ∈ valid_ids_ q <-> exists e, e ∈ order q /\ n_id (snd e) = i;
  g_size : size_ q = zlen (order q) /\ zlen (order q) <= next_id_ q;
  g_lists : zlen (lists_ q) < 2 ^ 32
}.

Lemma order_at q p x : (p, x) ∈ order q -> exists k l, p = Z.of_nat k /\ lists_ q !! k = Some l /\ x ∈ l.
Proof.
  unfold order. assert (forall ls i, (p, x) ∈ flat ls i -> exists k l, p = i + Z.of_nat k /\ ls !! k = Some l /\ x ∈ l) as H.
  { induction ls as [|l ls IH]; intros i; cbn [flat]; [by intros ?%not_elem_of_nil|]. rewrite elem_of_app. intros [H|H].
    - destruct (IH _ H) as (k & l' & -> & Hk & Hx). exists (S k), l'. split_and!; [lia|done|done].
    - apply list_elem_of_fmap in H as (y & [= -> ->] & Hy). exists 0%nat, l. split_and!; [lia|done|done]. }
  intros Hx. destruct (H _ _ Hx) as (k & l & -> & ?). by exists k, l.
Qed.

(** ** Inserting *)
Definition spec_insert (front : bool) (p : Z) (x : node) (o : list (Z * node)) : list (Z * node) :=
  if front then filter (fun e => p < fst e) o ++ (p, x) :: filter (fun e => fst e <= p) o
  else filter (fun e => p <= fst e) o ++ (p, x) :: filter (fun e => fst e < p) o.

Lemma spec_insert_split front p x above (l : list node) below :
  Forall (fun e => p < fst e) above -> Forall (fun e => fst e < p) below ->
  spec_insert front p x (above ++ map (pair p) l ++ below) = above ++ map (pair p) (if front then x :: l else l ++ [x]) ++ below.
Proof.
  intros Ha Hb. assert (forall P : Z * node -> Prop, (forall e, p < fst e -> P e) -> Forall P above) as Ha' by (intros; by eapply Forall_impl).
  assert (forall P : Z * node -> Prop, (forall e, fst e < p -> P e) -> Forall P below) as Hb' by (intros; by eapply Forall_impl).
  unfold spec_insert. destruct front; rewrite !list.filter_app.
  - rewrite (filter_all _ above), (filter_no _ (map _ l)), (filter_no _ below), (filter_no _ above), (filter_all _ (map _ l)), (filter_all _ below);
      first [done|apply Ha'; intros; lia|apply Hb'; intros; lia|apply Forall_level; cbn; lia|idtac]. by rewrite !app_nil_r.
  - rewrite (filter_all _ above), (filter_all _ (map _ l)), (filter_no _ below), (filter_no _ above), (filter_no _ (map _ l)), (filter_all _ below);
      first [done|apply Ha'; intros; lia|apply Hb'; intros; lia|apply Forall_level; cbn; lia|idtac].
    rewrite map_app, app_nil_r. cbn [app map]. by rewrite <- !app_assoc.
Qed.
Lemma insert_parts (front : bool) (x : node) l : exists l1 l2, l = l1 ++ l2 /\ (if front then x :: l else l ++ [x]) = l1 ++ x :: l2.
Proof. destruct front; [by exists [], l|]. exists l, []. by rewrite app_nil_r. Qed.

Lemma good_add q q' A B p v : good q -> next_id_ q + 1 < 2 ^ 32 -> order q = A ++ B ->
  order q' = A ++ (p, Node (next_addr q) (next_id_ q) v) :: B -> zlen (lists_ q') = zlen (lists_ q) ->
  next_id_ q' = u32 (next_id_ q + 1) -> valid_ids_ q' = {[next_id_ q]} ∪ valid_ids_ q -> size_ q' = u64 (size_ q + 1) ->
  next_addr q' = S (next_addr q) -> good q'.
Proof.
  intros [(I1 & I2) Hn Hd Hv (Hs1 & Hs2) Hl] Hroom E E' El Ei Ev Es Ea. set (x := Node _ _ v) in *. pose proof (zlen_nonneg (order q)).
  assert (order q' ≡ₚ (p, x) :: order q) as HP by (rewrite E, E'; symmetry; apply Permutation_middle).
  assert (zlen (order q') = zlen (order q) + 1) as Hz by (unfold zlen; rewrite HP; cbn [length]; lia).
  assert (u32 (next_id_ q + 1) = next_id_ q + 1) as Hu by (apply uwrap_small; lia).
  split.
  - rewrite Ei, Hu, Ea. lia.
  - rewrite HP, Ea. constructor; [cbn; lia|]. eapply Forall_impl; [exact Hn|]. cbn. intros e [? ?]. split; [done|lia].
  - rewrite HP. cbn [map snd x n_addr]. constructor; [|done]. intros Hin. apply list_elem_of_fmap in Hin as (e & He & Hin).
    rewrite Forall_forall in Hn. destruct (Hn e Hin). lia.
  - intros i. rewrite Ev, elem_of_union, elem_of_singleton, Hv. split.
    + intros [->|(e & He & Hi)]; [exists (p, x)|exists e]; rewrite HP; split; try done; by constructor.
    + intros (e & He & Hi). rewrite HP in He. apply elem_of_cons in He as [->|He]; [by left|right]. by exists e.
  - rewrite Es, Hz, Ei, Hu, Hs1, uwrap_small; [lia|]. change (2 ^ 64) with (2 ^ 32 * 2 ^ 32). lia.
  - by rewrite El.
Qed.

Lemma insert_ok front v p q : good q -> 0 <= p < zlen (lists_ q) -> next_id_ q + 1 < 2 ^ 32 ->
  let x := Node (next_addr q) (next_id_ q) v in
  exists q', insert_node front v p q = Ret (node_pointer p x, q') /\ good q' /\ order q' = spec_insert front p x (order q) /\
    zlen (lists_ q') = zlen (lists_ q) /\ next_addr q' = S (next_addr q).
Proof.
  intros Hg Hp Hroom x. destruct (lookup_lt_is_Some_2 (lists_ q) (Z.to_nat p)) as [l Hl]; [unfold zlen in Hp; lia|].
  destruct (flat_split _ _ _ Hl) as (above & below & Hf & Ha & Hb & _ & Hins). rewrite Z2Nat.id in * by lia.
  unfold insert_node, list_at. rewrite DCHECK_true by lia. rewrite Hl. eexists. split; [done|].
  assert (order (Queue (u32 (next_id_ q + 1)) ({[next_id_ q]} ∪ valid_ids_ q) (<[Z.to_nat p:=if front then x :: l else l ++ [x]]> (lists_ q))
    (u64 (size_ q + 1)) (S (next_addr q))) = spec_insert front p x (order q)) as Ho.
  { unfold order at 1. cbn [lists_]. rewrite Hins. unfold order. by rewrite Hf, spec_insert_split. }
  assert (forall l', zlen (<[Z.to_nat p := l']> (lists_ q)) = zlen (lists_ q)) as Hz by (intros; unfold zlen; by rewrite length_insert).
  split_and!; [|done|apply Hz|done].
  destruct (insert_parts front x l) as (l1 & l2 & El & Ex).
  apply (good_add q _ (above ++ map (pair p) l1) (map (pair p) l2 ++ below) p v); try done.
  - unfold order. rewrite Hf, El, map_app. by rewrite <- !app_assoc.
  - etransitivity; [exact Ho|]. unfold order. rewrite Hf, spec_insert_split by done. rewrite Ex, map_app. cbn [map]. by rewrite <- !app_assoc.
  - apply Hz.
Qed.

(** ** Erasing *)
Lemma map_injective_split {A B} (f : A -> B) (l k l' k' : list A) x x' :
  NoDup (map f (l ++ x :: k)) -> l ++ x :: k = l' ++ x' :: k' -> f x = f x' -> l = l' /\ x = x' /\ k = k'.
Proof.
  revert l'. induction l as [|y l IH]; intros [|y' l'] Hd E Ef; cbn [app map] in *.
  - by injection E as <- <-.
  - injection E as <- ->. exfalso. apply NoDup_cons in Hd as [Hx _]. apply Hx. rewrite Ef, map_app, elem_of_app. right. by constructor.
  - injection E as -> <-. exfalso. apply NoDup_cons in Hd as [Hx _]. apply Hx. rewrite <- Ef, map_app, elem_of_app. right. by constructor.
  - injection E as <- E. apply NoDup_cons in Hd as [_ Hd]. destruct (IH l' Hd E Ef) as (-> & -> & ->). done.
Qed.
(** A node in a queue, with everything around it. *)
Lemma node_split q p x : good q -> (p, x) ∈ order q -> exists l1 l2 above below,
  0 <= p < zlen (lists_ q) /\ list_at q p = Ret (l1 ++ x :: l2) /\ find_node (l1 ++ x :: l2) (n_addr x) = Some (length l1, x) /\
  order q = (above ++ map (pair p) l1) ++ (p, x) :: map (pair p) l2 ++ below /\
  below = flat (take (Z.to_nat p) (lists_ q)) 0 /\
  flat (<[Z.to_nat p := l1 ++ l2]> (lists_ q)) 0 = (above ++ map (pair p) l1) ++ map (pair p) l2 ++ below.
Proof.
  intros Hg Hx. destruct (order_at q p x Hx) as (k & l & -> & Hk & Hl). apply list_elem_of_split in Hl as (l1 & l2 & ->).
  destruct (flat_split _ _ _ Hk) as (above & below & Hf & _ & _ & Hb & Hins). exists l1, l2, above, below. pose proof (lookup_lt_Some _ _ _ Hk).
  unfold list_at. rewrite Nat2Z.id, Hk. rewrite map_app in Hf. cbn [map] in Hf.
  assert (order q = (above ++ map (pair (Z.of_nat k)) l1) ++ (Z.of_nat k, x) :: map (pair (Z.of_nat k)) l2 ++ below) as Ho
    by (unfold order; rewrite Hf; by rewrite <- !app_assoc).
  split_and!; [lia|unfold zlen; lia|done| |done|done|].
  - apply list_find_Some. split_and!; [by rewrite lookup_app_r, Nat.sub_diag|done|]. intros j y Hy Hj Ey.
    rewrite lookup_app_l in Hy by done. apply list_elem_of_lookup_2, list_elem_of_split in Hy as (a & b & ->).
    destruct Hg as [_ _ Hd _ _ _]. rewrite Ho in Hd. revert Hd. rewrite map_app. intros Hd. apply NoDup_app in Hd as (_ & Hd & _).
    apply (Hd (n_addr x)); [|by constructor]. rewrite !map_app, elem_of_app. right. rewrite elem_of_app. right. cbn. rewrite Ey. by constructor.
  - rewrite Hins, map_app. by rewrite <- !app_assoc.
Qed.

Lemma erase_ok q p x : good q -> (p, x) ∈ order q ->
  exists q', Erase (node_pointer p x) q = Ret q' /\ good q' /\ order q' = filter (fun e => n_addr (snd e) <> n_addr x) (order q) /\
    zlen (lists_ q') = zlen (lists_ q) /\ next_addr q' = next_addr q.
Proof.
  intros Hg Hx. destruct (node_split q p x Hg Hx) as (l1 & l2 & above & below & Hp & Hl & Hfind & Ho & _ & Hdel).
  pose proof Hg as [(I1 & I2) Hn Hd Hv (Hs1 & Hs2) Hll].
  assert (u32 p = p) as Hu by (apply uwrap_small; lia).
  assert (0 < zlen (order q)) as Hpos by (rewrite Ho, zlen_app, zlen_cons; pose proof (zlen_nonneg (above ++ map (pair p) l1)); pose proof (zlen_nonneg (map (pair p) l2 ++ below)); lia).
  unfold Erase. cbn [node_pointer priority_ iterator_ id_]. rewrite Hu, !DCHECK_true, Hl; [|apply bool_decide_eq_true, Hv; by exists (p, x)|lia|lia].
  cbn [mbind outcome_bind option_bind]. rewrite Hfind, DCHECK_true by (apply Z.eqb_refl). eexists. split; [done|].
  rewrite delete_middle. set (q' := Queue _ _ _ _ _). set (A := above ++ map (pair p) l1) in *. set (B := map (pair p) l2 ++ below) in *.
  assert (order q' = A ++ B) as Ho' by exact Hdel.
  assert (zlen (order q) = zlen (order q') + 1) as Hz by (rewrite Ho, Ho', !zlen_app, zlen_cons; lia).
  assert (Forall (fun e => n_addr (snd e) <> n_addr x) (A ++ B)) as Hne.
  { rewrite Ho in Hd. apply Forall_forall. intros e He Ee.
    assert (NoDup (map (fun e => n_addr (snd e)) ((p, x) :: A ++ B))) as Hd' by (by rewrite Permutation_middle).
    cbn [map snd] in Hd'. apply NoDup_cons in Hd' as [Hd' _]. apply Hd'. rewrite <- Ee. by apply (list_elem_of_fmap_2 (fun e => n_addr (snd e))). }
  split_and!; [|rewrite Ho', Ho, list.filter_app, filter_cons_False, <- list.filter_app, filter_all by (done || (cbn; tauto)); done|unfold zlen, q'; cbn; by rewrite length_insert|done].
  assert (forall e, e ∈ order q' -> e ∈ order q) as Hsub.
  { intros e. rewrite Ho, Ho', !elem_of_app, elem_of_cons. tauto. }
  split.
  - done.
  - apply Forall_forall. intros e He. rewrite Forall_forall in Hn. by apply Hn, Hsub.
  - rewrite Ho'. rewrite Ho in Hd. rewrite <- Permutation_middle in Hd. cbn [map] in Hd. by apply NoDup_cons in Hd as [_ Hd].
  - intros i. change (valid_ids_ q') with (valid_ids_ q ∖ {[n_id x]}). rewrite elem_of_difference, elem_of_singleton, Hv. split.
    + intros [(e & He & Hi) Hix]. exists e. split; [|done]. rewrite Ho, elem_of_app, elem_of_cons in He. rewrite Ho', elem_of_app.
      destruct He as [He|[->|He]]; [by left|done|by right].
    + intros (e & He & Hi). split; [exists e; by split; [apply Hsub|]|]. intros ->. rewrite Ho' in He. rewrite Forall_forall in Hne, Hn.
      apply (Hne e He). destruct (Hn e) as [E1 _]; [rewrite Ho' in Hsub; by apply Hsub|]. destruct (Hn (p, x) Hx) as [E2 _]. cbn [snd] in *. lia.
  - change (size_ q') with (u64 (size_ q - 1)). change (next_id_ q') with (next_id_ q). rewrite Hs1, Hz, uwrap_small; [lia|]. pose proof (zlen_nonneg (order q')). change (2 ^ 64) with (2 ^ 32 * 2 ^ 32). lia.
  - unfold q', zlen in *. cbn. by rewrite length_insert.
Qed.
Lemma erase_stale q p : id_ p ∉ valid_ids_ q -> Erase p q = Fault AssertFail.
Proof.
  intros H. unfold Erase, DCHECK, guard_or. cbn [negb orb]. destruct (_ <? _); [|done]. destruct (0 <? _); [|done].
  by rewrite bool_decide_eq_false_2.
Qed.

(** ** Walking down *)
Lemma next_ok q j p x : good q -> order q !! j = Some (p, x) ->
  GetNextTowardsLastMin (node_pointer p x) q = Ret (pointer_to (order q !! S j)).
Proof.
  intros Hg Hj. pose proof (list_elem_of_lookup_2 _ _ _ Hj) as Hx.
  destruct (node_split q p x Hg Hx) as (l1 & l2 & above & below & Hp & Hl & Hfind & Ho & Hb & _).
  destruct Hg as [_ _ Hd _ _ Hll]. assert (u32 p = p) as Hu by (apply uwrap_small; lia).
  assert (order q !! S j = head (map (pair p) l2 ++ below)) as ->.
  { assert (forall (l : list (Z * node)) i, l !! i = head (drop i l)) as Hhead by (intros l i; revert l; induction i as [|i IH]; intros [|? l]; [done..|apply IH]).
    destruct (map_injective_split (fun e => n_addr (snd e)) (take j (order q)) (drop (S j) (order q)) (above ++ map (pair p) l1) (map (pair p) l2 ++ below) (p, x) (p, x)) as (_ & _ & Ed).
    - by rewrite take_drop_middle.
    - by rewrite <- Ho, take_drop_middle.
    - done.
    - by rewrite <- Ed, Hhead. }
  unfold GetNextTowardsLastMin, is_null, kNullPriority. cbn [node_pointer priority_ iterator_]. rewrite Hu.
  assert (Z.of_nat (length (take (Z.to_nat p) (lists_ q))) = p) as Ht by (rewrite length_take; unfold zlen in Hp; lia).
  change (u32 (-1)) with (2 ^ 32 - 1). rewrite !DCHECK_true; [|lia|lia]. rewrite Hl. cbn [mbind outcome_bind]. rewrite Hfind. f_equal.
  rewrite lookup_app_r by lia. replace (S (length l1) - length l1)%nat with 1%nat by lia. cbn [lookup list_lookup].
  destruct l2 as [|y l2]; [|done]. cbn [map app]. rewrite Hb, <- max_head. cbn [list_lookup]. unfold zlen. by rewrite Ht.
Qed.

Lemma flat_nil ls : Forall (fun l => l = []) ls -> forall i, flat ls i = [].
Proof. induction 1 as [|l ls -> _ IH]; intros i; [done|]. cbn [flat map]. by rewrite IH. Qed.
Lemma clear_ok q : good q -> good (Clear q) /\ order (Clear q) = [] /\ zlen (lists_ (Clear q)) = zlen (lists_ q).
Proof.
  intros [Hi _ _ _ [_ Hs] Hl].
  assert (order (Clear q) = []) as Ho.
  { apply flat_nil, Forall_forall. intros l H. by apply list_elem_of_fmap in H as (? & -> & _). }
  assert (zlen (lists_ (Clear q)) = zlen (lists_ q)) as Hz by (unfold zlen; cbn; by rewrite length_map).
  split_and!; [|done|done]. split; rewrite ?Ho, ?Hz; try done; [by apply NoDup_nil| |].
  - intros i. cbn. split; [by intros ?%not_elem_of_empty|]. intros (e & He & _). by apply not_elem_of_nil in He.
  - split; [done|]. cbn. pose proof (zlen_nonneg (order q)). change (zlen (@nil (Z * node))) with 0. lia.
Qed.
Lemma new_ok n : 0 <= n < 2 ^ 32 -> good (new_queue n) /\ order (new_queue n) = [] /\ zlen (lists_ (new_queue n)) = n.
Proof.
  intros Hn. assert (order (new_queue n) = []) as Ho.
  { apply flat_nil, Forall_replicate. done. }
  assert (zlen (lists_ (new_queue n)) = n) as Hz by (unfold zlen; cbn; rewrite length_replicate; lia).
  split_and!; [|done|done]. split; rewrite ?Ho, ?Hz; try done. 1: by apply NoDup_nil. 2: lia.
  intros i. cbn. split; [by intros ?%not_elem_of_empty|]. intros (e & He & _). by apply not_elem_of_nil in He.
Qed.

(** * Runs
    The caller keeps the pointers it got, and erases by them. *)
Inductive queue_op := QInsert (front : bool) (value : T) (priority : Z) | QErase (k : nat) | QClear.
Definition run_op (s : queue * list pointer) (o : queue_op) : outcome (queue * list pointer) :=
  let '(q, ptrs) := s in
  match o with
  | QInsert front v p => '(ptr, q) ← insert_node front v p q; Ret (q, ptrs ++ [ptr])
  | QErase k => match ptrs !! k with Some p => q ← Erase p q; Ret (q, ptrs) | None => Ret (q, ptrs) end
  | QClear => Ret (Clear q, ptrs)
  end.
Fixpoint run_ops (s : queue * list pointer) (os : list queue_op) : outcome (queue * list pointer) :=
  match os with [] => Ret s | o :: os => s ← run_op s o; run_ops s os end.

(** The specification: the values in order, and how many were inserted; the k-th
    value inserted is node k. *)
Definition spec_op (s : list (Z * node) * nat) (o : queue_op) : list (Z * node) * nat :=
  let '(l, n) := s in
  match o with
  | QInsert front v p => (spec_insert front p (Node n (Z.of_nat n) v) l, S n)
  | QErase k => (filter (fun e => n_addr (snd e) <> k) l, n)
  | QClear => ([], n)
  end.
Definition queue_allowed (np : Z) (s : list (Z * node) * nat) (o : queue_op) : bool :=
  match o with
  | QInsert _ _ p => (0 <=? p) && (p <? np) && (Z.of_nat (snd s) + 1 <? 2 ^ 32)
  | QErase k => existsb (fun e => Nat.eqb (n_addr (snd e)) k) (fst s)
  | QClear => true
  end.
Fixpoint queue_all_allowed (np : Z) (s : list (Z * node) * nat) (os : list queue_op) : bool :=
  match os with [] => true | o :: os => queue_allowed np s o && queue_all_allowed np (spec_op s o) os end.

(** The queue and the caller's pointers implement a state of the specification. *)
Definition sound (np : Z) (s : queue * list pointer) (t : list (Z * node) * nat) : Prop :=
  let '(q, ptrs) := s in let '(l, n) := t in
  good q /\ order q = l /\ zlen (lists_ q) = np /\ next_addr q = n /\ length ptrs = n /\
  (forall k p, ptrs !! k = Some p -> id_ p = Z.of_nat k) /\
  (forall p x, (p, x) ∈ l -> ptrs !! n_addr x = Some (node_pointer p x)).

Lemma spec_insert_elem front p x l e : e ∈ spec_insert front p x l -> e = (p, x) \/ e ∈ l.
Proof.
  unfold spec_insert. destruct front; rewrite elem_of_app, elem_of_cons, !list_elem_of_filter; tauto.
Qed.
Lemma run_op_sound np s t o : sound np s t -> queue_allowed np t o = true ->
  exists s', run_op s o = Ret s' /\ sound np s' (spec_op t o).
Proof.
  destruct s as [q ptrs], t as [l n]. intros (Hg & Ho & Hz & Hn & Hlen & Hid & Hptr) Ha. pose proof Hg as [(I1 & I2) _ _ _ _ _].
  destruct o as [front v p|k|]; cbn [run_op spec_op queue_allowed fst snd] in *.
  - rewrite !andb_true_iff in Ha. destruct (insert_ok front v p q Hg) as (q' & -> & Hg' & Ho' & Hz' & Hn'); [lia|lia|].
    eexists. split; [done|]. rewrite I1, Hn, Ho in Ho'. rewrite I1, Hn. split_and!; [done|done|lia|lia|rewrite length_app; cbn; lia| |].
    + intros k ptr. rewrite lookup_app_Some. intros [H|[Hk H]]; [by apply Hid|]. apply list_lookup_singleton_Some in H as [Hk0 <-]. cbn. lia.
    + intros p' x' [E|H]%spec_insert_elem.
      * injection E as -> ->. cbn [n_addr]. rewrite lookup_app_r by lia. by rewrite Hlen, Nat.sub_diag.
      * apply lookup_app_l_Some. by apply Hptr.
  - apply existsb_exists in Ha as ([p x] & Hx & E). apply Nat.eqb_eq in E. cbn [snd] in E. apply list_elem_of_In in Hx. subst k.
    rewrite (Hptr p x Hx). rewrite <- Ho in Hx. destruct (erase_ok q p x Hg Hx) as (q' & -> & Hg' & Ho' & Hz' & Hn').
    eexists. split; [done|]. rewrite Ho in Ho'. split_and!; [done|done|lia|lia|done|done|]. intros p' x' H. apply Hptr. by apply list_elem_of_filter in H as [_ H].
  - destruct (clear_ok q Hg) as (Hg' & Ho' & Hz'). eexists. split; [done|]. split_and!; [done|done|lia|done|done|done|].
    intros p x H. by apply not_elem_of_nil in H.
Qed.
Lemma run_ops_sound np os : forall s t, sound np s t -> queue_all_allowed np t os = true ->
  exists s', run_ops s os = Ret s' /\ sound np s' (fold_left spec_op os t).
Proof.
  induction os as [|o os IH]; intros s t Hs H; cbn [run_ops queue_all_allowed fold_left] in *; [by exists s|].
  apply andb_true_iff in H as [Ho H]. destruct (run_op_sound np s t o Hs Ho) as (s' & -> & Hs'). by apply IH.
Qed.

(** Priority queues.  Any insertions at the back or the front of a priority,
    erasures by pointer and clearing leave the values in the order of the
    specification - by falling priority, and first in first within one: the four
    ends of the queue are those of that order, a pointer of each value is still
    good and leads to the next one, and erasing a value that is gone is stopped by
    an assertion. *)
Theorem priority_queue_refines (np : Z) (os : list queue_op) :
  0 <= np < 2 ^ 32 -> queue_all_allowed np ([], O) os = true ->
  exists q ptrs, run_ops (new_queue np, []) os = Ret (q, ptrs) /\
    let l := fst (fold_left spec_op os ([], O)) in
    let level := fun e => filter (fun e' : Z * node => fst e' = fst e) l in
    (size q = zlen l /\ empty q = bool_decide (l = []) /\ num_priorities q = np) /\
    (FirstMax q = pointer_to (head l) /\ LastMin q = pointer_to (last l) /\
     FirstMin q = pointer_to (last l ≫= fun e => head (level e)) /\ LastMax q = pointer_to (head l ≫= fun e => last (level e))) /\
    (forall j p x, l !! j = Some (p, x) -> ptrs !! n_addr x = Some (node_pointer p x) /\
       GetNextTowardsLastMin (node_pointer p x) q = Ret (pointer_to (l !! S j))) /\
    (forall k ptr, ptrs !! k = Some ptr -> existsb (fun e => Nat.eqb (n_addr (snd e)) k) l = false -> Erase ptr q = Fault AssertFail).
Proof.
  intros Hnp Hall. destruct (new_ok np Hnp) as (Hg0 & Ho0 & Hz0).
  destruct (run_ops_sound np os (new_queue np, []) ([], O)) as ([q ptrs] & Hr & Hs); [|done|].
  { split_and!; try done. intros p x H. by apply not_elem_of_nil in H. }
  exists q, ptrs. split; [done|]. cbv zeta. destruct (fold_left spec_op os ([], O)) as [l n]. cbn [fst].
  destruct Hs as (Hg & <- & Hz & _ & _ & Hid & Hptr). pose proof Hg as [_ Hn _ Hv (Hs1 & _) _]. split_and!.
  - done.
  - unfold empty. rewrite Hs1. destruct (order q) as [|e l]; [done|]. rewrite zlen_cons, bool_decide_eq_false_2 by done. pose proof (zlen_nonneg l). lia.
  - done.
  - apply max_head.
  - apply min_last.
  - apply min_head.
  - apply max_last.
  - intros j p x Hj. split; [apply Hptr; by eapply list_elem_of_lookup_2|by apply next_ok].
  - intros k ptr Hk Hout. apply erase_stale. rewrite (Hid k ptr Hk), Hv. intros (e & He & Hi). rewrite Forall_forall in Hn. destruct (Hn e He) as [E _].
    assert (existsb (fun e => Nat.eqb (n_addr (snd e)) k) (order q) = true); [|congruence]. apply existsb_exists. exists e. split; [by apply list_elem_of_In|].
    apply Nat.eqb_eq. lia.
Qed.
End Queue.

Lemma priority_queue_refines_witness :
  exists q ptrs, run_ops (new_queue 3, []) [QInsert false 10 1; QInsert false 11 2; QInsert true 12 1; QErase 0] = Ret (q, ptrs) /\
    size q = 2 /\ FirstMax q = Pointer 2 (Some 1%nat) 1 /\ FirstMin q = Pointer 1 (Some 2%nat) 2.
Proof.
  destruct (priority_queue_refines 3 [QInsert false 10 1; QInsert false 11 2; QInsert true 12 1; QErase 0] ltac:(lia) eq_refl)
    as (q & ptrs & Hr & (Hs & _) & (H1 & _ & H2 & _) & _).
  exists q, ptrs. split; [exact Hr|]. split; [exact Hs|]. split; [exact H1|exact H2].
Defined.
