(* ===== verification/Utf8.v ===== *)
(** UTF-8 and UTF-16: the macros of [base/third_party/icu/icu_utf.h] with their
    out-of-line part in [icu_utf.cc], [base/strings/utf_string_conversion_utils.cc],
    [utf_string_conversions.cc] and [IsStringUTF8]. *)
From Stdlib Require Import ZArith Lia Bool.
From stdpp Require Import base list numbers.
From S2P Require Import Prelude.

Open Scope Z_scope.

(** Reading a character of a string at an offset. *)
Definition char_at (s : list Z) (i : Z) : outcome Z :=
  if i <? 0 then Fault OutOfBounds else match s !! Z.to_nat i with Some b => Ret b | None => Fault OutOfBounds end.

(** * The macros *)
Definition CBU_SENTINEL : Z := -1.
Definition CBU_IS_SURROGATE (c : Z) : bool := Z.land c 0xfffff800 =? 0xd800.
Definition CBU8_IS_LEAD (c : Z) : bool := u8 (c - 0xc0) <? 0x3e.
Definition CBU8_IS_TRAIL (c : Z) : bool := Z.land c 0xc0 =? 0x80.
(** The table, by the ranges of its rows. *)
Definition utf8_countTrailBytes (b : Z) : Z :=
  if b <? 0xc0 then 0 else if b <? 0xe0 then 1 else if b <? 0xf0 then 2 else if b <? 0xf8 then 3
  else if b <? 0xfc then 4 else if b <? 0xfe then 5 else 0.
Definition utf8_minLegal (count : Z) : Z := if count =? 3 then 0x10000 else if count =? 2 then 0x800 else if count =? 1 then 0x80 else 0.

(** One trail byte: the new [c], [illegal] and [i]. *)
Definition trail_byte (s : list Z) (c illegal i : Z) : outcome (Z * Z * Z) :=
  trail ← char_at s i;
  Ret (Z.lor (Z.shiftl c 6) (Z.land trail 0x3f), Z.lor illegal (Z.lxor (Z.land trail 0xc0) 0x80), i + 1).
(** The cases 2 and 1 of the switch. *)
Definition two_trails (s : list Z) (c illegal i : Z) : outcome (Z * Z * Z) :=
  '(c, illegal, i) ← trail_byte s c illegal i; trail_byte s c illegal i.
(** The loops that skip the trail bytes of an illegal sequence, at most [n]. *)
Fixpoint skip_trails (n : nat) (s : list Z) (i : Z) : outcome Z :=
  match n with
  | O => Ret i
  | S n => b ← char_at s i; if CBU8_IS_TRAIL b then skip_trails n s (i + 1) else Ret i
  end.

(** [utf8_nextCharSafeBody] with [strict] below 0, from the byte behind the lead byte
    [c]. *)
Definition utf8_nextCharSafeBody (s : list Z) (pi length c : Z) : outcome (Z * Z) :=
  let count := utf8_countTrailBytes (u8 c) in
  if pi + count <=? length then
    let c := Z.land c (Z.shiftl 1 (6 - count) - 1) in
    if count =? 0 then Ret (CBU_SENTINEL, pi)
    else
      '(c, illegal, i) ← (if 4 <=? count then Ret (c, 1, pi)
                          else if count =? 3 then
                            '(c, illegal, i) ← trail_byte s c 0 pi;
                            if c <? 0x110 then two_trails s c illegal i else Ret (c, 1, i)
                          else if count =? 2 then two_trails s c 0 pi
                          else trail_byte s c 0 pi);
      if negb (illegal =? 0) || (c <? utf8_minLegal count) || CBU_IS_SURROGATE c then
        i ← skip_trails (Z.to_nat count) s pi; Ret (CBU_SENTINEL, i)
      else Ret (c, i)
  else i ← skip_trails (Z.to_nat (length - pi)) s pi; Ret (CBU_SENTINEL, i).

Definition CBU8_NEXT (s : list Z) (i length : Z) : outcome (Z * Z) :=
  c ← char_at s i;
  let i := i + 1 in
  if 0x80 <=? c then if CBU8_IS_LEAD c then utf8_nextCharSafeBody s i length c else Ret (CBU_SENTINEL, i)
  else Ret (c, i).

(** The bytes [CBU8_APPEND_UNSAFE] stores. *)
Definition CBU8_APPEND_UNSAFE (c : Z) : bytes :=
  let last := u8 (Z.lor (Z.land c 0x3f) 0x80) in
  let mid := u8 (Z.lor (Z.land (Z.shiftr c 6) 0x3f) 0x80) in
  if u32 c <=? 0x7f then [u8 c]
  else if u32 c <=? 0x7ff then [u8 (Z.lor (Z.shiftr c 6) 0xc0); last]
  else if u32 c <=? 0xffff then [u8 (Z.lor (Z.shiftr c 12) 0xe0); mid; last]
  else [u8 (Z.lor (Z.shiftr c 18) 0xf0); u8 (Z.lor (Z.land (Z.shiftr c 12) 0x3f) 0x80); mid; last].

Definition CBU16_IS_SURROGATE_LEAD (c : Z) : bool := Z.land c 0x400 =? 0.
Definition CBU16_IS_TRAIL (c : Z) : bool := Z.land c 0xfffffc00 =? 0xdc00.
Definition CBU16_SURROGATE_OFFSET : Z := Z.shiftl 0xd800 10 + 0xdc00 - 0x10000.
Definition CBU16_GET_SUPPLEMENTARY (lead trail : Z) : Z := Z.shiftl lead 10 + trail - CBU16_SURROGATE_OFFSET.
Definition CBU16_LENGTH (c : Z) : Z := if u32 c <=? 0xffff then 1 else 2.
(** The units [CBU16_APPEND_UNSAFE] stores. *)
Definition CBU16_APPEND_UNSAFE (c : Z) : list Z :=
  if u32 c <=? 0xffff then [u16 c] else [u16 (Z.shiftr c 10 + 0xd7c0); u16 (Z.lor (Z.land c 0x3ff) 0xdc00)].

(** * Characters *)
Definition IsValidCodepoint (c : Z) : bool := (c <? 0xD800) || ((0xE000 <=? c) && (c <=? 0x10FFFF)).
Definition IsValidCharacter (c : Z) : bool :=
  (c <? 0xD800) || ((0xE000 <=? c) && (c <? 0xFDD0)) || ((0xFDEF <? c) && (c <=? 0x10FFFF) && negb (Z.land c 0xFFFE =? 0xFFFE)).

(** [ReadUnicodeCharacter]: whether it is valid, the index of its last unit, and the
    code point. *)
Definition ReadUnicodeCharacter8 (src : list Z) (src_len i : Z) : outcome (bool * Z * Z) :=
  '(c, i) ← CBU8_NEXT src i src_len; Ret (IsValidCodepoint (u32 c), i - 1, u32 c).
Definition ReadUnicodeCharacter16 (src : list Z) (src_len i : Z) : outcome (bool * Z * Z) :=
  c ← char_at src i;
  if CBU_IS_SURROGATE c then
    if negb (CBU16_IS_SURROGATE_LEAD c) || (src_len <=? i + 1) then Ret (false, i, 0)
    else
      t ← char_at src (i + 1);
      if negb (CBU16_IS_TRAIL t) then Ret (false, i, 0)
      else let cp := u32 (CBU16_GET_SUPPLEMENTARY c t) in Ret (IsValidCodepoint cp, i + 1, cp)
  else Ret (IsValidCodepoint c, i, c).

(** [WriteUnicodeCharacter]: what is appended. *)
Definition WriteUnicodeCharacter8 (cp : Z) : bytes := if cp <=? 0x7f then [u8 cp] else CBU8_APPEND_UNSAFE cp.
Definition WriteUnicodeCharacter16 (cp : Z) : list Z := if CBU16_LENGTH cp =? 1 then [u16 cp] else CBU16_APPEND_UNSAFE cp.

(** * Conversions *)
Section Convert.
Context (Read : list Z -> Z -> Z -> outcome (bool * Z * Z)) (Write : Z -> list Z).

(** The loop of [ConvertUnicode], which adds to the output. *)
Fixpoint ConvertUnicode_loop (fuel : nat) (src : list Z) (src_len32 i : Z) (success : bool) (output : list Z) : outcome (bool * list Z) :=
  if i <? src_len32 then
    match fuel with
    | O => Fault OutOfFuel
    | S fuel =>
        '(ok, i, code_point) ← Read src src_len32 i;
        if (ok : bool) then ConvertUnicode_loop fuel src src_len32 (i + 1) success (output ++ Write code_point)
        else ConvertUnicode_loop fuel src src_len32 (i + 1) false (output ++ Write 0xFFFD)
    end
  else Ret (success, output).
Definition ConvertUnicode (src : list Z) : outcome (bool * list Z) :=
  ConvertUnicode_loop (length src) src (s32 (zlen src)) 0 true [].
End Convert.

Definition UTF8ToUTF16 : bytes -> outcome (bool * list Z) := ConvertUnicode ReadUnicodeCharacter8 WriteUnicodeCharacter16.
Definition UTF16ToUTF8 : list Z -> outcome (bool * bytes) := ConvertUnicode ReadUnicodeCharacter16 WriteUnicodeCharacter8.

(** [IsStringUTF8], which is stricter than the conversions: non-characters are
    refused. *)
Fixpoint IsStringUTF8_loop (fuel : nat) (src : bytes) (src_len char_index : Z) : outcome bool :=
  if char_index <? src_len then
    match fuel with
    | O => Fault OutOfFuel
    | S fuel =>
        '(code_point, char_index) ← CBU8_NEXT src char_index src_len;
        if IsValidCharacter (u32 code_point) then IsStringUTF8_loop fuel src src_len char_index else Ret false
    end
  else Ret true.
Definition IsStringUTF8 (s : bytes) : outcome bool := IsStringUTF8_loop (length s) s (s32 (zlen s)) 0.
