(* ===== verification/Utf8Proofs.v ===== *)
(** UTF-8 and UTF-16: [CBU8_NEXT] against the encoding in numbers, and what the
    conversions of whole strings promise. *)
From Stdlib Require Import ZArith Lia Bool.
From stdpp Require Import base list numbers.
From S2P Require Import Prelude Utf8.

Open Scope Z_scope.

#[local] Ltac Zify.zify_post_hook ::= Z.to_euclidean_division_equations.

(** * Bits as arithmetic *)
Lemma char_at_app (p r : list Z) k : 0 <= k -> char_at (p ++ r) (zlen p + k) = char_at r k.
Proof.
  intros. unfold char_at, zlen. destruct (Z.ltb_spec k 0); [lia|]. destruct (Z.ltb_spec (Z.of_nat (length p) + k) 0); [lia|].
  rewrite lookup_app_r by lia. by replace (Z.to_nat (Z.of_nat (length p) + k) - length p)%nat with (Z.to_nat k) by lia.
Qed.
Lemma char_at_head (p r : list Z) b : char_at (p ++ b :: r) (zlen p) = Ret b.
Proof. rewrite <- (Z.add_0_r (zlen p)). by rewrite char_at_app by lia. Qed.
Lemma char_at_next (p r : list Z) b k : 0 <= k -> char_at (p ++ b :: r) (zlen p + 1 + k) = char_at r k.
Proof.
  intros. replace (zlen p + 1 + k) with (zlen (p ++ [b]) + k) by (rewrite zlen_app; change (zlen [b]) with 1; lia).
  replace (p ++ b :: r) with ((p ++ [b]) ++ r) by (by rewrite <- app_assoc). by apply char_at_app.
Qed.
Lemma char_at_skip (p r : list Z) b i : zlen p < i -> char_at (p ++ b :: r) i = char_at r (i - zlen p - 1).
Proof. intros. replace i with (zlen p + 1 + (i - zlen p - 1)) at 1 by lia. apply char_at_next. lia. Qed.
Lemma lor_high a x n : 0 <= n -> 0 <= x < 2 ^ n -> Z.lor x (a * 2 ^ n) = a * 2 ^ n + x.
Proof. intros. rewrite Z.lor_comm, <- Z.shiftl_mul_pow2 by lia. rewrite lor_shiftl_add by lia. rewrite Z.shiftl_mul_pow2 by lia. done. Qed.
Lemma land_mod x n : 0 <= n -> Z.land x (2 ^ n - 1) = x mod 2 ^ n.
Proof. intros. replace (2 ^ n - 1) with (Z.ones n) by (rewrite Z.ones_equiv; lia). by apply Z.land_ones. Qed.
Lemma trail_char x : 0 <= x < 64 -> u8 (Z.lor x 0x80) = 128 + x.
Proof. intros. change 0x80 with (2 * 2 ^ 6). rewrite lor_high by powlia. apply uwrap_small. change (2 ^ 8) with 256. lia. Qed.

(** The encodings, in numbers. *)
Lemma append_1 c : 0 <= c <= 0x7f -> CBU8_APPEND_UNSAFE c = [c].
Proof. intros. unfold CBU8_APPEND_UNSAFE. rewrite (uwrap_small 32), (uwrap_small 8) by (cbn; lia). destruct (c <=? _) eqn:?; [done|lia]. Qed.
Lemma low6 c : Z.land c 0x3f = c mod 64.
Proof. apply (land_mod c 6). lia. Qed.
Lemma append_2 c : 0x7f < c <= 0x7ff -> CBU8_APPEND_UNSAFE c = [0xc0 + c / 64; 0x80 + c mod 64].
Proof.
  intros. unfold CBU8_APPEND_UNSAFE. rewrite (uwrap_small 32) by (cbn; lia). destruct (c <=? 0x7f) eqn:?, (c <=? 0x7ff) eqn:?; try lia.
  rewrite low6, trail_char by (apply Z.mod_pos_bound; lia). rewrite Z.shiftr_div_pow2 by lia. change (2 ^ 6) with 64. change 0xc0 with (3 * 2 ^ 6).
  rewrite lor_high by powlia. rewrite uwrap_small by (cbn; lia). done.
Qed.
Lemma append_3 c : 0x7ff < c <= 0xffff -> CBU8_APPEND_UNSAFE c = [0xe0 + c / 4096; 0x80 + c / 64 mod 64; 0x80 + c mod 64].
Proof.
  intros. unfold CBU8_APPEND_UNSAFE. rewrite (uwrap_small 32) by (cbn; lia). destruct (c <=? 0x7f) eqn:?, (c <=? 0x7ff) eqn:?, (c <=? 0xffff) eqn:?; try lia.
  rewrite !low6, !trail_char by (apply Z.mod_pos_bound; lia). rewrite !Z.shiftr_div_pow2 by lia. change (2 ^ 6) with 64. change (2 ^ 12) with 4096.
  change 0xe0 with (14 * 2 ^ 4). rewrite lor_high by powlia. rewrite uwrap_small by (cbn; lia). done.
Qed.
Lemma append_4 c : 0xffff < c <= 0x10ffff ->
  CBU8_APPEND_UNSAFE c = [0xf0 + c / 262144; 0x80 + c / 4096 mod 64; 0x80 + c / 64 mod 64; 0x80 + c mod 64].
Proof.
  intros. unfold CBU8_APPEND_UNSAFE. rewrite (uwrap_small 32) by (cbn; lia). destruct (c <=? 0x7f) eqn:?, (c <=? 0x7ff) eqn:?, (c <=? 0xffff) eqn:?; try lia.
  rewrite !low6, !trail_char by (apply Z.mod_pos_bound; lia). rewrite !Z.shiftr_div_pow2 by lia. change (2 ^ 6) with 64. change (2 ^ 12) with 4096. change (2 ^ 18) with 262144.
  change 0xf0 with (30 * 2 ^ 3). rewrite lor_high by powlia. rewrite uwrap_small by (cbn; lia). done.
Qed.

(** ** One trail byte *)
Definition is_trail (t : Z) : bool := (0x80 <=? t) && (t <? 0xc0).
Lemma trail_bits t : is_byte t -> CBU8_IS_TRAIL t = is_trail t /\ (Z.lxor (Z.land t 0xc0) 0x80 =? 0) = is_trail t.
Proof.
  intros Ht. pose proof (byte_check (fun t => Bool.eqb (CBU8_IS_TRAIL t) (is_trail t) && Bool.eqb (Z.lxor (Z.land t 0xc0) 0x80 =? 0) (is_trail t))
    ltac:(by vm_compute) t Ht) as H. apply andb_true_iff in H as [H1 H2]. by apply eqb_prop in H1, H2.
Qed.
Lemma trail_byte_spec s c illegal i t : is_byte t -> char_at s i = Ret t ->
  exists bad, trail_byte s c illegal i = Ret (c * 64 + t mod 64, Z.lor illegal bad, i + 1) /\ (bad =? 0) = is_trail t.
Proof.
  intros Ht E. unfold trail_byte. rewrite E. obind. exists (Z.lxor (Z.land t 0xc0) 0x80). split; [|by apply trail_bits].
  rewrite low6, lor_shiftl_add by (lia || apply (Z.mod_pos_bound t 64); lia). done.
Qed.
Lemma lor_zero a b : (Z.lor a b =? 0) = (a =? 0) && (b =? 0).
Proof.
  destruct (Z.lor a b =? 0) eqn:E.
  - apply Z.eqb_eq, Z.lor_eq_0_iff in E as [-> ->]. done.
  - destruct (a =? 0) eqn:Ea; [|done]. destruct (b =? 0) eqn:Eb; [|done]. apply Z.eqb_eq in Ea, Eb. by subst.
Qed.
Lemma skip_trails_range n : forall s i, 0 <= i -> i + Z.of_nat n <= zlen s -> exists i', skip_trails n s i = Ret i' /\ i <= i' <= i + Z.of_nat n.
Proof.
  induction n as [|n IH]; intros s i Hi Hl; cbn [skip_trails]; [exists i; split; [done|lia]|].
  assert (exists b, char_at s i = Ret b) as [b Hb].
  { unfold char_at. destruct (i <? 0) eqn:?; [lia|]. destruct (s !! Z.to_nat i) eqn:E; [by eexists|]. apply lookup_ge_None in E. unfold zlen in Hl. lia. }
  rewrite Hb. obind. destruct (CBU8_IS_TRAIL b); [|exists i; split; [done|lia]]. destruct (IH s (i + 1)) as (i' & -> & ?); [lia..|]. exists i'. split; [done|lia].
Qed.

(** ** Lead bytes *)
Lemma lead_byte b : is_byte b -> CBU8_IS_LEAD b = (0xc0 <=? b) && (b <? 0xfe).
Proof.
  intros Hb. pose proof (byte_check (fun b => Bool.eqb (CBU8_IS_LEAD b) ((0xc0 <=? b) && (b <? 0xfe))) ltac:(by vm_compute) b Hb) as H. by apply eqb_prop in H.
Qed.
Lemma surrogate_range c : 0 <= c <= 0x10ffff -> CBU_IS_SURROGATE c = (0xd800 <=? c) && (c <=? 0xdfff).
Proof.
  intros. unfold CBU_IS_SURROGATE. assert (Z.land c 0xfffff800 = c / 2048 * 2048) as ->.
  { replace (c / 2048 * 2048) with (Z.shiftl (Z.shiftr c 11) 11) by (by rewrite Z.shiftl_mul_pow2, Z.shiftr_div_pow2 by lia).
    apply Z.bits_inj'. intros i Hi. rewrite Z.land_spec. change 0xfffff800 with (Z.shiftl (Z.ones 21) 11).
    destruct (Z.lt_ge_cases i 11).
    - rewrite !Z.shiftl_spec_low by lia. apply andb_false_r.
    - rewrite !Z.shiftl_spec, Z.shiftr_spec by lia. replace (i - 11 + 11) with i by lia. destruct (Z.lt_ge_cases (i - 11) 21).
      + rewrite Z.ones_spec_low by lia. apply andb_true_r.
      + rewrite Z.ones_spec_high by lia. rewrite andb_false_r. symmetry. rewrite <- (Z.mod_small c (2 ^ 21)) by (cbn; lia). apply Z.mod_pow2_bits_high. lia. }
  lia.
Qed.

(** ** One character *)
Definition illegal_at (s : list Z) (n : nat) (i : Z) : outcome (Z * Z) := i ← skip_trails n s i; Ret (CBU_SENTINEL, i).
Section Next.
Context (p : list Z) (len : Z).
Lemma next_lead b r : is_byte b -> 0xc0 <= b < 0xfe -> CBU8_NEXT (p ++ b :: r) (zlen p) len = utf8_nextCharSafeBody (p ++ b :: r) (zlen p + 1) len b.
Proof.
  intros Hb ?. unfold CBU8_NEXT. rewrite char_at_head. obind. destruct (Z.leb_spec 0x80 b); [|lia]. rewrite lead_byte by done.
  destruct (Z.leb_spec 0xc0 b); [|lia]. by destruct (Z.ltb_spec b 0xfe); [|lia].
Qed.
Ltac at_trail := rewrite ?char_at_skip by lia; rewrite ?char_at_skip by lia; unfold char_at;
  repeat match goal with |- context [?x <? 0] => destruct (Z.ltb_spec x 0); [lia|] end;
  repeat match goal with |- context [Z.to_nat ?x] => first [change (Z.to_nat x) with 0%nat | replace (Z.to_nat x) with 0%nat by lia | replace (Z.to_nat x) with 1%nat by lia | replace (Z.to_nat x) with 2%nat by lia] end; done.
Lemma count_of b k : is_byte b -> (k = 1 /\ 0xc0 <= b < 0xe0 \/ k = 2 /\ 0xe0 <= b < 0xf0 \/ k = 3 /\ 0xf0 <= b < 0xf8) -> utf8_countTrailBytes (u8 b) = k.
Proof.
  intros Hb Hk. unfold is_byte in Hb. rewrite uwrap_small by powlia. unfold utf8_countTrailBytes. repeat match goal with |- context [b <? ?n] => destruct (Z.ltb_spec b n) end; lia.
Qed.

Lemma next_2 b t r : 0xc0 <= b < 0xe0 -> is_byte t -> zlen p + 2 <= len ->
  let c := (b - 0xc0) * 64 + t mod 64 in
  CBU8_NEXT (p ++ b :: t :: r) (zlen p) len =
    if is_trail t && (0x80 <=? c) then Ret (c, zlen p + 2) else illegal_at (p ++ b :: t :: r) 1 (zlen p + 1).
Proof.
  intros Hb Ht Hl c. assert (is_byte b) by (unfold is_byte; lia). rewrite next_lead by (done || lia). unfold utf8_nextCharSafeBody. rewrite (count_of b 1) by (done || lia).
  destruct (Z.leb_spec (zlen p + 1 + 1) len); [|lia]. cbn [Z.eqb Z.leb Z.compare Pos.compare Pos.compare_cont Pos.eqb].
  change (Z.shiftl 1 (6 - 1) - 1) with (2 ^ 5 - 1). rewrite land_mod by lia. replace (b mod 2 ^ 5) with (b - 0xc0) by powlia.
  destruct (trail_byte_spec (p ++ b :: t :: r) (b - 0xc0) 0 (zlen p + 1) t Ht) as (bad & -> & Hbad); [at_trail|]. obind.
  rewrite lor_zero, Hbad. fold c. change (utf8_minLegal 1) with 0x80. rewrite surrogate_range by (unfold is_byte in *; lia). cbn [Z.eqb andb].
  replace ((0xd800 <=? c) && (c <=? 0xdfff)) with false by (unfold is_byte in *; lia). rewrite orb_false_r, Z.leb_antisym.
  destruct (is_trail t), (c <? 0x80); cbn [negb orb andb]; try done. do 2 f_equal. lia.
Qed.
Lemma next_3 b t u r : 0xe0 <= b < 0xf0 -> is_byte t -> is_byte u -> zlen p + 3 <= len ->
  let c := ((b - 0xe0) * 64 + t mod 64) * 64 + u mod 64 in
  CBU8_NEXT (p ++ b :: t :: u :: r) (zlen p) len =
    if is_trail t && is_trail u && (0x800 <=? c) && negb ((0xd800 <=? c) && (c <=? 0xdfff)) then Ret (c, zlen p + 3)
    else illegal_at (p ++ b :: t :: u :: r) 2 (zlen p + 1).
Proof.
  intros Hb Ht Hu Hl c. assert (is_byte b) by (unfold is_byte; lia). rewrite next_lead by (done || lia). unfold utf8_nextCharSafeBody. rewrite (count_of b 2) by (done || lia).
  destruct (Z.leb_spec (zlen p + 1 + 2) len); [|lia]. cbn [Z.eqb Z.leb Z.compare Pos.compare Pos.compare_cont Pos.eqb].
  change (Z.shiftl 1 (6 - 2) - 1) with (2 ^ 4 - 1). rewrite land_mod by lia. replace (b mod 2 ^ 4) with (b - 0xe0) by powlia. unfold two_trails.
  destruct (trail_byte_spec (p ++ b :: t :: u :: r) (b - 0xe0) 0 (zlen p + 1) t Ht) as (bad & -> & Hbad); [at_trail|]. obind.
  destruct (trail_byte_spec (p ++ b :: t :: u :: r) ((b - 0xe0) * 64 + t mod 64) (Z.lor 0 bad) (zlen p + 1 + 1) u Hu) as (bad2 & -> & Hbad2); [at_trail|]. obind.
  rewrite !lor_zero, Hbad, Hbad2. fold c. change (utf8_minLegal 2) with 0x800. rewrite surrogate_range by (unfold is_byte in *; lia). cbn [Z.eqb andb].
  rewrite (Z.leb_antisym c 0x800). destruct (is_trail t), (is_trail u), (c <? 0x800), ((0xd800 <=? c) && (c <=? 0xdfff)); cbn [negb orb andb]; try done. do 2 f_equal. lia.
Qed.
Lemma next_4 b t u v r : 0xf0 <= b < 0xf8 -> is_byte t -> is_byte u -> is_byte v -> zlen p + 4 <= len ->
  let c := (((b - 0xf0) * 64 + t mod 64) * 64 + u mod 64) * 64 + v mod 64 in
  CBU8_NEXT (p ++ b :: t :: u :: v :: r) (zlen p) len =
    if is_trail t && is_trail u && is_trail v && (0x10000 <=? c) && (c <=? 0x10ffff) then Ret (c, zlen p + 4)
    else illegal_at (p ++ b :: t :: u :: v :: r) 3 (zlen p + 1).
Proof.
  intros Hb Ht Hu Hv Hl c. assert (is_byte b) by (unfold is_byte; lia). rewrite next_lead by (done || lia). unfold utf8_nextCharSafeBody. rewrite (count_of b 3) by (done || lia).
  destruct (Z.leb_spec (zlen p + 1 + 3) len); [|lia]. cbn [Z.eqb Z.leb Z.compare Pos.compare Pos.compare_cont Pos.eqb].
  change (Z.shiftl 1 (6 - 3) - 1) with (2 ^ 3 - 1). rewrite land_mod by lia. replace (b mod 2 ^ 3) with (b - 0xf0) by powlia. unfold two_trails.
  destruct (trail_byte_spec (p ++ b :: t :: u :: v :: r) (b - 0xf0) 0 (zlen p + 1) t Ht) as (bad & -> & Hbad); [at_trail|]. obind.
  set (c1 := (b - 0xf0) * 64 + t mod 64) in *. assert (0 <= c1) by (unfold c1; lia). destruct (Z.ltb_spec c1 0x110) as [Hc1|Hc1].
  2:{ obind. cbn [Z.eqb negb orb]. destruct (Z.leb_spec c 0x10ffff); [unfold c in *; lia|]. by rewrite andb_false_r. }
  destruct (trail_byte_spec (p ++ b :: t :: u :: v :: r) c1 (Z.lor 0 bad) (zlen p + 1 + 1) u Hu) as (bad2 & -> & Hbad2); [at_trail|]. obind.
  destruct (trail_byte_spec (p ++ b :: t :: u :: v :: r) (c1 * 64 + u mod 64) (Z.lor (Z.lor 0 bad) bad2) (zlen p + 1 + 1 + 1) v Hv) as (bad3 & -> & Hbad3); [at_trail|]. obind.
  rewrite !lor_zero, Hbad, Hbad2, Hbad3. fold c. change (utf8_minLegal 3) with 0x10000. assert (0 <= c <= 0x10ffff) by (unfold c; lia). rewrite surrogate_range by done. cbn [Z.eqb andb].
  rewrite (Z.leb_antisym c 0x10000), (proj2 (Z.leb_le c 0x10ffff)), andb_true_r by lia.
  destruct (is_trail t), (is_trail u), (is_trail v), (Z.ltb_spec c 0x10000); cbn [negb orb andb]; try done.
  replace ((0xd800 <=? c) && (c <=? 0xdfff)) with false by lia. do 2 f_equal. lia.
Qed.
End Next.

(** * The encodings in numbers *)
Definition utf8 (c : Z) : bytes :=
  if c <=? 0x7f then [c]
  else if c <=? 0x7ff then [0xc0 + c / 64; 0x80 + c mod 64]
  else if c <=? 0xffff then [0xe0 + c / 4096; 0x80 + c / 64 mod 64; 0x80 + c mod 64]
  else [0xf0 + c / 262144; 0x80 + c / 4096 mod 64; 0x80 + c / 64 mod 64; 0x80 + c mod 64].
Definition utf16 (c : Z) : list Z :=
  if c <=? 0xffff then [c] else [0xd800 + (c - 0x10000) / 1024; 0xdc00 + (c - 0x10000) mod 1024].
Definition valid (c : Z) : Prop := 0 <= c < 0xd800 \/ 0xe000 <= c <= 0x10ffff.

Lemma valid_spec c : 0 <= c -> IsValidCodepoint c = true <-> valid c.
Proof. intros. unfold IsValidCodepoint, valid. destruct (Z.ltb_spec c 0xd800), (Z.leb_spec 0xe000 c), (Z.leb_spec c 0x10ffff); cbn; intuition (lia || done). Qed.
Lemma append_utf8 c : 0 <= c <= 0x10ffff -> CBU8_APPEND_UNSAFE c = utf8 c.
Proof.
  intros. unfold utf8. destruct (Z.leb_spec c 0x7f); [apply append_1; lia|]. destruct (Z.leb_spec c 0x7ff); [apply append_2; lia|].
  destruct (Z.leb_spec c 0xffff); [apply append_3|apply append_4]; lia.
Qed.
Lemma write_utf8 c : valid c -> WriteUnicodeCharacter8 c = utf8 c.
Proof.
  intros Hc. unfold WriteUnicodeCharacter8. rewrite append_utf8 by (unfold valid in Hc; lia). unfold utf8. destruct (Z.leb_spec c 0x7f); [|done].
  rewrite uwrap_small by (unfold valid in Hc; powlia). done.
Qed.
Lemma is_trail_low x : 0 <= x < 64 -> is_trail (0x80 + x) = true /\ (0x80 + x) mod 64 = x /\ is_byte (0x80 + x).
Proof. intros. unfold is_trail, is_byte. split; [|lia]. destruct (Z.leb_spec 0x80 (0x80 + x)), (Z.ltb_spec (0x80 + x) 0xc0); cbn; lia || done. Qed.
Lemma is_trail_inv t : is_trail t = true -> t = 0x80 + t mod 64.
Proof. unfold is_trail. destruct (Z.leb_spec 0x80 t), (Z.ltb_spec t 0xc0); cbn; try done. lia. Qed.

(** [CBU8_NEXT] on the encoding of a code point. *)
Lemma next_1 p len b r : 0 <= b < 0x80 -> CBU8_NEXT (p ++ b :: r) (zlen p) len = Ret (b, zlen p + 1).
Proof. intros. unfold CBU8_NEXT. rewrite char_at_head. obind. by destruct (Z.leb_spec 0x80 b); [lia|]. Qed.
Lemma next_encode p len c r : valid c -> zlen p + zlen (utf8 c) <= len -> CBU8_NEXT (p ++ utf8 c ++ r) (zlen p) len = Ret (c, zlen p + zlen (utf8 c)).
Proof.
  intros Hc. unfold valid in Hc. unfold utf8. destruct (Z.leb_spec c 0x7f); [|destruct (Z.leb_spec c 0x7ff); [|destruct (Z.leb_spec c 0xffff)]]; cbn [app]; intros Hl.
  - apply next_1. lia.
  - destruct (is_trail_low (c mod 64)) as (T & M & B); [lia|]. rewrite next_2 by (done || cbn in Hl; lia). rewrite T, M.
    replace ((0xc0 + c / 64 - 0xc0) * 64 + c mod 64) with c by lia. by destruct (Z.leb_spec 0x80 c); [|lia].
  - destruct (is_trail_low (c mod 64)) as (T & M & B); [lia|]. destruct (is_trail_low (c / 64 mod 64)) as (T' & M' & B'); [lia|].
    rewrite next_3 by (done || cbn in Hl; lia). rewrite T, M, T', M'.
    replace (((0xe0 + c / 4096 - 0xe0) * 64 + c / 64 mod 64) * 64 + c mod 64) with c by lia.
    destruct (Z.leb_spec 0x800 c); [|lia]. by destruct (Z.leb_spec 0xd800 c), (Z.leb_spec c 0xdfff); try lia.
  - destruct (is_trail_low (c mod 64)) as (T & M & B); [lia|]. destruct (is_trail_low (c / 64 mod 64)) as (T' & M' & B'); [lia|].
    destruct (is_trail_low (c / 4096 mod 64)) as (T2 & M2 & B2); [lia|].
    rewrite next_4 by (done || cbn in Hl; lia). rewrite T, M, T', M', T2, M2.
    replace ((((0xf0 + c / 262144 - 0xf0) * 64 + c / 4096 mod 64) * 64 + c / 64 mod 64) * 64 + c mod 64) with c by lia.
    destruct (Z.leb_spec 0x10000 c); [|lia]. by destruct (Z.leb_spec c 0x10ffff); [|lia].
Qed.

(** What a call of [CBU8_NEXT] at the end of [p] gives when the rest is [r]: the code
    point the rest begins with, or an error that has moved on. *)
Definition next_result (p r : list Z) (o : outcome (Z * Z)) : Prop :=
  (exists c r', valid c /\ r = utf8 c ++ r' /\ o = Ret (c, zlen p + zlen (utf8 c))) \/
  (exists i, o = Ret (CBU_SENTINEL, i) /\ zlen p < i <= zlen (p ++ r)).
Lemma illegal_result p r n : (n < length r)%nat -> next_result p r (illegal_at (p ++ r) n (zlen p + 1)).
Proof.
  intros. right. unfold illegal_at. destruct (skip_trails_range n (p ++ r) (zlen p + 1)) as (i & -> & ?); [unfold zlen; lia|rewrite zlen_app; unfold zlen; lia|].
  obind. exists i. split; [done|]. rewrite zlen_app. unfold zlen in *. lia.
Qed.
Lemma utf8_2 b t : 0xc0 <= b < 0xe0 -> is_trail t = true -> 0x80 <= (b - 0xc0) * 64 + t mod 64 -> utf8 ((b - 0xc0) * 64 + t mod 64) = [b; t].
Proof. intros ? T%is_trail_inv ?. unfold utf8. destruct (Z.leb_spec ((b - 0xc0) * 64 + t mod 64) 0x7f); [lia|]. destruct (Z.leb_spec ((b - 0xc0) * 64 + t mod 64) 0x7ff); [|lia]. repeat f_equal; lia. Qed.
Lemma utf8_3 b t u : 0xe0 <= b < 0xf0 -> is_trail t = true -> is_trail u = true -> 0x800 <= ((b - 0xe0) * 64 + t mod 64) * 64 + u mod 64 ->
  utf8 (((b - 0xe0) * 64 + t mod 64) * 64 + u mod 64) = [b; t; u].
Proof.
  intros ? T%is_trail_inv U%is_trail_inv ?. set (c := ((b - 0xe0) * 64 + t mod 64) * 64 + u mod 64) in *. unfold utf8. destruct (Z.leb_spec c 0x7f); [lia|]. destruct (Z.leb_spec c 0x7ff); [lia|].
  destruct (Z.leb_spec c 0xffff); [|unfold c in *; lia]. repeat f_equal; unfold c; lia.
Qed.
Lemma utf8_4 b t u v : 0xf0 <= b < 0xf8 -> is_trail t = true -> is_trail u = true -> is_trail v = true ->
  0x10000 <= (((b - 0xf0) * 64 + t mod 64) * 64 + u mod 64) * 64 + v mod 64 ->
  utf8 ((((b - 0xf0) * 64 + t mod 64) * 64 + u mod 64) * 64 + v mod 64) = [b; t; u; v].
Proof.
  intros ? T%is_trail_inv U%is_trail_inv V%is_trail_inv ?. set (c := (((b - 0xf0) * 64 + t mod 64) * 64 + u mod 64) * 64 + v mod 64) in *. unfold utf8.
  destruct (Z.leb_spec c 0x7f); [lia|]. destruct (Z.leb_spec c 0x7ff); [lia|]. destruct (Z.leb_spec c 0xffff); [lia|]. repeat f_equal; unfold c; lia.
Qed.

(** The safe body where the sequence is cut short by the end of the string, and for
    the leads that begin no legal sequence. *)
Lemma next_short p b r : is_byte b -> 0xc0 <= b < 0xfe -> zlen r < utf8_countTrailBytes b -> next_result p (b :: r) (CBU8_NEXT (p ++ b :: r) (zlen p) (zlen (p ++ b :: r))).
Proof.
  intros Hb Hr Hs. rewrite next_lead by done. unfold utf8_nextCharSafeBody. rewrite (uwrap_small 8) by (unfold is_byte in Hb; powlia).
  rewrite zlen_app, zlen_cons. destruct (Z.leb_spec (zlen p + 1 + utf8_countTrailBytes b) (zlen p + (1 + zlen r))); [lia|].
  replace (zlen p + (1 + zlen r) - (zlen p + 1)) with (zlen r) by lia. apply illegal_result. unfold zlen. cbn. lia.
Qed.
Lemma next_long p b r : is_byte b -> 0xf8 <= b < 0xfe -> utf8_countTrailBytes b <= zlen r -> next_result p (b :: r) (CBU8_NEXT (p ++ b :: r) (zlen p) (zlen (p ++ b :: r))).
Proof.
  intros Hb Hr Hs. rewrite next_lead by (done || lia). unfold utf8_nextCharSafeBody. rewrite (uwrap_small 8) by (unfold is_byte in Hb; powlia).
  rewrite zlen_app, zlen_cons. destruct (Z.leb_spec (zlen p + 1 + utf8_countTrailBytes b) (zlen p + (1 + zlen r))); [|lia].
  assert (utf8_countTrailBytes b = 4 \/ utf8_countTrailBytes b = 5) as Hc.
  { unfold utf8_countTrailBytes. repeat match goal with |- context [b <? ?n] => destruct (Z.ltb_spec b n) end; lia. }
  replace (utf8_countTrailBytes b =? 0) with false by lia. replace (4 <=? utf8_countTrailBytes b) with true by lia. obind. cbn [Z.eqb negb orb].
  apply illegal_result. unfold zlen in Hs. cbn. lia.
Qed.
Lemma next_sound p r : r <> [] -> Forall is_byte r -> next_result p r (CBU8_NEXT (p ++ r) (zlen p) (zlen (p ++ r))).
Proof.
  intros Hne Hby. destruct r as [|b r]; [done|]. apply Forall_cons_1 in Hby as [Hb Hby].
  destruct (Z.lt_ge_cases b 0x80).
  { left. exists b, r. assert (utf8 b = [b]) as -> by (unfold utf8; by destruct (Z.leb_spec b 0x7f); [|lia]). split; [unfold valid, is_byte in *; lia|]. split; [done|]. apply next_1. unfold is_byte in *; lia. }
  destruct ((0xc0 <=? b) && (b <? 0xfe)) eqn:E.
  2:{ right. exists (zlen p + 1). split; [|rewrite zlen_app, zlen_cons; unfold zlen; lia].
      unfold CBU8_NEXT. rewrite char_at_head. obind. destruct (Z.leb_spec 0x80 b); [|lia]. by rewrite lead_byte, E. }
  destruct (Z.lt_ge_cases (zlen r) (utf8_countTrailBytes b)) as [Hs|Hs]; [apply next_short; done || lia|].
  destruct (Z.lt_ge_cases b 0xf8); [|apply next_long; done || lia].
  pose proof (fun k => count_of b k Hb) as K. assert (u8 b = b) as Hu by (apply uwrap_small; unfold is_byte in Hb; powlia). rewrite Hu in K.
  destruct (Z.lt_ge_cases b 0xe0); [rewrite (K 1) in Hs by lia|destruct (Z.lt_ge_cases b 0xf0); [rewrite (K 2) in Hs by lia|rewrite (K 3) in Hs by lia]]; clear K.
  - destruct r as [|t r]; [done|]. apply Forall_cons_1 in Hby as [Ht _]. rewrite next_2 by (done || lia || (rewrite zlen_app, !zlen_cons; unfold zlen; lia)).
    destruct (is_trail t) eqn:T; [|apply illegal_result; cbn; lia]. destruct (Z.leb_spec 0x80 ((b - 0xc0) * 64 + t mod 64)); [|apply illegal_result; cbn; lia]. cbn [andb].
    left. exists ((b - 0xc0) * 64 + t mod 64), r. rewrite utf8_2 by (done || lia). split; [unfold valid; lia|done].
  - destruct r as [|t [|u r]]; [done..|]. apply Forall_cons_1 in Hby as [Ht Hby]. apply Forall_cons_1 in Hby as [Hu' _].
    rewrite next_3 by (done || lia || (rewrite zlen_app, !zlen_cons; unfold zlen; lia)). set (c := ((b - 0xe0) * 64 + t mod 64) * 64 + u mod 64).
    destruct (is_trail t) eqn:T, (is_trail u) eqn:U, (Z.leb_spec 0x800 c), ((0xd800 <=? c) && (c <=? 0xdfff)) eqn:S; cbn [andb negb];
      try (apply illegal_result; cbn; lia).
    left. exists c, r. unfold c. rewrite utf8_3 by (done || lia). split; [unfold valid; fold c; unfold c in *; lia|done].
  - destruct r as [|t [|u [|v r]]]; [done..|]. apply Forall_cons_1 in Hby as [Ht Hby]. apply Forall_cons_1 in Hby as [Hu' Hby]. apply Forall_cons_1 in Hby as [Hv _].
    rewrite next_4 by (done || lia || (rewrite zlen_app, !zlen_cons; unfold zlen; lia)). set (c := (((b - 0xf0) * 64 + t mod 64) * 64 + u mod 64) * 64 + v mod 64).
    destruct (is_trail t) eqn:T, (is_trail u) eqn:U, (is_trail v) eqn:V, (Z.leb_spec 0x10000 c), (Z.leb_spec c 0x10ffff); cbn [andb negb];
      try (apply illegal_result; cbn; lia).
    left. exists c, r. unfold c. rewrite utf8_4 by (done || lia). split; [unfold valid; unfold c in *; lia|done].
Qed.

(** * Whole strings *)
Definition text (enc : Z -> list Z) (cs : list Z) : list Z := concat (map enc cs).

(** What [ReadUnicodeCharacter] must promise for an encoding: it reads an encoded code
    point, and otherwise fails further on in the string. *)
Class Reader (unit_ok : Z -> Prop) (enc : Z -> list Z) (Read : list Z -> Z -> Z -> outcome (bool * Z * Z)) : Prop := {
  enc_cons c : valid c -> exists u r, enc c = u :: r;
  read_encode p c r : valid c -> Read (p ++ enc c ++ r) (zlen (p ++ enc c ++ r)) (zlen p) = Ret (true, zlen p + zlen (enc c) - 1, c);
  read_sound p r : r <> [] -> Forall unit_ok r ->
    (exists c r', valid c /\ r = enc c ++ r') \/
    (exists i cp, Read (p ++ r) (zlen (p ++ r)) (zlen p) = Ret (false, i, cp) /\ zlen p <= i < zlen (p ++ r)) }.

Lemma prefix_at (l : list Z) i : 0 <= i <= zlen l -> exists q r, l = q ++ r /\ zlen q = i.
Proof.
  intros. exists (take (Z.to_nat i) l), (drop (Z.to_nat i) l). split; [by rewrite take_drop|]. unfold zlen in *. rewrite length_take. lia.
Qed.

Section Conversion.
Context (unit_ok : Z -> Prop) (enc enc' : Z -> list Z) (Read : list Z -> Z -> Z -> outcome (bool * Z * Z)) (Write : Z -> list Z).
Context `{!Reader unit_ok enc Read} (write_enc : forall c, valid c -> Write c = enc' c).

Lemma loop_end fuel src i success out : zlen src <= i -> ConvertUnicode_loop Read Write fuel src (zlen src) i success out = Ret (success, out).
Proof. intros. destruct fuel; cbn [ConvertUnicode_loop]; destruct (Z.ltb_spec i (zlen src)); done || lia. Qed.
(** Well-formed text. *)
Lemma loop_text cs : Forall valid cs -> forall fuel p success out, (length (text enc cs) <= fuel)%nat ->
  ConvertUnicode_loop Read Write fuel (p ++ text enc cs) (zlen (p ++ text enc cs)) (zlen p) success out = Ret (success, out ++ text enc' cs).
Proof.
  induction 1 as [|c cs Hc Hcs IH]; intros fuel p success out Hf.
  - change (text enc []) with (@nil Z). rewrite loop_end by (rewrite zlen_app; unfold zlen; cbn [length]; lia). by rewrite app_nil_r.
  - change (text enc (c :: cs)) with (enc c ++ text enc cs) in *. destruct (enc_cons c Hc) as (u & r & Eu).
    assert (0 < zlen (enc c)) by (rewrite Eu, zlen_cons; unfold zlen; lia).
    rewrite length_app in Hf. unfold zlen in *. destruct fuel as [|fuel]; [lia|]. cbn [ConvertUnicode_loop].
    destruct (Z.ltb_spec (Z.of_nat (length p)) (Z.of_nat (length (p ++ enc c ++ text enc cs)))) as [_|Hn]; [|rewrite !length_app in Hn; lia].
    change (Z.of_nat (length ?l)) with (zlen l). rewrite read_encode by done. obind. rewrite write_enc by done.
    replace (zlen p + zlen (enc c) - 1 + 1) with (zlen (p ++ enc c)) by (rewrite zlen_app; lia). rewrite (app_assoc p).
    rewrite IH by lia. by rewrite <- app_assoc.
Qed.
(** Any text: the loop ends, and reports success only on well-formed text. *)
Lemma loop_any n : forall fuel p r success out, length r = n -> (n <= fuel)%nat -> Forall unit_ok r ->
  exists ok out', ConvertUnicode_loop Read Write fuel (p ++ r) (zlen (p ++ r)) (zlen p) success out = Ret (ok, out') /\
    (ok = true -> success = true /\ exists cs, Forall valid cs /\ r = text enc cs).
Proof.
  induction n as [n IH] using lt_wf_ind; intros fuel p r success out Hr Hf Hu. destruct r as [|u r].
  { rewrite loop_end by (rewrite zlen_app; unfold zlen; cbn [length]; lia). exists success, out. split; [done|]. intros ->. split; [done|]. by exists []. }
  destruct fuel as [|fuel]; [cbn in Hr; lia|]. cbn [ConvertUnicode_loop].
  destruct (Z.ltb_spec (zlen p) (zlen (p ++ u :: r))) as [_|Hn]; [|rewrite zlen_app, zlen_cons in Hn; unfold zlen in Hn; lia].
  destruct (read_sound p (u :: r)) as [(c & r' & Hc & E)|(i & cp & -> & Hi)]; [done..| |].
  - rewrite E in *. rewrite read_encode by done. obind. destruct (enc_cons c Hc) as (v & r2 & Ev).
    replace (zlen p + zlen (enc c) - 1 + 1) with (zlen (p ++ enc c)) by (rewrite zlen_app; lia). rewrite (app_assoc p).
    rewrite length_app, Ev in Hr. cbn in Hr.
    destruct (IH (length r') ltac:(lia) fuel (p ++ enc c) r' success (out ++ Write c)) as (ok & out' & -> & H); [done|lia|by apply Forall_app in Hu as [_ ?]|].
    exists ok, out'. split; [done|]. intros Hok. destruct (H Hok) as (? & cs & ? & ->). split; [done|]. by exists (c :: cs); split; [constructor|].
  - obind. destruct (prefix_at (u :: r) (i + 1 - zlen p)) as (q & r' & E & Hq); [rewrite zlen_app in Hi; lia|]. rewrite E in *.
     replace (i + 1) with (zlen (p ++ q)) by (rewrite zlen_app; lia). rewrite (app_assoc p). rewrite length_app in Hr. assert (0 < length q)%nat as Hq0 by (unfold zlen in *; lia).
    destruct (IH (length r') ltac:(lia) fuel (p ++ q) r' false (out ++ Write 0xFFFD)) as (ok & out' & -> & H); [done|lia|by apply Forall_app in Hu as [_ ?]|].
    exists ok, out'. split; [done|]. intros Hok. by destruct (H Hok).
Qed.

(** [ConvertUnicode]: total, exact on well-formed text and only there successful. *)
Lemma convert_text cs : Forall valid cs -> zlen (text enc cs) < 2 ^ 31 -> ConvertUnicode Read Write (text enc cs) = Ret (true, text enc' cs).
Proof.
  intros Hcs Hl. unfold ConvertUnicode. rewrite swrap_small by (cbn in *; unfold zlen in *; lia). exact (loop_text cs Hcs (length (text enc cs)) [] true [] ltac:(lia)).
Qed.
Lemma convert_any s : Forall unit_ok s -> zlen s < 2 ^ 31 -> exists ok out, ConvertUnicode Read Write s = Ret (ok, out) /\
  (ok = true -> exists cs, Forall valid cs /\ s = text enc cs).
Proof.
  intros Hs Hl. unfold ConvertUnicode. rewrite swrap_small by (cbn in *; unfold zlen in *; lia).
  destruct (loop_any (length s) (length s) [] s true [] eq_refl ltac:(lia) Hs) as (ok & out & E & H). exists ok, out. split; [exact E|]. intros Hok. by destruct (H Hok).
Qed.
End Conversion.

(** * The two encodings *)
Lemma valid_u32 c : valid c -> u32 c = c.
Proof. intros. apply uwrap_small. unfold valid in *. powlia. Qed.
#[export] Instance utf8_reader : Reader is_byte utf8 ReadUnicodeCharacter8.
Proof.
  split.
  - intros c _. unfold utf8. repeat (destruct (_ <=? _); [by eexists _, _|]). by eexists _, _.
  - intros p c r Hc. unfold ReadUnicodeCharacter8. rewrite next_encode by (done || (rewrite !zlen_app; unfold zlen; lia)). obind.
    rewrite valid_u32 by done. by rewrite (proj2 (valid_spec c ltac:(unfold valid in Hc; lia))).
  - intros p r Hne Hr. destruct (next_sound p r Hne Hr) as [(c & r' & ? & ? & _)|(i & E & ?)]; [left; by exists c, r'|].
    right. unfold ReadUnicodeCharacter8. rewrite E. obind. exists (i - 1), (u32 CBU_SENTINEL). split; [done|lia].
Qed.
Definition is_unit (u : Z) : Prop := 0 <= u < 65536.
(** The supplementary characters. *)
Lemma land_top6 u a : is_unit u -> 0 <= a < 64 -> (Z.land u 0xfffffc00 =? a * 1024) = (u / 1024 =? a).
Proof.
  intros Hu Ha. unfold is_unit in Hu. assert (Z.land u 0xfffffc00 = u / 1024 * 1024) as ->.
  { replace 0xfffffc00 with (Z.shiftl (Z.ones 22) 10) by done. replace (u / 1024 * 1024) with (Z.shiftl (Z.shiftr u 10) 10) by (rewrite Z.shiftl_mul_pow2, Z.shiftr_div_pow2 by lia; done).
    apply Z.bits_inj'. intros i Hi. rewrite Z.land_spec. destruct (Z.lt_ge_cases i 10).
    - rewrite !Z.shiftl_spec_low by lia. apply andb_false_r.
    - rewrite !Z.shiftl_spec, Z.shiftr_spec by lia. replace (i - 10 + 10) with i by lia. destruct (Z.lt_ge_cases (i - 10) 22).
      + rewrite Z.ones_spec_low by lia. apply andb_true_r.
      + rewrite Z.ones_spec_high by lia. rewrite andb_false_r. symmetry. rewrite <- (Z.mod_small u (2 ^ 16)) by (cbn; lia). apply Z.mod_pow2_bits_high. lia. }
  destruct (Z.eqb_spec (u / 1024 * 1024) (a * 1024)), (Z.eqb_spec (u / 1024) a); lia || done.
Qed.
Lemma trail_range u : is_unit u -> CBU16_IS_TRAIL u = (0xdc00 <=? u) && (u <=? 0xdfff).
Proof. intros Hu. unfold CBU16_IS_TRAIL. change 0xdc00 with (55 * 1024) at 1. rewrite land_top6 by (done || lia). lia. Qed.
Lemma lead_range u : is_unit u -> 0xd800 <= u <= 0xdfff -> CBU16_IS_SURROGATE_LEAD u = (u <=? 0xdbff).
Proof.
  intros Hu ?. unfold CBU16_IS_SURROGATE_LEAD. assert ((Z.land u 0x400 =? 0) = negb (Z.testbit u 10)) as ->.
  { destruct (Z.testbit u 10) eqn:E; cbn.
    - apply Z.eqb_neq. intros H0. assert (Z.testbit (Z.land u 0x400) 10 = false) as H1 by (rewrite H0; apply Z.bits_0). rewrite Z.land_spec, E in H1. done.
    - apply Z.eqb_eq. apply Z.bits_inj'. intros i Hi. rewrite Z.land_spec, Z.bits_0. change 0x400 with (2 ^ 10). rewrite Z.pow2_bits_eqb by lia.
      destruct (Z.eqb_spec 10 i) as [<-|]; [by rewrite E|apply andb_false_r]. }
  rewrite Z.testbit_eqb by lia. change (2 ^ 10) with 1024. lia.
Qed.
#[export] Instance utf16_reader : Reader is_unit utf16 ReadUnicodeCharacter16.
Proof.
  split.
  - intros c _. unfold utf16. destruct (_ <=? _); by eexists _, _.
  - intros p c r Hc. unfold valid in Hc. unfold utf16. destruct (Z.leb_spec c 0xffff); cbn [app]; unfold ReadUnicodeCharacter16; rewrite char_at_head; obind.
    + rewrite surrogate_range by lia. replace ((0xd800 <=? c) && (c <=? 0xdfff)) with false by lia.
      rewrite (proj2 (valid_spec c ltac:(lia))) by done. change (zlen [c]) with 1. do 3 f_equal. lia.
    + set (h := 0xd800 + _). set (l := 0xdc00 + _). assert (is_unit h /\ is_unit l) as [Hh Hl] by (unfold is_unit, h, l; lia).
      rewrite surrogate_range by (unfold h; lia). replace ((0xd800 <=? h) && (h <=? 0xdfff)) with true by (unfold h; lia).
      rewrite lead_range by (done || unfold h; lia). replace (h <=? 0xdbff) with true by (unfold h; lia). cbn [negb orb].
      rewrite zlen_app, !zlen_cons. destruct (Z.leb_spec (zlen p + (1 + (1 + zlen r))) (zlen p + 1)); [unfold zlen in *; lia|].
      rewrite char_at_skip by lia. replace (zlen p + 1 - zlen p - 1) with 0 by lia. change (char_at (l :: r) 0) with (Ret l). obind.
      rewrite trail_range by done. replace ((0xdc00 <=? l) && (l <=? 0xdfff)) with true by (unfold l; lia). cbn [negb].
      unfold CBU16_GET_SUPPLEMENTARY, CBU16_SURROGATE_OFFSET. rewrite !Z.shiftl_mul_pow2 by lia. change (2 ^ 10) with 1024.
      replace (h * 1024 + l - (0xd800 * 1024 + 0xdc00 - 0x10000)) with c by (unfold h, l; lia).
      rewrite valid_u32 by (unfold valid; lia). rewrite (proj2 (valid_spec c ltac:(lia))) by (unfold valid; lia). do 3 f_equal. change (zlen (@nil Z)) with 0. lia.
  - intros p r Hne Hr. destruct r as [|u r]; [done|]. apply Forall_cons_1 in Hr as [Hu Hr].
    assert (forall (i cp : Z), zlen p <= i < zlen (p ++ u :: r) -> forall o : outcome (bool * Z * Z), o = Ret (false, i, cp) -> exists i0 cp0, o = Ret (false, i0, cp0) /\ zlen p <= i0 < zlen (p ++ u :: r)) as Hno by (intros i cp ? ? ->; by exists i, cp).
    assert (zlen p < zlen (p ++ u :: r)) by (rewrite zlen_app, zlen_cons; unfold zlen; lia).
    unfold ReadUnicodeCharacter16. rewrite char_at_head. obind. rewrite surrogate_range by (unfold is_unit in Hu; lia).
    destruct ((0xd800 <=? u) && (u <=? 0xdfff)) eqn:S.
    2:{ left. exists u, r. unfold is_unit in Hu. split; [unfold valid; lia|]. unfold utf16. by destruct (Z.leb_spec u 0xffff); [|lia]. }
    rewrite lead_range by (done || lia). destruct (Z.leb_spec u 0xdbff); cbn [negb orb]; [|right; eapply Hno; [|done]; lia].
    destruct (Z.leb_spec (zlen (p ++ u :: r)) (zlen p + 1)) as [|Hl]; [right; eapply Hno; [|done]; lia|].
    destruct r as [|t r]; [rewrite zlen_app, zlen_cons in Hl; change (zlen (@nil Z)) with 0 in Hl; lia|]. apply Forall_cons_1 in Hr as [Ht Hr].
    rewrite char_at_skip by lia. replace (zlen p + 1 - zlen p - 1) with 0 by lia. change (char_at (t :: r) 0) with (Ret t). obind.
    rewrite trail_range by done. destruct ((0xdc00 <=? t) && (t <=? 0xdfff)) eqn:T; cbn [negb]; [|right; eapply Hno; [|done]; lia].
    left. exists (0x10000 + (u - 0xd800) * 1024 + (t - 0xdc00)), r. split; [unfold valid; lia|]. unfold utf16.
    destruct (Z.leb_spec (0x10000 + (u - 0xd800) * 1024 + (t - 0xdc00)) 0xffff); [lia|]. cbn [app]. repeat f_equal; lia.
Qed.
Lemma write_utf16 c : valid c -> WriteUnicodeCharacter16 c = utf16 c.
Proof.
  intros Hc. unfold WriteUnicodeCharacter16, CBU16_LENGTH, CBU16_APPEND_UNSAFE, utf16. rewrite valid_u32 by done. unfold valid in Hc.
  destruct (Z.leb_spec c 0xffff); cbn [Z.eqb Pos.eqb].
  - rewrite uwrap_small by powlia. done.
  - assert (Z.lor (Z.land c 0x3ff) 0xdc00 = 0xdc00 + (c - 0x10000) mod 1024) as ->.
    { change 0x3ff with (2 ^ 10 - 1). rewrite land_mod by lia. change 0xdc00 with (55 * 2 ^ 10). rewrite lor_high by powlia. change (2 ^ 10) with 1024. lia. }
    rewrite Z.shiftr_div_pow2 by lia. change (2 ^ 10) with 1024. rewrite !uwrap_small by (change (2 ^ 16) with 65536; lia).
    f_equal. lia.
Qed.

(** * What the conversions promise *)
Abbreviation code_points := (Forall valid).

(** [IsStringUTF8] decodes the whole string and looks for non-characters. *)
Definition all_characters (cs : list Z) : bool := forallb IsValidCharacter cs.
Lemma IsStringUTF8_text cs : Forall valid cs -> forall fuel p, (length (text utf8 cs) <= fuel)%nat ->
  IsStringUTF8_loop fuel (p ++ text utf8 cs) (zlen (p ++ text utf8 cs)) (zlen p) = Ret (all_characters cs).
Proof.
  induction 1 as [|c cs Hc Hcs IH]; intros fuel p Hf.
  - change (text utf8 []) with (@nil Z). rewrite app_nil_r. destruct fuel; cbn [IsStringUTF8_loop]; by destruct (Z.ltb_spec (zlen p) (zlen p)); [lia|].
  - change (text utf8 (c :: cs)) with (utf8 c ++ text utf8 cs) in *. destruct (enc_cons (enc := utf8) c Hc) as (u & r & Eu).
    rewrite length_app in Hf. assert (0 < length (utf8 c))%nat by (rewrite Eu; cbn; lia). destruct fuel as [|fuel]; [lia|]. cbn [IsStringUTF8_loop].
    destruct (Z.ltb_spec (zlen p) (zlen (p ++ utf8 c ++ text utf8 cs))) as [_|Hn]; [|rewrite !zlen_app in Hn; unfold zlen in Hn; lia].
    rewrite next_encode by (done || (rewrite !zlen_app; unfold zlen; lia)). obind. rewrite valid_u32 by done. unfold all_characters. cbn [forallb].
    destruct (IsValidCharacter c); [|done]. cbn [andb]. rewrite <- zlen_app, (app_assoc p). apply IH. lia.
Qed.
Lemma IsStringUTF8_any n : forall fuel p r, length r = n -> (n <= fuel)%nat -> Forall is_byte r -> (~ exists cs, Forall valid cs /\ r = text utf8 cs) ->
  IsStringUTF8_loop fuel (p ++ r) (zlen (p ++ r)) (zlen p) = Ret false.
Proof.
  induction n as [n IH] using lt_wf_ind; intros fuel p r Hr Hf Hu Hno. destruct r as [|u r]; [destruct Hno; by exists []|].
  destruct fuel as [|fuel]; [cbn in Hr; lia|]. cbn [IsStringUTF8_loop].
  destruct (Z.ltb_spec (zlen p) (zlen (p ++ u :: r))) as [_|Hn]; [|rewrite zlen_app, zlen_cons in Hn; unfold zlen in Hn; lia].
  destruct (next_sound p (u :: r)) as [(c & r' & Hc & E & ->)|(i & -> & Hi)]; [done..| |].
  - obind. rewrite valid_u32 by done. destruct (IsValidCharacter c); [|done]. rewrite E in *. destruct (enc_cons (enc := utf8) c Hc) as (v & r2 & Ev).
    rewrite length_app, Ev in Hr. cbn in Hr. rewrite <- zlen_app, (app_assoc p). apply (IH (length r')); [lia|done|lia|by apply Forall_app in Hu as [_ ?]|].
    intros (cs & Hcs & ->). apply Hno. exists (c :: cs). split; [by constructor|done].
  - obind. done.
Qed.

Lemma text_units P enc cs : (forall c, valid c -> Forall P (enc c)) -> Forall valid cs -> Forall P (text enc cs).
Proof. intros He. induction 1; [constructor|]. change (text enc (?c :: ?cs)) with (enc c ++ text enc cs). apply Forall_app. auto. Qed.
Lemma utf16_shorter cs : Forall valid cs -> zlen (text utf16 cs) <= zlen (text utf8 cs).
Proof.
  induction 1 as [|c cs Hc _ IH]; [done|]. change (text ?e (c :: cs)) with (e c ++ text e cs). rewrite !zlen_app.
  enough (zlen (utf16 c) <= zlen (utf8 c)) by lia. unfold utf16, utf8. destruct (Z.leb_spec c 0xffff), (Z.leb_spec c 0x7f), (Z.leb_spec c 0x7ff); unfold zlen; cbn [length]; lia.
Qed.
Lemma utf8_longer cs : Forall valid cs -> zlen (text utf8 cs) <= 3 * zlen (text utf16 cs).
Proof.
  induction 1 as [|c cs Hc _ IH]; [done|]. change (text ?e (c :: cs)) with (e c ++ text e cs). rewrite !zlen_app.
  enough (zlen (utf8 c) <= 3 * zlen (utf16 c)) by lia. unfold utf16, utf8. destruct (Z.leb_spec c 0xffff), (Z.leb_spec c 0x7f), (Z.leb_spec c 0x7ff); unfold zlen; cbn [length]; lia.
Qed.

(** C38: UTF-8 is decoded exactly. For every byte string short enough for the 32-bit
    indices, either the string is the UTF-8 encoding of a sequence of code points
    without surrogates, and then [UTF8ToUTF16] succeeds with the UTF-16 encoding of
    that sequence, [UTF16ToUTF8] takes that back to the string, and [IsStringUTF8]
    says whether the sequence has no non-characters; or it is the encoding of no such
    sequence (over-long forms, surrogates, stray or missing trail bytes, five and six
    byte forms), and then [UTF8ToUTF16] still produces a string but reports failure,
    and [IsStringUTF8] is false. No read is out of bounds. *)
Theorem utf8_exact s : Forall is_byte s -> zlen s < 2 ^ 31 ->
  (exists cs, code_points cs /\ s = text utf8 cs /\ UTF8ToUTF16 s = Ret (true, text utf16 cs) /\
     UTF16ToUTF8 (text utf16 cs) = Ret (true, s) /\ IsStringUTF8 s = Ret (all_characters cs)) \/
  ((~ exists cs, code_points cs /\ s = text utf8 cs) /\ (exists u, UTF8ToUTF16 s = Ret (false, u)) /\ IsStringUTF8 s = Ret false).
Proof.
  intros Hs Hl. assert (s32 (zlen s) = zlen s) as Hs32 by (apply swrap_small; cbn in *; unfold zlen in *; lia).
  destruct (convert_any is_byte utf8 ReadUnicodeCharacter8 WriteUnicodeCharacter16 s Hs Hl) as (ok & u & E & H).
  assert ((exists cs, code_points cs /\ s = text utf8 cs) -> exists cs, code_points cs /\ s = text utf8 cs /\ UTF8ToUTF16 s = Ret (true, text utf16 cs) /\
     UTF16ToUTF8 (text utf16 cs) = Ret (true, s) /\ IsStringUTF8 s = Ret (all_characters cs)) as Hyes.
  { intros (cs & Hcs & ->). exists cs. split; [done|]. split; [done|]. split; [by apply (convert_text is_byte _ _ _ _ write_utf16)|].
    pose proof (utf16_shorter cs Hcs). split; [apply (convert_text is_unit _ _ _ _ write_utf8); done || lia|].
    unfold IsStringUTF8. rewrite Hs32. exact (IsStringUTF8_text cs Hcs (length (text utf8 cs)) [] ltac:(lia)). }
  destruct ok; [left; auto|]. right. assert (~ exists cs, code_points cs /\ s = text utf8 cs) as Hno.
  { intros (cs & ? & ? & E' & _)%Hyes. unfold UTF8ToUTF16 in E'. rewrite E in E'. done. }
  split; [done|]. split; [by exists u|]. unfold IsStringUTF8. rewrite Hs32. by apply (IsStringUTF8_any (length s) (length s) [] s).
Qed.
Lemma utf8_exact_witness : exists cs, code_points cs /\ [0xF0; 0x9F; 0x98; 0x80; 0x21] = text utf8 cs.
Proof.
  destruct (utf8_exact [0xF0; 0x9F; 0x98; 0x80; 0x21]) as [(cs & H1 & H2 & _)|(_ & [u Hu] & _)].
  - repeat (constructor; [unfold is_byte; lia|]). constructor.
  - done.
  - by exists cs.
  - vm_compute in Hu. discriminate.
Defined.

(** UTF-16 is decoded exactly. For every string of 16-bit units short enough for
    the indices, either it is the UTF-16 encoding of a sequence of code points without
    surrogates, and then [UTF16ToUTF8] succeeds with the UTF-8 encoding of that
    sequence; or it has an unpaired surrogate, and then [UTF16ToUTF8] produces a
    string but reports failure. *)
Theorem utf16_exact s : Forall is_unit s -> zlen s < 2 ^ 31 ->
  (exists cs, code_points cs /\ s = text utf16 cs /\ UTF16ToUTF8 s = Ret (true, text utf8 cs)) \/
  ((~ exists cs, code_points cs /\ s = text utf16 cs) /\ exists u, UTF16ToUTF8 s = Ret (false, u)).
Proof.
  intros Hs Hl. destruct (convert_any is_unit utf16 ReadUnicodeCharacter16 WriteUnicodeCharacter8 s Hs Hl) as (ok & u & E & H).
  destruct ok.
  - left. destruct (H eq_refl) as (cs & Hcs & ->). exists cs. split; [done|]. split; [done|]. by apply (convert_text is_unit _ _ _ _ write_utf8).
  - right. split; [|by exists u]. intros (cs & Hcs & ->). unfold UTF16ToUTF8 in E. by rewrite (convert_text is_unit _ _ _ _ write_utf8) in E.
Qed.
Lemma utf16_exact_witness : exists u, UTF16ToUTF8 [0xD83D] = Ret (false, u).
Proof.
  assert (UTF16ToUTF8 [0xD83D] = Ret (false, [0xEF; 0xBF; 0xBD])) as E by (vm_compute; reflexivity).
  destruct (utf16_exact [0xD83D]) as [(cs & _ & _ & H)|[_ H]]; [constructor; [unfold is_unit; lia|constructor]|done|rewrite E in H; discriminate|exact H].
Defined.
