(* ===== verification/Values.v ===== *)
(** Values, [zutils/base/values.cc]: the tree a configuration or a JSON text denotes.
    Every value owns its children, so a value is a tree; a [std::map] is its entries in
    the order of its keys; a [double] is a binary floating-point number in the form
    [SpecFloat] gives it. What an operation stores through an out parameter is its
    result; what it changes in place is returned. The pieces of text a parsed value
    may hold instead of strings are their characters: the text they point into does
    not change and lives as long as the root. *)
From Stdlib Require Import ZArith Lia Bool Ascii String SpecFloat.
From stdpp Require Import base list numbers strings.
From S2P Require Import Prelude Utf8.

Open Scope Z_scope.

Definition double := spec_float.
(** [IsFinite] *)
Definition IsFinite (d : double) : bool := match d with S754_zero _ | S754_finite _ _ _ => true | _ => false end.
(** The conversion of an [int]. *)
Definition double_of_int (n : Z) : double := binary_normalize 53 1024 n 0 false.

(** * Data *)
Unset Elimination Schemes.
Inductive Value :=
  | VNull
  | VBoolean (boolean_value_ : bool)
  | VInteger (integer_value_ : Z)
  | VDouble (double_value_ : double)
  | VString (value_ : bytes)
  | VBinary (buffer_ : bytes)
  | VDictionary (dictionary_ : list (bytes * Value))
  | VList (list_ : list Value).
Set Elimination Schemes.
Inductive Type_ := TYPE_NULL | TYPE_BOOLEAN | TYPE_INTEGER | TYPE_DOUBLE | TYPE_STRING | TYPE_BINARY | TYPE_DICTIONARY | TYPE_LIST.
#[export] Instance Type_eq_dec : EqDecision Type_.
Proof. solve_decision. Defined.
Definition GetType (v : Value) : Type_ :=
  match v with
  | VNull => TYPE_NULL | VBoolean _ => TYPE_BOOLEAN | VInteger _ => TYPE_INTEGER | VDouble _ => TYPE_DOUBLE
  | VString _ => TYPE_STRING | VBinary _ => TYPE_BINARY | VDictionary _ => TYPE_DICTIONARY | VList _ => TYPE_LIST
  end.
Definition IsType (v : Value) (t : Type_) : bool := bool_decide (GetType v = t).

(** [std::map<std::string, Value*>]: keys compare as their bytes. *)
Definition dict := list (bytes * Value).
Fixpoint key_lt (a b : bytes) : bool :=
  match a, b with
  | _, [] => false
  | [], _ => true
  | x :: a, y :: b => (x <? y) || ((x =? y) && key_lt a b)
  end.
Fixpoint map_find (key : bytes) (m : dict) : option Value :=
  match m with
  | [] => None
  | (k, v) :: m => if bool_decide (key = k) then Some v else map_find key m
  end.
Fixpoint map_assign (key : bytes) (v : Value) (m : dict) : dict :=
  match m with
  | [] => [(key, v)]
  | (k, w) :: m =>
      if bool_decide (key = k) then (k, v) :: m else if key_lt key k then (key, v) :: (k, w) :: m else (k, w) :: map_assign key v m
  end.
Fixpoint map_erase (key : bytes) (m : dict) : dict :=
  match m with
  | [] => []
  | (k, v) :: m => if bool_decide (key = k) then m else (k, v) :: map_erase key m
  end.

Section Operations.
Context (dcheck_on : bool).

(** [DCHECK(IsStringUTF8(s))] *)
Definition DCHECK_UTF8 (s : bytes) {A} (k : outcome A) : outcome A :=
  if dcheck_on then ok ← IsStringUTF8 s; guard_or ok AssertFail k else k.

(** * Scalars *)
Definition FundamentalValue_double (in_value : double) : outcome Value :=
  if IsFinite in_value then Ret (VDouble in_value) else guard_or (negb dcheck_on) AssertFail (Ret (VDouble (S754_zero false))).
Definition StringValue (in_value : bytes) : outcome Value := DCHECK_UTF8 in_value (Ret (VString in_value)).
Definition StringValue16 (in_value : list Z) : outcome Value := '(_, s) ← UTF16ToUTF8 in_value; Ret (VString s).

Definition GetAsBoolean (v : Value) : option bool := match v with VBoolean b => Some b | _ => None end.
Definition GetAsInteger (v : Value) : option Z := match v with VInteger n => Some n | _ => None end.
Definition GetAsDouble (v : Value) : option double :=
  match v with VDouble d => Some d | VInteger n => Some (double_of_int n) | _ => None end.
Definition GetAsString (v : Value) : option bytes := match v with VString s => Some s | _ => None end.
Definition GetAsString16 (v : Value) : outcome (option (list Z)) :=
  match v with VString s => '(_, u) ← UTF8ToUTF16 s; Ret (Some u) | _ => Ret None end.
Definition GetAsBinary (v : Value) : option bytes := match v with VBinary b => Some b | _ => None end.
Definition GetAsDictionary (v : Value) : option dict := match v with VDictionary m => Some m | _ => None end.
Definition GetAsList (v : Value) : option (list Value) := match v with VList l => Some l | _ => None end.

(** * Whole values *)
Definition SetWithoutPathExpansion (key : bytes) (in_value : Value) (d : dict) : dict := map_assign key in_value d.

(** [DeepCopy] of each class. *)
Fixpoint DeepCopy (v : Value) : outcome Value :=
  match v with
  | VDouble d => FundamentalValue_double d
  | VString s => StringValue s
  | VDictionary m =>
      result ← (fix copy m result :=
        match m with
        | [] => Ret result
        | (k, x) :: m => x ← DeepCopy x; copy m (SetWithoutPathExpansion k x result)
        end) m [];
      Ret (VDictionary result)
  | VList l =>
      result ← (fix copy l result :=
        match l with
        | [] => Ret result
        | x :: l => x ← DeepCopy x; copy l (result ++ [x])
        end) l [];
      Ret (VList result)
  | _ => Ret v
  end.

(** [Equals] of each class. *)
Fixpoint Equals (v other : Value) : bool :=
  match v, other with
  | VNull, VNull => true
  | VBoolean a, VBoolean b => Bool.eqb a b
  | VInteger a, VInteger b => a =? b
  | VDouble a, VDouble b => SFeqb a b
  | VString a, VString b => bool_decide (a = b)
  | VBinary a, VBinary b => bool_decide (a = b)
  | VDictionary m, VDictionary n =>
      (fix go m n :=
        match m, n with
        | [], [] => true
        | (k, x) :: m, (k', y) :: n => bool_decide (k = k') && Equals x y && go m n
        | _, _ => false
        end) m n
  | VList l, VList k =>
      (fix go l k :=
        match l, k with
        | [], [] => true
        | x :: l, y :: k => Equals x y && go l k
        | _, _ => false
        end) l k
  | _, _ => false
  end.

(** [CopyWithoutEmptyChildren]; [None] is NULL. *)
Fixpoint CopyWithoutEmptyChildren (node : Value) : outcome (option Value) :=
  match node with
  | VList l =>
      copy ← (fix go l copy :=
        match l with
        | [] => Ret copy
        | x :: l => c ← CopyWithoutEmptyChildren x; go l (match c with Some c => copy ++ [c] | None => copy end)
        end) l [];
      Ret (match copy with [] => None | _ => Some (VList copy) end)
  | VDictionary m =>
      copy ← (fix go m copy :=
        match m with
        | [] => Ret copy
        | (k, x) :: m => c ← CopyWithoutEmptyChildren x; go m (match c with Some c => SetWithoutPathExpansion k c copy | None => copy end)
        end) m [];
      Ret (match copy with [] => None | _ => Some (VDictionary copy) end)
  | _ => copy ← DeepCopy node; Ret (Some copy)
  end.
Definition DeepCopyWithoutEmptyChildren (d : dict) : outcome dict :=
  copy ← CopyWithoutEmptyChildren (VDictionary d);
  Ret (match copy with Some (VDictionary c) => c | _ => [] end).

(** * Dictionaries *)
Definition HasKey (key : bytes) (d : dict) : outcome bool :=
  DCHECK_UTF8 key (Ret (match map_find key d with Some _ => true | None => false end)).
Definition GetWithoutPathExpansion (key : bytes) (d : dict) : outcome (option Value) := DCHECK_UTF8 key (Ret (map_find key d)).
Definition RemoveWithoutPathExpansion (key : bytes) (d : dict) : outcome (option Value * dict) :=
  DCHECK_UTF8 key (match map_find key d with None => Ret (None, d) | Some entry => Ret (Some entry, map_erase key d) end).

(** [find('.')] and [rfind('.')]: what is before the dot and what is behind it. *)
Fixpoint find_dot (path : bytes) : option (bytes * bytes) :=
  match path with
  | [] => None
  | c :: path =>
      if c =? ch#"." then Some ([], path)
      else match find_dot path with Some (key, rest) => Some (c :: key, rest) | None => None end
  end.
Fixpoint rfind_dot (path : bytes) : option (bytes * bytes) :=
  match path with
  | [] => None
  | c :: path =>
      match rfind_dot path with
      | Some (key, rest) => Some (c :: key, rest)
      | None => if c =? ch#"." then Some ([], path) else None
      end
  end.

(** The loop of [Get]; the calls of [GetDictionary] have keys without a dot, for which
    [Get] comes to [GetWithoutPathExpansion]. *)
Fixpoint Get_loop (fuel : nat) (current_path : bytes) (d : dict) : outcome (option Value) :=
  match find_dot current_path with
  | None => GetWithoutPathExpansion current_path d
  | Some (key, rest) =>
      match fuel with
      | O => Fault OutOfFuel
      | S fuel =>
          child ← DCHECK_UTF8 key (GetWithoutPathExpansion key d);
          match child with Some (VDictionary c) => Get_loop fuel rest c | _ => Ret None end
      end
  end.
Definition Get (path : bytes) (d : dict) : outcome (option Value) := DCHECK_UTF8 path (Get_loop (length path) path d).

(** The typed getters. *)
Definition GetBoolean (path : bytes) (d : dict) : outcome (option bool) := v ← Get path d; Ret (v ≫= GetAsBoolean).
Definition GetInteger (path : bytes) (d : dict) : outcome (option Z) := v ← Get path d; Ret (v ≫= GetAsInteger).
Definition GetDouble (path : bytes) (d : dict) : outcome (option double) := v ← Get path d; Ret (v ≫= GetAsDouble).
Definition GetString (path : bytes) (d : dict) : outcome (option bytes) := v ← Get path d; Ret (v ≫= GetAsString).
Definition GetBinary (path : bytes) (d : dict) : outcome (option bytes) := v ← Get path d; Ret (v ≫= GetAsBinary).
Definition GetDictionary (path : bytes) (d : dict) : outcome (option dict) := v ← Get path d; Ret (v ≫= GetAsDictionary).
Definition GetList (path : bytes) (d : dict) : outcome (option (list Value)) := v ← Get path d; Ret (v ≫= GetAsList).
Definition GetDictionaryWithoutPathExpansion (key : bytes) (d : dict) : outcome (option dict) :=
  v ← GetWithoutPathExpansion key d; Ret (v ≫= GetAsDictionary).
Definition GetListWithoutPathExpansion (key : bytes) (d : dict) : outcome (option (list Value)) :=
  v ← GetWithoutPathExpansion key d; Ret (v ≫= GetAsList).

(** The loop of [Set]: the dictionaries on the way are made where there is none. *)
Fixpoint Set_loop (fuel : nat) (current_path : bytes) (in_value : Value) (d : dict) : outcome dict :=
  match find_dot current_path with
  | None => Ret (SetWithoutPathExpansion current_path in_value d)
  | Some (key, rest) =>
      match fuel with
      | O => Fault OutOfFuel
      | S fuel =>
          child ← GetDictionary key d;
          c ← Set_loop fuel rest in_value (default [] child);
          Ret (SetWithoutPathExpansion key (VDictionary c) d)
      end
  end.
Definition Set_ (path : bytes) (in_value : Value) (d : dict) : outcome dict := DCHECK_UTF8 path (Set_loop (length path) path in_value d).
Definition SetBoolean (path : bytes) (in_value : bool) (d : dict) : outcome dict := Set_ path (VBoolean in_value) d.
Definition SetInteger (path : bytes) (in_value : Z) (d : dict) : outcome dict := Set_ path (VInteger in_value) d.
Definition SetDouble (path : bytes) (in_value : double) (d : dict) : outcome dict := v ← FundamentalValue_double in_value; Set_ path v d.
Definition SetString (path : bytes) (in_value : bytes) (d : dict) : outcome dict := v ← StringValue in_value; Set_ path v d.

(** The dictionary [path] leads to is changed in place to [s]. *)
Fixpoint store_at (fuel : nat) (path : bytes) (s d : dict) : dict :=
  match fuel, find_dot path with
  | S fuel, Some (key, rest) => match map_find key d with Some (VDictionary c) => map_assign key (VDictionary (store_at fuel rest s c)) d | _ => d end
  | _, _ => map_assign path (VDictionary s) d
  end.
Definition Remove (path : bytes) (d : dict) : outcome (option Value * dict) :=
  DCHECK_UTF8 path (
  match rfind_dot path with
  | None => RemoveWithoutPathExpansion path d
  | Some (prefix, current_path) =>
      current_dictionary ← GetDictionary prefix d;
      match current_dictionary with
      | None => Ret (None, d)
      | Some c => '(out, c) ← RemoveWithoutPathExpansion current_path c; Ret (out, store_at (length prefix) prefix c d)
      end
  end).

(** [RemovePath]: dictionaries that become empty are removed too. *)
Fixpoint RemovePath_loop (fuel : nat) (path : bytes) (d : dict) : outcome (option Value * dict) :=
  match find_dot path with
  | None => RemoveWithoutPathExpansion path d
  | Some (subdict_path, rest) =>
      match fuel with
      | O => Fault OutOfFuel
      | S fuel =>
          subdict ← GetDictionary subdict_path d;
          match subdict with
          | None => Ret (None, d)
          | Some c =>
              '(result, c) ← RemovePath_loop fuel rest c;
              let d := map_assign subdict_path (VDictionary c) d in
              match result, c with
              | Some _, [] => '(_, d) ← RemoveWithoutPathExpansion subdict_path d; Ret (result, d)
              | _, _ => Ret (result, d)
              end
          end
      end
  end.
Definition RemovePath (path : bytes) (d : dict) : outcome (option Value * dict) := RemovePath_loop (length path) path d.

(** [MergeDictionary] with the entries of [v]. *)
Fixpoint MergeDictionary (v : Value) (d : dict) : outcome dict :=
  match v with
  | VDictionary m =>
      (fix merge m d :=
        match m with
        | [] => Ret d
        | (key, merge_value) :: m =>
            sub_dict ← (match merge_value with VDictionary _ => GetDictionaryWithoutPathExpansion key d | _ => Ret None end);
            d ← (match sub_dict with
                 | Some c => c ← MergeDictionary merge_value c; Ret (map_assign key (VDictionary c) d)
                 | None => x ← DeepCopy merge_value; Ret (SetWithoutPathExpansion key x d)
                 end);
            merge m d
        end) m d
  | _ => Ret d
  end.

(** * Lists *)
(** [ListValue::Set] *)
Definition ListSet (index : Z) (in_value : Value) (l : list Value) : list Value :=
  if zlen l <=? index then l ++ replicate (Z.to_nat (index - zlen l)) VNull ++ [in_value] else <[Z.to_nat index := in_value]> l.
Definition ListGet (index : Z) (l : list Value) : option Value := if zlen l <=? index then None else l !! Z.to_nat index.
(** [Remove(size_t)] *)
Definition ListRemove (index : Z) (l : list Value) : option Value * list Value :=
  if zlen l <=? index then (None, l) else (l !! Z.to_nat index, delete (Z.to_nat index) l).
(** [Remove(const Value&)]: the index of the value that was removed. *)
Fixpoint ListRemoveValue (value : Value) (l : list Value) : option Z * list Value :=
  match l with
  | [] => (None, [])
  | x :: l => if Equals x value then (Some 0, l) else let '(i, k) := ListRemoveValue value l in (Z.add 1 <$> i, x :: k)
  end.
Definition Append (in_value : Value) (l : list Value) : list Value := l ++ [in_value].
Definition AppendIfNotPresent (in_value : Value) (l : list Value) : bool * list Value :=
  if existsb (fun i => Equals i in_value) l then (false, l) else (true, l ++ [in_value]).
Definition Insert_ (index : Z) (in_value : Value) (l : list Value) : option (list Value) :=
  if zlen l <? index then None else Some (take (Z.to_nat index) l ++ in_value :: drop (Z.to_nat index) l).
Definition Find (value : Value) (l : list Value) : option (nat * Value) := list_find (fun x => Equals value x = true) l.

End Operations.
