(* ===== verification/ValuesProofs.v ===== *)
(** Laws of values: paths, removal, merging, copies and comparison of the trees of
    [Values.v]. *)
From Stdlib Require Import ZArith Lia Bool Ascii String SpecFloat.
From stdpp Require Import base list numbers strings.
From S2P Require Import Prelude Utf8 Utf8Proofs Values.

Open Scope Z_scope.

(** * Induction over a tree *)
Lemma Value_ind (P : Value -> Prop) :
  P VNull -> (forall b, P (VBoolean b)) -> (forall n, P (VInteger n)) -> (forall d, P (VDouble d)) -> (forall s, P (VString s)) -> (forall b, P (VBinary b)) ->
  (forall m, Forall (fun e => P e.2) m -> P (VDictionary m)) -> (forall l, Forall P l -> P (VList l)) -> forall v, P v.
Proof.
  intros H1 H2 H3 H4 H5 H6 HD HL. fix IH 1. intros [|b|n|d|s|b|m|l].
  - exact H1.
  - apply H2.
  - apply H3.
  - apply H4.
  - apply H5.
  - apply H6.
  - apply HD. induction m as [|[k x] m IHm]; constructor; [apply IH|exact IHm].
  - apply HL. induction l as [|x l IHl]; constructor; [apply IH|exact IHl].
Qed.

(** * Maps *)
Lemma key_lt_irrefl k : key_lt k k = false.
Proof. induction k as [|x k IH]; [done|]. cbn. rewrite Z.ltb_irrefl, Z.eqb_refl, IH. done. Qed.
Lemma key_lt_trans a : forall b c, key_lt a b = true -> key_lt b c = true -> key_lt a c = true.
Proof.
  induction a as [|x a IH]; intros [|y b] [|z c]; cbn; try done. intros H1 H2.
  destruct (Z.ltb_spec x y), (Z.eqb_spec x y), (Z.ltb_spec y z), (Z.eqb_spec y z), (Z.ltb_spec x z), (Z.eqb_spec x z); cbn in *; subst; try lia; try done; eauto.
Qed.
Lemma key_lt_total a : forall b, key_lt a b = false -> key_lt b a = false -> a = b.
Proof.
  induction a as [|x a IH]; intros [|y b]; cbn; try done. intros H1 H2.
  destruct (Z.ltb_spec x y), (Z.eqb_spec x y), (Z.ltb_spec y x), (Z.eqb_spec y x); cbn in *; subst; try lia; try done. f_equal. auto.
Qed.
Definition keys_above (k : bytes) (m : dict) : bool := forallb (fun e => key_lt k e.1) m.
Fixpoint sorted_keys (m : dict) : bool := match m with [] => true | (k, _) :: m => keys_above k m && sorted_keys m end.

Lemma keys_above_trans k k' m : key_lt k k' = true -> keys_above k' m = true -> keys_above k m = true.
Proof. intros H. apply forallb_weaken. intros [k2 v] ?. by eapply key_lt_trans. Qed.
Lemma find_above k m : keys_above k m = true -> map_find k m = None.
Proof.
  induction m as [|[k' v] m IH]; cbn; [done|]. intros [H1 H2]%andb_true_iff. case_bool_decide; [subst; by rewrite key_lt_irrefl in H1|auto].
Qed.
Ltac eq_cases := repeat case_bool_decide; subst; try congruence.
Lemma find_assign k k' v m : map_find k' (map_assign k v m) = if bool_decide (k' = k) then Some v else map_find k' m.
Proof.
  induction m as [|[k2 w] m IH]; cbn [map_assign map_find]; [done|]. destruct (bool_decide_reflect (k = k2)) as [->|]; cbn [map_find]; [eq_cases|].
  destruct (key_lt k k2); cbn [map_find]; [done|]. rewrite IH. eq_cases.
Qed.
Lemma find_erase k k' m : sorted_keys m = true -> map_find k' (map_erase k m) = if bool_decide (k' = k) then None else map_find k' m.
Proof.
  induction m as [|[k2 w] m IH]; cbn [sorted_keys map_erase map_find]; [by case_bool_decide|]. intros [H1 H2]%andb_true_iff. specialize (IH H2).
  destruct (bool_decide_reflect (k = k2)) as [->|]; cbn [map_find]; [eq_cases; by apply find_above|]. rewrite IH. eq_cases.
Qed.
Lemma above_assign k k' v m : key_lt k' k = true -> keys_above k' m = true -> keys_above k' (map_assign k v m) = true.
Proof.
  induction m as [|[k2 w] m IH]; cbn; [by intros ->|]. intros H [H1 H2]%andb_true_iff. case_bool_decide; subst; cbn; [by rewrite H1|].
  destruct (key_lt k k2); cbn; rewrite ?H, ?H1; [done|]. by apply IH.
Qed.
Lemma sorted_assign k v m : sorted_keys m = true -> sorted_keys (map_assign k v m) = true.
Proof.
  induction m as [|[k2 w] m IH]; cbn; [done|]. intros [H1 H2]%andb_true_iff. case_bool_decide; subst; cbn; [by rewrite H1|].
  destruct (key_lt k k2) eqn:E; cbn.
  - rewrite E, H1, H2. cbn. fold (keys_above k m). by rewrite (keys_above_trans k k2).
  - rewrite IH, andb_true_r by done. apply above_assign; [|done]. destruct (key_lt k2 k) eqn:E'; [done|]. by destruct (key_lt_total k k2).
Qed.
Lemma above_erase k k' m : keys_above k' m = true -> keys_above k' (map_erase k m) = true.
Proof. induction m as [|[k2 w] m IH]; cbn; [done|]. intros [H1 H2]%andb_true_iff. case_bool_decide; [done|]. cbn. rewrite H1. by apply IH. Qed.
Lemma sorted_erase k m : sorted_keys m = true -> sorted_keys (map_erase k m) = true.
Proof. induction m as [|[k2 w] m IH]; cbn; [done|]. intros [H1 H2]%andb_true_iff. case_bool_decide; [done|]. cbn. by rewrite above_erase, IH by done. Qed.
(** The entry of the greatest key goes to the end. *)
Definition keys_below (m : dict) (k : bytes) : bool := forallb (fun e => key_lt e.1 k) m.
Lemma assign_below k v m : keys_below m k = true -> map_assign k v m = m ++ [(k, v)].
Proof.
  induction m as [|[k2 w] m IH]; cbn; [done|]. intros [H1 H2]%andb_true_iff. case_bool_decide as E; [subst; by rewrite key_lt_irrefl in H1|].
  destruct (key_lt k k2) eqn:E'; [pose proof (key_lt_trans k k2 k E' H1) as X; by rewrite key_lt_irrefl in X|]. by rewrite IH.
Qed.

(** * Well-formed values *)
(** UTF-8 without non-characters, short enough to be checked. *)
Definition good_string (s : bytes) : Prop := exists cs, Forall (fun c => valid c /\ IsValidCharacter c = true) cs /\ s = text utf8 cs /\ zlen s < 2 ^ 31.

Lemma good_utf8 s : good_string s -> IsStringUTF8 s = Ret true.
Proof.
  intros (cs & Hcs & -> & Hl). assert (Forall valid cs) as Hv by (eapply Forall_impl; [exact Hcs|by intros c [? _]]).
  unfold IsStringUTF8. rewrite swrap_small by (cbn in *; unfold zlen in *; lia).
  etransitivity; [exact (IsStringUTF8_text cs Hv (length (text utf8 cs)) [] ltac:(lia))|]. f_equal. unfold all_characters.
  clear -Hcs. induction Hcs as [|c cs [_ Hc] _ IH]; [done|]. cbn [forallb]. by rewrite Hc.
Qed.
Lemma DCHECK_good dcheck_on s {A} (k : outcome A) : good_string s -> DCHECK_UTF8 dcheck_on s k = k.
Proof. intros H. unfold DCHECK_UTF8. destruct dcheck_on; [|done]. by rewrite (good_utf8 s H). Qed.
Lemma good_app s t : good_string s -> good_string t -> zlen (s ++ t) < 2 ^ 31 -> good_string (s ++ t).
Proof.
  intros (cs & Hs & -> & _) (ct & Ht & -> & _) Hl. exists (cs ++ ct). split; [by apply Forall_app|]. split; [|done].
  unfold text. by rewrite map_app, concat_app.
Qed.

(** * Paths *)
Fixpoint split_dots (s : bytes) : list bytes :=
  match s with
  | [] => [[]]
  | c :: s => if c =? ch#"." then [] :: split_dots s else match split_dots s with k :: ks => (c :: k) :: ks | [] => [[c]] end
  end.
Lemma split_find s : split_dots s = match find_dot s with None => [s] | Some (k, r) => k :: split_dots r end.
Proof. induction s as [|c s IH]; cbn [split_dots find_dot]; [done|]. destruct (c =? ch#"."); [done|]. rewrite IH. by destruct (find_dot s) as [[k r]|]. Qed.
Lemma split_rfind s : split_dots s = match rfind_dot s with None => [s] | Some (p, l) => split_dots p ++ [l] end.
Proof.
  induction s as [|c s IH]; cbn [split_dots rfind_dot]; [done|]. rewrite IH. destruct (rfind_dot s) as [[p l]|].
  - cbn [split_dots]. destruct (c =? ch#"."); [done|]. destruct (split_dots p) eqn:E; [|done]. rewrite split_find in E. by destruct (find_dot p) as [[? ?]|].
  - by destruct (c =? ch#".").
Qed.
Lemma find_dot_length s k r : find_dot s = Some (k, r) -> (length r < length s)%nat.
Proof.
  revert k. induction s as [|c s IH]; cbn; [done|]. intros k. destruct (c =? 46); [intros [= _ ->]; lia|].
  destruct (find_dot s) as [[k' r']|] eqn:E; [|done]. intros [= _ ->]. specialize (IH k' eq_refl). lia.
Qed.

(** The parts of a good path are good: a dot is one byte. *)
Lemma utf8_dot c : valid c -> c = ch#"." \/ Forall (fun b => (b =? ch#".") = false) (utf8 c).
Proof.
  intros Hc. destruct (Z.eq_dec c ch#"."); [by left|right]. unfold valid, utf8 in *. change (ch#".") with 46 in *.
  destruct (Z.leb_spec c 0x7f); [repeat constructor; lia|]. pose proof (Z.mod_pos_bound c 64 eq_refl). pose proof (Z.mod_pos_bound (c / 64) 64 eq_refl).
  pose proof (Z.mod_pos_bound (c / 4096) 64 eq_refl). assert (0 <= c / 64 /\ 0 <= c / 4096 /\ 0 <= c / 262144) as (? & ? & ?) by (repeat split; apply Z.div_pos; lia).
  destruct (Z.leb_spec c 0x7ff), (Z.leb_spec c 0xffff); repeat constructor; lia.
Qed.
Lemma find_dot_app s t : Forall (fun b => (b =? ch#".") = false) s ->
  find_dot (s ++ t) = match find_dot t with Some (k, r) => Some (s ++ k, r) | None => None end /\
  rfind_dot (s ++ t) = match rfind_dot t with Some (k, r) => Some (s ++ k, r) | None => None end.
Proof.
  induction 1 as [|b s Hb _ [IH1 IH2]]; [cbn [app]; split; [by destruct (find_dot t) as [[? ?]|]|by destruct (rfind_dot t) as [[? ?]|]]|].
  cbn [app find_dot rfind_dot]. rewrite Hb, IH1, IH2. split; [by destruct (find_dot t) as [[? ?]|]|by destruct (rfind_dot t) as [[? ?]|]].
Qed.
Lemma text_find cs k r : Forall valid cs -> find_dot (text utf8 cs) = Some (k, r) -> exists a b, cs = a ++ ch#"." :: b /\ k = text utf8 a /\ r = text utf8 b.
Proof.
  intros Hcs. revert k. induction Hcs as [|c cs Hc _ IH]; intros k; [done|]. change (text utf8 (c :: cs)) with (utf8 c ++ text utf8 cs).
  destruct (utf8_dot c Hc) as [->|Hd].
  - cbn. intros [= <- <-]. by exists [], cs.
  - destruct (find_dot_app (utf8 c) (text utf8 cs) Hd) as [-> _]. destruct (find_dot (text utf8 cs)) as [[k' r']|] eqn:E; [|done].
    intros [= <- <-]. destruct (IH k' eq_refl) as (a & b & -> & -> & ->). by exists (c :: a), b.
Qed.
Lemma text_rfind cs k r : Forall valid cs -> rfind_dot (text utf8 cs) = Some (k, r) -> exists a b, cs = a ++ ch#"." :: b /\ k = text utf8 a /\ r = text utf8 b.
Proof.
  intros Hcs. revert k. induction Hcs as [|c cs Hc _ IH]; intros k; [done|]. change (text utf8 (c :: cs)) with (utf8 c ++ text utf8 cs).
  destruct (utf8_dot c Hc) as [->|Hd].
  - change (utf8 (ch#".")) with [46]. cbn [app rfind_dot]. destruct (rfind_dot (text utf8 cs)) as [[k' r']|] eqn:E.
    + intros [= <- <-]. destruct (IH k' eq_refl) as (a & b & -> & -> & ->). by exists (ch#"." :: a), b.
    + cbn. intros [= <- <-]. by exists [], cs.
  - destruct (find_dot_app (utf8 c) (text utf8 cs) Hd) as [_ ->]. destruct (rfind_dot (text utf8 cs)) as [[k' r']|] eqn:E; [|done].
    intros [= <- <-]. destruct (IH k' eq_refl) as (a & b & -> & -> & ->). by exists (c :: a), b.
Qed.
Lemma good_parts s a b : (exists cs, Forall (fun c => valid c /\ IsValidCharacter c = true) cs /\ s = text utf8 cs /\ zlen s < 2 ^ 31 /\ cs = a ++ ch#"." :: b) ->
  good_string (text utf8 a) /\ good_string (text utf8 b).
Proof.
  intros (cs & Hcs & -> & Hl & ->). apply Forall_app in Hcs as [Ha Hb]. apply Forall_cons_1 in Hb as [_ Hb].
  assert (text utf8 (a ++ ch#"." :: b) = text utf8 a ++ [ch#"."] ++ text utf8 b) as E by (unfold text; by rewrite map_app, concat_app).
  rewrite E, !zlen_app in Hl. unfold zlen in Hl. split; [exists a|exists b]; repeat split; try done; unfold zlen; lia.
Qed.
Lemma good_find s k r : good_string s -> find_dot s = Some (k, r) -> good_string k /\ good_string r.
Proof.
  intros (cs & Hcs & -> & Hl) E. assert (Forall valid cs) as Hv by (eapply Forall_impl; [exact Hcs|by intros c [? _]]).
  destruct (text_find cs k r Hv E) as (a & b & Ecs & -> & ->). apply (good_parts (text utf8 cs)). by exists cs.
Qed.
Lemma good_rfind s k r : good_string s -> rfind_dot s = Some (k, r) -> good_string k /\ good_string r.
Proof.
  intros (cs & Hcs & -> & Hl) E. assert (Forall valid cs) as Hv by (eapply Forall_impl; [exact Hcs|by intros c [? _]]).
  destruct (text_rfind cs k r Hv E) as (a & b & Ecs & -> & ->). apply (good_parts (text utf8 cs)). by exists cs.
Qed.

(** ** What the operations on paths do *)
Fixpoint lookup_path (ks : list bytes) (d : dict) : option Value :=
  match ks with
  | [] => None
  | [k] => map_find k d
  | k :: ks => match map_find k d with Some (VDictionary c) => lookup_path ks c | _ => None end
  end.
Definition child (k : bytes) (d : dict) : dict := default [] (map_find k d ≫= GetAsDictionary).
Fixpoint store_path (ks : list bytes) (v : Value) (d : dict) : dict :=
  match ks with
  | [] => d
  | [k] => map_assign k v d
  | k :: ks => map_assign k (VDictionary (store_path ks v (child k d))) d
  end.
Lemma split_not_nil s : split_dots s <> [].
Proof. rewrite split_find. by destruct (find_dot s) as [[? ?]|]. Qed.
Lemma lookup_cons k ks d : ks <> [] -> lookup_path (k :: ks) d = match map_find k d with Some (VDictionary c) => lookup_path ks c | _ => None end.
Proof. by destruct ks. Qed.
Lemma lookup_nil ks : lookup_path ks [] = None.
Proof. by destruct ks as [|? [|? ?]]. Qed.
Lemma store_cons k ks v d : ks <> [] -> store_path (k :: ks) v d = map_assign k (VDictionary (store_path ks v (child k d))) d.
Proof. by destruct ks. Qed.

Section Paths.
Context (dcheck_on : bool).
Lemma Get_loop_lookup fuel : forall path d, (length path <= fuel)%nat -> good_string path -> Get_loop dcheck_on fuel path d = Ret (lookup_path (split_dots path) d).
Proof.
  induction fuel as [|fuel IH]; intros path d Hf Hg; rewrite split_find; cbn [Get_loop]; destruct (find_dot path) as [[k r]|] eqn:E;
    try (unfold GetWithoutPathExpansion; by rewrite DCHECK_good).
  - apply find_dot_length in E. lia.
  - destruct (good_find path k r Hg E) as [Hk Hr]. rewrite lookup_cons by apply split_not_nil. unfold GetWithoutPathExpansion. rewrite !DCHECK_good by done. obind.
    destruct (map_find k d) as [[]|]; try done. apply IH; [|done]. apply find_dot_length in E. lia.
Qed.
Lemma Get_lookup path d : good_string path -> Get dcheck_on path d = Ret (lookup_path (split_dots path) d).
Proof. intros. unfold Get. rewrite DCHECK_good by done. by apply Get_loop_lookup. Qed.
Lemma no_dot_key path k r : find_dot path = Some (k, r) -> find_dot k = None.
Proof.
  revert k. induction path as [|c path IH]; cbn; [done|]. intros k. destruct (c =? 46) eqn:Ec; [by intros [= <- _]|].
  destruct (find_dot path) as [[k' r']|]; [|done]. intros [= <- ->]. cbn. rewrite Ec. by rewrite (IH k').
Qed.
Lemma GetDictionary_key path k r d : find_dot path = Some (k, r) -> good_string k -> GetDictionary dcheck_on k d = Ret (map_find k d ≫= GetAsDictionary).
Proof. intros E Hk. unfold GetDictionary. rewrite Get_lookup by done. rewrite split_find, (no_dot_key path k r E). done. Qed.
Lemma Set_loop_store fuel : forall path v d, (length path <= fuel)%nat -> good_string path -> Set_loop dcheck_on fuel path v d = Ret (store_path (split_dots path) v d).
Proof.
  induction fuel as [|fuel IH]; intros path v d Hf Hg; rewrite split_find; cbn [Set_loop]; destruct (find_dot path) as [[k r]|] eqn:E; try done.
  - apply find_dot_length in E. lia.
  - destruct (good_find path k r Hg E) as [Hk Hr]. rewrite store_cons by apply split_not_nil. rewrite (GetDictionary_key path k r d E Hk). obind.
    rewrite IH; [done| |done]. apply find_dot_length in E. lia.
Qed.
Lemma Set_store path v d : good_string path -> Set_ dcheck_on path v d = Ret (store_path (split_dots path) v d).
Proof. intros. unfold Set_. rewrite DCHECK_good by done. by apply Set_loop_store. Qed.
End Paths.

(** * Well-formed trees *)
Fixpoint value_ok (v : Value) : Prop :=
  match v with
  | VInteger n => - 2 ^ 31 <= n < 2 ^ 31
  | VDouble d => IsFinite d = true
  | VString s => good_string s
  | VDictionary m =>
      sorted_keys m = true /\
      (fix all m := match m with [] => True | (k, x) :: m => (good_string k /\ value_ok x) /\ all m end) m
  | VList l => (fix all l := match l with [] => True | x :: l => value_ok x /\ all l end) l
  | _ => True
  end.
Definition dict_ok (d : dict) : Prop := value_ok (VDictionary d).
Definition entry_ok (e : bytes * Value) : Prop := good_string e.1 /\ value_ok e.2.
Lemma dict_ok_spec m : dict_ok m <-> sorted_keys m = true /\ Forall entry_ok m.
Proof.
  unfold dict_ok. cbn [value_ok]. enough (forall m, (fix all m := match m with [] => True | (k, x) :: m => (good_string k /\ value_ok x) /\ all m end) m <-> Forall entry_ok m) as H by (by rewrite H).
  clear m. induction m as [|[k x] m IH]; [by split|]. rewrite Forall_cons, IH. done.
Qed.
Lemma list_ok_spec l : value_ok (VList l) <-> Forall value_ok l.
Proof. cbn [value_ok]. induction l as [|x l IH]; [by split|]. rewrite Forall_cons, IH. done. Qed.
Lemma dict_ok_nil : dict_ok [].
Proof. by apply dict_ok_spec. Qed.
#[local] Hint Resolve dict_ok_nil : core.

Lemma ok_find k v m : dict_ok m -> map_find k m = Some v -> entry_ok (k, v).
Proof.
  intros [_ H]%dict_ok_spec. induction H as [|[k' w] m He _ IH]; cbn [map_find]; [done|]. case_bool_decide; [|done]. intros [= ->]. by subst.
Qed.
Lemma Forall_assign P k v m : Forall P m -> P (k, v) -> Forall P (map_assign k v m).
Proof.
  intros H Hp. induction H as [|[k' w] m He Hm IH]; cbn [map_assign]; [by constructor|]. case_bool_decide; [subst; by constructor|].
  destruct (key_lt k k'); repeat (constructor || assumption).
Qed.
Lemma ok_assign k v m : dict_ok m -> entry_ok (k, v) -> dict_ok (map_assign k v m).
Proof. rewrite !dict_ok_spec. intros [? ?] ?. split; [by apply sorted_assign|by apply Forall_assign]. Qed.
Lemma ok_erase k m : dict_ok m -> dict_ok (map_erase k m).
Proof.
  rewrite !dict_ok_spec. intros [? H]. split; [by apply sorted_erase|].
  clear -H. induction H as [|[k' w] m He Hm IH]; cbn [map_erase]; [done|]. case_bool_decide; [done|]. by constructor.
Qed.
Lemma assign_same k v m : sorted_keys m = true -> map_find k m = Some v -> map_assign k v m = m.
Proof.
  induction m as [|[k' w] m IH]; cbn [sorted_keys map_find map_assign]; [done|]. intros [H1 H2]%andb_true_iff. case_bool_decide; [intros [= ->]; by subst|].
  intros Hf. destruct (key_lt k k') eqn:E; [|by rewrite IH]. rewrite find_above in Hf; [done|]. by eapply keys_above_trans.
Qed.
Lemma assign_assign k v w m : map_assign k v (map_assign k w m) = map_assign k v m.
Proof.
  induction m as [|[k' x] m IH]; cbn [map_assign]; [by rewrite bool_decide_true|]. destruct (bool_decide_reflect (k = k')) as [->|]; cbn [map_assign].
  - by rewrite bool_decide_true.
  - destruct (key_lt k k') eqn:E; cbn [map_assign]; [by rewrite bool_decide_true|]. by rewrite bool_decide_false, E, IH.
Qed.
Lemma erase_absent k m : map_find k m = None -> map_erase k m = m.
Proof. induction m as [|[k' w] m IH]; cbn [map_find map_erase]; [done|]. case_bool_decide; [done|]. intros. by rewrite IH. Qed.

(** ** Laws of paths *)
Lemma ok_child k m : dict_ok m -> dict_ok (child k m).
Proof.
  intros H. unfold child. destruct (map_find k m) as [[]|] eqn:E; try (exact dict_ok_nil). by destruct (ok_find k _ m H E).
Qed.
Lemma ok_store ks v : forall d, Forall good_string ks -> dict_ok d -> value_ok v -> dict_ok (store_path ks v d).
Proof.
  induction ks as [|k ks IH]; intros d Hk Hd Hv; [done|]. apply Forall_cons_1 in Hk as [Hk Hks]. destruct ks as [|k' ks]; [by apply ok_assign|].
  rewrite store_cons by done. apply ok_assign; [done|]. split; [done|]. apply IH; [done|by apply ok_child|done].
Qed.
Lemma lookup_store ks v : forall d, ks <> [] -> lookup_path ks (store_path ks v d) = Some v.
Proof.
  induction ks as [|k ks IH]; intros d Hne; [done|]. destruct ks as [|k' ks]; [cbn; by rewrite find_assign, bool_decide_true|].
  rewrite store_cons, lookup_cons, find_assign, bool_decide_true by done. by apply IH.
Qed.
(** Paths that part from [ks] are not touched. *)
Lemma lookup_store_other ks v : forall qs d, ~ ks `prefix_of` qs -> ~ qs `prefix_of` ks -> lookup_path qs (store_path ks v d) = lookup_path qs d.
Proof.
  induction ks as [|k ks IH]; intros qs d H1 H2; [done|]. destruct qs as [|q qs]; [by destruct H2; apply prefix_nil|].
  destruct (decide (q = k)) as [->|Hq].
  - destruct ks as [|k' ks]; [by destruct H1; apply prefix_cons, prefix_nil|]. destruct qs as [|q' qs]; [by destruct H2; apply prefix_cons, prefix_nil|].
    rewrite store_cons, !lookup_cons, find_assign, bool_decide_true by done.
    rewrite IH; [|intros H; apply H1; by apply prefix_cons|intros H; apply H2; by apply prefix_cons]. unfold child. destruct (map_find k d) as [[]|]; try apply lookup_nil; done.
  - assert (map_find q (store_path (k :: ks) v d) = map_find q d) as E.
    { destruct ks as [|k' ks]; [|rewrite store_cons by done]; cbn [store_path]; by rewrite find_assign, bool_decide_false. }
    destruct qs as [|q' qs]; [done|]. by rewrite !lookup_cons, E.
Qed.
(** Below [ks] is what was stored, above it a dictionary. *)
Lemma lookup_store_below ks v qs : forall d, ks <> [] -> qs <> [] -> lookup_path (ks ++ qs) (store_path ks v d) = match v with VDictionary c => lookup_path qs c | _ => None end.
Proof.
  induction ks as [|k ks IH]; intros d Hk Hq; [done|]. cbn [app]. rewrite lookup_cons by (by destruct ks). destruct ks as [|k' ks].
  - cbn [store_path]. by rewrite find_assign, bool_decide_true.
  - rewrite store_cons, find_assign, bool_decide_true by done. by apply IH.
Qed.
Lemma lookup_store_above ks v qs : forall d, ks <> [] -> qs <> [] -> exists c, lookup_path qs (store_path (qs ++ ks) v d) = Some (VDictionary c).
Proof.
  induction qs as [|q qs IH]; intros d Hk Hq; [done|]. cbn [app]. rewrite store_cons by (by destruct qs). destruct qs as [|q' qs].
  - cbn [lookup_path]. rewrite find_assign, bool_decide_true by done. by eexists.
  - rewrite lookup_cons, find_assign, bool_decide_true by done. by apply IH.
Qed.

(** ** Removal *)
Fixpoint remove_path (ks : list bytes) (d : dict) : dict :=
  match ks with
  | [] => d
  | [k] => map_erase k d
  | k :: ks => match map_find k d with Some (VDictionary c) => map_assign k (VDictionary (remove_path ks c)) d | _ => d end
  end.
Lemma remove_cons k ks d : ks <> [] -> remove_path (k :: ks) d = match map_find k d with Some (VDictionary c) => map_assign k (VDictionary (remove_path ks c)) d | _ => d end.
Proof. by destruct ks. Qed.
Lemma ok_remove ks : forall d, dict_ok d -> dict_ok (remove_path ks d).
Proof.
  induction ks as [|k ks IH]; intros d Hd; [done|]. destruct ks as [|k' ks]; [by apply ok_erase|]. rewrite remove_cons by done.
  destruct (map_find k d) as [[]|] eqn:E; try done. destruct (ok_find k _ d Hd E) as [Hk Hc]. apply ok_assign; [done|]. split; [done|]. by apply IH.
Qed.
Lemma lookup_remove ks : forall d, dict_ok d -> ks <> [] -> lookup_path ks (remove_path ks d) = None.
Proof.
  induction ks as [|k ks IH]; intros d Hd Hne; [done|]. destruct ks as [|k' ks].
  - cbn. apply dict_ok_spec in Hd as [Hs _]. by rewrite find_erase, bool_decide_true.
  - rewrite remove_cons, lookup_cons by done. destruct (map_find k d) as [[]|] eqn:E; rewrite ?find_assign, ?bool_decide_true, ?E by done; try done.
    destruct (ok_find k _ d Hd E). by apply IH.
Qed.
Lemma lookup_remove_other ks : forall qs d, dict_ok d -> ~ ks `prefix_of` qs -> ~ qs `prefix_of` ks -> lookup_path qs (remove_path ks d) = lookup_path qs d.
Proof.
  induction ks as [|k ks IH]; intros qs d Hd H1 H2; [done|]. destruct qs as [|q qs]; [by destruct H2; apply prefix_nil|].
  destruct (decide (q = k)) as [->|Hq].
  - destruct ks as [|k' ks]; [by destruct H1; apply prefix_cons, prefix_nil|]. destruct qs as [|q' qs]; [by destruct H2; apply prefix_cons, prefix_nil|].
    rewrite remove_cons, !lookup_cons by done. destruct (map_find k d) as [[]|] eqn:E; rewrite ?find_assign, ?bool_decide_true, ?E by done; try done.
    destruct (ok_find k _ d Hd E). apply IH; [done|intros Hp; apply H1; by apply prefix_cons|intros Hp; apply H2; by apply prefix_cons].
  - assert (map_find q (remove_path (k :: ks) d) = map_find q d) as E.
    { destruct ks as [|k' ks]; [cbn; apply dict_ok_spec in Hd as [Hs _]; by rewrite find_erase, bool_decide_false|]. rewrite remove_cons by done.
      destruct (map_find k d) as [[]|]; rewrite ?find_assign, ?bool_decide_false by done; done. }
    destruct qs as [|q' qs]; [done|]. by rewrite !lookup_cons, E.
Qed.
Lemma remove_absent ks : forall d, dict_ok d -> lookup_path ks d = None -> remove_path ks d = d.
Proof.
  induction ks as [|k ks IH]; intros d Hd Hl; [done|]. destruct ks as [|k' ks]; [by apply erase_absent|]. rewrite remove_cons by done. rewrite lookup_cons in Hl by done.
  destruct (map_find k d) as [[]|] eqn:E; try done. destruct (ok_find k _ d Hd E). rewrite IH by done. apply dict_ok_spec in Hd as [? _]. by apply assign_same.
Qed.

Section Removal.
Context (dcheck_on : bool).
Lemma store_at_remove fuel : forall path l d c, (length path <= fuel)%nat -> dict_ok d ->
  lookup_path (split_dots path) d = Some (VDictionary c) -> store_at fuel path (map_erase l c) d = remove_path (split_dots path ++ [l]) d.
Proof.
  induction fuel as [|fuel IH]; intros path l d c Hf Hd; rewrite split_find; cbn [store_at]; destruct (find_dot path) as [[k r]|] eqn:E; cbn [app].
  - apply find_dot_length in E. lia.
  - cbn [lookup_path app remove_path]. by intros ->.
  - rewrite lookup_cons, remove_cons by (apply split_not_nil || by destruct (split_dots r)). destruct (map_find k d) as [[]|] eqn:Ek; try done. intros Hlk.
    destruct (ok_find k _ d Hd Ek). apply find_dot_length in E. by rewrite (IH r l _ c) by (done || lia).
  - cbn [lookup_path app remove_path]. by intros ->.
Qed.
Lemma lookup_app_last ps l : forall d, ps <> [] -> lookup_path (ps ++ [l]) d = match lookup_path ps d with Some (VDictionary c) => map_find l c | _ => None end.
Proof.
  induction ps as [|p ps IH]; intros d Hne; [done|]. cbn [app]. rewrite lookup_cons by (by destruct ps). destruct ps as [|p' ps]; [done|].
  rewrite lookup_cons by done. destruct (map_find p d) as [[]|]; try done. by apply IH.
Qed.
Lemma Remove_path path d : good_string path -> dict_ok d -> Remove dcheck_on path d = Ret (lookup_path (split_dots path) d, remove_path (split_dots path) d).
Proof.
  intros Hg Hd. unfold Remove. rewrite DCHECK_good by done. rewrite split_rfind. destruct (rfind_dot path) as [[p l]|] eqn:E.
  - destruct (good_rfind path p l Hg E) as [Hp Hl]. unfold GetDictionary. rewrite Get_lookup by done. obind.
    rewrite lookup_app_last by apply split_not_nil. destruct (lookup_path (split_dots p) d) as [[]|] eqn:Ep; cbn [mbind option_bind GetAsDictionary];
      try (rewrite remove_absent; [done|done|]; rewrite lookup_app_last by apply split_not_nil; by rewrite Ep).
    unfold RemoveWithoutPathExpansion. rewrite DCHECK_good by done.
    assert (store_at (length p) p (map_erase l dictionary_) d = remove_path (split_dots p ++ [l]) d) as Es by (by apply store_at_remove).
    destruct (map_find l dictionary_) eqn:El; obind; rewrite <- Es; [done|]. by rewrite erase_absent.
  - unfold RemoveWithoutPathExpansion. rewrite DCHECK_good by done. cbn. destruct (map_find path d) eqn:El; [done|]. by rewrite erase_absent.
Qed.
End Removal.

(** * Copies and comparison *)
Lemma below_snoc acc k (x : Value) (m : dict) : keys_above k m = true -> Forall (fun e => keys_below acc e.1 = true) m -> Forall (fun e => keys_below (acc ++ [(k, x)]) e.1 = true) m.
Proof.
  intros Ha Hb. apply List.Forall_forall. intros e He. unfold keys_below. rewrite forallb_app. apply andb_true_iff. split.
  - revert e He. by apply List.Forall_forall.
  - cbn. rewrite andb_true_r. unfold keys_above in Ha. rewrite forallb_forall in Ha. by apply (Ha e).
Qed.
Lemma dict_copy_app (f : Value -> outcome Value) m : forall acc, Forall (fun e => f e.2 = Ret e.2) m -> sorted_keys m = true -> Forall (fun e => keys_below acc e.1 = true) m ->
  (fix copy m result := match m with [] => Ret result | (k, x) :: m => x ← f x; copy m (SetWithoutPathExpansion k x result) end) m acc = Ret (acc ++ m).
Proof.
  induction m as [|[k x] m IH]; intros acc Hf Hs Hb; [by rewrite app_nil_r|]. apply Forall_cons_1 in Hf as [Hx Hf]. apply Forall_cons_1 in Hb as [Hk Hb].
  cbn [sorted_keys] in Hs. apply andb_true_iff in Hs as [Ha Hs]. cbn in Hx. rewrite Hx. obind. unfold SetWithoutPathExpansion. cbn in Hk.
  rewrite assign_below by done. rewrite IH by (done || by apply below_snoc).
  by rewrite <- app_assoc.
Qed.
Lemma list_copy_app (f : Value -> outcome Value) l : forall acc, Forall (fun x => f x = Ret x) l ->
  (fix copy l result := match l with [] => Ret result | x :: l => x ← f x; copy l (result ++ [x]) end) l acc = Ret (acc ++ l).
Proof.
  induction l as [|x l IH]; intros acc Hf; [by rewrite app_nil_r|]. apply Forall_cons_1 in Hf as [Hx Hf]. rewrite Hx. obind. rewrite IH by done. by rewrite <- app_assoc.
Qed.
Lemma DeepCopy_same dcheck_on v : value_ok v -> DeepCopy dcheck_on v = Ret v.
Proof.
  induction v as [| | |d|s| |m IH|l IH] using Value_ind; intros Hok; try done.
  - cbn in *. unfold FundamentalValue_double. by rewrite Hok.
  - cbn in *. unfold StringValue. by rewrite DCHECK_good.
  - apply dict_ok_spec in Hok as [Hs He]. cbn [DeepCopy]. rewrite dict_copy_app; [done| |done|].
    + apply Forall_forall. intros e Hin. rewrite Forall_forall in IH, He. apply IH; [done|]. by destruct (He e Hin).
    + apply Forall_forall. done.
  - apply list_ok_spec in Hok. cbn [DeepCopy]. rewrite list_copy_app; [done|].
    apply Forall_forall. intros x Hin. rewrite Forall_forall in IH, Hok. auto.
Qed.

(** Values up to the sign of a zero. *)
Definition unsigned_zero (d : double) : double := match d with S754_zero _ => S754_zero false | _ => d end.
Fixpoint norm (v : Value) : Value :=
  match v with
  | VDouble d => VDouble (unsigned_zero d)
  | VDictionary m => VDictionary (map (fun e => (e.1, norm e.2)) m)
  | VList l => VList (map norm l)
  | _ => v
  end.
Lemma SFeqb_norm a b : IsFinite a = true -> IsFinite b = true -> SFeqb a b = true <-> unsigned_zero a = unsigned_zero b.
Proof.
  intros Ha Hb. destruct a as [s|s| |s m e], b as [s'|s'| |s' m' e']; try done; unfold SFeqb; cbn.
  - split; [by destruct s'|done].
  - split; [by destruct s|done].
  - destruct (Z.compare_spec e e') as [->|H|H]; [|split; [by destruct s, s'|intros [= -> -> ->]; lia]..].
    change (Pos.compare_cont Eq m m') with (Pos.compare m m'). destruct s, s', (Pos.compare_spec m m'); cbn; split; intros E; try congruence; injection E; lia.
Qed.
Lemma Equals_norm v : forall w, value_ok v -> value_ok w -> Equals v w = true <-> norm v = norm w.
Proof.
  induction v as [|b|n|d|s|b|m IH|l IH] using Value_ind; intros w Hv Hw; destruct w as [|b'|n'|d'|s'|b'|m'|l']; try done; cbn [norm].
  - cbn. rewrite eqb_true_iff. split; congruence.
  - cbn. rewrite Z.eqb_eq. split; congruence.
  - cbn [Equals]. rewrite (SFeqb_norm d d' Hv Hw). split; congruence.
  - cbn. rewrite bool_decide_eq_true. split; congruence.
  - cbn. rewrite bool_decide_eq_true. split; congruence.
  - apply dict_ok_spec in Hv as [_ Hv]. apply dict_ok_spec in Hw as [_ Hw]. cbn [Equals].
    enough (forall m', Forall entry_ok m' -> (fix go m n := match m, n with [], [] => true | (k, x) :: m, (k', y) :: n => bool_decide (k = k') && Equals x y && go m n | _, _ => false end) m m' = true <->
      map (fun e => (e.1, norm e.2)) m = map (fun e => (e.1, norm e.2)) m') as H by (rewrite H by done; split; congruence).
    clear m' Hw. induction IH as [|[k x] m Hx _ IHm]; intros [|[k' y] m'] Hw; try done. apply Forall_cons_1 in Hv as [[_ Hvx] Hv]. apply Forall_cons_1 in Hw as [[_ Hwy] Hw].
    cbn [map fst snd] in *. rewrite !andb_true_iff, bool_decide_eq_true, (Hx y Hvx Hwy), (IHm Hv m' Hw). split; [intros [[-> ->] ->]; done|intros [= -> -> ->]; done].
  - apply list_ok_spec in Hv, Hw. cbn [Equals].
    enough (forall l', Forall value_ok l' -> (fix go l k := match l, k with [], [] => true | x :: l, y :: k => Equals x y && go l k | _, _ => false end) l l' = true <-> map norm l = map norm l') as H
      by (rewrite H by done; split; congruence).
    clear l' Hw. induction IH as [|x l Hx _ IHl]; intros [|y l'] Hw; try done. apply Forall_cons_1 in Hv as [Hvx Hv]. apply Forall_cons_1 in Hw as [Hwy Hw].
    cbn [map]. rewrite andb_true_iff, (Hx y Hvx Hwy), (IHl Hv l' Hw). split; [intros [-> ->]; done|intros [= -> ->]; done].
Qed.

(** [RemovePath] also takes the dictionaries away that become empty. *)
Fixpoint remove_empty (ks : list bytes) (d : dict) : dict :=
  match ks with
  | [] => d
  | [k] => map_erase k d
  | k :: ks =>
      match map_find k d with
      | Some (VDictionary c) =>
          match lookup_path ks c, remove_empty ks c with
          | None, _ => d
          | Some _, [] => map_erase k d
          | Some _, c => map_assign k (VDictionary c) d
          end
      | _ => d
      end
  end.
Lemma erase_assign k v m : sorted_keys m = true -> map_erase k (map_assign k v m) = map_erase k m.
Proof.
  induction m as [|[k' w] m IH]; cbn [sorted_keys map_assign map_erase]; [by rewrite bool_decide_true|]. intros [H1 H2]%andb_true_iff.
  destruct (bool_decide_reflect (k = k')) as [->|]; cbn [map_erase]; [by rewrite bool_decide_true|]. destruct (key_lt k k') eqn:E; cbn [map_erase].
  - rewrite bool_decide_true by done. rewrite erase_absent; [done|]. apply find_above. by eapply keys_above_trans.
  - by rewrite bool_decide_false, IH by done.
Qed.
Lemma RemovePath_loop_spec dcheck_on fuel : forall path d, (length path <= fuel)%nat -> good_string path -> dict_ok d ->
  RemovePath_loop dcheck_on fuel path d = Ret (lookup_path (split_dots path) d, remove_empty (split_dots path) d).
Proof.
  assert (forall path d, good_string path -> RemoveWithoutPathExpansion dcheck_on path d = Ret (map_find path d, map_erase path d)) as Hrm.
  { intros path d Hg. unfold RemoveWithoutPathExpansion. rewrite DCHECK_good by done. destruct (map_find path d) eqn:E; [done|]. by rewrite erase_absent. }
  induction fuel as [|fuel IH]; intros path d Hf Hg Hd; rewrite split_find; cbn [RemovePath_loop]; destruct (find_dot path) as [[k r]|] eqn:E; try (by rewrite Hrm).
  - apply find_dot_length in E. lia.
  - destruct (good_find path k r Hg E) as [Hk Hr]. rewrite (GetDictionary_key dcheck_on path k r d E Hk). obind. rewrite lookup_cons by apply split_not_nil.
    assert (remove_empty (k :: split_dots r) d = match map_find k d with Some (VDictionary c) =>
      match lookup_path (split_dots r) c, remove_empty (split_dots r) c with None, _ => d | Some _, [] => map_erase k d | Some _, c => map_assign k (VDictionary c) d end | _ => d end) as ->
      by (pose proof (split_not_nil r); by destruct (split_dots r)).
    destruct (map_find k d) as [[]|] eqn:Ek; cbn [mbind option_bind GetAsDictionary]; try done. destruct (ok_find k _ d Hd Ek) as [_ Hc]. apply find_dot_length in E.
    rewrite (IH r dictionary_) by (done || lia). obind. assert (sorted_keys d = true) by (by apply dict_ok_spec in Hd as [? _]).
    destruct (lookup_path (split_dots r) dictionary_) eqn:El; [destruct (remove_empty (split_dots r) dictionary_) eqn:Er; [rewrite Hrm by done; obind; by rewrite erase_assign|done]|].
    assert (remove_empty (split_dots r) dictionary_ = dictionary_) as ->; [|by rewrite assign_same].
    clear -El Hc. revert dictionary_ El Hc. induction (split_dots r) as [|q qs IHq]; intros c El Hc; [done|]. destruct qs as [|q' qs]; [by apply erase_absent|].
    rewrite lookup_cons in El by done. cbn [remove_empty]. destruct (map_find q c) as [[]|]; try done. by rewrite El.
Qed.
Theorem RemovePath_exact dcheck_on path d : good_string path -> dict_ok d ->
  RemovePath dcheck_on path d = Ret (lookup_path (split_dots path) d, remove_empty (split_dots path) d).
Proof. intros. unfold RemovePath. by apply RemovePath_loop_spec. Qed.

(** * Merging *)
(** What the entry of a key becomes. *)
Definition merged_entry (dcheck_on : bool) (theirs ours result : option Value) : Prop :=
  match theirs with
  | None => result = ours
  | Some v =>
      match v, ours with
      | VDictionary _, Some (VDictionary c) => exists c', MergeDictionary dcheck_on v c = Ret c' /\ result = Some (VDictionary c')
      | _, _ => result = Some v
      end
  end.
Lemma Merge_step dcheck_on k x d : entry_ok (k, x) -> dict_ok d ->
  (forall c, dict_ok c -> exists c', MergeDictionary dcheck_on x c = Ret c' /\ dict_ok c') ->
  exists v, (forall A (K : dict -> outcome A),
     (sub_dict ← (match x with VDictionary _ => GetDictionaryWithoutPathExpansion dcheck_on k d | _ => Ret None end);
      d ← (match sub_dict with
           | Some c => c ← MergeDictionary dcheck_on x c; Ret (map_assign k (VDictionary c) d)
           | None => x ← DeepCopy dcheck_on x; Ret (SetWithoutPathExpansion k x d)
           end);
      K d) = K (map_assign k v d)) /\ value_ok v /\ merged_entry dcheck_on (Some x) (map_find k d) (Some v).
Proof.
  intros [Hk Hx] Hd HM. cbn in Hk, Hx. unfold merged_entry.
  assert (forall v, v = x -> DeepCopy dcheck_on x = Ret v) as Hcopy by (intros v ->; by apply DeepCopy_same).
  destruct x as [| | | | | |m|]; try (rewrite (Hcopy _ eq_refl); obind; by eexists).
  unfold GetDictionaryWithoutPathExpansion, GetWithoutPathExpansion. rewrite DCHECK_good by done. obind.
  destruct (map_find k d) as [[]|] eqn:E; cbn [mbind option_bind GetAsDictionary]; try (rewrite (Hcopy _ eq_refl); obind; by eexists).
  destruct (ok_find k _ d Hd E) as [_ Hc]. destruct (HM dictionary_ Hc) as (c' & -> & ?). obind. exists (VDictionary c'). split; [done|]. split; [done|]. by eexists.
Qed.
Lemma Merge_entries dcheck_on v : value_ok v -> forall d, dict_ok d -> exists d', MergeDictionary dcheck_on v d = Ret d' /\ dict_ok d' /\
  match v with VDictionary m => forall k, merged_entry dcheck_on (map_find k m) (map_find k d) (map_find k d') | _ => d' = d end.
Proof.
  induction v as [|b|n|x|s|b|m IH|l IH] using Value_ind; intros Hv d Hd; try by exists d. apply dict_ok_spec in Hv as [Hs He]. cbn [MergeDictionary].
  revert d Hd. induction IH as [|[k x] m Hx _ IHm]; intros d Hd; [by exists d|]. apply Forall_cons_1 in He as [Hk He].
  cbn [sorted_keys] in Hs. apply andb_true_iff in Hs as [Ha Hs].
  destruct (Merge_step dcheck_on k x d Hk Hd) as (v & E & Hv & Hm).
  { intros c Hc. destruct Hk as [_ Hxo]. destruct (Hx Hxo c Hc) as (c' & ? & ? & _). by exists c'. }
  rewrite E. destruct (IHm Hs He (map_assign k v d)) as (d' & Ed & Hd' & H); [apply ok_assign; [done|by destruct Hk]|].
  exists d'. split; [exact Ed|]. split; [done|]. intros k'. specialize (H k'). rewrite find_assign in H. cbn [map_find]. case_bool_decide as Ek; [|done]. subst k'.
  rewrite find_above in H by done. cbn in H. by rewrite H.
Qed.

(** [MergeDictionary] of a well-formed dictionary into another succeeds and gives
    a well-formed one: a key only one of them has keeps its entry; under a key both
    have, two dictionaries are merged in the same way and otherwise the value of the
    other dictionary replaces the value there. *)
Theorem merge_exact dcheck_on (m d : dict) : dict_ok m -> dict_ok d ->
  exists d', MergeDictionary dcheck_on (VDictionary m) d = Ret d' /\ dict_ok d' /\
    forall k, merged_entry dcheck_on (map_find k m) (map_find k d) (map_find k d').
Proof. intros Hm Hd. by apply (Merge_entries dcheck_on (VDictionary m)). Qed.

(** * Copies without empty children *)
Fixpoint no_empty (v : Value) : bool :=
  match v with
  | VDictionary m => negb (Nat.eqb (length m) 0) && forallb (fun e => no_empty e.2) m
  | VList l => negb (Nat.eqb (length l) 0) && forallb no_empty l
  | _ => true
  end.
(** The tree without its empty parts. *)
Fixpoint prune (v : Value) : option Value :=
  match v with
  | VDictionary m => match omap (fun e => pair e.1 <$> prune e.2) m with [] => None | m => Some (VDictionary m) end
  | VList l => match omap prune l with [] => None | l => Some (VList l) end
  | _ => Some v
  end.
Definition prune_entry (e : bytes * Value) : option (bytes * Value) := pair e.1 <$> prune e.2.
Lemma prune_dict m : prune (VDictionary m) = match omap prune_entry m with [] => None | m => Some (VDictionary m) end.
Proof. done. Qed.
Lemma prune_cons k x m : omap prune_entry ((k, x) :: m) = match prune x with Some c => (k, c) :: omap prune_entry m | None => omap prune_entry m end.
Proof. cbn. unfold prune_entry at 1. cbn. by destruct (prune x). Qed.
Lemma omap_cons {A B} (f : A -> option B) x l : omap f (x :: l) = match f x with Some y => y :: omap f l | None => omap f l end.
Proof. done. Qed.
Lemma dict_prune_app (f : Value -> outcome (option Value)) m : forall acc, Forall (fun e => f e.2 = Ret (prune e.2)) m -> sorted_keys m = true -> Forall (fun e => keys_below acc e.1 = true) m ->
  (fix go m copy := match m with [] => Ret copy | (k, x) :: m => c ← f x; go m (match c with Some c => SetWithoutPathExpansion k c copy | None => copy end) end) m acc
  = Ret (acc ++ omap prune_entry m).
Proof.
  induction m as [|[k x] m IH]; intros acc Hf Hs Hb; [by rewrite app_nil_r|]. apply Forall_cons_1 in Hf as [Hx Hf]. apply Forall_cons_1 in Hb as [Hk Hb].
  cbn [sorted_keys] in Hs. apply andb_true_iff in Hs as [Ha Hs]. cbn in Hx, Hk. rewrite Hx, prune_cons. obind.
  destruct (prune x) as [c|]; [|by apply IH]. unfold SetWithoutPathExpansion.
  rewrite assign_below by done. rewrite IH by (done || by apply below_snoc). by rewrite <- app_assoc.
Qed.
Lemma list_prune_app (f : Value -> outcome (option Value)) l : forall acc, Forall (fun x => f x = Ret (prune x)) l ->
  (fix go l copy := match l with [] => Ret copy | x :: l => c ← f x; go l (match c with Some c => copy ++ [c] | None => copy end) end) l acc = Ret (acc ++ omap prune l).
Proof.
  induction l as [|x l IH]; intros acc Hf; [by rewrite app_nil_r|]. apply Forall_cons_1 in Hf as [Hx Hf]. rewrite Hx, omap_cons. obind.
  destruct (prune x); rewrite IH by done; [by rewrite <- app_assoc|done].
Qed.
Lemma Copy_prune dcheck_on v : value_ok v -> CopyWithoutEmptyChildren dcheck_on v = Ret (prune v).
Proof.
  induction v as [|b|n|x|s|b|m IH|l IH] using Value_ind; intros Hv; try (cbn [CopyWithoutEmptyChildren]; by rewrite DeepCopy_same).
  - apply dict_ok_spec in Hv as [Hs He]. cbn [CopyWithoutEmptyChildren]. rewrite dict_prune_app; [rewrite prune_dict; obind; by destruct (omap prune_entry m)| |done|by apply List.Forall_forall].
    apply List.Forall_forall. intros e Hin. rewrite List.Forall_forall in IH, He. apply IH; [done|]. by destruct (He e Hin).
  - apply list_ok_spec in Hv. cbn [CopyWithoutEmptyChildren prune]. rewrite list_prune_app; [obind; by destruct (omap prune l)|].
    apply List.Forall_forall. intros e Hin. rewrite List.Forall_forall in IH, Hv. auto.
Qed.
Lemma omap_In {A B} (f : A -> option B) l y : In y (omap f l) -> exists x, In x l /\ f x = Some y.
Proof.
  induction l as [|x l IH]; cbn; [done|]. destruct (f x) as [z|] eqn:E; cbn; [intros [->|H]; [by exists x; auto|]|intros H]; destruct (IH H) as (x' & ? & ?); exists x'; auto.
Qed.
Lemma prune_no_empty v : forall w, prune v = Some w -> no_empty w = true.
Proof.
  induction v as [|b|n|x|s|b|m IH|l IH] using Value_ind; intros w; try (by intros [= <-]).
  - rewrite prune_dict. destruct (omap prune_entry m) as [|e m'] eqn:E; [done|]. intros [= <-]. cbn [no_empty length Nat.eqb negb]. apply forallb_forall.
    rewrite <- E. intros e' (x & Hx & Hp)%omap_In. unfold prune_entry in Hp. destruct (prune x.2) as [y|] eqn:Ey; [|done]. injection Hp as <-.
    rewrite List.Forall_forall in IH. by apply (IH x).
  - cbn [prune]. destruct (omap prune l) as [|e l'] eqn:E; [done|]. intros [= <-]. cbn [no_empty length Nat.eqb negb]. apply forallb_forall.
    rewrite <- E. intros y (x & Hx & Hp)%omap_In. rewrite List.Forall_forall in IH. by apply (IH x).
Qed.
(** [DeepCopyWithoutEmptyChildren] takes exactly the empty lists and dictionaries
    out, those included that become empty on the way. *)
Theorem copy_without_empty dcheck_on (d : dict) : dict_ok d ->
  exists c, DeepCopyWithoutEmptyChildren dcheck_on d = Ret c /\ (c = [] \/ no_empty (VDictionary c) = true) /\
    forall k, map_find k c = map_find k d ≫= prune.
Proof.
  intros Hd. unfold DeepCopyWithoutEmptyChildren. rewrite Copy_prune by done. obind.
  assert (forall k, map_find k (omap prune_entry d) = map_find k d ≫= prune) as Hk.
  { apply dict_ok_spec in Hd as [Hs _]. intros k. induction d as [|[k' x] d IH]; [done|]. cbn [sorted_keys] in Hs. apply andb_true_iff in Hs as [Ha Hs]. specialize (IH Hs).
    rewrite prune_cons. cbn [map_find]. destruct (prune x) as [y|] eqn:Ey; cbn [map_find]; case_bool_decide; subst; cbn [mbind option_bind]; try done.
    rewrite IH, find_above by done. done. }
  exists (omap prune_entry d). pose proof (prune_no_empty (VDictionary d)) as Hn. rewrite prune_dict in *. destruct (omap prune_entry d) as [|e c]; [auto|].
  split; [done|]. split; [right; by apply Hn|done].
Qed.

(** * Theorems *)
(** Paths reach into nested dictionaries. [Set] at a path succeeds and keeps the
    tree well formed; afterwards [Get] at that path gives the value, [Get] at any path
    that parts from it gives what it gave before, below the path it looks into the
    value, and every proper prefix of the path is a dictionary. [Remove] at a path
    gives what [Get] gave there, keeps the tree well formed, afterwards [Get] gives
    nothing there, and what it gives elsewhere is unchanged. *)
Theorem dictionary_paths dcheck_on (d : dict) (v : Value) (path : bytes) : good_string path -> dict_ok d -> value_ok v ->
  (exists d', Set_ dcheck_on path v d = Ret d' /\ dict_ok d' /\
     Get dcheck_on path d' = Ret (Some v) /\
     (forall q, good_string q -> ~ split_dots path `prefix_of` split_dots q -> ~ split_dots q `prefix_of` split_dots path -> Get dcheck_on q d' = Get dcheck_on q d) /\
     (forall q ks, good_string q -> ks <> [] -> split_dots q = split_dots path ++ ks -> Get dcheck_on q d' = Ret (match v with VDictionary c => lookup_path ks c | _ => None end)) /\
     (forall q ks, good_string q -> ks <> [] -> split_dots path = split_dots q ++ ks -> exists c, Get dcheck_on q d' = Ret (Some (VDictionary c)))) /\
  (exists d' out, Remove dcheck_on path d = Ret (out, d') /\ dict_ok d' /\ Get dcheck_on path d = Ret out /\ Get dcheck_on path d' = Ret None /\
     (forall q, good_string q -> ~ split_dots path `prefix_of` split_dots q -> ~ split_dots q `prefix_of` split_dots path -> Get dcheck_on q d' = Get dcheck_on q d)).
Proof.
  intros Hp Hd Hv. assert (Forall good_string (split_dots path)) as Hks.
  { clear -Hp. remember (length path) as n eqn:Hn. revert path Hp Hn. induction n as [n IH] using lt_wf_ind. intros path Hp ->. rewrite split_find.
    destruct (find_dot path) as [[k r]|] eqn:E; [|by repeat constructor]. destruct (good_find path k r Hp E). constructor; [done|]. eapply IH; [by eapply find_dot_length|done..]. }
  split.
  - eexists. rewrite Set_store by done. split; [done|]. split; [by apply ok_store|]. split; [rewrite Get_lookup by done; f_equal; apply lookup_store, split_not_nil|].
    split; [|split]; intros q; intros; rewrite ?Get_lookup by done; rewrite ?H1; f_equal.
    + by apply lookup_store_other.
    + apply lookup_store_below; [apply split_not_nil|done].
    + destruct (lookup_store_above ks v (split_dots q) d) as [c ->]; [done|apply split_not_nil|]. by exists c.
  - eexists _, _. rewrite Remove_path, Get_lookup by done. split; [done|]. split; [by apply ok_remove|]. split; [done|]. rewrite Get_lookup by done.
    split; [f_equal; apply lookup_remove; [done|apply split_not_nil]|]. intros q Hq ? ?. rewrite !Get_lookup by done. f_equal. by apply lookup_remove_other.
Qed.

(** [DeepCopy] of a well-formed value gives an equal tree, and [Equals] holds
    between well-formed values exactly if they are the same tree up to the signs of
    zeros among their doubles; so [Equals] is an equivalence that [DeepCopy] respects. *)
Theorem equals_exact dcheck_on (v w : Value) : value_ok v -> value_ok w ->
  DeepCopy dcheck_on v = Ret v /\ (Equals v w = true <-> norm v = norm w).
Proof. intros Hv Hw. split; [by apply DeepCopy_same|by apply Equals_norm]. Qed.

(** * Witnesses *)
Lemma good_ab : good_string [97; 46; 98].
Proof. exists [97; 46; 98]. split; [repeat constructor; unfold valid; lia|split; reflexivity]. Qed.
Lemma dictionary_paths_witness : exists d', Set_ true [97; 46; 98] (VInteger 7) [] = Ret d' /\ Get true [97; 46; 98] d' = Ret (Some (VInteger 7)).
Proof.
  destruct (dictionary_paths true [] (VInteger 7) [97; 46; 98]) as [(d' & H1 & _ & H2 & _) _].
  - exact good_ab.
  - exact dict_ok_nil.
  - cbn. lia.
  - exists d'. by split.
Defined.
Lemma equals_exact_witness : Equals (VList [VDouble (S754_zero true); VNull]) (VList [VDouble (S754_zero false); VNull]) = true.
Proof.
  apply (equals_exact true (VList [VDouble (S754_zero true); VNull]) (VList [VDouble (S754_zero false); VNull])); [repeat split..|reflexivity].
Defined.
Lemma merge_exact_witness : exists d', MergeDictionary true (VDictionary [([97; 46; 98], VNull)]) [] = Ret d' /\ map_find [97; 46; 98] d' = Some VNull.
Proof.
  destruct (merge_exact true [([97; 46; 98], VNull)] []) as (d' & H1 & _ & H2).
  - repeat split. exact good_ab.
  - exact dict_ok_nil.
  - exists d'. split; [exact H1|exact (H2 [97; 46; 98])].
Defined.
