(* ===== verification/JsonWriter.v ===== *)
(** Writing JSON: [zutils/base/json/string_escape.cc] and [json_writer.cc]. The text is
    only ever appended to, so the functions give what they append. The conversion of a
    [double] to text is the third-party [dmg_fp::g_fmt], an argument. *)
From Stdlib Require Import ZArith Lia Bool Ascii String SpecFloat.
From stdpp Require Import base list numbers strings.
From S2P Require Import Prelude Numbers Utf8 Values.

Open Scope Z_scope.

(** * Strings *)
(** [StringAppendF(dest, "\\u%04X", n)] for [n] below 2^16. *)
Definition u04X (n : Z) : bytes := str#"\u" ++ map (fun k => znth kHexChars (n / 16 ^ k mod 16)) [3; 2; 1; 0].

(** [EscapeSpecialCodePoint] *)
Definition EscapeSpecialCodePoint (code_point : Z) : option bytes :=
  if code_point =? 8 then Some str#"\b"
  else if code_point =? 12 then Some str#"\f"
  else if code_point =? 10 then Some str#"\n"
  else if code_point =? 13 then Some str#"\r"
  else if code_point =? 9 then Some str#"\t"
  else if code_point =? ch#"\" then Some str#"\\"
  else if code_point =? 34 then Some [ch#"\"; 34]
  else if code_point =? ch#"<" then Some str#"\u003C"
  else None.

(** The body of the loop of [EscapeJSONStringImpl] for a code point. *)
Definition escape_code_point (code_point : Z) : bytes :=
  match EscapeSpecialCodePoint code_point with
  | Some s => s
  | None => if code_point <? 32 then u04X code_point else WriteUnicodeCharacter8 code_point
  end.

(** The loop of [EscapeJSONStringImpl]. *)
Fixpoint EscapeJSONString_loop (Read : list Z -> Z -> Z -> outcome (bool * Z * Z)) (fuel : nat) (str : list Z) (length i : Z) (did_replacement : bool) (dest : bytes) : outcome (bool * bytes) :=
  if i <? length then
    match fuel with
    | O => Fault OutOfFuel
    | S fuel =>
        '(ok, i, code_point) ← Read str length i;
        let code_point := if (ok : bool) then code_point else 0xFFFD in
        EscapeJSONString_loop Read fuel str length (i + 1) (did_replacement || negb ok) (dest ++ escape_code_point code_point)
    end
  else Ret (did_replacement, dest).
Definition EscapeJSONStringImpl (Read : list Z -> Z -> Z -> outcome (bool * Z * Z)) (str : list Z) (put_in_quotes : bool) : outcome (bool * bytes) :=
  let quote := if put_in_quotes then [34] else [] in
  guard_or (zlen str <=? 2 ^ 31 - 1) AssertFail (
    '(did_replacement, dest) ← EscapeJSONString_loop Read (length str) str (s32 (zlen str)) 0 false [];
    Ret (negb did_replacement, quote ++ dest ++ quote)).
Definition EscapeJSONString : bytes -> bool -> outcome (bool * bytes) := EscapeJSONStringImpl ReadUnicodeCharacter8.
Definition EscapeJSONString16 : list Z -> bool -> outcome (bool * bytes) := EscapeJSONStringImpl ReadUnicodeCharacter16.
Definition GetQuotedJSONString (dcheck_on : bool) (str : bytes) : outcome bytes :=
  '(ok, dest) ← EscapeJSONString str true; DCHECK dcheck_on ok (Ret dest).

(** [EscapeBytesAsInvalidJSONString] *)
Definition escape_byte (c : Z) : bytes :=
  match EscapeSpecialCodePoint c with Some s => s | None => if (c <? 32) || (126 <? c) then u04X c else [c] end.
Definition EscapeBytesAsInvalidJSONString (str : bytes) (put_in_quotes : bool) : bytes :=
  let quote := if put_in_quotes then [34] else [] in quote ++ concat (map escape_byte str) ++ quote.

(** * The writer *)
Definition OPTIONS_OMIT_BINARY_VALUES : Z := 1.
Definition OPTIONS_OMIT_DOUBLE_TYPE_PRESERVATION : Z := 2.
Definition OPTIONS_PRETTY_PRINT : Z := 4.
Definition kPrettyPrintLineEnding : bytes := [10].

(** The value of a [double] without a fractional part. *)
Definition integral (d : double) : option Z :=
  match d with
  | S754_zero _ => Some 0
  | S754_finite s m e =>
      let v := if 0 <=? e then Some (Zpos m * 2 ^ e) else if Zpos m mod 2 ^ (- e) =? 0 then Some (Zpos m / 2 ^ (- e)) else None in
      (fun v => if s then - v else v) <$> v
  | _ => None
  end.

Section Writer.
Context (dcheck_on : bool) (g_fmt : double -> bytes) (options : Z).
Definition omit_binary_values_ : bool := negb (Z.land options OPTIONS_OMIT_BINARY_VALUES =? 0).
Definition omit_double_type_preservation_ : bool := negb (Z.land options OPTIONS_OMIT_DOUBLE_TYPE_PRESERVATION =? 0).
Definition pretty_print_ : bool := negb (Z.land options OPTIONS_PRETTY_PRINT =? 0).

(** [DoubleToString] and the text of a [double] in JSON. *)
Definition DoubleToString (value : double) : bytes := g_fmt value.
Definition contains (c : Z) (s : bytes) : bool := existsb (Z.eqb c) s.
Definition real_text (value : double) : bytes :=
  let real := DoubleToString value in
  let real := if negb (contains ch#"." real) && negb (contains ch#"e" real) && negb (contains ch#"E" real) then real ++ str#".0" else real in
  match real with
  | c :: r =>
      if c =? ch#"." then ch#"0" :: real
      else match r with c' :: r' => if (c =? ch#"-") && (c' =? ch#".") then c :: ch#"0" :: r else real | [] => real end
  | [] => real
  end.
(** [TYPE_DOUBLE]. [kint64max] is compared as a [double], which is 2^63; the cast of
    2^63 to an [int64] is undefined. *)
Definition write_double (value : double) : outcome bytes :=
  match (if omit_double_type_preservation_ then integral value else None) with
  | Some n =>
      if (n <=? 2 ^ 63) && (- 2 ^ 63 <=? n) then guard_or (n <? 2 ^ 63) OutOfBounds (Int64ToString dcheck_on n) else Ret (real_text value)
  | None => Ret (real_text value)
  end.

Definition IndentLine (depth : Z) : bytes := replicate (Z.to_nat (depth * 3)) 32.
Definition pretty (s : bytes) : bytes := if pretty_print_ then s else [].
Definition omitted (v : Value) : bool := omit_binary_values_ && IsType v TYPE_BINARY.

(** [BuildJSONString]: the result and what is appended. *)
Fixpoint BuildJSONString (node : Value) (depth : Z) : outcome (bool * bytes) :=
  match node with
  | VNull => Ret (true, str#"null")
  | VBoolean value => Ret (true, if value then str#"true" else str#"false")
  | VInteger value => s ← IntToString dcheck_on value; Ret (true, s)
  | VDouble value => s ← write_double value; Ret (true, s)
  | VString value => '(_, s) ← EscapeJSONString value true; Ret (true, s)
  | VList l =>
      '(result, body) ← (fix go l (first_value_has_been_output result : bool) (body : bytes) :=
        match l with
        | [] => Ret (result, body)
        | value :: l =>
            if omitted value then go l first_value_has_been_output result body
            else
              let separator := if first_value_has_been_output then [ch#","] ++ pretty [32] else [] in
              '(ok, s) ← BuildJSONString value depth;
              go l true (result && ok) (body ++ separator ++ s)
        end) l false true [];
      Ret (result, [ch#"["] ++ pretty [32] ++ body ++ pretty [32] ++ [ch#"]"])
  | VDictionary m =>
      '(result, body) ← (fix go m (first_value_has_been_output result : bool) (body : bytes) :=
        match m with
        | [] => Ret (result, body)
        | (key, value) :: m =>
            if omitted value then go m first_value_has_been_output result body
            else
              let separator := if first_value_has_been_output then [ch#","] ++ pretty kPrettyPrintLineEnding else [] in
              '(_, k) ← EscapeJSONString key true;
              '(ok, s) ← BuildJSONString value (depth + 1);
              go m true (result && ok) (body ++ separator ++ pretty (IndentLine (depth + 1)) ++ k ++ [ch#":"] ++ pretty [32] ++ s)
        end) m false true [];
      Ret (result, [ch#"{"] ++ pretty kPrettyPrintLineEnding ++ body ++ pretty (kPrettyPrintLineEnding ++ IndentLine depth) ++ [ch#"}"])
  | VBinary _ => Ret (omit_binary_values_, [])
  end.

(** [JSONWriter::WriteWithOptions] *)
Definition WriteWithOptions (node : Value) : outcome (bool * bytes) :=
  '(result, json) ← BuildJSONString node 0; Ret (result, json ++ pretty kPrettyPrintLineEnding).
End Writer.
(** [JSONWriter::Write] *)
Definition Write (dcheck_on : bool) (g_fmt : double -> bytes) (node : Value) : outcome (bool * bytes) := WriteWithOptions dcheck_on g_fmt 0 node.
