(* ===== verification/JsonParser.v ===== *)
(** Parsing JSON: [zutils/base/json/json_parser.cc], with [StringToDouble]. A pointer
    into the text is its offset; [pos_] and [index_], which the code keeps apart, are
    kept apart. The text is a block of memory: the input, then what is behind it, which
    is a NUL when the parser has made a copy. Reading past the block is a fault. Inputs
    of 2^31 bytes and more, where [index_] overflows, are outside the model. *)
From Stdlib Require Import ZArith Lia Bool Ascii String SpecFloat.
From stdpp Require Import base list numbers strings pretty.
From S2P Require Import Prelude Numbers Utf8 Values.

Open Scope Z_scope.

Definition JSON_ALLOW_TRAILING_COMMAS : Z := 1.
Definition JSON_DETACHABLE_CHILDREN : Z := 2.
Inductive JsonParseError :=
  | JSON_NO_ERROR | JSON_INVALID_ESCAPE | JSON_SYNTAX_ERROR | JSON_UNEXPECTED_TOKEN | JSON_TRAILING_COMMA
  | JSON_TOO_MUCH_NESTING | JSON_UNEXPECTED_DATA_AFTER_ROOT | JSON_UNSUPPORTED_ENCODING | JSON_UNQUOTED_DICTIONARY_KEY.
Inductive Token :=
  | T_OBJECT_BEGIN | T_OBJECT_END | T_ARRAY_BEGIN | T_ARRAY_END | T_STRING | T_NUMBER | T_BOOL_TRUE | T_BOOL_FALSE
  | T_NULL | T_LIST_SEPARATOR | T_OBJECT_PAIR_SEPARATOR | T_END_OF_INPUT | T_INVALID_TOKEN.
#[export] Instance Token_eq_dec : EqDecision Token.
Proof. solve_decision. Defined.
Definition kStackMaxDepth : Z := 100.
Definition kExtendedASCIIStart : Z := 0x80.

Record parser := Parser {
  pos_ : Z; index_ : Z; stack_depth_ : Z; line_number_ : Z; index_last_line_ : Z;
  error_code_ : JsonParseError; error_line_ : Z; error_column_ : Z }.
Definition set_pos (pos index : Z) (p : parser) : parser :=
  Parser pos index (stack_depth_ p) (line_number_ p) (index_last_line_ p) (error_code_ p) (error_line_ p) (error_column_ p).
Definition set_depth (d : Z) (p : parser) : parser :=
  Parser (pos_ p) (index_ p) d (line_number_ p) (index_last_line_ p) (error_code_ p) (error_line_ p) (error_column_ p).
Definition set_line (n last : Z) (p : parser) : parser :=
  Parser (pos_ p) (index_ p) (stack_depth_ p) n last (error_code_ p) (error_line_ p) (error_column_ p).
Definition ReportError (code : JsonParseError) (column_adjust : Z) (p : parser) : parser :=
  Parser (pos_ p) (index_ p) (stack_depth_ p) (line_number_ p) (index_last_line_ p) code (line_number_ p) (index_ p - index_last_line_ p + column_adjust).

(** [StringBuilder]: a piece of the text, or a string once converted. *)
Inductive builder := Piece (pos length_ : Z) | Converted (string_ : bytes).

(** [StringToDouble]; [strtod] gives the value, the number of characters it used and
    whether it set [errno]. *)
Definition StringToDouble (strtod : bytes -> double * Z * bool) (input : bytes) : bool * double :=
  let '(output, used, err) := strtod input in
  (negb err && negb (zlen input =? 0) && (used =? zlen input) && negb (match input with c :: _ => LocalIsWhitespace c | [] => false end), output).

Section Parser.
Context (dcheck_on : bool) (strtod : bytes -> double * Z * bool) (options_ : Z) (mem : bytes) (end_pos_ : Z).

Definition peek (p : parser) : outcome Z := char_at mem (pos_ p).
Definition CanConsume (length : Z) (p : parser) : bool := pos_ p + length <=? end_pos_.
Definition NextNChars (n : Z) (p : parser) : outcome parser := DCHECK dcheck_on (CanConsume n p) (Ret (set_pos (pos_ p + n) (index_ p + n) p)).
Definition NextChar (p : parser) : outcome parser := NextNChars 1 p.

(** * Builders *)
Definition BuilderAppend (c : Z) (b : builder) : outcome builder :=
  DCHECK dcheck_on ((0 <=? s8 c) && (s8 c <? 128)) (
  Ret (match b with Piece pos n => Piece pos (n + 1) | Converted s => Converted (s ++ [u8 c]) end)).
Definition BuilderAppendString (str : bytes) (b : builder) : outcome builder :=
  match b with Piece _ _ => Fault AssertFail | Converted s => Ret (Converted (s ++ str)) end.
Definition BuilderConvert (b : builder) : outcome builder :=
  match b with Piece pos n => s ← mem_read mem pos n; Ret (Converted s) | Converted _ => Ret b end.
Definition BuilderString (b : builder) : outcome bytes :=
  match b with Piece pos n => mem_read mem pos n | Converted s => Ret s end.

(** * Whitespace and comments *)
(** The loop over a comment to the end of the line: whether a line end was found. *)
Fixpoint line_comment (fuel : nat) (p : parser) : outcome (bool * parser) :=
  if CanConsume 1 p then
    match fuel with
    | O => Fault OutOfFuel
    | S fuel => p ← NextChar p; c ← peek p; if (c =? 10) || (c =? 13) then Ret (true, p) else line_comment fuel p
    end
  else Ret (false, p).
Fixpoint block_comment (fuel : nat) (previous_char : Z) (p : parser) : outcome (bool * parser) :=
  if CanConsume 1 p then
    match fuel with
    | O => Fault OutOfFuel
    | S fuel =>
        p ← NextChar p; c ← peek p;
        if (previous_char =? ch#"*") && (c =? ch#"/") then p ← NextChar p; Ret (true, p) else block_comment fuel c p
    end
  else Ret (false, p).
Definition loop_fuel : nat := Z.to_nat end_pos_.
Definition EatComment (p : parser) : outcome (bool * parser) :=
  c ← peek p;
  if negb (c =? ch#"/") || negb (CanConsume 1 p) then Ret (false, p)
  else
    p ← NextChar p; next_char ← peek p;
    if next_char =? ch#"/" then line_comment loop_fuel p
    else if next_char =? ch#"*" then block_comment loop_fuel 0 p
    else Ret (false, p).
(** A line end at [pos_]: the second byte of [\r\n] does not count. *)
Definition count_line (c : Z) (p : parser) : outcome parser :=
  second ← (if (c =? 10) && (0 <? pos_ p) then b ← char_at mem (pos_ p - 1); Ret (b =? 13) else Ret false);
  Ret (set_line (if second : bool then line_number_ p else line_number_ p + 1) (index_ p) p).
Fixpoint EatWhitespace_loop (fuel : nat) (p : parser) : outcome parser :=
  if pos_ p <? end_pos_ then
    match fuel with
    | O => Fault OutOfFuel
    | S fuel =>
        c ← peek p;
        if (c =? 13) || (c =? 10) then p ← count_line c p; p ← NextChar p; EatWhitespace_loop fuel p
        else if (c =? 32) || (c =? 9) then p ← NextChar p; EatWhitespace_loop fuel p
        else if c =? ch#"/" then '(eaten, p) ← EatComment p; if (eaten : bool) then EatWhitespace_loop fuel p else Ret p
        else Ret p
    end
  else Ret p.
Definition EatWhitespaceAndComments : parser -> outcome parser := EatWhitespace_loop loop_fuel.

(** * Tokens *)
Definition token_of (c : Z) : Token :=
  if c =? ch#"{" then T_OBJECT_BEGIN
  else if c =? ch#"}" then T_OBJECT_END
  else if c =? ch#"[" then T_ARRAY_BEGIN
  else if c =? ch#"]" then T_ARRAY_END
  else if c =? 34 then T_STRING
  else if ((ch#"0" <=? c) && (c <=? ch#"9")) || (c =? ch#"-") then T_NUMBER
  else if c =? ch#"t" then T_BOOL_TRUE
  else if c =? ch#"f" then T_BOOL_FALSE
  else if c =? ch#"n" then T_NULL
  else if c =? ch#"," then T_LIST_SEPARATOR
  else if c =? ch#":" then T_OBJECT_PAIR_SEPARATOR
  else T_INVALID_TOKEN.
Definition GetNextToken (p : parser) : outcome (Token * parser) :=
  p ← EatWhitespaceAndComments p;
  if CanConsume 1 p then c ← peek p; Ret (token_of c, p) else Ret (T_END_OF_INPUT, p).

(** * Strings *)
Definition DecodeUTF8 (point : Z) (dest : builder) : outcome builder :=
  if point <? kExtendedASCIIStart then BuilderAppend point dest
  else dest ← BuilderConvert dest; BuilderAppendString (CBU8_APPEND_UNSAFE point) dest.

(** What [append(const char* )] sees of an array of 8 with [units] in front. *)
Fixpoint c_string (units : bytes) : bytes := match units with c :: units => if c =? 0 then [] else c :: c_string units | [] => [] end.
(** The next four characters as a code unit, after which the parser is at the last of
    them. *)
Definition DecodeUnit (p : parser) : outcome (option Z * parser) :=
  digits ← mem_read mem (pos_ p) 4;
  let '(ok, code_unit) := HexStringToInt digits 0 in
  if (ok : bool) then p ← NextNChars 3 p; Ret (Some code_unit, p) else Ret (None, p).
(** [DecodeUTF16]: [None] is false. *)
Definition DecodeUTF16 (p : parser) : outcome (option bytes * parser) :=
  if negb (CanConsume 4 p) then Ret (None, p)
  else
    '(unit, p) ← DecodeUnit p;
    match unit with
    | None => Ret (None, p)
    | Some code_unit16_high =>
        if CBU_IS_SURROGATE code_unit16_high then
          if negb (CBU16_IS_SURROGATE_LEAD code_unit16_high) then Ret (None, p)
          else if negb (CanConsume 6 p) then Ret (None, p)
          else
            p ← NextChar p; c ← peek p;
            if negb (c =? ch#"\") then Ret (None, p)
            else
              p ← NextChar p; c ← peek p;
              if negb (c =? ch#"u") then Ret (None, p)
              else
                p ← NextChar p;
                '(unit, p) ← DecodeUnit p;
                match unit with
                | None => Ret (None, p)
                | Some code_unit16_low =>
                    if negb (CBU16_IS_TRAIL code_unit16_low) then Ret (None, p)
                    else Ret (Some (c_string (CBU8_APPEND_UNSAFE (u32 (CBU16_GET_SUPPLEMENTARY code_unit16_high code_unit16_low)))), p)
                end
        else Ret (Some (c_string (CBU8_APPEND_UNSAFE code_unit16_high)), p)
    end.

(** The escape sequences of one character. *)
Definition escape_of (c : Z) : option Z :=
  if c =? 34 then Some 34
  else if c =? ch#"\" then Some ch#"\"
  else if c =? ch#"/" then Some ch#"/"
  else if c =? ch#"b" then Some 8
  else if c =? ch#"f" then Some 12
  else if c =? ch#"n" then Some 10
  else if c =? ch#"r" then Some 13
  else if c =? ch#"t" then Some 9
  else if c =? ch#"v" then Some 11
  else None.
(** The escape sequence behind a backslash: [None] is [return false]. *)
Definition ConsumeEscape (string : builder) (p : parser) : outcome (option builder * parser) :=
  string ← BuilderConvert string;
  if negb (CanConsume 1 p) then Ret (None, ReportError JSON_INVALID_ESCAPE 0 p)
  else
    p ← NextChar p; c ← peek p;
    if c =? ch#"x" then
      if negb (CanConsume 2 p) then Ret (None, ReportError JSON_INVALID_ESCAPE 1 p)
      else
        p ← NextChar p; digits ← mem_read mem (pos_ p) 2;
        let '(ok, hex_digit) := HexStringToInt digits 0 in
        if negb ok then Ret (None, ReportError JSON_INVALID_ESCAPE (-1) p)
        else
          p ← NextChar p;
          string ← (if hex_digit <? kExtendedASCIIStart then BuilderAppend hex_digit string else DecodeUTF8 hex_digit string);
          Ret (Some string, p)
    else if c =? ch#"u" then
      if negb (CanConsume 5 p) then Ret (None, ReportError JSON_INVALID_ESCAPE 0 p)
      else
        p ← NextChar p;
        '(utf8_units, p) ← DecodeUTF16 p;
        match utf8_units with
        | None => Ret (None, ReportError JSON_INVALID_ESCAPE (-1) p)
        | Some utf8_units => string ← BuilderAppendString utf8_units string; Ret (Some string, p)
        end
    else
      match escape_of c with
      | Some e => string ← BuilderAppend e string; Ret (Some string, p)
      | None => Ret (None, ReportError JSON_INVALID_ESCAPE 0 p)
      end.
(** The loop of [ConsumeStringRaw]. *)
Fixpoint ConsumeString_loop (fuel : nat) (string : builder) (p : parser) : outcome (option builder * parser) :=
  if CanConsume 1 p then
    match fuel with
    | O => Fault OutOfFuel
    | S fuel =>
        let p := set_pos (index_ p) (index_ p) p in
        '(next_char, i) ← CBU8_NEXT mem (index_ p) (s32 end_pos_);
        let p := set_pos (pos_ p) i p in
        if (next_char <? 0) || negb (IsValidCharacter (u32 next_char)) then Ret (None : option builder, ReportError JSON_UNSUPPORTED_ENCODING 1 p)
        else if next_char =? ch#"\" then
          '(string, p) ← ConsumeEscape string p;
          match string with Some string => ConsumeString_loop fuel string p | None => Ret (None, p) end
        else if next_char =? 34 then Ret (Some string, set_pos (pos_ p) (index_ p - 1) p)
        else
          string ← (if next_char <? kExtendedASCIIStart then BuilderAppend next_char string else DecodeUTF8 next_char string);
          ConsumeString_loop fuel string p
    end
  else Ret (None, ReportError JSON_SYNTAX_ERROR 0 p).
Definition ConsumeStringRaw (p : parser) : outcome (option builder * parser) :=
  c ← peek p;
  if negb (c =? 34) then Ret (None, ReportError JSON_UNEXPECTED_TOKEN 1 p)
  else p ← NextChar p; ConsumeString_loop (S loop_fuel) (Piece (pos_ p) 0) p.
(** [ConsumeString]; a [JSONStringValue] has the characters of its piece. *)
Definition ConsumeString (p : parser) : outcome (option Value * parser) :=
  '(string, p) ← ConsumeStringRaw p;
  match string with
  | None => Ret (None, p)
  | Some string =>
      s ← BuilderString string;
      match string with
      | Piece _ _ => if Z.land options_ JSON_DETACHABLE_CHILDREN =? 0 then Ret (Some (VString s), p) else v ← StringValue dcheck_on s; Ret (Some v, p)
      | Converted _ => v ← StringValue dcheck_on s; Ret (Some v, p)
      end
  end.

(** * Numbers and literals *)
Definition IsAsciiDigit (c : Z) : bool := (ch#"0" <=? c) && (c <=? ch#"9").
(** The loop of [ReadInt]: the number of digits. *)
Fixpoint ReadInt_loop (fuel : nat) (c len : Z) (p : parser) : outcome (Z * parser) :=
  if CanConsume 1 p && IsAsciiDigit c then
    match fuel with O => Fault OutOfFuel | S fuel => p ← NextChar p; c ← peek p; ReadInt_loop fuel c (len + 1) p end
  else Ret (len, p).
Definition ReadInt (allow_leading_zeros : bool) (p : parser) : outcome (bool * parser) :=
  first ← peek p;
  '(len, p) ← ReadInt_loop loop_fuel first 0 p;
  Ret (negb (len =? 0) && (allow_leading_zeros || negb (1 <? len) || negb (first =? ch#"0")), p).
(** The optional fraction and exponent: [None] is an error. *)
Definition ReadFraction (p : parser) : outcome (option parser * parser) :=
  c ← peek p;
  if c =? ch#"." then
    if negb (CanConsume 1 p) then Ret (None, p)
    else p ← NextChar p; '(ok, p) ← ReadInt true p; Ret (if ok : bool then Some p else None, p)
  else Ret (Some p, p).
Definition ReadExponent (p : parser) : outcome (option parser * parser) :=
  c ← peek p;
  if (c =? ch#"e") || (c =? ch#"E") then
    p ← NextChar p; c ← peek p;
    p ← (if (c =? ch#"-") || (c =? ch#"+") then NextChar p else Ret p);
    '(ok, p) ← ReadInt true p; Ret (if ok : bool then Some p else None, p)
  else Ret (Some p, p).
Definition ConsumeNumber (p : parser) : outcome (option Value * parser) :=
  let num_start := pos_ p in
  let start_index := index_ p in
  c ← peek p;
  p ← (if c =? ch#"-" then NextChar p else Ret p);
  '(ok, p) ← ReadInt false p;
  if negb ok then Ret (None, ReportError JSON_SYNTAX_ERROR 1 p)
  else
    '(fraction, p) ← ReadFraction p;
    match fraction with
    | None => Ret (None, ReportError JSON_SYNTAX_ERROR 1 p)
    | Some p =>
        '(exponent, p) ← ReadExponent p;
        match exponent with
        | None => Ret (None, ReportError JSON_SYNTAX_ERROR 1 p)
        | Some p =>
            let end_index := index_ p in
            let exit_pos := pos_ p - 1 in
            let exit_index := index_ p - 1 in
            '(token, p) ← GetNextToken p;
            if bool_decide (token = T_OBJECT_END \/ token = T_ARRAY_END \/ token = T_LIST_SEPARATOR \/ token = T_END_OF_INPUT) then
              let p := set_pos exit_pos exit_index p in
              num_string ← mem_read mem num_start (end_index - start_index);
              let '(is_int, num_int) := StringToInt num_string 0 in
              if (is_int : bool) then Ret (Some (VInteger num_int), p)
              else
                let '(is_double, num_double) := StringToDouble strtod num_string in
                if is_double && IsFinite num_double then v ← FundamentalValue_double dcheck_on num_double; Ret (Some v, p)
                else Ret (None, p)
            else Ret (None, ReportError JSON_SYNTAX_ERROR 1 p)
        end
    end.

(** [strncmp(one, two, len) == 0] for a literal [two] of [len] characters: it stops at
    the first that differs. *)
Fixpoint StringsAreEqual (one : Z) (two : bytes) : outcome bool :=
  match two with
  | [] => Ret true
  | t :: two => c ← char_at mem one; if c =? t then StringsAreEqual (one + 1) two else Ret false
  end.
Definition ConsumeWord (word : bytes) (v : Value) (p : parser) : outcome (option Value * parser) :=
  if negb (CanConsume (zlen word - 1) p) then Ret (None, ReportError JSON_SYNTAX_ERROR 1 p)
  else
    same ← StringsAreEqual (pos_ p) word;
    if negb same then Ret (None, ReportError JSON_SYNTAX_ERROR 1 p)
    else p ← NextNChars (zlen word - 1) p; Ret (Some v, p).
Definition ConsumeLiteral (p : parser) : outcome (option Value * parser) :=
  c ← peek p;
  if c =? ch#"t" then ConsumeWord str#"true" (VBoolean true) p
  else if c =? ch#"f" then ConsumeWord str#"false" (VBoolean false) p
  else if c =? ch#"n" then ConsumeWord str#"null" VNull p
  else Ret (None, ReportError JSON_UNEXPECTED_TOKEN 1 p).

(** * Structures *)
(** What a [StackMarker] does around the rest of a function: [IsTooDeep] is tested with
    the depth that includes it, and its destructor restores the depth. *)
Definition with_marker {A} (k : parser -> outcome (option A * parser)) (p : parser) : outcome (option A * parser) :=
  let p := set_depth (stack_depth_ p + 1) p in
  DCHECK dcheck_on (stack_depth_ p <=? kStackMaxDepth) (
  '(v, p) ← (if kStackMaxDepth <=? stack_depth_ p then Ret (None, ReportError JSON_TOO_MUCH_NESTING 1 p) else k p);
  Ret (v, set_depth (stack_depth_ p - 1) p)).
(** Behind an item: the token the loop goes on with, or an error. *)
Definition AfterItem (close : Token) (error_adjust : Z) (p : parser) : outcome (option Token * parser) :=
  p ← NextChar p;
  '(token, p) ← GetNextToken p;
  if bool_decide (token = T_LIST_SEPARATOR) then
    p ← NextChar p;
    '(token, p) ← GetNextToken p;
    if bool_decide (token = close) && (Z.land options_ JSON_ALLOW_TRAILING_COMMAS =? 0) then Ret (None, ReportError JSON_TRAILING_COMMA 1 p)
    else Ret (Some token, p)
  else if bool_decide (token = close) then Ret (Some token, p)
  else Ret (None, ReportError JSON_SYNTAX_ERROR error_adjust p).
(** The key of an entry and its separator, up to the value. *)
Definition ConsumeKey (token : Token) (p : parser) : outcome (option bytes * parser) :=
  if negb (bool_decide (token = T_STRING)) then Ret (None, ReportError JSON_UNQUOTED_DICTIONARY_KEY 1 p)
  else
    '(key, p) ← ConsumeStringRaw p;
    match key with
    | None => Ret (None, p)
    | Some key =>
        p ← NextChar p;
        '(token, p) ← GetNextToken p;
        if negb (bool_decide (token = T_OBJECT_PAIR_SEPARATOR)) then Ret (None, ReportError JSON_SYNTAX_ERROR 1 p)
        else p ← NextChar p; key ← BuilderString key; Ret (Some key, p)
    end.

Fixpoint ParseToken (fuel : nat) (token : Token) (p : parser) {struct fuel} : outcome (option Value * parser) :=
  match fuel with
  | O => Fault OutOfFuel
  | S fuel =>
      match token with
      | T_OBJECT_BEGIN =>
          c ← peek p;
          if negb (c =? ch#"{") then Ret (None, ReportError JSON_UNEXPECTED_TOKEN 1 p)
          else with_marker (fun p => p ← NextChar p; '(token, p) ← GetNextToken p; ConsumeDictionary_loop fuel token [] p) p
      | T_ARRAY_BEGIN =>
          c ← peek p;
          if negb (c =? ch#"[") then Ret (None, ReportError JSON_UNEXPECTED_TOKEN 1 p)
          else with_marker (fun p => p ← NextChar p; '(token, p) ← GetNextToken p; ConsumeList_loop fuel token [] p) p
      | T_STRING => ConsumeString p
      | T_NUMBER => ConsumeNumber p
      | T_BOOL_TRUE | T_BOOL_FALSE | T_NULL => ConsumeLiteral p
      | _ => Ret (None, ReportError JSON_UNEXPECTED_TOKEN 1 p)
      end
  end
(** The loops of [ConsumeDictionary] and [ConsumeList]. *)
with ConsumeDictionary_loop (fuel : nat) (token : Token) (d : dict) (p : parser) {struct fuel} : outcome (option Value * parser) :=
  match fuel with
  | O => Fault OutOfFuel
  | S fuel =>
      if bool_decide (token = T_OBJECT_END) then Ret (Some (VDictionary d), p)
      else
        '(key, p) ← ConsumeKey token p;
        match key with
        | None => Ret (None, p)
        | Some key =>
            '(token, p) ← GetNextToken p;
            '(value, p) ← ParseToken fuel token p;
            match value with
            | None => Ret (None, p)
            | Some value =>
                let d := SetWithoutPathExpansion key value d in
                '(token, p) ← AfterItem T_OBJECT_END 0 p;
                match token with None => Ret (None, p) | Some token => ConsumeDictionary_loop fuel token d p end
            end
        end
  end
with ConsumeList_loop (fuel : nat) (token : Token) (l : list Value) (p : parser) {struct fuel} : outcome (option Value * parser) :=
  match fuel with
  | O => Fault OutOfFuel
  | S fuel =>
      if bool_decide (token = T_ARRAY_END) then Ret (Some (VList l), p)
      else
        '(item, p) ← ParseToken fuel token p;
        match item with
        | None => Ret (None, p)
        | Some item =>
            let l := Append item l in
            '(token, p) ← AfterItem T_ARRAY_END 1 p;
            match token with None => Ret (None, p) | Some token => ConsumeList_loop fuel token l p end
        end
  end.
Definition ParseNextToken (fuel : nat) (p : parser) : outcome (option Value * parser) :=
  '(token, p) ← GetNextToken p; ParseToken fuel token p.

(** The byte-order mark at the start is skipped. *)
Definition SkipBOM (p : parser) : outcome parser :=
  if CanConsume 3 p then
    a ← char_at mem (pos_ p);
    if a =? 0xEF then
      b ← char_at mem (pos_ p + 1);
      if b =? 0xBB then
        c ← char_at mem (pos_ p + 2);
        if c =? 0xBF then NextNChars 3 p else Ret p
      else Ret p
    else Ret p
  else Ret p.
(** Whether something other than one character is left behind the root. *)
Definition DataAfterRoot (p : parser) : outcome (bool * parser) :=
  '(token, p) ← GetNextToken p;
  if bool_decide (token = T_END_OF_INPUT) then Ret (false, p)
  else if negb (CanConsume 1 p) then Ret (true, p)
  else p ← NextChar p; '(token, p) ← GetNextToken p; Ret (negb (bool_decide (token = T_END_OF_INPUT)), p).
Definition parse_fuel : nat := 2 * Z.to_nat end_pos_ + 2.
Definition Parse_block : outcome (option Value * parser) :=
  p ← SkipBOM (Parser 0 0 0 1 0 JSON_NO_ERROR 0 0);
  '(root, p) ← ParseNextToken parse_fuel p;
  match root with
  | None => Ret (None, p)
  | Some root =>
      '(more, p) ← DataAfterRoot p;
      if (more : bool) then Ret (None, ReportError JSON_UNEXPECTED_DATA_AFTER_ROOT 1 p)
      else
        match root with
        | VString _ => if Z.land options_ JSON_DETACHABLE_CHILDREN =? 0 then v ← DeepCopy dcheck_on root; Ret (Some v, p) else Ret (Some root, p)
        | _ => Ret (Some root, p)
        end
  end.
End Parser.

(** [Parse]: without [JSON_DETACHABLE_CHILDREN] the input is copied and a NUL is behind
    the copy, else [behind] is what the caller has there. *)
Definition Parse (dcheck_on : bool) (strtod : bytes -> double * Z * bool) (options_ : Z) (input behind : bytes) : outcome (option Value * parser) :=
  let mem := input ++ (if Z.land options_ JSON_DETACHABLE_CHILDREN =? 0 then [0] else behind) in
  Parse_block dcheck_on strtod options_ mem (zlen input).

(** * Errors *)
Definition ErrorCodeToString (error_code : JsonParseError) : bytes :=
  match error_code with
  | JSON_NO_ERROR => []
  | JSON_INVALID_ESCAPE => str#"Invalid escape sequence."
  | JSON_SYNTAX_ERROR => str#"Syntax error."
  | JSON_UNEXPECTED_TOKEN => str#"Unexpected token."
  | JSON_TRAILING_COMMA => str#"Trailing comma not allowed."
  | JSON_TOO_MUCH_NESTING => str#"Too much nesting."
  | JSON_UNEXPECTED_DATA_AFTER_ROOT => str#"Unexpected data after root element."
  | JSON_UNSUPPORTED_ENCODING => str#"Unsupported encoding. JSON must be UTF-8."
  | JSON_UNQUOTED_DICTIONARY_KEY => str#"Dictionary keys must be quoted."
  end.
(** [FormatErrorMessage]; [%i] of an [int] is its decimal form. *)
Definition FormatErrorMessage (line column : Z) (description : bytes) : bytes :=
  if negb (line =? 0) || negb (column =? 0) then
    str#"Line: " ++ bytes_of_string (pretty line) ++ str#", column: " ++ bytes_of_string (pretty column) ++ str#", " ++ description
  else description.
Definition GetErrorMessage (p : parser) : bytes := FormatErrorMessage (error_line_ p) (error_column_ p) (ErrorCodeToString (error_code_ p)).
(** [JSONReader::ReadAndReturnError] *)
Definition ReadAndReturnError (dcheck_on : bool) (strtod : bytes -> double * Z * bool) (json behind : bytes) (options : Z) : outcome (option Value * option (JsonParseError * bytes)) :=
  '(root, p) ← Parse dcheck_on strtod options json behind;
  Ret (match root with Some root => (Some root, None) | None => (None, Some (error_code_ p, GetErrorMessage p)) end).
