(* ===== verification/JsonChecks.v ===== *)
(** What the [DCHECK]s of a debug build change in [JsonParser.v]: they may fail, and
    nothing else.  Every function with assertions either fails one or does what it does
    without them; in particular the test for UTF-8, the only assertion that runs a loop,
    always ends and reads nothing outside the string. *)
From Stdlib Require Import ZArith Lia Bool.
From stdpp Require Import base list numbers.
From S2P Require Import Prelude Numbers Utf8 Values JsonParser.

Open Scope Z_scope.

(** * The test for UTF-8 ends on any list *)
Lemma char_at_in s i : 0 <= i < zlen s -> exists c, char_at s i = Ret c.
Proof.
  intros Hi. unfold char_at. destruct (Z.ltb_spec i 0); [lia|]. destruct (lookup_lt_is_Some_2 s (Z.to_nat i)) as [c ->]; [unfold zlen in *; lia|]. by exists c.
Qed.
Lemma trail_byte_in s c illegal i : 0 <= i < zlen s -> exists c' illegal', trail_byte s c illegal i = Ret (c', illegal', i + 1).
Proof. intros Hi. unfold trail_byte. destruct (char_at_in s i Hi) as [t ->]. obind. by eexists _, _. Qed.
Lemma two_trails_in s c illegal i : 0 <= i -> i + 1 < zlen s -> exists c' illegal', two_trails s c illegal i = Ret (c', illegal', i + 2).
Proof.
  intros Hi Hs. unfold two_trails. destruct (trail_byte_in s c illegal i) as (c1 & l1 & ->); [lia|]. obind. destruct (trail_byte_in s c1 l1 (i + 1)) as (c2 & l2 & ->); [lia|]. replace (i + 1 + 1) with (i + 2) by lia. by eexists _, _.
Qed.
Lemma skip_trails_in n s : forall i, 0 <= i -> i + Z.of_nat n <= zlen s -> exists i', skip_trails n s i = Ret i' /\ i <= i'.
Proof.
  induction n as [|n IH]; intros i Hi Hs; cbn [skip_trails]; [by exists i|]. destruct (char_at_in s i) as [b ->]; [lia|]. obind. destruct (CBU8_IS_TRAIL b); [|by exists i].
  destruct (IH (i + 1)) as (i' & -> & ?); [lia..|]. exists i'. split; [done|lia].
Qed.
Lemma next_in s i len : 0 <= i < len -> len <= zlen s -> exists c i', CBU8_NEXT s i len = Ret (c, i') /\ i < i'.
Proof.
  intros Hi Hs. unfold CBU8_NEXT. destruct (char_at_in s i) as [c ->]; [lia|]. obind. destruct (0x80 <=? c); [|eexists _, _; split; [done|lia]]. destruct (CBU8_IS_LEAD c); [|eexists _, _; split; [done|lia]].
  unfold utf8_nextCharSafeBody. set (count := utf8_countTrailBytes (u8 c)). assert (0 <= count) by (unfold count, utf8_countTrailBytes; repeat case_match; lia).
  destruct (Z.leb_spec (i + 1 + count) len).
  - destruct (Z.eqb_spec count 0); [eexists _, _; split; [done|lia]|].
    match goal with |- context [mbind _ ?m] => assert (exists c' l j, m = Ret (c', l, j) /\ i + 1 <= j) as (c' & l & j & -> & Hj) end.
    { destruct (Z.leb_spec 4 count); [eexists _, _, _; split; [done|lia]|]. destruct (Z.eqb_spec count 3).
      - edestruct (trail_byte_in s) as (c1 & l1 & ->); [|obind]; [lia|]. destruct (c1 <? 0x110); [|eexists _, _, _; split; [done|lia]]. edestruct (two_trails_in s) as (c2 & l2 & ->); [| |eexists _, _, _; split; [done|]]; lia.
      - destruct (Z.eqb_spec count 2); [edestruct (two_trails_in s) as (c2 & l2 & ->); [| |eexists _, _, _; split; [done|]]; lia|edestruct (trail_byte_in s) as (c1 & l1 & ->); [|eexists _, _, _; split; [done|]]; lia]. }
    obind. destruct (_ || _); [|eexists _, _; split; [done|lia]]. destruct (skip_trails_in (Z.to_nat count) s (i + 1)) as (i' & -> & ?); [lia..|]. obind. eexists _, _. split; [done|lia].
  - destruct (skip_trails_in (Z.to_nat (len - (i + 1))) s (i + 1)) as (i' & -> & ?); [lia..|]. obind. eexists _, _. split; [done|lia].
Qed.
Lemma IsStringUTF8_loop_ends s len : len <= zlen s -> forall fuel i, 0 <= i -> len - i <= Z.of_nat fuel -> exists b, IsStringUTF8_loop fuel s len i = Ret b.
Proof.
  intros Hs. induction fuel as [|fuel IH]; intros i Hi Hf; cbn [IsStringUTF8_loop]; (destruct (Z.ltb_spec i len); [|by eexists]); [lia|].
  destruct (next_in s i len) as (c & i' & -> & ?); [lia|done|]. obind. destruct (IsValidCharacter _); [|by eexists]. apply IH; lia.
Qed.
Lemma IsStringUTF8_ends s : exists b, IsStringUTF8 s = Ret b.
Proof.
  assert (s32 (zlen s) <= zlen s) as Hs.
  { unfold swrap. pose proof (Z.mod_le (zlen s + 2 ^ (32 - 1)) (2 ^ 32)). pose proof (zlen_nonneg s). lia. }
  apply IsStringUTF8_loop_ends; [done|lia|unfold zlen in *; lia].
Qed.

(** * The same result, or a failed assertion *)
Definition asserts {A} (checked m : outcome A) : Prop := checked = m \/ checked = Fault AssertFail.
Lemma asserts_refl {A} (m : outcome A) : asserts m m.
Proof. by left. Qed.
Lemma asserts_bind {A B} (m m' : outcome A) (k k' : A -> outcome B) : asserts m m' -> (forall a, asserts (k a) (k' a)) -> asserts (m ≫= k) (m' ≫= k').
Proof. intros [->| ->] Hk; [|by right]. destruct m'; [apply Hk|by left]. Qed.
Lemma asserts_dcheck {A} c (m m' : outcome A) : asserts m m' -> asserts (DCHECK true c m) (DCHECK false c m').
Proof. unfold DCHECK, guard_or. destruct c; [done|by right]. Qed.
Lemma asserts_utf8 {A} s (m m' : outcome A) : asserts m m' -> asserts (DCHECK_UTF8 true s m) (DCHECK_UTF8 false s m').
Proof. intros H. unfold DCHECK_UTF8, guard_or. destruct (IsStringUTF8_ends s) as [[] ->]; obind; [done|by right]. Qed.
Create HintDb asserts.
#[export] Hint Resolve asserts_refl : asserts.
(** Statement by statement. *)
Ltac agree :=
  repeat first
    [ solve [auto with asserts]
    | apply asserts_dcheck
    | apply asserts_utf8
    | apply asserts_bind; [|intros ?]
    | case_match ].

Section Checks.
Context (strtod : bytes -> double * Z * bool) (options_ : Z) (mem : bytes) (E : Z).

Lemma StringValue_asserts s : asserts (StringValue true s) (StringValue false s).
Proof. unfold StringValue. agree. Qed.
Lemma Double_asserts d : asserts (FundamentalValue_double true d) (FundamentalValue_double false d).
Proof. unfold FundamentalValue_double, guard_or. case_match; [by left|by right]. Qed.
Hint Resolve StringValue_asserts Double_asserts : asserts.
Lemma NextNChars_asserts n p : asserts (NextNChars true E n p) (NextNChars false E n p).
Proof. unfold NextNChars. agree. Qed.
Hint Resolve NextNChars_asserts : asserts.
Lemma NextChar_asserts p : asserts (NextChar true E p) (NextChar false E p).
Proof. unfold NextChar. agree. Qed.
Lemma BuilderAppend_asserts c b : asserts (BuilderAppend true c b) (BuilderAppend false c b).
Proof. unfold BuilderAppend. agree. Qed.
Hint Resolve NextChar_asserts BuilderAppend_asserts : asserts.
Lemma line_comment_asserts fuel : forall p, asserts (line_comment true mem E fuel p) (line_comment false mem E fuel p).
Proof. induction fuel; intros p; cbn [line_comment]; agree. Qed.
Lemma block_comment_asserts fuel : forall c p, asserts (block_comment true mem E fuel c p) (block_comment false mem E fuel c p).
Proof. induction fuel; intros c p; cbn [block_comment]; agree. Qed.
Hint Resolve line_comment_asserts block_comment_asserts : asserts.
Lemma EatComment_asserts p : asserts (EatComment true mem E p) (EatComment false mem E p).
Proof. unfold EatComment. agree. Qed.
Hint Resolve EatComment_asserts : asserts.
Lemma EatWhitespace_asserts fuel : forall p, asserts (EatWhitespace_loop true mem E fuel p) (EatWhitespace_loop false mem E fuel p).
Proof. induction fuel; intros p; cbn [EatWhitespace_loop]; agree. Qed.
Hint Resolve EatWhitespace_asserts : asserts.
Lemma GetNextToken_asserts p : asserts (GetNextToken true mem E p) (GetNextToken false mem E p).
Proof. unfold GetNextToken, EatWhitespaceAndComments. agree. Qed.
Lemma DecodeUTF8_asserts c b : asserts (DecodeUTF8 true mem c b) (DecodeUTF8 false mem c b).
Proof. unfold DecodeUTF8. agree. Qed.
Lemma DecodeUnit_asserts p : asserts (DecodeUnit true mem E p) (DecodeUnit false mem E p).
Proof. unfold DecodeUnit. agree. Qed.
Hint Resolve GetNextToken_asserts DecodeUTF8_asserts DecodeUnit_asserts : asserts.
Lemma DecodeUTF16_asserts p : asserts (DecodeUTF16 true mem E p) (DecodeUTF16 false mem E p).
Proof. unfold DecodeUTF16. agree. Qed.
Hint Resolve DecodeUTF16_asserts : asserts.
Lemma ConsumeEscape_asserts b p : asserts (ConsumeEscape true mem E b p) (ConsumeEscape false mem E b p).
Proof. unfold ConsumeEscape. agree. Qed.
Hint Resolve ConsumeEscape_asserts : asserts.
Lemma ConsumeString_loop_asserts fuel : forall b p, asserts (ConsumeString_loop true mem E fuel b p) (ConsumeString_loop false mem E fuel b p).
Proof. induction fuel; intros b p; cbn [ConsumeString_loop]; agree. Qed.
Hint Resolve ConsumeString_loop_asserts : asserts.
Lemma ConsumeStringRaw_asserts p : asserts (ConsumeStringRaw true mem E p) (ConsumeStringRaw false mem E p).
Proof. unfold ConsumeStringRaw. agree. Qed.
Hint Resolve ConsumeStringRaw_asserts : asserts.
Lemma ConsumeString_asserts p : asserts (ConsumeString true options_ mem E p) (ConsumeString false options_ mem E p).
Proof. unfold ConsumeString. agree. Qed.
Lemma ReadInt_loop_asserts fuel : forall c len p, asserts (ReadInt_loop true mem E fuel c len p) (ReadInt_loop false mem E fuel c len p).
Proof. induction fuel; intros c len p; cbn [ReadInt_loop]; agree. Qed.
Hint Resolve ConsumeString_asserts ReadInt_loop_asserts : asserts.
Lemma ReadInt_asserts b p : asserts (ReadInt true mem E b p) (ReadInt false mem E b p).
Proof. unfold ReadInt. agree. Qed.
Hint Resolve ReadInt_asserts : asserts.
Lemma ReadFraction_asserts p : asserts (ReadFraction true mem E p) (ReadFraction false mem E p).
Proof. unfold ReadFraction. agree. Qed.
Lemma ReadExponent_asserts p : asserts (ReadExponent true mem E p) (ReadExponent false mem E p).
Proof. unfold ReadExponent. agree. Qed.
Hint Resolve ReadFraction_asserts ReadExponent_asserts : asserts.
Lemma ConsumeNumber_asserts p : asserts (ConsumeNumber true strtod mem E p) (ConsumeNumber false strtod mem E p).
Proof. unfold ConsumeNumber. agree. Qed.
Lemma ConsumeWord_asserts w v p : asserts (ConsumeWord true mem E w v p) (ConsumeWord false mem E w v p).
Proof. unfold ConsumeWord. agree. Qed.
Hint Resolve ConsumeNumber_asserts ConsumeWord_asserts : asserts.
Lemma ConsumeLiteral_asserts p : asserts (ConsumeLiteral true mem E p) (ConsumeLiteral false mem E p).
Proof. unfold ConsumeLiteral. agree. Qed.
Lemma AfterItem_asserts close adjust p : asserts (AfterItem true options_ mem E close adjust p) (AfterItem false options_ mem E close adjust p).
Proof. unfold AfterItem. agree. Qed.
Lemma ConsumeKey_asserts token p : asserts (ConsumeKey true mem E token p) (ConsumeKey false mem E token p).
Proof. unfold ConsumeKey. agree. Qed.
Hint Resolve ConsumeLiteral_asserts AfterItem_asserts ConsumeKey_asserts : asserts.
Lemma with_marker_asserts {A} (k k' : parser -> outcome (option A * parser)) p : (forall p, asserts (k p) (k' p)) -> asserts (with_marker true k p) (with_marker false k' p).
Proof. intros Hk. unfold with_marker. agree. Qed.
Lemma parsing_asserts fuel :
  (forall token p, asserts (ParseToken true strtod options_ mem E fuel token p) (ParseToken false strtod options_ mem E fuel token p)) /\
  (forall token d p, asserts (ConsumeDictionary_loop true strtod options_ mem E fuel token d p) (ConsumeDictionary_loop false strtod options_ mem E fuel token d p)) /\
  (forall token l p, asserts (ConsumeList_loop true strtod options_ mem E fuel token l p) (ConsumeList_loop false strtod options_ mem E fuel token l p)).
Proof.
  induction fuel as [|fuel (IH1 & IH2 & IH3)]; (split; [|split]); intros; cbn [ParseToken ConsumeDictionary_loop ConsumeList_loop]; try apply asserts_refl.
  - destruct token; try apply with_marker_asserts; agree; apply with_marker_asserts; intros; agree.
  - agree.
  - agree.
Qed.
Lemma Parse_block_asserts : asserts (Parse_block true strtod options_ mem E) (Parse_block false strtod options_ mem E).
Proof.
  unfold Parse_block, SkipBOM, ParseNextToken, DataAfterRoot. pose proof (parsing_asserts (parse_fuel E)) as (H & _ & _).
  agree.
Qed.
End Checks.
