(* ===== verification/JsonSafety.v ===== *)
(** The parser of JSON does not leave its text: every function of [JsonParser.v] on
    input that was copied, the loops within their fuel, and the nesting of what comes
    out. *)
From Stdlib Require Import ZArith Lia Bool Ascii String SpecFloat.
From stdpp Require Import base list numbers strings.
From S2P Require Import Prelude Numbers Utf8 Utf8Proofs Values JsonParser JsonChecks.

Open Scope Z_scope.

(** * Outcomes that are safe *)
(** [safe dcheck_on Q m]: [m] ends with a result in [Q], unless [DCHECK]s are compiled
    in and it faults. *)
Definition safe {A} (dcheck_on : bool) (Q : A -> Prop) (m : outcome A) : Prop :=
  match m with Ret a => Q a | Fault _ => dcheck_on = true end.

Section Safe.
Context {dcheck_on : bool}.
Lemma Safe_bind {A B} (P : A -> Prop) (Q : B -> Prop) m (k : A -> outcome B) : safe dcheck_on P m -> (forall a, P a -> safe dcheck_on Q (k a)) -> safe dcheck_on Q (m ≫= k).
Proof. destruct m; cbn; auto. Qed.
Lemma Safe_mono {A} (P Q : A -> Prop) m : safe dcheck_on P m -> (forall a, P a -> Q a) -> safe dcheck_on Q m.
Proof. destruct m; cbn; auto. Qed.
Lemma safe_dcheck {A} (Q : A -> Prop) c m : safe dcheck_on Q m -> safe dcheck_on Q (DCHECK dcheck_on c m).
Proof. unfold DCHECK, guard_or. destruct dcheck_on, c; cbn; auto. Qed.
Lemma safe_utf8 {A} (Q : A -> Prop) s m : safe dcheck_on Q m -> safe dcheck_on Q (DCHECK_UTF8 dcheck_on s m).
Proof. intros H. unfold DCHECK_UTF8, guard_or. destruct dcheck_on; [|done]. destruct (IsStringUTF8 s) as [[]|]; obind; cbn; auto. Qed.
End Safe.

(** [CBU8_NEXT] where more of the text is in memory than the length it is given. *)
Definition refines {A} (m m' : outcome A) : Prop := forall a, m = Ret a -> m' = Ret a.
Lemma refines_bind {A B} (m m' : outcome A) (k k' : A -> outcome B) : refines m m' -> (forall a, refines (k a) (k' a)) -> refines (m ≫= k) (m' ≫= k').
Proof. intros Hm Hk a. destruct m as [x|f]; cbn; [|done]. rewrite (Hm x eq_refl). apply Hk. Qed.
Lemma refines_refl {A} (m : outcome A) : refines m m.
Proof. by intros a. Qed.
#[local] Hint Resolve refines_refl : core.
Lemma char_at_more s t i : refines (char_at s i) (char_at (s ++ t) i).
Proof.
  intros a. unfold char_at. destruct (i <? 0); [done|]. destruct (s !! Z.to_nat i) eqn:E; [|done]. by rewrite (lookup_app_l_Some _ _ _ _ E).
Qed.
Lemma trail_byte_more s t c illegal i : refines (trail_byte s c illegal i) (trail_byte (s ++ t) c illegal i).
Proof. apply refines_bind; [apply char_at_more|done]. Qed.
Lemma two_trails_more s t c illegal i : refines (two_trails s c illegal i) (two_trails (s ++ t) c illegal i).
Proof. apply refines_bind; [apply trail_byte_more|]. intros [[? ?] ?]. apply trail_byte_more. Qed.
Lemma skip_trails_more n s t : forall i, refines (skip_trails n s i) (skip_trails n (s ++ t) i).
Proof. induction n as [|n IH]; intros i; [done|]. apply refines_bind; [apply char_at_more|]. intros b. by destruct (CBU8_IS_TRAIL b). Qed.
Lemma CBU8_NEXT_more s t i len : refines (CBU8_NEXT s i len) (CBU8_NEXT (s ++ t) i len).
Proof.
  apply refines_bind; [apply char_at_more|]. intros c. destruct (0x80 <=? c); [|done]. destruct (CBU8_IS_LEAD c); [|done]. unfold utf8_nextCharSafeBody.
  assert (forall n j, refines (i ← skip_trails n s j; Ret (CBU_SENTINEL, i)) (i ← skip_trails n (s ++ t) j; Ret (CBU_SENTINEL, i))) as Hskip
    by (intros; apply refines_bind; [apply skip_trails_more|done]).
  destruct (_ <=? len); [|done]. destruct (_ =? 0); [done|]. apply refines_bind.
  - destruct (4 <=? _); [done|]. destruct (_ =? 3); [|destruct (_ =? 2); [apply two_trails_more|apply trail_byte_more]].
    apply refines_bind; [apply trail_byte_more|]. intros [[? ?] ?]. destruct (_ <? _); [apply two_trails_more|done].
  - intros [[? ?] ?]. by destruct (_ || _).
Qed.

Section Safety.
Context (dcheck_on : bool) (strtod : bytes -> double * Z * bool) (options_ : Z) (input : bytes).
Context (Hbytes : Forall is_byte input) (Hlen : zlen input < 2 ^ 31).
Abbreviation mem := (input ++ [0]).
Abbreviation E := (zlen input).
Abbreviation Safe := (safe dcheck_on).

(** [pos_] and [index_] agree and are in the text. *)
Definition At (p : parser) : Prop := 0 <= pos_ p <= E /\ index_ p = pos_ p.
(** [q] is [p] moved on. *)
Definition moved (p q : parser) : Prop := At q /\ pos_ p <= pos_ q /\ stack_depth_ q = stack_depth_ p.

Lemma zlen_mem : zlen mem = E + 1.
Proof. rewrite zlen_app. reflexivity. Qed.
Lemma char_at_mem i : 0 <= i <= E -> exists c, char_at mem i = Ret c /\ is_byte c /\ (c <> 0 -> i < E).
Proof.
  intros Hi. unfold char_at. destruct (Z.ltb_spec i 0); [lia|]. destruct (Z.eq_dec i E) as [->|].
  - exists 0. rewrite lookup_app_r by (unfold zlen; lia). replace (Z.to_nat E - length input)%nat with 0%nat by (unfold zlen; lia). repeat split; try done; lia.
  - destruct (input !! Z.to_nat i) as [c|] eqn:El; [|apply lookup_ge_None in El; unfold zlen in *; lia]. exists c. rewrite (lookup_app_l_Some _ _ _ _ El). split; [done|].
    split; [|lia]. rewrite Forall_lookup in Hbytes. eauto.
Qed.
Lemma safe_char (Q : Z -> Prop) i : 0 <= i <= E -> (forall c, is_byte c -> (c <> 0 -> i < E) -> Q c) -> Safe Q (char_at mem i).
Proof. intros Hi H. destruct (char_at_mem i Hi) as (c & -> & ? & ?). by apply H. Qed.
Lemma safe_peek (Q : Z -> Prop) p : At p -> (forall c, is_byte c -> (c <> 0 -> pos_ p < E) -> Q c) -> Safe Q (peek mem p).
Proof. intros [? _]. by apply safe_char. Qed.
Lemma safe_peek_bind {B} (Q : B -> Prop) p k : At p -> (forall c, is_byte c -> (c <> 0 -> pos_ p < E) -> Safe Q (k c)) -> Safe Q (c ← peek mem p; k c).
Proof. intros Hp H. eapply Safe_bind; [apply (safe_peek (fun c => is_byte c /\ (c <> 0 -> pos_ p < E))); [done|auto]|]. intros c [? ?]. auto. Qed.
Lemma safe_next_n {B} (Q : B -> Prop) n p k : Safe Q (k (set_pos (pos_ p + n) (index_ p + n) p)) -> Safe Q (p ← NextNChars dcheck_on E n p; k p).
Proof. intros H. unfold NextNChars. eapply Safe_bind; [apply (safe_dcheck (fun q => q = set_pos (pos_ p + n) (index_ p + n) p)); done|]. by intros ? ->. Qed.
Lemma safe_next {B} (Q : B -> Prop) p k : Safe Q (k (set_pos (pos_ p + 1) (index_ p + 1) p)) -> Safe Q (p ← NextChar dcheck_on E p; k p).
Proof. apply safe_next_n. Qed.
Lemma mem_read_safe (Q : bytes -> Prop) i n : 0 <= i -> 0 <= n -> i + n <= E + 1 -> (forall s, zlen s = n -> Q s) -> Safe Q (mem_read mem i n).
Proof.
  intros ? ? ? HQ. unfold mem_read, guard_or. rewrite (proj2 (in_block_true mem i n)) by (rewrite zlen_mem; lia). apply HQ. apply zlen_zslice; [lia|lia|rewrite zlen_mem; lia].
Qed.
Lemma moved_refl p : At p -> moved p p.
Proof. intros. split; [done|lia]. Qed.
Lemma moved_trans p q r : moved p q -> moved q r -> moved p r.
Proof. intros (? & ? & ?) (? & ? & ?). split; [done|lia]. Qed.
Lemma moved_next p : At p -> pos_ p < E -> moved p (set_pos (pos_ p + 1) (index_ p + 1) p).
Proof. intros [? ?] ?. unfold moved, At. cbn. lia. Qed.
Lemma can_consume p : CanConsume E 1 p = true -> pos_ p < E.
Proof. unfold CanConsume. lia. Qed.

(** * Whitespace and comments *)
Definition Moved (p : parser) (bq : bool * parser) : Prop := moved p bq.2.
Lemma safe_line_comment fuel : forall p, At p -> (Z.to_nat (E - pos_ p) <= fuel)%nat -> Safe (Moved p) (line_comment dcheck_on mem E fuel p).
Proof.
  induction fuel as [|fuel IH]; intros p Hp Hf; cbn [line_comment]; destruct (CanConsume E 1 p) eqn:Ec; try (by apply moved_refl); apply can_consume in Ec; [lia|].
  pose proof (moved_next p Hp Ec) as Hm. apply safe_next, safe_peek_bind; [apply Hm|]. intros c _ _. destruct (_ || _); [exact Hm|].
  eapply Safe_mono; [apply IH; [apply Hm|cbn; lia]|]. intros [? q]. by apply moved_trans.
Qed.
Lemma safe_block_comment fuel : forall c p, At p -> (Z.to_nat (E - pos_ p) <= fuel)%nat -> Safe (Moved p) (block_comment dcheck_on mem E fuel c p).
Proof.
  induction fuel as [|fuel IH]; intros c0 p Hp Hf; cbn [block_comment]; destruct (CanConsume E 1 p) eqn:Ec; try (by apply moved_refl); apply can_consume in Ec; [lia|].
  pose proof (moved_next p Hp Ec) as Hm. apply safe_next, safe_peek_bind; [apply Hm|]. intros c _ Hc. destruct (_ && _) eqn:Eb.
  - apply safe_next. eapply moved_trans; [exact Hm|]. apply moved_next; [apply Hm|]. apply Hc. cbn in Eb. lia.
  - eapply Safe_mono; [apply IH; [apply Hm|cbn; lia]|]. intros [? q]. by apply moved_trans.
Qed.
Lemma loop_fuel_enough p : At p -> (Z.to_nat (E - pos_ p) <= loop_fuel E)%nat.
Proof. intros [? _]. unfold loop_fuel. lia. Qed.
Lemma safe_EatComment p : At p -> Safe (fun bq => moved p bq.2 /\ (bq.1 = true -> pos_ p < pos_ bq.2)) (EatComment dcheck_on mem E p).
Proof.
  intros Hp. unfold EatComment. apply safe_peek_bind; [done|]. intros c _ _. destruct (_ || _) eqn:Eb; [by split; [apply moved_refl|]|].
  apply orb_false_iff in Eb as [_ Eb]. apply negb_false_iff, can_consume in Eb. pose proof (moved_next p Hp Eb) as Hm.
  assert (forall bq, Moved (set_pos (pos_ p + 1) (index_ p + 1) p) bq -> moved p bq.2 /\ (bq.1 = true -> pos_ p < pos_ bq.2)) as Hpost.
  { intros [b q] H. split; [by eapply moved_trans|]. intros _. destruct H as (_ & H & _). cbn in *. lia. }
  apply safe_next, safe_peek_bind; [apply Hm|]. intros c2 _ _. destruct (c2 =? _); [|destruct (c2 =? _)].
  - eapply Safe_mono; [apply safe_line_comment; [apply Hm|apply loop_fuel_enough, Hm]|exact Hpost].
  - eapply Safe_mono; [apply safe_block_comment; [apply Hm|apply loop_fuel_enough, Hm]|exact Hpost].
  - split; [exact Hm|done].
Qed.
Lemma safe_count_line c p : At p -> Safe (fun q => At q /\ pos_ q = pos_ p /\ stack_depth_ q = stack_depth_ p) (count_line mem c p).
Proof.
  intros Hp. unfold count_line. apply (Safe_bind (fun _ => True)); [|by intros b _; cbn].
  destruct (_ && _) eqn:Eb; [|done]. apply (Safe_bind (fun _ => True)); [|done]. destruct Hp. apply safe_char; [lia|done].
Qed.
Lemma safe_EatWhitespace fuel : forall p, At p -> (Z.to_nat (E - pos_ p) <= fuel)%nat -> Safe (moved p) (EatWhitespace_loop dcheck_on mem E fuel p).
Proof.
  induction fuel as [|fuel IH]; intros p Hp Hf; cbn [EatWhitespace_loop]; destruct (Z.ltb_spec (pos_ p) E); try (by apply moved_refl); [lia|].
  assert (forall q, moved p q -> pos_ p < pos_ q -> Safe (moved p) (EatWhitespace_loop dcheck_on mem E fuel q)) as Hgo.
  { intros q Hq ?. destruct Hp. eapply Safe_mono; [apply IH; [apply Hq|lia]|]. intros r. by apply moved_trans. }
  apply safe_peek_bind; [done|]. intros c _ _. destruct (_ || _); [|destruct (_ || _); [|destruct (_ =? _)]].
  - eapply Safe_bind; [by apply safe_count_line|]. intros q (Hq & Eq & Ed). apply safe_next. apply Hgo; [|cbn; lia].
    eapply moved_trans; [|apply moved_next; [done|lia]]. split; [done|lia].
  - apply safe_next, Hgo; [by apply moved_next|cbn; lia].
  - eapply Safe_bind; [by apply safe_EatComment|]. intros [b q] [Hq Hb]. destruct b; [|done]. apply Hgo; [done|auto].
  - by apply moved_refl.
Qed.

(** * Tokens *)
Definition Token_at (p : parser) (tq : Token * parser) : Prop := moved p tq.2 /\ (tq.1 = T_END_OF_INPUT \/ pos_ tq.2 < E).
Lemma safe_GetNextToken p : At p -> Safe (Token_at p) (GetNextToken dcheck_on mem E p).
Proof.
  intros Hp. unfold GetNextToken. eapply Safe_bind; [apply safe_EatWhitespace; [done|by apply loop_fuel_enough]|]. intros q Hq.
  destruct (CanConsume E 1 q) eqn:Ec; [|split; [done|by left]]. apply can_consume in Ec. apply safe_peek_bind; [apply Hq|]. intros c _ _. split; [done|by right].
Qed.

(** * Strings *)
Lemma next_in_mem i : 0 <= i <= E -> exists c i', CBU8_NEXT mem i (s32 E) = Ret (c, i') /\ i < i' /\ c < 0x110000 /\
  (i' <= E \/ i = E /\ i' = E + 1 /\ c = 0) /\ (0 <= c < 0x80 -> i' = i + 1).
Proof.
  intros Hi. rewrite swrap_small by (unfold zlen in *; cbn in *; lia). destruct (Z.eq_dec i E) as [->|].
  - exists 0, (E + 1). split; [|lia]. unfold CBU8_NEXT. rewrite (char_at_head input []). done.
  - destruct (prefix_at input i Hi) as (p & r & Es & Hp). rewrite Es in *. subst i. rewrite <- Es.
    assert (r <> []) as Hr by (intros ->; rewrite app_nil_r in *; lia). apply Forall_app in Hbytes as [_ Hb].
    destruct (next_sound p r Hr Hb) as [(c & r' & Hc & Er & Ec)|(i' & Ec & ?)]; rewrite <- Es in Ec.
    + exists c, (zlen p + zlen (utf8 c)). split; [by apply CBU8_NEXT_more|]. rewrite Es, Er, !zlen_app. unfold valid in Hc.
      destruct (enc_cons (enc := utf8) c Hc) as (u & r2 & Eu). assert (1 <= zlen (utf8 c)) by (rewrite Eu, zlen_cons; unfold zlen; lia). split; [lia|]. split; [lia|].
      split; [left; unfold zlen; lia|]. intros ?. unfold utf8. destruct (Z.leb_spec c 0x7f); [done|lia].
    + exists CBU_SENTINEL, i'. split; [by apply CBU8_NEXT_more|]. rewrite Es. unfold CBU_SENTINEL. lia.
Qed.
(** A builder in a string whose characters up to [i] have been taken. *)
Definition builder_ok (i : Z) (b : builder) : Prop := match b with Piece pos n => 0 <= pos /\ 0 <= n /\ pos + n = i | Converted _ => True end.
Definition is_converted (b : builder) : Prop := match b with Piece _ _ => False | Converted _ => True end.
Lemma safe_convert {B} (Q : B -> Prop) i b (k : builder -> outcome B) : builder_ok i b -> i <= E + 1 -> (forall b', is_converted b' -> Safe Q (k b')) -> Safe Q (b ← BuilderConvert mem b; k b).
Proof.
  intros Hb Hi Hk. destruct b as [pos n|s]; cbn [BuilderConvert]; [|obind; by apply Hk]. destruct Hb as (? & ? & ?).
  eapply Safe_bind; [|intros b' Hb'; exact (Hk b' Hb')]. apply (Safe_bind (fun _ => True)); [|done]. apply mem_read_safe; auto; lia.
Qed.
Lemma safe_append_bind {B} (Q : B -> Prop) c b (k : builder -> outcome B) :
  (forall b', (is_converted b -> is_converted b') -> (forall i, builder_ok i b -> builder_ok (i + 1) b') -> Safe Q (k b')) -> Safe Q (b ← BuilderAppend dcheck_on c b; k b).
Proof.
  intros Hk. eapply (Safe_bind (fun b' => (is_converted b -> is_converted b') /\ (forall i, builder_ok i b -> builder_ok (i + 1) b'))); [|intros b' []; auto].
  apply safe_dcheck. destruct b; cbn; [|done]. split; [done|]. intros i (? & ? & ?). lia.
Qed.
Lemma converted_ok i b : is_converted b -> builder_ok i b.
Proof. by destruct b. Qed.
Lemma safe_append_string (Q : builder -> Prop) s b : is_converted b -> (forall b', is_converted b' -> Q b') -> Safe Q (BuilderAppendString s b).
Proof. destruct b; [done|]. intros _ H. by apply H. Qed.
Lemma safe_DecodeUTF8_converted {B} (Q : B -> Prop) c b (k : builder -> outcome B) : is_converted b -> (forall b', is_converted b' -> Safe Q (k b')) -> Safe Q (b ← DecodeUTF8 dcheck_on mem c b; k b).
Proof.
  intros Hb Hk. apply (Safe_bind is_converted); [|exact Hk]. unfold DecodeUTF8. destruct (_ <? _).
  - apply safe_dcheck. destruct b; [done|]. done.
  - destruct b; [done|]. obind. by apply safe_append_string.
Qed.

(** Where the parser is in a string: [index_] is one behind [pos_]. *)
Definition In_escape (p q : parser) : Prop := 0 <= pos_ q <= E /\ index_ q = pos_ q + 1 /\ pos_ p <= pos_ q /\ stack_depth_ q = stack_depth_ p.
Definition Escape_post {A} (R : A -> Prop) (p : parser) (oq : option A * parser) : Prop :=
  stack_depth_ oq.2 = stack_depth_ p /\ match oq.1 with Some a => R a /\ In_escape p oq.2 | None => True end.
Lemma escape_fail {A} (R : A -> Prop) p q : stack_depth_ q = stack_depth_ p -> Safe (Escape_post R p) (Ret (None, q)).
Proof. done. Qed.
Lemma safe_DecodeUnit p : 0 <= pos_ p -> pos_ p + 4 <= E + 1 -> index_ p = pos_ p + 1 ->
  Safe (Escape_post (fun _ => True) p) (DecodeUnit dcheck_on mem E p) /\
  Safe (fun oq => stack_depth_ oq.2 = stack_depth_ p /\ match oq.1 with Some _ => pos_ oq.2 = pos_ p + 3 /\ index_ oq.2 = pos_ p + 4 | None => True end) (DecodeUnit dcheck_on mem E p).
Proof.
  intros ? ? ?. split; (unfold DecodeUnit; apply (Safe_bind (fun _ => True)); [apply mem_read_safe; auto; lia|]; intros digits _; destruct (HexStringToInt digits 0) as [[] u]; [|done]; apply safe_next_n).
  - unfold Escape_post, In_escape. cbn. lia.
  - cbn. lia.
Qed.
Lemma safe_DecodeUTF16 p : 0 <= pos_ p -> index_ p = pos_ p + 1 -> Safe (Escape_post (fun _ => True) p) (DecodeUTF16 dcheck_on mem E p).
Proof.
  intros Hp Hi. unfold DecodeUTF16, CanConsume. destruct (Z.leb_spec (pos_ p + 4) E); cbn [negb]; [|done].
  eapply Safe_bind; [apply safe_DecodeUnit; lia|]. intros [[u|] q] [Hd Hq]; cbn in Hd, Hq; [|done]. destruct Hq as [Hq Hiq].
  destruct (CBU_IS_SURROGATE u).
  2:{ split; [done|]. cbn. unfold In_escape. lia. }
  destruct (negb _); [done|]. destruct (Z.leb_spec (pos_ q + 6) E); cbn [negb]; [|done].
  apply safe_next. cbn [pos_ set_pos]. eapply Safe_bind; [apply (safe_char (fun _ => True)); [cbn; lia|done]|]. intros c _. destruct (negb _); [done|].
  apply safe_next. eapply Safe_bind; [apply (safe_char (fun _ => True)); [cbn; lia|done]|]. intros c2 _. destruct (negb _); [done|].
  apply safe_next. set (q3 := set_pos _ _ _). assert (pos_ q3 = pos_ q + 3 /\ index_ q3 = pos_ q3 + 1 /\ stack_depth_ q3 = stack_depth_ p) as (E1 & E2 & E3) by (cbn; lia).
  eapply Safe_bind; [apply (safe_DecodeUnit q3); lia|]. intros [[v|] q4] [Hd4 Hq4]; cbn in Hd4, Hq4; [|split; [cbn in *; congruence|done]]. destruct Hq4 as [Hq4 Hi4].
  destruct (negb _); [cbn; split; [cbn; congruence|done]|]. split; [cbn; congruence|]. cbn. unfold In_escape. lia.
Qed.
Lemma safe_ConsumeEscape b p : 0 <= pos_ p < E -> index_ p = pos_ p + 1 -> builder_ok (pos_ p) b -> Safe (Escape_post is_converted p) (ConsumeEscape dcheck_on mem E b p).
Proof.
  intros Hp Hi Hb. unfold ConsumeEscape. eapply safe_convert; [exact Hb|lia|]. intros b' Hb'.
  unfold CanConsume. destruct (Z.leb_spec (pos_ p + 1) E); cbn [negb]; [|done].
  apply safe_next. set (q := set_pos _ _ _). assert (pos_ q = pos_ p + 1 /\ index_ q = pos_ q + 1 /\ stack_depth_ q = stack_depth_ p) as (E1 & E2 & E3) by (cbn; lia). clearbody q.
  eapply Safe_bind; [apply (safe_char (fun _ => True)); [lia|done]|]. intros c _.
  destruct (c =? _); [|destruct (c =? _)].
  - destruct (Z.leb_spec (pos_ q + 2) E); cbn [negb]; [|done]. apply safe_next. set (q2 := set_pos _ _ q). assert (pos_ q2 = pos_ q + 1 /\ index_ q2 = pos_ q2 + 1 /\ stack_depth_ q2 = stack_depth_ p) as (F1 & F2 & F3) by (cbn; lia). clearbody q2.
    apply (Safe_bind (fun _ => True)); [apply mem_read_safe; auto; lia|]. intros digits _. destruct (HexStringToInt digits 0) as [[] h]; cbn [negb]; [|done].
    apply safe_next. set (q3 := set_pos _ _ q2). assert (In_escape p q3) as Hq3 by (unfold In_escape; cbn; lia). clearbody q3.
    destruct (h <? _); [apply safe_append_bind|apply safe_DecodeUTF8_converted; [done|]]; intros b2 Hb2; intros; (split; [apply Hq3|split; [auto|exact Hq3]]).
  - destruct (Z.leb_spec (pos_ q + 5) E); cbn [negb]; [|done]. apply safe_next. set (q2 := set_pos _ _ q). assert (pos_ q2 = pos_ q + 1 /\ index_ q2 = pos_ q2 + 1 /\ stack_depth_ q2 = stack_depth_ p) as (F1 & F2 & F3) by (cbn; lia). clearbody q2.
    eapply Safe_bind; [apply safe_DecodeUTF16; lia|]. intros [[u|] q3] [Hd Hq3]; cbn in Hd; [|split; [cbn; congruence|done]]. destruct Hq3 as [_ Hq3].
    eapply Safe_bind; [apply (safe_append_string is_converted); auto|]. intros b2 Hb2. split; [cbn; congruence|]. split; [done|]. cbn in *. unfold In_escape in *. lia.
  - destruct (escape_of c) as [e|]; [|done]. apply safe_append_bind. intros b2 Hb2 _. split; [done|]. split; [auto|]. unfold In_escape. cbn. lia.
Qed.

(** The end of a string: the parser is at the quote. *)
Definition String_post (p : parser) (oq : option builder * parser) : Prop :=
  stack_depth_ oq.2 = stack_depth_ p /\ match oq.1 with Some b => At oq.2 /\ pos_ p <= pos_ oq.2 < E /\ (exists i, builder_ok i b /\ i <= E) | None => True end.
(** Between two characters of a string. *)
Definition In_string (p : parser) : Prop := 0 <= pos_ p <= index_ p /\ pos_ p <= E /\ (index_ p <= E \/ pos_ p = E /\ index_ p = E + 1).
Lemma safe_ConsumeString_loop fuel : forall b p, In_string p -> (Z.to_nat (E + 1 - index_ p) <= fuel)%nat -> builder_ok (index_ p) b ->
  Safe (String_post p) (ConsumeString_loop dcheck_on mem E fuel b p).
Proof.
  induction fuel as [|fuel IH]; intros b p Hp Hf Hb; cbn [ConsumeString_loop]; destruct (CanConsume E 1 p) eqn:Ec; try done; apply can_consume in Ec; destruct Hp as (? & ? & Hx); [lia|].
  destruct (next_in_mem (index_ p)) as (c & i' & En & Hi & Hmax & Hend & Hone); [lia|]. cbn zeta. cbn [index_ set_pos pos_]. rewrite En. obind.
  set (q := set_pos (index_ p) i' _). assert (pos_ q = index_ p /\ index_ q = i' /\ stack_depth_ q = stack_depth_ p) as (E1 & E2 & E3) by done. clearbody q.
  destruct ((c <? 0) || _) eqn:Ebad; [by split; [cbn; congruence|]|]. apply orb_false_iff in Ebad as [Epos _]. apply Z.ltb_ge in Epos.
  assert (forall b' r, In_string r -> pos_ p <= pos_ r -> index_ p < index_ r -> stack_depth_ r = stack_depth_ p -> builder_ok (index_ r) b' -> Safe (String_post p) (ConsumeString_loop dcheck_on mem E fuel b' r)) as Hgo.
  { intros b' r Hr ? ? Hd Hb'. eapply Safe_mono; [apply IH; [done|lia|done]|]. intros [o s] [Hs Ho]. cbn in *. split; [cbn; congruence|]. destruct o; [|done]. cbn in *. destruct Ho as (? & ? & ?). split; [done|]. split; [lia|done]. }
  destruct (Z.eqb_spec c ch#"\") as [->|]; [|destruct (Z.eqb_spec c 34) as [->|]].
  - eapply Safe_bind; [apply safe_ConsumeEscape; [lia|lia|by rewrite E1]|]. intros [[b'|] r] [Hd Hr]; cbn in Hd, Hr; [|split; [cbn; congruence|done]].
    destruct Hr as [Hb' (? & ? & ? & ?)]. apply Hgo; [unfold In_string; lia|lia|lia|congruence|by apply converted_ok].
  - split; [cbn; congruence|]. cbn [pos_ index_ set_pos fst snd]. unfold At. cbn [pos_ index_ set_pos]. split; [lia|]. split; [lia|]. exists (index_ p). split; [done|lia].
  - destruct (Z.ltb_spec c kExtendedASCIIStart) as [Hc|Hc]; unfold kExtendedASCIIStart in Hc.
    + apply safe_append_bind. intros b' _ Hb'. apply Hgo; [unfold In_string; lia|lia|lia|congruence|]. rewrite E2, Hone by lia. by apply Hb'.
    + unfold DecodeUTF8. destruct (Z.ltb_spec c kExtendedASCIIStart); [unfold kExtendedASCIIStart in *; lia|].
      apply (Safe_bind is_converted); [eapply safe_convert; [exact Hb|lia|]; intros b' Hb'; by apply safe_append_string|].
      intros b' Hb'. apply Hgo; [unfold In_string; lia|lia|lia|congruence|by apply converted_ok].
Qed.
Lemma safe_ConsumeStringRaw p : At p -> Safe (String_post p) (ConsumeStringRaw dcheck_on mem E p).
Proof.
  intros Hp. unfold ConsumeStringRaw. apply safe_peek_bind; [done|]. intros c _ Hc. destruct (Z.eqb_spec c 34) as [->|]; cbn [negb]; [|done].
  apply safe_next. specialize (Hc ltac:(lia)). destruct Hp as [? Hi]. set (q := set_pos _ _ p). assert (pos_ q = pos_ p + 1 /\ index_ q = pos_ q /\ stack_depth_ q = stack_depth_ p) as (E1 & E2 & E3) by (cbn; lia). clearbody q.
  eapply Safe_mono; [apply safe_ConsumeString_loop; [unfold In_string; lia|unfold loop_fuel; lia|cbn; lia]|].
  intros [[b|] r] [Hd Hr]; cbn in *; (split; [cbn; congruence|]); [|done]. cbn. destruct Hr as (? & ? & ?). split; [done|]. split; [lia|done].
Qed.

(** * Values *)
(** How deeply dictionaries and lists are nested. *)
Fixpoint nesting (v : Value) : Z :=
  match v with
  | VDictionary m => 1 + fold_right (fun e n => Z.max (nesting e.2) n) 0 m
  | VList l => 1 + fold_right (fun x n => Z.max (nesting x) n) 0 l
  | _ => 0
  end.
Definition dict_nesting (m : dict) : Z := fold_right (fun e n => Z.max (nesting e.2) n) 0 m.
Definition list_nesting (l : list Value) : Z := fold_right (fun x n => Z.max (nesting x) n) 0 l.
Lemma dict_nesting_assign k v m n : nesting v <= n -> dict_nesting m <= n -> dict_nesting (map_assign k v m) <= n.
Proof.
  induction m as [|[k' w] m IH]; cbn [map_assign dict_nesting fold_right fst snd]; [lia|]. fold (dict_nesting m). intros H1 H2.
  case_bool_decide; cbn [dict_nesting fold_right fst snd]; fold (dict_nesting m); [lia|]. destruct (key_lt k k'); cbn [dict_nesting fold_right fst snd]; [fold (dict_nesting m); lia|].
  fold (dict_nesting (map_assign k v m)). specialize (IH ltac:(lia) ltac:(lia)). lia.
Qed.
Lemma list_nesting_snoc l v n : nesting v <= n -> list_nesting l <= n -> list_nesting (l ++ [v]) <= n.
Proof. induction l as [|x l IH]; cbn [app list_nesting fold_right]; [lia|]. fold (list_nesting l). fold (list_nesting (l ++ [v])). intros. specialize (IH ltac:(lia) ltac:(lia)). lia. Qed.

(** The end of a value: the parser is at its last character. *)
Definition Value_post (p : parser) (oq : option Value * parser) : Prop :=
  stack_depth_ oq.2 = stack_depth_ p /\ match oq.1 with Some v => At oq.2 /\ pos_ p <= pos_ oq.2 < E /\ 0 <= nesting v /\ (nesting v = 0 \/ nesting v + stack_depth_ p < kStackMaxDepth) | None => True end.
Lemma value_fail p q : stack_depth_ q = stack_depth_ p -> Safe (Value_post p) (Ret (None, q)).
Proof. done. Qed.
Lemma scalar_post p q v : nesting v = 0 -> At q -> pos_ p <= pos_ q < E -> stack_depth_ q = stack_depth_ p -> Value_post p (Some v, q).
Proof. intros Hv ? ? ?. split; [done|]. cbn. rewrite Hv. split; [done|]. split; [done|]. split; [lia|by left]. Qed.
Lemma safe_StringValue s : Safe (fun v => v = VString s) (StringValue dcheck_on s).
Proof. by apply safe_utf8. Qed.
Lemma safe_ConsumeString p : At p -> Safe (Value_post p) (ConsumeString dcheck_on options_ mem E p).
Proof.
  intros Hp. unfold ConsumeString. eapply Safe_bind; [by apply safe_ConsumeStringRaw|]. intros [[b|] q] [Hd Hq]; cbn in Hd, Hq; [|done]. destruct Hq as (Hq & Hpos & i & Hb & Hi).
  apply (Safe_bind (fun _ => True)); [destruct b as [pos n|s]; [|done]; destruct Hb as (? & ? & ?); apply mem_read_safe; auto; lia|]. intros s _.
  assert (Safe (Value_post p) (v ← StringValue dcheck_on s; Ret (Some v, q))) as Hs by (eapply Safe_bind; [apply safe_StringValue|]; intros v ->; by apply scalar_post).
  destruct b; [|done]. destruct (_ =? 0); [by apply scalar_post|done].
Qed.

(** ** Numbers *)
Lemma safe_ReadInt_loop fuel : forall c len p, At p -> (Z.to_nat (E - pos_ p) <= fuel)%nat -> 0 <= len -> Safe (fun lq => moved p lq.2 /\ len <= lq.1 /\ (len < lq.1 -> pos_ p < pos_ lq.2)) (ReadInt_loop dcheck_on mem E fuel c len p).
Proof.
  induction fuel as [|fuel IH]; intros c len p Hp Hf Hl; cbn [ReadInt_loop]; destruct (CanConsume E 1 p) eqn:Ec; cbn [andb];
    try (split; [by apply moved_refl|cbn; lia]); apply can_consume in Ec; (destruct (IsAsciiDigit c); [|split; [by apply moved_refl|cbn; lia]]); [lia|].
  pose proof (moved_next p Hp Ec) as Hm. apply safe_next, safe_peek_bind; [apply Hm|]. intros c2 _ _.
  eapply Safe_mono; [apply IH; [apply Hm|cbn; lia|lia]|]. intros [n q] (Hq & Hn & _). cbn in *. split; [by eapply moved_trans|]. destruct Hq as (_ & Hq & _). cbn in Hq. lia.
Qed.
Lemma safe_ReadInt b p : At p -> Safe (fun oq => moved p oq.2 /\ (oq.1 = true -> pos_ p < pos_ oq.2)) (ReadInt dcheck_on mem E b p).
Proof.
  intros Hp. unfold ReadInt. apply safe_peek_bind; [done|]. intros c _ _. eapply Safe_bind; [apply (safe_ReadInt_loop _ c 0 p Hp); [by apply loop_fuel_enough|lia]|].
  intros [n q] (Hq & Hn & Hlt). cbn in *. split; [done|]. intros Ht. apply Hlt. destruct (Z.eqb_spec n 0); [done|lia].
Qed.
Definition Option_moved (p : parser) (oq : option parser * parser) : Prop := stack_depth_ oq.2 = stack_depth_ p /\ match oq.1 with Some q => moved p q | None => True end.
Lemma safe_digits p0 p : moved p0 p -> Safe (Option_moved p0) ('(ok, p) ← ReadInt dcheck_on mem E true p; Ret (if ok : bool then Some p else None, p)).
Proof.
  intros Hp. eapply Safe_bind; [apply safe_ReadInt, Hp|]. intros [ok q] [Hq _]. pose proof (moved_trans p0 p q Hp Hq) as Hm. split; [apply Hm|]. by destruct ok.
Qed.
Lemma safe_ReadFraction p : At p -> Safe (Option_moved p) (ReadFraction dcheck_on mem E p).
Proof.
  intros Hp. unfold ReadFraction. apply safe_peek_bind; [done|]. intros c _ Hc. destruct (Z.eqb_spec c ch#".") as [->|]; [|split; [done|by apply moved_refl]].
  destruct (negb _); [done|]. apply safe_next, safe_digits. apply moved_next; [done|]. apply Hc. lia.
Qed.
Lemma safe_ReadExponent p : At p -> Safe (Option_moved p) (ReadExponent dcheck_on mem E p).
Proof.
  intros Hp. unfold ReadExponent. apply safe_peek_bind; [done|]. intros c _ Hc. destruct (_ || _) eqn:Ee; [|split; [done|by apply moved_refl]].
  assert (moved p (set_pos (pos_ p + 1) (index_ p + 1) p)) as Hm by (apply moved_next; [done|apply Hc; lia]). clear Ee.
  apply safe_next, safe_peek_bind; [apply Hm|]. intros c2 _ Hc2. eapply (Safe_bind (moved p)); [|intros q Hq; by apply safe_digits].
  destruct (_ || _) eqn:Es; [|exact Hm]. unfold NextChar, NextNChars. apply safe_dcheck. eapply moved_trans; [exact Hm|]. apply moved_next; [apply Hm|]. apply Hc2. lia.
Qed.
Lemma safe_ConsumeNumber p : At p -> Safe (Value_post p) (ConsumeNumber dcheck_on strtod mem E p).
Proof.
  intros Hp. unfold ConsumeNumber. apply safe_peek_bind; [done|]. intros c _ Hc.
  eapply (Safe_bind (moved p)); [destruct (Z.eqb_spec c ch#"-"); [unfold NextChar, NextNChars; apply safe_dcheck, moved_next; [done|apply Hc; lia]|by apply moved_refl]|].
  intros q Hq. eapply Safe_bind; [apply safe_ReadInt, Hq|]. intros [[] q1] [Hq1 Hlt]; cbn [negb]; [|by cbn in *; pose proof (moved_trans _ _ _ Hq Hq1) as (_ & _ & ?)].
  specialize (Hlt eq_refl). cbn in Hq1, Hlt. pose proof (moved_trans _ _ _ Hq Hq1) as Hm1. assert (pos_ p < pos_ q1) as Hlt1 by (destruct Hq as (_ & ? & _); lia).
  eapply Safe_bind; [apply safe_ReadFraction, Hm1|]. intros [[q2|] q2'] [Hd Hq2]; cbn in Hd, Hq2; [|by apply value_fail; rewrite <- (proj2 (proj2 Hm1))].
  pose proof (moved_trans _ _ _ Hm1 Hq2) as Hm2. eapply Safe_bind; [apply safe_ReadExponent, Hm2|]. intros [[q3|] q3'] [Hd3 Hq3]; cbn in Hd3, Hq3; [|by apply value_fail; rewrite <- (proj2 (proj2 Hm2))].
  pose proof (moved_trans _ _ _ Hm2 Hq3) as Hm3. eapply Safe_bind; [apply safe_GetNextToken, Hm3|]. intros [t q4] [Hq4 _]. cbn in Hq4. pose proof (moved_trans _ _ _ Hm3 Hq4) as Hm4.
  assert (pos_ p < pos_ q3) as Hlt3 by (destruct Hq2 as (_ & ? & _), Hq3 as (_ & ? & _); lia).
  case_bool_decide; [|by apply value_fail, Hm4]. destruct Hm3 as ([Hb3 Hi3] & _ & _). destruct Hp as [Hbp Hip].
  assert (forall v, nesting v = 0 -> Value_post p (Some v, set_pos (pos_ q3 - 1) (index_ q3 - 1) q4)) as Hv.
  { intros v ?. apply scalar_post; [done|unfold At; cbn; lia|cbn; lia|apply Hm4]. }
  apply (Safe_bind (fun _ => True)); [apply mem_read_safe; auto; lia|]. intros s _.
  destruct (StringToInt s 0) as [[] n]; [by apply Hv|]. destruct (StringToDouble strtod s) as [[] d]; cbn [andb]; [|by apply value_fail, Hm4].
  destruct (IsFinite d) eqn:Ed; [|by apply value_fail, Hm4]. unfold FundamentalValue_double. rewrite Ed. obind. by apply Hv.
Qed.

(** ** Literals *)
Lemma StringsAreEqual_safe word : forall i, word <> [] -> 0 <= i -> i + zlen word <= E + 1 -> Forall (fun c => c <> 0) word ->
  exists b, StringsAreEqual mem i word = Ret b /\ (b = true -> i + zlen word <= E).
Proof.
  induction word as [|w word IH]; intros i Hne Hi Hl Hw; [done|]. cbn [StringsAreEqual]. rewrite zlen_cons in *.
  apply Forall_cons_1 in Hw as [Hw Hws]. assert (0 <= zlen word) by apply zlen_nonneg. destruct (char_at_mem i) as (c & -> & _ & Hc); [lia|]. obind.
  destruct (Z.eqb_spec c w) as [->|]; [|by exists false]. specialize (Hc Hw). destruct word as [|w' word]; [exists true; split; [done|]; change (zlen (@nil Z)) with 0; lia|].
  destruct (IH (i + 1)) as (b & -> & Hb); [done|lia|lia|done|]. exists b. split; [done|]. intros ->. specialize (Hb eq_refl). lia.
Qed.
Lemma safe_ConsumeWord word v p : word <> [] -> Forall (fun c => c <> 0) word -> nesting v = 0 -> At p -> Safe (Value_post p) (ConsumeWord dcheck_on mem E word v p).
Proof.
  intros Hne Hw Hv Hp. unfold ConsumeWord, CanConsume. destruct (Z.leb_spec (pos_ p + (zlen word - 1)) E); cbn [negb]; [|done].
  destruct Hp as [Hpos Hi]. destruct (StringsAreEqual_safe word (pos_ p)) as (b & -> & Hb); [done|lia|lia|done|]. obind. destruct b; cbn [negb]; [|done]. specialize (Hb eq_refl).
  assert (1 <= zlen word) by (destruct word; [done|rewrite zlen_cons; pose proof (zlen_nonneg word); lia]).
  apply safe_next_n. apply scalar_post; [done|unfold At; cbn; lia|cbn; lia|done].
Qed.
Lemma safe_ConsumeLiteral p : At p -> Safe (Value_post p) (ConsumeLiteral dcheck_on mem E p).
Proof.
  intros Hp. unfold ConsumeLiteral. apply safe_peek_bind; [done|]. intros c _ _.
  destruct (c =? ch#"t"); [|destruct (c =? ch#"f"); [|destruct (c =? ch#"n"); [|done]]]; (apply safe_ConsumeWord; [done|repeat constructor; lia|done|done]).
Qed.

(** ** Structures *)
Lemma safe_with_marker p (k : parser -> outcome (option Value * parser)) : At p ->
  (stack_depth_ p + 1 < kStackMaxDepth -> Safe (fun oq => stack_depth_ oq.2 = stack_depth_ p + 1 /\ match oq.1 with
     Some v => At oq.2 /\ pos_ p <= pos_ oq.2 < E /\ 0 <= nesting v /\ nesting v + stack_depth_ p < kStackMaxDepth | None => True end) (k (set_depth (stack_depth_ p + 1) p))) ->
  Safe (Value_post p) (with_marker dcheck_on k p).
Proof.
  intros Hp Hk. unfold with_marker. apply safe_dcheck. cbn [stack_depth_ set_depth]. destruct (Z.leb_spec kStackMaxDepth (stack_depth_ p + 1)).
  - obind. split; [cbn; lia|done].
  - eapply Safe_bind; [by apply Hk|]. intros [[v|] q] [Hd Hq]; cbn in Hd, Hq; (split; [cbn; lia|]); [|done]. cbn. destruct Hq as ([? ?] & ? & ? & ?). split; [done|]. split; [done|]. auto.
Qed.
(** A token and where the parser is at it. *)
Definition Token_ok (token : Token) (p : parser) : Prop := At p /\ (token = T_END_OF_INPUT \/ pos_ p < E).
Definition After_post (p : parser) (oq : option Token * parser) : Prop :=
  stack_depth_ oq.2 = stack_depth_ p /\ match oq.1 with Some t => Token_ok t oq.2 /\ pos_ p < pos_ oq.2 | None => True end.
Lemma safe_token_bind {B} (Q : B -> Prop) p k : At p -> (forall t q, moved p q -> Token_ok t q -> Safe Q (k (t, q))) -> Safe Q (tq ← GetNextToken dcheck_on mem E p; k tq).
Proof. intros Hp Hk. eapply Safe_bind; [by apply safe_GetNextToken|]. intros [t q] [Hm Ht]. apply Hk; [done|]. split; [apply Hm|done]. Qed.
Lemma safe_AfterItem close adjust p : close <> T_END_OF_INPUT -> At p -> pos_ p < E -> Safe (After_post p) (AfterItem dcheck_on options_ mem E close adjust p).
Proof.
  intros Hc Hp Hlt. unfold AfterItem. apply safe_next. pose proof (moved_next p Hp Hlt) as Hm. apply safe_token_bind; [apply Hm|]. intros t q Hq Ht.
  pose proof (moved_trans _ _ _ Hm Hq) as Hmq. assert (pos_ p < pos_ q) by (destruct Hq as (_ & Hq & _); cbn in Hq; lia).
  case_bool_decide as Et.
  - subst t. destruct Ht as [Hq0 [?|Hlt2]]; [done|]. pose proof (moved_next q Hq0 Hlt2) as Hm2. apply safe_next, safe_token_bind; [apply Hm2|]. intros t2 q2 Hq2 Ht2.
    pose proof (moved_trans _ _ _ Hmq (moved_trans _ _ _ Hm2 Hq2)) as Hm3. destruct (_ && _); [split; [apply Hm3|done]|]. split; [apply Hm3|]. split; [done|]. destruct Hq2 as (_ & Hq2 & _). cbn in *. lia.
  - case_bool_decide; [|split; [apply Hmq|done]]. split; [apply Hmq|]. by split.
Qed.
Definition Key_post (p : parser) (oq : option bytes * parser) : Prop :=
  stack_depth_ oq.2 = stack_depth_ p /\ match oq.1 with Some _ => moved p oq.2 /\ pos_ p < pos_ oq.2 | None => True end.
Lemma safe_ConsumeKey token p : Token_ok token p -> Safe (Key_post p) (ConsumeKey dcheck_on mem E token p).
Proof.
  intros [Hp _]. unfold ConsumeKey. destruct (negb _); [done|]. eapply Safe_bind; [by apply safe_ConsumeStringRaw|]. intros [[b|] q] [Hd Hq]; cbn in Hd, Hq; [|done].
  destruct Hq as (Hq & Hpos & i & Hb & Hi). pose proof (moved_next q Hq ltac:(lia)) as Hm. apply safe_next, safe_token_bind; [apply Hm|]. intros t r Hr Ht.
  assert (moved p q) as Hpq by (split; [done|lia]). pose proof (moved_trans _ _ _ Hpq (moved_trans _ _ _ Hm Hr)) as Hm2.
  case_bool_decide as Et; cbn [negb]; [|split; [apply Hm2|done]]. subst t. destruct Ht as [Hr0 [?|Hlt]]; [done|].
  pose proof (moved_trans _ _ _ Hm2 (moved_next r Hr0 Hlt)) as Hm3. apply safe_next. apply (Safe_bind (fun _ => True)).
  - destruct b as [pos n|s]; [|done]. destruct Hb as (? & ? & ?). apply mem_read_safe; auto; lia.
  - intros s _. split; [apply Hm3|]. split; [exact Hm3|]. cbn. destruct Hm2 as (_ & ? & _). lia.
Qed.

(** The loops: what is parsed is nested less deeply than the stack allows. *)
Definition Loop_post (p : parser) (oq : option Value * parser) : Prop :=
  stack_depth_ oq.2 = stack_depth_ p /\ match oq.1 with Some v => At oq.2 /\ pos_ p <= pos_ oq.2 < E /\ 0 <= nesting v /\ nesting v + stack_depth_ p <= kStackMaxDepth | None => True end.
Definition Fuel_ok (fuel : nat) (k : Z) (p : parser) : Prop := 2 * (E - pos_ p) + k <= Z.of_nat fuel.
Lemma nesting_nonneg v : 0 <= nesting v.
Proof.
  destruct v as [| | | | | |m|l]; cbn [nesting]; try lia; [fold (dict_nesting m)|fold (list_nesting l)].
  - enough (0 <= dict_nesting m) by lia. induction m as [|[k v] m IH]; cbn; [done|]. fold (dict_nesting m). lia.
  - enough (0 <= list_nesting l) by lia. induction l as [|v l IH]; cbn; [done|]. fold (list_nesting l). lia.
Qed.
Lemma fuel_step fuel p q : Fuel_ok (S fuel) 2 p -> pos_ p < pos_ q -> Fuel_ok fuel 2 q.
Proof. unfold Fuel_ok. lia. Qed.
Definition ParseToken_safe (fuel : nat) : Prop := forall token p, Token_ok token p -> Fuel_ok fuel 1 p -> Safe (Value_post p) (ParseToken dcheck_on strtod options_ mem E fuel token p).
Definition Dictionary_safe (fuel : nat) : Prop := forall token d p, Token_ok token p -> stack_depth_ p < kStackMaxDepth -> dict_nesting d + stack_depth_ p < kStackMaxDepth -> Fuel_ok fuel 2 p ->
  Safe (Loop_post p) (ConsumeDictionary_loop dcheck_on strtod options_ mem E fuel token d p).
Definition List_safe (fuel : nat) : Prop := forall token l p, Token_ok token p -> stack_depth_ p < kStackMaxDepth -> list_nesting l + stack_depth_ p < kStackMaxDepth -> Fuel_ok fuel 2 p ->
  Safe (Loop_post p) (ConsumeList_loop dcheck_on strtod options_ mem E fuel token l p).

Lemma loop_mono p q oq : Loop_post q oq -> stack_depth_ q = stack_depth_ p -> pos_ p <= pos_ q -> Loop_post p oq.
Proof. intros [Hd Ho] Hq ?. split; [congruence|]. destruct oq.1; [|done]. destruct Ho as (? & ? & ? & ?). split; [done|]. split; [lia|]. split; [done|]. by rewrite <- Hq. Qed.
Lemma loop_fail p q : stack_depth_ q = stack_depth_ p -> Safe (Loop_post p) (Ret (None, q)).
Proof. done. Qed.

Lemma ParseToken_step fuel : Dictionary_safe fuel -> List_safe fuel -> ParseToken_safe (S fuel).
Proof.
  intros HD HL token p [Hp Ht] Hf. cbn [ParseToken].
  assert (forall c, (forall q, At q -> pos_ p < pos_ q -> stack_depth_ q = stack_depth_ p + 1 -> stack_depth_ q < kStackMaxDepth ->
      Safe (Loop_post q) (c q)) -> pos_ p < E ->
    Safe (Value_post p) (with_marker dcheck_on (fun p => p ← NextChar dcheck_on E p; c p) p)) as Hmark.
  { intros c Hc Hlt. apply safe_with_marker; [done|]. intros Hd. apply safe_next. cbn [pos_ index_ set_depth]. destruct Hp as [? ?].
    eapply Safe_mono; [apply Hc; unfold At; cbn; lia|]. intros [o q] [Hdq Ho]. cbn in Hdq, Ho. split; [done|]. cbn. destruct o; [|done]. destruct Ho as (? & ? & ? & ?).
    split; [done|]. split; [lia|]. split; [done|]. unfold kStackMaxDepth in *. lia. }
  destruct token; try done; try (by apply safe_ConsumeString); try (by apply safe_ConsumeNumber); try (by apply safe_ConsumeLiteral).
  - apply safe_peek_bind; [done|]. intros c _ Hc. destruct (Z.eqb_spec c ch#"{") as [->|]; cbn [negb]; [|done]. apply (Hmark (fun p => tq ← GetNextToken dcheck_on mem E p; _)); [|apply Hc; lia].
    intros q Hq Hlt Hdq Hmax. apply safe_token_bind; [done|]. intros t r Hr Htr. destruct Hr as (? & ? & Hdr).
    eapply Safe_mono; [apply HD; [done|lia|cbn; lia|unfold Fuel_ok in *; lia]|]. intros oq Ho. by apply (loop_mono q r).
  - apply safe_peek_bind; [done|]. intros c _ Hc. destruct (Z.eqb_spec c ch#"[") as [->|]; cbn [negb]; [|done]. apply (Hmark (fun p => tq ← GetNextToken dcheck_on mem E p; _)); [|apply Hc; lia].
    intros q Hq Hlt Hdq Hmax. apply safe_token_bind; [done|]. intros t r Hr Htr. destruct Hr as (? & ? & Hdr).
    eapply Safe_mono; [apply HL; [done|lia|cbn; lia|unfold Fuel_ok in *; lia]|]. intros oq Ho. by apply (loop_mono q r).
Qed.
(** The end of an item: on to the next, with what has been parsed in the collection. *)
Lemma value_nesting p v n : nesting v = 0 \/ nesting v + stack_depth_ p < kStackMaxDepth -> stack_depth_ p = n -> n < kStackMaxDepth -> nesting v <= kStackMaxDepth - 1 - n.
Proof. unfold kStackMaxDepth. lia. Qed.
Lemma Dictionary_step fuel : ParseToken_safe fuel -> Dictionary_safe fuel -> Dictionary_safe (S fuel).
Proof.
  intros HP HD token d p [Hp Ht] Hmax Hn Hf. cbn [ConsumeDictionary_loop]. case_bool_decide as Ec.
  - subst. split; [done|]. cbn. destruct Ht as [?|?]; [done|]. split; [done|]. split; [lia|]. fold (dict_nesting d). pose proof (nesting_nonneg (VDictionary d)) as Hnn. cbn in Hnn. fold (dict_nesting d) in Hnn. unfold kStackMaxDepth in *. lia.
  - eapply Safe_bind; [by apply safe_ConsumeKey|]. intros [[key|] q] [Hd Hq]; cbn in Hd, Hq; [|done]. destruct Hq as [Hm Hlt].
    apply safe_token_bind; [apply Hm|]. intros t r Hr Htr. pose proof (moved_trans _ _ _ Hm Hr) as Hmr. destruct Hmr as (Hr0 & Hpr & Hdr).
    eapply Safe_bind; [apply HP; [done|destruct Hr as (_ & ? & _); unfold Fuel_ok in *; lia]|]. intros [[v|] s] [Hds Hs]; cbn in Hds, Hs; [|apply loop_fail; congruence].
    destruct Hs as (Hs0 & Hps & Hvn & Hv). eapply Safe_bind; [apply safe_AfterItem; [done|done|lia]|]. intros [[t2|] u] [Hdu Hu]; cbn in Hdu, Hu; [|apply loop_fail; congruence].
    destruct Hu as [Htu Hlu]. assert (stack_depth_ u = stack_depth_ p) as Hdup by congruence. pose proof (value_nesting r v (stack_depth_ p) Hv Hdr Hmax) as Hvd.
    eapply Safe_mono; [apply HD; [done|congruence| |unfold Fuel_ok in *; destruct Hr as (_ & ? & _); lia]|].
    + unfold SetWithoutPathExpansion. pose proof (dict_nesting_assign key v d (kStackMaxDepth - 1 - stack_depth_ p)). lia.
    + intros oq Ho. apply (loop_mono p u); [done|done|lia].
Qed.
Lemma List_step fuel : ParseToken_safe fuel -> List_safe fuel -> List_safe (S fuel).
Proof.
  intros HP HL token l p [Hp Ht] Hmax Hn Hf. cbn [ConsumeList_loop]. case_bool_decide as Ec.
  - subst. split; [done|]. cbn. destruct Ht as [?|?]; [done|]. split; [done|]. split; [lia|]. fold (list_nesting l). pose proof (nesting_nonneg (VList l)) as Hnn. cbn in Hnn. fold (list_nesting l) in Hnn. unfold kStackMaxDepth in *. lia.
  - eapply Safe_bind; [apply HP; [done|unfold Fuel_ok in *; lia]|]. intros [[v|] s] [Hds Hs]; cbn in Hds, Hs; [|by apply loop_fail].
    destruct Hs as (Hs0 & Hps & Hvn & Hv). eapply Safe_bind; [apply safe_AfterItem; [done|done|lia]|]. intros [[t2|] u] [Hdu Hu]; cbn in Hdu, Hu; [|apply loop_fail; congruence].
    destruct Hu as [Htu Hlu]. assert (stack_depth_ u = stack_depth_ p) as Hdup by congruence. pose proof (value_nesting p v (stack_depth_ p) Hv eq_refl Hmax) as Hvd.
    eapply Safe_mono; [apply HL; [done|congruence| |unfold Fuel_ok in *; lia]|].
    + unfold Append. pose proof (list_nesting_snoc l v (kStackMaxDepth - 1 - stack_depth_ p)). lia.
    + intros oq Ho. apply (loop_mono p u); [done|done|lia].
Qed.
Lemma all_safe fuel : ParseToken_safe fuel /\ Dictionary_safe fuel /\ List_safe fuel.
Proof.
  induction fuel as [|fuel (HP & HD & HL)].
  - split; [|split].
    + intros token p [[? ?] _] Hf. unfold Fuel_ok in Hf. lia.
    + intros token d p [[? ?] _] _ _ Hf. unfold Fuel_ok in Hf. lia.
    + intros token l p [[? ?] _] _ _ Hf. unfold Fuel_ok in Hf. lia.
  - split; [by apply ParseToken_step|]. split; [by apply Dictionary_step|by apply List_step].
Qed.

(** ** The whole text *)
Lemma safe_SkipBOM p : At p -> Safe (moved p) (SkipBOM dcheck_on mem E p).
Proof.
  intros Hp. unfold SkipBOM, CanConsume. destruct (Z.leb_spec (pos_ p + 3) E); [|by apply moved_refl]. destruct Hp as [Hpos Hi] eqn:EHp.
  pose proof (moved_refl p Hp) as Hm.
  eapply Safe_bind; [apply (safe_char (fun _ => True)); [lia|done]|]. intros a _. destruct (a =? _); [|exact Hm].
  eapply Safe_bind; [apply (safe_char (fun _ => True)); [lia|done]|]. intros b _. destruct (b =? _); [|exact Hm].
  eapply Safe_bind; [apply (safe_char (fun _ => True)); [lia|done]|]. intros c _. destruct (c =? _); [|exact Hm].
  unfold NextNChars. apply safe_dcheck. unfold moved, At. cbn. lia.
Qed.
Lemma safe_DataAfterRoot p : At p -> Safe (fun bq => stack_depth_ bq.2 = stack_depth_ p) (DataAfterRoot dcheck_on mem E p).
Proof.
  intros Hp. unfold DataAfterRoot. apply safe_token_bind; [done|]. intros t q Hq Ht. case_bool_decide; [apply Hq|].
  destruct (negb (CanConsume E 1 q)) eqn:Ec; [apply Hq|]. apply negb_false_iff, can_consume in Ec. pose proof (moved_trans _ _ _ Hq (moved_next q ltac:(apply Hq) Ec)) as Hm.
  apply safe_next, safe_token_bind; [apply Hm|]. intros t2 r Hr _. by apply (moved_trans _ _ _ Hm Hr).
Qed.
Lemma safe_Parse_block : Safe (fun oq => stack_depth_ oq.2 = 0 /\ match oq.1 with Some v => nesting v < kStackMaxDepth | None => True end) (Parse_block dcheck_on strtod options_ mem E).
Proof.
  unfold Parse_block. set (p0 := Parser 0 0 0 1 0 JSON_NO_ERROR 0 0). assert (At p0) as Hp0 by (unfold At; cbn; pose proof (zlen_nonneg input); lia).
  eapply Safe_bind; [by apply safe_SkipBOM|]. intros p Hp. unfold ParseNextToken.
  eapply (Safe_bind (fun oq => stack_depth_ oq.2 = 0 /\ match oq.1 with Some v => At oq.2 /\ nesting v < kStackMaxDepth | None => True end)).
  - apply safe_token_bind; [apply Hp|]. intros t q Hq Ht. pose proof (moved_trans _ _ _ Hp Hq) as Hm. destruct Ht as [Hq0 Ht].
    eapply Safe_mono; [apply (proj1 (all_safe (parse_fuel E))); [by split|destruct Hq0; unfold Fuel_ok, parse_fuel; lia]|].
    intros [[v|] r] [Hd Hr]; cbn in *; (split; [destruct Hm as (_ & _ & Hm); cbn in *; congruence|]); [|done]. destruct Hr as (Hr & _ & ? & ?). split; [done|].
    destruct Hm as (_ & _ & Hm). cbn in Hm. unfold kStackMaxDepth in *. lia.
  - intros [[v|] q] [Hd Hq]; cbn in Hd, Hq; [|done]. destruct Hq as [Hq Hn]. eapply Safe_bind; [by apply safe_DataAfterRoot|]. intros [b r] Hr. cbn in Hr.
    destruct b; [split; [cbn; congruence|done]|].
    assert (stack_depth_ r = 0) as Hr0 by congruence. destruct v; try (by split). destruct (_ =? 0); [|by split]. cbn [DeepCopy]. eapply Safe_bind; [apply safe_StringValue|]. by intros v ->.
Qed.
End Safety.

(** C24: a JSON parser that copies its input is safe on any input: for every byte string
    of less than 2^31 bytes, every options without [JSON_DETACHABLE_CHILDREN] and every
    [strtod], [Parse] in a build without assertions ends with a value or an error; it reads
    nothing but the input and the NUL behind the copy, no loop runs out of fuel, no piece of
    the text is taken outside it, the nesting depth is back at zero at the end, whether there
    was an error or not, and the value is nested less than [kStackMaxDepth] deep.  In a build
    with assertions it ends in the same state with the same result or an assertion fails,
    as [negative_escape_aborts] shows it can; nothing else differs. *)
Theorem json_parse_safe strtod options_ input behind : Forall is_byte input -> zlen input < 2 ^ 31 -> Z.land options_ JSON_DETACHABLE_CHILDREN = 0 ->
  exists root p, Parse false strtod options_ input behind = Ret (root, p) /\ stack_depth_ p = 0 /\
    (forall v, root = Some v -> 0 <= nesting v < kStackMaxDepth) /\
    (Parse true strtod options_ input behind = Ret (root, p) \/ Parse true strtod options_ input behind = Fault AssertFail).
Proof.
  intros Hb Hl Ho. unfold Parse. rewrite Ho, Z.eqb_refl. pose proof (safe_Parse_block false strtod options_ input Hb Hl) as H.
  pose proof (Parse_block_asserts strtod options_ (input ++ [0]) (zlen input)) as Hd. unfold asserts in Hd.
  destruct (Parse_block false strtod options_ (input ++ [0]) (zlen input)) as [[root p]|f]; [|done]. exists root, p. destruct H as [H1 H2]. split; [done|]. split; [done|]. split; [|exact Hd].
  intros v ->. split; [apply nesting_nonneg|exact H2].
Qed.
Definition no_double (s : bytes) : double * Z * bool := (S754_zero false, 0, true).
Lemma json_parse_safe_witness :
  (exists root p, Parse false no_double 0 str#"[1, [true" [] = Ret (root, p) /\ root = None /\ error_code_ p = JSON_SYNTAX_ERROR) /\
  (Parse true no_double 0 str#"[1, [true" [] = Parse false no_double 0 str#"[1, [true" [] \/ Parse true no_double 0 str#"[1, [true" [] = Fault AssertFail).
Proof.
  destruct (json_parse_safe no_double 0 str#"[1, [true" []) as (root & p & E & _ & _ & Hd).
  - apply bytes_of_string_bytes with (s := "[1, [true"%string).
  - reflexivity.
  - reflexivity.
  - split; [|rewrite E; exact Hd]. exists root, p. split; [exact E|]. assert (Parse false no_double 0 str#"[1, [true" [] = Ret (None, Parser 9 9 0 1 0 JSON_SYNTAX_ERROR 1 10)) as E2 by (vm_compute; reflexivity).
    rewrite E2 in E. injection E as <- <-. split; reflexivity.
Defined.

(** What the checks of a debug build and the options without a copy come to. *)
Example negative_escape_aborts : Parse true no_double 0 (str#"[" ++ [34] ++ str#"\x-1" ++ [34] ++ str#"]") [] = Fault AssertFail.
Proof. vm_compute. reflexivity. Qed.
Example detachable_reads_past : Parse false no_double JSON_DETACHABLE_CHILDREN str#"1" [] = Fault OutOfBounds.
Proof. vm_compute. reflexivity. Qed.
Example lone_slash_skipped : exists p, Parse false no_double 0 str#"[1/]" [] = Ret (Some (VList [VInteger 1]), p).
Proof. eexists. vm_compute. reflexivity. Qed.
Example escaped_nul_dropped : exists p, Parse false no_double 0 (str#"[" ++ [34] ++ str#"\u0000a" ++ [34] ++ str#"]") [] = Ret (Some (VList [VString str#"a"]), p).
Proof. eexists. vm_compute. reflexivity. Qed.
