(* ===== verification/JsonGrammar.v ===== *)
(** The JSON texts and what they denote to the parser: a grammar after RFC 4627, with what
    the parser adds (control characters and [\v] in strings), without what it refuses (the
    code points that are not characters, and the numbers that have no finite double), and
    with the one thing it changes: the escape of the NUL denotes nothing.  Comments are left
    out. *)
From Stdlib Require Import ZArith Lia Bool Ascii String SpecFloat.
From stdpp Require Import base list numbers strings.
From S2P Require Import Prelude Numbers Utf8 Utf8Proofs Values ValuesProofs JsonParser JsonSafety.

Open Scope Z_scope.

(** * The grammar *)
Definition quote : Z := 34.
Definition backslash : Z := 92.
Definition is_space (c : Z) : bool := (c =? 32) || (c =? 9) || (c =? 10) || (c =? 13).
Definition spaces (w : bytes) : Prop := forallb is_space w = true.
Definition is_hex4 (h : bytes) (u : Z) : Prop := length h = 4%nat /\ forallb (is_digit 16) h = true /\ HexStringToInt h 0 = (true, u).
Definition character (c : Z) : Prop := valid c /\ IsValidCharacter c = true.
(** What an escape of four digits denotes: its character, but the NUL is dropped. *)
Definition unit_text (u : Z) : bytes := if u =? 0 then [] else utf8 u.

(** Between the quotes of a string, and the string. *)
Inductive string_text : bytes -> bytes -> Prop :=
  | text_end : string_text [] []
  | text_plain c t s : character c -> c <> quote -> c <> backslash -> string_text t s -> string_text (utf8 c ++ t) (utf8 c ++ s)
  | text_escape c e t s : escape_of c = Some e -> string_text t s -> string_text (backslash :: c :: t) (e :: s)
  | text_unit h u t s : is_hex4 h u -> character u -> string_text t s -> string_text ([backslash; ch#"u"] ++ h ++ t) (unit_text u ++ s)
  | text_pair h l u v t s : is_hex4 h u -> is_hex4 l v -> 0xd800 <= u <= 0xdbff -> 0xdc00 <= v <= 0xdfff ->
      character (0x10000 + (u - 0xd800) * 1024 + (v - 0xdc00)) -> string_text t s ->
      string_text ([backslash; ch#"u"] ++ h ++ [backslash; ch#"u"] ++ l ++ t) (utf8 (0x10000 + (u - 0xd800) * 1024 + (v - 0xdc00)) ++ s).

(** Numbers: the sign, the digits before the point, those behind it and the exponent. *)
Record number_form := Number { minus : bool; whole : bytes; fraction : option bytes; exponent : option (Z * bytes * bytes) }.
Definition digits (s : bytes) : Prop := s <> [] /\ forallb IsAsciiDigit s = true.
Definition no_leading_zero (s : bytes) : Prop := match s with c :: _ :: _ => c <> ch#"0" | _ => True end.
Definition exponent_ok (x : Z * bytes * bytes) : Prop :=
  let '(e, s, ds) := x in (e = ch#"e" \/ e = ch#"E") /\ (s = [] \/ s = [ch#"+"] \/ s = [ch#"-"]) /\ digits ds.
Definition fraction_text (f : option bytes) : bytes := match f with Some f => ch#"." :: f | None => [] end.
Definition exponent_text (x : option (Z * bytes * bytes)) : bytes := match x with Some (e, s, ds) => e :: s ++ ds | None => [] end.
Definition number_text (n : number_form) : bytes := (if minus n then [ch#"-"] else []) ++ whole n ++ fraction_text (fraction n) ++ exponent_text (exponent n).
Definition number_ok (n : number_form) : Prop :=
  digits (whole n) /\ no_leading_zero (whole n) /\ match fraction n with Some f => digits f | None => True end /\ match exponent n with Some x => exponent_ok x | None => True end.
(** What a number denotes, by the conversions of the library. *)
Definition number_value (strtod : bytes -> double * Z * bool) (t : bytes) : option Value :=
  match StringToInt t 0 with
  | (true, n) => Some (VInteger n)
  | _ => match StringToDouble strtod t with (true, d) => if IsFinite d then Some (VDouble d) else None | _ => None end
  end.

Section Grammar.
Context (strtod : bytes -> double * Z * bool).
(** [denotes n v t]: the text [t], with no more than [n] structures inside one another,
    is the value [v]. The entries of an object are set one after the other. *)
Definition set_entries (es : list (bytes * Value)) (m : dict) : dict := fold_left (fun m e => map_assign e.1 e.2 m) es m.
Inductive denotes : nat -> Value -> bytes -> Prop :=
  | denotes_null n : denotes n VNull str#"null"
  | denotes_true n : denotes n (VBoolean true) str#"true"
  | denotes_false n : denotes n (VBoolean false) str#"false"
  | denotes_number n f v : number_ok f -> number_value strtod (number_text f) = Some v -> denotes n v (number_text f)
  | denotes_string n t s : string_text t s -> denotes n (VString s) (quote :: t ++ [quote])
  | denotes_empty_list n w : spaces w -> denotes (S n) (VList []) (ch#"[" :: w ++ [ch#"]"])
  | denotes_list n w l t : spaces w -> items n l t -> denotes (S n) (VList l) (ch#"[" :: w ++ t ++ [ch#"]"])
  | denotes_empty_dictionary n w : spaces w -> denotes (S n) (VDictionary []) (ch#"{" :: w ++ [ch#"}"])
  | denotes_dictionary n w es t : spaces w -> entries n es t -> denotes (S n) (VDictionary (set_entries es [])) (ch#"{" :: w ++ t ++ [ch#"}"])
with items : nat -> list Value -> bytes -> Prop :=
  | items_one n v t w : denotes n v t -> spaces w -> items n [v] (t ++ w)
  | items_more n v t w w' l ts : denotes n v t -> spaces w -> spaces w' -> items n l ts -> items n (v :: l) (t ++ w ++ ch#"," :: w' ++ ts)
with entries : nat -> list (bytes * Value) -> bytes -> Prop :=
  | entries_one n k v e w : entry n k v e -> spaces w -> entries n [(k, v)] (e ++ w)
  | entries_more n k v e w w' es ts : entry n k v e -> spaces w -> spaces w' -> entries n es ts -> entries n ((k, v) :: es) (e ++ w ++ ch#"," :: w' ++ ts)
with entry : nat -> bytes -> Value -> bytes -> Prop :=
  | entry_intro n k v kt w w' t : string_text kt k -> spaces w -> spaces w' -> denotes n v t -> entry n k v (quote :: kt ++ quote :: w ++ ch#":" :: w' ++ t).
End Grammar.
Scheme denotes_mind := Induction for denotes Sort Prop
  with items_mind := Induction for items Sort Prop
  with entries_mind := Induction for entries Sort Prop
  with entry_mind := Induction for entry Sort Prop.
Combined Scheme grammar_ind from denotes_mind, items_mind, entries_mind, entry_mind.

