(* ===== verification/JsonComplete.v ===== *)
(** The parser takes the texts of the grammar: [Parse] of a text gives the value the
    text denotes. The proof goes through the parser's functions in the order of the
    code: spaces and tokens, strings, numbers, structures; each is shown to end at the
    last character of its part of the text. *)
From Stdlib Require Import ZArith Lia Bool Ascii String SpecFloat.
From stdpp Require Import base list numbers strings.
From S2P Require Import Prelude Numbers Utf8 Utf8Proofs Values ValuesProofs JsonParser JsonSafety JsonGrammar.

Open Scope Z_scope.

(** * The parser on a text *)
Section Completeness.
Context (dcheck_on : bool) (strtod : bytes -> double * Z * bool) (options_ : Z) (input : bytes).
Context (Hlen : zlen input < 2 ^ 31).
Abbreviation mem := (input ++ [0]).
Abbreviation E := (zlen input).

(** The rest of the input at an offset. *)
Definition rest_at (k : Z) (s : bytes) : Prop := exists pre, input = pre ++ s /\ zlen pre = k.
Lemma rest_bounds k s : rest_at k s -> 0 <= k /\ k + zlen s = E.
Proof. intros (pre & -> & <-). rewrite zlen_app. pose proof (zlen_nonneg pre). lia. Qed.
Lemma tail_app k t s : rest_at k (t ++ s) -> rest_at (k + zlen t) s.
Proof. intros (pre & -> & <-). exists (pre ++ t). by rewrite <- app_assoc, zlen_app. Qed.
Lemma tail_cons k c s : rest_at k (c :: s) -> rest_at (k + 1) s.
Proof. apply (tail_app k [c]). Qed.
Lemma rest_char k c s : rest_at k (c :: s) -> char_at mem k = Ret c.
Proof. intros (pre & -> & <-). rewrite <- app_assoc. apply char_at_head. Qed.
Lemma rest_nil k : rest_at k [] -> char_at mem k = Ret 0.
Proof. intros (pre & -> & <-). rewrite app_nil_r. apply (char_at_head pre []). Qed.
Lemma rest_lt k c s : rest_at k (c :: s) -> k < E.
Proof. intros H%rest_bounds. rewrite zlen_cons in H. pose proof (zlen_nonneg s). lia. Qed.
Lemma tail_read k t s : rest_at k (t ++ s) -> mem_read mem k (zlen t) = Ret t.
Proof.
  intros H. pose proof (rest_bounds _ _ H) as [? Hb]. destruct H as (pre & -> & <-). rewrite !zlen_app in Hb. unfold mem_read, guard_or.
  rewrite (proj2 (in_block_true _ _ _)) by (rewrite !zlen_app; unfold zlen in *; cbn [length]; lia). unfold zslice. rewrite <- !app_assoc.
  unfold zlen. rewrite !Nat2Z.id, drop_app_length, take_app_length. done.
Qed.

(** The state of the parser, but for what it knows of lines. *)
Record at_ (p : parser) (k d : Z) (e : JsonParseError) : Prop := { at_pos : pos_ p = k; at_index : index_ p = k; at_depth : stack_depth_ p = d; at_error : error_code_ p = e }.
Lemma at_next p k d e : at_ p k d e -> at_ (set_pos (pos_ p + 1) (index_ p + 1) p) (k + 1) d e.
Proof. intros [<- ? <- <-]. split; cbn; congruence. Qed.
Lemma can p k d e c s : at_ p k d e -> rest_at k (c :: s) -> CanConsume E 1 p = true.
Proof. intros [<- _ _ _] H%rest_lt. unfold CanConsume. lia. Qed.
Lemma cannot p k d e : at_ p k d e -> rest_at k [] -> CanConsume E 1 p = false.
Proof. intros [<- _ _ _] H%rest_bounds. change (zlen (@nil Z)) with 0 in H. unfold CanConsume. lia. Qed.
Lemma step_ok p k d e c s : at_ p k d e -> rest_at k (c :: s) -> NextChar dcheck_on E p = Ret (set_pos (pos_ p + 1) (index_ p + 1) p).
Proof. intros Hp Hs. unfold NextChar, NextNChars. by rewrite DCHECK_true by by eapply can. Qed.
Lemma peek_ok p k d e c s : at_ p k d e -> rest_at k (c :: s) -> peek mem p = Ret c.
Proof. intros [<- _ _ _]. apply rest_char. Qed.

(** ** Spaces and tokens *)
Lemma pos_lt p k d e c s : at_ p k d e -> rest_at k (c :: s) -> (pos_ p <? E) = true.
Proof. intros [-> _ _ _] H%rest_lt. by apply Z.ltb_lt. Qed.
Lemma count_line_ok c p k d e s : at_ p k d e -> rest_at k s -> exists q, count_line mem c p = Ret q /\ at_ q k d e.
Proof.
  intros Hp Hr. unfold count_line. enough (exists b, (if (c =? 10) && (0 <? pos_ p) then b ← char_at mem (pos_ p - 1); Ret (b =? 13) else Ret false) = Ret b) as [b ->]
    by (obind; eexists; split; [done|]; destruct Hp; by split).
  destruct ((c =? 10) && (0 <? pos_ p)) eqn:El; [|by eexists]. apply andb_true_iff in El as [_ El]. rewrite (at_pos _ _ _ _ Hp) in *. destruct Hr as (pre & Ei & Hk).
  destruct (decide (pre = [])) as [->|Hne]; [change (zlen (@nil Z)) with 0 in Hk; lia|]. destruct (exists_last Hne) as (pre' & y & ->). rewrite zlen_app in Hk. change (zlen [y]) with 1 in Hk.
  rewrite Ei, <- !app_assoc. replace (k - 1) with (zlen pre') by lia. cbn [app]. rewrite char_at_head. by eexists.
Qed.
Lemma eat_space fuel p k d e c s : at_ p k d e -> rest_at k (c :: s) -> is_space c = true ->
  exists q, EatWhitespace_loop dcheck_on mem E (S fuel) p = EatWhitespace_loop dcheck_on mem E fuel q /\ at_ q (k + 1) d e.
Proof.
  intros Hp Hr Hc. cbn [EatWhitespace_loop]. rewrite (pos_lt _ _ _ _ _ _ Hp Hr), (peek_ok _ _ _ _ _ _ Hp Hr). obind.
  destruct ((c =? 13) || (c =? 10)) eqn:En.
  - destruct (count_line_ok c p k d e _ Hp Hr) as (q & -> & Hq). obind. rewrite (step_ok _ _ _ _ _ _ Hq Hr). obind. eexists. split; [done|]. by apply at_next.
  - unfold is_space in Hc. assert (((c =? 32) || (c =? 9)) = true) as -> by (by destruct (c =? 32), (c =? 9), (c =? 10), (c =? 13)).
    rewrite (step_ok _ _ _ _ _ _ Hp Hr). obind. eexists. split; [done|]. by apply at_next.
Qed.
Lemma EatWhitespace_spaces w : forall fuel p k d e c s, at_ p k d e -> rest_at k (w ++ c :: s) -> spaces w -> is_space c = false -> c <> ch#"/" -> (length w < fuel)%nat ->
  exists q, EatWhitespace_loop dcheck_on mem E fuel p = Ret q /\ at_ q (k + zlen w) d e.
Proof.
  induction w as [|x w IH]; intros fuel p k d e c s Hp Hr Hw Hc Hslash Hf; (destruct fuel as [|fuel]; [cbn in Hf; lia|]).
  - cbn [EatWhitespace_loop app] in *. rewrite (pos_lt _ _ _ _ _ _ Hp Hr), (peek_ok _ _ _ _ _ _ Hp Hr). obind. exists p. unfold is_space in Hc.
    destruct (Z.eqb_spec c 32), (Z.eqb_spec c 9), (Z.eqb_spec c 10), (Z.eqb_spec c 13); cbn in Hc; try done. cbn [orb].
    destruct (Z.eqb_spec c ch#"/"); [done|]. split; [done|]. by rewrite Z.add_0_r.
  - unfold spaces in Hw. cbn [forallb] in Hw. apply andb_true_iff in Hw as [Hx Hw]. destruct (eat_space fuel p k d e x _ Hp Hr Hx) as (q & -> & Hq).
    rewrite zlen_cons, Z.add_assoc. eapply IH; [exact Hq|exact (tail_cons _ _ _ Hr)|done..|cbn in Hf; lia].
Qed.
Lemma EatWhitespace_end w : forall fuel p k d e, at_ p k d e -> rest_at k w -> spaces w -> (length w <= fuel)%nat ->
  exists q, EatWhitespace_loop dcheck_on mem E fuel p = Ret q /\ at_ q E d e.
Proof.
  induction w as [|x w IH]; intros fuel p k d e Hp Hr Hw Hf.
  - exists p. pose proof (rest_bounds _ _ Hr) as [_ Hk]. change (zlen (@nil Z)) with 0 in Hk. rewrite Z.add_0_r in Hk. subst k.
    split; [|done]. destruct fuel; cbn [EatWhitespace_loop]; destruct (Z.ltb_spec (pos_ p) E); rewrite ?(at_pos _ _ _ _ Hp) in *; done || lia.
  - destruct fuel as [|fuel]; [cbn in Hf; lia|]. unfold spaces in Hw. cbn [forallb] in Hw. apply andb_true_iff in Hw as [Hx Hw].
    destruct (eat_space fuel p k d e x _ Hp Hr Hx) as (q & -> & Hq). eapply IH; [exact Hq|exact (tail_cons _ _ _ Hr)|done|cbn in Hf; lia].
Qed.
Lemma rest_fuel k w s : rest_at k (w ++ s) -> (length w + length s <= loop_fuel E)%nat.
Proof. intros H%rest_bounds. rewrite zlen_app in H. unfold loop_fuel, zlen in *. lia. Qed.
(** The next token. *)
Lemma token_ok w p k d e c s : at_ p k d e -> rest_at k (w ++ c :: s) -> spaces w -> is_space c = false -> c <> ch#"/" ->
  exists q, GetNextToken dcheck_on mem E p = Ret (token_of c, q) /\ at_ q (k + zlen w) d e.
Proof.
  intros Hp Hr Hw Hc Hs. unfold GetNextToken, EatWhitespaceAndComments. pose proof (rest_fuel _ _ _ Hr) as Hf. cbn in Hf.
  destruct (EatWhitespace_spaces w (loop_fuel E) p k d e c s Hp Hr Hw Hc Hs ltac:(lia)) as (q & -> & Hq). obind. apply tail_app in Hr.
  rewrite (can _ _ _ _ _ _ Hq Hr), (peek_ok _ _ _ _ _ _ Hq Hr). obind. by exists q.
Qed.
Lemma token_end w p k d e : at_ p k d e -> rest_at k w -> spaces w -> exists q, GetNextToken dcheck_on mem E p = Ret (T_END_OF_INPUT, q) /\ at_ q E d e.
Proof.
  intros Hp Hr Hw. unfold GetNextToken, EatWhitespaceAndComments. assert (rest_at k (w ++ [])) as Hr' by (by rewrite app_nil_r). pose proof (rest_fuel _ _ _ Hr') as Hf. cbn in Hf.
  destruct (EatWhitespace_end w (loop_fuel E) p k d e Hp Hr Hw ltac:(lia)) as (q & -> & Hq). obind. apply tail_app in Hr'.
  pose proof (rest_bounds _ _ Hr') as [_ Hk]. change (zlen (@nil Z)) with 0 in Hk. replace (k + zlen w) with E in Hr' by lia. rewrite (cannot _ _ _ _ Hq Hr'). by exists q.
Qed.

(** ** Strings *)
(** Inside a string: [index_] is at the next character, [pos_] not behind it. *)
Record in_ (p : parser) (k d : Z) (e : JsonParseError) : Prop := { in_pos : 0 <= pos_ p <= k; in_index : index_ p = k; in_depth : stack_depth_ p = d; in_error : error_code_ p = e }.
(** The builder holds [s] and the text goes on with [u]. *)
Definition holds (b : builder) (s : bytes) (k : Z) (u : bytes) : Prop :=
  match b with Piece pos n => rest_at pos (s ++ u) /\ n = zlen s /\ pos + n = k | Converted s' => s' = s end.
Lemma holds_string b s k u : holds b s k u -> BuilderString mem b = Ret s.
Proof. destruct b as [pos n|s']; cbn; [|by intros ->]. intros (H & -> & _). by eapply tail_read. Qed.
Lemma holds_convert b s k u : holds b s k u -> BuilderConvert mem b = Ret (Converted s).
Proof. destruct b as [pos n|s']; cbn; [|by intros ->]. intros (H & -> & _). by rewrite (tail_read _ _ _ H). Qed.
Lemma holds_append b s k c u : 0 <= c < 128 -> holds b s k (c :: u) -> exists b', BuilderAppend dcheck_on c b = Ret b' /\ holds b' (s ++ [c]) (k + 1) u.
Proof.
  intros Hc Hb. unfold BuilderAppend. rewrite DCHECK_true by (rewrite swrap_small by powlia; lia). eexists. split; [done|].
  destruct b as [pos n|s']; cbn in *.
  - destruct Hb as (Hr & -> & <-). rewrite <- app_assoc, zlen_app. change (zlen [c]) with 1. split; [done|lia].
  - subst. by rewrite uwrap_small by powlia.
Qed.
Lemma next_char_ok k c u : valid c -> rest_at k (utf8 c ++ u) -> CBU8_NEXT mem k (s32 E) = Ret (c, k + zlen (utf8 c)).
Proof.
  intros Hc Hr. pose proof (rest_bounds _ _ Hr) as [? Hb]. rewrite zlen_app in Hb. pose proof (zlen_nonneg u). rewrite swrap_small by (unfold zlen in *; cbn in *; lia).
  destruct Hr as (pre & -> & <-). rewrite <- !app_assoc. apply next_encode; [done|lia].
Qed.
Lemma string_step fuel b p k d e c u : in_ p k d e -> character c -> rest_at k (utf8 c ++ u) ->
  let q := set_pos k (k + zlen (utf8 c)) p in
  ConsumeString_loop dcheck_on mem E (S fuel) b p =
    if c =? ch#"\" then
      '(string, p) ← ConsumeEscape dcheck_on mem E b q;
      match string with Some string => ConsumeString_loop dcheck_on mem E fuel string p | None => Ret (None, p) end
    else if c =? 34 then Ret (Some b, set_pos k (k + zlen (utf8 c) - 1) p)
    else string ← (if c <? kExtendedASCIIStart then BuilderAppend dcheck_on c b else DecodeUTF8 dcheck_on mem c b);
         ConsumeString_loop dcheck_on mem E fuel string q.
Proof.
  intros [Hpos Hi _ _] [Hv Hc] Hr. destruct (enc_cons (enc := utf8) c Hv) as (x & r & Ex). pose proof Hr as Hlt. rewrite Ex in Hlt. apply rest_lt in Hlt.
  cbn [ConsumeString_loop]. unfold CanConsume. destruct (Z.leb_spec (pos_ p + 1) E); [|lia]. cbn zeta. cbn [index_ pos_ set_pos]. rewrite Hi, (next_char_ok k c u Hv Hr). obind.
  rewrite valid_u32, Hc by done. assert (0 <= c) by (unfold valid in Hv; lia). destruct (Z.ltb_spec c 0); [lia|]. cbn [orb negb]. done.
Qed.
Lemma mem_read_at k n t u : rest_at k (t ++ u) -> zlen t = n -> mem_read mem k n = Ret t.
Proof. intros Hr <-. by eapply tail_read. Qed.
Lemma can_n p n k u : pos_ p + n <= k + zlen u -> rest_at k u -> CanConsume E n p = true.
Proof. intros H [_ Hb]%rest_bounds. unfold CanConsume. lia. Qed.
Lemma next_n_ok {B} n p (K : parser -> outcome B) : CanConsume E n p = true -> (p ← NextNChars dcheck_on E n p; K p) = K (set_pos (pos_ p + n) (index_ p + n) p).
Proof. intros H. unfold NextNChars. by rewrite DCHECK_true. Qed.
Lemma peek_at p k c u : pos_ p = k -> rest_at k (c :: u) -> peek mem p = Ret c.
Proof. intros <-. apply rest_char. Qed.

Lemma c_string_utf8 c : valid c -> c_string (CBU8_APPEND_UNSAFE c) = unit_text c.
Proof.
  intros Hc. unfold unit_text. destruct (Z.eqb_spec c 0) as [->|H0]; [done|]. rewrite append_utf8 by (unfold valid in Hc; lia). enough (Forall (fun b => b <> 0) (utf8 c)) as H by (induction H as [|b l Hb _ IH]; [done|]; cbn; destruct (Z.eqb_spec b 0); [done|]; by rewrite IH).
  unfold valid in Hc. unfold utf8. pose proof (Z.mod_pos_bound c 64 eq_refl). pose proof (Z.mod_pos_bound (c / 64) 64 eq_refl). pose proof (Z.mod_pos_bound (c / 4096) 64 eq_refl).
  assert (0 <= c / 64 /\ 0 <= c / 4096 /\ 0 <= c / 262144) as (? & ? & ?) by (repeat split; apply Z.div_pos; lia).
  destruct (c <=? 0x7f); [|destruct (c <=? 0x7ff); [|destruct (c <=? 0xffff)]]; repeat constructor; lia.
Qed.
Lemma DecodeUnit_ok p k h u t : pos_ p = k -> rest_at k (h ++ t) -> is_hex4 h u ->
  DecodeUnit dcheck_on mem E p = Ret (Some u, set_pos (k + 3) (index_ p + 3) p).
Proof.
  intros Hp Hr (Hl & _ & Hh). assert (zlen h = 4) as Hz by (unfold zlen; by rewrite Hl). unfold DecodeUnit. rewrite Hp, (mem_read_at k 4 h t Hr Hz). obind. rewrite Hh.
  rewrite next_n_ok; [by rewrite Hp|]. eapply can_n; [|exact Hr]. rewrite zlen_app. pose proof (zlen_nonneg t). lia.
Qed.
Lemma hex4_len h u t : is_hex4 h u -> zlen (h ++ t) = 4 + zlen t.
Proof. intros (Hl & _). rewrite zlen_app. unfold zlen. by rewrite Hl. Qed.
Lemma not_surrogate c : valid c -> CBU_IS_SURROGATE c = false.
Proof. intros Hc. unfold valid in Hc. rewrite surrogate_range by lia. lia. Qed.
Lemma DecodeUTF16_unit p k h u t : pos_ p = k -> rest_at k (h ++ t) -> is_hex4 h u -> valid u ->
  DecodeUTF16 dcheck_on mem E p = Ret (Some (unit_text u), set_pos (k + 3) (index_ p + 3) p).
Proof.
  intros Hp Hr Hh Hu. unfold DecodeUTF16. rewrite (can_n p 4 k (h ++ t)); [|rewrite (hex4_len _ _ _ Hh); pose proof (zlen_nonneg t); lia|done]. cbn [negb].
  rewrite (DecodeUnit_ok p k h u t Hp Hr Hh). obind. rewrite not_surrogate by done. by rewrite c_string_utf8.
Qed.
Lemma DecodeUTF16_pair p k h l u v t : pos_ p = k -> rest_at k (h ++ [backslash; ch#"u"] ++ l ++ t) -> is_hex4 h u -> is_hex4 l v -> 0xd800 <= u <= 0xdbff -> 0xdc00 <= v <= 0xdfff ->
  DecodeUTF16 dcheck_on mem E p = Ret (Some (utf8 (0x10000 + (u - 0xd800) * 1024 + (v - 0xdc00))), set_pos (k + 9) (index_ p + 9) p).
Proof.
  intros Hp Hr Hh Hl Hu Hv. pose proof (zlen_nonneg t) as Ht. unfold DecodeUTF16.
  assert (zlen h = 4 /\ zlen l = 4) as [Hzh Hzl] by (destruct Hh as (Eh & _), Hl as (El & _); unfold zlen; by rewrite Eh, El).
  rewrite (can_n p 4 k (h ++ [backslash; ch#"u"] ++ l ++ t)); [|rewrite zlen_app; cbn [app]; rewrite !zlen_cons; pose proof (zlen_nonneg (l ++ t)); lia|exact Hr]. cbn [negb].
  rewrite (DecodeUnit_ok p k h u _ Hp Hr Hh). obind. rewrite surrogate_range by lia. rewrite (proj2 (andb_true_iff _ _)) by lia. rewrite lead_range by (unfold is_unit; lia).
  rewrite (proj2 (Z.leb_le u 0xdbff)) by lia. cbn [negb]. pose proof Hr as Hr1. apply tail_app in Hr1. rewrite Hzh in Hr1. cbn [app] in Hr1. pose proof (tail_cons _ _ _ Hr1) as Hr2. pose proof (tail_cons _ _ _ Hr2) as Hr3.
  set (q := set_pos (k + 3) _ p). assert (pos_ q = k + 3) as Hq by done.
  rewrite (can_n q 6 (k + 4) (backslash :: ch#"u" :: l ++ t)); [|rewrite Hq, !zlen_cons, zlen_app; lia|exact Hr1]. cbn [negb]. unfold NextChar.
  rewrite next_n_ok by (eapply can_n; [|exact Hr1]; rewrite Hq, !zlen_cons, zlen_app; lia). erewrite (peek_at _ (k + 4)); [|cbn; lia|exact Hr1]. obind. cbn [negb Z.eqb Pos.eqb].
  rewrite next_n_ok by (eapply can_n; [|exact Hr2]; cbn [pos_ set_pos]; rewrite Hq, !zlen_cons, zlen_app; lia). replace (k + 4 + 1) with (k + 5) in * by lia. erewrite (peek_at _ (k + 5)); [|cbn; lia|exact Hr2]. obind. cbn [negb Z.eqb Pos.eqb].
  replace (k + 5 + 1) with (k + 6) in Hr3 by lia.
  rewrite next_n_ok by (eapply can_n; [|exact Hr3]; cbn [pos_ set_pos]; rewrite Hq, zlen_app; lia).
  erewrite (DecodeUnit_ok _ (k + 6) l v t); [|cbn; lia|exact Hr3|exact Hl]. obind. rewrite trail_range by (unfold is_unit; lia). rewrite (proj2 (andb_true_iff _ _)) by lia. cbn [negb].
  unfold CBU16_GET_SUPPLEMENTARY, CBU16_SURROGATE_OFFSET. rewrite !Z.shiftl_mul_pow2 by lia. change (2 ^ 10) with 1024.
  replace (u * 1024 + v - (0xd800 * 1024 + 0xdc00 - 0x10000)) with (0x10000 + (u - 0xd800) * 1024 + (v - 0xdc00)) by lia.
  assert (valid (0x10000 + (u - 0xd800) * 1024 + (v - 0xdc00))) by (unfold valid; lia). rewrite valid_u32, c_string_utf8 by done. unfold unit_text at 1. rewrite (proj2 (Z.eqb_neq _ 0)) by lia.
  f_equal. f_equal. cbn. unfold set_pos. cbn. f_equal; lia.
Qed.
Lemma escape_of_other c e : escape_of c = Some e -> (c =? ch#"x") = false /\ (c =? ch#"u") = false /\ 0 <= e < 128.
Proof.
  unfold escape_of. intros H. split; [|split].
  - destruct (Z.eqb_spec c ch#"x") as [->|]; [discriminate H|done].
  - destruct (Z.eqb_spec c ch#"u") as [->|]; [discriminate H|done].
  - repeat (destruct (_ =? _); [injection H as <-; lia|]). discriminate H.
Qed.
(** An escape sequence read: the parser is at its last character. *)
Lemma ConsumeEscape_ok b p k d e s t u s1 : in_ p (k + 1) d e -> pos_ p = k -> rest_at k (backslash :: t ++ u) -> holds b s k (backslash :: t ++ u) ->
  (exists c x, t = [c] /\ escape_of c = Some x /\ s1 = [x]) \/
  (exists h x, t = ch#"u" :: h /\ is_hex4 h x /\ character x /\ s1 = unit_text x) \/
  (exists h l x y, t = ch#"u" :: h ++ [backslash; ch#"u"] ++ l /\ is_hex4 h x /\ is_hex4 l y /\ 0xd800 <= x <= 0xdbff /\ 0xdc00 <= y <= 0xdfff /\ s1 = utf8 (0x10000 + (x - 0xd800) * 1024 + (y - 0xdc00))) ->
  exists q, ConsumeEscape dcheck_on mem E b p = Ret (Some (Converted (s ++ s1)), q) /\ in_ q (k + 1 + zlen t) d e.
Proof.
  intros [_ Hi Hd He] Hp Hr Hb Ht. unfold ConsumeEscape. rewrite (holds_convert _ _ _ _ Hb). obind. pose proof (rest_bounds _ _ Hr) as [Hk _]. pose proof (tail_cons _ _ _ Hr) as Hr1. pose proof (zlen_nonneg u) as Hzu.
  assert (exists c t', t = c :: t') as (c & t' & ->) by (destruct Ht as [(? & ? & -> & _)|[(? & ? & -> & _)|(? & ? & ? & ? & -> & _)]]; by eexists _, _).
  cbn [app] in Hr1. pose proof (zlen_nonneg t') as Hzt. rewrite (can_n p 1 (k + 1) (c :: t' ++ u)); [|rewrite Hp, zlen_cons, zlen_app; lia|done]. cbn [negb]. unfold NextChar.
  rewrite next_n_ok by (eapply can_n; [|exact Hr1]; rewrite Hp, zlen_cons, zlen_app; lia). rewrite Hp, Hi. set (q := set_pos _ _ p). rewrite (peek_at q (k + 1) _ _ eq_refl Hr1). obind.
  pose proof (tail_cons _ _ _ Hr1) as Hr2. replace (k + 1 + 1) with (k + 2) in * by lia.
  destruct Ht as [(c' & x & [= -> ->] & Hx & ->)|[(h & x & [= -> ->] & Hh & [Hvx _] & ->)|(h & l & x & y & [= -> ->] & Hh & Hl & Hx & Hy & ->)]].
  - destruct (escape_of_other _ _ Hx) as (-> & -> & Hx'). rewrite Hx. unfold BuilderAppend. rewrite DCHECK_true by (rewrite swrap_small by powlia; lia). obind.
    eexists. rewrite uwrap_small by powlia. split; [done|]. change (zlen [c']) with 1. split; cbn [pos_ index_ stack_depth_ error_code_ set_pos q]; done || lia.
  - cbn [Z.eqb Pos.eqb]. pose proof (hex4_len _ _ u Hh) as Hz. rewrite (can_n q 5 (k + 2) (h ++ u)); [|cbn [pos_ set_pos q]; lia|exact Hr2]. cbn [negb].
    rewrite next_n_ok by (eapply can_n; [|exact Hr2]; cbn [pos_ set_pos q]; lia). cbn [pos_ index_ set_pos q].
    rewrite (DecodeUTF16_unit _ (k + 2) h x u); [|cbn; lia|done..]. obind. eexists. split; [done|]. pose proof (hex4_len h x [] Hh) as Hz'. rewrite app_nil_r in Hz'. rewrite zlen_cons, Hz'. change (zlen (@nil Z)) with 0.
    split; cbn [pos_ index_ stack_depth_ error_code_ set_pos q]; done || lia.
  - cbn [Z.eqb Pos.eqb]. rewrite <- !app_assoc in Hr2. pose proof (zlen_nonneg (l ++ u)) as Hzl. rewrite (can_n q 5 (k + 2) (h ++ [backslash; ch#"u"] ++ l ++ u)); [|rewrite (hex4_len _ _ _ Hh); cbn [pos_ set_pos q app]; rewrite !zlen_cons; lia|exact Hr2]. cbn [negb].
    rewrite next_n_ok by (eapply can_n; [|exact Hr2]; rewrite (hex4_len _ _ _ Hh); cbn [pos_ set_pos q app]; rewrite !zlen_cons; lia). cbn [pos_ index_ set_pos q].
    rewrite (DecodeUTF16_pair _ (k + 2) h l x y u); [|cbn; lia|done..]. obind. eexists. split; [done|]. rewrite zlen_cons, (hex4_len _ _ _ Hh). cbn [app]. rewrite !zlen_cons. pose proof (hex4_len l y [] Hl) as Hz'. rewrite app_nil_r in Hz'. rewrite Hz'.
    change (zlen (@nil Z)) with 0. split; cbn [pos_ index_ stack_depth_ error_code_ set_pos q]; done || lia.
Qed.
Lemma utf8_quote : utf8 quote = [quote] /\ utf8 backslash = [backslash].
Proof. done. Qed.
Lemma character_ascii c : 0 <= c < 128 -> character c.
Proof. intros. split; [unfold valid; lia|]. unfold IsValidCharacter. destruct (Z.ltb_spec c 0xD800); [done|lia]. Qed.
Lemma escape_loop fuel b p k d e s t u s1 q : in_ p k d e -> rest_at k (backslash :: t ++ u) ->
  ConsumeEscape dcheck_on mem E b (set_pos k (k + 1) p) = Ret (Some (Converted (s ++ s1)), q) ->
  ConsumeString_loop dcheck_on mem E (S fuel) b p = ConsumeString_loop dcheck_on mem E fuel (Converted (s ++ s1)) q.
Proof.
  intros Hp Hr Hq. rewrite (string_step fuel b p k d e backslash (t ++ u)); [|done|by apply character_ascii|exact Hr]. change (backslash =? ch#"\") with true.
  change (zlen (utf8 backslash)) with 1. cbv iota. rewrite Hq. done.
Qed.
Lemma ConsumeString_loop_text t s : string_text t s -> forall fuel b p k d e s0 u, in_ p k d e -> rest_at k (t ++ quote :: u) -> holds b s0 k (t ++ quote :: u) -> (length t < fuel)%nat ->
  exists b' q, ConsumeString_loop dcheck_on mem E fuel b p = Ret (Some b', q) /\ at_ q (k + zlen t) d e /\ BuilderString mem b' = Ret (s0 ++ s).
Proof.
  assert (forall fuel b p k d e s0 s1 t1 t2 s2 u, in_ p k d e -> rest_at k ((backslash :: t1 ++ t2) ++ quote :: u) -> holds b s0 k ((backslash :: t1 ++ t2) ++ quote :: u) -> (length (backslash :: t1 ++ t2) < S fuel)%nat ->
    ((exists c x, t1 = [c] /\ escape_of c = Some x /\ s1 = [x]) \/
     (exists h x, t1 = ch#"u" :: h /\ is_hex4 h x /\ character x /\ s1 = unit_text x) \/
     (exists h l x y, t1 = ch#"u" :: h ++ [backslash; ch#"u"] ++ l /\ is_hex4 h x /\ is_hex4 l y /\ 0xd800 <= x <= 0xdbff /\ 0xdc00 <= y <= 0xdfff /\ s1 = utf8 (0x10000 + (x - 0xd800) * 1024 + (y - 0xdc00)))) ->
    (forall fuel b p k d e s0 u, in_ p k d e -> rest_at k (t2 ++ quote :: u) -> holds b s0 k (t2 ++ quote :: u) -> (length t2 < fuel)%nat ->
      exists b' q, ConsumeString_loop dcheck_on mem E fuel b p = Ret (Some b', q) /\ at_ q (k + zlen t2) d e /\ BuilderString mem b' = Ret (s0 ++ s2)) ->
    exists b' q, ConsumeString_loop dcheck_on mem E (S fuel) b p = Ret (Some b', q) /\ at_ q (k + zlen (backslash :: t1 ++ t2)) d e /\ BuilderString mem b' = Ret (s0 ++ s1 ++ s2)) as Hescape.
  { intros fuel b p k d e s0 s1 t1 t2 s2 u Hp Hr Hb Hf Hs1 IH. cbn [app] in Hr, Hb. rewrite <- app_assoc in Hr, Hb.
    pose proof (rest_bounds _ _ Hr) as [Hk _]. assert (in_ (set_pos k (k + 1) p) (k + 1) d e) as Hp1 by (destruct Hp; split; cbn; lia || done).
    destruct (ConsumeEscape_ok b (set_pos k (k + 1) p) k d e s0 t1 (t2 ++ quote :: u) s1 Hp1 eq_refl Hr Hb Hs1) as (q & Eq & Hq).
    rewrite (escape_loop fuel b p k d e s0 t1 (t2 ++ quote :: u) s1 q Hp Hr Eq). apply tail_cons, tail_app in Hr. cbn [length] in Hf. rewrite length_app in Hf.
    destruct (IH fuel (Converted (s0 ++ s1)) q (k + 1 + zlen t1) d e (s0 ++ s1) u Hq Hr eq_refl ltac:(lia)) as (b' & r & -> & Hr' & Eb). exists b', r. split; [done|]. rewrite <- app_assoc in Eb.
    split; [|done]. rewrite zlen_cons, zlen_app. by replace (k + (1 + (zlen t1 + zlen t2))) with (k + 1 + zlen t1 + zlen t2) by lia. }
  induction 1 as [|c t s Hc Hq Hbs _ IH|c x t s Hx _ IH|h x t s Hh Hx _ IH|h l x y t s Hh Hl Hx Hy Hc _ IH]; intros fuel b p k d e s0 u Hp Hr Hb Hf.
  - destruct fuel as [|fuel]; [cbn in Hf; lia|]. rewrite (string_step fuel b p k d e quote u); [|done|by apply character_ascii|exact Hr]. change (zlen (utf8 quote)) with 1. change (quote =? ch#"\") with false. change (quote =? 34) with true. cbv iota.
    eexists b, _. split; [done|]. pose proof (holds_string _ _ _ _ Hb). rewrite app_nil_r. split; [|done]. change (zlen (@nil Z)) with 0. destruct Hp. split; cbn; lia || done.
  - destruct fuel as [|fuel]; [lia|]. rewrite <- app_assoc in Hr, Hb. rewrite (string_step fuel b p k d e c (t ++ quote :: u)) by done. pose proof (rest_bounds _ _ Hr) as [Hk _].
    destruct (Z.eqb_spec c ch#"\"); [done|]. destruct (Z.eqb_spec c 34); [done|]. destruct (enc_cons (enc := utf8) c (proj1 Hc)) as (x & r & Ex).
    assert (in_ (set_pos k (k + zlen (utf8 c)) p) (k + zlen (utf8 c)) d e) as Hp1 by (destruct Hp; pose proof (zlen_nonneg (utf8 c)); split; cbn; lia || done).
    assert (length (utf8 c ++ t) = (length (utf8 c) + length t)%nat) as Hl by apply length_app. assert (0 < length (utf8 c))%nat as Hl1 by (rewrite Ex; cbn; lia).
    assert (exists b', (if c <? kExtendedASCIIStart then BuilderAppend dcheck_on c b else DecodeUTF8 dcheck_on mem c b) = Ret b' /\ holds b' (s0 ++ utf8 c) (k + zlen (utf8 c)) (t ++ quote :: u)) as (b' & -> & Hb').
    { unfold kExtendedASCIIStart. destruct Hc as [Hv _]. destruct (Z.ltb_spec c 0x80).
      - assert (0 <= c) by (unfold valid in Hv; lia). assert (utf8 c = [c]) as E1 by (unfold utf8; by destruct (Z.leb_spec c 0x7f); [|lia]). rewrite E1 in *. apply holds_append; [lia|exact Hb].
      - unfold DecodeUTF8, kExtendedASCIIStart. destruct (Z.ltb_spec c 0x80); [lia|]. rewrite (holds_convert _ _ _ _ Hb). obind. cbn [BuilderAppendString]. rewrite append_utf8 by (unfold valid in Hv; lia). by eexists. }
    obind. apply tail_app in Hr. destruct (IH fuel b' _ _ d e (s0 ++ utf8 c) u Hp1 Hr Hb' ltac:(lia)) as (b2 & q & -> & Hq' & Eb). exists b2, q. split; [done|]. rewrite <- app_assoc in Eb. rewrite zlen_app, Z.add_assoc. done.
  - destruct fuel as [|fuel]; [lia|]. apply (Hescape fuel b p k d e s0 [x] [c] t s u); try done. left. by exists c, x.
  - destruct fuel as [|fuel]; [lia|]. change ([backslash; ch#"u"] ++ h ++ t) with (backslash :: (ch#"u" :: h) ++ t) in *. apply (Hescape fuel b p k d e s0 (unit_text x) (ch#"u" :: h) t s u); try done. right. left. by exists h, x.
  - destruct fuel as [|fuel]; [lia|].
    assert ([backslash; ch#"u"] ++ h ++ [backslash; ch#"u"] ++ l ++ t = backslash :: (ch#"u" :: h ++ [backslash; ch#"u"] ++ l) ++ t) as E1 by (cbn; by rewrite <- app_assoc). rewrite E1 in *.
    apply (Hescape fuel b p k d e s0 _ (ch#"u" :: h ++ [backslash; ch#"u"] ++ l) t s u); try done. right. right. by exists h, l, x, y.
Qed.
Lemma ConsumeStringRaw_text t s p k d e u : string_text t s -> at_ p k d e -> rest_at k (quote :: t ++ quote :: u) ->
  exists b q, ConsumeStringRaw dcheck_on mem E p = Ret (Some b, q) /\ at_ q (k + 1 + zlen t) d e /\ BuilderString mem b = Ret s.
Proof.
  intros Ht Hp Hr. unfold ConsumeStringRaw. rewrite (peek_ok _ _ _ _ _ _ Hp Hr). obind. change (negb (quote =? 34)) with false. cbv iota. rewrite (step_ok _ _ _ _ _ _ Hp Hr). obind.
  apply tail_cons in Hr. pose proof (rest_bounds _ _ Hr) as [Hk Hb]. rewrite zlen_app, zlen_cons in Hb. pose proof (zlen_nonneg u).
  destruct Hp as [Hpos Hi Hd He]. apply (ConsumeString_loop_text t s Ht _ _ _ (k + 1) d e [] u); [split; cbn; lia || done|done| |unfold loop_fuel, zlen in *; lia]. cbn. rewrite Hpos. split; [done|]. split; [done|lia].
Qed.

(** ** Numbers *)
Definition cur (u : bytes) : Z := match u with c :: _ => c | [] => 0 end.
Lemma peek_cur p k d e u : at_ p k d e -> rest_at k u -> peek mem p = Ret (cur u).
Proof. intros [<- _ _ _] Hr. destruct u; [by apply rest_nil|by eapply rest_char]. Qed.
Lemma ReadInt_loop_digits ds : forall fuel p k d e len u, at_ p k d e -> rest_at k (ds ++ u) -> forallb IsAsciiDigit ds = true -> IsAsciiDigit (cur u) = false -> (length ds <= fuel)%nat ->
  exists q, ReadInt_loop dcheck_on mem E fuel (cur (ds ++ u)) len p = Ret (len + zlen ds, q) /\ at_ q (k + zlen ds) d e.
Proof.
  induction ds as [|c ds IH]; intros fuel p k d e len u Hp Hr Hd Hu Hf.
  - exists p. change (zlen (@nil Z)) with 0. rewrite !Z.add_0_r. split; [|done]. cbn [app]. destruct fuel; cbn [ReadInt_loop]; by rewrite Hu, andb_false_r.
  - destruct fuel as [|fuel]; [cbn in Hf; lia|]. cbn [forallb] in Hd. apply andb_true_iff in Hd as [Hc Hd]. cbn [ReadInt_loop app cur] in *.
    rewrite (can _ _ _ _ _ _ Hp Hr), Hc. cbn [andb]. rewrite (step_ok _ _ _ _ _ _ Hp Hr). obind. pose proof (tail_cons _ _ _ Hr) as Hr'. pose proof (at_next _ _ _ _ Hp) as Hp'.
    rewrite (peek_cur _ _ _ _ _ Hp' Hr'). obind. rewrite zlen_cons, !Z.add_assoc. apply IH; try done. cbn in Hf. lia.
Qed.
Lemma ReadInt_ok b ds p k d e u : at_ p k d e -> rest_at k (ds ++ u) -> digits ds -> IsAsciiDigit (cur u) = false -> b = true \/ no_leading_zero ds ->
  exists q, ReadInt dcheck_on mem E b p = Ret (true, q) /\ at_ q (k + zlen ds) d e.
Proof.
  intros Hp Hr [Hne Hd] Hu Hb. unfold ReadInt. rewrite (peek_cur _ _ _ _ _ Hp Hr). obind. pose proof (rest_fuel _ _ _ Hr).
  destruct (ReadInt_loop_digits ds (loop_fuel E) p k d e 0 u Hp Hr Hd Hu ltac:(lia)) as (q & -> & Hq). obind. exists q. split; [|done]. do 2 f_equal.
  destruct ds as [|c ds]; [done|]. rewrite zlen_cons. pose proof (zlen_nonneg ds). destruct (Z.eqb_spec (0 + (1 + zlen ds)) 0); [lia|]. cbn [negb andb].
  destruct Hb as [-> |Hb]; [done|]. destruct ds as [|c' ds]; [by rewrite orb_true_r|]. cbn in Hb. cbn [app cur]. destruct (Z.eqb_spec c ch#"0"); [done|]. by rewrite orb_true_r.
Qed.
Lemma digits_head ds u : digits ds -> IsAsciiDigit (cur (ds ++ u)) = true.
Proof. intros [Hne Hd]. destruct ds as [|c ds]; [done|]. cbn in *. by apply andb_true_iff in Hd as [? _]. Qed.
Lemma ReadFraction_ok f p k d e u : at_ p k d e -> rest_at k (fraction_text f ++ u) -> match f with Some f => digits f | None => True end -> IsAsciiDigit (cur u) = false -> cur u <> ch#"." ->
  exists q, ReadFraction dcheck_on mem E p = Ret (Some q, q) /\ at_ q (k + zlen (fraction_text f)) d e.
Proof.
  intros Hp Hr Hf Hu Hdot. unfold ReadFraction. rewrite (peek_cur _ _ _ _ _ Hp Hr). obind. destruct f as [f|]; cbn [fraction_text app cur] in *.
  - change (ch#"." =? ch#".") with true. cbv iota. rewrite (can _ _ _ _ _ _ Hp Hr). cbn [negb]. rewrite (step_ok _ _ _ _ _ _ Hp Hr). obind.
    destruct (ReadInt_ok true f _ (k + 1) d e u (at_next _ _ _ _ Hp) (tail_cons _ _ _ Hr) Hf Hu) as (q & -> & Hq); [by left|]. obind. exists q. rewrite zlen_cons, Z.add_assoc. by split.
  - destruct (Z.eqb_spec (cur u) ch#"."); [done|]. exists p. by rewrite Z.add_0_r.
Qed.
Lemma ReadExponent_ok x p k d e u : at_ p k d e -> rest_at k (exponent_text x ++ u) -> match x with Some x => exponent_ok x | None => True end ->
  IsAsciiDigit (cur u) = false -> cur u <> ch#"e" -> cur u <> ch#"E" ->
  exists q, ReadExponent dcheck_on mem E p = Ret (Some q, q) /\ at_ q (k + zlen (exponent_text x)) d e.
Proof.
  intros Hp Hr Hx Hu He HE. unfold ReadExponent. rewrite (peek_cur _ _ _ _ _ Hp Hr). obind. destruct x as [[[m s] ds]|]; cbn [exponent_text app cur] in *.
  - destruct Hx as (Hm & Hs & Hd). assert ((m =? ch#"e") || (m =? ch#"E") = true) as -> by (by destruct Hm as [-> | ->]). rewrite (step_ok _ _ _ _ _ _ Hp Hr). obind.
    pose proof (tail_cons _ _ _ Hr) as Hr1. pose proof (at_next _ _ _ _ Hp) as Hp1. rewrite (peek_cur _ _ _ _ _ Hp1 Hr1). obind. rewrite <- app_assoc in *. set (p1 := set_pos _ _ p) in *.
    assert (exists q, (if (cur (s ++ ds ++ u) =? ch#"-") || (cur (s ++ ds ++ u) =? ch#"+") then NextChar dcheck_on E p1 else Ret p1) = Ret q /\ at_ q (k + 1 + zlen s) d e) as (q & -> & Hq).
    { destruct Hs as [-> |[-> | ->]]; cbn [app cur] in *.
      - pose proof (digits_head ds u Hd) as Hh. unfold IsAsciiDigit in Hh. destruct (Z.eqb_spec (cur (ds ++ u)) ch#"-"); [lia|]. destruct (Z.eqb_spec (cur (ds ++ u)) ch#"+"); [lia|].
        exists p1. by rewrite Z.add_0_r.
      - cbn [Z.eqb Pos.eqb orb]. rewrite (step_ok _ _ _ _ _ _ Hp1 Hr1). eexists. split; [done|]. by apply at_next.
      - cbn [Z.eqb Pos.eqb orb]. rewrite (step_ok _ _ _ _ _ _ Hp1 Hr1). eexists. split; [done|]. by apply at_next. }
    obind. apply tail_app in Hr1. destruct (ReadInt_ok true ds q _ d e u Hq Hr1 Hd Hu) as (q2 & -> & Hq2); [by left|]. obind. exists q2. rewrite zlen_cons, zlen_app, !Z.add_assoc. by split.
  - destruct (Z.eqb_spec (cur u) ch#"e"); [done|]. destruct (Z.eqb_spec (cur u) ch#"E"); [done|]. exists p. by rewrite Z.add_0_r.
Qed.

(** What may follow a value: spaces, then the end or a character that goes on with or
    ends a structure. *)
Definition follows (u : bytes) : Prop := exists w r, u = w ++ r /\ spaces w /\ (r = [] \/ exists c r', r = c :: r' /\ (c = ch#"," \/ c = ch#"]" \/ c = ch#"}")).
Lemma follows_cur u : follows u -> IsAsciiDigit (cur u) = false /\ cur u <> ch#"." /\ cur u <> ch#"e" /\ cur u <> ch#"E".
Proof.
  intros (w & r & -> & Hw & Hr). assert (forall c, c = 0 \/ is_space c = true \/ (c = ch#"," \/ c = ch#"]" \/ c = ch#"}") -> IsAsciiDigit c = false /\ c <> ch#"." /\ c <> ch#"e" /\ c <> ch#"E") as H.
  { intros c. unfold is_space, IsAsciiDigit. lia. }
  apply H. destruct w as [|c w]; [|right; left; unfold spaces in Hw; cbn in *; by apply andb_true_iff in Hw as [? _]].
  destruct Hr as [-> |(c & r' & -> & Hc)]; [by left|]. right. right. exact Hc.
Qed.
Lemma follows_token u p k d e : follows u -> at_ p k d e -> rest_at k u ->
  exists t q, GetNextToken dcheck_on mem E p = Ret (t, q) /\ (t = T_OBJECT_END \/ t = T_ARRAY_END \/ t = T_LIST_SEPARATOR \/ t = T_END_OF_INPUT) /\ stack_depth_ q = d /\ error_code_ q = e.
Proof.
  intros (w & r & -> & Hw & Hr) Hp Hrest. destruct Hr as [-> |(c & r' & -> & Hc)].
  - rewrite app_nil_r in Hrest. destruct (token_end w p k d e Hp Hrest Hw) as (q & -> & Hq). exists T_END_OF_INPUT, q. destruct Hq. auto 10.
  - destruct (token_ok w p k d e c r' Hp Hrest Hw) as (q & -> & Hq); [unfold is_space; lia|lia|]. exists (token_of c), q. destruct Hq. destruct Hc as [-> |[-> | ->]]; cbn; auto 10.
Qed.
Lemma number_head n u : number_ok n -> exists c t, number_text n ++ u = c :: t /\ (c = ch#"-" /\ minus n = true \/ IsAsciiDigit c = true /\ minus n = false).
Proof.
  intros (Hw & _). unfold number_text. destruct (minus n); cbn [app]; [eexists _, _; split; [done|by left]|]. pose proof (digits_head (whole n) ((fraction_text (fraction n) ++ exponent_text (exponent n)) ++ u) Hw) as H.
  destruct Hw as [Hne _]. destruct (whole n) as [|c ds]; [done|]. cbn in *. eexists _, _. split; [done|]. right. by rewrite H.
Qed.
Lemma exponent_cur x u : match x with Some x => exponent_ok x | None => True end -> IsAsciiDigit (cur u) = false -> cur u <> ch#"." ->
  IsAsciiDigit (cur (exponent_text x ++ u)) = false /\ cur (exponent_text x ++ u) <> ch#".".
Proof. intros Hx Hu Hd. destruct x as [[[m s] ds]|]; cbn in *; [|done]. destruct Hx as ([-> | ->] & _); done. Qed.
Lemma fraction_cur f u : IsAsciiDigit (cur u) = false -> IsAsciiDigit (cur (fraction_text f ++ u)) = false.
Proof. by destruct f. Qed.
Lemma ConsumeNumber_ok n v p k d e u : number_ok n -> number_value strtod (number_text n) = Some v -> at_ p k d e -> rest_at k (number_text n ++ u) -> follows u ->
  exists q, ConsumeNumber dcheck_on strtod mem E p = Ret (Some v, q) /\ at_ q (k + zlen (number_text n) - 1) d e.
Proof.
  intros Hn Hv Hp Hr Hu. destruct (follows_cur u Hu) as (Hu1 & Hu2 & Hu3 & Hu4). unfold ConsumeNumber. pose proof Hr as Hr0.
  destruct (number_head n u Hn) as (c & t & Et & Hc). pose proof Hr as Hrc. rewrite Et in Hrc. rewrite (peek_ok _ _ _ _ _ _ Hp Hrc). obind.
  destruct Hn as (Hw & Hz & Hf & Hx). destruct (exponent_cur _ u Hx Hu1 Hu2) as [Hx1 Hx2].
  assert (exists q, (if c =? ch#"-" then NextChar dcheck_on E p else Ret p) = Ret q /\ at_ q (k + zlen (if minus n then [ch#"-"] else [])) d e) as (q & -> & Hq).
  { destruct Hc as [[-> ->]|[Hc ->]]; [change (ch#"-" =? ch#"-") with true|unfold IsAsciiDigit in Hc; destruct (Z.eqb_spec c ch#"-"); [lia|]; exists p; by rewrite Z.add_0_r].
    rewrite (step_ok _ _ _ _ _ _ Hp Hrc). eexists. split; [done|]. by apply at_next. }
  obind. unfold number_text in Hr. rewrite <- !app_assoc in Hr. apply tail_app in Hr.
  destruct (ReadInt_ok false (whole n) q _ d e _ Hq Hr Hw) as (q1 & -> & Hq1); [by apply fraction_cur|by right|]. obind. cbn [negb]. apply tail_app in Hr.
  destruct (ReadFraction_ok (fraction n) q1 _ d e _ Hq1 Hr Hf Hx1 Hx2) as (q2 & -> & Hq2). obind. apply tail_app in Hr.
  destruct (ReadExponent_ok (exponent n) q2 _ d e _ Hq2 Hr Hx Hu1 Hu3 Hu4) as (q3 & -> & Hq3). obind. apply tail_app in Hr.
  destruct (follows_token u q3 _ d e Hu Hq3 Hr) as (tok & q4 & -> & Ht & Hd4 & He4). obind. rewrite bool_decide_true by exact Ht.
  assert (k + zlen (if minus n then [ch#"-"] else []) + zlen (whole n) + zlen (fraction_text (fraction n)) + zlen (exponent_text (exponent n)) = k + zlen (number_text n)) as Ek by (unfold number_text; rewrite !zlen_app; lia).
  rewrite Ek in *. rewrite (at_index _ _ _ _ Hq3), (at_pos _ _ _ _ Hp), (at_index _ _ _ _ Hp). rewrite (mem_read_at k _ (number_text n) u Hr0) by lia. obind.
  assert (forall v q', q' = set_pos (pos_ q3 - 1) (k + zlen (number_text n) - 1) q4 -> exists q, Ret (Some v : option Value, q') = Ret (Some v, q) /\ at_ q (k + zlen (number_text n) - 1) d e) as Hend.
  { intros w q' ->. eexists. split; [done|]. rewrite (at_pos _ _ _ _ Hq3). by split. }
  unfold number_value in Hv. destruct (StringToInt (number_text n) 0) as [[] i]; [injection Hv as <-; by apply Hend|].
  destruct (StringToDouble strtod (number_text n)) as [[] x]; [|done]. destruct (IsFinite x) eqn:Ex; [|done]. injection Hv as <-. cbn [andb]. unfold FundamentalValue_double. rewrite Ex. obind. by apply Hend.
Qed.

(** ** Literals *)
Lemma StringsAreEqual_ok word : forall k u, rest_at k (word ++ u) -> StringsAreEqual mem k word = Ret true.
Proof.
  induction word as [|c word IH]; intros k u Hr; cbn [StringsAreEqual]; [done|]. cbn [app] in Hr. rewrite (rest_char _ _ _ Hr). obind. rewrite Z.eqb_refl. eapply IH. by apply tail_cons in Hr.
Qed.
Lemma ConsumeWord_ok word v p k d e u : at_ p k d e -> rest_at k (word ++ u) -> exists q, ConsumeWord dcheck_on mem E word v p = Ret (Some v, q) /\ at_ q (k + zlen word - 1) d e.
Proof.
  intros Hp Hr. unfold ConsumeWord. pose proof (zlen_nonneg u). rewrite (can_n p (zlen word - 1) k (word ++ u)); [|rewrite (at_pos _ _ _ _ Hp), zlen_app; lia|exact Hr]. cbn [negb].
  rewrite (at_pos _ _ _ _ Hp), (StringsAreEqual_ok word k u Hr). obind. cbn [negb]. rewrite next_n_ok by (eapply can_n; [|exact Hr]; rewrite (at_pos _ _ _ _ Hp), zlen_app; lia).
  eexists. split; [done|]. destruct Hp. split; cbn; lia || done.
Qed.

(** ** Structures *)
Lemma next_at p k d e u : at_ p k d e -> rest_at (k + 1) u -> exists q, NextChar dcheck_on E p = Ret q /\ at_ q (k + 1) d e.
Proof.
  intros Hp Hr. pose proof (rest_bounds _ _ Hr). pose proof (zlen_nonneg u). unfold NextChar, NextNChars. rewrite DCHECK_true by (unfold CanConsume; rewrite (at_pos _ _ _ _ Hp); lia).
  eexists. split; [done|]. by apply at_next.
Qed.
(** A character that begins a token. *)
Definition token_char (c : Z) : Prop := is_space c = false /\ c <> ch#"/".
Lemma after_comma close adjust w w' p k d e c u : at_ p k d e -> rest_at (k + 1) (w ++ ch#"," :: w' ++ c :: u) -> spaces w -> spaces w' -> token_char c -> token_of c <> close ->
  exists q, AfterItem dcheck_on options_ mem E close adjust p = Ret (Some (token_of c), q) /\ at_ q (k + 1 + zlen w + 1 + zlen w') d e.
Proof.
  intros Hp Hr Hw Hw' [Hc1 Hc2] Hne. unfold AfterItem. destruct (next_at p k d e _ Hp Hr) as (q & -> & Hq). obind.
  destruct (token_ok w q _ d e ch#"," _ Hq Hr Hw eq_refl ltac:(lia)) as (q1 & -> & Hq1). obind. change (token_of ch#",") with T_LIST_SEPARATOR. rewrite bool_decide_true by done.
  apply tail_app in Hr. pose proof (tail_cons _ _ _ Hr) as Hr2. rewrite (step_ok _ _ _ _ _ _ Hq1 Hr). obind.
  destruct (token_ok w' _ _ d e c u (at_next _ _ _ _ Hq1) Hr2 Hw' Hc1 Hc2) as (q2 & -> & Hq2). obind. rewrite bool_decide_false by done. cbn [andb]. by exists q2.
Qed.
Lemma after_close close adjust w p k d e c u : at_ p k d e -> rest_at (k + 1) (w ++ c :: u) -> spaces w -> token_char c -> token_of c = close -> close <> T_LIST_SEPARATOR ->
  exists q, AfterItem dcheck_on options_ mem E close adjust p = Ret (Some close, q) /\ at_ q (k + 1 + zlen w) d e.
Proof.
  intros Hp Hr Hw [Hc1 Hc2] Hc Hne. unfold AfterItem. destruct (next_at p k d e _ Hp Hr) as (q & -> & Hq). obind.
  destruct (token_ok w q _ d e c u Hq Hr Hw Hc1 Hc2) as (q1 & -> & Hq1). obind. rewrite Hc. rewrite bool_decide_false, bool_decide_true by done. by exists q1.
Qed.
Definition value_token (t : Token) : Prop := match t with T_OBJECT_BEGIN | T_ARRAY_BEGIN | T_STRING | T_NUMBER | T_BOOL_TRUE | T_BOOL_FALSE | T_NULL => True | _ => False end.
Lemma number_char c : c = ch#"-" \/ IsAsciiDigit c = true -> token_char c /\ token_of c = T_NUMBER.
Proof.
  intros H. unfold IsAsciiDigit in H. assert (c = ch#"-" \/ ch#"0" <= c <= ch#"9") as H' by lia. clear H. split; [unfold token_char, is_space; lia|]. unfold token_of.
  repeat match goal with |- context [if ?b then _ else _] => let Eb := fresh in destruct b eqn:Eb; [try lia; try done|] end; try lia.
Qed.
Lemma denotes_head n v t : denotes strtod n v t -> exists c t', t = c :: t' /\ token_char c /\ value_token (token_of c).
Proof.
  intros H. assert (forall c l, token_char c -> value_token (token_of c) -> exists c' t', c :: l = c' :: t' /\ token_char c' /\ value_token (token_of c')) as Hx by (intros c l ? ?; by exists c, l).
  destruct H as [| | |n f v Hf _| | | | |]; unfold quote; try (apply Hx; [split; [done|lia]|exact I]).
  destruct (number_head f [] Hf) as (c & t & Et & Hc). rewrite app_nil_r in Et. exists c, t. split; [done|]. destruct (number_char c) as [H1 H2]; [by destruct Hc as [[? _]|[? _]]; auto|]. split; [done|]. by rewrite H2.
Qed.
Lemma items_head n l ts : items strtod n l ts -> exists c t', ts = c :: t' /\ token_char c /\ value_token (token_of c).
Proof. intros [n' v t w H Hw|n' v t w w' l' ts' H _ _ _]; destruct (denotes_head _ _ _ H) as (c & t' & -> & ? & ?); eexists _, _; (split; [done|done]). Qed.
Lemma entries_head n es ts : entries strtod n es ts -> exists t', ts = quote :: t'.
Proof. intros [n' k v t w H Hw|n' k v t w w' l' ts' H _ _ _]; destruct H; by eexists. Qed.

(** *** The statement for each part of the grammar *)
Definition fuel_ok (fuel : nat) (k j : Z) : Prop := 2 * (E - k) + j <= Z.of_nat fuel.
Definition parses (n : nat) (v : Value) (t : bytes) : Prop := forall fuel p k d e u, at_ p k d e -> rest_at k (t ++ u) -> follows u -> 0 <= d -> d + Z.of_nat n < kStackMaxDepth -> fuel_ok fuel k 1 ->
  exists q, ParseToken dcheck_on strtod options_ mem E fuel (token_of (cur t)) p = Ret (Some v, q) /\ at_ q (k + zlen t - 1) d e.
Definition parses_items (n : nat) (l : list Value) (ts : bytes) : Prop := forall fuel p k d e l0 u, at_ p k d e -> rest_at k (ts ++ ch#"]" :: u) -> 0 <= d -> d + Z.of_nat n < kStackMaxDepth -> fuel_ok fuel k 2 ->
  exists q, ConsumeList_loop dcheck_on strtod options_ mem E fuel (token_of (cur ts)) l0 p = Ret (Some (VList (l0 ++ l)), q) /\ at_ q (k + zlen ts) d e.
Definition parses_entries (n : nat) (es : list (bytes * Value)) (ts : bytes) : Prop := forall fuel p k d e m0 u, at_ p k d e -> rest_at k (ts ++ ch#"}" :: u) -> 0 <= d -> d + Z.of_nat n < kStackMaxDepth -> fuel_ok fuel k 2 ->
  exists q, ConsumeDictionary_loop dcheck_on strtod options_ mem E fuel T_STRING m0 p = Ret (Some (VDictionary (set_entries es m0)), q) /\ at_ q (k + zlen ts) d e.
Definition parses_entry (n : nat) (key : bytes) (v : Value) (et : bytes) : Prop := forall fuel p k d e u, at_ p k d e -> rest_at k (et ++ u) -> follows u -> 0 <= d -> d + Z.of_nat n < kStackMaxDepth -> fuel_ok fuel k 1 ->
  exists q1 tok q2 q3, ConsumeKey dcheck_on mem E T_STRING p = Ret (Some key, q1) /\ GetNextToken dcheck_on mem E q1 = Ret (tok, q2) /\
    ParseToken dcheck_on strtod options_ mem E fuel tok q2 = Ret (Some v, q3) /\ at_ q3 (k + zlen et - 1) d e.

Lemma follows_comma w u : spaces w -> follows (w ++ ch#"," :: u).
Proof. intros Hw. exists w, (ch#"," :: u). split; [done|]. split; [done|]. right. eexists _, _. auto. Qed.
Lemma follows_bracket w u : spaces w -> follows (w ++ ch#"]" :: u).
Proof. intros Hw. exists w, (ch#"]" :: u). split; [done|]. split; [done|]. right. eexists _, _. auto. Qed.
Lemma follows_brace w u : spaces w -> follows (w ++ ch#"}" :: u).
Proof. intros Hw. exists w, (ch#"}" :: u). split; [done|]. split; [done|]. right. eexists _, _. auto. Qed.

(** A structure: what is between its brackets. *)
Lemma marker_ok p k d e (K : parser -> outcome (option Value * parser)) v q : at_ p k d e -> 0 <= d -> d + 1 < kStackMaxDepth ->
  K (set_depth (d + 1) p) = Ret (Some v, q) -> forall k', at_ q k' (d + 1) e -> exists q', with_marker dcheck_on K p = Ret (Some v, q') /\ at_ q' k' d e.
Proof.
  intros Hp Hd Hmax HK k' Hq. unfold with_marker. rewrite (at_depth _ _ _ _ Hp). cbn [stack_depth_ set_depth]. rewrite DCHECK_true by lia.
  destruct (Z.leb_spec kStackMaxDepth (d + 1)); [lia|]. rewrite HK. obind. eexists. split; [done|]. destruct Hq as [? ? Hdq ?]. split; cbn; try done. rewrite Hdq. lia.
Qed.
Lemma at_set_depth p k d e d' : at_ p k d e -> at_ (set_depth d' p) k d' e.
Proof. intros [? ? ? ?]. by split. Qed.
Lemma open_ok w p k d e o c u : at_ p k d e -> rest_at k (o :: w ++ c :: u) -> spaces w -> token_char c ->
  exists q, (p ← NextChar dcheck_on E p; GetNextToken dcheck_on mem E p) = Ret (token_of c, q) /\ at_ q (k + 1 + zlen w) d e.
Proof.
  intros Hp Hr Hw [Hc1 Hc2]. rewrite (step_ok _ _ _ _ _ _ Hp Hr). obind. destruct (token_ok w _ _ d e c u (at_next _ _ _ _ Hp) (tail_cons _ _ _ Hr) Hw Hc1 Hc2) as (q & -> & Hq). by exists q.
Qed.
Lemma loop_end_list fuel l p k d e : at_ p k d e -> (0 < fuel)%nat -> ConsumeList_loop dcheck_on strtod options_ mem E fuel T_ARRAY_END l p = Ret (Some (VList l), p).
Proof. intros _ Hf. destruct fuel; [lia|]. done. Qed.
Lemma loop_end_dictionary fuel m p k d e : at_ p k d e -> (0 < fuel)%nat -> ConsumeDictionary_loop dcheck_on strtod options_ mem E fuel T_OBJECT_END m p = Ret (Some (VDictionary m), p).
Proof. intros _ Hf. destruct fuel; [lia|]. done. Qed.
Lemma bind_step {A B C} (m : outcome A) (f : A -> outcome B) (g : B -> outcome C) b : (a ← m; f a) = Ret b -> (a ← m; b ← f a; g b) = g b.
Proof. destruct m as [a|x]; cbn; [|done]. intros ->. done. Qed.
Lemma parse_list w body l n p k d e u c t fuel : at_ p k d e -> rest_at k ((ch#"[" :: w ++ body ++ [ch#"]"]) ++ u) -> spaces w -> 0 <= d -> d + Z.of_nat (S n) < kStackMaxDepth -> fuel_ok fuel k 1 ->
  body ++ ch#"]" :: u = c :: t -> token_char c ->
  (forall fuel q, at_ q (k + 1 + zlen w) (d + 1) e -> rest_at (k + 1 + zlen w) (body ++ ch#"]" :: u) -> fuel_ok fuel (k + 1 + zlen w) 2 ->
     exists r, ConsumeList_loop dcheck_on strtod options_ mem E fuel (token_of c) [] q = Ret (Some (VList l), r) /\ at_ r (k + 1 + zlen w + zlen body) (d + 1) e) ->
  exists q, ParseToken dcheck_on strtod options_ mem E fuel T_ARRAY_BEGIN p = Ret (Some (VList l), q) /\ at_ q (k + zlen (ch#"[" :: w ++ body ++ [ch#"]"]) - 1) d e.
Proof.
  intros Hp Hr Hw Hd Hmax Hf Ebody Hc Hloop. assert ((ch#"[" :: w ++ body ++ [ch#"]"]) ++ u = ch#"[" :: w ++ body ++ ch#"]" :: u) as Et by (cbn; by rewrite <- !app_assoc). rewrite Et in Hr.
  pose proof (rest_lt _ _ _ Hr). destruct fuel as [|fuel]; [unfold fuel_ok in Hf; lia|]. cbn [ParseToken]. rewrite (peek_ok _ _ _ _ _ _ Hp Hr). obind. change (negb (ch#"[" =? ch#"[")) with false. cbv iota.
  pose proof (tail_cons _ _ _ Hr) as Hr1. apply tail_app in Hr1. rewrite Ebody in Hr. destruct (open_ok w (set_depth (d + 1) p) k (d + 1) e _ c t (at_set_depth _ _ _ _ _ Hp) Hr Hw Hc) as (q & Eq & Hq).
  destruct (Hloop fuel q Hq Hr1) as (r & Er & Hr'); [unfold fuel_ok in *; pose proof (zlen_nonneg w); lia|].
  replace (k + zlen (ch#"[" :: w ++ body ++ [ch#"]"]) - 1) with (k + 1 + zlen w + zlen body) by (rewrite zlen_cons, !zlen_app; change (zlen [ch#"]"]) with 1; lia).
  eapply (marker_ok p k d e); [done|done|lia| |exact Hr']. cbn beta. etransitivity; [exact (bind_step _ _ (fun tq => let '(token, p) := tq in ConsumeList_loop dcheck_on strtod options_ mem E fuel token [] p) _ Eq)|exact Er].
Qed.
Lemma parse_dictionary w body m n p k d e u c t fuel : at_ p k d e -> rest_at k ((ch#"{" :: w ++ body ++ [ch#"}"]) ++ u) -> spaces w -> 0 <= d -> d + Z.of_nat (S n) < kStackMaxDepth -> fuel_ok fuel k 1 ->
  body ++ ch#"}" :: u = c :: t -> token_char c ->
  (forall fuel q, at_ q (k + 1 + zlen w) (d + 1) e -> rest_at (k + 1 + zlen w) (body ++ ch#"}" :: u) -> fuel_ok fuel (k + 1 + zlen w) 2 ->
     exists r, ConsumeDictionary_loop dcheck_on strtod options_ mem E fuel (token_of c) [] q = Ret (Some (VDictionary m), r) /\ at_ r (k + 1 + zlen w + zlen body) (d + 1) e) ->
  exists q, ParseToken dcheck_on strtod options_ mem E fuel T_OBJECT_BEGIN p = Ret (Some (VDictionary m), q) /\ at_ q (k + zlen (ch#"{" :: w ++ body ++ [ch#"}"]) - 1) d e.
Proof.
  intros Hp Hr Hw Hd Hmax Hf Ebody Hc Hloop. assert ((ch#"{" :: w ++ body ++ [ch#"}"]) ++ u = ch#"{" :: w ++ body ++ ch#"}" :: u) as Et by (cbn; by rewrite <- !app_assoc). rewrite Et in Hr.
  pose proof (rest_lt _ _ _ Hr). destruct fuel as [|fuel]; [unfold fuel_ok in Hf; lia|]. cbn [ParseToken]. rewrite (peek_ok _ _ _ _ _ _ Hp Hr). obind. change (negb (ch#"{" =? ch#"{")) with false. cbv iota.
  pose proof (tail_cons _ _ _ Hr) as Hr1. apply tail_app in Hr1. rewrite Ebody in Hr. destruct (open_ok w (set_depth (d + 1) p) k (d + 1) e _ c t (at_set_depth _ _ _ _ _ Hp) Hr Hw Hc) as (q & Eq & Hq).
  destruct (Hloop fuel q Hq Hr1) as (r & Er & Hr'); [unfold fuel_ok in *; pose proof (zlen_nonneg w); lia|].
  replace (k + zlen (ch#"{" :: w ++ body ++ [ch#"}"]) - 1) with (k + 1 + zlen w + zlen body) by (rewrite zlen_cons, !zlen_app; change (zlen [ch#"}"]) with 1; lia).
  eapply (marker_ok p k d e); [done|done|lia| |exact Hr']. cbn beta. etransitivity; [exact (bind_step _ _ (fun tq => let '(token, p) := tq in ConsumeDictionary_loop dcheck_on strtod options_ mem E fuel token [] p) _ Eq)|exact Er].
Qed.

(** *** The parser follows the grammar *)
Lemma literal_ok word v tok n : match tok with T_BOOL_TRUE => word = str#"true" /\ v = VBoolean true | T_BOOL_FALSE => word = str#"false" /\ v = VBoolean false | T_NULL => word = str#"null" /\ v = VNull | _ => False end ->
  token_of (cur word) = tok -> parses n v word.
Proof.
  intros Hw Ht fuel p k d e u Hp Hr _ _ _ Hf. rewrite Ht. pose proof (rest_bounds _ _ Hr) as [_ Hb]. pose proof (zlen_nonneg (word ++ u)). destruct fuel as [|fuel]; [unfold fuel_ok in Hf; lia|].
  assert (ParseToken dcheck_on strtod options_ mem E (S fuel) tok p = ConsumeLiteral dcheck_on mem E p) as -> by (by destruct tok). unfold ConsumeLiteral.
  destruct tok; try done; destruct Hw as [-> ->]; rewrite (peek_cur _ _ _ _ _ Hp Hr); obind; cbn [app cur Z.eqb Pos.eqb]; by eapply ConsumeWord_ok.
Qed.
Lemma number_parses n f v : number_ok f -> number_value strtod (number_text f) = Some v -> parses n v (number_text f).
Proof.
  intros Hf Hv fuel p k d e u Hp Hr Hu _ _ Hfu. destruct (number_head f [] Hf) as (c & t & Et & Hc). rewrite app_nil_r in Et.
  assert (token_of (cur (number_text f)) = T_NUMBER) as -> by (rewrite Et; apply number_char; by destruct Hc as [[? _]|[? _]]; auto).
  pose proof (rest_bounds _ _ Hr) as [_ Hb]. pose proof (zlen_nonneg (number_text f ++ u)). destruct fuel as [|fuel]; [unfold fuel_ok in Hfu; lia|]. by eapply ConsumeNumber_ok.
Qed.
(** The strings of a text are UTF-8. *)
Lemma string_text_good t s : string_text t s -> zlen s <= zlen t /\ exists cs, Forall character cs /\ s = text utf8 cs.
Proof.
  assert (forall c s cs, Forall character cs -> character c -> s = text utf8 cs -> utf8 c ++ s = text utf8 (c :: cs)) as Hcons by (intros; by subst).
  assert (forall c, 1 <= zlen (utf8 c) <= 4) as H4 by (intros c; unfold utf8; destruct (c <=? 0x7f), (c <=? 0x7ff), (c <=? 0xffff); unfold zlen; cbn; lia).
  induction 1 as [|c t s Hc _ _ _ [Hl (cs & Hcs & ->)]|c x t s Hx _ [Hl (cs & Hcs & ->)]|h x t s Hh Hx _ [Hl (cs & Hcs & ->)]|h l x y t s Hh Hlo Hx Hy Hc _ [Hl (cs & Hcs & ->)]].
  - split; [done|]. by exists [].
  - rewrite !zlen_app. split; [lia|]. exists (c :: cs). by split; [constructor|].
  - rewrite !zlen_cons. split; [lia|]. destruct (escape_of_other _ _ Hx) as (_ & _ & Hr). exists (x :: cs). split; [constructor; [by apply character_ascii|done]|].
    assert (utf8 x = [x]) as E1 by (unfold utf8; by destruct (Z.leb_spec x 0x7f); [|lia]). change (text utf8 (x :: cs)) with (utf8 x ++ text utf8 cs). by rewrite E1.
  - rewrite !zlen_app. pose proof (H4 x). pose proof (hex4_len h x [] Hh) as Hz. rewrite app_nil_r in Hz. rewrite Hz. change (zlen (@nil Z)) with 0. change (zlen [backslash; ch#"u"]) with 2. unfold unit_text. destruct (x =? 0); [split; [change (zlen (@nil Z)) with 0; lia|by exists cs]|]. split; [lia|].
    exists (x :: cs). by split; [constructor|].
  - set (c := 0x10000 + _ + _) in *. clearbody c. assert (zlen h = 4) as Hz by (unfold zlen; by rewrite (proj1 Hh)). rewrite !zlen_app, Hz. change (zlen [backslash; ch#"u"]) with 2. split; [specialize (H4 c); pose proof (zlen_nonneg l); clear - Hl H4 H; lia|].
    exists (c :: cs). by split; [constructor|].
Qed.
Lemma string_good k t s u : string_text t s -> rest_at k (quote :: t ++ quote :: u) -> good_string s.
Proof.
  intros H Hr. destruct (string_text_good t s H) as [Hl (cs & Hcs & ->)]. exists cs. split; [done|]. split; [done|]. apply rest_bounds in Hr as [? Hb]. rewrite zlen_cons, zlen_app, zlen_cons in Hb. pose proof (zlen_nonneg u). lia.
Qed.
Lemma string_parses n t s : string_text t s -> parses n (VString s) (quote :: t ++ [quote]).
Proof.
  intros Ht fuel p k d e u Hp Hr _ _ _ Hf. cbn [app] in Hr. rewrite <- app_assoc in Hr. cbn [app] in Hr. change (token_of (cur (quote :: t ++ [quote]))) with T_STRING.
  pose proof (rest_lt _ _ _ Hr). destruct fuel as [|fuel]; [unfold fuel_ok in Hf; lia|]. cbn [ParseToken]. unfold ConsumeString.
  destruct (ConsumeStringRaw_text t s p k d e u Ht Hp Hr) as (b & q & -> & Hq & Hb). obind. rewrite Hb. obind. pose proof (string_good k t s u Ht Hr) as Hg. unfold StringValue. rewrite DCHECK_good by done. obind.
  exists q. split; [by destruct b; [destruct (Z.land options_ JSON_DETACHABLE_CHILDREN =? 0)|]|]. replace (k + zlen (quote :: t ++ [quote]) - 1) with (k + 1 + zlen t); [done|]. rewrite zlen_cons, zlen_app. change (zlen [quote]) with 1. lia.
Qed.
Lemma entry_parses n key v kt w w' t : string_text kt key -> spaces w -> spaces w' -> denotes strtod n v t -> parses n v t -> parses_entry n key v (quote :: kt ++ quote :: w ++ ch#":" :: w' ++ t).
Proof.
  intros Hk Hw Hw' Hden Ht fuel p k d e u Hp Hr Hu Hd Hmax Hf. destruct (denotes_head _ _ _ Hden) as (c & t' & Et & [Hc1 Hc2] & _).
  assert ((quote :: kt ++ quote :: w ++ ch#":" :: w' ++ t) ++ u = quote :: kt ++ quote :: w ++ ch#":" :: w' ++ t ++ u) as Ea by (cbn; do 1 rewrite <- !app_assoc; cbn; rewrite <- !app_assoc; cbn; by rewrite <- !app_assoc). rewrite Ea in Hr.
  destruct (ConsumeStringRaw_text kt key p k d e _ Hk Hp Hr) as (b & q & Eb & Hq & Hb). pose proof (tail_cons _ _ _ Hr) as Hr1. apply tail_app in Hr1. pose proof (tail_cons _ _ _ Hr1) as Hr2.
  destruct (next_at q _ d e _ Hq Hr2) as (q1 & Eq1 & Hq1). destruct (token_ok w q1 _ d e ch#":" _ Hq1 Hr2 Hw eq_refl ltac:(lia)) as (q2 & Eq2 & Hq2). pose proof (tail_app _ _ _ Hr2) as Hr3. pose proof (tail_cons _ _ _ Hr3) as Hr4.
  destruct (next_at q2 _ d e _ Hq2 Hr4) as (q3 & Eq3 & Hq3). pose proof Hr4 as Hr5. rewrite Et in Hr5. cbn [app] in Hr5. destruct (token_ok w' q3 _ d e c _ Hq3 Hr5 Hw' Hc1 Hc2) as (q4 & Eq4 & Hq4). apply tail_app in Hr4.
  assert (token_of c = token_of (cur t)) as Etok by (by rewrite Et). pose proof (zlen_nonneg kt). pose proof (zlen_nonneg w). pose proof (zlen_nonneg w').
  destruct (Ht fuel q4 _ d e u Hq4 Hr4 Hu Hd Hmax) as (q5 & Eq5 & Hq5); [unfold fuel_ok in *; lia|]. rewrite <- Etok in Eq5.
  exists q3, (token_of c), q4, q5. split; [|split; [done|split; [done|]]].
  - unfold ConsumeKey. rewrite bool_decide_true by done. cbn [negb]. rewrite Eb. obind. rewrite Eq1. obind. rewrite Eq2. obind. rewrite bool_decide_true by done. cbn [negb]. rewrite Eq3. obind. by rewrite Hb.
  - replace (k + zlen (quote :: kt ++ quote :: w ++ ch#":" :: w' ++ t) - 1) with (k + 1 + zlen kt + 1 + zlen w + 1 + zlen w' + zlen t - 1); [done|]. rewrite zlen_cons, zlen_app, zlen_cons, zlen_app, zlen_cons, zlen_app. lia.
Qed.
Lemma item_char n v t u : denotes strtod n v t -> exists c t', t ++ u = c :: t' /\ token_char c /\ token_of c = token_of (cur t) /\ value_token (token_of c).
Proof. intros H. destruct (denotes_head _ _ _ H) as (c & t' & -> & ? & ?). exists c, (t' ++ u). done. Qed.
Lemma value_not_close t : value_token t -> t <> T_ARRAY_END /\ t <> T_OBJECT_END.
Proof. by destruct t. Qed.
(** One round of the loops. *)
Lemma list_step fuel token l p : token <> T_ARRAY_END -> ConsumeList_loop dcheck_on strtod options_ mem E (S fuel) token l p =
  '(item, p) ← ParseToken dcheck_on strtod options_ mem E fuel token p;
  match item with
  | None => Ret (None, p)
  | Some item => '(token, p) ← AfterItem dcheck_on options_ mem E T_ARRAY_END 1 p; match token with None => Ret (None, p) | Some token => ConsumeList_loop dcheck_on strtod options_ mem E fuel token (Append item l) p end
  end.
Proof. by destruct token. Qed.
Lemma dictionary_step fuel token m p : token <> T_OBJECT_END -> ConsumeDictionary_loop dcheck_on strtod options_ mem E (S fuel) token m p =
  '(key, p) ← ConsumeKey dcheck_on mem E token p;
  match key with
  | None => Ret (None, p)
  | Some key =>
      '(token, p) ← GetNextToken dcheck_on mem E p;
      '(value, p) ← ParseToken dcheck_on strtod options_ mem E fuel token p;
      match value with
      | None => Ret (None, p)
      | Some value => '(token, p) ← AfterItem dcheck_on options_ mem E T_OBJECT_END 0 p;
          match token with None => Ret (None, p) | Some token => ConsumeDictionary_loop dcheck_on strtod options_ mem E fuel token (SetWithoutPathExpansion key value m) p end
      end
  end.
Proof. by destruct token. Qed.
Lemma items_one_parses n v t w : denotes strtod n v t -> parses n v t -> spaces w -> parses_items n [v] (t ++ w).
Proof.
  intros Hden Ht Hw fuel p k d e l0 u Hp Hr Hd Hmax Hf. rewrite <- app_assoc in Hr. destruct (item_char n v t w Hden) as (c & t' & Ec & Hc & Etok & Hval). rewrite Ec in *. cbn [cur].
  pose proof (rest_bounds _ _ Hr) as [Hk Hb]. rewrite !zlen_app, zlen_cons in Hb. pose proof (zlen_nonneg t). pose proof (zlen_nonneg w). pose proof (zlen_nonneg u).
  destruct fuel as [|fuel]; [unfold fuel_ok in Hf; lia|]. rewrite list_step by (by apply value_not_close). rewrite Etok.
  destruct (Ht fuel p k d e _ Hp Hr (follows_bracket w u Hw) Hd Hmax) as (q & -> & Hq); [unfold fuel_ok in *; lia|]. obind. apply tail_app in Hr.
  destruct (after_close T_ARRAY_END 1 w q (k + zlen t - 1) d e ch#"]" u Hq) as (q2 & -> & Hq2); [by replace (k + zlen t - 1 + 1) with (k + zlen t) by lia|done|by split|done|done|]. obind.
  assert (1 <= zlen t) by (destruct (denotes_head _ _ _ Hden) as (? & ? & -> & _); rewrite zlen_cons; pose proof (zlen_nonneg x0); lia).
  rewrite (loop_end_list fuel _ _ _ _ _ Hq2) by (unfold fuel_ok in Hf; lia). exists q2. split; [done|]. rewrite <- Ec, zlen_app. by replace (k + (zlen t + zlen w)) with (k + zlen t - 1 + 1 + zlen w) by lia.
Qed.
Lemma items_more_parses n v t w w' l ts : denotes strtod n v t -> parses n v t -> spaces w -> spaces w' -> items strtod n l ts -> parses_items n l ts -> parses_items n (v :: l) (t ++ w ++ ch#"," :: w' ++ ts).
Proof.
  intros Hden Ht Hw Hw' Hit Hts fuel p k d e l0 u Hp Hr Hd Hmax Hf.
  assert ((t ++ w ++ ch#"," :: w' ++ ts) ++ ch#"]" :: u = t ++ w ++ ch#"," :: w' ++ ts ++ ch#"]" :: u) as Ea by (rewrite <- !app_assoc; cbn; by rewrite <- !app_assoc). rewrite Ea in Hr.
  destruct (item_char n v t (w ++ ch#"," :: w' ++ ts) Hden) as (c & t' & Ec & Hc & Etok & Hval). assert (cur (t ++ w ++ ch#"," :: w' ++ ts) = c) as -> by (by rewrite Ec).
  destruct (items_head _ _ _ Hit) as (c2 & t2 & Ets & Hc2 & Hval2).
  pose proof (rest_bounds _ _ Hr) as [Hk Hb]. rewrite !zlen_app, zlen_cons in Hb. pose proof (zlen_nonneg t). pose proof (zlen_nonneg w). pose proof (zlen_nonneg w'). pose proof (zlen_nonneg (w' ++ ts ++ ch#"]" :: u)).
  destruct fuel as [|fuel]; [unfold fuel_ok in Hf; lia|]. rewrite list_step by (by apply value_not_close). rewrite Etok.
  destruct (Ht fuel p k d e _ Hp Hr (follows_comma w _ Hw) Hd Hmax) as (q & -> & Hq); [unfold fuel_ok in *; lia|]. obind. apply tail_app in Hr.
  assert (1 <= zlen t) by (destruct (denotes_head _ _ _ Hden) as (? & ? & -> & _); rewrite zlen_cons; pose proof (zlen_nonneg x0); lia).
  pose proof Hr as Hr1. rewrite Ets in Hr1. cbn [app] in Hr1.
  destruct (after_comma T_ARRAY_END 1 w w' q (k + zlen t - 1) d e c2 (t2 ++ ch#"]" :: u) Hq) as (q2 & -> & Hq2); [by replace (k + zlen t - 1 + 1) with (k + zlen t) by lia|done|done|done|by apply value_not_close|]. obind.
  pose proof (tail_app _ _ _ Hr) as Hr2. apply tail_cons, tail_app in Hr2. replace (k + zlen t - 1 + 1 + zlen w + 1 + zlen w') with (k + zlen t + zlen w + 1 + zlen w') in Hq2 by lia.
  destruct (Hts fuel q2 _ d e (Append v l0) u Hq2 Hr2 Hd Hmax) as (q3 & Eq3 & Hq3); [unfold fuel_ok in *; lia|]. assert (cur ts = c2) as Ecur by (by rewrite Ets). rewrite Ecur in Eq3. rewrite Eq3.
  exists q3. unfold Append. rewrite <- app_assoc. split; [done|]. replace (k + zlen (t ++ w ++ ch#"," :: w' ++ ts)) with (k + zlen t + zlen w + 1 + zlen w' + zlen ts); [done|]. rewrite !zlen_app, zlen_cons, zlen_app. lia.
Qed.
Lemma entries_one_parses n key v et w : parses_entry n key v et -> spaces w -> 1 <= zlen et -> parses_entries n [(key, v)] (et ++ w).
Proof.
  intros He Hw H1 fuel p k d e m0 u Hp Hr Hd Hmax Hf. rewrite <- app_assoc in Hr. pose proof (rest_bounds _ _ Hr) as [Hk Hb]. rewrite !zlen_app, zlen_cons in Hb. pose proof (zlen_nonneg w). pose proof (zlen_nonneg u).
  destruct fuel as [|fuel]; [unfold fuel_ok in Hf; lia|]. rewrite dictionary_step by done.
  destruct (He fuel p k d e _ Hp Hr (follows_brace w u Hw) Hd Hmax) as (q1 & tok & q2 & q3 & E1 & E2 & E3 & Hq3); [unfold fuel_ok in *; lia|]. rewrite E1. obind. rewrite E2. obind. rewrite E3. obind. apply tail_app in Hr.
  destruct (after_close T_OBJECT_END 0 w q3 (k + zlen et - 1) d e ch#"}" u Hq3) as (q4 & -> & Hq4); [by replace (k + zlen et - 1 + 1) with (k + zlen et) by lia|done|by split|done|done|]. obind.
  rewrite (loop_end_dictionary fuel _ _ _ _ _ Hq4) by (unfold fuel_ok in Hf; lia). exists q4. split; [done|]. rewrite zlen_app. by replace (k + (zlen et + zlen w)) with (k + zlen et - 1 + 1 + zlen w) by lia.
Qed.
Lemma entries_more_parses n key v et w w' es ts : parses_entry n key v et -> 1 <= zlen et -> spaces w -> spaces w' -> entries strtod n es ts -> parses_entries n es ts -> parses_entries n ((key, v) :: es) (et ++ w ++ ch#"," :: w' ++ ts).
Proof.
  intros He H1 Hw Hw' Hes Hts fuel p k d e m0 u Hp Hr Hd Hmax Hf.
  assert ((et ++ w ++ ch#"," :: w' ++ ts) ++ ch#"}" :: u = et ++ w ++ ch#"," :: w' ++ ts ++ ch#"}" :: u) as Ea by (rewrite <- !app_assoc; cbn; by rewrite <- !app_assoc). rewrite Ea in Hr.
  destruct (entries_head _ _ _ Hes) as (t2 & Ets). pose proof (rest_bounds _ _ Hr) as [Hk Hb]. rewrite !zlen_app, zlen_cons in Hb. pose proof (zlen_nonneg w). pose proof (zlen_nonneg w'). pose proof (zlen_nonneg (w' ++ ts ++ ch#"}" :: u)).
  destruct fuel as [|fuel]; [unfold fuel_ok in Hf; lia|]. rewrite dictionary_step by done.
  destruct (He fuel p k d e _ Hp Hr (follows_comma w _ Hw) Hd Hmax) as (q1 & tok & q2 & q3 & E1 & E2 & E3 & Hq3); [unfold fuel_ok in *; lia|]. rewrite E1. obind. rewrite E2. obind. rewrite E3. obind. apply tail_app in Hr.
  pose proof Hr as Hr1. rewrite Ets in Hr1. cbn [app] in Hr1.
  destruct (after_comma T_OBJECT_END 0 w w' q3 (k + zlen et - 1) d e quote (t2 ++ ch#"}" :: u) Hq3) as (q4 & -> & Hq4); [by replace (k + zlen et - 1 + 1) with (k + zlen et) by lia|done|done|by split|done|]. obind.
  pose proof (tail_app _ _ _ Hr) as Hr2. apply tail_cons, tail_app in Hr2. replace (k + zlen et - 1 + 1 + zlen w + 1 + zlen w') with (k + zlen et + zlen w + 1 + zlen w') in Hq4 by lia.
  destruct (Hts fuel q4 _ d e (SetWithoutPathExpansion key v m0) u Hq4 Hr2 Hd Hmax) as (q5 & Eq5 & Hq5); [unfold fuel_ok in *; lia|]. change (token_of quote) with T_STRING. rewrite Eq5.
  exists q5. split; [done|]. replace (k + zlen (et ++ w ++ ch#"," :: w' ++ ts)) with (k + zlen et + zlen w + 1 + zlen w' + zlen ts); [done|]. rewrite !zlen_app, zlen_cons, zlen_app. lia.
Qed.
Lemma entry_len n key v et : entry strtod n key v et -> 1 <= zlen et.
Proof. intros [n' k' v' kt w w' t _ _ _ _]. rewrite zlen_cons. pose proof (zlen_nonneg (kt ++ quote :: w ++ ch#":" :: w' ++ t)). lia. Qed.

Theorem grammar_parses :
  (forall n v t, denotes strtod n v t -> parses n v t) /\ (forall n l ts, items strtod n l ts -> parses_items n l ts) /\
  (forall n es ts, entries strtod n es ts -> parses_entries n es ts) /\ (forall n k v et, entry strtod n k v et -> parses_entry n k v et).
Proof.
  apply (grammar_ind strtod (fun n v t _ => parses n v t) (fun n l ts _ => parses_items n l ts) (fun n es ts _ => parses_entries n es ts) (fun n k v et _ => parses_entry n k v et)).
  - intros n. by apply (literal_ok _ _ T_NULL).
  - intros n. by apply (literal_ok _ _ T_BOOL_TRUE).
  - intros n. by apply (literal_ok _ _ T_BOOL_FALSE).
  - intros. by apply number_parses.
  - intros. by apply string_parses.
  - intros n w Hw fuel p k d e u Hp Hr Hu Hd Hmax Hf. apply (parse_list w [] [] n p k d e u ch#"]" u fuel); try done.
    intros f q Hq Hrq Hfq. exists q. change (zlen (@nil Z)) with 0. rewrite Z.add_0_r. split; [|done]. apply (loop_end_list f [] q _ _ _ Hq). pose proof (rest_lt _ _ _ Hrq). unfold fuel_ok in Hfq. lia.
  - intros n w l t Hw Hit Ht fuel p k d e u Hp Hr Hu Hd Hmax Hf. destruct (items_head _ _ _ Hit) as (c & t' & Et & Hc & Hv).
    apply (parse_list w t l n p k d e u c (t' ++ ch#"]" :: u) fuel); try done; [by rewrite Et|].
    intros f q Hq Hrq Hfq. destruct (Ht f q _ (d + 1) e [] u Hq Hrq) as (r & Er & Hr'); [lia|lia|done|]. exists r. assert (cur t = c) as Ec by (by rewrite Et). by rewrite Ec in Er.
  - intros n w Hw fuel p k d e u Hp Hr Hu Hd Hmax Hf. apply (parse_dictionary w [] [] n p k d e u ch#"}" u fuel); try done.
    intros f q Hq Hrq Hfq. exists q. change (zlen (@nil Z)) with 0. rewrite Z.add_0_r. split; [|done]. apply (loop_end_dictionary f [] q _ _ _ Hq). pose proof (rest_lt _ _ _ Hrq). unfold fuel_ok in Hfq. lia.
  - intros n w es t Hw Hes Ht fuel p k d e u Hp Hr Hu Hd Hmax Hf. destruct (entries_head _ _ _ Hes) as (t' & Et).
    apply (parse_dictionary w t (set_entries es []) n p k d e u quote (t' ++ ch#"}" :: u) fuel); try done; [by rewrite Et|].
    intros f q Hq Hrq Hfq. destruct (Ht f q _ (d + 1) e [] u Hq Hrq) as (r & Er & Hr'); [lia|lia|done|]. by exists r.
  - intros n v t w Hden Ht Hw. by apply items_one_parses.
  - intros. by apply items_more_parses.
  - intros n k v e w Hen He Hw. apply entries_one_parses; [done|done|by eapply entry_len].
  - intros n k v e w w' es ts Hen He Hw Hw' Hes Hts. apply entries_more_parses; try done. by eapply entry_len.
  - intros. by apply entry_parses.
Qed.

(** ** The whole text *)
Lemma cur_not_bom n v t w1 u : denotes strtod n v t -> spaces w1 -> cur (w1 ++ t ++ u) <> 0xEF.
Proof.
  intros H Hw. destruct w1 as [|c w1]; cbn [app].
  - destruct (denotes_head _ _ _ H) as (c & t' & -> & _ & Hv). cbn. intros ->. exact Hv.
  - unfold spaces in Hw. cbn [forallb] in Hw. apply andb_true_iff in Hw as [Hc _]. unfold is_space in Hc. cbn. lia.
Qed.
Lemma SkipBOM_none p k d e u : at_ p k d e -> rest_at k u -> cur u <> 0xEF -> SkipBOM dcheck_on mem E p = Ret p.
Proof.
  intros Hp Hr Hc. unfold SkipBOM. destruct (CanConsume E 3 p); [|done]. change (char_at mem (pos_ p)) with (peek mem p).
  rewrite (peek_cur _ _ _ _ _ Hp Hr). obind. by destruct (Z.eqb_spec (cur u) 0xEF).
Qed.
(** The last character of a value begins a token. *)
Lemma digits_last ds : digits ds -> exists ds' c, ds = ds' ++ [c] /\ IsAsciiDigit c = true.
Proof. intros [Hne Hd]. destruct (exists_last Hne) as (ds' & c & ->). exists ds', c. split; [done|]. rewrite forallb_app in Hd. cbn in Hd. by destruct (IsAsciiDigit c), (forallb _ ds'). Qed.
Lemma number_last f : number_ok f -> exists t c, number_text f = t ++ [c] /\ IsAsciiDigit c = true.
Proof.
  intros (Hw & _ & Hf & Hx). unfold number_text. destruct (exponent f) as [[[m s] ds]|]; cbn [exponent_text].
  - destruct Hx as (_ & _ & Hd). destruct (digits_last ds Hd) as (ds' & c & -> & Hc). eexists ((if minus f then _ else _) ++ whole f ++ fraction_text (fraction f) ++ m :: s ++ ds'), c. split; [|done].
    rewrite <- !app_assoc. cbn. by rewrite <- app_assoc.
  - rewrite app_nil_r. destruct (fraction f) as [fd|]; cbn [fraction_text].
    + destruct (digits_last fd Hf) as (ds' & c & -> & Hc). eexists ((if minus f then _ else _) ++ whole f ++ ch#"." :: ds'), c. split; [|done]. by rewrite <- !app_assoc.
    + rewrite app_nil_r. destruct (digits_last _ Hw) as (ds' & c & -> & Hc). eexists ((if minus f then _ else _) ++ ds'), c. split; [|done]. by rewrite <- app_assoc.
Qed.
Lemma denotes_last n v t : denotes strtod n v t -> exists t' c, t = t' ++ [c] /\ token_char c.
Proof.
  intros H. assert (forall c, token_char c -> forall t', exists t'' c', t' ++ [c] = t'' ++ [c'] /\ token_char c') as Hx by (intros c Hc t'; by exists t', c).
  destruct H as [n|n|n|n f v Hf _|n t s _|n w _|n w l t _ _|n w _|n w es t _ _].
  - apply (Hx ch#"l") with (t' := str#"nul"). split; [done|lia].
  - apply (Hx ch#"e") with (t' := str#"tru"). split; [done|lia].
  - apply (Hx ch#"e") with (t' := str#"fals"). split; [done|lia].
  - destruct (number_last f Hf) as (t & c & -> & Hc). apply Hx, number_char. by right.
  - apply (Hx quote) with (t' := quote :: t). by split.
  - apply (Hx ch#"]") with (t' := ch#"[" :: w). by split.
  - rewrite app_assoc. apply (Hx ch#"]") with (t' := ch#"[" :: w ++ t). by split.
  - apply (Hx ch#"}") with (t' := ch#"{" :: w). by split.
  - rewrite app_assoc. apply (Hx ch#"}") with (t' := ch#"{" :: w ++ t). by split.
Qed.
Lemma token_not_end c : token_of c <> T_END_OF_INPUT.
Proof. unfold token_of. repeat match goal with |- context [if ?b then _ else _] => destruct b end; done. Qed.
Lemma no_data_after p k d e t c w : at_ p (k + zlen t) d e -> rest_at k ((t ++ [c]) ++ w) -> token_char c -> spaces w -> exists q, DataAfterRoot dcheck_on mem E p = Ret (false, q) /\ error_code_ q = e.
Proof.
  intros Hp Hr [Hc1 Hc2] Hw. rewrite <- app_assoc in Hr. apply tail_app in Hr. cbn [app] in Hr. unfold DataAfterRoot.
  destruct (token_ok [] p _ d e c w Hp Hr eq_refl Hc1 Hc2) as (q & -> & Hq). obind. change (zlen (@nil Z)) with 0 in Hq. rewrite Z.add_0_r in Hq.
  rewrite bool_decide_false by apply token_not_end. rewrite (can _ _ _ _ _ _ Hq Hr). cbn [negb]. rewrite (step_ok _ _ _ _ _ _ Hq Hr). obind.
  destruct (token_end w _ _ d e (at_next _ _ _ _ Hq) (tail_cons _ _ _ Hr) Hw) as (r & -> & Hr'). obind. rewrite bool_decide_true by done. exists r. split; [done|]. apply Hr'.
Qed.
Lemma root_copy n v t k u : denotes strtod n v t -> rest_at k (t ++ u) -> match v with VString _ => DeepCopy dcheck_on v = Ret v | _ => True end.
Proof.
  intros H Hr. destruct H as [n|n|n|n f v _ Hv|n t s Ht|n w _|n w l t _ _|n w _|n w es t _ _]; try done.
  - unfold number_value in Hv. destruct (StringToInt _ _) as [[] z]; [by injection Hv as <-|]. destruct (StringToDouble _ _) as [[] x]; [|done]. destruct (IsFinite x); [|done]. by injection Hv as <-.
  - cbn [DeepCopy]. unfold StringValue. cbn [app] in Hr. rewrite <- app_assoc in Hr. rewrite DCHECK_good; [done|]. by eapply string_good.
Qed.
Lemma Parse_block_text n v t w1 w2 : input = w1 ++ t ++ w2 -> spaces w1 -> spaces w2 -> denotes strtod n v t -> Z.of_nat n < kStackMaxDepth ->
  exists p, Parse_block dcheck_on strtod options_ mem E = Ret (Some v, p) /\ error_code_ p = JSON_NO_ERROR.
Proof.
  intros Ei Hw1 Hw2 H Hn. assert (rest_at 0 (w1 ++ t ++ w2)) as Hr by (exists []; by rewrite <- Ei). unfold Parse_block. set (p0 := Parser 0 0 0 1 0 JSON_NO_ERROR 0 0).
  assert (at_ p0 0 0 JSON_NO_ERROR) as Hp by done. rewrite (SkipBOM_none p0 0 0 _ _ Hp Hr) by (by eapply cur_not_bom). obind. unfold ParseNextToken.
  destruct (item_char n v t w2 H) as (c & t' & Et & [Hc1 Hc2] & Etok & _). pose proof Hr as Hr1. rewrite Et in Hr1.
  destruct (token_ok w1 p0 0 0 _ c t' Hp Hr1 Hw1 Hc1 Hc2) as (p1 & -> & Hp1). obind. rewrite Etok. pose proof (tail_app _ _ _ Hr) as Hr2.
  destruct (proj1 grammar_parses n v t H (parse_fuel E) p1 _ 0 _ w2 Hp1 Hr2) as (p2 & -> & Hp2); [exists w2, []; rewrite app_nil_r; auto|done|lia| |].
  { unfold fuel_ok, parse_fuel. pose proof (zlen_nonneg w1). pose proof (rest_bounds _ _ Hr2) as [_ Hb]. pose proof (zlen_nonneg (t ++ w2)). lia. }
  obind. pose proof (root_copy n v t _ w2 H Hr2) as Hcopy. destruct (denotes_last n v t H) as (t1 & z & -> & Hz).
  replace (0 + zlen w1 + zlen (t1 ++ [z]) - 1) with (0 + zlen w1 + zlen t1) in Hp2 by (rewrite zlen_app; change (zlen [z]) with 1; lia).
  destruct (no_data_after p2 _ 0 _ t1 z w2 Hp2 Hr2 Hz Hw2) as (p3 & -> & He). obind. exists p3. split; [|done]. destruct v; try done. rewrite Hcopy. by destruct (_ =? 0).
Qed.
End Completeness.

Lemma Parse_text dcheck_on strtod options_ n v t w1 w2 : denotes strtod n v t -> Z.of_nat n < kStackMaxDepth -> spaces w1 -> spaces w2 -> zlen (w1 ++ t ++ w2) < 2 ^ 31 ->
  exists p, Parse dcheck_on strtod options_ (w1 ++ t ++ w2) [0] = Ret (Some v, p) /\ error_code_ p = JSON_NO_ERROR.
Proof.
  intros H Hn Hw1 Hw2 Hl. unfold Parse. assert ((if Z.land options_ JSON_DETACHABLE_CHILDREN =? 0 then [0] else [0]) = [0]) as -> by (by destruct (_ =? 0)).
  by apply (Parse_block_text dcheck_on strtod options_ (w1 ++ t ++ w2) Hl n v t w1 w2).
Qed.

(** What the grammar leaves out: a code point that is not a character is refused, but its
    escape is taken, and stops a debug build; a number without a finite double gives neither
    a value nor an error. *)
Example noncharacter_refused : exists p, Parse false no_double 0 ([quote] ++ utf8 0xffff ++ [quote]) [] = Ret (None, p) /\ error_code_ p = JSON_UNSUPPORTED_ENCODING.
Proof. eexists. vm_compute. split; reflexivity. Qed.
Example noncharacter_escape : (exists p, Parse false no_double 0 ([quote] ++ str#"\uffff" ++ [quote]) [] = Ret (Some (VString (utf8 0xffff)), p)) /\
  Parse true no_double 0 ([quote] ++ str#"\uffff" ++ [quote]) [] = Fault AssertFail.
Proof. split; [eexists|]; vm_compute; reflexivity. Qed.
Example no_double_no_error : exists p, Parse true no_double 0 str#"1e400" [] = Ret (None, p) /\ error_code_ p = JSON_NO_ERROR.
Proof. eexists. vm_compute. split; reflexivity. Qed.
