(* ===== verification/JsonRoundtrip.v ===== *)
(** Writing and reading back: what [json_writer.cc] writes of a value is a text of the
    grammar that denotes the value, so the parser gives it back. *)
From Stdlib Require Import ZArith Lia Bool Ascii String SpecFloat.
From stdpp Require Import base list numbers strings.
From S2P Require Import Prelude Numbers Utf8 Utf8Proofs Values ValuesProofs JsonWriter JsonParser JsonSafety JsonGrammar JsonComplete.

Open Scope Z_scope.

(** * Strings *)
(** The characters a JSON text carries: the parser drops the NUL and refuses what is not
    a character. *)
Definition plain (c : Z) : Prop := character c /\ c <> 0.
Definition written_string (s : bytes) : Prop := exists cs, Forall plain cs /\ s = text utf8 cs /\ zlen s < 2 ^ 31.

Lemma escape_loop_text cs : Forall valid cs -> forall fuel p did dest, (length (text utf8 cs) <= fuel)%nat ->
  EscapeJSONString_loop ReadUnicodeCharacter8 fuel (p ++ text utf8 cs) (zlen (p ++ text utf8 cs)) (zlen p) did dest = Ret (did, dest ++ concat (map escape_code_point cs)).
Proof.
  induction 1 as [|c cs Hc Hcs IH]; intros fuel p did dest Hf.
  - change (text utf8 []) with (@nil Z). cbn [map concat]. rewrite !app_nil_r. destruct fuel; cbn [EscapeJSONString_loop]; destruct (Z.ltb_spec (zlen p) (zlen p)); done || lia.
  - change (text utf8 (c :: cs)) with (utf8 c ++ text utf8 cs) in *. destruct (enc_cons (enc := utf8) c Hc) as (u & r & Eu).
    assert (0 < zlen (utf8 c)) by (rewrite Eu, zlen_cons; unfold zlen; lia). rewrite length_app in Hf. unfold zlen in *. destruct fuel as [|fuel]; [lia|]. cbn [EscapeJSONString_loop].
    destruct (Z.ltb_spec (Z.of_nat (length p)) (Z.of_nat (length (p ++ utf8 c ++ text utf8 cs)))) as [_|Hn]; [|rewrite !length_app in Hn; lia].
    change (Z.of_nat (length ?l)) with (zlen l). rewrite read_encode by done. obind. rewrite orb_false_r.
    replace (zlen p + zlen (utf8 c) - 1 + 1) with (zlen (p ++ utf8 c)) by (rewrite zlen_app; lia). rewrite (app_assoc p).
    rewrite IH by lia. cbn [map concat]. by rewrite <- app_assoc.
Qed.
Lemma EscapeJSONString_text cs : Forall valid cs -> zlen (text utf8 cs) < 2 ^ 31 ->
  EscapeJSONString (text utf8 cs) true = Ret (true, quote :: concat (map escape_code_point cs) ++ [quote]).
Proof.
  intros Hcs Hl. pose proof (zlen_nonneg (text utf8 cs)). unfold EscapeJSONString, EscapeJSONStringImpl, guard_or.
  destruct (Z.leb_spec (zlen (text utf8 cs)) (2 ^ 31 - 1)); [|lia]. rewrite swrap_small by (cbn in *; lia).
  etransitivity; [apply (f_equal (fun o => '(did_replacement, dest) ← o; Ret (negb did_replacement, [34] ++ dest ++ [34])) (escape_loop_text cs Hcs (length (text utf8 cs)) [] false [] ltac:(lia)))|]. done.
Qed.

(** One escaped code point, as a part of a string of the grammar. *)
Definition hex4b (h : bytes) (u : Z) : bool := (length h =? 4)%nat && forallb (is_digit 16) h && bool_decide (HexStringToInt h 0 = (true, u)).
Lemma hex4b_ok h u : hex4b h u = true -> is_hex4 h u.
Proof. unfold hex4b. intros [[Hl%Nat.eqb_eq Hd]%andb_true_iff Hv%bool_decide_eq_true]%andb_true_iff. by repeat split. Qed.
Definition u04X_digits (n : Z) : bytes := map (fun k => znth kHexChars (n / 16 ^ k mod 16)) [3; 2; 1; 0].
Lemma u04X_hex4 c : 0 <= c < 128 -> is_hex4 (u04X_digits c) c.
Proof.
  intros Hc. apply hex4b_ok. assert (forallb (fun n => hex4b (u04X_digits (Z.of_nat n)) (Z.of_nat n)) (seq 0 128) = true) as H by (vm_compute; reflexivity).
  rewrite forallb_forall in H. specialize (H (Z.to_nat c)). rewrite Z2Nat.id in H by lia. apply H, in_seq. lia.
Qed.
Lemma utf8_small c : 0 <= c < 128 -> utf8 c = [c].
Proof. intros. unfold utf8. by destruct (Z.leb_spec c 0x7f); [|lia]. Qed.
Lemma escape_one c t s : plain c -> string_text t s -> string_text (escape_code_point c ++ t) (utf8 c ++ s).
Proof.
  intros [Hc H0] Ht. pose proof Hc as [Hv _]. unfold escape_code_point, EscapeSpecialCodePoint.
  assert (forall e x, escape_of x = Some e -> 0 <= e < 128 -> string_text ([backslash; x] ++ t) (utf8 e ++ s)) as He.
  { intros e x Hx Hr. rewrite utf8_small by done. by apply text_escape. }
  assert (forall n, plain n -> 0 <= n < 128 -> string_text (u04X n ++ t) (utf8 n ++ s)) as Hu.
  { intros n [Hn Hn0] Hr. change (u04X n ++ t) with ([backslash; ch#"u"] ++ u04X_digits n ++ t).
    assert (utf8 n = unit_text n) as -> by (unfold unit_text; by rewrite (proj2 (Z.eqb_neq n 0))). apply text_unit; [by apply u04X_hex4|done..]. }
  destruct (Z.eqb_spec c 8) as [-> |]; [by apply (He 8 ch#"b")|]. destruct (Z.eqb_spec c 12) as [-> |]; [by apply (He 12 ch#"f")|].
  destruct (Z.eqb_spec c 10) as [-> |]; [by apply (He 10 ch#"n")|]. destruct (Z.eqb_spec c 13) as [-> |]; [by apply (He 13 ch#"r")|].
  destruct (Z.eqb_spec c 9) as [-> |]; [by apply (He 9 ch#"t")|]. destruct (Z.eqb_spec c ch#"\") as [-> |Hb]; [by apply (He ch#"\" ch#"\")|].
  destruct (Z.eqb_spec c 34) as [-> |Hq]; [by apply (He 34 34)|]. destruct (Z.eqb_spec c ch#"<") as [-> |]; [by apply (Hu ch#"<")|].
  unfold valid in Hv. destruct (Z.ltb_spec c 32); [apply Hu; [by split|lia]|]. rewrite write_utf8 by (by apply Hc). by apply text_plain.
Qed.
Lemma escaped_text cs : Forall plain cs -> string_text (concat (map escape_code_point cs)) (text utf8 cs).
Proof. induction 1 as [|c cs Hc _ IH]; [constructor|]. cbn [map concat]. change (text utf8 (c :: cs)) with (utf8 c ++ text utf8 cs). by apply escape_one. Qed.
Lemma EscapeJSONString_written s : written_string s -> exists ok t, EscapeJSONString s true = Ret (ok, quote :: t ++ [quote]) /\ string_text t s.
Proof.
  intros (cs & Hcs & -> & Hl). eexists true, _. split; [apply EscapeJSONString_text; [|done]|by apply escaped_text].
  eapply Forall_impl; [exact Hcs|]. by intros c [[? _] _].
Qed.

(** * Numbers *)
Lemma ascii_digit c : is_digit 10 c = IsAsciiDigit c.
Proof.
  unfold is_digit, CharToDigit, IsAsciiDigit. change (10 <=? 10) with true. cbn iota.
  destruct (Z.leb_spec ch#"0" c), (Z.leb_spec c ch#"9"), (Z.ltb_spec c (ch#"0" + 10)); cbn; try done; lia.
Qed.
Lemma IntToString_text dcheck_on strtod n v : - 2 ^ 31 <= v < 2 ^ 31 -> exists t, IntToString dcheck_on v = Ret t /\ denotes strtod n (VInteger v) t.
Proof.
  intros Hv. assert (in_range (Traits true 32 10) v = true) as Hr by (unfold in_range, t_min, t_max; cbn in *; lia).
  destruct (IntToStringT_text dcheck_on 32 true v (or_introl eq_refl) Hr) as (ds & E & Hd & Hne & _ & Hcan).
  destruct (IntToString_roundtrip dcheck_on 32 true v 0 (or_introl eq_refl) Hr) as (t & E2 & Hread). rewrite E in E2. injection E2 as <-.
  eexists. split; [exact E|]. set (f := Number (v <? 0) ds None None). assert ((if v <? 0 then [ch#"-"] else []) ++ ds = number_text f) as Et by (unfold number_text; cbn; by rewrite app_nil_r).
  rewrite Et in *. apply denotes_number.
  - split; [split; [done|]|split; [|done]].
    + rewrite <- Hd. cbn. clear. induction ds as [|c ds IH]; [done|]. cbn. by rewrite IH, ascii_digit.
    + unfold canonical in Hcan. cbn. destruct (_ =? 0); [by subst|]. destruct Hcan as (d & ds' & -> & ?). by destruct ds'.
  - unfold number_value. change (StringToInt ?s 0) with (Invoke (Traits true 32 10) s 0). by rewrite Hread.
Qed.

(** ** Doubles *)
(** The texts [g_fmt] gives for finite numbers: the digits before the point may be left
    out. *)
Definition g_text (s : bytes) (f : number_form) : Prop :=
  s = number_text f /\ forallb IsAsciiDigit (whole f) = true /\ no_leading_zero (whole f) /\
  match fraction f with Some ds => digits ds | None => whole f <> [] end /\ match exponent f with Some x => exponent_ok x | None => True end.
(** What [real_text] makes of one. *)
Definition real_form (f : number_form) : number_form :=
  Number (minus f) (match whole f with [] => [ch#"0"] | ds => ds end)
    (match fraction f, exponent f with None, None => Some [ch#"0"] | fr, _ => fr end) (exponent f).

Lemma contains_app c s t : contains c (s ++ t) = contains c s || contains c t.
Proof. apply existsb_app. Qed.
Lemma contains_digits c ds : forallb IsAsciiDigit ds = true -> IsAsciiDigit c = false -> contains c ds = false.
Proof.
  intros Hd Hc. induction ds as [|x ds IH]; [done|]. cbn [forallb contains existsb] in *. apply andb_true_iff in Hd as [Hx Hd].
  destruct (Z.eqb_spec c x) as [-> |]; [by rewrite Hx in Hc|]. by apply IH.
Qed.
Lemma contains_sign c (b : bool) : c <> ch#"-" -> contains c (if b then [ch#"-"] else []) = false.
Proof. intros H. destruct b; [|done]. unfold contains. cbn [existsb]. by destruct (Z.eqb_spec c ch#"-"). Qed.
Lemma contains_cons c x s : contains c (x :: s) = (c =? x) || contains c s.
Proof. done. Qed.
(** Whether a point or an exponent is there is whether one is in the text. *)
Lemma real_marks s f : g_text s f ->
  contains ch#"." s || contains ch#"e" s || contains ch#"E" s = match fraction f, exponent f with None, None => false | _, _ => true end.
Proof.
  intros (-> & Hw & _ & Hf & Hx). unfold number_text. rewrite !contains_app, !contains_sign, !(contains_digits _ (whole f)) by done. cbn [orb].
  destruct (fraction f) as [fd|]; cbn [fraction_text]; [by rewrite contains_cons|]. destruct (exponent f) as [[[m s] ds]|]; [|done]. cbn [exponent_text].
  destruct Hx as (Hm & _). change (contains ?c []) with false. cbn [orb]. rewrite !contains_cons. destruct Hm as [-> | ->]; cbn [Z.eqb Pos.eqb orb]; by rewrite ?orb_true_r.
Qed.
Lemma real_text_form g_fmt d f : g_text (g_fmt d) f -> real_text g_fmt d = number_text (real_form f).
Proof.
  intros H. pose proof (real_marks _ _ H) as Hm. destruct H as (Es & Hw & _ & Hf & _). unfold real_text, DoubleToString. cbn zeta.
  rewrite <- !negb_orb, Hm. set (real := if negb _ then _ else _).
  assert (real = number_text (Number (minus f) (whole f) (fraction (real_form f)) (exponent f))) as ->.
  { unfold real, real_form, number_text in *. cbn [fraction minus whole exponent]. rewrite Es. destruct (fraction f), (exponent f); cbn [negb]; try done.
    cbn [fraction_text exponent_text]. rewrite !app_nil_r. by rewrite <- app_assoc. }
  unfold number_text. cbn [fraction minus whole exponent real_form]. destruct (whole f) as [|c ds].
  - destruct (fraction f) as [fd|]; [|done]. cbn [fraction_text]. destruct (minus f); done.
  - cbn [forallb] in Hw. apply andb_true_iff in Hw as [Hc _]. assert ((c =? ch#".") = false) as Ec by (unfold IsAsciiDigit in Hc; lia).
    destruct (minus f); cbn [app]; rewrite Ec; [by rewrite andb_false_r|]. assert ((c =? ch#"-") = false) as -> by (unfold IsAsciiDigit in Hc; lia). cbn [andb]. by destruct (ds ++ _).
Qed.
Lemma real_form_ok s f : g_text s f -> number_ok (real_form f).
Proof.
  intros (_ & Hw & Hz & Hf & Hx). split; [|split; [|split; [|done]]]; cbn [real_form whole fraction].
  - destruct (whole f); by split.
  - by destruct (whole f).
  - destruct (fraction f); [done|]. by destruct (exponent f).
Qed.
(** A text with a point or an exponent is not an integer. *)
Lemma not_an_int f : number_ok f -> match fraction f, exponent f with None, None => False | _, _ => True end -> (StringToInt (number_text f) 0).1 = false.
Proof.
  intros (Hw & _ & Hf & Hx) Hm. set (n := NumberText [] (if minus f then [ch#"-"] else []) [] (whole f) (fraction_text (fraction f) ++ exponent_text (exponent f))).
  change (number_text f) with (nt_bytes n). unfold StringToInt. assert (exists c r, nt_rest n = c :: r /\ is_digit 10 c = false) as (c & r & Er & Hc).
  { cbn [n nt_rest]. destruct (fraction f); [by eexists _, _|]. destruct (exponent f) as [[[m s] ds]|]; [|done]. destruct Hx as ([-> | ->] & _); by eexists _, _. }
  rewrite Invoke_text; [|split; cbn; lia|].
  - cbn [is_signed negb]. rewrite andb_false_r. cbn [fst]. by rewrite Er, andb_false_r.
  - unfold nt_ok. rewrite Er. cbn -[is_digit]. rewrite Hc. destruct Hw as [Hne Hd]. rewrite (bool_decide_eq_false_2 (whole f = []) Hne). assert (forallb (is_digit 10) (whole f) = true) as ->.
    { rewrite <- Hd. clear. induction (whole f) as [|c ds IH]; [done|]. cbn. by rewrite IH, ascii_digit. }
    by destruct (minus f).
Qed.

Section Write.
Context (dcheck_on : bool) (g_fmt : double -> bytes) (strtod : bytes -> double * Z * bool) (options : Z).
(** A [double] the two conversions carry: [g_fmt] gives a text as it is documented, and
    [strtod] reads the number back from it, with the zeros put in. *)
Definition real_ok (d : double) : Prop :=
  IsFinite d = true /\ (exists f, g_text (g_fmt d) f) /\ strtod (real_text g_fmt d) = (d, zlen (real_text g_fmt d), false).
Lemma real_denotes n d : real_ok d -> denotes strtod n (VDouble d) (real_text g_fmt d).
Proof.
  intros (Hfin & (f & Hg) & Hs). rewrite (real_text_form g_fmt d f Hg) in *. pose proof (real_form_ok _ _ Hg) as Hok. apply denotes_number; [done|]. unfold number_value.
  assert ((StringToInt (number_text (real_form f)) 0).1 = false) as Hi by (apply not_an_int; [done|]; cbn; by destruct (fraction f), (exponent f)).
  destruct (StringToInt _ 0) as [[] z]; [done|]. unfold StringToDouble. rewrite Hs, Z.eqb_refl. destruct (number_head (real_form f) [] Hok) as (c & t & Et & Hc). rewrite app_nil_r in Et. rewrite Et.
  rewrite zlen_cons. pose proof (zlen_nonneg t). destruct (Z.eqb_spec (1 + zlen t) 0); [lia|]. assert (LocalIsWhitespace c = false) as ->; [|by rewrite Hfin].
  unfold LocalIsWhitespace. unfold IsAsciiDigit in Hc. destruct Hc as [[-> _]|[Hc _]]; [done|lia].
Qed.

(** * Values *)
(** What can be written: integers of 32 bits, no binary value, and strings and numbers
    as above. *)
Fixpoint writable (v : Value) : Prop :=
  match v with
  | VNull | VBoolean _ => True
  | VInteger n => - 2 ^ 31 <= n < 2 ^ 31
  | VDouble d => real_ok d
  | VString s => written_string s
  | VBinary _ => False
  | VDictionary m => sorted_keys m = true /\ (fix all m := match m with [] => True | (k, x) :: m => (written_string k /\ writable x) /\ all m end) m
  | VList l => (fix all l := match l with [] => True | x :: l => writable x /\ all l end) l
  end.
Lemma writable_list l : writable (VList l) <-> Forall writable l.
Proof. cbn [writable]. induction l as [|x l IH]; [by split|]. rewrite Forall_cons, IH. done. Qed.
Lemma writable_dictionary m : writable (VDictionary m) <-> sorted_keys m = true /\ Forall (fun e => written_string e.1 /\ writable e.2) m.
Proof. cbn [writable]. assert (forall P Q R : Prop, (Q <-> R) -> P /\ Q <-> P /\ R) as H by tauto. apply H. clear H. induction m as [|[k x] m IH]; [by split|]. rewrite Forall_cons, IH. done. Qed.
Lemma writable_not_omitted v : writable v -> omitted options v = false.
Proof. destruct v; cbn; try (intros; apply andb_false_r). done. Qed.

Abbreviation write := (BuildJSONString dcheck_on g_fmt options).
Abbreviation pretty := (pretty options).
(** The loops over what is in a structure, with the writing of an element apart. *)
Definition write_list (f : Value -> outcome (bool * bytes)) :=
  fix go (l : list Value) (first_value_has_been_output result : bool) (body : bytes) : outcome (bool * bytes) :=
    match l with
    | [] => Ret (result, body)
    | value :: l =>
        if omitted options value then go l first_value_has_been_output result body
        else
          let separator := if first_value_has_been_output then [ch#","] ++ pretty [32] else [] in
          '(ok, s) ← f value;
          go l true (result && ok) (body ++ separator ++ s)
    end.
Definition write_dictionary (f : Value -> outcome (bool * bytes)) (depth : Z) :=
  fix go (m : dict) (first_value_has_been_output result : bool) (body : bytes) : outcome (bool * bytes) :=
    match m with
    | [] => Ret (result, body)
    | (key, value) :: m =>
        if omitted options value then go m first_value_has_been_output result body
        else
          let separator := if first_value_has_been_output then [ch#","] ++ pretty kPrettyPrintLineEnding else [] in
          '(_, k) ← EscapeJSONString key true;
          '(ok, s) ← f value;
          go m true (result && ok) (body ++ separator ++ pretty (IndentLine (depth + 1)) ++ k ++ [ch#":"] ++ pretty [32] ++ s)
    end.
Lemma write_list_eq l depth : write (VList l) depth =
  '(result, body) ← write_list (fun v => write v depth) l false true []; Ret (result, [ch#"["] ++ pretty [32] ++ body ++ pretty [32] ++ [ch#"]"]).
Proof. done. Qed.
Lemma write_dictionary_eq m depth : write (VDictionary m) depth =
  '(result, body) ← write_dictionary (fun v => write v (depth + 1)) depth m false true [];
  Ret (result, [ch#"{"] ++ pretty kPrettyPrintLineEnding ++ body ++ pretty (kPrettyPrintLineEnding ++ IndentLine depth) ++ [ch#"}"]).
Proof. done. Qed.

Lemma spaces_app a b : spaces a -> spaces b -> spaces (a ++ b).
Proof. unfold spaces. intros. rewrite forallb_app. by apply andb_true_iff. Qed.
Lemma spaces_pretty w : spaces w -> spaces (pretty w).
Proof. intros. unfold JsonWriter.pretty. by destruct (pretty_print_ options). Qed.
Lemma spaces_indent depth : spaces (IndentLine depth).
Proof. unfold spaces, IndentLine. by induction (Z.to_nat (depth * 3)). Qed.

(** What is written of a value. *)
Definition written (n : nat) (v : Value) (o : outcome (bool * bytes)) : Prop := exists t, o = Ret (true, t) /\ denotes strtod n v t.
Lemma write_list_items n f l : forall v b body, Forall (fun v => omitted options v = false /\ written n v (f v)) (v :: l) ->
  exists ts, write_list f (v :: l) b true body = Ret (true, body ++ (if b then [ch#","] ++ pretty [32] else []) ++ ts) /\ forall w, spaces w -> items strtod n (v :: l) (ts ++ w).
Proof.
  induction l as [|v' l IH]; intros v b body H; apply Forall_cons_1 in H as [[Ho (t & Et & Hd)] H].
  - exists t. split; [cbn [write_list]; rewrite Ho, Et; done|]. intros w Hw. by apply items_one.
  - destruct (IH v' true (body ++ (if b then [ch#","] ++ pretty [32] else []) ++ t) H) as (ts & E & Hts). exists (t ++ [ch#","] ++ pretty [32] ++ ts). split.
    + assert (write_list f (v :: v' :: l) b true body = write_list f (v' :: l) true true (body ++ (if b then [ch#","] ++ pretty [32] else []) ++ t)) as -> by (cbn [write_list]; rewrite Ho, Et; done).
      rewrite E. by rewrite <- !app_assoc.
    + intros w Hw. rewrite <- !app_assoc. apply (items_more strtod n v t [] (pretty [32]) (v' :: l) (ts ++ w)); [done|done|by apply spaces_pretty|by apply Hts].
Qed.
Lemma write_dictionary_entries n f depth m : forall e b body, Forall (fun e => written_string e.1 /\ omitted options e.2 = false /\ written n e.2 (f e.2)) (e :: m) ->
  exists ts, write_dictionary f depth (e :: m) b true body = Ret (true, body ++ (if b then [ch#","] ++ pretty kPrettyPrintLineEnding else []) ++ pretty (IndentLine (depth + 1)) ++ ts) /\
    forall w, spaces w -> entries strtod n (e :: m) (ts ++ w).
Proof.
  assert (forall k v b body m, written_string k -> omitted options v = false -> written n v (f v) -> exists et, entry strtod n k v et /\
    write_dictionary f depth ((k, v) :: m) b true body = write_dictionary f depth m true true (body ++ (if b then [ch#","] ++ pretty kPrettyPrintLineEnding else []) ++ pretty (IndentLine (depth + 1)) ++ et)) as Hstep.
  { intros k v b body m' Hk Ho (t & Et & Hd). destruct (EscapeJSONString_written k Hk) as (ok & kt & Ek & Hkt). exists (quote :: kt ++ quote :: [] ++ ch#":" :: pretty [32] ++ t).
    split; [apply entry_intro; try done; by apply spaces_pretty|]. cbn [write_dictionary]. rewrite Ho, Ek. obind. rewrite Et. obind. cbn [andb]. do 4 f_equal. cbn [app]. by rewrite <- app_assoc. }
  induction m as [|e' m IH]; intros [k v] b body H; apply Forall_cons_1 in H as [(Hk & Ho & Hv) H]; cbn [fst snd] in *.
  - destruct (Hstep k v b body [] Hk Ho Hv) as (et & Het & E). exists et. split; [exact E|]. intros w Hw. by apply entries_one.
  - destruct (Hstep k v b body (e' :: m) Hk Ho Hv) as (et & Het & E). destruct (IH e' true (body ++ (if b then [ch#","] ++ pretty kPrettyPrintLineEnding else []) ++ pretty (IndentLine (depth + 1)) ++ et) H) as (ts & E2 & Hts). rewrite E, E2.
    exists (et ++ [ch#","] ++ pretty kPrettyPrintLineEnding ++ pretty (IndentLine (depth + 1)) ++ ts). split; [by rewrite <- !app_assoc|]. intros w Hw. rewrite <- !app_assoc.
    destruct e' as [k' v']. rewrite (app_assoc (pretty kPrettyPrintLineEnding)). apply (entries_more strtod n k v et [] (pretty kPrettyPrintLineEnding ++ pretty (IndentLine (depth + 1))) ((k', v') :: m) (ts ++ w)); [done|done| |by apply Hts].
    apply spaces_app; apply spaces_pretty; [done|apply spaces_indent].
Qed.
Lemma set_entries_sorted m : forall acc, sorted_keys m = true -> Forall (fun e => keys_below acc e.1 = true) m -> set_entries m acc = acc ++ m.
Proof.
  induction m as [|[k x] m IH]; intros acc Hs Hb; [by rewrite app_nil_r|]. apply Forall_cons_1 in Hb as [Hk Hb]. cbn [sorted_keys] in Hs. apply andb_true_iff in Hs as [Ha Hs].
  change (set_entries ((k, x) :: m) acc) with (set_entries m (map_assign k x acc)). cbn in Hk. rewrite assign_below by done. rewrite IH by (done || by apply below_snoc). by rewrite <- app_assoc.
Qed.

(** The nesting of what is in a structure. *)
Lemma nested_zero v : match v with VList _ | VDictionary _ => True | _ => False end -> nesting v <= Z.of_nat 0 -> False.
Proof.
  destruct v as [| | | | | |m|l]; try done; intros _; cbn [nesting]; [fold (dict_nesting m); enough (0 <= dict_nesting m) by lia|fold (list_nesting l); enough (0 <= list_nesting l) by lia].
  - induction m as [|e m IH]; cbn [dict_nesting fold_right]; [lia|]. fold (dict_nesting m). lia.
  - induction l as [|x l IH]; cbn [list_nesting fold_right]; [lia|]. fold (list_nesting l). lia.
Qed.
Lemma nested_entry e m n : In e m -> nesting (VDictionary m) <= Z.of_nat (S n) -> nesting e.2 <= Z.of_nat n.
Proof.
  intros He H. cbn [nesting] in H. enough (nesting e.2 <= dict_nesting m) by (unfold dict_nesting in *; lia). clear H.
  induction m as [|x m IH]; [done|]. cbn [dict_nesting fold_right]. fold (dict_nesting m). destruct He as [-> |He]; [lia|]. specialize (IH He). lia.
Qed.
Lemma nested_item x l n : In x l -> nesting (VList l) <= Z.of_nat (S n) -> nesting x <= Z.of_nat n.
Proof.
  intros Hx H. cbn [nesting] in H. enough (nesting x <= list_nesting l) by (unfold list_nesting in *; lia). clear H.
  induction l as [|y l IH]; [done|]. cbn [list_nesting fold_right]. fold (list_nesting l). destruct Hx as [-> |Hx]; [lia|]. specialize (IH Hx). lia.
Qed.
(** Every writable value is written as a text that denotes it. *)
Lemma write_denotes v : omit_double_type_preservation_ options = false -> forall n depth, writable v -> nesting v <= Z.of_nat n -> written n v (write v depth).
Proof.
  intros Hopt. induction v as [|b|z|d|s|b|m IH|l IH] using Value_ind; intros n depth Hv Hn; try done.
  - eexists. by split; [|constructor].
  - destruct b; eexists; by split; [|constructor].
  - destruct (IntToString_text dcheck_on strtod n z Hv) as (t & E & Hd). exists t. split; [cbn [BuildJSONString]; rewrite E; done|done].
  - exists (real_text g_fmt d). split; [|by apply real_denotes]. cbn [BuildJSONString]. unfold write_double. by rewrite Hopt.
  - destruct (EscapeJSONString_written s Hv) as (ok & t & E & Ht). eexists. split; [cbn [BuildJSONString]; rewrite E; done|by apply denotes_string].
  - apply writable_dictionary in Hv as [Hs Hv]. destruct n as [|n]; [by apply nested_zero in Hn|]. rewrite write_dictionary_eq.
    assert (spaces (pretty kPrettyPrintLineEnding)) as Hw1 by (by apply spaces_pretty).
    assert (spaces (pretty (kPrettyPrintLineEnding ++ IndentLine depth))) as Hw2 by (apply spaces_pretty, spaces_app; [done|apply spaces_indent]). destruct m as [|e m].
    + eexists. split; [done|]. cbn [app]. rewrite app_assoc. apply denotes_empty_dictionary. by apply spaces_app.
    + assert (Forall (fun e => written_string e.1 /\ omitted options e.2 = false /\ written n e.2 (write e.2 (depth + 1))) (e :: m)) as H.
      { apply List.Forall_forall. intros x Hx. rewrite List.Forall_forall in IH, Hv. destruct (Hv x Hx) as [Hk Hw]. split; [done|]. split; [by apply writable_not_omitted|]. apply (IH x Hx n (depth + 1) Hw).
        apply nested_entry with (1 := Hx) in Hn. lia. }
      destruct (write_dictionary_entries n (fun v => write v (depth + 1)) depth m e false [] H) as (ts & -> & Hts). obind. eexists. split; [done|]. cbn [app].
      assert (VDictionary (e :: m) = VDictionary (set_entries (e :: m) [])) as -> by (rewrite set_entries_sorted; [done|done|by apply List.Forall_forall]).
      match goal with |- denotes _ _ _ (_ :: ?t) => assert (t = (pretty kPrettyPrintLineEnding ++ pretty (IndentLine (depth + 1))) ++ (ts ++ pretty (kPrettyPrintLineEnding ++ IndentLine depth)) ++ [ch#"}"]) as -> by (by rewrite <- !app_assoc) end.
      apply denotes_dictionary; [apply spaces_app; [done|apply spaces_pretty, spaces_indent]|by apply Hts].
  - apply writable_list in Hv. destruct n as [|n]; [by apply nested_zero in Hn|]. rewrite write_list_eq. assert (spaces (pretty [32])) as Hw by (by apply spaces_pretty). destruct l as [|x l].
    + eexists. split; [done|]. cbn [app]. rewrite app_assoc. apply denotes_empty_list. by apply spaces_app.
    + assert (Forall (fun v => omitted options v = false /\ written n v (write v depth)) (x :: l)) as H.
      { apply List.Forall_forall. intros y Hy. rewrite List.Forall_forall in IH, Hv. split; [by apply writable_not_omitted, Hv|]. apply (IH y Hy n depth (Hv y Hy)). apply nested_item with (1 := Hy) in Hn. lia. }
      destruct (write_list_items n (fun v => write v depth) l x false [] H) as (ts & -> & Hts). obind. eexists. split; [done|]. cbn [app]. rewrite (app_assoc ts). apply denotes_list; [done|by apply Hts].
Qed.
End Write.

(** C7: what the writer writes of a value the parser reads back: for every value of
    32-bit integers, doubles that [g_fmt] and [strtod] carry, strings of characters
    without the NUL, lists and dictionaries nested less than [kStackMaxDepth] deep, for
    every options of the writer that keep the type of doubles, pretty or not, and every
    options of the parser, [WriteWithOptions] reports success and, when its text is
    shorter than 2^31 bytes, [Parse] gives the value and no error. *)
Theorem json_roundtrip dcheck_on g_fmt strtod options parser_options v : omit_double_type_preservation_ options = false -> writable g_fmt strtod v -> nesting v < kStackMaxDepth ->
  exists t, WriteWithOptions dcheck_on g_fmt options v = Ret (true, t) /\
    (zlen t < 2 ^ 31 -> exists p, Parse dcheck_on strtod parser_options t [0] = Ret (Some v, p) /\ error_code_ p = JSON_NO_ERROR).
Proof.
  intros Ho Hv Hn. destruct (write_denotes dcheck_on g_fmt strtod options v Ho (Z.to_nat (nesting v)) 0 Hv) as (t & E & Hd); [pose proof (nesting_nonneg v); lia|].
  unfold WriteWithOptions. rewrite E. obind. eexists. split; [done|]. intros Hl.
  destruct (Parse_text dcheck_on strtod parser_options (Z.to_nat (nesting v)) v t [] (JsonWriter.pretty options kPrettyPrintLineEnding)) as (p & Ep & He); [done|pose proof (nesting_nonneg v); lia|done|by apply spaces_pretty|done|].
  exists p. by split.
Qed.
(** A conversion of one number, for the example. *)
Definition half_fmt (d : double) : bytes := str#".5".
Definition half_strtod (s : bytes) : double * Z * bool := (S754_finite false 1 (-1), zlen s, false).
Definition sample : Value :=
  VDictionary [(str#"a", VList [VInteger (-7); VDouble (S754_finite false 1 (-1)); VNull; VList []]); (str#"b", VString [10; 60; 0xC3; 0xA9])].
Lemma json_roundtrip_witness : exists t p, WriteWithOptions true half_fmt OPTIONS_PRETTY_PRINT sample = Ret (true, t) /\
  Parse true half_strtod 0 t [0] = Ret (Some sample, p).
Proof.
  assert (forall cs, forallb (fun c => (0 <? c) && (c <? 0xd800)) cs = true -> zlen (text utf8 cs) < 2 ^ 31 -> written_string (text utf8 cs)) as Hstr.
  { intros cs H Hl. exists cs. split; [|split; [reflexivity|exact Hl]]. apply List.Forall_forall. intros c Hc. rewrite forallb_forall in H. specialize (H c Hc).
    split; [|lia]. split; [unfold valid; lia|]. unfold IsValidCharacter. destruct (Z.ltb_spec c 0xD800); [reflexivity|lia]. }
  destruct (json_roundtrip true half_fmt half_strtod OPTIONS_PRETTY_PRINT 0 sample) as (t & E & H).
  - reflexivity.
  - cbn [writable sample]. split; [reflexivity|]. split; [split; [apply (Hstr str#"a"); reflexivity|]|split; [split; [apply (Hstr str#"b"); reflexivity|apply (Hstr [10; 60; 0xE9]); reflexivity]|exact I]].
    split; [lia|]. split; [|split; [exact I|split; exact I]]. split; [reflexivity|]. split; [|reflexivity].
    exists (Number false [] (Some [ch#"5"]) None). repeat split; discriminate.
  - vm_compute. reflexivity.
  - assert (exists s, WriteWithOptions true half_fmt OPTIONS_PRETTY_PRINT sample = Ret (true, s) /\ zlen s < 2 ^ 31) as (s & Es & Hs) by (eexists; split; [vm_compute; reflexivity|vm_compute; reflexivity]).
    rewrite E in Es. injection Es as ->. destruct (H Hs) as (p & Ep & _). exists s, p. split; [exact E|exact Ep].
Defined.
