(* ===== verification/Pickle.v ===== *)
(** Pickles: [zutils/base/pickle.{h,cc}]. A pickle is a block of memory: a header whose
    first field is the size of the payload, the payload, and room. A [float] and a
    [double] are the bits they are made of. [long] has 64 bits. *)
From Stdlib Require Import ZArith Lia Bool.
From stdpp Require Import base list numbers.
From S2P Require Import Prelude SysByteorder.

Open Scope Z_scope.

Definition kPayloadUnit : Z := 64.
Definition kCapacityReadOnly : Z := 2 ^ 64 - 1.
Definition kuint32max : Z := 2 ^ 32 - 1.
(** [sizeof(Header)] *)
Definition sizeof_Header : Z := 4.
Definition AlignInt (i alignment : Z) : Z := u64 (i + (alignment - i mod alignment) mod alignment).

(** [header_] is the block it points to, [None] when it is NULL. *)
Record pickle := mkPickle { header_ : option bytes; header_size_ : Z; capacity_after_header_ : Z; write_offset_ : Z }.

(** [payload_] is the memory from the payload on; [None] is NULL. *)
Record iterator := PickleIterator { payload_ : option bytes; read_index_ : Z; end_index_ : Z }.
Definition set_read_index (i : Z) (it : iterator) : iterator := PickleIterator (payload_ it) i (end_index_ it).

Section Pickle.
Context (dcheck_on little : bool) (realloc_ok : Z -> bool) (fill : nat -> Z).

(** [realloc]: the beginning stays, what is behind it is anything. *)
Definition realloc (m : bytes) (n : Z) : option bytes :=
  if realloc_ok n then Some (take (Z.to_nat n) m ++ map fill (seq (length m) (Z.to_nat n - length m))) else None.

(** * Memory *)
(** An access through [header_]; NULL is outside every object. *)
Definition the_block (p : pickle) : outcome bytes := match header_ p with Some m => Ret m | None => Fault OutOfBounds end.
Definition header_payload_size (m : bytes) : outcome Z := l ← mem_read m 0 4; Ret (host_val little l).
Definition payload_size (p : pickle) : outcome Z := match header_ p with Some m => header_payload_size m | None => Ret 0 end.
Definition size (p : pickle) : outcome Z := m ← the_block p; n ← header_payload_size m; Ret (u64 (header_size_ p + n)).
Definition with_block (m : bytes) (p : pickle) : pickle := mkPickle (Some m) (header_size_ p) (capacity_after_header_ p) (write_offset_ p).
Definition set_payload_size (n : Z) (p : pickle) : outcome pickle :=
  m ← the_block p; m ← mem_write m 0 (host_bytes little 4 n); Ret (with_block m p).
Definition Resize (new_capacity : Z) (p : pickle) : outcome pickle :=
  let new_capacity := AlignInt new_capacity kPayloadUnit in
  guard_or (negb (capacity_after_header_ p =? kCapacityReadOnly)) AssertFail (
  match realloc (default [] (header_ p)) (u64 (header_size_ p + new_capacity)) with
  | None => Fault AssertFail
  | Some m => Ret (mkPickle (Some m) (header_size_ p) new_capacity (write_offset_ p))
  end).

(** * Constructors *)
Definition Pickle_empty (header_size : Z) : outcome pickle :=
  p ← Resize kPayloadUnit (mkPickle None header_size 0 0); set_payload_size 0 p.
(** [Pickle()] and [Pickle(int header_size)] *)
Definition Pickle_new : outcome pickle := Pickle_empty sizeof_Header.
Definition Pickle_header (header_size : Z) : outcome pickle :=
  DCHECK dcheck_on (sizeof_Header <=? u64 header_size) (
  DCHECK dcheck_on (header_size <=? kPayloadUnit) (
  Pickle_empty (AlignInt (u64 header_size) 4))).
(** [Pickle(const char* data, int data_len)]; the subtraction is one of 32 bits. *)
Definition Pickle_data (data : bytes) (data_len : Z) : outcome pickle :=
  header_size ← (if sizeof_Header <=? data_len then n ← header_payload_size data; Ret (u32 (data_len - n)) else Ret 0);
  let header_size := if u32 data_len <? header_size then 0 else header_size in
  let header_size := if negb (header_size =? AlignInt header_size 4) then 0 else header_size in
  Ret (mkPickle (if header_size =? 0 then None else Some data) header_size kCapacityReadOnly 0).
(** [Pickle(const Pickle& other)] *)
Definition Pickle_copy (other : pickle) : outcome pickle :=
  m ← the_block other; n ← header_payload_size m;
  let size := u64 (header_size_ other + n) in
  p ← Resize size (mkPickle None (header_size_ other) 0 (write_offset_ other));
  image ← mem_read m 0 size;
  m ← the_block p; m ← mem_write m 0 image; Ret (with_block m p).
(** [operator=] between two pickles. *)
Definition assign (p other : pickle) : outcome pickle :=
  let p := if capacity_after_header_ p =? kCapacityReadOnly then mkPickle None (header_size_ p) 0 (write_offset_ p) else p in
  let p := if negb (header_size_ p =? header_size_ other) then mkPickle None (header_size_ other) (capacity_after_header_ p) (write_offset_ p) else p in
  m ← the_block other; n ← header_payload_size m;
  p ← Resize n p;
  image ← mem_read m 0 (u64 (header_size_ other + n));
  m ← the_block p; m ← mem_write m 0 image;
  Ret (mkPickle (Some m) (header_size_ p) (capacity_after_header_ p) (write_offset_ other)).

(** * Writing *)
(** [DCHECK]s of a write of [data_len] bytes, the padding included. *)
Definition check_room {A} (length data_len : Z) (p : pickle) (k : outcome A) : outcome A :=
  DCHECK dcheck_on (length <=? data_len) (
  DCHECK dcheck_on (data_len <=? kuint32max) (
  DCHECK dcheck_on (write_offset_ p <=? u64 (kuint32max - data_len)) k)).
Definition WriteBytesCommon (data : bytes) (length : Z) (p : pickle) : outcome pickle :=
  DCHECK dcheck_on (negb (capacity_after_header_ p =? kCapacityReadOnly)) (
  let data_len := AlignInt length 4 in
  check_room length data_len p (
  let new_size := u64 (write_offset_ p + data_len) in
  p ← (if capacity_after_header_ p <? new_size then Resize (Z.max (u64 (capacity_after_header_ p * 2)) new_size) p else Ret p);
  d ← mem_read data 0 length;
  m ← the_block p;
  m ← mem_write m (header_size_ p + write_offset_ p) d;
  m ← mem_write m (header_size_ p + write_offset_ p + length) (replicate (Z.to_nat (data_len - length)) 0);
  m ← mem_write m 0 (host_bytes little 4 (u32 new_size));
  Ret (mkPickle (Some m) (header_size_ p) (capacity_after_header_ p) new_size))).
(** [WritePOD] of a type of [k] bytes. *)
Definition WritePOD (k : nat) (v : Z) (p : pickle) : outcome pickle := WriteBytesCommon (host_bytes little k v) (Z.of_nat k) p.
Definition WriteInt : Z -> pickle -> outcome pickle := WritePOD 4.
Definition WriteBool (value : bool) : pickle -> outcome pickle := WriteInt (if value then 1 else 0).
Definition WriteLong : Z -> pickle -> outcome pickle := WritePOD 8.
Definition WriteUInt16 : Z -> pickle -> outcome pickle := WritePOD 2.
Definition WriteUInt32 : Z -> pickle -> outcome pickle := WritePOD 4.
Definition WriteInt64 : Z -> pickle -> outcome pickle := WritePOD 8.
Definition WriteUInt64 : Z -> pickle -> outcome pickle := WritePOD 8.
Definition WriteFloat : Z -> pickle -> outcome pickle := WritePOD 4.
Definition WriteDouble : Z -> pickle -> outcome pickle := WritePOD 8.
(** [WriteBytes]: its [int] becomes a [size_t]. *)
Definition WriteBytes (data : bytes) (length : Z) : pickle -> outcome pickle := WriteBytesCommon data (u64 length).
Definition WriteString (value : bytes) (p : pickle) : outcome pickle :=
  p ← WriteInt (s32 (zlen value)) p; WriteBytes value (s32 (zlen value)) p.
(** The memory of an array of units of [k] bytes. *)
Definition units_bytes (k : nat) (value : list Z) : bytes := concat (map (host_bytes little k) value).
Definition WriteWString (value : list Z) (p : pickle) : outcome pickle :=
  p ← WriteInt (s32 (zlen value)) p; WriteBytes (units_bytes 4 value) (s32 (u64 (zlen value * 4))) p.
Definition WriteString16 (value : list Z) (p : pickle) : outcome pickle :=
  p ← WriteInt (s32 (zlen value)) p; WriteBytes (units_bytes 2 value) (s32 (u64 (s32 (zlen value) * 2))) p.
Definition WriteData (data : bytes) (length : Z) (p : pickle) : outcome (bool * pickle) :=
  if 0 <=? length then p ← WriteInt length p; p ← WriteBytes data length p; Ret (true, p) else Ret (false, p).
Definition Reserve (length : Z) (p : pickle) : outcome pickle :=
  let data_len := AlignInt length 4 in
  check_room length data_len p (
  let new_size := u64 (write_offset_ p + data_len) in
  if capacity_after_header_ p <? new_size then Resize (u64 (u64 (capacity_after_header_ p * 2) + new_size)) p else Ret p).

(** [FindNext] in a range of memory: the offset of what follows the pickle. *)
Definition FindNext (header_size : Z) (range : bytes) : outcome (option Z) :=
  DCHECK dcheck_on (header_size =? AlignInt header_size 4) (
  DCHECK dcheck_on (header_size <=? kPayloadUnit) (
  let length := zlen range in
  if length <? sizeof_Header then Ret None
  else if length <? header_size then Ret None
  else
    n ← header_payload_size range;
    Ret (if length - header_size <? n then None else Some (header_size + n)))).

(** * Reading *)
Definition PickleIterator_of (p : pickle) : outcome iterator :=
  n ← payload_size p; Ret (PickleIterator (drop (Z.to_nat (header_size_ p)) <$> header_ p) 0 n).
Definition Advance (size : Z) (it : iterator) : iterator :=
  let aligned_size := AlignInt size 4 in
  if u64 (end_index_ it - read_index_ it) <? aligned_size then set_read_index (end_index_ it) it
  else set_read_index (u64 (read_index_ it + aligned_size)) it.
(** [payload_ + read_index_]: NULL when [payload_] is, for then the index is 0. *)
Definition read_pointer (it : iterator) : option Z := match payload_ it with Some _ => Some (read_index_ it) | None => None end.
(** [GetReadPointerAndAdvance] for a type, for a number of bytes and for an array. *)
Definition GetReadPointer_type (k : nat) (it : iterator) : option Z * iterator :=
  if u64 (end_index_ it - read_index_ it) <? Z.of_nat k then (None, set_read_index (end_index_ it) it)
  else (read_pointer it, Advance (Z.of_nat k) it).
Definition GetReadPointer_bytes (num_bytes : Z) (it : iterator) : option Z * iterator :=
  if (num_bytes <? 0) || (u64 (end_index_ it - read_index_ it) <? u64 num_bytes) then (None, set_read_index (end_index_ it) it)
  else (read_pointer it, Advance (u64 num_bytes) it).
Definition GetReadPointer_array (num_elements size_element : Z) (it : iterator) : option Z * iterator :=
  let num_bytes := s64 (u64 (num_elements * size_element)) in
  let num_bytes32 := s32 num_bytes in
  if negb (num_bytes =? num_bytes32) then (None, it) else GetReadPointer_bytes num_bytes32 it.
(** The memory behind a pointer. *)
Definition read_memory (it : iterator) (p n : Z) : outcome bytes :=
  match payload_ it with Some m => mem_read m p n | None => Fault OutOfBounds end.

(** [ReadBuiltinType]: the bits of the value, and the signed integers. *)
Definition ReadBuiltinType (k : nat) (it : iterator) : outcome (option Z * iterator) :=
  let '(read_from, it') := GetReadPointer_type k it in
  match read_from with
  | None => Ret (None, it')
  | Some p => l ← read_memory it p (Z.of_nat k); Ret (Some (host_val little l), it')
  end.
Definition ReadSigned (k : nat) (it : iterator) : outcome (option Z * iterator) :=
  '(v, it) ← ReadBuiltinType k it; Ret (option_map (swrap (8 * Z.of_nat k)) v, it).
(** The byte a [bool] is made of; only 0 and 1 are values of the type. *)
Definition ReadBool : iterator -> outcome (option Z * iterator) := ReadBuiltinType 1.
Definition ReadInt : iterator -> outcome (option Z * iterator) := ReadSigned 4.
Definition ReadLong : iterator -> outcome (option Z * iterator) := ReadSigned 8.
Definition ReadUInt16 : iterator -> outcome (option Z * iterator) := ReadBuiltinType 2.
Definition ReadUInt32 : iterator -> outcome (option Z * iterator) := ReadBuiltinType 4.
Definition ReadInt64 : iterator -> outcome (option Z * iterator) := ReadSigned 8.
Definition ReadUInt64 : iterator -> outcome (option Z * iterator) := ReadBuiltinType 8.
Definition ReadFloat : iterator -> outcome (option Z * iterator) := ReadBuiltinType 4.
Definition ReadDouble : iterator -> outcome (option Z * iterator) := ReadBuiltinType 8.
Definition ReadBytes (length : Z) (it : iterator) : outcome (option bytes * iterator) :=
  let '(read_from, it') := GetReadPointer_bytes length it in
  match read_from with None => Ret (None, it') | Some p => l ← read_memory it p length; Ret (Some l, it') end.
(** A length, then what it is the length of. *)
Definition after_length {A} (k : Z -> iterator -> outcome (option A * iterator)) (it : iterator) : outcome (option A * iterator) :=
  '(len, it) ← ReadInt it; match len with Some len => k len it | None => Ret (None, it) end.
Definition ReadString : iterator -> outcome (option bytes * iterator) := after_length ReadBytes.
Definition ReadData : iterator -> outcome (option bytes * iterator) := after_length ReadBytes.
(** The units of an array in memory. *)
Fixpoint units_of (n k : nat) (m : bytes) : list Z :=
  match n with O => [] | S n => host_val little (take k m) :: units_of n k (drop k m) end.
Definition ReadUnits (k : nat) (len : Z) (it : iterator) : outcome (option (list Z) * iterator) :=
  let '(read_from, it') := GetReadPointer_array len (Z.of_nat k) it in
  match read_from with
  | None => Ret (None, it')
  | Some p => l ← read_memory it p (len * Z.of_nat k); Ret (Some (units_of (Z.to_nat len) k l), it')
  end.
Definition ReadWString : iterator -> outcome (option (list Z) * iterator) := after_length (ReadUnits 4).
Definition ReadString16 : iterator -> outcome (option (list Z) * iterator) := after_length (ReadUnits 2).
Definition ReadLength (it : iterator) : outcome (option Z * iterator) :=
  '(len, it) ← ReadInt it; Ret (match len with Some n => if 0 <=? n then Some n else None | None => None end, it).
Definition SkipBytes (num_bytes : Z) (it : iterator) : bool * iterator :=
  let '(p, it) := GetReadPointer_bytes num_bytes it in (match p with Some _ => true | None => false end, it).
End Pickle.
