(* ===== verification/PickleProofs.v ===== *)
(** Pickles keep what is written: reading back gives the values, and reading any bytes
    stays inside them. What a type promises is the class [Portable]. *)
From Stdlib Require Import ZArith Lia Bool.
From stdpp Require Import base list numbers.
From S2P Require Import Prelude SysByteorder Pickle.

Open Scope Z_scope.
#[local] Ltac Zify.zify_post_hook ::= Z.to_euclidean_division_equations.

(** * Alignment *)
Definition pad (n : Z) : Z := (4 - n mod 4) mod 4.
(** What is written of [d] and the zeros behind it. *)
Definition padded (d : bytes) : bytes := d ++ replicate (Z.to_nat (pad (zlen d))) 0.
Lemma pad_range n : 0 <= pad n < 4.
Proof. unfold pad. lia. Qed.
Lemma AlignInt_4 n : 0 <= n < 2 ^ 60 -> AlignInt n 4 = n + pad n.
Proof. intros. unfold AlignInt. fold (pad n). pose proof (pad_range n). apply uwrap_small. powlia. Qed.
Lemma AlignInt_64 n : 0 <= n < 2 ^ 60 -> n <= AlignInt n kPayloadUnit < n + 64.
Proof. intros. unfold AlignInt, kPayloadUnit. rewrite uwrap_small; powlia. Qed.
Lemma zlen_padded d : zlen (padded d) = zlen d + pad (zlen d).
Proof. unfold padded. rewrite zlen_app. unfold zlen at 2. rewrite length_replicate. pose proof (pad_range (zlen d)). lia. Qed.
Lemma padded_aligned d : zlen (padded d) mod 4 = 0.
Proof. rewrite zlen_padded. unfold pad. lia. Qed.

Section Pickles.
Context (dcheck_on little : bool) (realloc_ok : Z -> bool) (fill : nat -> Z).
Context (Hrealloc : forall n, 0 <= n < 2 ^ 36 -> realloc_ok n = true).
Abbreviation host := (host_bytes little).

Lemma zlen_host k x : zlen (host k x) = Z.of_nat k.
Proof. unfold zlen, host_bytes. destruct little; by rewrite ?length_le_bytes, ?length_be_bytes. Qed.
Lemma host_val_bytes k x : host_val little (host k x) = x mod 256 ^ Z.of_nat k.
Proof. unfold host_val, host_bytes. destruct little; [apply le_val_bytes|apply be_val_bytes]. Qed.
Lemma host_bytes_mod k x : 0 <= x < 2 ^ (8 * Z.of_nat k) -> host_val little (host k x) = x.
Proof. intros. rewrite host_val_bytes. apply Z.mod_small. change 256 with (2 ^ 8). rewrite <- Z.pow_mul_r by lia. done. Qed.

(** * The pickle that holds a payload *)
Record rep (p : pickle) (h : Z) (c : bytes) : Prop := {
  rep_block : exists u room, header_ p = Some (host 4 (zlen c) ++ u ++ c ++ room) /\ 4 + zlen u = h /\ zlen c + zlen room = capacity_after_header_ p;
  rep_header : header_size_ p = h;
  rep_offset : write_offset_ p = zlen c;
  rep_capacity : 0 <= capacity_after_header_ p < 2 ^ 34;
  rep_size : zlen c < 2 ^ 32;
  rep_aligned : zlen c mod 4 = 0;
  rep_header_ok : 4 <= h <= 64 /\ h mod 4 = 0 }.

Lemma zlen_take_fill (m : bytes) n : 0 <= n -> zlen (take (Z.to_nat n) m ++ map fill (seq (length m) (Z.to_nat n - length m))) = n.
Proof. intros. unfold zlen. rewrite length_app, length_take, length_map, length_seq. lia. Qed.
Lemma realloc_prefix (a b : bytes) n : zlen a <= n -> exists r, take (Z.to_nat n) (a ++ b) ++ map fill (seq (length (a ++ b)) (Z.to_nat n - length (a ++ b))) = a ++ r /\ zlen a + zlen r = n.
Proof.
  intros H. pose proof (zlen_nonneg a). rewrite take_app_ge by (unfold zlen in *; lia). rewrite <- app_assoc. eexists. split; [done|]. rewrite <- zlen_app. rewrite app_assoc, <- take_app_ge by (unfold zlen in *; lia).
  apply zlen_take_fill. lia.
Qed.
Lemma Resize_rep p h c n : rep p h c -> zlen c <= n < 2 ^ 34 - 64 -> exists p', Resize realloc_ok fill n p = Ret p' /\ rep p' h c /\ n <= capacity_after_header_ p'.
Proof.
  intros [(u & room & Hm & Hu & Hroom) Hh Ho Hc Hs Ha Hh2] Hn. pose proof (zlen_nonneg c). pose proof (AlignInt_64 n ltac:(powlia)). unfold Resize, guard_or.
  destruct (Z.eqb_spec (capacity_after_header_ p) kCapacityReadOnly) as [E|_]; [unfold kCapacityReadOnly in E; powlia|]. cbn [negb]. rewrite Hh, Hm. cbn [default].
  rewrite uwrap_small by powlia. unfold realloc. rewrite Hrealloc by powlia.
  destruct (realloc_prefix (host 4 (zlen c) ++ u ++ c) room (h + AlignInt n kPayloadUnit)) as (r & E & Hr); [rewrite !zlen_app, zlen_host; lia|].
  rewrite <- !app_assoc in E. cbn [from_option id]. rewrite E. eexists. split; [done|]. split; [|cbn; lia]. rewrite !zlen_app, zlen_host in Hr.
  split; cbn; try done; [|powlia]. exists u, r. split; [done|]. split; [done|lia].
Qed.

Lemma splice_middle (a d x b : bytes) off : off = zlen a -> length d = length x -> zsplice off d (a ++ x ++ b) = a ++ d ++ b.
Proof. intros -> Hl. rewrite zsplice_end, Hl, drop_app_length. done. Qed.
Lemma write_middle (a d x b : bytes) off : off = zlen a -> length d = length x -> mem_write (a ++ x ++ b) off d = Ret (a ++ d ++ b).
Proof.
  intros Ho Hl. rewrite mem_write_ok; [by rewrite splice_middle|rewrite Ho; apply zlen_nonneg|]. rewrite Ho, !zlen_app. pose proof (zlen_nonneg b). unfold zlen in *. lia.
Qed.
Lemma write_front (d x b : bytes) : length d = length x -> mem_write (x ++ b) 0 d = Ret (d ++ b).
Proof. intros. by apply (write_middle [] d x b 0). Qed.
Lemma length_host k x : length (host k x) = k.
Proof. unfold host_bytes. destruct little; by rewrite ?length_le_bytes, ?length_be_bytes. Qed.
Lemma read_middle (a d b : bytes) off n : off = zlen a -> n = zlen d -> mem_read (a ++ d ++ b) off n = Ret d.
Proof.
  intros Ho Hn. rewrite mem_read_ok; [by rewrite zslice_middle|rewrite Ho; apply zlen_nonneg|rewrite Hn; apply zlen_nonneg|]. rewrite Ho, Hn, !zlen_app. pose proof (zlen_nonneg b). lia.
Qed.
Lemma read_front (d b : bytes) n : n = zlen d -> mem_read (d ++ b) 0 n = Ret d.
Proof. intros. by apply (read_middle [] d b 0 n). Qed.
Lemma room_split (room : bytes) n : 0 <= n <= zlen room -> exists x r, room = x ++ r /\ zlen x = n.
Proof. intros. exists (take (Z.to_nat n) room), (drop (Z.to_nat n) room). split; [by rewrite take_drop|]. unfold zlen in *. rewrite length_take. lia. Qed.

Lemma check_room_ok {A} n data_len p (k : outcome A) : n <= data_len -> 0 <= data_len -> write_offset_ p + data_len <= kuint32max -> 0 <= write_offset_ p -> check_room dcheck_on n data_len p k = k.
Proof. unfold kuint32max. intros. unfold check_room, kuint32max. rewrite DCHECK_true by lia. rewrite DCHECK_true by powlia. rewrite DCHECK_true; [done|]. rewrite uwrap_small by powlia. powlia. Qed.
Lemma WriteBytesCommon_rep p h c d : rep p h c -> zlen c + zlen (padded d) <= kuint32max -> exists p', WriteBytesCommon dcheck_on little realloc_ok fill d (zlen d) p = Ret p' /\ rep p' h (c ++ padded d).
Proof.
  intros Hp Hl. pose proof (rep_offset _ _ _ Hp) as Ho. pose proof (zlen_nonneg c). pose proof (zlen_nonneg d). pose proof (pad_range (zlen d)). rewrite zlen_padded in Hl. unfold kuint32max in Hl.
  unfold WriteBytesCommon. rewrite DCHECK_true by (pose proof (rep_capacity _ _ _ Hp); unfold kCapacityReadOnly; powlia). rewrite AlignInt_4 by powlia.
  rewrite check_room_ok by (unfold kuint32max; powlia). rewrite Ho. rewrite uwrap_small by powlia.
  assert (exists q, (if capacity_after_header_ p <? zlen c + (zlen d + pad (zlen d)) then Resize realloc_ok fill (Z.max (u64 (capacity_after_header_ p * 2)) (zlen c + (zlen d + pad (zlen d)))) p else Ret p) = Ret q /\
    rep q h c /\ zlen c + (zlen d + pad (zlen d)) <= capacity_after_header_ q) as (q & -> & Hq & Hcap).
  { destruct (Z.ltb_spec (capacity_after_header_ p) (zlen c + (zlen d + pad (zlen d)))); [|by exists p]. pose proof (rep_capacity _ _ _ Hp). rewrite uwrap_small by powlia.
    destruct (Resize_rep p h c (Z.max (capacity_after_header_ p * 2) (zlen c + (zlen d + pad (zlen d)))) Hp) as (q & E & Hq & Hcap); [powlia|]. exists q. split; [done|]. split; [done|lia]. }
  obind. rewrite mem_read_ok by lia. assert (zslice 0 (zlen d) d = d) as -> by (unfold zslice, zlen; rewrite Nat2Z.id; apply take_ge; done). obind.
  destruct Hq as [(u & room & Hm & Hu & Hroom) Hh Hwo Hc Hs Ha Hh2]. unfold the_block. rewrite Hm. obind. rewrite Hh, Hwo.
  destruct (room_split room (zlen d)) as (x & r & -> & Hx); [lia|]. rewrite zlen_app in Hroom. destruct (room_split r (pad (zlen d))) as (y & r2 & -> & Hy); [lia|]. rewrite zlen_app in Hroom.
  rewrite (app_assoc u), (app_assoc (host 4 (zlen c))). rewrite (write_middle _ d x) by (rewrite ?zlen_app, ?zlen_host; unfold zlen in *; lia). obind.
  rewrite (app_assoc _ d), (write_middle _ (replicate _ 0) y) by (rewrite ?zlen_app, ?zlen_host, ?length_replicate; unfold zlen in *; lia). obind.
  rewrite <- !app_assoc. rewrite write_front by (by rewrite !length_host). obind.
  eexists. split; [done|]. assert (zlen (c ++ padded d) = zlen c + (zlen d + pad (zlen d))) as El by (rewrite zlen_app, zlen_padded; lia).
  split; cbn; try (rewrite El); try done; try powlia; [|unfold pad; lia]. exists u, r2. rewrite uwrap_small by powlia. split; [|split; [done|lia]]. unfold padded. rewrite <- !app_assoc.
  replace (zlen d + pad (zlen d) - zlen d) with (pad (zlen d)) by lia. done.
Qed.

(** ** A new pickle, a copy, and the image of a pickle *)
Lemma Pickle_empty_rep h : 4 <= h <= 64 -> h mod 4 = 0 -> exists p, Pickle_empty little realloc_ok fill h = Ret p /\ rep p h [].
Proof.
  intros Hh Hm. unfold Pickle_empty, Resize, guard_or. cbn [capacity_after_header_ header_ header_size_ write_offset_ default from_option]. change (negb (0 =? kCapacityReadOnly)) with true. cbv iota.
  change (AlignInt kPayloadUnit kPayloadUnit) with 64. rewrite uwrap_small by powlia. unfold realloc. rewrite Hrealloc by powlia. cbn [length]. obind.
  unfold set_payload_size, the_block. cbn [header_]. obind. set (m := _ ++ _). assert (zlen m = h + 64) as Hl by (by apply (zlen_take_fill []); lia). clearbody m.
  destruct (room_split m 4) as (a & b & -> & Ha); [lia|]. rewrite zlen_app in Hl. rewrite write_front by (rewrite length_host; unfold zlen in Ha; lia). obind.
  destruct (room_split b (h - 4)) as (u & r & -> & Hu); [lia|]. rewrite zlen_app in Hl. eexists. split; [done|].
  split; cbn; try done; try powlia. exists u, r. change (zlen (@nil Z)) with 0. split; [done|]. split; lia.
Qed.
(** What [data()] and [size()] give, and a pickle of it. *)
Definition image (h : Z) (u c : bytes) : bytes := host 4 (zlen c) ++ u ++ c.
Lemma zlen_image h u c : 4 + zlen u = h -> zlen (image h u c) = h + zlen c.
Proof. intros. unfold image. rewrite !zlen_app, zlen_host. lia. Qed.
Lemma read_size (c u r : bytes) : zlen c < 2 ^ 32 -> header_payload_size little (host 4 (zlen c) ++ u ++ r) = Ret (zlen c).
Proof. intros. pose proof (zlen_nonneg c). unfold header_payload_size. rewrite read_front by (by rewrite zlen_host). obind. by rewrite host_bytes_mod by powlia. Qed.
Lemma Pickle_data_image h u c : 4 + zlen u = h -> h <= 64 -> h mod 4 = 0 -> h + zlen c < 2 ^ 31 ->
  Pickle_data little (image h u c) (zlen (image h u c)) = Ret (mkPickle (Some (image h u c)) h kCapacityReadOnly 0).
Proof.
  intros Hu Hh Hm Hl. pose proof (zlen_nonneg c). pose proof (zlen_nonneg u). unfold Pickle_data. rewrite zlen_image by done. unfold sizeof_Header. destruct (Z.leb_spec 4 (h + zlen c)); [|lia].
  assert (header_payload_size little (image h u c) = Ret (zlen c)) as -> by (apply read_size; powlia). obind. replace (h + zlen c - zlen c) with h by lia. rewrite !(uwrap_small 32) by powlia. destruct (Z.ltb_spec (h + zlen c) h); [lia|].
  rewrite AlignInt_4 by powlia. unfold pad. rewrite Hm. change ((4 - 0) mod 4) with 0. rewrite Z.add_0_r, Z.eqb_refl. cbn [negb]. destruct (Z.eqb_spec h 0); [lia|]. done.
Qed.
(** A block of any content that takes the image of a pickle holds its payload. *)
Lemma Resize_any n m h o cap : 0 <= n < 2 ^ 34 - 64 -> 4 <= h <= 64 -> cap <> kCapacityReadOnly ->
  exists m', Resize realloc_ok fill n (mkPickle m h cap o) = Ret (mkPickle (Some m') h (AlignInt n kPayloadUnit) o) /\ zlen m' = h + AlignInt n kPayloadUnit.
Proof.
  intros Hn Hh Hc. pose proof (AlignInt_64 n ltac:(powlia)). unfold Resize, guard_or. cbn [capacity_after_header_ header_ header_size_ write_offset_]. destruct (Z.eqb_spec cap kCapacityReadOnly); [done|]. cbn [negb].
  rewrite uwrap_small by powlia. unfold realloc. rewrite Hrealloc by powlia. eexists. split; [done|]. apply zlen_take_fill. lia.
Qed.
Lemma put_image u c h cap m : 4 + zlen u = h -> 4 <= h <= 64 -> h mod 4 = 0 -> zlen c mod 4 = 0 -> zlen c < 2 ^ 32 -> zlen c <= cap < 2 ^ 34 -> zlen m = h + cap ->
  exists m', mem_write m 0 (image h u c) = Ret m' /\ rep (mkPickle (Some m') h cap (zlen c)) h c.
Proof.
  intros Hu Hh Hm Ha Hs Hcap Hl. pose proof (zlen_nonneg c). destruct (room_split m (h + zlen c)) as (x & r & -> & Hx); [lia|]. rewrite zlen_app in Hl. pose proof (zlen_image h u c Hu) as Hi.
  rewrite write_front by (unfold zlen in *; lia). eexists. split; [done|]. split; cbn; try done; try lia. exists u, r. unfold image. rewrite <- !app_assoc. split; [done|]. split; lia.
Qed.
Lemma read_image p h c : rep p h c -> exists u m, header_ p = Some m /\ 4 + zlen u = h /\ header_payload_size little m = Ret (zlen c) /\ u64 (h + zlen c) = zlen (image h u c) /\ mem_read m 0 (zlen (image h u c)) = Ret (image h u c).
Proof.
  intros [(u & room & Hm & Hu & Hroom) Hh Ho Hc Hs Ha Hh2]. pose proof (zlen_nonneg c). exists u. eexists. split; [exact Hm|]. split; [done|]. split; [by apply read_size|]. rewrite zlen_image, uwrap_small by (done || powlia). split; [done|].
  rewrite (app_assoc u c room), (app_assoc (host 4 (zlen c))). rewrite read_front; [done|]. rewrite !zlen_app, zlen_host. lia.
Qed.
Lemma copy_rep other h c : rep other h c -> exists p, Pickle_copy little realloc_ok fill other = Ret p /\ rep p h c.
Proof.
  intros Hr. destruct (read_image other h c Hr) as (u & m & Em & Hu & En & El & Ei). destruct Hr as [_ Hh Ho _ Hs Ha [Hh1 Hh2]]. pose proof (zlen_nonneg c). unfold Pickle_copy, the_block. rewrite Em. obind. rewrite En. obind. rewrite Hh, El.
  pose proof (zlen_image h u c Hu). pose proof (AlignInt_64 (zlen (image h u c)) ltac:(powlia)). destruct (Resize_any (zlen (image h u c)) None h (write_offset_ other) 0) as (m' & -> & Hm'); [powlia|done|done|]. obind. rewrite Ei. obind. cbn [header_]. obind.
  destruct (put_image u c h (AlignInt (zlen (image h u c)) kPayloadUnit) m') as (m2 & -> & H2); [done..|powlia|done|]. obind. eexists. split; [done|]. cbn. by rewrite Ho.
Qed.
(** Assignment, to a pickle that owns its block or to one that only reads. *)
Lemma assign_rep p other h c : rep other h c -> capacity_after_header_ p = kCapacityReadOnly \/ (exists h' c', rep p h' c') -> exists p', assign little realloc_ok fill p other = Ret p' /\ rep p' h c.
Proof.
  intros Hr Hp. destruct (read_image other h c Hr) as (u & m & Em & Hu & En & El & Ei). destruct Hr as [_ Hh Ho _ Hs Ha [Hh1 Hh2]]. pose proof (zlen_nonneg c). unfold assign.
  set (p1 := if capacity_after_header_ p =? kCapacityReadOnly then _ else p). set (p2 := if negb (header_size_ p1 =? header_size_ other) then _ else p1).
  assert (capacity_after_header_ p1 <> kCapacityReadOnly) as Hc1 by (unfold p1; by destruct (Z.eqb_spec (capacity_after_header_ p) kCapacityReadOnly)).
  assert (exists b cap o, p2 = mkPickle b h cap o /\ cap <> kCapacityReadOnly) as (b & cap & o & -> & Hc2).
  { unfold p2. destruct (Z.eqb_spec (header_size_ p1) (header_size_ other)) as [E|]; cbn [negb]; [|rewrite Hh; by eexists _, _, _]. rewrite Hh in E. destruct p1 as [b h1 cap o]. cbn in *. subst. by eexists _, _, _. }
  unfold the_block. rewrite Em. obind. rewrite En. obind. pose proof (AlignInt_64 (zlen c) ltac:(powlia)). destruct (Resize_any (zlen c) b h o cap) as (m' & -> & Hm'); [powlia|done|done|]. obind. rewrite Hh, El, Ei. obind. cbn [header_]. obind.
  destruct (put_image u c h (AlignInt (zlen c) kPayloadUnit) m') as (m2 & -> & H2); [done..|powlia|done|]. obind. eexists. split; [done|]. cbn. by rewrite Ho.
Qed.

(** * Reading *)
(** An iterator whose payload ends inside its memory. *)
Definition it_ok (it : iterator) : Prop :=
  0 <= read_index_ it <= end_index_ it /\ end_index_ it < 2 ^ 32 /\ match payload_ it with Some m => end_index_ it <= zlen m | None => end_index_ it = 0 end.
(** An iterator before [c] in a payload that ends with it. *)
Definition before (it : iterator) (c : bytes) : Prop :=
  it_ok it /\ exists pre extra, payload_ it = Some (pre ++ c ++ extra) /\ read_index_ it = zlen pre /\ end_index_ it = zlen pre + zlen c.

Lemma Advance_ok n it : it_ok it -> 0 <= n <= end_index_ it - read_index_ it -> it_ok (Advance n it) /\ end_index_ (Advance n it) = end_index_ it /\ payload_ (Advance n it) = payload_ it.
Proof.
  intros (Hi & He & Hm) Hn. unfold Advance. rewrite AlignInt_4 by powlia. pose proof (pad_range n). rewrite (uwrap_small _ (end_index_ it - _)) by powlia.
  destruct (Z.ltb_spec (end_index_ it - read_index_ it) (n + pad n)); cbn; unfold it_ok; cbn; [repeat split; done || lia|]. rewrite uwrap_small by powlia. repeat split; done || lia.
Qed.
Lemma to_end_ok it : it_ok it -> it_ok (set_read_index (end_index_ it) it).
Proof. intros (Hi & He & Hm). unfold it_ok. cbn. repeat split; done || lia. Qed.
(** The pointers to [n] bytes stay inside the payload. *)
Definition pointer_ok (n : Z) (it : iterator) (pi : option Z * iterator) : Prop :=
  it_ok pi.2 /\ match pi.1 with Some q => 0 <= n /\ exists m, payload_ it = Some m /\ 0 <= q /\ q + n <= zlen m | None => True end.
Lemma pointer_here n it : it_ok it -> 0 <= n <= end_index_ it - read_index_ it -> pointer_ok n it (read_pointer it, Advance n it).
Proof.
  intros Hi Hn. destruct (Advance_ok n it Hi Hn) as (Ha & _ & _). split; [exact Ha|]. cbn. unfold read_pointer. destruct Hi as (Hi & _ & Hm). destruct (payload_ it) as [m|]; [|done]. split; [lia|]. exists m. split; [done|lia].
Qed.
Lemma GetReadPointer_type_ok k it : it_ok it -> pointer_ok (Z.of_nat k) it (GetReadPointer_type k it).
Proof.
  intros Hi. pose proof Hi as (Hi1 & Hi2 & _). unfold GetReadPointer_type. rewrite uwrap_small by powlia. destruct (Z.ltb_spec (end_index_ it - read_index_ it) (Z.of_nat k)); [split; [by apply to_end_ok|done]|].
  apply pointer_here; [done|lia].
Qed.
Lemma GetReadPointer_bytes_ok n it : it_ok it -> - 2 ^ 31 <= n < 2 ^ 31 -> pointer_ok n it (GetReadPointer_bytes n it).
Proof.
  intros Hi Hn. pose proof Hi as (Hi1 & Hi2 & _). unfold GetReadPointer_bytes. destruct (Z.ltb_spec n 0); cbn [orb]; [split; [by apply to_end_ok|done]|]. rewrite !uwrap_small by powlia.
  destruct (Z.ltb_spec (end_index_ it - read_index_ it) n); [split; [by apply to_end_ok|done]|]. apply pointer_here; [done|lia].
Qed.
Lemma GetReadPointer_array_ok n k it : it_ok it -> - 2 ^ 31 <= n < 2 ^ 31 -> 1 <= k <= 8 -> pointer_ok (n * k) it (GetReadPointer_array n k it).
Proof.
  intros Hi Hn Hk. assert (- 2 ^ 34 <= n * k <= 2 ^ 34) by (change (2 ^ 34) with (2 ^ 31 * 8); nia). unfold GetReadPointer_array. rewrite swrap_uwrap by lia. rewrite swrap_small by powlia. destruct (Z.eqb_spec (n * k) (s32 (n * k))) as [E|]; cbn [negb]; [|split; done].
  rewrite <- E. apply GetReadPointer_bytes_ok; [done|]. rewrite E. unfold swrap. powlia.
Qed.
Lemma read_memory_ok n it q : match q with Some q => 0 <= n /\ exists m, payload_ it = Some m /\ 0 <= q /\ q + n <= zlen m | None => True end ->
  match q with Some q => exists l, read_memory it q n = Ret l /\ zlen l = n | None => True end.
Proof. destruct q as [q|]; [|done]. intros (Hn & m & Em & Hq & Hl). unfold read_memory. rewrite Em, mem_read_ok by lia. eexists. split; [done|]. by apply zlen_zslice. Qed.

(** ** Reading what was written *)
Lemma advance_before d n it c : before it (padded d ++ c) -> 0 <= n -> n + pad n = zlen (padded d) -> before (Advance n it) c.
Proof.
  intros [Hok (pre & extra & Em & Ei & Ee)] Hn Hp. pose proof Hok as (Hi & He & _). rewrite zlen_app in Ee. pose proof (pad_range n). pose proof (zlen_nonneg c). pose proof (zlen_nonneg pre).
  split; [apply Advance_ok; [done|lia]|]. exists (pre ++ padded d), extra. unfold Advance. rewrite AlignInt_4 by powlia. rewrite (uwrap_small _ (end_index_ it - _)) by powlia.
  destruct (Z.ltb_spec (end_index_ it - read_index_ it) (n + pad n)); [lia|]. cbn. rewrite uwrap_small by powlia. rewrite !zlen_app. rewrite Em, <- !app_assoc. repeat split; lia.
Qed.
Lemma pointer_before d it c : before it (d ++ c) -> exists q, read_pointer it = Some q /\ forall n, 0 <= n <= zlen d -> read_memory it q n = Ret (take (Z.to_nat n) d).
Proof.
  intros [_ (pre & extra & Em & Ei & Ee)]. exists (zlen pre). unfold read_pointer, read_memory. rewrite Em, Ei. split; [done|]. intros n Hn. rewrite <- !app_assoc.
  rewrite <- (take_drop (Z.to_nat n) d) at 1. rewrite <- !app_assoc. apply read_middle; [done|]. unfold zlen in *. rewrite length_take. lia.
Qed.
Lemma left_before d it c : before it (d ++ c) -> u64 (end_index_ it - read_index_ it) = zlen d + zlen c /\ zlen d + zlen c < 2 ^ 32.
Proof. intros [(Hi & He & _) (pre & extra & Em & Ei & Ee)]. rewrite zlen_app in Ee. pose proof (zlen_nonneg pre). pose proof (zlen_nonneg d). pose proof (zlen_nonneg c). rewrite uwrap_small by powlia. lia. Qed.
Lemma take_padded d n : 0 <= n <= zlen d -> take (Z.to_nat n) (padded d) = take (Z.to_nat n) d.
Proof. intros. unfold padded. rewrite take_app_le; [done|]. unfold zlen in *. lia. Qed.
Lemma ReadBuiltinType_before k d it c : before it (padded d ++ c) -> Z.of_nat k <= zlen d -> Z.of_nat k + pad (Z.of_nat k) = zlen (padded d) ->
  exists it', ReadBuiltinType little k it = Ret (Some (host_val little (take k d)), it') /\ before it' c.
Proof.
  intros Hb Hk Hp. destruct (left_before _ _ _ Hb) as [Hl _]. pose proof (zlen_nonneg c). pose proof (pad_range (Z.of_nat k)). unfold ReadBuiltinType, GetReadPointer_type. rewrite Hl.
  destruct (Z.ltb_spec (zlen (padded d) + zlen c) (Z.of_nat k)); [lia|]. destruct (pointer_before _ _ _ Hb) as (q & -> & Hq). rewrite Hq by lia. obind. rewrite take_padded by lia. rewrite Nat2Z.id.
  eexists. split; [done|]. eapply advance_before; [exact Hb|lia|done].
Qed.
Lemma scalar_before k x it c : (1 <= k <= 8)%nat -> before it (padded (host k x) ++ c) -> exists it', ReadBuiltinType little k it = Ret (Some (x mod 256 ^ Z.of_nat k), it') /\ before it' c.
Proof.
  intros Hk Hb. destruct (ReadBuiltinType_before k (host k x) it c Hb) as (it' & E & Hb'); [by rewrite zlen_host|by rewrite zlen_padded, zlen_host|].
  exists it'. split; [|done]. rewrite E. rewrite take_ge by (by rewrite length_host). by rewrite host_val_bytes.
Qed.
Lemma signed_before k x it c : (1 <= k <= 8)%nat -> - 2 ^ (8 * Z.of_nat k - 1) <= x < 2 ^ (8 * Z.of_nat k - 1) -> before it (padded (host k x) ++ c) ->
  exists it', ReadSigned little k it = Ret (Some x, it') /\ before it' c.
Proof.
  intros Hk Hx Hb. destruct (scalar_before k x it c Hk Hb) as (it' & E & Hb'). exists it'. split; [|done]. unfold ReadSigned. rewrite E. obind. cbn [option_map]. do 3 f_equal.
  change 256 with (2 ^ 8). rewrite <- Z.pow_mul_r by lia. change (x mod 2 ^ (8 * Z.of_nat k)) with (uwrap (8 * Z.of_nat k) x). rewrite swrap_uwrap by lia. apply swrap_small; [lia|done].
Qed.
Lemma unsigned_before k x it c : (1 <= k <= 8)%nat -> 0 <= x < 2 ^ (8 * Z.of_nat k) -> before it (padded (host k x) ++ c) ->
  exists it', ReadBuiltinType little k it = Ret (Some x, it') /\ before it' c.
Proof.
  intros Hk Hx Hb. destruct (scalar_before k x it c Hk Hb) as (it' & E & Hb'). exists it'. split; [|done]. rewrite E. do 3 f_equal.
  change 256 with (2 ^ 8). rewrite <- Z.pow_mul_r by lia. by apply Z.mod_small.
Qed.
Lemma pointer_bytes_before d it c : before it (padded d ++ c) -> zlen d < 2 ^ 31 ->
  exists q it', GetReadPointer_bytes (zlen d) it = (Some q, it') /\ read_memory it q (zlen d) = Ret d /\ before it' c.
Proof.
  intros Hb Hd. destruct (left_before _ _ _ Hb) as [Hl _]. pose proof (zlen_nonneg c). pose proof (zlen_nonneg d). pose proof (pad_range (zlen d)). unfold GetReadPointer_bytes. rewrite Hl. rewrite (uwrap_small _ (zlen d)) by powlia. rewrite zlen_padded.
  destruct (Z.ltb_spec (zlen d) 0); [lia|]. destruct (Z.ltb_spec (zlen d + pad (zlen d) + zlen c) (zlen d)); [lia|]. cbn [orb]. destruct (pointer_before _ _ _ Hb) as (q & -> & Hq). exists q. eexists. split; [done|]. split.
  - rewrite Hq by (rewrite zlen_padded; lia). rewrite take_padded by lia. rewrite take_ge; [done|]. unfold zlen. lia.
  - eapply advance_before; [exact Hb|lia|by rewrite zlen_padded].
Qed.
Lemma ReadBytes_before d it c : before it (padded d ++ c) -> zlen d < 2 ^ 31 -> exists it', ReadBytes (zlen d) it = Ret (Some d, it') /\ before it' c.
Proof. intros Hb Hd. destruct (pointer_bytes_before d it c Hb Hd) as (q & it' & E & Em & Hb'). exists it'. unfold ReadBytes. rewrite E, Em. done. Qed.
Lemma zlen_units k us : zlen (units_bytes little k us) = zlen us * Z.of_nat k.
Proof. unfold units_bytes. induction us as [|x us IH]; [done|]. cbn [map concat]. rewrite zlen_app, zlen_cons, zlen_host, IH. lia. Qed.
Lemma units_of_bytes k us : Forall (fun u => 0 <= u < 2 ^ (8 * Z.of_nat k)) us -> units_of little (length us) k (units_bytes little k us) = us.
Proof.
  induction 1 as [|x us Hx _ IH]; [done|]. unfold units_bytes in *. cbn [length units_of map concat].
  rewrite take_app_le by (by rewrite length_host). rewrite take_ge by (by rewrite length_host). rewrite drop_app_ge by (by rewrite length_host). rewrite length_host, Nat.sub_diag, drop_0, IH. by rewrite host_bytes_mod.
Qed.
Lemma ReadUnits_before k us it c : (1 <= k <= 8)%nat -> Forall (fun u => 0 <= u < 2 ^ (8 * Z.of_nat k)) us -> zlen us * Z.of_nat k < 2 ^ 31 -> before it (padded (units_bytes little k us) ++ c) ->
  exists it', ReadUnits little k (zlen us) it = Ret (Some us, it') /\ before it' c.
Proof.
  intros Hk Hu Hl Hb. pose proof (zlen_nonneg us). destruct (pointer_bytes_before _ it c Hb) as (q & it' & E & Em & Hb'); [by rewrite zlen_units|]. rewrite zlen_units in E, Em.
  exists it'. split; [|done]. unfold ReadUnits, GetReadPointer_array. assert (0 <= zlen us * Z.of_nat k) by nia. rewrite (uwrap_small 64) by powlia. rewrite (swrap_small 64) by powlia. rewrite (swrap_small 32) by powlia. rewrite Z.eqb_refl. cbn [negb].
  rewrite E, Em. obind. unfold zlen at 1. rewrite Nat2Z.id. by rewrite units_of_bytes.
Qed.
Lemma after_length_before {A} (k : Z -> iterator -> outcome (option A * iterator)) n it c : 0 <= n < 2 ^ 31 -> before it (padded (host 4 n) ++ c) -> exists it', after_length little k it = k n it' /\ before it' c.
Proof.
  intros Hn Hb. destruct (signed_before 4 n it c) as (it' & E & Hb'); [lia|change (8 * Z.of_nat 4 - 1) with 31; lia|done|]. exists it'. split; [|done]. unfold after_length, ReadInt. rewrite E. done.
Qed.

(** * Kinds of values *)
Inductive kind := KBool | KInt | KLong | KUInt16 | KUInt32 | KInt64 | KUInt64 | KFloat | KDouble | KString | KWString | KString16 | KData | KBytes (length : Z).
Definition carrier (k : kind) : Type := match k with KString | KData | KBytes _ | KWString | KString16 => list Z | _ => Z end.
Definition write (k : kind) : carrier k -> pickle -> outcome pickle :=
  match k with
  | KBool => fun v => WriteBool dcheck_on little realloc_ok fill (negb (v =? 0))
  | KInt => WriteInt dcheck_on little realloc_ok fill
  | KLong => WriteLong dcheck_on little realloc_ok fill
  | KUInt16 => WriteUInt16 dcheck_on little realloc_ok fill
  | KUInt32 => WriteUInt32 dcheck_on little realloc_ok fill
  | KInt64 => WriteInt64 dcheck_on little realloc_ok fill
  | KUInt64 => WriteUInt64 dcheck_on little realloc_ok fill
  | KFloat => WriteFloat dcheck_on little realloc_ok fill
  | KDouble => WriteDouble dcheck_on little realloc_ok fill
  | KString => WriteString dcheck_on little realloc_ok fill
  | KWString => WriteWString dcheck_on little realloc_ok fill
  | KString16 => WriteString16 dcheck_on little realloc_ok fill
  | KData => fun d p => '(_, p) ← WriteData dcheck_on little realloc_ok fill d (zlen d) p; Ret p
  | KBytes n => fun d => WriteBytes dcheck_on little realloc_ok fill d n
  end.
Definition read (k : kind) : iterator -> outcome (option (carrier k) * iterator) :=
  match k with
  | KBool => ReadBool little
  | KInt => ReadInt little
  | KLong => ReadLong little
  | KUInt16 => ReadUInt16 little
  | KUInt32 => ReadUInt32 little
  | KInt64 => ReadInt64 little
  | KUInt64 => ReadUInt64 little
  | KFloat => ReadFloat little
  | KDouble => ReadDouble little
  | KString => ReadString little
  | KWString => ReadWString little
  | KString16 => ReadString16 little
  | KData => ReadData little
  | KBytes n => ReadBytes n
  end.
(** The values of a kind. A [bool] is written as an [int] and read as its first byte,
    which only holds its value when that is the low one. *)
Definition fits (k : kind) : carrier k -> Prop :=
  match k with
  | KBool => fun v => (v = 0 \/ v = 1) /\ little = true
  | KInt => fun v => - 2 ^ 31 <= v < 2 ^ 31
  | KLong | KInt64 => fun v => - 2 ^ 63 <= v < 2 ^ 63
  | KUInt16 => fun v => 0 <= v < 2 ^ 16
  | KUInt32 | KFloat => fun v => 0 <= v < 2 ^ 32
  | KUInt64 | KDouble => fun v => 0 <= v < 2 ^ 64
  | KString | KData => fun s => zlen s < 2 ^ 31
  | KWString => fun s => zlen s * 4 < 2 ^ 31 /\ Forall (fun u => 0 <= u < 2 ^ 32) s
  | KString16 => fun s => zlen s * 2 < 2 ^ 31 /\ Forall (fun u => 0 <= u < 2 ^ 16) s
  | KBytes n => fun d => zlen d = n /\ n < 2 ^ 31
  end.
Definition encode (k : kind) : carrier k -> bytes :=
  match k with
  | KBool | KInt | KUInt32 | KFloat => fun v => padded (host 4 v)
  | KLong | KInt64 | KUInt64 | KDouble => fun v => padded (host 8 v)
  | KUInt16 => fun v => padded (host 2 v)
  | KString | KData => fun s => padded (host 4 (zlen s)) ++ padded s
  | KWString => fun s => padded (host 4 (zlen s)) ++ padded (units_bytes little 4 s)
  | KString16 => fun s => padded (host 4 (zlen s)) ++ padded (units_bytes little 2 s)
  | KBytes _ => padded
  end.
(** What a kind promises to those who write and read sequences of values. *)
Class Portable (k : kind) : Prop := {
  write_encode p h c x : rep p h c -> fits k x -> zlen c + zlen (encode k x) <= kuint32max -> exists p', write k x p = Ret p' /\ rep p' h (c ++ encode k x);
  read_encode it c x : fits k x -> before it (encode k x ++ c) -> exists it', read k it = Ret (Some x, it') /\ before it' c;
  read_stays it : it_ok it -> exists r it', read k it = Ret (r, it') /\ it_ok it' }.

Lemma WritePOD_rep k x p h c : rep p h c -> zlen c + zlen (padded (host k x)) <= kuint32max -> exists p', WritePOD dcheck_on little realloc_ok fill k x p = Ret p' /\ rep p' h (c ++ padded (host k x)).
Proof. intros Hp Hl. unfold WritePOD. rewrite <- (zlen_host k x). by apply WriteBytesCommon_rep. Qed.
Lemma WriteBytes_rep d p h c : rep p h c -> zlen c + zlen (padded d) <= kuint32max -> exists p', WriteBytes dcheck_on little realloc_ok fill d (zlen d) p = Ret p' /\ rep p' h (c ++ padded d).
Proof.
  intros Hp Hl. pose proof (zlen_nonneg c). pose proof (zlen_nonneg d). pose proof (pad_range (zlen d)). unfold WriteBytes. rewrite uwrap_small; [by apply WriteBytesCommon_rep|].
  rewrite zlen_padded in Hl. unfold kuint32max in Hl. powlia.
Qed.
Lemma length_then_bytes n d p h c : rep p h c -> zlen c + zlen (padded (host 4 n) ++ padded d) <= kuint32max ->
  exists p', (p ← WriteInt dcheck_on little realloc_ok fill n p; WriteBytes dcheck_on little realloc_ok fill d (zlen d) p) = Ret p' /\ rep p' h (c ++ padded (host 4 n) ++ padded d).
Proof.
  intros Hp Hl. rewrite zlen_app in Hl. pose proof (zlen_nonneg (padded d)). destruct (WritePOD_rep 4 n p h c Hp) as (p1 & E1 & H1); [lia|]. unfold WriteInt. rewrite E1. obind. rewrite (app_assoc c).
  apply WriteBytes_rep; [done|]. rewrite zlen_app. lia.
Qed.
Lemma ReadBuiltinType_stays k it : it_ok it -> exists r it', ReadBuiltinType little k it = Ret (r, it') /\ it_ok it'.
Proof.
  intros Hi. unfold ReadBuiltinType. destruct (GetReadPointer_type_ok k it Hi) as [H1 H2]. destruct (GetReadPointer_type k it) as [q it']. cbn in H1, H2. apply read_memory_ok in H2.
  destruct q as [q|]; [destruct H2 as (l & -> & _)|]; by eexists _, _.
Qed.
Lemma ReadSigned_stays k it : it_ok it -> exists r it', ReadSigned little k it = Ret (r, it') /\ it_ok it' /\ match r with Some v => - 2 ^ (8 * Z.of_nat k - 1) <= v < 2 ^ (8 * Z.of_nat k - 1) \/ k = 0%nat | None => True end.
Proof.
  intros Hi. unfold ReadSigned. destruct (ReadBuiltinType_stays k it Hi) as (r & it' & -> & H). obind. eexists _, it'. split; [done|]. split; [done|]. destruct r as [v|]; [|done]. cbn. destruct k as [|k]; [by right|left].
  unfold swrap. set (w := 8 * Z.of_nat (S k)). assert (0 < 2 ^ (w - 1)) by (apply Z.pow_pos_nonneg; lia). assert (2 ^ w = 2 * 2 ^ (w - 1)) as E by (rewrite <- Z.pow_succ_r by lia; f_equal; lia).
  pose proof (Z.mod_pos_bound (v + 2 ^ (w - 1)) (2 ^ w) ltac:(lia)). lia.
Qed.
Lemma ReadBytes_stays n it : it_ok it -> - 2 ^ 31 <= n < 2 ^ 31 -> exists r it', ReadBytes n it = Ret (r, it') /\ it_ok it'.
Proof.
  intros Hi Hn. unfold ReadBytes. destruct (GetReadPointer_bytes_ok n it Hi Hn) as [H1 H2]. destruct (GetReadPointer_bytes n it) as [q it']. cbn in H1, H2. apply read_memory_ok in H2.
  destruct q as [q|]; [destruct H2 as (l & -> & _)|]; by eexists _, _.
Qed.
Lemma ReadUnits_stays k n it : (1 <= k <= 8)%nat -> it_ok it -> - 2 ^ 31 <= n < 2 ^ 31 -> exists r it', ReadUnits little k n it = Ret (r, it') /\ it_ok it'.
Proof.
  intros Hk Hi Hn. unfold ReadUnits. destruct (GetReadPointer_array_ok n (Z.of_nat k) it Hi Hn) as [H1 H2]; [lia|]. destruct (GetReadPointer_array n (Z.of_nat k) it) as [q it']. cbn in H1, H2. apply read_memory_ok in H2.
  destruct q as [q|]; [destruct H2 as (l & -> & _)|]; by eexists _, _.
Qed.
Lemma after_length_stays {A} (k : Z -> iterator -> outcome (option A * iterator)) it : it_ok it ->
  (forall n it, it_ok it -> - 2 ^ 31 <= n < 2 ^ 31 -> exists r it', k n it = Ret (r, it') /\ it_ok it') -> exists r it', after_length little k it = Ret (r, it') /\ it_ok it'.
Proof.
  intros Hi Hk. unfold after_length, ReadInt. destruct (ReadSigned_stays 4 it Hi) as (r & it' & -> & H & Hv). obind. destruct r as [n|]; [|by eexists _, _]. apply Hk; [done|]. destruct Hv as [Hv|]; [exact Hv|done].
Qed.

(** ** Scalars *)
Lemma signed_stays k it : it_ok it -> exists r it', ReadSigned little k it = Ret (r, it') /\ it_ok it'.
Proof. intros Hi. destruct (ReadSigned_stays k it Hi) as (r & it' & E & H & _). by exists r, it'. Qed.
Ltac scalar_kind k before stays :=
  split; [intros p h c x Hp _ Hl; exact (WritePOD_rep k x p h c Hp Hl)|intros it c x Hx Hb; exact (before k x it c ltac:(lia) Hx Hb)|exact (stays k)].
#[export] Instance portable_int : Portable KInt.
Proof. scalar_kind 4%nat signed_before signed_stays. Qed.
#[export] Instance portable_long : Portable KLong.
Proof. scalar_kind 8%nat signed_before signed_stays. Qed.
#[export] Instance portable_uint16 : Portable KUInt16.
Proof. scalar_kind 2%nat unsigned_before ReadBuiltinType_stays. Qed.
#[export] Instance portable_uint32 : Portable KUInt32.
Proof. scalar_kind 4%nat unsigned_before ReadBuiltinType_stays. Qed.
#[export] Instance portable_int64 : Portable KInt64.
Proof. scalar_kind 8%nat signed_before signed_stays. Qed.
#[export] Instance portable_uint64 : Portable KUInt64.
Proof. scalar_kind 8%nat unsigned_before ReadBuiltinType_stays. Qed.
#[export] Instance portable_float : Portable KFloat.
Proof. scalar_kind 4%nat unsigned_before ReadBuiltinType_stays. Qed.
#[export] Instance portable_double : Portable KDouble.
Proof. scalar_kind 8%nat unsigned_before ReadBuiltinType_stays. Qed.
#[export] Instance portable_bool : Portable KBool.
Proof.
  split.
  - intros p h c x Hp [Hx _] Hl. cbn [write encode] in *. assert ((if negb (x =? 0) then 1 else 0) = x) as E by (destruct Hx as [-> | ->]; done). unfold WriteBool. rewrite E. by apply WritePOD_rep.
  - intros it c x [Hx Hlit] Hb. cbn [read encode] in *. destruct (ReadBuiltinType_before 1 (host 4 x) it c Hb) as (it' & E & Hb'); [by rewrite zlen_host|by rewrite zlen_padded, zlen_host|].
    exists it'. split; [|done]. unfold ReadBool. rewrite E. do 3 f_equal. rewrite Hlit. destruct Hx as [-> | ->]; done.
  - intros it Hi. by apply ReadBuiltinType_stays.
Qed.
(** ** Strings *)
#[export] Instance portable_string : Portable KString.
Proof.
  split.
  - intros p h c x Hp Hx Hl. cbn [write encode fits] in *. pose proof (zlen_nonneg x). unfold WriteString. rewrite swrap_small by powlia. by apply length_then_bytes.
  - intros it c x Hx Hb. cbn [read encode fits] in *. rewrite <- app_assoc in Hb. destruct (after_length_before ReadBytes (zlen x) it _ (conj (zlen_nonneg x) Hx) Hb) as (it' & E & Hb'). unfold ReadString. rewrite E. by apply ReadBytes_before.
  - intros it Hi. apply after_length_stays; [done|]. intros. by apply ReadBytes_stays.
Qed.
#[export] Instance portable_data : Portable KData.
Proof.
  split.
  - intros p h c x Hp Hx Hl. cbn [write encode fits] in *. pose proof (zlen_nonneg x). unfold WriteData. destruct (Z.leb_spec 0 (zlen x)); [|lia].
    destruct (length_then_bytes (zlen x) x p h c Hp Hl) as (p' & E & H'). exists p'. split; [|done]. destruct (WriteInt dcheck_on little realloc_ok fill (zlen x) p) as [q|]; [|done]. cbn in *. by rewrite E.
  - intros it c x Hx Hb. cbn [read encode fits] in *. rewrite <- app_assoc in Hb. destruct (after_length_before ReadBytes (zlen x) it _ (conj (zlen_nonneg x) Hx) Hb) as (it' & E & Hb'). unfold ReadData. rewrite E. by apply ReadBytes_before.
  - intros it Hi. apply after_length_stays; [done|]. intros. by apply ReadBytes_stays.
Qed.
Lemma units_portable k x it c : (1 <= k <= 4)%nat -> zlen x * Z.of_nat k < 2 ^ 31 -> Forall (fun u => 0 <= u < 2 ^ (8 * Z.of_nat k)) x -> before it ((padded (host 4 (zlen x)) ++ padded (units_bytes little k x)) ++ c) ->
  exists it', after_length little (ReadUnits little k) it = Ret (Some x, it') /\ before it' c.
Proof.
  intros Hk Hl Hx Hb. pose proof (zlen_nonneg x). rewrite <- app_assoc in Hb. destruct (after_length_before (ReadUnits little k) (zlen x) it _ ltac:(nia) Hb) as (it' & E & Hb'). rewrite E. apply ReadUnits_before; done || lia.
Qed.
#[export] Instance portable_wstring : Portable KWString.
Proof.
  split.
  - intros p h c x Hp [Hx _] Hl. cbn [write encode] in *. pose proof (zlen_nonneg x). pose proof (zlen_units 4 x) as E. change (Z.of_nat 4) with 4 in E. unfold WriteWString. rewrite (uwrap_small 64) by powlia. rewrite !swrap_small by powlia. rewrite <- E. by apply length_then_bytes.
  - intros it c x [Hx Hu] Hb. by apply units_portable; [lia|..].
  - intros it Hi. apply after_length_stays; [done|]. intros. apply ReadUnits_stays; done || lia.
Qed.
#[export] Instance portable_string16 : Portable KString16.
Proof.
  split.
  - intros p h c x Hp [Hx _] Hl. cbn [write encode] in *. pose proof (zlen_nonneg x). pose proof (zlen_units 2 x) as E. change (Z.of_nat 2) with 2 in E. unfold WriteString16. rewrite (swrap_small 32 (zlen x)) by powlia. rewrite (uwrap_small 64) by powlia. rewrite !swrap_small by powlia. rewrite <- E. by apply length_then_bytes.
  - intros it c x [Hx Hu] Hb. by apply units_portable; [lia|..].
  - intros it Hi. apply after_length_stays; [done|]. intros. apply ReadUnits_stays; done || lia.
Qed.
Definition kind_ok (k : kind) : Prop := match k with KBytes n => - 2 ^ 31 <= n < 2 ^ 31 | _ => True end.
Lemma portable_bytes n : - 2 ^ 31 <= n < 2 ^ 31 -> Portable (KBytes n).
Proof.
  intros Hn. split.
  - intros p h c x Hp [Hx _] Hl. cbn [write encode] in *. rewrite <- Hx. by apply WriteBytes_rep.
  - intros it c x [Hx Hn'] Hb. cbn [read encode] in *. rewrite <- Hx. apply ReadBytes_before; [done|lia].
  - intros it Hi. by apply ReadBytes_stays.
Qed.
Lemma all_portable k : kind_ok k -> Portable k.
Proof. destruct k; try (intros _; exact _). apply portable_bytes. Qed.

(** * Sequences of values *)
Definition item : Type := { k : kind & carrier k }.
Definition item_ok (x : item) : Prop := kind_ok (projT1 x) /\ fits (projT1 x) (projT2 x).
Fixpoint write_all (items : list item) (p : pickle) : outcome pickle :=
  match items with [] => Ret p | existT k x :: items => p ← write k x p; write_all items p end.
Definition encode_all (items : list item) : bytes := concat (map (fun x => encode (projT1 x) (projT2 x)) items).
(** One read after the other, whether those before succeed or not. *)
Fixpoint read_each (ks : list kind) (it : iterator) : outcome (list (option item) * iterator) :=
  match ks with
  | [] => Ret ([], it)
  | k :: ks => '(x, it) ← read k it; '(l, it) ← read_each ks it; Ret (option_map (existT k) x :: l, it)
  end.

Lemma write_all_rep items : forall p h c, rep p h c -> Forall item_ok items -> zlen c + zlen (encode_all items) <= kuint32max -> exists p', write_all items p = Ret p' /\ rep p' h (c ++ encode_all items).
Proof.
  induction items as [|[k x] items IH]; intros p h c Hp Hi Hl; [exists p; by rewrite app_nil_r|]. apply Forall_cons_1 in Hi as [[Hk Hx] Hi]. cbn [projT1 projT2] in *. pose proof (all_portable k Hk).
  change (encode_all (existT k x :: items)) with (encode k x ++ encode_all items) in *. rewrite zlen_app in Hl. pose proof (zlen_nonneg (encode_all items)).
  destruct (write_encode p h c x Hp Hx) as (p1 & E & H1); [lia|]. cbn [write_all]. rewrite E. obind. rewrite (app_assoc c). apply IH; [done|done|]. rewrite zlen_app. lia.
Qed.
Lemma read_each_before items : forall it c, Forall item_ok items -> before it (encode_all items ++ c) -> exists it', read_each (map (@projT1 _ _) items) it = Ret (map Some items, it') /\ before it' c.
Proof.
  induction items as [|[k x] items IH]; intros it c Hi Hb; [by exists it|]. apply Forall_cons_1 in Hi as [[Hk Hx] Hi]. cbn [projT1 projT2] in *. pose proof (all_portable k Hk).
  change (encode_all (existT k x :: items)) with (encode k x ++ encode_all items) in *. rewrite <- app_assoc in Hb. destruct (read_encode it _ x Hx Hb) as (it1 & E & H1).
  destruct (IH it1 c Hi H1) as (it2 & E2 & H2). exists it2. split; [|done]. cbn [map read_each projT1]. rewrite E. obind. rewrite E2. done.
Qed.
Lemma read_each_stays ks : forall it, it_ok it -> Forall kind_ok ks -> exists l it', read_each ks it = Ret (l, it') /\ length l = length ks /\ it_ok it'.
Proof.
  induction ks as [|k ks IH]; intros it Hi Hk; [by exists [], it|]. apply Forall_cons_1 in Hk as [Hk Hks]. pose proof (all_portable k Hk). destruct (read_stays it Hi) as (x & it1 & E & H1).
  destruct (IH it1 H1 Hks) as (l & it2 & E2 & Hl & H2). exists (option_map (existT k) x :: l), it2. split; [cbn [read_each]; rewrite E; obind; rewrite E2; done|]. split; [cbn; by rewrite Hl|done].
Qed.

Lemma Pickle_header_rep h : 4 <= h <= 64 -> exists p, Pickle_header dcheck_on little realloc_ok fill h = Ret p /\ rep p (AlignInt h 4) [].
Proof.
  intros Hh. unfold Pickle_header, sizeof_Header, kPayloadUnit. rewrite (uwrap_small 64 h) by powlia. rewrite !DCHECK_true by lia. apply Pickle_empty_rep; rewrite AlignInt_4 by powlia; unfold pad; lia.
Qed.
(** What is sent of a pickle, and the iterator of who gets it. *)
Lemma rep_image p h c : rep p h c -> exists u m, header_ p = Some m /\ 4 + zlen u = h /\ size little p = Ret (zlen (image h u c)) /\ mem_read m 0 (zlen (image h u c)) = Ret (image h u c).
Proof.
  intros Hr. destruct (read_image p h c Hr) as (u & m & Em & Hu & En & El & Ei). exists u, m. repeat split; try done. unfold size, the_block. rewrite Em. obind. rewrite En. obind. by rewrite (rep_header _ _ _ Hr), El.
Qed.
Lemma image_before h u c : 4 + zlen u = h -> h + zlen c < 2 ^ 31 -> exists it, PickleIterator_of little (mkPickle (Some (image h u c)) h kCapacityReadOnly 0) = Ret it /\ before it c.
Proof.
  intros Hu Hl. pose proof (zlen_nonneg c). pose proof (zlen_nonneg u). unfold PickleIterator_of, payload_size. cbn [header_ header_size_]. assert (header_payload_size little (image h u c) = Ret (zlen c)) as -> by (apply read_size; powlia). obind. eexists. split; [done|].
  assert (drop (Z.to_nat h) (image h u c) = c) as E by (unfold image; rewrite app_assoc, drop_app_ge; [|rewrite length_app, length_host; unfold zlen in Hu; lia]; rewrite length_app, length_host; replace (Z.to_nat h - (4 + length u))%nat with 0%nat by (unfold zlen in Hu; lia); done).
  split; [unfold it_ok; cbn; rewrite E; powlia|]. exists [], []. cbn. rewrite E, app_nil_r. by change (zlen (@nil Z)) with 0.
Qed.
Lemma data_iterator data : all_bytes data -> zlen data < 2 ^ 31 -> exists p it, Pickle_data little data (zlen data) = Ret p /\ PickleIterator_of little p = Ret it /\ it_ok it.
Proof.
  intros Hb Hl. pose proof (zlen_nonneg data). unfold Pickle_data, sizeof_Header.
  assert (exists h n, (if 4 <=? zlen data then n ← header_payload_size little data; Ret (u32 (zlen data - n)) else Ret 0) = Ret h /\ (h = 0 \/ header_payload_size little data = Ret n /\ h = u32 (zlen data - n) /\ 0 <= n < 2 ^ 32)) as (h & n & -> & Hn).
  { destruct (Z.leb_spec 4 (zlen data)); [|exists 0, 0; auto]. unfold header_payload_size. rewrite mem_read_ok by lia. obind. eexists _, _. split; [done|]. right. split; [done|]. split; [done|].
    assert (all_bytes (zslice 0 4 data)) as Hz by (unfold zslice; by apply Forall_take, Forall_drop). assert (length (zslice 0 4 data) = 4%nat) as Hz4 by (pose proof (zlen_zslice 0 4 data) as E; unfold zlen in *; lia).
    unfold host_val. destruct little.
    - pose proof (le_val_range _ Hz) as Hr. rewrite Hz4 in Hr. exact Hr.
    - unfold be_val. pose proof (le_val_range _ (all_bytes_reverse _ Hz)) as Hr. rewrite length_reverse, Hz4 in Hr. exact Hr. }
  obind. set (h1 := if u32 (zlen data) <? h then 0 else h). set (h2 := if negb (h1 =? AlignInt h1 4) then 0 else h1). exists (mkPickle (if h2 =? 0 then None else Some data) h2 kCapacityReadOnly 0). unfold PickleIterator_of, payload_size. cbn [header_ header_size_].
  assert (h2 = 0 \/ h2 = h /\ h <= u32 (zlen data)) as Hh2 by (unfold h2, h1; destruct (Z.ltb_spec (u32 (zlen data)) h); destruct (negb _); lia).
  destruct (Z.eqb_spec h2 0); [eexists; split; [done|]; obind; split; [done|]; unfold it_ok; cbn; lia|].
  destruct Hh2 as [|[-> Hle]]; [done|]. destruct Hn as [|(En & -> & Hn)]; [done|]. rewrite (uwrap_small 32 (zlen data)) in Hle by powlia. eexists. split; [done|]. rewrite En. obind. split; [done|]. unfold it_ok. cbn.
  assert (n <= zlen data).
  { destruct (Z.le_gt_cases n (zlen data)); [done|]. unfold uwrap in Hle. powlia. }
  rewrite (uwrap_small 32) by powlia. unfold zlen in *. rewrite length_drop. powlia.
Qed.
(** Where the next pickle begins. *)
Lemma FindNext_image h u c rest : 4 + zlen u = h -> h <= 64 -> h mod 4 = 0 -> zlen c < 2 ^ 32 -> FindNext dcheck_on little h (image h u c ++ rest) = Ret (Some (zlen (image h u c))).
Proof.
  intros Hu Hh Hm Hl. pose proof (zlen_nonneg c). pose proof (zlen_nonneg u). pose proof (zlen_nonneg rest). unfold FindNext, kPayloadUnit, sizeof_Header. rewrite AlignInt_4 by powlia. unfold pad. rewrite Hm, !DCHECK_true by lia.
  rewrite zlen_app, zlen_image by done. destruct (Z.ltb_spec (h + zlen c + zlen rest) 4); [lia|]. destruct (Z.ltb_spec (h + zlen c + zlen rest) h); [lia|]. unfold image. rewrite <- !app_assoc, read_size by done. obind.
  destruct (Z.ltb_spec (h + zlen c + zlen rest - h) (zlen c)); [lia|done].
Qed.
Lemma FindNext_prefix h u c r s : 4 + zlen u = h -> h <= 64 -> h mod 4 = 0 -> zlen c < 2 ^ 32 -> image h u c = r ++ s -> s <> [] -> FindNext dcheck_on little h r = Ret None.
Proof.
  intros Hu Hh Hm Hl E Hs. pose proof (zlen_nonneg c). pose proof (zlen_nonneg u). unfold FindNext, kPayloadUnit, sizeof_Header. rewrite AlignInt_4 by powlia. unfold pad. rewrite Hm, !DCHECK_true by lia.
  assert (zlen r < h + zlen c) as Hr by (rewrite <- (zlen_image h u c), E, zlen_app by done; destruct s; [done|rewrite zlen_cons; pose proof (zlen_nonneg s); lia]).
  destruct (Z.ltb_spec (zlen r) 4); [done|]. destruct (Z.ltb_spec (zlen r) h); [done|].
  assert (header_payload_size little r = Ret (zlen c)) as ->; [|obind; destruct (Z.ltb_spec (zlen r - h) (zlen c)); [done|lia]].
  destruct (room_split r 4) as (a & b & -> & Ha); [lia|]. unfold image in E. rewrite <- app_assoc in E. apply app_inj_1 in E as [<- _]; [|rewrite length_host; unfold zlen in Ha; lia].
  unfold header_payload_size. rewrite read_front by (by rewrite zlen_host). obind. by rewrite host_bytes_mod by powlia.
Qed.
End Pickles.

Section Theorems.
Context (dcheck_on little : bool) (realloc_ok : Z -> bool) (fill : nat -> Z).

(** C39: pickles carry values: as long as memory lasts and all in all less than 2^31
    bytes are written, any sequence of values of any kinds is written to a new pickle
    without a fault or a failed check; its bytes, put behind each other in a stream, are
    delimited by [FindNext], which finds nothing in a part of them; and a pickle made of
    the bytes reads the same values, in order, and then is at its end. *)
Theorem pickle_roundtrip header_size items rest :
  (forall n, 0 <= n < 2 ^ 36 -> realloc_ok n = true) -> 4 <= header_size <= 64 -> Forall (item_ok little) items -> zlen (encode_all little items) + 68 < 2 ^ 31 ->
  exists p q m data, Pickle_header dcheck_on little realloc_ok fill header_size = Ret p /\ write_all dcheck_on little realloc_ok fill items p = Ret q /\
    header_ q = Some m /\ size little q = Ret (zlen data) /\ mem_read m 0 (zlen data) = Ret data /\
    FindNext dcheck_on little (header_size_ q) (data ++ rest) = Ret (Some (zlen data)) /\
    (forall r s, data = r ++ s -> s <> [] -> FindNext dcheck_on little (header_size_ q) r = Ret None) /\
    exists p' it it', Pickle_data little data (zlen data) = Ret p' /\ PickleIterator_of little p' = Ret it /\
      read_each little (map (@projT1 _ _) items) it = Ret (map Some items, it') /\ read_index_ it' = end_index_ it'.
Proof.
  intros Hre Hh Hi Hl. pose proof (zlen_nonneg (encode_all little items)) as H0. destruct (Pickle_header_rep dcheck_on little realloc_ok fill Hre header_size Hh) as (p & Ep & Hp). set (h := AlignInt header_size 4) in *. clearbody h.
  destruct (write_all_rep dcheck_on little realloc_ok fill Hre items p h [] Hp Hi) as (q & Eq & Hq); [change (zlen (@nil Z)) with 0; unfold kuint32max; powlia|]. cbn [app] in Hq. pose proof (rep_header_ok _ _ _ _ Hq) as [Hh1 Hh2].
  destruct (rep_image little fill q h _ Hq) as (u & m & Em & Hu & Es & Eimg). exists p, q, m, (image little h u (encode_all little items)). rewrite (rep_header _ _ _ _ Hq).
  split; [done|]. split; [done|]. split; [done|]. split; [done|]. split; [done|]. split; [apply (FindNext_image dcheck_on little fill); done || powlia|]. split; [intros r s E Hs; apply (FindNext_prefix dcheck_on little fill h u (encode_all little items) r s); [exact Hu|apply Hh1|done|powlia|exact E|exact Hs]|].
  destruct (image_before little fill h u (encode_all little items) Hu) as (it & Eit & Hit); [powlia|]. destruct (read_each_before dcheck_on little realloc_ok fill Hre items it [] Hi) as (it' & E & [_ (pre & x & _ & E1 & E2)]); [by rewrite app_nil_r|].
  eexists _, it, it'. split; [apply (Pickle_data_image little fill); done || powlia|]. split; [done|]. split; [done|]. rewrite E1, E2. change (zlen (@nil Z)) with 0. lia.
Qed.

(** Reading a pickle stays inside it whatever its bytes are: for all bytes of less
    than 2^31, as they come from elsewhere, and any sequence of reads of any kinds, also
    after reads that fail, no read leaves the bytes, and the read index never passes the
    end of the payload. *)
Theorem pickle_reads_stay data ks : all_bytes data -> zlen data < 2 ^ 31 -> Forall kind_ok ks ->
  exists p it l it', Pickle_data little data (zlen data) = Ret p /\ PickleIterator_of little p = Ret it /\ read_each little ks it = Ret (l, it') /\
    length l = length ks /\ 0 <= read_index_ it' <= end_index_ it'.
Proof.
  intros Hb Hl Hk. destruct (data_iterator little data Hb Hl) as (p & it & Ep & Ei & Hok). destruct (read_each_stays true little (fun _ => true) (fun _ => 0) ltac:(done) ks it Hok Hk) as (l & it' & E & Hn & [Hok' _]).
  by exists p, it, l, it'.
Qed.
End Theorems.
Definition sample : list item := [existT KBool 1; existT KInt (-5); existT KString [97; 98; 99]; existT KUInt16 513; existT KString16 [0x4f60; 0x597d]; existT (KBytes 5) [1; 2; 3; 4; 5]; existT KInt64 (- 2 ^ 63)].
Lemma pickle_roundtrip_witness : exists q data p it it', write_all true true (fun _ => true) (fun _ => 165) sample q = Ret p /\
  read_each true (map (@projT1 _ _) sample) it = Ret (map Some sample, it') /\ FindNext true true 8 (data ++ [7]) = Ret (Some (zlen data)).
Proof.
  destruct (pickle_roundtrip true true (fun _ => true) (fun _ => 165) 6 sample [7]) as (p & q & m & data & E1 & E2 & _ & _ & _ & E3 & _ & p' & it & it' & _ & _ & E4 & _).
  - reflexivity.
  - lia.
  - unfold sample, item_ok. repeat (apply Forall_cons_2 || apply Forall_nil_2); cbn; repeat split; try lia; try exact I; try (right; reflexivity); try (repeat constructor; lia); unfold zlen; cbn; lia.
  - vm_compute. reflexivity.
  - exists p, data, q, it, it'. split; [exact E2|]. split; [exact E4|].
    assert (header_size_ q = 8) as Hq; [|rewrite Hq in E3; exact E3].
    assert (Pickle_header true true (fun _ => true) (fun _ => 165) 6 = Ret p) as E1' by exact E1. vm_compute in E1'. injection E1' as <-. vm_compute in E2. injection E2 as <-. reflexivity.
Defined.
Lemma pickle_reads_stay_witness : exists p it it', Pickle_data true [8; 0; 0; 0; 255; 255; 255; 127; 1; 2; 3; 4] 12 = Ret p /\ PickleIterator_of true p = Ret it /\
  read_each true [KString; KInt; KWString] it = Ret ([None; None; None], it').
Proof.
  destruct (pickle_reads_stay true [8; 0; 0; 0; 255; 255; 255; 127; 1; 2; 3; 4] [KString; KInt; KWString]) as (p & it & l & it' & E1 & E2 & E3 & _).
  - repeat constructor; lia.
  - reflexivity.
  - repeat constructor.
  - exists p, it, it'. split; [exact E1|]. split; [exact E2|]. vm_compute in E1. injection E1 as <-. vm_compute in E2. injection E2 as <-. vm_compute in E3. injection E3 as <- <-. vm_compute. reflexivity.
Defined.

(** On a big-endian host a [bool] that is true is read back as false: its first byte is
    the high one of an [int]. *)
Example bool_big_endian :
  (p ← Pickle_new false (fun _ => true) (fun _ => 0); q ← WriteBool true false (fun _ => true) (fun _ => 0) true p; it ← PickleIterator_of false q; '(v, _) ← ReadBool false it; Ret v) = Ret (Some 0).
Proof. vm_compute. reflexivity. Qed.
(** A copy of a pickle whose data was refused goes through NULL. *)
Example copy_of_refused : (p ← Pickle_data true [9; 0; 0; 0; 1; 1; 1; 1] 8; Pickle_copy true (fun _ => true) (fun _ => 0) p) = Fault OutOfBounds.
Proof. vm_compute. reflexivity. Qed.
