(* ===== verification/FilePath.v ===== *)
(** File paths: [zutils/base/files/file_path.cc] with its constants, for POSIX, where the
    only separator is [/] and there are no drive letters: [FindDriveLetter] is [npos],
    and [letter + 1], [letter + 2] and [letter + 3] are 0, 1 and 2. A path is its
    [path_]; positions in a string are options, [None] for [npos]. *)
From Stdlib Require Import ZArith Lia Bool Ascii String.
From stdpp Require Import base list numbers strings.
From S2P Require Import Prelude Strings Pickle.

Open Scope Z_scope.

Definition kSeparator : Z := ch#"/".
Definition kCurrentDirectory : bytes := str#".".
Definition kParentDirectory : bytes := str#"..".
Definition kExtensionSeparator : Z := ch#".".
Definition kCommonDoubleExtensionSuffixes : list bytes := [str#"gz"; str#"z"; str#"bz2"].
Definition kCommonDoubleExtensions : list bytes := [str#"user.js"].

(** * Strings *)
Fixpoint find_char (c : Z) (s : bytes) : option Z :=
  match s with [] => None | x :: s => if x =? c then Some 0 else Z.succ <$> find_char c s end.
Fixpoint rfind_char (c : Z) (s : bytes) : option Z :=
  match s with
  | [] => None
  | x :: s => match rfind_char c s with Some i => Some (i + 1) | None => if x =? c then Some 0 else None end
  end.
(** The last position not behind [pos]. *)
Definition rfind_to (c : Z) (s : bytes) (pos : Z) : option Z := rfind_char c (take (Z.to_nat (pos + 1)) s).
Definition resize (n : Z) (s : bytes) : bytes := take (Z.to_nat n) s.
Definition substr (pos : Z) (s : bytes) : bytes := drop (Z.to_nat pos) s.
Definition bytes_eqb (a b : bytes) : bool := bool_decide (a = b).

Definition IsSeparator (c : Z) : bool := c =? kSeparator.
Definition IsPathAbsolute (path : bytes) : bool := match path with c :: _ => IsSeparator c | [] => false end.
Definition AreAllSeparators (input : bytes) : bool := forallb IsSeparator input.
(** [FilePath(const StringType& path)] *)
Definition FilePath_of (path : bytes) : bytes := match find_char 0 path with Some nul_pos => resize nul_pos path | None => path end.

(** * Trailing separators *)
(** The loop of [StripTrailingSeparatorsInternal], from [pos] on. *)
Fixpoint strip_loop (pos : nat) (path : bytes) (last_stripped : option Z) : bytes :=
  match pos with
  | O => path
  | S pos' =>
      if (1 <? Z.of_nat pos) && IsSeparator (znth path (Z.of_nat pos')) then
        if negb (Z.of_nat pos =? 2) || bool_decide (last_stripped = Some 3) || negb (IsSeparator (znth path 0))
        then strip_loop pos' (resize (Z.of_nat pos') path) (Some (Z.of_nat pos))
        else strip_loop pos' path last_stripped
      else path
  end.
Definition StripTrailingSeparators (path : bytes) : bytes := strip_loop (length path) path None.
Definition EndsWithSeparator (path : bytes) : bool := match last path with Some c => IsSeparator c | None => false end.
Definition AsEndingWithSeparator (path : bytes) : bytes :=
  if EndsWithSeparator path || bytes_eqb path [] then path else FilePath_of (path ++ [kSeparator]).

(** * Directory and base name *)
Definition DirName (path : bytes) : bytes :=
  let new_path := StripTrailingSeparators path in
  let new_path :=
    match rfind_char kSeparator new_path with
    | None => resize 0 new_path
    | Some last_separator =>
        if last_separator =? 0 then resize 1 new_path
        else if (last_separator =? 1) && IsSeparator (znth new_path 0) then resize 2 new_path
        else if negb (last_separator =? 0) then resize last_separator new_path
        else new_path
    end in
  let new_path := StripTrailingSeparators new_path in
  if zlen new_path =? 0 then kCurrentDirectory else new_path.
Definition BaseName (path : bytes) : bytes :=
  let new_path := StripTrailingSeparators path in
  match rfind_char kSeparator new_path with
  | Some last_separator => if last_separator <? zlen new_path - 1 then substr (last_separator + 1) new_path else new_path
  | None => new_path
  end.

(** * Extensions *)
Definition FinalExtensionSeparatorPosition (path : bytes) : option Z :=
  if bytes_eqb path kCurrentDirectory || bytes_eqb path kParentDirectory then None else rfind_char kExtensionSeparator path.
Definition ExtensionSeparatorPosition (path : bytes) : option Z :=
  match FinalExtensionSeparatorPosition path with
  | None => None
  | Some last_dot =>
      if last_dot =? 0 then Some last_dot
      else
        match rfind_to kExtensionSeparator path (last_dot - 1) with
        | None => Some last_dot
        | Some penultimate_dot =>
            if match rfind_to kSeparator path (last_dot - 1) with Some last_separator => penultimate_dot <? last_separator | None => false end then Some last_dot
            else if existsb (LowerCaseEqualsASCII (substr (penultimate_dot + 1) path)) kCommonDoubleExtensions then Some penultimate_dot
            else if existsb (LowerCaseEqualsASCII (substr (last_dot + 1) path)) kCommonDoubleExtensionSuffixes &&
                    (last_dot - penultimate_dot <=? 5) && (1 <? last_dot - penultimate_dot) then Some penultimate_dot
            else Some last_dot
        end
  end.
Definition IsEmptyOrSpecialCase (path : bytes) : bool := bytes_eqb path [] || bytes_eqb path kCurrentDirectory || bytes_eqb path kParentDirectory.
Definition Extension (path : bytes) : bytes :=
  let base := BaseName path in match ExtensionSeparatorPosition base with None => [] | Some dot => substr dot base end.
Definition FinalExtension (path : bytes) : bytes :=
  let base := BaseName path in match FinalExtensionSeparatorPosition base with None => [] | Some dot => substr dot base end.
Definition RemoveExtension (path : bytes) : bytes :=
  if bytes_eqb (Extension path) [] then path
  else match ExtensionSeparatorPosition path with None => path | Some dot => FilePath_of (resize dot path) end.
Definition RemoveFinalExtension (path : bytes) : bytes :=
  if bytes_eqb (FinalExtension path) [] then path
  else match FinalExtensionSeparatorPosition path with None => path | Some dot => FilePath_of (resize dot path) end.
Definition InsertBeforeExtension (suffix path : bytes) : bytes :=
  if bytes_eqb suffix [] then FilePath_of path
  else if IsEmptyOrSpecialCase (BaseName path) then []
  else FilePath_of (RemoveExtension path ++ suffix ++ Extension path).
Definition no_extension (extension : bytes) : bool := bytes_eqb extension [] || bytes_eqb extension [kExtensionSeparator].
Definition starts_with_dot (extension : bytes) : bool := match extension with c :: _ => c =? kExtensionSeparator | [] => false end.
Definition AddExtension (extension path : bytes) : bytes :=
  if IsEmptyOrSpecialCase (BaseName path) then []
  else if no_extension extension then path
  else
    let str := if negb (starts_with_dot extension) && negb (bool_decide (last path = Some kExtensionSeparator)) then path ++ [kExtensionSeparator] else path in
    FilePath_of (str ++ extension).
Definition ReplaceExtension (extension path : bytes) : bytes :=
  if IsEmptyOrSpecialCase (BaseName path) then []
  else
    let no_ext := RemoveExtension path in
    if no_extension extension then no_ext
    else FilePath_of ((if negb (starts_with_dot extension) then no_ext ++ [kExtensionSeparator] else no_ext) ++ extension).

(** [strcasecmp] in the C locale, of the characters up to a NUL. *)
Fixpoint strcasecmp (a b : bytes) : Z :=
  let char s := match s with c :: _ => tolower (u8 c) | [] => 0 end in
  if negb (char a =? char b) then char a - char b
  else match a, b with
       | x :: a, _ :: b => if x =? 0 then 0 else strcasecmp a b
       | _, _ => 0
       end.
Definition CompareIgnoreCase (string1 string2 : bytes) : Z :=
  let comparison := strcasecmp string1 string2 in if comparison <? 0 then -1 else if 0 <? comparison then 1 else 0.
Definition CompareEqualIgnoreCase (string1 string2 : bytes) : bool := CompareIgnoreCase string1 string2 =? 0.
Definition CompareLessIgnoreCase (string1 string2 : bytes) : bool := CompareIgnoreCase string1 string2 <? 0.

(** * Components *)
(** The loop of [GetComponents]: what it collects, first found first, and where it ends. *)
Fixpoint components_loop (fuel : nat) (current : bytes) (ret_val : list bytes) : outcome (bytes * list bytes) :=
  if bytes_eqb current (DirName current) then Ret (current, ret_val)
  else
    match fuel with
    | O => Fault OutOfFuel
    | S fuel =>
        let base := BaseName current in
        components_loop fuel (DirName current) (if AreAllSeparators base then ret_val else ret_val ++ [base])
    end.
Definition GetComponents (path : bytes) : outcome (list bytes) :=
  if bytes_eqb path [] then Ret []
  else
    '(current, ret_val) ← components_loop (S (length path)) path [];
    let base := BaseName current in
    let ret_val := if negb (bytes_eqb base []) && negb (bytes_eqb base kCurrentDirectory) then ret_val ++ [base] else ret_val in
    Ret (reverse ret_val).
(** Whether the characters are dots and blanks, and two dots are next to each other. *)
Definition dots_and_blanks (component : bytes) : bool := forallb (fun c => existsb (Z.eqb c) [ch#"."; 32; 10; 13; 9]) component.
Fixpoint has_parent (component : bytes) : bool :=
  match component with
  | a :: (b :: _) as s => ((a =? ch#".") && (b =? ch#".")) || has_parent s
  | _ => false
  end.
Definition ReferencesParent (path : bytes) : outcome bool :=
  components ← GetComponents path; Ret (existsb (fun c => dots_and_blanks c && has_parent c) components).

Section Checked.
Context (dcheck_on : bool).
Definition Append (component path : bytes) : outcome bytes :=
  let appended := match find_char 0 component with Some nul_pos => resize nul_pos component | None => component end in
  DCHECK dcheck_on (negb (IsPathAbsolute appended)) (
  if bytes_eqb path kCurrentDirectory then Ret (FilePath_of appended)
  else
    let new_path := StripTrailingSeparators (FilePath_of path) in
    let new_path :=
      if (0 <? zlen appended) && (0 <? zlen new_path) then
        if negb (IsSeparator (znth new_path (zlen new_path - 1))) then
          if negb (0 =? zlen new_path) then new_path ++ [kSeparator] else new_path
        else new_path
      else new_path in
    Ret (new_path ++ appended)).
Definition AppendASCII (component path : bytes) : outcome bytes := DCHECK dcheck_on (IsStringASCII component) (Append component path).
Definition InsertBeforeExtensionASCII (suffix path : bytes) : outcome bytes := DCHECK dcheck_on (IsStringASCII suffix) (Ret (InsertBeforeExtension suffix path)).
Definition MatchesExtension (extension path : bytes) : outcome bool :=
  DCHECK dcheck_on (bytes_eqb extension [] || starts_with_dot extension) (
  let current_extension := Extension path in
  Ret (if negb (zlen current_extension =? zlen extension) then false else CompareEqualIgnoreCase extension current_extension)).
(** The comparison of the components: what is left of the child's when all match. *)
Fixpoint match_components (parent child : list bytes) : option (list bytes) :=
  match parent, child with
  | [], rest => Some rest
  | p :: parent, c :: child => if bytes_eqb p c then match_components parent child else None
  | _, [] => None
  end.
Fixpoint append_all (components : list bytes) (path : bytes) : outcome bytes :=
  match components with [] => Ret path | c :: components => path ← Append c path; append_all components path end.
(** [AppendRelativePath]; [path] is [None] for NULL. *)
Definition AppendRelativePath (parent child : bytes) (path : option bytes) : outcome (bool * option bytes) :=
  parent_components ← GetComponents parent; child_components ← GetComponents child;
  if bool_decide (parent_components = []) || (zlen child_components <=? zlen parent_components) then Ret (false, path)
  else
    match match_components parent_components child_components with
    | None => Ret (false, path)
    | Some rest => match path with Some path => path ← append_all rest path; Ret (true, Some path) | None => Ret (true, None) end
    end.
Definition IsParent (path child : bytes) : outcome bool := '(is_parent, _) ← AppendRelativePath path child None; Ret is_parent.

(** * Conversions *)
Definition MaybeAsASCII (path : bytes) : bytes := if IsStringASCII path then path else [].
Definition WriteToPickle (little : bool) (realloc_ok : Z -> bool) (fill : nat -> Z) (path : bytes) (p : pickle) : outcome pickle :=
  WriteString dcheck_on little realloc_ok fill path p.
(** [ReadFromPickle]: [path_] is set even when a NUL in it is refused. *)
Definition ReadFromPickle (little : bool) (path : bytes) (iter : iterator) : outcome (bool * bytes * iterator) :=
  '(s, iter) ← ReadString little iter;
  Ret (match s with None => (false, path, iter) | Some s => (match find_char 0 s with Some _ => false | None => true end, s, iter) end).
Definition NormalizePathSeparators (path : bytes) : bytes := path.
End Checked.

Example dir_1 : map (fun s => DirName (bytes_of_string s)) [""%string; "aa"; "/aa/bb"; "/aa/bb//"; "/aa"; "/"; "//"; "///"; "aa/"; "aa//bb//"; "//aa/bb"; "//aa"; "///aa"; "////aa"]%string =
  map bytes_of_string ["."; "."; "/aa"; "/aa"; "/"; "/"; "//"; "/"; "."; "aa"; "//aa"; "//"; "//"; "/"]%string.
Proof. vm_compute. reflexivity. Qed.
