(* ===== verification/FilePathProofs.v ===== *)
(** Paths as a root and names: what [DirName], [BaseName], [GetComponents] and the
    functions built on them make of any path, and that extensions can be taken off and
    put on. *)
From Stdlib Require Import ZArith Lia Bool Ascii String.
From stdpp Require Import base list numbers strings.
From S2P Require Import Prelude Strings SysByteorder Pickle PickleProofs FilePath.

Open Scope Z_scope.

(** * The parts of a path *)
(** [n] separators in front, then names, each with the separators behind it. *)
Definition seps (n : nat) : bytes := replicate n kSeparator.
Definition name_ok (x : bytes) : Prop := x <> [] /\ Forall (fun c => IsSeparator c = false) x.
Abbreviation segment := (bytes * nat)%type (only parsing).
Definition segment_bytes (s : segment) : bytes := s.1 ++ seps s.2.
Definition body (segs : list segment) : bytes := concat (map segment_bytes segs).
Definition path_of (n : nat) (segs : list segment) : bytes := seps n ++ body segs.
(** Only behind the last name there may be no separator. *)
Fixpoint segs_ok (segs : list segment) : Prop :=
  match segs with [] => True | (x, k) :: rest => name_ok x /\ (rest <> [] -> (1 <= k)%nat) /\ segs_ok rest end.

Lemma every_path s : exists n segs, segs_ok segs /\ s = path_of n segs.
Proof.
  induction s as [|c s (n & segs & Hok & ->)]; [by exists 0%nat, []|]. destruct (IsSeparator c) eqn:Ec.
  - exists (S n), segs. split; [done|]. unfold IsSeparator in Ec. apply Z.eqb_eq in Ec as ->. done.
  - assert (name_ok [c]) as Hc by (split; [done|by constructor]). destruct n as [|n]; [destruct segs as [|[x k] segs]|].
    + exists 0%nat, [([c], 0%nat)]. split; [|done]. cbn. split; [exact Hc|]. by split.
    + exists 0%nat, ((c :: x, k) :: segs). split; [|done]. cbn in *. destruct Hok as ([? ?] & ? & ?). repeat split; try done. by constructor.
    + exists 0%nat, (([c], S n) :: segs). split; [|done]. cbn [segs_ok]. repeat split; try apply Hc; [lia|done].
Qed.
Lemma body_app a b : body (a ++ b) = body a ++ body b.
Proof. unfold body. by rewrite map_app, concat_app. Qed.
Lemma segs_ok_app a b : b <> [] -> segs_ok (a ++ b) <-> Forall (fun s => name_ok s.1 /\ (1 <= s.2)%nat) a /\ segs_ok b.
Proof.
  intros Hb. induction a as [|[x k] a IH]; cbn [app segs_ok]; [split; [by split; [constructor|]|by intros [_ ?]]|]. rewrite IH, Forall_cons. cbn [fst snd].
  assert (a ++ b <> []) by (by destruct a). tauto.
Qed.
Lemma sep_true : IsSeparator kSeparator = true.
Proof. done. Qed.
Lemma length_seps n : length (seps n) = n.
Proof. apply length_replicate. Qed.
Lemma seps_snoc n : seps (S n) = seps n ++ [kSeparator].
Proof. unfold seps. by rewrite replicate_S_end. Qed.
Lemma resize_app a (b : bytes) n : n = zlen a -> resize n (a ++ b) = a.
Proof. intros ->. unfold resize, zlen. by rewrite Nat2Z.id, take_app_length. Qed.
Lemma substr_app a (b : bytes) n : n = zlen a -> substr n (a ++ b) = b.
Proof. intros ->. unfold substr, zlen. by rewrite Nat2Z.id, drop_app_length. Qed.
Lemma znth_middle a c (b : bytes) n : n = zlen a -> znth (a ++ c :: b) n = c.
Proof. intros ->. unfold znth, zlen. by rewrite Nat2Z.id, list_lookup_middle. Qed.
Lemma name_last x : name_ok x -> exists x' c, x = x' ++ [c] /\ IsSeparator c = false.
Proof. intros [Hne Hx]. destruct (exists_last Hne) as (x' & c & ->). exists x', c. split; [done|]. apply Forall_app in Hx as [_ Hx]. by apply Forall_cons_1 in Hx as [? _]. Qed.

(** * Trailing separators *)
Lemma strip_loop_name k : forall q c last, IsSeparator c = false -> strip_loop (length (q ++ [c] ++ seps k)) (q ++ [c] ++ seps k) last = q ++ [c].
Proof.
  induction k as [|k IH]; intros q c last Hc.
  - change ([c] ++ seps 0) with [c]. rewrite length_app. cbn [length]. rewrite Nat.add_1_r. cbn [strip_loop]. rewrite znth_middle by done. by rewrite Hc, andb_false_r.
  - rewrite seps_snoc. assert (q ++ [c] ++ seps k ++ [kSeparator] = (q ++ [c] ++ seps k) ++ [kSeparator]) as E by (by rewrite <- !app_assoc). rewrite E, length_app. cbn [length]. rewrite Nat.add_1_r. cbn [strip_loop].
    rewrite znth_middle, sep_true, andb_true_r by done. assert (1 <= length (q ++ [c] ++ seps k))%nat as Hl by (rewrite !length_app; cbn; lia). destruct (Z.ltb_spec 1 (Z.of_nat (S (length (q ++ [c] ++ seps k))))); [|lia].
    rewrite resize_app by done. rewrite IH by done. destruct (negb _ || _ || _) eqn:Eb; [done|]. exfalso. apply orb_false_iff in Eb as [Eb E0]. apply orb_false_iff in Eb as [E2 _].
    apply negb_false_iff, Z.eqb_eq in E2. destruct q as [|a q]; [|rewrite !length_app in E2; cbn in E2; lia]. cbn in E0. change (znth (c :: _) 0) with c in E0. by rewrite Hc in E0.
Qed.
Lemma strip_name q x k : name_ok x -> StripTrailingSeparators (q ++ x ++ seps k) = q ++ x.
Proof.
  intros Hx. destruct (name_last x Hx) as (x' & c & -> & Hc). unfold StripTrailingSeparators. assert (q ++ (x' ++ [c]) ++ seps k = (q ++ x') ++ [c] ++ seps k) as -> by (by rewrite <- !app_assoc). rewrite strip_loop_name by done. by rewrite <- app_assoc.
Qed.
(** A string of separators: two are kept, more are made one. *)
Definition root_of (n : nat) : bytes := match n with 0 => [] | 1 => [kSeparator] | 2 => [kSeparator; kSeparator] | _ => [kSeparator] end%nat.
Lemma strip_loop_seps n : forall last, strip_loop (S (S (S n))) (seps (S (S (S n)))) last = [kSeparator].
Proof.
  induction n as [|n IH]; intros last; [done|]. set (m := S (S (S n))) in *. cbn [strip_loop]. rewrite seps_snoc at 1. rewrite znth_middle by (unfold zlen; by rewrite length_seps). rewrite sep_true, andb_true_r.
  destruct (Z.ltb_spec 1 (Z.of_nat (S m))); [|lia]. destruct (Z.eqb_spec (Z.of_nat (S m)) 2); [lia|]. cbn [negb orb]. rewrite seps_snoc, resize_app by (unfold zlen; by rewrite length_seps). apply IH.
Qed.
Lemma strip_seps n : StripTrailingSeparators (seps n) = root_of n.
Proof. unfold StripTrailingSeparators. rewrite length_seps. destruct n as [|[|[|n]]]; [done..|]. apply strip_loop_seps. Qed.

Lemma rfind_none c s : Forall (fun x => x <> c) s -> rfind_char c s = None.
Proof. induction 1 as [|x s Hx _ IH]; [done|]. cbn. rewrite IH. by destruct (Z.eqb_spec x c). Qed.
Lemma rfind_last c a b : Forall (fun x => x <> c) b -> rfind_char c (a ++ c :: b) = Some (zlen a).
Proof.
  intros Hb. induction a as [|x a IH]; cbn [app rfind_char]; [by rewrite rfind_none, Z.eqb_refl|]. rewrite IH, zlen_cons. f_equal. lia.
Qed.
Lemma rfind_cases c s : (rfind_char c s = None /\ Forall (fun x => x <> c) s) \/ exists a b, s = a ++ c :: b /\ Forall (fun x => x <> c) b /\ rfind_char c s = Some (zlen a).
Proof.
  induction s as [|x s [[E H]|(a & b & -> & Hb & E)]]; [by left| |].
  - destruct (Z.eq_dec x c) as [-> |Hx]; [right; exists [], s; split; [done|]; split; [done|by apply (rfind_last c [])]|left]. split; [cbn; rewrite E; by destruct (Z.eqb_spec x c)|by constructor].
  - right. exists (x :: a), b. split; [done|]. split; [done|]. by apply (rfind_last c (x :: a)).
Qed.
Lemma name_no_sep x : name_ok x -> Forall (fun c => c <> kSeparator) x.
Proof. intros [_ H]. eapply Forall_impl; [exact H|]. intros c Hc ->. done. Qed.

(** * Directory and base name *)
Lemma dir_inner q y j x k : name_ok y -> (1 <= j)%nat -> name_ok x -> DirName (q ++ y ++ seps j ++ x ++ seps k) = q ++ y.
Proof.
  intros Hy Hj Hx. unfold DirName. destruct j as [|j]; [lia|]. assert (q ++ y ++ seps (S j) ++ x ++ seps k = (q ++ y ++ seps (S j)) ++ x ++ seps k) as -> by (by rewrite <- !app_assoc). rewrite strip_name by done.
  assert ((q ++ y ++ seps (S j)) ++ x = (q ++ y ++ seps j) ++ kSeparator :: x) as -> by (rewrite seps_snoc, <- !app_assoc; done). rewrite rfind_last by (by apply name_no_sep).
  destruct (name_last y Hy) as (y' & c & -> & Hc). set (p := q ++ (y' ++ [c]) ++ seps j). assert (zlen p = zlen q + zlen y' + 1 + Z.of_nat j) as Hp by (unfold p; rewrite !zlen_app; unfold zlen at 3 4; cbn; rewrite length_seps; lia).
  pose proof (zlen_nonneg q). pose proof (zlen_nonneg y'). destruct (Z.eqb_spec (zlen p) 0); [lia|]. cbn [negb].
  assert (((zlen p =? 1) && IsSeparator (znth (p ++ kSeparator :: x) 0)) = false) as ->.
  { destruct (Z.eqb_spec (zlen p) 1) as [E1|]; [|done]. destruct q; [|rewrite zlen_cons in Hp; pose proof (zlen_nonneg q); lia]. destruct y'; [|rewrite zlen_cons in Hp; pose proof (zlen_nonneg y'); lia]. exact Hc. }
  rewrite resize_app by done. unfold p. rewrite strip_name by done. destruct (Z.eqb_spec (zlen (q ++ y' ++ [c])) 0) as [E|]; [|done]. rewrite !zlen_app in E. change (zlen [c]) with 1 in E. lia.
Qed.
(** Where a name without a directory is. Three separators in front of a name are taken
    for two. *)
Definition top (n : nat) : bytes := match n with 0 => kCurrentDirectory | 1 => [kSeparator] | 2 | 3 => [kSeparator; kSeparator] | _ => [kSeparator] end%nat.
Lemma dir_top n x k : name_ok x -> DirName (seps n ++ x ++ seps k) = top n.
Proof.
  intros Hx. unfold DirName. rewrite strip_name by done. destruct n as [|n].
  - cbn [seps replicate app]. rewrite rfind_none by (by apply name_no_sep). done.
  - rewrite seps_snoc, <- app_assoc. cbn [app]. rewrite rfind_last by (by apply name_no_sep). assert (zlen (seps n) = Z.of_nat n) as -> by (unfold zlen; by rewrite length_seps). destruct n as [|[|n]]; [done..|].
    destruct (Z.eqb_spec (Z.of_nat (S (S n))) 0); [lia|]. destruct (Z.eqb_spec (Z.of_nat (S (S n))) 1); [lia|]. cbn [negb andb]. rewrite resize_app by (unfold zlen; by rewrite length_seps). rewrite strip_seps. by destruct n as [|[|n]].
Qed.
Lemma base_name q x k : name_ok x -> q = [] \/ last q = Some kSeparator -> BaseName (q ++ x ++ seps k) = x.
Proof.
  intros Hx Hq. unfold BaseName. rewrite strip_name by done. destruct Hq as [-> |Hq]; [cbn [app]; by rewrite rfind_none by (by apply name_no_sep)|].
  apply last_Some in Hq as [q' ->]. rewrite <- app_assoc. cbn [app]. rewrite rfind_last by (by apply name_no_sep). rewrite zlen_app, zlen_cons. destruct Hx as [Hne _]. destruct x as [|c x]; [done|]. rewrite zlen_cons. pose proof (zlen_nonneg x).
  destruct (Z.ltb_spec (zlen q') (zlen q' + (1 + (1 + zlen x)) - 1)); [|lia]. assert (q' ++ kSeparator :: c :: x = (q' ++ [kSeparator]) ++ c :: x) as -> by (by rewrite <- app_assoc). apply substr_app. by rewrite zlen_app.
Qed.
Lemma dir_fixed n : DirName (top n) = top n /\ BaseName (top n) = top n.
Proof. by destruct n as [|[|[|[|n]]]]. Qed.
Lemma dir_seps n : (1 <= n)%nat -> DirName (seps n) = root_of n /\ BaseName (seps n) = root_of n.
Proof. intros Hn. unfold DirName, BaseName. rewrite !strip_seps. destruct n as [|[|[|n]]]; [lia|done..]. Qed.

(** * Components *)
Definition names (segs : list segment) : list bytes := map fst segs.
(** A [.] in front of a relative path is left out, unless it is all the path and has a
    separator behind it. *)
Definition kept_names (n : nat) (segs : list segment) : list bytes :=
  match n, segs with
  | O, [(x, k)] => if bytes_eqb x kCurrentDirectory && (k =? 0)%nat then [] else [x]
  | O, (x, _) :: rest => if bytes_eqb x kCurrentDirectory then names rest else names segs
  | _, _ => names segs
  end.
Definition components (n : nat) (segs : list segment) : list bytes :=
  match n, segs with
  | O, _ => kept_names 0 segs
  | _, [] => [root_of n]
  | _, _ => top n :: names segs
  end.

Lemma bytes_eqb_eq a b : bytes_eqb a b = true <-> a = b.
Proof. apply bool_decide_eq_true. Qed.
Lemma bytes_eqb_neq a b : a <> b -> bytes_eqb a b = false.
Proof. apply bool_decide_eq_false_2. Qed.
Lemma name_not_separators x : name_ok x -> AreAllSeparators x = false.
Proof. intros [Hne H]. destruct x as [|c x]; [done|]. apply Forall_cons_1 in H as [Hc _]. cbn. by rewrite Hc. Qed.
Lemma loop_at_top fuel n ret : components_loop fuel (top n) ret = Ret (top n, ret).
Proof. pose proof (proj1 (dir_fixed n)) as E. destruct fuel; cbn [components_loop]; by rewrite E, (proj2 (bytes_eqb_eq _ _)). Qed.
Lemma loop_step fuel cur x dir ret : DirName cur = dir -> BaseName cur = x -> name_ok x -> cur <> dir -> components_loop (S fuel) cur ret = components_loop fuel dir (ret ++ [x]).
Proof. intros Hd Hb Hx Hne. cbn [components_loop]. rewrite Hd, Hb, bytes_eqb_neq, name_not_separators by done. done. Qed.
Lemma body_one x k : body [(x, k)] = x ++ seps k.
Proof. unfold body. cbn [map concat]. by rewrite app_nil_r. Qed.
Lemma body_end segs : Forall (fun s => name_ok s.1 /\ (1 <= s.2)%nat) segs -> segs = [] \/ exists q, body segs = q ++ [kSeparator].
Proof.
  intros H. destruct segs as [|s segs] using rev_ind; [by left|right]. apply Forall_app in H as [_ H]. apply Forall_cons_1 in H as [[_ Hk] _]. destruct s as [x [|k]]; cbn in Hk; [lia|].
  exists (body segs ++ x ++ seps k). rewrite body_app, body_one, seps_snoc, <- !app_assoc. done.
Qed.
Lemma prefix_end n segs : Forall (fun s => name_ok s.1 /\ (1 <= s.2)%nat) segs -> seps n ++ body segs = [] \/ last (seps n ++ body segs) = Some kSeparator.
Proof.
  intros H. destruct (body_end segs H) as [-> |(q & ->)]; [|right; by rewrite app_assoc, last_snoc]. change (body []) with (@nil Z). rewrite app_nil_r. destruct n as [|n]; [by left|right]. by rewrite seps_snoc, last_snoc.
Qed.
Lemma path_snoc n segs x k : path_of n (segs ++ [(x, k)]) = (seps n ++ body segs) ++ x ++ seps k.
Proof. unfold path_of. by rewrite body_app, body_one, <- app_assoc. Qed.
Lemma base_path n segs x k : Forall (fun s => name_ok s.1 /\ (1 <= s.2)%nat) segs -> name_ok x -> BaseName (path_of n (segs ++ [(x, k)])) = x.
Proof. intros H Hx. rewrite path_snoc. apply base_name; [done|]. by apply prefix_end. Qed.
Lemma dir_path n segs y j x k : name_ok y -> (1 <= j)%nat -> name_ok x -> DirName (path_of n ((segs ++ [(y, j)]) ++ [(x, k)])) = path_of n (segs ++ [(y, 0%nat)]).
Proof.
  intros Hy Hj Hx. rewrite path_snoc, body_app, body_one, path_snoc. change (seps 0) with (@nil Z). rewrite app_nil_r.
  transitivity (DirName ((seps n ++ body segs) ++ y ++ seps j ++ x ++ seps k)); [by rewrite <- !app_assoc|by apply dir_inner].
Qed.
Lemma path_length n segs x k : (length segs < length (path_of n (segs ++ [(x, k)])))%nat \/ x = [] \/ ~ Forall (fun s => name_ok s.1 /\ (1 <= s.2)%nat) segs.
Proof.
  destruct (decide (x = [])) as [|Hx]; [by auto|]. rewrite path_snoc, !length_app. destruct x as [|c x]; [done|]. cbn [length]. destruct (decide (Forall (fun s : bytes * nat => s.1 <> []) segs)) as [H|H].
  - left. enough (length segs <= length (body segs))%nat by lia. induction H as [|[y j] segs Hy _ IH]; [done|]. change (body ((y, j) :: segs)) with ((y ++ seps j) ++ body segs). rewrite !length_app. destruct y; [done|]. cbn [length]. lia.
  - right. right. intros H'. apply H. eapply Forall_impl; [exact H'|]. by intros s [[? _] _].
Qed.
Lemma loop_names segs : forall x k n ret fuel, Forall (fun s => name_ok s.1 /\ (1 <= s.2)%nat) segs -> name_ok x -> (length segs < fuel)%nat ->
  components_loop fuel (path_of n (segs ++ [(x, k)])) ret = Ret (top n, ret ++ reverse (kept_names n (segs ++ [(x, k)]))).
Proof.
  induction segs as [|[y j] segs IH] using rev_ind; intros x k n ret fuel H Hx Hf; (destruct fuel as [|fuel]; [lia|]).
  - cbn [app]. assert (path_of n [(x, k)] = seps n ++ x ++ seps k) as Ep by (unfold path_of; by rewrite body_one). pose proof (dir_top n x k Hx) as Hd. rewrite <- Ep in Hd. pose proof (base_path n [] x k H Hx) as Hb. cbn [app] in Hb.
    destruct (decide (path_of n [(x, k)] = top n)) as [E|Hne].
    + rewrite E. rewrite (loop_at_top (S fuel)). rewrite Ep in E. assert (n = 0%nat /\ x = kCurrentDirectory /\ k = 0%nat) as (-> & -> & ->); [|by rewrite app_nil_r].
      destruct Hx as [Hxn Hxs]. destruct n as [|n].
      * cbn in E. destruct x as [|c x]; [done|]. destruct x as [|c' x]; [|by destruct k]. destruct k; [|done]. by injection E as ->.
      * exfalso. destruct x as [|c x]; [done|]. apply Forall_cons_1 in Hxs as [Hc _]. destruct n as [|[|[|n]]]; cbn in E; try done; try (by destruct x); injection E as E; try (subst c; done); by destruct n.
    + rewrite (loop_step fuel _ x (top n)) by done. rewrite loop_at_top. assert (kept_names n [(x, k)] = [x]) as ->; [|done]. unfold kept_names. destruct n as [|n]; [|done]. destruct (bytes_eqb x kCurrentDirectory && (k =? 0)%nat) eqn:Eb; [|done].
      apply andb_true_iff in Eb as [->%bytes_eqb_eq ->%Nat.eqb_eq]. by destruct Hne.
  - apply Forall_app in H as [H Hy]. apply Forall_cons_1 in Hy as [[Hy Hj] _]. cbn [fst snd] in *. rewrite length_app in Hf. cbn in Hf.
    assert (Forall (fun s => name_ok s.1 /\ (1 <= s.2)%nat) (segs ++ [(y, j)])) as H2 by (apply Forall_app; split; [done|by constructor]). pose proof (dir_path n segs y j x k Hy Hj Hx) as Hd.
    rewrite (loop_step fuel _ x (path_of n (segs ++ [(y, 0%nat)]))); [|done|by apply base_path|done|].
    2:{ intros E. rewrite (path_snoc n (segs ++ [(y, j)])), path_snoc, body_app, body_one in E. apply (f_equal length) in E. rewrite !length_app, !length_seps in E. lia. }
    rewrite IH by (done || lia). f_equal. f_equal. rewrite <- app_assoc. f_equal.
    assert (kept_names n ((segs ++ [(y, j)]) ++ [(x, k)]) = kept_names n (segs ++ [(y, 0%nat)]) ++ [x]) as ->; [|by rewrite reverse_snoc].
    unfold kept_names. destruct n as [|n]; [|unfold names; by rewrite !map_app]. destruct segs as [|[z i] segs]; cbn [app].
    + destruct (bytes_eqb y kCurrentDirectory); [done|]. done.
    + assert (exists s l, (segs ++ [(y, j)]) ++ [(x, k)] = s :: l) as (s & l & Es) by (destruct segs; by eexists _, _). rewrite Es. assert (exists s2 l2, segs ++ [(y, 0%nat)] = s2 :: l2) as (s2 & l2 & Es2) by (destruct segs; by eexists _, _). rewrite Es2, <- Es, <- Es2.
      unfold names. cbn [map fst]. destruct (bytes_eqb z kCurrentDirectory); rewrite !map_app; done.
Qed.
Lemma GetComponents_path n segs : segs_ok segs -> GetComponents (path_of n segs) = Ret (components n segs).
Proof.
  intros Hok. unfold GetComponents. destruct segs as [|[x k] segs _] using rev_ind.
  - unfold path_of. change (body []) with (@nil Z). rewrite app_nil_r. destruct n as [|n]; [done|]. rewrite bytes_eqb_neq by done. destruct (dir_seps (S n)) as [Hd Hb]; [lia|].
    assert (exists fuel, components_loop fuel (seps (S n)) [] = Ret (root_of (S n), []) /\ fuel = S (length (seps (S n)))) as (fuel & E & ->).
    { eexists. split; [|done]. cbn [components_loop]. rewrite Hd. destruct (bytes_eqb (seps (S n)) (root_of (S n))) eqn:Eb; [by apply bytes_eqb_eq in Eb as ->|]. rewrite Hb, length_seps.
      destruct n as [|[|n]]; [done..|]. cbn [root_of AreAllSeparators forallb]. rewrite sep_true. cbn [andb]. by apply (loop_at_top _ 1). }
    rewrite E. obind. destruct n as [|[|n]]; done.
  - apply segs_ok_app in Hok as [H (Hx & _ & _)]; [|done]. assert (path_of n (segs ++ [(x, k)]) <> []) as Hne by (rewrite path_snoc; destruct Hx as [Hx _]; destruct x; [done|]; by destruct (seps n ++ body segs)). rewrite bytes_eqb_neq by done.
    assert (length segs < S (length (path_of n (segs ++ [(x, k)]))))%nat as Hl.
    { destruct (path_length n segs x k) as [Hlt|[?|?]]; [exact (Nat.lt_lt_succ_r _ _ Hlt)|by destruct Hx|done]. }
    rewrite (loop_names segs x k n []) by done. obind. rewrite (proj2 (dir_fixed n)). unfold components. cbn [app].
    destruct n as [|n]; [change (top 0) with kCurrentDirectory; rewrite (proj2 (bytes_eqb_eq kCurrentDirectory kCurrentDirectory)) by done; rewrite andb_false_r; by rewrite reverse_involutive|].
    assert (negb (bytes_eqb (top (S n)) []) && negb (bytes_eqb (top (S n)) kCurrentDirectory) = true) as -> by (by destruct n as [|[|[|n]]]). rewrite reverse_snoc, reverse_involutive. unfold kept_names. destruct (segs ++ [(x, k)]) eqn:Es; [by destruct segs|done].
Qed.

(** * Appending *)
Definition no_nul (s : bytes) : Prop := Forall (fun c => c <> 0) s.
Lemma find_char_none c s : Forall (fun x => x <> c) s -> find_char c s = None.
Proof. induction 1 as [|x s Hx _ IH]; [done|]. cbn. rewrite IH. by destruct (Z.eqb_spec x c). Qed.
Lemma FilePath_of_id s : no_nul s -> FilePath_of s = s.
Proof. intros H. unfold FilePath_of. by rewrite find_char_none. Qed.
Lemma name_not_absolute x : name_ok x -> IsPathAbsolute x = false.
Proof. intros [Hne H]. destruct x as [|c x]; [done|]. by apply Forall_cons_1 in H as [? _]. Qed.
(** The segments of [path_of n segs] with the name [x] appended. *)
Fixpoint close (segs : list segment) : list segment :=
  match segs with [] => [] | [(x, _)] => [(x, 1%nat)] | s :: segs => s :: close segs end.
Definition append_segs (n : nat) (segs : list segment) (x : bytes) : nat * list segment :=
  match segs with [] => (length (root_of n), [(x, 0%nat)]) | _ => (n, close segs ++ [(x, 0%nat)]) end.
Lemma close_snoc segs y j : close (segs ++ [(y, j)]) = segs ++ [(y, 1%nat)].
Proof. induction segs as [|[z i] segs IH]; [done|]. cbn [app close]. rewrite IH. by destruct segs. Qed.
Lemma segs_cases (segs : list segment) : segs = [] \/ exists segs' y j, segs = segs' ++ [(y, j)].
Proof. destruct segs as [|[y j] segs _] using rev_ind; [by left|right; by exists segs, y, j]. Qed.
Lemma strip_path n segs y j : name_ok y -> StripTrailingSeparators (path_of n (segs ++ [(y, j)])) = path_of n (segs ++ [(y, 0%nat)]).
Proof. intros Hy. rewrite !path_snoc, strip_name by done. change (seps 0) with (@nil Z). by rewrite app_nil_r. Qed.
Lemma seps_root n : seps (length (root_of n)) = root_of n.
Proof. by destruct n as [|[|[|n]]]. Qed.

Section Appending.
Context (dcheck_on : bool).
Abbreviation Append := (Append dcheck_on).

(** On [.] alone the name takes its place; else it comes behind a separator. *)
Lemma Append_path n segs x : segs_ok segs -> no_nul (path_of n segs) -> name_ok x -> no_nul x -> path_of n segs <> kCurrentDirectory ->
  Append x (path_of n segs) = Ret (path_of (append_segs n segs x).1 (append_segs n segs x).2).
Proof.
  intros Hok Hn Hx Hxn Hne. unfold FilePath.Append. rewrite (find_char_none 0 x) by done. rewrite name_not_absolute, DCHECK_true by done. rewrite (bytes_eqb_neq _ _ Hne), FilePath_of_id by done. f_equal.
  assert ((0 <? zlen x) = true) as -> by (apply Z.ltb_lt; destruct Hx as [Hx _]; destruct x; [done|rewrite zlen_cons; pose proof (zlen_nonneg x); lia]). cbn [andb].
  destruct (segs_cases segs) as [-> |(segs' & y & j & ->)].
  - unfold path_of at 1 2 3 4 5 6 7 8. change (body []) with (@nil Z). rewrite app_nil_r, strip_seps. unfold append_segs, path_of. cbn [fst snd]. rewrite seps_root, body_one. change (seps 0) with (@nil Z). rewrite app_nil_r. by destruct n as [|[|[|n]]].
  - apply segs_ok_app in Hok as [H (Hy & _ & _)]; [|done]. rewrite strip_path by done. unfold append_segs. rewrite close_snoc. assert (segs' ++ [(y, j)] = [] -> False) as Hs by (by destruct segs'). destruct (segs' ++ [(y, j)]) eqn:Es; [by destruct Hs|]. cbn [fst snd]. clear Hs Es.
    destruct (name_last y Hy) as (y' & c & -> & Hc). rewrite !path_snoc, body_app, body_one. change (seps 0) with (@nil Z). change (seps 1) with [kSeparator]. rewrite !app_nil_r. set (a := seps n ++ body segs'). 
    assert (a ++ y' ++ [c] = (a ++ y') ++ [c]) as -> by (by rewrite app_assoc). pose proof (zlen_nonneg (a ++ y')). rewrite (zlen_app (a ++ y')). change (zlen [c]) with 1. destruct (Z.ltb_spec 0 (zlen (a ++ y') + 1)); [|lia].
    rewrite znth_middle by lia. rewrite Hc. destruct (Z.eqb_spec 0 (zlen (a ++ y') + 1)); [lia|]. cbn [negb]. unfold a. by rewrite <- !app_assoc.
Qed.
Lemma close_ok segs x : segs_ok segs -> name_ok x -> segs_ok (close segs ++ [(x, 0%nat)]).
Proof.
  intros Hok Hx. assert (segs_ok [(x, 0%nat)]) by (by cbn). destruct (segs_cases segs) as [-> |(segs' & y & j & ->)]; [done|]. rewrite close_snoc. apply segs_ok_app; [done|]. split; [|done].
  apply segs_ok_app in Hok as [Ha (Hy & _ & _)]; [|done]. apply Forall_app. split; [done|]. constructor; [|constructor]. cbn. split; [done|lia].
Qed.
Lemma append_segs_ok n segs x : segs_ok segs -> name_ok x -> segs_ok (append_segs n segs x).2.
Proof. intros Hok Hx. pose proof (close_ok segs x Hok Hx). unfold append_segs. destruct segs; [by cbn|done]. Qed.
Lemma names_close segs : names (close segs) = names segs.
Proof. destruct (segs_cases segs) as [-> |(segs' & y & j & ->)]; [done|]. rewrite close_snoc. unfold names. by rewrite !map_app. Qed.
(** [.] alone, with or without a separator behind it, and nothing at all. *)
Definition is_current (n : nat) (segs : list segment) : bool := (n =? 0)%nat && match segs with [] => true | [(x, _)] => bytes_eqb x kCurrentDirectory | _ => false end.
Lemma components_append n segs x : is_current n segs = false -> components (append_segs n segs x).1 (append_segs n segs x).2 = components n segs ++ [x].
Proof.
  intros Hc. destruct segs as [|[y j] segs].
  - unfold append_segs. cbn [fst snd]. by destruct n as [|[|[|n]]].
  - unfold append_segs. cbn [fst snd]. assert (names (close ((y, j) :: segs) ++ [(x, 0%nat)]) = names ((y, j) :: segs) ++ [x]) as En by (unfold names at 1; rewrite map_app; fold (names (close ((y, j) :: segs))); by rewrite names_close).
    destruct segs as [|s segs]; [destruct n as [|n]; cbn in Hc |- *|].
    + by rewrite Hc.
    + done.
    + assert (exists j' l, close ((y, j) :: s :: segs) = (y, j') :: l /\ l <> []) as (j' & l & El & Hl) by (exists j, (close (s :: segs)); split; [done|]; destruct s as [? ?], segs; discriminate).
      rewrite El in *. destruct l as [|s' l]; [done|]. destruct n as [|n]; [|cbn [components app kept_names]; cbn [app] in En; by rewrite En].
      cbn [components kept_names app] in *. unfold names in *. cbn [map fst] in *. injection En as En Et. destruct (bytes_eqb y kCurrentDirectory); by rewrite En, Et.
Qed.
Lemma components_some n segs : is_current n segs = false -> components n segs <> [].
Proof.
  unfold is_current. destruct n as [|n]; [|by destruct segs as [|[? ?] ?]]. destruct segs as [|[y j] [|[z i] segs]]; [done| |]; cbn; [by intros ->|]. intros _. by destruct (bytes_eqb y kCurrentDirectory).
Qed.
Lemma is_current_append n segs x : is_current n segs = false -> is_current (append_segs n segs x).1 (append_segs n segs x).2 = false.
Proof.
  intros H. destruct n as [|n]; [|by destruct segs as [|[? ?] ?]; [destruct n as [|[|n]]|]]. destruct segs as [|[y j] segs]; [done|]. unfold append_segs. cbn [fst snd]. by destruct segs as [|[? ?] [|? ?]].
Qed.
Lemma not_current n segs : segs_ok segs -> is_current n segs = false -> path_of n segs <> kCurrentDirectory.
Proof. intros Hok Hc E. pose proof (GetComponents_path n segs Hok) as G. rewrite E in G. apply (components_some n segs Hc). by injection G. Qed.
Lemma current_strip n segs : segs_ok segs -> path_of n segs <> [] -> StripTrailingSeparators (path_of n segs) <> kCurrentDirectory -> is_current n segs = false.
Proof.
  intros Hok Hne Hs. unfold is_current. destruct n as [|n]; [|done]. destruct segs as [|[y j] [|s segs]]; [done| |done]. cbn [Nat.eqb andb]. apply bytes_eqb_neq. intros ->. apply Hs. destruct Hok as (Hy & _). apply (strip_path 0 [] kCurrentDirectory j Hy).
Qed.
Lemma no_nul_app a b : no_nul (a ++ b) <-> no_nul a /\ no_nul b.
Proof. apply Forall_app. Qed.
Lemma no_nul_seps n : no_nul (seps n).
Proof. apply Forall_replicate. done. Qed.
Lemma no_nul_path n segs : no_nul (path_of n segs) <-> Forall no_nul (names segs).
Proof.
  unfold path_of. rewrite no_nul_app. transitivity (no_nul (body segs)); [pose proof (no_nul_seps n); tauto|]. induction segs as [|[y j] segs IH]; [split; constructor|].
  change (body ((y, j) :: segs)) with ((y ++ seps j) ++ body segs). change (names ((y, j) :: segs)) with (y :: names segs). rewrite !no_nul_app, IH, Forall_cons. pose proof (no_nul_seps j). tauto.
Qed.
Lemma no_nul_append n segs x : no_nul (path_of n segs) -> no_nul x -> no_nul (path_of (append_segs n segs x).1 (append_segs n segs x).2).
Proof.
  rewrite !no_nul_path. intros Hn Hx. unfold append_segs. destruct segs as [|s segs]; [by repeat constructor|]. cbn [snd]. unfold names at 1. rewrite map_app. fold (names (close (s :: segs))). rewrite names_close. apply Forall_app. split; [done|by repeat constructor].
Qed.
Definition names_ok (xs : list bytes) : Prop := Forall (fun x => name_ok x /\ no_nul x) xs.
Lemma append_all_path xs : forall n segs, segs_ok segs -> no_nul (path_of n segs) -> is_current n segs = false -> names_ok xs ->
  exists child, append_all dcheck_on xs (path_of n segs) = Ret child /\ GetComponents child = Ret (components n segs ++ xs).
Proof.
  induction xs as [|x xs IH]; intros n segs Hok Hn Hc Hxs; [exists (path_of n segs); split; [done|]; rewrite app_nil_r; by apply GetComponents_path|].
  apply Forall_cons_1 in Hxs as [[Hx Hxn] Hxs]. destruct (IH (append_segs n segs x).1 (append_segs n segs x).2) as (child & E & G); [by apply append_segs_ok|by apply no_nul_append|by apply is_current_append|done|].
  exists child. cbn [append_all]. rewrite Append_path by (done || by apply not_current). obind. split; [exact E|]. rewrite G, components_append, <- app_assoc by done. done.
Qed.
Lemma Append_base_dir p x : no_nul p -> name_ok x -> no_nul x ->
  exists q, Append x p = Ret q /\ BaseName q = x /\ DirName q = (if bytes_eqb p [] then kCurrentDirectory else StripTrailingSeparators p).
Proof.
  intros Hn Hx Hxn. destruct (decide (p = kCurrentDirectory)) as [-> |Hne].
  - exists x. unfold FilePath.Append. rewrite (find_char_none 0 x) by done. rewrite name_not_absolute, DCHECK_true by done. rewrite (proj2 (bytes_eqb_eq _ _)) by done. rewrite FilePath_of_id by done. split; [done|].
    pose proof (base_name [] x 0 Hx (or_introl eq_refl)) as B. pose proof (dir_top 0 x 0 Hx) as D. change (seps 0) with (@nil Z) in *. rewrite !app_nil_r in *. by rewrite <- B at 2.
  - destruct (every_path p) as (n & segs & Hok & ->). rewrite Append_path by done. eexists. split; [done|]. destruct (segs_cases segs) as [-> |(segs' & y & j & ->)].
    + unfold append_segs. cbn [fst snd]. split; [apply (base_path _ [] x 0); [constructor|done]|]. unfold path_of. rewrite body_one, dir_top by done. change (body []) with (@nil Z). rewrite app_nil_r, strip_seps. by destruct n as [|[|[|n]]].
    + apply segs_ok_app in Hok as [H (Hy & _ & _)]; [|done]. unfold append_segs. rewrite close_snoc, strip_path by done. assert (path_of n (segs' ++ [(y, j)]) <> []) as Hp by (rewrite path_snoc; destruct Hy as [Hy _]; destruct y; [done|]; by destruct (seps n ++ body segs')).
      rewrite (bytes_eqb_neq _ _ Hp). assert (segs' ++ [(y, j)] = [] -> False) as Hs by (by destruct segs'). destruct (segs' ++ [(y, j)]) eqn:Es; [by destruct Hs|]. cbn [fst snd]. split; [|by apply dir_path; [|lia|]].
      apply base_path; [|done]. apply Forall_app. split; [done|]. apply Forall_singleton. split; [done|cbn; lia].
Qed.

(** ** Relative paths *)
Lemma bytes_eqb_refl a : bytes_eqb a a = true.
Proof. by apply bytes_eqb_eq. Qed.
Lemma match_components_some parent child rest : match_components parent child = Some rest <-> child = parent ++ rest.
Proof.
  revert child. induction parent as [|p parent IH]; intros child; [cbn; split; [by intros [= ->]|by intros ->]|]. destruct child as [|c child]; [done|]. cbn [match_components app].
  destruct (bytes_eqb p c) eqn:E; [apply bytes_eqb_eq in E as ->; rewrite IH; split; [by intros ->|by intros [= ->]]|]. split; [done|]. intros [= -> _]. by rewrite bytes_eqb_refl in E.
Qed.
Lemma every_components p : exists cs, GetComponents p = Ret cs.
Proof. destruct (every_path p) as (n & segs & Hok & ->). eexists. by apply GetComponents_path. Qed.
Lemma relative_rest parent child ps rest path : GetComponents parent = Ret ps -> GetComponents child = Ret (ps ++ rest) -> ps <> [] -> rest <> [] ->
  AppendRelativePath dcheck_on parent child path = match path with Some q => q ← append_all dcheck_on rest q; Ret (true, Some q) | None => Ret (true, None) end.
Proof.
  intros Ep Ec Hp Hr. unfold AppendRelativePath. rewrite Ep. obind. rewrite Ec. obind. rewrite bool_decide_eq_false_2 by done. rewrite zlen_app. destruct rest as [|r rest]; [done|]. rewrite zlen_cons. pose proof (zlen_nonneg rest). destruct (Z.leb_spec (zlen ps + (1 + zlen rest)) (zlen ps)); [lia|].
  cbn [orb]. by rewrite (proj2 (match_components_some ps (ps ++ r :: rest) (r :: rest))).
Qed.
Lemma relative_none parent child ps cs path : GetComponents parent = Ret ps -> GetComponents child = Ret cs -> ps = [] \/ (forall rest, rest <> [] -> cs <> ps ++ rest) ->
  AppendRelativePath dcheck_on parent child path = Ret (false, path).
Proof.
  intros Ep Ec H. unfold AppendRelativePath. rewrite Ep. obind. rewrite Ec. obind. destruct (bool_decide_reflect (ps = [])) as [|Hp]; [done|]. destruct H as [|H]; [done|]. cbn [orb]. destruct (zlen cs <=? zlen ps) eqn:El; [done|].
  destruct (match_components ps cs) as [rest|] eqn:Em; [|done]. exfalso. apply match_components_some in Em. destruct rest as [|r rest]; [|by apply (H (r :: rest))]. rewrite app_nil_r in Em. subst cs. lia.
Qed.
End Appending.

(** * Extensions *)
Lemma rfind_app c a b : rfind_char c (a ++ b) = match rfind_char c b with Some i => Some (zlen a + i) | None => rfind_char c a end.
Proof.
  induction a as [|x a IH]; cbn [app rfind_char]; [by destruct (rfind_char c b)|]. rewrite IH, zlen_cons. destruct (rfind_char c b); [f_equal; lia|done].
Qed.
Lemma rfind_to_app c a b pos : pos + 1 = zlen a -> rfind_to c (a ++ b) pos = rfind_char c a.
Proof. intros H. unfold rfind_to. rewrite H. unfold zlen. by rewrite Nat2Z.id, take_app_length. Qed.
(** A path and the name behind its last separator. *)
Definition last_part (q x : bytes) : Prop := (q = [] \/ last q = Some kSeparator) /\ Forall (fun c => c <> kSeparator) x.
Lemma every_last_part s : exists q x, s = q ++ x /\ last_part q x.
Proof.
  destruct (rfind_cases kSeparator s) as [[_ H]|(a & b & -> & Hb & _)]; [exists [], s; split; [done|]; split; [by left|done]|].
  exists (a ++ [kSeparator]), b. rewrite <- app_assoc. split; [done|]. split; [right; by rewrite last_snoc|done].
Qed.
Lemma part_name q x : last_part q x -> x <> [] -> name_ok x.
Proof. intros [_ H] Hx. split; [done|]. eapply Forall_impl; [exact H|]. intros c Hc. unfold IsSeparator. by apply Z.eqb_neq. Qed.
Lemma base_part q x : last_part q x -> x <> [] -> BaseName (q ++ x) = x.
Proof. intros H Hx. pose proof (base_name q x 0 (part_name q x H Hx) (proj1 H)) as B. change (seps 0) with (@nil Z) in B. by rewrite app_nil_r in B. Qed.
Lemma no_special q x : q <> [] -> last_part q x -> bytes_eqb (q ++ x) kCurrentDirectory || bytes_eqb (q ++ x) kParentDirectory = false.
Proof.
  intros Hq [[->|Hl] _]; [done|]. apply last_Some in Hl as [q' ->]. assert (In kSeparator ((q' ++ [kSeparator]) ++ x)) as Hi by (apply in_or_app; left; apply in_or_app; right; by left).
  apply orb_false_iff. split; apply bytes_eqb_neq; intros E; rewrite E in Hi; cbn in Hi; unfold kSeparator in Hi; repeat destruct Hi as [Hi|Hi]; done.
Qed.
(** The extension of the path is where that of the name is. *)
Lemma final_pos_part q x i : last_part q x -> FinalExtensionSeparatorPosition x = Some i -> FinalExtensionSeparatorPosition (q ++ x) = Some (zlen q + i).
Proof.
  intros Hp. destruct q as [|c q]; [done|]. unfold FinalExtensionSeparatorPosition. rewrite no_special by done. destruct (bytes_eqb x kCurrentDirectory || bytes_eqb x kParentDirectory); [done|]. intros E. by rewrite rfind_app, E.
Qed.
Lemma final_pos_split x i : FinalExtensionSeparatorPosition x = Some i -> exists a b, x = a ++ kExtensionSeparator :: b /\ i = zlen a /\ Forall (fun c => c <> kExtensionSeparator) b.
Proof.
  unfold FinalExtensionSeparatorPosition. destruct (_ || _); [done|]. intros E. destruct (rfind_cases kExtensionSeparator x) as [[E' _]|(a & b & -> & Hb & E')]; rewrite E' in E; [done|]. injection E as <-. by exists a, b.
Qed.
Lemma rfind_bounds c s i : rfind_char c s = Some i -> 0 <= i < zlen s.
Proof.
  intros E. destruct (rfind_cases c s) as [[E' _]|(a & b & -> & _ & E')]; rewrite E' in E; [done|]. injection E as <-. rewrite zlen_app, zlen_cons. pose proof (zlen_nonneg a). pose proof (zlen_nonneg b). lia.
Qed.
Lemma substr_shift q x n k : k = zlen q + n -> 0 <= n -> substr k (q ++ x) = substr n x.
Proof.
  intros -> Hn. unfold substr. pose proof (zlen_nonneg q). rewrite Z2Nat.inj_add by done. unfold zlen at 1. rewrite Nat2Z.id. rewrite <- drop_drop, drop_app_length. done.
Qed.
Lemma dot_before_separator q' a : Forall (fun c => c <> kSeparator) a -> rfind_char kExtensionSeparator a = None ->
  match rfind_char kExtensionSeparator ((q' ++ [kSeparator]) ++ a) with Some p => p < zlen q' | None => True end.
Proof. intros _ E. rewrite rfind_app, E, rfind_app. cbn [rfind_char]. change (kSeparator =? kExtensionSeparator) with false. cbv iota. destruct (rfind_char kExtensionSeparator q') eqn:Eq; [|done]. by apply rfind_bounds in Eq as [_ ?]. Qed.
Lemma ext_pos_part q x i : last_part q x -> ExtensionSeparatorPosition x = Some i -> ExtensionSeparatorPosition (q ++ x) = Some (zlen q + i).
Proof.
  intros Hp. destruct q as [|c q]; [done|]. destruct Hp as [[?|Hq] Hx]; [done|]. pose proof Hq as Hq'. apply last_Some in Hq' as [q' Eq]. rewrite Eq in *. clear c q Eq. assert (last_part (q' ++ [kSeparator]) x) as Hp by (split; [by right|done]).
  unfold ExtensionSeparatorPosition. destruct (FinalExtensionSeparatorPosition x) as [l|] eqn:Ef; [|done]. rewrite (final_pos_part _ _ l) by done. destruct (final_pos_split x l Ef) as (a & b & -> & -> & Hb). clear Ef. set (q := q' ++ [kSeparator]) in *.
  apply Forall_app in Hx as [Ha _]. assert (zlen q = zlen q' + 1) as Eq by (unfold q; by rewrite zlen_app). pose proof (zlen_nonneg q'). pose proof (zlen_nonneg a). destruct (Z.eqb_spec (zlen q + zlen a) 0); [lia|].
  assert (forall c, rfind_to c (q ++ a ++ kExtensionSeparator :: b) (zlen q + zlen a - 1) = rfind_char c (q ++ a)) as Er by (intros c; rewrite app_assoc; apply rfind_to_app; rewrite zlen_app; lia).
  assert (forall c, rfind_to c (a ++ kExtensionSeparator :: b) (zlen a - 1) = rfind_char c a) as Ea by (intros c; apply rfind_to_app; lia). rewrite !Er, !Ea. rewrite (rfind_none kSeparator a Ha).
  assert (rfind_char kSeparator (q ++ a) = Some (zlen q')) as -> by (unfold q; rewrite <- app_assoc; by apply rfind_last).
  destruct (rfind_char kExtensionSeparator a) as [j|] eqn:Ej.
  - rewrite rfind_app, Ej. apply rfind_bounds in Ej. destruct (Z.ltb_spec (zlen q + j) (zlen q')); [lia|]. destruct (Z.eqb_spec (zlen a) 0); [lia|].
    rewrite !(substr_shift q _ (j + 1)), !(substr_shift q _ (zlen a + 1)) by lia. replace (zlen q + zlen a - (zlen q + j)) with (zlen a - j) by lia.
    destruct (existsb _ kCommonDoubleExtensions); [by intros [= <-]|]. destruct (_ && _ && _); by intros [= <-].
  - pose proof (dot_before_separator q' a Ha Ej) as Hd. fold q in Hd. assert ((if zlen a =? 0 then Some (zlen a) else Some (zlen a)) = Some i -> i = zlen a) as Hi by (destruct (zlen a =? 0); by intros [= <-]). intros E. apply Hi in E as ->.
    destruct (rfind_char kExtensionSeparator (q ++ a)) as [p|]; [|done]. by destruct (Z.ltb_spec p (zlen q')); [|lia].
Qed.
Lemma ext_pos_bounds x i : ExtensionSeparatorPosition x = Some i -> 0 <= i.
Proof.
  unfold ExtensionSeparatorPosition. destruct (FinalExtensionSeparatorPosition x) as [l|] eqn:Ef; [|done]. destruct (final_pos_split x l Ef) as (a & b & -> & -> & _). pose proof (zlen_nonneg a). destruct (Z.eqb_spec (zlen a) 0); [intros [= <-]; done|].
  rewrite rfind_to_app by lia. destruct (rfind_char kExtensionSeparator a) as [j|] eqn:Ej; [|by intros [= <-]]. apply rfind_bounds in Ej. destruct (match rfind_to _ _ _ with Some _ => _ | None => _ end); [by intros [= <-]|].
  destruct (existsb _ _); [intros [= <-]; lia|]. destruct (_ && _ && _); intros [= <-]; lia.
Qed.
Lemma resize_shift q x n k : k = zlen q + n -> 0 <= n -> resize k (q ++ x) = q ++ resize n x.
Proof. intros -> Hn. unfold resize. pose proof (zlen_nonneg q). rewrite Z2Nat.inj_add by done. unfold zlen at 1. rewrite Nat2Z.id. by rewrite take_app_add. Qed.
Lemma resize_substr n (x : bytes) : resize n x ++ substr n x = x.
Proof. apply take_drop. Qed.
Lemma no_nul_resize n s : no_nul s -> no_nul (resize n s).
Proof. apply Forall_take. Qed.
Lemma not_ending_part p : EndsWithSeparator p = false -> p = [] \/ exists q x, p = q ++ x /\ last_part q x /\ x <> [].
Proof.
  intros He. destruct (every_last_part p) as (q & x & -> & Hp). destruct x as [|c x]; [|right; by exists q, (c :: x)]. rewrite app_nil_r in *. destruct Hp as [[->|Hl] _]; [by left|]. unfold EndsWithSeparator in He. by rewrite Hl in He.
Qed.
Lemma split_at q x dot : last_part q x -> x <> [] -> no_nul (q ++ x) -> 0 <= dot -> FilePath_of (resize (zlen q + dot) (q ++ x)) ++ substr dot x = q ++ x.
Proof. intros Hp Hx Hn Hd. rewrite FilePath_of_id by (by apply no_nul_resize). by rewrite (resize_shift q x dot), <- app_assoc, resize_substr. Qed.
Lemma extension_split_lemma p : no_nul p -> EndsWithSeparator p = false -> RemoveExtension p ++ Extension p = p /\ RemoveFinalExtension p ++ FinalExtension p = p.
Proof.
  intros Hn He. destruct (not_ending_part p He) as [-> |(q & x & -> & Hp & Hx)]; [done|]. unfold RemoveExtension, Extension, RemoveFinalExtension, FinalExtension. rewrite base_part by done. split.
  - destruct (ExtensionSeparatorPosition x) as [dot|] eqn:E; [|by rewrite bytes_eqb_refl, app_nil_r]. destruct (bytes_eqb (substr dot x) []) eqn:Es; [apply bytes_eqb_eq in Es as ->; by rewrite app_nil_r|]. rewrite (ext_pos_part q x dot) by done. apply split_at; try done. by eapply ext_pos_bounds.
  - destruct (FinalExtensionSeparatorPosition x) as [dot|] eqn:E; [|by rewrite bytes_eqb_refl, app_nil_r]. destruct (bytes_eqb (substr dot x) []) eqn:Es; [apply bytes_eqb_eq in Es as ->; by rewrite app_nil_r|]. rewrite (final_pos_part q x dot) by done. apply split_at; try done.
    destruct (final_pos_split x dot E) as (a & _ & _ & -> & _). apply zlen_nonneg.
Qed.
(** What an extension may be: characters that are no dots, separators or NULs. *)
Definition ext_ok (e : bytes) : Prop := e <> [] /\ Forall (fun c => c <> kExtensionSeparator /\ c <> kSeparator /\ c <> 0) e.
Lemma put_extension s e : no_nul s -> ext_ok e -> FinalExtension (s ++ kExtensionSeparator :: e) = kExtensionSeparator :: e /\ RemoveFinalExtension (s ++ kExtensionSeparator :: e) = s.
Proof.
  intros Hn [Hne He]. assert (Forall (fun c => c <> kExtensionSeparator) e /\ Forall (fun c => c <> kSeparator) e) as [Hd Hs] by (split; eapply Forall_impl; [exact He|by intros c (? & ? & _)|exact He|by intros c (? & ? & _)]).
  assert (forall t, FinalExtensionSeparatorPosition (t ++ kExtensionSeparator :: e) = Some (zlen t)) as Hpos.
  { intros t. unfold FinalExtensionSeparatorPosition. rewrite !bytes_eqb_neq; [by apply rfind_last| |]; intros E; destruct e as [|c e]; try done; apply Forall_cons_1 in Hd as [Hc _]; destruct t as [|a [|b t]]; try done; cbn in E; [by injection E as ->|by destruct t]. }
  destruct (every_last_part s) as (q & y & -> & [Hq Hy]). assert (last_part q (y ++ kExtensionSeparator :: e)) as Hp by (split; [done|]; apply Forall_app; split; [done|by constructor]).
  assert (FinalExtension ((q ++ y) ++ kExtensionSeparator :: e) = kExtensionSeparator :: e) as Ef. { unfold FinalExtension. rewrite <- app_assoc, base_part by (done || by destruct y). rewrite Hpos. by apply substr_app. }
  split; [exact Ef|]. unfold RemoveFinalExtension. rewrite Ef, Hpos, resize_app by done. rewrite bytes_eqb_neq by done. by apply FilePath_of_id.
Qed.
Lemma no_nul_RemoveExtension p : no_nul p -> no_nul (RemoveExtension p).
Proof. intros H. unfold RemoveExtension. destruct (bytes_eqb _ _); [done|]. destruct (ExtensionSeparatorPosition p); [|done]. rewrite FilePath_of_id; by apply no_nul_resize. Qed.
Lemma ext_ok_plain e : ext_ok e -> no_extension e = false /\ starts_with_dot e = false /\ no_extension (kExtensionSeparator :: e) = false /\ no_nul (kExtensionSeparator :: e).
Proof.
  intros [Hne He]. destruct e as [|c e]; [done|]. assert (no_nul (c :: e)) as Hn by (eapply Forall_impl; [exact He|by intros ? (_ & _ & ?)]). apply Forall_cons_1 in He as [(Hd & _) _]. unfold no_extension. rewrite !bytes_eqb_neq by congruence. repeat split; [by apply Z.eqb_neq|].
  constructor; done.
Qed.
(** The two ways to name an extension. *)
Definition ext_names (ext e : bytes) : Prop := ext = e \/ ext = kExtensionSeparator :: e.
Lemma ReplaceExtension_put ext e p : no_nul p -> ext_ok e -> ext_names ext e -> IsEmptyOrSpecialCase (BaseName p) = false -> ReplaceExtension ext p = RemoveExtension p ++ kExtensionSeparator :: e.
Proof.
  intros Hp He Hx Hb. destruct (ext_ok_plain e He) as (N1 & S1 & N2 & Hn). pose proof (no_nul_RemoveExtension p Hp). unfold ReplaceExtension. rewrite Hb. assert (no_nul (RemoveExtension p ++ kExtensionSeparator :: e)) by (by apply no_nul_app).
  destruct Hx as [-> | ->]; rewrite ?N1, ?S1, ?N2; cbn [starts_with_dot]; [|change (kExtensionSeparator =? kExtensionSeparator) with true]; cbn [negb]; rewrite <- ?app_assoc; by apply FilePath_of_id.
Qed.
Lemma AddExtension_put ext e p : no_nul p -> ext_ok e -> IsEmptyOrSpecialCase (BaseName p) = false ->
  (ext = kExtensionSeparator :: e \/ ext = e /\ last p <> Some kExtensionSeparator -> AddExtension ext p = p ++ kExtensionSeparator :: e) /\
  (forall p', ext = e -> p = p' ++ [kExtensionSeparator] -> AddExtension ext p = p' ++ kExtensionSeparator :: e).
Proof.
  intros Hp He Hb. destruct (ext_ok_plain e He) as (N1 & S1 & N2 & Hn). unfold AddExtension. rewrite Hb. split.
  - intros [-> |[-> Hl]]; rewrite ?N1, ?S1, ?N2; cbn [starts_with_dot negb andb]; [change (kExtensionSeparator =? kExtensionSeparator) with true; cbn [negb andb]; apply FilePath_of_id; by apply no_nul_app|].
    rewrite bool_decide_eq_false_2 by done. cbn [negb]. rewrite <- app_assoc. apply FilePath_of_id. by apply no_nul_app.
  - intros p' -> ->. rewrite N1, S1, last_snoc, bool_decide_eq_true_2 by done. cbn [negb andb]. rewrite <- app_assoc. apply FilePath_of_id. apply no_nul_app in Hp as [? _]. by apply no_nul_app.
Qed.

(** ** Paths in pickles *)
Lemma path_pickle dcheck_on little realloc_ok fill p h c path : (forall n, 0 <= n < 2 ^ 36 -> realloc_ok n = true) -> rep little p h c -> zlen path < 2 ^ 31 -> zlen c + zlen (encode little KString path) <= kuint32max ->
  exists p', WriteToPickle dcheck_on little realloc_ok fill path p = Ret p' /\ rep little p' h (c ++ encode little KString path).
Proof. intros Hr Hp Hl Hc. pose proof (all_portable dcheck_on little realloc_ok fill Hr KString I). by apply (write_encode dcheck_on little realloc_ok fill (k := KString)). Qed.
Lemma path_unpickle little old it c path : zlen path < 2 ^ 31 -> before it (encode little KString path ++ c) ->
  exists it', ReadFromPickle little old it = Ret (match find_char 0 path with Some _ => false | None => true end, path, it') /\ before it' c.
Proof.
  intros Hl Hb. pose proof (all_portable true little (fun _ => true) (fun _ => 0) ltac:(done) KString I) as P. destruct (read_encode true little (fun _ => true) (fun _ => 0) (k := KString) it c path Hl Hb) as (it' & E & Hb').
  exists it'. split; [|done]. unfold ReadFromPickle. cbn [read] in E. by rewrite E.
Qed.

(** * Theorems *)
(** Every path is separators, then names, each with separators behind it, and
    [GetComponents] ends and gives the names in order behind the root: [/] for one or more
    than three leading separators, [//] for two or three; a [.] in front of a relative
    path is left out. *)
Theorem components_exact s : exists n segs, segs_ok segs /\ s = path_of n segs /\ GetComponents s = Ret (components n segs).
Proof. destruct (every_path s) as (n & segs & Hok & ->). exists n, segs. split; [done|]. split; [done|]. by apply GetComponents_path. Qed.
Example components_1 : map (fun s => GetComponents (bytes_of_string s)) ["//foo/bar//baz/"; "./a/b"; "///"; "a/../b"]%string =
  map (fun l => Ret (map bytes_of_string l)) [["//"; "foo"; "bar"; "baz"]; ["a"; "b"]; ["/"]; ["a"; ".."; "b"]]%string.
Proof. vm_compute. reflexivity. Qed.

(** C40: paths are put together and taken apart: what a name is appended to has the name as
    its base name and what was there, without separators at its end, as its directory; and
    a path to which names are appended one by one - not [.] alone - has its old components
    and the names as components, has the path as a parent, and [AppendRelativePath] puts
    just the names behind any other path. No check fails. *)
Theorem append_parent_exact dcheck_on p x xs : no_nul p -> names_ok (x :: xs) ->
  (exists q, Append dcheck_on x p = Ret q /\ BaseName q = x /\ DirName q = (if bytes_eqb p [] then kCurrentDirectory else StripTrailingSeparators p)) /\
  (p <> [] -> StripTrailingSeparators p <> kCurrentDirectory ->
   exists child cs, append_all dcheck_on (x :: xs) p = Ret child /\ GetComponents p = Ret cs /\ GetComponents child = Ret (cs ++ x :: xs) /\
     IsParent dcheck_on p child = Ret true /\ IsParent dcheck_on child p = Ret false /\
     forall q, AppendRelativePath dcheck_on p child (Some q) = (r ← append_all dcheck_on (x :: xs) q; Ret (true, Some r))).
Proof.
  intros Hn Hxs. pose proof (Forall_cons_1 _ _ _ Hxs) as [[Hx Hxn] _]. split; [by apply Append_base_dir|]. intros Hne Hs. destruct (every_path p) as (n & segs & Hok & ->). pose proof (current_strip n segs Hok Hne Hs) as Hc.
  destruct (append_all_path dcheck_on (x :: xs) n segs Hok Hn Hc Hxs) as (child & E & G). pose proof (GetComponents_path n segs Hok) as Gp. pose proof (components_some n segs Hc) as Hcs. exists child, (components n segs). do 3 (split; [done|]). split; [|split].
  - unfold IsParent. by rewrite (relative_rest dcheck_on _ _ _ _ None Gp G Hcs).
  - unfold IsParent. rewrite (relative_none dcheck_on _ _ _ _ None G Gp); [done|]. right. intros rest _ E2. rewrite <- app_assoc in E2. apply (f_equal length) in E2. rewrite !length_app in E2. cbn in E2. lia.
  - intros q. by apply (relative_rest dcheck_on _ _ _ _ (Some q) Gp G).
Qed.
Lemma append_parent_exact_witness : exists child, append_all true [str#"b"; str#"c.d"] (str#"/a//") = Ret child /\ IsParent true (str#"/a//") child = Ret true.
Proof.
  destruct (append_parent_exact true (str#"/a//") (str#"b") [str#"c.d"]) as [_ (child & cs & E & _ & _ & P & _)].
  - repeat constructor; done.
  - repeat (constructor; try done).
  - done.
  - vm_compute. done.
  - by exists child.
Defined.

(** Extensions come off and go on: a path that does not end with a separator is what
    [RemoveExtension] leaves with [Extension] behind it, and the same with the final
    extension; and an extension, given with its dot or without, that is put in the place
    of the old or behind it is the final extension of the new path, and taking it off
    leaves what it was put behind. *)
Theorem extensions_exact p ext e : no_nul p -> ext_ok e -> ext_names ext e ->
  (EndsWithSeparator p = false -> RemoveExtension p ++ Extension p = p /\ RemoveFinalExtension p ++ FinalExtension p = p) /\
  (IsEmptyOrSpecialCase (BaseName p) = false ->
   (FinalExtension (ReplaceExtension ext p) = kExtensionSeparator :: e /\ RemoveFinalExtension (ReplaceExtension ext p) = RemoveExtension p) /\
   FinalExtension (AddExtension ext p) = kExtensionSeparator :: e /\
   (last p <> Some kExtensionSeparator \/ ext <> e -> RemoveFinalExtension (AddExtension ext p) = p) /\
   (last p = Some kExtensionSeparator -> ext = e -> RemoveFinalExtension (AddExtension ext p) ++ [kExtensionSeparator] = p)).
Proof.
  intros Hp He Hx. split; [by apply extension_split_lemma|]. intros Hb. rewrite (ReplaceExtension_put ext e p) by done. split; [apply put_extension; [by apply no_nul_RemoveExtension|done]|].
  destruct (AddExtension_put ext e p Hp He Hb) as [H1 H2]. destruct (put_extension p e Hp He) as [F1 R1]. destruct (decide (last p = Some kExtensionSeparator /\ ext = e)) as [[Hl ->]|Hd].
  - apply last_Some in Hl as [p' ->]. rewrite (H2 p') by done. apply no_nul_app in Hp as [Hp' _]. destruct (put_extension p' e Hp' He) as [F2 R2]. split; [exact F2|]. split; [|by rewrite R2]. intros [Hl|?]; [|done]. by rewrite last_snoc in Hl.
  - rewrite H1; [|destruct Hx as [-> | ->]; [right; split; [done|]; intros ?; by apply Hd|by left]]. split; [exact F1|]. split; [done|]. intros ? ?. by destruct Hd.
Qed.
Lemma extensions_exact_witness : RemoveExtension (str#"/a.b/x.tar.gz") ++ Extension (str#"/a.b/x.tar.gz") = str#"/a.b/x.tar.gz" /\
  FinalExtension (ReplaceExtension (str#"txt") (str#"/a.b/x.tar.gz")) = str#".txt".
Proof.
  destruct (extensions_exact (str#"/a.b/x.tar.gz") (str#"txt") (str#"txt")) as [H1 H2].
  - repeat constructor; done.
  - split; [done|]. repeat constructor; done.
  - by left.
  - split; [apply H1; reflexivity|]. apply H2. vm_compute. reflexivity.
Defined.
(** With a separator behind the name the two disagree about a double extension. *)
Example double_extension_separator : (RemoveExtension (str#"a.tar.gz/"), Extension (str#"a.tar.gz/"), InsertBeforeExtension (str#"X") (str#"a.tar.gz/")) = (str#"a.tar", str#".tar.gz", str#"a.tarX.tar.gz").
Proof. vm_compute. reflexivity. Qed.
(** What is appended to [./] is not in it. *)
Example current_not_parent : (child ← Append true (str#"x") (str#"./"); IsParent true (str#"./") child) = Ret false.
Proof. vm_compute. reflexivity. Qed.
Example three_separators : DirName (str#"///aa") = str#"//" /\ DirName (str#"///") = str#"/".
Proof. vm_compute. done. Qed.
