(* ===== verification/Digest.v ===== *)
(** Digests of messages in blocks of 64 bytes, as FIPS 180 and RFC 1321 define them: the
    message is padded, and a compression function takes one block after the other. The
    lemmas are about a message that is taken in pieces; the code keeps the state after
    the whole blocks ([absorbed]) and the bytes behind them ([rest]). *)
From Stdlib Require Import ZArith Lia Bool.
From stdpp Require Import base list numbers.
From S2P Require Import Prelude.

Open Scope Z_scope.

Lemma bind_ret {A B} (m : outcome A) a (k : A -> outcome B) : m = Ret a -> mbind k m = k a.
Proof. by intros ->. Qed.

Section Blocks.
Context {T : Type} (compress : T -> bytes -> T) (iv : T).

Fixpoint absorb (n : nat) (h : T) (m : bytes) : T :=
  match n with O => h | S n => absorb n (compress h (take 64 m)) (drop 64 m) end.
Definition whole (m : bytes) : nat := (length m / 64)%nat.
Definition absorbed (m : bytes) : T := absorb (whole m) iv m.
Definition rest (m : bytes) : bytes := drop (64 * whole m) m.
Definition zeros (n : nat) : bytes := replicate n 0.
(** A one bit, zeros and the length of the message in bits, to a multiple of 64 bytes. *)
Definition padding (length_bytes : Z -> bytes) (n : Z) : bytes :=
  128 :: zeros (Z.to_nat ((55 - n) mod 64)) ++ length_bytes ((8 * n) mod 2 ^ 64).
Definition digest (length_bytes : Z -> bytes) (m : bytes) : T := absorbed (m ++ padding length_bytes (zlen m)).

Lemma absorb_app n : forall k h a b, length a = (64 * n)%nat -> absorb (n + k) h (a ++ b) = absorb k (absorb n h a) b.
Proof.
  induction n as [|n IH]; intros k h a b Ha; [by destruct a|]. cbn [Nat.add absorb]. rewrite take_app_le, drop_app_le by lia. apply IH. rewrite length_drop. lia.
Qed.
Lemma length_rest m : length (rest m) = (length m mod 64)%nat.
Proof. unfold rest, whole. rewrite length_drop. pose proof (Nat.div_mod_eq (length m) 64). lia. Qed.
Lemma length_mod_rest m : zlen m mod 64 = Z.of_nat (length (rest m)).
Proof. rewrite length_rest. unfold zlen. by rewrite Nat2Z.inj_mod. Qed.
Lemma rest_short m : (length (rest m) < 64)%nat.
Proof. rewrite length_rest. by apply Nat.mod_upper_bound. Qed.
Lemma split_rest m : exists a, m = a ++ rest m /\ length a = (64 * whole m)%nat /\ absorbed m = absorb (whole m) iv a.
Proof.
  exists (take (64 * whole m) m). unfold rest. rewrite take_drop. pose proof (Nat.div_mod_eq (length m) 64). assert (length (take (64 * whole m) m) = (64 * whole m)%nat) as Hl by (unfold whole; rewrite length_take; lia).
  split; [done|]. split; [done|]. unfold absorbed. rewrite <- (take_drop (64 * whole m) m) at 2. rewrite <- (Nat.add_0_r (whole m)) at 1. by rewrite absorb_app.
Qed.
Lemma absorb_short n h a b : length a = (64 * n)%nat -> absorb n h (a ++ b) = absorb n h a.
Proof. intros H. rewrite <- (Nat.add_0_r n) at 1. by rewrite absorb_app. Qed.
(** More bytes that do not fill the block, and bytes that just do. *)
Lemma absorbed_more m d : (length (rest m) + length d < 64)%nat -> absorbed (m ++ d) = absorbed m /\ rest (m ++ d) = rest m ++ d.
Proof.
  intros H. destruct (split_rest m) as (a & Em & Ha & Ea). assert (whole (m ++ d) = whole m) as Ew.
  { unfold whole at 1. rewrite Em at 1. rewrite <- app_assoc, length_app, Ha, length_app. symmetry. apply Nat.div_unique with (length (rest m) + length d)%nat; lia. }
  split.
  - unfold absorbed at 1. rewrite Ew, Ea. rewrite Em at 2. rewrite <- app_assoc. by apply absorb_short.
  - unfold rest at 1. rewrite Ew. rewrite Em at 2. rewrite <- app_assoc, <- Ha. by rewrite drop_app_length.
Qed.
Lemma absorbed_block m d : (length (rest m) + length d = 64)%nat -> absorbed (m ++ d) = compress (absorbed m) (rest m ++ d) /\ rest (m ++ d) = [].
Proof.
  intros H. destruct (split_rest m) as (a & Em & Ha & Ea). assert (length (m ++ d) = (64 * (whole m + 1))%nat) as El by (rewrite Em at 1; rewrite <- app_assoc, length_app, Ha, length_app; lia).
  assert (whole (m ++ d) = (whole m + 1)%nat) as Ew by (unfold whole at 1; rewrite El, Nat.mul_comm; by apply Nat.div_mul). split.
  - unfold absorbed at 1. rewrite Ew. rewrite Em at 2. rewrite <- app_assoc, absorb_app, <- Ea by done. cbn [absorb]. rewrite take_ge; [done|]. rewrite length_app. lia.
  - unfold rest. rewrite Ew. apply drop_ge. lia.
Qed.
Lemma absorbed_blocks m d : rest m = [] -> absorbed (m ++ d) = absorb (whole d) (absorbed m) d /\ rest (m ++ d) = rest d.
Proof.
  intros H. destruct (split_rest m) as (a & Em & Ha & Ea). rewrite H, app_nil_r in Em. subst a. assert (whole (m ++ d) = (whole m + whole d)%nat) as Ew.
  { unfold whole at 1. rewrite length_app, Ha. symmetry. apply Nat.div_unique with (length d mod 64)%nat; [by apply Nat.mod_upper_bound|]. pose proof (Nat.div_mod_eq (length d) 64). fold (whole d) in *. lia. }
  split.
  - unfold absorbed at 1. rewrite Ew, absorb_app by done. done.
  - unfold rest. rewrite Ew, Nat.mul_add_distr_l, <- Ha, <- drop_drop, drop_app_length. done.
Qed.
Lemma whole_more d : (64 <= length d)%nat -> whole d = S (whole (drop 64 d)) /\ rest d = rest (drop 64 d).
Proof.
  intros H. assert (whole d = S (whole (drop 64 d))) as Ew.
  { unfold whole. rewrite length_drop. replace (length d) with (length d - 64 + 1 * 64)%nat at 1 by lia. rewrite Nat.div_add by done. lia. }
  split; [done|]. unfold rest. rewrite Ew, drop_drop. f_equal. lia.
Qed.
Lemma whole_less d : (length d < 64)%nat -> whole d = 0%nat /\ rest d = d.
Proof. intros H. assert (whole d = 0%nat) as Ew by (by apply Nat.div_small). split; [done|]. unfold rest. by rewrite Ew. Qed.
Lemma zeros_split n k : (n <= k)%nat -> zeros k = zeros n ++ zeros (k - n).
Proof. intros. unfold zeros. rewrite <- replicate_add. f_equal. lia. Qed.
(** The padding takes the block that is begun, or that and one more. *)
Lemma digest_one length_bytes m : (length (rest m) < 56)%nat -> (forall n, length (length_bytes n) = 8%nat) ->
  digest length_bytes m = compress (absorbed m) (rest m ++ 128 :: zeros (55 - length (rest m)) ++ length_bytes ((8 * zlen m) mod 2 ^ 64)).
Proof.
  intros H Hl. unfold digest, padding. assert (Z.to_nat ((55 - zlen m) mod 64) = (55 - length (rest m))%nat) as ->.
  { pose proof (length_mod_rest m). Z.div_mod_to_equations. lia. }
  apply absorbed_block. cbn [length]. unfold zeros. rewrite length_app, length_replicate, Hl. lia.
Qed.
Lemma digest_two length_bytes m : (56 <= length (rest m))%nat -> (forall n, length (length_bytes n) = 8%nat) ->
  digest length_bytes m = compress (compress (absorbed m) (rest m ++ 128 :: zeros (63 - length (rest m)))) (zeros 56 ++ length_bytes ((8 * zlen m) mod 2 ^ 64)).
Proof.
  intros H Hl. pose proof (rest_short m). unfold digest, padding. assert (Z.to_nat ((55 - zlen m) mod 64) = (119 - length (rest m))%nat) as ->.
  { pose proof (length_mod_rest m). Z.div_mod_to_equations. lia. }
  rewrite (zeros_split (63 - length (rest m))) by lia. replace (119 - length (rest m) - (63 - length (rest m)))%nat with 56%nat by lia. rewrite <- app_assoc, app_comm_cons, app_assoc.
  destruct (absorbed_block m (128 :: zeros (63 - length (rest m)))) as [E1 E2]; [cbn [length]; unfold zeros; rewrite length_replicate; lia|].
  destruct (absorbed_block (m ++ 128 :: zeros (63 - length (rest m))) (zeros 56 ++ length_bytes ((8 * zlen m) mod 2 ^ 64))) as [E3 _]; [rewrite E2, length_app, Hl; done|]. by rewrite E3, E1, E2.
Qed.
Lemma length_zeros k : length (zeros k) = k.
Proof. apply length_replicate. Qed.
Lemma zeros_bytes k : all_bytes (zeros k).
Proof. by apply Forall_replicate. Qed.
End Blocks.

(** * 32-bit words *)
Definition is_word (x : Z) : Prop := 0 <= x < 2 ^ 32.
Lemma word_bits x : is_word x <-> 0 <= x /\ forall i, 32 <= i -> Z.testbit x i = false.
Proof.
  split.
  - intros [H0 H]. split; [done|]. intros i Hi. rewrite <- (Z.mod_small x (2 ^ 32)) by done. by apply Z.mod_pow2_bits_high.
  - intros [H0 H]. assert (x = x mod 2 ^ 32) as ->; [|by apply Z.mod_pos_bound]. apply Z.bits_inj'. intros i Hi. destruct (Z.lt_ge_cases i 32); [by rewrite Z.mod_pow2_bits_low|]. by rewrite H, Z.mod_pow2_bits_high.
Qed.
Lemma word_lxor x y : is_word x -> is_word y -> is_word (Z.lxor x y).
Proof. rewrite !word_bits. intros [H0 H] [K0 K]. split; [by apply Z.lxor_nonneg|]. intros i Hi. by rewrite Z.lxor_spec, H, K. Qed.
Lemma word_lor x y : is_word x -> is_word y -> is_word (Z.lor x y).
Proof. rewrite !word_bits. intros [H0 H] [K0 K]. split; [by apply Z.lor_nonneg|]. intros i Hi. by rewrite Z.lor_spec, H, K. Qed.
Lemma word_land x y : is_word x -> is_word y -> is_word (Z.land x y).
Proof. rewrite !word_bits. intros [H0 H] [K0 K]. split; [apply Z.land_nonneg; auto|]. intros i Hi. by rewrite Z.land_spec, H. Qed.
Lemma word_u32 x : is_word (u32 x).
Proof. by apply uwrap_range. Qed.
(** A property of 32-bit words that holds bit by bit holds. *)
Lemma word_ext x y : is_word x -> is_word y -> (forall i, 0 <= i < 32 -> Z.testbit x i = Z.testbit y i) -> x = y.
Proof.
  rewrite !word_bits. intros [_ Hx] [_ Hy] H. apply Z.bits_inj'. intros i Hi. destruct (Z.lt_ge_cases i 32); [by apply H|]. by rewrite Hx, Hy.
Qed.
(** The complement, [~x] of a [uint32]. *)
Definition not32 (x : Z) : Z := u32 (Z.lnot x).
Lemma not32_bit x i : 0 <= i < 32 -> Z.testbit (not32 x) i = negb (Z.testbit x i).
Proof. intros. unfold not32, uwrap. rewrite Z.mod_pow2_bits_low by lia. apply Z.lnot_spec. lia. Qed.
Lemma word_not32 x : is_word (not32 x).
Proof. apply word_u32. Qed.
Create HintDb words.
#[export] Hint Resolve word_lxor word_lor word_land word_u32 word_not32 : words.
Ltac word_bitwise :=
  apply word_ext; [auto with words..|]; let i := fresh "i" in intros i ?;
  repeat (rewrite ?Z.lxor_spec, ?Z.lor_spec, ?Z.land_spec; rewrite ?not32_bit by done);
  repeat match goal with |- context [Z.testbit ?x i] => destruct (Z.testbit x i) end; reflexivity.

(** Rotation to the left: what is shifted out comes in at the other end. *)
Definition rotl (n x : Z) : Z := (x * 2 ^ n) mod 2 ^ 32 + x / 2 ^ (32 - n).
Lemma rotate_rotl n x : 0 < n < 32 -> is_word x -> Z.lor (u32 (Z.shiftl x n)) (Z.shiftr x (32 - n)) = rotl n x /\ is_word (rotl n x).
Proof.
  intros Hn [H0 Hx]. assert (u32 (Z.shiftl x n) = Z.shiftl (x mod 2 ^ (32 - n)) n) as E.
  { rewrite !Z.shiftl_mul_pow2 by lia. unfold uwrap. replace (2 ^ 32) with (2 ^ (32 - n) * 2 ^ n) by (rewrite <- Z.pow_add_r by lia; f_equal; lia). apply Z.mul_mod_distr_r; apply Z.pow_nonzero; lia. }
  assert (0 <= x / 2 ^ (32 - n) < 2 ^ n) as Hh.
  { split; [apply Z.div_pos; [done|apply Z.pow_pos_nonneg; lia]|]. apply Z.div_lt_upper_bound; [apply Z.pow_pos_nonneg; lia|]. rewrite <- Z.pow_add_r by lia. by replace (32 - n + n) with 32 by lia. }
  split.
  - rewrite E, Z.shiftr_div_pow2, lor_shiftl_add by lia. unfold rotl. f_equal. rewrite <- Z.shiftl_mul_pow2 by lia. rewrite <- Z.shiftl_mul_pow2 by lia. by rewrite <- E.
  - assert (is_word (Z.lor (u32 (Z.shiftl x n)) (Z.shiftr x (32 - n)))) as Hw.
    { apply word_lor; [apply word_u32|]. rewrite Z.shiftr_div_pow2 by lia. split; [lia|]. apply Z.lt_le_trans with (2 ^ n); [lia|]. apply Z.pow_le_mono_r; lia. }
    rewrite E, Z.shiftr_div_pow2, lor_shiftl_add in Hw by lia. unfold rotl. replace ((x * 2 ^ n) mod 2 ^ 32) with (x mod 2 ^ (32 - n) * 2 ^ n); [done|].
    rewrite <- !Z.shiftl_mul_pow2 by lia. by rewrite <- E.
Qed.

(** * Words in memory *)
Lemma lookup_zslice {A} o n (m : list A) i : zslice o n m !! i = if decide (i < Z.to_nat n)%nat then m !! (Z.to_nat o + i)%nat else None.
Proof. unfold zslice. destruct (decide _); [by rewrite lookup_take_lt, lookup_drop|]. apply lookup_ge_None_2. rewrite length_take. lia. Qed.
Lemma slice_splice_same {A} off n (d m : list A) : n = zlen d -> 0 <= off -> off + n <= zlen m -> zslice off n (zsplice off d m) = d.
Proof.
  intros -> Ho Hl. unfold zsplice. apply zslice_middle; [|done]. unfold zlen in *. rewrite length_take. lia.
Qed.
Lemma slice_splice_other {A} o n off (d m : list A) : 0 <= o -> 0 <= off -> off + zlen d <= zlen m -> o + n <= off \/ off + zlen d <= o -> zslice o n (zsplice off d m) = zslice o n m.
Proof.
  intros Ho Hoff Hl Hd. apply list_eq. intros i. rewrite !lookup_zslice. destruct (decide _); [|done]. unfold zsplice, zlen in *.
  destruct Hd as [Hd|Hd].
  - rewrite lookup_app_l by (rewrite length_take; lia). rewrite lookup_take_lt by lia. done.
  - rewrite lookup_app_r by (rewrite length_take; lia). rewrite lookup_app_r by (rewrite length_take; lia). rewrite lookup_drop, length_take. f_equal. lia.
Qed.
