(* ===== verification/Sha1.v ===== *)
(** SHA-1, [zutils/base/sha1_portable.cc], on a host of either byte order, and FIPS 180-3,
    which it computes on a little-endian one. *)
From Stdlib Require Import ZArith Lia Bool Ascii String.
From stdpp Require Import base list numbers.
From S2P Require Import Prelude SysByteorder Digest.

Open Scope Z_scope.

Definition kDigestSizeBytes : Z := 20.
Definition f (t B C D : Z) : Z :=
  if t <? 20 then Z.lor (Z.land B C) (Z.land (not32 B) D)
  else if t <? 40 then Z.lxor (Z.lxor B C) D
  else if t <? 60 then Z.lor (Z.lor (Z.land B C) (Z.land B D)) (Z.land C D)
  else Z.lxor (Z.lxor B C) D.
Definition S_ (n X : Z) : Z := Z.lor (u32 (Z.shiftl X n)) (Z.shiftr X (32 - n)).
Definition K (t : Z) : Z := if t <? 20 then 0x5a827999 else if t <? 40 then 0x6ed9eba1 else if t <? 60 then 0x8f1bbcdc else 0xca62c1d6.
Definition swapends (t : Z) : Z :=
  Z.lor (Z.lor (Z.lor (Z.shiftr t 24) (Z.land (Z.shiftr t 8) 0xff00)) (u32 (Z.shiftl (Z.land t 0xff00) 8))) (u32 (Z.shiftl t 24)).

(** The members; [WM] is the union of [W] and [M]: 320 bytes. *)
Definition regs : Type := Z * Z * Z * Z * Z.
Record sha := Sha { ABCDE : regs; H_ : regs; WM : bytes; cursor : Z; l_ : Z }.

Section Host.
Context (little : bool).

Definition W (u : bytes) (t : nat) : Z := host_val little (zslice (4 * Z.of_nat t) 4 u).
Definition set_W (t : nat) (x : Z) (u : bytes) : bytes := zsplice (4 * Z.of_nat t) (host_bytes little 4 x) u.
(** [M[i] = v]. *)
Definition set_M (i v : Z) (u : bytes) : outcome bytes := if (0 <=? i) && (i <? 64) then Ret (zsplice i [v] u) else Fault OutOfBounds.

Definition Init (s : sha) : sha := Sha (0, 0, 0, 0, 0) (0x67452301, 0xefcdab89, 0x98badcfe, 0x10325476, 0xc3d2e1f0) (WM s) 0 0.

Definition swap_words (u : bytes) : bytes := fold_left (fun u t => set_W t (swapends (W u t)) u) (seq 0 16) u.
Definition expand_words (u : bytes) : bytes :=
  fold_left (fun u t => set_W t (S_ 1 (Z.lxor (Z.lxor (Z.lxor (W u (t - 3)) (W u (t - 8))) (W u (t - 14))) (W u (t - 16)))) u) (seq 16 64) u.
Definition round (u : bytes) (r : regs) (t : nat) : regs :=
  let '(A, B, C, D, E) := r in
  let TEMP := u32 (u32 (u32 (u32 (S_ 5 A + f (Z.of_nat t) B C D) + E) + W u t) + K (Z.of_nat t)) in
  (TEMP, A, S_ 30 B, C, D).
Definition add_regs (h r : regs) : regs :=
  let '(h0, h1, h2, h3, h4) := h in let '(A, B, C, D, E) := r in (u32 (h0 + A), u32 (h1 + B), u32 (h2 + C), u32 (h3 + D), u32 (h4 + E)).
Definition Process (s : sha) : sha :=
  let u := expand_words (swap_words (WM s)) in
  let r := fold_left (round u) (seq 0 80) (H_ s) in
  Sha r (add_regs (H_ s) r) u 0 (l_ s).

(** [M[cursor++] = v]. *)
Definition put_M (v : Z) (s : sha) : outcome sha := u ← set_M (cursor s) v (WM s); Ret (Sha (ABCDE s) (H_ s) u (u32 (cursor s + 1)) (l_ s)).
Definition update_byte (d : Z) (s : sha) : outcome sha :=
  s ← put_M d s;
  let s := if 64 <=? cursor s then Process s else s in
  Ret (Sha (ABCDE s) (H_ s) (WM s) (cursor s) (u64 (l_ s + 8))).
Fixpoint Update (data : bytes) (s : sha) : outcome sha := match data with [] => Ret s | d :: data => s ← update_byte d s; Update data s end.

(** [while (cursor < n) M[cursor++] = 0;] *)
Fixpoint zero_to (fuel : nat) (n : Z) (s : sha) : outcome sha :=
  if cursor s <? n then match fuel with O => Fault OutOfFuel | S fuel => s ← put_M 0 s; zero_to fuel n s end else Ret s.
Fixpoint put_all (vs : list Z) (s : sha) : outcome sha := match vs with [] => Ret s | v :: vs => s ← put_M v s; put_all vs s end.
Definition Pad (s : sha) : outcome sha :=
  s ← put_M 0x80 s;
  s ← (if 64 - 8 <? cursor s then s ← zero_to 64 64 s; Ret (Process s) else Ret s);
  s ← zero_to 64 (64 - 8) s;
  let l := l_ s in
  put_all [Z.land (Z.shiftr l 56) 0xff; Z.land (Z.shiftr l 48) 0xff; Z.land (Z.shiftr l 40) 0xff; Z.land (Z.shiftr l 32) 0xff;
           Z.land (Z.shiftr l 24) 0xff; Z.land (Z.shiftr l 16) 0xff; Z.land (Z.shiftr l 8) 0xff; Z.land l 0xff] s.
Definition swap_regs (h : regs) : regs := let '(h0, h1, h2, h3, h4) := h in (swapends h0, swapends h1, swapends h2, swapends h3, swapends h4).
Definition Final (s : sha) : outcome sha :=
  s ← Pad s;
  let s := Process s in
  Ret (Sha (ABCDE s) (swap_regs (H_ s)) (WM s) (cursor s) (l_ s)).
(** The bytes of [H]. *)
Definition Digest (s : sha) : bytes := let '(h0, h1, h2, h3, h4) := H_ s in concat (map (host_bytes little 4) [h0; h1; h2; h3; h4]).
(** [garbage] is what the memory of a new object holds. *)
Definition SecureHashAlgorithm (garbage : sha) : sha := Init garbage.
Definition SHA1HashBytes (garbage : sha) (data : bytes) : outcome bytes :=
  s ← Update data (SecureHashAlgorithm garbage); s ← Final s; Ret (take (Z.to_nat kDigestSizeBytes) (Digest s)).
Definition SHA1HashString (garbage : sha) (str : bytes) : outcome bytes := SHA1HashBytes garbage str.
End Host.

Example abc : SHA1HashString true (Sha (1, 2, 3, 4, 5) (0, 0, 0, 0, 0) (replicate 320 7) 3 9) (str#"abc") =
  Ret [0xa9; 0x99; 0x3e; 0x36; 0x47; 0x06; 0x81; 0x6a; 0xba; 0x3e; 0x25; 0x71; 0x78; 0x50; 0xc2; 0x6c; 0x9c; 0xd0; 0xd8; 0x9d].
Proof. vm_compute. reflexivity. Qed.
