(* ===== verification/Sha1Proofs.v ===== *)
(** SHA-1 is what FIPS 180-3 says, however the message is given in pieces. *)
From Stdlib Require Import ZArith Lia Bool Ascii String.
From stdpp Require Import base list numbers.
From S2P Require Import Prelude SysByteorder Digest Sha1.

Open Scope Z_scope.

(** * The standard *)
Definition Ch (x y z : Z) : Z := Z.lxor (Z.land x y) (Z.land (not32 x) z).
Definition Parity (x y z : Z) : Z := Z.lxor (Z.lxor x y) z.
Definition Maj (x y z : Z) : Z := Z.lxor (Z.lxor (Z.land x y) (Z.land x z)) (Z.land y z).
Definition fips_f (t : nat) : Z -> Z -> Z -> Z := if (t <? 20)%nat then Ch else if (t <? 40)%nat then Parity else if (t <? 60)%nat then Maj else Parity.
Definition fips_K (t : nat) : Z := if (t <? 20)%nat then 0x5a827999 else if (t <? 40)%nat then 0x6ed9eba1 else if (t <? 60)%nat then 0x8f1bbcdc else 0xca62c1d6.
Definition block_word (block : bytes) (t : nat) : Z := be_val (zslice (4 * Z.of_nat t) 4 block).
Definition next_word (ws : list Z) : Z :=
  let w k := ws !!! (length ws - k)%nat in rotl 1 (Z.lxor (Z.lxor (Z.lxor (w 3) (w 8)) (w 14)) (w 16))%nat.
(** The message schedule: sixteen words of the block, sixty-four more. *)
Definition schedule (n : nat) (block : bytes) : list Z := Nat.iter n (fun ws => ws ++ [next_word ws]) (map (block_word block) (seq 0 16)).
Definition fips_round (ws : list Z) (r : regs) (t : nat) : regs :=
  let '(a, b, c, d, e) := r in ((rotl 5 a + fips_f t b c d + e + fips_K t + ws !!! t) mod 2 ^ 32, a, rotl 30 b, c, d).
Definition sum_regs (h r : regs) : regs :=
  let '(h0, h1, h2, h3, h4) := h in let '(a, b, c, d, e) := r in
  ((h0 + a) mod 2 ^ 32, (h1 + b) mod 2 ^ 32, (h2 + c) mod 2 ^ 32, (h3 + d) mod 2 ^ 32, (h4 + e) mod 2 ^ 32).
Definition fips_compress (h : regs) (block : bytes) : regs := sum_regs h (fold_left (fips_round (schedule 64 block)) (seq 0 80) h).
Definition fips_iv : regs := (0x67452301, 0xefcdab89, 0x98badcfe, 0x10325476, 0xc3d2e1f0).
Definition regs_list (h : regs) : list Z := let '(h0, h1, h2, h3, h4) := h in [h0; h1; h2; h3; h4].
Definition SHA1 (m : bytes) : bytes := concat (map (be_bytes 4) (regs_list (digest fips_compress fips_iv (be_bytes 8) m))).

(** * The words *)
Lemma f_fips t B C D : is_word B -> is_word C -> is_word D -> f (Z.of_nat t) B C D = fips_f t B C D /\ is_word (f (Z.of_nat t) B C D).
Proof.
  intros HB HC HD. unfold f, fips_f. destruct (Z.ltb_spec (Z.of_nat t) 20), (Nat.ltb_spec t 20); try lia; [|destruct (Z.ltb_spec (Z.of_nat t) 40), (Nat.ltb_spec t 40); try lia; [|destruct (Z.ltb_spec (Z.of_nat t) 60), (Nat.ltb_spec t 60); try lia]].
  - split; [unfold Ch; word_bitwise|auto with words].
  - split; [done|auto with words].
  - split; [unfold Maj; word_bitwise|auto 6 with words].
  - split; [done|auto with words].
Qed.
Lemma K_fips t : K (Z.of_nat t) = fips_K t.
Proof.
  unfold K, fips_K. destruct (Z.ltb_spec (Z.of_nat t) 20), (Nat.ltb_spec t 20); try lia. destruct (Z.ltb_spec (Z.of_nat t) 40), (Nat.ltb_spec t 40); try lia. destruct (Z.ltb_spec (Z.of_nat t) 60), (Nat.ltb_spec t 60); lia.
Qed.
Lemma swapends_val x : is_word x -> swapends x = be_val (le_bytes 4 x).
Proof.
  intros Hx. rewrite <- ByteSwap32_val. unfold swapends, ByteSwap32. unfold is_word in Hx.
  assert (Z.shiftr x 24 = byte_at x 24) as -> by (unfold byte_at; rewrite land_255_id; [done|]; unfold is_byte; rewrite Z.shiftr_div_pow2 by lia; split; [apply Z.div_pos; powlia|apply Z.div_lt_upper_bound; powlia]).
  assert (Z.land (Z.shiftr x 8) 0xff00 = Z.shiftl (byte_at x 16) 8) as ->.
  { change 0xff00 with (Z.shiftl 255 8). rewrite land_byte_at by lia. unfold byte_at. by rewrite Z.shiftr_shiftr by lia. }
  assert (u32 (Z.shiftl (Z.land x 0xff00) 8) = Z.shiftl (byte_at x 8) 16) as ->.
  { change 0xff00 with (Z.shiftl 255 8). rewrite land_byte_at by lia. fold (byte_at x 8). rewrite Z.shiftl_shiftl by lia. pose proof (byte_at_byte x 8) as Hb. unfold is_byte in Hb. apply uwrap_small. rewrite Z.shiftl_mul_pow2 by lia. powlia. }
  assert (u32 (Z.shiftl x 24) = Z.shiftl (byte_at x 0) 24) as ->.
  { unfold byte_at. rewrite Z.shiftr_0_r, land_255, !Z.shiftl_mul_pow2 by lia. unfold uwrap. change (2 ^ 32) with (256 * 2 ^ 24). apply Z.mul_mod_distr_r; done. }
  swap_terms. rewrite (Z.shiftl_0_r (byte_at x 24)).
  assert (forall a b c d, Z.lor (Z.lor (Z.lor a b) c) d = Z.lor (Z.lor (Z.lor d c) b) a) as -> by (intros; rewrite <- !Z.lor_assoc; rewrite (Z.lor_comm c d), (Z.lor_comm b), (Z.lor_comm a), <- !Z.lor_assoc; done).
  symmetry. apply uwrap_small. assert (forall n k, 0 <= n -> n <= 24 -> is_word (Z.shiftl (byte_at x k) n)) as Hw.
  { intros n k Hn Hn2. pose proof (byte_at_byte x k) as Hb. unfold is_byte in Hb. rewrite Z.shiftl_mul_pow2 by lia. split; [apply Z.mul_nonneg_nonneg; lia|]. apply Z.lt_le_trans with (256 * 2 ^ 24); [|done]. pose proof (Z.pow_le_mono_r 2 n 24 ltac:(lia) Hn2). pose proof (Z.pow_pos_nonneg 2 n ltac:(lia) Hn). nia. }
  assert (is_word (byte_at x 24)) by (pose proof (byte_at_byte x 24) as Hb; unfold is_byte in Hb; unfold is_word; powlia).
  apply word_lor; [apply word_lor; [apply word_lor|]|]; try apply Hw; done || lia.
Qed.

(** * The union of words and bytes *)
Abbreviation W := (W true) (only parsing).
Abbreviation set_W := (set_W true) (only parsing).
Definition union_ok (u : bytes) : Prop := zlen u = 320.
Lemma W_set_same u t x : union_ok u -> (t < 80)%nat -> is_word x -> W (set_W t x u) t = x.
Proof.
  intros Hu Ht Hx. unfold Sha1.W, Sha1.set_W, host_bytes, host_val, union_ok in *. assert (zlen (le_bytes 4 x) = 4) as Hl by (unfold zlen; by rewrite length_le_bytes).
  rewrite slice_splice_same by (rewrite ?Hl; lia). rewrite le_val_bytes. by apply Z.mod_small.
Qed.
Lemma W_set_other u t t' x : union_ok u -> (t < 80)%nat -> t <> t' -> W (set_W t x u) t' = W u t'.
Proof.
  intros Hu Ht Hn. unfold Sha1.W, Sha1.set_W, host_bytes, union_ok in *. assert (zlen (le_bytes 4 x) = 4) as Hl by (unfold zlen; by rewrite length_le_bytes).
  rewrite slice_splice_other by (rewrite ?Hl; lia). done.
Qed.
Lemma union_set u t x : union_ok u -> (t < 80)%nat -> union_ok (set_W t x u).
Proof. intros Hu Ht. unfold union_ok, Sha1.set_W, host_bytes in *. assert (zlen (le_bytes 4 x) = 4) as Hl by (unfold zlen; by rewrite length_le_bytes). rewrite zlen_zsplice; rewrite ?Hl; lia. Qed.
Lemma word_block u t : all_bytes (zslice (4 * Z.of_nat t) 4 u) -> length (zslice (4 * Z.of_nat t) 4 u) = 4%nat -> is_word (block_word u t) /\ swapends (W u t) = block_word u t.
Proof.
  intros Hb Hl. split; [unfold block_word, be_val; pose proof (le_val_range _ (all_bytes_reverse _ Hb)) as Hr; rewrite length_reverse, Hl in Hr; exact Hr|].
  rewrite swapends_val by (unfold Sha1.W, host_val; pose proof (le_val_range _ Hb) as Hr; rewrite Hl in Hr; exact Hr). unfold Sha1.W, host_val, block_word. rewrite <- Hl. by apply le_val_be_val.
Qed.

Lemma block_word_word u t : union_ok u -> all_bytes (take 64 u) -> (t < 16)%nat -> is_word (block_word u t) /\ swapends (W u t) = block_word u t.
Proof.
  intros Hu Hb Ht. apply word_block.
  - assert (zslice (4 * Z.of_nat t) 4 u = zslice (4 * Z.of_nat t) 4 (take 64 u)) as ->; [|by apply Forall_take, Forall_drop]. apply list_eq. intros i. rewrite !lookup_zslice. destruct (decide _); [|done]. rewrite lookup_take_lt by lia. done.
  - unfold union_ok, zlen in Hu. unfold zslice. rewrite length_take, length_drop. lia.
Qed.
Lemma swap_words_loop n u : (n <= 16)%nat -> union_ok u -> all_bytes (take 64 u) ->
  let u' := fold_left (fun u t => set_W t (swapends (W u t)) u) (seq 0 n) u in
  union_ok u' /\ (forall t, (t < n)%nat -> W u' t = block_word u t) /\ (forall t, (n <= t)%nat -> W u' t = W u t).
Proof.
  intros Hn Hu Hb. induction n as [|n IH]; [cbn; split; [done|]; split; [lia|done]|]. destruct IH as (Hu' & Hlt & Hge); [lia|]. rewrite seq_S, fold_left_app. cbn [fold_left Nat.add]. set (u' := fold_left _ (seq 0 n) u) in *. clearbody u'. cbv zeta in *.
  rewrite Hge by lia. destruct (block_word_word u n) as [Hw Hs]; [done|done|lia|].
  split; [by apply union_set; [|lia]|]. split.
  - intros t Ht. destruct (decide (t = n)) as [-> |Hne]; [rewrite Hs, W_set_same by (done || lia); done|].
    rewrite W_set_other by (done || lia). apply Hlt. lia.
  - intros t Ht. rewrite W_set_other by (done || lia). apply Hge. lia.
Qed.

Lemma schedule_S n block : schedule (S n) block = schedule n block ++ [next_word (schedule n block)].
Proof. done. Qed.
Lemma length_schedule n block : length (schedule n block) = (16 + n)%nat.
Proof. induction n as [|n IH]; [done|]. rewrite schedule_S, length_app, IH. cbn. lia. Qed.
Definition agrees (u : bytes) (ws : list Z) : Prop := forall t, (t < length ws)%nat -> W u t = ws !!! t /\ is_word (ws !!! t).
Lemma swapped_agrees u : union_ok u -> all_bytes (take 64 u) -> union_ok (swap_words true u) /\ agrees (swap_words true u) (schedule 0 u).
Proof.
  intros Hu Hb. destruct (swap_words_loop 16 u ltac:(lia) Hu Hb) as (Ho & Hw & _). split; [exact Ho|]. intros t Ht. rewrite length_schedule in Ht. unfold swap_words. rewrite Hw by lia. change (schedule 0 u) with (block_word u <$> seq 0 16).
  assert ((block_word u <$> seq 0 16) !!! t = block_word u t) as -> by (apply list_lookup_total_correct; rewrite list_lookup_fmap, lookup_seq_lt by lia; done). split; [done|]. by apply block_word_word.
Qed.
Lemma next_agrees u n block : (n < 64)%nat -> union_ok u -> agrees u (schedule n block) ->
  let t := (16 + n)%nat in let u' := set_W t (S_ 1 (Z.lxor (Z.lxor (Z.lxor (W u (t - 3)) (W u (t - 8))) (W u (t - 14))) (W u (t - 16)))) u in
  union_ok u' /\ agrees u' (schedule (S n) block).
Proof.
  intros Hn Hu Ha t u'. assert (forall k, (1 <= k <= 16)%nat -> W u (t - k) = schedule n block !!! (t - k)%nat /\ is_word (schedule n block !!! (t - k)%nat)) as Hk by (intros k Hk; apply Ha; rewrite length_schedule; unfold t; lia).
  set (x := Z.lxor (Z.lxor (Z.lxor (schedule n block !!! (t - 3)%nat) (schedule n block !!! (t - 8)%nat)) (schedule n block !!! (t - 14)%nat)) (schedule n block !!! (t - 16)%nat)).
  assert (is_word x) as Hx by (repeat apply word_lxor; apply Hk; lia). assert (u' = set_W t (rotl 1 x) u) as Eu.
  { unfold u'. rewrite (proj1 (Hk 3%nat ltac:(lia))), (proj1 (Hk 8%nat ltac:(lia))), (proj1 (Hk 14%nat ltac:(lia))), (proj1 (Hk 16%nat ltac:(lia))). fold x. unfold S_. by rewrite (proj1 (rotate_rotl 1 x ltac:(lia) Hx)). }
  assert (next_word (schedule n block) = rotl 1 x) as Ew by (unfold next_word; rewrite length_schedule; done). pose proof (proj2 (rotate_rotl 1 x ltac:(lia) Hx)) as Hr.
  rewrite Eu. split; [apply union_set; [done|unfold t; lia]|]. rewrite schedule_S, Ew. intros i Hi. rewrite length_app, length_schedule in Hi. cbn in Hi. destruct (decide (i = t)) as [-> |Hne].
  - rewrite W_set_same by (done || unfold t; lia). rewrite lookup_total_app_r by (rewrite length_schedule; done). rewrite length_schedule. unfold t. by rewrite Nat.sub_diag.
  - rewrite W_set_other by (done || unfold t in *; lia). rewrite lookup_total_app_l by (rewrite length_schedule; unfold t in *; lia). apply Ha. rewrite length_schedule. unfold t in *. lia.
Qed.
Lemma expand_agrees n u block : (n <= 64)%nat -> union_ok u -> agrees u (schedule 0 block) ->
  let u' := fold_left (fun u t => set_W t (S_ 1 (Z.lxor (Z.lxor (Z.lxor (W u (t - 3)) (W u (t - 8))) (W u (t - 14))) (W u (t - 16)))) u) (seq 16 n) u in
  union_ok u' /\ agrees u' (schedule n block).
Proof.
  intros Hn Hu Ha. induction n as [|n IH]; [done|]. destruct IH as [Hu' Ha']; [lia|]. rewrite seq_S, fold_left_app. cbn [fold_left]. apply next_agrees; [lia|done|done].
Qed.

Lemma words_agree_schedule u : union_ok u -> all_bytes (take 64 u) -> union_ok (expand_words true (swap_words true u)) /\ agrees (expand_words true (swap_words true u)) (schedule 64 u).
Proof. intros Hu Hb. destruct (swapped_agrees _ Hu Hb) as [Hu1 Ha1]. exact (expand_agrees 64 _ u ltac:(lia) Hu1 Ha1). Qed.

(** * The rounds *)
Definition regs_ok (r : regs) : Prop := Forall is_word (regs_list r).
Lemma regs_words A B C D E : regs_ok (A, B, C, D, E) -> is_word A /\ is_word B /\ is_word C /\ is_word D /\ is_word E.
Proof. unfold regs_ok. cbn. intros H. do 5 (apply Forall_cons_1 in H as [? H]). auto. Qed.
Lemma sum_wraps a b c d e : u32 (u32 (u32 (u32 (a + b) + c) + d) + e) = (a + b + c + e + d) mod 2 ^ 32.
Proof. assert (forall x y, u32 (u32 x + y) = u32 (x + y)) as E by (intros; apply Zplus_mod_idemp_l). rewrite (E (a + b)), (E (a + b + c)), (E (a + b + c + d)). unfold uwrap. f_equal. lia. Qed.
Lemma mod_word x : is_word (x mod 2 ^ 32).
Proof. by apply Z.mod_pos_bound. Qed.
#[local] Hint Resolve mod_word : words.
Lemma round_fips u ws r t : (t < length ws)%nat -> agrees u ws -> regs_ok r -> round true u r t = fips_round ws r t /\ regs_ok (fips_round ws r t).
Proof.
  intros Ht Ha Hr. destruct r as [[[[A B] C] D] E]. destruct (regs_words _ _ _ _ _ Hr) as (HA & HB & HC & HD & HE). destruct (Ha t Ht) as [Hw _].
  destruct (f_fips t B C D HB HC HD) as [Hf _]. destruct (rotate_rotl 5 A ltac:(lia) HA) as [H5 W5]. destruct (rotate_rotl 30 B ltac:(lia) HB) as [H30 W30].
  split.
  - unfold round, fips_round, S_. rewrite H5, H30, Hf, Hw, K_fips. do 4 f_equal. apply sum_wraps.
  - unfold regs_ok. cbn [fips_round regs_list]. repeat apply Forall_cons_2; try apply Forall_nil_2; auto with words; apply HA || apply HC || apply HD || apply W30.
Qed.
Lemma rounds_fips u ws n : forall r, (n <= length ws)%nat -> agrees u ws -> regs_ok r -> fold_left (round true u) (seq 0 n) r = fold_left (fips_round ws) (seq 0 n) r /\ regs_ok (fold_left (fips_round ws) (seq 0 n) r).
Proof.
  induction n as [|n IH]; intros r Hn Ha Hr; [done|]. destruct (IH r) as [E Hk]; [lia|done|done|]. rewrite seq_S, !fold_left_app. cbn [fold_left Nat.add]. rewrite E. apply round_fips; [lia|done|done].
Qed.
Lemma sum_regs_ok h r : regs_ok (sum_regs h r).
Proof. destruct h as [[[[? ?] ?] ?] ?], r as [[[[? ?] ?] ?] ?]. unfold regs_ok. cbn. repeat constructor; apply mod_word. Qed.
Lemma block_word_take u t : (t < 16)%nat -> block_word (take 64 u) t = block_word u t.
Proof. intros Ht. unfold block_word. f_equal. apply list_eq. intros i. rewrite !lookup_zslice. destruct (decide _); [|done]. rewrite lookup_take_lt by lia. done. Qed.
Lemma schedule_take n u : schedule n (take 64 u) = schedule n u.
Proof. unfold schedule. f_equal. apply map_ext_in. intros t Ht. apply in_seq in Ht. apply block_word_take. lia. Qed.
Lemma Process_fips s : union_ok (WM s) -> all_bytes (take 64 (WM s)) -> regs_ok (H_ s) ->
  union_ok (WM (Process true s)) /\ H_ (Process true s) = fips_compress (H_ s) (take 64 (WM s)) /\ cursor (Process true s) = 0 /\ l_ (Process true s) = l_ s.
Proof.
  intros Hu Hb Hr. destruct (words_agree_schedule _ Hu Hb) as [Hu2 Ha2]. unfold Process. cbv zeta. cbn [WM H_ cursor l_]. set (u := expand_words true (swap_words true (WM s))) in *. clearbody u.
  split; [exact Hu2|]. split; [|done]. unfold fips_compress. rewrite schedule_take. destruct (rounds_fips u (schedule 64 (WM s)) 80 (H_ s)) as [E _]; [rewrite length_schedule; lia|done|done|]. rewrite E. reflexivity.
Qed.

Lemma compress_ok h block : regs_ok (fips_compress h block).
Proof. apply sum_regs_ok. Qed.
#[local] Opaque Process fips_compress.

(** * Bytes one by one *)
(** The state [h] after the whole blocks, the bytes [r] of the block that is begun. *)
Record buffered (s : sha) (h : regs) (r : bytes) (l : Z) : Prop := {
  b_union : union_ok (WM s); b_regs : H_ s = h; b_ok : regs_ok h; b_cursor : cursor s = zlen r; b_bytes : take (length r) (WM s) = r;
  b_room : (length r <= 64)%nat; b_all : all_bytes r; b_length : l_ s = l }.
Lemma put_buffered s h r l v : buffered s h r l -> (length r < 64)%nat -> is_byte v -> exists s', put_M v s = Ret s' /\ buffered s' h (r ++ [v]) l.
Proof.
  intros [Hu Hh Ho Hc Hb Hr Ha Hl] Hlt Hv. unfold put_M, set_M. rewrite Hc. unfold union_ok, zlen in *. destruct (Z.leb_spec 0 (Z.of_nat (length r))); [|lia]. destruct (Z.ltb_spec (Z.of_nat (length r)) 64); [|lia]. cbn [andb]. obind.
  eexists. split; [done|]. assert (zsplice (Z.of_nat (length r)) [v] (WM s) = r ++ v :: drop (length r + 1) (WM s)) as E by (unfold zsplice; rewrite Nat2Z.id, Hb; done).
  split; cbn [WM H_ cursor l_]; rewrite ?E; try done.
  - unfold union_ok, zlen. rewrite length_app. cbn [length]. rewrite length_drop. lia.
  - unfold zlen. rewrite length_app. cbn [length]. rewrite uwrap_small by powlia. lia.
  - assert (forall x : bytes, r ++ v :: x = (r ++ [v]) ++ x) as Ex by (intros; by rewrite <- app_assoc). rewrite (Ex (drop _ _)). apply take_app_length.
  - rewrite length_app. cbn. lia.
  - apply Forall_app. split; [done|by apply Forall_singleton].
Qed.
Lemma process_buffered s h r l : buffered s h r l -> length r = 64%nat -> buffered (Process true s) (fips_compress h r) [] l.
Proof.
  intros [Hu Hh Ho Hc Hb Hr Ha Hl] E. rewrite E in Hb. destruct (Process_fips s Hu) as (Hu' & Hh' & Hc' & Hl'); [by rewrite Hb|by rewrite Hh|]. split; [exact Hu'|by rewrite Hh', Hb, Hh|apply compress_ok|exact Hc'|done| | |].
  - cbn. lia.
  - constructor.
  - by rewrite Hl'.
Qed.
Lemma regs_absorb n : forall h m, regs_ok h -> regs_ok (absorb fips_compress n h m).
Proof. induction n as [|n IH]; intros h m Hh; [done|]. cbn [absorb]. apply IH, compress_ok. Qed.
Lemma iv_ok : regs_ok fips_iv.
Proof. unfold regs_ok, fips_iv, is_word. cbn. repeat constructor; lia. Qed.
(** The object after a message. *)
Abbreviation absorbed := (absorbed fips_compress fips_iv).
Definition sha_rep (s : sha) (m : bytes) : Prop := buffered s (absorbed m) (rest m) (u64 (8 * zlen m)) /\ all_bytes m.
Lemma Init_rep g : zlen (WM g) = 320 -> sha_rep (SecureHashAlgorithm g) [].
Proof.
  intros Hg. split; [|constructor]. split; try done; [apply iv_ok|cbn; lia|constructor].
Qed.
Lemma add_length s h r l k : buffered s h r l -> buffered (Sha (ABCDE s) (H_ s) (WM s) (cursor s) (u64 (l_ s + k))) h r (u64 (l + k)).
Proof. intros [Hu Hh Ho Hc Hb Hr Ha Hl]. split; [exact Hu|exact Hh|exact Ho|exact Hc|exact Hb|exact Hr|exact Ha|]. cbn [l_]. by rewrite Hl. Qed.
Lemma update_byte_rep s m d : sha_rep s m -> is_byte d -> exists s', update_byte true d s = Ret s' /\ sha_rep s' (m ++ [d]).
Proof.
  intros [Hs Hm] Hd. pose proof (rest_short m) as Hr. destruct (put_buffered s _ _ _ d Hs Hr Hd) as (s1 & E1 & H1). unfold update_byte. rewrite E1. obind. assert (all_bytes (m ++ [d])) as Hmd by (apply Forall_app; split; [done|by apply Forall_singleton]).
  assert (forall l, u64 (u64 l + 8) = u64 (l + 8)) as Ew by (intros; apply Zplus_mod_idemp_l). pose proof (b_cursor _ _ _ _ H1) as Hc. unfold zlen in Hc. rewrite length_app in Hc. cbn [length] in Hc.
  assert (u64 (u64 (8 * zlen m) + 8) = u64 (8 * zlen (m ++ [d]))) as El by (rewrite Ew, zlen_app; f_equal; change (zlen [d]) with 1; lia).
  destruct (Z.leb_spec 64 (cursor s1)).
  - destruct (absorbed_block fips_compress fips_iv m [d]) as [Ea Er]; [cbn [length]; lia|]. pose proof (process_buffered _ _ _ _ H1 ltac:(rewrite length_app; cbn [length]; lia)) as H2.
    eexists. split; [done|]. split; [|done]. rewrite Ea, Er, <- El. by apply add_length.
  - destruct (absorbed_more fips_compress fips_iv m [d]) as [Ea Er]; [cbn [length]; lia|]. eexists. split; [done|]. split; [|done]. rewrite Ea, Er, <- El. by apply add_length.
Qed.
Lemma Update_rep data : forall s m, sha_rep s m -> all_bytes data -> exists s', Update true data s = Ret s' /\ sha_rep s' (m ++ data).
Proof.
  induction data as [|d data IH]; intros s m Hs Hd; [exists s; by rewrite app_nil_r|]. apply Forall_cons_1 in Hd as [Hd Hds]. destruct (update_byte_rep s m d Hs Hd) as (s1 & E & H1). destruct (IH s1 _ H1 Hds) as (s2 & E2 & H2).
  exists s2. cbn [Update]. rewrite E. obind. split; [exact E2|]. by rewrite <- app_assoc in H2.
Qed.

(** * The padding *)
Lemma put_all_buffered vs : forall s h r l, buffered s h r l -> (length r + length vs <= 64)%nat -> all_bytes vs -> exists s', put_all vs s = Ret s' /\ buffered s' h (r ++ vs) l.
Proof.
  induction vs as [|v vs IH]; intros s h r l Hs Hl Hv; [exists s; by rewrite app_nil_r|]. apply Forall_cons_1 in Hv as [Hv Hvs]. cbn [length] in Hl. destruct (put_buffered s h r l v Hs ltac:(lia) Hv) as (s1 & E & H1).
  destruct (IH s1 h (r ++ [v]) l H1) as (s2 & E2 & H2); [rewrite length_app; cbn [length]; lia|done|]. exists s2. cbn [put_all]. rewrite E. obind. split; [exact E2|]. by rewrite <- app_assoc in H2.
Qed.
Lemma zero_to_buffered k : forall fuel s h r l, buffered s h r l -> (length r + k <= 64)%nat -> (k <= fuel)%nat -> exists s', zero_to fuel (Z.of_nat (length r + k)) s = Ret s' /\ buffered s' h (r ++ zeros k) l.
Proof.
  induction k as [|k IH]; intros fuel s h r l Hs Hl Hf; pose proof (b_cursor _ _ _ _ Hs) as Hc; unfold zlen in Hc.
  - exists s. rewrite app_nil_r. split; [|done]. destruct fuel; cbn [zero_to]; (destruct (Z.ltb_spec (cursor s) (Z.of_nat (length r + 0))); [lia|done]).
  - destruct fuel as [|fuel]; [lia|]. cbn [zero_to]. destruct (Z.ltb_spec (cursor s) (Z.of_nat (length r + S k))); [|lia]. destruct (put_buffered s h r l 0 Hs ltac:(lia) ltac:(done)) as (s1 & E & H1). rewrite E. obind.
    destruct (IH fuel s1 h (r ++ [0]) l H1) as (s2 & E2 & H2); [rewrite length_app; cbn [length]; lia|lia|]. exists s2. replace (length r + S k)%nat with (length (r ++ [0%Z]) + k)%nat by (rewrite length_app; cbn [length]; lia). split; [exact E2|].
    change (zeros (S k)) with (0 :: zeros k). by rewrite <- app_assoc in H2.
Qed.
Lemma length_field l : 0 <= l < 2 ^ 64 -> [Z.land (Z.shiftr l 56) 0xff; Z.land (Z.shiftr l 48) 0xff; Z.land (Z.shiftr l 40) 0xff; Z.land (Z.shiftr l 32) 0xff;
  Z.land (Z.shiftr l 24) 0xff; Z.land (Z.shiftr l 16) 0xff; Z.land (Z.shiftr l 8) 0xff; Z.land l 0xff] = be_bytes 8 l.
Proof. intros _. unfold be_bytes. rewrite le_bytes_digits. cbn. unfold byte_at. rewrite Z.shiftr_0_r. done. Qed.
Definition length_in_bits (m : bytes) : Z := u64 (8 * zlen m).
Lemma length_in_bits_range m : 0 <= length_in_bits m < 2 ^ 64.
Proof. by apply uwrap_range. Qed.
Lemma put_length s h r l : buffered s h r l -> length r = 56%nat -> 0 <= l < 2 ^ 64 ->
  exists s', put_all [Z.land (Z.shiftr (l_ s) 56) 0xff; Z.land (Z.shiftr (l_ s) 48) 0xff; Z.land (Z.shiftr (l_ s) 40) 0xff; Z.land (Z.shiftr (l_ s) 32) 0xff;
    Z.land (Z.shiftr (l_ s) 24) 0xff; Z.land (Z.shiftr (l_ s) 16) 0xff; Z.land (Z.shiftr (l_ s) 8) 0xff; Z.land (l_ s) 0xff] s = Ret s' /\ buffered s' h (r ++ be_bytes 8 l) l.
Proof.
  intros Hs Hr Hl. rewrite (b_length _ _ _ _ Hs), length_field by done. apply put_all_buffered; [done|rewrite length_be_bytes; lia|apply be_bytes_bytes].
Qed.
(** The buffer, with the bit behind the message, is filled with zeros, in a block of its
    own when the length does not fit behind them. *)
Lemma Pad_one s h r l : buffered s h r l -> (length r < 56)%nat -> 0 <= l < 2 ^ 64 -> exists s', Pad true s = Ret s' /\ buffered s' h (((r ++ [128]) ++ zeros (55 - length r)) ++ be_bytes 8 l) l.
Proof.
  intros Hs Hr Hl. destruct (put_buffered s h r l 128 Hs ltac:(lia) ltac:(done)) as (s1 & E1 & H1). unfold Pad. rewrite E1. obind. pose proof (b_cursor _ _ _ _ H1) as Hc. unfold zlen in Hc. rewrite length_app in Hc. cbn [length] in Hc.
  destruct (Z.ltb_spec (64 - 8) (cursor s1)); [lia|]. obind. destruct (zero_to_buffered (55 - length r) 64 s1 _ _ _ H1) as (s2 & E2 & H2); [rewrite length_app; cbn [length]; lia|lia|].
  replace (Z.of_nat (length (r ++ [128]) + (55 - length r))) with (64 - 8) in E2 by (rewrite length_app; cbn [length]; lia). rewrite E2. obind. apply put_length; [exact H2| |done]. rewrite !length_app, length_zeros. cbn [length]. lia.
Qed.
Lemma Pad_two s h r l : buffered s h r l -> (56 <= length r < 64)%nat -> 0 <= l < 2 ^ 64 ->
  exists s', Pad true s = Ret s' /\ buffered s' (fips_compress h ((r ++ [128]) ++ zeros (63 - length r))) (([] ++ zeros 56) ++ be_bytes 8 l) l.
Proof.
  intros Hs Hr Hl. destruct (put_buffered s h r l 128 Hs ltac:(lia) ltac:(done)) as (s1 & E1 & H1). unfold Pad. rewrite (bind_ret _ _ _ E1). pose proof (b_cursor _ _ _ _ H1) as Hc. unfold zlen in Hc. rewrite length_app in Hc. cbn [length] in Hc.
  destruct (Z.ltb_spec (64 - 8) (cursor s1)); [|lia]. destruct (zero_to_buffered (63 - length r) 64 s1 _ _ _ H1) as (s2 & E2 & H2); [rewrite length_app; cbn [length]; lia|lia|].
  replace (Z.of_nat (length (r ++ [128]) + (63 - length r))) with 64 in E2 by (rewrite length_app; cbn [length]; lia). rewrite (bind_ret _ _ _ E2), (bind_ret (Ret (Process true s2)) _ _ eq_refl).
  pose proof (process_buffered _ _ _ _ H2 ltac:(rewrite !length_app, length_zeros; cbn [length]; lia)) as H3. destruct (zero_to_buffered 56 64 _ _ _ _ H3) as (s4 & E4 & H4); [cbn [length]; lia|lia|].
  replace (Z.of_nat (length (@nil Z) + 56)) with (64 - 8) in E4 by done. rewrite (bind_ret _ _ _ E4). apply put_length; [exact H4| |done]. rewrite length_app, length_zeros. done.
Qed.
Lemma digest_regs_ok m : regs_ok (digest fips_compress fips_iv (be_bytes 8) m).
Proof. apply regs_absorb, iv_ok. Qed.
Lemma Pad_rep s m : sha_rep s m -> exists s' h r, Pad true s = Ret s' /\ buffered s' h r (length_in_bits m) /\ length r = 64%nat /\ fips_compress h r = digest fips_compress fips_iv (be_bytes 8) m.
Proof.
  intros [Hs Hm]. pose proof (rest_short m) as Hr. destruct (Nat.lt_ge_cases (length (rest m)) 56) as [H|H].
  - destruct (Pad_one s _ _ _ Hs H (length_in_bits_range m)) as (s' & E & H'). eexists s', _, _. split; [exact E|]. split; [exact H'|]. split; [rewrite !length_app, length_be_bytes, length_zeros; cbn [length]; lia|].
    rewrite digest_one by (done || apply length_be_bytes). by rewrite <- !app_assoc.
  - destruct (Pad_two s _ _ _ Hs (conj H Hr) (length_in_bits_range m)) as (s' & E & H'). eexists s', _, _. split; [exact E|]. split; [exact H'|]. split; [rewrite length_app, length_be_bytes, length_app, length_zeros; done|].
    rewrite digest_two by (done || apply length_be_bytes). by rewrite <- !app_assoc.
Qed.
Lemma Final_rep s m : sha_rep s m -> exists s', Final true s = Ret s' /\ H_ s' = swap_regs (digest fips_compress fips_iv (be_bytes 8) m).
Proof.
  intros Hs. destruct (Pad_rep s m Hs) as (s1 & h & r & E & H & Hl & Hd). unfold Final. rewrite E. obind. eexists. split; [reflexivity|]. cbn [H_]. by rewrite (b_regs _ _ _ _ (process_buffered _ _ _ _ H Hl)), Hd.
Qed.
Lemma swap_bytes x : is_word x -> host_bytes true 4 (swapends x) = be_bytes 4 x.
Proof. intros Hx. rewrite swapends_val by done. apply le_bytes_be_val_le. Qed.
Fixpoint update_all (pieces : list bytes) (s : sha) : outcome sha := match pieces with [] => Ret s | p :: pieces => s ← Update true p s; update_all pieces s end.
Lemma update_all_rep pieces : forall s m, sha_rep s m -> Forall all_bytes pieces -> exists s', update_all pieces s = Ret s' /\ sha_rep s' (m ++ concat pieces).
Proof.
  induction pieces as [|p pieces IH]; intros s m Hs Hp; [exists s; cbn; by rewrite app_nil_r|]. apply Forall_cons_1 in Hp as [Hp Hps]. destruct (Update_rep p s m Hs Hp) as (s1 & E & H1). destruct (IH s1 _ H1 Hps) as (s2 & E2 & H2).
  exists s2. cbn [update_all]. rewrite E. obind. split; [exact E2|]. cbn [concat]. by rewrite app_assoc.
Qed.

(** C36: SHA-1 is computed: on a little-endian host, whatever the memory of the object held
    and in whatever pieces the message is given to [Update], no write leaves [M], the
    padding ends, and the digest is the one FIPS 180-3 defines for the message. *)
Theorem sha1_exact garbage pieces : zlen (WM garbage) = 320 -> Forall all_bytes pieces ->
  exists s t, update_all pieces (SecureHashAlgorithm garbage) = Ret s /\ Final true s = Ret t /\ Digest true t = SHA1 (concat pieces).
Proof.
  intros Hg Hp. destruct (update_all_rep pieces _ _ (Init_rep garbage Hg) Hp) as (s & E & Hs). destruct (Final_rep s _ Hs) as (t & Et & Ht). pose proof (digest_regs_ok (concat pieces)) as Ho. exists s, t. split; [done|]. split; [done|]. unfold Digest, SHA1. rewrite Ht. cbn [app] in *.
  destruct (digest fips_compress fips_iv (be_bytes 8) (concat pieces)) as [[[[h0 h1] h2] h3] h4]. destruct (regs_words _ _ _ _ _ Ho) as (? & ? & ? & ? & ?). cbn [swap_regs map regs_list]. by rewrite !swap_bytes.
Qed.
Lemma sha1_exact_witness : exists s t, update_all [str#"a"; str#"bc"] (SecureHashAlgorithm (Sha (1, 2, 3, 4, 5) (0, 0, 0, 0, 0) (replicate 320 7) 3 9)) = Ret s /\ Final true s = Ret t /\ Digest true t = SHA1 (str#"abc").
Proof. apply (sha1_exact _ [str#"a"; str#"bc"]); [reflexivity|]. repeat constructor; done || unfold is_byte; lia. Defined.
Lemma SHA1HashString_exact garbage m : zlen (WM garbage) = 320 -> all_bytes m -> SHA1HashString true garbage m = Ret (SHA1 m).
Proof.
  intros Hg Hm. destruct (Update_rep m _ _ (Init_rep garbage Hg) Hm) as (s & E & Hs). destruct (Final_rep s _ Hs) as (t & Et & Ht). pose proof (digest_regs_ok m) as Ho. unfold SHA1HashString, SHA1HashBytes. rewrite E. obind. rewrite Et. obind. cbn [app] in *. f_equal. unfold Digest, SHA1. rewrite Ht.
  destruct (digest fips_compress fips_iv (be_bytes 8) m) as [[[[h0 h1] h2] h3] h4]. destruct (regs_words _ _ _ _ _ Ho) as (? & ? & ? & ? & ?). cbn [swap_regs map regs_list]. rewrite !swap_bytes by done. apply take_ge. cbn [concat]. rewrite !length_app, !length_be_bytes. cbn. unfold kDigestSizeBytes. lia.
Qed.
(** On a big-endian host the words are swapped to the wrong order. *)
Example sha1_big_endian : SHA1HashString false (Sha (0, 0, 0, 0, 0) (0, 0, 0, 0, 0) (replicate 320 0) 0 0) [] <> Ret (SHA1 []).
Proof. vm_compute. discriminate. Qed.
