(* ===== verification/Md5.v ===== *)
(** MD5, [zutils/base/md5.cc], on a host of either byte order. *)
From Stdlib Require Import ZArith Lia Bool Ascii String.
From stdpp Require Import base list numbers.
From S2P Require Import Prelude SysByteorder Digest.

Open Scope Z_scope.

(** * The transformation *)
Definition F1 (x y z : Z) : Z := Z.lxor z (Z.land x (Z.lxor y z)).
Definition F2 (x y z : Z) : Z := F1 z x y.
Definition F3 (x y z : Z) : Z := Z.lxor (Z.lxor x y) z.
Definition F4 (x y z : Z) : Z := Z.lxor y (Z.lor x (not32 z)).
(** The value [w] gets. *)
Definition MD5STEP (f : Z -> Z -> Z -> Z) (w x y z data s : Z) : Z :=
  let w := u32 (w + u32 (f x y z + data)) in
  let w := Z.lor (u32 (Z.shiftl w s)) (Z.shiftr w (32 - s)) in
  u32 (w + x).

Definition words4 : Type := Z * Z * Z * Z.
(** The registers, and a line [MD5STEP(f, w, x, y, z, in[k]+c, s);] of the source. *)
Inductive reg := ra | rb | rc | rd.
Inductive line := Line (f : Z -> Z -> Z -> Z) (w x y z : reg) (k : nat) (c s : Z).
Definition get (r : words4) (i : reg) : Z := let '(a, b, c, d) := r in match i with ra => a | rb => b | rc => c | rd => d end.
Definition set (r : words4) (i : reg) (v : Z) : words4 :=
  let '(a, b, c, d) := r in match i with ra => (v, b, c, d) | rb => (a, v, c, d) | rc => (a, b, v, d) | rd => (a, b, c, v) end.
Definition exec (in_words : nat -> Z) (r : words4) (l : line) : words4 :=
  let 'Line f w x y z k c s := l in set r w (MD5STEP f (get r w) (get r x) (get r y) (get r z) (u32 (in_words k + c)) s).
Definition lines : list line := [
  Line F1 ra rb rc rd 0 0xd76aa478 7; Line F1 rd ra rb rc 1 0xe8c7b756 12;
  Line F1 rc rd ra rb 2 0x242070db 17; Line F1 rb rc rd ra 3 0xc1bdceee 22;
  Line F1 ra rb rc rd 4 0xf57c0faf 7; Line F1 rd ra rb rc 5 0x4787c62a 12;
  Line F1 rc rd ra rb 6 0xa8304613 17; Line F1 rb rc rd ra 7 0xfd469501 22;
  Line F1 ra rb rc rd 8 0x698098d8 7; Line F1 rd ra rb rc 9 0x8b44f7af 12;
  Line F1 rc rd ra rb 10 0xffff5bb1 17; Line F1 rb rc rd ra 11 0x895cd7be 22;
  Line F1 ra rb rc rd 12 0x6b901122 7; Line F1 rd ra rb rc 13 0xfd987193 12;
  Line F1 rc rd ra rb 14 0xa679438e 17; Line F1 rb rc rd ra 15 0x49b40821 22;
  Line F2 ra rb rc rd 1 0xf61e2562 5; Line F2 rd ra rb rc 6 0xc040b340 9;
  Line F2 rc rd ra rb 11 0x265e5a51 14; Line F2 rb rc rd ra 0 0xe9b6c7aa 20;
  Line F2 ra rb rc rd 5 0xd62f105d 5; Line F2 rd ra rb rc 10 0x02441453 9;
  Line F2 rc rd ra rb 15 0xd8a1e681 14; Line F2 rb rc rd ra 4 0xe7d3fbc8 20;
  Line F2 ra rb rc rd 9 0x21e1cde6 5; Line F2 rd ra rb rc 14 0xc33707d6 9;
  Line F2 rc rd ra rb 3 0xf4d50d87 14; Line F2 rb rc rd ra 8 0x455a14ed 20;
  Line F2 ra rb rc rd 13 0xa9e3e905 5; Line F2 rd ra rb rc 2 0xfcefa3f8 9;
  Line F2 rc rd ra rb 7 0x676f02d9 14; Line F2 rb rc rd ra 12 0x8d2a4c8a 20;
  Line F3 ra rb rc rd 5 0xfffa3942 4; Line F3 rd ra rb rc 8 0x8771f681 11;
  Line F3 rc rd ra rb 11 0x6d9d6122 16; Line F3 rb rc rd ra 14 0xfde5380c 23;
  Line F3 ra rb rc rd 1 0xa4beea44 4; Line F3 rd ra rb rc 4 0x4bdecfa9 11;
  Line F3 rc rd ra rb 7 0xf6bb4b60 16; Line F3 rb rc rd ra 10 0xbebfbc70 23;
  Line F3 ra rb rc rd 13 0x289b7ec6 4; Line F3 rd ra rb rc 0 0xeaa127fa 11;
  Line F3 rc rd ra rb 3 0xd4ef3085 16; Line F3 rb rc rd ra 6 0x04881d05 23;
  Line F3 ra rb rc rd 9 0xd9d4d039 4; Line F3 rd ra rb rc 12 0xe6db99e5 11;
  Line F3 rc rd ra rb 15 0x1fa27cf8 16; Line F3 rb rc rd ra 2 0xc4ac5665 23;
  Line F4 ra rb rc rd 0 0xf4292244 6; Line F4 rd ra rb rc 7 0x432aff97 10;
  Line F4 rc rd ra rb 14 0xab9423a7 15; Line F4 rb rc rd ra 5 0xfc93a039 21;
  Line F4 ra rb rc rd 12 0x655b59c3 6; Line F4 rd ra rb rc 3 0x8f0ccc92 10;
  Line F4 rc rd ra rb 10 0xffeff47d 15; Line F4 rb rc rd ra 1 0x85845dd1 21;
  Line F4 ra rb rc rd 8 0x6fa87e4f 6; Line F4 rd ra rb rc 15 0xfe2ce6e0 10;
  Line F4 rc rd ra rb 6 0xa3014314 15; Line F4 rb rc rd ra 13 0x4e0811a1 21;
  Line F4 ra rb rc rd 4 0xf7537e82 6; Line F4 rd ra rb rc 11 0xbd3af235 10;
  Line F4 rc rd ra rb 2 0x2ad7d2bb 15; Line F4 rb rc rd ra 9 0xeb86d391 21].
Definition MD5Transform (buf : words4) (in_words : nat -> Z) : words4 :=
  let '(buf0, buf1, buf2, buf3) := buf in
  let '(a, b, c, d) := fold_left (exec in_words) lines (buf0, buf1, buf2, buf3) in
  (u32 (buf0 + a), u32 (buf1 + b), u32 (buf2 + c), u32 (buf3 + d)).

(** * The context *)
Record Context := Ctx { buf : words4; bits : Z * Z; in_ : bytes }.
Definition set_in (m : bytes) (c : Context) : Context := Ctx (buf c) (bits c) m.

Section Host.
Context (little : bool).

(** [byteReverse] on [longs] words of a buffer. *)
Definition reverse_long (t : nat) (u : bytes) : bytes :=
  let o := 4 * Z.of_nat t in
  let w := Z.lor (u32 (Z.shiftl (Z.lor (Z.shiftl (znth u (o + 3)) 8) (znth u (o + 2))) 16)) (Z.lor (Z.shiftl (znth u (o + 1)) 8) (znth u o)) in
  zsplice o (host_bytes little 4 w) u.
Definition byteReverse (u : bytes) (longs : nat) : bytes := fold_left (fun u t => reverse_long t u) (seq 0 longs) u.
Definition in_word (u : bytes) (t : nat) : Z := host_val little (zslice (4 * Z.of_nat t) 4 u).
(** [MD5Transform] of [ctx->in] as words. *)
Definition transform (c : Context) : Context := Ctx (MD5Transform (buf c) (in_word (in_ c))) (bits c) (in_ c).
Definition reverse_transform (c : Context) : Context := transform (set_in (byteReverse (in_ c) 16) c).

Definition MD5Init (c : Context) : Context := Ctx (0x67452301, 0xefcdab89, 0x98badcfe, 0x10325476) (0, 0) (in_ c).
Definition add_bits (len : Z) (b : Z * Z) : Z * Z :=
  let '(b0, b1) := b in
  let n0 := u32 (b0 + u32 (Z.shiftl (u32 len) 3)) in
  let b1 := if n0 <? b0 then u32 (b1 + 1) else b1 in
  (n0, u32 (b1 + u32 (Z.shiftr len 29))).
(** The loop over whole blocks and the rest behind it. *)
Fixpoint update_blocks (fuel : nat) (buf : bytes) (c : Context) : outcome Context :=
  if 64 <=? zlen buf then
    match fuel with
    | O => Fault OutOfFuel
    | S fuel => m ← mem_write (in_ c) 0 (take 64 buf); update_blocks fuel (drop 64 buf) (reverse_transform (set_in m c))
    end
  else m ← mem_write (in_ c) 0 buf; Ret (set_in m c).
Definition MD5Update (data : bytes) (c : Context) : outcome Context :=
  let len := zlen data in
  let t := (bits c).1 in
  let c := Ctx (buf c) (add_bits len (bits c)) (in_ c) in
  let t := Z.land (Z.shiftr t 3) 0x3f in
  if negb (t =? 0) then
    let p := t in
    let t := 64 - t in
    if len <? t then m ← mem_write (in_ c) p data; Ret (set_in m c)
    else
      m ← mem_write (in_ c) p (take (Z.to_nat t) data);
      update_blocks (length data) (drop (Z.to_nat t) data) (reverse_transform (set_in m c))
  else update_blocks (length data) data c.

(** [memset(p, 0, n)], [n] unsigned. *)
Definition memset0 (p n : Z) (m : bytes) : outcome bytes := mem_write m p (replicate (Z.to_nat n) 0).
Definition MD5Final (c : Context) : outcome (bytes * Context) :=
  let count := Z.land (Z.shiftr ((bits c).1) 3) 0x3f in
  m ← mem_write (in_ c) count [0x80];
  let p := count + 1 in
  let count := 64 - 1 - count in
  c ← (if count <? 8 then
         m ← memset0 p count m;
         let c := reverse_transform (set_in m c) in
         m ← memset0 0 56 (in_ c);
         Ret (set_in m c)
       else m ← memset0 p (count - 8) m; Ret (set_in m c));
  let c := set_in (byteReverse (in_ c) 14) c in
  m ← mem_write (in_ c) (14 * 4) (host_bytes little 4 ((bits c).1));
  m ← mem_write m (15 * 4) (host_bytes little 4 ((bits c).2));
  let c := transform (set_in m c) in
  let '(b0, b1, b2, b3) := buf c in
  let words := byteReverse (concat (map (host_bytes little 4) [b0; b1; b2; b3])) 4 in
  Ret (words, Ctx (0, 0, 0, 0) (0, 0) (replicate 64 0)).
Definition MD5IntermediateFinal (c : Context) : outcome bytes := '(digest, _) ← MD5Final c; Ret digest.
Definition MD5Sum (garbage : Context) (data : bytes) : outcome bytes := c ← MD5Update data (MD5Init garbage); '(digest, _) ← MD5Final c; Ret digest.
Definition zEncode : bytes := str#"0123456789abcdef".
Definition MD5DigestToBase16 (a : bytes) : bytes := concat (map (fun a => [znth zEncode (Z.land (Z.shiftr a 4) 0xf); znth zEncode (Z.land a 0xf)]) a).
Definition MD5String (garbage : Context) (str : bytes) : outcome bytes := digest ← MD5Sum garbage str; Ret (MD5DigestToBase16 digest).
End Host.

Example md5_abc : MD5String true (Ctx (0, 0, 0, 0) (5, 6) (replicate 64 7)) (str#"abc") = Ret (str#"900150983cd24fb0d6963f7d28e17f72") /\
  MD5String false (Ctx (0, 0, 0, 0) (5, 6) (replicate 64 7)) (str#"message digest") = Ret (str#"f96b697d7cb7938d525a2f31aaf161d0").
Proof. vm_compute. done. Qed.
