(* ===== verification/Md5Proofs.v ===== *)
(** MD5 is what RFC 1321 says, however the message is given in pieces, on either host. *)
From Stdlib Require Import ZArith Lia Bool Ascii String.
From stdpp Require Import base list numbers.
From S2P Require Import Prelude SysByteorder Digest Md5.

Open Scope Z_scope.

(** * The standard, as a loop *)
Definition rfc_F (x y z : Z) : Z := Z.lor (Z.land x y) (Z.land (not32 x) z).
Definition rfc_G (x y z : Z) : Z := Z.lor (Z.land x z) (Z.land y (not32 z)).
Definition rfc_H (x y z : Z) : Z := Z.lxor (Z.lxor x y) z.
Definition rfc_I (x y z : Z) : Z := Z.lxor y (Z.lor x (not32 z)).
Definition rfc_T : list Z :=
  [0xd76aa478; 0xe8c7b756; 0x242070db; 0xc1bdceee; 0xf57c0faf; 0x4787c62a; 0xa8304613; 0xfd469501;
   0x698098d8; 0x8b44f7af; 0xffff5bb1; 0x895cd7be; 0x6b901122; 0xfd987193; 0xa679438e; 0x49b40821;
   0xf61e2562; 0xc040b340; 0x265e5a51; 0xe9b6c7aa; 0xd62f105d; 0x02441453; 0xd8a1e681; 0xe7d3fbc8;
   0x21e1cde6; 0xc33707d6; 0xf4d50d87; 0x455a14ed; 0xa9e3e905; 0xfcefa3f8; 0x676f02d9; 0x8d2a4c8a;
   0xfffa3942; 0x8771f681; 0x6d9d6122; 0xfde5380c; 0xa4beea44; 0x4bdecfa9; 0xf6bb4b60; 0xbebfbc70;
   0x289b7ec6; 0xeaa127fa; 0xd4ef3085; 0x04881d05; 0xd9d4d039; 0xe6db99e5; 0x1fa27cf8; 0xc4ac5665;
   0xf4292244; 0x432aff97; 0xab9423a7; 0xfc93a039; 0x655b59c3; 0x8f0ccc92; 0xffeff47d; 0x85845dd1;
   0x6fa87e4f; 0xfe2ce6e0; 0xa3014314; 0x4e0811a1; 0xf7537e82; 0xbd3af235; 0x2ad7d2bb; 0xeb86d391].
Definition rfc_S : list Z := [7; 12; 17; 22; 5; 9; 14; 20; 4; 11; 16; 23; 6; 10; 15; 21].
Definition rfc_round (i : nat) : nat := (i / 16)%nat.
Definition rfc_f (i : nat) : Z -> Z -> Z -> Z := match rfc_round i with 0%nat => rfc_F | 1%nat => rfc_G | 2%nat => rfc_H | _ => rfc_I end.
Definition rfc_k (i : nat) : nat := (match rfc_round i with 0 => i | 1 => 5 * i + 1 | 2 => 3 * i + 5 | _ => 7 * i end mod 16)%nat.
Definition rfc_s (i : nat) : Z := rfc_S !!! (4 * rfc_round i + i mod 4)%nat.
(** The four registers change their roles from step to step. *)
Definition rfc_step (X : nat -> Z) (r : words4) (i : nat) : words4 :=
  let '(a, b, c, d) := r in
  (d, (b + rotl (rfc_s i) ((a + rfc_f i b c d + X (rfc_k i) + rfc_T !!! i) mod 2 ^ 32)) mod 2 ^ 32, b, c).
Definition sum4 (h r : words4) : words4 :=
  let '(h0, h1, h2, h3) := h in let '(a, b, c, d) := r in ((h0 + a) mod 2 ^ 32, (h1 + b) mod 2 ^ 32, (h2 + c) mod 2 ^ 32, (h3 + d) mod 2 ^ 32).
Definition rfc_transform (h : words4) (X : nat -> Z) : words4 := sum4 h (fold_left (rfc_step X) (seq 0 64) h).
Definition block_le (block : bytes) (t : nat) : Z := le_val (zslice (4 * Z.of_nat t) 4 block).
Definition rfc_compress (h : words4) (block : bytes) : words4 := rfc_transform h (block_le block).
Definition rfc_iv : words4 := (0x67452301, 0xefcdab89, 0x98badcfe, 0x10325476).
Definition list4 (h : words4) : list Z := let '(a, b, c, d) := h in [a; b; c; d].
Definition MD5 (m : bytes) : bytes := concat (map (le_bytes 4) (list4 (digest rfc_compress rfc_iv (le_bytes 8) m))).

(** * The unrolled steps *)
Lemma F1_rfc x y z : is_word x -> is_word y -> is_word z -> F1 x y z = rfc_F x y z.
Proof. intros. unfold F1, rfc_F. word_bitwise. Qed.
Lemma F2_rfc x y z : is_word x -> is_word y -> is_word z -> F2 x y z = rfc_G x y z.
Proof. intros. unfold F2, F1, rfc_G. word_bitwise. Qed.
Lemma word_sum x : is_word (x mod 2 ^ 32).
Proof. by apply Z.mod_pos_bound. Qed.
Lemma step_sum w f data : u32 (w + u32 (f + u32 data)) = (w + f + data) mod 2 ^ 32.
Proof. unfold uwrap. rewrite (Zplus_mod_idemp_r data f), Zplus_mod_idemp_r. f_equal. lia. Qed.
Lemma MD5STEP_rfc f g w x y z data k s : f x y z = g x y z -> 0 < s < 32 -> MD5STEP f w x y z (u32 (data + k)) s = (x + rotl s ((w + g x y z + data + k) mod 2 ^ 32)) mod 2 ^ 32.
Proof.
  intros E Hs. unfold MD5STEP. rewrite E, step_sum. replace (w + g x y z + (data + k)) with (w + g x y z + data + k) by lia. rewrite (proj1 (rotate_rotl s _ Hs (word_sum _))). unfold uwrap. f_equal. lia.
Qed.
Definition words_ok (r : words4) : Prop := let '(a, b, c, d) := r in is_word a /\ is_word b /\ is_word c /\ is_word d.
Lemma sum4_ok h r : words_ok (sum4 h r).
Proof. destruct h as [[[? ?] ?] ?], r as [[[? ?] ?] ?]. cbn. repeat split; apply word_sum. Qed.

(** After [n] lines the register [a] of the loop is the register [reg_at n 0] of the
    source. *)
Definition reg_at (n : nat) : reg := match (n mod 4)%nat with 0%nat => ra | 1%nat => rd | 2%nat => rc | _ => rb end.
Definition turned (n : nat) (r : words4) : words4 := (get r (reg_at n), get r (reg_at (n + 3)), get r (reg_at (n + 2)), get r (reg_at (n + 1))).
Definition line_at (n : nat) (f : Z -> Z -> Z -> Z) : line := Line f (reg_at n) (reg_at (n + 3)) (reg_at (n + 2)) (reg_at (n + 1)) (rfc_k n) (rfc_T !!! n) (rfc_s n).
Definition source_f (n : nat) : Z -> Z -> Z -> Z := match rfc_round n with 0%nat => F1 | 1%nat => F2 | 2%nat => F3 | _ => F4 end.
Lemma lines_rfc : lines = map (fun n => line_at n (source_f n)) (seq 0 64).
Proof. reflexivity. Qed.
Lemma source_f_rfc n x y z : is_word x -> is_word y -> is_word z -> source_f n x y z = rfc_f n x y z.
Proof. intros. unfold source_f, rfc_f. destruct (rfc_round n) as [|[|[|]]]; [by apply F1_rfc|by apply F2_rfc|done|done]. Qed.
Lemma get_words r i : words_ok r -> is_word (get r i).
Proof. destruct r as [[[a b] c] d]. intros (? & ? & ? & ?). by destruct i. Qed.
Lemma rfc_s_range n : (n < 64)%nat -> 0 < rfc_s n < 32.
Proof.
  assert (forallb (fun n => (0 <? rfc_s n) && (rfc_s n <? 32)) (seq 0 64) = true) as H by reflexivity. intros Hn. rewrite forallb_forall in H. specialize (H n ltac:(apply in_seq; lia)). apply andb_true_iff in H as [?%Z.ltb_lt ?%Z.ltb_lt]. done.
Qed.
Lemma turned_set n r v : turned (S n) (set r (reg_at n) v) = (get r (reg_at (n + 1)), v, get r (reg_at (n + 3)), get r (reg_at (n + 2))).
Proof.
  assert (forall k, reg_at (n + k) = reg_at (n mod 4 + k)) as E by (intros k; unfold reg_at; by rewrite Nat.Div0.add_mod_idemp_l). unfold turned. replace (S n) with (n + 1)%nat by lia. rewrite <- !Nat.add_assoc. cbn [Nat.add].
  pose proof (E 0%nat) as E0. rewrite !Nat.add_0_r in E0. rewrite E0, !E. destruct r as [[[a b] c] d]. pose proof (Nat.mod_upper_bound n 4 ltac:(done)). by destruct (n mod 4)%nat as [|[|[|[|]]]]; [..|lia].
Qed.
Lemma set_words r i v : words_ok r -> is_word v -> words_ok (set r i v).
Proof. destruct r as [[[a b] c] d]. intros (? & ? & ? & ?) ?. by destruct i. Qed.
Lemma exec_rfc X n r : (n < 64)%nat -> words_ok r -> turned (S n) (exec X r (line_at n (source_f n))) = rfc_step X (turned n r) n /\ words_ok (exec X r (line_at n (source_f n))).
Proof.
  intros Hn Hr. unfold line_at, exec. split; [|apply set_words; [done|apply word_u32]]. rewrite turned_set. unfold rfc_step, turned. rewrite (MD5STEP_rfc _ (rfc_f n)) by (apply source_f_rfc || apply rfc_s_range; try apply get_words; done). done.
Qed.
Lemma lines_loop X n : forall r, (n <= 64)%nat -> words_ok r -> let r' := fold_left (exec X) (map (fun n => line_at n (source_f n)) (seq 0 n)) r in
  turned n r' = fold_left (rfc_step X) (seq 0 n) r /\ words_ok r'.
Proof.
  induction n as [|n IH]; intros r Hn Hr; [by destruct r as [[[? ?] ?] ?]|]. destruct (IH r) as [E Hk]; [lia|done|]. rewrite seq_S, map_app, !fold_left_app. cbn [map fold_left Nat.add]. rewrite <- E. by apply exec_rfc.
Qed.
Lemma MD5Transform_rfc h X : words_ok h -> MD5Transform h X = rfc_transform h X.
Proof.
  intros Hh. destruct (lines_loop X 64 h ltac:(lia) Hh) as [E _]. unfold MD5Transform, rfc_transform. rewrite lines_rfc. cbv zeta in E. rewrite <- E. destruct h as [[[h0 h1] h2] h3]. destruct (fold_left _ _ _) as [[[a b] c] d]. done.
Qed.

(** * Bytes and words *)
Section Host.
Context (little : bool).
Abbreviation host := (host_bytes little 4).
Lemma length_host4 x : length (host x) = 4%nat.
Proof. unfold host_bytes. destruct little; [apply length_le_bytes|apply length_be_bytes]. Qed.
Lemma zlen_host4 x : zlen (host x) = 4.
Proof. unfold zlen. by rewrite length_host4. Qed.
Lemma host_word x : is_word x -> host_val little (host x) = x.
Proof. intros Hx. unfold host_val, host_bytes. destruct little; rewrite ?le_val_bytes, ?be_val_bytes; by apply Z.mod_small. Qed.
Definition word_slice (u : bytes) (t : nat) : bytes := zslice (4 * Z.of_nat t) 4 u.
Lemma word_slice_nths u t : (4 * t + 4 <= length u)%nat -> let o := 4 * Z.of_nat t in word_slice u t = [znth u o; znth u (o + 1); znth u (o + 2); znth u (o + 3)].
Proof.
  intros Hl o. apply list_eq. intros i. unfold word_slice. rewrite lookup_zslice. assert (forall k, (k < 4)%nat -> u !! (Z.to_nat (4 * Z.of_nat t) + k)%nat = Some (znth u (o + Z.of_nat k))) as Hk.
  { intros k Hk. unfold znth, o. replace (Z.to_nat (4 * Z.of_nat t + Z.of_nat k)) with (Z.to_nat (4 * Z.of_nat t) + k)%nat by lia. destruct (lookup_lt_is_Some_2 u (Z.to_nat (4 * Z.of_nat t) + k)) as [v ->]; [lia|done]. }
  destruct (decide (i < Z.to_nat 4)%nat) as [Hi|Hi]; [rewrite Hk by lia|symmetry; apply lookup_ge_None_2; cbn; lia]. destruct i as [|[|[|[|i]]]]; [rewrite Z.add_0_r; done|done..|lia].
Qed.
Lemma assemble_le b0 b1 b2 b3 : is_byte b0 -> is_byte b1 -> is_byte b2 -> is_byte b3 ->
  Z.lor (u32 (Z.shiftl (Z.lor (Z.shiftl b3 8) b2) 16)) (Z.lor (Z.shiftl b1 8) b0) = le_val [b0; b1; b2; b3].
Proof.
  unfold is_byte. intros. rewrite (lor_shiftl_add b3 b2 8), (lor_shiftl_add b1 b0 8) by lia. rewrite (uwrap_small 32) by (rewrite Z.shiftl_mul_pow2 by lia; powlia). rewrite lor_shiftl_add by powlia. cbn. powlia.
Qed.
Lemma le_word_range u t : all_bytes (word_slice u t) -> length (word_slice u t) = 4%nat -> is_word (le_val (word_slice u t)).
Proof. intros Hb Hl. pose proof (le_val_range _ Hb) as Hr. by rewrite Hl in Hr. Qed.
Lemma reverse_long_slice u t : (4 * t + 4 <= length u)%nat -> all_bytes (word_slice u t) -> reverse_long little t u = zsplice (4 * Z.of_nat t) (host (le_val (word_slice u t))) u.
Proof.
  intros Hl Hb. unfold reverse_long. cbv zeta. rewrite word_slice_nths in * by done. cbv zeta in Hb. do 4 (let x := fresh in apply Forall_cons_1 in Hb as [x Hb]). by rewrite assemble_le.
Qed.
Lemma length_word_slice u t : (4 * t + 4 <= length u)%nat -> length (word_slice u t) = 4%nat.
Proof. intros. unfold word_slice, zslice. rewrite length_take, length_drop. lia. Qed.
Lemma byteReverse_slices n u : (4 * n <= length u)%nat -> all_bytes (take (4 * n) u) -> let u' := byteReverse little u n in
  length u' = length u /\ (forall t, (t < n)%nat -> word_slice u' t = host (le_val (word_slice u t))) /\ (forall t, (n <= t)%nat -> word_slice u' t = word_slice u t).
Proof.
  induction n as [|n IH]; intros Hl Hb; [cbn; split; [done|]; split; [lia|done]|]. destruct IH as (Hl' & Hlt & Hge); [lia|by apply (Forall_take _ (4 * n)) in Hb; rewrite take_take, Nat.min_l in Hb by lia|].
  unfold byteReverse in *. rewrite seq_S, fold_left_app. cbn [fold_left Nat.add]. set (u' := fold_left _ (seq 0 n) u) in *. clearbody u'. cbv zeta in *.
  assert (all_bytes (word_slice u n)) as Hbn.
  { assert (word_slice u n = drop (4 * n) (take (4 * S n) u)) as ->; [|by apply Forall_drop]. unfold word_slice, zslice. rewrite skipn_firstn_comm. f_equal; [lia|]. f_equal. lia. }
  rewrite reverse_long_slice by (rewrite ?Hge by lia; done || lia). rewrite Hge by lia. set (x := le_val _).
  assert (forall t, t <> n -> word_slice (zsplice (4 * Z.of_nat n) (host x) u') t = word_slice u' t) as Ho by (intros t Ht; unfold word_slice; apply slice_splice_other; rewrite ?zlen_host4; unfold zlen; lia).
  split; [|split].
  - rewrite <- Hl'. apply Nat2Z.inj. apply (zlen_zsplice (4 * Z.of_nat n) (host x) u'); rewrite ?zlen_host4; unfold zlen; lia.
  - intros t Ht. destruct (decide (t = n)) as [-> |Hn]; [unfold word_slice at 1; apply slice_splice_same; rewrite ?zlen_host4; unfold zlen; lia|]. rewrite Ho by done. apply Hlt. lia.
  - intros t Ht. rewrite Ho by lia. apply Hge. lia.
Qed.
Lemma words_same h f g : (forall t, (t < 16)%nat -> f t = g t) -> rfc_transform h f = rfc_transform h g.
Proof.
  intros H. unfold rfc_transform. f_equal. assert (forall l r, (forall t, In t l -> (t < 64)%nat) -> fold_left (rfc_step f) l r = fold_left (rfc_step g) l r) as E.
  { induction l as [|i l IH]; intros r Hl; [done|]. cbn [fold_left]. rewrite IH by (intros; apply Hl; by right). f_equal. destruct r as [[[a b] c] d]. unfold rfc_step. rewrite H; [done|]. unfold rfc_k. by apply Nat.mod_upper_bound. }
  apply E. intros t Ht. apply in_seq in Ht. lia.
Qed.
Lemma take_all_bytes n (u : bytes) : all_bytes u -> all_bytes (take n u).
Proof. apply Forall_take. Qed.
Lemma reverse_transform_rfc c : words_ok (buf c) -> length (in_ c) = 64%nat -> all_bytes (in_ c) ->
  let c' := reverse_transform little c in buf c' = rfc_compress (buf c) (in_ c) /\ bits c' = bits c /\ length (in_ c') = 64%nat.
Proof.
  intros Hw Hl Hb. destruct (byteReverse_slices 16 (in_ c)) as (Hl' & Hs & _); [lia|by apply take_all_bytes|]. cbn [reverse_transform transform set_in buf bits in_]. rewrite Hl'. split; [|done]. rewrite MD5Transform_rfc by done. apply words_same. intros t Ht.
  unfold in_word, block_le. fold (word_slice (byteReverse little (in_ c) 16) t). rewrite Hs by done. apply host_word, le_word_range; [unfold word_slice; by apply Forall_take, Forall_drop|apply length_word_slice; lia].
Qed.
End Host.
#[local] Opaque rfc_compress.

(** * Bits *)
(** The two words of the number of bits. *)
Definition bits_of (n : Z) : Z * Z := (n mod 2 ^ 32, n / 2 ^ 32 mod 2 ^ 32).
Lemma add_bits_of len n : 0 <= len < 2 ^ 64 -> add_bits len (bits_of n) = bits_of (n + 8 * len).
Proof.
  intros Hl. unfold add_bits, bits_of. assert (u32 (Z.shiftl (u32 len) 3) = (8 * len) mod 2 ^ 32) as E3 by (unfold uwrap; rewrite Z.shiftl_mul_pow2 by lia; rewrite Zmult_mod_idemp_l; f_equal; lia).
  rewrite E3. assert (Z.shiftr len 29 = 8 * len / 2 ^ 32) as -> by (rewrite Z.shiftr_div_pow2 by lia; change (2 ^ 32) with (8 * 2 ^ 29); by rewrite Z.div_mul_cancel_l). set (k := 8 * len). clearbody k.
  unfold uwrap. change (2 ^ 32) with 4294967296. f_equal.
  - Z.div_mod_to_equations. lia.
  - set (M := 4294967296). set (a := n mod M). set (c := k mod M). assert ((n + k) / M = n / M + k / M + (a + c) / M) as ->.
    { assert (n + k = (n / M + k / M) * M + (a + c)) as -> by (pose proof (Z.div_mod n M ltac:(done)); pose proof (Z.div_mod k M ltac:(done)); unfold a, c; lia). rewrite Z.div_add_l by done. lia. }
    assert (0 <= a < M) as Ha by (by apply Z.mod_pos_bound). assert (0 <= c < M) as Hc by (by apply Z.mod_pos_bound). assert ((a + c) / M = if (a + c) mod M <? a then 1 else 0) as ->.
    { clearbody a c. unfold M in *. clear M. destruct (Z.ltb_spec ((a + c) mod 4294967296) a); Z.div_mod_to_equations; lia. }
    destruct ((a + c) mod M <? a).
    + rewrite (Zplus_mod_idemp_l (n / M) 1), Zplus_mod_idemp_r, Zplus_mod_idemp_l. f_equal. lia.
    + rewrite Zplus_mod_idemp_r, Zplus_mod_idemp_l. f_equal. lia.
Qed.
Lemma bits_rest m : Z.land (Z.shiftr (bits_of (8 * zlen m)).1 3) 0x3f = Z.of_nat (length (rest m)).
Proof.
  rewrite <- length_mod_rest. unfold bits_of. cbn [fst]. change 0x3f with (Z.ones 6). rewrite Z.land_ones, Z.shiftr_div_pow2 by lia. set (n := zlen m). clearbody n. change (2 ^ 32) with 4294967296. change (2 ^ 3) with 8. change (2 ^ 6) with 64. Z.div_mod_to_equations. lia.
Qed.
Lemma bits_words n : is_word (bits_of n).1 /\ is_word (bits_of n).2.
Proof. split; apply word_sum. Qed.

(** * Pieces *)
Section Streams.
Context (little : bool).
(** The state [h] after the whole blocks, the bytes [r] of the block that is begun. *)
Record holds (c : Context) (h : words4) (b : Z * Z) (r : bytes) : Prop := {
  h_buf : buf c = h; h_words : words_ok h; h_bits : bits c = b; h_in : length (in_ c) = 64%nat; h_rest : take (length r) (in_ c) = r; h_room : (length r <= 64)%nat; h_bytes : all_bytes r }.
Lemma compress_words h b : words_ok (rfc_compress h b).
Proof. Transparent rfc_compress. apply sum4_ok. Opaque rfc_compress. Qed.
Lemma absorb_words n : forall h m, words_ok h -> words_ok (absorb rfc_compress n h m).
Proof. induction n as [|n IH]; intros h m Hh; [done|]. cbn [absorb]. apply IH, compress_words. Qed.
Lemma fill c h b r d : holds c h b r -> (length r + length d <= 64)%nat -> all_bytes d ->
  exists m, mem_write (in_ c) (Z.of_nat (length r)) d = Ret m /\ holds (set_in m c) h b (r ++ d).
Proof.
  intros [Hb Hw Hbits Hi Hr Hrm Ha] Hl Hd. rewrite mem_write_ok by (unfold zlen; lia). eexists. split; [done|]. unfold zsplice. rewrite Nat2Z.id, Hr. split; cbn [buf bits in_ set_in]; try done.
  - rewrite !length_app, length_drop. lia.
  - rewrite app_assoc. apply take_app_length.
  - rewrite length_app. lia.
  - by apply Forall_app.
Qed.
Lemma compress_full c h b r : holds c h b r -> length r = 64%nat -> holds (reverse_transform little c) (rfc_compress h r) b [].
Proof.
  intros [Hb Hw Hbits Hi Hr Hrm Ha] Hl. assert (in_ c = r) as Ei by (rewrite <- Hr, Hl, take_ge by lia; done). destruct (reverse_transform_rfc little c) as (E1 & E2 & E3); [by rewrite Hb|done|by rewrite Ei|].
  split; [by rewrite E1, Hb, Ei|apply compress_words|by rewrite E2|done|done|cbn; lia|constructor].
Qed.
Lemma take_holds c h b r : holds c h b r -> holds c h b [].
Proof. intros [? ? ? ? ? ? ?]. split; try done; [cbn; lia|constructor]. Qed.
Lemma update_blocks_holds fuel : forall d c h b, holds c h b [] -> all_bytes d -> (length d <= fuel)%nat ->
  exists c', update_blocks little fuel d c = Ret c' /\ holds c' (absorb rfc_compress (whole d) h d) b (rest d).
Proof.
  induction fuel as [|fuel IH]; intros d c h b Hc Hd Hf.
  - destruct d; [|cbn in Hf; lia]. cbn [update_blocks]. change (64 <=? zlen []) with false. cbv iota. destruct (fill c h b [] [] Hc) as (m & E & Hm); [cbn; lia|constructor|]. cbn [length app] in *. change (Z.of_nat 0) with 0 in E. rewrite E. obind. eexists. split; [done|]. exact Hm.
  - cbn [update_blocks]. destruct (Z.leb_spec 64 (zlen d)) as [H|H]; unfold zlen in H.
    + destruct (fill c h b [] (take 64 d) Hc) as (m & E & Hm); [rewrite length_take; cbn [length]; lia|by apply Forall_take|]. change (Z.of_nat (length [])) with 0 in E. rewrite E. obind. cbn [app] in Hm.
      pose proof (compress_full _ _ _ _ Hm ltac:(rewrite length_take; lia)) as H1. destruct (IH (drop 64 d) _ _ _ H1) as (c' & E' & H'); [by apply Forall_drop|rewrite length_drop; lia|]. exists c'. split; [exact E'|].
      destruct (whole_more d) as [-> ->]; [lia|]. exact H'.
    + destruct (fill c h b [] d Hc) as (m & E & Hm); [cbn; lia|done|]. change (Z.of_nat (length [])) with 0 in E. rewrite E. obind. eexists. split; [done|]. destruct (whole_less d) as [-> ->]; [lia|]. exact Hm.
Qed.
Lemma iv_words : words_ok rfc_iv.
Proof. unfold words_ok, rfc_iv, is_word. lia. Qed.
Abbreviation absorbed := (absorbed rfc_compress rfc_iv).
Definition md5_rep (c : Context) (m : bytes) : Prop := holds c (absorbed m) (bits_of (8 * zlen m)) (rest m).
Lemma MD5Init_rep g : length (in_ g) = 64%nat -> md5_rep (MD5Init g) [].
Proof. intros Hg. split; [done|exact iv_words|done|exact Hg|done|cbn; lia|constructor]. Qed.
Lemma MD5Update_rep c m data : md5_rep c m -> all_bytes data -> zlen data < 2 ^ 64 -> exists c', MD5Update little data c = Ret c' /\ md5_rep c' (m ++ data).
Proof.
  intros Hc Hd Hl. pose proof (zlen_nonneg data). pose proof (rest_short m) as Hr. unfold MD5Update. rewrite (h_bits _ _ _ _ Hc), bits_rest, add_bits_of by done. set (c1 := Ctx (buf c) _ (in_ c)).
  assert (holds c1 (absorbed m) (bits_of (8 * zlen (m ++ data))) (rest m)) as H1.
  { destruct Hc as [? ? ? ? ? ? ?]. split; try done. cbn. f_equal. rewrite zlen_app. lia. }
  clearbody c1. unfold md5_rep. destruct (Z.eqb_spec (Z.of_nat (length (rest m))) 0) as [E0|E0]; cbn [negb].
  - assert (rest m = []) as Er by (destruct (rest m); [done|cbn in E0; lia]). rewrite Er in H1. destruct (absorbed_blocks rfc_compress rfc_iv m data Er) as [-> ->]. by apply update_blocks_holds.
  - destruct (Z.ltb_spec (zlen data) (64 - Z.of_nat (length (rest m)))) as [Hs|Hs]; unfold zlen in Hs.
    + destruct (fill c1 _ _ _ data H1) as (m' & E & Hm'); [lia|done|]. rewrite E. obind. eexists. split; [done|]. destruct (absorbed_more rfc_compress rfc_iv m data) as [-> ->]; [lia|]. exact Hm'.
    + set (k := Z.to_nat (64 - Z.of_nat (length (rest m)))). assert (k = (64 - length (rest m))%nat) as Ek by (unfold k; lia). destruct (fill c1 _ _ _ (take k data) H1) as (m' & E & Hm'); [rewrite length_take; lia|by apply Forall_take|]. rewrite E. obind.
      pose proof (compress_full _ _ _ _ Hm' ltac:(rewrite length_app, length_take; lia)) as H2. destruct (absorbed_block rfc_compress rfc_iv m (take k data)) as [Ea Er]; [rewrite length_take; lia|]. rewrite <- Ea in H2.
      destruct (absorbed_blocks rfc_compress rfc_iv (m ++ take k data) (drop k data) Er) as [Ea2 Er2]. rewrite <- app_assoc, take_drop in Ea2, Er2. rewrite Ea2, Er2. apply update_blocks_holds; [exact H2|by apply Forall_drop|rewrite length_drop; lia].
Qed.
End Streams.

(** * The end *)
Section Final.
Context (little : bool).
Lemma memset_fill c h b r k : holds c h b r -> (length r + k <= 64)%nat -> exists m, memset0 (Z.of_nat (length r)) (Z.of_nat k) (in_ c) = Ret m /\ holds (set_in m c) h b (r ++ zeros k).
Proof. intros Hc Hl. unfold memset0. rewrite Nat2Z.id. apply (fill c h b r (zeros k) Hc); [by rewrite length_zeros|apply zeros_bytes]. Qed.
Lemma word_slice_app a b t : (4 * t + 4 <= length a)%nat -> word_slice (a ++ b) t = word_slice a t.
Proof. intros H. unfold word_slice, zslice. rewrite drop_app_le by lia. apply take_app_le. rewrite length_drop. lia. Qed.
Lemma le_bytes_split n : 0 <= n < 2 ^ 64 -> le_bytes 8 n = le_bytes 4 (bits_of n).1 ++ le_bytes 4 (bits_of n).2.
Proof.
  intros Hn. unfold bits_of. cbn [fst snd]. rewrite (Z.mod_small (n / 2 ^ 32)) by (split; [apply Z.div_pos; lia|apply Z.div_lt_upper_bound; powlia]). cbn [le_bytes app]. rewrite !Z.div_div by done. change (2 ^ 32) with 4294967296. repeat (f_equal; [Z.div_mod_to_equations; lia|]). by f_equal; Z.div_mod_to_equations; lia.
Qed.
(** The length goes behind fifty-six bytes of the last block. *)
Lemma last_block c h n r : holds c h (bits_of n) r -> length r = 56%nat -> 0 <= n < 2 ^ 64 -> exists m m2,
  let c1 := set_in (byteReverse little (in_ c) 14) c in
  mem_write (in_ c1) (14 * 4) (host_bytes little 4 (bits c1).1) = Ret m /\ mem_write m (15 * 4) (host_bytes little 4 (bits c1).2) = Ret m2 /\
  buf (transform little (set_in m2 c1)) = rfc_compress h (r ++ le_bytes 8 n).
Proof.
  intros [Hb Hw Hbits Hi Hr Hrm Ha] Hl Hn. rewrite Hl in Hr. destruct (bits_words n) as [W0 W1]. destruct (byteReverse_slices little 14 (in_ c)) as (L1 & S1 & _); [lia|change (4 * 14)%nat with 56%nat; by rewrite Hr|]. set (u1 := byteReverse little (in_ c) 14) in *. clearbody u1. cbn [set_in in_ bits buf]. rewrite Hbits.
  set (x0 := (bits_of n).1) in *. set (x1 := (bits_of n).2) in *. pose proof (zlen_host4 little x0) as Z0. pose proof (zlen_host4 little x1) as Z1. assert (zlen u1 = 64) as Lu by (unfold zlen; lia).
  rewrite mem_write_ok by (rewrite ?Z0, ?Lu; lia). set (u2 := zsplice (14 * 4) _ u1). assert (zlen u2 = 64) as Lu2 by (unfold u2; rewrite zlen_zsplice; rewrite ?Z0, ?Lu; lia).
  eexists _, _. split; [reflexivity|]. rewrite mem_write_ok by (rewrite ?Z1, ?Lu2; lia). split; [reflexivity|]. set (u3 := zsplice (15 * 4) _ u2).
  unfold transform. cbn [set_in in_ buf bits]. rewrite MD5Transform_rfc, Hb by (by rewrite Hb). Transparent rfc_compress. unfold rfc_compress. Opaque rfc_compress. apply words_same. intros t Ht. unfold in_word, block_le. fold (word_slice u3 t). fold (word_slice (r ++ le_bytes 8 n) t).
  assert (forall t, (t < 14)%nat -> word_slice (r ++ le_bytes 8 n) t = word_slice (in_ c) t) as Hr14.
  { intros k Hk. rewrite word_slice_app by lia. rewrite <- (take_drop 56 (in_ c)), Hr. symmetry. apply word_slice_app. lia. }
  assert (word_slice (r ++ le_bytes 8 n) 14 = le_bytes 4 x0 /\ word_slice (r ++ le_bytes 8 n) 15 = le_bytes 4 x1) as [H14 H15].
  { rewrite le_bytes_split by done. fold x0 x1. split; unfold word_slice; [apply zslice_middle; unfold zlen; rewrite ?length_le_bytes; lia|]. assert (r ++ le_bytes 4 x0 ++ le_bytes 4 x1 = (r ++ le_bytes 4 x0) ++ le_bytes 4 x1 ++ []) as -> by (by rewrite app_nil_r, app_assoc). apply zslice_middle; unfold zlen; rewrite ?length_app, ?length_le_bytes; lia. }
  destruct (decide (t = 15%nat)) as [-> |H15']; [|destruct (decide (t = 14%nat)) as [-> |H14']].
  - rewrite H15. assert (word_slice u3 15 = host_bytes little 4 x1) as -> by (unfold word_slice, u3; apply slice_splice_same; rewrite ?Z1, ?Lu2; lia). rewrite host_word by done. rewrite le_val_bytes. symmetry. by apply Z.mod_small.
  - rewrite H14. assert (word_slice u3 14 = host_bytes little 4 x0) as ->.
    { unfold word_slice, u3. rewrite slice_splice_other by (rewrite ?Z1, ?Lu2; lia). unfold u2. apply slice_splice_same; rewrite ?Z0, ?Lu; lia. }
    rewrite host_word by done. rewrite le_val_bytes. symmetry. by apply Z.mod_small.
  - rewrite Hr14 by lia. assert (word_slice u3 t = word_slice u1 t) as ->.
    { unfold word_slice, u3. rewrite slice_splice_other by (rewrite ?Z1, ?Lu2; lia). unfold u2. rewrite slice_splice_other by (rewrite ?Z0, ?Lu; lia). done. }
    rewrite S1 by lia. apply host_word, le_word_range; [|apply length_word_slice; lia]. rewrite <- Hr14 by lia. unfold word_slice. apply Forall_take, Forall_drop, Forall_app. split; [done|apply le_bytes_bytes].
Qed.
Lemma le_host x : is_word x -> host_bytes little 4 (le_val (host_bytes little 4 x)) = le_bytes 4 x.
Proof.
  intros Hx. unfold host_bytes. destruct little; [rewrite le_val_bytes; by rewrite Z.mod_small|]. unfold be_bytes. pose proof (be_bytes_bytes 4 x) as Hb. unfold be_bytes in Hb. pose proof (le_bytes_val _ Hb) as E. rewrite length_reverse, length_le_bytes in E. rewrite E. apply reverse_involutive.
Qed.
(** [byteReverse] on the four words of the digest makes them little-endian. *)
Lemma reverse_words h : words_ok h -> byteReverse little (concat (map (host_bytes little 4) (list4 h))) 4 = concat (map (le_bytes 4) (list4 h)).
Proof.
  destruct h as [[[a b] c] d]. intros (Ha & Hb & Hc & Hd). set (u := concat _). assert (length u = 16%nat) as Lu by (unfold u; cbn [map list4 concat]; rewrite !length_app, !length_host4; done).
  assert (forall x, all_bytes (host_bytes little 4 x)) as Hh by (intros x; unfold host_bytes; destruct little; [apply le_bytes_bytes|apply be_bytes_bytes]).
  assert (all_bytes u) as Hu by (unfold u; cbn [map list4 concat]; repeat (apply Forall_app; split); try apply Hh; constructor).
  destruct (byteReverse_slices little 4 u) as (L & S & _); [lia|by apply take_all_bytes|]. assert (forall v : bytes, length v = 16%nat -> v = word_slice v 0 ++ word_slice v 1 ++ word_slice v 2 ++ word_slice v 3) as Hv.
  { intros v Hlv. do 16 (destruct v as [|? v]; [done|]). destruct v; [done|done]. }
  rewrite (Hv _ (eq_trans L Lu)), !S by lia. assert (word_slice u 0 = host_bytes little 4 a /\ word_slice u 1 = host_bytes little 4 b /\ word_slice u 2 = host_bytes little 4 c /\ word_slice u 3 = host_bytes little 4 d) as (-> & -> & -> & ->).
  { unfold u. cbn [map list4 concat]. rewrite app_nil_r. pose proof (length_host4 little a) as La. pose proof (length_host4 little b) as Lb. pose proof (length_host4 little c) as Lc. pose proof (length_host4 little d) as Ld.
    generalize dependent (host_bytes little 4 a). generalize dependent (host_bytes little 4 b). generalize dependent (host_bytes little 4 c). generalize dependent (host_bytes little 4 d). clear. intros wd Ld wc Lc wb Lb wa La.
    repeat match goal with w : bytes |- _ => do 4 (destruct w as [|? w]; [done|]); destruct w; [|done] end. done. }
  rewrite !le_host by done. cbn [map list4 concat]. by rewrite app_nil_r.
Qed.
Lemma digest_words m : words_ok (digest rfc_compress rfc_iv (le_bytes 8) m).
Proof. apply absorb_words, iv_words. Qed.
Lemma MD5Final_rep c m : md5_rep c m -> zlen m < 2 ^ 61 -> exists c', MD5Final little c = Ret (MD5 m, c').
Proof.
  intros Hc Hm. pose proof (zlen_nonneg m). pose proof (rest_short m) as Hr. set (n := 8 * zlen m) in *. assert (0 <= n < 2 ^ 64) as Hn by (unfold n; powlia). destruct (fill c _ _ _ [128] Hc) as (m1 & E1 & H1); [cbn [length]; lia|by repeat constructor|].
  set (k := length (rest m)) in *. unfold MD5Final. rewrite (h_bits _ _ _ _ Hc). rewrite bits_rest. fold k. fold k in E1. rewrite E1. obind.
  assert (length (rest m ++ [128]) = (k + 1)%nat) as Lk by (rewrite length_app; done).
  assert (forall c2 h r, holds c2 h (bits_of n) r -> length r = 56%nat -> rfc_compress h (r ++ le_bytes 8 n) = digest rfc_compress rfc_iv (le_bytes 8) m -> exists c',
    (let c := set_in (byteReverse little (in_ c2) 14) c2 in
     m ← mem_write (in_ c) (14 * 4) (host_bytes little 4 (bits c).1);
     m ← mem_write m (15 * 4) (host_bytes little 4 (bits c).2);
     let c := transform little (set_in m c) in
     let '(b0, b1, b2, b3) := buf c in
     Ret (byteReverse little (concat (map (host_bytes little 4) [b0; b1; b2; b3])) 4, Ctx (0, 0, 0, 0) (0, 0) (replicate 64 0))) = Ret (MD5 m, c')) as Hend.
  { intros c2 h r H2 Hl Hd. destruct (last_block c2 h n r H2 Hl Hn) as (m2 & m3 & E2 & E3 & E4). cbv zeta in *. rewrite (bind_ret _ _ _ E2), (bind_ret _ _ _ E3), E4, Hd. pose proof (digest_words m) as Hw. unfold MD5.
    destruct (digest rfc_compress rfc_iv (le_bytes 8) m) as [[[b0 b1] b2] b3]. eexists. f_equal. f_equal. exact (reverse_words (b0, b1, b2, b3) Hw). }
  assert ((8 * zlen m) mod 2 ^ 64 = n) as En by (apply Z.mod_small; done).
  destruct (Z.ltb_spec (64 - 1 - Z.of_nat k) 8) as [Hk|Hk].
  - destruct (memset_fill _ _ _ _ (63 - k) H1) as (m2 & E2 & H2); [lia|]. rewrite Lk in E2. replace (Z.of_nat (k + 1)) with (Z.of_nat k + 1) in E2 by lia. replace (Z.of_nat (63 - k)) with (64 - 1 - Z.of_nat k) in E2 by lia. cbn [set_in in_] in E2.
    rewrite (bind_ret _ _ _ E2). pose proof (compress_full little _ _ _ _ H2 ltac:(rewrite length_app, Lk, length_zeros; lia)) as H3. destruct (memset_fill _ _ _ _ 56 H3) as (m3 & E3 & H4); [cbn [length]; lia|]. change (Z.of_nat (length [])) with 0 in E3. change (Z.of_nat 56) with 56 in E3.
    rewrite (bind_ret _ _ _ E3). rewrite (bind_ret (Ret _) _ _ eq_refl). apply (Hend _ _ _ H4); [by rewrite length_app, length_zeros|]. rewrite digest_two, En by (fold k; lia || apply length_le_bytes). fold k. by rewrite <- !app_assoc.
  - destruct (memset_fill _ _ _ _ (55 - k) H1) as (m2 & E2 & H2); [lia|]. rewrite Lk in E2. replace (Z.of_nat (k + 1)) with (Z.of_nat k + 1) in E2 by lia. replace (Z.of_nat (55 - k)) with (64 - 1 - Z.of_nat k - 8) in E2 by lia. cbn [set_in in_] in E2.
    rewrite (bind_ret _ _ _ E2). rewrite (bind_ret (Ret _) _ _ eq_refl). apply (Hend _ _ _ H2); [rewrite length_app, Lk, length_zeros; lia|]. rewrite digest_one, En by (fold k; lia || apply length_le_bytes). fold k. by rewrite <- !app_assoc.
Qed.
End Final.

Fixpoint update_all (little : bool) (pieces : list bytes) (c : Context) : outcome Context := match pieces with [] => Ret c | p :: pieces => c ← MD5Update little p c; update_all little pieces c end.
Lemma update_all_md5 little pieces : forall c m, md5_rep c m -> Forall (fun p => all_bytes p /\ zlen p < 2 ^ 64) pieces -> exists c', update_all little pieces c = Ret c' /\ md5_rep c' (m ++ concat pieces).
Proof.
  induction pieces as [|p pieces IH]; intros c m Hc Hp; [exists c; cbn; by rewrite app_nil_r|]. apply Forall_cons_1 in Hp as [[Hp Hl] Hps]. destruct (MD5Update_rep little c m p Hc Hp Hl) as (c1 & E & H1). destruct (IH c1 _ H1 Hps) as (c2 & E2 & H2).
  exists c2. cbn [update_all]. rewrite E. obind. split; [exact E2|]. cbn [concat]. by rewrite app_assoc.
Qed.

(** C37: MD5 is computed: on a host of either byte order, whatever the context held and in
    whatever pieces less than 2^61 bytes are given to [MD5Update], no write leaves the
    context, every loop ends, and [MD5Final] gives the digest RFC 1321 defines for the
    bytes; an intermediate digest is that of the bytes so far and leaves the context. *)
Theorem md5_exact little garbage pieces : length (in_ garbage) = 64%nat -> Forall all_bytes pieces -> zlen (concat pieces) < 2 ^ 61 ->
  exists c c', update_all little pieces (MD5Init garbage) = Ret c /\ MD5Final little c = Ret (MD5 (concat pieces), c') /\ MD5IntermediateFinal little c = Ret (MD5 (concat pieces)).
Proof.
  intros Hg Hp Hl. assert (Forall (fun p => all_bytes p /\ zlen p < 2 ^ 64) pieces) as Hp2.
  { clear Hg. induction Hp as [|p pieces Hp _ IH]; [constructor|]. cbn [concat] in Hl. rewrite zlen_app in Hl. pose proof (zlen_nonneg p). pose proof (zlen_nonneg (concat pieces)). constructor; [split; [done|powlia]|]. apply IH. lia. }
  destruct (update_all_md5 little pieces _ _ (MD5Init_rep garbage Hg) Hp2) as (c & E & Hc). cbn [app] in Hc. destruct (MD5Final_rep little c _ Hc Hl) as (c' & E'). exists c, c'. split; [done|]. split; [done|]. unfold MD5IntermediateFinal. by rewrite (bind_ret _ _ _ E').
Qed.
Lemma md5_exact_witness : exists c c', update_all false [str#"a"; str#"bc"] (MD5Init (Ctx (0, 0, 0, 0) (5, 6) (replicate 64 7))) = Ret c /\ MD5Final false c = Ret (MD5 (str#"abc"), c').
Proof.
  destruct (md5_exact false (Ctx (0, 0, 0, 0) (5, 6) (replicate 64 7)) [str#"a"; str#"bc"]) as (c & c' & E1 & E2 & _).
  - reflexivity.
  - repeat constructor; unfold is_byte; lia.
  - reflexivity.
  - exists c, c'. split; [exact E1|exact E2].
Defined.
Lemma MD5Sum_exact little garbage m : length (in_ garbage) = 64%nat -> all_bytes m -> zlen m < 2 ^ 61 -> MD5Sum little garbage m = Ret (MD5 m).
Proof.
  intros Hg Hm Hl. destruct (MD5Update_rep little _ _ m (MD5Init_rep garbage Hg) Hm ltac:(powlia)) as (c & E & Hc). cbn [app] in Hc. destruct (MD5Final_rep little c _ Hc Hl) as (c' & E'). unfold MD5Sum. by rewrite (bind_ret _ _ _ E), (bind_ret _ _ _ E').
Qed.
