(* ===== verification/NetAddress.v ===== *)
(** Addresses and ports: [zutils/net/base/net_util.cc], [ip_endpoint.cc],
    [host_port_pair.cc] and [address_list.cc]. A [sockaddr] is the bytes of memory it occupies, laid out as on
    Linux: [sockaddr_in] is the family in the order of the host, port and address in
    network order and eight zeros; [sockaddr_in6] has the flow between port and address
    and ends with the scope. *)
From Stdlib Require Import ZArith Lia Bool Ascii String.
From stdpp Require Import base list numbers gmap.
From S2P Require Import Prelude SysByteorder Numbers Strings.
From S2P Require HttpServer.

Open Scope Z_scope.

Definition kIPv4AddressSize : Z := 4.
Definition kIPv6AddressSize : Z := 16.
(** [AF_UNSPEC], [AF_INET], [AF_INET6] and the sizes of the two structures. *)
Definition AF_UNSPEC : Z := 0.
Definition AF_INET : Z := 2.
Definition AF_INET6 : Z := 10.
Definition kSockaddrInSize : Z := 16.
Definition kSockaddrIn6Size : Z := 28.
Inductive AddressFamily := ADDRESS_FAMILY_UNSPECIFIED | ADDRESS_FAMILY_IPV4 | ADDRESS_FAMILY_IPV6.

(** [v[i]] of a vector or an array. *)
Definition at_index (v : bytes) (i : Z) : outcome Z :=
  match (if 0 <=? i then v !! Z.to_nat i else None) with Some x => Ret x | None => Fault OutOfBounds end.
(** What [%s] prints of [c_str()]. *)
Fixpoint c_str (s : bytes) : bytes := match s with [] => [] | c :: s => if c =? 0 then [] else c :: c_str s end.
Abbreviation printf_d := HttpServer.decimal.

(** * Text *)
Record Component := Comp { begin_ : Z; len_ : Z }.
Definition no_component : Component := Comp 0 (-1).
Definition is_valid (c : Component) : bool := negb (len_ c =? -1).
Definition end_ (c : Component) : Z := begin_ c + len_ c.
(** A step of [ChooseIPv6ContractionRange] at the byte [i]. *)
Definition contraction_step (is_zero : bool) (i : Z) (st : Component * Component) : Component * Component :=
  let '(max_range, cur_range) := st in
  let cur_range := if is_zero then let c := if negb (is_valid cur_range) then Comp i 0 else cur_range in Comp (begin_ c) (len_ c + 2) else cur_range in
  if negb is_zero || (i =? 14) then (if (2 <? len_ cur_range) && (len_ max_range <? len_ cur_range) then cur_range else max_range, no_component)
  else (max_range, cur_range).
Definition ChooseIPv6ContractionRange (address : bytes) : outcome Component :=
  (fix loop (idx : list nat) (st : Component * Component) : outcome Component :=
     match idx with
     | [] => Ret st.1
     | i :: idx =>
         let i := 2 * Z.of_nat i in
         a ← at_index address i; b ← at_index address (i + 1);
         loop idx (contraction_step ((a =? 0) && (b =? 0)) i st)
     end) (seq 0 8) (no_component, no_component).

Section Checked.
Context (dcheck_on little : bool).

Fixpoint append_ipv4 (address : bytes) (idx : list nat) (output : bytes) : outcome bytes :=
  match idx with
  | [] => Ret output
  | i :: idx => b ← at_index address (Z.of_nat i); text ← IntToString dcheck_on b;
      append_ipv4 address idx (output ++ text ++ (if negb (i =? 3)%nat then [ch#"."] else []))
  end.
Definition AppendIPv4Address (address output : bytes) : outcome bytes := append_ipv4 address (seq 0 4) output.
Fixpoint append_ipv6 (fuel : nat) (address : bytes) (range : Component) (i : Z) (output : bytes) : outcome bytes :=
  if i <=? 14 then
    match fuel with
    | O => Fault OutOfFuel
    | S fuel =>
        DCHECK dcheck_on (i mod 2 =? 0) (
        if (i =? begin_ range) && (0 <? len_ range) then
          append_ipv6 fuel address range (end_ range) (output ++ (if i =? 0 then [ch#":"] else []) ++ [ch#":"])
        else
          a ← at_index address i; b ← at_index address (i + 1);
          let x := Z.lor (Z.shiftl a 8) b in
          let i := i + 2 in
          text ← IntToString dcheck_on x;
          append_ipv6 fuel address range i (output ++ text ++ (if i <? 16 then [ch#":"] else [])))
    end
  else Ret output.
Definition AppendIPv6Address (address output : bytes) : outcome bytes :=
  contraction_range ← ChooseIPv6ContractionRange address; append_ipv6 8 address contraction_range 0 output.
Definition IPAddressToString (address : bytes) (address_len : Z) : outcome bytes :=
  if address_len =? kIPv4AddressSize then AppendIPv4Address address []
  else if address_len =? kIPv6AddressSize then AppendIPv6Address address []
  else Fault AssertFail.
Definition IPAddressToStringWithPort (address : bytes) (address_len port : Z) : outcome bytes :=
  address_str ← IPAddressToString address address_len;
  if address_len =? kIPv6AddressSize then Ret ([ch#"["] ++ c_str address_str ++ [ch#"]"; ch#":"] ++ printf_d port)
  else Ret (c_str address_str ++ [ch#":"] ++ printf_d port).
(** Of an [IPAddressNumber]; [front()] of an empty vector is outside it. *)
Definition front_ok {A} (addr : bytes) (k : outcome A) : outcome A := guard_or (negb (bool_decide (addr = []))) OutOfBounds k.
Definition NumberToString (addr : bytes) : outcome bytes := front_ok addr (IPAddressToString addr (zlen addr)).
Definition NumberToStringWithPort (addr : bytes) (port : Z) : outcome bytes := front_ok addr (IPAddressToStringWithPort addr (zlen addr) port).
Definition IPAddressToPackedString (addr : bytes) : outcome bytes := front_ok addr (Ret addr).

(** * Socket addresses *)
Definition sa_family (sa : bytes) : outcome Z := f ← mem_read sa 0 2; Ret (host_val little f).
(** The address and the port. *)
Definition GetIPAddressFromSockAddr (sock_addr : bytes) (sock_addr_len : Z) : outcome (option (bytes * Z)) :=
  family ← sa_family sock_addr;
  if family =? AF_INET then
    if sock_addr_len <? kSockaddrInSize then Ret None
    else port ← mem_read sock_addr 2 2; address ← mem_read sock_addr 4 kIPv4AddressSize; Ret (Some (address, NetToHost little 2 (host_val little port)))
  else if family =? AF_INET6 then
    if sock_addr_len <? kSockaddrIn6Size then Ret None
    else port ← mem_read sock_addr 2 2; address ← mem_read sock_addr 8 kIPv6AddressSize; Ret (Some (address, NetToHost little 2 (host_val little port)))
  else Ret None.
Definition NetAddressToString (sa : bytes) (sock_addr_len : Z) : outcome bytes :=
  r ← GetIPAddressFromSockAddr sa sock_addr_len;
  match r with Some (address, _) => IPAddressToString address (zlen address) | None => DCHECK dcheck_on false (Ret []) end.
Definition NetAddressToStringWithPort (sa : bytes) (sock_addr_len : Z) : outcome bytes :=
  r ← GetIPAddressFromSockAddr sa sock_addr_len;
  match r with Some (address, port) => IPAddressToStringWithPort address (zlen address) port | None => DCHECK dcheck_on false (Ret []) end.
Definition GetPortFieldFromSockaddr (address : bytes) (address_len : Z) : outcome (option Z) :=
  family ← sa_family address;
  if family =? AF_INET then DCHECK dcheck_on (kSockaddrInSize <=? u64 address_len) (f ← mem_read address 2 2; Ret (Some (host_val little f)))
  else if family =? AF_INET6 then DCHECK dcheck_on (kSockaddrIn6Size <=? u64 address_len) (f ← mem_read address 2 2; Ret (Some (host_val little f)))
  else DCHECK dcheck_on false (Ret None).
Definition GetPortFromSockaddr (address : bytes) (address_len : Z) : outcome Z :=
  port_field ← GetPortFieldFromSockaddr address address_len;
  Ret (match port_field with None => -1 | Some f => NetToHost little 2 f end).

(** ** [IPEndPoint] *)
Record IPEndPoint := EndPoint { address_ : bytes; port_ : Z }.
Definition GetAddressFamily (address : bytes) : AddressFamily :=
  if zlen address =? kIPv4AddressSize then ADDRESS_FAMILY_IPV4 else if zlen address =? kIPv6AddressSize then ADDRESS_FAMILY_IPV6 else ADDRESS_FAMILY_UNSPECIFIED.
Definition ConvertAddressFamily (f : AddressFamily) : Z := match f with ADDRESS_FAMILY_UNSPECIFIED => AF_UNSPEC | ADDRESS_FAMILY_IPV4 => AF_INET | ADDRESS_FAMILY_IPV6 => AF_INET6 end.
Definition GetFamily (e : IPEndPoint) : AddressFamily := GetAddressFamily (address_ e).
Definition GetSockAddrFamily (e : IPEndPoint) : outcome Z :=
  if zlen (address_ e) =? kIPv4AddressSize then Ret AF_INET else if zlen (address_ e) =? kIPv6AddressSize then Ret AF_INET6 else DCHECK dcheck_on false (Ret AF_UNSPEC).
(** [address] is the memory; the length is given and taken back. *)
Definition ToSockAddr (address : bytes) (address_length : Z) (e : IPEndPoint) : outcome (bool * bytes * Z) :=
  if zlen (address_ e) =? kIPv4AddressSize then
    if address_length <? kSockaddrInSize then Ret (false, address, address_length)
    else
      m ← mem_write address 0 (replicate (Z.to_nat kSockaddrInSize) 0);
      m ← mem_write m 0 (host_bytes little 2 AF_INET);
      m ← mem_write m 2 (host_bytes little 2 (HostToNet little 2 (u16 (port_ e))));
      m ← mem_write m 4 (address_ e);
      Ret (true, m, kSockaddrInSize)
  else if zlen (address_ e) =? kIPv6AddressSize then
    if address_length <? kSockaddrIn6Size then Ret (false, address, address_length)
    else
      m ← mem_write address 0 (replicate (Z.to_nat kSockaddrIn6Size) 0);
      m ← mem_write m 0 (host_bytes little 2 AF_INET6);
      m ← mem_write m 2 (host_bytes little 2 (HostToNet little 2 (u16 (port_ e))));
      m ← mem_write m 8 (address_ e);
      Ret (true, m, kSockaddrIn6Size)
  else Ret (false, address, address_length).
Definition FromSockAddr (sock_addr : bytes) (sock_addr_len : Z) (e : IPEndPoint) : outcome (bool * IPEndPoint) :=
  r ← GetIPAddressFromSockAddr sock_addr sock_addr_len;
  Ret (match r with None => (false, e) | Some (address, port) => (true, EndPoint address port) end).
Definition ToString (e : IPEndPoint) : outcome bytes := NumberToStringWithPort (address_ e) (u16 (port_ e)).
Definition ToStringWithoutPort (e : IPEndPoint) : outcome bytes := NumberToString (address_ e).
(** [operator<] of vectors of bytes. *)
Fixpoint bytes_lt (a b : bytes) : bool :=
  match a, b with [], [] => false | [], _ :: _ => true | _ :: _, [] => false | x :: a, y :: b => (x <? y) || ((x =? y) && bytes_lt a b) end.
Definition endpoint_lt (this that : IPEndPoint) : bool :=
  if negb (zlen (address_ this) =? zlen (address_ that)) then zlen (address_ this) <? zlen (address_ that)
  else if negb (bool_decide (address_ this = address_ that)) then bytes_lt (address_ this) (address_ that)
  else port_ this <? port_ that.
Definition endpoint_eq (this that : IPEndPoint) : bool := bool_decide (address_ this = address_ that) && (port_ this =? port_ that).

(** ** [HostPortPair] *)
Record HostPortPair := HostPort { host_ : bytes; hp_port : Z }.
Definition no_host_port : HostPortPair := HostPort [] 0.
Definition FromIPEndPoint (ipe : IPEndPoint) : outcome HostPortPair := h ← ToStringWithoutPort ipe; Ret (HostPort h (u16 (port_ ipe))).
Definition FromString (str : bytes) : outcome HostPortPair :=
  key_port ← SplitString dcheck_on str (ch#":");
  match key_port with
  | [key; port_text] =>
      let '(ok, port) := StringToInt port_text 0 in
      if negb ok then Ret no_host_port else DCHECK dcheck_on (port <? Z.shiftl 1 16) (Ret (HostPort key (u16 port)))
  | _ => Ret no_host_port
  end.
(** [LOG(DFATAL)] ends a debug build. *)
Definition HostForURL (p : HostPortPair) : outcome bytes :=
  DCHECK dcheck_on (negb (is_in (host_ p) 0)) (
  if is_in (host_ p) (ch#":") then DCHECK dcheck_on (negb (znth (host_ p) 0 =? ch#"[")) (Ret ([ch#"["] ++ c_str (host_ p) ++ [ch#"]"]))
  else Ret (host_ p)).
Definition HostPort_ToString (p : HostPortPair) : outcome bytes := h ← HostForURL p; Ret (c_str h ++ [ch#":"] ++ printf_d (hp_port p)).
Definition host_port_lt (this other : HostPortPair) : bool :=
  if negb (hp_port this =? hp_port other) then hp_port this <? hp_port other else bytes_lt (host_ this) (host_ other).

(** * Prefixes *)
Fixpoint same_bytes (ip_number ip_prefix : bytes) (idx : list nat) : outcome bool :=
  match idx with
  | [] => Ret true
  | i :: idx => a ← at_index ip_number (Z.of_nat i); b ← at_index ip_prefix (Z.of_nat i); if negb (a =? b) then Ret false else same_bytes ip_number ip_prefix idx
  end.
Definition IPNumberPrefixCheck (ip_number ip_prefix : bytes) (prefix_length_in_bits : Z) : outcome bool :=
  let num_entire_bytes_in_prefix := s32 (prefix_length_in_bits / 8) in
  same ← same_bytes ip_number ip_prefix (seq 0 (Z.to_nat num_entire_bytes_in_prefix));
  if negb same then Ret false
  else
    let remaining_bits := prefix_length_in_bits mod 8 in
    if negb (remaining_bits =? 0) then
      let mask := u8 (Z.shiftl 0xFF (8 - remaining_bits)) in
      a ← at_index ip_number num_entire_bytes_in_prefix; b ← at_index ip_prefix num_entire_bytes_in_prefix;
      Ret (Z.land a mask =? Z.land b mask)
    else Ret true.
Definition kIPv4MappedPrefix : bytes := [0; 0; 0; 0; 0; 0; 0; 0; 0; 0; 0xFF; 0xFF].
Definition ConvertIPv4NumberToIPv6Number (ipv4_number : bytes) : outcome bytes := DCHECK dcheck_on (zlen ipv4_number =? 4) (Ret (kIPv4MappedPrefix ++ ipv4_number)).
Definition IsIPv4Mapped (address : bytes) : bool := if negb (zlen address =? kIPv6AddressSize) then false else bool_decide (take 12 address = kIPv4MappedPrefix).
Definition ConvertIPv4MappedToIPv4 (address : bytes) : outcome bytes := DCHECK dcheck_on (IsIPv4Mapped address) (Ret (drop 12 address)).
(** [IPNumberMatchesPrefix], which calls itself with addresses of one size. *)
Fixpoint matches_prefix (fuel : nat) (ip_number ip_prefix : bytes) (prefix_length_in_bits : Z) : outcome bool :=
  match fuel with
  | O => Fault OutOfFuel
  | S fuel =>
      DCHECK dcheck_on ((zlen ip_number =? 4) || (zlen ip_number =? 16)) (DCHECK dcheck_on ((zlen ip_prefix =? 4) || (zlen ip_prefix =? 16)) (
      DCHECK dcheck_on (prefix_length_in_bits <=? zlen ip_prefix * 8) (
      if negb (zlen ip_number =? zlen ip_prefix) then
        if zlen ip_number =? 4 then n ← ConvertIPv4NumberToIPv6Number ip_number; matches_prefix fuel n ip_prefix prefix_length_in_bits
        else n ← ConvertIPv4NumberToIPv6Number ip_prefix; matches_prefix fuel ip_number n (u64 (96 + prefix_length_in_bits))
      else IPNumberPrefixCheck ip_number ip_prefix prefix_length_in_bits)))
  end.
Definition IPNumberMatchesPrefix : bytes -> bytes -> Z -> outcome bool := matches_prefix 2.
(** The first bit from [j] on in which the byte [diff] is one. *)
Fixpoint first_bit (fuel : nat) (diff j : Z) : option Z :=
  match fuel with O => None | S fuel => if negb (Z.land diff 0x80 =? 0) then Some j else first_bit fuel (u32 (Z.shiftl diff 1)) (j + 1) end.
Fixpoint common_prefix (a1 a2 : bytes) (i : Z) : outcome Z :=
  match a1 with
  | [] => Ret (i * 8)
  | x :: a1 =>
      match a2 with
      | [] => Fault OutOfBounds
      | y :: a2 =>
          let diff := Z.lxor x y in
          if diff =? 0 then common_prefix a1 a2 (i + 1)
          else match first_bit 8 diff 0 with Some j => Ret (u32 (i * 8 + j)) | None => DCHECK dcheck_on false (common_prefix a1 a2 (i + 1)) end
      end
  end.
Definition CommonPrefixLength (a1 a2 : bytes) : outcome Z := DCHECK dcheck_on (zlen a1 =? zlen a2) (common_prefix a1 a2 0).
Definition MaskPrefixLength (mask : bytes) : outcome Z := CommonPrefixLength mask (replicate (length mask) 0xFF).
(** Addresses with the length of the prefix as the last element. *)
Definition kReservedIPv4 : list bytes :=
  [[0; 0; 0; 0; 8]; [10; 0; 0; 0; 8]; [100; 64; 0; 0; 10]; [127; 0; 0; 0; 8]; [169; 254; 0; 0; 16]; [172; 16; 0; 0; 12]; [192; 0; 2; 0; 24];
   [192; 88; 99; 0; 24]; [192; 168; 0; 0; 16]; [198; 18; 0; 0; 15]; [198; 51; 100; 0; 24]; [203; 0; 113; 0; 24]; [224; 0; 0; 0; 3]].
Definition kReservedIPv6 : list bytes :=
  [[0; 0; 0; 0; 0; 0; 0; 0; 0; 0; 0; 0; 0; 0; 0; 0; 8]; [0x40; 0; 0; 0; 0; 0; 0; 0; 0; 0; 0; 0; 0; 0; 0; 0; 2]; [0x80; 0; 0; 0; 0; 0; 0; 0; 0; 0; 0; 0; 0; 0; 0; 0; 2];
   [0xc0; 0; 0; 0; 0; 0; 0; 0; 0; 0; 0; 0; 0; 0; 0; 0; 3]; [0xe0; 0; 0; 0; 0; 0; 0; 0; 0; 0; 0; 0; 0; 0; 0; 0; 4]; [0xf0; 0; 0; 0; 0; 0; 0; 0; 0; 0; 0; 0; 0; 0; 0; 0; 5];
   [0xf8; 0; 0; 0; 0; 0; 0; 0; 0; 0; 0; 0; 0; 0; 0; 0; 6]; [0xfc; 0; 0; 0; 0; 0; 0; 0; 0; 0; 0; 0; 0; 0; 0; 0; 7]; [0xfe; 0; 0; 0; 0; 0; 0; 0; 0; 0; 0; 0; 0; 0; 0; 0; 9];
   [0xfe; 0x80; 0; 0; 0; 0; 0; 0; 0; 0; 0; 0; 0; 0; 0; 0; 10]; [0xfe; 0xc0; 0; 0; 0; 0; 0; 0; 0; 0; 0; 0; 0; 0; 0; 0; 10]].
Fixpoint reserved_loop (host_addr : bytes) (ranges : list bytes) (width : Z) : outcome bool :=
  match ranges with
  | [] => Ret false
  | array :: ranges => n ← at_index array (width - 1); b ← IPNumberPrefixCheck host_addr array n; if (b : bool) then Ret true else reserved_loop host_addr ranges width
  end.
Definition IsIPAddressReserved (host_addr : bytes) : outcome bool :=
  let width := zlen host_addr + 1 in
  if zlen host_addr =? kIPv4AddressSize then reserved_loop host_addr kReservedIPv4 width
  else if zlen host_addr =? kIPv6AddressSize then reserved_loop host_addr kReservedIPv6 width
  else Ret false.

(** ** [AddressList] *)
Record AddressList := Addresses { canonical_name : bytes; endpoints : list IPEndPoint }.
Definition push_back (l : AddressList) (e : IPEndPoint) : AddressList := Addresses (canonical_name l) (endpoints l ++ [e]).
Definition set_canonical_name (l : AddressList) (name : bytes) : AddressList := Addresses name (endpoints l).
Definition new_AddressList (e : IPEndPoint) : AddressList := push_back (Addresses [] []) e.
Definition CreateFromIPAddress (address : bytes) (port : Z) : AddressList := new_AddressList (EndPoint address (u16 port)).
Definition CreateFromIPAddressList (addresses : list bytes) (name : bytes) : AddressList :=
  fold_left (fun l a => push_back l (EndPoint a 0)) addresses (set_canonical_name (Addresses [] []) name).
(** An [addrinfo] is its name, where it has one, and its address with the length. *)
Fixpoint addrinfo_loop (infos : list (bytes * Z)) (l : AddressList) : outcome AddressList :=
  match infos with
  | [] => Ret l
  | (addr, addrlen) :: infos => r ← FromSockAddr addr addrlen (EndPoint [] 0); addrinfo_loop infos (if r.1 : bool then push_back l r.2 else l)
  end.
Definition CreateFromAddrinfo (ai_canonname : option bytes) (infos : list (bytes * Z)) : outcome AddressList :=
  DCHECK dcheck_on (negb (bool_decide (infos = []))) (
  addrinfo_loop infos (match ai_canonname with Some name => set_canonical_name (Addresses [] []) (c_str name) | None => Addresses [] [] end)).
Definition CopyWithPort (list : AddressList) (port : Z) : AddressList :=
  fold_left (fun out e => push_back out (EndPoint (address_ e) (u16 port))) (endpoints list) (set_canonical_name (Addresses [] []) (canonical_name list)).
Definition SetDefaultCanonicalName (l : AddressList) : outcome AddressList :=
  DCHECK dcheck_on (negb (bool_decide (endpoints l = []))) (
  match endpoints l with [] => Fault OutOfBounds | e :: _ => name ← ToStringWithoutPort e; Ret (set_canonical_name l name) end).
End Checked.

(** * Ports *)
Definition kRestrictedPorts : list Z :=
  [1; 7; 9; 11; 13; 15; 17; 19; 20; 21; 22; 23; 25; 37; 42; 43;
   53; 77; 79; 87; 95; 101; 102; 103; 104; 109; 110; 111; 113; 115; 117; 119;
   123; 135; 139; 143; 179; 389; 465; 512; 513; 514; 515; 526; 530; 531; 532; 540;
   556; 563; 587; 601; 636; 993; 995; 2049; 3659; 4045; 6000; 6665; 6666; 6667; 6668; 6669;
   0xFFFF].
Definition kAllowedFtpPorts : list Z := [21; 22].
(** [g_explicitly_allowed_ports], a multiset in order. *)
Definition IsPortAllowedByDefault (port : Z) : bool := negb (existsb (fun p => p =? port) kRestrictedPorts).
Definition IsPortAllowedByFtp (port : Z) : bool := if existsb (fun p => p =? port) kAllowedFtpPorts then true else IsPortAllowedByDefault port.
Definition GetCountOfExplicitlyAllowedPorts (allowed : list Z) : Z := zlen allowed.
Definition IsPortAllowedByOverride (port : Z) (allowed : list Z) : bool :=
  if bool_decide (allowed = []) then false else 0 <? zlen (filter (fun p => p = port) allowed).
Fixpoint multiset_insert (x : Z) (l : list Z) : list Z := match l with [] => [x] | y :: l => if x <? y then x :: y :: l else y :: multiset_insert x l end.
Fixpoint multiset_erase (x : Z) (l : list Z) : option (list Z) := match l with [] => None | y :: l => if x =? y then Some l else cons y <$> multiset_erase x l end.
(** The loop of [SetExplicitlyAllowedPorts] at [i]: [None] when it returns before the
    end. *)
Fixpoint allowed_loop (allowed_ports l : bytes) (i last : Z) (ports : list Z) : option (list Z) :=
  let cut := if last <? i then multiset_insert (StringToInt (zslice last (i - last) allowed_ports) 0).2 ports else ports in
  match l with
  | [] => Some cut
  | c :: l =>
      if negb (IsAsciiDigit c) && negb (c =? ch#",") then None
      else if c =? ch#"," then allowed_loop allowed_ports l (i + 1) (i + 1) cut
      else allowed_loop allowed_ports l (i + 1) last ports
  end.
Definition SetExplicitlyAllowedPorts (allowed_ports : bytes) (allowed : list Z) : list Z :=
  if bool_decide (allowed_ports = []) then allowed else default allowed (allowed_loop allowed_ports allowed_ports 0 0 []).
Definition ScopedPortException (port : Z) (allowed : list Z) : list Z := multiset_insert port allowed.
Definition end_ScopedPortException (dcheck_on : bool) (port : Z) (allowed : list Z) : outcome (list Z) :=
  match multiset_erase port allowed with Some l => Ret l | None => DCHECK dcheck_on false (Ret allowed) end.

(** * Headers and hosts *)
(** [std::search] without regard to case: what is from the match on. *)
Fixpoint is_prefix_ci (a l : bytes) : bool :=
  match a, l with [], _ => true | x :: a, y :: l => CaseInsensitiveCompareASCII y x && is_prefix_ci a l | _, [] => false end.
Fixpoint search_ci (a l : bytes) : option bytes :=
  if is_prefix_ci a l then Some l else match l with [] => None | _ :: l => search_ci a l end.
Fixpoint until (c : Z) (l : bytes) : bytes := match l with [] => [] | x :: l => if x =? c then [] else x :: until c l end.
Definition GetSpecificHeader (headers name : bytes) : bytes :=
  if bool_decide (headers = []) then []
  else
    let match_ := [10] ++ name ++ [ch#":"] in
    match search_ci match_ headers with
    | None => []
    | Some begin => if bool_decide (begin = []) then [] else (TrimWhitespace (until 10 (drop (length match_) begin)) TRIM_ALL).2
    end.
Definition IsHostCharAlphanumeric (c : Z) : bool := ((ch#"a" <=? c) && (c <=? ch#"z")) || ((ch#"0" <=? c) && (c <=? ch#"9")).
(** The loop: whether the last component started with a letter or a digit. *)
Fixpoint host_loop (host : bytes) (in_component started_alphanumeric last_underscore : bool) : option bool :=
  match host with
  | [] => Some started_alphanumeric
  | c :: host =>
      if negb in_component then
        if negb (IsHostCharAlphanumeric c) && negb (c =? ch#"-") then None else host_loop host true (IsHostCharAlphanumeric c) last_underscore
      else if c =? ch#"." then if last_underscore then None else host_loop host false started_alphanumeric last_underscore
      else if IsHostCharAlphanumeric c || (c =? ch#"-") then host_loop host true started_alphanumeric false
      else if c =? ch#"_" then host_loop host true started_alphanumeric true
      else None
  end.
Definition IsCanonicalizedHostCompliant (host desired_tld : bytes) : bool :=
  if bool_decide (host = []) then false
  else match host_loop host false false false with None => false | Some s => s || (negb (bool_decide (desired_tld = [])) && IsHostCharAlphanumeric (znth desired_tld 0)) end.

Example ipv6_is_decimal : NumberToString true [0x20; 1; 0x0d; 0xb8; 0; 0; 0; 0; 0; 0; 0; 0; 0; 0; 0; 1] = Ret (str#"8193:3512::1").
Proof. vm_compute. reflexivity. Qed.
Example reserved_1 : map (IsIPAddressReserved) [[172; 31; 1; 2]; [172; 32; 1; 2]; [0x20; 1; 0; 0; 0; 0; 0; 0; 0; 0; 0; 0; 0; 0; 0; 1]] = [Ret true; Ret false; Ret false].
Proof. vm_compute. reflexivity. Qed.
Example header_1 : GetSpecificHeader (str#"HTTP/1.1 200 OK" ++ [10] ++ str#"etag: x" ++ [10] ++ str#"Content-Type:  text/html " ++ [10]) (str#"content-type") = str#"text/html".
Proof. vm_compute. reflexivity. Qed.
Example ports_1 : SetExplicitlyAllowedPorts (str#"99,2,,80") [7] = [2; 80; 99] /\ SetExplicitlyAllowedPorts (str#"1 ,2") [7] = [7].
Proof. vm_compute. done. Qed.
