(* ===== verification/NetAddressProofs.v ===== *)
(** Socket addresses come back from memory; prefixes are compared bit by bit; the zeros
    left out of an IPv6 address are the longest; ports and hosts come back from text. *)
From Stdlib Require Import ZArith Lia Bool Ascii String.
From stdpp Require Import base list numbers.
From S2P Require Import Prelude SysByteorder Numbers Strings StringsProofs IpPattern PickleProofs NetAddress.
From S2P Require HttpTypes HttpMessages HttpServer HttpServerProofs.

Open Scope Z_scope.

(** * Socket addresses *)
Definition endpoint_ok (e : IPEndPoint) : Prop := (zlen (address_ e) = 4 \/ zlen (address_ e) = 16) /\ 0 <= port_ e < 2 ^ 16.
Definition sockaddr_size (e : IPEndPoint) : Z := if zlen (address_ e) =? 4 then kSockaddrInSize else kSockaddrIn6Size.
Lemma length_host2 little x : length (host_bytes little 2 x) = 2%nat.
Proof. unfold host_bytes. destruct little; [apply length_le_bytes|apply length_be_bytes]. Qed.
Lemma host_val2 little x : 0 <= x < 2 ^ 16 -> host_val little (host_bytes little 2 x) = x.
Proof. intros Hx. unfold host_val, host_bytes. destruct little; rewrite ?le_val_bytes, ?be_val_bytes; by apply Z.mod_small. Qed.
Lemma port_back little p : 0 <= p < 2 ^ 16 -> NetToHost little 2 (host_val little (host_bytes little 2 (HostToNet little 2 (u16 p)))) = p.
Proof.
  intros Hp. rewrite (uwrap_small 16) by done. assert (scalar_width 2) as Hw by (unfold scalar_width; auto). rewrite host_HostToNet by (done || exact Hp).
  rewrite (NetToHost_host little 2 Hw (be_bytes 2 p)) by (apply length_be_bytes || apply be_bytes_bytes). rewrite be_val_bytes. by apply Z.mod_small.
Qed.
(** The memory after the four writes. *)
Definition sockaddr_image (little : bool) (family port : Z) (gap address tail : bytes) : bytes := host_bytes little 2 family ++ host_bytes little 2 (HostToNet little 2 (u16 port)) ++ gap ++ address ++ tail.
Lemma four_writes little family port gap address tail x0 x1 rest off : length x0 = 2%nat -> length x1 = 2%nat -> off = 4 + zlen gap ->
  (m ← mem_write (x0 ++ x1 ++ gap ++ replicate (length address) 0 ++ tail ++ rest) 0 (host_bytes little 2 family);
   m ← mem_write m 2 (host_bytes little 2 (HostToNet little 2 (u16 port)));
   mem_write m off address) = Ret (sockaddr_image little family port gap address tail ++ rest).
Proof.
  intros H0 H1 ->. rewrite write_front by (by rewrite length_host2). obind. rewrite write_middle by (rewrite ?length_host2; unfold zlen; rewrite ?length_host2; lia). obind.
  set (a := host_bytes little 2 family). set (b := host_bytes little 2 _). assert (length a = 2%nat /\ length b = 2%nat) as [La Lb] by (split; apply length_host2).
  assert (a ++ b ++ gap ++ replicate (length address) 0 ++ tail ++ rest = (a ++ b ++ gap) ++ replicate (length address) 0 ++ (tail ++ rest)) as -> by (by rewrite <- !app_assoc).
  rewrite write_middle by (rewrite ?length_replicate, ?zlen_app; unfold zlen; lia). unfold sockaddr_image. fold a b. by rewrite <- !app_assoc.
Qed.
Lemma image_reads little family port gap address tail rest off : 0 <= family < 2 ^ 16 -> off = 4 + zlen gap -> let m := sockaddr_image little family port gap address tail ++ rest in
  sa_family little m = Ret family /\ mem_read m 2 2 = Ret (host_bytes little 2 (HostToNet little 2 (u16 port))) /\ mem_read m off (zlen address) = Ret address.
Proof.
  intros Hf -> m. unfold m, sockaddr_image. set (a := host_bytes little 2 family). set (b := host_bytes little 2 _). assert (length a = 2%nat /\ length b = 2%nat) as [La Lb] by (split; apply length_host2). unfold sa_family. rewrite <- !app_assoc. split; [|split].
  - rewrite read_front by (unfold zlen; lia). obind. f_equal. by apply host_val2.
  - apply read_middle; unfold zlen; lia.
  - assert (a ++ b ++ gap ++ address ++ tail ++ rest = (a ++ b ++ gap) ++ address ++ tail ++ rest) as -> by (by rewrite <- !app_assoc). apply read_middle; [rewrite !zlen_app; unfold zlen; lia|done].
Qed.
Lemma zero_block m n : 0 <= n <= zlen m -> mem_write m 0 (replicate (Z.to_nat n) 0) = Ret (replicate (Z.to_nat n) 0 ++ drop (Z.to_nat n) m).
Proof. intros Hn. rewrite <- (take_drop (Z.to_nat n) m) at 1. apply write_front. rewrite length_replicate, length_take. unfold zlen in Hn. lia. Qed.

(** An address travels through a [sockaddr]: on a host of either byte order
    [ToSockAddr] refuses exactly a length too short for the family and then leaves the
    memory alone; else it writes only the structure, and [FromSockAddr] and
    [GetPortFromSockaddr] read the address and the port back from it. *)
Theorem sockaddr_roundtrip dcheck_on little e mem len : endpoint_ok e -> 0 <= len <= zlen mem ->
  (len < sockaddr_size e -> ToSockAddr little mem len e = Ret (false, mem, len)) /\
  (sockaddr_size e <= len -> exists m, ToSockAddr little mem len e = Ret (true, m, sockaddr_size e) /\
     drop (Z.to_nat (sockaddr_size e)) m = drop (Z.to_nat (sockaddr_size e)) mem /\ zlen m = zlen mem /\
     (forall e0, FromSockAddr little m (sockaddr_size e) e0 = Ret (true, e)) /\ GetPortFromSockaddr dcheck_on little m (sockaddr_size e) = Ret (port_ e)).
Proof.
  intros [Ha Hp] Hlen. unfold sockaddr_size, ToSockAddr, FromSockAddr, GetPortFromSockaddr, GetPortFieldFromSockaddr, GetIPAddressFromSockAddr, kIPv4AddressSize, kIPv6AddressSize. destruct e as [a p]. cbn [address_ port_] in *.
  assert (forall family gap tail off size, 0 <= family < 2 ^ 16 -> off = 4 + zlen gap -> size = off + zlen a + zlen tail -> size <= len ->
    replicate (Z.to_nat size) 0 = [0; 0] ++ [0; 0] ++ gap ++ replicate (length a) 0 ++ tail -> exists m,
    (m ← mem_write mem 0 (replicate (Z.to_nat size) 0); m ← mem_write m 0 (host_bytes little 2 family); m ← mem_write m 2 (host_bytes little 2 (HostToNet little 2 (u16 p))); m ← mem_write m off a; Ret (true, m, size)) = Ret (true, m, size) /\
    drop (Z.to_nat size) m = drop (Z.to_nat size) mem /\ zlen m = zlen mem /\ sa_family little m = Ret family /\ mem_read m 2 2 = Ret (host_bytes little 2 (HostToNet little 2 (u16 p))) /\ mem_read m off (zlen a) = Ret a) as Hw.
  { intros family gap tail off size Hf Ho Hs Hl Hz. pose proof (zlen_nonneg gap). pose proof (zlen_nonneg a). pose proof (zlen_nonneg tail). rewrite zero_block by lia. obind. rewrite Hz, <- !app_assoc.
    pose proof (four_writes little family p gap a tail [0; 0] [0; 0] (drop (Z.to_nat size) mem) off eq_refl eq_refl Ho) as H4. set (m := sockaddr_image little family p gap a tail ++ drop (Z.to_nat size) mem) in *. exists m.
    assert (zlen (sockaddr_image little family p gap a tail) = size) as Hi by (unfold sockaddr_image; rewrite !zlen_app; unfold zlen in *; rewrite !length_host2; lia).
    destruct (image_reads little family p gap a tail (drop (Z.to_nat size) mem) off Hf Ho) as (R1 & R2 & R3). fold m in R1, R2, R3. split.
    - destruct (mem_write _ 0 _) as [m1|]; [|done]. revert H4. obind. destruct (mem_write m1 2 _) as [m2|]; [|done]. obind. destruct (mem_write m2 off a) as [m3|]; [|done]. intros [= ->]. done.
    - split; [unfold m; rewrite drop_app_ge by (unfold zlen in *; lia); replace (Z.to_nat size - length (sockaddr_image little family p gap a tail))%nat with 0%nat by (unfold zlen in *; lia); done|].
      split; [unfold m; rewrite zlen_app, Hi; unfold zlen in *; rewrite length_drop; lia|done]. }
  destruct Ha as [Ha|Ha]; rewrite Ha; cbn [Z.eqb Pos.eqb].
  - split; [intros Hl; by rewrite (proj2 (Z.ltb_lt _ _) Hl)|]. intros Hl. rewrite (proj2 (Z.ltb_ge _ _) Hl). destruct (Hw AF_INET [] (replicate 8 0) 4 kSockaddrInSize) as (m & E & D & L & R1 & R2 & R3); [done|done|by rewrite Ha|done|unfold zlen in Ha; by replace (length a) with 4%nat by lia|].
    exists m. rewrite E, R1. obind. change (AF_INET =? AF_INET) with true. change (kSockaddrInSize <? kSockaddrInSize) with false. cbv iota. rewrite Ha in R3. rewrite R2, R3. obind. rewrite DCHECK_true by done. obind. rewrite port_back by done. done.
  - split; [intros Hl; by rewrite (proj2 (Z.ltb_lt _ _) Hl)|]. intros Hl. rewrite (proj2 (Z.ltb_ge _ _) Hl). destruct (Hw AF_INET6 (replicate 4 0) (replicate 4 0) 8 kSockaddrIn6Size) as (m & E & D & L & R1 & R2 & R3); [done|done|by rewrite Ha|done|unfold zlen in Ha; by replace (length a) with 16%nat by lia|].
    exists m. rewrite E, R1. obind. change (AF_INET6 =? AF_INET) with false. change (AF_INET6 =? AF_INET6) with true. change (kSockaddrIn6Size <? kSockaddrIn6Size) with false. cbv iota. rewrite Ha in R3. rewrite R2, R3. obind. rewrite DCHECK_true by done. obind. rewrite port_back by done. done.
Qed.
Lemma sockaddr_roundtrip_witness : exists m, ToSockAddr true (replicate 20 7) 16 (EndPoint [192; 168; 0; 1] 8080) = Ret (true, m, 16) /\ FromSockAddr true m 16 (EndPoint [] 0) = Ret (true, EndPoint [192; 168; 0; 1] 8080).
Proof.
  destruct (sockaddr_roundtrip true true (EndPoint [192; 168; 0; 1] 8080) (replicate 20 7) 16) as [_ H].
  - split; [by left|cbn; lia].
  - vm_compute. split; discriminate.
  - destruct H as (m & E & _ & _ & F & _); [reflexivity|]. exists m. split; [exact E|apply F].
Defined.

(** * Prefixes *)
(** The bits of an address, the first of the first byte first. *)
Definition byte_bits (x : Z) : list bool := map (fun j => Z.testbit x (7 - Z.of_nat j)) (seq 0 8).
Definition address_bits (a : bytes) : list bool := concat (map byte_bits a).
(** The first [n] bits are the same. *)
Definition agree (n : Z) (a b : bytes) : bool := bool_decide (take (Z.to_nat n) (address_bits a) = take (Z.to_nat n) (address_bits b)).
Fixpoint common {A} `{EqDecision A} (l k : list A) : nat :=
  match l, k with x :: l, y :: k => if decide (x = y) then S (common l k) else O | _, _ => O end.
Lemma length_byte_bits x : length (byte_bits x) = 8%nat.
Proof. done. Qed.
Lemma length_address_bits a : length (address_bits a) = (8 * length a)%nat.
Proof. induction a as [|x a IH]; [done|]. unfold address_bits in *. cbn [map concat]. rewrite length_app, IH, length_byte_bits. cbn [length]. lia. Qed.
(** Bits that differ are ones of the exclusive or. *)
Lemma byte_bits_lxor x y : byte_bits (Z.lxor x y) = zip_with xorb (byte_bits x) (byte_bits y).
Proof. unfold byte_bits. cbn [map seq zip_with]. by rewrite !Z.lxor_spec. Qed.
Lemma take_lxor r : forall l k : list bool, length l = length k -> (r <= length l)%nat -> take r l = take r k <-> take r (zip_with xorb l k) = replicate r false.
Proof.
  induction r as [|r IH]; intros [|x l] [|y k] Hl Hr; cbn in *; try done; try lia. specialize (IH l k ltac:(lia) ltac:(lia)). split; intros [= E1 E2]; [subst y|]; f_equal; try (by apply IH); [apply xorb_nilpotent|by apply xorb_eq].
Qed.
Lemma common_lxor : forall l k : list bool, length l = length k -> common l k = common (zip_with xorb l k) (replicate (length l) false).
Proof.
  induction l as [|x l IH]; intros [|y k] Hl; cbn in *; try done. destruct (decide (x = y)) as [-> |Hn]; [rewrite xorb_nilpotent; cbn; rewrite IH by lia; done|]. by destruct x, y.
Qed.
Lemma byte_lxor x y : is_byte x -> is_byte y -> is_byte (Z.lxor x y).
Proof.
  intros Hx Hy. unfold is_byte in *. assert (0 <= Z.lxor x y) by (by apply Z.lxor_nonneg; lia). split; [done|]. change 256 with (2 ^ 8). assert (forall z, 0 <= z < 256 -> forall i, 8 <= i -> Z.testbit z i = false) as Hb by (intros z Hz i Hi; rewrite <- (Z.mod_small z (2 ^ 8)) by done; by apply Z.mod_pow2_bits_high).
  assert (Z.lxor x y = Z.lxor x y mod 2 ^ 8) as ->; [|by apply Z.mod_pos_bound]. apply Z.bits_inj'. intros i Hi. destruct (Z.lt_ge_cases i 8); [by rewrite Z.mod_pow2_bits_low|]. by rewrite Z.mod_pow2_bits_high, Z.lxor_spec, !Hb.
Qed.
Lemma land_lxor x y m : (Z.land x m =? Z.land y m) = (Z.land (Z.lxor x y) m =? 0).
Proof.
  assert (Z.land (Z.lxor x y) m = Z.lxor (Z.land x m) (Z.land y m)) as -> by (apply Z.bits_inj'; intros i Hi; rewrite Z.land_spec, !Z.lxor_spec, !Z.land_spec; by destruct (Z.testbit x i), (Z.testbit y i), (Z.testbit m i)).
  apply eq_true_iff_eq. rewrite !Z.eqb_eq, Z.lxor_eq_0_iff. done.
Qed.
Definition mask_ok (d : Z) : bool :=
  forallb (fun r => Bool.eqb (Z.land d (u8 (Z.shiftl 0xFF (8 - Z.of_nat r))) =? 0) (bool_decide (take r (byte_bits d) = replicate r false))) (seq 0 8).
Lemma mask_bits x y r : is_byte x -> is_byte y -> (r < 8)%nat -> (Z.land x (u8 (Z.shiftl 0xFF (8 - Z.of_nat r))) =? Z.land y (u8 (Z.shiftl 0xFF (8 - Z.of_nat r)))) = bool_decide (take r (byte_bits x) = take r (byte_bits y)).
Proof.
  intros Hx Hy Hr. assert (mask_ok (Z.lxor x y) = true) as H by (apply (byte_check mask_ok); [vm_compute; reflexivity|by apply byte_lxor]). unfold mask_ok in H. rewrite forallb_forall in H. specialize (H r ltac:(apply in_seq; lia)). apply eqb_prop in H.
  rewrite land_lxor, H. apply bool_decide_ext. rewrite byte_bits_lxor. symmetry. apply take_lxor; [done|rewrite length_byte_bits; lia].
Qed.
Definition first_bit_ok (d : Z) : bool :=
  bool_decide (first_bit 8 d 0 = (if d =? 0 then None else Some (Z.of_nat (common (byte_bits d) (replicate 8 false))))) && ((d =? 0) || (common (byte_bits d) (replicate 8 false) <? 8)%nat).
Lemma first_bit_common x y : is_byte x -> is_byte y -> first_bit 8 (Z.lxor x y) 0 = (if Z.lxor x y =? 0 then None else Some (Z.of_nat (common (byte_bits x) (byte_bits y)))) /\ ((Z.lxor x y =? 0) = false -> (common (byte_bits x) (byte_bits y) < 8)%nat).
Proof.
  intros Hx Hy. rewrite common_lxor, <- byte_bits_lxor, length_byte_bits by done. assert (first_bit_ok (Z.lxor x y) = true) as H by (apply (byte_check first_bit_ok); [vm_compute; reflexivity|by apply byte_lxor]).
  apply andb_true_iff in H as [H1%bool_decide_eq_true H2]. split; [exact H1|]. intros E. rewrite E in H2. by apply Nat.ltb_lt.
Qed.
Definition zero_bits_ok (d : Z) : bool := implb (bool_decide (byte_bits d = replicate 8 false)) (d =? 0).
Lemma byte_bits_inj x y : is_byte x -> is_byte y -> byte_bits x = byte_bits y -> x = y.
Proof.
  intros Hx Hy E. apply Z.lxor_eq_0_iff. assert (is_byte (Z.lxor x y)) as Hd by (by apply byte_lxor).
  assert (byte_bits (Z.lxor x y) = replicate 8 false) as Ed by (rewrite byte_bits_lxor, E; unfold byte_bits; cbn [map seq zip_with]; by rewrite !xorb_nilpotent).
  assert (zero_bits_ok (Z.lxor x y) = true) as H by (apply (byte_check zero_bits_ok); [vm_compute; reflexivity|done]). unfold zero_bits_ok in H. rewrite bool_decide_eq_true_2 in H by done. by apply Z.eqb_eq.
Qed.
Lemma address_bits_inj a : forall b, all_bytes a -> all_bytes b -> address_bits a = address_bits b -> a = b.
Proof.
  induction a as [|x a IH]; intros [|y b] Ha Hb E; [done|done|done|]. apply Forall_cons_1 in Ha as [Hx Ha]. apply Forall_cons_1 in Hb as [Hy Hb]. unfold address_bits in E. cbn [map concat] in E. apply app_inj_1 in E as [E1 E2]; [|done]. f_equal; [by apply byte_bits_inj|by apply IH].
Qed.
Lemma at_index_ok v i : 0 <= i < zlen v -> at_index v i = Ret (znth v i).
Proof. intros Hi. unfold at_index, znth. rewrite (proj2 (Z.leb_le 0 i)) by lia. destruct (v !! Z.to_nat i) eqn:E; [done|]. apply lookup_ge_None in E. unfold zlen in Hi. lia. Qed.
Lemma drop_nth v i : 0 <= i < zlen v -> drop (Z.to_nat i) v = znth v i :: drop (S (Z.to_nat i)) v.
Proof. intros Hi. unfold znth. destruct (v !! Z.to_nat i) eqn:E; [by apply drop_S|]. apply lookup_ge_None in E. unfold zlen in Hi. lia. Qed.
Lemma same_bytes_spec k : forall a b i, (i + k <= length a)%nat -> (i + k <= length b)%nat -> same_bytes a b (seq i k) = Ret (bool_decide (take k (drop i a) = take k (drop i b))).
Proof.
  induction k as [|k IH]; intros a b i Ha Hb; [done|]. cbn [seq same_bytes]. rewrite !at_index_ok by (unfold zlen; lia). obind.
  pose proof (drop_nth a (Z.of_nat i) ltac:(unfold zlen; lia)) as Da. pose proof (drop_nth b (Z.of_nat i) ltac:(unfold zlen; lia)) as Db. rewrite Nat2Z.id in Da, Db. rewrite Da, Db. cbn [firstn].
  destruct (Z.eqb_spec (znth a (Z.of_nat i)) (znth b (Z.of_nat i))) as [E|E]; cbn [negb].
  - rewrite IH by lia. rewrite E. f_equal. apply bool_decide_ext. split; [by intros ->|by intros [= ->]].
  - f_equal. symmetry. apply bool_decide_eq_false. by intros [= E' _].
Qed.
Lemma take_bits k r a x rest : length a = k -> (r < 8)%nat -> take (8 * k + r) (address_bits (a ++ x :: rest)) = address_bits a ++ take r (byte_bits x).
Proof.
  intros Ha Hr. unfold address_bits. rewrite map_app, concat_app. cbn [map concat]. fold (address_bits a). rewrite <- Ha, <- length_address_bits, take_app_add. f_equal. apply take_app_le. rewrite length_byte_bits. lia.
Qed.
Lemma take_whole_bits k c : (k <= length c)%nat -> take (8 * k) (address_bits c) = address_bits (take k c).
Proof.
  intros Hc. rewrite <- (take_drop k c) at 1. unfold address_bits at 1. rewrite map_app, concat_app. fold (address_bits (take k c)). assert (length (address_bits (take k c)) = (8 * k)%nat) as <- by (rewrite length_address_bits, length_take; lia). apply take_app_length.
Qed.
Lemma prefix_bits a b n : all_bytes a -> all_bytes b -> zlen a = zlen b -> zlen a < 2 ^ 28 -> 0 <= n <= 8 * zlen a -> IPNumberPrefixCheck a b n = Ret (agree n a b).
Proof.
  intros Ha Hb Hl Hs Hn. unfold IPNumberPrefixCheck, agree. rewrite swrap_small by (powlia || (Z.div_mod_to_equations; powlia)). set (k := Z.to_nat (n / 8)). assert (n = 8 * Z.of_nat k + n mod 8) as En by (unfold k; Z.div_mod_to_equations; lia). assert (0 <= n mod 8 < 8) as Hr by (by apply Z.mod_pos_bound). set (r := Z.to_nat (n mod 8)). assert (n mod 8 = Z.of_nat r) as Er by (unfold r; lia).
  assert (n / 8 = Z.of_nat k) as Ek by (unfold k; Z.div_mod_to_equations; lia). unfold zlen in *. rewrite (same_bytes_spec k a b 0) by lia. obind. change (drop 0 a) with a. change (drop 0 b) with b.
  assert (Forall is_byte (take k a) /\ Forall is_byte (take k b)) as [Hta Htb] by (split; by apply Forall_take). replace (Z.to_nat n) with (8 * k + r)%nat by lia. rewrite Er, Ek.
  destruct (bool_decide_reflect (take k a = take k b)) as [Et|Et]; cbn [negb].
  - destruct (Z.eqb_spec (Z.of_nat r) 0) as [E0|E0]; cbn [negb].
    + f_equal. symmetry. apply bool_decide_eq_true. replace (8 * k + r)%nat with (8 * k)%nat by lia. rewrite !take_whole_bits by lia. by rewrite Et.
    + rewrite !at_index_ok by (unfold zlen; lia). obind. pose proof (drop_nth a (Z.of_nat k) ltac:(unfold zlen; lia)) as Da. pose proof (drop_nth b (Z.of_nat k) ltac:(unfold zlen; lia)) as Db. rewrite Nat2Z.id in Da, Db.
      assert (is_byte (znth a (Z.of_nat k)) /\ is_byte (znth b (Z.of_nat k))) as [Hx Hy].
      { split; [pose proof (Forall_drop _ k _ Ha) as H; rewrite Da in H|pose proof (Forall_drop _ k _ Hb) as H; rewrite Db in H]; by apply Forall_cons_1 in H as [? _]. }
      rewrite mask_bits by (done || lia). f_equal. apply bool_decide_ext. rewrite <- (take_drop k a) at 2. rewrite <- (take_drop k b) at 2. rewrite Da, Db, !take_bits by (rewrite ?length_take; lia). rewrite Et. split; [by intros ->|]. intros E. by apply app_inv_head in E.
  - f_equal. symmetry. apply bool_decide_eq_false. intros E. apply Et. apply address_bits_inj; [done|done|]. apply (f_equal (take (8 * k))) in E. rewrite !take_take, !Nat.min_l in E by lia.
    by rewrite !take_whole_bits in E by lia.
Qed.
Lemma common_app_same {A} `{EqDecision A} (p l k : list A) : common (p ++ l) (p ++ k) = (length p + common l k)%nat.
Proof. induction p as [|x p IH]; [done|]. cbn [app common length]. rewrite decide_True by done. rewrite IH. lia. Qed.
Lemma common_app_less {A} `{EqDecision A} (p q l k : list A) : length p = length q -> (common p q < length p)%nat -> common (p ++ l) (q ++ k) = common p q.
Proof.
  revert q. induction p as [|x p IH]; intros [|y q] Hl Hc; cbn in *; try lia. destruct (decide (x = y)); [|done]. f_equal. apply IH; lia.
Qed.
Lemma take_common {A} `{EqDecision A} n : forall l k : list A, length l = length k -> (n <= length l)%nat -> take n l = take n k <-> (n <= common l k)%nat.
Proof.
  induction n as [|n IH]; intros [|x l] [|y k] Hl Hn; cbn in *; try done; try lia; try (split; [lia|done]). specialize (IH l k ltac:(lia) ltac:(lia)). destruct (decide (x = y)) as [-> |Hne].
  - split; [intros [= E]; apply IH in E; lia|]. intros H. f_equal. apply IH. lia.
  - split; [by intros [= ? _]|lia].
Qed.
Lemma common_le {A} `{EqDecision A} : forall l k : list A, (common l k <= length l)%nat.
Proof. induction l as [|x l IH]; intros [|y k]; cbn; try lia. destruct (decide (x = y)); [|lia]. specialize (IH k). lia. Qed.
Lemma common_prefix_bits dcheck_on a : forall b i, all_bytes a -> all_bytes b -> length a = length b -> 0 <= i -> i + zlen a < 2 ^ 28 ->
  common_prefix dcheck_on a b i = Ret (8 * i + Z.of_nat (common (address_bits a) (address_bits b))).
Proof.
  induction a as [|x a IH]; intros [|y b] i Ha Hb Hl Hi Hs; try done; [cbn; f_equal; lia|]. apply Forall_cons_1 in Ha as [Hx Ha]. apply Forall_cons_1 in Hb as [Hy Hb]. cbn [length] in Hl. rewrite zlen_cons in Hs. pose proof (zlen_nonneg a). cbn [common_prefix].
  change (address_bits (x :: a)) with (byte_bits x ++ address_bits a). change (address_bits (y :: b)) with (byte_bits y ++ address_bits b). destruct (first_bit_common x y Hx Hy) as [E Hlt]. destruct (Z.eqb_spec (Z.lxor x y) 0) as [E0|E0].
  - apply Z.lxor_eq_0_iff in E0 as <-. rewrite common_app_same, length_byte_bits, IH by (done || lia). f_equal. lia.
  - specialize (Hlt eq_refl). rewrite E, common_app_less by (rewrite ?length_byte_bits; lia). rewrite uwrap_small by powlia. f_equal. lia.
Qed.
(** An address among those of IPv6. *)
Definition widen (a : bytes) : bytes := if zlen a =? 4 then kIPv4MappedPrefix ++ a else a.
Definition address_ok (a : bytes) : Prop := all_bytes a /\ (zlen a = 4 \/ zlen a = 16).
Lemma widen_ok a : address_ok a -> all_bytes (widen a) /\ zlen (widen a) = 16.
Proof.
  intros [Hb [Hl|Hl]]; unfold widen; rewrite Hl; cbn [Z.eqb Pos.eqb]; [|done]. split; [apply Forall_app; split; [repeat constructor; unfold is_byte; lia|done]|]. rewrite zlen_app, Hl. done.
Qed.
Lemma match_step dcheck_on fuel a p n : address_ok a -> address_ok p -> n <= 8 * zlen p -> matches_prefix dcheck_on (S fuel) a p n =
  if negb (zlen a =? zlen p) then
    if zlen a =? 4 then m ← ConvertIPv4NumberToIPv6Number dcheck_on a; matches_prefix dcheck_on fuel m p n
    else m ← ConvertIPv4NumberToIPv6Number dcheck_on p; matches_prefix dcheck_on fuel a m (u64 (96 + n))
  else IPNumberPrefixCheck a p n.
Proof. intros [_ La] [_ Lp] Hn. cbn [matches_prefix]. rewrite !DCHECK_true; [done|lia|destruct Lp as [-> | ->]; done|destruct La as [-> | ->]; done]. Qed.
Lemma same_size_bits dcheck_on a b n : all_bytes a -> all_bytes b -> zlen a = 16 -> zlen b = 16 -> 0 <= n <= 128 -> matches_prefix dcheck_on 1 a b n = Ret (agree n a b).
Proof. intros Ha Hb La Lb Hn. rewrite match_step by ((by split; [|right]) || lia). rewrite La, Lb. cbn [Z.eqb Pos.eqb negb]. apply prefix_bits; [done|done|lia|powlia|lia]. Qed.

(** Prefixes are compared bit by bit: an address matches a prefix of [n] bits exactly
    if its first [n] bits are those of the prefix, where an IPv4 address or prefix next to
    one of IPv6 stands for the address mapped to IPv6; two addresses agree on the first
    [n] bits exactly up to [CommonPrefixLength]; no read leaves an address. *)
Theorem prefix_exact dcheck_on a p n : address_ok a -> address_ok p -> 0 <= n <= 8 * zlen p ->
  (zlen a = zlen p -> IPNumberMatchesPrefix dcheck_on a p n = Ret (agree n a p) /\
     exists c, CommonPrefixLength dcheck_on a p = Ret c /\ 0 <= c <= 8 * zlen a /\ agree n a p = (n <=? c)) /\
  (zlen a <> zlen p -> IPNumberMatchesPrefix dcheck_on a p n = Ret (agree (if zlen p =? 4 then 96 + n else n) (widen a) (widen p))).
Proof.
  intros [Ha La] [Hp Lp] Hn. unfold IPNumberMatchesPrefix. rewrite match_step by ((by split) || lia). split.
  - intros El. rewrite El, Z.eqb_refl. cbn [negb]. split; [apply prefix_bits; [done|done|done|destruct La as [-> | ->]; powlia|lia]|]. unfold CommonPrefixLength. rewrite DCHECK_true by (by apply Z.eqb_eq). assert (length a = length p) as Hl by (unfold zlen in El; lia).
    rewrite common_prefix_bits by (done || destruct La as [-> | ->]; powlia). eexists. split; [done|]. pose proof (common_le (address_bits a) (address_bits p)) as Hc. rewrite length_address_bits in Hc. unfold zlen in *. split; [lia|].
    unfold agree. apply eq_true_iff_eq. rewrite bool_decide_eq_true, Z.leb_le, take_common by (rewrite !length_address_bits; lia). lia.
  - intros Hne. rewrite (proj2 (Z.eqb_neq _ _) Hne). cbn [negb]. destruct (widen_ok a (conj Ha La)) as [Wa WLa]. destruct (widen_ok p (conj Hp Lp)) as [Wp WLp]. destruct (Z.eqb_spec (zlen a) 4) as [E4|E4].
    + assert (zlen p = 16) as Lp' by lia. unfold ConvertIPv4NumberToIPv6Number. rewrite DCHECK_true by (by rewrite E4). obind. rewrite Lp'. change (16 =? 4) with false. cbv iota. unfold widen in *. rewrite E4, Lp' in *. cbn [Z.eqb Pos.eqb] in *. apply same_size_bits; first [done|lia].
    + assert (zlen p = 4) as Lp' by lia. assert (zlen a = 16) as La' by lia. unfold ConvertIPv4NumberToIPv6Number. rewrite DCHECK_true by (by rewrite Lp'). obind. rewrite Lp'. cbn [Z.eqb Pos.eqb]. rewrite uwrap_small by powlia. unfold widen in *. rewrite Lp', La' in *. cbn [Z.eqb Pos.eqb] in *. apply same_size_bits; first [done|lia].
Qed.
Lemma prefix_exact_witness : IPNumberMatchesPrefix true [192; 168; 1; 9] [192; 168; 0; 0] 15 = Ret (agree 15 [192; 168; 1; 9] [192; 168; 0; 0]) /\
  IPNumberMatchesPrefix true (kIPv4MappedPrefix ++ [10; 1; 2; 3]) [10; 1; 0; 0] 16 = Ret (agree 112 (kIPv4MappedPrefix ++ [10; 1; 2; 3]) (kIPv4MappedPrefix ++ [10; 1; 0; 0])).
Proof.
  split.
  - destruct (prefix_exact true [192; 168; 1; 9] [192; 168; 0; 0] 15) as [H _]; [split; [repeat constructor; unfold is_byte; lia|by left]..|unfold zlen; cbn; lia|]. apply H. reflexivity.
  - destruct (prefix_exact true (kIPv4MappedPrefix ++ [10; 1; 2; 3]) [10; 1; 0; 0] 16) as [_ H]; [split; [repeat constructor; unfold is_byte; lia|by right]|split; [repeat constructor; unfold is_byte; lia|by left]|unfold zlen; cbn; lia|]. apply H. vm_compute. discriminate.
Defined.

(** * The contraction of an IPv6 address *)
(** Which of the eight groups of 16 bits are zero. *)
Definition zero_groups (a : bytes) : list bool := map (fun i => (znth a (2 * Z.of_nat i) =? 0) && (znth a (2 * Z.of_nat i + 1) =? 0)) (seq 0 8).
Fixpoint run (zs : list bool) : nat := match zs with true :: zs => S (run zs) | _ => O end.
(** The zeros from the group [i] on. *)
Definition zeros_from (zs : list bool) (i : nat) : nat := run (drop i zs).
Definition contraction_of (zs : list bool) : Component :=
  (fold_left (fun st iz => contraction_step iz.2 (2 * Z.of_nat iz.1) st) (combine (seq 0 8) zs) (no_component, no_component)).1.
Definition longest (zs : list bool) (c : Component) : bool :=
  if bool_decide (begin_ c = 0) && bool_decide (len_ c = -1) then forallb (fun i => (zeros_from zs i <? 2)%nat) (seq 0 8)
  else existsb (fun i => (begin_ c =? 2 * Z.of_nat i) && (len_ c =? 2 * Z.of_nat (zeros_from zs i)) && (2 <=? zeros_from zs i)%nat && forallb (fun j => (zeros_from zs j <=? zeros_from zs i)%nat) (seq 0 8)
                         && forallb (fun j => (zeros_from zs j <? zeros_from zs i)%nat) (seq 0 i)) (seq 0 8).
Fixpoint all_bools (n : nat) : list (list bool) := match n with O => [[]] | S n => map (cons true) (all_bools n) ++ map (cons false) (all_bools n) end.
Lemma all_bools_in zs : In zs (all_bools (length zs)).
Proof. induction zs as [|[] zs IH]; cbn; [by left|apply in_or_app; left|apply in_or_app; right]; by apply in_map. Qed.
Lemma longest_all : forallb (fun zs => longest zs (contraction_of zs)) (all_bools 8) = true.
Proof. vm_compute. reflexivity. Qed.
Lemma contraction_groups a : zlen a = 16 -> ChooseIPv6ContractionRange a = Ret (contraction_of (zero_groups a)).
Proof.
  intros Hl. unfold ChooseIPv6ContractionRange, contraction_of, zero_groups. generalize (no_component, no_component). assert (forall l, Forall (fun i => (i < 8)%nat) l -> forall st,
    (fix loop (idx : list nat) (st : Component * Component) : outcome Component := match idx with [] => Ret st.1 | i :: idx => let i := 2 * Z.of_nat i in a0 ← at_index a i; b ← at_index a (i + 1); loop idx (contraction_step ((a0 =? 0) && (b =? 0)) i st) end) l st =
    Ret (fold_left (fun st iz => contraction_step iz.2 (2 * Z.of_nat iz.1) st) (combine l (map (fun i => (znth a (2 * Z.of_nat i) =? 0) && (znth a (2 * Z.of_nat i + 1) =? 0)) l)) st).1) as H.
  { induction 1 as [|i l Hi _ IH]; intros st; [done|]. cbv zeta. rewrite !at_index_ok by lia. obind. cbn [map combine fold_left fst snd]. apply IH. }
  apply H. repeat constructor; lia.
Qed.

(** The zeros an IPv6 address is written without are right: the range that is chosen
    starts at a group and is all the zero groups from there, at least two, as many as
    anywhere and more than anywhere before; no range is chosen exactly when no two zero
    groups follow each other. *)
Theorem contraction_exact a : zlen a = 16 -> exists c, ChooseIPv6ContractionRange a = Ret c /\
  let zs := zero_groups a in
  (c = no_component /\ (forall i, (i < 8)%nat -> (zeros_from zs i < 2)%nat) \/
   exists i, (i < 8)%nat /\ begin_ c = 2 * Z.of_nat i /\ len_ c = 2 * Z.of_nat (zeros_from zs i) /\ (2 <= zeros_from zs i)%nat /\
     (forall j, (j < 8)%nat -> (zeros_from zs j <= zeros_from zs i)%nat) /\ (forall j, (j < i)%nat -> (zeros_from zs j < zeros_from zs i)%nat)).
Proof.
  intros Hl. exists (contraction_of (zero_groups a)). split; [by apply contraction_groups|]. cbv zeta. set (zs := zero_groups a). assert (longest zs (contraction_of zs) = true) as H.
  { pose proof longest_all as H. rewrite forallb_forall in H. apply H. assert (length zs = 8%nat) as <- by done. apply all_bools_in. }
  unfold longest in H. destruct (contraction_of zs) as [b l] eqn:Ec. cbn [begin_ len_] in *. destruct (bool_decide (b = 0) && bool_decide (l = -1)) eqn:E.
  - left. apply andb_true_iff in E as [->%bool_decide_eq_true ->%bool_decide_eq_true]. split; [done|]. intros i Hi. rewrite forallb_forall in H. apply Nat.ltb_lt, H, in_seq. lia.
  - right. apply existsb_exists in H as (i & Hi & H). apply in_seq in Hi. repeat (apply andb_true_iff in H as [H ?]). exists i. apply Z.eqb_eq in H. repeat match goal with H : forallb _ _ = true |- _ => rewrite forallb_forall in H end.
    split; [lia|]. split; [done|]. split; [by apply Z.eqb_eq|]. split; [by apply Nat.leb_le|]. split; intros j Hj; [apply Nat.leb_le|apply Nat.ltb_lt]; match goal with H : forall x, In x _ -> _ |- _ => apply H, in_seq; lia end.
Qed.
Lemma contraction_exact_witness : exists c, ChooseIPv6ContractionRange [0; 0; 0; 0; 1; 0; 0; 0; 0; 0; 0; 0; 0; 2; 0; 0] = Ret c /\ begin_ c = 6.
Proof.
  destruct (contraction_exact [0; 0; 0; 0; 1; 0; 0; 0; 0; 0; 0; 0; 0; 2; 0; 0] eq_refl) as (c & E & _). exists c. split; [exact E|]. vm_compute in E. by injection E as <-.
Defined.

(** * Hosts and ports *)
Lemma is_num_digit c : HttpTypes.IS_NUM c = true -> is_digit 10 c = true /\ digit 10 c = c - 48.
Proof.
  unfold HttpTypes.IS_NUM. intros H. apply andb_true_iff in H as [H1%Z.leb_le H2%Z.leb_le]. destruct (decimal_digit (c - ch#"0")) as [E1 E2]; [lia|]. replace (c - ch#"0" + ch#"0") with c in E1, E2 by lia. done.
Qed.
Lemma digits_number ds : forall v, forallb HttpTypes.IS_NUM ds = true -> forallb (is_digit 10) ds = true /\ number 10 v ds = HttpMessages.dec v ds.
Proof.
  induction ds as [|c ds IH]; intros v H; [done|]. cbn [forallb] in *. apply andb_true_iff in H as [Hc H]. destruct (is_num_digit c Hc) as [E1 E2]. destruct (IH (v * 10 + (c - 48)) H) as [I1 I2]. rewrite E1, I1. split; [done|].
  unfold number, HttpMessages.dec in *. cbn [fold_left]. by rewrite E2.
Qed.
Lemma decimal_number v : 0 <= v -> printf_d v <> [] /\ forallb (is_digit 10) (printf_d v) = true /\ number 10 0 (printf_d v) = v.
Proof. intros Hv. destruct (HttpServerProofs.decimal_spec v Hv) as (Hne & Hd & Hdec). destruct (digits_number _ 0 Hd) as [E1 E2]. split; [done|]. split; [done|]. by rewrite E2. Qed.
Lemma StringToInt_number ds : ds <> [] -> forallb (is_digit 10) ds = true -> number 10 0 ds < 2 ^ 31 -> 0 <= number 10 0 ds -> StringToInt ds 0 = (true, number 10 0 ds).
Proof.
  intros Hne Hd Hv H0. set (n := NumberText [] [] [] ds []). unfold StringToInt. assert (traits_ok (Traits true 32 10)) as Ht by (by split). assert (nt_ok 10 n = true) as Hn by (unfold nt_ok, n; cbn; rewrite Hd; by destruct ds).
  pose proof (Invoke_text _ n 0 Ht Hn) as E. unfold nt_bytes, n in E. cbn [nt_space nt_sign nt_prefix nt_digits nt_rest app] in E. rewrite app_nil_r in E. rewrite E. unfold nt_negative, nt_value. cbn [nt_sign nt_digits]. rewrite (bool_decide_eq_false_2 ([] = [ch#"-"])) by done. cbn [andb negb is_signed kBase].
  rewrite Z.mul_1_l. unfold clamp, in_range, t_min, t_max. cbn [is_signed width]. assert ((- 2 ^ (32 - 1) <=? number 10 0 ds) && (number 10 0 ds <=? 2 ^ (32 - 1) - 1) = true) as -> by (apply andb_true_iff; split; apply Z.leb_le; powlia).
  cbn [andb]. f_equal. change (2 ^ (32 - 1)) with (2 ^ 31). lia.
Qed.
Lemma length_digits fuel : forall v out, (length (HttpServer.decimal_digits fuel v out) <= fuel + length out)%nat.
Proof. induction fuel as [|fuel IH]; intros v out; cbn [HttpServer.decimal_digits]; [lia|]. destruct (v <? 10); [cbn; lia|]. specialize (IH (v / 10) ((ch#"0" + v mod 10) :: out)). cbn [length] in IH. lia. Qed.
Lemma port_text_length port : 0 <= port < 2 ^ 16 -> zlen (printf_d port) <= 16.
Proof.
  intros Hp. unfold printf_d, HttpServer.decimal. rewrite (proj2 (Z.ltb_ge _ _)) by lia. pose proof (length_digits (S (Z.to_nat (Z.log2 port))) port []) as H. cbn [length] in H.
  assert (Z.log2 port < 16) by (destruct (Z.eq_dec port 0) as [->|]; [done|apply Z.log2_lt_pow2; lia]). unfold zlen. pose proof (Z.log2_nonneg port). lia.
Qed.
(** Characters that stand for themselves in a host. *)
Definition host_char (c : Z) : bool := (32 <? c) && negb (c =? ch#":").
Definition host_ok (h : bytes) : Prop := h <> [] /\ forallb host_char h = true.
Lemma c_str_plain h : forallb (fun c => 32 <? c) h = true -> c_str h = h.
Proof. induction h as [|c h IH]; [done|]. cbn. intros H. apply andb_true_iff in H as [Hc H]. apply Z.ltb_lt in Hc. destruct (Z.eqb_spec c 0); [lia|]. by rewrite IH. Qed.
Lemma host_chars h : forallb host_char h = true -> forallb (fun c => 32 <? c) h = true /\ forallb (fun c => negb (c =? ch#":")) h = true.
Proof. intros H. split; revert H; apply forallb_weaken; unfold host_char; intros c Hc; by apply andb_true_iff in Hc as [? ?]. Qed.
Lemma not_in h c : forallb (fun x => negb (x =? c)) h = true -> is_in h c = false.
Proof. induction h as [|x h IH]; [done|]. cbn. intros H. apply andb_true_iff in H as [Hx H]. apply negb_true_iff in Hx. rewrite Z.eqb_sym, Hx. cbn. by apply IH. Qed.
Lemma digit_plain c : is_digit 10 c = true -> (32 <? c) = true /\ (c =? ch#":") = false.
Proof. unfold is_digit, CharToDigit. change (10 <=? 10) with true. cbv iota. destruct ((ch#"0" <=? c) && (c <? ch#"0" + 10)) eqn:E; [|done]. apply andb_true_iff in E as [E1%Z.leb_le E2%Z.ltb_lt]. intros _. split; [apply Z.ltb_lt; lia|apply Z.eqb_neq; lia]. Qed.

(** A host and a port come back from the text that is made of them, whatever the
    characters of the host above the space are, the colon excepted. *)
Theorem host_port_roundtrip dcheck_on h port : host_ok h -> 0 <= port < 2 ^ 16 -> zlen h < 2 ^ 60 ->
  exists text, HostPort_ToString dcheck_on (HostPort h port) = Ret text /\ FromString dcheck_on text = Ret (HostPort h port).
Proof.
  intros [Hne Hh] Hp Hl. destruct (host_chars h Hh) as [H1 H2]. destruct (decimal_number port ltac:(lia)) as (Dne & Dd & Dv). exists (h ++ [ch#":"] ++ printf_d port). unfold HostPort_ToString, HostForURL. cbn [host_ hp_port].
  assert (is_in h 0 = false) as E0 by (apply not_in; revert H1; apply forallb_weaken; intros c Hc%Z.ltb_lt; apply negb_true_iff, Z.eqb_neq; lia). rewrite DCHECK_true by (by rewrite E0). rewrite (not_in h (ch#":") H2). obind. rewrite c_str_plain by done. split; [done|].
  unfold FromString, SplitString. rewrite !DCHECK_true by done. obind. replace (h ++ [ch#":"] ++ printf_d port) with (JoinString [h; printf_d port] [ch#":"]) by (cbn [JoinString fold_left]; by rewrite app_assoc). rewrite split_plain; [|done| | |].
  - assert (number 10 0 (printf_d port) < 2 ^ 31) by (rewrite Dv; powlia). rewrite StringToInt_number by (done || lia). cbn [negb]. rewrite Dv. rewrite DCHECK_true by (apply Z.ltb_lt; change (Z.shiftl 1 16) with 65536; powlia). by rewrite uwrap_small by powlia.
  - cbn [forallb]. rewrite H2. cbn [andb]. rewrite andb_true_r. revert Dd. apply forallb_weaken. intros c Hc. by rewrite (proj2 (digit_plain c Hc)).
  - cbn [forallb]. rewrite H1, !bool_decide_eq_false_2 by done. cbn [negb andb]. rewrite andb_true_r. revert Dd. apply forallb_weaken. intros c Hc. apply digit_plain, Hc.
  - cbn [JoinString fold_left]. pose proof (port_text_length port Hp). rewrite !zlen_app. change (zlen [ch#":"]) with 1. powlia.
Qed.
Lemma host_port_roundtrip_witness : exists text, HostPort_ToString true (HostPort str#"example.com" 8080) = Ret text /\ FromString true text = Ret (HostPort str#"example.com" 8080).
Proof. apply (host_port_roundtrip true str#"example.com" 8080); [split; [discriminate|vm_compute; reflexivity]|lia|vm_compute; reflexivity]. Defined.
(** An address with colons is written in brackets, which [FromString] does not read. *)
Example host_with_colons : HostPort_ToString true (HostPort str#"::1" 80) = Ret str#"[::1]:80" /\ FromString true str#"[::1]:80" = Ret no_host_port.
Proof. vm_compute. split; reflexivity. Qed.
(** A port below zero is taken for a large one. *)
Example host_with_negative_port : FromString true str#"h:-1" = Ret (HostPort str#"h" 65535).
Proof. vm_compute. reflexivity. Qed.
