(* ===== verification/Messages.v ===== *)
(** Messages of an application: [zutils/message_pdu].  A message is made by the factory
    registered for its type, written into a TeamTalk packet and read back from one.  The
    methods of a message class are those of the application; pointers that may be null
    are options. *)
From Stdlib Require Import ZArith Lia Bool String.
From stdpp Require Import base list numbers gmap.
From S2P Require Import Prelude SysByteorder IOBuffer Codecs.
Import TeamTalk.

Open Scope Z_scope.

(** What a class derived from [MessagePDU] implements.  [ParseFromArray] may read all of
    the bytes it is given; [SerializeToArray] gives the bytes it writes, from the first on,
    into memory of the length it is told. *)
Class MessageClass (C : Type) := {
  ByteSize : C -> Z;
  ParseFromArray : C -> bytes -> bool * C;
  SerializeToArray : C -> Z -> bool * bytes
}.

Definition kUnknownPDUMessage : string := "UNKNOWN PDU".
Definition GetUnknownMessageName : string := kUnknownPDUMessage.

Section Messages.
Context {C : Type} `{!MessageClass C}.

(** [MessagePDU] with the data of the derived class. *)
Record MessagePDU := PDU { message_type_ : Z; reserved_ : Z; content : C }.
Definition SetReserved (val : Z) (m : MessagePDU) : MessagePDU := PDU (message_type_ m) val (content m).

(** [MessagePDUFactoryTemplate].  [f_new] is what [new Message2()] makes; as the constructor
    does not initialise [reserved_], any value may be there. *)
Record MessagePDUFactory := Factory { f_message_type_ : Z; f_null_able_ : bool; f_message_name_ : string; f_new : MessagePDU }.
Definition MessagePDUFactoryTemplate (message_type : Z) (message_name : option string) (null_able : bool) (new_ : MessagePDU) : MessagePDUFactory :=
  Factory message_type null_able (match message_name with Some n => n | None => GetUnknownMessageName end) new_.
Definition Factory_CreateMessage (f : MessagePDUFactory) : option MessagePDU := if f_null_able_ f then None else Some (f_new f).

(** ** [MessagePDUFactoryManager] *)
Abbreviation factories := (gmap Z MessagePDUFactory).
Definition AddFactory (factory : option MessagePDUFactory) (m : factories) : outcome factories :=
  match factory with
  | None => Fault AssertFail
  | Some factory =>
      match m !! f_message_type_ factory with
      | Some _ => Fault AssertFail
      | None => Ret (<[f_message_type_ factory := factory]> m)
      end
  end.
(** [func] is a function of the application. *)
Definition RegisterMessage (func : option (factories -> outcome (bool * factories))) (m : factories) : outcome (bool * factories) :=
  match func with None => Fault AssertFail | Some func => func m end.
Definition CreateMessage (m : factories) (message_type : Z) : option MessagePDU :=
  match m !! message_type with None => None | Some f => Factory_CreateMessage f end.
(** The result, the name and [null_able], which is left as it is when there is no factory. *)
Definition GetMessageNameAndNullable (m : factories) (message_type : Z) (null_able : bool) : bool * string * bool :=
  match m !! message_type with
  | None => (false, GetUnknownMessageName, null_able)
  | Some f => (true, f_message_name_ f, f_null_able_ f)
  end.
Definition GetMessageName (m : factories) (message_type : Z) : string :=
  match m !! message_type with Some f => f_message_name_ f | None => GetUnknownMessageName end.

(** ** Messages and packets *)
(** The call of [ParseFromArray] on [message], and what follows when it fails. *)
Definition parse_into (message : option MessagePDU) (mem : bytes) (offset body_len : Z) : outcome (option MessagePDU) :=
  match message with
  | None => Fault OutOfBounds
  | Some message =>
      body ← mem_read mem offset body_len;
      let '(ok, c) := ParseFromArray (content message) body in
      Ret (if ok then Some (PDU (message_type_ message) (reserved_ message) c) else None)
  end.
Definition ParseMessagePDUFromNetPacker (m : factories) (packet : bytes) : outcome (option MessagePDU) :=
  let message_type := TeamTalk.GetMessageType packet in
  let '(found, _, null_able) := GetMessageNameAndNullable m message_type true in
  if negb found then Ret None
  else
    let message := CreateMessage m message_type in
    if negb null_able then
      message ← parse_into message packet kPacketHeaderSize (GetBodyLength packet);
      Ret (match message with None => None | Some message => Some (SetReserved (TeamTalk.GetReserved packet) message) end)
    else Ret message.
(** [data] is the memory, [data_len] the length the caller says; at the end the message is
    used whether there is one or not. *)
Definition ParseMessagePDUFromArrayData (m : factories) (data : option bytes) (data_len : Z) : outcome (option MessagePDU) :=
  match data with
  | None => Ret None
  | Some data =>
      if data_len <? kPacketHeaderSize then Ret None
      else
        head ← mem_read data 0 kPacketHeaderSize;
        let '(ret, message_type, reserved, body_len) := ParsePacketHeader head in
        match body_len with
        | None => Ret None
        | Some body_len =>
            let '(found, _, null_able) := GetMessageNameAndNullable m message_type true in
            if negb found then Ret None
            else
              let message := CreateMessage m message_type in
              if negb null_able then
                message ← parse_into message data kPacketHeaderSize body_len;
                Ret (match message with None => None | Some message => Some (SetReserved reserved message) end)
              else match message with None => Fault OutOfBounds | Some message => Ret (Some (SetReserved reserved message)) end
        end
  end.
(** A packet that could not be filled is deleted. *)
Definition MessageToPacket (malloc : Z -> option bytes) (message : MessagePDU) : outcome (option bytes) :=
  let message_len := u32 (ByteSize (content message)) in
  packet ← TeamTalkPacket_new malloc (message_type_ message) (reserved_ message) message_len;
  let '(ok, written) := SerializeToArray (content message) message_len in
  packet ← mem_write packet kPacketHeaderSize written;
  Ret (if (ok : bool) then Some packet else None).
Definition MessageToPacket_ptr (dcheck_on : bool) (malloc : Z -> option bytes) (message : option MessagePDU) : outcome (option bytes) :=
  DCHECK dcheck_on (match message with Some _ => true | None => false end)
    (match message with Some message => MessageToPacket malloc message | None => Fault OutOfBounds end).
End Messages.
Arguments MessagePDU : clear implicits.
Arguments MessagePDUFactory : clear implicits.
