(* ===== verification/MessagesProofs.v ===== *)
(** Messages come back from their packets, through the codec as well; which data
    [ParseMessagePDUFromArrayData] may be given. *)
From Stdlib Require Import ZArith Lia Bool String.
From stdpp Require Import base list numbers gmap.
From S2P Require Import Prelude SysByteorder IOBuffer Codecs Messages.
Import TeamTalk.

Open Scope Z_scope.

Lemma header_body_len head ret mt rsv n : ParsePacketHeader head = (ret, mt, rsv, Some n) -> 0 <= n.
Proof. unfold ParsePacketHeader. destruct (_ || _); [done|]. destruct (_ =? _); intros [= _ _ _ <-]; [lia|]. by apply uwrap_range. Qed.

Section Theorems.
Context {C : Type} `{!MessageClass C}.
Implicit Types (m : gmap Z (MessagePDUFactory C)) (msg : MessagePDU C).

(** The class of a message writes [body] and reads it into a new message of its type. *)
Definition sendable m msg (body : bytes) : Prop :=
  exists f, m !! message_type_ msg = Some f /\ f_null_able_ f = false /\ message_type_ (f_new f) = message_type_ msg /\
    ByteSize (content msg) = zlen body /\ SerializeToArray (content msg) (zlen body) = (true, body) /\
    ParseFromArray (content (f_new f)) body = (true, content msg).
Definition message_packet msg (body : bytes) : packet := Packet (message_type_ msg) (reserved_ msg) body.

Lemma write_message malloc m msg body : malloc_total malloc -> sendable m msg body -> packet_ok (message_packet msg body) ->
  MessageToPacket malloc msg = Ret (Some (packet_bytes (message_packet msg body))).
Proof.
  intros HM (f & _ & _ & _ & Hs & Hw & _) (Ht & Hr & Hl). cbn [pk_type pk_reserved pk_body message_packet] in *. unfold kMaxPacketSize, kPacketHeaderSize in Hl. pose proof (zlen_nonneg body).
  unfold MessageToPacket, TeamTalkPacket_new, kPacketHeaderSize. rewrite Hs, !uwrap_small by powlia.
  destruct (packet_fill malloc (header_bytes (message_type_ msg) (reserved_ msg) (zlen body)) body (zlen body + 12) 12 HM) as (p & Ep & Ew); [rewrite ?tt_zlen_header; unfold kPacketHeaderSize; powlia..|].
  rewrite Ep. obind. rewrite Hw, Ew. by obind.
Qed.
Lemma parse_message m msg body f mem : m !! message_type_ msg = Some f -> sendable m msg body -> zslice 12 (zlen body) mem = body -> 12 + zlen body <= zlen mem ->
  parse_into (CreateMessage m (message_type_ msg)) mem 12 (zlen body) = Ret (Some (PDU (message_type_ msg) (reserved_ (f_new f)) (content msg))) /\
  GetMessageNameAndNullable m (message_type_ msg) true = (true, f_message_name_ f, false).
Proof.
  intros Hf (f' & Hf' & Hn & Ht & _ & _ & Hp) Hm Hl. rewrite Hf in Hf'. injection Hf' as <-. pose proof (zlen_nonneg body).
  unfold CreateMessage, GetMessageNameAndNullable, Factory_CreateMessage. rewrite Hf, Hn. split; [|done]. unfold parse_into. rewrite mem_read_ok by lia. obind. by rewrite Hm, Hp, Ht.
Qed.
Lemma read_message m msg body : sendable m msg body -> packet_ok (message_packet msg body) ->
  let p := packet_bytes (message_packet msg body) in
  ParseMessagePDUFromNetPacker m p = Ret (Some msg) /\ ParseMessagePDUFromArrayData m (Some p) (zlen p) = Ret (Some msg).
Proof.
  intros HS Hp p. destruct (tt_packet_fields _ Hp) as (E1 & E2 & _ & E3 & _). fold p in E1, E2, E3. cbn [message_packet pk_type pk_reserved pk_body] in E1, E2, E3. destruct Hp as (Ht & Hr & Hl). cbn [message_packet pk_type pk_reserved pk_body] in Ht, Hr, Hl.
  pose proof (zlen_nonneg body). assert (zlen p = 12 + zlen body) as Lp by (unfold p, packet_bytes; rewrite zlen_app, tt_zlen_header; done).
  assert (p = header_bytes (message_type_ msg) (reserved_ msg) (zlen body) ++ body) as Dp by done.
  assert (zslice 12 (zlen body) p = body) as Sp by (rewrite Dp, <- (app_nil_r (_ ++ body)), <- app_assoc; by apply (zslice_middle (header_bytes _ _ _) body [])).
  pose proof HS as (f & Hf & _). destruct (parse_message m msg body f p Hf HS Sp) as [P1 P2]; [lia|]. split.
  - unfold ParseMessagePDUFromNetPacker, kPacketHeaderSize. rewrite E1, E2, E3, P2. cbn [negb]. rewrite P1. obind. by destruct msg.
  - unfold ParseMessagePDUFromArrayData, kPacketHeaderSize. rewrite Lp. rewrite (proj2 (Z.ltb_ge _ _)) by lia. rewrite mem_read_ok by lia. obind.
    assert (zslice 0 12 p = header_bytes (message_type_ msg) (reserved_ msg) (zlen body) ++ []) as ->; [rewrite Dp; rewrite app_nil_r; by apply (zslice_middle [] (header_bytes _ _ _) body)|].
    rewrite tt_parse_header by (unfold kMaxPacketSize, kPacketHeaderSize in *; lia). unfold kMaxPacketSize, kPacketHeaderSize in *. rewrite (proj2 (Z.leb_le _ _)) by lia. rewrite P2. cbn [negb]. rewrite P1. obind. by destruct msg.
Qed.

(** C6: a message comes back: what [MessageToPacket] makes of a message whose class writes
    what it reads is one packet with its type and reserved value, from which both parsing
    functions make a message equal to the one that was sent, and which the codec takes
    from the head of the buffer of a connection and gives to the parser as it is, leaving
    what is behind it. *)
Theorem messages_delivered {Q} `{!ByteQueue Q} malloc m msg body q rest u :
  malloc_total malloc -> sendable m msg body -> packet_ok (message_packet msg body) ->
  exists p, MessageToPacket malloc msg = Ret (Some p) /\
    ParseMessagePDUFromNetPacker m p = Ret (Some msg) /\ ParseMessagePDUFromArrayData m (Some p) (zlen p) = Ret (Some msg) /\
    (q_rep q (p ++ rest) -> zlen rest <= io_limit -> exists q', q_rep q' rest /\
       OnDataReceived malloc (fun p u => (0, u ++ [ParseMessagePDUFromNetPacker m p])) q u = Ret (0, q', u ++ [Ret (Some msg)])).
Proof.
  intros HM HS Hp. exists (packet_bytes (message_packet msg body)). destruct (read_message m msg body HS Hp) as [R1 R2]. split; [by eapply write_message|]. split; [done|]. split; [done|].
  intros HQ Hl. destruct (tt_receive_packet malloc (fun p u => (0, u ++ [ParseMessagePDUFromNetPacker m p])) HM q _ rest u Hp HQ Hl) as (q' & Hq' & E). exists q'. split; [done|]. by rewrite E, R1.
Qed.

(** Which bytes [ParseMessagePDUFromArrayData] may be given: with a complete memory of
    the length it is told, it goes outside what it was given exactly if the header is
    accepted, a factory is registered for the type, and either the type is one whose
    messages may be null, when it uses a null pointer, or the body is longer in the header
    than behind it, which nothing checks. *)
Theorem array_data_faults m data :
  (exists fault, ParseMessagePDUFromArrayData m (Some data) (zlen data) = Fault fault) <->
  exists ret message_type reserved body_len f, kPacketHeaderSize <= zlen data /\
    ParsePacketHeader (zslice 0 kPacketHeaderSize data) = (ret, message_type, reserved, Some body_len) /\ m !! message_type = Some f /\
    (f_null_able_ f = true \/ f_null_able_ f = false /\ zlen data < kPacketHeaderSize + body_len).
Proof.
  unfold ParseMessagePDUFromArrayData, kPacketHeaderSize. destruct (Z.ltb_spec (zlen data) 12) as [Hl|Hl]; [split; [by intros [? ?]|intros (? & ? & ? & ? & ? & ? & _); lia]|].
  rewrite mem_read_ok by lia. obind. destruct (ParsePacketHeader (zslice 0 12 data)) as [[[ret mt] rsv] [n|]] eqn:EH; [|split; [by intros [? ?]|by intros (? & ? & ? & ? & ? & _ & [=] & _)]].
  pose proof (header_body_len _ _ _ _ _ EH) as Hn. unfold GetMessageNameAndNullable, CreateMessage, Factory_CreateMessage. destruct (m !! mt) as [f|] eqn:Ef; [|split; [by intros [? ?]|intros (? & ? & ? & ? & ? & _ & [= <- <- <- <-] & Ef' & _); by rewrite Ef in Ef']].
  cbn [negb]. destruct (f_null_able_ f) eqn:En; cbn [negb].
  - split; intros _; [by exists ret, mt, rsv, n, f; auto|by eexists].
  - unfold parse_into. destruct (Z.le_gt_cases (12 + n) (zlen data)) as [Hf|Hf].
    + rewrite mem_read_ok by lia. obind. destruct (ParseFromArray _ _) as [[] c]; obind; (split; [by intros [? ?]|]); intros (? & ? & ? & ? & g & _ & [= <- <- <- <-] & Ef' & Hc); rewrite Ef in Ef'; injection Ef' as <-; rewrite En in Hc; destruct Hc as [|[_ ?]]; (done || lia).
    + split; intros _; [exists ret, mt, rsv, n, f; split_and!; auto; lia|]. exists OutOfBounds. unfold mem_read, guard_or. destruct (in_block data 12 n) eqn:EB; [|done]. apply in_block_true in EB. lia.
Qed.
End Theorems.

(** Chat messages of bytes, of the type 7; type 8 may be null. *)
#[local] Instance chat : MessageClass bytes := { ByteSize := zlen; ParseFromArray _ d := (true, d); SerializeToArray c n := (bool_decide (zlen c <= n), c) }.
Definition chat_factories : gmap Z (MessagePDUFactory bytes) :=
  <[7 := MessagePDUFactoryTemplate 7 (Some "chat"%string) false (PDU 7 999 [])]> (<[8 := MessagePDUFactoryTemplate 8 None true (PDU 8 999 [])]> ∅).
Definition hello : MessagePDU bytes := PDU 7 3 [104; 105].
Lemma messages_delivered_witness : exists p q', MessageToPacket full_malloc hello = Ret (Some p) /\ (exists g, io_rep q' [1; 2] g) /\
  @OnDataReceived _ (io_queue true true) _ full_malloc (fun p u => (0, u ++ [ParseMessagePDUFromNetPacker chat_factories p])) (io_with (p ++ [1; 2])) [] = Ret (0, q', [Ret (Some hello)]).
Proof.
  destruct (@messages_delivered _ chat _ (io_queue true true) full_malloc chat_factories hello [104; 105] (io_with (packet_bytes (message_packet hello [104; 105]) ++ [1; 2])) [1; 2] [] full_malloc_total) as (p & E & _ & _ & H).
  - exists (MessagePDUFactoryTemplate 7 (Some "chat"%string) false (PDU 7 999 [])). repeat split; reflexivity.
  - vm_compute. repeat split; discriminate.
  - assert (p = packet_bytes (message_packet hello [104; 105])) as -> by (vm_compute in E; injection E as <-; reflexivity). destruct H as (q' & Hq & Hr); [exists 8; by apply io_with_rep|vm_compute; discriminate|]. by exists (packet_bytes (message_packet hello [104; 105])), q'.
Defined.
(** A body of 1000 bytes in a header of which none follows, and a type that may be null. *)
Example array_data_overread : ParseMessagePDUFromArrayData chat_factories (Some (header_bytes 7 0 1000)) 12 = Fault OutOfBounds.
Proof. vm_compute. reflexivity. Qed.
Example array_data_null : ParseMessagePDUFromArrayData chat_factories (Some (header_bytes 8 0 0)) 12 = Fault OutOfBounds /\ ParseMessagePDUFromNetPacker chat_factories (header_bytes 8 0 0) = Ret None.
Proof. vm_compute. split; reflexivity. Qed.
(** A second factory for a type ends the run. *)
Example register_twice : AddFactory (Some (MessagePDUFactoryTemplate 7 None false hello)) chat_factories = Fault AssertFail.
Proof. vm_compute. reflexivity. Qed.
