(* ===== verification/WaitableEvent.v ===== *)
(** Events that threads wait for: [zutils/base/synchronization/waitable_event_posix.cc].
    The state is the kernels of the events and, of each thread, where it is in the code; a
    [SyncWaiter] is on the stack of its thread and is named by it, so that a pointer to
    one that is gone is a fault.  A step is what a thread does under one acquisition of a
    lock: [exec t a s] is [None] when the lock is not free. *)
From Stdlib Require Import Lia Bool.
From stdpp Require Import base list numbers functions.
From S2P Require Import Prelude.

Abbreviation event := nat.
Abbreviation thread := nat.

(** [WaitableEventKernel]; [lock_] says whether a thread holds the lock between two steps. *)
Record WaitableEventKernel := Kernel { manual_reset_ : bool; signaled_ : bool; waiters_ : list thread; lock_ : bool }.
Definition set_signaled (b : bool) (k : WaitableEventKernel) : WaitableEventKernel := Kernel (manual_reset_ k) b (waiters_ k) (lock_ k).
Definition set_waiters (l : list thread) (k : WaitableEventKernel) : WaitableEventKernel := Kernel (manual_reset_ k) (signaled_ k) l (lock_ k).
Definition set_lock (b : bool) (k : WaitableEventKernel) : WaitableEventKernel := Kernel (manual_reset_ k) (signaled_ k) (waiters_ k) b.
Definition new_kernel (manual_reset initially_signaled : bool) : WaitableEventKernel := Kernel manual_reset initially_signaled [] false.

Record SyncWaiter := Waiter { fired_ : bool; signaling_event_ : option event }.
Definition new_waiter : SyncWaiter := Waiter false None.
Definition Disable (w : SyncWaiter) : SyncWaiter := Waiter true (signaling_event_ w).

(** What a thread waits for: [TimedWait], with a limit or without, or [WaitMany]. *)
Inductive wait := Timed (e : event) (finite_time : bool) | Many (raw_waitables : list event).
Definition wait_events (k : wait) : list event := match k with Timed e _ => [e] | Many es => es end.

(** Where a thread is between two steps.  [Holding]: in the loop with the lock of its
    waiter; [Blocked]: in the condition variable; [Leaving]: on the way to [Dequeue]. *)
Inductive pc :=
  | Idle
  | SignalingAll (e : event) (i : list thread)
  | SignalingOne (e : event)
  | Holding (k : wait) (sw : SyncWaiter)
  | Blocked (k : wait) (sw : SyncWaiter)
  | Leaving (e : event) (return_value : bool) (sw : SyncWaiter)
  | LeavingMany (rest raw_waitables : list event) (signaled_index : nat) (sw : SyncWaiter).

Record state := State { kernels : event -> WaitableEventKernel; threads : list pc }.
Definition set_kernel (e : event) (k : WaitableEventKernel) (s : state) : state := State (<[e := k]> (kernels s)) (threads s).
Definition set_pc (t : thread) (p : pc) (s : state) : state := State (kernels s) (<[t := p]> (threads s)).

(** What is seen of the steps: a [Signal] that had an effect, a wait or a test that found
    the event signaled, with the index [WaitMany] returns of it, a wait that did not, and a [Reset] that
    took the signal back. *)
Inductive obs := Sent (e : event) | Got (t : thread) (e : event) (i : nat) | TimedOut (t : thread) (e : event) | Cleared (e : event).

(** [Fire] of the waiter of [t]: its answer; [None] when its thread holds its lock. *)
Definition Fire (t : thread) (signaling_event : event) (s : state) : option (outcome (bool * state)) :=
  let fire sw := if fired_ sw then None else Some (Waiter true (Some signaling_event)) in
  match threads s !! t with
  | Some (Holding _ _) => None
  | Some (Blocked k sw) =>
      match fire sw with None => Some (Ret (false, s)) | Some sw => Some (Ret (true, set_pc t (Blocked k sw) s)) end
  | Some (Leaving e r sw) =>
      match fire sw with None => Some (Ret (false, s)) | Some sw => Some (Ret (true, set_pc t (Leaving e r sw) s)) end
  | Some (LeavingMany rest es i sw) =>
      match fire sw with None => Some (Ret (false, s)) | Some sw => Some (Ret (true, set_pc t (LeavingMany rest es i sw) s)) end
  | _ => Some (Fault OutOfBounds)
  end.
Definition Enqueue (t : thread) (k : WaitableEventKernel) : WaitableEventKernel := set_waiters (waiters_ k ++ [t]) k.
(** The first of the waiters is removed. *)
Fixpoint remove_first (t : thread) (l : list thread) : bool * list thread :=
  match l with [] => (false, []) | x :: l => if (x =? t)%nat then (true, l) else let '(b, l) := remove_first t l in (b, x :: l) end.
Definition Dequeue (t : thread) (k : WaitableEventKernel) : bool * WaitableEventKernel :=
  let '(b, l) := remove_first t (waiters_ k) in (b, set_waiters l k).

(** The waitables in the order of their addresses, with their indices. *)
Fixpoint insert_addr (x : event * nat) (l : list (event * nat)) : list (event * nat) :=
  match l with [] => [x] | y :: l => if (x.1 <? y.1)%nat then x :: y :: l else y :: insert_addr x l end.
Definition sort_addr (l : list (event * nat)) : list (event * nat) := fold_right insert_addr [] l.
(** [EnqueueMany] once it has the locks it asks for: the count of remaining waitables when
    a signaled one was seen, or zero. *)
Fixpoint EnqueueMany (waitables : list (event * nat)) (t : thread) (s : state) : nat * state :=
  match waitables with
  | [] => (0%nat, s)
  | (e, _) :: rest =>
      let k := kernels s e in
      if signaled_ k then (length waitables, if manual_reset_ k then s else set_kernel e (set_signaled false k) s)
      else
        let '(r, s) := EnqueueMany rest t s in
        if (r =? 0)%nat then (r, set_kernel e (Enqueue t (kernels s e)) s) else (r, s)
  end.
(** The locks [EnqueueMany] takes are free. *)
Fixpoint locks_free (waitables : list (event * nat)) (s : state) : bool :=
  match waitables with [] => true | (e, _) :: rest => negb (lock_ (kernels s e)) && (signaled_ (kernels s e) || locks_free rest s) end.

(** What a thread may do: call an operation when it is idle, or go on, where the time may
    be over. *)
Inductive action :=
  | CallSignal (e : event) | CallReset (e : event) | CallIsSignaled (e : event) | CallWait (e : event) (finite_time : bool) | CallWaitMany (es : list event)
  | GoOn (time_over : bool).

Section Exec.
Context (dcheck_on : bool).

Definition Signal (t : thread) (e : event) (s : state) : option (outcome (state * list obs)) :=
  let k := kernels s e in
  if lock_ k then None
  else if signaled_ k then Some (Ret (s, []))
  else Some (Ret (set_pc t (if manual_reset_ k then SignalingAll e (waiters_ k) else SignalingOne e) (set_kernel e (set_lock true k) s), [])).
(** [SignalAll] fires the waiter at [i], or clears the list at its end. *)
Definition SignalAll (t : thread) (e : event) (i : list thread) (s : state) : option (outcome (state * list obs)) :=
  match i with
  | w :: i =>
      match Fire w e s with
      | None => None
      | Some (Fault f) => Some (Fault f)
      | Some (Ret (_, s)) => Some (Ret (set_pc t (SignalingAll e i) s, []))
      end
  | [] => Some (Ret (set_pc t Idle (set_kernel e (set_lock false (set_signaled true (set_waiters [] (kernels s e)))) s), [Sent e]))
  end.
Definition SignalOne (t : thread) (e : event) (s : state) : option (outcome (state * list obs)) :=
  match waiters_ (kernels s e) with
  | [] => Some (Ret (set_pc t Idle (set_kernel e (set_lock false (set_signaled true (kernels s e))) s), [Sent e]))
  | w :: rest =>
      match Fire w e s with
      | None => None
      | Some (Fault f) => Some (Fault f)
      | Some (Ret (r, s)) =>
          let k := set_waiters rest (kernels s e) in
          Some (Ret (if (r : bool) then (set_pc t Idle (set_kernel e (set_lock false k) s), [Sent e]) else (set_kernel e k s, [])))
      end
  end.
Definition Reset (t : thread) (e : event) (s : state) : option (outcome (state * list obs)) :=
  let k := kernels s e in
  if lock_ k then None else Some (Ret (set_kernel e (set_signaled false k) s, if signaled_ k then [Cleared e] else [])).
Definition IsSignaled (t : thread) (e : event) (s : state) : option (outcome (state * list obs)) :=
  let k := kernels s e in
  if lock_ k then None
  else if signaled_ k then Some (Ret (if manual_reset_ k then s else set_kernel e (set_signaled false k) s, [Got t e 0]))
  else Some (Ret (s, [])).
(** [TimedWait], and [Wait], which is one without a limit, up to the loop. *)
Definition TimedWait (t : thread) (e : event) (finite_time : bool) (s : state) : option (outcome (state * list obs)) :=
  let k := kernels s e in
  if lock_ k then None
  else if signaled_ k then Some (Ret (if manual_reset_ k then s else set_kernel e (set_signaled false k) s, [Got t e 0]))
  else Some (Ret (set_pc t (Holding (Timed e finite_time) new_waiter) (set_kernel e (Enqueue t k) s), [])).
(** The locks it takes one after the other are taken in one step.  Twice the same event
    would wait for a lock the thread holds. *)
Definition WaitMany (t : thread) (raw_waitables : list event) (s : state) : option (outcome (state * list obs)) :=
  let waitables := sort_addr (imap (fun i e => (e, i)) raw_waitables) in
  if dcheck_on && (bool_decide (raw_waitables = []) || negb (bool_decide (NoDup raw_waitables))) then Some (Fault AssertFail)
  else if bool_decide (raw_waitables = []) then Some (Fault OutOfBounds)
  else if negb (bool_decide (NoDup raw_waitables)) || negb (locks_free waitables s) then None
  else
    let count := length raw_waitables in
    let '(r, s) := EnqueueMany waitables t s in
    if (r =? 0)%nat then Some (Ret (set_pc t (Holding (Many raw_waitables) new_waiter) s, []))
    else
      match waitables !! (count - r)%nat with
      | None => Some (Fault OutOfBounds)
      | Some (_, i) => Some (Ret (s, match raw_waitables !! i with Some e => [Got t e i] | None => [] end))
      end.
(** The loop, with the lock of the waiter. *)
Definition loop (t : thread) (k : wait) (sw : SyncWaiter) (time_over : bool) (s : state) : state :=
  match k with
  | Timed e finite_time =>
      if fired_ sw || (finite_time && time_over) then set_pc t (Leaving e (fired_ sw) (Disable sw)) s else set_pc t (Blocked k sw) s
  | Many es => if fired_ sw then set_pc t (LeavingMany es es 0 sw) s else set_pc t (Blocked k sw) s
  end.
(** Whether the event [e] is the one that fired [sw]. *)
Definition fired_by (sw : SyncWaiter) (e : event) : bool := bool_decide (signaling_event_ sw = Some e).
Definition leave_many (t : thread) (rest es : list event) (signaled_index : nat) (sw : SyncWaiter) (s : state) : option (outcome (state * list obs)) :=
  match rest with
  | [] => Some (Ret (set_pc t Idle s, match es !! signaled_index with Some e => [Got t e signaled_index] | None => [] end))
  | e :: rest =>
      if lock_ (kernels s e) then None
      else if fired_by sw e then Some (Ret (set_pc t (LeavingMany rest es (length es - length rest - 1) sw) s, []))
      else Some (Ret (set_pc t (LeavingMany rest es signaled_index sw) (set_kernel e (Dequeue t (kernels s e)).2 s), []))
  end.

Definition exec (t : thread) (a : action) (s : state) : option (outcome (state * list obs)) :=
  match threads s !! t, a with
  | Some Idle, CallSignal e => Signal t e s
  | Some Idle, CallReset e => Reset t e s
  | Some Idle, CallIsSignaled e => IsSignaled t e s
  | Some Idle, CallWait e finite_time => TimedWait t e finite_time s
  | Some Idle, CallWaitMany es => WaitMany t es s
  | Some (SignalingAll e i), GoOn _ => SignalAll t e i s
  | Some (SignalingOne e), GoOn _ => SignalOne t e s
  | Some (Holding k sw), GoOn time_over => Some (Ret (loop t k sw time_over s, []))
  | Some (Blocked k sw), GoOn _ => Some (Ret (set_pc t (Holding k sw) s, []))
  | Some (Leaving e return_value sw), GoOn _ =>
      if lock_ (kernels s e) then None
      else Some (Ret (set_pc t Idle (set_kernel e (Dequeue t (kernels s e)).2 s), [if return_value then Got t e 0 else TimedOut t e]))
  | Some (LeavingMany rest es i sw), GoOn _ => leave_many t rest es i sw s
  | _, _ => None
  end.

(** A run of [n] threads from events as they are constructed; [tr] is what is seen. *)
Inductive reaches (events : event -> bool * bool) (n : nat) : list obs -> state -> Prop :=
  | R_start : reaches events n [] (State (fun e => new_kernel (events e).1 (events e).2) (replicate n Idle))
  | R_step tr s t a s' os : reaches events n tr s -> exec t a s = Some (Ret (s', os)) -> reaches events n (tr ++ os) s'.
End Exec.
