(* ===== verification/WaitableEventProofs.v ===== *)
(** What threads may rely on of events, however their steps interleave. *)
From Stdlib Require Import Lia Bool.
From stdpp Require Import base list numbers functions.
From S2P Require Import Prelude WaitableEvent.

(** * The invariant *)
Definition sw_of (p : pc) : option SyncWaiter :=
  match p with Holding _ sw | Blocked _ sw | Leaving _ _ sw | LeavingMany _ _ _ sw => Some sw | _ => None end.
Definition pc_fired (p : pc) : Prop := exists sw, sw_of p = Some sw /\ fired_ sw = true.
Definition pc_fired_by (p : pc) (e : event) : Prop := exists sw, sw_of p = Some sw /\ signaling_event_ sw = Some e.
Definition is_fired (s : state) (w : thread) : Prop := exists p, threads s !! w = Some p /\ pc_fired p.
Definition is_fired_by (s : state) (w : thread) (e : event) : Prop := exists p, threads s !! w = Some p /\ pc_fired_by p e.
(** In the lists of which events a thread may be. *)
Definition waits_on (p : pc) (e : event) : Prop :=
  match p with Holding k _ | Blocked k _ => e ∈ wait_events k | Leaving e' _ _ => e = e' | LeavingMany rest _ _ _ => e ∈ rest | _ => False end.
Definition signalling (p : pc) (e : event) : Prop := match p with SignalingAll e' _ | SignalingOne e' => e = e' | _ => False end.
Abbreviation waiting s e := (waiters_ (kernels s e)).
(** A waiter that was not fired is in the lists of its events; one that was is in the list
    of the event that fired it only while that is still signaling. *)
Definition wait_ok (s : state) (t : thread) (k : wait) (sw : SyncWaiter) : Prop :=
  NoDup (wait_events k) /\
  (fired_ sw = false -> signaling_event_ sw = None /\ forall e, e ∈ wait_events k -> t ∈ waiting s e) /\
  (fired_ sw = true -> exists e, signaling_event_ sw = Some e /\ e ∈ wait_events k /\ (t ∈ waiting s e -> lock_ (kernels s e) = true)).
Definition pc_ok (s : state) (t : thread) (p : pc) : Prop :=
  match p with
  | Idle => True
  | SignalingAll e i => (forall w, w ∈ i -> w ∈ waiting s e) /\ (forall w, w ∈ waiting s e -> w ∈ i \/ is_fired s w)
  | SignalingOne e => forall w, w ∈ waiting s e -> ~ is_fired_by s w e
  | Holding k sw | Blocked k sw => wait_ok s t k sw
  | Leaving e r sw => fired_ sw = true /\ signaling_event_ sw = (if r then Some e else None) /\ (r = true -> t ∈ waiting s e -> lock_ (kernels s e) = true)
  | LeavingMany rest es i sw =>
      fired_ sw = true /\ NoDup es /\ (exists pre, es = pre ++ rest) /\
      exists e, signaling_event_ sw = Some e /\ (t ∈ waiting s e -> lock_ (kernels s e) = true) /\ (e ∈ rest \/ es !! i = Some e /\ t ∉ waiting s e)
  end.
(** [x] is a thread whose own part is not claimed. *)
Record Inv (x : option thread) (s : state) : Prop := {
  v_in : forall e w, w ∈ waiting s e -> exists p, threads s !! w = Some p /\ waits_on p e;
  v_nodup : forall e, NoDup (waiting s e);
  v_signaled : forall e, signaled_ (kernels s e) = true -> waiting s e = [] /\ lock_ (kernels s e) = false;
  v_held : forall t p e, threads s !! t = Some p -> signalling p e -> lock_ (kernels s e) = true;
  v_one : forall t p t' p' e, threads s !! t = Some p -> signalling p e -> threads s !! t' = Some p' -> signalling p' e -> t = t';
  v_pc : forall t p, Some t <> x -> threads s !! t = Some p -> pc_ok s t p
}.

Lemma lookup_set (l : list pc) t p p' w q : l !! t = Some p -> <[t := p']> l !! w = Some q -> w = t /\ q = p' \/ w <> t /\ l !! w = Some q.
Proof.
  intros Ht Hw. destruct (decide (w = t)) as [-> |Hn]; [left|right; by rewrite list_lookup_insert_ne in Hw].
  rewrite list_lookup_insert_eq in Hw by (by eapply lookup_lt_Some). by injection Hw as <-.
Qed.
Lemma set_same (l : list pc) t p p' : l !! t = Some p -> <[t := p']> l !! t = Some p'.
Proof. intros Ht. apply list_lookup_insert_eq. by eapply lookup_lt_Some. Qed.

(** A step that moves the thread [t] and the kernels. *)
Section Move.
Context (x y : option thread) (s : state) (t : thread) (p p' : pc) (K' : event -> WaitableEventKernel).
Context (I : Inv x s) (Hx : x = None \/ x = Some t) (Ht : threads s !! t = Some p).
Let s' := State K' (<[t := p']> (threads s)).
Context (A1 : forall e w, w ∈ waiters_ (K' e) -> (w <> t -> w ∈ waiting s e) /\ (w = t -> waits_on p' e)).
Context (A2 : forall e, NoDup (waiters_ (K' e))).
Context (A3 : forall e, signaled_ (K' e) = true -> waiters_ (K' e) = [] /\ lock_ (K' e) = false).
Context (A4 : forall e, signalling p' e -> lock_ (K' e) = true /\ (signalling p e \/ lock_ (kernels s e) = false)).
Context (A5 : forall e, lock_ (kernels s e) = true -> ~ signalling p e -> K' e = kernels s e).
Context (A6 : forall e w, w <> t -> Some w <> y -> w ∈ waiting s e -> w ∈ waiters_ (K' e) \/ is_fired s w).
Context (A7 : forall e w, w <> t -> w ∈ waiters_ (K' e) -> lock_ (kernels s e) = true -> lock_ (K' e) = true \/ ~ is_fired_by s w e).
Context (A8 : pc_fired p -> pc_fired p' \/ forall e, t ∉ waiters_ (K' e)).
Context (A9 : forall e, pc_fired_by p' e -> pc_fired_by p e \/ forall u, threads s !! u <> Some (SignalingOne e)).
Context (A10 : Some t <> y -> pc_ok s' t p').

Lemma fired_stays w : is_fired s w -> is_fired s' w \/ forall e, w ∉ waiters_ (K' e).
Proof using Ht A8.
  intros (q & Hq & Hf). destruct (decide (w = t)) as [-> |Hn]; [|left; exists q; split; [cbn; by rewrite list_lookup_insert_ne|done]].
  rewrite Ht in Hq. injection Hq as <-. destruct (A8 Hf) as [Hf'|Hout]; [left; exists p'; split; [by eapply set_same|done]|by right].
Qed.
Lemma fired_by_was w e u : is_fired_by s' w e -> threads s !! u = Some (SignalingOne e) -> is_fired_by s w e.
Proof using Ht A9.
  intros (q & Hq & Hf) Hu. destruct (lookup_set _ _ _ _ _ _ Ht Hq) as [[-> ->]|[Hn Hq']]; [|by exists q].
  destruct (A9 _ Hf) as [Hf'|Hno]; [by exists p|by destruct (Hno u)].
Qed.
Lemma other_ok w q : w <> t -> Some w <> y -> threads s !! w = Some q -> pc_ok s w q -> pc_ok s' w q.
Proof using All.
  intros Hw Hy Hq. assert (forall e, signalling q e -> K' e = kernels s e) as HK.
  { intros e Hs. apply A5; [by eapply (v_held _ _ I)|]. intros Hp. apply Hw. by eapply (v_one _ _ I). }
  assert (forall k sw, sw_of q = Some sw -> wait_ok s w k sw -> wait_ok s' w k sw) as HW.
  { intros k sw Esw (H1 & H2 & H3). split; [done|]. split.
    - intros Hf. destruct (H2 Hf) as [Hs Hin]. split; [done|]. intros e He. destruct (A6 e w Hw Hy (Hin e He)) as [|(q' & Hq' & sw' & Esw' & Hf')]; [done|]. rewrite Hq in Hq'. injection Hq' as <-. congruence.
    - intros Hf. destruct (H3 Hf) as (e & Hs & He & Hl). exists e. split; [done|]. split; [done|]. intros Hin. pose proof (proj1 (A1 _ _ Hin) Hw) as Hin0. destruct (A7 e w Hw Hin (Hl Hin0)) as [|Hno]; [done|]. destruct Hno. exists q. split; [done|]. by exists sw. }
  destruct q as [|e i|e|k sw|k sw|e r sw|rest es i sw]; cbn [pc_ok]; try done.
  - intros [H1 H2]. cbn. rewrite (HK e eq_refl). split; [done|]. intros z Hz. destruct (H2 z Hz) as [|Hf]; [by left|]. destruct (fired_stays z Hf) as [|Hout]; [by right|]. destruct (Hout e). by rewrite (HK e eq_refl).
  - intros H z Hz Hf. cbn in Hz. rewrite (HK e eq_refl) in Hz. apply (H z Hz). by eapply fired_by_was.
  - by apply HW.
  - by apply HW.
  - intros (H1 & H2 & Hl). split; [done|]. split; [done|]. intros -> Hin. pose proof (proj1 (A1 _ _ Hin) Hw) as Hin0. destruct (A7 e w Hw Hin (Hl eq_refl Hin0)) as [|Hno]; [done|]. destruct Hno. eexists. split; [done|]. by exists sw.
  - intros (H1 & Hnd & H2 & e & He & Hl & Hc). split; [done|]. split; [done|]. split; [done|]. exists e. split; [done|]. split.
    + intros Hin. pose proof (proj1 (A1 _ _ Hin) Hw) as Hin0. destruct (A7 e w Hw Hin (Hl Hin0)) as [|Hno]; [done|]. destruct Hno. eexists. split; [done|]. by exists sw.
    + destruct Hc as [|[Hi Hout]]; [by left|right]. split; [done|]. intros Hin. by apply Hout, (proj1 (A1 _ _ Hin)).
Qed.
Lemma move : Inv y s'.
Proof using All.
  split; cbn.
  - intros e w Hin. destruct (A1 _ _ Hin) as [B1 B2]. destruct (decide (w = t)) as [-> |Hn]; [exists p'; split; [by eapply set_same|by apply B2]|].
    destruct (v_in _ _ I e w (B1 Hn)) as (q & Hq & Hon). exists q. by rewrite list_lookup_insert_ne.
  - done.
  - done.
  - intros u q e Hq Hs. destruct (lookup_set _ _ _ _ _ _ Ht Hq) as [[-> ->]|[Hn Hq']]; [by apply A4|]. rewrite A5; [by eapply (v_held _ _ I)|by eapply (v_held _ _ I)|]. intros Hp. apply Hn. by eapply (v_one _ _ I).
  - intros u q u' q' e Hq Hs Hq' Hs'. assert (forall v r, v <> t -> threads s !! v = Some r -> signalling r e -> signalling p' e -> False) as HX.
    { intros v r Hv Hr Hsr Hsp. destruct (A4 _ Hsp) as [_ [Hp|Hl]]; [apply Hv; by eapply (v_one _ _ I)|]. by rewrite (v_held _ _ I _ _ _ Hr Hsr) in Hl. }
    destruct (lookup_set _ _ _ _ _ _ Ht Hq) as [[-> ->]|[Hn Hq0]], (lookup_set _ _ _ _ _ _ Ht Hq') as [[-> ->]|[Hn' Hq0']]; [done| | |by eapply (v_one _ _ I)]; exfalso; by eapply HX.
  - intros u q Hy Hq. destruct (lookup_set _ _ _ _ _ _ Ht Hq) as [[-> ->]|[Hn Hq']]; [by apply A10|]. apply other_ok; [done..|]. apply (v_pc _ _ I); [|done]. destruct Hx as [-> | ->]; [done|]. by intros [= ->].
Qed.
End Move.

(** ** The steps *)
Ltac easy_part := try done; try (intros ? []; done).
Ltac at_event :=
  repeat match goal with
  | H : context [<[?e := _]> _ ?e0] |- _ => destruct (decide (e0 = e)) as [?|?]; [subst; try done; rewrite fn_lookup_insert in H|try done; rewrite fn_lookup_insert_ne in H by done]
  | |- context [<[?e := _]> _ ?e0] => destruct (decide (e0 = e)) as [?|?]; [subst; try done; rewrite fn_lookup_insert|try done; rewrite fn_lookup_insert_ne by done]
  end; cbn in *.
Lemma not_waiting s t p e : Inv None s -> threads s !! t = Some p -> (forall e, ~ waits_on p e) -> t ∉ waiting s e.
Proof. intros I Ht Hp Hin. destruct (v_in _ _ I _ _ Hin) as (q & Hq & Hon). rewrite Ht in Hq. injection Hq as <-. by eapply Hp. Qed.
Lemma not_pc_fired p : sw_of p = None -> ~ pc_fired p.
Proof. intros E (sw & Esw & _). congruence. Qed.
Lemma not_pc_fired_by p e : sw_of p = None -> ~ pc_fired_by p e.
Proof. intros E (sw & Esw & _). congruence. Qed.
(** While no thread signals an event, those in its list were not fired by it. *)
Lemma free_not_fired s e w : Inv None s -> lock_ (kernels s e) = false -> w ∈ waiting s e -> ~ is_fired_by s w e.
Proof.
  intros I Hl Hin (q & Hq & sw & Esw & Hs). pose proof (v_pc _ _ I w q ltac:(done) Hq) as Hok. assert (forall k, wait_ok s w k sw -> False) as HW.
  { intros k (_ & H2 & H3). destruct (fired_ sw); [|destruct (H2 eq_refl); congruence]. destruct (H3 eq_refl) as (e' & Hs' & _ & Hl'). rewrite Hs in Hs'. injection Hs' as <-. rewrite Hl' in Hl by done. done. }
  destruct q as [|e' i|e'|k sw'|k sw'|e' r sw'|rest es i sw']; cbn in Esw; try done; injection Esw as ->; cbn in Hok.
  - by eapply HW.
  - by eapply HW.
  - destruct Hok as (_ & Hs' & Hl'). destruct r; [|congruence]. rewrite Hs in Hs'. injection Hs' as <-. by rewrite Hl' in Hl.
  - destruct Hok as (_ & _ & _ & e0 & Hs' & Hl' & _). rewrite Hs in Hs'. injection Hs' as <-. by rewrite Hl' in Hl.
Qed.
(** What [Fire] does to a waiter in a list. *)
Lemma Fire_cases s e w : Inv None s -> w ∈ waiting s e ->
  Fire w e s = None \/ (is_fired s w /\ Fire w e s = Some (Ret (false, s))) \/
  exists k sw, threads s !! w = Some (Blocked k sw) /\ fired_ sw = false /\ e ∈ wait_events k /\ NoDup (wait_events k) /\ Fire w e s = Some (Ret (true, set_pc w (Blocked k (Waiter true (Some e))) s)).
Proof.
  intros I Hin. destruct (v_in _ _ I _ _ Hin) as (q & Hq & Hon). pose proof (v_pc _ _ I w q ltac:(done) Hq) as Hok. unfold Fire, is_fired. rewrite Hq. destruct q as [|e' i|e'|k sw|k sw|e' r sw|rest es i sw]; cbn in Hon; try done.
  - by left.
  - right. destruct (fired_ sw) eqn:Ef; [left; split; [exists (Blocked k sw); split; [done|by exists sw]|done]|right; exists k, sw; by destruct Hok].
  - right; left. destruct Hok as [Hf _]. rewrite Hf. split; [|done]. eexists. split; [done|]. by exists sw.
  - right; left. destruct Hok as [Hf _]. rewrite Hf. split; [|done]. eexists. split; [done|]. by exists sw.
Qed.
(** The waiter [w], blocked, is fired by [e]; its own part may have been left open. *)
Lemma fire_inv x s e w k sw : Inv x s -> x = None \/ x = Some w -> threads s !! w = Some (Blocked k sw) -> fired_ sw = false -> e ∈ wait_events k -> NoDup (wait_events k) ->
  (w ∈ waiting s e -> lock_ (kernels s e) = true) -> (forall u, threads s !! u <> Some (SignalingOne e)) ->
  Inv None (set_pc w (Blocked k (Waiter true (Some e))) s).
Proof.
  intros I Hx Hw Hf He Hnd Hl Hno. apply (move x None s w (Blocked k sw) (Blocked k (Waiter true (Some e))) (kernels s) I Hx Hw); try done.
  - intros e0 v Hin. split; [done|]. intros ->. destruct (v_in _ _ I _ _ Hin) as (q & Hq & Hon). rewrite Hw in Hq. by injection Hq as <-.
  - apply (v_nodup _ _ I).
  - apply (v_signaled _ _ I).
  - by left.
  - by left.
  - intros _. left. by eexists.
  - intros e0 (sw' & [= <-] & [= <-]). by right.
  - intros _. split; [done|]. split; [done|]. intros _. by exists e.
Qed.
(** Steps of a thread that has no waiter and touches one event. *)
Lemma kernel_step y s t p p' e k : Inv None s -> threads s !! t = Some p -> (forall e, ~ waits_on p e) -> sw_of p = None -> sw_of p' = None ->
  (forall e0, signalling p e0 -> e0 = e) -> (forall e0, signalling p' e0 -> e0 = e) -> NoDup (waiters_ k) -> (forall w, w ∈ waiters_ k -> w ∈ waiting s e) ->
  (signaled_ k = true -> waiters_ k = [] /\ lock_ k = false) -> (signalling p' e -> lock_ k = true /\ (signalling p e \/ lock_ (kernels s e) = false)) ->
  (lock_ (kernels s e) = true -> signalling p e) ->
  (forall w, w <> t -> Some w <> y -> w ∈ waiting s e -> w ∈ waiters_ k \/ is_fired s w) ->
  (forall w, w <> t -> w ∈ waiters_ k -> lock_ (kernels s e) = true -> lock_ k = true \/ ~ is_fired_by s w e) ->
  (Some t <> y -> pc_ok (set_pc t p' (set_kernel e k s)) t p') -> Inv y (set_pc t p' (set_kernel e k s)).
Proof.
  intros I Ht Hp Hsw Hsw' Hse Hse' Hnd Hsub Hsig Hs' Hl H6 H7 H10. apply (move None y s t p p' (<[e:=k]> (kernels s)) I (or_introl eq_refl) Ht).
  - intros e0 w Hin. assert (w ∈ waiting s e0) as Hin0 by (at_event; [by apply Hsub|done]). split; [done|]. intros ->. by destruct (not_waiting s t p e0 I Ht Hp).
  - intros e0. at_event; [done|apply (v_nodup _ _ I)].
  - intros e0. at_event; [done|apply (v_signaled _ _ I)].
  - intros e0 Hs. pose proof (Hse' _ Hs) as ->. rewrite fn_lookup_insert. by apply Hs'.
  - intros e0 Hl0 Hn. at_event; [by destruct Hn; apply Hl|done].
  - intros e0 w Hw Hy Hin. at_event; [by apply H6|by left].
  - intros e0 w Hw Hin Hl0. at_event; [by apply H7|by left].
  - intros Hf. by apply not_pc_fired in Hf.
  - intros e0 Hf. by apply not_pc_fired_by in Hf.
  - done.
Qed.

(** Steps that leave the kernels. *)
Lemma pc_fired_stays s t p p' w : threads s !! t = Some p -> (pc_fired p -> pc_fired p') -> is_fired s w -> is_fired (set_pc t p' s) w.
Proof.
  intros Ht Hp (q & Hq & Hf). destruct (decide (w = t)) as [-> |Hn]; [|exists q; cbn; by rewrite list_lookup_insert_ne].
  rewrite Ht in Hq. injection Hq as <-. exists p'. split; [by eapply set_same|by apply Hp].
Qed.
Lemma pc_step s t p p' : Inv None s -> threads s !! t = Some p -> (forall e, t ∈ waiting s e -> waits_on p' e) -> (forall e, signalling p' e -> signalling p e) ->
  (pc_fired p -> pc_fired p' \/ forall e, t ∉ waiting s e) -> (forall e, pc_fired_by p' e -> pc_fired_by p e) -> pc_ok (set_pc t p' s) t p' -> Inv None (set_pc t p' s).
Proof.
  intros I Ht Hw Hs Hf Hb Hok. apply (move None None s t p p' (kernels s) I (or_introl eq_refl) Ht); try done.
  - intros e w Hin. split; [done|]. intros ->. by apply Hw.
  - apply (v_nodup _ _ I).
  - apply (v_signaled _ _ I).
  - intros e Hse. split; [|left; by apply Hs]. eapply (v_held _ _ I); [done|by apply Hs].
  - by left.
  - by left.
  - intros e He. left. by apply Hb.
Qed.

Section Steps.
Context (s : state) (t : thread) (I : Inv None s).
Implicit Types (os : list obs).

Lemma signaling_inv e s' os : threads s !! t = Some Idle -> Signal t e s = Some (Ret (s', os)) -> Inv None s'.
Proof using I.
  intros Ht. unfold Signal. destruct (lock_ (kernels s e)) eqn:El; [done|]. destruct (signaled_ (kernels s e)) eqn:Es; intros [= <- <-]; [done|].
  apply (kernel_step None s t Idle); cbn; easy_part.
  - by destruct (manual_reset_ (kernels s e)).
  - intros e0. by destruct (manual_reset_ (kernels s e)).
  - apply (v_nodup _ _ I).
  - by rewrite Es.
  - intros _. split; [done|by right].
  - by rewrite El.
  - by left.
  - by left.
  - intros _. destruct (manual_reset_ (kernels s e)); cbn; rewrite fn_lookup_insert; cbn; [split; [done|by left]|]. intros w Hin (q & Hq & Hf).
    destruct (lookup_set _ _ _ _ _ _ Ht Hq) as [[-> ->]|[Hn Hq']]; [by apply not_pc_fired_by in Hf|]. apply (free_not_fired s e w I El Hin). by exists q.
Qed.
(** A thread that is idle changes the signal of an event. *)
Lemma idle_inv e b : threads s !! t = Some Idle -> lock_ (kernels s e) = false -> (b = true -> signaled_ (kernels s e) = true) -> Inv None (set_kernel e (set_signaled b (kernels s e)) s).
Proof using I.
  intros Ht El Hb. assert (set_kernel e (set_signaled b (kernels s e)) s = set_pc t Idle (set_kernel e (set_signaled b (kernels s e)) s)) as -> by (unfold set_pc; cbn; by rewrite list_insert_id).
  apply (kernel_step None s t Idle); cbn; easy_part.
  - apply (v_nodup _ _ I).
  - intros Hs. apply (v_signaled _ _ I). by apply Hb.
  - by rewrite El.
  - by left.
  - by rewrite El.
Qed.
Lemma all_inv e i s' os : threads s !! t = Some (SignalingAll e i) -> SignalAll t e i s = Some (Ret (s', os)) -> Inv None s'.
Proof using I.
  intros Ht. pose proof (v_held _ _ I t _ e Ht eq_refl) as Hl. pose proof (v_pc _ _ I t _ ltac:(done) Ht) as [Hi Hin]. unfold SignalAll. destruct i as [|w i].
  - intros [= <- _]. apply (kernel_step None s t (SignalingAll e [])); cbn; easy_part.
    + by constructor.
    + intros w _ _ Hw. right. by destruct (Hin w Hw) as [[]%elem_of_nil|].
    + intros w _ Hw. by apply elem_of_nil in Hw.
  - assert (w ∈ waiting s e) as Hw by (apply Hi; left). assert (forall u, threads s !! u <> Some (SignalingOne e)) as Hno.
    { intros u Hu. assert (u = t) as -> by (by eapply (v_one _ _ I)). congruence. }
    assert (forall s1, Inv None s1 -> kernels s1 = kernels s -> threads s1 !! t = Some (SignalingAll e (w :: i)) -> is_fired s1 w -> (forall v, is_fired s v -> is_fired s1 v) -> Inv None (set_pc t (SignalingAll e i) s1)) as Hgo.
    { intros s1 I1 HK Ht1 Hf Hmono. apply (pc_step s1 t (SignalingAll e (w :: i)) (SignalingAll e i) I1 Ht1); cbn; easy_part.
      1: intros e0 Hin0; by destruct (not_waiting s1 t _ e0 I1 Ht1 ltac:(by intros ? [])).
      1: intros Hf0; by apply not_pc_fired in Hf0.
      split; rewrite HK.
      - intros v Hv. apply Hi. by right.
      - intros v Hv. assert (forall v, is_fired s1 v -> is_fired (set_pc t (SignalingAll e i) s1) v) as Hm by (intros u Hu; by apply (pc_fired_stays s1 t _ _ u Ht1)).
        destruct (Hin v Hv) as [[-> |Hvi]%elem_of_cons|Hvf]; [right; by apply Hm|by left|right; by apply Hm, Hmono]. }
    destruct (Fire_cases s e w I Hw) as [-> |[[Hf ->]|(k & sw & Hk & Hf & He & Hnd & ->)]]; [done| |]; intros [= <- _].
    + by apply Hgo.
    + assert (w <> t) as Hwt by (intros ->; congruence). apply Hgo; cbn.
      * eapply (fire_inv None); [done|by left|done..].
      * done.
      * by rewrite list_lookup_insert_ne.
      * eexists. split; [by eapply set_same|]. by eexists.
      * intros v (q & Hq & Hfq). destruct (decide (v = w)) as [-> |Hn]; [eexists; split; [by eapply set_same|by eexists]|]. exists q. cbn. by rewrite list_lookup_insert_ne.
Qed.
Lemma one_inv e s' os : threads s !! t = Some (SignalingOne e) -> SignalOne t e s = Some (Ret (s', os)) -> Inv None s'.
Proof using I.
  intros Ht. pose proof (v_held _ _ I t _ e Ht eq_refl) as Hl. pose proof (v_pc _ _ I t _ ltac:(done) Ht) as Hnf. cbn in Hnf. unfold SignalOne. destruct (waiting s e) as [|w rest] eqn:Ew.
  - intros [= <- _]. apply (kernel_step None s t (SignalingOne e)); cbn; easy_part; rewrite ?Ew; try done.
    + by constructor.
    + intros w _ _ Hw. by apply elem_of_nil in Hw.
    + intros w _ Hw. by apply elem_of_nil in Hw.
  - assert (w ∈ waiting s e) as Hw by (rewrite Ew; left). pose proof (v_nodup _ _ I e) as Hnd. rewrite Ew in Hnd. apply list.NoDup_cons in Hnd as [Hwr Hnd].
    assert (signaled_ (kernels s e) = false) as Hsig by (destruct (signaled_ (kernels s e)) eqn:Es; [apply (v_signaled _ _ I) in Es as [_ Es]; congruence|done]).
    assert (forall v, v ∈ w :: rest -> v = w \/ v ∈ rest) as Hcons by (intros v; by rewrite elem_of_cons).
    destruct (Fire_cases s e w I Hw) as [-> |[[Hf ->]|(k & sw & Hk & Hf & He & Hndk & ->)]]; [done| |]; intros [= <- _].
    + assert (set_kernel e (set_waiters rest (kernels s e)) s = set_pc t (SignalingOne e) (set_kernel e (set_waiters rest (kernels s e)) s)) as -> by (unfold set_pc; cbn; by rewrite list_insert_id).
      apply (kernel_step None s t (SignalingOne e)); cbn; easy_part; try rewrite Ew.
      * by right.
      * by rewrite Hsig.
      * split; [done|by left].
      * intros v _ _ [-> |Hv]%Hcons; [by right|by left].
      * by left.
      * intros _ v. rewrite fn_lookup_insert. cbn. intros Hv (q & Hq & Hfq). destruct (lookup_set _ _ _ _ _ _ Ht Hq) as [[-> ->]|[Hn Hq']]; [by apply not_pc_fired_by in Hfq|]. apply (Hnf v); [by apply elem_of_cons; right|by exists q].
    + assert (w <> t) as Hwt by (intros ->; congruence).
      assert (Inv (Some w) (set_pc t Idle (set_kernel e (set_lock false (set_waiters rest (kernels s e))) s))) as I1.
      { apply (kernel_step (Some w) s t (SignalingOne e)); cbn; easy_part; try rewrite Ew.
        - by right.
        - by rewrite Hsig.
        - intros v _ Hy [-> |Hv]%Hcons; [by destruct Hy|by left].
        - intros v _ Hv _. right. apply Hnf. by right. }
      assert (Inv None (set_pc w (Blocked k (Waiter true (Some e))) (set_pc t Idle (set_kernel e (set_lock false (set_waiters rest (kernels s e))) s)))) as I2.
      { eapply (fire_inv (Some w)); cbn; easy_part.
        - by right.
        - by rewrite list_lookup_insert_ne.
        - rewrite fn_lookup_insert. by intros Hv.
        - intros u Hu. destruct (lookup_set _ _ _ _ _ _ Ht Hu) as [[-> [=]]|[Hn Hu']]. apply Hn. by eapply (v_one _ _ I). }
      unfold set_pc, set_kernel in *. cbn in *. by rewrite list_insert_insert_ne in I2 by done.
Qed.
(** A thread that is idle gets in the lists of [es], which are free and not signaled. *)
Lemma enter_inv k K' : threads s !! t = Some Idle -> NoDup (wait_events k) ->
  (forall e, e ∈ wait_events k -> lock_ (kernels s e) = false /\ signaled_ (kernels s e) = false /\ K' e = Enqueue t (kernels s e)) ->
  (forall e, e ∉ wait_events k -> K' e = kernels s e) -> Inv None (set_pc t (Holding k new_waiter) (State K' (threads s))).
Proof using I.
  intros Ht Hnd Hin Hout. assert (forall e, t ∉ waiting s e) as Hno by (intros e; apply (not_waiting s t Idle e I Ht); by intros ? []).
  assert (forall e w, w ∈ waiters_ (K' e) -> w ∈ waiting s e \/ w = t /\ e ∈ wait_events k) as HK.
  { intros e w. destruct (decide (e ∈ wait_events k)) as [He|He]; [|rewrite Hout by done; by left]. destruct (Hin e He) as (_ & _ & ->). cbn. rewrite elem_of_app, list_elem_of_singleton. intros [|]; [by left|by right]. }
  apply (move None None s t Idle (Holding k new_waiter) K' I (or_introl eq_refl) Ht).
  - intros e w Hw. destruct (HK _ _ Hw) as [Hw'|[-> He]]; [split; [done|intros ->; by destruct (Hno e)]|done].
  - intros e. destruct (decide (e ∈ wait_events k)) as [He|He]; [|rewrite Hout by done; apply (v_nodup _ _ I)]. destruct (Hin e He) as (_ & _ & ->). cbn. apply list.NoDup_app. split; [apply (v_nodup _ _ I)|]. split; [|apply list.NoDup_singleton]. intros v Hv ->%list_elem_of_singleton. by destruct (Hno e).
  - intros e. destruct (decide (e ∈ wait_events k)) as [He|He]; [|rewrite Hout by done; apply (v_signaled _ _ I)]. destruct (Hin e He) as (_ & Hs & ->). cbn. by rewrite Hs.
  - done.
  - intros e Hl _. apply Hout. intros He. destruct (Hin e He) as (Hl' & _). congruence.
  - intros e w _ _ Hw. left. destruct (decide (e ∈ wait_events k)) as [He|He]; [|by rewrite Hout]. destruct (Hin e He) as (_ & _ & ->). cbn. apply elem_of_app. by left.
  - intros e w _ _ Hl. left. rewrite Hout; [done|]. intros He. destruct (Hin e He) as (Hl' & _). congruence.
  - intros Hf. by apply not_pc_fired in Hf.
  - intros e (sw & [= <-] & [=]).
  - intros _. split; [done|]. split; [|done]. intros _. split; [done|]. intros e He. cbn. destruct (Hin e He) as (_ & _ & ->). cbn. apply elem_of_app. right. by left.
Qed.
Lemma loop_inv k sw b : threads s !! t = Some (Holding k sw) -> Inv None (loop t k sw b s).
Proof using I.
  intros Ht. pose proof (v_pc _ _ I t _ ltac:(done) Ht) as Hok. cbn in Hok. assert (forall e, t ∈ waiting s e -> e ∈ wait_events k) as Hon.
  { intros e Hin. destruct (v_in _ _ I _ _ Hin) as (q & Hq & Hon). rewrite Ht in Hq. by injection Hq as <-. }
  assert (Inv None (set_pc t (Blocked k sw) s)) as HB.
  { apply (pc_step s t (Holding k sw)); try done. by left. }
  unfold loop. destruct k as [e fin|es]; [destruct (fired_ sw || fin && b) eqn:Ec; [|done]|destruct (fired_ sw) eqn:Ef; [|done]].
  - destruct Hok as (_ & H2 & H3). apply (pc_step s t (Holding (Timed e fin) sw)); try done.
    + intros e0 Hin. cbn. pose proof (Hon e0 Hin) as Hon0. by apply list_elem_of_singleton in Hon0.
    + intros _. left. by eexists.
    + intros e0 (sw' & [= <-] & Hs). by exists sw.
    + destruct (fired_ sw) eqn:Ef; cbn; (split; [done|]).
      * destruct (H3 eq_refl) as (e0 & Hs & He & Hl). apply list_elem_of_singleton in He as ->. split; [done|]. intros _. exact Hl.
      * split; [by apply H2|done].
  - destruct Hok as (Hnd & _ & H3). destruct (H3 Ef) as (e0 & Hs & He & Hl). apply (pc_step s t (Holding (Many es) sw)); try done.
    + intros _. left. by exists sw.
    + cbn. split; [done|]. split; [done|]. split; [by exists []|]. exists e0. split; [done|]. split; [done|by left].
Qed.
Lemma wake_inv k sw : threads s !! t = Some (Blocked k sw) -> Inv None (set_pc t (Holding k sw) s).
Proof using I.
  intros Ht. pose proof (v_pc _ _ I t _ ltac:(done) Ht) as Hok. apply (pc_step s t (Blocked k sw)); try done; [|by left].
  intros e Hin. destruct (v_in _ _ I _ _ Hin) as (q & Hq & Hon). rewrite Ht in Hq. by injection Hq as <-.
Qed.
Lemma remove_first_spec l w : NoDup l -> NoDup (remove_first w l).2 /\ forall v, v ∈ (remove_first w l).2 <-> v ∈ l /\ v <> w.
Proof.
  induction 1 as [|x l Hx Hnd [IH1 IH2]]; cbn; [split; [constructor|intros v; rewrite elem_of_nil; tauto]|].
  destruct (Nat.eqb_spec x w) as [-> |Hn]; cbn.
  - split; [done|]. intros v. rewrite elem_of_cons. split; [|tauto]. intros Hv. split; [by right|]. by intros ->.
  - destruct (remove_first w l) as [b l']. cbn in *. split; [constructor; [rewrite IH2; tauto|done]|]. intros v. rewrite !elem_of_cons, IH2. split; [|tauto]. intros [-> |]; tauto.
Qed.
(** A thread takes itself from the list of an event that is free. *)
Lemma dequeue_inv p p' e : threads s !! t = Some p -> lock_ (kernels s e) = false -> (forall e0, ~ signalling p e0) -> (forall e0, ~ signalling p' e0) ->
  (forall e0, e0 <> e -> t ∈ waiting s e0 -> waits_on p' e0) -> (pc_fired p -> pc_fired p' \/ forall e0, e0 <> e -> t ∉ waiting s e0) -> (forall e0, pc_fired_by p' e0 -> pc_fired_by p e0) ->
  (let s' := set_pc t p' (set_kernel e (Dequeue t (kernels s e)).2 s) in (forall e0, e0 <> e -> kernels s' e0 = kernels s e0) -> t ∉ waiting s' e -> pc_ok s' t p') ->
  Inv None (set_pc t p' (set_kernel e (Dequeue t (kernels s e)).2 s)).
Proof using I.
  intros Ht Hl Hs Hs' Hw Hf Hb Hok. destruct (remove_first_spec (waiting s e) t (v_nodup _ _ I e)) as [Hnd Hin].
  assert ((Dequeue t (kernels s e)).2 = set_waiters (remove_first t (waiting s e)).2 (kernels s e)) as ED by (unfold Dequeue; by destruct (remove_first _ _)). rewrite ED in *.
  apply (move None None s t p p' (<[e:=set_waiters (remove_first t (waiting s e)).2 (kernels s e)]> (kernels s)) I (or_introl eq_refl) Ht).
  - intros e0 w Hw0. at_event; [apply Hin in Hw0 as [Hw0 Hne]; by split|]. split; [done|]. intros ->. by apply Hw.
  - intros e0. at_event; [done|apply (v_nodup _ _ I)].
  - intros e0. at_event; [|apply (v_signaled _ _ I)]. intros Hsg. destruct (v_signaled _ _ I e Hsg) as [E _]. by rewrite E.
  - intros e0 Hse. by destruct (Hs' e0).
  - intros e0 Hl0 _. at_event; [congruence|done].
  - intros e0 w Hwt _ Hw0. left. at_event; [by apply Hin|done].
  - intros e0 w _ _ Hl0. left. at_event; congruence.
  - intros Hf0. destruct (Hf Hf0) as [|Hno]; [by left|right]. intros e0 Hin0. at_event; [by apply Hin in Hin0 as [_ ?]|by eapply Hno].
  - intros e0 He0. left. by apply Hb.
  - intros _. apply Hok; cbn; [intros e0 Hne; by rewrite fn_lookup_insert_ne|]. rewrite fn_lookup_insert. cbn. by intros [_ ?]%Hin.
Qed.
Lemma leaving_inv e r sw : threads s !! t = Some (Leaving e r sw) -> lock_ (kernels s e) = false -> Inv None (set_pc t Idle (set_kernel e (Dequeue t (kernels s e)).2 s)).
Proof using I.
  intros Ht Hl. assert (forall e0, e0 <> e -> t ∉ waiting s e0) as Hno.
  { intros e0 Hne Hin. destruct (v_in _ _ I _ _ Hin) as (q & Hq & Hon). rewrite Ht in Hq. injection Hq as <-. cbn in Hon. congruence. }
  apply (dequeue_inv (Leaving e r sw)); try done.
  - by intros e0 [].
  - by intros e0 [].
  - intros _. by right.
  - intros e0 Hf. by apply not_pc_fired_by in Hf.
Qed.
Lemma leave_many_inv rest es i sw s' os : threads s !! t = Some (LeavingMany rest es i sw) -> leave_many t rest es i sw s = Some (Ret (s', os)) -> Inv None s'.
Proof using I.
  intros Ht. destruct (v_pc _ _ I t _ ltac:(done) Ht) as (Hf & Hnd & (pre & Epre) & e1 & Hs1 & Hl1 & Hc). assert (forall e0, t ∈ waiting s e0 -> e0 ∈ rest) as Hon.
  { intros e0 Hin. destruct (v_in _ _ I _ _ Hin) as (q & Hq & Hon). rewrite Ht in Hq. by injection Hq as <-. }
  assert (NoDup rest) as Hndr by (rewrite Epre in Hnd; by apply list.NoDup_app in Hnd as (_ & _ & ?)).
  unfold leave_many. destruct rest as [|e rest].
  - intros [= <- _]. apply (pc_step s t (LeavingMany [] es i sw)); try done.
    + intros e0 Hin. by apply Hon, elem_of_nil in Hin.
    + intros _. right. intros e0 Hin. by apply Hon, elem_of_nil in Hin.
    + intros e0 Hf0. by apply not_pc_fired_by in Hf0.
  - destruct (lock_ (kernels s e)) eqn:El; [done|]. apply list.NoDup_cons in Hndr as [Her Hndr]. assert (forall e0, e0 ∈ e :: rest -> e0 <> e -> e0 ∈ rest) as Hcons by (intros e0 [-> |]%elem_of_cons; done).
    assert (exists pre, es = pre ++ rest) as Hpre by (exists (pre ++ [e]); by rewrite <- app_assoc).
    unfold fired_by. destruct (bool_decide_reflect (signaling_event_ sw = Some e)) as [Ee|Ee]; intros [= <- _].
    + rewrite Hs1 in Ee. injection Ee as ->. assert (t ∉ waiting s e) as Hout by (intros Hin; by rewrite Hl1 in El).
      apply (pc_step s t (LeavingMany (e :: rest) es i sw)); try done.
      * intros e0 Hin. apply Hcons; [by apply Hon|]. by intros ->.
      * intros _. left. by exists sw.
      * cbn. split; [done|]. split; [done|]. split; [done|]. exists e. split; [done|]. split; [done|]. right. split; [|done]. rewrite Epre, !length_app. cbn [length]. replace (length pre + S (length rest) - length rest - 1)%nat with (length pre) by lia. by rewrite lookup_app_r, Nat.sub_diag.
    + apply (dequeue_inv (LeavingMany (e :: rest) es i sw)); try done.
      * by intros e0 [].
      * by intros e0 [].
      * intros e0 Hne Hin. apply Hcons; [by apply Hon|done].
      * intros _. left. by exists sw.
      * intros s' HK Hout. cbn [pc_ok]. split; [done|]. split; [done|]. split; [done|]. exists e1. split; [done|]. assert (e1 <> e) as Hne by congruence. rewrite !(HK e1 Hne). split; [done|].
        destruct Hc as [Hc|Hc]; [left; by apply Hcons|by right].
Qed.
End Steps.

(** ** [EnqueueMany] *)
Lemma EnqueueMany_spec t l : forall s, NoDup l.*1 -> locks_free l s = true ->
  let '(r, s1) := EnqueueMany l t s in
  threads s1 = threads s /\
  ((r = 0%nat /\ (forall e, e ∈ l.*1 -> lock_ (kernels s e) = false /\ signaled_ (kernels s e) = false /\ kernels s1 e = Enqueue t (kernels s e)) /\ (forall e, e ∉ l.*1 -> kernels s1 e = kernels s e)) \/
   exists pre e i suf, l = pre ++ (e, i) :: suf /\ r = S (length suf) /\ signaled_ (kernels s e) = true /\ lock_ (kernels s e) = false /\ s1 = (if manual_reset_ (kernels s e) then s else set_kernel e (set_signaled false (kernels s e)) s)).
Proof.
  induction l as [|[e i] l IH]; intros s Hnd Hl; cbn; [split; [done|]; left; split; [done|]; split; [by intros e He%elem_of_nil|done]|].
  cbn in Hnd, Hl. apply list.NoDup_cons in Hnd as [He Hnd]. apply andb_true_iff in Hl as [Hle%negb_true_iff Hl]. destruct (signaled_ (kernels s e)) eqn:Es; cbn in Hl.
  - split; [by destruct (manual_reset_ _)|]. right. by exists [], e, i, l.
  - specialize (IH s Hnd Hl). destruct (EnqueueMany l t s) as [r s1]. destruct IH as [HT [(-> & H1 & H2)|(pre & e' & i' & suf & -> & -> & H)]]; cbn.
    + split; [done|]. left. split; [done|]. split.
      * intros e0 [-> |He0]%elem_of_cons; [rewrite fn_lookup_insert, H2 by done; done|]. assert (e0 <> e) by (by intros ->). rewrite fn_lookup_insert_ne by done. by apply H1.
      * intros e0 He0. apply not_elem_of_cons in He0 as [Hne He0]. rewrite fn_lookup_insert_ne by done. by apply H2.
    + split; [done|]. right. by exists ((e, i) :: pre), e', i', suf.
Qed.
Lemma insert_addr_perm x l : insert_addr x l ≡ₚ x :: l.
Proof. induction l as [|y l IH]; cbn [insert_addr]; [reflexivity|]. destruct (x.1 <? y.1)%nat; [reflexivity|]. rewrite IH. apply perm_swap. Qed.
Lemma sort_addr_perm l : sort_addr l ≡ₚ l.
Proof. induction l as [|x l IH]; cbn; [reflexivity|]. rewrite insert_addr_perm, IH; reflexivity. Qed.
Lemma sorted_events (es : list event) : (sort_addr (imap (fun i e => (e, i)) es)).*1 ≡ₚ es.
Proof. rewrite sort_addr_perm. assert ((imap (fun i e => (e, i)) es).*1 = es) as ->; [|reflexivity]. apply list_eq. intros i. rewrite list_lookup_fmap, list_lookup_imap. by destruct (es !! i). Qed.

(** ** Any step *)
Definition action_ok (a : action) : Prop := match a with CallWaitMany es => es <> [] /\ NoDup es | _ => True end.
Section Exec.
Context (dcheck_on : bool).
Lemma many_inv s t es s' os : Inv None s -> threads s !! t = Some Idle -> WaitMany dcheck_on t es s = Some (Ret (s', os)) -> Inv None s'.
Proof.
  intros I Ht. unfold WaitMany. destruct (dcheck_on && _); [done|]. destruct (bool_decide (es = [])); [done|]. destruct (bool_decide_reflect (NoDup es)) as [Hnd|]; [|done]. cbn [negb orb].
  pose proof (sorted_events es) as HP. set (l := sort_addr (imap (fun i e => (e, i)) es)) in *. destruct (locks_free l s) eqn:El; [|done]. cbn [negb]. assert (NoDup l.*1) as Hndl by (by rewrite HP).
  pose proof (EnqueueMany_spec t l s Hndl El) as HE. destruct (EnqueueMany l t s) as [r s1]. destruct HE as [HT [(-> & H1 & H2)|(pre & e & i & suf & _ & -> & Hs & Hl & ->)]].
  - intros [= <- _]. replace s1 with (State (kernels s1) (threads s)) by (rewrite <- HT; by destruct s1). apply (enter_inv s t I (Many es) (kernels s1) Ht Hnd).
    + intros e He. apply H1. by rewrite HP.
    + intros e He. apply H2. by rewrite HP.
  - cbn [Nat.eqb]. destruct (l !! _) as [[e' i']|]; [|done]. intros [= <- _]. destruct (manual_reset_ (kernels s e)); [done|]. by apply (idle_inv s t I e false).
Qed.
Lemma wait_inv s t e fin s' os : Inv None s -> threads s !! t = Some Idle -> TimedWait t e fin s = Some (Ret (s', os)) -> Inv None s'.
Proof.
  intros I Ht. unfold TimedWait. destruct (lock_ (kernels s e)) eqn:El; [done|]. destruct (signaled_ (kernels s e)) eqn:Es; intros [= <- _].
  - destruct (manual_reset_ (kernels s e)); [done|]. by apply (idle_inv s t I e false).
  - apply (enter_inv s t I (Timed e fin) (<[e := Enqueue t (kernels s e)]> (kernels s)) Ht); [apply list.NoDup_singleton| |].
    + intros e0 ->%list_elem_of_singleton. by rewrite fn_lookup_insert.
    + intros e0 He. rewrite fn_lookup_insert_ne; [done|]. intros ->. apply He. by left.
Qed.
Lemma exec_inv s t a s' os : Inv None s -> exec dcheck_on t a s = Some (Ret (s', os)) -> Inv None s'.
Proof.
  intros I. unfold exec. destruct (threads s !! t) as [p|] eqn:Ht; [|done]. destruct p as [|e i|e|k sw|k sw|e r sw|rest es i sw], a as [e'|e'|e'|e' fin|es'|b]; try done.
  - by apply signaling_inv.
  - unfold Reset. destruct (lock_ (kernels s e')) eqn:El; [done|]. intros [= <- _]. by apply (idle_inv s t I e' false).
  - unfold IsSignaled. destruct (lock_ (kernels s e')) eqn:El; [done|]. destruct (signaled_ (kernels s e')); intros [= <- _]; [|done]. destruct (manual_reset_ (kernels s e')); [done|]. by apply (idle_inv s t I e' false).
  - by apply wait_inv.
  - by apply many_inv.
  - by apply all_inv.
  - by apply one_inv.
  - intros [= <- _]. by apply loop_inv.
  - intros [= <- _]. by eapply wake_inv.
  - destruct (lock_ (kernels s e)) eqn:El; [done|]. intros [= <- _]. by eapply leaving_inv.
  - by apply leave_many_inv.
Qed.
Lemma first_state_ok events n : Inv None (State (fun e => new_kernel (events e).1 (events e).2) (replicate n Idle)).
Proof.
  split; cbn.
  - by intros e w Hw%elem_of_nil.
  - intros e. constructor.
  - done.
  - intros t p e Ht. apply lookup_replicate in Ht as [-> _]. by intros [].
  - intros t p t' p' e Ht. apply lookup_replicate in Ht as [-> _]. by intros [].
  - intros t p _ Ht. by apply lookup_replicate in Ht as [-> _].
Qed.
Lemma reaches_inv events n tr s : reaches dcheck_on events n tr s -> Inv None s.
Proof. induction 1 as [|tr s t a s' os _ IH E]; [apply first_state_ok|by eapply exec_inv]. Qed.
(** No pointer to a waiter that is gone is used, and no assertion fails. *)
Lemma exec_no_fault s t a f : Inv None s -> action_ok a -> exec dcheck_on t a s <> Some (Fault f).
Proof.
  intros I Ha. unfold exec. destruct (threads s !! t) as [p|] eqn:Ht; [|done]. destruct p as [|e i|e|k sw|k sw|e r sw|rest es i sw], a as [e'|e'|e'|e' fin|es'|b]; try done.
  - unfold Signal. by destruct (lock_ (kernels s e')), (signaled_ (kernels s e')).
  - unfold Reset. by destruct (lock_ (kernels s e')).
  - unfold IsSignaled. by destruct (lock_ (kernels s e')), (signaled_ (kernels s e')).
  - unfold TimedWait. by destruct (lock_ (kernels s e')), (signaled_ (kernels s e')).
  - destruct Ha as [Hne Hnd]. unfold WaitMany. rewrite !bool_decide_eq_false_2, bool_decide_eq_true_2 by done. cbn [negb orb]. rewrite andb_false_r. pose proof (sorted_events es') as HP. set (l := sort_addr (imap (fun i e => (e, i)) es')) in *. destruct (locks_free l s) eqn:El; [|done]. cbn [negb].
    assert (NoDup l.*1) as Hndl by (by rewrite HP). assert (length es' = length l) as HL by (rewrite <- HP; by rewrite length_fmap).
    pose proof (EnqueueMany_spec t l s Hndl El) as HE. destruct (EnqueueMany l t s) as [r s1]. destruct HE as [HT [(-> & _)|(pre & e & i & suf & E & -> & _)]]; [done|]. cbn [Nat.eqb]. rewrite HL, E, length_app. cbn [length]. replace (length pre + S (length suf) - S (length suf))%nat with (length pre) by lia. by rewrite lookup_app_r, Nat.sub_diag.
  - unfold SignalAll. destruct i as [|w i]; [done|]. pose proof (v_pc _ _ I t _ ltac:(done) Ht) as [Hi _]. destruct (Fire_cases s e w I) as [-> |[[_ ->]|(? & ? & _ & _ & _ & _ & ->)]]; [apply Hi; left|done..].
  - unfold SignalOne. destruct (waiting s e) as [|w rest] eqn:Ew; [done|]. destruct (Fire_cases s e w I) as [-> |[[_ ->]|(? & ? & _ & _ & _ & _ & ->)]]; [rewrite Ew; left|done..].
  - by destruct (lock_ (kernels s e)).
  - unfold leave_many. destruct rest as [|e rest]; [done|]. by destruct (lock_ (kernels s e)), (fired_by sw e).
Qed.
End Exec.

(** * Signals are conserved *)
Definition count (f : obs -> bool) (tr : list obs) : nat := length (List.filter f tr).
Definition is_sent (e : event) (o : obs) : bool := match o with Sent e' => e' =? e | _ => false end%nat.
Definition is_got (e : event) (o : obs) : bool := match o with Got _ e' _ => e' =? e | _ => false end%nat.
Definition is_cleared (e : event) (o : obs) : bool := match o with Cleared e' => e' =? e | _ => false end%nat.
Definition b2n (b : bool) : nat := if b then 1 else 0.
(** A thread that was fired by [e] and has not returned yet. *)
Definition owed (e : event) (p : pc) : nat := match sw_of p with Some sw => b2n (fired_by sw e) | None => 0 end.
Definition all_owed (e : event) (s : state) : nat := sum_list_with (owed e) (threads s).
(** Only events that are reset by hand fire all of their waiters. *)
Definition kinds (s : state) : Prop := forall t e i, threads s !! t = Some (SignalingAll e i) -> manual_reset_ (kernels s e) = true.
(** What a step of an event that resets itself leaves unchanged. *)
Definition balanced (e : event) (os : list obs) (s s' : state) : Prop :=
  (count (is_sent e) os + b2n (signaled_ (kernels s e)) + all_owed e s = count (is_got e) os + count (is_cleared e) os + b2n (signaled_ (kernels s' e)) + all_owed e s')%nat.
Definition step_fine (s : state) (os : list obs) (s' : state) : Prop :=
  kinds s' /\ forall e, manual_reset_ (kernels s' e) = manual_reset_ (kernels s e) /\ (manual_reset_ (kernels s e) = false -> balanced e os s s').

Lemma count_app f l k : count f (l ++ k) = (count f l + count f k)%nat.
Proof. unfold count. by rewrite List.filter_app, length_app. Qed.
Lemma owed_set e (l : list pc) t p p' : l !! t = Some p -> (sum_list_with (owed e) (<[t := p']> l) + owed e p = sum_list_with (owed e) l + owed e p')%nat.
Proof.
  intros Ht. pose proof (take_drop_middle l t p Ht) as E. rewrite <- E at 2. rewrite insert_take_drop by (by eapply lookup_lt_Some). rewrite !sum_list_with_app. cbn. lia.
Qed.
Lemma kinds_set s t p' K' : kinds s -> (forall e, manual_reset_ (K' e) = manual_reset_ (kernels s e)) -> (forall e i, p' = SignalingAll e i -> manual_reset_ (kernels s e) = true) -> kinds (set_pc t p' (State K' (threads s))).
Proof.
  intros HK Hm Hp u e i Hu. cbn in *. rewrite Hm. destruct (decide (u = t)) as [-> |Hn]; [|rewrite list_lookup_insert_ne in Hu by done; by eapply HK].
  destruct (decide (t < length (threads s))%nat); [|by rewrite list_insert_ge, lookup_ge_None_2 in Hu by lia]. rewrite list_lookup_insert_eq in Hu by done. injection Hu as ->. by eapply Hp.
Qed.
(** Steps of one thread. *)
Lemma fine_set s t p p' K' os : kinds s -> threads s !! t = Some p -> (forall e, manual_reset_ (K' e) = manual_reset_ (kernels s e)) -> (forall e i, p' = SignalingAll e i -> manual_reset_ (kernels s e) = true) ->
  (forall e, manual_reset_ (kernels s e) = false -> (count (is_sent e) os + b2n (signaled_ (kernels s e)) + owed e p = count (is_got e) os + count (is_cleared e) os + b2n (signaled_ (K' e)) + owed e p')%nat) ->
  step_fine s os (set_pc t p' (State K' (threads s))).
Proof.
  intros HK Ht Hm Hp Hb. split; [by apply kinds_set|]. intros e. cbn. split; [done|]. intros Ha. specialize (Hb e Ha). unfold balanced, all_owed. cbn. pose proof (owed_set e (threads s) t p p' Ht). lia.
Qed.
Lemma not_fired_by sw e : signaling_event_ sw = None -> fired_by sw e = false.
Proof. intros E. unfold fired_by. by rewrite E. Qed.
Lemma fired_by_one sw e e0 : signaling_event_ sw = Some e -> fired_by sw e0 = (e =? e0)%nat.
Proof. intros E. unfold fired_by. rewrite E. destruct (Nat.eqb_spec e e0) as [-> |Hn]; [by apply bool_decide_eq_true|]. apply bool_decide_eq_false. by intros [= ->]. Qed.
Ltac at_event' := at_event; cbn; rewrite ?Nat.eqb_refl; repeat match goal with H : ?a <> ?b |- context [(?b =? ?a)%nat] => rewrite (proj2 (Nat.eqb_neq b a)) by (by intros ->) end; cbn.

Section Balance.
Context (dcheck_on : bool) (s : state) (t : thread) (I : Inv None s) (HK : kinds s).
Lemma idle_fine e b os : threads s !! t = Some Idle ->
  (manual_reset_ (kernels s e) = false -> (b2n (signaled_ (kernels s e)) = count (is_got e) os + count (is_cleared e) os + b2n b)%nat) -> (forall e0, count (is_sent e0) os = 0%nat) -> (forall e0, e0 <> e -> count (is_got e0) os = 0 /\ count (is_cleared e0) os = 0)%nat ->
  step_fine s os (set_kernel e (set_signaled b (kernels s e)) s).
Proof using HK.
  intros Ht H1 H2 H3. assert (set_kernel e (set_signaled b (kernels s e)) s = set_pc t Idle (State (<[e := set_signaled b (kernels s e)]> (kernels s)) (threads s))) as -> by (unfold set_pc; cbn; by rewrite list_insert_id).
  apply (fine_set s t Idle); try done.
  - intros e0. by at_event.
  - intros e0 Ha. rewrite H2. at_event; [specialize (H1 Ha); lia|]. destruct (H3 e0) as [-> ->]; [done|lia].
Qed.
(** Nothing happens to an event that is reset by hand. *)
Lemma idle_keep e os : threads s !! t = Some Idle -> manual_reset_ (kernels s e) = true -> (forall e0, count (is_sent e0) os = 0%nat) -> (forall e0, e0 <> e -> count (is_got e0) os = 0 /\ count (is_cleared e0) os = 0)%nat -> step_fine s os s.
Proof using HK.
  intros Ht Hm H2 H3. split; [done|]. intros e0. split; [done|]. intros Ha. unfold balanced. rewrite H2. destruct (decide (e0 = e)) as [-> |Hn]; [congruence|]. destruct (H3 e0 Hn) as [-> ->]. lia.
Qed.
Lemma enter_fine k K' : threads s !! t = Some Idle -> (forall e, e ∈ wait_events k -> K' e = Enqueue t (kernels s e)) -> (forall e, e ∉ wait_events k -> K' e = kernels s e) -> step_fine s [] (set_pc t (Holding k new_waiter) (State K' (threads s))).
Proof using HK.
  intros Ht H1 H2. assert (forall e, manual_reset_ (K' e) = manual_reset_ (kernels s e) /\ signaled_ (K' e) = signaled_ (kernels s e)) as H by (intros e; destruct (decide (e ∈ wait_events k)) as [He|He]; [by rewrite H1|by rewrite H2]).
  apply (fine_set s t Idle); try done; [apply H|]. intros e _. destruct (H e) as [_ ->]. done.
Qed.
(** A step that makes a signal into a thread that was fired. *)
Lemma fire_fine e w k sw K' p p' os : threads s !! w = Some (Blocked k sw) -> fired_ sw = false -> w <> t -> threads s !! t = Some p -> owed e p = 0%nat -> sw_of p = None -> sw_of p' = None -> (forall e0 i, p' = SignalingAll e0 i -> manual_reset_ (kernels s e0) = true) ->
  (forall e0, manual_reset_ (K' e0) = manual_reset_ (kernels s e0)) -> (forall e0, signaled_ (K' e0) = signaled_ (kernels s e0)) ->
  (manual_reset_ (kernels s e) = false -> os = [Sent e]) -> (os = [] \/ os = [Sent e]) ->
  step_fine s os (set_pc t p' (State K' (<[w := Blocked k (Waiter true (Some e))]> (threads s)))).
Proof using HK I.
  intros Hw Hf Hwt Ht _ Hp Hp' Hall Hm Hs Hos Hos'. split.
  - intros u e0 i Hu. cbn in *. rewrite Hm. destruct (decide (u = t)) as [-> |Hn].
    + rewrite list_lookup_insert_eq in Hu by (rewrite length_insert; by eapply lookup_lt_Some). injection Hu as ->. by eapply Hall.
    + rewrite list_lookup_insert_ne in Hu by done. destruct (lookup_set _ _ _ _ _ _ Hw Hu) as [[_ [=]]|[_ Hu']]. by eapply HK.
  - intros e0. cbn. split; [done|]. intros Ha. unfold balanced, all_owed. cbn. rewrite Hs.
    assert (<[w := Blocked k (Waiter true (Some e))]> (threads s) !! t = Some p) as Ht' by (by rewrite list_lookup_insert_ne).
    pose proof (owed_set e0 _ t p p' Ht') as E1. pose proof (owed_set e0 _ w _ (Blocked k (Waiter true (Some e))) Hw) as E2.
    pose proof (v_pc _ _ I w _ ltac:(done) Hw) as (_ & Hn & _). destruct (Hn Hf) as [Hsig _]. unfold owed at 2 4 in E1. rewrite Hp, Hp' in E1. unfold owed at 2 4 in E2. cbn [sw_of] in E2. rewrite not_fired_by in E2 by done. rewrite (fired_by_one _ e) in E2 by done.
    destruct (Nat.eqb_spec e e0) as [-> |Hne]; cbn [b2n] in E2.
    + rewrite (Hos Ha). cbn. rewrite Nat.eqb_refl. cbn. lia.
    + destruct Hos' as [-> | ->]; cbn; rewrite ?(proj2 (Nat.eqb_neq _ _) Hne); cbn; lia.
Qed.
End Balance.
Section ExecBalance.
Context (dcheck_on : bool) (s : state) (t : thread) (I : Inv None s) (HK : kinds s).
Implicit Types (os : list obs).
Lemma start_fine e s' os : threads s !! t = Some Idle -> Signal t e s = Some (Ret (s', os)) -> step_fine s os s'.
Proof using HK.
  intros Ht. unfold Signal. destruct (lock_ (kernels s e)) eqn:El; [done|]. destruct (signaled_ (kernels s e)) eqn:Es; intros [= <- <-]; [split; [done|]; intros e0; by split|].
  apply (fine_set s t Idle); try done.
  - intros e0. by at_event.
  - intros e0 i. destruct (manual_reset_ (kernels s e)) eqn:Em; [|done]. by intros [= <- _].
  - intros e0 Ha. assert (owed e0 (if manual_reset_ (kernels s e) then SignalingAll e (waiting s e) else SignalingOne e) = owed e0 Idle) as -> by (by destruct (manual_reset_ (kernels s e))). by at_event.
Qed.
Lemma all_fine e i s' os : threads s !! t = Some (SignalingAll e i) -> SignalAll t e i s = Some (Ret (s', os)) -> step_fine s os s'.
Proof using HK I.
  intros Ht. pose proof (HK t e i Ht) as Hm. pose proof (v_pc _ _ I t _ ltac:(done) Ht) as [Hi _]. unfold SignalAll. destruct i as [|w i].
  - intros [= <- <-]. apply (fine_set s t (SignalingAll e [])); try done.
    + intros e0. by at_event.
    + intros e0 Ha. at_event; [congruence|]. cbn. rewrite (proj2 (Nat.eqb_neq e e0)) by (by intros ->). cbn. lia.
  - destruct (Fire_cases s e w I) as [-> |[[_ ->]|(k & sw & Hk & Hf & _ & _ & ->)]]; [apply Hi; left|done| |]; intros [= <- <-].
    + apply (fine_set s t (SignalingAll e (w :: i)) (SignalingAll e i) (kernels s)); try done. by intros e0 i0 [= <- _].
    + apply (fire_fine s t I HK e w k sw (kernels s) (SignalingAll e (w :: i)) (SignalingAll e i)); try done.
      * intros ->. congruence.
      * by intros e0 i0 [= <- _].
      * by rewrite Hm.
      * by left.
Qed.
Lemma one_fine e s' os : threads s !! t = Some (SignalingOne e) -> SignalOne t e s = Some (Ret (s', os)) -> step_fine s os s'.
Proof using HK I.
  intros Ht. pose proof (v_held _ _ I t _ e Ht eq_refl) as Hl. assert (signaled_ (kernels s e) = false) as Hsig by (destruct (signaled_ (kernels s e)) eqn:Es; [apply (v_signaled _ _ I) in Es as [_ Es]; congruence|done]).
  unfold SignalOne. destruct (waiting s e) as [|w rest] eqn:Ew.
  - intros [= <- <-]. apply (fine_set s t (SignalingOne e)); try done.
    + intros e0. by at_event.
    + intros e0 Ha. at_event; [rewrite Hsig; cbn; rewrite Nat.eqb_refl; done|]. cbn. rewrite (proj2 (Nat.eqb_neq e e0)) by (by intros ->). cbn. lia.
  - destruct (Fire_cases s e w I) as [-> |[[_ ->]|(k & sw & Hk & Hf & _ & _ & ->)]]; [rewrite Ew; left|done| |]; intros [= <- <-].
    + assert (set_kernel e (set_waiters rest (kernels s e)) s = set_pc t (SignalingOne e) (State (<[e := set_waiters rest (kernels s e)]> (kernels s)) (threads s))) as -> by (unfold set_pc; cbn; by rewrite list_insert_id).
      apply (fine_set s t (SignalingOne e)); try done; intros e0; [by at_event|]. intros _. by at_event.
    + apply (fire_fine s t I HK e w k sw (<[e := set_lock false (set_waiters rest (kernels s e))]> (kernels s)) (SignalingOne e) Idle); try done.
      * intros ->. congruence.
      * intros e0. by at_event.
      * intros e0. by at_event.
      * by right.
Qed.
Lemma leave_fine e r sw : threads s !! t = Some (Leaving e r sw) -> step_fine s [if r then Got t e 0 else TimedOut t e] (set_pc t Idle (set_kernel e (Dequeue t (kernels s e)).2 s)).
Proof using HK I.
  intros Ht. destruct (v_pc _ _ I t _ ltac:(done) Ht) as (_ & Hs & _). assert ((Dequeue t (kernels s e)).2 = set_waiters (remove_first t (waiting s e)).2 (kernels s e)) as -> by (unfold Dequeue; by destruct (remove_first _ _)).
  apply (fine_set s t (Leaving e r sw) Idle (<[e := _]> (kernels s))); try done.
  - intros e0. by at_event.
  - intros e0 _. assert (owed e0 (Leaving e r sw) = count (is_got e0) [if r then Got t e 0 else TimedOut t e]) as ->.
    { unfold owed, count. cbn. destruct r; [rewrite (fired_by_one _ e) by done; cbn; by destruct (e =? e0)%nat|by rewrite not_fired_by]. }
    assert (count (is_sent e0) [if r then Got t e 0 else TimedOut t e] = 0%nat /\ count (is_cleared e0) [if r then Got t e 0 else TimedOut t e] = 0%nat) as [-> ->] by (by destruct r). assert (b2n (signaled_ (<[e:=set_waiters (remove_first t (waiting s e)).2 (kernels s e)]> (kernels s) e0)) = b2n (signaled_ (kernels s e0))) as -> by (by at_event). cbn. lia.
Qed.
Lemma leave_many_fine rest es i sw s' os : threads s !! t = Some (LeavingMany rest es i sw) -> leave_many t rest es i sw s = Some (Ret (s', os)) -> step_fine s os s'.
Proof using HK I.
  intros Ht. destruct (v_pc _ _ I t _ ltac:(done) Ht) as (_ & _ & _ & e1 & Hs1 & _ & Hc). unfold leave_many. destruct rest as [|e rest].
  - destruct Hc as [Hc%elem_of_nil|[Hc _]]; [done|]. rewrite Hc. intros [= <- <-]. apply (fine_set s t (LeavingMany [] es i sw) Idle (kernels s)); try done.
    intros e0 _. unfold owed, count. cbn. rewrite (fired_by_one _ e1) by done. destruct (e1 =? e0)%nat; cbn; lia.
  - destruct (lock_ (kernels s e)); [done|]. assert (forall i', owed e i' = owed e i') as _ by done. destruct (fired_by sw e); intros [= <- <-].
    + by apply (fine_set s t (LeavingMany (e :: rest) es i sw) _ (kernels s)).
    + assert ((Dequeue t (kernels s e)).2 = set_waiters (remove_first t (waiting s e)).2 (kernels s e)) as -> by (unfold Dequeue; by destruct (remove_first _ _)).
      apply (fine_set s t (LeavingMany (e :: rest) es i sw) _ (<[e := _]> (kernels s))); try done; intros e0; [by at_event|]. intros _. unfold owed. cbn. by at_event.
Qed.
Lemma many_fine es s' os : threads s !! t = Some Idle -> WaitMany dcheck_on t es s = Some (Ret (s', os)) -> step_fine s os s'.
Proof using HK I.
  intros Ht. unfold WaitMany. destruct (dcheck_on && _); [done|]. destruct (bool_decide (es = [])); [done|]. destruct (bool_decide_reflect (NoDup es)) as [Hnd|]; [|done]. cbn [negb orb].
  pose proof (sorted_events es) as HP. assert (forall e i, (e, i) ∈ sort_addr (imap (fun i e => (e, i)) es) -> es !! i = Some e) as Hidx.
  { intros e i. rewrite sort_addr_perm. intros (j & x & Hx & Hj)%elem_of_lookup_imap. by injection Hx as -> ->. }
  set (l := sort_addr (imap (fun i e => (e, i)) es)) in *. destruct (locks_free l s) eqn:El; [|done]. cbn [negb]. assert (NoDup l.*1) as Hndl by (by rewrite HP). assert (length es = length l) as HL by (rewrite <- HP; by rewrite length_fmap).
  pose proof (EnqueueMany_spec t l s Hndl El) as HE. destruct (EnqueueMany l t s) as [r s1]. destruct HE as [HT [(-> & H1 & H2)|(pre & e & i & suf & E & -> & Hs & Hl & ->)]].
  - intros [= <- <-]. replace s1 with (State (kernels s1) (threads s)) by (rewrite <- HT; by destruct s1). apply (enter_fine s t HK (Many es) (kernels s1) Ht).
    + intros e He. apply H1. by rewrite HP.
    + intros e He. apply H2. by rewrite HP.
  - cbn [Nat.eqb]. assert (l !! (length es - S (length suf))%nat = Some (e, i)) as ->.
    { rewrite HL, E, length_app. cbn [length]. replace (length pre + S (length suf) - S (length suf))%nat with (length pre) by lia. by rewrite lookup_app_r, Nat.sub_diag. }
    rewrite (Hidx e i) by (rewrite E; apply elem_of_app; right; left). intros [= <- <-].
    assert (forall e0, e0 <> e -> count (is_got e0) [Got t e i] = 0%nat /\ count (is_cleared e0) [Got t e i] = 0%nat) as Hne by (intros e0 Hne; unfold count; cbn; rewrite (proj2 (Nat.eqb_neq e e0)) by (by intros ->); done).
    destruct (manual_reset_ (kernels s e)) eqn:Em; [by apply (idle_keep s t HK e)|]. apply (idle_fine s t HK e false); try done. intros _. rewrite Hs. unfold count. cbn. by rewrite Nat.eqb_refl.
Qed.
Lemma got_fine e : threads s !! t = Some Idle -> signaled_ (kernels s e) = true -> step_fine s [Got t e 0] (if manual_reset_ (kernels s e) then s else set_kernel e (set_signaled false (kernels s e)) s).
Proof using HK.
  intros Ht Hs. assert (forall e0, e0 <> e -> count (is_got e0) [Got t e 0] = 0%nat /\ count (is_cleared e0) [Got t e 0] = 0%nat) as Hne by (intros e0 Hne; unfold count; cbn; rewrite (proj2 (Nat.eqb_neq e e0)) by (by intros ->); done).
  destruct (manual_reset_ (kernels s e)) eqn:Em; [by apply (idle_keep s t HK e)|]. apply (idle_fine s t HK e false); try done. intros _. rewrite Hs. unfold count. cbn. by rewrite Nat.eqb_refl.
Qed.
Lemma exec_fine a s' os : exec dcheck_on t a s = Some (Ret (s', os)) -> step_fine s os s'.
Proof using HK I.
  unfold exec. destruct (threads s !! t) as [p|] eqn:Ht; [|done]. destruct p as [|e i|e|k sw|k sw|e r sw|rest es i sw], a as [e'|e'|e'|e' fin|es'|b]; try done.
  - by apply start_fine.
  - unfold Reset. destruct (lock_ (kernels s e')) eqn:El; [done|]. intros [= <- <-]. apply (idle_fine s t HK e' false); try done.
    + intros _. unfold count. destruct (signaled_ (kernels s e')); [|done]. cbn. by rewrite Nat.eqb_refl.
    + intros e0. by destruct (signaled_ (kernels s e')).
    + intros e0 Hne. unfold count. destruct (signaled_ (kernels s e')); [|done]. cbn. by rewrite (proj2 (Nat.eqb_neq e' e0)) by (by intros ->).
  - unfold IsSignaled. destruct (lock_ (kernels s e')) eqn:El; [done|]. destruct (signaled_ (kernels s e')) eqn:Es; intros [= <- <-]; [by apply got_fine|]. split; [done|]. intros e0. by split.
  - unfold TimedWait. destruct (lock_ (kernels s e')) eqn:El; [done|]. destruct (signaled_ (kernels s e')) eqn:Es; intros [= <- <-]; [by apply got_fine|].
    apply (enter_fine s t HK (Timed e' fin) (<[e' := Enqueue t (kernels s e')]> (kernels s)) Ht); [intros e0 ->%list_elem_of_singleton; by rewrite fn_lookup_insert|].
    intros e0 He. rewrite fn_lookup_insert_ne; [done|]. intros ->. apply He. by left.
  - by apply many_fine.
  - by apply all_fine.
  - by apply one_fine.
  - intros [= <- <-]. assert (forall p', sw_of p' = Some sw \/ sw_of p' = Some (Disable sw) -> step_fine s [] (set_pc t p' s)) as H.
    { intros p' Hp. apply (fine_set s t (Holding k sw) p' (kernels s)); try done; [intros e i ->; by destruct Hp|]. intros e _. unfold owed. by destruct Hp as [-> | ->]. }
    unfold loop. destruct k; [destruct (fired_ sw || finite_time && b)|destruct (fired_ sw)]; apply H; auto.
  - intros [= <- <-]. by apply (fine_set s t (Blocked k sw) _ (kernels s)).
  - destruct (lock_ (kernels s e)) eqn:El; [done|]. intros [= <- <-]. by eapply leave_fine.
  - by apply leave_many_fine.
Qed.
End ExecBalance.

Lemma reaches_balance dcheck_on events n tr s : reaches dcheck_on events n tr s -> kinds s /\ forall e, manual_reset_ (kernels s e) = (events e).1 /\
  ((events e).1 = false -> (count (is_sent e) tr + b2n (events e).2 = count (is_got e) tr + count (is_cleared e) tr + b2n (signaled_ (kernels s e)) + all_owed e s)%nat).
Proof.
  induction 1 as [|tr s t a s' os HR [IH1 IH2] E].
  - split; [intros t e i Ht; by apply lookup_replicate in Ht as [? _]|]. intros e. cbn. split; [done|]. intros _. unfold all_owed. cbn. assert (sum_list_with (owed e) (replicate n Idle) = 0%nat) as ->; [by induction n|]. lia.
  - destruct (exec_fine dcheck_on s t (reaches_inv _ _ _ _ _ HR) IH1 a s' os E) as [H1 H2]. split; [done|]. intros e. destruct (IH2 e) as [Hm Hb], (H2 e) as [Hm' Hb']. split; [congruence|]. intros Ha. rewrite Hm in Hb'. specialize (Hb Ha). specialize (Hb' Ha). unfold balanced in Hb'. rewrite !count_app. lia.
Qed.

(** C13: no signal is lost or used twice, however the threads interleave: of an event that
    resets itself, the calls of [Signal] that had an effect, with its being signaled at
    first, are as many as the waits and tests that found it signaled, the calls of [Reset]
    that took a signal back, the threads that were woken by it and are about to return,
    and the signal that is left; waits of many events and waits that run out of time
    included. *)
Theorem signals_conserved dcheck_on events n tr s e : reaches dcheck_on events n tr s -> (events e).1 = false ->
  (count (is_sent e) tr + b2n (events e).2 = count (is_got e) tr + count (is_cleared e) tr + all_owed e s + b2n (signaled_ (kernels s e)))%nat.
Proof. intros HR Ha. destruct (reaches_balance _ _ _ _ _ HR) as [_ H]. destruct (H e) as [_ Hb]. specialize (Hb Ha). lia. Qed.

(** C14: waiting is safe: whatever the threads did, no operation fails an assertion or fires
    a waiter that is gone from the stack of its thread; a thread that returned is in no
    list; and no thread sleeps on a signal: one that is blocked and was not woken is in the
    list of every event it waits for, none of which is signaled. *)
Theorem waits_safe dcheck_on events n tr s t : reaches dcheck_on events n tr s ->
  (forall a f, action_ok a -> exec dcheck_on t a s <> Some (Fault f)) /\
  (threads s !! t = Some Idle -> forall e, t ∉ waiters_ (kernels s e)) /\
  (forall k sw, threads s !! t = Some (Blocked k sw) -> fired_ sw = false -> forall e, e ∈ wait_events k -> t ∈ waiters_ (kernels s e) /\ signaled_ (kernels s e) = false).
Proof.
  intros HR. pose proof (reaches_inv _ _ _ _ _ HR) as I. split; [intros a f; by apply exec_no_fault|]. split.
  - intros Ht e. apply (not_waiting s t Idle e I Ht). by intros ? [].
  - intros k sw Ht Hf e He. destruct (v_pc _ _ I t _ ltac:(done) Ht) as (_ & H & _). destruct (H Hf) as [_ Hin]. specialize (Hin e He). split; [done|]. destruct (signaled_ (kernels s e)) eqn:Es; [|done]. destruct (v_signaled _ _ I e Es) as [E _]. rewrite E in Hin. by apply elem_of_nil in Hin.
Qed.

(** A run that is computed. *)
Fixpoint play (dcheck_on : bool) (acts : list (thread * action)) (st : list obs * state) : option (list obs * state) :=
  match acts with
  | [] => Some st
  | (t, a) :: acts => match exec dcheck_on t a st.2 with Some (Ret (s, os)) => play dcheck_on acts (st.1 ++ os, s) | _ => None end
  end.
Lemma play_reaches dcheck_on events n acts : forall st st', reaches dcheck_on events n st.1 st.2 -> play dcheck_on acts st = Some st' -> reaches dcheck_on events n st'.1 st'.2.
Proof.
  induction acts as [|[t a] acts IH]; intros [tr s] st' HR; cbn; [by intros [= <-]|]. destruct (exec dcheck_on t a s) as [[[s' os]|]|] eqn:E; [|done..]. apply (IH (tr ++ os, s')). by eapply R_step.
Qed.
(** Thread 0 waits for the events 1 and 2, thread 1 for 1 with a limit that runs out while
    thread 2 signals both: the signal of 1 wakes thread 0, that of 2 is left. *)
Definition two_events : event -> bool * bool := fun _ => (false, false).
Definition start2 : list obs * state := ([], State (fun e => new_kernel (two_events e).1 (two_events e).2) (replicate 3 Idle)).
Definition schedule : list (thread * action) :=
  [(0, CallWaitMany [2; 1]); (0, GoOn false); (1, CallWait 1 true); (1, GoOn true); (2, CallSignal 1); (2, GoOn false); (1, GoOn false); (2, CallSignal 2); (2, GoOn false); (2, GoOn false);
   (0, GoOn false); (0, GoOn false); (0, GoOn false); (0, GoOn false); (0, GoOn false)]%nat.
Example scheduled : exists s, play true schedule start2 = Some ([Sent 1; TimedOut 1 1; Sent 2; Got 0 1 1]%nat, s) /\ signaled_ (kernels s 1%nat) = false /\ signaled_ (kernels s 2%nat) = true /\ threads s = [Idle; Idle; Idle].
Proof. eexists. split; [vm_compute; reflexivity|]. vm_compute. done. Qed.
Lemma schedule_reaches k : exists tr s, reaches true two_events 3 tr s /\ play true (take k schedule) start2 = Some (tr, s) \/ play true (take k schedule) start2 = None.
Proof. destruct (play true (take k schedule) start2) as [[tr s]|] eqn:E; [|exists [], start2.2; by right]. exists tr, s. left. split; [|done]. apply (play_reaches true two_events 3 (take k schedule) start2 (tr, s)); [apply R_start|exact E]. Qed.
Lemma signals_conserved_witness : exists tr s, play true (take 7 schedule) start2 = Some (tr, s) /\ all_owed 1 s = 1%nat /\
  (count (is_sent 1) tr + b2n (two_events 1%nat).2 = count (is_got 1) tr + count (is_cleared 1) tr + all_owed 1 s + b2n (signaled_ (kernels s 1%nat)))%nat.
Proof.
  destruct (schedule_reaches 7) as (tr & s & [[HR E]|E]); [|vm_compute in E; discriminate]. exists tr, s. split; [exact E|]. split; [vm_compute in E; injection E as <- <-; reflexivity|]. apply (signals_conserved true two_events 3 tr s 1 HR). reflexivity.
Defined.
Lemma waits_safe_witness : exists tr s, play true (take 2 schedule) start2 = Some (tr, s) /\ 0%nat ∈ waiters_ (kernels s 2%nat) /\ signaled_ (kernels s 2%nat) = false.
Proof.
  destruct (schedule_reaches 2) as (tr & s & [[HR E]|E]); [|vm_compute in E; discriminate]. exists tr, s. split; [exact E|].
  apply (proj2 (proj2 (waits_safe true two_events 3 tr s 0 HR)) (Many [2; 1]%nat) new_waiter); [vm_compute in E; injection E as <- <-; reflexivity|reflexivity|left].
Defined.
