(* ===== verification/Timer.v ===== *)
(** Timers on a message loop: [zutils/base/timer/timer.{h,cc}] and
    [zutils/base2/timer_manager.{h,cc}].  The timers that live are in [heap], by address;
    the tasks they posted are in [queue], each with the timer it refers to and the time it
    is due, 0 for the next occasion.  Times are microseconds.  A call of [TimeTicks::Now]
    is an argument: [now] first, [posted] when the loop takes a task, [after] after that.
    The timers are of one thread: [thread_id_] and the checks of it are left out, as is
    [posted_from_]. *)
From Stdlib Require Import ZArith Lia Bool.
From stdpp Require Import base list numbers gmap.
From S2P Require Import Prelude.

Open Scope Z_scope.

Abbreviation address := nat.
Record clock := Clock { now : Z; posted : Z; after : Z }.

Section Timers.
Context {C : Type} (dcheck_on : bool).

(** [Timer]; the closure is null when it is [None]. *)
Record Timer := MkTimer {
  scheduled_task_ : option nat; delay_ : Z; user_task_ : option C; scheduled_run_time_ : Z; desired_run_time_ : Z;
  is_repeating_ : bool; retain_user_task_ : bool; is_running_ : bool
}.
Definition set_scheduled (i : option nat) (t : Timer) : Timer := MkTimer i (delay_ t) (user_task_ t) (scheduled_run_time_ t) (desired_run_time_ t) (is_repeating_ t) (retain_user_task_ t) (is_running_ t).
Definition set_running (b : bool) (t : Timer) : Timer := MkTimer (scheduled_task_ t) (delay_ t) (user_task_ t) (scheduled_run_time_ t) (desired_run_time_ t) (is_repeating_ t) (retain_user_task_ t) b.
Definition set_desired (x : Z) (t : Timer) : Timer := MkTimer (scheduled_task_ t) (delay_ t) (user_task_ t) (scheduled_run_time_ t) x (is_repeating_ t) (retain_user_task_ t) (is_running_ t).
Definition set_times (x : Z) (t : Timer) : Timer := MkTimer (scheduled_task_ t) (delay_ t) (user_task_ t) x x (is_repeating_ t) (retain_user_task_ t) (is_running_ t).
Definition set_user_task (c : option C) (t : Timer) : Timer := MkTimer (scheduled_task_ t) (delay_ t) c (scheduled_run_time_ t) (desired_run_time_ t) (is_repeating_ t) (retain_user_task_ t) (is_running_ t).
Definition new_Timer (retain_user_task is_repeating : bool) : Timer := MkTimer None 0 None 0 0 is_repeating retain_user_task false.
Definition new_Timer_info (delay : Z) (user_task : C) (is_repeating : bool) : Timer := MkTimer None delay (Some user_task) 0 0 is_repeating true false.
Definition IsRunning (t : Timer) : bool := is_running_ t.
Definition GetCurrentDelay (t : Timer) : Z := delay_ t.

(** [BaseTimerTaskInternal] in the queue of the loop. *)
Record task := Task { task_id : nat; timer_ : option address; due : Z }.
Definition Abandon (q : task) : task := Task (task_id q) None (due q).

Record world := World { heap : gmap address Timer; queue : list task; next_task : nat }.
Definition set_heap (a : address) (t : Timer) (w : world) : world := World (<[a := t]> (heap w)) (queue w) (next_task w).
Definition with_timer {A} (a : address) (w : world) (k : Timer -> outcome A) : outcome A :=
  match heap w !! a with Some t => k t | None => Fault OutOfBounds end.
Definition modify (a : address) (f : Timer -> Timer) (w : world) : outcome world := with_timer a w (fun t => Ret (set_heap a (f t) w)).

Definition PostNewScheduledTask (a : address) (delay : Z) (c : clock) (w : world) : outcome world :=
  with_timer a w (fun t =>
    DCHECK dcheck_on (match scheduled_task_ t with None => true | Some _ => false end) (
    let i := next_task w in
    let t := set_scheduled (Some i) (set_running true t) in
    if 0 <? delay then Ret (World (<[a := set_times (after c + delay) t]> (heap w)) (queue w ++ [Task i (Some a) (posted c + delay)]) (S i))
    else Ret (World (<[a := set_times 0 t]> (heap w)) (queue w ++ [Task i (Some a) 0]) (S i)))).
(** The task is found by its address. *)
Definition AbandonScheduledTask (a : address) (w : world) : outcome world :=
  with_timer a w (fun t =>
    match scheduled_task_ t with
    | None => Ret w
    | Some i =>
        match list_find (fun q => task_id q = i) (queue w) with
        | None => Fault OutOfBounds
        | Some (n, q) => Ret (World (<[a := set_scheduled None t]> (heap w)) (<[n := Abandon q]> (queue w)) (next_task w))
        end
    end).
Definition stopped (t : Timer) : Timer := let t := set_running false t in if retain_user_task_ t then t else set_user_task None t.
Definition Stop (a : address) (w : world) : outcome world := modify a stopped w.
Definition StopAndAbandon (a : address) (w : world) : outcome world := w ← Stop a w; AbandonScheduledTask a w.
(** [~Timer] and the end of its memory. *)
Definition delete_Timer (a : address) (w : world) : outcome world :=
  w ← StopAndAbandon a w; Ret (World (delete a (heap w)) (queue w) (next_task w)).
Definition Reset (a : address) (c : clock) (w : world) : outcome world :=
  with_timer a w (fun t =>
    DCHECK dcheck_on (match user_task_ t with Some _ => true | None => false end) (
    match scheduled_task_ t with
    | None => PostNewScheduledTask a (delay_ t) c w
    | Some _ =>
        let t := set_desired (if 0 <? delay_ t then now c + delay_ t else 0) t in
        if scheduled_run_time_ t <=? desired_run_time_ t then Ret (set_heap a (set_running true t) w)
        else w ← AbandonScheduledTask a (set_heap a t w); PostNewScheduledTask a (delay_ t) c w
    end)).
Definition SetTaskInfo (a : address) (delay : Z) (user_task : C) (w : world) : outcome world :=
  modify a (fun t => MkTimer (scheduled_task_ t) delay (Some user_task) (scheduled_run_time_ t) (desired_run_time_ t) (is_repeating_ t) (retain_user_task_ t) (is_running_ t)) w.
Definition Start (a : address) (delay : Z) (user_task : C) (c : clock) (w : world) : outcome world :=
  w ← SetTaskInfo a delay user_task w; Reset a c w.
(** The closure that is run at the end, if one is. *)
Definition RunScheduledTask (a : address) (c : clock) (w : world) : outcome (world * option C) :=
  with_timer a w (fun t =>
    if negb (is_running_ t) then Ret (w, None)
    else if (scheduled_run_time_ t <? desired_run_time_ t) && (now c <? desired_run_time_ t) then
      w ← PostNewScheduledTask a (desired_run_time_ t - now c) c w; Ret (w, None)
    else
      let task := user_task_ t in
      w ← (if is_repeating_ t then PostNewScheduledTask a (delay_ t) c w else Stop a w);
      Ret (w, task)).
(** The loop runs the task [i] and deletes it. *)
Definition Run (i : nat) (c : clock) (w : world) : outcome (world * option C) :=
  match list_find (fun q => task_id q = i) (queue w) with
  | None => Fault OutOfBounds
  | Some (n, q) =>
      let w := World (heap w) (delete n (queue w)) (next_task w) in
      match timer_ q with
      | None => Ret (w, None)
      | Some a => w ← modify a (set_scheduled None) w; RunScheduledTask a c w
      end
  end.
(** The loop deletes the task without running it: the timer forgets it. *)
Definition delete_task (i : nat) (w : world) : outcome world :=
  match list_find (fun q => task_id q = i) (queue w) with
  | None => Fault OutOfBounds
  | Some (n, q) =>
      w ← match timer_ q with None => Ret w | Some a => StopAndAbandon a w end;
      Ret (World (heap w) (delete n (queue w)) (next_task w))
  end.
End Timers.
Arguments Timer : clear implicits.
Arguments world : clear implicits.

(** * [TimerManager] *)
(** The closure that calls [handle_timeout]. *)
Record timeout := Timeout { timer_id : Z; tm : Z }.
Record TimerManager := Manager { timers_ : gmap Z address; wld : world timeout; next_address : address }.
Definition set_world (m : TimerManager) (w : world timeout) : TimerManager := Manager (timers_ m) w (next_address m).

Section Manager.
Context (dcheck_on : bool).
Definition erase (timer_id : Z) (a : address) (m : TimerManager) : outcome TimerManager :=
  w ← delete_Timer a (wld m); Ret (Manager (delete timer_id (timers_ m)) w (next_address m)).
Definition SetTimer (timer_id tm : Z) (c : clock) (m : TimerManager) : outcome TimerManager :=
  match timers_ m !! timer_id with
  | None =>
      let a := next_address m in
      let w := set_heap a (new_Timer false false) (wld m) in
      w ← Start dcheck_on a (tm * 1000) (Timeout timer_id tm) c w;
      Ret (Manager (<[timer_id := a]> (timers_ m)) w (S a))
  | Some _ => Ret m
  end.
Definition KillTimer (timer_id : Z) (m : TimerManager) : outcome TimerManager :=
  match timers_ m !! timer_id with
  | None => Ret m
  | Some a => w ← Stop a (wld m); erase timer_id a (set_world m w)
  end.
(** Those that are in the map, in any order. *)
Fixpoint stop_all (l : list (Z * address)) (w : world timeout) : outcome (world timeout) :=
  match l with [] => Ret w | (_, a) :: l => w ← Stop a w; stop_all l w end.
Fixpoint clear (l : list (Z * address)) (m : TimerManager) : outcome TimerManager :=
  match l with [] => Ret m | (timer_id, a) :: l => m ← erase timer_id a m; clear l m end.
Definition Destroy (m : TimerManager) : outcome TimerManager :=
  let l := map_to_list (timers_ m) in
  w ← stop_all l (wld m); clear l (set_world m w).
(** What [delegate_], if there is one, is told at the end. *)
Definition handle_timeout (t : timeout) (m : TimerManager) : outcome (TimerManager * option timeout) :=
  m ← match timers_ m !! timer_id t with None => Ret m | Some a => erase (timer_id t) a m end;
  Ret (m, Some t).
Definition run_loop_task (i : nat) (c : clock) (m : TimerManager) : outcome (TimerManager * option timeout) :=
  r ← Run dcheck_on i c (wld m);
  let m := set_world m r.1 in
  match r.2 with None => Ret (m, None) | Some t => handle_timeout t m end.
End Manager.
