(* ===== verification/TimerProofs.v ===== *)
(** What timers promise: see the theorems at the end. *)
From Stdlib Require Import ZArith Lia Bool.
From stdpp Require Import base list numbers gmap.
From S2P Require Import Prelude Timer.

Open Scope Z_scope.

(** The readings of the clock within a call are at most [d] apart. *)
Definition clock_ok (d : Z) (c : clock) : Prop := 0 < now c /\ now c <= posted c <= after c /\ after c <= now c + d.

Section Worlds.
Context {C : Type} (dcheck_on : bool) (d : Z) (Hd : 0 <= d).
Implicit Types (w : world C) (t : Timer C) (q : task).

(** Tasks and timers refer to each other; a timer that is running has a task that is due
    when it is estimated to be, which is not later than it is desired.  [x] is a timer of
    which the latter is not claimed. *)
Record WI (x : option address) w : Prop := {
  w_ids : NoDup (task_id <$> queue w);
  w_next : forall q, q ∈ queue w -> (task_id q < next_task w)%nat;
  w_ref : forall q a, q ∈ queue w -> timer_ q = Some a -> exists t, heap w !! a = Some t /\ scheduled_task_ t = Some (task_id q);
  w_sched : forall a t i, heap w !! a = Some t -> scheduled_task_ t = Some i ->
    exists q, q ∈ queue w /\ task_id q = i /\ timer_ q = Some a /\ scheduled_run_time_ t - d <= due q <= scheduled_run_time_ t;
  w_run : forall a t, Some a <> x -> heap w !! a = Some t -> is_running_ t = true -> is_Some (scheduled_task_ t) /\ is_Some (user_task_ t) /\ scheduled_run_time_ t <= desired_run_time_ t
}.

Lemma find_task w q : NoDup (task_id <$> queue w) -> q ∈ queue w -> exists n, list_find (fun r => task_id r = task_id q) (queue w) = Some (n, q) /\ queue w !! n = Some q.
Proof.
  intros Hnd Hq. destruct (list_find_elem_of (fun r => task_id r = task_id q) (queue w) q Hq eq_refl) as [[n r] E]. pose proof E as E'. apply list_find_Some in E' as (Hr & Hid & _). exists n.
  apply list_elem_of_lookup in Hq as [m Hm]. assert (n = m) as ->.
  { eapply (NoDup_lookup (task_id <$> queue w)); [done|rewrite list_lookup_fmap, Hr; done|rewrite list_lookup_fmap, Hm; cbn; by rewrite Hid]. }
  rewrite Hm in Hr. by injection Hr as <-.
Qed.
(** The other tasks of a queue. *)
Lemma delete_task_in (l : list task) n q : NoDup (task_id <$> l) -> l !! n = Some q -> (forall r, r ∈ delete n l <-> r ∈ l /\ task_id r <> task_id q) /\ NoDup (task_id <$> delete n l).
Proof.
  intros Hnd Hn. assert (l ≡ₚ q :: delete n l) as HP by (by apply delete_Permutation). assert (NoDup (task_id <$> q :: delete n l)) as Hnd' by (by rewrite <- HP). cbn in Hnd'. apply list.NoDup_cons in Hnd' as [Hq Hnd']. split; [|done].
  intros r. rewrite HP at 2. rewrite elem_of_cons. split.
  - intros Hr. split; [by right|]. intros E. apply Hq. rewrite <- E. by apply list_elem_of_fmap_2.
  - intros [[-> |Hr] Hne]; [done|done].
Qed.
Lemma abandon_task_in (l : list task) n q : NoDup (task_id <$> l) -> l !! n = Some q -> (forall r, r ∈ <[n := Abandon q]> l -> r = Abandon q \/ r ∈ l /\ task_id r <> task_id q) /\ (forall r, r ∈ l -> task_id r <> task_id q -> r ∈ <[n := Abandon q]> l) /\ (task_id <$> <[n := Abandon q]> l) = task_id <$> l.
Proof.
  intros Hnd Hn. assert ((task_id <$> <[n := Abandon q]> l) = task_id <$> l) as E by (rewrite list_fmap_insert; apply list_insert_id; by rewrite list_lookup_fmap, Hn). split; [|split; [|done]].
  - intros r Hr. apply list_elem_of_lookup in Hr as [m Hm]. destruct (decide (m = n)) as [-> |Hne].
    + rewrite list_lookup_insert_eq in Hm by (by eapply lookup_lt_Some). injection Hm as <-. by left.
    + rewrite list_lookup_insert_ne in Hm by done. right. split; [by eapply list_elem_of_lookup_2|]. intros Eid. apply Hne. eapply (NoDup_lookup (task_id <$> l)); [done|by rewrite list_lookup_fmap, Hm|rewrite list_lookup_fmap, Hn; cbn; by rewrite Eid].
  - intros r Hr Hne. apply list_elem_of_lookup in Hr as [m Hm]. apply list_elem_of_lookup. exists m. rewrite list_lookup_insert_ne; [done|]. intros ->. congruence.
Qed.

(** Changing a timer in place. *)
Lemma set_heap_inv x y w a t t' : WI x w -> x = None \/ x = Some a -> heap w !! a = Some t -> scheduled_task_ t' = scheduled_task_ t -> scheduled_run_time_ t' = scheduled_run_time_ t ->
  (y = Some a \/ y = None /\ (is_running_ t' = true -> is_Some (scheduled_task_ t') /\ is_Some (user_task_ t') /\ scheduled_run_time_ t' <= desired_run_time_ t')) -> WI y (set_heap a t' w).
Proof.
  intros [H1 H2 H3 H4 H5] Hx Ha Hs Hr Hy. split; cbn; try done.
  - intros q b Hq Hb. destruct (H3 q b Hq Hb) as (u & Hu & Hsu). destruct (decide (b = a)) as [-> |Hn]; [|exists u; by rewrite lookup_insert_ne].
    exists t'. rewrite lookup_insert_eq. split; [done|]. congruence.
  - intros b u i. destruct (decide (b = a)) as [-> |Hn]; [rewrite lookup_insert_eq; intros [= <-]; rewrite Hs, Hr; by apply H4|rewrite lookup_insert_ne by done; by apply H4].
  - intros b u Hb. destruct (decide (b = a)) as [-> |Hn].
    + rewrite lookup_insert_eq. intros [= <-]. destruct Hy as [-> |[_ Hy]]; done.
    + rewrite lookup_insert_ne by done. apply H5. destruct Hx as [-> | ->]; [done|]. by intros [= ->].
Qed.
Lemma stop_inv x w a t : WI x w -> x = None \/ x = Some a -> heap w !! a = Some t -> Stop a w = Ret (set_heap a (stopped t) w) /\ WI None (set_heap a (stopped t) w).
Proof.
  intros I Hx Ha. unfold Stop, modify, with_timer. rewrite Ha. split; [done|]. apply (set_heap_inv x None w a t); [done..|by unfold stopped; destruct (retain_user_task_ _)|by unfold stopped; destruct (retain_user_task_ _)|].
  right. split; [done|]. unfold stopped. by destruct (retain_user_task_ _).
Qed.
(** The task of a timer that has none. *)
Lemma posting_inv x w a t delay c : WI x w -> x = None \/ x = Some a -> heap w !! a = Some t -> scheduled_task_ t = None -> is_Some (user_task_ t) -> clock_ok d c ->
  let i := next_task w in
  let w' := World (<[a := set_times (if 0 <? delay then after c + delay else 0) (set_scheduled (Some i) (set_running true t))]> (heap w)) (queue w ++ [Task i (Some a) (if 0 <? delay then posted c + delay else 0)]) (S i) in
  PostNewScheduledTask dcheck_on a delay c w = Ret w' /\ WI None w'.
Proof using Hd.
  intros [H1 H2 H3 H4 H5] Hx Ha Hs Hu (Hc1 & Hc2 & Hc3) i w'. split.
  { unfold PostNewScheduledTask, with_timer. rewrite Ha, Hs. rewrite DCHECK_true by done. unfold w'. by destruct (0 <? delay). }
  assert (forall b, heap w' !! b = if decide (b = a) then Some (set_times (if 0 <? delay then after c + delay else 0) (set_scheduled (Some i) (set_running true t))) else heap w !! b) as Hh.
  { intros b. unfold w'. cbn. case_decide as E; [by subst; rewrite lookup_insert_eq|by rewrite lookup_insert_ne]. }
  assert (forall q, q ∈ queue w' <-> q ∈ queue w \/ q = Task i (Some a) (if 0 <? delay then posted c + delay else 0)) as Hq by (intros q; unfold w'; cbn; by rewrite elem_of_app, list_elem_of_singleton).
  split.
  - unfold w'. cbn. rewrite fmap_app. apply list.NoDup_app. split; [done|]. split; [|apply list.NoDup_singleton]. cbn. intros j (q & -> & Hin)%list_elem_of_fmap Hj%list_elem_of_singleton. specialize (H2 q Hin). unfold i in Hj. lia.
  - intros q [Hin| ->]%Hq; cbn; [specialize (H2 q Hin); unfold i; lia|unfold i; lia].
  - intros q b [Hin| ->]%Hq Hb.
    + destruct (H3 q b Hin Hb) as (u & Hbu & Hsu). rewrite Hh. case_decide as E; [subst; congruence|by exists u].
    + injection Hb as <-. rewrite Hh, decide_True by done. by eexists.
  - intros b u j. rewrite Hh. case_decide as E.
    + subst. intros [= <-] [= <-]. eexists. split; [apply Hq; by right|]. split; [done|]. split; [done|]. destruct (Z.ltb_spec 0 delay); cbn; lia.
    + intros Hb Hj. destruct (H4 b u j Hb Hj) as (q & Hin & Hq'). exists q. split; [apply Hq; by left|done].
  - intros b u _. rewrite Hh. case_decide as E; [|by apply H5; destruct Hx as [-> | ->]; [done|intros [= ->]]]. subst. intros [= <-] _. cbn. split; [done|]. split; [done|lia].
Qed.
Lemma abandon_inv x w a t : WI x w -> x = None \/ x = Some a -> heap w !! a = Some t ->
  exists w', AbandonScheduledTask a w = Ret w' /\ WI (Some a) w' /\ heap w' = <[a := set_scheduled None t]> (heap w) /\ (forall n q, scheduled_task_ t = Some (task_id q) -> list_find (fun r => task_id r = task_id q) (queue w) = Some (n, q) -> queue w' = <[n := Abandon q]> (queue w)).
Proof.
  intros I Hx Ha. pose proof I as [H1 H2 H3 H4 H5]. unfold AbandonScheduledTask, with_timer. rewrite Ha. destruct (scheduled_task_ t) as [i|] eqn:Es.
  - destruct (H4 a t i Ha Es) as (q & Hin & <- & Hqa & Hdue). destruct (find_task w q H1 Hin) as (n & Ef & Hn). rewrite Ef. eexists. split; [done|]. split; [|split; [done|]; intros m r [= <-] Er; rewrite Ef in Er; by injection Er as <- <-]. destruct (abandon_task_in _ n q H1 Hn) as (A1 & A2 & A3). split; cbn.
    + by rewrite A3.
    + intros r [-> |[Hr _]]%A1; [cbn; by apply H2|by apply H2].
    + intros r b [-> |[Hr Hne]]%A1 Hb; [done|]. destruct (H3 r b Hr Hb) as (u & Hbu & Hsu). destruct (decide (b = a)) as [-> |Hn']; [congruence|]. exists u. by rewrite lookup_insert_ne.
    + intros b u j. destruct (decide (b = a)) as [-> |Hn']; [rewrite lookup_insert_eq; by intros [= <-]|]. rewrite lookup_insert_ne by done. intros Hb Hj. destruct (H4 b u j Hb Hj) as (r & Hr & Hid & Hrb & Hdr). exists r. split; [|done]. apply A2; [done|].
      intros E. assert (r = q) as ->; [|congruence]. destruct (find_task w r H1 Hr) as (m & Em & Hm). rewrite E in Em. destruct (find_task w q H1 Hin) as (m' & Em' & _). congruence.
    + intros b u Hb. assert (b <> a) by (by intros ->). rewrite lookup_insert_ne by done. apply H5. destruct Hx as [-> | ->]; [done|done].
  - eexists. split; [done|]. assert (set_scheduled None t = t) as -> by (destruct t; cbn in *; by rewrite Es). rewrite insert_id by done. split; [|by split]. split; try done. intros b u Hb. apply H5. destruct Hx as [-> | ->]; done.
Qed.
(** What starting a timer again leaves of it. *)
Definition armed (c : clock) (dl : Z) (u : C) t t' : Prop :=
  is_running_ t' = true /\ user_task_ t' = Some u /\ delay_ t' = dl /\ is_repeating_ t' = is_repeating_ t /\ retain_user_task_ t' = retain_user_task_ t /\ (0 < dl -> now c + dl <= desired_run_time_ t') /\
  desired_run_time_ t' <= now c + Z.max 0 dl + d.
Lemma reset_inv x w a t u c : WI x w -> x = None \/ x = Some a -> heap w !! a = Some t -> user_task_ t = Some u -> clock_ok d c ->
  exists w' t', Reset dcheck_on a c w = Ret w' /\ WI None w' /\ heap w' = <[a := t']> (heap w) /\ armed c (delay_ t) u t t'.
Proof using Hd.
  intros I Hx Ha Hu Hc. pose proof Hc as (Hc1 & Hc2 & Hc3). unfold Reset. unfold with_timer at 1. rewrite Ha, Hu. rewrite DCHECK_true by done. destruct (scheduled_task_ t) as [i|] eqn:Es.
  - set (t1 := set_desired _ t). destruct (Z.leb_spec (scheduled_run_time_ t1) (desired_run_time_ t1)) as [Hle|Hlt].
    + eexists _, (set_running true t1). split; [done|]. split; [|split; [done|]].
      * apply (set_heap_inv x None w a t); try done. right. split; [done|]. intros _. cbn. rewrite Es, Hu. split; [done|]. split; [done|]. exact Hle.
      * unfold armed, t1. cbn. repeat (split; [done|]). destruct (Z.ltb_spec 0 (delay_ t)); lia.
    + assert (WI (Some a) (set_heap a t1 w)) as I1 by (apply (set_heap_inv x (Some a) w a t); try done; by left).
      destruct (abandon_inv (Some a) (set_heap a t1 w) a t1 I1) as (w2 & -> & I2 & Hh2 & _); [by right|cbn; by rewrite lookup_insert_eq|]. obind.
      assert (heap w2 !! a = Some (set_scheduled None t1)) as Ha2 by (rewrite Hh2; by rewrite lookup_insert_eq).
      destruct (posting_inv (Some a) w2 a (set_scheduled None t1) (delay_ t1) c I2) as [-> I3]; [by right|done|done|cbn; by rewrite Hu|done|]. eexists _, _. split; [done|]. split; [done|]. cbn. rewrite Hh2. cbn. rewrite !insert_insert_eq. split; [done|].
      unfold armed. cbn. repeat (split; [done|]). destruct (Z.ltb_spec 0 (delay_ t)); lia.
  - destruct (posting_inv x w a t (delay_ t) c I Hx Ha Es) as [-> I3]; [by rewrite Hu|done|]. eexists _, _. split; [done|]. split; [done|]. cbn. split; [done|]. unfold armed. cbn. repeat (split; [done|]). destruct (Z.ltb_spec 0 (delay_ t)); lia.
Qed.
Lemma starting_inv x w a t dl u c : WI x w -> x = None \/ x = Some a -> heap w !! a = Some t -> clock_ok d c ->
  exists w' t', Start dcheck_on a dl u c w = Ret w' /\ WI None w' /\ heap w' = <[a := t']> (heap w) /\ armed c dl u t t'.
Proof using Hd.
  intros I Hx Ha Hc. unfold Start, SetTaskInfo, modify, with_timer. rewrite Ha. obind. set (t1 := MkTimer _ _ _ _ _ _ _ _).
  assert (WI (Some a) (set_heap a t1 w)) as I1 by (apply (set_heap_inv x (Some a) w a t); try done; by left).
  destruct (reset_inv (Some a) (set_heap a t1 w) a t1 u c I1) as (w' & t' & E & I' & Hh & HA); [by right|cbn; by rewrite lookup_insert_eq|done|done|]. exists w', t'. split; [done|]. split; [done|]. cbn in Hh. by rewrite insert_insert_eq in Hh.
Qed.
Lemma new_inv w a t : WI None w -> heap w !! a = None -> scheduled_task_ t = None -> is_running_ t = false -> WI None (set_heap a t w).
Proof.
  intros [H1 H2 H3 H4 H5] Ha Hs Hr. split; cbn; try done.
  - intros q b Hq Hb. destruct (H3 q b Hq Hb) as (u & Hu & Hsu). exists u. rewrite lookup_insert_ne; [done|]. intros ->. congruence.
  - intros b u i. destruct (decide (b = a)) as [-> |Hn]; [rewrite lookup_insert_eq; intros [= <-]; congruence|rewrite lookup_insert_ne by done; by apply H4].
  - intros b u Hb. destruct (decide (b = a)) as [-> |Hn]; [rewrite lookup_insert_eq; intros [= <-]; congruence|rewrite lookup_insert_ne by done; by apply H5].
Qed.
Lemma delete_inv w a t : WI None w -> heap w !! a = Some t -> exists w', delete_Timer a w = Ret w' /\ WI None w' /\ heap w' = delete a (heap w).
Proof.
  intros I Ha. unfold delete_Timer, StopAndAbandon. destruct (stop_inv None w a t I (or_introl eq_refl) Ha) as [-> I1]. obind.
  destruct (abandon_inv None (set_heap a (stopped t) w) a (stopped t) I1) as (w2 & -> & I2 & Hh & _); [by left|cbn; by rewrite lookup_insert_eq|]. obind. eexists. split; [done|].
  assert (delete a (heap w2) = delete a (heap w)) as E by (rewrite Hh; cbn; by rewrite !delete_insert_eq). cbn. rewrite E. split; [|done]. destruct I2 as [H1 H2 H3 H4 H5]. assert (heap w2 !! a = Some (set_scheduled None (stopped t))) as Ha2 by (rewrite Hh; by rewrite lookup_insert_eq).
  rewrite <- E. split; cbn; try done.
  - intros q b Hq Hb. destruct (H3 q b Hq Hb) as (u & Hu & Hsu). exists u. rewrite lookup_delete_ne; [done|]. intros ->. rewrite Ha2 in Hu. injection Hu as <-. done.
  - intros b u i [Hn Hb]%lookup_delete_Some. by apply H4.
  - intros b u _ [Hn Hb]%lookup_delete_Some. apply (H5 b); [congruence|done].
Qed.
(** The loop takes a task from the queue. *)
Lemma take_inv w n q : WI None w -> queue w !! n = Some q -> timer_ q = None -> WI None (World (heap w) (delete n (queue w)) (next_task w)).
Proof.
  intros [H1 H2 H3 H4 H5] Hn Hq. destruct (delete_task_in _ n q H1 Hn) as [Hin Hnd]. split; cbn; try done.
  - intros r [Hr _]%Hin. by apply H2.
  - intros r b [Hr _]%Hin. by apply H3.
  - intros b u i Hb Hi. destruct (H4 b u i Hb Hi) as (r & Hr & Hid & Hrb & Hdue). exists r. split; [|done]. apply Hin. split; [done|]. intros E. assert (r = q) as ->; [|congruence].
    destruct (find_task w r H1 Hr) as (m & Em & Hm). rewrite E in Em. destruct (find_task w q H1) as (m' & Em' & _); [by eapply list_elem_of_lookup_2|]. congruence.
Qed.
Lemma take_timer_inv w n q a t : WI None w -> queue w !! n = Some q -> timer_ q = Some a -> heap w !! a = Some t -> WI (Some a) (World (<[a := set_scheduled None t]> (heap w)) (delete n (queue w)) (next_task w)).
Proof.
  intros [H1 H2 H3 H4 H5] Hn Hq Ha. destruct (delete_task_in _ n q H1 Hn) as [Hin Hnd]. assert (q ∈ queue w) as Hqin by (by eapply list_elem_of_lookup_2). destruct (H3 q a Hqin Hq) as (t0 & Ha0 & Hs). rewrite Ha in Ha0. injection Ha0 as <-. split; cbn; try done.
  - intros r [Hr _]%Hin. by apply H2.
  - intros r b [Hr Hne]%Hin Hb. destruct (H3 r b Hr Hb) as (u & Hu & Hsu). destruct (decide (b = a)) as [-> |Hn']; [congruence|]. exists u. by rewrite lookup_insert_ne.
  - intros b u i. destruct (decide (b = a)) as [-> |Hn']; [rewrite lookup_insert_eq; by intros [= <-]|]. rewrite lookup_insert_ne by done. intros Hb Hi. destruct (H4 b u i Hb Hi) as (r & Hr & Hid & Hrb & Hdue). exists r. split; [|done]. apply Hin. split; [done|].
    intros E. assert (r = q) as ->; [|congruence]. destruct (find_task w r H1 Hr) as (m & Em & Hm). rewrite E in Em. destruct (find_task w q H1 Hqin) as (m' & Em' & _). congruence.
  - intros b u Hb. assert (b <> a) by (by intros ->). rewrite lookup_insert_ne by done. by apply H5.
Qed.
(** What running its task does to a timer: nothing when it was stopped, a new task for
    what is left when it was moved, or else the user's closure. *)
Definition after_run (c : clock) t (r : option C) t' : Prop :=
  (is_running_ t = false /\ r = None /\ is_running_ t' = false) \/
  (is_running_ t = true /\ r = None /\ now c < desired_run_time_ t /\ scheduled_run_time_ t < desired_run_time_ t /\ is_running_ t' = true /\ user_task_ t' = user_task_ t /\ delay_ t' = delay_ t /\ desired_run_time_ t <= desired_run_time_ t' <= desired_run_time_ t + d /\ scheduled_run_time_ t' = desired_run_time_ t') \/
  (is_running_ t = true /\ r = user_task_ t /\ desired_run_time_ t <= now c + d /\ exists u, user_task_ t = Some u /\ (if is_repeating_ t then armed c (delay_ t) u t t' else is_running_ t' = false)).
Lemma run_inv w q c : WI None w -> q ∈ queue w -> due q <= now c -> clock_ok d c ->
  exists w' r, Run dcheck_on (task_id q) c w = Ret (w', r) /\ WI None w' /\
    match timer_ q with
    | None => r = None /\ heap w' = heap w
    | Some a => exists t t', heap w !! a = Some t /\ heap w' = <[a := t']> (heap w) /\ is_repeating_ t' = is_repeating_ t /\ retain_user_task_ t' = retain_user_task_ t /\
        after_run c t r t'
    end.
Proof using Hd.
  intros I Hq Hdue Hc. pose proof Hc as (Hc1 & Hc2 & Hc3). pose proof I as [H1 H2 H3 H4 H5]. destruct (find_task w q H1 Hq) as (n & Ef & Hn). unfold Run. rewrite Ef. destruct (timer_ q) as [a|] eqn:Eq.
  2: { eexists _, _. split; [done|]. split; [by eapply take_inv|done]. }
  destruct (H3 q a Hq Eq) as (t & Ha & Hs). pose proof (take_timer_inv w n q a t I Hn Eq Ha) as I1. unfold modify, with_timer. cbn. rewrite Ha. obind. unfold set_heap. cbn. set (w1 := World _ _ _) in *.
  assert (heap w1 !! a = Some (set_scheduled None t)) as Ha1 by (unfold w1; cbn; by rewrite lookup_insert_eq). unfold RunScheduledTask, with_timer. rewrite Ha1. cbn [is_running_ set_scheduled scheduled_run_time_ desired_run_time_ user_task_ is_repeating_ delay_].
  destruct (is_running_ t) eqn:Er; cbn [negb].
  2: { eexists _, _. split; [done|]. split; [|exists t, (set_scheduled None t); unfold w1; cbn; repeat (split; [done|]); by left]. destruct I1 as [J1 J2 J3 J4 J5]. split; try done. intros b u _ Hb Hru. apply (J5 b); [|done|done]. intros [= ->]. rewrite Ha1 in Hb. injection Hb as <-. cbn in Hru. congruence. }
  destruct (H5 a t ltac:(done) Ha Er) as (_ & [u Hu] & Hle). destruct (H4 a t _ Ha Hs) as (q' & Hq' & Hid & _ & Hdq). assert (q' = q) as ->.
  { destruct (find_task w q' H1 Hq') as (m & Em & Hm). rewrite Hid in Em. rewrite Ef in Em. congruence. }
  assert (desired_run_time_ t <= now c + d -> exists w' t', (w2 ← (if is_repeating_ t then PostNewScheduledTask dcheck_on a (delay_ t) c w1 else Stop a w1); Ret (w2, user_task_ t)) = Ret (w', user_task_ t) /\ WI None w' /\ heap w' = <[a := t']> (heap w) /\ is_repeating_ t' = is_repeating_ t /\ retain_user_task_ t' = retain_user_task_ t /\
    (if is_repeating_ t then armed c (delay_ t) u t t' else is_running_ t' = false)) as Hfire.
  { intros _. destruct (is_repeating_ t) eqn:Ep.
    - destruct (posting_inv (Some a) w1 a (set_scheduled None t) (delay_ t) c I1) as [-> I3]; [by right|done|done|cbn; by rewrite Hu|done|]. obind. eexists _, _. split; [done|]. split; [done|]. cbn. rewrite insert_insert_eq. split; [done|]. cbn. rewrite Ep. split; [done|]. split; [done|]. unfold armed. cbn. rewrite Ep. repeat (split; [done|]). destruct (Z.ltb_spec 0 (delay_ t)); lia.
    - destruct (stop_inv (Some a) w1 a (set_scheduled None t) I1) as [-> I3]; [by right|done|]. obind. eexists _, _. split; [done|]. split; [done|]. cbn. rewrite insert_insert_eq. split; [done|]. unfold stopped. cbn. by destruct (retain_user_task_ t) eqn:Et; cbn; rewrite ?Ep, ?Et. }
  assert (desired_run_time_ t <= now c + d -> exists w' r, (w2 ← (if is_repeating_ t then PostNewScheduledTask dcheck_on a (delay_ t) c w1 else Stop a w1); Ret (w2, user_task_ t)) = Ret (w', r) /\ WI None w' /\ exists t0 t', Some t = Some t0 /\ heap w' = <[a := t']> (heap w) /\ is_repeating_ t' = is_repeating_ t0 /\ retain_user_task_ t' = retain_user_task_ t0 /\ after_run c t0 r t') as Hrun.
  { intros Hdes. destruct (Hfire Hdes) as (w' & t' & E & I' & Hh & Hrep & Hret & Harm). exists w', (user_task_ t). split; [done|]. split; [done|]. exists t, t'. repeat (split; [done|]). right; right. repeat (split; [done|]). by exists u. }
  destruct (Z.ltb_spec (scheduled_run_time_ t) (desired_run_time_ t)) as [Hlt|Hge]; cbn [andb]; [|apply Hrun; lia].
  destruct (Z.ltb_spec (now c) (desired_run_time_ t)) as [Hnow|Hnow]; [|apply Hrun; lia].
  destruct (posting_inv (Some a) w1 a (set_scheduled None t) (desired_run_time_ t - now c) c I1) as [-> I3]; [by right|done|done|cbn; by rewrite Hu|done|]. obind. eexists _, _. split; [done|]. split; [done|]. exists t. eexists. split; [done|]. cbn. rewrite insert_insert_eq. split; [done|]. split; [done|]. split; [done|]. right; left. repeat (split; [done|]).
  cbn. rewrite (proj2 (Z.ltb_lt 0 _)) by lia. lia.
Qed.
(** The loop is destroyed with the task: its timer is stopped. *)
Lemma drop_inv w q : WI None w -> q ∈ queue w ->
  exists w', delete_task (task_id q) w = Ret w' /\ WI None w' /\
    match timer_ q with None => heap w' = heap w | Some a => exists t, heap w !! a = Some t /\ heap w' = <[a := set_scheduled None (stopped t)]> (heap w) end.
Proof.
  intros I Hq. pose proof I as [H1 H2 H3 H4 H5]. destruct (find_task w q H1 Hq) as (n & Ef & Hn). unfold delete_task. rewrite Ef. destruct (timer_ q) as [a|] eqn:Eq.
  - destruct (H3 q a Hq Eq) as (t & Ha & Hs). unfold StopAndAbandon. destruct (stop_inv None w a t I (or_introl eq_refl) Ha) as [-> I1]. obind.
    destruct (abandon_inv None (set_heap a (stopped t) w) a (stopped t) I1) as (w2 & -> & I2 & Hh & Hqu); [by left|cbn; by rewrite lookup_insert_eq|]. obind.
    assert (queue w2 = <[n := Abandon q]> (queue w)) as Eq2 by (apply Hqu; [unfold stopped; cbn; by destruct (retain_user_task_ t)|done]). assert (heap w2 = <[a := set_scheduled None (stopped t)]> (heap w)) as Eh by (rewrite Hh; cbn; by rewrite insert_insert_eq).
    eexists. split; [done|]. split; [|by exists t].
    assert (WI None w2) as I3.
    { destruct I2 as [J1 J2 J3 J4 J5]. split; try done. intros b u _ Hb Hr. destruct (decide (b = a)) as [-> |Hne]; [|apply (J5 b); [congruence|done|done]]. rewrite Eh, lookup_insert_eq in Hb. injection Hb as <-. exfalso. unfold stopped in Hr. cbn in Hr. by destruct (retain_user_task_ t). }
    apply (take_inv w2 n (Abandon q) I3); [|done]. rewrite Eq2. apply list_lookup_insert_eq. by eapply lookup_lt_Some.
  - eexists. split; [done|]. split; [by eapply take_inv|done].
Qed.

(** ** Timers in use *)
(** What happens to the timer [a]: it is started with a closure and a delay, stopped, made
    or deleted, or its closure is run. *)
Inductive obs := Armed (a : address) (u : C) (t dl : Z) | Stopped (a : address) | Ran (a : address) (u : C) (t : Z).
Definition about (a : address) (o : obs) : bool := match o with Armed b _ _ _ | Stopped b | Ran b _ _ => (b =? a)%nat end.
(** What a run of [q] shows, the newest first: a timer that repeats is started again. *)
Definition ran_obs q w (c : clock) (r : option C) : list obs :=
  match r, timer_ q with
  | Some u, Some a => match heap w !! a with Some t => (if is_repeating_ t then [Armed a u (now c) (delay_ t)] else []) ++ [Ran a u (now c)] | None => [] end
  | _, _ => []
  end.
(** The use of timers by one thread, up to the time [T]; [tr] has the newest first. *)
Inductive uses : list obs -> world C -> Z -> Prop :=
  | U_start : uses [] (World ∅ [] 0) 0
  | U_new tr w T a retain rep : uses tr w T -> heap w !! a = None -> uses (Stopped a :: tr) (set_heap a (new_Timer retain rep) w) T
  | U_new_info tr w T a dl u rep : uses tr w T -> heap w !! a = None -> uses (Stopped a :: tr) (set_heap a (new_Timer_info dl u rep) w) T
  | U_Start tr w T a dl u c w' : uses tr w T -> T <= now c -> clock_ok d c -> Start dcheck_on a dl u c w = Ret w' -> uses (Armed a u (now c) dl :: tr) w' (after c)
  | U_Reset tr w T a t u c w' : uses tr w T -> T <= now c -> clock_ok d c -> heap w !! a = Some t -> user_task_ t = Some u -> Reset dcheck_on a c w = Ret w' -> uses (Armed a u (now c) (delay_ t) :: tr) w' (after c)
  | U_Stop tr w T a w' : uses tr w T -> Stop a w = Ret w' -> uses (Stopped a :: tr) w' T
  | U_delete tr w T a w' : uses tr w T -> delete_Timer a w = Ret w' -> uses (Stopped a :: tr) w' T
  | U_run tr w T q c w' r : uses tr w T -> T <= now c -> clock_ok d c -> q ∈ queue w -> due q <= now c -> Run dcheck_on (task_id q) c w = Ret (w', r) -> uses (ran_obs q w c r ++ tr) w' (after c)
  | U_drop tr w T q w' : uses tr w T -> q ∈ queue w -> delete_task (task_id q) w = Ret w' -> uses (match timer_ q with Some a => [Stopped a] | None => [] end ++ tr) w' T.

(** The closure that runs is the one the timer was last started with, and nothing happened
    to the timer since. *)
Fixpoint runs_as_armed (tr : list obs) : Prop :=
  match tr with
  | [] => True
  | Ran a u time :: tr => (exists time0 dl, List.find (about a) tr = Some (Armed a u time0 dl) /\ time0 <= time /\ time0 + dl <= time + d) /\ runs_as_armed tr
  | _ :: tr => runs_as_armed tr
  end.
Definition timely t (time0 : Z) : Prop :=
  (0 < delay_ t -> time0 + delay_ t <= desired_run_time_ t) /\ desired_run_time_ t <= time0 + Z.max 0 (delay_ t) + 2 * d /\
  (scheduled_run_time_ t < desired_run_time_ t -> desired_run_time_ t <= time0 + Z.max 0 (delay_ t) + d).
Record UI (tr : list obs) w (T : Z) : Prop := {
  u_world : WI None w;
  u_armed : forall a t, heap w !! a = Some t -> is_running_ t = true ->
    exists u time0, user_task_ t = Some u /\ List.find (about a) tr = Some (Armed a u time0 (delay_ t)) /\ time0 <= T /\ timely t time0;
  u_last : forall a u time0 dl, List.find (about a) tr = Some (Armed a u time0 dl) -> exists t, heap w !! a = Some t /\ is_running_ t = true;
  u_ran : runs_as_armed tr
}.
(** A step that is about one timer. *)
Lemma use_step tr w T w' T' a ot os : UI tr w T -> WI None w' -> T <= T' -> (forall b, b <> a -> heap w' !! b = heap w !! b) -> (forall o, o ∈ os -> about a o = true) -> heap w' !! a = ot ->
  (forall t, ot = Some t -> is_running_ t = true -> exists u time0, user_task_ t = Some u /\ List.find (about a) (os ++ tr) = Some (Armed a u time0 (delay_ t)) /\ time0 <= T' /\ timely t time0) ->
  (forall u time0 dl, List.find (about a) (os ++ tr) = Some (Armed a u time0 dl) -> exists t, ot = Some t /\ is_running_ t = true) ->
  runs_as_armed (os ++ tr) -> UI (os ++ tr) w' T'.
Proof.
  intros [H1 H2 H3 H4] I' HT Hb Hos Ha Hr Hl Hg. assert (forall b, b <> a -> List.find (about b) (os ++ tr) = List.find (about b) tr) as Hf'.
  { intros b Hne. clear Hr Hg Hl. induction os as [|o os IH]; [done|]. cbn [app List.find].
    assert (about b o = false) as -> by (specialize (Hos o ltac:(by left)); destruct o; cbn in *; apply Nat.eqb_eq in Hos as ->; apply Nat.eqb_neq; congruence). apply IH. intros o' Ho'. apply Hos. by right. }
  split; [done| | |done].
  - intros b t Hbt Hrun. destruct (decide (b = a)) as [-> |Hne]; [apply Hr; [congruence|done]|].
    rewrite Hb in Hbt by done. destruct (H2 b t Hbt Hrun) as (u & t0 & Hu & Hf & Ht0 & Hd0). exists u, t0. split; [done|]. split; [by rewrite Hf'|]. split; [lia|done].
  - intros b u t0 dl. destruct (decide (b = a)) as [-> |Hne]; [intros Hf; rewrite Ha; by eapply Hl|]. rewrite Hf', Hb by done. by apply H3.
Qed.
Lemma armed_use tr w T w' a t t' u c dl : UI tr w T -> WI None w' -> T <= now c -> clock_ok d c -> heap w' = <[a := t']> (heap w) -> armed c dl u t t' -> UI (Armed a u (now c) dl :: tr) w' (after c).
Proof.
  intros HU I' HT (Hc1 & Hc2 & Hc3) Hh (A1 & A2 & A3 & _ & _ & A6 & A7). apply (use_step tr w T w' (after c) a (Some t') [Armed a u (now c) dl]); try done; [lia|by intros b Hb; rewrite Hh, lookup_insert_ne| |by rewrite Hh, lookup_insert_eq| |by intros; exists t'|apply (u_ran _ _ _ HU)].
  - intros o ->%list_elem_of_singleton. cbn. apply Nat.eqb_refl.
  - intros t1 [= <-] _. exists u, (now c). cbn. unfold timely. rewrite Nat.eqb_refl, A3. split; [done|]. split; [done|]. split; [lia|]. split; [done|lia].
Qed.
Lemma stopped_use tr w T w' a ot : UI tr w T -> WI None w' -> (forall b, b <> a -> heap w' !! b = heap w !! b) -> heap w' !! a = ot -> (forall t, ot = Some t -> is_running_ t = false) -> UI (Stopped a :: tr) w' T.
Proof.
  intros HU I' Hb Ha Hr. apply (use_step tr w T w' T a ot [Stopped a]); try done; [|intros t Ht Hrun; by rewrite Hr in Hrun|cbn; by rewrite Nat.eqb_refl|apply (u_ran _ _ _ HU)]. intros o ->%list_elem_of_singleton. cbn. apply Nat.eqb_refl.
Qed.
Lemma uses_inv tr w T : uses tr w T -> UI tr w T.
Proof using Hd.
  induction 1 as [|tr w T a retain rep _ IH Ha|tr w T a dl u rep _ IH Ha|tr w T a dl u c w' _ IH HT Hc E|tr w T a t u c w' _ IH HT Hc Ha Hu E|tr w T a w' _ IH E|tr w T a w' _ IH E|tr w T q c w' r _ IH HT Hc Hq Hdue E|tr w T q w' _ IH Hq E].
  - split; [|by intros a t|done|done]. split; cbn; try done; [by apply NoDup_nil_2|by intros q Hq%elem_of_nil|by intros q a Hq%elem_of_nil].
  - eapply stopped_use; [done|by apply new_inv; [apply (u_world _ _ _ IH)|..]|by intros b Hb; cbn; rewrite lookup_insert_ne|cbn; by rewrite lookup_insert_eq|]. by intros t [= <-].
  - eapply stopped_use; [done|by apply new_inv; [apply (u_world _ _ _ IH)|..]|by intros b Hb; cbn; rewrite lookup_insert_ne|cbn; by rewrite lookup_insert_eq|]. by intros t [= <-].
  - destruct (heap w !! a) as [t|] eqn:Ha; [|by unfold Start, SetTaskInfo, modify, with_timer in E; rewrite Ha in E].
    destruct (starting_inv None w a t dl u c (u_world _ _ _ IH)) as (w2 & t' & E' & I' & Hh & HA); [by left|done|done|]. rewrite E in E'. injection E' as <-. by eapply armed_use.
  - destruct (reset_inv None w a t u c (u_world _ _ _ IH)) as (w2 & t' & E' & I' & Hh & HA); [by left|done|done|done|]. rewrite E in E'. injection E' as <-. by eapply armed_use.
  - destruct (heap w !! a) as [t|] eqn:Ha; [|by unfold Stop, modify, with_timer in E; rewrite Ha in E]. destruct (stop_inv None w a t (u_world _ _ _ IH)) as [E' I']; [by left|done|]. rewrite E in E'. injection E' as ->.
    eapply stopped_use; [done|done|by intros b Hb; cbn; rewrite lookup_insert_ne|cbn; by rewrite lookup_insert_eq|]. intros t1 [= <-]. unfold stopped. by destruct (retain_user_task_ _).
  - destruct (heap w !! a) as [t|] eqn:Ha; [|by unfold delete_Timer, StopAndAbandon, Stop, modify, with_timer in E; rewrite Ha in E]. destruct (delete_inv w a t (u_world _ _ _ IH) Ha) as (w2 & E' & I' & Hh). rewrite E in E'. injection E' as <-.
    eapply stopped_use; [done|done|by intros b Hb; rewrite Hh, lookup_delete_ne|by rewrite Hh, lookup_delete_eq|done].
  - destruct (run_inv w q c (u_world _ _ _ IH) Hq Hdue Hc) as (w2 & r' & E' & I' & Hrun). rewrite E in E'. injection E' as <- <-. pose proof Hc as (Hc1 & Hc2 & Hc3). unfold ran_obs. destruct (timer_ q) as [a|] eqn:Eq.
    + destruct Hrun as (t & t' & Ha & Hh & Hrep & _ & Hcase). rewrite Ha. assert (forall b, b <> a -> heap w' !! b = heap w !! b) as Hb by (intros b Hb; by rewrite Hh, lookup_insert_ne). assert (heap w' !! a = Some t') as Ha' by (by rewrite Hh, lookup_insert_eq).
      destruct Hcase as [(Hr & -> & Hr')|[(Hr & -> & _ & Hlt & Hr' & Hu' & Hd' & Hdes & Hsd)|(Hr & -> & Hdes & u & Hu & Hcase)]].
      * apply (use_step tr w T w' (after c) a (Some t') []); try done; [lia|by intros o Ho%elem_of_nil|intros t1 [= <-]; congruence| |apply (u_ran _ _ _ IH)]. intros u1 t1 d1 Hf. destruct (u_last _ _ _ IH _ _ _ _ Hf) as (t2 & Ht2 & Hr2). congruence.
      * apply (use_step tr w T w' (after c) a (Some t') []); try done; [lia|by intros o Ho%elem_of_nil| |by intros; exists t'|apply (u_ran _ _ _ IH)]. intros t1 [= <-] _. destruct (u_armed _ _ _ IH a t Ha Hr) as (u & t0 & Hu & Hf & Ht0 & Hdl). exists u, t0. rewrite Hd', Hu'. split; [done|]. split; [done|]. split; [lia|]. destruct Hdl as (D1 & D2 & D3). unfold timely. rewrite Hd'. lia.
      * rewrite Hu. destruct (u_armed _ _ _ IH a t Ha Hr) as (u' & t0 & Hu' & Hf & Ht0 & Hdl). rewrite Hu in Hu'. injection Hu' as <-.
        assert (runs_as_armed (Ran a u (now c) :: tr)) as Hg by (split; [|apply (u_ran _ _ _ IH)]; exists t0, (delay_ t); split; [done|]; split; [lia|]; destruct (Z.lt_ge_cases 0 (delay_ t)); [destruct Hdl as [Hdl _]; specialize (Hdl ltac:(done))|]; lia).
        destruct (is_repeating_ t).
        -- destruct Hcase as (A1 & A2 & A3 & _ & _ & A6 & A7). apply (use_step tr w T w' (after c) a (Some t') [Armed a u (now c) (delay_ t); Ran a u (now c)]); try done; [lia| | |by intros; exists t'].
           ++ intros o [-> | ->%list_elem_of_singleton]%elem_of_cons; cbn; apply Nat.eqb_refl.
           ++ intros t1 [= <-] _. exists u, (now c). cbn. unfold timely. rewrite Nat.eqb_refl, A3. split; [done|]. split; [done|]. split; [lia|]. split; [done|lia].
        -- apply (use_step tr w T w' (after c) a (Some t') [Ran a u (now c)]); try done; [lia| |intros t1 [= <-]; congruence|cbn; by rewrite Nat.eqb_refl]. intros o ->%list_elem_of_singleton. cbn. apply Nat.eqb_refl.
    + destruct Hrun as [-> Hh]. cbn. destruct IH as [J1 J2 J3 J4]. split; [done| |by rewrite Hh|done]. intros a t Ha Hr. rewrite Hh in Ha. destruct (J2 a t Ha Hr) as (u & t0 & ? & ? & ? & ?). exists u, t0. repeat (split; [done|]). split; [lia|done].
  - destruct (drop_inv w q (u_world _ _ _ IH) Hq) as (w2 & E' & I' & Hcase). rewrite E in E'. injection E' as <-. destruct (timer_ q) as [a|].
    + destruct Hcase as (t & Ha & Hh). eapply (stopped_use tr w T w' a); [done|done|by intros b Hb; rewrite Hh, lookup_insert_ne|by rewrite Hh, lookup_insert_eq|]. intros t1 [= <-]. unfold stopped. cbn. by destruct (retain_user_task_ t).
    + destruct IH as [J1 J2 J3 J4]. by split; [|rewrite Hcase..|].
Qed.

(** A timer that was started and not touched since has a task in the queue, in time, and
    running that late enough runs the closure. *)
Lemma armed_fires tr w T a u time0 dl : UI tr w T -> List.find (about a) tr = Some (Armed a u time0 dl) ->
  exists q, q ∈ queue w /\ timer_ q = Some a /\ due q <= time0 + Z.max 0 dl + 2 * d /\
    forall c, clock_ok d c -> time0 + Z.max 0 dl + 2 * d <= now c -> exists w', Run dcheck_on (task_id q) c w = Ret (w', Some u).
Proof using Hd.
  intros HU Hf. destruct (u_last _ _ _ HU _ _ _ _ Hf) as (t & Ha & Hr). destruct (u_armed _ _ _ HU a t Ha Hr) as (u' & t0 & Hu & Hf' & Ht0 & D1 & D2 & D3). rewrite Hf in Hf'. injection Hf' as <- <- ->.
  destruct (w_run _ _ (u_world _ _ _ HU) a t ltac:(done) Ha Hr) as ([i Hi] & _ & Hle). destruct (w_sched _ _ (u_world _ _ _ HU) a t i Ha Hi) as (q & Hq & Hid & Hqa & Hdue).
  exists q. split; [done|]. split; [done|]. split; [lia|]. intros c Hc Hnow. destruct (run_inv w q c (u_world _ _ _ HU) Hq ltac:(lia) Hc) as (w' & r & E & _ & Hcase). exists w'. rewrite E. rewrite Hqa in Hcase.
  destruct Hcase as (t1 & t' & Ha1 & _ & _ & _ & [(Hr1 & _)|[(_ & _ & Hlt & _)|(_ & -> & _)]]); [congruence|rewrite Ha in Ha1; injection Ha1 as <-; lia|]. rewrite Ha in Ha1. injection Ha1 as <-. by rewrite Hu.
Qed.
Definition returns {A} (o : outcome A) : Prop := exists x, o = Ret x.
Lemma uses_return w T tr : UI tr w T ->
  (forall q c, q ∈ queue w -> due q <= now c -> clock_ok d c -> returns (Run dcheck_on (task_id q) c w)) /\
  (forall q, q ∈ queue w -> returns (delete_task (task_id q) w)) /\
  (forall a t, heap w !! a = Some t -> returns (Stop a w) /\ returns (delete_Timer a w) /\
    forall c, clock_ok d c -> (forall dl u, returns (Start dcheck_on a dl u c w)) /\ (is_Some (user_task_ t) -> returns (Reset dcheck_on a c w))).
Proof using Hd.
  intros [HW _ _ _]. split; [|split].
  - intros q c Hq Hdue Hc. destruct (run_inv w q c HW Hq Hdue Hc) as (w' & r & E & _). by exists (w', r).
  - intros q Hq. destruct (drop_inv w q HW Hq) as (w' & E & _). by exists w'.
  - intros a t Ha. split; [destruct (stop_inv None w a t HW) as [E _]; [by left|done|by eexists]|]. split; [destruct (delete_inv w a t HW Ha) as (w' & E & _); by exists w'|]. intros c Hc. split.
    + intros dl u. destruct (starting_inv None w a t dl u c HW) as (w' & t' & E & _); [by left|done|done|by exists w'].
    + intros [u Hu]. destruct (reset_inv None w a t u c HW) as (w' & t' & E & _); [by left|done|done|done|by exists w'].
Qed.
End Worlds.

(** ** The timers of a manager *)
Section Managers.
Context (dcheck_on : bool) (d : Z) (Hd : 0 <= d).
Implicit Types (m : TimerManager) (id : Z).

(** [Fired] is a call of the delegate. *)
Inductive event := SetAt (id tm time : Z) | Killed (id : Z) | Fired (id tm time : Z).
Definition of_id (id : Z) (e : event) : bool := match e with SetAt j _ _ | Killed j | Fired j _ _ => (j =? id)%Z end.
(** It was set, and not killed nor called for since. *)
Definition is_set id (tr : list event) : bool := match List.find (of_id id) tr with Some (SetAt _ _ _) => true | _ => false end.
(** A manager on a loop, the newest first; setting a timer that is set does nothing. *)
Inductive manages : list event -> TimerManager -> Z -> Prop :=
  | M_start : manages [] (Manager ∅ (World ∅ [] 0) 0) 0
  | M_SetTimer tr m T id tm c m' : manages tr m T -> T <= now c -> clock_ok d c -> SetTimer dcheck_on id tm c m = Ret m' ->
      manages ((if is_set id tr then [] else [SetAt id tm (now c)]) ++ tr) m' (after c)
  | M_KillTimer tr m T id m' : manages tr m T -> KillTimer id m = Ret m' -> manages (Killed id :: tr) m' T
  | M_run tr m T q c m' r : manages tr m T -> T <= now c -> clock_ok d c -> q ∈ queue (wld m) -> due q <= now c -> run_loop_task dcheck_on (task_id q) c m = Ret (m', r) ->
      manages (match r with Some t => [Fired (timer_id t) (tm t) (now c)] | None => [] end ++ tr) m' (after c).
Fixpoint fired_as_set (tr : list event) : Prop :=
  match tr with
  | [] => True
  | Fired id tm time :: tr => (exists time0, List.find (of_id id) tr = Some (SetAt id tm time0) /\ time0 <= time /\ time0 + tm * 1000 <= time + d) /\ fired_as_set tr
  | _ :: tr => fired_as_set tr
  end.

Definition set_timer (tr : list event) T id (t : Timer timeout) : Prop :=
  is_running_ t = true /\ is_repeating_ t = false /\ exists tm time0, user_task_ t = Some (Timeout id tm) /\ delay_ t = tm * 1000 /\ List.find (of_id id) tr = Some (SetAt id tm time0) /\ time0 <= T /\ timely d t time0.
Record MI (tr : list event) m (T : Z) : Prop := {
  m_world : WI d None (wld m);
  m_next : forall a t, heap (wld m) !! a = Some t -> (a < next_address m)%nat;
  m_timers : forall id a, timers_ m !! id = Some a -> exists t, heap (wld m) !! a = Some t /\ set_timer tr T id t;
  m_heap : forall a t, heap (wld m) !! a = Some t -> exists id, timers_ m !! id = Some a;
  m_none : forall id tm time0, timers_ m !! id = None -> List.find (of_id id) tr <> Some (SetAt id tm time0);
  m_fired : fired_as_set tr
}.
Lemma m_inj tr m T id id' a : MI tr m T -> timers_ m !! id = Some a -> timers_ m !! id' = Some a -> id = id'.
Proof.
  intros I H H'. destruct (m_timers _ _ _ I _ _ H) as (t & Ha & _ & _ & tm & t0 & Hu & _). destruct (m_timers _ _ _ I _ _ H') as (t' & Ha' & _ & _ & tm' & t0' & Hu' & _). congruence.
Qed.
(** An event of another timer. *)
Lemma set_timer_other tr T T' id t e : T <= T' -> of_id id e = false -> set_timer tr T id t -> set_timer (e :: tr) T' id t.
Proof.
  intros HT He (Hr & Hp & tm & t0 & Hu & Hdl & Hf & Ht0 & Hti). split; [done|]. split; [done|]. exists tm, t0. cbn [List.find]. rewrite He. repeat (split; [done|]). split; [lia|done].
Qed.
Lemma of_id_other id id' e : of_id id e = true -> id' <> id -> of_id id' e = false.
Proof. destruct e; cbn; intros ->%Z.eqb_eq Hn; apply Z.eqb_neq; congruence. Qed.
(** A timer is taken out of the map and deleted. *)
Lemma erase_inv tr m T T' w id a t e : MI tr m T -> timers_ m !! id = Some a -> WI d None w -> heap w = <[a := t]> (heap (wld m)) -> T <= T' ->
  of_id id e = true -> (forall tm time0, e <> SetAt id tm time0) -> fired_as_set (e :: tr) -> exists m', erase id a (set_world m w) = Ret m' /\ MI (e :: tr) m' T'.
Proof.
  intros I Hid HW Hh HT He Hne Hf. unfold erase. cbn. destruct (delete_inv d w a t HW ltac:(by rewrite Hh, lookup_insert_eq)) as (w' & -> & HW' & Hh'). obind. eexists. split; [done|].
  assert (heap w' = delete a (heap (wld m))) as Eh by (rewrite Hh', Hh; by rewrite delete_insert_eq). split; cbn; rewrite ?Eh; try done.
  - intros b u [_ Hb]%lookup_delete_Some. by apply (m_next _ _ _ I b u).
  - intros id' b [Hne' Hb]%lookup_delete_Some. destruct (m_timers _ _ _ I _ _ Hb) as (u & Hu & Hs). exists u. split.
    + rewrite lookup_delete_ne; [done|]. intros <-. apply Hne'. by eapply m_inj.
    + apply (set_timer_other tr T); [done| |done]. by apply (of_id_other id).
  - intros b u [Hne' Hb]%lookup_delete_Some. destruct (m_heap _ _ _ I _ _ Hb) as [id' Hid']. exists id'. rewrite lookup_delete_ne; [done|]. intros <-. congruence.
  - intros id' tm0 t0. destruct (decide (id' = id)) as [-> |Hn].
    + intros _. rewrite He. intros [= E]. by apply (Hne tm0 t0).
    + rewrite lookup_delete_ne by done. intros Hn'. rewrite (of_id_other id) by done. by apply (m_none _ _ _ I).
Qed.
Lemma SetTimer_inv tr m T id tm c : MI tr m T -> T <= now c -> clock_ok d c -> exists m', SetTimer dcheck_on id tm c m = Ret m' /\
  MI ((if is_set id tr then [] else [SetAt id tm (now c)]) ++ tr) m' (after c).
Proof using Hd.
  intros I HT Hc. assert (is_set id tr = match timers_ m !! id with None => false | Some _ => true end) as ->.
  { unfold is_set. destruct (timers_ m !! id) as [a|] eqn:E.
    - destruct (m_timers _ _ _ I _ _ E) as (t & _ & _ & _ & tm' & t0 & _ & _ & -> & _). done.
    - destruct (List.find (of_id id) tr) as [[j tm' t0|j|j tm' t0]|] eqn:Ef; try done. pose proof (proj2 (List.find_some _ _ Ef)) as Hj. cbn in Hj. apply Z.eqb_eq in Hj as ->. by destruct (m_none _ _ _ I id tm' t0). }
   pose proof Hc as (Hc1 & Hc2 & Hc3). unfold SetTimer. destruct (timers_ m !! id) as [a|] eqn:Eid.
  - exists m. split; [done|]. destruct I as [H1 H2 H3 H4 H5 H6]. split; try done. intros id' b Hb. destruct (H3 _ _ Hb) as (t & Ht & Hr & Hp & tm' & t0 & Hu & Hdl & Hf & Ht0 & Hti). exists t. split; [done|]. split; [done|]. split; [done|]. exists tm', t0. repeat (split; [done|]). split; [lia|done].
  - set (a := next_address m). assert (heap (wld m) !! a = None) as Hfree by (destruct (heap (wld m) !! a) as [t|] eqn:E; [|done]; pose proof (m_next _ _ _ I _ _ E); unfold a in *; lia).
    pose proof (new_inv d (wld m) a (new_Timer false false) (m_world _ _ _ I) Hfree eq_refl eq_refl) as HW.
    destruct (starting_inv dcheck_on d Hd None _ a (new_Timer false false) (tm * 1000) (Timeout id tm) c HW) as (w' & t' & -> & HW' & Hh & A1 & A2 & A3 & A4 & _ & A6 & A7); [by left|cbn; by rewrite lookup_insert_eq|done|]. obind. eexists. split; [done|].
    assert (heap w' = <[a := t']> (heap (wld m))) as Eh by (rewrite Hh; cbn; by rewrite insert_insert_eq). split; cbn; rewrite ?Eh; try done.
    + intros b u. destruct (decide (b = a)) as [-> |Hn]; [unfold a; lia|]. rewrite lookup_insert_ne by done. intros Hb. pose proof (m_next _ _ _ I _ _ Hb). lia.
    + intros id' b. destruct (decide (id' = id)) as [-> |Hn].
      * rewrite lookup_insert_eq. intros [= <-]. exists t'. rewrite lookup_insert_eq. split; [done|]. split; [done|]. split; [done|]. exists tm, (now c). cbn. rewrite Z.eqb_refl. repeat (split; [done|]). split; [lia|]. unfold timely. rewrite A3. split; [done|]. lia.
      * rewrite lookup_insert_ne by done. intros Hb. destruct (m_timers _ _ _ I _ _ Hb) as (t & Ht & Hs). exists t. split; [rewrite lookup_insert_ne; [done|]; intros <-; congruence|]. apply (set_timer_other tr T); [lia|by apply Z.eqb_neq|done].
    + intros b u. destruct (decide (b = a)) as [-> |Hn]; [intros _; exists id; by rewrite lookup_insert_eq|]. rewrite lookup_insert_ne by done. intros Hb. destruct (m_heap _ _ _ I _ _ Hb) as [id' Hid']. exists id'. rewrite lookup_insert_ne; [done|]. intros <-. congruence.
    + intros id' tm' t0. destruct (decide (id' = id)) as [-> |Hn]; [by rewrite lookup_insert_eq|]. rewrite lookup_insert_ne by done. intros Hn'. rewrite (proj2 (Z.eqb_neq id id')) by done. by apply (m_none _ _ _ I).
    + by apply (m_fired _ _ _ I).
Qed.
Lemma KillTimer_inv tr m T id : MI tr m T -> exists m', KillTimer id m = Ret m' /\ MI (Killed id :: tr) m' T.
Proof.
  intros I. unfold KillTimer. destruct (timers_ m !! id) as [a|] eqn:Eid.
  - destruct (m_timers _ _ _ I _ _ Eid) as (t & Ha & _). destruct (stop_inv d None (wld m) a t (m_world _ _ _ I)) as [-> HW]; [by left|done|]. obind.
    eapply (erase_inv tr m T T _ id a (stopped t)); try done; [cbn; by rewrite Z.eqb_refl|apply (m_fired _ _ _ I)].
  - exists m. split; [done|]. destruct I as [H1 H2 H3 H4 H5 H6]. split; try done.
    + intros id' b Hb. destruct (H3 _ _ Hb) as (t & Ht & Hs). exists t. split; [done|]. apply (set_timer_other tr T); [done| |done]. cbn. apply Z.eqb_neq. congruence.
    + intros id' tm t0 Hn. cbn. destruct (Z.eqb_spec id id') as [-> |Hne]; [done|by apply H5].
Qed.
(** The loop runs a task: if it is of a timer that is due, the delegate is called, after
    the timer was erased. *)
Lemma run_task_inv tr m T q c : MI tr m T -> T <= now c -> clock_ok d c -> q ∈ queue (wld m) -> due q <= now c ->
  exists m' r, run_loop_task dcheck_on (task_id q) c m = Ret (m', r) /\ MI (match r with Some t => [Fired (timer_id t) (tm t) (now c)] | None => [] end ++ tr) m' (after c) /\
    forall id a tm time0, timer_ q = Some a -> timers_ m !! id = Some a -> List.find (of_id id) tr = Some (SetAt id tm time0) -> time0 + Z.max 0 (tm * 1000) + 2 * d <= now c -> r = Some (Timeout id tm).
Proof using Hd.
  intros I HT Hc Hq Hdue. pose proof Hc as (Hc1 & Hc2 & Hc3). destruct (run_inv dcheck_on d Hd (wld m) q c (m_world _ _ _ I) Hq Hdue Hc) as (w' & r & E & HW & Hcase). unfold run_loop_task. rewrite E. obind. cbn [fst snd].
  destruct (timer_ q) as [a|] eqn:Eq.
  2: { destruct Hcase as [-> Hh]. eexists _, _. split; [done|]. split; [|done]. destruct I as [H1 H2 H3 H4 H5 H6]. split; cbn; rewrite ?Hh; try done. intros id b Hb. destruct (H3 _ _ Hb) as (t & Ht & Hr & Hp & tm & t0 & Hu & Hdl & Hf & Ht0 & Hti). exists t. split; [done|]. split; [done|]. split; [done|]. exists tm, t0. repeat (split; [done|]). split; [lia|done]. }
  destruct Hcase as (t & t' & Ha & Hh & Hrep & _ & Hcase). destruct (m_heap _ _ _ I _ _ Ha) as [id Hid]. destruct (m_timers _ _ _ I _ _ Hid) as (t1 & Ha1 & Hr & Hp & tm & t0 & Hu & Hdl & Hf & Ht0 & Hti). rewrite Ha in Ha1. injection Ha1 as <-.
  assert (forall id' a' tm' time0, Some a = Some a' -> timers_ m !! id' = Some a' -> List.find (of_id id') tr = Some (SetAt id' tm' time0) -> id' = id /\ tm' = tm /\ time0 = t0) as Hsame.
  { intros id' a' tm' time0 [= <-] Hid' Hf'. assert (id' = id) as -> by (by eapply m_inj). rewrite Hf in Hf'. by injection Hf' as <- <-. }
  destruct Hcase as [(Hr' & _)|[(_ & -> & Hnow & Hlt & Hr' & Hu' & Hd' & Hdes & Hsd)|(_ & -> & Hdes & _)]]; [congruence| |].
  - eexists _, _. split; [done|]. split.
    2: { intros id' a' tm' time0 E1 E2 E3 Hlate. destruct (Hsame _ _ _ _ E1 E2 E3) as (-> & -> & ->). destruct Hti as (_ & D2 & _). rewrite Hdl in D2. lia. }
    pose proof I as [H1 H2 H3 H4 H5 H6]. split; cbn; rewrite ?Hh; try done.
    + intros b u. destruct (decide (b = a)) as [-> |Hn]; [intros _; by eapply H2|rewrite lookup_insert_ne by done; by apply H2].
    + intros id' b Hb. destruct (decide (b = a)) as [-> |Hn].
      * assert (id' = id) as -> by (by eapply m_inj). exists t'. rewrite lookup_insert_eq. split; [done|]. split; [done|]. split; [congruence|]. exists tm, t0. split; [congruence|]. split; [congruence|]. split; [done|]. split; [lia|]. destruct Hti as (D1 & D2 & D3). unfold timely. rewrite Hd'. lia.
      * destruct (H3 _ _ Hb) as (u & Hbu & Hru & Hpu & tm' & t0' & Huu & Hdlu & Hfu & Ht0u & Htiu). exists u. rewrite lookup_insert_ne by done. split; [done|]. split; [done|]. split; [done|]. exists tm', t0'. repeat (split; [done|]). split; [lia|done].
    + intros b u. destruct (decide (b = a)) as [-> |Hn]; [by exists id|rewrite lookup_insert_ne by done; by apply H4].
  - rewrite Hu. unfold handle_timeout. cbn [timer_id timers_ set_world]. rewrite Hid.
    destruct (erase_inv tr m T (after c) w' id a t' (Fired id tm (now c)) I Hid HW Hh) as (m' & -> & I'); [lia|cbn; apply Z.eqb_refl|done| |].
    { split; [|apply (m_fired _ _ _ I)]. exists t0. split; [done|]. split; [lia|]. destruct Hti as (D1 & _). rewrite Hdl in D1. lia. }
    obind. exists m', (Some (Timeout id tm)). split; [done|]. split; [done|]. intros id' a' tm' time0 E1 E2 E3 _. by destruct (Hsame _ _ _ _ E1 E2 E3) as (-> & -> & ->).
Qed.
Lemma manages_inv tr m T : manages tr m T -> MI tr m T.
Proof using Hd.
  induction 1 as [|tr m T id tm c m' _ IH HT Hc E|tr m T id m' _ IH E|tr m T q c m' r _ IH HT Hc Hq Hdue E].
  - split; try done. split; cbn; try done; [by apply NoDup_nil_2|by intros q Hq%elem_of_nil|by intros q a Hq%elem_of_nil].
  - destruct (SetTimer_inv tr m T id tm c IH HT Hc) as (m2 & E' & I'). rewrite E in E'. by injection E' as <-.
  - destruct (KillTimer_inv tr m T id IH) as (m2 & E' & I'). rewrite E in E'. by injection E' as <-.
  - destruct (run_task_inv tr m T q c IH HT Hc Hq Hdue) as (m2 & r2 & E' & I' & _). rewrite E in E'. by injection E' as <- <-.
Qed.
(** A timer that is set has a task in the queue that calls the delegate. *)
Lemma set_fires tr m T id tm time0 : MI tr m T -> List.find (of_id id) tr = Some (SetAt id tm time0) ->
  exists q, q ∈ queue (wld m) /\ due q <= time0 + Z.max 0 (tm * 1000) + 2 * d /\
    forall c, T <= now c -> clock_ok d c -> time0 + Z.max 0 (tm * 1000) + 2 * d <= now c -> exists m', run_loop_task dcheck_on (task_id q) c m = Ret (m', Some (Timeout id tm)).
Proof using Hd.
  intros I Hf. destruct (timers_ m !! id) as [a|] eqn:Eid; [|by destruct (m_none _ _ _ I id tm time0)]. destruct (m_timers _ _ _ I _ _ Eid) as (t & Ha & Hr & _ & tm' & t0 & Hu & Hdl & Hf' & Ht0 & D1 & D2 & D3). rewrite Hf in Hf'. injection Hf' as <- <-.
  destruct (w_run _ _ _ (m_world _ _ _ I) a t ltac:(done) Ha Hr) as ([i Hi] & _ & Hle). destruct (w_sched _ _ _ (m_world _ _ _ I) a t i Ha Hi) as (q & Hq & Hid & Hqa & Hdue). rewrite Hdl in D2.
  exists q. split; [done|]. split; [lia|]. intros c HT Hc Hnow. destruct (run_task_inv tr m T q c I HT Hc Hq ltac:(lia)) as (m' & r & E & _ & Hr'). exists m'. by rewrite E, (Hr' id a tm time0).
Qed.
(** Deleting them all. *)
Lemma stop_all_inv l w : WI d None w -> (forall id a, (id, a) ∈ l -> is_Some (heap w !! a)) -> exists w', stop_all l w = Ret w' /\ WI d None w' /\ forall a, is_Some (heap w' !! a) <-> is_Some (heap w !! a).
Proof.
  revert w. induction l as [|[id a] l IH]; intros w HW Hl; cbn; [by exists w|]. destruct (Hl id a ltac:(by left)) as [t Ha]. destruct (stop_inv d None w a t HW) as [-> HW']; [by left|done|]. obind.
  assert (forall b, is_Some (heap (set_heap a (stopped t) w) !! b) <-> is_Some (heap w !! b)) as Hdom.
  { intros b. cbn. destruct (decide (b = a)) as [-> |Hn]; [rewrite lookup_insert_eq, Ha; split; by eexists|by rewrite lookup_insert_ne]. }
  destruct (IH _ HW') as (w' & E & HW2 & Hd2); [intros id' b Hb; apply Hdom; apply (Hl id'); by right|]. exists w'. split; [done|]. split; [done|]. intros b. by rewrite Hd2.
Qed.
Lemma clear_inv l m : WI d None (wld m) -> NoDup l.*2 -> (forall id a, (id, a) ∈ l -> is_Some (heap (wld m) !! a)) ->
  exists m', clear l m = Ret m' /\ WI d None (wld m') /\ (forall a t, heap (wld m') !! a = Some t -> heap (wld m) !! a = Some t /\ a ∉ l.*2) /\ forall id a, timers_ m' !! id = Some a -> timers_ m !! id = Some a /\ id ∉ l.*1.
Proof.
  revert m. induction l as [|[id a] l IH]; intros m HW Hnd Hl; cbn [clear].
  - exists m. split; [done|]. split; [done|]. split; intros; (split; [done|apply not_elem_of_nil]).
  - destruct (Hl id a ltac:(by left)) as [t Ha]. cbn in Hnd. apply list.NoDup_cons in Hnd as [Hna Hnd]. unfold erase. destruct (delete_inv d (wld m) a t HW Ha) as (w' & -> & HW' & Hh). obind.
    destruct (IH (Manager (delete id (timers_ m)) w' (next_address m)) HW' Hnd) as (m' & E & HW2 & J1 & J2).
    { intros id' b Hb. cbn. rewrite Hh. rewrite lookup_delete_ne; [apply (Hl id'); by right|]. intros ->. apply Hna. apply list_elem_of_fmap. by exists (id', b). }
    exists m'. split; [done|]. split; [done|]. cbn in J1, J2. split.
    + intros b u Hb. destruct (J1 _ _ Hb) as [Hb' Hnb]. rewrite Hh in Hb'. apply lookup_delete_Some in Hb' as [Hne Hb']. split; [done|]. cbn. rewrite not_elem_of_cons. by split.
    + intros id' b Hb. destruct (J2 _ _ Hb) as [Hb' Hnb]. apply lookup_delete_Some in Hb' as [Hne Hb']. split; [done|]. cbn. rewrite not_elem_of_cons. by split.
Qed.
Lemma Destroy_inv tr m T : MI tr m T -> exists m', Destroy m = Ret m' /\ timers_ m' = ∅ /\ heap (wld m') = ∅ /\ forall q, q ∈ queue (wld m') -> timer_ q = None.
Proof.
  intros I. unfold Destroy. set (l := map_to_list (timers_ m)). assert (forall id a, (id, a) ∈ l -> is_Some (heap (wld m) !! a)) as Hl.
  { intros id a Hin. apply elem_of_map_to_list in Hin. destruct (m_timers _ _ _ I _ _ Hin) as (t & Ha & _). by exists t. }
  assert (forall id a, timers_ m !! id = Some a -> (id, a) ∈ l) as Hin by (intros id a H; by apply elem_of_map_to_list).
  destruct (stop_all_inv l (wld m) (m_world _ _ _ I) Hl) as (w & -> & HW & Hdom). obind.
  assert (NoDup l.*2) as Hnd.
  { apply NoDup_fmap_2_strong; [|apply NoDup_map_to_list]. intros [id a] [id' a'] H H' E. cbn in E. subst. apply elem_of_map_to_list in H, H'. f_equal. by eapply m_inj. }
  destruct (clear_inv l (set_world m w) HW Hnd) as (m' & -> & HW' & J1 & J2); [intros id a H; apply Hdom; by apply (Hl id)|]. exists m'. split; [done|]. cbn in J1, J2.
  assert (heap (wld m') = ∅) as Hempty.
  { apply map_empty. intros a. destruct (heap (wld m') !! a) as [t|] eqn:E; [|done]. destruct (J1 _ _ E) as [Ha Hn]. destruct (proj1 (Hdom a) ltac:(by exists t)) as [t0 Ha0]. destruct (m_heap _ _ _ I _ _ Ha0) as [id Hid]. exfalso. apply Hn. apply list_elem_of_fmap. exists (id, a). split; [done|by apply Hin]. }
  split; [|split; [done|]].
  - apply map_empty. intros id. destruct (timers_ m' !! id) as [a|] eqn:E; [|done]. destruct (J2 _ _ E) as [Ha Hn]. exfalso. apply Hn. apply list_elem_of_fmap. exists (id, a). split; [done|by apply Hin].
  - intros q Hq. destruct (timer_ q) as [a|] eqn:E; [|done]. destruct (w_ref _ _ _ HW' q a Hq E) as (t & Ht & _). by rewrite Hempty, lookup_empty in Ht.
Qed.
End Managers.

(** * Properties *)

(** C15: timers run what they were started with, when it is time: every closure a timer runs
    is the one of its last start, not earlier than the delay after that (up to the time [d]
    one call takes), with nothing in between that stopped, restarted, ran or deleted the
    timer; no task of the loop refers to a timer that is gone, so that no call faults; and a
    timer that was started and not touched since has a task in the queue, due at most [2 d]
    after the delay, which runs the closure when it is run that late. *)
Theorem timers_exact {C} (dcheck_on : bool) (d : Z) (tr : list (obs (C := C))) (w : world C) (T : Z) : 0 <= d -> uses dcheck_on d tr w T ->
  runs_as_armed d tr /\
  (forall q c, q ∈ queue w -> due q <= now c -> clock_ok d c -> returns (Run dcheck_on (task_id q) c w)) /\
  (forall q, q ∈ queue w -> returns (delete_task (task_id q) w)) /\
  (forall a t, heap w !! a = Some t -> returns (Stop a w) /\ returns (delete_Timer a w) /\
    forall c, clock_ok d c -> (forall dl u, returns (Start dcheck_on a dl u c w)) /\ (is_Some (user_task_ t) -> returns (Reset dcheck_on a c w))) /\
  (forall a u time0 dl, List.find (about a) tr = Some (Armed a u time0 dl) -> exists q, q ∈ queue w /\ timer_ q = Some a /\ due q <= time0 + Z.max 0 dl + 2 * d /\
    forall c, clock_ok d c -> time0 + Z.max 0 dl + 2 * d <= now c -> exists w', Run dcheck_on (task_id q) c w = Ret (w', Some u)).
Proof.
  intros Hd H. apply (uses_inv dcheck_on d Hd) in H. split; [apply (u_ran _ _ _ _ H)|]. destruct (uses_return dcheck_on d Hd w T tr H) as (R1 & R2 & R3). split; [done|]. split; [done|]. split; [done|]. intros a u time0 dl. by apply armed_fires with (T := T).
Qed.

(** A timer is started and moved; its first task posts another, which runs the closure. *)
Definition at_ (x : Z) : clock := Clock x x x.
Definition state_of (o : outcome (world nat)) : world nat := match o with Ret w => w | Fault _ => World ∅ [] 0 end.
Definition moved_0 : world nat := set_heap 0 (new_Timer false false) (World ∅ [] 0).
Definition moved_1 : world nat := state_of (Start true 0 10 7%nat (at_ 5) moved_0).
Definition moved_2 : world nat := state_of (Reset true 0 (at_ 12) moved_1).
Definition moved_3 : world nat := state_of (r ← Run true 0 (at_ 16) moved_2; Ret r.1).
Definition moved_4 : world nat := state_of (r ← Run true 1 (at_ 22) moved_3; Ret r.1).
Lemma moved_uses : uses true 0 [Ran 0 7%nat 22; Armed 0 7%nat 12 10; Armed 0 7%nat 5 10; Stopped 0] moved_4 22.
Proof.
  assert (forall x, 0 < x -> clock_ok 0 (at_ x)) as Hc by (intros x Hx; unfold clock_ok; cbn; lia).
  pose proof (U_new (C := nat) true 0 _ _ _ 0%nat false false (U_start true 0) eq_refl) as U0.
  pose proof (U_Start true 0 _ _ _ 0%nat 10 7%nat (at_ 5) moved_1 U0 ltac:(cbn; lia) (Hc 5 ltac:(lia)) ltac:(by vm_compute)) as U1.
  destruct (heap moved_1 !! 0%nat) as [t|] eqn:Et; [|by vm_compute in Et].
  pose proof (U_Reset true 0 _ _ _ 0%nat t 7%nat (at_ 12) moved_2 U1 ltac:(cbn; lia) (Hc 12 ltac:(lia)) Et ltac:(vm_compute in Et; by injection Et as <-) ltac:(by vm_compute)) as U2.
  replace (delay_ t) with 10 in U2 by (vm_compute in Et; by injection Et as <-).
  pose proof (U_run true 0 _ _ _ (Task 0 (Some 0%nat) 15) (at_ 16) moved_3 None U2 ltac:(cbn; lia) (Hc 16 ltac:(lia)) ltac:(vm_compute; by left) ltac:(cbn; lia) ltac:(by vm_compute)) as U3.
  exact (U_run true 0 _ _ _ (Task 1 (Some 0%nat) 22) (at_ 22) moved_4 (Some 7%nat) U3 ltac:(cbn; lia) (Hc 22 ltac:(lia)) ltac:(vm_compute; by left) ltac:(cbn; lia) ltac:(by vm_compute)).
Qed.
Lemma timers_exact_witness : runs_as_armed 0 [Ran 0 7%nat 22; Armed 0 7%nat 12 10; Armed 0 7%nat 5 10; Stopped 0] /\ queue moved_4 = [].
Proof. split; [exact (proj1 (timers_exact true 0 _ _ _ (Z.le_refl 0) moved_uses))|vm_compute; reflexivity]. Defined.

(** C26: a timer manager calls its delegate once for each timer that is set, when it is
    time: each call is for a timer that was set, not called for, set again or killed since,
    and comes no earlier than its milliseconds later (up to the time [d] one call takes);
    such a timer is in the map and has a task in the queue that makes the call when it is run
    late enough; no call faults; and destroying the manager deletes every timer, so that the
    tasks that are left in the queue refer to none. *)
Theorem timer_manager_exact (dcheck_on : bool) (d : Z) (tr : list event) (m : TimerManager) (T : Z) : 0 <= d -> manages dcheck_on d tr m T ->
  fired_as_set d tr /\
  (forall id tm time0, List.find (of_id id) tr = Some (SetAt id tm time0) -> is_Some (timers_ m !! id) /\
    exists q, q ∈ queue (wld m) /\ due q <= time0 + Z.max 0 (tm * 1000) + 2 * d /\
      forall c, T <= now c -> clock_ok d c -> time0 + Z.max 0 (tm * 1000) + 2 * d <= now c -> exists m', run_loop_task dcheck_on (task_id q) c m = Ret (m', Some (Timeout id tm))) /\
  (forall q c, q ∈ queue (wld m) -> T <= now c -> due q <= now c -> clock_ok d c -> returns (run_loop_task dcheck_on (task_id q) c m)) /\
  (forall id, returns (KillTimer id m)) /\ (forall id tm c, T <= now c -> clock_ok d c -> returns (SetTimer dcheck_on id tm c m)) /\
  exists m', Destroy m = Ret m' /\ timers_ m' = ∅ /\ heap (wld m') = ∅ /\ forall q, q ∈ queue (wld m') -> timer_ q = None.
Proof.
  intros Hd H. apply (manages_inv dcheck_on d Hd) in H. split; [apply (m_fired _ _ _ _ H)|]. split; [|split; [|split; [|split]]].
  - intros id tm time0 Hf. split; [|by eapply set_fires]. destruct (timers_ m !! id) as [a|] eqn:E; [by exists a|]. by destruct (m_none _ _ _ _ H id tm time0).
  - intros q c Hq HT Hdue Hc. destruct (run_task_inv dcheck_on d Hd tr m T q c H HT Hc Hq Hdue) as (m' & r & E & _). by exists (m', r).
  - intros id. destruct (KillTimer_inv d tr m T id H) as (m' & E & _). by exists m'.
  - intros id tm c HT Hc. destruct (SetTimer_inv dcheck_on d Hd tr m T id tm c H HT Hc) as (m' & E & _). by exists m'.
  - by apply (Destroy_inv d tr m T).
Qed.
(** Two timers are set, one of them twice; one is killed, the other fires. *)
Definition manager_of {A} (f : A -> TimerManager) (o : outcome A) : TimerManager := match o with Ret x => f x | Fault _ => Manager ∅ (World ∅ [] 0) 0 end.
Definition set_0 : TimerManager := manager_of id (SetTimer true 1 2 (at_ 5) (Manager ∅ (World ∅ [] 0) 0)).
Definition set_1 : TimerManager := manager_of id (SetTimer true 1 9 (at_ 6) set_0).
Definition set_2 : TimerManager := manager_of id (SetTimer true 7 3 (at_ 8) set_1).
Definition set_3 : TimerManager := manager_of id (KillTimer 7 set_2).
Definition set_4 : TimerManager := manager_of fst (run_loop_task true 0 (at_ 2005) set_3).
Lemma managed : manages true 0 [Fired 1 2 2005; Killed 7; SetAt 7 3 8; SetAt 1 2 5] set_4 2005.
Proof.
  assert (forall x, 0 < x -> clock_ok 0 (at_ x)) as Hc by (intros x Hx; unfold clock_ok; cbn; lia).
  pose proof (M_SetTimer true 0 _ _ _ 1 2 (at_ 5) set_0 (M_start true 0) ltac:(cbn; lia) (Hc 5 ltac:(lia)) ltac:(by vm_compute)) as U0.
  pose proof (M_SetTimer true 0 _ _ _ 1 9 (at_ 6) set_1 U0 ltac:(cbn; lia) (Hc 6 ltac:(lia)) ltac:(by vm_compute)) as U1.
  pose proof (M_SetTimer true 0 _ _ _ 7 3 (at_ 8) set_2 U1 ltac:(cbn; lia) (Hc 8 ltac:(lia)) ltac:(by vm_compute)) as U2.
  pose proof (M_KillTimer true 0 _ _ _ 7 set_3 U2 ltac:(by vm_compute)) as U3.
  exact (M_run true 0 _ _ _ (Task 0 (Some 0%nat) 2005) (at_ 2005) set_4 (Some (Timeout 1 2)) U3 ltac:(cbn; lia) (Hc 2005 ltac:(lia)) ltac:(vm_compute; by left) ltac:(cbn; lia) ltac:(by vm_compute)).
Qed.
Lemma timer_manager_exact_witness : fired_as_set 0 [Fired 1 2 2005; Killed 7; SetAt 7 3 8; SetAt 1 2 5] /\ timers_ set_4 = ∅.
Proof. split; [exact (proj1 (timer_manager_exact true 0 _ _ _ (Z.le_refl 0) managed))|vm_compute; reflexivity]. Defined.
