(* ===== verification/ReadWriteBuffer.v ===== *)
(** A buffer with a position to read from and one to write to:
    [zutils/base2/io_buffer2.{h,cc}].  [data_] is the block it points to, its own when
    [is_new_], or that of the caller; the positions are [int]s, which wrap around, and are
    compared with sizes as 64-bit unsigned numbers.  Pointers to results are not null. *)
From Stdlib Require Import ZArith Lia Bool String.
From stdpp Require Import base list numbers.
From S2P Require Import Prelude SysByteorder Numbers.

Open Scope Z_scope.

Definition kDefaultIOBufferSize : Z := 4096.
Record IOBuffer2 := Buffer { data_ : bytes; size_ : Z; read_pos_ : Z; write_pos_ : Z; is_new_ : bool }.
Definition set_read_pos (i : Z) (b : IOBuffer2) : IOBuffer2 := Buffer (data_ b) (size_ b) i (write_pos_ b) (is_new_ b).
Definition set_write_pos (i : Z) (b : IOBuffer2) : IOBuffer2 := Buffer (data_ b) (size_ b) (read_pos_ b) i (is_new_ b).
Definition set_data (m : bytes) (b : IOBuffer2) : IOBuffer2 := Buffer m (size_ b) (read_pos_ b) (write_pos_ b) (is_new_ b).

Section IOBuffer2.
Context (dcheck_on little : bool) (malloc_ok : Z -> bool) (fill : nat -> Z).

(** * Memory *)
(** A [memcpy] of a negative length is one of a huge length. *)
Definition malloc (n : Z) : option bytes := let n := u64 n in if malloc_ok n then Some (map fill (seq 0 (Z.to_nat n))) else None.
Definition realloc (m : bytes) (n : Z) : option bytes :=
  let n := u64 n in
  if malloc_ok n then Some (take (Z.to_nat n) m ++ map fill (seq (length m) (Z.to_nat n - length m))) else None.
Definition CHECKed {A} (o : option A) : outcome A := match o with Some a => Ret a | None => Fault AssertFail end.

Definition IOBuffer2_new : outcome IOBuffer2 := m ← CHECKed (malloc kDefaultIOBufferSize); Ret (Buffer m kDefaultIOBufferSize 0 0 true).
Definition IOBuffer2_sized (size : Z) : outcome IOBuffer2 :=
  DCHECK dcheck_on (0 <? size) (m ← CHECKed (malloc size); Ret (Buffer m size 0 0 true)).
Definition IOBuffer2_data (data : bytes) (size : Z) : IOBuffer2 := Buffer data size 0 0 false.
(** Whether [~IOBuffer2] frees the block. *)
Definition IOBuffer2_end (b : IOBuffer2) : bool := is_new_ b.
Definition Clone (b : IOBuffer2) : outcome IOBuffer2 :=
  c ← IOBuffer2_sized (size_ b);
  m ← mem_read (data_ b) 0 (size_ b); m ← mem_write (data_ c) 0 m; Ret (set_data m c).
Definition DumpHexEncode (b : IOBuffer2) : outcome bytes := m ← mem_read (data_ b) 0 (size_ b); Ret (HexEncode m).
(** A new block of [new_size] bytes with what was there, as [Resize] and the writing
    functions make it, and whether it is the buffer's own afterwards. *)
Definition regrow (new_size : Z) (is_new_after : bool) (b : IOBuffer2) : outcome IOBuffer2 :=
  if is_new_ b then m ← CHECKed (realloc (data_ b) new_size); Ret (Buffer m new_size (read_pos_ b) (write_pos_ b) true)
  else
    m ← CHECKed (malloc new_size);
    old ← mem_read (data_ b) 0 (size_ b); m ← mem_write m 0 old;
    Ret (Buffer m new_size (read_pos_ b) (write_pos_ b) is_new_after).
Definition Resize (size : Z) (b : IOBuffer2) : outcome IOBuffer2 := if size_ b <? size then regrow size true b else Ret b.

(** * Positions *)
Definition readable_size (b : IOBuffer2) : Z := s32 (size_ b - read_pos_ b).
Definition writable_size (b : IOBuffer2) : Z := s32 (size_ b - write_pos_ b).
Definition skip_read_pos (size : Z) (b : IOBuffer2) : bool * IOBuffer2 :=
  let p := s32 (size + read_pos_ b) in if (p <? 0) || (size_ b <=? p) then (false, b) else (true, set_read_pos p b).
Definition seek_read_pos (size : Z) (b : IOBuffer2) : bool * IOBuffer2 :=
  if (size_ b <? 0) || (size_ b <=? size) then (false, b) else (true, set_read_pos size b).
Definition skip_write_pos (size : Z) (b : IOBuffer2) : bool * IOBuffer2 :=
  let p := s32 (size + write_pos_ b) in if (p <? 0) || (size_ b <=? p) then (false, b) else (true, set_write_pos p b).
Definition seek_write_pos (size : Z) (b : IOBuffer2) : bool * IOBuffer2 :=
  if (size_ b <? 0) || (size_ b <=? size) then (false, b) else (true, set_write_pos size b).

(** * Reading *)
(** [buf] is the memory that is read into. *)
Definition ReadRaw (buf : bytes) (buf_len : Z) (is_peek : bool) (b : IOBuffer2) : outcome (bytes * IOBuffer2) :=
  m ← mem_read (data_ b) (read_pos_ b) buf_len; buf ← mem_write buf 0 m;
  Ret (buf, if is_peek then b else set_read_pos (s32 (read_pos_ b + buf_len)) b).
Definition ReadOffsetRaw (buf : bytes) (offset buf_len : Z) (b : IOBuffer2) : outcome bytes :=
  m ← mem_read (data_ b) (read_pos_ b + offset) buf_len; mem_write buf 0 m.
(** [ReadUint8] to [ReadUint64] and [ReadPeekUint8] to [ReadPeekUint64]: [k] is the size
    of the type; the result is [None] when it is [false]. *)
Definition ReadUint (k : nat) (is_peek : bool) (b : IOBuffer2) : outcome (option Z * IOBuffer2) :=
  if u64 (readable_size b) <? Z.of_nat k then Ret (None, b)
  else r ← ReadRaw (replicate k 0) (Z.of_nat k) is_peek b; Ret (Some (host_val little r.1), r.2).
(** [ReadOffsetUint8] to [ReadOffsetUint64]: they give the size of the type for the offset
    and the offset for the length; [val] is what was in the memory of the result. *)
Definition ReadOffsetUint (k : nat) (val : Z) (offset : Z) (b : IOBuffer2) : outcome (option Z) :=
  if u64 (readable_size b) <? u64 (offset + Z.of_nat k) then Ret None
  else m ← ReadOffsetRaw (host_bytes little k val) (Z.of_nat k) offset b; Ret (Some (host_val little m)).
(** The three functions that read a string up to the point where its bytes are copied. *)
Definition string_at (offset : Z) (b : IOBuffer2) : outcome (option (Z * bytes)) :=
  if u64 (readable_size b) <? u64 (4 + offset) then Ret None
  else
    r ← ReadUint 4 true b;
    let string_size := match r.1 with Some n => n | None => 0 end in
    if u64 (readable_size b) <? u64 (string_size + 4 + offset) then Ret None
    else
      s ← ReadOffsetRaw (replicate (Z.to_nat string_size) 0) (s32 (4 + offset)) (s32 string_size) b;
      Ret (Some (string_size, s)).
Definition ReadString (b : IOBuffer2) : outcome (option bytes * IOBuffer2) :=
  r ← string_at 0 b;
  Ret (match r with None => (None, b) | Some (string_size, s) => (Some s, (skip_read_pos (s32 (string_size + 4)) b).2) end).
Definition ReadPeekString (b : IOBuffer2) : outcome (option bytes) := r ← string_at 0 b; Ret (option_map snd r).
Definition ReadOffsetString (offset : Z) (b : IOBuffer2) : outcome (option bytes) := r ← string_at offset b; Ret (option_map snd r).

(** * Writing *)
Definition WriteRaw (buf : bytes) (b : IOBuffer2) : outcome IOBuffer2 :=
  let buf_len := zlen buf in
  b ← (if s32 (size_ b - write_pos_ b) <? buf_len then regrow (s32 (size_ b - write_pos_ b + buf_len)) true b else Ret b);
  m ← mem_write (data_ b) (write_pos_ b) buf;
  Ret (set_write_pos (s32 (write_pos_ b + buf_len)) (set_data m b)).
Definition WriteOffsetRaw (buf : bytes) (offset : Z) (b : IOBuffer2) : outcome IOBuffer2 :=
  let buf_len := zlen buf in
  b ← (if s32 (size_ b - write_pos_ b) <? s32 (buf_len + offset) then regrow (s32 (size_ b - write_pos_ b + buf_len + offset)) false b else Ret b);
  m ← mem_write (data_ b) (write_pos_ b + offset) buf; Ret (set_data m b).
Definition WriteUint (k : nat) (val : Z) (b : IOBuffer2) : outcome IOBuffer2 := WriteRaw (host_bytes little k val) b.
Definition WriteOffsetUint (k : nat) (val offset : Z) (b : IOBuffer2) : outcome IOBuffer2 := WriteOffsetRaw (host_bytes little k val) offset b.
(** [val.c_str()], and a C string, with the zero behind it. *)
Definition WriteString (val : bytes) (b : IOBuffer2) : outcome IOBuffer2 :=
  b ← WriteUint 4 (u32 (zlen val + 1)) b; WriteRaw (val ++ [0]) b.
Definition WriteOffsetString (val : bytes) (offset : Z) (b : IOBuffer2) : outcome IOBuffer2 :=
  b ← WriteOffsetUint 4 (u32 (zlen val + 1)) offset b; WriteOffsetRaw (val ++ [0]) (s32 (offset + 4)) b.
End IOBuffer2.

(** * Properties of a buffer *)
(** The positions are in the block, which has the size the buffer has. *)
Definition well_formed (b : IOBuffer2) : Prop := zlen (data_ b) = size_ b /\ 0 <= read_pos_ b <= size_ b /\ 0 <= write_pos_ b <= size_ b /\ size_ b < 2 ^ 30.
(** Where [WriteRaw] may write: the new size it computes has room for what is written only
    if no more than half of the buffer was written, and a block that is not its own is
    copied whole. *)
Definition writable (len : Z) (b : IOBuffer2) : bool :=
  (write_pos_ b + len <=? size_ b) || (2 * write_pos_ b <=? size_ b) && (is_new_ b || (write_pos_ b <=? len)).

Section Writing.
Context (malloc_ok : Z -> bool) (fill : nat -> Z) (Hmalloc : forall n, malloc_ok n = true).

Lemma realloc_all m n : 0 <= n < 2 ^ 31 -> exists t, realloc malloc_ok fill m n = Some (take (Z.to_nat n) m ++ t) /\ zlen (take (Z.to_nat n) m ++ t) = n.
Proof using Hmalloc.
  intros Hn. unfold realloc. rewrite uwrap_small by powlia. rewrite Hmalloc. eexists. split; [done|]. unfold zlen. rewrite length_app, length_take, length_map, length_seq. lia.
Qed.
Lemma malloc_all n : 0 <= n < 2 ^ 31 -> exists m, malloc malloc_ok fill n = Some m /\ zlen m = n.
Proof using Hmalloc.
  intros Hn. unfold malloc. rewrite uwrap_small by powlia. rewrite Hmalloc. eexists. split; [done|]. unfold zlen. rewrite length_map, length_seq. lia.
Qed.
Lemma mem_write_out m off d : ~ (0 <= off /\ off + zlen d <= zlen m) -> mem_write m off d = Fault OutOfBounds.
Proof.
  intros H. unfold mem_write, guard_or. destruct (in_block m off (zlen d)) eqn:E; [|done]. apply in_block_true in E. lia.
Qed.
Lemma take_splice {A} (m d : list A) p : 0 <= p <= zlen m -> take (Z.to_nat p) (zsplice p d m) = take (Z.to_nat p) m.
Proof. intros Hp. unfold zsplice, zlen in *. rewrite take_app_le by (rewrite length_take; lia). rewrite take_take. f_equal. lia. Qed.
Lemma take_splice_all {A} (m d : list A) p : 0 <= p -> p + zlen d <= zlen m -> take (Z.to_nat (p + zlen d)) (zsplice p d m) = take (Z.to_nat p) m ++ d.
Proof.
  intros Hp Hd. unfold zsplice, zlen in *. rewrite app_assoc. rewrite take_app_le by (rewrite length_app, length_take; lia). apply take_ge. rewrite length_app, length_take. lia.
Qed.
Lemma WriteRaw_exact buf b : well_formed b -> zlen buf < 2 ^ 30 ->
  if writable (zlen buf) b then
    exists b', WriteRaw malloc_ok fill buf b = Ret b' /\ write_pos_ b' = write_pos_ b + zlen buf /\ read_pos_ b' = read_pos_ b /\
      take (Z.to_nat (write_pos_ b')) (data_ b') = take (Z.to_nat (write_pos_ b)) (data_ b) ++ buf /\ zlen (data_ b') = size_ b' /\ size_ b <= size_ b' /\
      size_ b' = (if write_pos_ b + zlen buf <=? size_ b then size_ b else size_ b - write_pos_ b + zlen buf)
  else WriteRaw malloc_ok fill buf b = Fault OutOfBounds.
Proof using Hmalloc.
  intros (H1 & H2 & H3 & H4) Hl. pose proof (zlen_nonneg buf) as Hl0. unfold writable, WriteRaw. rewrite (swrap_small 32 (size_ b - write_pos_ b)) by powlia.
  destruct (Z.leb_spec (write_pos_ b + zlen buf) (size_ b)) as [Hf|Hf]; cbn [orb].
  - rewrite (proj2 (Z.ltb_ge _ _)) by lia. obind. rewrite mem_write_ok by lia. obind. rewrite swrap_small by powlia. eexists. split; [done|]. cbn. split; [done|]. split; [done|].
    rewrite take_splice_all by lia. split; [done|]. rewrite zlen_zsplice by lia. lia.
  - rewrite (proj2 (Z.ltb_lt _ _)) by lia. set (n := s32 _). assert (n = size_ b - write_pos_ b + zlen buf) as Hn by (unfold n; rewrite swrap_small; powlia). unfold regrow.
    assert (write_pos_ b + zlen buf <= n <-> 2 * write_pos_ b <= size_ b) as Hroom by lia. destruct (is_new_ b); cbn [orb].
    + rewrite andb_true_r. destruct (realloc_all (data_ b) n) as (t & -> & Ht); [powlia|]. cbn [CHECKed]. obind. cbn [data_ write_pos_].
      destruct (Z.leb_spec (2 * write_pos_ b) (size_ b)) as [Hh|Hh]; cbn [andb].
      * rewrite mem_write_ok by lia. obind. rewrite swrap_small by powlia. eexists. split; [done|]. cbn. split; [done|]. split; [done|]. rewrite zlen_zsplice by lia. split; [|lia].
        rewrite take_splice_all by lia. f_equal. assert (zlen (take (Z.to_nat n) (data_ b)) = Z.min n (size_ b)) by (unfold zlen in *; rewrite length_take; lia).
        rewrite take_app_le by (unfold zlen in *; lia). rewrite take_take. f_equal. lia.
      * rewrite mem_write_out by lia. done.
    + destruct (malloc_all n) as (m & -> & Hm); [powlia|]. cbn [CHECKed]. obind. rewrite mem_read_ok by lia. obind.
      assert (zslice 0 (size_ b) (data_ b) = data_ b) as -> by (unfold zslice; rewrite drop_0; apply take_ge; unfold zlen in H1; lia).
      destruct (Z.leb_spec (write_pos_ b) (zlen buf)) as [Hc|Hc].
      * rewrite andb_true_r. rewrite mem_write_ok by lia. obind. cbn [data_ write_pos_]. destruct (Z.leb_spec (2 * write_pos_ b) (size_ b)) as [Hh|Hh]; cbn [andb].
        -- rewrite mem_write_ok by (rewrite ?zlen_zsplice; lia). obind. rewrite swrap_small by powlia. eexists. split; [done|]. cbn. split; [done|]. split; [done|]. rewrite zlen_zsplice; rewrite ?zlen_zsplice; [|lia..]. split; [|lia].
           rewrite take_splice_all by (rewrite ?zlen_zsplice; lia). f_equal. unfold zsplice. rewrite take_0. cbn [app]. apply take_app_le. unfold zlen in *. lia.
        -- rewrite mem_write_out by (rewrite ?zlen_zsplice; lia). done.
      * rewrite andb_false_r. rewrite mem_write_out by lia. done.
Qed.
End Writing.

(** ** Values *)
Inductive value := Uint (k : nat) (x : Z) | Str (s : bytes).
Definition value_ok (v : value) : Prop := match v with Uint k x => k ∈ [1; 2; 4; 8]%nat /\ 0 <= x < 256 ^ Z.of_nat k | Str s => all_bytes s end.
Section Values.
Context (little : bool) (malloc_ok : Z -> bool) (fill : nat -> Z) (Hmalloc : forall n, malloc_ok n = true).

Definition write_value (v : value) (b : IOBuffer2) : outcome IOBuffer2 :=
  match v with Uint k x => WriteUint little malloc_ok fill k x b | Str s => WriteString little malloc_ok fill s b end.
Fixpoint write_values (l : list value) (b : IOBuffer2) : outcome IOBuffer2 := match l with [] => Ret b | v :: l => b ← write_value v b; write_values l b end.
(** A value of the kind of [v], and what a value is when it is read: a string has the zero
    at its end. *)
Definition read_value (v : value) (b : IOBuffer2) : outcome (option value * IOBuffer2) :=
  match v with
  | Uint k _ => r ← ReadUint little k false b; Ret (option_map (Uint k) r.1, r.2)
  | Str _ => r ← ReadString little b; Ret (option_map Str r.1, r.2)
  end.
Fixpoint read_values (l : list value) (b : IOBuffer2) : outcome (list (option value) * IOBuffer2) :=
  match l with [] => Ret ([], b) | v :: l => r ← read_value v b; rs ← read_values l r.2; Ret (r.1 :: rs.1, rs.2) end.
Definition as_read (v : value) : value := match v with Uint k x => Uint k x | Str s => Str (s ++ [0]) end.

Definition image (v : value) : bytes := match v with Uint k x => host_bytes little k x | Str s => host_bytes little 4 (zlen s + 1) ++ s ++ [0] end.
Fixpoint images (l : list value) : bytes := match l with [] => [] | v :: l => image v ++ images l end.

Lemma zlen_host_value k x : zlen (host_bytes little k x) = Z.of_nat k.
Proof. unfold zlen, host_bytes. by destruct little; rewrite ?length_le_bytes, ?length_be_bytes. Qed.
Lemma host_back k x : 0 <= x < 256 ^ Z.of_nat k -> host_val little (host_bytes little k x) = x.
Proof. intros H. unfold host_val, host_bytes. destruct little; rewrite ?le_val_bytes, ?be_val_bytes; by apply Z.mod_small. Qed.
(** What is written where there is room. *)
Lemma write_raw_fits buf b : well_formed b -> write_pos_ b + zlen buf <= size_ b ->
  exists b', WriteRaw malloc_ok fill buf b = Ret b' /\ well_formed b' /\ write_pos_ b' = write_pos_ b + zlen buf /\ read_pos_ b' = read_pos_ b /\ size_ b' = size_ b /\
    take (Z.to_nat (write_pos_ b')) (data_ b') = take (Z.to_nat (write_pos_ b)) (data_ b) ++ buf.
Proof using Hmalloc.
  intros Hb Hf. pose proof Hb as (H1 & H2 & H3 & H4). pose proof (zlen_nonneg buf). pose proof (WriteRaw_exact malloc_ok fill Hmalloc buf b Hb ltac:(lia)) as E. unfold writable in E. rewrite (proj2 (Z.leb_le _ _)) in E by done. cbn [orb] in E.
  destruct E as (b' & E & E1 & E2 & E3 & E4 & _ & E5). exists b'. split; [done|]. split; [unfold well_formed; lia|]. done.
Qed.
Lemma write_value_fits v b : value_ok v -> well_formed b -> write_pos_ b + zlen (image v) <= size_ b ->
  exists b', write_value v b = Ret b' /\ well_formed b' /\ write_pos_ b' = write_pos_ b + zlen (image v) /\ read_pos_ b' = read_pos_ b /\ size_ b' = size_ b /\
    take (Z.to_nat (write_pos_ b')) (data_ b') = take (Z.to_nat (write_pos_ b)) (data_ b) ++ image v.
Proof using Hmalloc.
  intros Hv Hb Hf. destruct v as [k x|s]; cbn [image write_value] in *; [by apply write_raw_fits|].
  rewrite !zlen_app, zlen_host_value in *. pose proof Hb as (_ & _ & H3 & H4). pose proof (zlen_nonneg s). change (zlen [0]) with 1 in *. unfold WriteString, WriteUint. rewrite (uwrap_small 32) by powlia.
  destruct (write_raw_fits (host_bytes little 4 (zlen s + 1)) b Hb) as (b1 & -> & Hb1 & W1 & R1 & S1 & T1); [rewrite zlen_host_value; lia|]. obind. rewrite zlen_host_value in W1.
  destruct (write_raw_fits (s ++ [0]) b1 Hb1) as (b2 & -> & Hb2 & W2 & R2 & S2 & T2); [rewrite zlen_app; change (zlen [0]) with 1; lia|]. exists b2. split; [done|]. rewrite zlen_app in W2. change (zlen [0]) with 1 in W2.
  split; [done|]. split; [lia|]. split; [lia|]. split; [lia|]. rewrite T2, T1. by rewrite <- app_assoc.
Qed.
Lemma write_values_fit l b : Forall value_ok l -> well_formed b -> write_pos_ b + zlen (images l) <= size_ b ->
  exists b', write_values l b = Ret b' /\ well_formed b' /\ write_pos_ b' = write_pos_ b + zlen (images l) /\ read_pos_ b' = read_pos_ b /\ size_ b' = size_ b /\
    take (Z.to_nat (write_pos_ b')) (data_ b') = take (Z.to_nat (write_pos_ b)) (data_ b) ++ images l.
Proof using Hmalloc.
  intros Hl. revert b. induction Hl as [|v l Hv Hl IH]; intros b Hb Hf; cbn [write_values images] in *.
  - exists b. rewrite app_nil_r. change (zlen []) with 0. by rewrite Z.add_0_r.
  - rewrite zlen_app in *. pose proof (zlen_nonneg (images l)). destruct (write_value_fits v b Hv Hb) as (b1 & -> & Hb1 & W1 & R1 & S1 & T1); [lia|]. obind.
    destruct (IH b1 Hb1) as (b2 & -> & Hb2 & W2 & R2 & S2 & T2); [lia|]. exists b2. split; [done|]. split; [done|]. split; [lia|]. split; [lia|]. split; [lia|]. by rewrite T2, T1, app_assoc.
Qed.

(** The bytes at a position. *)
Definition holds (b : IOBuffer2) (p : Z) (d : bytes) : Prop := zslice p (zlen d) (data_ b) = d.
Lemma holds_app b p d e : 0 <= p -> holds b p (d ++ e) -> holds b p d /\ holds b (p + zlen d) e.
Proof.
  unfold holds, zslice. intros Hp H. rewrite zlen_app in H. pose proof (zlen_nonneg d). pose proof (zlen_nonneg e). split.
  - apply (f_equal (take (length d))) in H. rewrite take_take, take_app_length in H. rewrite <- H at 2. f_equal. unfold zlen in *. lia.
  - apply (f_equal (drop (length d))) in H. rewrite drop_app_length in H. rewrite <- H at 2. unfold zlen in *. rewrite Z2Nat.inj_add, Nat2Z.id by lia. rewrite skipn_firstn_comm, drop_drop. f_equal; [lia|f_equal; lia].
Qed.
Lemma splice_whole (m d : bytes) : zlen d = zlen m -> zsplice 0 d m = d.
Proof. intros H. unfold zsplice, zlen in *. rewrite take_0. cbn [app]. rewrite drop_ge by lia. apply app_nil_r. Qed.
Lemma read_uint_holds k x b is_peek : k ∈ [1; 2; 4; 8]%nat -> 0 <= x < 256 ^ Z.of_nat k -> well_formed b -> holds b (read_pos_ b) (host_bytes little k x) -> read_pos_ b + Z.of_nat k <= size_ b ->
  ReadUint little k is_peek b = Ret (Some x, if is_peek then b else set_read_pos (read_pos_ b + Z.of_nat k) b).
Proof.
  intros Hk Hx (H1 & H2 & H3 & H4) Hh Hf. unfold ReadUint, readable_size. rewrite (swrap_small 32) by powlia. rewrite (uwrap_small 64) by powlia. rewrite (proj2 (Z.ltb_ge _ _)) by lia. unfold ReadRaw. rewrite mem_read_ok by lia. obind.
  unfold holds in Hh. rewrite zlen_host_value in Hh. rewrite Hh. assert (zlen (replicate k 0) = Z.of_nat k) as Hr by (unfold zlen; by rewrite length_replicate). rewrite mem_write_ok by (rewrite ?zlen_host_value, ?Hr; lia). obind. rewrite splice_whole by (by rewrite zlen_host_value). cbn [fst snd].
  rewrite host_back by done. assert (Z.of_nat k <= 8) by (repeat (apply elem_of_cons in Hk as [-> |Hk]; [lia|]); by apply elem_of_nil in Hk). rewrite swrap_small by powlia. done.
Qed.
Lemma string_at_holds s b : well_formed b -> holds b (read_pos_ b) (image (Str s)) -> read_pos_ b + zlen (image (Str s)) <= size_ b ->
  string_at little 0 b = Ret (Some (zlen s + 1, s ++ [0])).
Proof.
  intros Hb Hh Hf. pose proof Hb as (H1 & H2 & H3 & H4). cbn [image] in *. rewrite !zlen_app, zlen_host_value in Hf. change (zlen [0]) with 1 in Hf. pose proof (zlen_nonneg s). apply holds_app in Hh as [Hn Hs]; [|lia]. rewrite zlen_host_value in Hs.
  unfold string_at, readable_size. rewrite (swrap_small 32 (size_ b - read_pos_ b)) by powlia. rewrite (uwrap_small 64 (size_ b - read_pos_ b)) by powlia. rewrite (uwrap_small 64 (4 + 0)) by powlia. rewrite (proj2 (Z.ltb_ge _ _)) by lia.
  rewrite (read_uint_holds 4 (zlen s + 1)); [|apply list_elem_of_In; cbn; tauto|change (256 ^ Z.of_nat 4) with (2 ^ 32); powlia|done|done|lia]. obind. cbn [fst snd]. rewrite (uwrap_small 64) by powlia. rewrite (proj2 (Z.ltb_ge _ _)) by lia.
  unfold ReadOffsetRaw. rewrite (swrap_small 32 (4 + 0)), (swrap_small 32 (zlen s + 1)) by powlia. rewrite mem_read_ok by lia. obind. unfold holds in Hs. rewrite zlen_app in Hs. change (zlen [0]) with 1 in Hs. change (Z.of_nat 4) with 4 in Hs. rewrite Z.add_0_r, Hs.
  assert (zlen (s ++ [0]) = zlen (replicate (Z.to_nat (zlen s + 1)) 0)) as E by (unfold zlen in *; rewrite length_app, length_replicate; cbn; lia). rewrite mem_write_ok by lia. obind. by rewrite splice_whole.
Qed.
Lemma read_value_holds v b : value_ok v -> well_formed b -> holds b (read_pos_ b) (image v) -> read_pos_ b + zlen (image v) < size_ b ->
  read_value v b = Ret (Some (as_read v), set_read_pos (read_pos_ b + zlen (image v)) b).
Proof.
  intros Hv Hb Hh Hf. pose proof Hb as (H1 & H2 & H3 & H4). destruct v as [k x|s].
  - cbn [image read_value value_ok as_read] in *. rewrite zlen_host_value in *. destruct Hv. rewrite (read_uint_holds k x) by (done || lia). done.
  - cbn [read_value as_read]. unfold ReadString. rewrite (string_at_holds s) by (done || lia). obind. cbn [image] in *. rewrite !zlen_app, zlen_host_value in *. change (zlen [0]) with 1 in *. pose proof (zlen_nonneg s). unfold skip_read_pos. rewrite (swrap_small 32 (zlen s + 1 + 4)) by powlia. rewrite (swrap_small 32 (_ + read_pos_ b)) by powlia.
    rewrite (proj2 (Z.ltb_ge _ 0)) by lia. rewrite (proj2 (Z.leb_gt (size_ b) _)) by lia. cbn [orb snd fst option_map]. do 3 f_equal. lia.
Qed.
Lemma read_values_hold l b : Forall value_ok l -> well_formed b -> holds b (read_pos_ b) (images l) -> read_pos_ b + zlen (images l) < size_ b ->
  read_values l b = Ret (map (fun v => Some (as_read v)) l, set_read_pos (read_pos_ b + zlen (images l)) b).
Proof.
  intros Hl. revert b. induction Hl as [|v l Hv Hl IH]; intros b Hb Hh Hf; cbn [read_values images map] in *.
  - change (zlen []) with 0. rewrite Z.add_0_r. by destruct b.
  - rewrite zlen_app in *. pose proof (zlen_nonneg (images l)). pose proof (zlen_nonneg (image v)). pose proof Hb as (H1 & H2 & H3 & H4). apply holds_app in Hh as [Hh1 Hh2]; [|lia]. rewrite read_value_holds by (done || lia). obind. cbn [fst snd].
    rewrite IH; [|unfold well_formed; cbn; lia|done|cbn; lia]. obind. cbn. by rewrite Z.add_assoc.
Qed.
End Values.

(** ** Reading what may be anything *)
Section Reading.
Context (little : bool).
Lemma all_bytes_slice p n m : all_bytes m -> all_bytes (zslice p n m).
Proof. intros H. apply Forall_take, Forall_drop, H. Qed.
Lemma host_range l : all_bytes l -> 0 <= host_val little l < 256 ^ Z.of_nat (length l).
Proof. intros H. unfold host_val. destruct little; [by apply le_val_range|]. unfold be_val. rewrite <- (length_reverse l). apply le_val_range. by apply all_bytes_reverse. Qed.
Lemma read_uint_any k is_peek b : k ∈ [1; 2; 4; 8]%nat -> well_formed b -> all_bytes (data_ b) ->
  (exists x, ReadUint little k is_peek b = Ret (Some x, if is_peek then b else set_read_pos (read_pos_ b + Z.of_nat k) b) /\ 0 <= x < 256 ^ Z.of_nat k /\ read_pos_ b + Z.of_nat k <= size_ b) \/
  ReadUint little k is_peek b = Ret (None, b) /\ size_ b < read_pos_ b + Z.of_nat k.
Proof.
  intros Hk Hb Ha. pose proof Hb as (H1 & H2 & H3 & H4). destruct (Z.lt_ge_cases (size_ b) (read_pos_ b + Z.of_nat k)) as [Hl|Hl].
  - right. split; [|done]. unfold ReadUint, readable_size. rewrite (swrap_small 32) by powlia. rewrite (uwrap_small 64) by powlia. by rewrite (proj2 (Z.ltb_lt _ _)) by lia.
  - left. set (d := zslice (read_pos_ b) (Z.of_nat k) (data_ b)). assert (length d = k) as Hd by (assert (zlen d = Z.of_nat k) as Hz by (apply zlen_zslice; lia); unfold zlen in Hz; lia).
    assert (all_bytes d) as Hda by (by apply all_bytes_slice). pose proof (host_range d Hda) as Hr. rewrite Hd in Hr. exists (host_val little d). split; [|split; [done|lia]]. apply read_uint_holds; try done.
    assert (host_bytes little k (host_val little d) = d) as E; [|unfold holds; rewrite E; unfold zlen; by rewrite Hd]. unfold host_bytes, host_val. rewrite <- Hd. destruct little; [by apply le_bytes_val|by apply be_bytes_val].
Qed.
Lemma string_at_any offset b : 0 <= offset < 2 ^ 30 -> well_formed b -> all_bytes (data_ b) ->
  string_at little offset b = Ret None \/ exists n s, string_at little offset b = Ret (Some (n, s)) /\ 0 <= n /\ read_pos_ b + n + 4 + offset <= size_ b.
Proof.
  intros Ho Hb Ha. pose proof Hb as (H1 & H2 & H3 & H4). unfold string_at, readable_size. rewrite (swrap_small 32 (size_ b - _)) by powlia. rewrite (uwrap_small 64 (size_ b - _)) by powlia. rewrite (uwrap_small 64 (4 + offset)) by powlia.
  destruct (Z.ltb_spec (size_ b - read_pos_ b) (4 + offset)) as [Hl|Hl]; [by left|].
  destruct (read_uint_any 4 true b) as [(n & -> & Hn & Hf)|[_ Hf]]; [apply list_elem_of_In; cbn; tauto|done|done| |lia]. obind. cbn [fst]. change (256 ^ Z.of_nat 4) with (2 ^ 32) in Hn.
  rewrite (uwrap_small 64 (n + 4 + offset)) by powlia. destruct (Z.ltb_spec (size_ b - read_pos_ b) (n + 4 + offset)) as [Hs|Hs]; [by left|]. right. unfold ReadOffsetRaw. rewrite (swrap_small 32 (4 + offset)), (swrap_small 32 n) by powlia.
  rewrite mem_read_ok by lia. obind. assert (zlen (zslice (read_pos_ b + (4 + offset)) n (data_ b)) = n) as Hz by (apply zlen_zslice; lia). assert (zlen (replicate (Z.to_nat n) 0) = n) as Hz2 by (unfold zlen; rewrite length_replicate; lia). rewrite mem_write_ok by (rewrite ?Hz, ?Hz2; lia). obind. eexists n, _. split; [done|]. lia.
Qed.
Lemma offset_exact k val offset b : k ∈ [1; 2; 4; 8]%nat -> well_formed b -> 0 <= offset < 2 ^ 30 ->
  ReadOffsetUint little k val offset b =
    if size_ b - read_pos_ b <? offset + Z.of_nat k then Ret None
    else if Z.of_nat k <? offset then Fault OutOfBounds
    else Ret (Some (host_val little (zslice (read_pos_ b + Z.of_nat k) offset (data_ b) ++ drop (Z.to_nat offset) (host_bytes little k val)))).
Proof.
  intros Hk (H1 & H2 & H3 & H4) Ho. assert (Z.of_nat k <= 8) as H8 by (repeat (apply elem_of_cons in Hk as [-> |Hk]; [lia|]); by apply elem_of_nil in Hk). unfold ReadOffsetUint, readable_size. rewrite (swrap_small 32 (size_ b - _)) by powlia. rewrite (uwrap_small 64 (size_ b - _)) by powlia. rewrite (uwrap_small 64 (offset + _)) by powlia.
  destruct (Z.ltb_spec (size_ b - read_pos_ b) (offset + Z.of_nat k)) as [Hl|Hl]; [done|]. unfold ReadOffsetRaw. rewrite mem_read_ok by lia. obind. assert (zlen (zslice (read_pos_ b + Z.of_nat k) offset (data_ b)) = offset) as Hz by (apply zlen_zslice; lia).
  destruct (Z.ltb_spec (Z.of_nat k) offset) as [Hk2|Hk2].
  - rewrite mem_write_out by (rewrite Hz, zlen_host_value; lia). done.
  - rewrite mem_write_ok by (rewrite ?Hz, ?zlen_host_value; lia). obind. do 3 f_equal. unfold zsplice. rewrite take_0. cbn [app]. f_equal. f_equal. unfold zlen in Hz. lia.
Qed.
End Reading.

(** * Properties *)

(** Values come back: what is written where there is more room than it takes is read
    back in its order by the reading functions of its kinds, in a host of either byte order,
    and the read position is then where the write position is; a string comes back
    with the zero that was written behind it. *)
Theorem buffer_values_roundtrip little malloc_ok fill l b : (forall n, malloc_ok n = true) ->
  Forall value_ok l -> well_formed b -> read_pos_ b = write_pos_ b -> write_pos_ b + zlen (images little l) < size_ b ->
  exists b1 b2, write_values little malloc_ok fill l b = Ret b1 /\ read_values little l b1 = Ret (map (fun v => Some (as_read v)) l, b2) /\
    read_pos_ b2 = write_pos_ b1 /\ write_pos_ b1 = write_pos_ b + zlen (images little l) /\ data_ b2 = data_ b1.
Proof.
  intros HM Hl Hb Hp Hf. pose proof Hb as (H1 & H2 & H3 & H4). destruct (write_values_fit little malloc_ok fill HM l b Hl Hb) as (b1 & -> & Hb1 & W & R & S & T); [lia|]. eexists b1, _. split; [done|].
  rewrite (read_values_hold little l b1 Hl Hb1); [|..|lia].
  - split; [done|]. cbn. split; [lia|]. by split.
  - unfold holds. rewrite R, Hp. pose proof (zlen_nonneg (images little l)). apply (f_equal (drop (Z.to_nat (write_pos_ b)))) in T. rewrite drop_app_length' in T by (rewrite length_take; unfold zlen in *; lia). rewrite <- T at 2. unfold zslice. rewrite skipn_firstn_comm. f_equal. lia.
Qed.

(** C31: where writing stays in memory: with positions in the block and an allocator that
    gives what it is asked for, [WriteRaw] returns exactly if what it writes fits, or at
    most half of the buffer was written (and, when the block is the caller's, no more than
    what it writes); then the bytes are behind those that were written before, and the
    buffer is as large as it was or as its computation says.  Otherwise it writes outside
    the block it has just made too small.  Offsets are read wrongly: the bytes come from
    behind the first value, as many as the offset says, over what was in the result, and
    outside of it when the offset is larger than the value. *)
Theorem buffer_bounds_exact little malloc_ok fill buf b : (forall n, malloc_ok n = true) -> well_formed b -> zlen buf < 2 ^ 30 ->
  (if writable (zlen buf) b then
     exists b', WriteRaw malloc_ok fill buf b = Ret b' /\ write_pos_ b' = write_pos_ b + zlen buf /\ read_pos_ b' = read_pos_ b /\
       take (Z.to_nat (write_pos_ b')) (data_ b') = take (Z.to_nat (write_pos_ b)) (data_ b) ++ buf /\ zlen (data_ b') = size_ b' /\ size_ b <= size_ b' /\
       size_ b' = (if write_pos_ b + zlen buf <=? size_ b then size_ b else size_ b - write_pos_ b + zlen buf)
   else WriteRaw malloc_ok fill buf b = Fault OutOfBounds) /\
  forall k val offset, k ∈ [1; 2; 4; 8]%nat -> 0 <= offset < 2 ^ 30 ->
    ReadOffsetUint little k val offset b =
      if size_ b - read_pos_ b <? offset + Z.of_nat k then Ret None
      else if Z.of_nat k <? offset then Fault OutOfBounds
      else Ret (Some (host_val little (zslice (read_pos_ b + Z.of_nat k) offset (data_ b) ++ drop (Z.to_nat offset) (host_bytes little k val)))).
Proof. intros HM Hb Hl. split; [by apply WriteRaw_exact|]. intros k val offset Hk Ho. by apply offset_exact. Qed.

(** Reading stays in memory: whatever the bytes are, the functions that read a number
    or a string at the read position, or a string at an offset from it, return, with
    the position still in the block. *)
Theorem buffer_reads_stay little b : well_formed b -> all_bytes (data_ b) ->
  (forall k is_peek, k ∈ [1; 2; 4; 8]%nat -> exists r b', ReadUint little k is_peek b = Ret (r, b') /\ well_formed b' /\ (is_peek = true -> b' = b)) /\
  (exists r b', ReadString little b = Ret (r, b') /\ well_formed b') /\
  (exists r, ReadPeekString little b = Ret r) /\
  forall offset, 0 <= offset < 2 ^ 30 -> exists r, ReadOffsetString little offset b = Ret r.
Proof.
  intros Hb Ha. pose proof Hb as (H1 & H2 & H3 & H4). split; [|split; [|split]].
  - intros k is_peek Hk. destruct (read_uint_any little k is_peek b Hk Hb Ha) as [(x & -> & _ & Hf)|[-> _]]; [|by exists None, b]. eexists _, _. split; [done|]. destruct is_peek; [done|]. split; [unfold well_formed; cbn; lia|done].
  - unfold ReadString. destruct (string_at_any little 0 b ltac:(powlia) Hb Ha) as [-> |(n & s & -> & Hn & Hf)]; obind; [by eexists _, _|]. eexists _, _. split; [done|]. unfold skip_read_pos. destruct (_ || _) eqn:E; cbn; [done|]. apply orb_false_iff in E as [E1 E2]. apply Z.ltb_ge in E1. apply Z.leb_gt in E2. unfold well_formed. cbn. lia.
  - unfold ReadPeekString. destruct (string_at_any little 0 b ltac:(powlia) Hb Ha) as [-> |(n & s & -> & _)]; by eexists.
  - intros offset Ho. unfold ReadOffsetString. destruct (string_at_any little offset b Ho Hb Ha) as [-> |(n & s & -> & _)]; by eexists.
Qed.

(** ** Concrete buffers *)
Definition room (n : Z) : IOBuffer2 := Buffer (replicate (Z.to_nat n) 0) n 0 0 true.
Definition some_values : list value := [Uint 1 7; Uint 4 0x01020304; Str (str#"abc"); Uint 2 258].
Definition wrote (o : outcome IOBuffer2) : IOBuffer2 := match o with Ret b => b | Fault _ => room 0 end.
Lemma buffer_values_roundtrip_witness : exists b1 b2, write_values true (fun _ => true) (fun _ => 0) some_values (room 64) = Ret b1 /\ read_values true some_values b1 = Ret ([Some (Uint 1 7); Some (Uint 4 0x01020304); Some (Str (str#"abc" ++ [0])); Some (Uint 2 258)], b2).
Proof.
  destruct (buffer_values_roundtrip true (fun _ => true) (fun _ => 0) some_values (room 64)) as (b1 & b2 & H1 & H2 & _); [done| | |done|vm_compute; done|by exists b1, b2].
  - repeat constructor; cbn; try lia; apply list_elem_of_In; cbn; tauto.
  - unfold well_formed. vm_compute. repeat split; congruence.
Defined.
(** Ten of sixteen bytes were written; eight more do not fit, and the block becomes smaller. *)
Lemma buffer_bounds_exact_witness : WriteRaw (fun _ => true) (fun _ => 0) (replicate 8 1) (set_write_pos 10 (room 16)) = Fault OutOfBounds /\
  ReadOffsetUint true 2 0 3 (room 16) = Fault OutOfBounds.
Proof.
  destruct (buffer_bounds_exact true (fun _ => true) (fun _ => 0) (replicate 8 1) (set_write_pos 10 (room 16))) as [H _]; [done|unfold well_formed; vm_compute; repeat split; congruence|vm_compute; done|].
  destruct (buffer_bounds_exact true (fun _ => true) (fun _ => 0) [] (room 16)) as [_ H2]; [done|unfold well_formed; vm_compute; repeat split; congruence|vm_compute; done|]. split; [exact H|].
  rewrite H2; [vm_compute; done|apply list_elem_of_In; cbn; tauto|lia].
Defined.
Lemma buffer_reads_stay_witness : exists r b', ReadString true (Buffer [255; 255; 255; 255; 1] 5 0 0 false) = Ret (r, b').
Proof.
  destruct (buffer_reads_stay true (Buffer [255; 255; 255; 255; 1] 5 0 0 false)) as (_ & (r & b' & H & _) & _); [unfold well_formed; vm_compute; repeat split; congruence|repeat constructor; vm_compute; congruence|by exists r, b'].
Defined.
(** A string that ends with the buffer is read without the position moving. *)
Example last_string_stays : exists b, WriteString true (fun _ => true) (fun _ => 0) (str#"abc") (room 8) = Ret b /\ ReadString true b = Ret (Some (str#"abc" ++ [0]), b).
Proof. eexists. split; [vm_compute; reflexivity|vm_compute; reflexivity]. Qed.
(** A write at an offset that makes a block new says it is the caller's. *)
Example offset_write_leaks : exists b, WriteOffsetRaw (fun _ => true) (fun _ => 0) [1; 2] 2 (Buffer [0; 0] 2 0 0 false) = Ret b /\ data_ b = [0; 0; 1; 2; 0; 0] /\ IOBuffer2_end b = false.
Proof. eexists. split; [vm_compute; reflexivity|split; vm_compute; reflexivity]. Qed.
(** The length of a string at an offset is taken from the read position. *)
Example offset_string_length : ReadOffsetString true 6 (Buffer [1; 0; 0; 0; 0; 0; 2; 0; 0; 0; 65; 66; 0; 0] 14 0 0 false) = Ret (Some [65]).
Proof. vm_compute. reflexivity. Qed.
