(* ===== verification/ConnPool.v ===== *)
(** A pool of database connections: [zutils/db/conn_pool_manager.{h,cc}], without
    [USE_DATABASE_DLL].  A connection is named by a number; the objects that
    [CreateDatabaseObject] made and that were not destroyed are [objects].  What [Open]
    answers is an argument.  Each operation is under [mutex_] or before and after the
    others. *)
From Stdlib Require Import ZArith Lia Bool.
From stdpp Require Import base list numbers.
From S2P Require Import Prelude.

Open Scope Z_scope.

Abbreviation database := nat.
Inductive DBConnState := kDBConnState_Null | kDBConnState_Created | kDBConnState_Idle | kDBConnState_Busy.
#[export] Instance DBConnState_eq_dec : EqDecision DBConnState.
Proof. solve_decision. Defined.
Record DatabaseConnection := Connection { state : DBConnState; conn : option database }.
Definition no_connection : DatabaseConnection := Connection kDBConnState_Null None.
Definition set_state (s : DBConnState) (c : DatabaseConnection) : DatabaseConnection := Connection s (conn c).

Record DBAddrInfo := Addr { min_conn_count : Z; max_conn_count : Z }.
Record CdbConnPoolManager := Pool { db_addr_ : DBAddrInfo; conn_pool_ : list DatabaseConnection; conned_pointer_ : Z; objects : list database; next_object : database }.
Definition new_pool : CdbConnPoolManager := Pool (Addr 0 0) [] 0 [] 0%nat.

(** [conn_pool_[i]]; outside of the vector it is a fault. *)
Definition at_slot {A} (p : CdbConnPoolManager) (i : Z) (k : DatabaseConnection -> outcome A) : outcome A :=
  if i <? 0 then Fault OutOfBounds else match conn_pool_ p !! Z.to_nat i with Some c => k c | None => Fault OutOfBounds end.
Definition set_slot (i : Z) (c : DatabaseConnection) (p : CdbConnPoolManager) : CdbConnPoolManager :=
  Pool (db_addr_ p) (<[Z.to_nat i := c]> (conn_pool_ p)) (conned_pointer_ p) (objects p) (next_object p).
Definition set_conned (n : Z) (p : CdbConnPoolManager) : CdbConnPoolManager := Pool (db_addr_ p) (conn_pool_ p) n (objects p) (next_object p).
Definition CreateDatabaseObject (p : CdbConnPoolManager) : database * CdbConnPoolManager :=
  (next_object p, Pool (db_addr_ p) (conn_pool_ p) (conned_pointer_ p) (next_object p :: objects p) (S (next_object p))).

(** The loop of [Initialize] for the [n] slots from [i] on; [open_ok d] is what [Open] of
    [d] answers. *)
Fixpoint initialize_slots (open_ok : database -> bool) (n : nat) (i : Z) (p : CdbConnPoolManager) : outcome CdbConnPoolManager :=
  match n with
  | O => Ret p
  | S n =>
      at_slot p i (fun _ =>
        let '(d, p) := CreateDatabaseObject p in
        let p := set_slot i (Connection kDBConnState_Created (Some d)) p in
        let p :=
          if i <? min_conn_count (db_addr_ p) then
            let p := if open_ok d then set_slot i (Connection kDBConnState_Idle (Some d)) p else p in
            set_conned (conned_pointer_ p + 1) p
          else p in
        initialize_slots open_ok n (i + 1) p)
  end.
(** [std::vector::resize] *)
Definition resize (n : nat) (l : list DatabaseConnection) : list DatabaseConnection := take n l ++ replicate (n - length l) no_connection.
Definition Initialize (open_ok : database -> bool) (db_addr : DBAddrInfo) (p : CdbConnPoolManager) : outcome (Z * CdbConnPoolManager) :=
  let n := Z.to_nat (max_conn_count db_addr) in
  p ← initialize_slots open_ok n 0 (Pool db_addr (resize n (conn_pool_ p)) (conned_pointer_ p) (objects p) (next_object p));
  Ret (conned_pointer_ p, p).
(** [DestroyDatabaseObject] of an object that is not there is a fault. *)
Fixpoint destroy_all (l : list DatabaseConnection) (objects : list database) : outcome (list database) :=
  match l with
  | [] => Ret objects
  | c :: l =>
      match conn c with
      | None => destroy_all l objects
      | Some d => if bool_decide (d ∈ objects) then destroy_all l (filter (fun x => x <> d) objects) else Fault OutOfBounds
      end
  end.
Definition Shutdown (p : CdbConnPoolManager) : outcome CdbConnPoolManager :=
  o ← destroy_all (conn_pool_ p) (objects p); Ret (Pool (db_addr_ p) [] (conned_pointer_ p) o (next_object p)).

(** The first of the [n] slots from [i] on that is idle, and the one with a connection. *)
Fixpoint find_idle (n : nat) (i : Z) (p : CdbConnPoolManager) : outcome (option Z) :=
  match n with
  | O => Ret None
  | S n => at_slot p i (fun c => if decide (state c = kDBConnState_Idle) then Ret (Some i) else find_idle n (i + 1) p)
  end.
Fixpoint find_conn (d : database) (n : nat) (i : Z) (p : CdbConnPoolManager) : outcome (option Z) :=
  match n with
  | O => Ret None
  | S n => at_slot p i (fun c => if decide (conn c = Some d) then Ret (Some i) else find_conn d n (i + 1) p)
  end.
Definition GetFreeConnection (open_ok : database -> bool) (p : CdbConnPoolManager) : outcome (option database * CdbConnPoolManager) :=
  r ← find_idle (Z.to_nat (conned_pointer_ p)) 0 p;
  r ← match r with Some i => at_slot p i (fun c => Ret (conn c, set_slot i (set_state kDBConnState_Busy c) p)) | None => Ret (None, p) end;
  let '(c, p) := r in
  let i := conned_pointer_ p in
  match c with
  | Some d => Ret (Some d, p)
  | None =>
      if i <? max_conn_count (db_addr_ p) then
        at_slot p i (fun c =>
          if decide (state c = kDBConnState_Created) then
            match conn c with
            | None => Fault OutOfBounds
            | Some d => Ret (if open_ok d then (Some d, set_conned (i + 1) (set_slot i (set_state kDBConnState_Busy c) p)) else (None, p))
            end
          else Ret (None, p))
      else Ret (None, p)
  end.
Definition SetFreeConnection (d : database) (p : CdbConnPoolManager) : outcome CdbConnPoolManager :=
  r ← find_conn d (Z.to_nat (conned_pointer_ p)) 0 p;
  match r with Some i => at_slot p i (fun c => Ret (set_slot i (set_state kDBConnState_Idle c) p)) | None => Ret p end.

(** ** [ScopedPtr_DatabaseConnection], by its [db_conn_] *)
Definition scoped_new (open_ok : database -> bool) (p : CdbConnPoolManager) : outcome (option database * CdbConnPoolManager) := GetFreeConnection open_ok p.
Definition scoped_get (open_ok : database -> bool) (db_conn_ : option database) (p : CdbConnPoolManager) : outcome (option database * CdbConnPoolManager) :=
  match db_conn_ with None => GetFreeConnection open_ok p | Some d => Ret (Some d, p) end.
Definition scoped_release (db_conn_ : option database) (p : CdbConnPoolManager) : outcome (option database * CdbConnPoolManager) :=
  match db_conn_ with None => Ret (None, p) | Some d => p ← SetFreeConnection d p; Ret (None, p) end.

(** What the users of a pool may do: make scoped pointers, use and release them. *)
Inductive pool_uses (db_addr : DBAddrInfo) : list (option database) -> CdbConnPoolManager -> Prop :=
  | PU_start open_ok n p : Initialize open_ok db_addr new_pool = Ret (n, p) -> pool_uses db_addr [] p
  | PU_new open_ok hs p c p' : pool_uses db_addr hs p -> scoped_new open_ok p = Ret (c, p') -> pool_uses db_addr (c :: hs) p'
  | PU_get open_ok hs p i h c p' : pool_uses db_addr hs p -> hs !! i = Some h -> scoped_get open_ok h p = Ret (c, p') -> pool_uses db_addr (<[i := c]> hs) p'
  | PU_release hs p i h c p' : pool_uses db_addr hs p -> hs !! i = Some h -> scoped_release h p = Ret (c, p') -> pool_uses db_addr (<[i := c]> hs) p'.
Definition held (hs : list (option database)) : list database := omap id hs.

(** * The invariant *)
Definition busy_conn (c : DatabaseConnection) : option database := if decide (state c = kDBConnState_Busy) then conn c else None.
Record pool_ok (hs : list (option database)) (p : CdbConnPoolManager) : Prop := {
  k_size : zlen (conn_pool_ p) = max_conn_count (db_addr_ p);
  k_conned : 0 <= conned_pointer_ p <= max_conn_count (db_addr_ p);
  k_conn : forall i c, conn_pool_ p !! i = Some c -> is_Some (conn c);
  k_nodup : NoDup (omap conn (conn_pool_ p));
  k_objects : objects p ≡ₚ omap conn (conn_pool_ p);
  k_created : forall i c, conn_pool_ p !! i = Some c -> conned_pointer_ p <= Z.of_nat i -> state c = kDBConnState_Created;
  k_opened : forall i c, conn_pool_ p !! i = Some c -> state c <> kDBConnState_Null;
  k_held : held hs ≡ₚ omap busy_conn (conn_pool_ p)
}.

Definition others {A} (i : nat) (l : list A) : list A := take i l ++ drop (S i) l.
Lemma insert_perm {A} (l : list A) i x y : l !! i = Some x -> l ≡ₚ x :: others i l /\ <[i := y]> l ≡ₚ y :: others i l.
Proof.
  intros H. unfold others. rewrite !Permutation_middle, take_drop_middle by done. rewrite insert_take_drop by (by eapply lookup_lt_Some). done.
Qed.
Lemma at_slot_ok {A} p i c (k : DatabaseConnection -> outcome A) : conn_pool_ p !! i = Some c -> at_slot p (Z.of_nat i) k = k c.
Proof. intros H. unfold at_slot. rewrite (proj2 (Z.ltb_ge _ _)) by lia. by rewrite Nat2Z.id, H. Qed.
(** Searching a prefix of the slots. *)
Lemma find_idle_spec n i p : (i + n <= length (conn_pool_ p))%nat ->
  exists r, find_idle n (Z.of_nat i) p = Ret r /\
    match r with
    | Some j => exists k c, j = Z.of_nat k /\ (i <= k < i + n)%nat /\ conn_pool_ p !! k = Some c /\ state c = kDBConnState_Idle
    | None => forall k c, (i <= k < i + n)%nat -> conn_pool_ p !! k = Some c -> state c <> kDBConnState_Idle
    end.
Proof.
  revert i. induction n as [|n IH]; intros i Hn; cbn [find_idle]; [exists None; split; [done|]; intros k c Hk; lia|].
  destruct (lookup_lt_is_Some_2 (conn_pool_ p) i ltac:(lia)) as [c Hc]. rewrite (at_slot_ok p i c) by done. destruct (decide _) as [Hi|Hi]; [exists (Some (Z.of_nat i)); split; [done|]; exists i, c; repeat (split; [done || lia|]); done|].
  replace (Z.of_nat i + 1) with (Z.of_nat (S i)) by lia. destruct (IH (S i) ltac:(lia)) as (r & -> & Hr). exists r. split; [done|]. destruct r as [j|].
  - destruct Hr as (k & c' & -> & Hk & Hc' & Hs). exists k, c'. split; [done|]. split; [lia|]. done.
  - intros k c' Hk Hc'. destruct (decide (k = i)) as [-> |Hne]; [congruence|]. apply (Hr k c'); [lia|done].
Qed.
Lemma find_conn_spec d n i p : (i + n <= length (conn_pool_ p))%nat ->
  exists r, find_conn d n (Z.of_nat i) p = Ret r /\
    match r with
    | Some j => exists k c, j = Z.of_nat k /\ (i <= k < i + n)%nat /\ conn_pool_ p !! k = Some c /\ conn c = Some d
    | None => forall k c, (i <= k < i + n)%nat -> conn_pool_ p !! k = Some c -> conn c <> Some d
    end.
Proof.
  revert i. induction n as [|n IH]; intros i Hn; cbn [find_conn]; [exists None; split; [done|]; intros k c Hk; lia|].
  destruct (lookup_lt_is_Some_2 (conn_pool_ p) i ltac:(lia)) as [c Hc]. rewrite (at_slot_ok p i c) by done. destruct (decide _) as [Hi|Hi]; [exists (Some (Z.of_nat i)); split; [done|]; exists i, c; repeat (split; [done || lia|]); done|].
  replace (Z.of_nat i + 1) with (Z.of_nat (S i)) by lia. destruct (IH (S i) ltac:(lia)) as (r & -> & Hr). exists r. split; [done|]. destruct r as [j|].
  - destruct Hr as (k & c' & -> & Hk & Hc' & Hs). exists k, c'. split; [done|]. split; [lia|]. done.
  - intros k c' Hk Hc'. destruct (decide (k = i)) as [-> |Hne]; [congruence|]. apply (Hr k c'); [lia|done].
Qed.
(** A slot changes its state. *)
Lemma omap_insert {A B} (f : A -> option B) (l : list A) k x y : l !! k = Some x -> omap f l ≡ₚ omap f [x] ++ omap f (others k l) /\ omap f (<[k := y]> l) ≡ₚ omap f [y] ++ omap f (others k l).
Proof. intros H. destruct (insert_perm l k x y H) as [E1 E2]. rewrite E2. rewrite E1 at 1. cbn. split; destruct (f _); done. Qed.
Lemma slot_ok hs hs' p k c s n : pool_ok hs p -> conn_pool_ p !! k = Some c -> s <> kDBConnState_Null -> conned_pointer_ p <= n <= max_conn_count (db_addr_ p) -> Z.of_nat k < n ->
  held hs' ≡ₚ omap busy_conn (<[k := set_state s c]> (conn_pool_ p)) -> pool_ok hs' (set_conned n (set_slot (Z.of_nat k) (set_state s c) p)).
Proof.
  intros [H1 H2 H3 H4 H5 H6 H7 H8] Hk Hs Hn Hkn Hh. assert (omap conn (<[k := set_state s c]> (conn_pool_ p)) ≡ₚ omap conn (conn_pool_ p)) as Ec.
  { destruct (omap_insert conn (conn_pool_ p) k c (set_state s c) Hk) as [E1 E2]. by rewrite E1, E2. }
  assert (forall i c', <[k := set_state s c]> (conn_pool_ p) !! i = Some c' -> i = k /\ c' = set_state s c \/ i <> k /\ conn_pool_ p !! i = Some c') as Hl.
  { intros i c' Hi. destruct (decide (i = k)) as [-> |Hne]; [rewrite list_lookup_insert_eq in Hi by (by eapply lookup_lt_Some); injection Hi as <-; by left|rewrite list_lookup_insert_ne in Hi by done; by right]. }
  unfold set_conned, set_slot. split; cbn; rewrite ?Nat2Z.id; try done.
  - unfold zlen in *. by rewrite length_insert.
  - lia.
  - intros i c' [[-> ->]|[_ Hi]]%Hl; [cbn; by apply (H3 k)|by apply (H3 i)].
  - by rewrite Ec.
  - by rewrite Ec, H5.
  - intros i c' [[-> ->]|[_ Hi]]%Hl Hle; [lia|apply (H6 i); [done|lia]].
  - intros i c' [[-> ->]|[_ Hi]]%Hl; [done|by apply (H7 i)].
Qed.
Lemma set_conned_same p : set_conned (conned_pointer_ p) p = p.
Proof. by destruct p. Qed.
Lemma busy_idle c : state c = kDBConnState_Idle -> omap busy_conn [c] = [].
Proof. intros H. cbn. unfold busy_conn. by rewrite H. Qed.
Lemma busy_created c : state c = kDBConnState_Created -> omap busy_conn [c] = [].
Proof. intros H. cbn. unfold busy_conn. by rewrite H. Qed.
Lemma busy_set c d : conn c = Some d -> omap busy_conn [set_state kDBConnState_Busy c] = [d].
Proof. intros H. cbn. unfold busy_conn. cbn. by rewrite H. Qed.
(** The slots below the pointer whose first [Open] failed. *)
Definition failed (p : CdbConnPoolManager) : nat := length (filter (fun c => state c = kDBConnState_Created) (take (Z.to_nat (conned_pointer_ p)) (conn_pool_ p))).
Lemma busy_below hs p : pool_ok hs p -> omap busy_conn (conn_pool_ p) = omap busy_conn (take (Z.to_nat (conned_pointer_ p)) (conn_pool_ p)).
Proof.
  intros I. rewrite <- (take_drop (Z.to_nat (conned_pointer_ p)) (conn_pool_ p)) at 1. rewrite omap_app. rewrite <- (app_nil_r (omap busy_conn (take _ _))) at 2. f_equal.
  assert (forall c, c ∈ drop (Z.to_nat (conned_pointer_ p)) (conn_pool_ p) -> busy_conn c = None) as H.
  { intros c Hc. apply list_elem_of_lookup in Hc as [i Hi]. rewrite lookup_drop in Hi. unfold busy_conn. by rewrite (k_created _ _ I _ _ Hi) by lia. }
  induction (drop _ _) as [|c l IH]; [done|]. cbn. rewrite (H c) by (by left). apply IH. intros c' Hc'. apply H. by right.
Qed.
(** Without an idle slot, the slots below the pointer are those in use and those that failed. *)
Lemma no_idle_count l : (forall c, c ∈ l -> is_Some (conn c) /\ state c <> kDBConnState_Null) ->
  (length (omap busy_conn l) + length (filter (fun c => state c = kDBConnState_Created) l) + length (filter (fun c => state c = kDBConnState_Idle) l) = length l)%nat.
Proof.
  induction l as [|c l IH]; intros H; [done|]. destruct (H c ltac:(by left)) as [[d Hd] Hs]. specialize (IH ltac:(intros c' Hc'; apply H; by right)). change (omap busy_conn (c :: l)) with (match busy_conn c with Some d => d :: omap busy_conn l | None => omap busy_conn l end). rewrite !filter_cons. unfold busy_conn at 1. destruct (state c) eqn:E; [done| | |].
  all: repeat (case_decide; try congruence); rewrite ?Hd; cbn [length]; lia.
Qed.
Lemma Get_inv open_ok hs p : pool_ok hs p -> exists c p', GetFreeConnection open_ok p = Ret (c, p') /\
  match c with
  | Some d => d ∈ objects p /\ (d ∉ held hs) /\ (forall hs', held hs' ≡ₚ (d :: held hs) -> pool_ok hs' p') /\ objects p' = objects p /\ db_addr_ p' = db_addr_ p
  | None => p' = p /\ Z.of_nat (length (held hs) + failed p) = conned_pointer_ p /\
      (conned_pointer_ p < max_conn_count (db_addr_ p) -> exists c d, conn_pool_ p !! Z.to_nat (conned_pointer_ p) = Some c /\ conn c = Some d /\ open_ok d = false)
  end.
Proof.
  intros I. pose proof I as [H1 H2 H3 H4 H5 H6 H7 H8]. assert (Z.to_nat (conned_pointer_ p) <= length (conn_pool_ p))%nat as Hlen by (unfold zlen in H1; lia).
  assert (forall k c d s, conn_pool_ p !! k = Some c -> conn c = Some d -> omap busy_conn [c] = [] -> s = kDBConnState_Busy -> d ∈ objects p /\ (d ∉ held hs) /\ forall hs', held hs' ≡ₚ (d :: held hs) -> held hs' ≡ₚ omap busy_conn (<[k := set_state s c]> (conn_pool_ p))) as Htake.
  { intros k c d s Hk Hd Hb ->. destruct (omap_insert busy_conn (conn_pool_ p) k c (set_state kDBConnState_Busy c) Hk) as [E1 E2]. rewrite Hb in E1. rewrite (busy_set c d Hd) in E2. cbn [app] in *.
    destruct (omap_insert conn (conn_pool_ p) k c c Hk) as [F1 _]. cbn [omap list_omap] in F1. rewrite Hd in F1. cbn [app] in F1. split; [rewrite H5, F1; by left|]. split.
    - rewrite H8, E1. rewrite F1 in H4. apply list.NoDup_cons in H4 as [Hn _]. intros Hin. apply Hn. apply list_elem_of_omap in Hin as (x & Hx & Hbx). apply list_elem_of_omap. exists x. split; [done|]. unfold busy_conn in Hbx. by case_decide.
    - intros hs' ->. by rewrite H8, E1, E2. }
  unfold GetFreeConnection. destruct (find_idle_spec (Z.to_nat (conned_pointer_ p)) 0 p ltac:(lia)) as (r & E & Hr). change (Z.of_nat 0) with 0 in E. rewrite E. obind. destruct r as [j|].
  - destruct Hr as (k & c & -> & Hk & Hc & Hs). destruct (H3 k c Hc) as [d Hd]. rewrite (at_slot_ok p k c) by done. obind. rewrite Hd. eexists _, _. split; [done|].
    destruct (Htake k c d kDBConnState_Busy Hc Hd (busy_idle c Hs) eq_refl) as (T1 & T2 & T3). split; [done|]. split; [done|]. split; [|done]. intros hs' Hh. rewrite <- (set_conned_same (set_slot _ _ p)). apply (slot_ok hs); [done|done|done|cbn; lia|cbn; lia|by apply T3].
  - obind. assert (Z.of_nat (length (held hs) + failed p) = conned_pointer_ p) as Hcount.
    { unfold failed. rewrite (Permutation_length H8), (busy_below hs p I). set (l := take _ _) in *. assert (forall c, c ∈ l -> exists i, (i < Z.to_nat (conned_pointer_ p))%nat /\ conn_pool_ p !! i = Some c) as Hl.
      { intros c Hc. apply list_elem_of_lookup in Hc as [i Hi]. apply lookup_take_Some in Hi as [Hi Hlt]. by exists i. }
      pose proof (no_idle_count l) as Hn. assert (filter (fun c => state c = kDBConnState_Idle) l = []) as Hnil.
      { match goal with |- ?x = [] => destruct x as [|c l'] eqn:El end; [done|]. assert (c ∈ filter (fun c => state c = kDBConnState_Idle) l) as Hc by (rewrite El; by left). apply list_elem_of_filter in Hc as [Hi Hc]. destruct (Hl c Hc) as (i & Hlt & Hci). by destruct (Hr i c ltac:(lia) Hci). }
      rewrite Hnil in Hn. cbn [length] in Hn. rewrite Nat.add_0_r in Hn. rewrite Hn; [unfold l; rewrite length_take; lia|]. intros c Hc. destruct (Hl c Hc) as (i & _ & Hci). split; [by apply (H3 i)|by apply (H7 i)]. }
    destruct (Z.ltb_spec (conned_pointer_ p) (max_conn_count (db_addr_ p))) as [Hlt|Hge]; [|eexists _, _; split; [done|]; split; [done|]; split; [done|lia]].
    destruct (lookup_lt_is_Some_2 (conn_pool_ p) (Z.to_nat (conned_pointer_ p))) as [c Hc]; [unfold zlen in H1; lia|]. destruct (H3 _ c Hc) as [d Hd]. pose proof (H6 _ c Hc ltac:(lia)) as Hs.
    assert (forall A (k : DatabaseConnection -> outcome A), at_slot p (conned_pointer_ p) k = k c) as Eat by (intros A k; rewrite <- (Z2Nat.id (conned_pointer_ p)) by lia; by apply at_slot_ok). rewrite Eat. rewrite decide_True by done. rewrite Hd. destruct (open_ok d) eqn:Eo; eexists _, _; (split; [done|]).
    + destruct (Htake _ c d kDBConnState_Busy Hc Hd (busy_created c Hs) eq_refl) as (T1 & T2 & T3). split; [done|]. split; [done|]. split; [|done]. intros hs' Hh. assert (set_slot (conned_pointer_ p) (set_state kDBConnState_Busy c) p = set_slot (Z.of_nat (Z.to_nat (conned_pointer_ p))) (set_state kDBConnState_Busy c) p) as -> by (by rewrite Z2Nat.id by lia). apply (slot_ok hs); [done|done|done|cbn; lia|cbn; lia|by apply T3].
    + split; [done|]. split; [done|]. intros _. by exists c, d.
Qed.
Lemma busy_is_conn (d : database) (l : list DatabaseConnection) : d ∈ omap busy_conn l -> d ∈ omap conn l.
Proof. intros (x & Hx & Hb)%list_elem_of_omap. apply list_elem_of_omap. exists x. split; [done|]. unfold busy_conn in Hb. by case_decide. Qed.
Lemma Set_inv hs p d : pool_ok hs p -> d ∈ held hs -> exists p', SetFreeConnection d p = Ret p' /\ db_addr_ p' = db_addr_ p /\ objects p' = objects p /\ forall hs', held hs ≡ₚ (d :: held hs') -> pool_ok hs' p'.
Proof.
  intros I Hd. pose proof I as [H1 H2 H3 H4 H5 H6 H7 H8]. assert (Z.to_nat (conned_pointer_ p) <= length (conn_pool_ p))%nat as Hlen by (unfold zlen in H1; lia). unfold SetFreeConnection.
  destruct (find_conn_spec d (Z.to_nat (conned_pointer_ p)) 0 p ltac:(lia)) as (r & E & Hr). change (Z.of_nat 0) with 0 in E. rewrite E. obind. destruct r as [j|].
  - destruct Hr as (k & c & -> & Hk & Hc & Hcd). rewrite (at_slot_ok p k c) by done. eexists. split; [done|]. split; [done|]. split; [done|]. intros hs' Hh.
    rewrite <- (set_conned_same (set_slot _ _ p)). apply (slot_ok hs); [done|done|done|cbn; lia|cbn; lia|].
    destruct (omap_insert busy_conn (conn_pool_ p) k c (set_state kDBConnState_Idle c) Hc) as [E1 E2]. rewrite (busy_idle (set_state _ c)) in E2 by done. cbn [app] in E2. rewrite E2.
    destruct (omap_insert conn (conn_pool_ p) k c c Hc) as [F1 _]. cbn [omap list_omap] in F1. rewrite Hcd in F1. rewrite F1 in H4. cbn [app] in H4. apply list.NoDup_cons in H4 as [Hn _].
    assert (omap busy_conn [c] = [d]) as Eb.
    { rewrite H8, E1 in Hd. apply elem_of_app in Hd as [Hd|Hd]; [|by destruct Hn; apply busy_is_conn]. cbn in *. unfold busy_conn in *. case_decide; [by rewrite Hcd|by apply elem_of_nil in Hd]. }
    rewrite Eb in E1. rewrite H8, E1 in Hh. cbn [app] in Hh. apply Permutation_cons_inv in Hh. by rewrite Hh.
  - exfalso. rewrite H8 in Hd. apply list_elem_of_omap in Hd as (c & Hc & Hb). apply list_elem_of_lookup in Hc as [i Hi]. unfold busy_conn in Hb. case_decide as Hs; [|done]. destruct (Z.lt_ge_cases (Z.of_nat i) (conned_pointer_ p)) as [Hlt|Hge]; [by apply (Hr i c ltac:(lia) Hi)|]. rewrite (H6 i c Hi Hge) in Hs. done.
Qed.

(** The slots that [Initialize] has been at. *)
Record loop_ok (mn : Z) (i n : nat) (p : CdbConnPoolManager) : Prop := {
  o_length : length (conn_pool_ p) = (i + n)%nat;
  o_done : forall j, (j < i)%nat -> exists c, conn_pool_ p !! j = Some c /\ conn c = Some j /\ (state c = kDBConnState_Created \/ state c = kDBConnState_Idle /\ Z.of_nat j < conned_pointer_ p);
  o_objects : objects p ≡ₚ seq 0 i;
  o_next : next_object p = i;
  o_conned : conned_pointer_ p = Z.min (Z.of_nat i) (Z.max 0 mn);
  o_min : min_conn_count (db_addr_ p) = mn
}.
Lemma slots_inv open_ok mn n i p : loop_ok mn i n p -> exists p', initialize_slots open_ok n (Z.of_nat i) p = Ret p' /\ loop_ok mn (i + n) 0 p' /\ db_addr_ p' = db_addr_ p.
Proof.
  revert i p. induction n as [|n IH]; intros i p [H1 H2 H3 H4 H5 H6]; cbn [initialize_slots]; [exists p; rewrite !Nat.add_0_r; split; [done|]; split; [by split; rewrite ?Nat.add_0_r in *|done]|].
  destruct (lookup_lt_is_Some_2 (conn_pool_ p) i ltac:(lia)) as [c Hc]. rewrite (at_slot_ok p i c) by done. unfold CreateDatabaseObject. cbn [db_addr_ set_slot conn_pool_ conned_pointer_ objects next_object]. rewrite H6, H4. set (p' := if Z.of_nat i <? mn then _ else _).
  assert (loop_ok mn (S i) n p' /\ db_addr_ p' = db_addr_ p) as [HL Ha].
  { assert (exists c', conn_pool_ p' = <[i := c']> (conn_pool_ p) /\ conn c' = Some i /\ (state c' = kDBConnState_Created \/ state c' = kDBConnState_Idle /\ Z.of_nat i < conned_pointer_ p') /\ objects p' = i :: objects p /\ next_object p' = S i /\ conned_pointer_ p' = Z.min (Z.of_nat (S i)) (Z.max 0 mn) /\ db_addr_ p' = db_addr_ p) as (c' & E1 & E2 & E3 & E4 & E5 & E6 & E7).
    { unfold p'. destruct (Z.ltb_spec (Z.of_nat i) mn) as [Hm|Hm].
      - destruct (open_ok i); unfold set_conned, set_slot; cbn; rewrite Nat2Z.id, ?list_insert_insert_eq; eexists; (split; [done|]); cbn; (split; [done|]); (split; [|split; [done|]; split; [done|]; split; [lia|done]]); [right; split; [done|lia]|by left].
      - unfold set_slot. cbn. rewrite Nat2Z.id. eexists. split; [done|]. cbn. split; [done|]. split; [by left|]. split; [done|]. split; [done|]. split; [lia|done]. }
    split; [|done]. split; rewrite ?E1, ?E4, ?E5, ?E6, ?E7; try done.
    - rewrite length_insert. lia.
    - intros j Hj. destruct (decide (j = i)) as [-> |Hne]; [rewrite list_lookup_insert_eq by lia; exists c'; rewrite <- E6; by split|]. rewrite list_lookup_insert_ne by done. destruct (H2 j ltac:(lia)) as (c1 & Hc1 & Hd1 & Hs1). exists c1. split; [done|]. split; [done|]. destruct Hs1 as [Hs1|[Hs1 Hl]]; [by left|right; split; [done|]]. lia.
    - rewrite H3, seq_S. cbn. by rewrite Permutation_app_comm. }
  replace (Z.of_nat i + 1) with (Z.of_nat (S i)) by lia. destruct (IH (S i) p' HL) as (p2 & E & HL2 & Ha2). exists p2. split; [done|]. split; [by rewrite <- Nat.add_succ_comm|congruence].
Qed.
Lemma omap_seq (l : list DatabaseConnection) k : (forall j c, l !! j = Some c -> conn c = Some (k + j)%nat) -> omap conn l = seq k (length l).
Proof.
  revert k. induction l as [|c l IH]; intros k H; [done|]. cbn [length seq]. change (omap conn (c :: l)) with (match conn c with Some d => d :: omap conn l | None => omap conn l end). rewrite (H 0%nat c eq_refl), Nat.add_0_r. f_equal. apply IH. intros j c' Hj. rewrite (H (S j) c' Hj). f_equal. lia.
Qed.
Lemma Initialize_inv open_ok a : 0 <= max_conn_count a -> exists n p, Initialize open_ok a new_pool = Ret (n, p) /\ pool_ok [] p /\ db_addr_ p = a.
Proof.
  intros Ha. unfold Initialize, resize, new_pool. cbn [conn_pool_ conned_pointer_ objects next_object length]. rewrite take_nil. cbn [app]. rewrite Nat.sub_0_r.
  destruct (slots_inv open_ok (min_conn_count a) (Z.to_nat (max_conn_count a)) 0 (Pool a (replicate (Z.to_nat (max_conn_count a)) no_connection) 0 [] 0%nat)) as (p & E & [L1 L2 L3 L4 L5 L6] & Hap).
  { split; cbn; [by rewrite length_replicate|intros j Hj; lia|done|done|lia|done]. }
  change (Z.of_nat 0) with 0 in E. rewrite E. obind. eexists _, p. split; [done|]. split; [|done]. rewrite Nat.add_0_r in L1. cbn in *.
  assert (forall j c, conn_pool_ p !! j = Some c -> conn c = Some j /\ (state c = kDBConnState_Created \/ state c = kDBConnState_Idle /\ Z.of_nat j < conned_pointer_ p)) as Hs.
  { intros j c Hj. pose proof (lookup_lt_Some _ _ _ Hj) as Hlt. destruct (L2 j ltac:(lia)) as (c' & Hc' & Hd & Hst). rewrite Hj in Hc'. by injection Hc' as <-. }
  assert (omap conn (conn_pool_ p) = seq 0 (length (conn_pool_ p))) as Eo by (apply omap_seq; intros j c Hj; by apply Hs).
  split; rewrite ?Hap.
  - unfold zlen. rewrite L1. lia.
  - lia.
  - intros j c Hj. destruct (Hs j c Hj) as [-> _]. by eexists.
  - rewrite Eo. apply NoDup_seq.
  - by rewrite Eo, L1.
  - intros j c Hj Hle. destruct (Hs j c Hj) as [_ [H|[_ H]]]; [done|lia].
  - intros j c Hj. destruct (Hs j c Hj) as [_ [H|[H _]]]; by rewrite H.
  - cbn. assert (forall c, c ∈ conn_pool_ p -> busy_conn c = None) as Hb.
    { intros c Hc. apply list_elem_of_lookup in Hc as [j Hj]. unfold busy_conn. destruct (Hs j c Hj) as [_ [H|[H _]]]; by rewrite H. }
    clear -Hb. induction (conn_pool_ p) as [|c l IH]; [done|]. change (omap busy_conn (c :: l)) with (match busy_conn c with Some d => d :: omap busy_conn l | None => omap busy_conn l end). rewrite (Hb c) by (by left). apply IH. intros c' Hc'. apply Hb. by right.
Qed.
Lemma held_insert hs i h c : hs !! i = Some h -> held hs ≡ₚ held [h] ++ held (others i hs) /\ held (<[i := c]> hs) ≡ₚ held [c] ++ held (others i hs).
Proof. apply omap_insert. Qed.
Lemma pool_uses_inv a hs p : 0 <= max_conn_count a -> pool_uses a hs p -> pool_ok hs p /\ db_addr_ p = a.
Proof.
  intros Ha. induction 1 as [open_ok n p E|open_ok hs p c p' _ [IH Hap] E|open_ok hs p i h c p' _ [IH Hap] Hi E|hs p i h c p' _ [IH Hap] Hi E].
  - destruct (Initialize_inv open_ok a Ha) as (n2 & p2 & E2 & I & Hap). rewrite E in E2. by injection E2 as <- <-.
  - unfold scoped_new in E. destruct (Get_inv open_ok hs p IH) as (c2 & p2 & E2 & Hc). rewrite E in E2. injection E2 as <- <-. destruct c as [d|].
    + destruct Hc as (_ & _ & Hc & _ & Hp). rewrite Hp. split; [|done]. by apply Hc.
    + destruct Hc as [-> _]. split; [|done]. destruct IH. by split.
  - destruct (held_insert hs i h c Hi) as [E1 E3]. unfold scoped_get in E. destruct h as [d|].
    + injection E as <- <-. split; [|done]. rewrite list_insert_id by done. done.
    + destruct (Get_inv open_ok hs p IH) as (c2 & p2 & E2 & Hc). rewrite E in E2. injection E2 as <- <-. cbn [held omap list_omap id app] in E1. destruct c as [d|].
      * destruct Hc as (_ & _ & Hc & _ & Hp). rewrite Hp. split; [|done]. apply Hc. by rewrite E1, E3.
      * destruct Hc as [-> _]. split; [|done]. by rewrite list_insert_id.
  - destruct (held_insert hs i h c Hi) as [E1 E3]. unfold scoped_release in E. destruct h as [d|].
    + destruct (Set_inv hs p d IH) as (p2 & E2 & Hp & _ & Hs); [rewrite E1; by left|]. rewrite E2 in E. cbn in E. injection E as <- <-. split; [|congruence]. apply Hs. by rewrite E1, E3.
    + injection E as <- <-. split; [|done]. by rewrite list_insert_id.
Qed.
Lemma destroy_all_ok l o : NoDup (omap conn l) -> o ≡ₚ omap conn l -> destroy_all l o = Ret [].
Proof.
  revert o. induction l as [|c l IH]; intros o Hn Ho; cbn [destroy_all]; [by apply Permutation_nil_r in Ho as ->|].
  change (omap conn (c :: l)) with (match conn c with Some d => d :: omap conn l | None => omap conn l end) in Hn, Ho. destruct (conn c) as [d|]; [|by apply IH]. apply list.NoDup_cons in Hn as [Hd Hn].
  rewrite bool_decide_eq_true_2 by (rewrite Ho; by left). apply IH; [done|]. rewrite Ho. rewrite filter_cons_False by (intros H; by apply H). assert (forall k : list database, d ∉ k -> filter (fun x => x <> d) k = k) as Hf.
  { intros k Hk. induction k as [|x k IHk]; [done|]. apply not_elem_of_cons in Hk as [Hx Hk]. rewrite filter_cons_True by congruence. by rewrite IHk. }
  by rewrite Hf.
Qed.

(** * Properties *)

(** C27: connections are exclusive: whatever the users of a pool do and whatever [Open]
    answers, the connections that are held are different, exist, and are no more than the
    pool is for; a connection that is handed out is held by no one; none is handed out
    exactly when every slot up to the pointer is in use or failed to open at first, and the
    next, if there is one, fails to open now; no operation goes outside the vector;
    and shutting down destroys every object, each once. *)
Theorem pool_exclusive a hs p : 0 <= max_conn_count a -> pool_uses a hs p ->
  NoDup (held hs) /\ (forall d, d ∈ held hs -> d ∈ objects p) /\ Z.of_nat (length (held hs)) <= max_conn_count a /\
  (forall open_ok, exists c p', GetFreeConnection open_ok p = Ret (c, p') /\
     match c with
     | Some d => d ∈ objects p /\ (d ∉ held hs)
     | None => p' = p /\ Z.of_nat (length (held hs) + failed p) = conned_pointer_ p /\
         (conned_pointer_ p < max_conn_count a -> exists c d, conn_pool_ p !! Z.to_nat (conned_pointer_ p) = Some c /\ conn c = Some d /\ open_ok d = false)
     end) /\
  (forall d, d ∈ held hs -> exists p', SetFreeConnection d p = Ret p') /\
  exists p', Shutdown p = Ret p' /\ conn_pool_ p' = [] /\ objects p' = [].
Proof.
  intros Ha H. destruct (pool_uses_inv a hs p Ha H) as [I <-]. pose proof I as [H1 H2 H3 H4 H5 H6 H7 H8].
  assert (forall l : list DatabaseConnection, NoDup (omap conn l) -> NoDup (omap busy_conn l) /\ (length (omap busy_conn l) <= length l)%nat) as Hb.
  { induction l as [|c l IH]; [done|]. change (omap conn (c :: l)) with (match conn c with Some d => d :: omap conn l | None => omap conn l end). change (omap busy_conn (c :: l)) with (match busy_conn c with Some d => d :: omap busy_conn l | None => omap busy_conn l end).
    intros Hn. assert (NoDup (omap conn l)) as Hn' by (destruct (conn c); [by apply list.NoDup_cons in Hn as [_ Hn]|done]). destruct (IH Hn') as [B1 B2]. destruct (busy_conn c) as [d|] eqn:E; cbn; [|split; [done|lia]]. split; [|lia]. apply list.NoDup_cons. split; [|done].
    unfold busy_conn in E. case_decide; [|done]. rewrite E in Hn. apply list.NoDup_cons in Hn as [Hd _]. intros Hin. by apply Hd, busy_is_conn. }
  destruct (Hb _ H4) as [B1 B2]. split; [by rewrite H8|]. split; [intros d; rewrite H8, H5; apply busy_is_conn|]. split; [rewrite (Permutation_length H8); unfold zlen in H1; lia|]. split; [|split].
  - intros open_ok. destruct (Get_inv open_ok hs p I) as (c & p' & E & Hc). exists c, p'. split; [done|]. destruct c as [d|]; [by destruct Hc as (? & ? & _)|done].
  - intros d Hd. destruct (Set_inv hs p d I Hd) as (p' & E & _). by exists p'.
  - unfold Shutdown. rewrite (destroy_all_ok _ _ H4 H5). obind. by eexists.
Qed.
(** Two connections of three are opened at first, one without success. *)
Definition started (o : outcome (Z * CdbConnPoolManager)) : CdbConnPoolManager := match o with Ret r => r.2 | Fault _ => new_pool end.
Definition handed (o : outcome (option database * CdbConnPoolManager)) : CdbConnPoolManager := match o with Ret r => r.2 | Fault _ => new_pool end.
Definition pool_0 : CdbConnPoolManager := started (Initialize (fun d => (d =? 1)%nat) (Addr 2 3) new_pool).
Definition pool_1 : CdbConnPoolManager := handed (scoped_new (fun _ => true) pool_0).
Definition pool_2 : CdbConnPoolManager := handed (scoped_new (fun _ => true) pool_1).
Lemma pool_exclusive_witness : NoDup (held [Some 2; Some 1]%nat) /\ failed pool_2 = 1%nat.
Proof.
  assert (pool_uses (Addr 2 3) [Some 2; Some 1]%nat pool_2) as H.
  { apply (PU_new _ (fun _ => true) [Some 1%nat] pool_1); [|vm_compute; reflexivity]. apply (PU_new _ (fun _ => true) [] pool_0); [|vm_compute; reflexivity]. apply (PU_start _ (fun d => (d =? 1)%nat) 2). vm_compute. reflexivity. }
  destruct (pool_exclusive (Addr 2 3) [Some 2; Some 1]%nat pool_2 ltac:(cbn; lia) H) as [Hn _]. split; [exact Hn|vm_compute; reflexivity].
Defined.
(** A pool of one connection that could not be opened at the start never has one. *)
Example failed_for_good : GetFreeConnection (fun _ => true) (started (Initialize (fun _ => false) (Addr 1 1) new_pool)) = Ret (None, started (Initialize (fun _ => false) (Addr 1 1) new_pool)).
Proof. vm_compute. reflexivity. Qed.
(** A pool that was shut down is asked for a connection. *)
Example after_shutdown : (p ← Shutdown pool_0; GetFreeConnection (fun _ => true) p) = Fault OutOfBounds.
Proof. vm_compute. reflexivity. Qed.
(** A pool that is started again after it was shut down looks behind its slots. *)
Example started_again : (p ← Shutdown (started (Initialize (fun _ => true) (Addr 1 1) new_pool)); r ← Initialize (fun _ => false) (Addr 1 1) p; GetFreeConnection (fun _ => true) r.2) = Fault OutOfBounds.
Proof. vm_compute. reflexivity. Qed.
