(* ===== verification/LinkedMaps.v ===== *)
(** Maps that keep the order of insertion: [zutils/base2/linked_hash_map.h] and
    [zutils/base2/linked_map.h].  Both are a [std::list] of pairs and an index from keys to
    its nodes; a node is named by a number that is never used again, and an iterator is a
    node or the end.  The order of [linked_map] is total, so that keys it does not tell
    apart are equal. *)
From Stdlib Require Import ZArith Lia Bool.
From stdpp Require Import base list numbers gmap.
From S2P Require Import Prelude.

Abbreviation node := nat.
(** [None] is [end()]. *)
Abbreviation iterator := (option nat).

Section Maps.
Context {K : Type} `{Countable K} {V : Type} (v0 : V).

(** [map_] and [list_] of [linked_hash_map], [the_set] and [the_list] of [linked_map]. *)
Record linked := Linked { map_ : gmap K node; list_ : list (node * (K * V)); next_node : node }.
Definition empty_map : linked := Linked ∅ [] 0.

(** * [std::list] *)
Definition find_node (n : node) (m : linked) : option (nat * (node * (K * V))) := list_find (fun x => x.1 = n) (list_ m).
(** [*it] *)
Definition deref (it : iterator) (m : linked) : outcome (K * V) :=
  match it with None => Fault OutOfBounds | Some n => match find_node n m with Some (_, x) => Ret x.2 | None => Fault OutOfBounds end end.
(** [it->second = v] *)
Definition store (n : node) (v : V) (m : linked) : outcome linked :=
  match find_node n m with Some (i, x) => Ret (Linked (map_ m) (<[i := (n, (x.2.1, v))]> (list_ m)) (next_node m)) | None => Fault OutOfBounds end.
(** [push_back], with the node it makes. *)
Definition push_back (x : K * V) (m : linked) : node * linked := (next_node m, Linked (map_ m) (list_ m ++ [(next_node m, x)]) (S (next_node m))).
(** [list::erase], with the node after the one erased. *)
Definition node_at (i : nat) (m : linked) : iterator := fst <$> list_ m !! i.
Definition list_erase (n : node) (m : linked) : outcome (iterator * linked) :=
  match find_node n m with
  | Some (i, _) => Ret (node_at (S i) m, Linked (map_ m) (delete i (list_ m)) (next_node m))
  | None => Fault OutOfBounds
  end.
Definition set_map (i : gmap K node) (m : linked) : linked := Linked i (list_ m) (next_node m).
Definition begin_ (m : linked) : iterator := node_at 0 m.
(** [++it] *)
Definition next_of (n : node) (m : linked) : outcome iterator := match find_node n m with Some (i, _) => Ret (node_at (S i) m) | None => Fault OutOfBounds end.

(** * [linked_hash_map] *)
Definition find (key : K) (m : linked) : iterator := map_ m !! key.
Definition insert (pair : K * V) (m : linked) : outcome (iterator * bool * linked) :=
  match map_ m !! pair.1 with
  | Some n => Ret (Some n, false, m)
  | None =>
      let '(last, m) := push_back pair m in
      guard_or (match map_ m !! pair.1 with None => true | Some _ => false end) AssertFail
        (Ret (Some last, true, set_map (<[pair.1 := last]> (map_ m)) m))
  end.
(** [operator[]]: the node of the value it refers to. *)
Definition subscript (key : K) (m : linked) : outcome (node * linked) :=
  r ← insert (key, v0) m; let '(it, _, m) := r in
  match it with Some n => Ret (n, m) | None => Fault OutOfBounds end.
Definition erase (key : K) (m : linked) : outcome (nat * linked) :=
  match map_ m !! key with
  | None => Ret (0%nat, m)
  | Some n => r ← list_erase n m; Ret (1%nat, set_map (delete key (map_ r.2)) r.2)
  end.
Definition erase_at (position : iterator) (m : linked) : outcome linked :=
  x ← deref position m;
  match map_ m !! x.1, position with
  | Some found, Some n => guard_or (found =? n)%nat AssertFail (r ← list_erase n m; Ret (set_map (delete x.1 (map_ r.2)) r.2))
  | _, _ => Fault OutOfBounds
  end.
Fixpoint erase_range (fuel : nat) (first last : iterator) (m : linked) : outcome linked :=
  match fuel with
  | O => Fault OutOfFuel
  | S fuel =>
      match first with
      | None => Ret m
      | Some n =>
          if bool_decide (first = last) then Ret m
          else next ← next_of n m; m ← erase_at first m; erase_range fuel next last m
      end
  end.
Definition clear (m : linked) : linked := Linked ∅ [] (next_node m).
Definition empty (m : linked) : bool := match list_ m with [] => true | _ => false end.
Definition size (m : linked) : nat := length (list_ m).
Definition front (m : linked) : outcome (K * V) := deref (begin_ m) m.
Definition back (m : linked) : outcome (K * V) := match last (list_ m) with Some x => Ret x.2 | None => Fault OutOfBounds end.
Definition swap (m other : linked) : linked * linked := (other, m).
(** What [equal_range] of the hash map has for its end: [after key] is the key behind [key]
    in the order of the hash table, or none; the function that is not [const] reads the
    entry there even if there is none. *)
Definition equal_range (after : K -> option K) (key : K) (m : linked) : outcome (iterator * iterator) :=
  match map_ m !! key with
  | None => Fault OutOfBounds
  | Some n => match after key ≫= (fun k => map_ m !! k) with Some n' => Ret (Some n, Some n') | None => Fault OutOfBounds end
  end.
Definition equal_range_const (after : K -> option K) (key : K) (m : linked) : iterator * iterator :=
  match map_ m !! key with None => (None, None) | Some n => (Some n, after key ≫= (fun k => map_ m !! k)) end.

(** * [linked_map] *)
Definition lm_find (key : K) (m : linked) : iterator := map_ m !! key.
Definition lm_insert (value : K * V) (m : linked) : outcome (iterator * linked) :=
  match map_ m !! value.1 with
  | None => let '(pos, m) := push_back value m in Ret (Some pos, set_map (<[value.1 := pos]> (map_ m)) m)
  | Some n => m ← store n value.2 m; Ret (Some n, m)
  end.
(** [the_set] finds its entry by the key in the list. *)
Definition lm_erase (where_ : iterator) (m : linked) : outcome (iterator * linked) :=
  x ← deref where_ m;
  match where_ with Some n => list_erase n (set_map (delete x.1 (map_ m)) m) | None => Fault OutOfBounds end.
Definition lm_size (m : linked) : nat := base.size (map_ m).
Definition lm_subscript (key : K) (m : linked) : outcome (node * linked) :=
  r ← lm_insert (key, v0) m; match r.1 with Some n => Ret (n, r.2) | None => Fault OutOfBounds end.
Definition lm_empty (m : linked) : bool := (lm_size m =? 0)%nat.

(** * The list of the pairs, in the order they were inserted *)
Definition at_key (key : K) (l : list (K * V)) : option (nat * (K * V)) := list_find (fun x => x.1 = key) l.
Record rep (m : linked) (l : list (K * V)) : Prop := {
  r_items : (list_ m).*2 = l;
  r_nodes : NoDup (list_ m).*1;
  r_next : forall x, x ∈ list_ m -> (x.1 < next_node m)%nat;
  r_keys : NoDup l.*1;
  r_map : forall k n, map_ m !! k = Some n <-> exists v, (n, (k, v)) ∈ list_ m
}.
Lemma find_node_rep m l i n x : rep m l -> list_ m !! i = Some (n, x) -> find_node n m = Some (i, (n, x)).
Proof.
  intros R Hi. unfold find_node. apply list_find_Some. split; [done|]. split; [done|]. intros j y Hj Hlt Hy. cbn in Hy. assert (j = i); [|lia].
  eapply (NoDup_lookup (list_ m).*1); [apply (r_nodes _ _ R)|rewrite list_lookup_fmap, Hj; done|rewrite list_lookup_fmap, Hi; cbn; by rewrite Hy].
Qed.
Lemma item_at m l i : rep m l -> l !! i = snd <$> list_ m !! i.
Proof. intros R. rewrite <- (r_items _ _ R). apply list_lookup_fmap. Qed.
Lemma length_rep m l : rep m l -> length l = length (list_ m).
Proof. intros R. rewrite <- (r_items _ _ R). apply length_fmap. Qed.
Lemma key_cases m l k : rep m l ->
  (exists i n v, at_key k l = Some (i, (k, v)) /\ l !! i = Some (k, v) /\ list_ m !! i = Some (n, (k, v)) /\ map_ m !! k = Some n) \/ at_key k l = None /\ map_ m !! k = None /\ k ∉ l.*1.
Proof.
  intros R. unfold at_key. destruct (list_find _ l) as [[i [k' v]]|] eqn:E.
  - left. apply list_find_Some in E as (Hi & Hk & _). cbn in Hk. subst k'. pose proof Hi as Hi'. rewrite (item_at m l i R) in Hi'. destruct (list_ m !! i) as [[n x]|] eqn:Em; [|done]. cbn in Hi'. injection Hi' as ->. exists i, n, v. split; [done|]. split; [done|]. split; [done|]. apply (r_map _ _ R). exists v. by eapply list_elem_of_lookup_2.
  - right. split; [done|]. apply list_find_None in E. assert (k ∉ l.*1) as Hk.
    { intros (x & -> & Hx)%list_elem_of_fmap. rewrite Forall_forall in E. by apply (E x Hx). }
    split; [|done]. destruct (map_ m !! k) as [n|] eqn:Em; [|done]. apply (r_map _ _ R) in Em as [v Hv]. destruct Hk. apply list_elem_of_fmap. exists (k, v). split; [done|]. rewrite <- (r_items _ _ R). apply list_elem_of_fmap. by exists (n, (k, v)).
Qed.
(** A new pair at the end, with its node in the index. *)
Lemma append_rep m l k v : rep m l -> k ∉ l.*1 -> rep (Linked (<[k := next_node m]> (map_ m)) (list_ m ++ [(next_node m, (k, v))]) (S (next_node m))) (l ++ [(k, v)]).
Proof.
  intros [H1 H2 H3 H4 H5] Hk. assert (next_node m ∉ (list_ m).*1) as Hn by (intros (x & E & Hx)%list_elem_of_fmap; specialize (H3 x Hx); lia). split; cbn.
  - by rewrite fmap_app, H1.
  - rewrite fmap_app. apply list.NoDup_app. split; [done|]. split; [|apply list.NoDup_singleton]. intros x Hx Hx'. cbn in Hx'. apply list_elem_of_singleton in Hx' as ->. done.
  - intros x [Hx| ->%list_elem_of_singleton]%elem_of_app; [specialize (H3 x Hx); lia|cbn; lia].
  - rewrite fmap_app. apply list.NoDup_app. split; [done|]. split; [|apply list.NoDup_singleton]. intros x Hx Hx'. cbn in Hx'. apply list_elem_of_singleton in Hx' as ->. done.
  - intros k' n. setoid_rewrite elem_of_app. setoid_rewrite list_elem_of_singleton. destruct (decide (k' = k)) as [-> |Hne].
    + rewrite lookup_insert_eq. split; [intros [= <-]; exists v; by right|]. intros [v' [Hin|[= -> ->]]]; [|done]. destruct Hk. rewrite <- H1. apply list_elem_of_fmap. exists (k, v'). split; [done|]. apply list_elem_of_fmap. by exists (n, (k, v')).
    + rewrite lookup_insert_ne by done. rewrite H5. split; [intros [v' Hv]; exists v'; by left|]. intros [v' [Hin|[= -> -> ->]]]; [by exists v'|done].
Qed.
(** Another value for a key. *)
Lemma replace_rep m l i n k v v' : rep m l -> list_ m !! i = Some (n, (k, v)) -> rep (Linked (map_ m) (<[i := (n, (k, v'))]> (list_ m)) (next_node m)) (<[i := (k, v')]> l).
Proof.
  intros [H1 H2 H3 H4 H5] Hi. assert (forall x, x ∈ <[i := (n, (k, v'))]> (list_ m) <-> x = (n, (k, v')) \/ exists j, j <> i /\ list_ m !! j = Some x) as Hin.
  { intros x. rewrite list_elem_of_lookup. split.
    - intros [j Hj]. destruct (decide (j = i)) as [-> |Hne]; [rewrite list_lookup_insert_eq in Hj by (by eapply lookup_lt_Some); injection Hj as <-; by left|rewrite list_lookup_insert_ne in Hj by done; right; by exists j].
    - intros [-> |(j & Hne & Hj)]; [exists i; apply list_lookup_insert_eq; by eapply lookup_lt_Some|exists j; by rewrite list_lookup_insert_ne]. }
  split; cbn.
  - rewrite list_fmap_insert. by rewrite H1.
  - rewrite list_fmap_insert. cbn. by rewrite list_insert_id by (rewrite list_lookup_fmap, Hi; done).
  - intros x [-> |(j & _ & Hj)]%Hin; [cbn; apply (H3 (n, (k, v))); by eapply list_elem_of_lookup_2|apply H3; by eapply list_elem_of_lookup_2].
  - rewrite list_fmap_insert. cbn. rewrite list_insert_id; [done|]. rewrite <- H1. rewrite list_lookup_fmap, list_lookup_fmap, Hi. done.
  - intros k' n'. rewrite H5. split.
    + intros [w (j & Hj)%list_elem_of_lookup]. destruct (decide (j = i)) as [-> |Hne]; [rewrite Hi in Hj; injection Hj as <- <- <-; exists v'; apply Hin; by left|exists w; apply Hin; right; by exists j].
    + intros [w [[= -> -> ->]|(j & _ & Hj)]%Hin]; [exists v; by eapply list_elem_of_lookup_2|exists w; by eapply list_elem_of_lookup_2].
Qed.
(** A pair is taken out. *)
Lemma delete_rep m l i n k v : rep m l -> list_ m !! i = Some (n, (k, v)) -> rep (Linked (delete k (map_ m)) (delete i (list_ m)) (next_node m)) (delete i l).
Proof.
  intros [H1 H2 H3 H4 H5] Hi. assert (list_ m ≡ₚ (n, (k, v)) :: delete i (list_ m)) as HP by (by apply delete_Permutation). assert (l ≡ₚ (k, v) :: delete i l) as HL by (apply delete_Permutation; rewrite <- H1, list_lookup_fmap, Hi; done).
  assert (forall x, x ∈ list_ m <-> x = (n, (k, v)) \/ x ∈ delete i (list_ m)) as Hm by (intros x; rewrite HP at 1; apply elem_of_cons). assert ((delete i (list_ m)).*2 = delete i l) as E2 by (by rewrite list_fmap_delete, H1). rewrite HP in H2. cbn in H2. apply list.NoDup_cons in H2 as [Hn H2]. rewrite HL in H4. cbn in H4. apply list.NoDup_cons in H4 as [Hk H4]. split; cbn; try done.
  - intros x Hx. apply H3, Hm. by right.
  - intros k' n'. rewrite lookup_delete_Some, H5. setoid_rewrite Hm. split.
    + intros [Hne [w [[= -> -> ->]|Hw]]]; [done|by exists w].
    + intros [w Hw]. split; [|exists w; by right]. intros <-. apply Hk. apply list_elem_of_fmap. exists (k, w). split; [done|]. rewrite <- E2. apply list_elem_of_fmap. by exists (n', (k, w)).
Qed.
(** ** Calls and what they should do *)
(** An iterator is given by its place in the order; [HGet] and [LGet] read [m[k]], [HAssign]
    writes it. *)
Inductive call :=
  | HInsert (k : K) (v : V) | HGet (k : K) | HAssign (k : K) (v : V) | HErase (k : K) | HEraseAt (i : nat) | HEraseRange (i j : nat) | HFind (k : K) | HSize | HEmpty | HFront | HBack | HClear
  | LInsert (k : K) (v : V) | LGet (k : K) | LErase (i : nat) | LFind (k : K) | LSize | LEmpty.
Inductive answer := Pair (x : option (K * V)) | Inserted (x : K * V) (new : bool) | Value (v : V) | Number (n : nat) | Answer (b : bool) | Done.
(** The association list; [None] where the contract of the call is broken. *)
Definition spec (c : call) (l : list (K * V)) : option (answer * list (K * V)) :=
  match c with
  | HInsert k v => Some (match at_key k l with Some (_, x) => (Inserted x false, l) | None => (Inserted (k, v) true, l ++ [(k, v)]) end)
  | HGet k => Some (match at_key k l with Some (_, x) => (Value x.2, l) | None => (Value v0, l ++ [(k, v0)]) end)
  | HAssign k v | LInsert k v => Some (match c with HAssign _ _ => Done | _ => Pair (Some (k, v)) end, match at_key k l with Some (i, _) => <[i := (k, v)]> l | None => l ++ [(k, v)] end)
  | LGet k => Some (Value v0, match at_key k l with Some (i, _) => <[i := (k, v0)]> l | None => l ++ [(k, v0)] end)
  | HErase k => Some (match at_key k l with Some (i, _) => (Number 1, delete i l) | None => (Number 0, l) end)
  | HEraseAt i => if decide (i < length l)%nat then Some (Done, delete i l) else None
  | HEraseRange i j => if decide (i <= j <= length l)%nat then Some (Done, take i l ++ drop j l) else None
  | HFind k | LFind k => Some (Pair (snd <$> at_key k l), l)
  | HSize | LSize => Some (Number (length l), l)
  | HEmpty | LEmpty => Some (Answer (match l with [] => true | _ => false end), l)
  | HFront => match l with x :: _ => Some (Pair (Some x), l) | [] => None end
  | HBack => match last l with Some x => Some (Pair (Some x), l) | None => None end
  | HClear => Some (Done, [])
  | LErase i => if decide (i < length l)%nat then Some (Pair (l !! S i), delete i l) else None
  end.
Definition pair_at (it : iterator) (m : linked) : outcome answer := match it with None => Ret (Pair None) | Some _ => x ← deref it m; Ret (Pair (Some x)) end.
Definition run (c : call) (m : linked) : outcome (answer * linked) :=
  match c with
  | HInsert k v => r ← insert (k, v) m; let '(it, b, m) := r in x ← deref it m; Ret (Inserted x b, m)
  | HGet k => r ← subscript k m; x ← deref (Some r.1) r.2; Ret (Value x.2, r.2)
  | HAssign k v => r ← subscript k m; m ← store r.1 v r.2; Ret (Done, m)
  | HErase k => r ← erase k m; Ret (Number r.1, r.2)
  | HEraseAt i => m ← erase_at (node_at i m) m; Ret (Done, m)
  | HEraseRange i j => m ← erase_range (S (length (list_ m))) (node_at i m) (node_at j m) m; Ret (Done, m)
  | HFind k => x ← pair_at (find k m) m; Ret (x, m)
  | HSize => Ret (Number (size m), m)
  | HEmpty => Ret (Answer (empty m), m)
  | HFront => x ← front m; Ret (Pair (Some x), m)
  | HBack => x ← back m; Ret (Pair (Some x), m)
  | HClear => Ret (Done, clear m)
  | LInsert k v => r ← lm_insert (k, v) m; x ← pair_at r.1 r.2; Ret (x, r.2)
  | LGet k => r ← lm_subscript k m; x ← deref (Some r.1) r.2; Ret (Value x.2, r.2)
  | LErase i => r ← lm_erase (node_at i m) m; x ← pair_at r.1 r.2; Ret (x, r.2)
  | LFind k => x ← pair_at (lm_find k m) m; Ret (x, m)
  | LSize => Ret (Number (lm_size m), m)
  | LEmpty => Ret (Answer (lm_empty m), m)
  end.
Fixpoint spec_all (cs : list call) (l : list (K * V)) : option (list answer * list (K * V)) :=
  match cs with [] => Some ([], l) | c :: cs => r ← spec c l; rs ← spec_all cs r.2; Some (r.1 :: rs.1, rs.2) end.
Fixpoint run_all (cs : list call) (m : linked) : outcome (list answer * linked) :=
  match cs with [] => Ret ([], m) | c :: cs => r ← run c m; rs ← run_all cs r.2; Ret (r.1 :: rs.1, rs.2) end.

Lemma deref_rep m l i n x : rep m l -> list_ m !! i = Some (n, x) -> deref (Some n) m = Ret x.
Proof. intros R Hi. unfold deref. by rewrite (find_node_rep m l i n x R Hi). Qed.
Lemma last_node m k v : list_ (Linked (<[k := next_node m]> (map_ m)) (list_ m ++ [(next_node m, (k, v))]) (S (next_node m))) !! length (list_ m) = Some (next_node m, (k, v)).
Proof. cbn. by rewrite lookup_app_r, Nat.sub_diag by lia. Qed.
Lemma erase_at_rep m l i : rep m l -> (i < length l)%nat -> exists m', erase_at (node_at i m) m = Ret m' /\ rep m' (delete i l) /\ list_ m' = delete i (list_ m).
Proof.
  intros R Hi. rewrite (length_rep m l R) in Hi. destruct (lookup_lt_is_Some_2 _ _ Hi) as [[n [k v]] Hx]. unfold erase_at, node_at. rewrite Hx. cbn [fmap option_fmap option_map fst]. rewrite (deref_rep m l i n (k, v) R Hx). obind. cbn [fst].
  assert (map_ m !! k = Some n) as Em by (apply (r_map _ _ R); exists v; by eapply list_elem_of_lookup_2). rewrite Em, Nat.eqb_refl. cbn [guard_or]. unfold list_erase. rewrite (find_node_rep m l i n (k, v) R Hx). obind. eexists. split; [done|]. split; [exact (delete_rep m l i n k v R Hx)|done].
Qed.
(** The fuel is one more than the pairs. *)
Lemma erase_range_rep fuel m l i j : rep m l -> (i <= j <= length l)%nat -> (j - i < fuel)%nat -> exists m', erase_range fuel (node_at i m) (node_at j m) m = Ret m' /\ rep m' (take i l ++ drop j l).
Proof.
  revert m l j. induction fuel as [|fuel IH]; intros m l j R Hij Hf; [lia|]. cbn [erase_range]. pose proof (length_rep m l R) as Hl.
  destruct (decide (i < length l)%nat) as [Hi|Hi].
  2: { assert (i = length l /\ j = length l) as [Ei Ej] by lia. unfold node_at at 1. rewrite (lookup_ge_None_2 (list_ m) i) by lia. cbn. exists m. split; [done|]. rewrite Ei, Ej, drop_all, app_nil_r, take_ge by lia. done. }
  destruct (lookup_lt_is_Some_2 (list_ m) i ltac:(lia)) as [[n [k v]] Hx]. assert (node_at i m = Some n) as Ei by (unfold node_at; by rewrite Hx). destruct (decide (i = j)) as [<- |Hne].
  - rewrite Ei. cbn. rewrite bool_decide_eq_true_2 by done. exists m. split; [done|]. by rewrite take_drop.
  - rewrite Ei. rewrite bool_decide_eq_false_2.
    2: { unfold node_at. destruct (list_ m !! j) as [y|] eqn:Ey; cbn; [|done]. intros [= E]. apply Hne. eapply (NoDup_lookup (list_ m).*1); [apply (r_nodes _ _ R)|rewrite list_lookup_fmap, Hx; done|rewrite list_lookup_fmap, Ey; cbn; by rewrite E]. }
    unfold next_of. rewrite (find_node_rep m l i n (k, v) R Hx). obind. destruct (erase_at_rep m l i R Hi) as (m' & E & R' & El). rewrite <- Ei, E. obind.
    assert (node_at (S i) m = node_at i m') as -> by (unfold node_at; rewrite El, list_lookup_delete_ge by lia; done). assert (node_at j m = node_at (j - 1) m') as -> by (unfold node_at; rewrite El, list_lookup_delete_ge by lia; f_equal; f_equal; lia).
    destruct (IH m' (delete i l) (j - 1)%nat R') as (m2 & E2 & R2); [rewrite length_delete by (rewrite (item_at m l i R), Hx; done); lia|lia|]. exists m2. split; [done|].
    assert (take i (delete i l) ++ drop (j - 1) (delete i l) = take i l ++ drop j l) as <-; [|done]. rewrite delete_take_drop. f_equal; [by rewrite take_app_length' by (rewrite length_take; lia)|]. rewrite drop_app_ge by (rewrite length_take; lia). rewrite length_take, drop_drop. f_equal. lia.
Qed.
Lemma size_rep m l : rep m l -> base.size (map_ m) = length l.
Proof.
  intros R. rewrite (length_rep m l R), <- (length_fmap fst (list_ m)). rewrite <- length_map_to_list. rewrite <- (length_fmap snd (map_to_list (map_ m))). apply Permutation_length. apply NoDup_Permutation.
  - apply NoDup_fmap_2_strong; [|apply NoDup_map_to_list]. intros [k n] [k' n'] Hk Hk' E. cbn in E. subst n'. apply elem_of_map_to_list in Hk, Hk'. apply (r_map _ _ R) in Hk as [v Hv], Hk' as [v' Hv']. apply list_elem_of_lookup in Hv as [i Hi], Hv' as [j Hj].
    assert (i = j) as -> by (eapply (NoDup_lookup (list_ m).*1); [apply (r_nodes _ _ R)|rewrite list_lookup_fmap, Hi; done|rewrite list_lookup_fmap, Hj; done]). congruence.
  - apply (r_nodes _ _ R).
  - intros n. rewrite !list_elem_of_fmap. split.
    + intros ([k n'] & -> & Hk). apply elem_of_map_to_list in Hk. apply (r_map _ _ R) in Hk as [v Hv]. by exists (n', (k, v)).
    + intros ([n' [k v]] & -> & Hx). exists (k, n'). split; [done|]. apply elem_of_map_to_list. apply (r_map _ _ R). by exists v.
Qed.
(** Inserting a pair whose key is new, in both maps. *)
Lemma insert_new m l k v : rep m l -> map_ m !! k = None -> k ∉ l.*1 -> exists m', insert (k, v) m = Ret (Some (next_node m), true, m') /\ lm_insert (k, v) m = Ret (Some (next_node m), m') /\ rep m' (l ++ [(k, v)]) /\ list_ m' !! length l = Some (next_node m, (k, v)).
Proof.
  intros R Hm Hk. eexists. unfold insert, lm_insert. cbn [fst snd]. rewrite Hm. unfold push_back. cbn [map_]. rewrite Hm. cbn [guard_or]. split; [done|]. split; [done|]. split; [by apply append_rep|]. rewrite (length_rep m l R). apply last_node.
Qed.
Lemma store_rep m l i n k v v' : rep m l -> list_ m !! i = Some (n, (k, v)) -> exists m', store n v' m = Ret m' /\ rep m' (<[i := (k, v')]> l) /\ list_ m' !! i = Some (n, (k, v')).
Proof.
  intros R Hi. unfold store. rewrite (find_node_rep m l i n (k, v) R Hi). eexists. split; [done|]. split; [by eapply replace_rep|]. cbn. apply list_lookup_insert_eq. by eapply lookup_lt_Some.
Qed.
Lemma call_rep c m l r l' : rep m l -> spec c l = Some (r, l') -> exists m', run c m = Ret (r, m') /\ rep m' l'.
Proof.
  intros R Hs. pose proof (length_rep m l R) as Hl.
  assert (forall i, (i < length l)%nat -> exists n k v, list_ m !! i = Some (n, (k, v)) /\ l !! i = Some (k, v)) as Hat.
  { intros i Hi. destruct (lookup_lt_is_Some_2 (list_ m) i ltac:(lia)) as [[n [k v]] Hx]. exists n, k, v. by rewrite (item_at m l i R), Hx. }
  assert (forall k, exists m', lm_subscript k m = Ret (match map_ m !! k with Some n => n | None => next_node m end, m') /\ rep m' (match at_key k l with Some (i, _) => <[i := (k, v0)]> l | None => l ++ [(k, v0)] end) /\ deref (Some (match map_ m !! k with Some n => n | None => next_node m end)) m' = Ret (k, v0)) as HL.
  { intros k. unfold lm_subscript. destruct (key_cases m l k R) as [(i & n & v & -> & Hi & Hx & Hn)|(-> & Hn & Hk)].
    - unfold lm_insert. cbn [fst snd]. rewrite Hn. destruct (store_rep m l i n k v v0 R Hx) as (m' & -> & R' & Hx'). obind. exists m'. split; [done|]. split; [done|]. by eapply deref_rep.
    - destruct (insert_new m l k v0 R Hn Hk) as (m' & _ & -> & R' & Hx'). obind. rewrite Hn. exists m'. split; [done|]. split; [done|]. by eapply deref_rep. }
  destruct c as [k v|k|k v|k|i|i j|k| | | | | |k v|k|i|k| |]; cbn [spec run] in *.
  - destruct (key_cases m l k R) as [(i & n & w & E & Hi & Hx & Hn)|(E & Hn & Hk)]; rewrite E in Hs; injection Hs as <- <-.
    + exists m. split; [|done]. unfold insert. cbn [fst]. rewrite Hn. obind. by rewrite (deref_rep m l i n _ R Hx).
    + destruct (insert_new m l k v R Hn Hk) as (m' & -> & _ & R' & Hx'). obind. exists m'. split; [|done]. by rewrite (deref_rep m' _ _ _ _ R' Hx').
  - unfold subscript. destruct (key_cases m l k R) as [(i & n & w & E & Hi & Hx & Hn)|(E & Hn & Hk)]; rewrite E in Hs; injection Hs as <- <-.
    + exists m. split; [|done]. unfold insert. cbn [fst]. rewrite Hn. obind. cbn [fst snd]. by rewrite (deref_rep m l i n _ R Hx).
    + destruct (insert_new m l k v0 R Hn Hk) as (m' & -> & _ & R' & Hx'). obind. exists m'. split; [|done]. cbn [fst snd]. by rewrite (deref_rep m' _ _ _ _ R' Hx').
  - unfold subscript. destruct (key_cases m l k R) as [(i & n & w & E & Hi & Hx & Hn)|(E & Hn & Hk)]; rewrite E in Hs; injection Hs as <- <-.
    + unfold insert. cbn [fst]. rewrite Hn. obind. cbn [fst snd]. destruct (store_rep m l i n k w v R Hx) as (m' & -> & R' & _). obind. by exists m'.
    + destruct (insert_new m l k v0 R Hn Hk) as (m1 & -> & _ & R1 & Hx1). obind. cbn [fst snd]. destruct (store_rep m1 _ _ _ k v0 v R1 Hx1) as (m2 & -> & R2 & _). obind. exists m2. split; [done|]. rewrite insert_app_r_alt in R2 by lia. by rewrite Nat.sub_diag in R2.
  - unfold erase. destruct (key_cases m l k R) as [(i & n & w & E & Hi & Hx & Hn)|(E & Hn & Hk)]; rewrite E in Hs; injection Hs as <- <-; rewrite Hn; [|by exists m].
    unfold list_erase. rewrite (find_node_rep m l i n _ R Hx). obind. cbn. eexists. split; [done|]. exact (delete_rep m l i n k w R Hx).
  - case_decide as Hi; [|done]. injection Hs as <- <-. destruct (erase_at_rep m l i R Hi) as (m' & -> & R' & _). obind. by exists m'.
  - case_decide as Hi; [|done]. injection Hs as <- <-. destruct (erase_range_rep (S (length (list_ m))) m l i j R Hi ltac:(lia)) as (m' & -> & R'). obind. by exists m'.
  - unfold find, pair_at. destruct (key_cases m l k R) as [(i & n & w & E & Hi & Hx & Hn)|(E & Hn & Hk)]; rewrite E in Hs; injection Hs as <- <-; rewrite Hn; [|by exists m]. rewrite (deref_rep m l i n _ R Hx). obind. by exists m.
  - injection Hs as <- <-. exists m. by rewrite Hl.
  - injection Hs as <- <-. exists m. split; [|done]. unfold empty. do 3 f_equal. destruct l, (list_ m); done.
  - destruct l as [|x l0]; [done|]. injection Hs as <- <-. destruct (Hat 0%nat ltac:(cbn; lia)) as (n & k & v & Hx & [= ->]). unfold front, begin_, node_at. rewrite Hx. cbn [fmap option_fmap option_map fst]. rewrite (deref_rep m _ 0 n _ R Hx). obind. by exists m.
  - destruct (last l) as [x|] eqn:E; [|done]. injection Hs as <- <-. rewrite last_lookup in E. unfold back. rewrite last_lookup. rewrite (item_at m l _ R) in E. rewrite Hl in E. destruct (list_ m !! _) as [[n y]|]; [|done]. cbn in E. injection E as ->. obind. by exists m.
  - injection Hs as <- <-. eexists. split; [done|]. split; cbn; try done; [by apply NoDup_nil_2|by intros x Hx%elem_of_nil|by apply NoDup_nil_2|]. intros k n. rewrite lookup_empty. split; [done|]. by intros [v Hv%elem_of_nil].
  - destruct (key_cases m l k R) as [(i & n & w & E & Hi & Hx & Hn)|(E & Hn & Hk)]; rewrite E in Hs; injection Hs as <- <-.
    + unfold lm_insert. cbn [fst snd]. rewrite Hn. destruct (store_rep m l i n k w v R Hx) as (m' & -> & R' & Hx'). obind. cbn [fst snd]. unfold pair_at. rewrite (deref_rep m' _ _ _ _ R' Hx'). obind. by exists m'.
    + destruct (insert_new m l k v R Hn Hk) as (m' & _ & -> & R' & Hx'). obind. cbn [fst snd]. unfold pair_at. rewrite (deref_rep m' _ _ _ _ R' Hx'). obind. by exists m'.
  - injection Hs as <- <-. destruct (HL k) as (m' & -> & R' & Hd). obind. cbn [fst snd]. rewrite Hd. obind. by exists m'.
  - case_decide as Hi; [|done]. injection Hs as <- <-. destruct (Hat i Hi) as (n & k & v & Hx & _). assert (node_at i m = Some n) as En by (unfold node_at; by rewrite Hx). rewrite En. unfold lm_erase. rewrite (deref_rep m l i n _ R Hx). obind. cbn [fst]. unfold list_erase. assert (find_node n (set_map (delete k (map_ m)) m) = Some (i, (n, (k, v)))) as -> by (apply (find_node_rep m l i n _ R Hx)). obind. cbn [fst snd].
    pose proof (delete_rep m l i n k v R Hx) as R'. assert (node_at (S i) (set_map (delete k (map_ m)) m) = node_at i (Linked (delete k (map_ m)) (delete i (list_ m)) (next_node m))) as -> by (unfold node_at; cbn; by rewrite list_lookup_delete_ge by lia).
    unfold pair_at, node_at. cbn [list_]. rewrite list_lookup_delete_ge by lia. rewrite (item_at m l (S i) R). destruct (list_ m !! S i) as [[n' x']|] eqn:Ey; cbn [fmap option_fmap option_map fst snd]; [|eexists; by split].
    match goal with |- context [deref (Some n') ?mm] => change mm with (Linked (delete k (map_ m)) (delete i (list_ m)) (next_node m)) end. rewrite (deref_rep _ _ i n' x' R') by (cbn; by rewrite list_lookup_delete_ge by lia). obind. eexists. by split.
  - unfold lm_find, pair_at. destruct (key_cases m l k R) as [(i & n & w & E & Hi & Hx & Hn)|(E & Hn & Hk)]; rewrite E in Hs; injection Hs as <- <-; rewrite Hn; [|by exists m]. rewrite (deref_rep m l i n _ R Hx). obind. by exists m.
  - injection Hs as <- <-. exists m. unfold lm_size. by rewrite (size_rep m l R).
  - injection Hs as <- <-. exists m. split; [|done]. unfold lm_empty, lm_size. rewrite (size_rep m l R). by destruct l.
Qed.
Lemma empty_rep : rep empty_map [].
Proof. split; cbn; try done; [by apply NoDup_nil_2|by intros x Hx%elem_of_nil|by apply NoDup_nil_2|]. intros k n. rewrite lookup_empty. split; [done|]. by intros [v Hv%elem_of_nil]. Qed.
Lemma calls_rep cs m l rs l' : rep m l -> spec_all cs l = Some (rs, l') -> exists m', run_all cs m = Ret (rs, m') /\ rep m' l'.
Proof.
  revert m l rs. induction cs as [|c cs IH]; intros m l rs R Hs; cbn in *; [injection Hs as <- <-; by exists m|]. destruct (spec c l) as [[r l1]|] eqn:E; [|done]. cbn in Hs. destruct (spec_all cs l1) as [[rs1 l2]|] eqn:E2; [|done]. cbn in Hs. injection Hs as <- <-.
  destruct (call_rep c m l r l1 R E) as (m1 & -> & R1). obind. cbn [fst snd]. destruct (IH m1 l1 rs1 R1 E2) as (m2 & -> & R2). obind. by exists m2.
Qed.

(** * Properties *)

(** The maps are association lists in the order of insertion: as long as every call
    keeps its contract, any sequence of calls from an empty map on answers what the
    list answers and leaves the pairs of the list in its order: inserting a key again
    leaves its place, [linked_hash_map] keeps its value, [linked_map] takes the new one (and
    so [operator[]] of it forgets the value it is asked for), erasing a range goes up to its
    end, and no iterator, index or assertion fails. *)
Theorem linked_maps_refine cs rs l : spec_all cs [] = Some (rs, l) -> exists m, run_all cs empty_map = Ret (rs, m) /\ (list_ m).*2 = l /\ rep m l.
Proof. intros Hs. destruct (calls_rep cs empty_map [] rs l empty_rep Hs) as (m & E & R). exists m. split; [done|]. split; [apply (r_items _ _ R)|done]. Qed.
End Maps.
Arguments linked : clear implicits.
Arguments linked K {_ _} V.

Lemma linked_maps_refine_witness : exists m, run_all (K := Z) 0%Z [HAssign 4%Z 3%Z; HAssign 2%Z 1%Z; HAssign 4%Z 7%Z; LGet 4%Z; HInsert 5%Z 5%Z; HEraseRange 1 2; HFind 2%Z] empty_map = Ret ([Done; Done; Done; Value 0%Z; Inserted (5, 5)%Z true; Done; Pair None], m) /\ (list_ m).*2 = [(4, 0); (5, 5)]%Z.
Proof. destruct (linked_maps_refine (K := Z) 0%Z [HAssign 4%Z 3%Z; HAssign 2%Z 1%Z; HAssign 4%Z 7%Z; LGet 4%Z; HInsert 5%Z 5%Z; HEraseRange 1 2; HFind 2%Z] [Done; Done; Done; Value 0%Z; Inserted (5, 5)%Z true; Done; Pair None] [(4, 0); (5, 5)]%Z) as (m & E & L & _); [vm_compute; reflexivity|exists m; split; [exact E|exact L]]. Defined.
(** The entry behind the last key of the hash table is read. *)
Example equal_range_reads_end : (r ← insert (1, 1)%Z empty_map; equal_range (fun _ => None) 1%Z r.2) = Fault OutOfBounds.
Proof. vm_compute. reflexivity. Qed.
(** The range ends at the next key of the hash table, wherever that is in the list. *)
Example equal_range_other : (r ← insert (1, 1)%Z empty_map; r ← insert (2, 2)%Z r.2; r ← insert (3, 3)%Z r.2; Ret (equal_range_const (fun _ => Some 1%Z) 2%Z r.2)) = Ret (Some 1, Some 0)%nat.
Proof. vm_compute. reflexivity. Qed.
