(* ===== verification/ObserverList.v ===== *)
(** Lists of observers that may change while they are notified:
    [zutils/base/observer_list.h].  A removed observer leaves a null in the vector as long as
    there is an iterator, so that the indices of the iterators stay right; the last iterator
    that goes compacts the vector.  An iterator has a weak pointer to its list, which may be
    destroyed before it. *)
From Stdlib Require Import ZArith Lia Bool.
From stdpp Require Import base list numbers.
From S2P Require Import Prelude.

Inductive NotificationType := NOTIFY_ALL | NOTIFY_EXISTING_ONLY.

Section Lists.
Context {Obs : Type} `{EqDecision Obs}.

Record ObserverListBase := Observers { observers_ : list (option Obs); notify_depth_ : Z; type_ : NotificationType }.
(** [max_index_] is [None] for the largest [size_t], which no vector reaches. *)
Record Iterator := Iter { index_ : nat; max_index_ : option nat }.
(** A list, if it is not destroyed, with the iterators there are or were. *)
Record world := World { list_ : option ObserverListBase; iterators : list (option Iterator) }.
Definition set_observers (o : list (option Obs)) (l : ObserverListBase) : ObserverListBase := Observers o (notify_depth_ l) (type_ l).
Definition set_depth (n : Z) (l : ObserverListBase) : ObserverListBase := Observers (observers_ l) n (type_ l).

(** [std::find] in the vector. *)
Definition find (obs : option Obs) (l : ObserverListBase) : option nat := fst <$> list_find (fun x => x = obs) (observers_ l).
(** [NOTREACHED] logs, or ends the run where assertions are compiled in. *)
Definition AddObserver (dcheck_on : bool) (obs : Obs) (l : ObserverListBase) : outcome ObserverListBase :=
  match find (Some obs) l with
  | Some _ => DCHECK dcheck_on false (Ret l)
  | None => Ret (set_observers (observers_ l ++ [Some obs]) l)
  end.
Definition RemoveObserver (obs : Obs) (l : ObserverListBase) : ObserverListBase :=
  match find (Some obs) l with
  | None => l
  | Some it => set_observers (if negb (notify_depth_ l =? 0)%Z then <[it := None]> (observers_ l) else delete it (observers_ l)) l
  end.
Fixpoint HasObserver_loop (observer : Obs) (l : list (option Obs)) : bool :=
  match l with [] => false | x :: l => if bool_decide (x = Some observer) then true else HasObserver_loop observer l end.
Definition HasObserver (observer : Obs) (l : ObserverListBase) : bool := HasObserver_loop observer (observers_ l).
Definition Clear (l : ObserverListBase) : ObserverListBase :=
  set_observers (if negb (notify_depth_ l =? 0)%Z then replicate (length (observers_ l)) None else []) l.
Definition Compact (l : ObserverListBase) : ObserverListBase := set_observers (filter (fun x => x <> None) (observers_ l)) l.
Definition might_have_observers (l : ObserverListBase) : bool := negb (length (observers_ l) =? 0)%nat.
Definition Iterator_new (l : ObserverListBase) : Iterator * ObserverListBase :=
  (Iter 0%nat (match type_ l with NOTIFY_ALL => None | NOTIFY_EXISTING_ONLY => Some (length (observers_ l)) end), set_depth (notify_depth_ l + 1) l).
Definition Iterator_end (list : option ObserverListBase) : option ObserverListBase :=
  match list with
  | None => None
  | Some l => let l := set_depth (notify_depth_ l - 1) l in Some (if (notify_depth_ l =? 0)%Z then Compact l else l)
  end.
(** The loop of [GetNext] over what is left of the vector. *)
Fixpoint advance (n index max_index : nat) (observers : list (option Obs)) : outcome nat :=
  if (index <? max_index)%nat then
    match observers !! index with
    | None => Fault OutOfBounds
    | Some (Some _) => Ret index
    | Some None => match n with O => Fault OutOfFuel | S n => advance n (S index) max_index observers end
    end
  else Ret index.
Definition GetNext (it : Iterator) (list : option ObserverListBase) : outcome (option Obs * Iterator) :=
  match list with
  | None => Ret (None, it)
  | Some l =>
      let max_index := match max_index_ it with None => length (observers_ l) | Some n => Nat.min n (length (observers_ l)) end in
      i ← advance (length (observers_ l)) (index_ it) max_index (observers_ l);
      if (i <? max_index)%nat then
        match observers_ l !! i with
        | Some obs => Ret (obs, Iter (S i) (max_index_ it))
        | None => Fault OutOfBounds
        end
      else Ret (None, Iter i (max_index_ it))
  end.
(** [~ObserverList] *)
Definition ObserverList_end (check_empty dcheck_on : bool) (l : ObserverListBase) : outcome unit :=
  if check_empty then DCHECK dcheck_on (length (observers_ (Compact l)) =? 0)%nat (Ret tt) else Ret tt.

(** What is done with a list and its iterators. *)
Inductive call := Add (o : Obs) | Remove (o : Obs) | Has (o : Obs) | ClearAll | NewIterator | Next (k : nat) | EndIterator (k : nat) | Destroy.
Inductive answer := Done | Bool (b : bool) | Next_is (o : option Obs).
Definition with_list {A} (w : world) (k : ObserverListBase -> outcome A) : outcome A := match list_ w with Some l => k l | None => Fault OutOfBounds end.
Definition run (dcheck_on : bool) (c : call) (w : world) : outcome (answer * world) :=
  match c with
  | Add o => with_list w (fun l => l ← AddObserver dcheck_on o l; Ret (Done, World (Some l) (iterators w)))
  | Remove o => with_list w (fun l => Ret (Done, World (Some (RemoveObserver o l)) (iterators w)))
  | Has o => with_list w (fun l => Ret (Bool (HasObserver o l), w))
  | ClearAll => with_list w (fun l => Ret (Done, World (Some (Clear l)) (iterators w)))
  | NewIterator => with_list w (fun l => let '(it, l) := Iterator_new l in Ret (Done, World (Some l) (iterators w ++ [Some it])))
  | Next k =>
      match iterators w !! k with
      | Some (Some it) => r ← GetNext it (list_ w); Ret (Next_is r.1, World (list_ w) (<[k := Some r.2]> (iterators w)))
      | _ => Fault OutOfBounds
      end
  | EndIterator k =>
      match iterators w !! k with
      | Some (Some _) => Ret (Done, World (Iterator_end (list_ w)) (<[k := None]> (iterators w)))
      | _ => Fault OutOfBounds
      end
  | Destroy => with_list w (fun l => _ ← ObserverList_end false dcheck_on l; Ret (Done, World None (iterators w)))
  end.

(** * The specification *)
(** The observers, and for each iterator those it has still to notify. *)
Record abstract := Abstract { members : option (list Obs); pending : list (option (list Obs)) }.
Definition each (f : list Obs -> list Obs) (p : list (option (list Obs))) : list (option (list Obs)) := map (option_map f) p.
Definition without (o : Obs) (l : list Obs) : list Obs := filter (fun x => x <> o) l.
(** [None] where the contract of the call is broken: the list must be there, an observer
    is added once, an iterator must be there. *)
Definition spec (t : NotificationType) (c : call) (a : abstract) : option (answer * abstract) :=
  match c, members a with
  | Add o, Some l => if decide (o ∈ l) then None else Some (Done, Abstract (Some (l ++ [o])) (match t with NOTIFY_ALL => each (fun q => q ++ [o]) (pending a) | NOTIFY_EXISTING_ONLY => pending a end))
  | Remove o, Some l => Some (Done, Abstract (Some (without o l)) (each (without o) (pending a)))
  | Has o, Some l => Some (Bool (bool_decide (o ∈ l)), a)
  | ClearAll, Some _ => Some (Done, Abstract (Some []) (each (fun _ => []) (pending a)))
  | NewIterator, Some l => Some (Done, Abstract (Some l) (pending a ++ [Some l]))
  | Destroy, Some _ => Some (Done, Abstract None (each (fun _ => []) (pending a)))
  | Next k, _ =>
      match pending a !! k with
      | Some (Some q) => Some (Next_is (head q), Abstract (members a) (<[k := Some (tail q)]> (pending a)))
      | _ => None
      end
  | EndIterator k, _ => match pending a !! k with Some (Some _) => Some (Done, Abstract (members a) (<[k := None]> (pending a))) | _ => None end
  | _, None => None
  end.
Fixpoint spec_all (t : NotificationType) (cs : list call) (a : abstract) : option (list answer * abstract) :=
  match cs with [] => Some ([], a) | c :: cs => r ← spec t c a; rs ← spec_all t cs r.2; Some (r.1 :: rs.1, rs.2) end.
Fixpoint run_all (dcheck_on : bool) (cs : list call) (w : world) : outcome (list answer * world) :=
  match cs with [] => Ret ([], w) | c :: cs => r ← run dcheck_on c w; rs ← run_all dcheck_on cs r.2; Ret (r.1 :: rs.1, rs.2) end.

(** * The vector and the lists it stands for *)
Definition alive (l : list (option Obs)) : list Obs := omap id l.
Definition kill (o : Obs) (x : option Obs) : option Obs := if decide (x = Some o) then None else x.
Definition live (its : list (option Iterator)) : nat := length (filter (fun x => x <> None) its).
(** How far an iterator goes. *)
Definition bound (it : Iterator) (obs : list (option Obs)) : nat := match max_index_ it with None => length obs | Some n => n end.
Definition it_ok (t : NotificationType) (obs : list (option Obs)) (it : Iterator) (q : list Obs) : Prop :=
  match max_index_ it with None => t = NOTIFY_ALL | Some _ => t = NOTIFY_EXISTING_ONLY end /\
  (index_ it <= bound it obs <= length obs)%nat /\ q = alive (drop (index_ it) (take (bound it obs) obs)).
Definition iter_rel (t : NotificationType) (lst : option ObserverListBase) (it : option Iterator) (q : option (list Obs)) : Prop :=
  match it, q with
  | None, None => True
  | Some it, Some q => match lst with None => q = [] | Some l => it_ok t (observers_ l) it q end
  | _, _ => False
  end.
Record rel (t : NotificationType) (w : world) (a : abstract) : Prop := {
  l_list : match list_ w, members a with
    | None, None => True
    | Some l, Some ms => alive (observers_ l) = ms /\ NoDup ms /\ type_ l = t /\ notify_depth_ l = Z.of_nat (live (iterators w))
    | _, _ => False
    end;
  l_iters : Forall2 (iter_rel t (list_ w)) (iterators w) (pending a)
}.

Lemma alive_cons x l : alive (x :: l) = match x with Some o => o :: alive l | None => alive l end.
Proof. by destruct x. Qed.
Lemma alive_app l k : alive (l ++ k) = alive l ++ alive k.
Proof. apply omap_app. Qed.
Lemma in_alive o l : o ∈ alive l <-> Some o ∈ l.
Proof. unfold alive. rewrite list_elem_of_omap. split; [intros (x & Hx & Ex); cbn in Ex; by subst|intros H; by exists (Some o)]. Qed.
Lemma alive_kill o l : alive (map (kill o) l) = without o (alive l).
Proof.
  induction l as [|x l IH]; [done|]. cbn [map]. rewrite !alive_cons, IH. unfold kill, without. destruct x as [p|]; [|by rewrite decide_False by done]. rewrite filter_cons. repeat case_decide; congruence.
Qed.
Lemma without_other o l : o ∉ l -> without o l = l.
Proof. intros H. unfold without. induction l as [|x l IH]; [done|]. apply not_elem_of_cons in H as [Hx H]. rewrite filter_cons_True by congruence. by rewrite IH. Qed.
(** The entry of an observer. *)
Lemma find_cases o l : NoDup (alive (observers_ l)) ->
  (exists i, find (Some o) l = Some i /\ (i < length (observers_ l))%nat /\ <[i := None]> (observers_ l) = map (kill o) (observers_ l) /\ alive (delete i (observers_ l)) = without o (alive (observers_ l)) /\ o ∈ alive (observers_ l)) \/
  find (Some o) l = None /\ (o ∉ alive (observers_ l)) /\ map (kill o) (observers_ l) = observers_ l.
Proof.
  unfold find. set (v := observers_ l). clearbody v. intros Hnd. assert (forall k, o ∉ alive k -> map (kill o) k = k) as Hid.
  { intros k Hk. induction k as [|x k IH]; [done|]. cbn [map]. f_equal.
    - unfold kill. rewrite decide_False; [done|]. intros ->. apply Hk. rewrite alive_cons. by left.
    - apply IH. intros H. apply Hk. rewrite alive_cons. destruct x; [by right|done]. }
  destruct (list_find _ v) as [[i x]|] eqn:E.
  - left. apply list_find_Some in E as (Hi & -> & _). exists i. split; [done|]. pose proof (lookup_lt_Some _ _ _ Hi) as Hlt. split; [done|]. rewrite delete_take_drop, insert_take_drop by done. pose proof (take_drop_middle v i (Some o) Hi) as Ev.
    assert ((o ∉ alive (take i v)) /\ (o ∉ alive (drop (S i) v))) as [H1 H2].
    { rewrite <- Ev, alive_app, alive_cons in Hnd. apply list.NoDup_app in Hnd as (N1 & N2 & N3). apply list.NoDup_cons in N3 as [N3 _]. split; [intros H; apply (N2 o H); by left|done]. }
    split; [|split].
    + transitivity (map (kill o) (take i v ++ Some o :: drop (S i) v)); [|by rewrite Ev]. rewrite map_app. cbn [map]. unfold kill at 2. rewrite decide_True by done. by rewrite !Hid.
    + transitivity (without o (alive (take i v ++ Some o :: drop (S i) v))); [|by rewrite Ev]. rewrite !alive_app, alive_cons. unfold without. rewrite list.filter_app, filter_cons_False by (intros H; by apply H). fold (without o (alive (take i v))). fold (without o (alive (drop (S i) v))). by rewrite !without_other.
    + apply in_alive. by eapply list_elem_of_lookup_2.
  - right. split; [done|]. apply list_find_None in E. assert (o ∉ alive v) as H; [|by split; [|apply Hid]]. rewrite in_alive. intros H. rewrite List.Forall_forall in E. apply list_elem_of_In in H. by apply (E (Some o) H).
Qed.
(** A change of entries in place. *)
Lemma it_ok_map t obs it q f (g : list Obs -> list Obs) : (forall l, alive (map f l) = g (alive l)) -> it_ok t obs it q -> it_ok t (map f obs) it (g q).
Proof.
  intros Hf (H1 & H2 & ->). assert (bound it (map f obs) = bound it obs) as Eb by (unfold bound; by rewrite length_map). split; [done|]. rewrite Eb, length_map. split; [done|]. by rewrite firstn_map, skipn_map, Hf.
Qed.
(** An observer at the end. *)
Lemma it_ok_add t obs it q o : it_ok t obs it q -> it_ok t (obs ++ [Some o]) it (match t with NOTIFY_ALL => q ++ [o] | NOTIFY_EXISTING_ONLY => q end).
Proof.
  unfold it_ok, bound. destruct (max_index_ it) as [n|]; intros (-> & H2 & ->); rewrite length_app; cbn [length]; (split; [done|]).
  - split; [lia|]. by rewrite take_app_le by lia.
  - split; [lia|]. rewrite !take_ge by (rewrite ?length_app; cbn; lia). rewrite drop_app_le by lia. by rewrite alive_app.
Qed.
Lemma live_app its its' : live (its ++ its') = (live its + live its')%nat.
Proof. unfold live. by rewrite list.filter_app, length_app. Qed.
Lemma live_insert its k it x : its !! k = Some (Some it) -> live (<[k := x]> its) = (live its - 1 + match x with Some _ => 1 | None => 0 end)%nat /\ (0 < live its)%nat.
Proof.
  intros Hk. pose proof (take_drop_middle its k (Some it) Hk) as E. rewrite insert_take_drop by (by eapply lookup_lt_Some). assert (forall y l, live (y :: l) = (match y with Some _ => 1 | None => 0 end + live l)%nat) as Hc by (intros [y|] l; unfold live; [by rewrite filter_cons_True by done|by rewrite filter_cons_False by (intros H; by apply H)]).
  assert (live its = live (take k its) + S (live (drop (S k) its)))%nat as E2 by (rewrite <- E at 1; rewrite live_app, Hc; lia). rewrite live_app, Hc. destruct x; lia.
Qed.
Lemma live_none its : live its = 0%nat -> forall k it, its !! k <> Some (Some it).
Proof. intros H k it Hk. destruct (live_insert its k it None Hk) as [_ Hp]. lia. Qed.
(** Where no iterator is live, nothing is claimed of the vector. *)
Lemma no_iters t lst lst' its p (f : list Obs -> list Obs) : live its = 0%nat -> Forall2 (iter_rel t lst) its p -> Forall2 (iter_rel t lst') its (each f p).
Proof.
  intros Hl HF. induction HF as [|it q its p Hq HF IH]; [constructor|]. unfold live in Hl. rewrite filter_cons in Hl. destruct it as [it|]; [by case_decide|]. destruct q as [q|]; [done|]. constructor; [done|]. apply IH. unfold live. by case_decide.
Qed.
Lemma iters_map t lst lst' its p f : (forall it q, iter_rel t lst (Some it) (Some q) -> iter_rel t lst' (Some it) (Some (f q))) -> Forall2 (iter_rel t lst) its p -> Forall2 (iter_rel t lst') its (each f p).
Proof.
  intros Hf HF. induction HF as [|it q its p Hq HF IH]; [constructor|]. constructor; [|done]. destruct it as [it|], q as [q|]; try done. by apply Hf.
Qed.
Lemma each_id (p : list (option (list Obs))) : each (fun q => q) p = p.
Proof. unfold each. induction p as [|q p IH]; [done|]. cbn [map]. rewrite IH. by destruct q. Qed.
Lemma alive_nulls n : alive (replicate n None) = [].
Proof. by induction n. Qed.
Lemma alive_compact l : alive (filter (fun x => x <> None) l) = alive l.
Proof. induction l as [|x l IH]; [done|]. rewrite filter_cons, alive_cons. destruct x as [o|]; case_decide; try done. by rewrite alive_cons, IH. Qed.
Lemma has_loop o l : HasObserver_loop o l = bool_decide (o ∈ alive l).
Proof.
  induction l as [|x l IH]; [done|]. cbn [HasObserver_loop]. rewrite IH, alive_cons. destruct (decide (x = Some o)) as [-> |E].
  - rewrite bool_decide_eq_true_2 by done. symmetry. apply bool_decide_eq_true_2. by left.
  - rewrite (bool_decide_eq_false_2 (x = Some o)) by done. apply bool_decide_ext. destruct x as [p|]; [|done]. rewrite elem_of_cons. split; [by right|]. intros [Ep|Hin]; [congruence|done].
Qed.
(** The next entry that is not null; the vector has as much fuel as entries. *)
Lemma advance_spec n i b obs : (i <= b <= length obs)%nat -> (b - i <= n)%nat -> exists j, advance n i b obs = Ret j /\ (i <= j <= b)%nat /\
  alive (drop i (take b obs)) = alive (drop j (take b obs)) /\ (j < b -> exists o, obs !! j = Some (Some o) /\ alive (drop j (take b obs)) = o :: alive (drop (S j) (take b obs)))%nat.
Proof.
  revert i. induction n as [|n IH]; intros i Hb Hn; cbn [advance]; destruct (Nat.ltb_spec i b) as [Hi|Hi]; try lia.
  - exists i. split; [done|]. split; [lia|]. split; [done|lia].
  - destruct (lookup_lt_is_Some_2 obs i ltac:(lia)) as [x Hx]. rewrite Hx. assert (take b obs !! i = Some x) as Hx' by (by rewrite lookup_take_lt by lia). pose proof (drop_S _ _ _ Hx') as Ed. destruct x as [o|].
    + exists i. split; [done|]. split; [lia|]. split; [done|]. intros _. exists o. split; [done|]. by rewrite Ed, alive_cons.
    + destruct (IH (S i) ltac:(lia) ltac:(lia)) as (j & E & Hj & Ea & Hj2). exists j. split; [done|]. split; [lia|]. split; [by rewrite Ed, alive_cons|done].
  - exists i. split; [done|]. split; [lia|]. split; [done|lia].
Qed.
Lemma GetNext_rel t lst it q : iter_rel t lst (Some it) (Some q) -> exists it', GetNext it lst = Ret (head q, it') /\ iter_rel t lst (Some it') (Some (tail q)).
Proof.
  destruct lst as [l|]; cbn [iter_rel GetNext].
  - intros (H1 & H2 & ->). set (b := bound it (observers_ l)) in *. assert (match max_index_ it with None => length (observers_ l) | Some n => Nat.min n (length (observers_ l)) end = b) as -> by (unfold b, bound in *; destruct (max_index_ it); lia).
    destruct (advance_spec (length (observers_ l)) (index_ it) b (observers_ l) H2 ltac:(lia)) as (j & -> & Hj & -> & Hjo). obind. destruct (Nat.ltb_spec j b) as [Hlt|Hge].
    + destruct (Hjo Hlt) as (o & Ho & ->). rewrite Ho. eexists. split; [done|]. split; [done|]. cbn. change (bound (Iter (S j) (max_index_ it)) (observers_ l)) with b. split; [lia|done].
    + assert (alive (drop j (take b (observers_ l))) = []) as -> by (rewrite drop_ge by (rewrite length_take; lia); done). eexists. split; [done|]. split; [done|]. cbn. change (bound (Iter j (max_index_ it)) (observers_ l)) with b. split; [lia|]. by rewrite drop_ge by (rewrite length_take; lia).
  - intros ->. by exists it.
Qed.
Lemma with_list_cases w a (t : NotificationType) ms : rel t w a -> members a = Some ms -> exists l, list_ w = Some l /\ alive (observers_ l) = ms /\ NoDup ms /\ type_ l = t /\ notify_depth_ l = Z.of_nat (live (iterators w)).
Proof. intros [H _] Hm. rewrite Hm in H. destruct (list_ w) as [l|]; [|done]. by exists l. Qed.
Ltac proj := cbn [list_ members iterators pending observers_ set_observers set_depth notify_depth_ type_ Compact Clear].
Lemma call_rel dcheck_on t c w a r a' : rel t w a -> spec t c a = Some (r, a') -> exists w', run dcheck_on c w = Ret (r, w') /\ rel t w' a'.
Proof.
  intros R Hs. pose proof (l_iters _ _ _ R) as HF. unfold spec in Hs. destruct c as [o|o|o| | |k|k|].
  1-5, 8: destruct (members a) as [ms|] eqn:Em; [|done]; destruct (with_list_cases w a t ms R Em) as (l & El & Ha & Hnd & Ht & Hd); unfold run, with_list; rewrite El in HF |- *.
  - case_decide as Ho; [done|]. injection Hs as <- <-. unfold AddObserver. rewrite <- Ha in Hnd, Ho. destruct (find_cases o l Hnd) as [(i & _ & _ & _ & _ & Hin)|(-> & _)]; [done|]. obind. eexists. split; [done|]. split; proj.
    + rewrite alive_app, Ha. split; [done|]. split; [|done]. rewrite <- Ha. apply list.NoDup_app. split; [done|]. split; [|apply list.NoDup_singleton]. intros x Hx Hx'. apply list_elem_of_singleton in Hx' as ->. done.
    + destruct t; [|rewrite <- (each_id (pending a))]; (eapply iters_map; [|exact HF]); intros it q Hq; exact (it_ok_add _ _ it q o Hq).
  - injection Hs as <- <-. eexists. split; [done|]. rewrite <- Ha in Hnd. unfold RemoveObserver. destruct (find_cases o l Hnd) as [(i & -> & Hi & Ei & Ed & _)|(-> & Ho & Eid)].
    + destruct (Z.eqb_spec (notify_depth_ l) 0) as [Hz|Hz]; cbn [negb]; split; proj.
      * rewrite Ed, Ha. split; [done|]. split; [|done]. apply list.NoDup_filter. by rewrite <- Ha.
      * apply (no_iters t (Some l)); [lia|done].
      * rewrite Ei, alive_kill, Ha. split; [done|]. split; [|done]. apply list.NoDup_filter. by rewrite <- Ha.
      * eapply iters_map; [|exact HF]. intros it q Hq. cbn [iter_rel]. proj. rewrite Ei. apply it_ok_map; [apply alive_kill|exact Hq].
    + split; proj.
      * assert (without o ms = ms) as -> by (apply without_other; by rewrite <- Ha). split; [done|]. split; [first [done|by rewrite <- Ha]|done].
      * eapply iters_map; [|exact HF]. intros it q Hq. cbn. rewrite <- Eid. apply it_ok_map; [apply alive_kill|exact Hq].
  - injection Hs as <- <-. exists w. split; [|done]. unfold HasObserver. by rewrite has_loop, Ha.
  - injection Hs as <- <-. eexists. split; [done|]. unfold Clear. destruct (Z.eqb_spec (notify_depth_ l) 0) as [Hz|Hz]; cbn [negb]; split; proj.
    + split; [done|]. split; [apply NoDup_nil_2|done].
    + apply (no_iters t (Some l)); [lia|done].
    + rewrite alive_nulls. split; [done|]. split; [apply NoDup_nil_2|done].
    + eapply iters_map; [|exact HF]. intros it q Hq. cbn. assert (replicate (length (observers_ l)) None = map (fun _ => None) (observers_ l)) as -> by (clear; induction (observers_ l) as [|x k IH]; [done|]; cbn; by f_equal).
      apply (it_ok_map t (observers_ l) it q (fun _ => None) (fun _ => [])); [|exact Hq]. intros k. induction k as [|x k IH]; [done|]. cbn [map]. by rewrite alive_cons.
  - injection Hs as <- <-. unfold Iterator_new. eexists. split; [done|]. split; proj.
    + rewrite Ha. split; [done|]. split; [first [done|by rewrite <- Ha]|]. split; [done|]. rewrite live_app. unfold live at 2. rewrite filter_cons_True by done. cbn. lia.
    + apply Forall2_app; [|constructor; [|constructor]].
      * rewrite <- (each_id (pending a)). eapply iters_map; [|exact HF]. intros it q Hq. exact Hq.
      * cbn. unfold it_ok, bound. cbn. rewrite Ht. destruct t; cbn; (split; [done|]); (split; [lia|]); by rewrite take_ge by lia.
  - injection Hs as <- <-. unfold ObserverList_end. obind. eexists. split; [done|]. split; proj; [done|]. eapply iters_map; [|exact HF]. done.
  - destruct (pending a !! k) as [[q|]|] eqn:Ek; try done. injection Hs as <- <-. destruct (Forall2_lookup_r _ _ _ _ _ HF Ek) as ([it|] & Hk & Hq); [|done]. unfold run. rewrite Hk. destruct (GetNext_rel t (list_ w) it q Hq) as (it' & -> & Hq'). obind. cbn [fst snd]. eexists. split; [done|]. split; proj.
    + pose proof (l_list _ _ _ R) as HL. destruct (list_ w) as [l|], (members a) as [ms|]; try done. destruct HL as (? & ? & ? & Hd). repeat (split; [done|]). destruct (live_insert (iterators w) k it (Some it') Hk). lia.
    + by apply Forall2_insert.
  - destruct (pending a !! k) as [[q|]|] eqn:Ek; try done. injection Hs as <- <-. destruct (Forall2_lookup_r _ _ _ _ _ HF Ek) as ([it|] & Hk & Hq); [|done]. unfold run. rewrite Hk. eexists. split; [done|]. destruct (live_insert (iterators w) k it None Hk) as [Hl1 Hl2].
    pose proof (l_list _ _ _ R) as HL. destruct (list_ w) as [l|] eqn:El, (members a) as [ms|]; try done.
    + destruct HL as (Ha & Hnd & Ht & Hd). assert (Forall2 (iter_rel t (Some l)) (<[k := None]> (iterators w)) (<[k := None]> (pending a))) as HF' by (by apply Forall2_insert). cbn [Iterator_end notify_depth_ set_depth]. destruct (Z.eqb_spec (notify_depth_ l - 1) 0) as [Hz|Hz]; split; proj.
      * rewrite alive_compact, Ha. split; [done|]. split; [first [done|by rewrite <- Ha]|]. split; [done|]. lia.
      * rewrite <- (each_id (<[k := None]> (pending a))). apply (no_iters t (Some l)); [lia|done].
      * rewrite Ha. split; [done|]. split; [first [done|by rewrite <- Ha]|]. split; [done|]. lia.
      * rewrite <- (each_id (<[k := None]> (pending a))). eapply iters_map; [|exact HF']. intros it' q' Hq'. exact Hq'.
    + split; proj; [done|]. by apply Forall2_insert.
Qed.
Definition start (t : NotificationType) : world := World (Some (Observers [] 0 t)) [].
Lemma calls_rel dcheck_on t cs w a rs a' : rel t w a -> spec_all t cs a = Some (rs, a') -> exists w', run_all dcheck_on cs w = Ret (rs, w') /\ rel t w' a'.
Proof.
  revert w a rs. induction cs as [|c cs IH]; intros w a rs R Hs; cbn in *; [injection Hs as <- <-; by exists w|]. destruct (spec t c a) as [[r a1]|] eqn:E; [|done]. cbn in Hs. destruct (spec_all t cs a1) as [[rs1 a2]|] eqn:E2; [|done]. cbn in Hs. injection Hs as <- <-.
  destruct (call_rel dcheck_on t c w a r a1 R E) as (w1 & -> & R1). obind. cbn [fst snd]. destruct (IH w1 a1 rs1 R1 E2) as (w2 & -> & R2). obind. by exists w2.
Qed.

(** * Properties *)

(** C28: a list of observers may change under its iterators: as long as observers are added
    once, every sequence of calls, with any number of iterators that overlap, answers what
    the specification answers, in which an iterator is the queue of the observers it has
    still to notify: those that were in the list when it was made, without those removed
    since, and, unless the list notifies existing observers only, with those added
    since, in their order; and nothing more once the list is destroyed. *)
Theorem observers_refine dcheck_on t cs rs a : spec_all t cs (Abstract (Some []) []) = Some (rs, a) ->
  exists w, run_all dcheck_on cs (start t) = Ret (rs, w) /\ rel t w a.
Proof. intros Hs. eapply calls_rel; [|exact Hs]. split; cbn; [|constructor]. split; [done|]. split; [apply NoDup_nil_2|done]. Qed.
End Lists.
Arguments world : clear implicits.
Arguments abstract : clear implicits.
Arguments call : clear implicits.
Arguments answer : clear implicits.

(** One observer is removed and one added while two iterators are at work. *)
Lemma observers_refine_witness : exists w, run_all true [Add 1%nat; Add 2%nat; Add 3%nat; NewIterator; Next 0; NewIterator; Remove 2%nat; Add 4%nat; Next 0; Next 0; Next 0; EndIterator 0; Next 1; EndIterator 1; Has 2%nat] (start NOTIFY_ALL)
  = Ret ([Done; Done; Done; Done; Next_is (Some 1%nat); Done; Done; Done; Next_is (Some 3%nat); Next_is (Some 4%nat); Next_is None; Done; Next_is (Some 1%nat); Done; Bool false], w) /\ list_ w = Some (Observers [Some 1%nat; Some 3%nat; Some 4%nat] 0 NOTIFY_ALL).
Proof.
  destruct (observers_refine true NOTIFY_ALL [Add 1%nat; Add 2%nat; Add 3%nat; NewIterator; Next 0; NewIterator; Remove 2%nat; Add 4%nat; Next 0; Next 0; Next 0; EndIterator 0; Next 1; EndIterator 1; Has 2%nat] [Done; Done; Done; Done; Next_is (Some 1%nat); Done; Done; Done; Next_is (Some 3%nat); Next_is (Some 4%nat); Next_is None; Done; Next_is (Some 1%nat); Done; Bool false] (Abstract (Some [1%nat; 3%nat; 4%nat]) [None; None])) as (w & E & _); [vm_compute; reflexivity|]. exists w. split; [exact E|]. vm_compute in E. injection E as <-. reflexivity.
Defined.
