(* ===== verification/SafeMath.v ===== *)
(** Checked arithmetic on integers: [zutils/base/numerics/safe_conversions.h],
    [safe_conversions_impl.h], [safe_math.h] and [safe_math_impl.h], for the eight integer
    types; floating point is left out.  A template's type argument is an argument.  [None]
    is a division that traps: by zero, or of the least number by minus one.  An [int] that
    overflows otherwise wraps around. *)
From Stdlib Require Import ZArith Lia Bool.
From stdpp Require Import base list numbers.
From S2P Require Import Prelude.

Open Scope Z_scope.

(** * Integer types and [std::numeric_limits] *)
Inductive type := int8 | uint8 | int16 | uint16 | int32 | uint32 | int64 | uint64.
#[export] Instance type_eq_dec : EqDecision type.
Proof. solve_decision. Defined.
Definition sizeof (t : type) : Z := match t with int8 | uint8 => 1 | int16 | uint16 => 2 | int32 | uint32 => 4 | int64 | uint64 => 8 end.
Definition bits (t : type) : Z := 8 * sizeof t.
Definition is_signed (t : type) : bool := match t with int8 | int16 | int32 | int64 => true | _ => false end.
Definition min (t : type) : Z := if is_signed t then - 2 ^ (bits t - 1) else 0.
Definition max (t : type) : Z := if is_signed t then 2 ^ (bits t - 1) - 1 else 2 ^ bits t - 1.
(** [static_cast<t>(x)] *)
Definition cast (t : type) (x : Z) : Z := if is_signed t then swrap (bits t) x else uwrap (bits t) x.

(** * [safe_conversions_impl.h] *)
Definition MaxExponent (t : type) : Z := sizeof t * 8 + 1 - (if is_signed t then 1 else 0).
(** [NUMERIC_RANGE_CONTAINED] *)
Definition StaticDstRangeRelationToSrcRange (dst src : type) : bool :=
  match is_signed dst, is_signed src with
  | true, true | false, false => MaxExponent src <=? MaxExponent dst
  | true, false => MaxExponent src <? MaxExponent dst
  | false, true => false
  end.
Definition RangeConstraint : Type := Z.
Definition RANGE_VALID : RangeConstraint := 0.
Definition RANGE_UNDERFLOW : RangeConstraint := 1.
Definition RANGE_OVERFLOW : RangeConstraint := 2.
Definition RANGE_INVALID : RangeConstraint := Z.lor RANGE_UNDERFLOW RANGE_OVERFLOW.
Definition GetRangeConstraint (is_in_upper_bound is_in_lower_bound : bool) : RangeConstraint :=
  Z.lor (if is_in_upper_bound then 0 else RANGE_OVERFLOW) (if is_in_lower_bound then 0 else RANGE_UNDERFLOW).
Definition DstRangeRelationToSrcRange (dst src : type) (value : Z) : RangeConstraint :=
  if StaticDstRangeRelationToSrcRange dst src then RANGE_VALID
  else
    match is_signed dst, is_signed src with
    | true, true => GetRangeConstraint (value <=? max dst) (min dst <=? value)
    | false, false => GetRangeConstraint (value <=? max dst) true
    | true, false => if sizeof src <? sizeof dst then RANGE_VALID else GetRangeConstraint (value <=? cast src (max dst)) true
    | false, true =>
        if MaxExponent src <=? MaxExponent dst then GetRangeConstraint true (0 <=? value)
        else GetRangeConstraint (value <=? cast src (max dst)) (0 <=? value)
    end.

(** * [safe_conversions.h] *)
Definition IsValueInRangeForNumericType (dst src : type) (value : Z) : bool := DstRangeRelationToSrcRange dst src value =? RANGE_VALID.
Definition checked_cast (dst src : type) (value : Z) : outcome Z :=
  guard_or (IsValueInRangeForNumericType dst src value) AssertFail (Ret (cast dst value)).
Definition saturated_cast (dst src : type) (value : Z) : outcome Z :=
  let r := DstRangeRelationToSrcRange dst src value in
  if r =? RANGE_VALID then Ret (cast dst value)
  else if r =? RANGE_UNDERFLOW then Ret (min dst)
  else if r =? RANGE_OVERFLOW then Ret (max dst)
  else Fault AssertFail.

(** * [safe_math_impl.h] *)
(** On a value of the unsigned type of the size of [t].  In [CheckedAdd] and [CheckedSub] the
    argument of the first is an expression, of the promoted type. *)
Definition HasSignBit (t : type) (x : Z) : bool := Z.testbit x (bits t - 1).
(** What the operators of the language work on: types narrower than [int] become [int]. *)
Definition promote (t : type) : type := if sizeof t <? 4 then int32 else t.
Definition BinaryComplement (t : type) (x : Z) : Z := uwrap (bits t) (Z.lnot x).
Definition CheckedAdd (t : type) (x y : Z) : Z * RangeConstraint :=
  let ux := uwrap (bits t) x in let uy := uwrap (bits t) y in
  let uresult := uwrap (bits t) (ux + uy) in
  (cast t uresult,
   if is_signed t then
     if HasSignBit (promote t) (BinaryComplement (promote t) (Z.land (Z.lxor uresult ux) (Z.lxor uresult uy))) then RANGE_VALID
     else if HasSignBit t uresult then RANGE_OVERFLOW else RANGE_UNDERFLOW
   else if y <=? BinaryComplement t x then RANGE_VALID else RANGE_OVERFLOW).
Definition CheckedSub (t : type) (x y : Z) : Z * RangeConstraint :=
  let ux := uwrap (bits t) x in let uy := uwrap (bits t) y in
  let uresult := uwrap (bits t) (ux - uy) in
  (cast t uresult,
   if is_signed t then
     if HasSignBit (promote t) (BinaryComplement (promote t) (Z.land (Z.lxor uresult ux) (Z.lxor ux uy))) then RANGE_VALID
     else if HasSignBit t uresult then RANGE_OVERFLOW else RANGE_UNDERFLOW
   else if y <=? x then RANGE_VALID else RANGE_UNDERFLOW).
Definition TwiceWiderInteger (t : type) : type :=
  match t with int8 => int16 | uint8 => uint16 | int16 => int32 | uint16 => uint32 | int32 => int64 | _ => uint64 end.
(** [x / y] and [x % y]; the least number of a type narrower than [int] by minus one is no trap. *)
Definition div (t : type) (x y : Z) : option Z := if (y =? 0) || (x =? min (promote t)) && is_signed t && (y =? -1) then None else Some (Z.quot x y).
Definition rem (t : type) (x y : Z) : option Z := if (y =? 0) || (x =? min (promote t)) && is_signed t && (y =? -1) then None else Some (Z.rem x y).
(** The three definitions, chosen by the size and the sign of the type. *)
Definition CheckedMul (t : type) (x y : Z) : option (Z * RangeConstraint) :=
  if sizeof t * 2 <=? 8 then
    let intermediate := TwiceWiderInteger t in
    let tmp := cast intermediate (cast intermediate x * cast intermediate y) in
    Some (cast t tmp, DstRangeRelationToSrcRange t intermediate tmp)
  else if is_signed t then
    if (x =? 0) && (y =? 0) then Some (RANGE_VALID, RANGE_VALID)
    else
      validity ← (if 0 <? x then
                    if 0 <? y then q ← div t (max t) y; Some (if x <=? q then RANGE_VALID else RANGE_OVERFLOW)
                    else q ← div t (min t) x; Some (if q <=? y then RANGE_VALID else RANGE_UNDERFLOW)
                  else
                    if 0 <? y then q ← div t (min t) y; Some (if q <=? x then RANGE_VALID else RANGE_UNDERFLOW)
                    else q ← div t (max t) x; Some (if q <=? y then RANGE_VALID else RANGE_OVERFLOW));
      Some (cast t (x * y), validity)
  else
    validity ← (if y =? 0 then Some RANGE_VALID else q ← div t (max t) y; Some (if x <=? q then RANGE_VALID else RANGE_OVERFLOW));
    Some (cast t (x * y), validity).
Definition CheckedDiv (t : type) (x y : Z) : option (Z * RangeConstraint) :=
  if is_signed t && (x =? min t) && (y =? cast t (-1)) then Some (min t, RANGE_OVERFLOW)
  else q ← div t x y; Some (q, RANGE_VALID).
Definition CheckedMod (t : type) (x y : Z) : option (Z * RangeConstraint) :=
  r ← rem t x y; Some (r, if is_signed t then if 0 <? y then RANGE_VALID else RANGE_INVALID else RANGE_VALID).
Definition SignedIntegerForSize (t : type) : type := match t with uint8 => int8 | uint16 => int16 | uint32 => int32 | uint64 => int64 | _ => t end.
Definition CheckedNeg (t : type) (value : Z) : Z * RangeConstraint :=
  if is_signed t then (cast t (- value), if negb (value =? min t) then RANGE_VALID else RANGE_OVERFLOW)
  else (cast t (- cast (SignedIntegerForSize t) value), if negb (value =? 0) then RANGE_UNDERFLOW else RANGE_VALID).
Definition CheckedAbs (t : type) (value : Z) : Z * RangeConstraint :=
  if is_signed t then (cast t (Z.abs value), if negb (value =? min t) then RANGE_VALID else RANGE_OVERFLOW)
  else (value, RANGE_VALID).

(** ** [CheckedNumericState] and [CheckedNumeric] *)
Record CheckedNumeric := Checked { value_ : Z; validity_ : RangeConstraint }.
(** The constructors: of type [t] from a value of type [src]. *)
Definition state_of (t src : type) (value : Z) (validity : RangeConstraint) : CheckedNumeric := Checked (cast t value) (Z.lor validity (DstRangeRelationToSrcRange t src value)).
Definition state_of_value (t src : type) (value : Z) : CheckedNumeric := Checked (cast t value) (DstRangeRelationToSrcRange t src value).
Definition CheckedNumeric_new : CheckedNumeric := Checked 0 RANGE_VALID.
Definition cast_checked (t src : type) (u : CheckedNumeric) : CheckedNumeric := if decide (t = src) then u else state_of t src (value_ u) (validity_ u).
Definition IsValid (c : CheckedNumeric) : bool := validity_ c =? RANGE_VALID.
Definition ValueOrDie (c : CheckedNumeric) : outcome Z := guard_or (IsValid c) AssertFail (Ret (value_ c)).
Definition ValueOrDefault (c : CheckedNumeric) (default_value : Z) : Z := if IsValid c then value_ c else default_value.

Definition ArithmeticPromotion (lhs rhs : type) : type :=
  if MaxExponent rhs <? MaxExponent lhs then (if MaxExponent int32 <? MaxExponent lhs then lhs else int32)
  else (if MaxExponent int32 <? MaxExponent rhs then rhs else int32).
Definition IsIntegerArithmeticSafe (t lhs rhs : type) : bool :=
  StaticDstRangeRelationToSrcRange t lhs && (2 * sizeof lhs <=? sizeof t) && negb (StaticDstRangeRelationToSrcRange t rhs) && (2 * sizeof rhs <=? sizeof t).

Inductive op := Add | Sub | Mul | Div | Mod.
Definition checked (o : op) (t : type) (x y : Z) : option (Z * RangeConstraint) :=
  match o with Add => Some (CheckedAdd t x y) | Sub => Some (CheckedSub t x y) | Mul => CheckedMul t x y | Div => CheckedDiv t x y | Mod => CheckedMod t x y end.
(** The operator of the language on operands promoted to [t]. *)
Definition plain (o : op) (t : type) (x y : Z) : option Z :=
  match o with Add => Some (cast t (x + y)) | Sub => Some (cast t (x - y)) | Mul => Some (cast t (x * y)) | Div => div t x y | Mod => rem t x y end.

(** Two operands of the same type: the result of the checked function goes through [t]. *)
Definition operator_same (o : op) (t : type) (lhs rhs : CheckedNumeric) : option CheckedNumeric :=
  let promotion := ArithmeticPromotion t t in
  if IsIntegerArithmeticSafe promotion t t then
    r ← plain o promotion (value_ lhs) (value_ rhs); Some (state_of promotion promotion r (Z.lor (validity_ rhs) (validity_ lhs)))
  else
    r ← checked o promotion (cast promotion (value_ lhs)) (cast promotion (value_ rhs));
    Some (state_of promotion t (cast t r.1) (Z.lor (Z.lor r.2 (validity_ lhs)) (validity_ rhs))).
(** Operands of different types; a number at either side is one that is valid, and then the
    types may be the same. *)
Definition operator_cast (o : op) (promotion : type) (safe : bool) (l r : type) (lhs rhs : CheckedNumeric) : option CheckedNumeric :=
  if safe then
    v ← plain o promotion (value_ lhs) (value_ rhs); Some (state_of promotion promotion v (Z.lor (validity_ rhs) (validity_ lhs)))
  else operator_same o promotion (cast_checked promotion l lhs) (cast_checked promotion r rhs).
Definition operator (o : op) (l r : type) (lhs rhs : CheckedNumeric) : option CheckedNumeric :=
  if decide (l = r) then operator_same o l lhs rhs else operator_cast o (ArithmeticPromotion r l) (IsIntegerArithmeticSafe (ArithmeticPromotion r l) r l) l r lhs rhs.
Definition operator_number (o : op) (l r : type) (lhs : CheckedNumeric) (rhs : Z) : option CheckedNumeric :=
  operator_cast o (ArithmeticPromotion l r) (IsIntegerArithmeticSafe (ArithmeticPromotion l r) l r) l r lhs (state_of_value r r rhs).
Definition number_operator (o : op) (l r : type) (lhs : Z) (rhs : CheckedNumeric) : option CheckedNumeric :=
  operator_cast o (ArithmeticPromotion r l) (IsIntegerArithmeticSafe (ArithmeticPromotion r l) r l) l r (state_of_value l l lhs) rhs.
(** [lhs += rhs] and the others, where [rhs] is of type [src], checked or not. *)
Definition compound (o : op) (t src : type) (this rhs : CheckedNumeric) : option CheckedNumeric :=
  r ← operator o t src this rhs; Some (cast_checked t (ArithmeticPromotion src t) r).
Definition operator_neg (t : type) (c : CheckedNumeric) : CheckedNumeric :=
  let '(value, validity) := CheckedNeg t (value_ c) in state_of t t value (Z.lor (validity_ c) validity).
Definition Abs (t : type) (c : CheckedNumeric) : CheckedNumeric :=
  let '(value, validity) := CheckedAbs t (value_ c) in state_of t t value (Z.lor (validity_ c) validity).
Definition increment (t : type) (c : CheckedNumeric) : option CheckedNumeric := compound Add t int32 c (state_of_value int32 int32 1).
Definition decrement (t : type) (c : CheckedNumeric) : option CheckedNumeric := compound Sub t int32 c (state_of_value int32 int32 1).

(** * Ranges *)
Definition in_range (t : type) (v : Z) : Prop := min t <= v <= max t.
(** What the validity of an exact result should be. *)
Definition judge (t : type) (v : Z) : RangeConstraint := if v <? min t then RANGE_UNDERFLOW else if max t <? v then RANGE_OVERFLOW else RANGE_VALID.
Definition wide (t : type) : Prop := 4 <= sizeof t.

Lemma promote_wide t : wide t -> promote t = t.
Proof. by destruct t. Qed.
Lemma judge_valid t v : judge t v = RANGE_VALID <-> in_range t v.
Proof. unfold judge, in_range. destruct (Z.ltb_spec v (min t)), (Z.ltb_spec (max t) v); split; intros; try done; lia. Qed.
(** Half of the range of a type. *)
Definition half (t : type) : Z := 2 ^ (bits t - 1).
Lemma half_pos t : 0 < half t.
Proof. by destruct t. Qed.
Lemma pow_bits t : 2 ^ bits t = 2 * half t.
Proof. by destruct t. Qed.
Lemma width_pos t : 0 < bits t.
Proof. by destruct t. Qed.
Lemma range_signed t v : is_signed t = true -> in_range t v <-> - half t <= v < half t.
Proof. intros Hs. unfold in_range, min, max. rewrite Hs. fold (half t). lia. Qed.
Lemma range_unsigned t v : is_signed t = false -> in_range t v <-> 0 <= v < 2 * half t.
Proof. intros Hs. unfold in_range, min, max. rewrite Hs, pow_bits. lia. Qed.
Lemma cast_in t v : in_range t v -> cast t v = v.
Proof.
  intros H. pose proof (width_pos t). unfold cast. destruct (is_signed t) eqn:E.
  - apply swrap_small; [done|]. apply range_signed in H; [|done]. unfold half in H. lia.
  - apply uwrap_small. apply range_unsigned in H; [|done]. rewrite pow_bits. lia.
Qed.
Lemma cast_range t v : in_range t (cast t v).
Proof.
  pose proof (width_pos t). pose proof (half_pos t). unfold cast. destruct (is_signed t) eqn:E.
  - apply range_signed; [done|]. unfold swrap. pose proof (Z.mod_pos_bound (v + 2 ^ (bits t - 1)) (2 ^ bits t)) as Hm. rewrite pow_bits in *. fold (half t) in *. lia.
  - apply range_unsigned; [done|]. pose proof (uwrap_range (bits t) v). rewrite pow_bits in *. lia.
Qed.
Lemma cast_uwrap t v : cast t (uwrap (bits t) v) = cast t v.
Proof. unfold cast. destruct (is_signed t); [by apply swrap_uwrap, width_pos|apply uwrap_idem]. Qed.
(** The conversions, for every pair of types. *)
Lemma constraint_judge t v (up low : bool) : (up = true <-> v <= max t) -> (low = true <-> min t <= v) -> GetRangeConstraint up low = judge t v.
Proof.
  intros Hu Hl. assert (min t <= max t) by (by destruct t). unfold judge, GetRangeConstraint. destruct (Z.ltb_spec v (min t)) as [Hlt|Hge]; [|destruct (Z.ltb_spec (max t) v) as [Hgt|Hle]].
  - assert (low = false) as -> by (apply not_true_iff_false; rewrite Hl; lia). assert (up = true) as -> by (apply Hu; lia). done.
  - assert (low = true) as -> by (by apply Hl). assert (up = false) as -> by (apply not_true_iff_false; rewrite Hu; lia). done.
  - assert (low = true) as -> by (by apply Hl). assert (up = true) as -> by (by apply Hu). done.
Qed.
Lemma contained dst src : StaticDstRangeRelationToSrcRange dst src = true -> min dst <= min src /\ max src <= max dst.
Proof. destruct dst, src; intros E; vm_compute in E; try done; vm_compute; split; congruence. Qed.
Lemma not_contained dst src : StaticDstRangeRelationToSrcRange dst src = false ->
  match is_signed dst, is_signed src with
  | true, false => (sizeof src <? sizeof dst) = false /\ cast src (max dst) = max dst
  | false, true => if MaxExponent src <=? MaxExponent dst then max src <= max dst else cast src (max dst) = max dst
  | _, _ => True
  end.
Proof. destruct dst, src; intros E; vm_compute in E; try done; vm_compute; try done; congruence. Qed.
Lemma relation_judge dst src v : in_range src v -> DstRangeRelationToSrcRange dst src v = judge dst v.
Proof.
  intros H. unfold DstRangeRelationToSrcRange. destruct (StaticDstRangeRelationToSrcRange dst src) eqn:E.
  - apply contained in E. symmetry. apply judge_valid. unfold in_range in *. lia.
  - apply not_contained in E. assert (forall t, is_signed t = false -> min t = 0) as Hm by (intros t Ht; unfold min; by rewrite Ht). unfold in_range in H. destruct (is_signed dst) eqn:Ed, (is_signed src) eqn:Es.
    + apply constraint_judge; lia.
    + destruct E as [-> ->]. apply constraint_judge; [lia|]. rewrite (Hm src Es) in H. pose proof (range_signed dst (min dst) Ed) as Hr. pose proof (half_pos dst). assert (min dst = - half dst) by (unfold min; by rewrite Ed). split; [lia|done].
    + pose proof (Hm dst Ed) as E0. destruct (MaxExponent src <=? MaxExponent dst); [|rewrite E]; apply constraint_judge; rewrite ?E0; try lia; (split; [lia|done]).
    + apply constraint_judge; [lia|]. rewrite (Hm dst Ed). rewrite (Hm src Es) in H. split; [lia|done].
Qed.

(** * The checked functions *)
Lemma sign_bit t u : 0 <= u < 2 * half t -> HasSignBit t u = (half t <=? u).
Proof.
  intros Hu. unfold HasSignBit, half. pose proof (width_pos t). pose proof (half_pos t). unfold half in *. rewrite Z.testbit_odd, Z.shiftr_div_pow2 by lia. destruct (Z.leb_spec (2 ^ (bits t - 1)) u) as [H1|H1].
  - assert (u / 2 ^ (bits t - 1) = 1) as ->; [|done]. symmetry. apply (Z.div_unique u _ 1 (u - 2 ^ (bits t - 1))); lia.
  - by rewrite Z.div_small by lia.
Qed.
Lemma complement_bit t z : HasSignBit t (BinaryComplement t z) = negb (HasSignBit t z).
Proof. unfold HasSignBit, BinaryComplement, uwrap. pose proof (width_pos t). rewrite Z.mod_pow2_bits_low by lia. by rewrite Z.lnot_spec by lia. Qed.
Lemma unsigned_of t x : in_range t x -> uwrap (bits t) x = if x <? 0 then x + 2 * half t else x.
Proof.
  intros H. pose proof (half_pos t). unfold uwrap. rewrite pow_bits. assert (- half t <= x < 2 * half t) as Hx by (destruct (is_signed t) eqn:E; [apply range_signed in H; [lia|done]|apply range_unsigned in H; [lia|done]]).
  destruct (Z.ltb_spec x 0); [|apply Z.mod_small; lia]. symmetry. apply (Z.mod_unique _ _ (-1)); lia.
Qed.
Lemma wrap_sum t v : - (2 * half t) <= v < 2 * half t -> uwrap (bits t) v = if v <? 0 then v + 2 * half t else v.
Proof. intros Hv. unfold uwrap. rewrite pow_bits. destruct (Z.ltb_spec v 0); [|apply Z.mod_small; lia]. symmetry. apply (Z.mod_unique _ _ (-1)); lia. Qed.
Lemma wrap_add w a b : uwrap w (uwrap w a + uwrap w b) = uwrap w (a + b).
Proof. unfold uwrap. symmetry. apply Zplus_mod. Qed.
Lemma wrap_sub w a b : uwrap w (uwrap w a - uwrap w b) = uwrap w (a - b).
Proof. unfold uwrap. symmetry. apply Zminus_mod. Qed.
Lemma judge_cases t v r : (v < min t -> r = RANGE_UNDERFLOW) -> (max t < v -> r = RANGE_OVERFLOW) -> (in_range t v -> r = RANGE_VALID) -> r = judge t v.
Proof. intros H1 H2 H3. unfold judge, in_range in *. destruct (Z.ltb_spec v (min t)); [by apply H1|]. destruct (Z.ltb_spec (max t) v); [by apply H2|apply H3; lia]. Qed.
Lemma xor_bit t a b : HasSignBit t (Z.lxor a b) = xorb (HasSignBit t a) (HasSignBit t b).
Proof. apply Z.lxor_spec. Qed.
Lemma CheckedAdd_exact t x y : wide t -> in_range t x -> in_range t y -> CheckedAdd t x y = (cast t (x + y), judge t (x + y)).
Proof.
  intros Hw Hx Hy. unfold CheckedAdd. rewrite (promote_wide t Hw). rewrite wrap_add, cast_uwrap. f_equal. pose proof (half_pos t) as Hh. destruct (is_signed t) eqn:E.
  - rewrite complement_bit. unfold HasSignBit at 1. rewrite Z.land_spec. fold (HasSignBit t (Z.lxor (uwrap (bits t) (x + y)) (uwrap (bits t) x))) (HasSignBit t (Z.lxor (uwrap (bits t) (x + y)) (uwrap (bits t) y))). rewrite !xor_bit.
    rewrite (unsigned_of t x Hx), (unsigned_of t y Hy). apply (range_signed t x E) in Hx. apply (range_signed t y E) in Hy. rewrite (wrap_sum t (x + y)) by lia.
    assert (min t = - half t) by (unfold min; by rewrite E). assert (max t = half t - 1) by (unfold max; by rewrite E).
    rewrite !sign_bit by (destruct (Z.ltb_spec x 0), (Z.ltb_spec y 0), (Z.ltb_spec (x + y) 0); lia).
    apply judge_cases; unfold in_range; intros; destruct (Z.ltb_spec x 0), (Z.ltb_spec y 0), (Z.ltb_spec (x + y) 0); try lia; repeat (match goal with |- context [?a <=? ?b] => destruct (Z.leb_spec a b) end); try lia; done.
  - unfold BinaryComplement. apply (range_unsigned t x E) in Hx. apply (range_unsigned t y E) in Hy. assert (min t = 0) by (unfold min; by rewrite E). assert (max t = 2 * half t - 1) by (unfold max; by rewrite E, pow_bits).
    assert (Z.lnot x = - x - 1) as -> by (unfold Z.lnot; lia). rewrite wrap_sum by lia. rewrite (proj2 (Z.ltb_lt _ 0)) by lia. apply judge_cases; unfold in_range; intros; destruct (Z.leb_spec y (- x - 1 + 2 * half t)); try lia; done.
Qed.
Lemma CheckedSub_exact t x y : wide t -> in_range t x -> in_range t y -> CheckedSub t x y = (cast t (x - y), judge t (x - y)).
Proof.
  intros Hw Hx Hy. unfold CheckedSub. rewrite (promote_wide t Hw). rewrite wrap_sub, cast_uwrap. f_equal. pose proof (half_pos t) as Hh. destruct (is_signed t) eqn:E.
  - rewrite complement_bit. unfold HasSignBit at 1. rewrite Z.land_spec. fold (HasSignBit t (Z.lxor (uwrap (bits t) (x - y)) (uwrap (bits t) x))) (HasSignBit t (Z.lxor (uwrap (bits t) x) (uwrap (bits t) y))). rewrite !xor_bit.
    rewrite (unsigned_of t x Hx), (unsigned_of t y Hy). apply (range_signed t x E) in Hx. apply (range_signed t y E) in Hy. rewrite (wrap_sum t (x - y)) by lia.
    assert (min t = - half t) by (unfold min; by rewrite E). assert (max t = half t - 1) by (unfold max; by rewrite E).
    rewrite !sign_bit by (destruct (Z.ltb_spec x 0), (Z.ltb_spec y 0), (Z.ltb_spec (x - y) 0); lia).
    apply judge_cases; unfold in_range; intros; destruct (Z.ltb_spec x 0), (Z.ltb_spec y 0), (Z.ltb_spec (x - y) 0); try lia; repeat (match goal with |- context [?a <=? ?b] => destruct (Z.leb_spec a b) end); try lia; done.
  - apply (range_unsigned t x E) in Hx. apply (range_unsigned t y E) in Hy. assert (min t = 0) by (unfold min; by rewrite E). assert (max t = 2 * half t - 1) by (unfold max; by rewrite E, pow_bits).
    apply judge_cases; unfold in_range; intros; destruct (Z.leb_spec y x); try lia; done.
Qed.

(** Quotients as bounds of products. *)
Lemma le_quot a b c : 0 <= b -> 0 < c -> a <= Z.quot b c <-> a * c <= b.
Proof.
  intros Hb Hc. rewrite Z.quot_div_nonneg by lia. split; intros H.
  - pose proof (Z.mul_div_le b c Hc). pose proof (Z.mul_le_mono_nonneg_r a (b / c) c). lia.
  - apply Z.div_le_lower_bound; lia.
Qed.
Lemma quot_le_down a b c : b <= 0 -> 0 < c -> Z.quot b c <= a <-> b <= a * c.
Proof.
  intros Hb Hc. pose proof (le_quot (- a) (- b) c) as H. rewrite Z.quot_opp_l in H by lia. lia.
Qed.
Lemma quot_le_neg a b c : 0 <= b -> c < 0 -> Z.quot b c <= a <-> a * c <= b.
Proof.
  intros Hb Hc. pose proof (le_quot (- a) b (- c)) as H. rewrite Z.quot_opp_r in H by lia. lia.
Qed.
Lemma intermediate_range t x y : sizeof t * 2 <= 8 -> in_range t x -> in_range t y ->
  in_range (TwiceWiderInteger t) x /\ in_range (TwiceWiderInteger t) y /\ in_range (TwiceWiderInteger t) (x * y).
Proof.
  intros H. assert (half (TwiceWiderInteger t) = 2 * half t * half t /\ is_signed (TwiceWiderInteger t) = is_signed t) as [Eh Es] by (destruct t; done).
  pose proof (half_pos t). destruct (is_signed t) eqn:E; intros Hx Hy; [apply (range_signed t _ E) in Hx, Hy|apply (range_unsigned t _ E) in Hx, Hy].
  - rewrite !(range_signed _ _ Es), Eh. pose proof (Z.abs_le (x * y) (half t * half t)) as Ha. rewrite Z.abs_mul in Ha.
    assert (Z.abs x * Z.abs y <= half t * half t) by (apply Z.mul_le_mono_nonneg; lia). assert (half t <= half t * half t) by nia. lia.
  - rewrite !(range_unsigned _ _ Es), Eh. repeat split; nia.
Qed.
(** The product, except of zero and a negative number of 64 bits. *)
Lemma CheckedMul_exact t x y : in_range t x -> in_range t y -> ~ (t = int64 /\ x = 0 /\ y < 0) ->
  CheckedMul t x y = Some (cast t (x * y), judge t (x * y)).
Proof.
  intros Hx Hy Hn. unfold CheckedMul. destruct (Z.leb_spec (sizeof t * 2) 8) as [Hw|Hw].
  - destruct (intermediate_range t x y Hw Hx Hy) as (Hx' & Hy' & Hxy). by rewrite (cast_in _ x Hx'), (cast_in _ y Hy'), (cast_in _ _ Hxy), (relation_judge _ _ _ Hxy).
  - destruct (is_signed t) eqn:E.
    + assert (t = int64) as -> by (destruct t; try done; exfalso; (discriminate E || (revert Hw; vm_compute; intros ?; discriminate))). unfold in_range in Hx, Hy. assert (0 <= max int64) by done. assert (min int64 <= 0) by done.
      destruct ((x =? 0) && (y =? 0)) eqn:E0; [by replace x with 0 by lia; replace y with 0 by lia|].
      assert (~ (x = 0 /\ y < 0)) as Hn' by (intros []; by apply Hn). assert (x <> 0 \/ 0 < y) by lia. unfold div. change (promote int64) with int64.
      destruct (Z.ltb_spec 0 x), (Z.ltb_spec 0 y); rewrite ?(proj2 (Z.eqb_neq x 0)), ?(proj2 (Z.eqb_neq y 0)) by lia; cbn [orb].
      * change (max int64 =? min int64) with false. cbn [andb mbind option_bind]. do 2 f_equal. pose proof (le_quot x (max int64) y). apply judge_cases; unfold in_range; intros; destruct (Z.leb_spec x (Z.quot (max int64) y)); nia || done.
      * rewrite (proj2 (Z.eqb_neq x (-1))), andb_false_r by lia. cbn [mbind option_bind]. do 2 f_equal. pose proof (quot_le_down y (min int64) x). apply judge_cases; unfold in_range; intros; destruct (Z.leb_spec (Z.quot (min int64) x) y); nia || done.
      * rewrite (proj2 (Z.eqb_neq y (-1))), andb_false_r by lia. cbn [mbind option_bind]. do 2 f_equal. pose proof (quot_le_down x (min int64) y). apply judge_cases; unfold in_range; intros; destruct (Z.leb_spec (Z.quot (min int64) y) x); nia || done.
      * change (max int64 =? min int64) with false. cbn [andb mbind option_bind]. do 2 f_equal. pose proof (quot_le_neg y (max int64) x). apply judge_cases; unfold in_range; intros; destruct (Z.leb_spec (Z.quot (max int64) x) y); nia || done.
    + apply (range_unsigned t _ E) in Hx, Hy. assert (min t = 0) by (unfold min; by rewrite E). assert (0 <= max t) by (by destruct t).
      destruct (Z.eqb_spec y 0) as [->|].
      * cbn. do 2 f_equal. rewrite Z.mul_0_r. symmetry. apply judge_valid. unfold in_range. lia.
      * unfold div. rewrite (proj2 (Z.eqb_neq y 0)), E, andb_false_r by done. cbn [orb andb mbind option_bind]. do 2 f_equal. pose proof (le_quot x (max t) y). apply judge_cases; unfold in_range; intros; destruct (Z.leb_spec x (Z.quot (max t) y)); nia || done.
Qed.
Lemma quot_range t x y : in_range t x -> in_range t y -> y <> 0 -> ~ (is_signed t = true /\ x = min t /\ y = -1) -> in_range t (Z.quot x y).
Proof.
  intros Hx Hy Hy0 Hn. assert (Z.abs (Z.quot x y) <= Z.abs x) as Ha.
  { rewrite <- Z.quot_abs by done. rewrite Z.quot_div_nonneg by lia. apply Z.div_le_upper_bound; nia. }
  pose proof (half_pos t). destruct (is_signed t) eqn:E.
  - assert (min t = - half t) by (unfold min; by rewrite E). apply (range_signed t _ E) in Hx, Hy. apply (range_signed t _ E). destruct (decide (x = - half t)) as [->|]; [|lia].
    assert (y <> -1) by (intros ->; by apply Hn). destruct (decide (y = 1)) as [->|]; [rewrite Z.quot_1_r; lia|].
    assert (Z.abs (Z.quot (- half t) y) * Z.abs y <= half t); [|nia]. rewrite <- Z.quot_abs, Z.quot_div_nonneg by lia. pose proof (Z.mul_div_le (Z.abs (- half t)) (Z.abs y)). lia.
  - apply (range_unsigned t _ E) in Hx, Hy. apply (range_unsigned t _ E). pose proof (Z.quot_pos x y). lia.
Qed.
Lemma CheckedDiv_exact t x y : wide t -> in_range t x -> in_range t y -> y <> 0 ->
  CheckedDiv t x y = Some (cast t (Z.quot x y), judge t (Z.quot x y)).
Proof.
  intros Hw Hx Hy Hy0. unfold CheckedDiv. destruct (is_signed t && (x =? min t) && (y =? cast t (-1))) eqn:E.
  - apply andb_true_iff in E as [E Hy1]. apply andb_true_iff in E as [Es Hx1]. apply Z.eqb_eq in Hx1, Hy1. assert (cast t (-1) = -1) as Ec by (by apply cast_in; destruct t).
    rewrite Ec in Hy1. subst x y. rewrite (Z.quot_opp_r _ 1), Z.quot_1_r by lia. destruct t; done.
  - assert (is_signed t = true -> x = min t -> y = -1 -> False) as Hn.
    { intros Hs -> ->. rewrite Hs, Z.eqb_refl in E. cbn [andb] in E. rewrite cast_in in E by (by destruct t). done. }
    unfold div. rewrite (promote_wide t Hw), (proj2 (Z.eqb_neq y 0)) by done.
    assert ((x =? min t) && is_signed t && (y =? -1) = false) as ->.
    { apply not_true_iff_false. rewrite !andb_true_iff, !Z.eqb_eq. intros [[? ?] ?]. by apply Hn. }
    cbn [orb mbind option_bind]. assert (in_range t (Z.quot x y)) as Hq by (apply quot_range; try done; intros (? & ? & ?); by apply Hn). rewrite cast_in by done. do 2 f_equal. symmetry. by apply judge_valid.
Qed.
Lemma rem_in_range t x y : in_range t x -> in_range t y -> y <> 0 -> in_range t (Z.rem x y).
Proof.
  intros Hx Hy Hy0. pose proof (Z.rem_bound_abs x y Hy0). destruct (is_signed t) eqn:E; [apply (range_signed t _ E) in Hx, Hy; apply (range_signed t _ E)|apply (range_unsigned t _ E) in Hx, Hy; apply (range_unsigned t _ E)]; [lia|]. pose proof (Z.rem_nonneg x y Hy0). lia.
Qed.
Lemma CheckedMod_exact t x y : wide t -> in_range t x -> in_range t y -> y <> 0 -> ~ (is_signed t = true /\ x = min t /\ y = -1) ->
  CheckedMod t x y = Some (Z.rem x y, if y <? 0 then RANGE_INVALID else RANGE_VALID) /\ in_range t (Z.rem x y).
Proof.
  intros Hw Hx Hy Hy0 Hn. unfold CheckedMod, rem. rewrite (promote_wide t Hw), (proj2 (Z.eqb_neq y 0)) by done.
  assert ((x =? min t) && is_signed t && (y =? -1) = false) as ->.
  { apply not_true_iff_false. rewrite !andb_true_iff, !Z.eqb_eq. intros [[? ?] ?]. by apply Hn. }
  cbn [orb mbind option_bind]. split.
  - do 2 f_equal. destruct (is_signed t) eqn:E; [by destruct (Z.ltb_spec 0 y), (Z.ltb_spec y 0); try lia|]. apply (range_unsigned t _ E) in Hy. destruct (Z.ltb_spec y 0); [lia|done].
  - by apply rem_in_range.
Qed.
Lemma CheckedNeg_exact t x : in_range t x -> CheckedNeg t x = (cast t (- x), judge t (- x)).
Proof.
  intros Hx. unfold CheckedNeg. pose proof (half_pos t). destruct (is_signed t) eqn:E.
  - f_equal. assert (min t = - half t) by (unfold min; by rewrite E). assert (max t = half t - 1) by (unfold max; by rewrite E). unfold in_range in Hx.
    apply judge_cases; unfold in_range; intros; destruct (Z.eqb_spec x (min t)); cbn; (lia || done).
  - f_equal.
    + unfold cast. rewrite E. unfold uwrap. rewrite <- (Zminus_mod_idemp_r 0), <- (Zminus_mod_idemp_r 0 x). do 2 f_equal. assert (is_signed (SignedIntegerForSize t) = true /\ bits (SignedIntegerForSize t) = bits t) as [-> ->] by (by destruct t).
      pose proof (uwrap_swrap (bits t) x) as Hu. unfold uwrap in Hu. apply Hu. apply width_pos.
    + apply (range_unsigned t _ E) in Hx. assert (min t = 0) by (unfold min; by rewrite E). assert (max t = 2 * half t - 1) by (unfold max; by rewrite E, pow_bits). apply judge_cases; unfold in_range; intros; destruct (Z.eqb_spec x 0); cbn; (lia || done).
Qed.
Lemma CheckedAbs_exact t x : in_range t x -> CheckedAbs t x = (cast t (Z.abs x), judge t (Z.abs x)).
Proof.
  intros Hx. unfold CheckedAbs. pose proof (half_pos t). destruct (is_signed t) eqn:E.
  - f_equal. assert (min t = - half t) by (unfold min; by rewrite E). assert (max t = half t - 1) by (unfold max; by rewrite E). unfold in_range in Hx.
    apply judge_cases; unfold in_range; intros; destruct (Z.eqb_spec x (min t)); cbn; (lia || done).
  - pose proof Hx as Hr. apply (range_unsigned t _ E) in Hx. rewrite Z.abs_eq, cast_in by lia || done. f_equal. symmetry. by apply judge_valid.
Qed.
(** Dead code: no pair of types skips the checks. *)
Lemma never_safe l r : IsIntegerArithmeticSafe (ArithmeticPromotion l r) l r = false.
Proof. by destruct l, r. Qed.
Lemma promotion_wide l r : wide (ArithmeticPromotion l r).
Proof. by destruct l, r. Qed.
Lemma promotion_same t : wide t -> ArithmeticPromotion t t = t.
Proof. by destruct t. Qed.

(** * What the operations compute *)
Definition exact (o : op) (x y : Z) : Z :=
  match o with Add => x + y | Sub => x - y | Mul => x * y | Div => Z.quot x y | Mod => Z.rem x y end.
Definition traps (o : op) (t : type) (x y : Z) : bool :=
  match o with
  | Add | Sub => false
  | Mul => bool_decide (t = int64) && (x =? 0) && (y <? 0)
  | Div => y =? 0
  | Mod => (y =? 0) || (is_signed t && (x =? min t) && (y =? -1))
  end.
Definition verdict (o : op) (t : type) (x y : Z) : RangeConstraint :=
  match o with Mod => if y <? 0 then RANGE_INVALID else RANGE_VALID | _ => judge t (exact o x y) end.
Lemma checked_spec o t x y : wide t -> in_range t x -> in_range t y ->
  checked o t x y = if traps o t x y then None else Some (cast t (exact o x y), verdict o t x y).
Proof.
  intros Hw Hx Hy. destruct o; unfold checked, traps, exact, verdict.
  - by rewrite CheckedAdd_exact.
  - by rewrite CheckedSub_exact.
  - destruct (bool_decide (t = int64) && (x =? 0) && (y <? 0)) eqn:E.
    + rewrite !andb_true_iff, bool_decide_eq_true, Z.eqb_eq, Z.ltb_lt in E. destruct E as [[-> ->] Hy0]. unfold CheckedMul. cbn. destruct y; try lia. done.
    + apply CheckedMul_exact; [done|done|]. intros (-> & -> & Hy0). apply Z.ltb_lt in Hy0. rewrite Hy0 in E. done.
  - destruct (Z.eqb_spec y 0) as [->|]; [|by apply CheckedDiv_exact]. unfold CheckedDiv, div. rewrite (proj2 (Z.eqb_neq 0 (cast t (-1)))), andb_false_r by (by destruct t). done.
  - destruct ((y =? 0) || (is_signed t && (x =? min t) && (y =? -1))) eqn:E.
    + unfold CheckedMod, rem. rewrite (promote_wide t Hw). by rewrite (andb_comm (x =? min t) (is_signed t)), E.
    + apply orb_false_iff in E as [E1 E2]. apply Z.eqb_neq in E1. assert (~ (is_signed t = true /\ x = min t /\ y = -1)) as Hn by (intros (H1 & H2 & H3); rewrite H1, H2, H3, !Z.eqb_refl in E2; done).
      destruct (CheckedMod_exact t x y Hw Hx Hy E1 Hn) as [-> Hr]. by rewrite (cast_in _ _ Hr).
Qed.

(** A number with its state: in the range of its type. *)
Definition well_formed (t : type) (c : CheckedNumeric) : Prop := in_range t (value_ c).
(** [c] is the result at type [t] of operation [o] on [a] and [b]. *)
Definition computes (o : op) (t : type) (a b c : CheckedNumeric) : Prop :=
  well_formed t c /\
  (IsValid c = true <-> IsValid a = true /\ IsValid b = true /\ in_range t (value_ a) /\ in_range t (value_ b) /\
                        in_range t (exact o (value_ a) (value_ b)) /\ (o = Mod -> 0 <= value_ b)) /\
  (IsValid c = true -> value_ c = exact o (value_ a) (value_ b)).
Lemma valid_or v1 v2 x : IsValid (Checked x (Z.lor v1 v2)) = true <-> v1 = RANGE_VALID /\ v2 = RANGE_VALID.
Proof. unfold IsValid. cbn. rewrite Z.eqb_eq. apply Z.lor_eq_0_iff. Qed.
Lemma valid_zero c : IsValid c = true <-> validity_ c = RANGE_VALID.
Proof. apply Z.eqb_eq. Qed.
Lemma verdict_valid o t x y : in_range t x -> in_range t y -> traps o t x y = false ->
  verdict o t x y = RANGE_VALID <-> in_range t (exact o x y) /\ (o = Mod -> 0 <= y).
Proof.
  intros Hx Hy Ht. destruct o; try (unfold verdict; rewrite judge_valid; by split; [intros; split|intros []]).
  unfold traps in Ht. apply orb_false_iff in Ht as [Ht _]. apply Z.eqb_neq in Ht. pose proof (rem_in_range t x y Hx Hy Ht). unfold verdict, exact. destruct (Z.ltb_spec y 0); split; [done|intros [_ Hm]; specialize (Hm eq_refl); lia|done|done].
Qed.
(** Two operands of the same type, if it is at least as wide as [int]. *)
Lemma same_computes o t a b : wide t -> well_formed t a -> well_formed t b ->
  match operator_same o t a b with
  | None => traps o t (value_ a) (value_ b) = true
  | Some c => traps o t (value_ a) (value_ b) = false /\ computes o t a b c
  end.
Proof.
  intros Hw Ha Hb. unfold operator_same. rewrite never_safe, promotion_same, (cast_in _ _ Ha), (cast_in _ _ Hb), (checked_spec o t _ _ Hw Ha Hb) by done.
  destruct (traps o t (value_ a) (value_ b)) eqn:E; [done|]. split; [done|]. cbn [mbind option_bind fst snd]. pose proof (cast_range t (exact o (value_ a) (value_ b))) as Hc. unfold state_of. rewrite !(cast_in _ _ Hc), (relation_judge t t _ Hc).
  assert (judge t (cast t (exact o (value_ a) (value_ b))) = RANGE_VALID) as -> by (by apply judge_valid).
  pose proof (verdict_valid o t _ _ Ha Hb E) as Hv. split; [exact Hc|]. rewrite valid_or, !valid_zero. split.
  - change RANGE_VALID with 0 in *. rewrite !Z.lor_eq_0_iff. tauto.
  - cbn [value_]. rewrite Z.lor_eq_0_iff. intros [[H _] _]. rewrite Z.lor_eq_0_iff in H. apply cast_in, Hv, H.
Qed.
Definition yields (o : op) (t : type) (a b : CheckedNumeric) (r : option CheckedNumeric) : Prop :=
  match r with
  | None => traps o t (cast t (value_ a)) (cast t (value_ b)) = true
  | Some c => traps o t (cast t (value_ a)) (cast t (value_ b)) = false /\ computes o t a b c
  end.
Lemma cast_valid t src c : well_formed src c ->
  value_ (cast_checked t src c) = cast t (value_ c) /\ (IsValid (cast_checked t src c) = true <-> IsValid c = true /\ in_range t (value_ c)).
Proof.
  intros Hc. unfold cast_checked. destruct (decide (t = src)) as [->|].
  - rewrite cast_in by done. split; [done|]. by split; [split|intros []].
  - unfold state_of. cbn [value_]. split; [done|]. by rewrite valid_or, valid_zero, relation_judge, judge_valid.
Qed.
Lemma same_yields o t a b : wide t -> well_formed t a -> well_formed t b -> yields o t a b (operator_same o t a b).
Proof. intros Hw Ha Hb. unfold yields. rewrite (cast_in _ _ Ha), (cast_in _ _ Hb). by apply same_computes. Qed.
Lemma cast_yields o t l r a b : wide t -> well_formed l a -> well_formed r b -> yields o t a b (operator_cast o t false l r a b).
Proof.
  intros Hw Ha Hb. unfold operator_cast. destruct (cast_valid t l a Ha) as [Va Ia], (cast_valid t r b Hb) as [Vb Ib].
  assert (well_formed t (cast_checked t l a)) as Wa by (unfold well_formed; rewrite Va; apply cast_range). assert (well_formed t (cast_checked t r b)) as Wb by (unfold well_formed; rewrite Vb; apply cast_range).
  pose proof (same_computes o t _ _ Hw Wa Wb) as H. unfold yields. destruct (operator_same _ _ _ _) as [c|]; rewrite Va, Vb in H; [|done]. destruct H as [Ht (Wc & Ic & Vc)]. split; [done|]. split; [done|].
  rewrite Va, Vb, Ia, Ib in *. assert (IsValid c = true -> in_range t (value_ a) /\ in_range t (value_ b)) as Hin by (intros H; apply Ic in H; tauto). split.
  - split.
    + intros H. destruct (Hin H) as [Ra Rb]. apply Ic in H. rewrite (cast_in _ _ Ra), (cast_in _ _ Rb) in H. tauto.
    + intros (H1 & H2 & Ra & Rb & H). apply Ic. rewrite (cast_in _ _ Ra), (cast_in _ _ Rb). tauto.
  - intros H. destruct (Hin H) as [Ra Rb]. rewrite (Vc H). by rewrite (cast_in _ _ Ra), (cast_in _ _ Rb).
Qed.
Lemma operator_yields o l r a b : well_formed l a -> well_formed r b -> l <> r \/ wide l -> yields o (ArithmeticPromotion r l) a b (operator o l r a b).
Proof.
  intros Ha Hb Hw. unfold operator. destruct (decide (l = r)) as [<-|].
  - destruct Hw as [|Hw]; [done|]. rewrite (promotion_same l Hw). by apply same_yields.
  - rewrite never_safe. apply cast_yields; [apply promotion_wide|done|done].
Qed.
(** The result of a compound assignment goes back to the type of the left operand. *)
Lemma compound_yields o t src a b : well_formed t a -> well_formed src b -> t <> src \/ wide t ->
  match compound o t src a b with
  | None => traps o (ArithmeticPromotion src t) (cast (ArithmeticPromotion src t) (value_ a)) (cast (ArithmeticPromotion src t) (value_ b)) = true
  | Some c => exists m, computes o (ArithmeticPromotion src t) a b m /\ well_formed t c /\
      (IsValid c = true <-> IsValid m = true /\ in_range t (exact o (value_ a) (value_ b))) /\ (IsValid c = true -> value_ c = exact o (value_ a) (value_ b))
  end.
Proof.
  intros Ha Hb Hw. unfold compound. pose proof (operator_yields o t src a b Ha Hb Hw) as H. destruct (operator o t src a b) as [m|]; cbn [mbind option_bind]; [|exact H]. destruct H as [_ H]. exists m. split; [done|]. destruct H as (Wm & _ & Vm).
  destruct (cast_valid t _ _ Wm) as [Vc Ic]. unfold well_formed. rewrite Vc. split; [apply cast_range|]. rewrite Ic. split.
  - split; intros [H1 H2]; rewrite (Vm H1) in *; done.
  - intros [H1 H2]. rewrite cast_in by done. by apply Vm.
Qed.
(** [++] and [--], and negation and the absolute value. *)
Lemma step_exact (o : op) t c (e := exact o (value_ c) 1) : (o = Add \/ o = Sub) -> well_formed t c ->
  exists c', compound o t int32 c (state_of_value int32 int32 1) = Some c' /\ well_formed t c' /\
    (IsValid c' = true <-> IsValid c = true /\ in_range t e) /\ (IsValid c' = true -> value_ c' = e).
Proof.
  intros Ho Hc. assert (well_formed int32 (state_of_value int32 int32 1)) as Hb by done. assert (t <> int32 \/ wide t) as Hw by (destruct t; (by right) || by left).
  pose proof (compound_yields o t int32 c _ Hc Hb Hw) as H. destruct (compound _ _ _ _ _) as [c'|]; [|destruct Ho; subst o; done].
  destruct H as (m & (_ & Im & _) & Wc & Ic & Vc). exists c'. split; [done|]. split; [done|]. split; [|exact Vc]. rewrite Ic, Im. cbn [value_].
  assert (forall v, in_range t v -> in_range (ArithmeticPromotion int32 t) v) as Hp.
  { intros v Hv. assert (StaticDstRangeRelationToSrcRange (ArithmeticPromotion int32 t) t = true) as Hs by (by destruct t). apply contained in Hs. unfold in_range in *. lia. }
  assert (in_range (ArithmeticPromotion int32 t) (cast int32 1)) as H1 by (by destruct t). split; [tauto|]. intros [Hv He]. split; [|done]. split; [done|]. split; [done|]. split; [by apply Hp|]. split; [exact H1|]. split; [by apply Hp|]. intros ->. by destruct Ho.
Qed.
Lemma unary_exact t c v : well_formed t c -> let c' := state_of t t (cast t v) (Z.lor (validity_ c) (judge t v)) in
  well_formed t c' /\ (IsValid c' = true <-> IsValid c = true /\ in_range t v) /\ (IsValid c' = true -> value_ c' = v).
Proof.
  intros Hc c'. pose proof (cast_range t v) as Hv. unfold c', state_of, well_formed. rewrite (relation_judge t t _ Hv), (cast_in _ _ Hv). split; [exact Hv|].
  assert (judge t (cast t v) = RANGE_VALID) as -> by (by apply judge_valid). rewrite Z.lor_0_r. rewrite valid_or, valid_zero, judge_valid. split; [done|]. intros [_ Hr]. by apply cast_in.
Qed.

(** Two operands of one type narrower than [int]: the result of type [int] goes through the
    narrow type, unnoticed. *)
Lemma narrow_exact o t a b : ~ wide t -> well_formed t a -> well_formed t b ->
  match operator o t t a b with
  | None => traps o int32 (value_ a) (value_ b) = true
  | Some c => traps o int32 (value_ a) (value_ b) = false /\
      (IsValid c = true <-> IsValid a = true /\ IsValid b = true /\ in_range int32 (exact o (value_ a) (value_ b)) /\ (o = Mod -> 0 <= value_ b)) /\
      (IsValid c = true -> value_ c = cast t (exact o (value_ a) (value_ b)))
  end.
Proof.
  intros Hw Ha Hb. unfold operator. rewrite decide_True by done. unfold operator_same. rewrite never_safe.
  assert (ArithmeticPromotion t t = int32 /\ StaticDstRangeRelationToSrcRange int32 t = true) as [-> Hc] by (destruct t; first [done|exfalso; apply Hw; done]).
  assert (forall v, in_range t v -> in_range int32 v) as Hin by (intros v Hv; apply contained in Hc; unfold in_range in *; lia).
  pose proof (Hin _ Ha) as Ra. pose proof (Hin _ Hb) as Rb. rewrite (cast_in _ _ Ra), (cast_in _ _ Rb), (checked_spec o int32 _ _ ltac:(done) Ra Rb).
  destruct (traps o int32 (value_ a) (value_ b)) eqn:E; [done|]. split; [done|]. cbn [mbind option_bind fst snd]. unfold state_of.
  pose proof (cast_range t (cast int32 (exact o (value_ a) (value_ b)))) as Hr. rewrite (relation_judge int32 t _ Hr), (cast_in int32 _ (Hin _ Hr)). assert (judge int32 (cast t (cast int32 (exact o (value_ a) (value_ b)))) = RANGE_VALID) as -> by (apply judge_valid, Hin, Hr).
  pose proof (verdict_valid o int32 _ _ Ra Rb E) as Hv. rewrite valid_or, !valid_zero. change RANGE_VALID with 0 in *. rewrite !Z.lor_eq_0_iff. split; [tauto|].
  cbn [value_]. intros [[[H _] _] _]. apply Hv in H as [H _]. by rewrite (cast_in int32 _ H).
Qed.
Lemma checked_cast_exact dst src v : in_range src v -> checked_cast dst src v = if bool_decide (min dst <= v <= max dst) then Ret v else Fault AssertFail.
Proof.
  intros Hv. unfold checked_cast, IsValueInRangeForNumericType, guard_or. rewrite relation_judge by done. case_bool_decide as Hd.
  - apply judge_valid in Hd as Hj. rewrite Hj, cast_in by done. done.
  - destruct (Z.eqb_spec (judge dst v) RANGE_VALID) as [E|]; [|done]. by apply judge_valid in E.
Qed.
Lemma saturated_cast_exact dst src v : in_range src v -> saturated_cast dst src v = Ret (Z.max (min dst) (Z.min v (max dst))).
Proof.
  intros Hv. assert (min dst <= max dst) by (by destruct dst). unfold saturated_cast. rewrite relation_judge by done. unfold judge. destruct (Z.ltb_spec v (min dst)); [|destruct (Z.ltb_spec (max dst) v)]; cbn; f_equal; try lia. rewrite cast_in by (split; lia). lia.
Qed.
Lemma compound_valid o t src a b c : well_formed t a -> well_formed src b -> t <> src \/ wide t -> compound o t src a b = Some c ->
  well_formed t c /\ (IsValid c = true -> value_ c = exact o (value_ a) (value_ b)) /\
  (IsValid c = true <-> exists m, operator o t src a b = Some m /\ IsValid m = true /\ in_range t (value_ m)).
Proof.
  intros Ha Hb Hw. unfold compound. pose proof (operator_yields o t src a b Ha Hb Hw) as H. destruct (operator o t src a b) as [m|]; cbn [mbind option_bind]; [|done]. intros [= <-]. destruct H as (_ & Wm & _ & Vm).
  destruct (cast_valid t _ _ Wm) as [Vc Ic]. unfold well_formed. rewrite Vc. split; [apply cast_range|]. rewrite Ic. split.
  - intros [H1 H2]. rewrite cast_in by done. by apply Vm.
  - split; [intros []; by exists m|]. by intros (? & [= <-] & ?).
Qed.

(** C29: checked numbers.  The conversions: between any two of the eight integer types
    [checked_cast] returns the same number and fails its assertion if the type cannot
    hold it, and [saturated_cast] returns the nearest number the type holds.  The
    operators, on numbers of different types or of a type of 32 bits or more: the result is
    valid if and only if both operands are valid and fit the type the operation is done in,
    and the mathematical result fits it too (a remainder also needs a divisor that is
    positive); a valid result is the mathematical one.  On two numbers of one type of 8 or 16
    bits the operation is done in [int]: the result is valid under the same conditions for
    [int], but its value is the mathematical one wrapped around to the narrow type.  There is
    no result, because the division traps, exactly for a division by zero (of the operands as
    converted), for the remainder of the least number by minus one, and, in 64 bits, for the
    product of zero and a negative number.  A compound assignment also needs the result to
    fit the left operand's type; [++], [--], negation and [Abs] are exact for every type. *)
Theorem checked_exact o l r a b v (P := ArithmeticPromotion r l) : well_formed l a -> well_formed r b -> in_range l v ->
  checked_cast r l v = (if bool_decide (min r <= v <= max r) then Ret v else Fault AssertFail) /\
  saturated_cast r l v = Ret (Z.max (min r) (Z.min v (max r))) /\
  (l <> r \/ wide l ->
     yields o P a b (operator o l r a b) /\
     forall c, compound o l r a b = Some c -> well_formed l c /\ (IsValid c = true -> value_ c = exact o (value_ a) (value_ b)) /\
       (IsValid c = true <-> exists m, operator o l r a b = Some m /\ IsValid m = true /\ in_range l (value_ m))) /\
  (l = r -> ~ wide l ->
     match operator o l r a b with
     | None => traps o int32 (value_ a) (value_ b) = true
     | Some c => traps o int32 (value_ a) (value_ b) = false /\
         (IsValid c = true <-> IsValid a = true /\ IsValid b = true /\ in_range int32 (exact o (value_ a) (value_ b)) /\ (o = Mod -> 0 <= value_ b)) /\
         (IsValid c = true -> value_ c = cast l (exact o (value_ a) (value_ b)))
     end) /\
  yields o (ArithmeticPromotion l r) a (state_of_value r r (value_ b)) (operator_number o l r a (value_ b)) /\
  yields o P (state_of_value l l (value_ a)) b (number_operator o l r (value_ a) b) /\
  (exists c, increment l a = Some c /\ (IsValid c = true <-> IsValid a = true /\ value_ a < max l) /\ (IsValid c = true -> value_ c = value_ a + 1)) /\
  (exists c, decrement l a = Some c /\ (IsValid c = true <-> IsValid a = true /\ min l < value_ a) /\ (IsValid c = true -> value_ c = value_ a - 1)) /\
  (IsValid (operator_neg l a) = true <-> IsValid a = true /\ in_range l (- value_ a)) /\ (IsValid (operator_neg l a) = true -> value_ (operator_neg l a) = - value_ a) /\
  (IsValid (Abs l a) = true <-> IsValid a = true /\ in_range l (Z.abs (value_ a))) /\ (IsValid (Abs l a) = true -> value_ (Abs l a) = Z.abs (value_ a)).
Proof.
  intros Ha Hb Hv. pose proof Ha as Ra. unfold well_formed, in_range in Ra. split; [by apply checked_cast_exact|]. split; [by apply saturated_cast_exact|]. split; [|split; [|split; [|split; [|split; [|split]]]]].
  - intros Hw. split; [by apply operator_yields|]. intros c Hc. by apply compound_valid.
  - intros <- Hn. by apply narrow_exact.
  - unfold operator_number. rewrite never_safe. apply cast_yields; [apply promotion_wide|done|apply cast_range].
  - unfold number_operator. rewrite never_safe. apply cast_yields; [apply promotion_wide|apply cast_range|done].
  - destruct (step_exact Add l a (or_introl eq_refl) Ha) as (c & Hc & _ & Hi & Hx). exists c. split; [exact Hc|]. split; [|exact Hx]. rewrite Hi. unfold in_range, exact. split; intros []; split; try done; lia.
  - destruct (step_exact Sub l a (or_intror eq_refl) Ha) as (c & Hc & _ & Hi & Hx). exists c. split; [exact Hc|]. split; [|exact Hx]. rewrite Hi. unfold in_range, exact. split; intros []; split; try done; lia.
  - unfold operator_neg, Abs. rewrite (CheckedNeg_exact _ _ Ha), (CheckedAbs_exact _ _ Ha). destruct (unary_exact l a (- value_ a) Ha) as (_ & H1 & H2), (unary_exact l a (Z.abs (value_ a)) Ha) as (_ & H3 & H4). done.
Qed.
Lemma checked_exact_witness :
  yields Mul int32 (Checked 100 RANGE_VALID) (Checked 30000000 RANGE_VALID) (operator Mul int8 int32 (Checked 100 RANGE_VALID) (Checked 30000000 RANGE_VALID)) /\
  operator Mul int8 int32 (Checked 100 RANGE_VALID) (Checked 30000000 RANGE_VALID) = Some (Checked (-1294967296) RANGE_OVERFLOW) /\ saturated_cast int32 int8 (-5) = Ret (-5).
Proof.
  assert (well_formed int8 (Checked 100 RANGE_VALID)) as Ha by done. assert (well_formed int32 (Checked 30000000 RANGE_VALID)) as Hb by done. assert (in_range int8 (-5)) as Hv by done.
  destruct (checked_exact Mul int8 int32 _ _ _ Ha Hb Hv) as (_ & Hs & Ho & _). split; [|split; [vm_compute; reflexivity|exact Hs]]. apply Ho. left. intros E. discriminate E.
Defined.
(** Two operands of one narrow type: the sum of type [int] goes through the type. *)
Example narrow_sum_wraps : operator Add int8 int8 (Checked 100 RANGE_VALID) (Checked 100 RANGE_VALID) = Some (Checked (-56) RANGE_VALID).
Proof. reflexivity. Qed.
(** For a type narrower than [int] the sign bit tested is that of the [int]; the operators do
    not come here. *)
Example narrow_check_passes : CheckedAdd int8 100 100 = (-56, RANGE_VALID) /\ CheckedSub int16 (-30000) 30000 = (5536, RANGE_VALID).
Proof. split; reflexivity. Qed.
Example zero_times_negative_traps : operator Mul int64 int64 (Checked 0 RANGE_VALID) (Checked (-1) RANGE_VALID) = None.
Proof. reflexivity. Qed.
Example remainder_of_negative_divisor : operator Mod int32 int32 (Checked 7 RANGE_VALID) (Checked (-2) RANGE_VALID) = Some (Checked 1 RANGE_INVALID).
Proof. reflexivity. Qed.
